(* ===== verification/_CoqProject ===== *)
-Q . S2P
Prelude.v
Bitops.v
Str.v
Heap.v
Atomic.v
RefDir.v
Pd.v
Pool.v
God.v
Dll.v
Mpsc.v
Kern.v
Pal.v
Worker.v
Task.v
Event.v
EventRun.v
Swprio.v
Swcoop.v
Wakeup.v
Spinlock.v
Name.v
Timer.v
Clock.v
Sched.v
TaskLife.v
Sem.v
Msgq.v
Proc.v
Excp.v
Pr.v
SvcProc.v
Stack.v
Cpu.v
Context.v
Elf.v
Signal.v
WinStack.v
Windows.v
Pe.v
WinContext.v
Protocol.v
Prio.v
NameTable.v
Mpmcq.v
Mpmcring.v
Log.v
Init.v
