(* ===== verification/Prelude.v ===== *)
(** * PRS, the portable runtime system: verification library (root file)

    PRS runs cooperative tasks on POSIX threads.  A _task_ belongs to a _scheduler_,
    which has _workers_; a worker runs the tasks of its scheduler on one thread and
    goes idle when there are none.  Tasks wait for _events_, which semaphores, message
    queues and the _timer_ signal; the _clock_ ticks the timer.  Everything that has an
    identity is an object of the global object directory, found by its ID or, through
    the name resolver, by its name.  Nothing below the schedulers takes a lock: the
    containers are lock-free, and most of the theorems here are about what they
    guarantee in every interleaving.

    ** Configuration

    The 64-bit POSIX build with GCC is modelled, and parts of the Windows build in files of
    their own: run-time checking ([PRS_RTC_IF]) on,
    assertions and the debug-only integrity checks off.  [PRS_FATAL_WHEN] is an
    outcome ([Fatal]), undefined behaviour (null or dangling pointers, indices out of
    range, shifts by the width) another ([Undef]).  Atomic operations are sequentially
    consistent single steps; every access to shared memory is a step of its own,
    plain reads and writes included.

    ** Files

    - Prelude: results, outcomes, machine integers, generic lemmas.
    - Bitops (include/prs/pal/bitops.h), Str (prs/lib/str.c): pure functions.
    - Heap (prs/pal/stdc/malloc.c): which blocks are live; allocation may fail.
    - Atomic (include/prs/pal/atomic.h): programs as trees of atomic actions, their
      runs alone, up to a call, and interleaved, and a rely/guarantee logic with its
      adequacy.
    - RefDir: the contract of reference-counted directories, as an interface; Pd, Pool,
      God (prs/lib/ds/pd.c, pool.c, prs/god.c): the three implementations, each proved
      to be an instance, so that the clients' theorem of RefDir applies to each.
    - Dll (dllist.c, idllist.c): doubly linked lists against sequences of nodes.
    - Mpsc (mpscq.c, mpsciq.c): the queues, concurrent and alone.
    - Kern: the memory the modules above share.  From here on the directory and the
      queues are used at the level of the contracts proved in God.v and Mpsc.v: locking
      an object or pushing a node is one step.
    - Pal (prs/pal/posix/thread.c, context.c), Worker (prs/worker.c), Task (tokens and
      changes of state of prs/task.c), Event (prs/event.c), Swprio and Swcoop
      (prs/sched/), Spinlock, Name, Timer, Clock, Sched, TaskLife (the rest of
      prs/task.c), Stack (prs/alloc/stack.c and prs/pal/posix/mem.c): one file per
      module, function by function.
    - Protocol: rely/guarantee protocols over the kernel's memory.  Wakeup, Prio and
      NameTable: the protocols of going idle and waking up, of the priority
      scheduler's choice, and of the name table, with the theorems they give.
    - EventRun: what signalling does to the whole memory, for the modules that wait.
      Sem, Msgq, Proc, Excp (with prs/error.c), Pr: the modules built on events and
      queues, up to the calls that applications use; SvcProc: the requests to the
      process service, and the service; Init: start-up and exit (prs/init.c, main.c).
    - Mpmcq, Mpmcring (prs/lib/ds/mpmcq.c, mpmcring.c): the queues with many consumers,
      over the contracts of Pd.v and Pool.v; Log (prs/log.c and prs/svc/log.c).
    - Cpu: an AMD64 thread, its instructions and their runs.  Context
      (prs/pal/posix/context.c): register contexts, on the registers and the memory of that
      processor, with the assembly instruction by instruction.  Elf
      (prs/pal/linux/proc.c): the loader of programs, on the bytes of the file.  Signal
      (prs/pal/posix/signal.c, excp.c, pit.c, the rest of thread.c, prs/pal/linux/os.c):
      signals, threads and interval timers, at the level of the calls of the system.
    - WinStack (prs/pal/windows/mem.c, the Windows part of prs/alloc/stack.c) and Windows
      (prs/pal/windows/thread.c, pit.c, excp.c): what differs on the other platform.  Pe
      (prs/pal/windows/proc.c): its loader of programs.  WinContext
      (prs/pal/windows/context.c): its register contexts, on the processor of Cpu.v.

    Definitions carry the names of the C functions; a C global is a [cell], a field
    [field store projection update pointer].  A function of one thread reads like its
    source: [x <- read f; ...].

    ** Theorems

    - Directories: in every interleaving of threads that unlock what they lock nothing
      faults and the counts are the references held ([pd_clients_settled],
      [pool_clients_settled], [god_clients_settled]); exact results of the operations
      alone; capacity; what happens when the indices run out.
    - Queues: nothing lost, repeated or reordered ([mpsciq_interleavings],
      [mpscq_interleavings]); exact results alone, and termination of [destroy].
    - Scheduling: no wake-up is lost ([worker_wakes_up]); the priority scheduler takes a
      task that no ready task precedes ([swprio_runs_highest]).
    - Tasks and events: the first source that signals an event unblocks its task, the last
      one frees it, and the waiting task may itself be a source ([event_signalled_once]);
      when a stale token can unblock a task
      ([task_token_versions]).
    - Spinlocks: critical sections are serializable.
    - Names: what a lookup finds while others add and remove ([name_table_correct]).
    - Messages: sent messages are received once, in order, whatever the order of the calls
      ([pr_messages_roundtrip]); which message a call takes, at once or when a sender has
      woken it ([pr_receive_exact]); when a sender wakes the receiver ([msgq_send_exact]).
      The calls are those of ordinary tasks, with interrupts enabled and none pending.
      Semaphores: whom a signal unblocks ([sem_signal_exact]).
    - Processes: the table of loaded programs, the arguments, the registered objects;
      exceptions: who handles one, and what an error does ([excp_raise_exact]).
    - Queues with many consumers: first-in first-out for a thread alone ([mpmcq_fifo]); two
      lemmas exhibit interleavings in which the code loses an element.
    - Register contexts: a call put on top of an interrupted thread and the return from it
      ([context_call_roundtrip]), a switch and the switch back ([context_switch_roundtrip]).
      Loading a program: what the process holds afterwards ([elf_load_exact]), and what a
      failed load leaves ([elf_load_failure]).  Signals: which ones a worker's thread gets
      ([worker_signals_exact]), and what an invalid access does ([excp_fault_exact]).
    - Windows: the guard pages of a stack ([win_stack_keeps_layout]), and threads that
      interrupt one another ([win_interrupts_exclusive]); relocation ([pe_relocate_exact]);
      a call put on top of an interrupted thread ([win_context_call_roundtrip]), a switch
      and the switch back ([win_context_switch_roundtrip]).
    - Stacks: growing page by page on both platforms, and what is left when the system
      refuses a change of protection or to commit memory, which the sources ignore
      ([stack_grows_in_bounds], [win_stack_keeps_layout]).
    - Lists, strings, bit operations, the log's lines: exact results and bounds.

    Threads are lists of client operations of any length, there are any number of them,
    and theorems about interleavings quantify over the list of steps taken.  Loops take
    fuel.  The retries of lock-free loops are bounded by the changes the other threads
    make; where a theorem has a fuel it says how much is enough, and running out of
    fuel is an outcome that the theorem excludes.

    ** Not modelled

    Printing (the [print] callbacks, what is shown at start-up, the system information),
    the opening of the log file, and the examples are not modelled: what they do lies
    outside the program.  Nor are the start-up and the local storage of the Windows layer,
    which only call the system: the kernel's files are about the POSIX build.
    In the kernel's files, from Pal.v on, context switches appear as recorded calls, so that
    a schedule's choice is visible but the registers are not; Context.v has those.  The
    platform's loader, its interval timer, the filter functions and the callbacks of
    applications are interfaces (classes) there; Elf.v and Signal.v have the code of the
    first two, over the state of the process instead of the kernel's.  What the system does
    (signal delivery, the dynamic linker, the scheduling of threads) is stated as far as
    the sources rely on it; what it may refuse (memory, a protection, a commitment) is an
    answer taken from the state.  A receiver that waits with a timeout is modelled
    (Msgq.v), and its wait is left out of the theorems, like a task that goes on on another
    worker than the one it was blocked on.  The creation of the directories and of the log at start-up is
    not repeated in Init.v: the kernel's memory starts with them.

    ** Memory model

    The C sources use the default (sequentially consistent) order everywhere, so weaker
    orders are not modelled.  Plain accesses are interleaved like atomic ones: a data race
    shows as the values that it can read, not as undefined behaviour. *)

From Stdlib Require Export ZArith Lia Bool.
From stdpp Require Export base tactics numbers list option gmap relations.

Declare Scope prs_scope.
Delimit Scope prs_scope with prs.
#[global] Open Scope Z_scope.
#[global] Open Scope prs_scope.

(** ** Result codes

    [prs_result_t] of include/prs/result.h, constructor for constructor. *)

Inductive prs_result : Set :=
  | PRS_OK
  | PRS_UNKNOWN
  | PRS_NOT_IMPLEMENTED
  | PRS_OUT_OF_MEMORY
  | PRS_PLATFORM_ERROR
  | PRS_INVALID_STATE
  | PRS_NOT_FOUND
  | PRS_ALREADY_EXISTS
  | PRS_EMPTY
  | PRS_LOCKED
  | PRS_TIMEOUT.

#[export] Instance prs_result_eq_dec : EqDecision prs_result.
Proof. solve_decision. Defined.

(** ** Outcomes of C code

    A C function either returns, or stops the program through
    [PRS_FATAL_WHEN], or has no defined behaviour (a null or dangling pointer is
    dereferenced, an array is indexed out of range). *)

Inductive outcome (A : Type) : Type :=
  | Ret (a : A)
  | Fatal
  | Undef.
Arguments Ret {A} a.
Arguments Fatal {A}.
Arguments Undef {A}.

Definition obind {A B : Type} (m : outcome A) (k : A → outcome B) : outcome B :=
  match m with
  | Ret a => k a
  | Fatal => Fatal
  | Undef => Undef
  end.

#[export] Instance outcome_ret : MRet outcome := @Ret.
#[export] Instance outcome_bind : MBind outcome := λ A B k m, obind m k.

(** Reading through a pointer: no value means undefined behaviour. *)
Definition deref {A : Type} (o : option A) : outcome A :=
  match o with Some a => Ret a | None => Undef end.

(** [PRS_FATAL_WHEN(cond)] followed by the rest of the function. *)
Definition fatal_when (cond : bool) : outcome unit :=
  if cond then Fatal else Ret tt.

Lemma obind_ret {A B : Type} (m : outcome A) (k : A → outcome B) (b : B) :
  m ≫= k = Ret b ↔ ∃ a, m = Ret a ∧ k a = Ret b.
Proof. destruct m; simpl; naive_solver. Qed.

Lemma deref_ret {A : Type} (o : option A) (a : A) : deref o = Ret a ↔ o = Some a.
Proof. destruct o; simpl; naive_solver. Qed.

Lemma fatal_when_ret (c : bool) (u : unit) : fatal_when c = Ret u ↔ c = false.
Proof. destruct c, u; simpl; naive_solver. Qed.

(** Inverts an equation [m = Ret v] of a monadic computation down to the
    equations of its parts. *)
Ltac outcome_inv H :=
  repeat first
    [ rewrite obind_ret in H
    | rewrite deref_ret in H
    | rewrite fatal_when_ret in H
    | match type of H with
      | ∃ _, _ => destruct H as [? H]
      | _ ∧ _ => let Hl := fresh "Ho" in destruct H as [Hl H]; outcome_inv Hl
      | Ret _ = Ret _ => injection H as H
      end ].

(** Evaluates the monadic skeleton of a computation and nothing else. *)
Ltac ocbn := cbn [mbind outcome_bind obind mret outcome_ret deref fatal_when].

(** ** Memory

    Objects live at locations; a C pointer is [None] when it is null. *)

Abbreviation loc := positive.
Abbreviation ptr := (option loc).

(** ** Machine integers

    A [w]-bit unsigned integer is a [Z] in [0, 2^w); the operations below wrap. *)

Definition u32 (z : Z) : Z := z mod 2 ^ 32.
Definition u64 (z : Z) : Z := z mod 2 ^ 64.

(** Conversion of an unsigned value to the signed type of the same width. *)
Definition i64 (z : Z) : Z := (z + 2 ^ 63) mod 2 ^ 64 - 2 ^ 63.
Definition i32 (z : Z) : Z := (z + 2 ^ 31) mod 2 ^ 32 - 2 ^ 31.

(** A C scalar used as a condition. *)
Definition truthy (z : Z) : bool := negb (z =? 0).

Lemma truthy_true z : truthy z = true ↔ z ≠ 0.
Proof. unfold truthy. rewrite negb_true_iff, Z.eqb_neq. done. Qed.

Lemma truthy_false z : truthy z = false ↔ z = 0.
Proof. unfold truthy. rewrite negb_false_iff, Z.eqb_eq. done. Qed.

Lemma u32_range z : 0 ≤ u32 z < 2 ^ 32.
Proof. apply Z.mod_pos_bound. lia. Qed.

Lemma u64_range z : 0 ≤ u64 z < 2 ^ 64.
Proof. apply Z.mod_pos_bound. lia. Qed.

Lemma u32_small z : 0 ≤ z < 2 ^ 32 → u32 z = z.
Proof. apply Z.mod_small. Qed.

Lemma u64_small z : 0 ≤ z < 2 ^ 64 → u64 z = z.
Proof. apply Z.mod_small. Qed.

Lemma u32_mod z : u32 (u32 z) = u32 z.
Proof. apply Z.mod_mod. lia. Qed.

Lemma u32_add_l a b : u32 (u32 a + b) = u32 (a + b).
Proof. unfold u32. apply Zplus_mod_idemp_l. Qed.

Lemma u32_sub_self_add a b : u32 (u32 (a + b) - a) = u32 b.
Proof.
  unfold u32. rewrite Zminus_mod_idemp_l. f_equal. lia.
Qed.

Lemma i64_small z : - 2 ^ 63 ≤ z < 2 ^ 63 → i64 z = z.
Proof. intros H. unfold i64. rewrite Z.mod_small; lia. Qed.

(** ** Arrays

    A memory block is a list of cells; an access outside it is undefined. *)

Definition load {A : Type} (b : list A) (i : Z) : outcome A :=
  if 0 <=? i then deref (b !! Z.to_nat i) else Undef.

Definition store {A : Type} (b : list A) (i : Z) (x : A) : outcome (list A) :=
  if (0 <=? i) && (i <? Z.of_nat (length b)) then Ret (<[Z.to_nat i := x]> b) else Undef.

Lemma store_in {A : Type} (b : list A) (i : Z) (x : A) :
  0 ≤ i < Z.of_nat (length b) → store b i x = Ret (<[Z.to_nat i := x]> b).
Proof.
  intros H. unfold store. destruct (Z.leb_spec 0 i), (Z.ltb_spec i (Z.of_nat (length b))); try lia.
  done.
Qed.

Lemma store_out {A : Type} (b : list A) (i : Z) (x : A) :
  ¬ (0 ≤ i < Z.of_nat (length b)) → store b i x = Undef.
Proof.
  intros H. unfold store. destruct (Z.leb_spec 0 i), (Z.ltb_spec i (Z.of_nat (length b))); try lia;
  done.
Qed.

(** ** Bit-level reasoning *)

Lemma testbit_above n p i : 0 ≤ n < 2 ^ p → p ≤ i → Z.testbit n i = false.
Proof.
  intros Hn Hi. destruct (Z.le_gt_cases 0 p) as [Hp|Hp].
  - rewrite <- (Z.mod_small n (2 ^ p)) by lia. by apply Z.mod_pow2_bits_high.
  - rewrite Z.pow_neg_r in Hn by lia. lia.
Qed.

Lemma testbit_pow2 k i : 0 ≤ k → Z.testbit (2 ^ k) i = (i =? k).
Proof.
  intros Hk. destruct (Z.eqb_spec i k) as [->|Hne].
  - apply Z.pow2_bits_true. lia.
  - apply Z.pow2_bits_false. lia.
Qed.

Lemma bounded_of_testbit n p :
  0 ≤ n → 0 ≤ p → (∀ i, p ≤ i → Z.testbit n i = false) → n < 2 ^ p.
Proof.
  intros Hn Hp Hb. destruct (decide (n = 0)) as [->|Hnz]; [lia|].
  apply Z.log2_lt_pow2; [lia|].
  destruct (Z.lt_ge_cases (Z.log2 n) p) as [|Hge]; [done|].
  pose proof (Z.bit_log2 n ltac:(lia)) as Hbit.
  rewrite Hb in Hbit by lia. done.
Qed.

(** Disjoint bit patterns add without carries. *)
Lemma lor_disjoint a b : Z.land a b = 0 → Z.lor a b = a + b.
Proof. intros H. pose proof (Z.add_lor_land a b). lia. Qed.

(** The C expression [x & ((1 << p) - 1)]: the [p] low bits. *)
Lemma land_low x p : 0 ≤ p → Z.land x (2 ^ p - 1) = x mod 2 ^ p.
Proof.
  intros Hp. replace (2 ^ p - 1) with (Z.ones p) by (rewrite Z.ones_equiv; lia).
  by apply Z.land_ones.
Qed.

(** The C expression [x & (((1 << b) - 1) << s)]: a field of [b] bits at [s]. *)
Lemma land_field x b s :
  0 ≤ b → 0 ≤ s →
  Z.land x (Z.shiftl (2 ^ b - 1) s) = x / 2 ^ s mod 2 ^ b * 2 ^ s.
Proof.
  intros Hb Hs. rewrite <- Z.shiftl_mul_pow2, <- land_low by lia.
  rewrite <- Z.shiftr_div_pow2 by lia.
  apply Z.bits_inj'. intros i Hi.
  rewrite Z.land_spec, !Z.shiftl_spec by lia.
  destruct (Z.lt_ge_cases i s) as [Hlt|Hge].
  - rewrite !(Z.testbit_neg_r _ (i - s)) by lia. by rewrite andb_false_r.
  - rewrite Z.land_spec, Z.shiftr_spec by lia. f_equal. f_equal. lia.
Qed.

(** A single-bit flag. *)
Lemma land_bit x s : 0 ≤ s → Z.land x (2 ^ s) = x / 2 ^ s mod 2 * 2 ^ s.
Proof.
  intros Hs. pose proof (land_field x 1 s ltac:(lia) Hs) as H.
  change (2 ^ 1 - 1) with 1 in H. by rewrite Z.shiftl_1_l in H.
Qed.

Lemma mod_mod_pow2 x a b : 0 ≤ b ≤ a → (x mod 2 ^ a) mod 2 ^ b = x mod 2 ^ b.
Proof.
  intros H. apply Z.mod_mod_divide. exists (2 ^ (a - b)).
  rewrite <- Z.pow_add_r by lia. f_equal. lia.
Qed.

Lemma land_high_low a b p : 0 ≤ p → 0 ≤ b < 2 ^ p → Z.land (a * 2 ^ p) b = 0.
Proof.
  intros Hp Hb. apply Z.bits_inj'. intros i Hi.
  rewrite Z.land_spec, Z.bits_0.
  destruct (Z.lt_ge_cases i p) as [Hlt|Hge].
  - rewrite Z.mul_pow2_bits_low by lia. done.
  - rewrite (testbit_above b p) by lia. apply andb_false_r.
Qed.

Lemma lor_high_low a b p : 0 ≤ p → 0 ≤ b < 2 ^ p → Z.lor (a * 2 ^ p) b = a * 2 ^ p + b.
Proof. intros Hp Hb. apply lor_disjoint. by apply land_high_low. Qed.

(** ** Transition systems

    Concurrent components are step relations on a global state; a property that
    holds initially and is kept by every step holds in every reachable state. *)

Section transition_system.
Context {S : Type} (init : S → Prop) (step : S → S → Prop).

Definition reachable (s : S) : Prop := ∃ s0, init s0 ∧ rtc step s0 s.

Lemma reachable_init s : init s → reachable s.
Proof. intros H. exists s. by split; [|constructor]. Qed.

Lemma reachable_step s s' : reachable s → step s s' → reachable s'.
Proof.
  intros (s0 & Hi & Hr) Hs. exists s0. split; [done|]. by eapply rtc_r.
Qed.

Lemma reachable_invariant (I : S → Prop) :
  (∀ s, init s → I s) → (∀ s s', I s → step s s' → I s') →
  ∀ s, reachable s → I s.
Proof.
  intros Hinit Hstep s (s0 & H0 & Hr). apply Hinit in H0.
  induction Hr; eauto.
Qed.
End transition_system.

(** ** Lists *)

Lemma lookup_snoc_last {A : Type} (l : list A) (x : A) : (l ++ [x]) !! length l = Some x.
Proof. by rewrite lookup_app_r, Nat.sub_diag by lia. Qed.

Lemma last_app_nonnil {A : Type} (l1 l2 : list A) : l2 ≠ [] → last (l1 ++ l2) = last l2.
Proof.
  intros H. rewrite last_app. destruct (last l2) eqn:E; [done|].
  by apply last_None in E.
Qed.

Create HintDb prs.
Create Rewrite HintDb prs_rw.
#[export] Hint Resolve u32_range u64_range reachable_init reachable_step : prs.
#[export] Hint Rewrite @u32_mod @u32_add_l @u32_sub_self_add : prs_rw.
