(* ===== verification/Bitops.v ===== *)
(** * Bit operations (include/prs/pal/bitops.h)

    The inline helpers the timer wheels, the schedulers and the directories are
    built on: highest and lowest set bit, next power of two, alignment and the
    power-of-two test.  Both variants of the bit scans are modelled, the compiler
    builtins and the portable loops, at 32 and 64 bits. *)

From S2P Require Import Prelude.

(** The count-leading-zeros and count-trailing-zeros builtins, defined for
    non-zero arguments as GCC documents them. *)
Definition builtin_clz (w v : Z) : Z := w - 1 - Z.log2 v.

Fixpoint pos_ctz (p : positive) : Z :=
  match p with
  | xO q => 1 + pos_ctz q
  | _ => 0
  end.

Definition builtin_ctz (v : Z) : Z :=
  match v with
  | Zpos p => pos_ctz p
  | _ => 0
  end.

(** [prs_bitops_hsb_uint64], [prs_bitops_hsb_uint32]: the GCC branch. *)
Definition prs_bitops_hsb_uint64 (v : Z) : Z :=
  if v =? 0 then -1 else 64 - builtin_clz 64 v - 1.

Definition prs_bitops_hsb_uint32 (v : Z) : Z :=
  if v =? 0 then -1 else 32 - builtin_clz 32 v - 1.

(** [prs_bitops_lsb_uint64], [prs_bitops_lsb_uint32]: the GCC branch. *)
Definition prs_bitops_lsb_uint64 (v : Z) : Z :=
  if v =? 0 then -1 else builtin_ctz v.

Definition prs_bitops_lsb_uint32 (v : Z) : Z :=
  if v =? 0 then -1 else builtin_ctz v.

(** The register-width selectors, on a machine with 8-byte pointers. *)
Definition prs_bitops_hsb_uint (v : Z) : Z := prs_bitops_hsb_uint64 v.
Definition prs_bitops_lsb_uint (v : Z) : Z := prs_bitops_lsb_uint64 v.

(** [_PRS_BITOPS_HSB]: the portable loop, [pos] running from [n - 1] down to 0. *)
Fixpoint bitops_hsb_loop (v : Z) (n : nat) : Z :=
  match n with
  | O => -1
  | S pos =>
      if truthy (Z.land v (Z.shiftl 1 (Z.of_nat pos))) then Z.of_nat pos
      else bitops_hsb_loop v pos
  end.

Definition _PRS_BITOPS_HSB (w : nat) (v : Z) : Z := bitops_hsb_loop v w.

(** [_PRS_BITOPS_LSB]: the portable loop, [n] rounds left from [pos] on.  Its
    bound is [sizeof(t) * 8 - 1], exclusive. *)
Fixpoint bitops_lsb_loop (v : Z) (pos : Z) (n : nat) : Z :=
  match n with
  | O => -1
  | S n' =>
      if truthy (Z.land v (Z.shiftl 1 pos)) then pos
      else bitops_lsb_loop v (pos + 1) n'
  end.

Definition _PRS_BITOPS_LSB (w : nat) (v : Z) : Z := bitops_lsb_loop v 0 (w - 1).

(** [prs_bitops_next_power_of_2] on 64-bit registers. *)
Definition prs_bitops_next_power_of_2 (v : Z) : Z :=
  let v := u64 (v - 1) in
  let v := Z.lor v (Z.shiftr v 1) in
  let v := Z.lor v (Z.shiftr v 2) in
  let v := Z.lor v (Z.shiftr v 4) in
  let v := Z.lor v (Z.shiftr v 8) in
  let v := Z.lor v (Z.shiftr v 16) in
  let v := Z.lor v (Z.shiftr v 32) in
  u64 (v + 1).

(** [prs_bitops_align_size]. *)
Definition prs_bitops_align_size (size align : Z) : Z :=
  let mask := u64 (align - 1) in
  Z.land (u64 (size + mask)) (u64 (Z.lnot mask)).

(** [prs_bitops_is_power_of_2]. *)
Definition prs_bitops_is_power_of_2 (value : Z) : bool :=
  truthy value && negb (truthy (Z.land value (u64 (value - 1)))).

(** ** Bit scans *)

Lemma truthy_land_pow2 v pos :
  0 ≤ pos → truthy (Z.land v (Z.shiftl 1 pos)) = Z.testbit v pos.
Proof.
  intros Hp. rewrite Z.shiftl_1_l, land_bit by done.
  rewrite <- Z.testbit_spec' by done.
  destruct (Z.testbit v pos); simpl Z.b2z.
  - apply truthy_true. lia.
  - apply truthy_false. lia.
Qed.

Lemma hsb_uint64_log2 v : 0 < v → prs_bitops_hsb_uint64 v = Z.log2 v.
Proof.
  intros Hv. unfold prs_bitops_hsb_uint64, builtin_clz.
  destruct (Z.eqb_spec v 0); lia.
Qed.

Lemma hsb_uint32_log2 v : 0 < v → prs_bitops_hsb_uint32 v = Z.log2 v.
Proof.
  intros Hv. unfold prs_bitops_hsb_uint32, builtin_clz.
  destruct (Z.eqb_spec v 0); lia.
Qed.

Lemma hsb_loop_spec v n :
  0 ≤ v < 2 ^ Z.of_nat n →
  bitops_hsb_loop v n = (if v =? 0 then -1 else Z.log2 v).
Proof.
  revert v. induction n as [|n IH]; intros v Hv; simpl.
  - change (2 ^ Z.of_nat 0) with 1 in Hv.
    destruct (Z.eqb_spec v 0); [done|lia].
  - rewrite truthy_land_pow2 by lia.
    destruct (Z.testbit v (Z.of_nat n)) eqn:Hb.
    + destruct (Z.eqb_spec v 0) as [->|Hnz]; [by rewrite Z.bits_0 in Hb|].
      symmetry. apply Z.log2_unique; [lia|]. split.
      * destruct (Z.le_gt_cases (2 ^ Z.of_nat n) v); [done|].
        rewrite (testbit_above v (Z.of_nat n)) in Hb by lia. done.
      * replace (Z.succ (Z.of_nat n)) with (Z.of_nat (S n)) by lia. lia.
    + apply IH. split; [lia|]. apply bounded_of_testbit; [lia..|].
      intros i Hi. destruct (decide (i = Z.of_nat n)) as [->|]; [done|].
      apply (testbit_above v (Z.of_nat (S n))); lia.
Qed.

Lemma ctz_testbit v : 0 < v → Z.testbit v (builtin_ctz v) = true.
Proof.
  destruct v as [|p|p]; try lia. intros _. simpl builtin_ctz.
  induction p as [p _|p IH|]; simpl pos_ctz; [done| |done].
  rewrite Pos2Z.pos_xO. rewrite <- IH.
  replace (1 + pos_ctz p) with (Z.succ (pos_ctz p)) by lia.
  apply Z.double_bits_succ.
Qed.

Lemma ctz_nonneg v : 0 ≤ builtin_ctz v.
Proof. destruct v as [|p|p]; simpl; try lia. induction p; simpl; lia. Qed.

Lemma ctz_below v i : 0 < v → i < builtin_ctz v → Z.testbit v i = false.
Proof.
  destruct v as [|p|p]; try lia. intros _. simpl builtin_ctz. revert i.
  induction p as [p _|p IH|]; simpl pos_ctz; intros i Hi.
  - by apply Z.testbit_neg_r.
  - rewrite Pos2Z.pos_xO. destruct (Z.lt_ge_cases i 1) as [Hlt|Hge].
    + destruct (decide (i = 0)) as [->|]; [|apply Z.testbit_neg_r; lia].
      by rewrite Z.testbit_even_0.
    + replace i with (Z.succ (i - 1)) by lia. rewrite Z.double_bits_succ.
      apply IH. lia.
  - by apply Z.testbit_neg_r.
Qed.

Lemma ctz_lt v w : 0 < v < 2 ^ w → builtin_ctz v < w.
Proof.
  intros Hv. destruct (Z.lt_ge_cases (builtin_ctz v) w) as [|Hge]; [done|].
  pose proof (ctz_testbit v ltac:(lia)) as Hb.
  rewrite (testbit_above v w) in Hb by lia. done.
Qed.

Lemma lsb_loop_spec v pos n :
  0 ≤ pos → (∀ i, i < pos → Z.testbit v i = false) → 0 < v →
  bitops_lsb_loop v pos n =
    (if builtin_ctz v <? pos + Z.of_nat n then builtin_ctz v else -1).
Proof.
  revert pos. induction n as [|n IH]; intros pos Hp Hlow Hv; cbn [bitops_lsb_loop].
  - destruct (Z.ltb_spec (builtin_ctz v) (pos + Z.of_nat 0)) as [Hlt|]; [|done].
    pose proof (ctz_testbit v Hv) as Hb. rewrite Hlow in Hb by lia. done.
  - rewrite truthy_land_pow2 by lia.
    assert (pos ≤ builtin_ctz v) as Hle.
    { destruct (Z.le_gt_cases pos (builtin_ctz v)) as [|Hgt]; [done|].
      pose proof (ctz_testbit v Hv) as Hb. rewrite Hlow in Hb by lia. done. }
    destruct (Z.testbit v pos) eqn:Hb.
    + assert (builtin_ctz v = pos) as ->.
      { destruct (decide (builtin_ctz v = pos)) as [|Hne]; [done|].
        rewrite (ctz_below v pos) in Hb by lia. done. }
      rewrite (proj2 (Z.ltb_lt _ _)); [done|lia].
    + rewrite IH; [|lia| |done].
      * by replace (pos + 1 + Z.of_nat n) with (pos + Z.of_nat (S n)) by lia.
      * intros i Hi. destruct (decide (i = pos)) as [->|]; [done|]. apply Hlow. lia.
Qed.

Lemma lsb_bound_cases v :
  0 < v < 2 ^ 64 →
  (if builtin_ctz v <? 63 then builtin_ctz v else -1) =
  (if v =? 2 ^ 63 then -1 else builtin_ctz v).
Proof.
  intros Hv. pose proof (ctz_lt v 64 Hv) as Hlt. pose proof (ctz_testbit v ltac:(lia)) as Hb.
  destruct (Z.eqb_spec v (2 ^ 63)) as [->|Hne]; [done|].
  rewrite (proj2 (Z.ltb_lt _ _)); [done|].
  destruct (decide (builtin_ctz v = 63)) as [He|]; [|lia].
  exfalso. apply Hne. apply Z.bits_inj'. intros i Hi. rewrite testbit_pow2 by lia.
  destruct (Z.eqb_spec i 63) as [->|]; [by rewrite <- He|].
  destruct (Z.lt_ge_cases i 63).
  - apply ctz_below; lia.
  - apply (testbit_above v 64); lia.
Qed.

(** C36: the portable scan loops and the compiler-builtin versions agree on every
    64-bit value, except that the portable lowest-bit loop, whose bound leaves out
    the top bit, misses the value that has only that bit. *)
Theorem scan_loops_agree v :
  0 ≤ v < 2 ^ 64 →
  _PRS_BITOPS_HSB 64 v = prs_bitops_hsb_uint64 v ∧
  _PRS_BITOPS_LSB 64 v = (if v =? 2 ^ 63 then -1 else prs_bitops_lsb_uint64 v).
Proof.
  intros Hv. unfold _PRS_BITOPS_HSB, _PRS_BITOPS_LSB, prs_bitops_lsb_uint64.
  split.
  - rewrite hsb_loop_spec by lia. destruct (Z.eqb_spec v 0) as [->|]; [done|].
    rewrite hsb_uint64_log2 by lia. done.
  - destruct (Z.eqb_spec v 0) as [->|]; [done|].
    rewrite lsb_loop_spec; [|lia| |lia].
    + change (0 + Z.of_nat (64 - 1)) with 63. apply lsb_bound_cases. lia.
    + intros i Hi. by apply Z.testbit_neg_r.
Qed.

Lemma scan_loops_agree_witness :
  0 ≤ 2 ^ 63 < 2 ^ 64 ∧ _PRS_BITOPS_LSB 64 (2 ^ 63) = -1 ∧ prs_bitops_lsb_uint64 (2 ^ 63) = 63.
Proof.
  split; [lia|]. rewrite (proj2 (scan_loops_agree (2 ^ 63) ltac:(lia))).
  split; reflexivity.
Defined.

(** The scans the timer and the priority scheduler call return the highest
    and the lowest set bit: that bit is set, the bits above (below) it are not,
    and the result indexes a bit of the word. *)
Lemma scans_find_extreme_bits v :
  0 < v < 2 ^ 32 →
  let h := prs_bitops_hsb_uint32 v in
  let l := prs_bitops_lsb_uint32 v in
  0 ≤ l ≤ h ∧ h < 32 ∧
  Z.testbit v h = true ∧ (∀ i, h < i → Z.testbit v i = false) ∧
  Z.testbit v l = true ∧ (∀ i, i < l → Z.testbit v i = false).
Proof.
  intros Hv. cbv zeta. unfold prs_bitops_lsb_uint32.
  rewrite hsb_uint32_log2 by lia. destruct (Z.eqb_spec v 0); [lia|].
  pose proof (ctz_testbit v ltac:(lia)) as Hc.
  repeat split.
  - apply ctz_nonneg.
  - destruct (Z.le_gt_cases (builtin_ctz v) (Z.log2 v)); [done|].
    rewrite Z.bits_above_log2 in Hc by lia. done.
  - apply Z.log2_lt_pow2; lia.
  - apply Z.bit_log2. lia.
  - intros i Hi. apply Z.bits_above_log2; lia.
  - done.
  - intros i Hi. apply ctz_below; lia.
Qed.


(** ** Next power of two *)

(** [smeared k v w]: bit [i] of [w] is set when one of bits [i .. i+k-1] of [v] is. *)
Definition smeared (k v w : Z) : Prop :=
  0 ≤ w ∧ ∀ i, 0 ≤ i → (Z.testbit w i = true ↔ ∃ j, 0 ≤ j < k ∧ Z.testbit v (i + j) = true).

Lemma smeared_1 v : 0 ≤ v → smeared 1 v v.
Proof.
  intros Hv. split; [done|]. intros i Hi. split.
  - intros H. exists 0. rewrite Z.add_0_r. split; [lia|done].
  - intros (j & Hj & H). replace (i + j) with i in H by lia. done.
Qed.

Lemma smeared_double k v w :
  0 < k → smeared k v w → smeared (k + k) v (Z.lor w (Z.shiftr w k)).
Proof.
  intros Hk [Hw Hs]. split.
  { apply Z.lor_nonneg. split; [done|]. by apply Z.shiftr_nonneg. }
  intros i Hi. rewrite Z.lor_spec, Z.shiftr_spec, orb_true_iff by done.
  rewrite (Hs i), (Hs (i + k)) by lia. split.
  - intros [(j & Hj & H)|(j & Hj & H)]; [exists j|exists (k + j)].
    + split; [lia|done].
    + split; [lia|]. by rewrite Z.add_assoc.
  - intros (j & Hj & H). destruct (Z.lt_ge_cases j k).
    + left. exists j. split; [lia|done].
    + right. exists (j - k). split; [lia|]. by replace (i + k + (j - k)) with (i + j) by lia.
Qed.

Lemma smeared_full v w :
  0 < v < 2 ^ 64 → smeared 64 v w → w = 2 ^ (Z.log2 v + 1) - 1.
Proof.
  intros Hv [Hw Hs].
  assert (0 ≤ Z.log2 v < 64) by (split; [apply Z.log2_nonneg|apply Z.log2_lt_pow2; lia]).
  replace (2 ^ (Z.log2 v + 1) - 1) with (Z.ones (Z.log2 v + 1))
    by (rewrite Z.ones_equiv; lia).
  apply Z.bits_inj'. intros i Hi.
  destruct (Z.lt_ge_cases i (Z.log2 v + 1)) as [Hlt|Hge].
  - rewrite Z.ones_spec_low by lia. apply Hs; [done|].
    exists (Z.log2 v - i). split; [lia|].
    replace (i + (Z.log2 v - i)) with (Z.log2 v) by lia. apply Z.bit_log2. lia.
  - rewrite Z.ones_spec_high by lia. apply not_true_is_false. intros Ht.
    apply Hs in Ht as (j & Hj & Ht); [|done].
    rewrite Z.bits_above_log2 in Ht by lia. done.
Qed.

Lemma next_power_of_2_smear v :
  0 ≤ v < 2 ^ 64 → ∃ w, smeared 64 (u64 (v - 1)) w ∧ prs_bitops_next_power_of_2 v = u64 (w + 1).
Proof.
  intros Hv. eexists. split; [|reflexivity].
  do 6 (lazymatch goal with
        | |- smeared ?k _ (Z.lor _ (Z.shiftr _ ?s)) => change k with (s + s)
        end; apply smeared_double; [lia|]).
  apply smeared_1. apply u64_range.
Qed.

(** [prs_bitops_next_power_of_2] returns the least power of two that is not
    below its argument; zero and arguments above 2^63 wrap to zero. *)
Lemma next_power_of_2_least v :
  0 ≤ v < 2 ^ 64 →
  prs_bitops_next_power_of_2 v =
    (if (v =? 0) || (2 ^ 63 <? v) then 0 else 2 ^ Z.log2_up v).
Proof.
  intros Hv. destruct (decide (v = 0)) as [->|Hnz]; [reflexivity|].
  destruct (decide (v = 1)) as [->|H1]; [reflexivity|].
  destruct (next_power_of_2_smear v Hv) as (w & Hw & ->).
  rewrite (u64_small (v - 1)) in Hw by lia.
  rewrite (smeared_full (v - 1) w ltac:(lia) Hw).
  replace (2 ^ (Z.log2 (v - 1) + 1) - 1 + 1) with (2 ^ Z.log2_up v)
    by (rewrite Z.log2_up_eqn, <- Z.sub_1_r by lia; unfold Z.succ; lia).
  rewrite (proj2 (Z.eqb_neq v 0) Hnz). cbn [orb].
  destruct (Z.ltb_spec (2 ^ 63) v) as [Hbig|Hsmall].
  - replace (Z.log2_up v) with 64; [reflexivity|].
    symmetry. apply Z.log2_up_unique; simpl; lia.
  - apply u64_small. split; [lia|].
    apply Z.pow_lt_mono_r; [lia..|]. pose proof (Z.log2_up_le_mono v (2 ^ 63) ltac:(lia)) as H.
    rewrite Z.log2_up_pow2 in H by lia. lia.
Qed.


(** ** Alignment and the power-of-two test *)

Lemma land_not_low x k : 0 ≤ k → 0 ≤ x < 2 ^ 64 →
  Z.land x (u64 (Z.lnot (2 ^ k - 1))) = x - x mod 2 ^ k.
Proof.
  intros Hk Hx. unfold u64. rewrite <- Z.land_ones by lia. rewrite Z.land_assoc.
  replace (2 ^ k - 1) with (Z.ones k) by (rewrite Z.ones_equiv; lia).
  rewrite <- Z.ldiff_land, Z.ldiff_ones_r by lia.
  rewrite Z.land_ones, Z.mod_small; rewrite ?Z.shiftl_mul_pow2, ?Z.shiftr_div_pow2 by lia; [| |lia].
  - pose proof (Z.div_mod x (2 ^ k) ltac:(lia)). lia.
  - pose proof (Z.div_mod x (2 ^ k) ltac:(lia)).
    pose proof (Z.mod_pos_bound x (2 ^ k) ltac:(lia)).
    pose proof (Z.div_pos x (2 ^ k) ltac:(lia) ltac:(lia)). nia.
Qed.

Lemma align_size_value size k :
  0 ≤ k < 64 → 0 ≤ size → size + 2 ^ k - 1 < 2 ^ 64 →
  prs_bitops_align_size size (2 ^ k) = size + 2 ^ k - 1 - (size + 2 ^ k - 1) mod 2 ^ k.
Proof.
  intros Hk Hs Hb. unfold prs_bitops_align_size.
  assert (2 ^ k < 2 ^ 64) by (apply Z.pow_lt_mono_r; lia).
  rewrite (u64_small (2 ^ k - 1)), (u64_small (size + _)) by lia.
  rewrite land_not_low by lia. f_equal; [lia|f_equal; lia].
Qed.

Lemma align_size_bounds size k :
  0 ≤ k < 64 → 0 ≤ size → size + 2 ^ k - 1 < 2 ^ 64 →
  size ≤ prs_bitops_align_size size (2 ^ k) < size + 2 ^ k ∧
  prs_bitops_align_size size (2 ^ k) mod 2 ^ k = 0.
Proof.
  intros Hk Hs Hb. rewrite align_size_value by lia.
  pose proof (Z.mod_pos_bound (size + 2 ^ k - 1) (2 ^ k) ltac:(lia)).
  split; [lia|]. rewrite Zminus_mod, Z.mod_mod, Z.sub_diag by lia. apply Z.mod_0_l. lia.
Qed.

(** [prs_bitops_align_size] rounds a size up to the least multiple of the
    alignment; an already aligned size is returned as it is. *)
Lemma align_size_least size k m :
  0 ≤ k < 64 → 0 ≤ size → size + 2 ^ k - 1 < 2 ^ 64 →
  let a := prs_bitops_align_size size (2 ^ k) in
  size ≤ a ∧ a mod 2 ^ k = 0 ∧ (size ≤ m → m mod 2 ^ k = 0 → a ≤ m).
Proof.
  intros Hk Hs Hb. cbv zeta. destruct (align_size_bounds size k Hk Hs Hb) as [H1 H2].
  split; [lia|]. split; [done|]. intros Hm Hmod.
  apply Z.mod_divide in Hmod as [q ->]; [|lia].
  apply Z.mod_divide in H2 as [p Hp]; [|lia]. rewrite Hp in H1 |- *.
  apply Z.mul_le_mono_nonneg_r; [lia|].
  cut (p < q + 1); [lia|]. apply (Z.mul_lt_mono_pos_r (2 ^ k)); lia.
Qed.


Lemma is_power_of_2_spec value :
  0 ≤ value < 2 ^ 64 →
  prs_bitops_is_power_of_2 value = true ↔ ∃ k, 0 ≤ k < 64 ∧ value = 2 ^ k.
Proof.
  intros Hv. unfold prs_bitops_is_power_of_2.
  rewrite andb_true_iff, negb_true_iff, truthy_true, truthy_false.
  split.
  - intros [Hnz Hl]. rewrite u64_small in Hl by lia.
    exists (Z.log2 value). assert (0 < value) by lia.
    split; [split; [apply Z.log2_nonneg|apply Z.log2_lt_pow2; lia]|].
    pose proof (Z.log2_spec value ltac:(lia)) as [Hlo Hhi].
    destruct (decide (value = 2 ^ Z.log2 value)) as [|Hne]; [done|].
    assert (Z.testbit (Z.land value (value - 1)) (Z.log2 value) = true) as Hb.
    { rewrite Z.land_spec, Z.bit_log2 by lia.
      replace (Z.log2 value) with (Z.log2 (value - 1)) at 1.
      - apply Z.bit_log2. pose proof (Z.pow_pos_nonneg 2 (Z.log2 value) ltac:(lia) (Z.log2_nonneg _)). lia.
      - apply Z.log2_unique; [apply Z.log2_nonneg|lia]. }
    rewrite Hl, Z.bits_0 in Hb. done.
  - intros (k & Hk & ->). assert (0 < 2 ^ k) by (apply Z.pow_pos_nonneg; lia).
    split; [lia|].
    assert (2 ^ k < 2 ^ 64) by (apply Z.pow_lt_mono_r; lia).
    rewrite u64_small, land_low by lia. apply Z.mod_same. lia.
Qed.
