(* ===== verification/Str.v ===== *)
(** * String manipulation (prs/lib/str.c)

    A C buffer is the list of cells of the object it points into, so that a write
    past its end is visible.  [prs_str_append] is proved against a closed form
    that covers every source length and every buffer size; the formatted variants
    are modelled on top of [vsnprintf] of the C standard library. *)

From S2P Require Import Prelude.

(** The copying loop of [prs_str_append]: [src] is what [s] still points at, [d]
    the index [d - dst], [end_] the index [end - dst]. *)
Fixpoint prs_str_append_loop (dst src : list Z) (d pos end_ : Z) : outcome (list Z * Z * Z) :=
  if d <? end_ then
    match src with
    | [] => Undef
    | c :: s =>
        if truthy c then
          dst ← store dst d c;
          prs_str_append_loop dst s (d + 1) (pos + 1) end_
        else Ret (dst, d, pos)
    end
  else Ret (dst, d, pos).

(** [prs_str_append]: the buffer afterwards and the returned position. *)
Definition prs_str_append (dst src : list Z) (offset max : Z) : outcome (list Z * Z) :=
  '(dst, d, pos) ← prs_str_append_loop dst src offset offset max;
  dst ← store dst d 0;
  Ret (dst, pos).

Definition prs_str_copy (dst src : list Z) (max : Z) : outcome (list Z * Z) :=
  prs_str_append dst src 0 max.

(** Writing a run of cells. *)
Fixpoint store_list (b : list Z) (i : Z) (xs : list Z) : outcome (list Z) :=
  match xs with
  | [] => Ret b
  | x :: xs => b ← store b i x; store_list b (i + 1) xs
  end.

(** [vsnprintf(dst + at, n, fmt, va)] of the C standard library; [out] is what
    the format and the arguments expand to, nothing when they cannot be encoded. *)
Definition vsnprintf (dst : list Z) (at_ n : Z) (out : option (list Z)) : outcome (list Z * Z) :=
  match out with
  | None => Ret (dst, -1)
  | Some cs =>
      dst ← (if n =? 0 then Ret dst
             else store_list dst at_ (take (Z.to_nat (n - 1)) cs ++ [0]));
      Ret (dst, Z.of_nat (length cs))
  end.

(** [prs_str_append_vprintf]: [n] is a [size_t], and so is the comparison. *)
Definition prs_str_append_vprintf (dst : list Z) (offset max : Z) (out : option (list Z)) :
    outcome (list Z * Z) :=
  let n := u64 (max - offset) in
  '(dst, r) ← vsnprintf dst offset n out;
  if u64 (n - 1) <? u64 r then Ret (dst, 0)
  else Ret (dst, offset + r).

Definition prs_str_append_printf (dst : list Z) (offset max : Z) (out : option (list Z)) :
    outcome (list Z * Z) :=
  prs_str_append_vprintf dst offset max out.

Definition prs_str_printf (dst : list Z) (max : Z) (out : option (list Z)) : outcome (list Z * Z) :=
  prs_str_append_vprintf dst 0 max out.

Definition prs_str_vprintf (dst : list Z) (max : Z) (out : option (list Z)) : outcome (list Z * Z) :=
  prs_str_append_vprintf dst 0 max out.

(** ** Numbers

    [%u] of the C standard library, for a value of 32 bits. *)
Fixpoint digits (fuel : nat) (n : Z) : list Z :=
  match fuel with
  | O => []
  | S fuel => if n <? 10 then [48 + n] else digits fuel (n / 10) ++ [48 + n mod 10]
  end.

Definition print_uint (n : Z) : list Z := digits 10 (u32 n).

(** ** Strings in buffers *)

(** [src] points at the null-terminated string [str]. *)
Definition c_string (src str : list Z) : Prop :=
  Forall (λ c, c ≠ 0) str ∧ ∃ rest, src = str ++ 0 :: rest.

(** [overwrite b i xs]: [b] with the cells from [i] on replaced by [xs]. *)
Definition overwrite (b : list Z) (i : Z) (xs : list Z) : list Z :=
  take (Z.to_nat i) b ++ xs ++ drop (Z.to_nat i + length xs) b.

Lemma overwrite_nil b i : overwrite b i [] = b.
Proof. unfold overwrite. rewrite Nat.add_0_r. cbn [app]. apply take_drop. Qed.

Lemma length_overwrite b i xs :
  0 ≤ i → i + Z.of_nat (length xs) ≤ Z.of_nat (length b) →
  length (overwrite b i xs) = length b.
Proof.
  intros Hi Hl. unfold overwrite. rewrite !length_app, length_take, length_drop. lia.
Qed.

Lemma overwrite_insert b i x xs :
  0 ≤ i → i + 1 + Z.of_nat (length xs) ≤ Z.of_nat (length b) →
  overwrite (<[Z.to_nat i := x]> b) (i + 1) xs = overwrite b i (x :: xs).
Proof.
  intros Hi Hl. unfold overwrite. rewrite Z2Nat.inj_add by lia.
  change (Z.to_nat 1) with 1%nat. rewrite Nat.add_1_r.
  rewrite (take_S_r _ _ x) by (apply list_lookup_insert_eq; lia).
  rewrite take_insert_ge, <- app_assoc by lia. cbn [app length].
  rewrite drop_insert_lt by lia. by rewrite Nat.add_succ_r.
Qed.

Lemma store_list_overwrite b i xs :
  0 ≤ i → i + Z.of_nat (length xs) ≤ Z.of_nat (length b) →
  store_list b i xs = Ret (overwrite b i xs).
Proof.
  revert b i. induction xs as [|x xs IH]; intros b i Hi Hl; cbn [store_list].
  - by rewrite overwrite_nil.
  - cbn [length] in Hl. rewrite store_in by lia. ocbn.
    rewrite IH by (rewrite ?length_insert; lia). by rewrite overwrite_insert by lia.
Qed.

Lemma overwrite_snoc b i xs x j :
  0 ≤ i → j = i + Z.of_nat (length xs) → j < Z.of_nat (length b) →
  <[Z.to_nat j := x]> (overwrite b i xs) = overwrite b i (xs ++ [x]).
Proof.
  intros Hi -> Hl. unfold overwrite.
  rewrite insert_app_r_alt by (rewrite length_take; lia).
  rewrite insert_app_r_alt by (rewrite length_take; lia).
  rewrite length_take, <- app_assoc, length_app. do 2 f_equal. cbn [length].
  destruct (lookup_lt_is_Some_2 b (Z.to_nat i + length xs)) as [y Hy]; [lia|].
  rewrite (drop_S _ _ _ Hy).
  replace (Z.to_nat (i + Z.of_nat (length xs)) - _ `min` _ - length xs)%nat with 0%nat by lia.
  cbn [insert list_insert app]. rewrite Nat.add_1_r, Nat.add_succ_r. done.
Qed.

Lemma append_loop_spec dst src str d pos end_ :
  c_string src str → 0 ≤ d ≤ end_ → end_ ≤ Z.of_nat (length dst) →
  let n := Z.min (Z.of_nat (length str)) (end_ - d) in
  prs_str_append_loop dst src d pos end_ =
    Ret (overwrite dst d (take (Z.to_nat n) str), d + n, pos + n).
Proof.
  intros [Hnz [rest ->]]. revert dst d pos.
  induction Hnz as [|c str Hc _ IH]; intros dst d pos Hd Hend; cbn zeta.
  - rewrite Z.min_l by (cbn [length]; lia). cbn. rewrite overwrite_nil, !Z.add_0_r.
    destruct (d <? end_); done.
  - cbn [prs_str_append_loop app]. destruct (Z.ltb_spec d end_) as [Hlt|Hge].
    + rewrite (proj2 (truthy_true c) Hc), store_in by lia. ocbn.
      rewrite IH by (rewrite ?length_insert; lia). cbn zeta.
      replace (Z.min (Z.of_nat (length (c :: str))) (end_ - d))
        with (1 + Z.min (Z.of_nat (length str)) (end_ - (d + 1))) by (cbn [length]; lia).
      rewrite Z2Nat.inj_add by lia. change (Z.to_nat 1) with 1%nat. cbn [Nat.add take].
      rewrite overwrite_insert by (rewrite ?length_take; lia).
      do 2 f_equal; [f_equal|]; lia.
    + rewrite Z.min_r by (cbn [length]; lia). replace (end_ - d) with 0 by lia.
      cbn. by rewrite overwrite_nil, !Z.add_0_r.
Qed.

(** C35: [prs_str_append] on every branch.  It copies the longest prefix of the
    source that ends at or before index [max], puts the terminating null right
    after it, leaves every other cell alone and returns that position; it is
    undefined exactly when the null does not fit in the destination object. *)
Theorem str_append_exact dst src str offset max :
  c_string src str → 0 ≤ offset ≤ max → max ≤ Z.of_nat (length dst) →
  let n := Z.min (Z.of_nat (length str)) (max - offset) in
  prs_str_append dst src offset max =
    (if offset + n <? Z.of_nat (length dst)
     then Ret (overwrite dst offset (take (Z.to_nat n) str ++ [0]), offset + n)
     else Undef).
Proof.
  intros Hs Ho Hm. cbn zeta. unfold prs_str_append.
  rewrite (append_loop_spec _ _ str) by done. ocbn.
  set (n := Z.min (Z.of_nat (length str)) (max - offset)).
  assert (length (take (Z.to_nat n) str) = Z.to_nat n) as Hlen by (rewrite length_take; lia).
  destruct (Z.ltb_spec (offset + n) (Z.of_nat (length dst))).
  - rewrite store_in by (rewrite length_overwrite by lia; lia). ocbn. do 2 f_equal.
    apply overwrite_snoc; lia.
  - rewrite store_out by (rewrite length_overwrite by lia; lia). done.
Qed.

(** A destination of exactly [max] cells: a source of [max - 1] characters fits, one
    of [max] characters has its null written at [dst[max]]. *)
Lemma str_append_exact_witness :
  prs_str_copy [9; 9; 9; 9] [65; 66; 67; 0] 4 = Ret ([65; 66; 67; 0], 3) ∧
  prs_str_copy [9; 9; 9; 9] [65; 66; 67; 68; 0] 4 = Undef ∧
  prs_str_append [65; 0; 9; 9; 7] [66; 67; 68; 0] 1 4 = Ret ([65; 66; 67; 68; 0], 4).
Proof.
  unfold prs_str_copy. split; [|split].
  - rewrite (str_append_exact _ _ [65; 66; 67]); [reflexivity| |cbn; lia..].
    split; [by repeat constructor|by exists []].
  - rewrite (str_append_exact _ _ [65; 66; 67; 68]); [reflexivity| |cbn; lia..].
    split; [by repeat constructor|by exists []].
  - rewrite (str_append_exact _ _ [66; 67; 68]); [reflexivity| |cbn; lia..].
    split; [by repeat constructor|by exists []].
Defined.

(** [prs_str_append_vprintf] stays inside the first [max] cells and terminates
    what it writes.  When the text fits it returns the position of its null;
    when it does not, the buffer holds the longest prefix that fits and the
    function returns 0. *)
Lemma str_append_vprintf_exact dst str offset max :
  0 ≤ offset < max → max ≤ Z.of_nat (length dst) → max < 2 ^ 31 →
  Z.of_nat (length str) < 2 ^ 31 →
  prs_str_append_vprintf dst offset max (Some str) =
    (if offset + Z.of_nat (length str) <? max
     then Ret (overwrite dst offset (str ++ [0]), offset + Z.of_nat (length str))
     else Ret (overwrite dst offset (take (Z.to_nat (max - offset - 1)) str ++ [0]), 0)).
Proof.
  intros Ho Hm Hmax Hlen. unfold prs_str_append_vprintf, vsnprintf.
  rewrite (u64_small (max - offset)) by lia.
  rewrite (proj2 (Z.eqb_neq (max - offset) 0)) by lia.
  rewrite store_list_overwrite by (rewrite ?length_app, ?length_take; cbn [length]; lia).
  ocbn. rewrite !u64_small by lia.
  destruct (Z.ltb_spec (max - offset - 1) (Z.of_nat (length str))),
    (Z.ltb_spec (offset + Z.of_nat (length str)) max); try lia; [done|].
  by rewrite take_ge by lia.
Qed.

