(* ===== verification/Heap.v ===== *)
(** * The operating system's heap (include/prs/pal/malloc.h, prs/pal/stdc/malloc.c)

    The heap is the set of blocks that are allocated, and the answers the C
    library will give to the next requests: a fresh block, or nothing when memory
    has run out.  What a block holds is up to the module that allocates it; this
    file keeps track of which blocks are live, so that leaks, double frees and
    partial cleanups are visible. *)

From S2P Require Import Prelude.

Record heap : Type := Heap {
  heap_live : gset loc;
  heap_answers : list ptr
}.

(** [malloc]: the next answer. *)
Definition malloc (h : heap) : ptr * heap :=
  match heap_answers h with
  | [] => (None, h)
  | None :: os => (None, Heap (heap_live h) os)
  | Some l :: os => (Some l, Heap ({[ l ]} ∪ heap_live h) os)
  end.

(** [free]: a null pointer is ignored, any other must point to a live block. *)
Definition free (p : ptr) (h : heap) : outcome heap :=
  match p with
  | None => Ret h
  | Some l =>
      if decide (l ∈ heap_live h) then Ret (Heap (heap_live h ∖ {[ l ]}) (heap_answers h))
      else Undef
  end.

Definition prs_pal_malloc (h : heap) : ptr * heap := malloc h.
Definition prs_pal_malloc_zero (h : heap) : ptr * heap := malloc h.
Definition prs_pal_free (p : ptr) (h : heap) : outcome heap := free p h.

(** The answers to come are fresh, and different from each other. *)
Definition heap_ok (h : heap) : Prop :=
  NoDup (omap (λ p : ptr, p) (heap_answers h)) ∧
  ∀ l, Some l ∈ heap_answers h → l ∉ heap_live h.

Lemma malloc_ok h p h' :
  heap_ok h → malloc h = (p, h') →
  heap_ok h' ∧
  match p with
  | None => heap_live h' = heap_live h
  | Some l => l ∉ heap_live h ∧ heap_live h' = {[ l ]} ∪ heap_live h
  end.
Proof.
  destruct h as [live answers]. unfold heap_ok, malloc. cbn [heap_live heap_answers].
  intros [Hnd Hfr] Hm. destruct answers as [|[l|] os]; simplify_eq/=; [done| |].
  - apply NoDup_cons in Hnd as [Hl Hnd]. split; [split; [done|]|].
    + intros l' Hl'. apply not_elem_of_union. split.
      * intros ->%elem_of_singleton. apply Hl. apply list_elem_of_omap. by exists (Some l).
      * apply Hfr. by right.
    + split; [|done]. apply Hfr. by left.
  - split; [split; [done|]|done]. intros l' Hl'. apply Hfr. by right.
Qed.

Lemma free_live l h :
  l ∈ heap_live h → free (Some l) h = Ret (Heap (heap_live h ∖ {[ l ]}) (heap_answers h)).
Proof. intros Hl. unfold free. by rewrite decide_True. Qed.

Lemma heap_ok_free l h : heap_ok h → heap_ok (Heap (heap_live h ∖ {[ l ]}) (heap_answers h)).
Proof. intros [Hnd Hfr]. split; [done|]. simpl. intros l' Hl'. specialize (Hfr l' Hl'). set_solver. Qed.
