(* ===== verification/Atomic.v ===== *)
(** * Threads over shared memory (include/prs/pal/atomic.h)

    The lock-free modules are sequences of atomic accesses to shared memory.  A
    function of such a module is a [prog]: a tree whose nodes are single atomic
    actions on the memory, so that two programs can be interleaved at every node.
    [run] executes one program alone, [pauses] up to a call; [pool_step] interleaves the programs of any
    number of threads.

    The second half is a rely/guarantee logic for [prog], with a ghost component
    next to the memory, and its adequacy theorem for thread pools. *)

From S2P Require Import Prelude.

(** ** Programs *)

Inductive prog (C A : Type) : Type :=
  | Done (a : A)
  | Spin
  | Act {X : Type} (f : C → outcome (X * C)) (k : X → prog C A)
  | Flip (k : bool → prog C A)
  | Wait {X : Type} (f : C → outcome (option (X * C))) (k : X → prog C A).
Arguments Done {C A} a.
Arguments Spin {C A}.
Arguments Act {C A X} f k.
Arguments Flip {C A} k.
Arguments Wait {C A X} f k.

(** [Done a]: the function returned [a].  [Spin]: a loop used up its fuel, and is
    still waiting for other threads.  [Act f k]: one atomic action, then [k].
    [Flip k]: a choice the machine makes (a weak compare-exchange that fails for
    no reason).  [Wait f k]: an action of the operating system that blocks the
    thread as long as [f] gives nothing, then [k]. *)

Fixpoint prog_bind {C A B : Type} (p : prog C A) (h : A → prog C B) : prog C B :=
  match p with
  | Done a => h a
  | Spin => Spin
  | Act f k => Act f (λ x, prog_bind (k x) h)
  | Flip k => Flip (λ b, prog_bind (k b) h)
  | Wait f k => Wait f (λ x, prog_bind (k x) h)
  end.

#[export] Instance prog_ret C : MRet (prog C) := @Done C.
#[export] Instance prog_mbind C : MBind (prog C) := λ A B h p, prog_bind p h.

(** A single action, as a program. *)
Definition act {C X : Type} (f : C → outcome (X * C)) : prog C X := Act f Done.

(** A single blocking action. *)
Definition wait {C X : Type} (f : C → outcome (option (X * C))) : prog C X := Wait f Done.

(** ** Atomic operations

    A cell is a place of the memory that holds a value of type [V]. *)

Record cell (C V : Type) : Type := Cell {
  cell_get : C → outcome V;
  cell_set : V → C → outcome C
}.
Arguments Cell {C V} _ _.
Arguments cell_get {C V} _ _.
Arguments cell_set {C V} _ _ _.

Section operations.
Context {C V : Type} `{EqDecision V}.
Implicit Types (p : cell C V) (v : V).

(** [prs_pal_atomic_load(p)] *)
Definition prs_pal_atomic_load p : prog C V :=
  act (λ c, v ← cell_get p c; Ret (v, c)).

(** [prs_pal_atomic_store(p, v)] *)
Definition prs_pal_atomic_store p v : prog C unit :=
  act (λ c, c ← cell_set p v c; Ret (tt, c)).

(** A read-modify-write: the old value is returned. *)
Definition atomic_update p (f : V → V) : prog C V :=
  act (λ c, v ← cell_get p c; c ← cell_set p (f v) c; Ret (v, c)).

(** [prs_pal_atomic_exchange(p, v)] *)
Definition prs_pal_atomic_exchange p v : prog C V := atomic_update p (λ _, v).

(** [prs_pal_atomic_compare_exchange_strong(p, e, v)]: success, and the value
    [*e] has afterwards. *)
Definition prs_pal_atomic_compare_exchange_strong p (e v : V) : prog C (bool * V) :=
  act (λ c,
    cur ← cell_get p c;
    if decide (cur = e) then c ← cell_set p v c; Ret ((true, e), c)
    else Ret ((false, cur), c)).

(** [prs_pal_atomic_compare_exchange_weak(p, e, v)] may also fail when the value
    is the expected one. *)
Definition prs_pal_atomic_compare_exchange_weak p (e v : V) : prog C (bool * V) :=
  Flip (λ spurious,
    if spurious then act (λ c, cur ← cell_get p c; Ret ((false, cur), c))
    else prs_pal_atomic_compare_exchange_strong p e v).

(** [do { body } while (!prs_pal_atomic_compare_exchange_weak(p, &header, new))]:
    the body either returns from the function ([inl]) or goes on to the
    exchange with a new value and what is returned once it succeeds. *)
Fixpoint cas_weak_loop {A : Type} (fuel : nat) p (body : V → A + V * A) (header : V) :
    prog C A :=
  match fuel with
  | O => Spin
  | S fuel =>
      match body header with
      | inl a => Done a
      | inr (new_header, a) =>
          '(ok, header) ← prs_pal_atomic_compare_exchange_weak p header new_header;
          if (ok : bool) then Done a else cas_weak_loop fuel p body header
      end
  end.
End operations.

(** A plain access to a field that is not atomic. *)
Definition read {C V : Type} (p : cell C V) : prog C V := prs_pal_atomic_load p.
Definition write {C V : Type} (p : cell C V) (v : V) : prog C unit := prs_pal_atomic_store p v.

(** Reading a field that nobody changes. *)
Definition peek {C V : Type} (f : C → V) : prog C V := act (λ c, Ret (f c, c)).

(** A field of the entry at index [i] of an array. *)
Section array_cell.
Context {C E V : Type} (get_es : C → list E) (set_es : list E → C → C)
  (get : E → V) (set_ : V → E → E).

Definition array_cell (i : Z) : cell C V :=
  Cell (λ c, e ← load (get_es c) i; Ret (get e))
       (λ v c, e ← load (get_es c) i;
               es ← store (get_es c) i (set_ v e);
               Ret (set_es es c)).

Lemma array_cell_get c i e :
  0 ≤ i → get_es c !! Z.to_nat i = Some e → cell_get (array_cell i) c = Ret (get e).
Proof. intros Hi He. simpl. unfold load. rewrite (proj2 (Z.leb_le 0 i) Hi), He. done. Qed.

Lemma array_cell_set c i e v :
  0 ≤ i → get_es c !! Z.to_nat i = Some e →
  cell_set (array_cell i) v c = Ret (set_es (<[Z.to_nat i := set_ v e]> (get_es c)) c).
Proof.
  intros Hi He. simpl. unfold load. rewrite (proj2 (Z.leb_le 0 i) Hi), He. ocbn.
  rewrite store_in; [done|]. apply lookup_lt_Some in He. lia.
Qed.
End array_cell.

(** [prs_pal_atomic_fetch_add(p, v)] and the like, on [w]-bit integers. *)
Definition prs_pal_atomic_fetch_add {C : Type} (w : Z) (p : cell C Z) (v : Z) : prog C Z :=
  atomic_update p (λ x, (x + v) mod 2 ^ w).
Definition prs_pal_atomic_fetch_sub {C : Type} (w : Z) (p : cell C Z) (v : Z) : prog C Z :=
  atomic_update p (λ x, (x - v) mod 2 ^ w).
Definition prs_pal_atomic_fetch_or {C : Type} (p : cell C Z) (v : Z) : prog C Z :=
  atomic_update p (λ x, Z.lor x v).
Definition prs_pal_atomic_fetch_and {C : Type} (p : cell C Z) (v : Z) : prog C Z :=
  atomic_update p (λ x, Z.land x v).

(** ** One thread alone

    Nothing comes out when a loop used up its fuel or the thread is blocked. *)

Fixpoint run {C A : Type} (p : prog C A) (c : C) : outcome (option A * C) :=
  match p with
  | Done a => Ret (Some a, c)
  | Spin => Ret (None, c)
  | Act f k => '(x, c) ← f c; run (k x) c
  | Flip k => run (k false) c
  | Wait f k =>
      r ← f c;
      match r with Some (x, c) => run (k x) c | None => Ret (None, c) end
  end.

Lemma run_bind {C A B : Type} (p : prog C A) (h : A → prog C B) c :
  run (p ≫= h) c =
    ('(r, c) ← run p c; match r with Some a => run (h a) c | None => Ret (None, c) end).
Proof.
  revert c. induction p as [a| |X f k IH|k IH|X f k IH]; intros c; simpl; try done.
  - destruct (f c) as [[x c']| |]; ocbn; [|done..]. apply IH.
  - apply IH.
  - destruct (f c) as [[[x c']|]| |]; ocbn; [|done..]. apply IH.
Qed.

(** One statement after the other. *)
Lemma run_seq {C A B : Type} (p : prog C A) (h : A → prog C B) c a c1 R :
  run p c = Ret (Some a, c1) → run (h a) c1 = R → run (p ≫= h) c = R.
Proof. intros Hp Hh. rewrite run_bind, Hp. exact Hh. Qed.

(** Alone, the first exchange succeeds: one round is enough. *)
Lemma run_cas_weak_loop {C V A : Type} `{EqDecision V} fuel (p : cell C V)
    (body : V → A + V * A) h c :
  cell_get p c = Ret h →
  run (cas_weak_loop (S fuel) p body h) c =
    match body h with
    | inl a => Ret (Some a, c)
    | inr (new, a) => c ← cell_set p new c; Ret (Some a, c)
    end.
Proof.
  intros Hh. cbn [cas_weak_loop]. destruct (body h) as [a|[new a]]; [done|].
  rewrite run_bind. cbn [run prs_pal_atomic_compare_exchange_weak
    prs_pal_atomic_compare_exchange_strong act]. rewrite Hh. ocbn.
  rewrite decide_True by done. destruct (cell_set p new c); done.
Qed.

Lemma run_load {C V : Type} (p : cell C V) c v :
  cell_get p c = Ret v → run (prs_pal_atomic_load p) c = Ret (Some v, c).
Proof. intros H. cbn. by rewrite H. Qed.

Lemma run_peek {C V : Type} (f : C → V) c : run (peek f) c = Ret (Some (f c), c).
Proof. done. Qed.

Lemma run_store {C V : Type} (p : cell C V) v c c' :
  cell_set p v c = Ret c' → run (prs_pal_atomic_store p v) c = Ret (Some tt, c').
Proof. intros H. cbn. by rewrite H. Qed.

Lemma run_cas_strong {C V : Type} `{EqDecision V} (p : cell C V) e v c c' :
  cell_get p c = Ret e → cell_set p v c = Ret c' →
  run (prs_pal_atomic_compare_exchange_strong p e v) c = Ret (Some (true, e), c').
Proof. intros Hg Hs. cbn. rewrite Hg. ocbn. rewrite decide_True by done. by rewrite Hs. Qed.

(** A program over a part of the memory, as one over the whole. *)
Fixpoint zoom {C D A : Type} (get : D → C) (put : C → D → D) (p : prog C A) : prog D A :=
  match p with
  | Done a => Done a
  | Spin => Spin
  | Act f k => Act (λ d, '(x, c) ← f (get d); Ret (x, put c d)) (λ x, zoom get put (k x))
  | Flip k => Flip (λ b, zoom get put (k b))
  | Wait f k =>
      Wait (λ d, r ← f (get d); Ret (match r with Some (x, c) => Some (x, put c d) | None => None end))
        (λ x, zoom get put (k x))
  end.

(** ** Thread pools *)

Definition prog_step {C A : Type} (b : bool) (c : C) (p : prog C A) : option (C * prog C A) :=
  match p with
  | Act f k => match f c with Ret (x, c') => Some (c', k x) | _ => None end
  | Flip k => Some (c, k b)
  | Wait f k => match f c with Ret (Some (x, c')) => Some (c', k x) | _ => None end
  | _ => None
  end.

(** *** One thread up to a call

    [pauses call p c c1 r]: from the memory [c] the program [p], alone, gets to the call
    [call] in the memory [c1], and [r] is what follows the call, for the memory that it
    leaves, whatever others have done to it by then. *)

Definition alone {C A : Type} (s s' : C * prog C A) : Prop := ∃ b, prog_step b s.1 s.2 = Some s'.

Definition rest_bind {C A B : Type} (r : C → outcome (option A * C)) (h : A → prog C B) (c : C) :
    outcome (option B * C) :=
  '(x, c) ← r c; match x with Some a => run (h a) c | None => Ret (None, c) end.

Inductive at_call {C X : Type} (call : prog C X) : ∀ {A : Type}, prog C A → (X → C → outcome (option A * C)) → Prop :=
  | at_call_here : at_call call call (λ x c, Ret (Some x, c))
  | at_call_bind {A B : Type} (p : prog C A) r (h : A → prog C B) :
      at_call call p r → at_call call (p ≫= h) (λ x, rest_bind (r x) h).

Definition pauses {C X A : Type} (call : prog C X) (p : prog C A) (c c1 : C) (r : X → C → outcome (option A * C)) : Prop :=
  ∃ q, rtc alone (c, p) (c1, q) ∧ at_call call q r.

(** What is left is what is run when the call returns. *)
Lemma at_call_run {C X A : Type} (call : prog C X) (q : prog C A) r c :
  at_call call q r → run q c = ('(x, c) ← run call c; match x with Some x => r x c | None => Ret (None, c) end).
Proof.
  intros Hq. revert c. induction Hq as [|A B p r h _ IH]; intros c.
  - destruct (run call c) as [[[x|] c']| |]; done.
  - rewrite run_bind, IH. destruct (run call c) as [[[x|] c']| |]; [|done..]. ocbn. reflexivity.
Qed.

Lemma alone_bind {C A B : Type} (h : A → prog C B) c p c' p' :
  rtc alone (c, p) (c', p') → rtc alone (c, p ≫= h) (c', p' ≫= h).
Proof.
  intros Hr. remember (c, p) as s eqn:Es. remember (c', p') as s' eqn:Es'. revert c p Es.
  induction Hr as [s|s1 [c2 p2] s3 [b Hs] _ IH]; intros c p ->; [by simplify_eq|].
  eapply rtc_l; [|by apply IH]. exists b. cbn in *.
  destruct p as [a| |X f k|k|X f k]; cbn in *; [done..| | |].
  - destruct (f c) as [[x c3]| |]; by simplify_eq.
  - by simplify_eq.
  - destruct (f c) as [[[x c3]|]| |]; by simplify_eq.
Qed.

Lemma alone_run {C A : Type} (p : prog C A) c a c' : run p c = Ret (Some a, c') → rtc alone (c, p) (c', Done a).
Proof.
  revert c. induction p as [b| |X f k IH|k IH|X f k IH]; intros c Hrun; cbn in Hrun; [by simplify_eq|done|..].
  - destruct (f c) as [[x c2]| |] eqn:Hf; [|done..]. eapply rtc_l; [|by apply (IH x)]. exists false. cbn. by rewrite Hf.
  - eapply rtc_l; [|by apply (IH false)]. by exists false.
  - destruct (f c) as [[[x c2]|]| |] eqn:Hf; [|done..]. eapply rtc_l; [|by apply (IH x)]. exists false. cbn. by rewrite Hf.
Qed.

Lemma pauses_here {C X : Type} (call : prog C X) c : pauses call call c c (λ x c, Ret (Some x, c)).
Proof. exists call. split; [done|constructor]. Qed.

Lemma pauses_seq {C X A B : Type} (call : prog C X) (p : prog C A) (h : A → prog C B) c a c0 c1 r :
  run p c = Ret (Some a, c0) → pauses call (h a) c0 c1 r → pauses call (p ≫= h) c c1 r.
Proof.
  intros Hp (q & Hr & Hq). exists q. split; [|done]. etransitivity; [|exact Hr].
  exact (alone_bind h _ _ _ _ (alone_run _ _ _ _ Hp)).
Qed.

Lemma pauses_bind {C X A B : Type} (call : prog C X) (p : prog C A) (h : A → prog C B) c c1 r :
  pauses call p c c1 r → pauses call (p ≫= h) c c1 (λ x, rest_bind (r x) h).
Proof.
  intros (q & Hr & Hq). exists (q ≫= h). split; [by apply alone_bind|by constructor].
Qed.

Lemma rest_seq {C A B : Type} (r : C → outcome (option A * C)) (h : A → prog C B) c a c' R :
  r c = Ret (Some a, c') → run (h a) c' = R → rest_bind r h c = R.
Proof. intros Hr Hh. unfold rest_bind. by rewrite Hr. Qed.

(** A step of a program that goes on. *)
Lemma bind_step {C A B : Type} b c (q : prog C A) (h : A → prog C B) c' q' :
  (∀ a, q ≠ Done a) → prog_step b c (q ≫= h) = Some (c', q') →
  ∃ q1, prog_step b c q = Some (c', q1) ∧ q' = q1 ≫= h.
Proof.
  intros Hnd Hs. destruct q as [a| |X f k|k|X f k]; simpl in *; [by destruct (Hnd a)|done|..].
  - destruct (f c) as [[x c2]| |]; simplify_eq. eauto.
  - simplify_eq. eauto.
  - destruct (f c) as [[[x c2]|]| |]; simplify_eq. eauto.
Qed.

(** The next action of the program has no defined behaviour. *)
Definition faults {C A : Type} (c : C) (p : prog C A) : Prop :=
  match p with Act f k => f c = Undef | Wait f k => f c = Undef | _ => False end.

(** The program has not returned, and waits for something to happen. *)
Definition blocked {C A : Type} (c : C) (p : prog C A) : Prop :=
  match p with Wait f k => f c = Ret None | _ => False end.

Inductive pool_step {C A : Type} : C * list (prog C A) → C * list (prog C A) → Prop :=
  | pool_step_thread i b c ps p c' p' :
      ps !! i = Some p → prog_step b c p = Some (c', p') →
      pool_step (c, ps) (c', <[i := p']> ps).

(** A step of a thread other than [i]. *)
Definition step_without {C A : Type} (i : nat) (s s' : C * list (prog C A)) : Prop :=
  ∃ j b p p', j ≠ i ∧ s.2 !! j = Some p ∧ prog_step b s.1 p = Some (s'.1, p') ∧ s'.2 = <[j := p']> s.2.

Lemma step_without_pool {C A : Type} i (s s' : C * list (prog C A)) : rtc (step_without i) s s' → rtc pool_step s s'.
Proof.
  apply rtc_subrel. intros [c ps] [c' ps'] (j & b & p & p' & _ & Hj & Hs & He). cbn in *. subst ps'. by econstructor.
Qed.

(** A scheduler: which thread moves, and what the machine chooses. *)
Fixpoint pool_run {C A : Type} (sched : list (nat * bool)) (s : C * list (prog C A)) :
    option (C * list (prog C A)) :=
  match sched with
  | [] => Some s
  | (i, b) :: sched =>
      p ← s.2 !! i;
      '(c', p') ← prog_step b s.1 p;
      pool_run sched (c', <[i := p']> s.2)
  end.

Lemma pool_run_rtc {C A : Type} sched (s s' : C * list (prog C A)) :
  pool_run sched s = Some s' → rtc pool_step s s'.
Proof.
  revert s. induction sched as [|[i b] sched IH]; intros [c ps] H; simpl in H.
  - by simplify_eq.
  - apply bind_Some in H as (p & Hi & H). apply bind_Some in H as ([c' p'] & Hs & H).
    eapply rtc_l; [by econstructor|]. by apply IH.
Qed.

Lemma pool_length {C A : Type} (s s' : C * list (prog C A)) :
  rtc pool_step s s' → length (s'.2) = length (s.2).
Proof.
  induction 1 as [|s1 s2 s3 Hs _ IH]; [done|]. rewrite IH. destruct Hs. simpl.
  by rewrite length_insert.
Qed.

(** ** Rely/guarantee reasoning

    [rgb fok sok spurious blk R G p Q c g]: started in memory [c] with ghost state [g], the program
    never faults, each of its actions is one that [G] allows (for some update of
    the ghost state), and if it returns [a] then [Q a] holds, whatever actions
    allowed by [R] other threads take in between.  [fok] tells whether the program
    may stop the system through [PRS_FATAL_WHEN], [sok] whether one of its loops
    may use up its fuel, [spurious] whether a weak compare-exchange may fail
    for no reason, and [blk] in which states it may be blocked. *)

(** [within J F p]: in states that satisfy [J], no action of [p] faults or blocks,
    and each is related by [F]. *)
Fixpoint within {C A : Type} (J : C → Prop) (F : relation C) (p : prog C A) : Prop :=
  match p with
  | Done _ => True
  | Spin => False
  | Act f k => ∀ c, J c → match f c with Ret (x, c') => F c c' ∧ within J F (k x) | _ => False end
  | Flip k => ∀ b, within J F (k b)
  | Wait f k => False
  end.

Lemma within_bind {C A B : Type} (J : C → Prop) (F : relation C) (p : prog C A) (h : A → prog C B) :
  within J F p → (∀ a, within J F (h a)) → within J F (p ≫= h).
Proof.
  intros Hp Hh. induction p as [a| |X f k IH|k IH|X f k IH]; simpl in *; [by apply Hh|done| | |done].
  - intros c Hc. specialize (Hp c Hc). destruct (f c) as [[x c']| |]; [|done..].
    destruct Hp. split; [done|]. by apply IH.
  - intros b. by apply IH.
Qed.

Section rely_guarantee.
Context {C Gh : Type} (fok sok spurious : Prop) (blk : C → Gh → Prop).
Implicit Types (R G : relation (C * Gh)) (c : C) (g : Gh).

Fixpoint rgb {A : Type} R G (p : prog C A) (Q : A → C → Gh → Prop) c g : Prop :=
  match p with
  | Done a => ∀ c' g', R (c, g) (c', g') → Q a c' g'
  | Spin => sok
  | Act f k =>
      ∀ c1 g1, R (c, g) (c1, g1) →
        match f c1 with
        | Ret (x, c2) => ∃ g2, G (c1, g1) (c2, g2) ∧ rgb R G (k x) Q c2 g2
        | Fatal => fok
        | Undef => False
        end
  | Flip k => ∀ b : bool, (b = true → spurious) → rgb R G (k b) Q c g
  | Wait f k =>
      ∀ c1 g1, R (c, g) (c1, g1) →
        match f c1 with
        | Ret (Some (x, c2)) => ∃ g2, G (c1, g1) (c2, g2) ∧ rgb R G (k x) Q c2 g2
        | Ret None => blk c1 g1
        | Fatal => fok
        | Undef => False
        end
  end.

Section rules.
Context {R G : relation (C * Gh)} `{!PreOrder R}.

Lemma rg_mono {A : Type} (p : prog C A) (Q Q' : A → C → Gh → Prop) c g :
  (∀ a c g, Q a c g → Q' a c g) → rgb R G p Q c g → rgb R G p Q' c g.
Proof.
  intros HQ. revert c g. induction p as [a| |X f k IH|k IH|X f k IH]; intros c g; simpl.
  - eauto.
  - done.
  - intros H c1 g1 HR. specialize (H c1 g1 HR).
    destruct (f c1) as [[x c2]| |]; [|done..].
    destruct H as (g2 & HG & H). eauto.
  - eauto.
  - intros H c1 g1 HR. specialize (H c1 g1 HR).
    destruct (f c1) as [[[x c2]|]| |]; [|done..].
    destruct H as (g2 & HG & H). eauto.
Qed.

Lemma rg_guar_mono {A : Type} (G' : relation (C * Gh)) (p : prog C A)
    (Q : A → C → Gh → Prop) c g :
  (∀ s s', G s s' → G' s s') → rgb R G p Q c g → rgb R G' p Q c g.
Proof.
  intros HG. revert c g. induction p as [a| |X f k IH|k IH|X f k IH]; intros c g; simpl; auto.
  - intros H c1 g1 HR. specialize (H c1 g1 HR). destruct (f c1) as [[x c2]| |]; [|done..].
    destruct H as (g2 & HGs & H). eauto.
  - intros H c1 g1 HR. specialize (H c1 g1 HR). destruct (f c1) as [[[x c2]|]| |]; [|done..].
    destruct H as (g2 & HGs & H). eauto.
Qed.

Lemma rg_rely {A : Type} (p : prog C A) (Q : A → C → Gh → Prop) c g c' g' :
  R (c, g) (c', g') → rgb R G p Q c g → rgb R G p Q c' g'.
Proof.
  intros HR. induction p as [a| |X f k IH|k IH|X f k IH]; simpl.
  - intros H c2 g2 H2. apply H. by transitivity (c', g').
  - done.
  - intros H c2 g2 H2. apply (H c2 g2). by transitivity (c', g').
  - eauto.
  - intros H c2 g2 H2. apply (H c2 g2). by transitivity (c', g').
Qed.

Lemma rg_rely_mono {A : Type} (R' : relation (C * Gh)) (p : prog C A)
    (Q : A → C → Gh → Prop) c g :
  (∀ s s', R' s s' → R s s') → rgb R G p Q c g → rgb R' G p Q c g.
Proof.
  intros HR. revert c g. induction p as [a| |X f k IH|k IH|X f k IH]; intros c g; simpl; auto.
  - intros H c1 g1 HR1. specialize (H c1 g1 (HR _ _ HR1)). destruct (f c1) as [[x c2]| |]; [|done..].
    destruct H as (g2 & HGs & H). eauto.
  - intros H c1 g1 HR1. specialize (H c1 g1 (HR _ _ HR1)). destruct (f c1) as [[[x c2]|]| |]; [|done..].
    destruct H as (g2 & HGs & H). eauto.
Qed.

Lemma rg_bind {A B : Type} (p : prog C A) (h : A → prog C B) Q c g :
  rgb R G p (λ a c g, rgb R G (h a) Q c g) c g → rgb R G (p ≫= h) Q c g.
Proof.
  revert c g. induction p as [a| |X f k IH|k IH|X f k IH]; intros c g; simpl.
  - intros H. by apply H.
  - done.
  - intros H c1 g1 HR. specialize (H c1 g1 HR).
    destruct (f c1) as [[x c2]| |]; [|done..].
    destruct H as (g2 & HG & H). exists g2. split; [done|]. by apply IH.
  - intros H b Hb. by apply IH, H.
  - intros H c1 g1 HR. specialize (H c1 g1 HR).
    destruct (f c1) as [[[x c2]|]| |]; [|done..].
    destruct H as (g2 & HG & H). exists g2. split; [done|]. by apply IH.
Qed.

Lemma rg_done {A : Type} (a : A) (Q : A → C → Gh → Prop) c g :
  (∀ c' g', R (c, g) (c', g') → Q a c' g') → rgb R G (Done a) Q c g.
Proof. done. Qed.

Lemma rg_act {X : Type} (f : C → outcome (X * C)) Q c g :
  (∀ c1 g1, R (c, g) (c1, g1) → ∃ x c2 g2,
    f c1 = Ret (x, c2) ∧ G (c1, g1) (c2, g2) ∧
    ∀ c3 g3, R (c2, g2) (c3, g3) → Q x c3 g3) →
  rgb R G (act f) Q c g.
Proof.
  intros H c1 g1 HR. destruct (H c1 g1 HR) as (x & c2 & g2 & -> & HG & HQ).
  exists g2. split; [done|]. exact HQ.
Qed.

Lemma rg_bind_act {X A : Type} (f : C → outcome (X * C)) (k : X → prog C A) Q c g :
  (∀ c1 g1, R (c, g) (c1, g1) → ∃ x c2 g2,
    f c1 = Ret (x, c2) ∧ G (c1, g1) (c2, g2) ∧ rgb R G (k x) Q c2 g2) →
  rgb R G (act f ≫= k) Q c g.
Proof.
  intros H c1 g1 HR. destruct (H c1 g1 HR) as (x & c2 & g2 & -> & HG & HQ). eauto.
Qed.

(** Blocked as long as [f] gives nothing. *)
Lemma rg_bind_wait {X A : Type} (f : C → outcome (option (X * C))) (k : X → prog C A) Q c g :
  (∀ c1 g1, R (c, g) (c1, g1) →
    (f c1 = Ret None ∧ blk c1 g1) ∨
    ∃ x c2 g2, f c1 = Ret (Some (x, c2)) ∧ G (c1, g1) (c2, g2) ∧ rgb R G (k x) Q c2 g2) →
  rgb R G (wait f ≫= k) Q c g.
Proof.
  intros H c1 g1 HR. destruct (H c1 g1 HR) as [[-> Hb]|(x & c2 & g2 & -> & HG & HQ)]; eauto.
Qed.

Lemma rg_bind_load {V A : Type} (p : cell C V) (k : V → prog C A) Q c g :
  (∀ c1 g1, R (c, g) (c1, g1) → ∃ v,
    cell_get p c1 = Ret v ∧ G (c1, g1) (c1, g1) ∧ rgb R G (k v) Q c1 g1) →
  rgb R G (prs_pal_atomic_load p ≫= k) Q c g.
Proof.
  intros H. apply rg_bind_act. intros c1 g1 HR.
  destruct (H c1 g1 HR) as (v & Hv & HG & HQ). exists v, c1, g1. by rewrite Hv.
Qed.

Lemma rg_bind_peek {V A : Type} (f : C → V) (k : V → prog C A) Q c g :
  (∀ c1 g1, R (c, g) (c1, g1) → G (c1, g1) (c1, g1) ∧ rgb R G (k (f c1)) Q c1 g1) →
  rgb R G (peek f ≫= k) Q c g.
Proof.
  intros H. apply rg_bind_act. intros c1 g1 HR. destruct (H c1 g1 HR). eauto 6.
Qed.

Lemma rg_bind_store {V A : Type} (p : cell C V) v (k : unit → prog C A) Q c g :
  (∀ c1 g1, R (c, g) (c1, g1) → ∃ c2 g2,
    cell_set p v c1 = Ret c2 ∧ G (c1, g1) (c2, g2) ∧ rgb R G (k tt) Q c2 g2) →
  rgb R G (prs_pal_atomic_store p v ≫= k) Q c g.
Proof.
  intros H. apply rg_bind_act. intros c1 g1 HR.
  destruct (H c1 g1 HR) as (c2 & g2 & Hset & HG & HQ). exists tt, c2, g2. by rewrite Hset.
Qed.

Lemma rg_bind_cas_strong {V A : Type} `{EqDecision V} (p : cell C V) e v
    (k : bool * V → prog C A) Q c g :
  (∀ c1 g1, R (c, g) (c1, g1) → ∃ h, cell_get p c1 = Ret h ∧
    if decide (h = e)
    then ∃ c2 g2, cell_set p v c1 = Ret c2 ∧ G (c1, g1) (c2, g2) ∧ rgb R G (k (true, e)) Q c2 g2
    else G (c1, g1) (c1, g1) ∧ rgb R G (k (false, h)) Q c1 g1) →
  rgb R G (prs_pal_atomic_compare_exchange_strong p e v ≫= k) Q c g.
Proof.
  intros H. apply rg_bind_act. intros c1 g1 HR.
  destruct (H c1 g1 HR) as (h & Hh & Hc). rewrite Hh. ocbn. case_decide.
  - destruct Hc as (c2 & g2 & Hset & HG & HQ). exists (true, e), c2, g2. by rewrite Hset.
  - destruct Hc as [HG HQ]. by exists (false, h), c1, g1.
Qed.

(** The compare-exchange loop: it is enough to look at what the body decides
    on a header value that is current at some moment, with the exchange taking
    effect at that moment. *)
Lemma rg_cas_weak_loop {V A : Type} `{EqDecision V} fuel (p : cell C V)
    (body : V → A + V * A) header Q c g :
  sok →
  (∀ c1 g1, R (c, g) (c1, g1) → G (c1, g1) (c1, g1)) →
  (∀ c1 g1, R (c, g) (c1, g1) → ∃ h, cell_get p c1 = Ret h ∧
    match body h with
    | inl a => ∀ c2 g2, R (c1, g1) (c2, g2) → Q a c2 g2
    | inr (new, a) => ∃ c2 g2, cell_set p new c1 = Ret c2 ∧ G (c1, g1) (c2, g2) ∧
        ∀ c3 g3, R (c2, g2) (c3, g3) → Q a c3 g3
    end) →
  match body header with
  | inl a => ∀ c2 g2, R (c, g) (c2, g2) → Q a c2 g2
  | inr _ => True
  end →
  rgb R G (cas_weak_loop fuel p body header) Q c g.
Proof.
  intros Hsok. revert header c g.
  induction fuel as [|fuel IH]; intros header c g HG Hbody Hnow; [done|].
  cbn [cas_weak_loop]. destruct (body header) as [a|[new a]] eqn:Hb; [exact Hnow|].
  apply rg_bind.
  assert (∀ c1 g1 h, R (c, g) (c1, g1) → cell_get p c1 = Ret h →
    rgb R G (cas_weak_loop fuel p body h) Q c1 g1) as Hretry.
  { intros c1 g1 h HR Hh. apply IH.
    - intros c2 g2 H2. apply HG. by transitivity (c1, g1).
    - intros c2 g2 H2. apply Hbody. by transitivity (c1, g1).
    - destruct (Hbody c1 g1 HR) as (h' & Hh' & Hm).
      rewrite Hh in Hh'. injection Hh' as <-. by destruct (body h) as [|[]]. }
  intros [|] Hspur; cbn [rgb].
  - apply rg_act. intros c1 g1 HR. destruct (Hbody c1 g1 HR) as (h & Hh & _).
    exists (false, h), c1, g1. rewrite Hh. ocbn. split; [done|]. split; [by apply HG|].
    intros c3 g3 H3. apply (rg_rely _ _ c1 g1 c3 g3 H3). by apply Hretry.
  - apply rg_act. intros c1 g1 HR. destruct (Hbody c1 g1 HR) as (h & Hh & Hm).
    rewrite Hh. ocbn. destruct (decide (h = header)) as [->|Hne].
    + rewrite Hb in Hm. destruct Hm as (c2 & g2 & Hset & HG2 & HQ).
      exists (true, header), c2, g2. rewrite Hset. split; [done|]. split; [done|].
      intros c3 g3 H3. apply rg_done. intros c4 g4 H4. apply HQ.
      by transitivity (c3, g3).
    + exists (false, h), c1, g1. split; [done|]. split; [by apply HG|].
      intros c3 g3 H3. apply (rg_rely _ _ c1 g1 c3 g3 H3). by apply Hretry.
Qed.
End rules.

(** A program whose loops have fuel enough and that is not blocked in the states
    [J], which it does not leave, returns when it is run alone. *)
Lemma rg_run_from {A : Type} R G (J : C → Gh → Prop) (p : prog C A) (Q : A → C → Gh → Prop) c g :
  ¬ fok → ¬ sok → (∀ s, R s s) →
  (∀ c g, J c g → ¬ blk c g) → (∀ c g c' g', G (c, g) (c', g') → J c g → J c' g') →
  J c g → rgb R G p Q c g →
  ∃ a c' g', run p c = Ret (Some a, c') ∧ Q a c' g' ∧ J c' g'.
Proof.
  intros Hf Hs HR Hb HJ. revert c g.
  induction p as [a| |X f k IH|k IH|X f k IH]; intros c g Hj; simpl; [|done| | |].
  - intros H. exists a, c, g. auto.
  - intros H. specialize (H c g (HR _)). destruct (f c) as [[x c2]| |]; [|done..].
    destruct H as (g2 & HG & H). ocbn. apply (IH x c2 g2); [by eapply HJ|done].
  - intros H. by apply (IH false c g), H.
  - intros H. specialize (H c g (HR _)). destruct (f c) as [[[x c2]|]| |]; [|by apply Hb in H|done..].
    destruct H as (g2 & HG & H). ocbn. apply (IH x c2 g2); [by eapply HJ|done].
Qed.

Lemma rg_run {A : Type} R G (p : prog C A) (Q : A → C → Gh → Prop) c g :
  ¬ fok → ¬ sok → (∀ c g, ¬ blk c g) → (∀ s, R s s) → rgb R G p Q c g →
  ∃ a c' g', run p c = Ret (Some a, c') ∧ Q a c' g'.
Proof.
  intros Hf Hs Hb HR H.
  destruct (rg_run_from R G (λ _ _, True) p Q c g) as (a & c' & g' & Hrun & HQ & _); eauto.
Qed.

(** What neither the program nor the other threads undo. *)
Lemma rg_frame {A : Type} R G (P : C → Gh → Prop) (p : prog C A) (Q : A → C → Gh → Prop) c g :
  (∀ c g c' g', R (c, g) (c', g') → P c g → P c' g') →
  (∀ c g c' g', G (c, g) (c', g') → P c g → P c' g') →
  P c g → rgb R G p Q c g → rgb R G p (λ a c g, Q a c g ∧ P c g) c g.
Proof.
  intros HR HG. revert c g. induction p as [a| |X f k IH|k IH|X f k IH]; intros c g HP; simpl; eauto.
  - intros H c1 g1 H1. specialize (H c1 g1 H1). destruct (f c1) as [[x c2]| |]; [|done..].
    destruct H as (g2 & Hg & H). eauto 6.
  - intros H c1 g1 H1. specialize (H c1 g1 H1). destruct (f c1) as [[[x c2]|]| |]; [|done..].
    destruct H as (g2 & Hg & H). eauto 6.
Qed.

(** Code of another module, of which only [within] is known. *)
Lemma rg_within {A : Type} R G (J : C → Prop) (F : relation C) (Inv : C → Gh → Prop) (p : prog C A) c g :
  (∀ c g c' g', R (c, g) (c', g') → Inv c g → Inv c' g') →
  (∀ c g, Inv c g → J c) →
  (∀ c c' g, Inv c g → F c c' → Inv c' g ∧ G (c, g) (c', g)) →
  within J F p → Inv c g → rgb R G p (λ _ c g, Inv c g) c g.
Proof.
  intros HR HJ HF. revert c g. induction p as [a| |X f k IH|k IH|X f k IH]; intros c g Hp HI; simpl in *.
  - eauto.
  - done.
  - intros c1 g1 H1. pose proof (HR _ _ _ _ H1 HI) as HI1. specialize (Hp c1 (HJ _ _ HI1)).
    destruct (f c1) as [[x c2]| |]; [|done..]. destruct Hp as [HF12 Hp].
    destruct (HF c1 c2 g1 HI1 HF12) as [HI2 HG]. exists g1. auto.
  - auto.
  - done.
Qed.

(** ** Adequacy

    When every thread satisfies its specification and what one thread
    guarantees is what the others rely on, then in every interleaving no
    thread faults, the invariant is kept, and finished threads have returned
    what their specification says. *)

Section adequacy.
Hypothesis spurious_ok : spurious.
Context {A : Type} (Rs Gs : nat → relation (C * Gh)) (Qs : nat → A → C → Gh → Prop).
Context (I : C → Gh → Prop).
Hypothesis Rs_preorder : ∀ i, PreOrder (Rs i).
Hypothesis guarantee_rely : ∀ i j s s', i ≠ j → Gs i s s' → Rs j s s'.
Hypothesis guarantee_inv : ∀ i c g c' g', Gs i (c, g) (c', g') → I c g → I c' g'.

Definition pool_ok (c : C) (g : Gh) (ps : list (prog C A)) : Prop :=
  I c g ∧ ∀ i p, ps !! i = Some p → rgb (Rs i) (Gs i) p (Qs i) c g.

Lemma prog_step_ok i b c g p c' p' :
  rgb (Rs i) (Gs i) p (Qs i) c g → prog_step b c p = Some (c', p') →
  (c' = c ∧ rgb (Rs i) (Gs i) p' (Qs i) c g) ∨
  ∃ g', Gs i (c, g) (c', g') ∧ rgb (Rs i) (Gs i) p' (Qs i) c' g'.
Proof.
  intros Hp Hs. destruct p as [a| |X f k|k|X f k]; simpl in Hs; [done..| | |].
  - specialize (Hp c g ltac:(reflexivity)). destruct (f c) as [[x c2]| |]; [|done..].
    simplify_eq. eauto.
  - simplify_eq. left. auto.
  - specialize (Hp c g ltac:(reflexivity)). destruct (f c) as [[[x c2]|]| |]; [|done..].
    simplify_eq. eauto.
Qed.

Lemma pool_step_ok c g ps c' ps' :
  pool_ok c g ps → pool_step (c, ps) (c', ps') → ∃ g', pool_ok c' g' ps'.
Proof.
  intros [HI Hps] Hs. inversion Hs as [i b ? ? p ? p' Hi Hstep]; subst.
  destruct (prog_step_ok i b c g p c' p' (Hps i p Hi) Hstep) as [[-> Hp]|(g' & HG & Hp)].
  - exists g. split; [done|]. intros j q Hj.
    apply list_lookup_insert_Some in Hj as [(-> & <- & _)|[_ Hj]]; auto.
  - exists g'. split; [eauto|]. intros j q Hj.
    apply list_lookup_insert_Some in Hj as [(-> & <- & _)|[Hne Hj]]; [done|].
    eapply (rg_rely (R := Rs j)); eauto.
Qed.

Lemma pool_rtc_ok c g ps c' ps' :
  pool_ok c g ps → rtc pool_step (c, ps) (c', ps') → ∃ g', pool_ok c' g' ps'.
Proof.
  intros Hok Hr. remember (c, ps) as s eqn:Es. remember (c', ps') as s' eqn:Es'.
  revert c g ps Es Hok. induction Hr as [s|s1 [c2 ps2] s3 Hs _ IH]; intros c g ps -> Hok.
  - simplify_eq. eauto.
  - destruct (pool_step_ok _ _ _ _ _ Hok Hs) as [g2 Hok2]. eauto.
Qed.

(** As long as thread [i] does not move, the others do to it what it relies on. *)
Lemma pool_without_ok i c g ps c' ps' :
  pool_ok c g ps → rtc (step_without i) (c, ps) (c', ps') → ∃ g', pool_ok c' g' ps' ∧ Rs i (c, g) (c', g').
Proof.
  intros Hok Hr. remember (c, ps) as s eqn:Es. remember (c', ps') as s' eqn:Es'.
  revert c g ps Es Hok. induction Hr as [s|s1 [c2 ps2] s3 (j & b & p & p' & Hne & Hj & Hs & He) _ IH]; intros c g ps -> Hok.
  - simplify_eq. exists g. split; [done|reflexivity].
  - cbn in Hj, Hs, He. subst ps2. assert (∃ g2, pool_ok c2 g2 (<[j := p']> ps) ∧ Rs i (c, g) (c2, g2)) as (g2 & Hok2 & HR).
    { destruct Hok as [HI Hps]. destruct (prog_step_ok j b c g p c2 p' (Hps j p Hj) Hs) as [[-> Hp]|(g' & HG & Hp)].
      - exists g. split; [|reflexivity]. split; [done|]. intros k q Hk.
        apply list_lookup_insert_Some in Hk as [(-> & <- & _)|[_ Hk]]; auto.
      - exists g'. split; [|by eapply guarantee_rely]. split; [eauto|]. intros k q Hk.
        apply list_lookup_insert_Some in Hk as [(-> & <- & _)|[Hne' Hk]]; [done|].
        eapply (rg_rely (R := Rs k)); eauto. }
    destruct (IH Es' c2 g2 _ eq_refl Hok2) as (g' & Hok' & HR'). exists g'. split; [done|]. by etransitivity.
Qed.

Theorem pool_adequate c g ps c' ps' :
  pool_ok c g ps → rtc pool_step (c, ps) (c', ps') →
  ∃ g', I c' g' ∧
    (∀ i p, ps' !! i = Some p → ¬ faults c' p) ∧
    (∀ i a, ps' !! i = Some (Done a) → Qs i a c' g').
Proof.
  intros Hok Hr. destruct (pool_rtc_ok _ _ _ _ _ Hok Hr) as [g' [HI Hps]].
  exists g'. split; [done|]. split.
  - intros i p Hi Hf. specialize (Hps i p Hi). destruct p as [a| |X f k|k|X f k]; try done;
    specialize (Hps c' g' ltac:(reflexivity)); simpl in Hf; by rewrite Hf in Hps.
  - intros i a Hi. apply (Hps i _ Hi). reflexivity.
Qed.
End adequacy.
End rely_guarantee.

(** Programs that do not block. *)
Abbreviation rg fok sok spurious := (rgb fok sok spurious (λ _ _, False)).

(** Rule applications that discharge the pre-order condition on the rely. *)
Ltac solve_rely := try lazymatch goal with |- PreOrder _ => apply _ | |- True => exact I end.
Tactic Notation "rg_bind" := apply rg_bind; solve_rely.
Tactic Notation "rg_act" := apply rg_act; solve_rely.
Tactic Notation "rg_bind_wait" := apply rg_bind_wait; solve_rely.
Tactic Notation "rg_bind_act" := apply rg_bind_act; solve_rely.
Tactic Notation "rg_bind_load" := apply rg_bind_load; solve_rely.
Tactic Notation "rg_bind_peek" := apply rg_bind_peek; solve_rely.
Tactic Notation "rg_bind_store" := apply rg_bind_store; solve_rely.
Tactic Notation "rg_bind_cas_strong" := apply rg_bind_cas_strong; solve_rely.
Tactic Notation "rg_cas_weak_loop" := apply rg_cas_weak_loop; solve_rely.
