(* ===== verification/RefDir.v ===== *)
(** * Reference-counted directories: the contract

    The pointer directory, the pool and the global object directory give the same
    service: objects are registered under an ID, and an ID can be locked and
    unlocked from any thread.  This file states the service once, as an abstract
    machine on the map from live IDs to their holders, with the rely and the
    guarantee of a thread, and the interface ([RefDir]) that an implementation
    fills in.  The clients' theorem at the end is proved against the interface. *)

From S2P Require Import Prelude Atomic.

(** ** The abstract machine *)

(** A live ID is owned by the thread that is creating or destroying the object, or
    shared by the threads that hold references; a thread appears once per
    reference.  The object is published once other threads may obtain it. *)

Inductive phase : Type :=
  | Owned (t : nat)
  | Shared (hs : list nat).

Inductive content (P : Type) : Type :=
  | Unpublished (t : nat)
  | Published (p : P).
Arguments Unpublished {P} t.
Arguments Published {P} p.

Record dentry (P : Type) : Type := DEntry { de_phase : phase; de_content : content P }.
Arguments DEntry {P} _ _.
Arguments de_phase {P} _.
Arguments de_content {P} _.

Abbreviation dirmap P := (gmap Z (dentry P)).

(** Dropping one reference of a thread. *)
Fixpoint drop_ref {A : Type} `{EqDecision A} (t : A) (hs : list A) : list A :=
  match hs with
  | [] => []
  | h :: hs => if decide (h = t) then hs else h :: drop_ref t hs
  end.

Lemma drop_ref_split {A : Type} `{EqDecision A} (t : A) xs ys : t ∉ xs → drop_ref t (xs ++ t :: ys) = xs ++ ys.
Proof.
  induction xs as [|x xs IH]; intros Ht; cbn.
  - by rewrite decide_True.
  - apply not_elem_of_cons in Ht as [Hne Ht]. rewrite decide_False by done. by rewrite IH.
Qed.

(** What thread [t] may do in one atomic action. *)
Inductive dir_step {P : Type} (t : nat) : dirmap P → dirmap P → Prop :=
  | dir_nop m : dir_step t m m
  | dir_reserve m i : m !! i = None →
      dir_step t m (<[i := DEntry (Owned t) (Unpublished t)]> m)
  | dir_create m i : m !! i = None →
      dir_step t m (<[i := DEntry (Shared [t]) (Unpublished t)]> m)
  | dir_publish m i hs p : m !! i = Some (DEntry (Shared hs) (Unpublished t)) →
      dir_step t m (<[i := DEntry (Shared hs) (Published p)]> m)
  | dir_first m i x p : m !! i = Some (DEntry (Owned t) x) →
      dir_step t m (<[i := DEntry (Shared [t]) (Published p)]> m)
  | dir_lock m i hs x : m !! i = Some (DEntry (Shared hs) x) →
      dir_step t m (<[i := DEntry (Shared (t :: hs)) x]> m)
  | dir_unlock m i hs x : m !! i = Some (DEntry (Shared hs) x) → t ∈ hs → hs ≠ [t] →
      dir_step t m (<[i := DEntry (Shared (drop_ref t hs)) x]> m)
  | dir_last m i x : m !! i = Some (DEntry (Shared [t]) x) →
      dir_step t m (delete i m)
  | dir_retire m i x : m !! i = Some (DEntry (Shared [t]) x) →
      dir_step t m (<[i := DEntry (Owned t) x]> m)
  | dir_free m i x : m !! i = Some (DEntry (Owned t) x) →
      dir_step t m (delete i m).

(** The number of references thread [t] holds on [i]. *)
Definition held {P : Type} (t : nat) (m : dirmap P) (i : Z) : nat :=
  match m !! i with
  | Some (DEntry (Shared hs) _) => count_occ Nat.eq_dec hs t
  | _ => 0%nat
  end.

Definition owned_by {P : Type} (t : nat) (m : dirmap P) (i : Z) : Prop :=
  ∃ x, m !! i = Some (DEntry (Owned t) x).

(** The object behind [i], once published. *)
Definition object_of {P : Type} (m : dirmap P) (i : Z) : option P :=
  match m !! i with
  | Some (DEntry _ (Published p)) => Some p
  | _ => None
  end.

(** ** Reference counting facts *)

Lemma count_drop_ref {A : Type} `{EqDecision A} (dec : ∀ x y : A, {x = y} + {x ≠ y}) t t' hs :
  count_occ dec (drop_ref t hs) t' =
    (if decide (t = t') then Nat.pred (count_occ dec hs t') else count_occ dec hs t').
Proof.
  induction hs as [|h hs IH]; simpl; [by destruct (decide (t = t'))|].
  destruct (decide (h = t)) as [->|Hne].
  - destruct (dec t t'), (decide (t = t')); done.
  - simpl. rewrite IH. destruct (dec h t'), (decide (t = t')); subst; done.
Qed.

Lemma length_drop_ref (t : nat) hs : t ∈ hs → length hs = S (length (drop_ref t hs)).
Proof.
  induction hs as [|h hs IH]; intros H; [by apply not_elem_of_nil in H|].
  simpl. destruct (decide (h = t)); [done|].
  apply elem_of_cons in H as [->|H]; [done|]. simpl. by rewrite IH.
Qed.

Lemma drop_ref_nil (t : nat) hs : t ∈ hs → drop_ref t hs = [] → hs = [t].
Proof.
  intros Hin Hn. pose proof (length_drop_ref t hs Hin) as Hl. rewrite Hn in Hl.
  destruct hs as [|h [|]]; try done. apply list_elem_of_singleton in Hin. by subst.
Qed.

Lemma count_pos_elem {A : Type} (dec : ∀ x y : A, {x = y} + {x ≠ y}) t hs :
  (0 < count_occ dec hs t)%nat ↔ t ∈ hs.
Proof. rewrite list_elem_of_In. symmetry. apply count_occ_In. Qed.

Lemma held_pos {P : Type} t (m : dirmap P) i :
  (0 < held t m i)%nat → ∃ hs x, m !! i = Some (DEntry (Shared hs) x) ∧ t ∈ hs.
Proof.
  unfold held. destruct (m !! i) as [[[|hs] x]|]; intros H; try lia.
  apply (count_pos_elem Nat.eq_dec) in H. eauto.
Qed.

(** The references on an ID, counted by holder. *)
Lemma sum_indicator (h a n : nat) :
  (a ≤ h < a + n)%nat → sum_list_with (λ t, if Nat.eq_dec h t then 1%nat else 0%nat) (seq a n) = 1%nat.
Proof.
  revert a. induction n as [|n IH]; intros a H; [lia|]. simpl.
  destruct (Nat.eq_dec h a) as [->|Hne]; [|apply IH; lia].
  assert (∀ m b, (a < b)%nat →
    sum_list_with (λ t, if Nat.eq_dec a t then 1%nat else 0%nat) (seq b m) = 0%nat) as Hz.
  { clear. induction m as [|m IH]; intros b H; [done|]. simpl.
    destruct (Nat.eq_dec a b); [lia|]. apply IH. lia. }
  rewrite Hz; lia.
Qed.

Lemma length_by_holder n hs :
  Forall (λ h, (h < n)%nat) hs →
  length hs = sum_list_with (λ t, count_occ Nat.eq_dec hs t) (seq 0 n).
Proof.
  induction 1 as [|h hs Hh _ IH].
  - simpl. induction (seq 0 n); done.
  - simpl length. rewrite IH.
    transitivity (sum_list_with (λ t, if Nat.eq_dec h t then 1%nat else 0%nat) (seq 0 n) +
      sum_list_with (λ t, count_occ Nat.eq_dec hs t) (seq 0 n))%nat.
    + rewrite sum_indicator by lia. done.
    + clear IH. induction (seq 0 n) as [|t ts IHt]; [done|]. cbn [sum_list_with count_occ] in *.
      destruct (Nat.eq_dec h t); lia.
Qed.

Lemma count_occ_concat {A : Type} (dec : ∀ x y : A, {x = y} + {x ≠ y}) (ls : list (list A)) x :
  count_occ dec (concat ls) x = sum_list_with (λ l, count_occ dec l x) ls.
Proof. induction ls as [|l ls IH]; simpl; [done|]. by rewrite count_occ_app, IH. Qed.

Lemma sum_list_with_lookup {A : Type} (f : nat → nat) (g : A → nat) (ls : list A) :
  (∀ t l, ls !! t = Some l → f t = g l) →
  sum_list_with f (seq 0 (length ls)) = sum_list_with g ls.
Proof.
  assert (∀ a, (∀ t l, ls !! t = Some l → f (a + t)%nat = g l) →
    sum_list_with f (seq a (length ls)) = sum_list_with g ls) as H; [|apply (H 0%nat)].
  induction ls as [|l ls IH]; intros a Ha; [done|]. simpl. f_equal.
  - rewrite <- (Ha 0%nat l eq_refl). by rewrite Nat.add_0_r.
  - apply IH. intros t l' Hl. rewrite <- (Ha (S t) l' Hl). f_equal. lia.
Qed.

(** ** What the other threads cannot change *)

Section stability.
Context {P : Type}.
Implicit Types (m : dirmap P).

Lemma held_insert t m i hs x j :
  held t (<[i := DEntry (Shared hs) x]> m) j =
    (if decide (i = j) then count_occ Nat.eq_dec hs t else held t m j).
Proof. unfold held. rewrite lookup_insert. by case_decide. Qed.

Lemma held_other t t' m m' i : t ≠ t' → dir_step t' m m' → held t m' i = held t m i.
Proof.
  intros Hne Hs. unfold held.
  destruct Hs as [m|m j Hj|m j Hj|m j hs p Hj|m j x p Hj|m j hs x Hj|m j hs x Hj Hin Hn
    |m j x Hj|m j x Hj|m j x Hj]; try done;
  (destruct (decide (j = i)) as [->|];
    [rewrite ?lookup_insert_eq, ?lookup_delete_eq, Hj|by rewrite ?lookup_insert_ne, ?lookup_delete_ne by done]);
  simpl; repeat destruct Nat.eq_dec; try done.
  rewrite count_drop_ref. by rewrite decide_False by done.
Qed.

Lemma owned_other t t' m m' i : t ≠ t' → dir_step t' m m' → owned_by t m i → owned_by t m' i.
Proof.
  intros Hne Hs [x Hi]. exists x.
  destruct Hs as [m|m j Hj|m j Hj|m j hs p Hj|m j y p Hj|m j hs y Hj|m j hs y Hj Hin Hn
    |m j y Hj|m j y Hj|m j y Hj]; try done;
  (destruct (decide (j = i)) as [->|];
    [congruence|by rewrite ?lookup_insert_ne, ?lookup_delete_ne by done]).
Qed.

(** The published object of an ID on which [t] holds a reference stays. *)
Lemma object_other t t' m m' i p :
  t ≠ t' → dir_step t' m m' → (0 < held t m i)%nat → object_of m i = Some p →
  object_of m' i = Some p.
Proof.
  intros Hne Hs Hh. apply held_pos in Hh as (hs0 & x0 & Hi & Hin0).
  unfold object_of. rewrite Hi. intros Hp.
  destruct Hs as [m|m j Hj|m j Hj|m j hs q Hj|m j y q Hj|m j hs y Hj|m j hs y Hj Hin Hn
    |m j y Hj|m j y Hj|m j y Hj]; simplify_eq;
  try (by rewrite Hi);
  (destruct (decide (j = i)) as [->|];
    [rewrite Hi in Hj; simplify_eq; rewrite ?lookup_insert_eq, ?lookup_delete_eq
    |by rewrite ?lookup_insert_ne, ?lookup_delete_ne, Hi by done]);
  try done; apply list_elem_of_singleton in Hin0; done.
Qed.

(** An ID that [t] has created and not published yet stays so. *)
Definition creating (t : nat) m (i : Z) : Prop :=
  ∃ hs, m !! i = Some (DEntry (Shared hs) (Unpublished t)) ∧ t ∈ hs.

Lemma creating_other t t' m m' i : t ≠ t' → dir_step t' m m' → creating t m i → creating t m' i.
Proof.
  intros Hne Hs (hs0 & Hi & Hin0).
  assert (∀ hs1, t ∈ hs1 → creating t (<[i := DEntry (Shared hs1) (Unpublished t)]> m) i) as Hnew.
  { intros hs1 H1. exists hs1. by rewrite lookup_insert_eq. }
  destruct Hs as [m|m j Hj|m j Hj|m j hs q Hj|m j y q Hj|m j hs y Hj|m j hs y Hj Hin Hn
    |m j y Hj|m j y Hj|m j y Hj]; simplify_eq; try (by exists hs0);
  (destruct (decide (j = i)) as [->|];
    [rewrite Hi in Hj; simplify_eq
    |exists hs0; by rewrite ?lookup_insert_ne, ?lookup_delete_ne by done]);
  try (by apply list_elem_of_singleton in Hin0).
  - apply Hnew. by right.
  - apply Hnew. apply (count_pos_elem Nat.eq_dec). rewrite count_drop_ref, decide_False by done.
    by apply (count_pos_elem Nat.eq_dec).
Qed.
End stability.

(** ** Tables

    The implementations keep the live IDs in an array of entries: an ID has one
    slot, and an entry tells which ID is live in it, if any.  [ok i d e]: entry
    [e] holds the live ID [i] in state [d]. *)

Section table.
Context {P E : Type} (slot : Z → nat) (live : E → option Z) (ok : Z → dentry P → E → Prop).
Hypothesis ok_live : ∀ i d e, ok i d e → live e = Some i.

Definition table_rep (es : list E) (m : dirmap P) : Prop :=
  (∀ i d, m !! i = Some d → ∃ e, es !! slot i = Some e ∧ ok i d e) ∧
  (∀ s e i, es !! s = Some e → live e = Some i → slot i = s ∧ is_Some (m !! i)).

Lemma table_live es m s e i :
  table_rep es m → es !! s = Some e → live e = Some i → ∃ d, m !! i = Some d ∧ ok i d e.
Proof.
  intros [H1 H2] He Hl. destruct (H2 s e i He Hl) as [<- [d Hd]].
  exists d. split; [done|]. destruct (H1 i d Hd) as (e' & He' & Hok). by simplify_eq.
Qed.

Lemma table_lookup es m i d :
  table_rep es m → m !! i = Some d → ∃ e, es !! slot i = Some e ∧ ok i d e.
Proof. intros [H1 _]. apply H1. Qed.

Lemma table_not_live es m s e i :
  table_rep es m → es !! s = Some e → slot i = s → live e ≠ Some i → m !! i = None.
Proof.
  intros [H1 _] He Hs Hl. destruct (m !! i) as [d|] eqn:Hd; [|done].
  destruct (H1 i d Hd) as (e' & He' & Hok). rewrite Hs in He'. simplify_eq.
  apply ok_live in Hok. done.
Qed.

(** Nothing is live in the slot before, [i] is afterwards; or [i] changes state. *)
Lemma table_set es m s e e' i d :
  table_rep es m → es !! s = Some e → slot i = s → live e = None ∨ live e = Some i →
  ok i d e' → table_rep (<[s := e']> es) (<[i := d]> m).
Proof.
  intros [H1 H2] He Hs Hl Hok. split.
  - intros j dj Hj. destruct (decide (i = j)) as [<-|Hne].
    + rewrite lookup_insert_eq in Hj. simplify_eq. exists e'. split; [|done].
      apply list_lookup_insert_eq. by eapply lookup_lt_Some.
    + rewrite lookup_insert_ne in Hj by done. destruct (H1 j dj Hj) as (ej & Hej & Hokj).
      exists ej. split; [|done]. rewrite list_lookup_insert_ne; [done|].
      intros Heq. rewrite <- Heq, He in Hej. simplify_eq. apply ok_live in Hokj.
      destruct Hl; congruence.
  - intros s' e1 j Hs' Hlj. apply list_lookup_insert_Some in Hs' as [(<- & <- & _)|[Hne Hs']].
    + rewrite (ok_live _ _ _ Hok) in Hlj. simplify_eq. split; [done|].
      rewrite lookup_insert_eq. by eexists.
    + destruct (H2 s' e1 j Hs' Hlj) as [Hsl Hm]. split; [done|].
      destruct (decide (i = j)) as [<-|Hij]; [congruence|]. by rewrite lookup_insert_ne.
Qed.

(** The other live IDs are in other slots. *)
Lemma table_slot_other es m s e i j d :
  table_rep es m → es !! s = Some e → live e = None ∨ live e = Some i →
  m !! j = Some d → j ≠ i → slot j ≠ s.
Proof.
  intros [H1 _] He Hl Hj Hne Hs. destruct (H1 j d Hj) as (ej & Hej & Hok).
  rewrite Hs, He in Hej. simplify_eq. apply ok_live in Hok. destruct Hl; congruence.
Qed.

(** An ID leaves the table. *)
Lemma table_unset es m s e e' i :
  table_rep es m → es !! s = Some e → live e = Some i → live e' = None →
  table_rep (<[s := e']> es) (delete i m).
Proof.
  intros Hrep He Hl Hl'. pose proof Hrep as [H1 H2].
  destruct (H2 s e i He Hl) as [Hs _]. split.
  - intros j dj Hj. apply lookup_delete_Some in Hj as [Hne Hj].
    destruct (H1 j dj Hj) as (ej & Hej & Hokj). exists ej. split; [|done].
    rewrite list_lookup_insert_ne; [done|]. intros Heq. rewrite <- Heq, He in Hej.
    simplify_eq. apply ok_live in Hokj. congruence.
  - intros s' e1 j Hs' Hlj. apply list_lookup_insert_Some in Hs' as [(<- & <- & _)|[Hne Hs']].
    + congruence.
    + destruct (H2 s' e1 j Hs' Hlj) as [Hsl Hm]. split; [done|].
      rewrite lookup_delete_ne; [done|]. intros <-. congruence.
Qed.

(** A change that concerns no live ID. *)
Lemma table_inert es m s e e' :
  table_rep es m → es !! s = Some e → live e = None → live e' = None →
  table_rep (<[s := e']> es) m.
Proof.
  intros [H1 H2] He Hl Hl'. split.
  - intros j dj Hj. destruct (H1 j dj Hj) as (ej & Hej & Hokj). exists ej. split; [|done].
    rewrite list_lookup_insert_ne; [done|]. intros Heq. rewrite <- Heq, He in Hej.
    simplify_eq. apply ok_live in Hokj. congruence.
  - intros s' e1 j Hs' Hlj. apply list_lookup_insert_Some in Hs' as [(<- & <- & _)|[Hne Hs']];
      [congruence|by apply (H2 s' e1)].
Qed.

Lemma table_empty es : Forall (λ e, live e = None) es → table_rep es ∅.
Proof.
  intros Hes. split; [done|]. intros s e i He Hl.
  eapply Forall_lookup_1 in Hes; [|done]. simpl in Hes. congruence.
Qed.
End table.

(** ** The interface *)

Class RefDirOps (C P : Type) : Type := {
  rd_alloc : P → prog C (option Z);             (** register and lock *)
  rd_lock : nat → Z → prog C (option P);        (** with the fuel of its loop *)
  rd_mode : Type;                               (** the variants of unlocking *)
  rd_try : rd_mode → bool;      (** when it returns false, the reference is kept *)
  rd_unlock : nat → rd_mode → Z → prog C bool;
  rd_key : Z → Z;                               (** the ID a table entry records *)
  rd_valid : Z → bool;                          (** the ID fits in a table entry *)
  rd_eager : Prop;      (** IDs become lockable only once they are published *)
  rd_rep : C → dirmap P → Prop;                 (** the table represents the map *)
  rd_same : C → C → Z → Prop                    (** the entry of the ID is unchanged *)
}.

Section protocol.
Context {C P : Type} `{!RefDirOps C P}.

(** The actions of thread [t]: the table goes on representing the map, the map
    takes a step of the abstract machine, and entries that other threads own
    are left alone. *)
Definition guar (t : nat) (s s' : C * dirmap P) : Prop :=
  rd_rep s.1 s.2 ∧ rd_rep s'.1 s'.2 ∧ dir_step t s.2 s'.2 ∧
  ∀ t' i, t' ≠ t → owned_by t' s.2 i → rd_same s.1 s'.1 i.

Definition others (t : nat) (s s' : C * dirmap P) : Prop := ∃ t', t' ≠ t ∧ guar t' s s'.

(** What the other threads may have done between two actions of [t]. *)
Definition rely (t : nat) : relation (C * dirmap P) := rtc (others t).

#[export] Instance rely_preorder t : PreOrder (rely t).
Proof. unfold rely. apply _. Qed.

Lemma guar_rely t t' s s' : t' ≠ t → guar t' s s' → rely t s s'.
Proof. intros Hne HG. apply rtc_once. by exists t'. Qed.

(** Whatever the guarantees of the other threads preserve, the rely preserves. *)
Lemma rely_preserves (Q : C → dirmap P → Prop) t c m c' m' :
  (∀ t' c1 m1 c2 m2, t' ≠ t → guar t' (c1, m1) (c2, m2) → Q c1 m1 → Q c2 m2) →
  rely t (c, m) (c', m') → Q c m → Q c' m'.
Proof.
  intros Hstep HR. remember (c, m) as s eqn:Es. remember (c', m') as s' eqn:Es'.
  revert c m Es. induction HR as [s|s1 [c2 m2] s3 Hs _ IH]; intros c m -> HQ.
  - by simplify_eq.
  - destruct Hs as (t' & Hne & HG). apply (IH Es' c2 m2 eq_refl). by eapply Hstep.
Qed.

Lemma rely_rep t c m c' m' : rely t (c, m) (c', m') → rd_rep c m → rd_rep c' m'.
Proof. apply rely_preserves. intros t' c1 m1 c2 m2 _ HG _. apply HG. Qed.

Lemma rely_held t c m c' m' i : rely t (c, m) (c', m') → held t m' i = held t m i.
Proof.
  intros HR. apply (rely_preserves (λ _ m2, held t m2 i = held t m i) t c m c' m' ); [|done..].
  intros t' c1 m1 c2 m2 Hne HG <-. apply (held_other t t'); [done|apply HG].
Qed.

Lemma rely_object t c m c' m' i p :
  rely t (c, m) (c', m') → (0 < held t m i)%nat → object_of m i = Some p →
  object_of m' i = Some p.
Proof.
  intros HR Hh Ho.
  apply (rely_preserves (λ _ m, (0 < held t m i)%nat ∧ object_of m i = Some p) t c m c' m'); [|done..].
  intros t' c1 m1 c2 m2 Hne HG [Hh1 Ho1].
  rewrite (held_other t t' m1 m2) by (done || apply HG). split; [done|].
  apply (object_other t t' m1 m2); [done|apply HG|done..].
Qed.

Lemma rely_owned t c m c' m' i : rely t (c, m) (c', m') → owned_by t m i → owned_by t m' i.
Proof.
  apply (rely_preserves (λ _ m, owned_by t m i)).
  intros t' c1 m1 c2 m2 Hne HG. apply (owned_other t t'); [done|apply HG].
Qed.

Lemma rely_creating t c m c' m' i : rely t (c, m) (c', m') → creating t m i → creating t m' i.
Proof.
  apply (rely_preserves (λ _ m, creating t m i)).
  intros t' c1 m1 c2 m2 Hne HG. apply (creating_other t t'); [done|apply HG].
Qed.

(** The table entry of an ID that [t] owns does not move. *)
Lemma rely_same t c m c' m' i :
  (∀ c1, rd_same c1 c1 i) →
  (∀ c1 c2 c3, rd_same c1 c2 i → rd_same c2 c3 i → rd_same c1 c3 i) →
  rely t (c, m) (c', m') → owned_by t m i → rd_same c c' i.
Proof.
  intros Hrefl Htrans HR Ho.
  apply (rely_preserves (λ c2 m2, owned_by t m2 i ∧ rd_same c c2 i) t c m c' m'); [|done|].
  - intros t' c1 m1 c2 m2 Hne HG [Ho1 Hs]. split.
    + apply (owned_other t t' m1 m2); [done|apply HG|done].
    + apply (Htrans _ c1); [done|]. destruct HG as (_ & _ & _ & HG). by apply (HG t); [intros ->|].
  - auto.
Qed.
End protocol.

(** What [t] holds after an operation: one more or one less on a key. *)
Definition held_plus {P : Type} (t : nat) (m m' : dirmap P) (i : Z) : Prop :=
  ∀ j, held t m' j = (held t m j + if decide (i = j) then 1 else 0)%nat.
Definition held_minus {P : Type} (t : nat) (m m' : dirmap P) (i : Z) : Prop :=
  ∀ j, held t m' j = (held t m j - if decide (i = j) then 1 else 0)%nat.
Definition held_same {P : Type} (t : nat) (m m' : dirmap P) : Prop :=
  ∀ j, held t m' j = held t m j.

Lemma held_same_rely {C P : Type} `{!RefDirOps C P} t (c : C) m c' m' :
  rely t (c, m) (c', m') → held_same t m m'.
Proof. intros HR j. by apply (rely_held t _ _ _ _ _ HR). Qed.

Section held_changes.
Context {P : Type}.
Implicit Types (m : dirmap P) (x : content P).

Lemma held_same_trans t m1 m2 m3 : held_same t m1 m2 → held_same t m2 m3 → held_same t m1 m3.
Proof. intros H1 H2 j. by rewrite H2, H1. Qed.

Lemma held_plus_one t m m1 i hs x :
  held_same t m m1 → m1 !! i = Some (DEntry (Shared hs) x) →
  held_plus t m (<[i := DEntry (Shared (t :: hs)) x]> m1) i.
Proof.
  intros Hs Hm j. rewrite held_insert, <- Hs. case_decide as Hj; [|lia]. subst j.
  unfold held. rewrite Hm. simpl. destruct (Nat.eq_dec t t); [lia|done].
Qed.

Lemma held_minus_drop t m i hs x :
  m !! i = Some (DEntry (Shared hs) x) →
  held_minus t m (<[i := DEntry (Shared (drop_ref t hs)) x]> m) i.
Proof.
  intros Hm j. rewrite held_insert. case_decide as Hj; [|lia]. subst j.
  rewrite count_drop_ref, decide_True by done. unfold held. rewrite Hm. lia.
Qed.

Lemma held_minus_delete t m i x :
  m !! i = Some (DEntry (Shared [t]) x) → held_minus t m (delete i m) i.
Proof.
  intros Hm j. unfold held. destruct (decide (i = j)) as [<-|Hne].
  - rewrite lookup_delete_eq, Hm. simpl. destruct (Nat.eq_dec t t); [lia|done].
  - rewrite lookup_delete_ne by done. lia.
Qed.
End held_changes.

Class RefDir (C P : Type) `{!RefDirOps C P} : Prop := {
  rd_alloc_spec t p c m : rd_rep c m →
    rg True True True (rely t) (guar t) (rd_alloc p)
      (λ r c' m', rd_rep c' m' ∧
        match r with
        | Some i =>
            if rd_valid i then held_plus t m m' (rd_key i) ∧ object_of m' (rd_key i) = Some p
            else held_same t m m'
        | None => held_same t m m'
        end) c m;
  rd_lock_spec t n i c m : rd_rep c m →
    rg True True True (rely t) (guar t) (rd_lock n i)
      (λ r c' m', rd_rep c' m' ∧
        match r with
        | Some p => held_plus t m m' i ∧ (rd_eager → object_of m' i = Some p)
        | None => held_same t m m'
        end) c m;
  rd_unlock_spec t n u i c m : rd_rep c m → (0 < held t m i)%nat →
    rg True True True (rely t) (guar t) (rd_unlock n u i)
      (λ r c' m', rd_rep c' m' ∧
        if rd_try u && negb r then held_same t m m' else held_minus t m m' i) c m
}.

(** ** Clients

    A client is any program over the three operations that unlocks only what it
    has locked. *)

Inductive client (P U : Type) : Type :=
  | CStop
  | CAlloc (p : P) (k : option Z → client P U)
  | CLock (i : Z) (k : option P → client P U)
  | CUnlock (u : U) (i : Z) (k : bool → client P U).
Arguments CStop {P U}.
Arguments CAlloc {P U} p k.
Arguments CLock {P U} i k.
Arguments CUnlock {P U} u i k.

Section clients.
Context {C P : Type} `{!RefDirOps C P}.

(** [hold] is the list of references the client holds, which it also returns. *)
Definition after_alloc (r : option Z) (hold : list Z) : list Z :=
  match r with
  | Some i => if rd_valid i then rd_key i :: hold else hold
  | None => hold
  end.

Fixpoint client_prog (fuel : nat) (hold : list Z) (cl : client P rd_mode) : prog C (list Z) :=
  match cl with
  | CStop => Done hold
  | CAlloc p k =>
      r ← rd_alloc p;
      client_prog fuel (after_alloc r hold) (k r)
  | CLock i k =>
      r ← rd_lock fuel i;
      client_prog fuel (match r with Some _ => i :: hold | None => hold end) (k r)
  | CUnlock u i k =>
      b ← rd_unlock fuel u i;
      client_prog fuel (if rd_try u && negb b then hold else drop_ref i hold) (k b)
  end.

(** [disciplined hold cl]: holding [hold], the client unlocks only IDs it holds. *)
Fixpoint disciplined (hold : list Z) (cl : client P rd_mode) : Prop :=
  match cl with
  | CStop => True
  | CAlloc p k => ∀ r, disciplined (after_alloc r hold) (k r)
  | CLock i k => disciplined hold (k None) ∧ ∀ p, disciplined (i :: hold) (k (Some p))
  | CUnlock u i k =>
      i ∈ hold ∧ ∀ b, disciplined (if rd_try u && negb b then hold else drop_ref i hold) (k b)
  end.

Definition holds (t : nat) (m : dirmap P) (hold : list Z) : Prop :=
  ∀ i, held t m i = count_occ Z.eq_dec hold i.

Lemma holds_plus t m m' i hold : holds t m hold → held_plus t m m' i → holds t m' (i :: hold).
Proof.
  intros Hh Hp j. rewrite Hp, Hh. simpl.
  destruct (decide (i = j)), (Z.eq_dec i j); try done; lia.
Qed.

Lemma holds_minus t m m' i hold :
  holds t m hold → held_minus t m m' i → holds t m' (drop_ref i hold).
Proof. intros Hh Hp j. rewrite Hp, Hh, count_drop_ref. case_decide; lia. Qed.

Lemma holds_same t m m' hold : holds t m hold → held_same t m m' → holds t m' hold.
Proof. intros Hh Hp j. by rewrite Hp. Qed.

Context `{!RefDir C P}.

Lemma client_rg fuel t cl hold c m :
  disciplined hold cl → rd_rep c m → holds t m hold →
  rg True True True (rely t) (guar t) (client_prog fuel hold cl)
    (λ hold' c' m', rd_rep c' m' ∧ holds t m' hold') c m.
Proof.
  revert hold c m. induction cl as [|p k IH|i k IH|u i k IH]; intros h c m Hd Hrep Hh; simpl.
  - intros c' m' HR. split; [by eapply rely_rep|].
    eapply holds_same; [done|]. by eapply held_same_rely.
  - rg_bind. eapply rg_mono; [|by apply rd_alloc_spec].
    intros r c' m' [Hrep' Hm]; simpl in Hd. apply IH; [apply Hd|done|].
    destruct r as [i|]; simpl in *; [destruct (rd_valid i)|].
    + eapply holds_plus; [done|apply Hm].
    + by eapply holds_same.
    + by eapply holds_same.
  - rg_bind. eapply rg_mono; [|by apply rd_lock_spec].
    intros [p|] c' m' [Hrep' Hm]; simpl in Hd; (apply IH; [apply Hd|done|]).
    + eapply holds_plus; [done|apply Hm].
    + by eapply holds_same.
  - destruct Hd as [Hpos Hd]. rg_bind.
    eapply rg_mono; [|apply rd_unlock_spec; [done|rewrite Hh; by apply (count_pos_elem Z.eq_dec)]].
    intros b c' m' [Hrep' Hm]. apply IH; [apply Hd|done|].
    destruct (rd_try u && negb b); [by eapply holds_same|by eapply holds_minus].
Qed.

(** Only threads of the pool hold references. *)
Definition holders_below (n : nat) (m : dirmap P) : Prop :=
  ∀ t i, (0 < held t m i)%nat → (t < n)%nat.

Lemma holders_below_step n t m m' :
  (t < n)%nat → dir_step t m m' → holders_below n m → holders_below n m'.
Proof.
  intros Ht Hs Hb t' i Hh. destruct (decide (t' = t)) as [->|Hne]; [done|].
  apply (Hb t' i). by rewrite <- (held_other t' t m m' i).
Qed.

(** Every interleaving of disciplined clients keeps the table a representation
    of a map from live IDs to holders, never faults, and the references in the
    map are those the clients hold. *)
Lemma clients_safe fuel cls c m0 c' ps' :
  rd_rep c m0 → (∀ t i, held t m0 i = 0%nat) → Forall (disciplined []) cls →
  rtc pool_step (c, client_prog fuel [] <$> cls) (c', ps') →
  ∃ m', rd_rep c' m' ∧ holders_below (length cls) m' ∧
    (∀ t p, ps' !! t = Some p → ¬ faults c' p) ∧
    (∀ t hold, ps' !! t = Some (Done hold) → holds t m' hold).
Proof.
  intros Hrep H0 Hcl Hr. set (n := length cls).
  destruct (pool_adequate True True True (λ _ _, False) I rely (λ t s s', (t < n)%nat ∧ guar t s s')
    (λ t hold c' m', rd_rep c' m' ∧ holds t m' hold)
    (λ c' m', rd_rep c' m' ∧ holders_below n m') rely_preorder
    (λ i j s s' Hne HG, guar_rely j i s s' Hne (proj2 HG))) with
    (c := c) (g := m0) (ps := client_prog fuel [] <$> cls) (c' := c') (ps' := ps')
    as (m' & [Hrep' Hb] & Hf & Hq); [|split; [split|]|done|].
  - intros i c1 m1 c2 m2 [Hi HG] [_ Hb]. split; [apply HG|].
    eapply holders_below_step; [done|apply HG|done].
  - done.
  - intros t i Hh. rewrite H0 in Hh. lia.
  - intros i p Hi. rewrite list_lookup_fmap in Hi.
    destruct (cls !! i) as [cl|] eqn:Hcli; simplify_eq/=.
    eapply rg_guar_mono; [|apply client_rg; [by eapply Forall_lookup_1|done|]].
    + intros s s' HG. split; [|done]. by eapply lookup_lt_Some.
    + intros j. simpl. apply H0.
  - exists m'. split_and!; [done|done|done|]. intros t hold Ht. by apply (Hq t hold).
Qed.

(** The number of holders of an ID is the number of references that the
    clients ended with. *)
Lemma settled_count finals m i hs x :
  (∀ t hold, finals !! t = Some hold → holds t m hold) →
  holders_below (length finals) m → m !! i = Some (DEntry (Shared hs) x) →
  length hs = count_occ Z.eq_dec (concat finals) i.
Proof.
  intros Hf Hb Hm. rewrite (length_by_holder (length finals)).
  - rewrite count_occ_concat. apply sum_list_with_lookup. intros t hold Ht.
    rewrite <- (Hf t hold Ht i). unfold held. by rewrite Hm.
  - apply Forall_forall. intros h Hh. apply (Hb h i). unfold held. rewrite Hm.
    by apply (count_pos_elem Nat.eq_dec).
Qed.

Lemma settled_none finals m i :
  (∀ t hold, finals !! t = Some hold → holds t m hold) → m !! i = None →
  count_occ Z.eq_dec (concat finals) i = 0%nat.
Proof.
  intros Hf Hm. rewrite count_occ_concat, <- (sum_list_with_lookup (λ _, 0%nat)).
  - induction (seq 0 (length finals)); done.
  - intros t l Ht. rewrite <- (Hf t l Ht i). unfold held. by rewrite Hm.
Qed.

Lemma settled_owned finals m i t x :
  (∀ t hold, finals !! t = Some hold → holds t m hold) → m !! i = Some (DEntry (Owned t) x) →
  count_occ Z.eq_dec (concat finals) i = 0%nat.
Proof.
  intros Hf Hm. rewrite count_occ_concat, <- (sum_list_with_lookup (λ _, 0%nat)).
  - induction (seq 0 (length finals)); done.
  - intros t' l Ht. rewrite <- (Hf t' l Ht i). unfold held. by rewrite Hm.
Qed.

Lemma finals_hold fuel cls c c' m finals :
  rtc pool_step (c, client_prog fuel [] <$> cls) (c', Done <$> finals) →
  holders_below (length cls) m →
  (∀ t hold, (Done <$> finals : list (prog C (list Z))) !! t = Some (Done hold) → holds t m hold) →
  holders_below (length finals) m ∧ ∀ t hold, finals !! t = Some hold → holds t m hold.
Proof.
  intros Hr Hb Hd. apply pool_length in Hr. simpl in Hr. rewrite !length_fmap in Hr.
  rewrite Hr. split; [done|]. intros t hold Hi. apply Hd. by rewrite list_lookup_fmap, Hi.
Qed.
End clients.

(** ** Owned IDs *)

Section owned_changes.
Context {P : Type}.
Implicit Types (m : dirmap P) (x : content P).

Lemma owned_not_other t t' m i : owned_by t m i → t' ≠ t → ¬ owned_by t' m i.
Proof. intros [x Hx] Hne [y Hy]. congruence. Qed.

Lemma shared_not_owned t m i hs x : m !! i = Some (DEntry (Shared hs) x) → ¬ owned_by t m i.
Proof. intros Hm [y Hy]. congruence. Qed.

Lemma absent_not_owned t m i : m !! i = None → ¬ owned_by t m i.
Proof. intros Hm [y Hy]. congruence. Qed.

Lemma held_same_reserve t t' m i x :
  m !! i = None → held_same t m (<[i := DEntry (Owned t') x]> m).
Proof.
  intros Hm j. unfold held. destruct (decide (i = j)) as [<-|Hne].
  - by rewrite lookup_insert_eq, Hm.
  - by rewrite lookup_insert_ne.
Qed.

Lemma held_plus_first t m m1 i x :
  held_same t m m1 → owned_by t m1 i → held_plus t m (<[i := DEntry (Shared [t]) x]> m1) i.
Proof.
  intros Hs [y Hm] j. rewrite held_insert, <- Hs. case_decide as Hj; [|lia]. subst j.
  unfold held. rewrite Hm. simpl. destruct (Nat.eq_dec t t); [lia|done].
Qed.

Lemma held_minus_retire t m i x :
  m !! i = Some (DEntry (Shared [t]) x) → held_minus t m (<[i := DEntry (Owned t) x]> m) i.
Proof.
  intros Hm j. unfold held. destruct (decide (i = j)) as [<-|Hne].
  - rewrite lookup_insert_eq, Hm. simpl. destruct (Nat.eq_dec t t); [lia|done].
  - rewrite lookup_insert_ne by done. lia.
Qed.

Lemma held_same_free t m i : owned_by t m i → held_same t m (delete i m).
Proof.
  intros [y Hm] j. unfold held. destruct (decide (i = j)) as [<-|Hne].
  - by rewrite lookup_delete_eq, Hm.
  - by rewrite lookup_delete_ne.
Qed.

Lemma held_minus_same t m1 m2 m3 i : held_minus t m1 m2 i → held_same t m2 m3 → held_minus t m1 m3 i.
Proof. intros H1 H2 j. by rewrite H2, H1. Qed.

Lemma held_same_minus t m1 m2 m3 i : held_same t m1 m2 → held_minus t m2 m3 i → held_minus t m1 m3 i.
Proof. intros H1 H2 j. by rewrite H2, H1. Qed.

Lemma held_plus_same t m1 m2 m3 i : held_plus t m1 m2 i → held_same t m2 m3 → held_plus t m1 m3 i.
Proof. intros H1 H2 j. by rewrite H2, H1. Qed.
End owned_changes.
