(* ===== verification/Pd.v ===== *)
(** * Pointer directory (prs/lib/ds/pd.c)

    The detailed model of the pointer directory at the level of its atomic
    accesses (64-bit build), its behaviour when one thread runs alone, and the
    proof that it implements the contract of [RefDir] under any interleaving. *)

From S2P Require Import Prelude Bitops Heap Atomic RefDir.

(** ** Data *)

Definition PRS_PD_ID_INVALID : Z := u64 (-1).
Definition PRS_PD_REFCNT_SHIFT : Z := 52.
Definition PRS_PD_REFCNT_BITS : Z := 12.
Definition PRS_PD_REFCNT_INC : Z := Z.shiftl 1 PRS_PD_REFCNT_SHIFT.
Definition PRS_PD_REFCNT_MASK : Z :=
  Z.shiftl (Z.shiftl 1 PRS_PD_REFCNT_BITS - 1) PRS_PD_REFCNT_SHIFT.
Definition PRS_PD_ID_MASK : Z := PRS_PD_REFCNT_INC - 1.

Definition PRS_PD_GET_ID (header : Z) : Z := Z.land header PRS_PD_ID_MASK.
Definition PRS_PD_TEST_REFCNT (header : Z) : Z := Z.land header PRS_PD_REFCNT_MASK.
Definition PRS_PD_GET_REFCNT (header : Z) : Z :=
  Z.shiftr (PRS_PD_TEST_REFCNT header) PRS_PD_REFCNT_SHIFT.

Record prs_pd_entry : Type := PdEntry {
  pd_header : Z;
  pd_ptr : ptr
}.

Record prs_pd : Type := Pd {
  pd_area : ptr;
  pd_entries : list prs_pd_entry;
  pd_max_entries : Z;
  pd_max_entries_mask : Z;
  pd_write_index : Z
}.

Definition pd_set_entries (es : list prs_pd_entry) (pd : prs_pd) : prs_pd :=
  Pd (pd_area pd) es (pd_max_entries pd) (pd_max_entries_mask pd) (pd_write_index pd).

(** ** Memory accesses *)

Definition pd_write_index_cell : cell prs_pd Z :=
  Cell (λ pd, Ret (pd_write_index pd))
       (λ v pd, Ret (Pd (pd_area pd) (pd_entries pd) (pd_max_entries pd)
                        (pd_max_entries_mask pd) v)).

Definition pd_header_cell : Z → cell prs_pd Z :=
  array_cell pd_entries pd_set_entries pd_header (λ v e, PdEntry v (pd_ptr e)).

Definition pd_ptr_cell : Z → cell prs_pd ptr :=
  array_cell pd_entries pd_set_entries pd_ptr (λ v e, PdEntry (pd_header e) v).

(** ** Operations *)

(** The index of the entry: [&pd->entries[index]]. *)
Definition prs_pd_get_entry (id : Z) : prog prs_pd Z :=
  mask ← peek pd_max_entries_mask;
  Done (Z.land id mask).

(** The loop of [prs_pd_alloc_and_lock] over [i], with [n] indices to go. *)
Fixpoint prs_pd_alloc_loop (n : nat) (i : Z) (p : ptr) : prog prs_pd (prs_result * Z) :=
  match n with
  | O => Done (PRS_OUT_OF_MEMORY, PRS_PD_ID_INVALID)
  | S n =>
      entry ← prs_pd_get_entry i;
      header ← prs_pal_atomic_load (pd_header_cell entry);
      if truthy (PRS_PD_TEST_REFCNT header) then prs_pd_alloc_loop n (i + 1) p
      else if PRS_PD_GET_ID header =? i then prs_pd_alloc_loop n (i + 1) p
      else
        let new_header := Z.lor PRS_PD_REFCNT_INC (Z.land i PRS_PD_ID_MASK) in
        '(ok, _) ← prs_pal_atomic_compare_exchange_strong (pd_header_cell entry) header new_header;
        if negb ok then prs_pd_alloc_loop n (i + 1) p
        else
          prs_pal_atomic_store pd_write_index_cell (u64 (i + 1));;
          write (pd_ptr_cell entry) p;;
          Done (PRS_OK, i)
  end.

Definition prs_pd_alloc_and_lock (p : ptr) : prog prs_pd (prs_result * Z) :=
  write_index ← prs_pal_atomic_load pd_write_index_cell;
  max_entries ← peek pd_max_entries;
  let end_ := u64 (write_index + max_entries) in
  prs_pd_alloc_loop (Z.to_nat (end_ - write_index)) write_index p.

(** [prs_pd_lock]: nothing when the function returns 0 before the end, otherwise
    the pointer of [return entry->ptr]. *)
Definition prs_pd_lock_entry (fuel : nat) (id : Z) : prog prs_pd (option ptr) :=
  if id =? PRS_PD_ID_INVALID then Done None
  else
    entry ← prs_pd_get_entry id;
    header ← prs_pal_atomic_load (pd_header_cell entry);
    locked ← cas_weak_loop fuel (pd_header_cell entry) (λ header,
      if negb (PRS_PD_GET_ID header =? id) then inl false
      else if negb (truthy (PRS_PD_TEST_REFCNT header)) then inl false
      else if PRS_PD_TEST_REFCNT header =? PRS_PD_REFCNT_MASK then inl false
      else inr (u64 (header + PRS_PD_REFCNT_INC), true)) header;
    if (locked : bool) then p ← read (pd_ptr_cell entry); Done (Some p)
    else Done None.

Definition prs_pd_lock (fuel : nat) (id : Z) : prog prs_pd ptr :=
  r ← prs_pd_lock_entry fuel id; Done (default None r).

Definition prs_pd_unlock (fuel : nat) (id : Z) : prog prs_pd bool :=
  if id =? PRS_PD_ID_INVALID then Done false
  else
    entry ← prs_pd_get_entry id;
    header ← prs_pal_atomic_load (pd_header_cell entry);
    cas_weak_loop fuel (pd_header_cell entry) (λ header,
      if negb (PRS_PD_GET_ID header =? id) then inl false
      else
        let refcnt := PRS_PD_TEST_REFCNT header in
        if negb (truthy refcnt) then inl false
        else inr (u64 (header - PRS_PD_REFCNT_INC), refcnt =? PRS_PD_REFCNT_INC)) header.

(** [sizeof(struct prs_pd)] and [sizeof(struct prs_pd_entry)] on the 64-bit build. *)
Definition sizeof_prs_pd : Z := 40.
Definition sizeof_prs_pd_entry : Z := 16.

Definition prs_pd_struct_size (max_entries : Z) : Z :=
  u64 (sizeof_prs_pd + sizeof_prs_pd_entry * max_entries).

Record prs_pd_create_params : Type := PdParams {
  pdp_max_entries : Z;
  pdp_area : ptr
}.

Definition pd_zeroed (n : Z) : list prs_pd_entry := replicate (Z.to_nat n) (PdEntry 0 None).

(** [prs_pd_create]: the directory with the blocks of the structure and of its
    entries.  [area_entries] is what the caller's area holds after the structure. *)
Definition prs_pd_create (params : prs_pd_create_params) (area_entries : list prs_pd_entry)
    (h : heap) : outcome (option (prs_pd * ptr * ptr) * heap) :=
  let init area es :=
    Pd area es (pdp_max_entries params) (u64 (pdp_max_entries params - 1)) 1 in
  match pdp_area params with
  | Some a => Ret (Some (init (Some a) area_entries, Some a, Some a), h)
  | None =>
      let (pd, h) := prs_pal_malloc_zero h in
      match pd with
      | None => Ret (None, h)
      | Some l =>
          let (es, h) := prs_pal_malloc_zero h in
          match es with
          | None => h ← prs_pal_free (Some l) h; Ret (None, h)
          | Some l' => Ret (Some (init None (pd_zeroed (pdp_max_entries params)), Some l, Some l'), h)
          end
      end
  end.

Definition prs_pd_destroy (pd : prs_pd) (self entries : ptr) (h : heap) : outcome heap :=
  match pd_area pd with
  | None => h ← prs_pal_free entries h; prs_pal_free self h
  | Some _ => Ret h
  end.

(** ** Headers *)

(** A header with reference count [rc] and ID [id]. *)
Definition pd_hdr (id rc : Z) : Z := rc * 2 ^ 52 + id.

Lemma pd_get_id h : PRS_PD_GET_ID h = h mod 2 ^ 52.
Proof. unfold PRS_PD_GET_ID. apply (land_low h 52). lia. Qed.

Lemma pd_test_refcnt h : 0 ≤ h < 2 ^ 64 → PRS_PD_TEST_REFCNT h = h / 2 ^ 52 * 2 ^ 52.
Proof.
  intros Hh. unfold PRS_PD_TEST_REFCNT.
  change PRS_PD_REFCNT_MASK with (Z.shiftl (2 ^ 12 - 1) 52).
  rewrite land_field by lia. rewrite (Z.mod_small (h / 2 ^ 52)); [done|].
  split; [apply Z.div_pos; lia|]. apply Z.div_lt_upper_bound; lia.
Qed.

Lemma pd_hdr_range id rc : 0 ≤ id < 2 ^ 52 → 0 ≤ rc < 2 ^ 12 → 0 ≤ pd_hdr id rc < 2 ^ 64.
Proof. unfold pd_hdr. lia. Qed.

Lemma pd_hdr_id id rc : 0 ≤ id < 2 ^ 52 → pd_hdr id rc mod 2 ^ 52 = id.
Proof. intros H. unfold pd_hdr. rewrite Z.add_comm, Z.mod_add by lia. by apply Z.mod_small. Qed.

Lemma pd_hdr_refcnt id rc : 0 ≤ id < 2 ^ 52 → pd_hdr id rc / 2 ^ 52 = rc.
Proof.
  intros H. unfold pd_hdr. rewrite Z.div_add_l by lia. rewrite (Z.div_small id); lia.
Qed.

Lemma pd_hdr_split h : h = pd_hdr (h mod 2 ^ 52) (h / 2 ^ 52).
Proof. unfold pd_hdr. pose proof (Z.div_mod h (2 ^ 52)). lia. Qed.

Lemma pd_new_header i : Z.lor PRS_PD_REFCNT_INC (Z.land i PRS_PD_ID_MASK) = pd_hdr (i mod 2 ^ 52) 1.
Proof.
  change (Z.land i PRS_PD_ID_MASK) with (PRS_PD_GET_ID i). rewrite pd_get_id.
  change PRS_PD_REFCNT_INC with (1 * 2 ^ 52). apply lor_high_low; [lia|].
  apply Z.mod_pos_bound. lia.
Qed.

(** ** The representation *)

Definition pd_live (e : prs_pd_entry) : option Z :=
  if pd_header e / 2 ^ 52 =? 0 then None else Some (pd_header e mod 2 ^ 52).

Definition pd_ok (i : Z) (d : dentry ptr) (e : prs_pd_entry) : Prop :=
  ∃ hs x, d = DEntry (Shared hs) x ∧ (0 < length hs)%nat ∧ Z.of_nat (length hs) < 2 ^ 12 ∧
    0 ≤ i < 2 ^ 52 ∧ pd_header e = pd_hdr i (Z.of_nat (length hs)) ∧
    match x with Published p => pd_ptr e = p | Unpublished _ => True end.

Lemma pd_ok_live i d e : pd_ok i d e → pd_live e = Some i.
Proof.
  intros (hs & x & -> & Hne & _ & Hi & Hh & _). unfold pd_live.
  rewrite Hh, pd_hdr_refcnt, pd_hdr_id by done.
  destruct (Z.eqb_spec (Z.of_nat (length hs)) 0); [lia|done].
Qed.

Section representation.
Context (k : Z) (Hk : 0 < k ≤ 52).

Definition pd_slot (i : Z) : nat := Z.to_nat (i mod 2 ^ k).

Record pd_shape (pd : prs_pd) : Prop := PdShape {
  pd_shape_max : pd_max_entries pd = 2 ^ k;
  pd_shape_mask : pd_max_entries_mask pd = 2 ^ k - 1;
  pd_shape_len : Z.of_nat (length (pd_entries pd)) = 2 ^ k;
  pd_shape_hdr : Forall (λ e, 0 ≤ pd_header e < 2 ^ 64) (pd_entries pd);
  pd_shape_write : 0 ≤ pd_write_index pd < 2 ^ 64
}.

Definition pd_rep (pd : prs_pd) (m : dirmap ptr) : Prop :=
  pd_shape pd ∧ table_rep pd_slot pd_live pd_ok (pd_entries pd) m.

Lemma pd_entry_exists pd i : pd_shape pd → ∃ e, pd_entries pd !! pd_slot i = Some e.
Proof.
  intros H. apply lookup_lt_is_Some_2. pose proof (pd_shape_len pd H).
  pose proof (Z.mod_pos_bound i (2 ^ k)). unfold pd_slot. lia.
Qed.

Lemma pd_index i : Z.land i (2 ^ k - 1) = i mod 2 ^ k.
Proof. apply land_low. lia. Qed.

Lemma pd_slot_mod i : pd_slot (i mod 2 ^ 52) = pd_slot i.
Proof.
  unfold pd_slot. f_equal. apply mod_mod_pow2. lia.
Qed.

Lemma pd_slot_range i : 0 ≤ i mod 2 ^ k.
Proof. apply Z.mod_pos_bound. lia. Qed.

Lemma pd_shape_set pd s e :
  pd_shape pd → 0 ≤ pd_header e < 2 ^ 64 →
  pd_shape (pd_set_entries (<[s := e]> (pd_entries pd)) pd).
Proof.
  intros [H1 H2 H3 H4 H5] He. split; simpl; [done|done|by rewrite length_insert| |done].
  by apply Forall_insert.
Qed.

Lemma pd_shape_entry pd s e :
  pd_shape pd → pd_entries pd !! s = Some e → 0 ≤ pd_header e < 2 ^ 64.
Proof. intros [_ _ _ H _] He. by apply (Forall_lookup_1 _ _ _ _ H He). Qed.

(** Reading and writing the header and the pointer of an existing entry. *)
Lemma pd_header_get pd i e : pd_entries pd !! pd_slot i = Some e →
  cell_get (pd_header_cell (i mod 2 ^ k)) pd = Ret (pd_header e).
Proof. apply array_cell_get, pd_slot_range. Qed.

Lemma pd_header_set pd i e v : pd_entries pd !! pd_slot i = Some e →
  cell_set (pd_header_cell (i mod 2 ^ k)) v pd =
    Ret (pd_set_entries (<[pd_slot i := PdEntry v (pd_ptr e)]> (pd_entries pd)) pd).
Proof. exact (array_cell_set _ _ _ _ pd _ e v (pd_slot_range i)). Qed.

Lemma pd_ptr_get pd i e : pd_entries pd !! pd_slot i = Some e →
  cell_get (pd_ptr_cell (i mod 2 ^ k)) pd = Ret (pd_ptr e).
Proof. apply array_cell_get, pd_slot_range. Qed.

Lemma pd_ptr_set pd i e v : pd_entries pd !! pd_slot i = Some e →
  cell_set (pd_ptr_cell (i mod 2 ^ k)) v pd =
    Ret (pd_set_entries (<[pd_slot i := PdEntry (pd_header e) v]> (pd_entries pd)) pd).
Proof. exact (array_cell_set _ _ _ _ pd _ e v (pd_slot_range i)). Qed.

(** *** The three updates of a header, on the map *)

Lemma pd_rep_create pd m i e t :
  pd_rep pd m → pd_entries pd !! pd_slot i = Some e → PRS_PD_TEST_REFCNT (pd_header e) = 0 →
  m !! (i mod 2 ^ 52) = None ∧
  pd_rep (pd_set_entries (<[pd_slot i := PdEntry (pd_hdr (i mod 2 ^ 52) 1) (pd_ptr e)]>
            (pd_entries pd)) pd)
    (<[i mod 2 ^ 52 := DEntry (Shared [t]) (Unpublished t)]> m).
Proof.
  intros [Hsh Ht] He Hrc. pose proof (pd_shape_entry _ _ _ Hsh He) as Hr.
  rewrite pd_test_refcnt in Hrc by done.
  assert (pd_live e = None) as Hl.
  { unfold pd_live. by rewrite (proj2 (Z.eqb_eq _ _)) by lia. }
  pose proof (Z.mod_pos_bound i (2 ^ 52) ltac:(lia)) as Hi.
  split; [|split].
  - eapply (table_not_live pd_slot pd_live pd_ok pd_ok_live); [done|done|apply pd_slot_mod|].
    by rewrite Hl.
  - apply pd_shape_set; [done|]. apply pd_hdr_range; lia.
  - eapply table_set; [apply pd_ok_live|done|done|apply pd_slot_mod|by left|].
    exists [t], (Unpublished t). simpl. repeat split; try done; lia.
Qed.

Lemma pd_rep_live pd m i e :
  pd_rep pd m → pd_entries pd !! pd_slot i = Some e →
  PRS_PD_GET_ID (pd_header e) = i → PRS_PD_TEST_REFCNT (pd_header e) ≠ 0 →
  ∃ hs x, m !! i = Some (DEntry (Shared hs) x) ∧ pd_ok i (DEntry (Shared hs) x) e.
Proof.
  intros [Hsh Ht] He Hid Hrc. pose proof (pd_shape_entry _ _ _ Hsh He) as Hr.
  rewrite pd_get_id in Hid. rewrite pd_test_refcnt in Hrc by done.
  destruct (table_live _ _ _ _ m _ e i Ht He) as (d & Hd & Hok).
  { unfold pd_live. rewrite (proj2 (Z.eqb_neq _ _)) by lia. by rewrite Hid. }
  pose proof Hok as (hs & x & -> & _). eauto.
Qed.

(** A live entry takes a new set of holders. *)
Lemma pd_rep_holders pd m i e hs hs' x :
  pd_rep pd m → pd_entries pd !! pd_slot i = Some e → pd_ok i (DEntry (Shared hs) x) e →
  (0 < length hs')%nat → Z.of_nat (length hs') < 2 ^ 12 →
  pd_rep (pd_set_entries (<[pd_slot i := PdEntry (pd_hdr i (Z.of_nat (length hs'))) (pd_ptr e)]>
            (pd_entries pd)) pd)
    (<[i := DEntry (Shared hs') x]> m).
Proof.
  intros [Hsh Ht] He Hok Hpos Hlt.
  pose proof Hok as (hs0 & x0 & Heq & _ & _ & Hi & _ & Hx). simplify_eq. split.
  - apply pd_shape_set; [done|]. apply pd_hdr_range; lia.
  - eapply table_set; [apply pd_ok_live|done|done|done|right; by eapply pd_ok_live|].
    exists hs', x0. done.
Qed.

Lemma pd_rep_last pd m i e t x :
  pd_rep pd m → pd_entries pd !! pd_slot i = Some e → pd_ok i (DEntry (Shared [t]) x) e →
  pd_rep (pd_set_entries (<[pd_slot i := PdEntry (pd_hdr i 0) (pd_ptr e)]> (pd_entries pd)) pd)
    (delete i m).
Proof.
  intros [Hsh Ht] He Hok. pose proof Hok as (hs0 & x0 & Heq & _ & _ & Hi & _). split.
  - apply pd_shape_set; [done|]. apply pd_hdr_range; lia.
  - eapply table_unset; [apply pd_ok_live|done|done|by eapply pd_ok_live|].
    unfold pd_live. simpl. by rewrite pd_hdr_refcnt.
Qed.

Lemma pd_rep_publish pd m i e hs t p :
  pd_rep pd m → pd_entries pd !! pd_slot i = Some e → m !! i = Some (DEntry (Shared hs) (Unpublished t)) →
  pd_rep (pd_set_entries (<[pd_slot i := PdEntry (pd_header e) p]> (pd_entries pd)) pd)
    (<[i := DEntry (Shared hs) (Published p)]> m).
Proof.
  intros [Hsh Ht] He Hm. destruct (table_lookup _ _ _ _ _ _ _ Ht Hm) as (e' & He' & Hok).
  simplify_eq. pose proof Hok as (hs0 & x0 & Heq & Hpos & Hlt & Hi & Hh & Hx). simplify_eq. split.
  - apply pd_shape_set; [done|]. exact (pd_shape_entry _ _ _ Hsh He).
  - eapply table_set; [apply pd_ok_live|done|done|done|right; by eapply pd_ok_live|].
    exists hs0, (Published p). done.
Qed.
End representation.

(** ** The directory implements the contract *)

Section directory.
Context (k : Z) (Hk : 0 < k ≤ 52).

#[export] Instance pd_ops : RefDirOps prs_pd ptr := {
  rd_alloc p := '(r, id) ← prs_pd_alloc_and_lock p;
                Done (if decide (r = PRS_OK) then Some id else None);
  rd_lock := prs_pd_lock_entry;
  rd_mode := unit;
  rd_try _ := false;
  rd_unlock fuel _ id := prs_pd_unlock fuel id;
  rd_key := PRS_PD_GET_ID;
  rd_valid _ := true;
  rd_eager := False;
  rd_rep := pd_rep k;
  rd_same _ _ _ := True
}.

Lemma pd_guar t pd m pd' m' :
  pd_rep k pd m → pd_rep k pd' m' → dir_step t m m' → guar t (pd, m) (pd', m').
Proof. done. Qed.

Lemma pd_guar_nop t pd m : pd_rep k pd m → guar t (pd, m) (pd, m).
Proof. intros H. apply pd_guar; [done|done|constructor]. Qed.

Lemma pd_rely_rep t pd m pd' m' : rely t (pd, m) (pd', m') → pd_rep k pd m → pd_rep k pd' m'.
Proof. exact (rely_rep t pd m pd' m'). Qed.

(** What [prs_pd_get_entry] computes. *)
Lemma rg_get_entry {A : Type} t i (f : Z → prog prs_pd A) Q pd m :
  pd_rep k pd m →
  (∀ pd' m', rely t (pd, m) (pd', m') → pd_rep k pd' m' →
    rg True True True (rely t) (guar t) (f (i mod 2 ^ k)) Q pd' m') →
  rg True True True (rely t) (guar t) (prs_pd_get_entry i ≫= f) Q pd m.
Proof.
  intros Hrep Hf. unfold prs_pd_get_entry. rg_bind. rg_bind_peek.
  intros pd1 m1 HR. pose proof (pd_rely_rep _ _ _ _ _ HR Hrep) as Hrep1.
  split; [by apply pd_guar_nop|]. rewrite (pd_shape_mask k pd1) by apply Hrep1.
  rewrite pd_index by done. apply rg_done. intros pd2 m2 HR2. apply Hf.
  - by transitivity (pd1, m1).
  - by apply (pd_rely_rep _ _ _ _ _ HR2).
Qed.

(** After the exchange of [prs_pd_alloc_and_lock]. *)
Lemma pd_alloc_tail t i p pd m (m0 : dirmap ptr) :
  pd_rep k pd m → 0 ≤ i → i + 1 < 2 ^ 64 →
  held_plus t m0 m (i mod 2 ^ 52) → creating t m (i mod 2 ^ 52) →
  rg True True True (rely t) (guar t)
    (prs_pal_atomic_store pd_write_index_cell (u64 (i + 1));;
     write (pd_ptr_cell (i mod 2 ^ k)) p;;
     Done (PRS_OK, i))
    (λ r pd' m', pd_rep k pd' m' ∧ r = (PRS_OK, i) ∧ held_plus t m0 m' (i mod 2 ^ 52) ∧
      object_of m' (i mod 2 ^ 52) = Some p) pd m.
Proof.
  intros Hrep Hi0 Hi1 Hheld Hcr. rg_bind_store. intros pd1 m1 HR1.
  pose proof (pd_rely_rep _ _ _ _ _ HR1 Hrep) as Hrep1.
  eexists. exists m1. split; [reflexivity|].
  assert (pd_rep k (Pd (pd_area pd1) (pd_entries pd1) (pd_max_entries pd1)
    (pd_max_entries_mask pd1) (u64 (i + 1))) m1) as Hrep1'.
  { destruct Hrep1 as [[] Ht]. split; [|done]. split; simpl; try done. apply u64_range. }
  split; [apply pd_guar; [done|done|constructor]|].
  apply (rely_creating t _ _ _ _ _ HR1) in Hcr.
  rg_bind_store. intros pd2 m2 HR2.
  pose proof (pd_rely_rep _ _ _ _ _ HR2 Hrep1') as Hrep2.
  apply (rely_creating t _ _ _ _ _ HR2) in Hcr. destruct Hcr as (hs & Hm2 & Hin).
  destruct (pd_entry_exists k Hk pd2 i) as [e He]; [apply Hrep2|].
  exists (pd_set_entries (<[pd_slot k i := PdEntry (pd_header e) p]> (pd_entries pd2)) pd2).
  exists (<[i mod 2 ^ 52 := DEntry (Shared hs) (Published p)]> m2).
  assert (pd_rep k (pd_set_entries (<[pd_slot k i := PdEntry (pd_header e) p]> (pd_entries pd2)) pd2)
    (<[i mod 2 ^ 52 := DEntry (Shared hs) (Published p)]> m2)) as Hrep3.
  { rewrite <- (pd_slot_mod k Hk i). rewrite <- (pd_slot_mod k Hk i) in He.
    eapply pd_rep_publish; [done|done|exact Hm2]. }
  split; [by apply pd_ptr_set|].
  split; [apply pd_guar; [done|done|by eapply dir_publish]|].
  apply rg_done. intros pd3 m3 HR3. split; [by apply (pd_rely_rep _ _ _ _ _ HR3)|].
  assert (0 < held t (<[(i mod 2 ^ 52)%Z := DEntry (Shared hs) (Published p)]> m2) (i mod 2 ^ 52)%Z)%nat.
  { rewrite held_insert, decide_True by done. by apply (count_pos_elem Nat.eq_dec). }
  split; [done|split].
  - intros j. rewrite (rely_held t _ _ _ _ _ HR3), held_insert, <- Hheld.
    rewrite <- (rely_held t _ _ _ _ j HR1), <- (rely_held t _ _ _ _ j HR2).
    case_decide as Hj; [|done]. subst j. unfold held. by rewrite Hm2.
  - apply (rely_object t _ _ _ _ _ _ HR3); [done|]. unfold object_of. by rewrite lookup_insert_eq.
Qed.

Definition pd_alloc_post (t : nat) (m0 : dirmap ptr) (p : ptr) (r : prs_result * Z)
    (pd' : prs_pd) (m' : dirmap ptr) : Prop :=
  pd_rep k pd' m' ∧
  match r.1 with
  | PRS_OK => held_plus t m0 m' (r.2 mod 2 ^ 52) ∧ object_of m' (r.2 mod 2 ^ 52) = Some p
  | _ => r = (PRS_OUT_OF_MEMORY, PRS_PD_ID_INVALID) ∧ held_same t m0 m'
  end.

Lemma pd_alloc_loop_rg t p (m0 : dirmap ptr) n i pd m :
  pd_rep k pd m → held_same t m0 m → 0 ≤ i → i + Z.of_nat n < 2 ^ 64 →
  rg True True True (rely t) (guar t) (prs_pd_alloc_loop n i p) (pd_alloc_post t m0 p) pd m.
Proof.
  revert i pd m. induction n as [|n IH]; intros i pd m Hrep Hsame Hi Hn.
  - apply rg_done. intros pd1 m1 HR. split; [by apply (pd_rely_rep _ _ _ _ _ HR)|].
    split; [done|]. intros j. by rewrite (rely_held t _ _ _ _ _ HR).
  - cbn [prs_pd_alloc_loop]. apply rg_get_entry; [done|]. intros pd1 m1 HR1 Hrep1.
    assert (∀ pd2 m2, rely t (pd1, m1) (pd2, m2) → held_same t m0 m2) as Hsame2.
    { intros pd2 m2 HR2 j. by rewrite (rely_held t _ _ _ _ _ HR2), (rely_held t _ _ _ _ _ HR1). }
    rg_bind_load. intros pd2 m2 HR2. pose proof (pd_rely_rep _ _ _ _ _ HR2 Hrep1) as Hrep2.
    destruct (pd_entry_exists k Hk pd2 i) as [e He]; [apply Hrep2|].
    exists (pd_header e). split; [by apply pd_header_get|]. split; [by apply pd_guar_nop|].
    assert (∀ pd3 m3, rely t (pd2, m2) (pd3, m3) →
      rg True True True (rely t) (guar t) (prs_pd_alloc_loop n (i + 1) p) (pd_alloc_post t m0 p) pd3 m3) as Hnext.
    { intros pd3 m3 HR3. apply IH; [by apply (pd_rely_rep _ _ _ _ _ HR3)| |lia..].
      apply (Hsame2 pd3). by transitivity (pd2, m2). }
    destruct (truthy _) eqn:Hrc; [by apply Hnext|]. apply truthy_false in Hrc.
    destruct (Z.eqb_spec (PRS_PD_GET_ID (pd_header e)) i) as [Hid|Hid]; [by apply Hnext|].
    rg_bind_cas_strong. intros pd3 m3 HR3.
    pose proof (pd_rely_rep _ _ _ _ _ HR3 Hrep2) as Hrep3.
    destruct (pd_entry_exists k Hk pd3 i) as [e3 He3]; [apply Hrep3|].
    exists (pd_header e3). split; [by apply pd_header_get|].
    case_decide as Heq; cbn [negb]; [|split; [by apply pd_guar_nop|by apply Hnext]].
    rewrite <- Heq in Hrc.
    destruct (pd_rep_create k Hk pd3 m3 i e3 t Hrep3 He3 Hrc) as [Hnone Hrep4].
    rewrite pd_new_header. eexists. eexists. split; [by apply pd_header_set|].
    split; [apply pd_guar; [done|exact Hrep4|by apply dir_create]|].
    eapply rg_mono; [|apply (pd_alloc_tail t i p _ _ m0 Hrep4 Hi); [lia| |]].
    + intros r pd5 m5 (Hrep5 & -> & Hh & Ho). done.
    + intros j. rewrite held_insert. rewrite <- (Hsame2 pd3 m3) by (by transitivity (pd2, m2)).
      case_decide as Hj; [|lia]. subst j. unfold held. rewrite Hnone. simpl.
      by destruct (Nat.eq_dec t t).
    + exists [t]. rewrite lookup_insert_eq. split; [done|]. by left.
Qed.

Lemma pd_alloc_rg t p pd m :
  pd_rep k pd m →
  rg True True True (rely t) (guar t) (prs_pd_alloc_and_lock p) (pd_alloc_post t m p) pd m.
Proof.
  intros Hrep. unfold prs_pd_alloc_and_lock. rg_bind_load. intros pd1 m1 HR1.
  pose proof (pd_rely_rep _ _ _ _ _ HR1 Hrep) as Hrep1.
  exists (pd_write_index pd1). split; [done|]. split; [by apply pd_guar_nop|].
  rg_bind_peek. intros pd2 m2 HR2. pose proof (pd_rely_rep _ _ _ _ _ HR2 Hrep1) as Hrep2.
  split; [by apply pd_guar_nop|].
  pose proof (pd_shape_write k pd1 (proj1 Hrep1)).
  pose proof (u64_range (pd_write_index pd1 + pd_max_entries pd2)).
  apply pd_alloc_loop_rg; [done| |lia|lia].
  intros j. by rewrite (rely_held t _ _ _ _ _ HR2), (rely_held t _ _ _ _ _ HR1).
Qed.

(** A thread that holds a reference goes on seeing the same object. *)
Lemma pd_rep_object t pd m i q :
  pd_rep k pd m → (0 < held t m i)%nat → object_of m i = Some q →
  ∃ e, pd_entries pd !! pd_slot k i = Some e ∧ pd_ptr e = q.
Proof.
  intros [_ Ht] Hh Ho. apply held_pos in Hh as (hs & x & Hm & _).
  destruct (table_lookup _ _ _ _ _ _ _ Ht Hm) as (e & He & Hok).
  exists e. split; [done|]. destruct Hok as (hs0 & x0 & Heq & _ & _ & _ & _ & Hx).
  unfold object_of in Ho. rewrite Hm in Ho. destruct x; simplify_eq; done.
Qed.

(** The exchange of [prs_pd_lock] on a header that is current. *)
Lemma pd_lock_step t pd m i e :
  pd_rep k pd m → pd_entries pd !! pd_slot k i = Some e → PRS_PD_GET_ID (pd_header e) = i →
  PRS_PD_TEST_REFCNT (pd_header e) ≠ 0 → PRS_PD_TEST_REFCNT (pd_header e) ≠ PRS_PD_REFCNT_MASK →
  ∃ hs x, m !! i = Some (DEntry (Shared hs) x) ∧
    pd_rep k (pd_set_entries (<[pd_slot k i := PdEntry (u64 (pd_header e + PRS_PD_REFCNT_INC)) (pd_ptr e)]>
      (pd_entries pd)) pd) (<[i := DEntry (Shared (t :: hs)) x]> m).
Proof.
  intros Hrep He Hid Hrc Hmax.
  destruct (pd_rep_live k pd m i e Hrep He Hid Hrc) as (hs & x & Hm & Hok).
  exists hs, x. split; [done|]. pose proof Hok as (hs0 & x0 & Heq & Hpos & Hlt & Hi & Hh & _).
  simplify_eq. rewrite pd_test_refcnt in Hmax by (rewrite Hh; apply pd_hdr_range; lia).
  rewrite Hh, pd_hdr_refcnt in Hmax by done.
  change PRS_PD_REFCNT_MASK with ((2 ^ 12 - 1) * 2 ^ 52) in Hmax.
  replace (u64 (pd_header e + PRS_PD_REFCNT_INC))
    with (pd_hdr (PRS_PD_GET_ID (pd_header e)) (Z.of_nat (length (t :: hs0)))).
  - eapply pd_rep_holders; [done|done|done|simpl; lia|]. cbn [length]. lia.
  - rewrite Hh at 2. unfold pd_hdr. change PRS_PD_REFCNT_INC with (2 ^ 52).
    rewrite u64_small; cbn [length]; lia.
Qed.

Lemma pd_lock_rg t fuel i pd m :
  pd_rep k pd m →
  rg True True True (rely t) (guar t) (prs_pd_lock_entry fuel i)
    (λ r pd' m', pd_rep k pd' m' ∧
      match r with
      | Some p => held_plus t m m' i ∧
          (∀ q, (0 < held t m i)%nat → object_of m i = Some q → p = q)
      | None => held_same t m m'
      end) pd m.
Proof.
  intros Hrep. unfold prs_pd_lock_entry. destruct (Z.eqb_spec i PRS_PD_ID_INVALID) as [|Hinv].
  { apply rg_done. intros pd1 m1 HR. split; [by apply (pd_rely_rep _ _ _ _ _ HR)|].
    by apply (held_same_rely _ _ _ _ _ HR). }
  apply rg_get_entry; [done|]. intros pd1 m1 HR1 Hrep1.
  rg_bind_load. intros pd2 m2 HR2. pose proof (pd_rely_rep _ _ _ _ _ HR2 Hrep1) as Hrep2.
  destruct (pd_entry_exists k Hk pd2 i) as [e He]; [apply Hrep2|].
  exists (pd_header e). split; [by apply pd_header_get|]. split; [by apply pd_guar_nop|].
  assert (rely t (pd, m) (pd2, m2)) as HR02 by (by transitivity (pd1, m1)).
  rg_bind. eapply rg_mono with (Q := λ (b : bool) pd' m', pd_rep k pd' m' ∧
    if b then held_plus t m m' i ∧
      (∀ q, (0 < held t m i)%nat → object_of m i = Some q → object_of m' i = Some q)
    else held_same t m m').
  { intros [|] pd3 m3 [Hrep3 Hh].
    - destruct Hh as [Hh Hq]. rg_bind_load. intros pd4 m4 HR4.
      pose proof (pd_rely_rep _ _ _ _ _ HR4 Hrep3) as Hrep4.
      destruct (pd_entry_exists k Hk pd4 i) as [e4 He4]; [apply Hrep4|].
      exists (pd_ptr e4). split; [by apply pd_ptr_get|]. split; [by apply pd_guar_nop|].
      apply rg_done. intros pd5 m5 HR5. split; [by apply (pd_rely_rep _ _ _ _ _ HR5)|].
      assert (0 < held t m3 i)%nat by (rewrite Hh, decide_True by done; lia). split.
      + intros j. by rewrite (rely_held t _ _ _ _ _ HR5), (rely_held t _ _ _ _ _ HR4).
      + intros q Hh0 Hq0. destruct (pd_rep_object t pd4 m4 i q Hrep4) as (e' & He' & <-).
        * by rewrite (rely_held t _ _ _ _ _ HR4).
        * apply (rely_object t _ _ _ _ _ _ HR4); auto.
        * by simplify_eq.
    - apply rg_done. intros pd4 m4 HR4. split; [by apply (pd_rely_rep _ _ _ _ _ HR4)|].
      eapply held_same_trans; [done|]. by apply (held_same_rely _ _ _ _ _ HR4). }
  assert (∀ pd4 m4, rely t (pd2, m2) (pd4, m4) →
    pd_rep k pd4 m4 ∧ held_same t m m4) as Hout.
  { intros pd4 m4 HR4. split; [by apply (pd_rely_rep _ _ _ _ _ HR4)|].
    apply (held_same_rely _ pd _ pd4). by transitivity (pd2, m2). }
  rg_cas_weak_loop.
  - intros pd3 m3 HR3. apply pd_guar_nop. by apply (pd_rely_rep _ _ _ _ _ HR3).
  - intros pd3 m3 HR3. destruct (Hout pd3 m3 HR3) as [Hrep3 Hs3].
    destruct (pd_entry_exists k Hk pd3 i) as [e3 He3]; [apply Hrep3|].
    exists (pd_header e3). split; [by apply pd_header_get|].
    assert (∀ pd4 m4, rely t (pd3, m3) (pd4, m4) → pd_rep k pd4 m4 ∧ held_same t m m4) as Hout3.
    { intros pd4 m4 HR4. apply Hout. by transitivity (pd3, m3). }
    destruct (Z.eqb_spec (PRS_PD_GET_ID (pd_header e3)) i) as [Hid|]; [|done]. cbn [negb].
    destruct (truthy _) eqn:Hrc; [|done]. apply truthy_true in Hrc. cbn [negb].
    destruct (Z.eqb_spec (PRS_PD_TEST_REFCNT (pd_header e3)) PRS_PD_REFCNT_MASK) as [|Hmax]; [done|].
    destruct (pd_lock_step t pd3 m3 i e3 Hrep3 He3 Hid Hrc Hmax) as (hs & x & Hm3 & Hrep4).
    eexists. eexists. split; [by apply pd_header_set|].
    split; [apply pd_guar; [done|exact Hrep4|by apply dir_lock]|].
    intros pd5 m5 HR5. split; [by apply (pd_rely_rep _ _ _ _ _ HR5)|].
    assert (held_plus t m (<[i:=DEntry (Shared (t :: hs)) x]> m3) i) as Hp by (by apply held_plus_one).
    split; [intros j; by rewrite (rely_held t _ _ _ _ _ HR5), Hp|].
    intros q Hh Hq. apply (rely_object t _ _ _ _ _ _ HR5).
    + rewrite Hp, decide_True by done. lia.
    + assert (object_of m3 i = Some q) as Hq3.
      { apply (rely_object t pd m pd3); [by transitivity (pd2, m2)|done..]. }
      unfold object_of in *. rewrite lookup_insert_eq. by rewrite Hm3 in Hq3.
  - destruct (Z.eqb_spec (PRS_PD_GET_ID (pd_header e)) i); [|done]. cbn [negb].
    destruct (truthy _); [|done]. cbn [negb]. destruct (_ =? _); [done|done].
Qed.

(** The exchange of [prs_pd_unlock] by a thread that holds a reference. *)
Lemma pd_unlock_step t pd m i e :
  pd_rep k pd m → pd_entries pd !! pd_slot k i = Some e → (0 < held t m i)%nat →
  PRS_PD_GET_ID (pd_header e) = i ∧ PRS_PD_TEST_REFCNT (pd_header e) ≠ 0 ∧
  ∃ m', dir_step t m m' ∧ held_minus t m m' i ∧
    pd_rep k (pd_set_entries (<[pd_slot k i := PdEntry (u64 (pd_header e - PRS_PD_REFCNT_INC)) (pd_ptr e)]>
      (pd_entries pd)) pd) m' ∧
    (PRS_PD_TEST_REFCNT (pd_header e) = PRS_PD_REFCNT_INC ↔ m' !! i = None).
Proof.
  intros Hrep He Hheld. destruct (held_pos _ _ _ Hheld) as (hs & x & Hm & Hin).
  destruct (table_lookup _ _ _ _ _ _ _ (proj2 Hrep) Hm) as (e' & He' & Hok). simplify_eq.
  pose proof Hok as (hs0 & x0 & Heq & Hpos & Hlt & Hi & Hh & _). simplify_eq.
  rewrite pd_get_id, pd_test_refcnt by (rewrite Hh; apply pd_hdr_range; lia).
  rewrite Hh, pd_hdr_id, pd_hdr_refcnt by done. split; [done|]. split; [lia|].
  pose proof (length_drop_ref t hs0 Hin) as Hl.
  assert (u64 (pd_hdr i (Z.of_nat (length hs0)) - PRS_PD_REFCNT_INC) =
    pd_hdr i (Z.of_nat (length (drop_ref t hs0)))) as ->.
  { unfold pd_hdr. change PRS_PD_REFCNT_INC with (2 ^ 52). rewrite u64_small; lia. }
  change PRS_PD_REFCNT_INC with (2 ^ 52). destruct (decide (drop_ref t hs0 = [])) as [Hnil|Hne].
  - pose proof (drop_ref_nil t hs0 Hin Hnil) as ->. exists (delete i m).
    split; [by eapply dir_last|]. split; [by eapply held_minus_delete|]. rewrite Hnil. split.
    + by eapply pd_rep_last.
    + rewrite lookup_delete_eq. cbn [length] in *. split; [done|lia].
  - exists (<[i := DEntry (Shared (drop_ref t hs0)) x0]> m).
    assert (0 < length (drop_ref t hs0))%nat by (destruct (drop_ref t hs0); [done|simpl; lia]).
    split. { eapply dir_unlock; [done|done|]. intros ->. simpl in *. lia. }
    split; [by eapply held_minus_drop|]. split.
    + eapply pd_rep_holders; [done|done|done|lia|lia].
    + rewrite lookup_insert_eq. split; [lia|done].
Qed.

Lemma pd_unlock_rg t fuel i pd m :
  pd_rep k pd m → (0 < held t m i)%nat →
  rg True True True (rely t) (guar t) (prs_pd_unlock fuel i)
    (λ _ pd' m', pd_rep k pd' m' ∧ held_minus t m m' i) pd m.
Proof.
  intros Hrep Hheld. unfold prs_pd_unlock.
  destruct (Z.eqb_spec i PRS_PD_ID_INVALID) as [->|Hinv].
  { destruct (held_pos _ _ _ Hheld) as (hs & x & Hm & _).
    destruct (table_lookup _ _ _ _ _ _ _ (proj2 Hrep) Hm) as (e & _ & Hok).
    destruct Hok as (_ & _ & _ & _ & _ & [_ Hi] & _). by vm_compute in Hi. }
  apply rg_get_entry; [done|]. intros pd1 m1 HR1 Hrep1.
  rg_bind_load. intros pd2 m2 HR2. pose proof (pd_rely_rep _ _ _ _ _ HR2 Hrep1) as Hrep2.
  destruct (pd_entry_exists k Hk pd2 i) as [e He]; [apply Hrep2|].
  exists (pd_header e). split; [by apply pd_header_get|]. split; [by apply pd_guar_nop|].
  assert (rely t (pd, m) (pd2, m2)) as HR02 by (by transitivity (pd1, m1)).
  assert (∀ pd3 m3, rely t (pd2, m2) (pd3, m3) → held_same t m m3) as Hs.
  { intros pd3 m3 HR3. apply (held_same_rely _ pd _ pd3). by transitivity (pd2, m2). }
  rg_cas_weak_loop.
  - intros pd3 m3 HR3. apply pd_guar_nop. by apply (pd_rely_rep _ _ _ _ _ HR3).
  - intros pd3 m3 HR3. pose proof (pd_rely_rep _ _ _ _ _ HR3 Hrep2) as Hrep3.
    destruct (pd_entry_exists k Hk pd3 i) as [e3 He3]; [apply Hrep3|].
    exists (pd_header e3). split; [by apply pd_header_get|].
    destruct (pd_unlock_step t pd3 m3 i e3 Hrep3 He3) as (Hid & Hrc & m' & Hstep & Hm' & Hrep4 & _).
    { by rewrite (Hs pd3). }
    rewrite (proj2 (Z.eqb_eq _ _) Hid), (proj2 (truthy_true _) Hrc). cbn [negb].
    eexists. exists m'. split; [by apply pd_header_set|].
    split; [apply pd_guar; [done|exact Hrep4|done]|].
    intros pd5 m5 HR5. split; [by apply (pd_rely_rep _ _ _ _ _ HR5)|].
    intros j. by rewrite (rely_held t _ _ _ _ _ HR5), Hm', (Hs pd3).
  - destruct (pd_unlock_step t pd2 m2 i e Hrep2 He) as (Hid & Hrc & _).
    { by rewrite (Hs pd2). }
    by rewrite (proj2 (Z.eqb_eq _ _) Hid), (proj2 (truthy_true _) Hrc).
Qed.

#[export] Instance pd_refdir : RefDir prs_pd ptr.
Proof.
  split.
  - intros t p pd m Hrep. cbn [rd_alloc pd_ops]. rg_bind.
    eapply rg_mono; [|by apply pd_alloc_rg]. intros [r i] pd1 m1 [Hrep1 Hpost].
    apply rg_done. intros pd2 m2 HR2. split; [by apply (pd_rely_rep _ _ _ _ _ HR2)|].
    cbn [fst snd rd_key rd_valid pd_ops] in *. case_decide as Hr; [subst r|].
    + destruct Hpost as [Hh Ho]. rewrite pd_get_id.
      assert (held_plus t m m2 (i mod 2 ^ 52)) as Hh2.
      { intros j. by rewrite (rely_held t _ _ _ _ _ HR2), Hh. }
      split; [done|]. apply (rely_object t _ _ _ _ _ _ HR2); [|done].
      rewrite Hh, decide_True by done. lia.
    + destruct r; try done; destruct Hpost as [_ Hs];
        (eapply held_same_trans; [done|]; by apply (held_same_rely _ _ _ _ _ HR2)).
  - intros t n i pd m Hrep. eapply rg_mono; [|by apply pd_lock_rg].
    intros [p|] pd1 m1 [Hrep1 Hpost]; [|done]. split; [done|].
    split; [apply Hpost|done].
  - intros t n u i pd m Hrep Hh. by apply pd_unlock_rg.
Qed.
End directory.

(** ** One thread alone *)

Section sequential.
Context (k : Z) (Hk : 0 < k ≤ 52).

(** [prs_pd_alloc_and_lock] takes index [i]: its entry has no reference, and has
    not just been used for the same ID. *)
Definition pd_fits (pd : prs_pd) (i : Z) : bool :=
  match pd_entries pd !! pd_slot k i with
  | Some e => (PRS_PD_TEST_REFCNT (pd_header e) =? 0) && negb (PRS_PD_GET_ID (pd_header e) =? i)
  | None => false
  end.

Definition pd_taken (pd : prs_pd) (i : Z) (p : ptr) : prs_pd :=
  Pd (pd_area pd) (<[pd_slot k i := PdEntry (pd_hdr (i mod 2 ^ 52) 1) p]> (pd_entries pd))
     (pd_max_entries pd) (pd_max_entries_mask pd) (i + 1).

Lemma run_get_entry i pd :
  pd_shape k pd → run (prs_pd_get_entry i) pd = Ret (Some (i mod 2 ^ k), pd).
Proof.
  intros H. unfold prs_pd_get_entry. rewrite run_bind, run_peek. ocbn.
  by rewrite (pd_shape_mask k pd H), pd_index.
Qed.

Lemma run_alloc_loop n i p pd :
  pd_shape k pd → 0 ≤ i → i + Z.of_nat n < 2 ^ 64 →
  run (prs_pd_alloc_loop n i p) pd =
    match List.find (pd_fits pd) (seqZ i (Z.of_nat n)) with
    | Some j => Ret (Some (PRS_OK, j), pd_taken pd j p)
    | None => Ret (Some (PRS_OUT_OF_MEMORY, PRS_PD_ID_INVALID), pd)
    end.
Proof.
  intros Hsh. revert i. induction n as [|n IH]; intros i Hi Hn; [done|].
  cbn [prs_pd_alloc_loop]. rewrite run_bind, run_get_entry by done. ocbn.
  destruct (pd_entry_exists k Hk pd i Hsh) as [e He].
  rewrite run_bind, (run_load _ pd (pd_header e)) by (by apply pd_header_get). ocbn.
  rewrite seqZ_cons by lia. replace (Z.pred (Z.of_nat (S n))) with (Z.of_nat n) by lia.
  cbn [List.find]. unfold pd_fits at 1. rewrite He.
  change (Z.succ i) with (i + 1). specialize (IH (i + 1) ltac:(lia) ltac:(lia)).
  unfold truthy. destruct (Z.eqb_spec (PRS_PD_TEST_REFCNT (pd_header e)) 0) as [Hrc|]; [|done].
  cbn [negb andb]. destruct (Z.eqb_spec (PRS_PD_GET_ID (pd_header e)) i) as [|Hid]; [done|].
  cbn [negb]. rewrite run_bind. erewrite run_cas_strong; [|by apply pd_header_get|by apply pd_header_set].
  ocbn. cbn [negb]. rewrite run_bind. erewrite run_store by reflexivity. ocbn.
  rewrite run_bind. unfold write.
  erewrite run_store; [|apply (pd_ptr_set k Hk); apply list_lookup_insert_eq; by eapply lookup_lt_Some].
  ocbn. cbn [run]. unfold pd_taken, pd_set_entries. cbn [pd_area pd_entries pd_max_entries
    pd_max_entries_mask pd_write_index pd_header]. rewrite list_insert_insert_eq, pd_new_header.
  by rewrite u64_small by lia.
Qed.

Lemma run_lock_entry fuel i pd e :
  pd_shape k pd → pd_entries pd !! pd_slot k i = Some e → i ≠ PRS_PD_ID_INVALID →
  run (prs_pd_lock_entry (S fuel) i) pd =
    if (PRS_PD_GET_ID (pd_header e) =? i) && truthy (PRS_PD_TEST_REFCNT (pd_header e)) &&
       negb (PRS_PD_TEST_REFCNT (pd_header e) =? PRS_PD_REFCNT_MASK)
    then Ret (Some (Some (pd_ptr e)),
      pd_set_entries (<[pd_slot k i := PdEntry (u64 (pd_header e + PRS_PD_REFCNT_INC)) (pd_ptr e)]>
        (pd_entries pd)) pd)
    else Ret (Some None, pd).
Proof.
  intros Hsh He Hinv. unfold prs_pd_lock_entry. rewrite (proj2 (Z.eqb_neq _ _) Hinv).
  rewrite run_bind, run_get_entry by done. ocbn.
  rewrite run_bind, (run_load _ pd (pd_header e)) by (by apply pd_header_get). ocbn.
  rewrite run_bind, (run_cas_weak_loop _ _ _ (pd_header e)) by (by apply pd_header_get).
  destruct (_ =? i); [|done]. destruct (truthy _); [|done]. destruct (_ =? PRS_PD_REFCNT_MASK); [done|].
  cbn [negb andb]. rewrite (pd_header_set k Hk pd i e) by done. ocbn.
  rewrite run_bind. unfold read.
  erewrite run_load; [|apply (pd_ptr_get k Hk); apply list_lookup_insert_eq; by eapply lookup_lt_Some].
  done.
Qed.

Lemma run_unlock fuel i pd e :
  pd_shape k pd → pd_entries pd !! pd_slot k i = Some e → i ≠ PRS_PD_ID_INVALID →
  run (prs_pd_unlock (S fuel) i) pd =
    if (PRS_PD_GET_ID (pd_header e) =? i) && truthy (PRS_PD_TEST_REFCNT (pd_header e))
    then Ret (Some (PRS_PD_TEST_REFCNT (pd_header e) =? PRS_PD_REFCNT_INC),
      pd_set_entries (<[pd_slot k i := PdEntry (u64 (pd_header e - PRS_PD_REFCNT_INC)) (pd_ptr e)]>
        (pd_entries pd)) pd)
    else Ret (Some false, pd).
Proof.
  intros Hsh He Hinv. unfold prs_pd_unlock. rewrite (proj2 (Z.eqb_neq _ _) Hinv).
  rewrite run_bind, run_get_entry by done. ocbn.
  rewrite run_bind, (run_load _ pd (pd_header e)) by (by apply pd_header_get). ocbn.
  rewrite (run_cas_weak_loop _ _ _ (pd_header e)) by (by apply pd_header_get).
  destruct (_ =? i); [|done]. destruct (truthy _); [|done].
  cbn [negb andb]. by rewrite (pd_header_set k Hk pd i e).
Qed.
End sequential.

(** A directory as [prs_pd_create] makes it, or as it is after operations. *)
Definition pd_initial (k : Z) : prs_pd :=
  Pd None (pd_zeroed (2 ^ k)) (2 ^ k) (2 ^ k - 1) 1.

Lemma pd_initial_shape k : 0 < k ≤ 52 → pd_shape k (pd_initial k).
Proof.
  intros Hk. split; simpl; try done.
  - unfold pd_zeroed. rewrite length_replicate. lia.
  - apply Forall_replicate. simpl. lia.
Qed.

Lemma pd_initial_rep k : 0 < k ≤ 52 → pd_rep k (pd_initial k) ∅.
Proof.
  intros Hk. split; [by apply pd_initial_shape|]. apply table_empty. by apply Forall_replicate.
Qed.

(** ** Properties *)

(** C1: whatever number of threads use a fresh pointer directory, in whatever
    order their atomic actions interleave, as long as each thread unlocks only
    references it holds: no thread ever performs an undefined action, and once all
    threads have returned, the reference count that the entry of an ID records for
    that ID is exactly the number of references that the threads still hold on it,
    so that the entry is free exactly when nobody holds the ID. *)
Theorem pd_clients_settled (k : Z) (fuel : nat) (cls : list (client ptr unit)) pd' ps' :
  0 < k ≤ 52 → Forall (disciplined (RefDirOps0 := pd_ops k) []) cls →
  rtc pool_step (pd_initial k, client_prog (RefDirOps0 := pd_ops k) fuel [] <$> cls) (pd', ps') →
  (∀ t p, ps' !! t = Some p → ¬ faults pd' p) ∧
  ∀ finals, ps' = Done <$> finals →
    ∀ i, ∃ e, pd_entries pd' !! pd_slot k i = Some e ∧
      Z.of_nat (count_occ Z.eq_dec (concat finals) i) =
        if PRS_PD_GET_ID (pd_header e) =? i then PRS_PD_GET_REFCNT (pd_header e) else 0.
Proof.
  intros Hk Hcl Hr. pose proof (pd_refdir k Hk) as Hdir.
  destruct (clients_safe (RefDirOps0 := pd_ops k) fuel cls _ ∅ pd' ps' (pd_initial_rep k Hk)
    (λ _ _, eq_refl) Hcl Hr)
    as (m' & Hrep & Hb & Hf & Hd).
  split; [done|]. intros finals ->.
  destruct (finals_hold (RefDirOps0 := pd_ops k) fuel cls _ _ m' finals Hr Hb Hd) as [Hb' Hfin].
  intros i. destruct (pd_entry_exists k Hk pd' i (proj1 Hrep)) as [e He]. exists e. split; [done|].
  pose proof (pd_shape_entry k _ _ _ (proj1 Hrep) He) as Hrange.
  assert (PRS_PD_GET_REFCNT (pd_header e) = pd_header e / 2 ^ 52) as ->.
  { unfold PRS_PD_GET_REFCNT. rewrite pd_test_refcnt by done.
    change PRS_PD_REFCNT_SHIFT with 52. rewrite Z.shiftr_div_pow2 by lia. apply Z.div_mul. lia. }
  destruct (m' !! i) as [d|] eqn:Hm.
  - destruct (table_lookup _ _ _ _ _ _ _ (proj2 Hrep) Hm) as (e' & He' & Hok). simplify_eq.
    destruct Hok as (hs & x & -> & _ & _ & Hi & Hh & _).
    rewrite Hh, pd_get_id, pd_hdr_id, pd_hdr_refcnt, Z.eqb_refl by done. f_equal. symmetry.
    by eapply settled_count.
  - rewrite (settled_none finals m' i Hfin Hm). destruct (Z.eqb_spec (PRS_PD_GET_ID (pd_header e)) i) as [Hid|]; [|done].
    destruct (decide (PRS_PD_TEST_REFCNT (pd_header e) = 0)) as [H0|H0].
    + rewrite pd_test_refcnt in H0 by done. lia.
    + destruct (pd_rep_live k pd' m' i e Hrep He Hid H0) as (hs & x & Hm' & _). congruence.
Qed.

Lemma pd_taken_shape k pd i p :
  0 < k ≤ 52 → pd_shape k pd → 0 ≤ i + 1 < 2 ^ 64 → pd_shape k (pd_taken k pd i p).
Proof.
  intros Hk [H1 H2 H3 H4 H5] Hi. split; simpl; [done|done|by rewrite length_insert| |done].
  apply Forall_insert; [done|]. apply pd_hdr_range; [|lia]. apply Z.mod_pos_bound. lia.
Qed.

(** Two threads: one registers a pointer, the other locks ID 1 while the first is
    between its exchange and its return, and both keep their reference. *)
Definition pd_demo_clients : list (client ptr unit) :=
  [CAlloc (Some 5%positive) (λ _, CStop); CLock 1 (λ _, CStop)].

Definition pd_demo_schedule : list (nat * bool) :=
  replicate 5 (0%nat, false) ++ replicate 2 (1%nat, false) ++ [(1%nat, true)] ++
  replicate 1 (1%nat, false) ++ replicate 2 (0%nat, false) ++ replicate 3 (1%nat, false).

Definition pd_demo_pool : prs_pd * list (prog prs_pd (list Z)) :=
  (pd_initial 2, client_prog (RefDirOps0 := pd_ops 2) 2 [] <$> pd_demo_clients).

Definition pd_demo_final : prs_pd :=
  Pd None [PdEntry 0 None; PdEntry (pd_hdr 1 2) (Some 5%positive); PdEntry 0 None; PdEntry 0 None]
    4 3 2.

Lemma pd_clients_settled_witness :
  pool_run pd_demo_schedule pd_demo_pool = Some (pd_demo_final, Done <$> [[1]; [1]]) ∧
  ∃ e, pd_entries pd_demo_final !! pd_slot 2 1 = Some e ∧
    2 = if PRS_PD_GET_ID (pd_header e) =? 1 then PRS_PD_GET_REFCNT (pd_header e) else 0.
Proof.
  assert (pool_run pd_demo_schedule pd_demo_pool = Some (pd_demo_final, Done <$> [[1]; [1]])) as Hrun.
  { vm_compute. reflexivity. }
  split; [exact Hrun|].
  refine (proj2 (pd_clients_settled 2 2 pd_demo_clients pd_demo_final _ _ _
    (pool_run_rtc _ _ _ Hrun)) [[1]; [1]] eq_refl 1).
  - lia.
  - repeat constructor; simpl; intros; repeat constructor.
Defined.

(** Alone, [prs_pd_alloc_and_lock] takes the first index from the write index
    on, among [max_entries] of them, whose entry is free and did not just have the
    same ID; it gives the entry one reference and the pointer, moves the write
    index after it and returns the index.  When there is none, or when the sum
    [write_index + max_entries] wraps around, it returns [PRS_OUT_OF_MEMORY] and
    changes nothing. *)
Lemma pd_alloc_first_fit (k : Z) (pd : prs_pd) (p : ptr) :
  0 < k ≤ 52 → pd_shape k pd →
  let w := pd_write_index pd in
  let n := u64 (w + 2 ^ k) - w in
  run (prs_pd_alloc_and_lock p) pd =
    match List.find (pd_fits k pd) (seqZ w (Z.max 0 n)) with
    | Some i => Ret (Some (PRS_OK, i), pd_taken k pd i p)
    | None => Ret (Some (PRS_OUT_OF_MEMORY, PRS_PD_ID_INVALID), pd)
    end.
Proof.
  intros Hk Hsh. cbn zeta. unfold prs_pd_alloc_and_lock.
  rewrite run_bind, (run_load _ pd (pd_write_index pd)) by done. ocbn.
  rewrite run_bind, run_peek. ocbn. rewrite (pd_shape_max k pd Hsh).
  pose proof (pd_shape_write k pd Hsh) as Hw.
  pose proof (u64_range (pd_write_index pd + 2 ^ k)).
  rewrite (run_alloc_loop k Hk); [|done|lia|lia].
  rewrite ZifyInst.of_nat_to_nat_eq. done.
Qed.


(** The three ways a header can look to [prs_pd_lock] and [prs_pd_unlock]. *)
Definition pd_with_refs (k : Z) (pd : prs_pd) (id rc : Z) (p : ptr) : prs_pd :=
  pd_set_entries (<[pd_slot k id := PdEntry (pd_hdr id rc) p]> (pd_entries pd)) pd.

(** The reference count of an entry, on every branch of [prs_pd_lock] and
    [prs_pd_unlock].  With [rc] references on [id], locking returns the pointer and
    leaves [rc + 1], except that it fails without a change when the entry is free
    and when the count is saturated at 4095; unlocking leaves [rc - 1] and tells
    whether that was the last one, and has no effect on a free entry; any other ID
    that maps to the entry is refused by both. *)
Lemma pd_reference_count_exact (k : Z) (fuel : nat) (pd : prs_pd) (id id' rc : Z) (p : ptr) :
  0 < k ≤ 52 → pd_shape k pd → 0 ≤ id < 2 ^ 52 → 0 ≤ rc < 2 ^ 12 →
  id' ≠ id → pd_slot k id' = pd_slot k id → id' ≠ PRS_PD_ID_INVALID →
  let at_ n := pd_with_refs k pd id n p in
  run (prs_pd_lock (S fuel) id) (at_ rc) =
    (if (rc =? 0) || (rc =? 4095) then Ret (Some None, at_ rc) else Ret (Some p, at_ (rc + 1))) ∧
  run (prs_pd_unlock (S fuel) id) (at_ rc) =
    (if rc =? 0 then Ret (Some false, at_ rc) else Ret (Some (rc =? 1), at_ (rc - 1))) ∧
  run (prs_pd_lock (S fuel) id') (at_ rc) = Ret (Some None, at_ rc) ∧
  run (prs_pd_unlock (S fuel) id') (at_ rc) = Ret (Some false, at_ rc).
Proof.
  intros Hk Hsh Hid Hrc Hne Hslot Hinv. cbn zeta.
  pose proof (pd_hdr_range id rc Hid Hrc) as Hr.
  assert (pd_shape k (pd_with_refs k pd id rc p)) as Hsh' by (by apply pd_shape_set).
  assert (pd_entries (pd_with_refs k pd id rc p) !! pd_slot k id = Some (PdEntry (pd_hdr id rc) p)) as He.
  { apply list_lookup_insert_eq. destruct (pd_entry_exists k Hk pd id Hsh) as [e He].
    by eapply lookup_lt_Some. }
  assert (id ≠ PRS_PD_ID_INVALID) as Hni.
  { intros ->. destruct Hid as [_ Hid]. by vm_compute in Hid. }
  assert (∀ n, pd_set_entries (<[pd_slot k id := PdEntry (pd_hdr id n) p]>
    (pd_entries (pd_with_refs k pd id rc p))) (pd_with_refs k pd id rc p) = pd_with_refs k pd id n p) as Hset.
  { intros n. unfold pd_with_refs, pd_set_entries. cbn [pd_entries pd_area pd_max_entries
      pd_max_entries_mask pd_write_index]. by rewrite list_insert_insert_eq. }
  assert (pd_hdr id rc + PRS_PD_REFCNT_INC = pd_hdr id (rc + 1)) as Hinc.
  { unfold pd_hdr. change PRS_PD_REFCNT_INC with (2 ^ 52). lia. }
  assert (pd_hdr id rc - PRS_PD_REFCNT_INC = pd_hdr id (rc - 1)) as Hdec.
  { unfold pd_hdr. change PRS_PD_REFCNT_INC with (2 ^ 52). lia. }
  unfold prs_pd_lock. rewrite !run_bind.
  rewrite (run_lock_entry k Hk fuel id _ _ Hsh' He Hni), (run_unlock k Hk fuel id _ _ Hsh' He Hni).
  rewrite <- Hslot in He. rewrite (run_lock_entry k Hk fuel id' _ _ Hsh' He Hinv),
    (run_unlock k Hk fuel id' _ _ Hsh' He Hinv). rewrite Hslot.
  cbn [pd_header pd_ptr]. rewrite Hinc, Hdec.
  rewrite pd_get_id, pd_test_refcnt, pd_hdr_id, pd_hdr_refcnt, Z.eqb_refl by done.
  rewrite (proj2 (Z.eqb_neq id id')) by done. cbn [andb].
  change PRS_PD_REFCNT_MASK with (4095 * 2 ^ 52). change PRS_PD_REFCNT_INC with (1 * 2 ^ 52).
  unfold truthy. split_and!; try done.
  - destruct (Z.eqb_spec (rc * 2 ^ 52) 0), (Z.eqb_spec rc 0); try lia; [done|]. cbn [negb andb orb].
    destruct (Z.eqb_spec (rc * 2 ^ 52) (4095 * 2 ^ 52)), (Z.eqb_spec rc 4095); try lia; [done|].
    cbn [negb]. ocbn. cbn [run]. rewrite u64_small by (apply pd_hdr_range; lia). by rewrite Hset.
  - destruct (Z.eqb_spec (rc * 2 ^ 52) 0), (Z.eqb_spec rc 0); try lia; [done|]. cbn [negb andb].
    rewrite u64_small by (apply pd_hdr_range; lia). rewrite Hset. do 3 f_equal.
    destruct (Z.eqb_spec (rc * 2 ^ 52) (1 * 2 ^ 52)), (Z.eqb_spec rc 1); try lia; done.
Qed.


(** [prs_pd_create] and [prs_pd_destroy] neither leak nor free twice: when
    creation fails, every block it had allocated is free again; when it succeeds in
    the heap, the directory is empty and destroying it gives back exactly the two
    blocks; in an area of the caller, the heap is not touched at all. *)
Lemma pd_create_destroy (k : Z) (params : prs_pd_create_params) area_entries (h : heap) :
  0 < k ≤ 52 → pdp_max_entries params = 2 ^ k → heap_ok h →
  ∃ r h', prs_pd_create params area_entries h = Ret (r, h') ∧ heap_ok h' ∧
    match r with
    | None => heap_live h' = heap_live h
    | Some (pd, self, entries) =>
        (pdp_area params = None → pd = pd_initial k) ∧
        ∃ h'', prs_pd_destroy pd self entries h' = Ret h'' ∧ heap_live h'' = heap_live h
    end.
Proof.
  intros Hk Hmax Hh. unfold prs_pd_create, prs_pal_malloc_zero, prs_pal_free.
  destruct (pdp_area params) as [a|].
  { eexists _, h. split; [done|]. split; [done|]. split; [done|]. by exists h. }
  destruct (malloc h) as [[l|] h1] eqn:Hm1; pose proof (malloc_ok _ _ _ Hh Hm1) as [Hh1 Hl1].
  2: { eexists _, h1. done. }
  destruct Hl1 as [Hf1 Hl1]. destruct (malloc h1) as [[l'|] h2] eqn:Hm2;
    pose proof (malloc_ok _ _ _ Hh1 Hm2) as [Hh2 Hl2].
  - destruct Hl2 as [Hf2 Hl2]. eexists _, h2. split; [done|]. split; [done|]. split.
    + intros _. rewrite Hmax. unfold pd_initial. f_equal. apply u64_small.
      assert (2 ^ k ≤ 2 ^ 52) by (apply Z.pow_le_mono_r; lia).
      assert (0 < 2 ^ k) by (apply Z.pow_pos_nonneg; lia). lia.
    + unfold prs_pd_destroy, prs_pal_free. cbn [pd_area].
      rewrite free_live by set_solver. ocbn. rewrite free_live by (simpl; set_solver).
      eexists. split; [done|]. simpl. rewrite Hl2, Hl1. set_solver.
  - rewrite free_live by set_solver. ocbn. eexists _, _. split; [done|].
    split; [by apply heap_ok_free|]. simpl. rewrite Hl2, Hl1. set_solver.
Qed.


(** An ID past 52 bits does not fit in the header: the entry is allocated, but the
    ID that is returned can never be locked. *)
Lemma pd_long_id_unusable :
  let pd := Pd None (pd_zeroed 4) 4 3 (2 ^ 52 + 5) in
  run (prs_pd_alloc_and_lock (Some 1%positive)) pd =
    Ret (Some (PRS_OK, 2 ^ 52 + 5), pd_taken 2 pd (2 ^ 52 + 5) (Some 1%positive)) ∧
  run (prs_pd_lock 1 (2 ^ 52 + 5)) (pd_taken 2 pd (2 ^ 52 + 5) (Some 1%positive)) =
    Ret (Some None, pd_taken 2 pd (2 ^ 52 + 5) (Some 1%positive)).
Proof. split; vm_compute; reflexivity. Qed.
