(* ===== verification/Pool.v ===== *)
(** * Pool (prs/lib/ds/pool.c)

    The pool of reference-counted entries, at the level of its atomic accesses
    (64-bit build, run-time checking on), and the proof that it implements the
    contract of [RefDir].  Unlike the pointer directory, an entry can be allocated
    without being lockable, and can be destroyed by a callback before it is free. *)

From S2P Require Import Prelude Bitops Heap Atomic RefDir.

(** ** Data *)

Definition PRS_POOL_ID_INVALID : Z := u64 (-1).
Definition PRS_POOL_REFCNT_SHIFT : Z := 52.
Definition PRS_POOL_REFCNT_BITS : Z := 11.
Definition PRS_POOL_REFCNT_INC : Z := Z.shiftl 1 PRS_POOL_REFCNT_SHIFT.
Definition PRS_POOL_REFCNT_MASK : Z :=
  Z.shiftl (Z.shiftl 1 PRS_POOL_REFCNT_BITS - 1) PRS_POOL_REFCNT_SHIFT.
Definition PRS_POOL_ALLOC_SHIFT : Z := PRS_POOL_REFCNT_SHIFT + PRS_POOL_REFCNT_BITS.
Definition PRS_POOL_ALLOC_MASK : Z := Z.shiftl 1 PRS_POOL_ALLOC_SHIFT.
Definition PRS_POOL_ID_MASK : Z := PRS_POOL_REFCNT_INC - 1.

Definition PRS_POOL_GET_ID (header : Z) : Z := Z.land header PRS_POOL_ID_MASK.
Definition PRS_POOL_TEST_REFCNT (header : Z) : Z := Z.land header PRS_POOL_REFCNT_MASK.
Definition PRS_POOL_GET_REFCNT (header : Z) : Z :=
  Z.shiftr (PRS_POOL_TEST_REFCNT header) PRS_POOL_REFCNT_SHIFT.
Definition PRS_POOL_TEST_ALLOC (header : Z) : Z := Z.land header PRS_POOL_ALLOC_MASK.

(** [D] is what the [data_size] bytes of an entry hold.  A pointer to the data of
    an entry is the index of the entry. *)
Section pool.
Context {D : Type}.

Record prs_pool_entry : Type := PoolEntry {
  pool_header : Z;
  pool_data : D
}.

Record prs_pool : Type := Pool {
  pool_area : ptr;
  pool_entries : list prs_pool_entry;
  pool_data_size : Z;
  pool_entry_size : Z;
  pool_max_entries : Z;
  pool_max_entries_mask : Z;
  pool_write_index : Z
}.

Definition pool_set_entries (es : list prs_pool_entry) (p : prs_pool) : prs_pool :=
  Pool (pool_area p) es (pool_data_size p) (pool_entry_size p) (pool_max_entries p)
    (pool_max_entries_mask p) (pool_write_index p).

Definition pool_set_write_index (v : Z) (p : prs_pool) : prs_pool :=
  Pool (pool_area p) (pool_entries p) (pool_data_size p) (pool_entry_size p) (pool_max_entries p)
    (pool_max_entries_mask p) v.

Definition pool_write_index_cell : cell prs_pool Z :=
  Cell (λ p, Ret (pool_write_index p)) (λ v p, Ret (pool_set_write_index v p)).

Definition pool_header_cell : Z → cell prs_pool Z :=
  array_cell pool_entries pool_set_entries pool_header (λ v e, PoolEntry v (pool_data e)).

Definition pool_data_cell : Z → cell prs_pool D :=
  array_cell pool_entries pool_set_entries pool_data (λ v e, PoolEntry (pool_header e) v).

(** ** Operations *)

Definition prs_pool_get_entry (id : Z) : prog prs_pool Z :=
  mask ← peek pool_max_entries_mask;
  Done (Z.land id mask).

(** The loop of [prs_pool_alloc] over [i], with [n] indices to go: the entry and
    its ID. *)
Fixpoint prs_pool_alloc_loop (n : nat) (i : Z) : prog prs_pool (option Z * Z) :=
  match n with
  | O => Done (None, PRS_POOL_ID_INVALID)
  | S n =>
      entry ← prs_pool_get_entry i;
      header ← prs_pal_atomic_load (pool_header_cell entry);
      if truthy (PRS_POOL_TEST_ALLOC header) then prs_pool_alloc_loop n (i + 1)
      else if PRS_POOL_GET_ID header =? i then prs_pool_alloc_loop n (i + 1)
      else
        let new_header := Z.lor PRS_POOL_ALLOC_MASK (Z.land i PRS_POOL_ID_MASK) in
        '(ok, _) ← prs_pal_atomic_compare_exchange_strong (pool_header_cell entry) header new_header;
        if negb ok then prs_pool_alloc_loop n (i + 1)
        else
          prs_pal_atomic_store pool_write_index_cell (u64 (i + 1));;
          Done (Some entry, i)
  end.

Definition prs_pool_alloc : prog prs_pool (option Z * Z) :=
  write_index ← prs_pal_atomic_load pool_write_index_cell;
  max_entries ← peek pool_max_entries;
  let end_ := u64 (write_index + max_entries) in
  prs_pool_alloc_loop (Z.to_nat (end_ - write_index)) write_index.

Definition prs_pool_free (id : Z) : prog prs_pool unit :=
  entry ← prs_pool_get_entry id;
  header ← prs_pal_atomic_load (pool_header_cell entry);
  if negb (truthy (PRS_POOL_TEST_ALLOC header)) then Done tt
  else if truthy (PRS_POOL_TEST_REFCNT header) then Done tt
  else
    _ ← prs_pal_atomic_compare_exchange_strong (pool_header_cell entry) header id;
    Done tt.

Definition prs_pool_lock_first (id : Z) : prog prs_pool unit :=
  entry ← prs_pool_get_entry id;
  header ← prs_pal_atomic_load (pool_header_cell entry);
  if negb (PRS_POOL_GET_ID header =? id) then Done tt
  else if negb (truthy (PRS_POOL_TEST_ALLOC header)) then Done tt
  else if truthy (PRS_POOL_TEST_REFCNT header) then Done tt
  else
    let new_header := Z.lor PRS_POOL_REFCNT_INC header in
    _ ← prs_pal_atomic_compare_exchange_strong (pool_header_cell entry) header new_header;
    Done tt.

Definition prs_pool_alloc_and_lock (data : D) : prog prs_pool (option Z * Z) :=
  '(result, id) ← prs_pool_alloc;
  match result with
  | None => Done (None, id)
  | Some entry =>
      write (pool_data_cell entry) data;;
      prs_pool_lock_first id;;
      Done (Some entry, id)
  end.

Definition prs_pool_lock (fuel : nat) (id : Z) : prog prs_pool (option Z) :=
  if id =? PRS_POOL_ID_INVALID then Done None
  else
    entry ← prs_pool_get_entry id;
    header ← prs_pal_atomic_load (pool_header_cell entry);
    cas_weak_loop fuel (pool_header_cell entry) (λ header,
      if negb (PRS_POOL_GET_ID header =? id) then inl None
      else if negb (truthy (PRS_POOL_TEST_ALLOC header)) then inl None
      else if negb (truthy (PRS_POOL_TEST_REFCNT header)) then inl None
      else if PRS_POOL_TEST_REFCNT header =? PRS_POOL_REFCNT_MASK then inl None
      else inr (u64 (header + PRS_POOL_REFCNT_INC), Some entry)) header.

(** The body of the loop of [prs_pool_unlock_internal]: nothing when it returns
    false, otherwise [last] and the new header. *)
Definition pool_unlock_body (id : Z) (try_final has_destructor : bool) (header : Z) :
    option (bool * Z) + Z * option (bool * Z) :=
  if negb (PRS_POOL_GET_ID header =? id) then inl None
  else if negb (truthy (PRS_POOL_TEST_ALLOC header)) then inl None
  else
    let refcnt := PRS_POOL_TEST_REFCNT header in
    if negb (truthy refcnt) then inl None
    else
      let last := refcnt =? PRS_POOL_REFCNT_INC in
      if try_final && negb last then inl None
      else
        let new_header := u64 (header - PRS_POOL_REFCNT_INC) in
        let new_header :=
          if last && negb has_destructor
          then Z.land new_header (u64 (Z.lnot PRS_POOL_ALLOC_MASK)) else new_header in
        inr (new_header, Some (last, new_header)).

(** [destructor]: what the callback does to the data of the entry. *)
Definition prs_pool_unlock_internal (fuel : nat) (id : Z) (try_final : bool)
    (destructor : option (D → D)) : prog prs_pool bool :=
  if id =? PRS_POOL_ID_INVALID then Done false
  else
    entry ← prs_pool_get_entry id;
    header ← prs_pal_atomic_load (pool_header_cell entry);
    r ← cas_weak_loop fuel (pool_header_cell entry)
          (pool_unlock_body id try_final (if destructor then true else false)) header;
    match r with
    | None => Done false
    | Some (last, new_header) =>
        match last, destructor with
        | true, Some destructor =>
            data ← read (pool_data_cell entry);
            write (pool_data_cell entry) (destructor data);;
            let header := new_header in
            let new_header := Z.land new_header PRS_POOL_ID_MASK in
            '(result, _) ← prs_pal_atomic_compare_exchange_strong (pool_header_cell entry) header
              new_header;
            if negb result then Done false else Done last
        | _, _ => Done last
        end
    end.

Definition prs_pool_unlock (fuel : nat) (id : Z) : prog prs_pool bool :=
  prs_pool_unlock_internal fuel id false None.
Definition prs_pool_try_unlock_final (fuel : nat) (id : Z) : prog prs_pool bool :=
  prs_pool_unlock_internal fuel id true None.
Definition prs_pool_unlock_dest (fuel : nat) (id : Z) (destructor : D → D) : prog prs_pool bool :=
  prs_pool_unlock_internal fuel id false (Some destructor).
Definition prs_pool_try_unlock_final_dest (fuel : nat) (id : Z) (destructor : D → D) :
    prog prs_pool bool :=
  prs_pool_unlock_internal fuel id true (Some destructor).

(** [prs_pool_data_to_entry]: the pointer to the data names the entry already. *)
Definition prs_pool_data_to_entry (data : Z) : Z := data.

Definition prs_pool_get_id (data : Z) : prog prs_pool Z :=
  let entry := prs_pool_data_to_entry data in
  header ← prs_pal_atomic_load (pool_header_cell entry);
  Done (PRS_POOL_GET_ID header).

Definition sizeof_prs_pool : Z := 56.
Definition offsetof_prs_pool_entry_data : Z := 8.

Definition prs_pool_struct_size (max_entries data_size : Z) : Z :=
  let entry_size := u64 (data_size + offsetof_prs_pool_entry_data) in
  u64 (sizeof_prs_pool + entry_size * max_entries).

Record prs_pool_create_params : Type := PoolParams {
  poolp_max_entries : Z;
  poolp_data_size : Z;
  poolp_area : ptr
}.

(** [prs_pool_create]: the pool with the blocks of the structure and of its
    entries; [entries] is what the memory of the entries holds at first. *)
Definition pool_init (params : prs_pool_create_params) (area : ptr) (entries : list prs_pool_entry) :
    outcome prs_pool :=
  let p := Pool area entries (poolp_data_size params)
    (u64 (poolp_data_size params + offsetof_prs_pool_entry_data)) (poolp_max_entries params)
    (u64 (poolp_max_entries params - 1)) 1 in
  cell_set (pool_header_cell 0) PRS_POOL_ALLOC_MASK p.

Definition prs_pool_create (params : prs_pool_create_params) (zero : D)
    (area_entries : list prs_pool_entry) (h : heap) :
    outcome (option (prs_pool * ptr * ptr) * heap) :=
  match poolp_area params with
  | Some a => p ← pool_init params (Some a) area_entries; Ret (Some (p, Some a, Some a), h)
  | None =>
      let (pool, h) := prs_pal_malloc_zero h in
      match pool with
      | None => Ret (None, h)
      | Some l =>
          let (es, h) := prs_pal_malloc_zero h in
          match es with
          | None => h ← prs_pal_free (Some l) h; Ret (None, h)
          | Some l' =>
              p ← pool_init params None
                (replicate (Z.to_nat (poolp_max_entries params)) (PoolEntry 0 zero));
              Ret (Some (p, Some l, Some l'), h)
          end
      end
  end.

Definition prs_pool_destroy (p : prs_pool) (self entries : ptr) (h : heap) : outcome heap :=
  match pool_area p with
  | None => h ← prs_pal_free entries h; prs_pal_free self h
  | Some _ => Ret h
  end.
End pool.
Arguments prs_pool_entry : clear implicits.
Arguments prs_pool : clear implicits.

(** ** Headers *)

Definition pool_hdr (id rc al : Z) : Z := al * 2 ^ 63 + rc * 2 ^ 52 + id.

Section headers.
Context (id rc al : Z) (Hid : 0 ≤ id < 2 ^ 52) (Hrc : 0 ≤ rc < 2 ^ 11) (Hal : 0 ≤ al < 2).

Lemma pool_hdr_range : 0 ≤ pool_hdr id rc al < 2 ^ 64.
Proof using Hid Hrc Hal. unfold pool_hdr. lia. Qed.

Lemma pool_hdr_id : PRS_POOL_GET_ID (pool_hdr id rc al) = id.
Proof using Hid.
  unfold PRS_POOL_GET_ID, pool_hdr. change PRS_POOL_ID_MASK with (2 ^ 52 - 1).
  rewrite land_low by lia. replace (al * 2 ^ 63 + rc * 2 ^ 52 + id)
    with (id + (al * 2 ^ 11 + rc) * 2 ^ 52) by lia.
  rewrite Z.mod_add by lia. by apply Z.mod_small.
Qed.

Lemma pool_hdr_refcnt : PRS_POOL_TEST_REFCNT (pool_hdr id rc al) = rc * 2 ^ 52.
Proof using Hid Hrc.
  unfold PRS_POOL_TEST_REFCNT, pool_hdr.
  change PRS_POOL_REFCNT_MASK with (Z.shiftl (2 ^ 11 - 1) 52). rewrite land_field by lia.
  replace (al * 2 ^ 63 + rc * 2 ^ 52 + id) with ((al * 2 ^ 11 + rc) * 2 ^ 52 + id) by lia.
  rewrite Z.div_add_l, (Z.div_small id), Z.add_0_r, Z.add_comm, Z.mod_add by lia.
  by rewrite Z.mod_small.
Qed.

Lemma pool_hdr_alloc : PRS_POOL_TEST_ALLOC (pool_hdr id rc al) = al * 2 ^ 63.
Proof using Hid Hrc Hal.
  unfold PRS_POOL_TEST_ALLOC, pool_hdr. change PRS_POOL_ALLOC_MASK with (2 ^ 63).
  rewrite land_bit by lia. rewrite <- Z.add_assoc, Z.div_add_l, (Z.div_small (_ + _)) by lia.
  rewrite Z.add_0_r, Z.mod_small; lia.
Qed.

Lemma pool_hdr_high : pool_hdr id rc al / 2 ^ 63 = al.
Proof using Hid Hrc.
  unfold pool_hdr. rewrite <- Z.add_assoc, Z.div_add_l, (Z.div_small (_ + _)); lia.
Qed.

Lemma pool_hdr_lock : rc + 1 < 2 ^ 11 →
  u64 (pool_hdr id rc al + PRS_POOL_REFCNT_INC) = pool_hdr id (rc + 1) al.
Proof using Hid Hrc Hal.
  intros H. unfold pool_hdr. change PRS_POOL_REFCNT_INC with (2 ^ 52). rewrite u64_small; lia.
Qed.

Lemma pool_hdr_unlock : 0 < rc →
  u64 (pool_hdr id rc al - PRS_POOL_REFCNT_INC) = pool_hdr id (rc - 1) al.
Proof using Hid Hrc Hal.
  intros H. unfold pool_hdr. change PRS_POOL_REFCNT_INC with (2 ^ 52). rewrite u64_small; lia.
Qed.
End headers.

Lemma pool_hdr_split h : 0 ≤ h < 2 ^ 64 →
  ∃ id rc al, 0 ≤ id < 2 ^ 52 ∧ 0 ≤ rc < 2 ^ 11 ∧ 0 ≤ al < 2 ∧ h = pool_hdr id rc al.
Proof.
  intros Hh. exists (h mod 2 ^ 52), (h / 2 ^ 52 mod 2 ^ 11), (h / 2 ^ 63).
  split_and!; try (apply Z.mod_pos_bound; lia); [apply Z.div_pos; lia|apply Z.div_lt_upper_bound; lia|].
  unfold pool_hdr. replace (2 ^ 63) with (2 ^ 52 * 2 ^ 11) by lia.
  rewrite <- Z.div_div by lia. pose proof (Z.div_mod h (2 ^ 52)).
  pose proof (Z.div_mod (h / 2 ^ 52) (2 ^ 11)). lia.
Qed.

Lemma pool_new_header i :
  Z.lor PRS_POOL_ALLOC_MASK (Z.land i PRS_POOL_ID_MASK) = pool_hdr (i mod 2 ^ 52) 0 1.
Proof.
  change PRS_POOL_ALLOC_MASK with (1 * 2 ^ 63). change PRS_POOL_ID_MASK with (2 ^ 52 - 1).
  rewrite land_low by lia. pose proof (Z.mod_pos_bound i (2 ^ 52) ltac:(lia)).
  rewrite lor_high_low by lia. unfold pool_hdr. lia.
Qed.

Lemma pool_first_header id : 0 ≤ id < 2 ^ 52 →
  Z.lor PRS_POOL_REFCNT_INC (pool_hdr id 0 1) = pool_hdr id 1 1.
Proof.
  intros Hid. rewrite Z.lor_comm. apply Z.bits_inj'. intros n Hn.
  unfold pool_hdr. change PRS_POOL_REFCNT_INC with (2 ^ 52).
  replace (1 * 2 ^ 63 + 0 * 2 ^ 52 + id) with (2 ^ 11 * 2 ^ 52 + id) by lia.
  replace (1 * 2 ^ 63 + 1 * 2 ^ 52 + id) with ((2 ^ 11 + 1) * 2 ^ 52 + id) by lia.
  rewrite <- !lor_high_low by lia.
  change ((2 ^ 11 + 1) * 2 ^ 52) with (Z.lor (2 ^ 11 * 2 ^ 52) (2 ^ 52)).
  rewrite !Z.lor_spec. rewrite <- !orb_assoc. f_equal. apply orb_comm.
Qed.

(** [new_header &= ~PRS_POOL_ALLOC_MASK]. *)
Lemma pool_clear_alloc id al : 0 ≤ id < 2 ^ 52 → 0 ≤ al < 2 →
  Z.land (pool_hdr id 0 al) (u64 (Z.lnot PRS_POOL_ALLOC_MASK)) = id.
Proof.
  intros Hid Hal. change (u64 (Z.lnot PRS_POOL_ALLOC_MASK)) with (2 ^ 63 - 1).
  rewrite land_low by lia. unfold pool_hdr. rewrite <- Z.add_assoc, Z.add_comm, Z.mod_add by lia.
  rewrite Z.mod_small; lia.
Qed.

(** ** The representation *)

Section representation.
Context {D : Type} (k : Z) (Hk : 0 < k ≤ 52).
Implicit Types (p : prs_pool D) (m : dirmap D) (e : prs_pool_entry D).

Definition pool_live e : option Z :=
  if pool_header e / 2 ^ 63 =? 0 then None else Some (PRS_POOL_GET_ID (pool_header e)).

Definition pool_ok (i : Z) (d : dentry D) e : Prop :=
  0 ≤ i < 2 ^ 52 ∧
  match d with
  | DEntry (Owned _) _ => pool_header e = pool_hdr i 0 1
  | DEntry (Shared hs) x =>
      x = Published (pool_data e) ∧ (0 < length hs)%nat ∧ Z.of_nat (length hs) < 2 ^ 11 ∧
      pool_header e = pool_hdr i (Z.of_nat (length hs)) 1
  end.

Lemma pool_ok_live i d e : pool_ok i d e → pool_live e = Some i.
Proof using.
  unfold pool_live. destruct d as [[t|hs] x]; intros [Hi H].
  - rewrite H, pool_hdr_high, pool_hdr_id by lia. done.
  - destruct H as (_ & _ & Hl & ->). rewrite pool_hdr_high, pool_hdr_id by lia. done.
Qed.

Definition pool_slot (i : Z) : nat := Z.to_nat (i mod 2 ^ k).

Record pool_shape p : Prop := PoolShape {
  pool_shape_max : pool_max_entries p = 2 ^ k;
  pool_shape_mask : pool_max_entries_mask p = 2 ^ k - 1;
  pool_shape_len : Z.of_nat (length (pool_entries p)) = 2 ^ k;
  pool_shape_hdr : Forall (λ e, 0 ≤ pool_header e < 2 ^ 64) (pool_entries p);
  pool_shape_write : 0 ≤ pool_write_index p < 2 ^ 64
}.

Definition pool_rep p m : Prop :=
  pool_shape p ∧ table_rep pool_slot pool_live pool_ok (pool_entries p) m.

#[export] Instance pool_ops : RefDirOps (prs_pool D) D := {
  rd_alloc d := '(r, id) ← prs_pool_alloc_and_lock d;
                Done (if (r : option Z) then Some id else None);
  rd_lock fuel id := r ← prs_pool_lock fuel id;
                     match (r : option Z) with
                     | Some entry => d ← read (pool_data_cell entry); Done (Some d)
                     | None => Done None
                     end;
  rd_mode := bool * option (D → D);
  rd_try u := u.1;
  rd_unlock fuel u id := prs_pool_unlock_internal fuel id u.1 u.2;
  rd_key i := i;
  rd_valid i := (0 <=? i) && (i <? 2 ^ 52);
  rd_eager := True;
  rd_rep := pool_rep;
  rd_same p p' i := pool_entries p !! pool_slot i = pool_entries p' !! pool_slot i
}.

Lemma pool_entry_exists p i : pool_shape p → ∃ e, pool_entries p !! pool_slot i = Some e.
Proof using Hk.
  intros H. apply lookup_lt_is_Some_2. pose proof (pool_shape_len p H).
  pose proof (Z.mod_pos_bound i (2 ^ k)). unfold pool_slot. lia.
Qed.

Lemma pool_slot_mod i : pool_slot (i mod 2 ^ 52) = pool_slot i.
Proof using Hk. unfold pool_slot. f_equal. apply mod_mod_pow2. lia. Qed.

Lemma pool_slot_range i : 0 ≤ i mod 2 ^ k.
Proof using Hk. apply Z.mod_pos_bound. lia. Qed.

Lemma pool_header_get p i e : pool_entries p !! pool_slot i = Some e →
  cell_get (pool_header_cell (i mod 2 ^ k)) p = Ret (pool_header e).
Proof using Hk. apply array_cell_get, pool_slot_range. Qed.

Lemma pool_header_set p i e v : pool_entries p !! pool_slot i = Some e →
  cell_set (pool_header_cell (i mod 2 ^ k)) v p =
    Ret (pool_set_entries (<[pool_slot i := PoolEntry v (pool_data e)]> (pool_entries p)) p).
Proof using Hk. exact (array_cell_set _ _ _ _ p _ e v (pool_slot_range i)). Qed.

Lemma pool_data_get p i e : pool_entries p !! pool_slot i = Some e →
  cell_get (pool_data_cell (i mod 2 ^ k)) p = Ret (pool_data e).
Proof using Hk. apply array_cell_get, pool_slot_range. Qed.

Lemma pool_data_set p i e v : pool_entries p !! pool_slot i = Some e →
  cell_set (pool_data_cell (i mod 2 ^ k)) v p =
    Ret (pool_set_entries (<[pool_slot i := PoolEntry (pool_header e) v]> (pool_entries p)) p).
Proof using Hk. exact (array_cell_set _ _ _ _ p _ e v (pool_slot_range i)). Qed.

Lemma pool_shape_set p s e :
  pool_shape p → 0 ≤ pool_header e < 2 ^ 64 →
  pool_shape (pool_set_entries (<[s := e]> (pool_entries p)) p).
Proof using.
  intros [H1 H2 H3 H4 H5] He. split; simpl; [done|done|by rewrite length_insert| |done].
  by apply Forall_insert.
Qed.

Lemma pool_shape_entry p s e :
  pool_shape p → pool_entries p !! s = Some e →
  ∃ id rc al, 0 ≤ id < 2 ^ 52 ∧ 0 ≤ rc < 2 ^ 11 ∧ 0 ≤ al < 2 ∧ pool_header e = pool_hdr id rc al.
Proof using.
  intros [_ _ _ H _] He. apply pool_hdr_split. by apply (Forall_lookup_1 _ _ _ _ H He).
Qed.

(** The guarantee, for an action on the entry of ID [i] and on [m !! i] only. *)
Lemma pool_guar t p m p' m' i e e' :
  pool_rep p m → pool_rep p' m' → dir_step t m m' →
  pool_entries p !! pool_slot i = Some e → pool_live e = None ∨ pool_live e = Some i →
  pool_entries p' = <[pool_slot i := e']> (pool_entries p) →
  (∀ t', t' ≠ t → ¬ owned_by t' m i) →
  guar t (p, m) (p', m').
Proof using.
  intros Hrep Hrep' Hstep He Hl Hes Ho. split; [done|]. split; [done|]. split; [done|].
  intros t' j Hne [x Hj]. simpl in *. rewrite Hes, list_lookup_insert_ne; [done|].
  intros Hs. eapply table_slot_other; [apply pool_ok_live|apply Hrep|apply He|apply Hl|apply Hj| |done].
  intros ->. apply (Ho t' Hne). by exists x.
Qed.

Lemma pool_guar_same t p m p' :
  pool_rep p m → pool_rep p' m → pool_entries p' = pool_entries p → guar t (p, m) (p', m).
Proof using.
  intros Hrep Hrep' Hes. split; [done|]. split; [done|]. split; [constructor|].
  intros t' j _ _. simpl. by rewrite Hes.
Qed.

Lemma pool_guar_nop t p m : pool_rep p m → guar t (p, m) (p, m).
Proof using. intros H. by apply pool_guar_same. Qed.

Lemma pool_rely_rep t p m p' m' : rely t (p, m) (p', m') → pool_rep p m → pool_rep p' m'.
Proof using. exact (rely_rep t p m p' m'). Qed.

(** The entry of an ID that [t] owns stays as it is. *)
Lemma pool_rely_owned t p m p' m' i :
  rely t (p, m) (p', m') → owned_by t m i →
  owned_by t m' i ∧ pool_entries p' !! pool_slot i = pool_entries p !! pool_slot i.
Proof using.
  intros HR Ho. split; [by apply (rely_owned t _ _ _ _ _ HR)|]. symmetry.
  refine (rely_same (RefDirOps0 := pool_ops) t p m p' m' i _ _ HR Ho);
    [done|intros c1 c2 c3; simpl; congruence].
Qed.

Lemma rg_pool_get_entry {A : Type} t i (f : Z → prog (prs_pool D) A) Q p m :
  pool_rep p m →
  (∀ p' m', rely t (p, m) (p', m') → pool_rep p' m' →
    rg True True True (rely t) (guar t) (f (i mod 2 ^ k)) Q p' m') →
  rg True True True (rely t) (guar t) (prs_pool_get_entry i ≫= f) Q p m.
Proof using Hk.
  intros Hrep Hf. unfold prs_pool_get_entry. rg_bind. rg_bind_peek.
  intros p1 m1 HR. pose proof (pool_rely_rep _ _ _ _ _ HR Hrep) as Hrep1.
  split; [by apply pool_guar_nop|]. rewrite (pool_shape_mask p1) by apply Hrep1.
  rewrite land_low by lia. apply rg_done. intros p2 m2 HR2. apply Hf.
  - by transitivity (p1, m1).
  - by apply (pool_rely_rep _ _ _ _ _ HR2).
Qed.

(** *** The updates of an entry, on the map *)

Lemma pool_live_hdr e id rc al :
  0 ≤ id < 2 ^ 52 → 0 ≤ rc < 2 ^ 11 → 0 ≤ al < 2 → pool_header e = pool_hdr id rc al →
  pool_live e = if al =? 0 then None else Some id.
Proof using. intros Hid Hrc Hal He. unfold pool_live. by rewrite He, pool_hdr_high, pool_hdr_id. Qed.

(** A live entry takes a new state. *)
Lemma pool_rep_set p m i e e' d :
  pool_rep p m → pool_entries p !! pool_slot i = Some e → pool_live e = None ∨ pool_live e = Some i →
  pool_ok i d e' →
  pool_rep (pool_set_entries (<[pool_slot i := e']> (pool_entries p)) p) (<[i := d]> m).
Proof using.
  intros [Hsh Ht] He Hl Hok. split.
  - apply pool_shape_set; [done|]. destruct d as [[t|hs] x], Hok as [Hi Hh].
    + rewrite Hh. by apply pool_hdr_range.
    + destruct Hh as (_ & _ & Hlen & ->). apply pool_hdr_range; lia.
  - eapply table_set; [apply pool_ok_live|done|done|done|done|done].
Qed.

Lemma pool_rep_unset p m i e e' :
  pool_rep p m → pool_entries p !! pool_slot i = Some e → pool_live e = Some i →
  0 ≤ pool_header e' < 2 ^ 52 →
  pool_rep (pool_set_entries (<[pool_slot i := e']> (pool_entries p)) p) (delete i m).
Proof using.
  intros [Hsh Ht] He Hl He'. split; [apply pool_shape_set; [done|lia]|].
  eapply table_unset; [apply pool_ok_live|done|done|done|].
  unfold pool_live. by rewrite (Z.div_small (pool_header e')) by lia.
Qed.

(** What the entry of a live ID looks like. *)
Lemma pool_rep_entry p m i d :
  pool_rep p m → m !! i = Some d →
  ∃ e, pool_entries p !! pool_slot i = Some e ∧ pool_ok i d e ∧ pool_live e = Some i.
Proof using.
  intros [_ Ht] Hm. destruct (table_lookup _ _ _ _ _ _ _ Ht Hm) as (e & He & Hok).
  exists e. split; [done|]. split; [done|]. by eapply pool_ok_live.
Qed.

(** What the header tests of [prs_pool_lock] establish. *)
Lemma pool_rep_locked p m i e :
  pool_rep p m → pool_entries p !! pool_slot i = Some e →
  PRS_POOL_GET_ID (pool_header e) = i → PRS_POOL_TEST_ALLOC (pool_header e) ≠ 0 →
  PRS_POOL_TEST_REFCNT (pool_header e) ≠ 0 →
  ∃ hs, m !! i = Some (DEntry (Shared hs) (Published (pool_data e))) ∧ 0 ≤ i < 2 ^ 52 ∧
    (0 < length hs)%nat ∧ Z.of_nat (length hs) < 2 ^ 11 ∧
    pool_header e = pool_hdr i (Z.of_nat (length hs)) 1.
Proof using.
  intros [Hsh Ht] He Hid Hal Hrc.
  destruct (pool_shape_entry p _ e Hsh He) as (id & rc & al & Hir & Hrr & Har & Hh).
  rewrite Hh in Hid, Hal, Hrc. rewrite pool_hdr_id in Hid by done. subst id.
  rewrite pool_hdr_alloc in Hal by done. rewrite pool_hdr_refcnt in Hrc by done.
  pose proof (pool_live_hdr e i rc al Hir Hrr Har Hh) as Hl.
  rewrite (proj2 (Z.eqb_neq al 0)) in Hl by lia.
  destruct (table_live _ _ _ _ _ _ _ _ Ht He Hl) as (d & Hm & Hi & Hok).
  destruct d as [[t|hs] x].
  - rewrite Hh in Hok. unfold pool_hdr in Hok. lia.
  - destruct Hok as (-> & Hpos & Hlen & Hh'). by exists hs.
Qed.
End representation.

(** ** The pool implements the contract *)

Section contract.
Context {D : Type} (k : Z) (Hk : 0 < k ≤ 52).
Implicit Types (p : prs_pool D) (m : dirmap D) (e : prs_pool_entry D).
#[local] Existing Instance pool_ops.
#[local] Abbreviation rep := (pool_rep k).
#[local] Abbreviation ops := (pool_ops (D := D) k).
#[local] Abbreviation rel := (rely (RefDirOps0 := ops)).
#[local] Abbreviation gua := (guar (RefDirOps0 := ops)).

Lemma pool_same t p m p' m' : rel t (p, m) (p', m') → held_same t m m'.
Proof using. exact (held_same_rely t p m p' m'). Qed.

Definition pool_alloc_post (t : nat) m0 (r : option Z * Z) p' m' : Prop :=
  rep p' m' ∧ held_same t m0 m' ∧
  match r with
  | (Some entry, i) => entry = i mod 2 ^ k ∧ 0 ≤ i ∧ owned_by t m' (i mod 2 ^ 52)
  | (None, i) => i = PRS_POOL_ID_INVALID
  end.

Lemma pool_alloc_loop_rg t m0 n i p m :
  rep p m → held_same t m0 m → 0 ≤ i → i + Z.of_nat n < 2 ^ 64 →
  rg True True True (rel t) (gua t) (prs_pool_alloc_loop n i) (pool_alloc_post t m0) p m.
Proof using Hk.
  revert i p m. induction n as [|n IH]; intros i p m Hrep Hsame Hi Hn.
  - apply rg_done. intros p1 m1 HR. split; [by apply (pool_rely_rep _ _ _ _ _ _ HR)|].
    split; [|done]. eapply held_same_trans; [done|by eapply pool_same].
  - cbn [prs_pool_alloc_loop]. apply rg_pool_get_entry; [done|done|]. intros p1 m1 HR1 Hrep1.
    rg_bind_load. intros p2 m2 HR2. pose proof (pool_rely_rep _ _ _ _ _ _ HR2 Hrep1) as Hrep2.
    destruct (pool_entry_exists k Hk p2 i) as [e He]; [apply Hrep2|].
    exists (pool_header e). split; [by apply pool_header_get|]. split; [by apply pool_guar_nop|].
    assert (held_same t m0 m2) as Hsame2.
    { apply (held_same_trans _ _ _ _ Hsame). eapply held_same_trans; by eapply pool_same. }
    assert (∀ p3 m3, rel t (p2, m2) (p3, m3) →
      rg True True True (rel t) (gua t) (prs_pool_alloc_loop n (i + 1)) (pool_alloc_post t m0) p3 m3) as Hnext.
    { intros p3 m3 HR3. apply IH; [by apply (pool_rely_rep _ _ _ _ _ _ HR3)| |lia..].
      eapply held_same_trans; [done|by eapply pool_same]. }
    destruct (truthy _) eqn:Hal; [by apply Hnext|]. apply truthy_false in Hal.
    destruct (Z.eqb_spec (PRS_POOL_GET_ID (pool_header e)) i) as [Hid|Hid]; [by apply Hnext|].
    rg_bind_cas_strong. intros p3 m3 HR3.
    pose proof (pool_rely_rep _ _ _ _ _ _ HR3 Hrep2) as Hrep3.
    destruct (pool_entry_exists k Hk p3 i) as [e3 He3]; [apply Hrep3|].
    exists (pool_header e3). split; [by apply pool_header_get|].
    case_decide as Heq; cbn [negb]; [|split; [by apply pool_guar_nop|by apply Hnext]].
    rewrite <- Heq in Hal. rewrite pool_new_header.
    pose proof (Z.mod_pos_bound i (2 ^ 52) ltac:(lia)) as Hir.
    assert (pool_live e3 = None) as Hl.
    { destruct (pool_shape_entry k p3 _ e3 (proj1 Hrep3) He3) as (id & rc & al & H1 & H2 & H3 & Hh).
      rewrite Hh, pool_hdr_alloc in Hal by done.
      rewrite (pool_live_hdr e3 id rc al) by done. by rewrite (proj2 (Z.eqb_eq al 0)) by lia. }
    rewrite <- (pool_slot_mod k Hk i) in He3.
    assert (m3 !! (i mod 2 ^ 52) = None) as Hnone.
    { eapply (table_not_live (pool_slot k) pool_live pool_ok pool_ok_live);
        [apply Hrep3|done|done|by rewrite Hl]. }
    pose proof (pool_rep_set k p3 m3 (i mod 2 ^ 52) e3
      (PoolEntry (pool_hdr (i mod 2 ^ 52) 0 1) (pool_data e3))
      (DEntry (Owned t) (Unpublished t)) Hrep3 He3 (or_introl Hl) (conj Hir eq_refl)) as Hrep4.
    rewrite (pool_slot_mod k Hk i) in Hrep4, He3.
    eexists. eexists. split; [by apply pool_header_set|]. split.
    { eapply pool_guar; [done|exact Hrep4|by apply dir_reserve|by rewrite pool_slot_mod|by left| |].
      - by rewrite pool_slot_mod.
      - intros t' _. by apply absent_not_owned. }
    rg_bind_store. intros p5 m5 HR5. pose proof (pool_rely_rep _ _ _ _ _ _ HR5 Hrep4) as Hrep5.
    eexists _, m5. split; [reflexivity|].
    assert (rep (pool_set_write_index (u64 (i + 1)) p5) m5) as Hrep5'.
    { destruct Hrep5 as [[] ?]. split; [split|]; try done. apply u64_range. }
    split; [by apply pool_guar_same|]. apply rg_done. intros p6 m6 HR6.
    split; [by apply (pool_rely_rep _ _ _ _ _ _ HR6)|]. split.
    + apply (held_same_trans _ _ _ _ Hsame2). eapply held_same_trans; [by eapply pool_same|].
      eapply held_same_trans; [by apply held_same_reserve|].
      eapply held_same_trans; by eapply pool_same.
    + split; [done|]. split; [done|]. apply (rely_owned t _ _ _ _ _ HR6), (rely_owned t _ _ _ _ _ HR5).
      exists (Unpublished t). by rewrite lookup_insert_eq.
Qed.

Lemma pool_alloc_rg t p m :
  rep p m → rg True True True (rel t) (gua t) prs_pool_alloc (pool_alloc_post t m) p m.
Proof using Hk.
  intros Hrep. unfold prs_pool_alloc. rg_bind_load. intros p1 m1 HR1.
  pose proof (pool_rely_rep _ _ _ _ _ _ HR1 Hrep) as Hrep1.
  exists (pool_write_index p1). split; [done|]. split; [by apply pool_guar_nop|].
  rg_bind_peek. intros p2 m2 HR2. pose proof (pool_rely_rep _ _ _ _ _ _ HR2 Hrep1) as Hrep2.
  split; [by apply pool_guar_nop|].
  pose proof (pool_shape_write k p1 (proj1 Hrep1)).
  pose proof (u64_range (pool_write_index p1 + pool_max_entries p2)).
  apply pool_alloc_loop_rg; [done| |lia|lia].
  eapply held_same_trans; by eapply pool_same.
Qed.

(** The entry of an ID that [t] owns, now and after the others have moved. *)
Lemma pool_owned_entry t p m i e p' m' :
  rep p m → owned_by t m (i mod 2 ^ 52) → pool_entries p !! pool_slot k i = Some e →
  rel t (p, m) (p', m') →
  rep p' m' ∧ owned_by t m' (i mod 2 ^ 52) ∧ pool_entries p' !! pool_slot k i = Some e ∧
  pool_header e = pool_hdr (i mod 2 ^ 52) 0 1.
Proof using Hk.
  intros Hrep Ho He HR. split; [by apply (pool_rely_rep _ _ _ _ _ _ HR)|].
  destruct (pool_rely_owned k t p m p' m' _ HR Ho) as [Ho' Hes].
  rewrite pool_slot_mod, He in Hes by done. split; [done|]. split; [done|].
  destruct Ho as [x Hm]. destruct (pool_rep_entry k p m _ _ Hrep Hm) as (e' & He' & [_ Hh] & _).
  rewrite pool_slot_mod, He in He' by done. by simplify_eq.
Qed.

(** The owner of an entry writes its data, or its header for the first lock. *)
Lemma pool_owned_write t p m i e v :
  rep p m → owned_by t m (i mod 2 ^ 52) → pool_entries p !! pool_slot k i = Some e →
  let p' := pool_set_entries (<[pool_slot k i := PoolEntry (pool_header e) v]> (pool_entries p)) p in
  rep p' m ∧ gua t (p, m) (p', m).
Proof using Hk.
  intros Hrep Ho He p'. destruct (pool_owned_entry t p m i e p m Hrep Ho He) as (_ & _ & _ & Hh);
    [reflexivity|].
  pose proof (Z.mod_pos_bound i (2 ^ 52) ltac:(lia)) as Hir.
  assert (pool_live e = Some (i mod 2 ^ 52)) as Hl by (by rewrite (pool_live_hdr e (i mod 2 ^ 52) 0 1)).
  pose proof Ho as [x Hm]. rewrite <- (pool_slot_mod k Hk i) in He.
  assert (rep p' m) as Hrep'.
  { pose proof (pool_rep_set k p m (i mod 2 ^ 52) e (PoolEntry (pool_header e) v)
      (DEntry (Owned t) x) Hrep He (or_intror Hl) (conj Hir Hh)) as H.
    rewrite (insert_id m) in H by done. by rewrite pool_slot_mod in H by done. }
  split; [done|]. eapply pool_guar; [done|done|constructor|exact He|by right| |].
  - unfold p'. by rewrite (pool_slot_mod k Hk i).
  - intros t'. by apply owned_not_other.
Qed.

Lemma pool_lock_first_rg t p m i e :
  rep p m → owned_by t m (i mod 2 ^ 52) → pool_entries p !! pool_slot k i = Some e →
  rg True True True (rel t) (gua t) (prs_pool_lock_first i)
    (λ _ p' m', rep p' m' ∧
      if (0 <=? i) && (i <? 2 ^ 52)
      then held_plus t m m' i ∧ object_of m' i = Some (pool_data e)
      else held_same t m m' ∧ owned_by t m' (i mod 2 ^ 52)) p m.
Proof using Hk.
  intros Hrep Ho He. pose proof (Z.mod_pos_bound i (2 ^ 52) ltac:(lia)) as Hir.
  unfold prs_pool_lock_first. apply rg_pool_get_entry; [done|done|]. intros p1 m1 HR1 Hrep1.
  rg_bind_load. intros p2 m2 HR2.
  assert (rel t (p, m) (p2, m2)) as HR02 by (by transitivity (p1, m1)).
  destruct (pool_owned_entry t p m i e p2 m2 Hrep Ho He HR02) as (Hrep2 & Ho2 & He2 & Hh).
  exists (pool_header e). split; [by apply pool_header_get|]. split; [by apply pool_guar_nop|].
  rewrite Hh, pool_hdr_id, pool_hdr_alloc, pool_hdr_refcnt by lia.
  change (truthy (1 * 2 ^ 63)) with true. change (truthy (0 * 2 ^ 52)) with false. cbn [negb].
  destruct (Z.eqb_spec (i mod 2 ^ 52) i) as [Heq|Hne]; cbn [negb].
  - assert ((0 <=? i) && (i <? 2 ^ 52) = true) as -> by lia.
    rg_bind_cas_strong. intros p3 m3 HR3.
    assert (rel t (p, m) (p3, m3)) as HR03 by (by transitivity (p2, m2)).
    destruct (pool_owned_entry t p m i e p3 m3 Hrep Ho He HR03) as (Hrep3 & Ho3 & He3 & _).
    exists (pool_header e). split; [by apply pool_header_get|]. rewrite decide_True by done.
    rewrite pool_first_header by lia. rewrite Heq in *.
    assert (pool_live e = Some i) as Hl by (by rewrite (pool_live_hdr e i 0 1)).
    pose proof (pool_rep_set k p3 m3 i e (PoolEntry (pool_hdr i 1 1) (pool_data e))
      (DEntry (Shared [t]) (Published (pool_data e))) Hrep3 He3 (or_intror Hl)) as Hrep4.
    eexists. eexists. split; [by apply pool_header_set|].
    assert (rep _ _) as Hrep4' by (apply Hrep4; split; [done|simpl; split_and!; done || lia]).
    split.
    { destruct Ho3 as [x Hm3]. eapply pool_guar; [done|exact Hrep4'|by eapply dir_first|done|by right|done|].
      intros t'. apply owned_not_other. by exists x. }
    apply rg_done. intros p5 m5 HR5. split; [by apply (pool_rely_rep _ _ _ _ _ _ HR5)|].
    assert (held_plus t m (<[i:=DEntry (Shared [t]) (Published (pool_data e))]> m3) i) as Hp.
    { apply held_plus_first; [|done]. by eapply pool_same. }
    split; [eapply held_plus_same; [done|by eapply pool_same]|].
    apply (rely_object t _ _ _ _ _ _ HR5).
    + rewrite Hp, decide_True by done. lia.
    + unfold object_of. by rewrite lookup_insert_eq.
  - assert ((0 <=? i) && (i <? 2 ^ 52) = false) as ->.
    { destruct ((0 <=? i) && (i <? 2 ^ 52)) eqn:Hb; [|done]. rewrite Z.mod_small in Hne; lia. }
    apply rg_done. intros p3 m3 HR3. split; [by apply (pool_rely_rep _ _ _ _ _ _ HR3)|].
    split; [eapply pool_same; by transitivity (p2, m2)|].
    by apply (rely_owned t _ _ _ _ _ HR3).
Qed.

Lemma pool_alloc_and_lock_rg t p m d :
  rep p m →
  rg True True True (rel t) (gua t) (prs_pool_alloc_and_lock d)
    (λ r p' m', rep p' m' ∧
      match r with
      | (Some entry, i) => entry = i mod 2 ^ k ∧
          if (0 <=? i) && (i <? 2 ^ 52) then held_plus t m m' i ∧ object_of m' i = Some d
          else held_same t m m'
      | (None, i) => held_same t m m'
      end) p m.
Proof using Hk.
  intros Hrep. unfold prs_pool_alloc_and_lock. rg_bind.
  eapply rg_mono; [|by apply pool_alloc_rg]. intros [[entry|] i] p1 m1 (Hrep1 & Hs1 & H1).
  - destruct H1 as (-> & Hi & Ho1). rg_bind_store. intros p2 m2 HR2.
    destruct (pool_entry_exists k Hk p1 i) as [e He]; [apply Hrep1|].
    destruct (pool_owned_entry t p1 m1 i e p2 m2 Hrep1 Ho1 He HR2) as (Hrep2 & Ho2 & He2 & Hh).
    destruct (pool_owned_write t p2 m2 i e d Hrep2 Ho2 He2) as [Hrep3 Hg].
    eexists _, m2. split; [by apply pool_data_set|]. split; [exact Hg|].
    rg_bind. eapply rg_mono; [|apply (pool_lock_first_rg t _ m2 i (PoolEntry (pool_header e) d))];
      [|done|done|by apply list_lookup_insert_eq; eapply lookup_lt_Some].
    intros [] p3 m3 [Hrep4 H3]. apply rg_done. intros p4 m4 HR4.
    split; [by apply (pool_rely_rep _ _ _ _ _ _ HR4)|]. split; [done|].
    assert (held_same t m m2) as Hs2 by (eapply held_same_trans; [done|by eapply pool_same]).
    destruct (_ && _).
    + destruct H3 as [Hp Hob]. split.
      * intros j. by rewrite (pool_same _ _ _ _ _ HR4), Hp, Hs2.
      * apply (rely_object t _ _ _ _ _ _ HR4); [|done]. rewrite Hp, decide_True by done. lia.
    + destruct H3 as [H3 _]. eapply held_same_trans; [done|].
      eapply held_same_trans; [done|by eapply pool_same].
  - apply rg_done. intros p2 m2 HR2. split; [by apply (pool_rely_rep _ _ _ _ _ _ HR2)|].
    eapply held_same_trans; [done|by eapply pool_same].
Qed.

(** [prs_pool_lock]: the entry that is returned is live, published and held. *)
Lemma pool_lock_rg t fuel i p m :
  rep p m →
  rg True True True (rel t) (gua t) (prs_pool_lock fuel i)
    (λ r p' m', rep p' m' ∧
      match r with
      | Some entry => entry = i mod 2 ^ k ∧ held_plus t m m' i ∧ is_Some (object_of m' i)
      | None => held_same t m m'
      end) p m.
Proof using Hk.
  intros Hrep. unfold prs_pool_lock. destruct (Z.eqb_spec i PRS_POOL_ID_INVALID) as [|Hinv].
  { apply rg_done. intros p1 m1 HR. split; [by apply (pool_rely_rep _ _ _ _ _ _ HR)|].
    by eapply pool_same. }
  apply rg_pool_get_entry; [done|done|]. intros p1 m1 HR1 Hrep1.
  rg_bind_load. intros p2 m2 HR2. pose proof (pool_rely_rep _ _ _ _ _ _ HR2 Hrep1) as Hrep2.
  destruct (pool_entry_exists k Hk p2 i) as [e He]; [apply Hrep2|].
  exists (pool_header e). split; [by apply pool_header_get|]. split; [by apply pool_guar_nop|].
  assert (∀ p4 m4, rel t (p2, m2) (p4, m4) → rep p4 m4 ∧ held_same t m m4) as Hout.
  { intros p4 m4 HR4. split; [by apply (pool_rely_rep _ _ _ _ _ _ HR4)|].
    eapply pool_same. transitivity (p1, m1); [done|]. by transitivity (p2, m2). }
  rg_cas_weak_loop.
  - intros p3 m3 HR3. apply pool_guar_nop. by apply (pool_rely_rep _ _ _ _ _ _ HR3).
  - intros p3 m3 HR3. destruct (Hout p3 m3 HR3) as [Hrep3 Hs3].
    destruct (pool_entry_exists k Hk p3 i) as [e3 He3]; [apply Hrep3|].
    exists (pool_header e3). split; [by apply pool_header_get|].
    assert (∀ p4 m4, rel t (p3, m3) (p4, m4) → rep p4 m4 ∧ held_same t m m4) as Hout3.
    { intros p4 m4 HR4. apply Hout. by transitivity (p3, m3). }
    destruct (Z.eqb_spec (PRS_POOL_GET_ID (pool_header e3)) i) as [Hid|]; [|done]. cbn [negb].
    destruct (truthy (PRS_POOL_TEST_ALLOC _)) eqn:Hal; [|done]. apply truthy_true in Hal. cbn [negb].
    destruct (truthy _) eqn:Hrc; [|done]. apply truthy_true in Hrc. cbn [negb].
    destruct (Z.eqb_spec (PRS_POOL_TEST_REFCNT (pool_header e3)) PRS_POOL_REFCNT_MASK) as [|Hmax]; [done|].
    destruct (pool_rep_locked k p3 m3 i e3 Hrep3 He3 Hid Hal Hrc) as (hs & Hm3 & Hi & Hpos & Hlt & Hh).
    rewrite Hh, pool_hdr_refcnt in Hmax by lia.
    change PRS_POOL_REFCNT_MASK with ((2 ^ 11 - 1) * 2 ^ 52) in Hmax.
    assert (pool_live e3 = Some i) as Hl by (rewrite (pool_live_hdr e3 i (Z.of_nat (length hs)) 1); [done|lia..|done]).
    assert (u64 (pool_header e3 + PRS_POOL_REFCNT_INC) = pool_hdr i (Z.of_nat (length hs) + 1) 1) as ->
      by (rewrite Hh; apply pool_hdr_lock; lia).
    pose proof (pool_rep_set k p3 m3 i e3 (PoolEntry (pool_hdr i (Z.of_nat (length hs) + 1) 1) (pool_data e3))
      (DEntry (Shared (t :: hs)) (Published (pool_data e3))) Hrep3 He3 (or_intror Hl)) as Hrep4.
    assert (rep _ _) as Hrep4' by (apply Hrep4; split; [done|]; cbn [length pool_header pool_data];
      split_and!; [done|lia|lia|f_equal; lia]).
    eexists. eexists. split; [by apply pool_header_set|]. split.
    { eapply pool_guar; [done|exact Hrep4'|by apply dir_lock|done|by right|done|].
      intros t' _. by eapply shared_not_owned. }
    intros p5 m5 HR5. split; [by apply (pool_rely_rep _ _ _ _ _ _ HR5)|].
    assert (held_plus t m (<[i:=DEntry (Shared (t :: hs)) (Published (pool_data e3))]> m3) i) as Hp
      by (by apply held_plus_one).
    split; [done|]. split; [eapply held_plus_same; [done|by eapply pool_same]|].
    exists (pool_data e3). apply (rely_object t _ _ _ _ _ _ HR5).
    + rewrite Hp, decide_True by done. lia.
    + unfold object_of. by rewrite lookup_insert_eq.
  - repeat (match goal with |- context [if ?b then _ else _] => destruct b end; try done);
      by apply Hout.
Qed.

(** The data that a holder reads is the published object. *)
Lemma pool_published_data t p m i x :
  rep p m → (0 < held t m i)%nat → object_of m i = Some x →
  ∃ e, pool_entries p !! pool_slot k i = Some e ∧ pool_data e = x.
Proof using.
  intros Hrep Hh Ho. apply held_pos in Hh as (hs & c & Hm & _).
  destruct (pool_rep_entry k p m i _ Hrep Hm) as (e & He & [_ Hok] & _). exists e. split; [done|].
  destruct Hok as (-> & _). unfold object_of in Ho. rewrite Hm in Ho. by simplify_eq.
Qed.

(** The exchange of [prs_pool_unlock_internal] by a holder: how the header and
    the map look before and after it. *)
Lemma pool_unlock_entry t p m i :
  rep p m → (0 < held t m i)%nat →
  ∃ e hs, pool_entries p !! pool_slot k i = Some e ∧
    m !! i = Some (DEntry (Shared hs) (Published (pool_data e))) ∧ t ∈ hs ∧
    0 ≤ i < 2 ^ 52 ∧ Z.of_nat (length hs) < 2 ^ 11 ∧ pool_live e = Some i ∧
    pool_header e = pool_hdr i (Z.of_nat (length hs)) 1.
Proof using.
  intros Hrep Hh. apply held_pos in Hh as (hs & x & Hm & Hin).
  destruct (pool_rep_entry k p m i _ Hrep Hm) as (e & He & [Hi (-> & Hpos & Hlt & Hh)] & Hl).
  exists e, hs. done.
Qed.

(** What the body decides on the header that a holder finds, and its effect. *)
Lemma pool_unlock_step t p m i try_final has_destructor :
  rep p m → (0 < held t m i)%nat →
  ∃ e, pool_entries p !! pool_slot k i = Some e ∧
    match pool_unlock_body i try_final has_destructor (pool_header e) with
    | inl r => r = None ∧ try_final = true
    | inr (new, r) => r = Some (PRS_POOL_TEST_REFCNT (pool_header e) =? PRS_POOL_REFCNT_INC, new) ∧
        let p' := pool_set_entries (<[pool_slot k i := PoolEntry new (pool_data e)]> (pool_entries p)) p in
        (PRS_POOL_TEST_REFCNT (pool_header e) =? PRS_POOL_REFCNT_INC) || negb try_final = true ∧
        ∃ m', rep p' m' ∧ gua t (p, m) (p', m') ∧ held_minus t m m' i ∧
          ((PRS_POOL_TEST_REFCNT (pool_header e) =? PRS_POOL_REFCNT_INC) && has_destructor = true →
            owned_by t m' i ∧ new = pool_hdr i 0 1)
    end.
Proof using Hk.
  intros Hrep Hheld.
  destruct (pool_unlock_entry t p m i Hrep Hheld) as (e & hs & He & Hm & Hin & Hi & Hlt & Hl & Hh).
  exists e. split; [done|]. pose proof (length_drop_ref t hs Hin) as Hlen.
  unfold pool_unlock_body. rewrite Hh, pool_hdr_id, pool_hdr_alloc, pool_hdr_refcnt, Z.eqb_refl by lia.
  change (truthy (1 * 2 ^ 63)) with true. cbn [negb]. rewrite (proj2 (truthy_true _)) by lia.
  cbn [negb]. rewrite pool_hdr_unlock by lia. change PRS_POOL_REFCNT_INC with (1 * 2 ^ 52).
  assert (∀ t', t' ≠ t → ¬ owned_by t' m i) as Hno by (intros t' _; by eapply shared_not_owned).
  destruct (Z.eqb_spec (Z.of_nat (length hs) * 2 ^ 52) (1 * 2 ^ 52)) as [H1|H1].
  - assert (drop_ref t hs = []) as Hnil by (apply length_zero_iff_nil; lia).
    pose proof (drop_ref_nil t hs Hin Hnil) as ->. cbn [length]. rewrite andb_false_r.
    change (Z.of_nat 1 - 1) with 0. destruct has_destructor; cbn [andb negb].
    + split; [done|]. split; [done|]. exists (<[i := DEntry (Owned t) (Published (pool_data e))]> m).
      pose proof (pool_rep_set k p m i e (PoolEntry (pool_hdr i 0 1) (pool_data e))
        (DEntry (Owned t) (Published (pool_data e))) Hrep He (or_intror Hl) (conj Hi eq_refl)) as Hrep'.
      split; [done|]. split; [|split; [by eapply held_minus_retire|]].
      * eapply pool_guar; [done|done|by eapply dir_retire|done|by right|done|done].
      * intros _. split; [|done]. exists (Published (pool_data e)). by rewrite lookup_insert_eq.
    + rewrite pool_clear_alloc by lia. split; [done|]. split; [done|]. exists (delete i m).
      pose proof (pool_rep_unset k p m i e (PoolEntry i (pool_data e)) Hrep He Hl Hi) as Hrep'.
      split; [done|]. split; [|split; [by eapply held_minus_delete|done]].
      eapply pool_guar; [done|done|by eapply dir_last|done|by right|done|done].
  - cbn [negb andb]. rewrite andb_true_r. destruct try_final; [done|].
    split; [done|]. split; [done|].
    exists (<[i := DEntry (Shared (drop_ref t hs)) (Published (pool_data e))]> m).
    assert (0 < length (drop_ref t hs))%nat by lia.
    assert (Z.of_nat (length hs) - 1 = Z.of_nat (length (drop_ref t hs))) as -> by lia.
    pose proof (pool_rep_set k p m i e (PoolEntry (pool_hdr i (Z.of_nat (length (drop_ref t hs))) 1) (pool_data e))
      (DEntry (Shared (drop_ref t hs)) (Published (pool_data e))) Hrep He (or_intror Hl)) as Hrep'.
    assert (rep _ _) as Hrep'' by (apply Hrep'; split; [done|]; split_and!; done || (simpl; lia)).
    split; [done|]. split; [|split; [by eapply held_minus_drop|done]].
    eapply pool_guar; [done|done|eapply dir_unlock; [done|done|]|done|by right|done|done].
    intros ->. simpl in *. lia.
Qed.

(** After the last reference is dropped: the destructor, and the final exchange. *)
Lemma pool_destroy_rg t p m i (f : D → D) m0 :
  rep p m → owned_by t m i → 0 ≤ i < 2 ^ 52 → held_minus t m0 m i →
  rg True True True (rel t) (gua t)
    (data ← read (pool_data_cell (i mod 2 ^ k));
     write (pool_data_cell (i mod 2 ^ k)) (f data);;
     '(result, _) ← prs_pal_atomic_compare_exchange_strong (pool_header_cell (i mod 2 ^ k))
       (pool_hdr i 0 1) (Z.land (pool_hdr i 0 1) PRS_POOL_ID_MASK);
     if negb result then Done false else Done true)
    (λ r p' m', rep p' m' ∧ r = true ∧ held_minus t m0 m' i) p m.
Proof using Hk.
  intros Hrep Ho Hi Hm. assert (i mod 2 ^ 52 = i) as Hmod by (apply Z.mod_small; lia).
  destruct (pool_entry_exists k Hk p i) as [e He]; [apply Hrep|].
  rewrite <- Hmod in Ho.
  rg_bind_load. intros p1 m1 HR1.
  destruct (pool_owned_entry t p m i e p1 m1 Hrep Ho He HR1) as (Hrep1 & Ho1 & He1 & Hh).
  exists (pool_data e). split; [by apply pool_data_get|]. split; [by apply pool_guar_nop|].
  rg_bind_store. intros p2 m2 HR2.
  destruct (pool_owned_entry t p1 m1 i e p2 m2 Hrep1 Ho1 He1 HR2) as (Hrep2 & Ho2 & He2 & _).
  destruct (pool_owned_write t p2 m2 i e (f (pool_data e)) Hrep2 Ho2 He2) as [Hrep3 Hg].
  eexists _, m2. split; [by apply pool_data_set|]. split; [exact Hg|].
  assert (∀ v, <[pool_slot k i := v]> (pool_entries p2) !! pool_slot k i = Some v) as He3
    by (intros v; apply list_lookup_insert_eq; by eapply lookup_lt_Some).
  rg_bind_cas_strong. intros p4 m4 HR4.
  destruct (pool_owned_entry t _ m2 i _ p4 m4 Hrep3 Ho2 (He3 _) HR4) as (Hrep4 & Ho4 & He4 & Hh4).
  eexists. split; [by apply pool_header_get|]. rewrite Hmod in *.
  rewrite Hh4, decide_True by done. eexists _, (delete i m4). split; [by apply pool_header_set|].
  change (Z.land (pool_hdr i 0 1) PRS_POOL_ID_MASK) with (PRS_POOL_GET_ID (pool_hdr i 0 1)).
  rewrite pool_hdr_id by done.
  assert (pool_live (PoolEntry (pool_header e) (f (pool_data e))) = Some i) as Hl.
  { by apply (pool_live_hdr _ i 0 1). }
  pose proof (pool_rep_unset k p4 m4 i _ (PoolEntry i (f (pool_data e))) Hrep4 He4 Hl Hi) as Hrep5.
  split.
  { pose proof Ho4 as [x Hx]. eapply pool_guar; [done|exact Hrep5|by eapply dir_free|done|by right|done|].
    intros t'. by apply owned_not_other. }
  cbn [negb]. apply rg_done. intros p6 m6 HR6.
  split; [by apply (pool_rely_rep _ _ _ _ _ _ HR6)|]. split; [done|].
  eapply held_minus_same; [done|]. eapply held_same_trans; [by eapply pool_same|].
  eapply held_same_trans; [by eapply pool_same|]. eapply held_same_trans; [by eapply pool_same|].
  eapply held_same_trans; [by apply held_same_free|]. by eapply pool_same.
Qed.

Lemma pool_unlock_internal_rg t fuel i try_final destructor p m :
  rep p m → (0 < held t m i)%nat →
  rg True True True (rel t) (gua t) (prs_pool_unlock_internal fuel i try_final destructor)
    (λ r p' m', rep p' m' ∧
      if try_final && negb r then held_same t m m' else held_minus t m m' i) p m.
Proof using Hk.
  intros Hrep Hheld. unfold prs_pool_unlock_internal.
  destruct (pool_unlock_entry t p m i Hrep Hheld) as (_ & _ & _ & _ & _ & Hi & _).
  rewrite (proj2 (Z.eqb_neq i PRS_POOL_ID_INVALID))
    by (change PRS_POOL_ID_INVALID with (2 ^ 64 - 1); lia).
  apply rg_pool_get_entry; [done|done|]. intros p1 m1 HR1 Hrep1.
  rg_bind_load. intros p2 m2 HR2. pose proof (pool_rely_rep _ _ _ _ _ _ HR2 Hrep1) as Hrep2.
  set (hd := if destructor then true else false).
  assert (∀ p3 m3, rel t (p2, m2) (p3, m3) →
    rep p3 m3 ∧ held_same t m m3 ∧ (0 < held t m3 i)%nat) as Hout.
  { intros p3 m3 HR3. split; [by apply (pool_rely_rep _ _ _ _ _ _ HR3)|].
    assert (held_same t m m3) as Hs; [|by rewrite Hs].
    eapply pool_same. transitivity (p1, m1); [done|]. by transitivity (p2, m2). }
  destruct (Hout p2 m2 ltac:(reflexivity)) as (_ & Hs2 & Hh2).
  destruct (pool_unlock_step t p2 m2 i try_final hd Hrep2 Hh2) as (e & He & Hbody).
  exists (pool_header e). split; [by apply pool_header_get|]. split; [by apply pool_guar_nop|].
  rg_bind. eapply rg_mono with (Q := λ r p' m', rep p' m' ∧
    match r with
    | None => try_final = true ∧ held_same t m m'
    | Some (last, new) => last || negb try_final = true ∧ held_minus t m m' i ∧
        (last && hd = true → owned_by t m' i ∧ new = pool_hdr i 0 1)
    end).
  - intros [[last new]|] p3 m3 [Hrep3 H3].
    + destruct H3 as (Hlast & Hm3 & Ho3).
      assert (rg True True True (rel t) (gua t) (Done last) (λ r p' m', rep p' m' ∧
        if try_final && negb r then held_same t m m' else held_minus t m m' i) p3 m3) as Hdone.
      { apply rg_done. intros p4 m4 HR4. split; [by apply (pool_rely_rep _ _ _ _ _ _ HR4)|].
        destruct last, try_final; try done; by (eapply held_minus_same; [done|by eapply pool_same]). }
      destruct last, destructor as [f|]; try exact Hdone.
      destruct (Ho3 eq_refl) as [Ho ->]. eapply rg_mono; [|by apply pool_destroy_rg].
      intros r p4 m4 (Hrep4 & -> & Hm4). cbn [negb]. by rewrite andb_false_r.
    + destruct H3 as [-> Hs3]. apply rg_done. intros p4 m4 HR4.
      split; [by apply (pool_rely_rep _ _ _ _ _ _ HR4)|]. cbn [negb andb].
      eapply held_same_trans; [done|by eapply pool_same].
  - assert (∀ p3 m3 p4 m4, rel t (p2, m2) (p3, m3) → rel t (p3, m3) (p4, m4) →
      rep p4 m4 ∧ held_same t m m4) as Hout2.
    { intros p3 m3 p4 m4 HR3 HR4. destruct (Hout p4 m4) as (H1 & H2 & _); [by transitivity (p3, m3)|done]. }
    rg_cas_weak_loop.
    + intros p3 m3 HR3. apply pool_guar_nop. by apply (Hout p3 m3).
    + intros p3 m3 HR3. destruct (Hout p3 m3 HR3) as (Hrep3 & Hs3 & Hh3).
      destruct (pool_unlock_step t p3 m3 i try_final hd Hrep3 Hh3) as (e3 & He3 & Hbody3).
      exists (pool_header e3). split; [by apply pool_header_get|].
      destruct (pool_unlock_body i try_final hd (pool_header e3)) as [r|[new r]].
      * destruct Hbody3 as [-> ->]. intros p4 m4 HR4.
        destruct (Hout2 p3 m3 p4 m4 HR3 HR4) as [Hr4 Hs4]. done.
      * destruct Hbody3 as (-> & Hlast & m' & Hrep' & Hg & Hm' & Ho').
        eexists _, m'. split; [by apply pool_header_set|]. split; [exact Hg|].
        intros p4 m4 HR4. split; [by apply (pool_rely_rep _ _ _ _ _ _ HR4)|]. split; [done|].
        split.
        -- eapply held_same_minus; [done|]. eapply held_minus_same; [done|by eapply pool_same].
        -- intros Hb. destruct (Ho' Hb) as [Ho ->]. split; [|done]. by apply (rely_owned t _ _ _ _ _ HR4).
    + destruct (pool_unlock_body i try_final hd (pool_header e)) as [r|[new r]]; [|done].
      destruct Hbody as [-> ->]. intros p4 m4 HR4.
      destruct (Hout2 p2 m2 p4 m4 ltac:(reflexivity) HR4) as [Hr4 Hs4]. done.
Qed.

(** [prs_pool_free], by the thread that allocated the entry and never locked it. *)
Lemma pool_free_rg t i p m :
  rep p m → 0 ≤ i < 2 ^ 52 → owned_by t m i →
  rg True True True (rel t) (gua t) (prs_pool_free i) (λ _ p' m', rep p' m' ∧ held_same t m m') p m.
Proof using Hk.
  intros Hrep Hi Ho. assert (i mod 2 ^ 52 = i) as Hmod by (apply Z.mod_small; lia).
  rewrite <- Hmod in Ho. destruct (pool_entry_exists k Hk p i) as [e He]; [apply Hrep|].
  unfold prs_pool_free. apply rg_pool_get_entry; [done|done|]. intros p1 m1 HR1 Hrep1.
  rg_bind_load. intros p2 m2 HR2.
  assert (rel t (p, m) (p2, m2)) as HR02 by (by transitivity (p1, m1)).
  destruct (pool_owned_entry t p m i e p2 m2 Hrep Ho He HR02) as (Hrep2 & Ho2 & He2 & Hh).
  exists (pool_header e). split; [by apply pool_header_get|]. split; [by apply pool_guar_nop|].
  rewrite Hmod in *. rewrite Hh, pool_hdr_alloc, pool_hdr_refcnt by lia.
  change (truthy (1 * 2 ^ 63)) with true. change (truthy (0 * 2 ^ 52)) with false. cbn [negb].
  rg_bind_cas_strong. intros p3 m3 HR3.
  assert (rel t (p, m) (p3, m3)) as HR03 by (by transitivity (p2, m2)).
  rewrite <- Hmod in Ho.
  destruct (pool_owned_entry t p m i e p3 m3 Hrep Ho He HR03) as (Hrep3 & Ho3 & He3 & _).
  rewrite Hmod in *.
  exists (pool_header e). split; [by apply pool_header_get|]. rewrite decide_True by done.
  eexists _, (delete i m3). split; [by apply pool_header_set|].
  assert (pool_live e = Some i) as Hl by (by apply (pool_live_hdr e i 0 1)).
  pose proof (pool_rep_unset k p3 m3 i e (PoolEntry i (pool_data e)) Hrep3 He3 Hl Hi) as Hrep4.
  split.
  { pose proof Ho3 as [x Hx]. eapply pool_guar; [done|exact Hrep4|by eapply dir_free|done|by right|done|].
    intros t'. by apply owned_not_other. }
  apply rg_done. intros p5 m5 HR5. split; [by apply (pool_rely_rep _ _ _ _ _ _ HR5)|].
  eapply held_same_trans; [by eapply pool_same|].
  eapply held_same_trans; [by apply held_same_free|]. by eapply pool_same.
Qed.

#[export] Instance pool_refdir : RefDir (RefDirOps0 := ops) (prs_pool D) D.
Proof using Hk.
  split.
  - intros t d p m Hrep. cbn [rd_alloc pool_ops]. rg_bind.
    eapply rg_mono; [|by apply pool_alloc_and_lock_rg]. intros [[entry|] i] p1 m1 [Hrep1 H1].
    + destruct H1 as [_ H1]. apply rg_done. intros p2 m2 HR2.
      split; [by apply (pool_rely_rep _ _ _ _ _ _ HR2)|]. cbn [rd_valid rd_key pool_ops].
      destruct (_ && _).
      * destruct H1 as [Hp Ho]. split; [eapply held_plus_same; [done|by eapply pool_same]|].
        apply (rely_object t _ _ _ _ _ _ HR2); [|done]. rewrite Hp, decide_True by done. lia.
      * eapply held_same_trans; [done|by eapply pool_same].
    + apply rg_done. intros p2 m2 HR2. split; [by apply (pool_rely_rep _ _ _ _ _ _ HR2)|].
      eapply held_same_trans; [done|by eapply pool_same].
  - intros t n i p m Hrep. cbn [rd_lock pool_ops]. rg_bind.
    eapply rg_mono; [|by apply pool_lock_rg]. intros [entry|] p1 m1 [Hrep1 H1].
    + destruct H1 as (-> & Hp & [x Hx]). rg_bind_load. intros p2 m2 HR2.
      pose proof (pool_rely_rep _ _ _ _ _ _ HR2 Hrep1) as Hrep2.
      assert (held_plus t m m2 i) as Hp2 by (eapply held_plus_same; [done|by eapply pool_same]).
      assert (∀ m3, held_plus t m m3 i → (0 < held t m3 i)%nat) as Hpos.
      { intros m3 H3. rewrite H3, decide_True by done. lia. }
      apply (rely_object t _ _ _ _ _ _ HR2) in Hx; [|by apply Hpos].
      destruct (pool_published_data t p2 m2 i x Hrep2 (Hpos _ Hp2) Hx) as (e & He & Hd).
      exists (pool_data e). split; [by apply pool_data_get|]. split; [by apply pool_guar_nop|].
      apply rg_done. intros p3 m3 HR3. split; [by apply (pool_rely_rep _ _ _ _ _ _ HR3)|].
      split; [eapply held_plus_same; [done|by eapply pool_same]|]. intros _. rewrite Hd.
      apply (rely_object t _ _ _ _ _ _ HR3); [by apply Hpos|done].
    + apply rg_done. intros p2 m2 HR2. split; [by apply (pool_rely_rep _ _ _ _ _ _ HR2)|].
      eapply held_same_trans; [done|by eapply pool_same].
  - intros t n [try_final f] i p m Hrep Hh. by apply pool_unlock_internal_rg.
Qed.
End contract.

(** ** Properties *)

Section initial.
Context {D : Type} (k : Z) (Hk : 0 < k ≤ 52) (zero : D).

(** The pool that [prs_pool_create] makes in the heap: entry 0 is allocated. *)
Definition pool_initial (data_size : Z) : prs_pool D :=
  Pool None (<[0%nat := PoolEntry (pool_hdr 0 0 1) zero]> (replicate (Z.to_nat (2 ^ k)) (PoolEntry 0 zero)))
    data_size (u64 (data_size + 8)) (2 ^ k) (2 ^ k - 1) 1.

Lemma pool_initial_create data_size l l' h :
  prs_pool_create (PoolParams (2 ^ k) data_size None) zero [] (Heap h [Some l; Some l']) =
    Ret (Some (pool_initial data_size, Some l, Some l'), Heap ({[ l' ]} ∪ ({[ l ]} ∪ h)) []).
Proof using Hk.
  unfold prs_pool_create, prs_pal_malloc_zero, malloc, pool_init.
  cbn [poolp_area heap_answers heap_live poolp_max_entries poolp_data_size].
  assert (2 ^ k ≤ 2 ^ 52) by (apply Z.pow_le_mono_r; lia).
  assert (0 < 2 ^ k) by (apply Z.pow_pos_nonneg; lia).
  unfold pool_header_cell. rewrite (array_cell_set _ _ _ _ _ 0 (PoolEntry 0 zero)); [|done|].
  - ocbn. unfold pool_initial, pool_set_entries. cbn [pool_area pool_entries pool_data_size
      pool_entry_size pool_max_entries pool_max_entries_mask pool_write_index pool_data].
    rewrite (u64_small (2 ^ k - 1)) by lia. done.
  - simpl. apply lookup_replicate_2. lia.
Qed.

Lemma pool_initial_rep data_size t :
  pool_rep k (pool_initial data_size) {[ 0 := DEntry (Owned t) (Unpublished t) ]}.
Proof using Hk.
  assert (0 < 2 ^ k) by (apply Z.pow_pos_nonneg; lia). split.
  - split; simpl; try done.
    + rewrite length_insert, length_replicate. lia.
    + apply Forall_insert; [|done]. by apply Forall_replicate.
  - rewrite <- insert_empty. eapply table_set with (e := PoolEntry 0 zero); [apply pool_ok_live| | | | |].
    + by apply table_empty, Forall_replicate.
    + apply lookup_replicate_2. lia.
    + unfold pool_slot. by rewrite Z.mod_0_l by lia.
    + by left.
    + done.
Qed.
End initial.

(** C2: threads that use a fresh pool in any interleaving, with any mixture of
    unlocking variants (with or without destructor, final only or not), and unlock
    only what they hold: nothing is ever undefined, and once all have returned, the
    entry of an ID records, if the ID is live in it, exactly the references that
    the threads still hold, while nobody holds an ID that is not live. *)
Theorem pool_clients_settled {D : Type} (k data_size : Z) (zero : D) (fuel : nat)
    (cls : list (client D (bool * option (D → D)))) p' ps' :
  0 < k ≤ 52 → Forall (disciplined (RefDirOps0 := pool_ops k) []) cls →
  rtc pool_step (pool_initial k zero data_size, client_prog (RefDirOps0 := pool_ops k) fuel [] <$> cls)
    (p', ps') →
  (∀ t p, ps' !! t = Some p → ¬ faults p' p) ∧
  ∀ finals, ps' = Done <$> finals →
    ∀ i, ∃ e, pool_entries p' !! pool_slot k i = Some e ∧
      Z.of_nat (count_occ Z.eq_dec (concat finals) i) =
        if (PRS_POOL_GET_ID (pool_header e) =? i) && truthy (PRS_POOL_TEST_ALLOC (pool_header e))
        then PRS_POOL_GET_REFCNT (pool_header e) else 0.
Proof.
  intros Hk Hcl Hr. pose proof (pool_refdir (D := D) k Hk) as Hdir.
  set (m0 := {[ 0 := DEntry (Owned 0%nat) (Unpublished 0%nat) ]} : dirmap D).
  assert (∀ t i, held t m0 i = 0%nat) as H0.
  { intros t i. unfold held, m0. destruct (decide (0 = i)) as [<-|Hne].
    - by rewrite lookup_singleton_eq.
    - by rewrite lookup_singleton_ne. }
  destruct (clients_safe (RefDirOps0 := pool_ops k) fuel cls _ m0 p' ps'
    (pool_initial_rep k Hk zero data_size 0) H0 Hcl Hr) as (m' & Hrep & Hb & Hf & Hd).
  split; [done|]. intros finals ->.
  destruct (finals_hold (RefDirOps0 := pool_ops k) fuel cls _ _ m' finals Hr Hb Hd) as [Hb' Hfin].
  intros i. destruct (pool_entry_exists k Hk p' i (proj1 Hrep)) as [e He]. exists e. split; [done|].
  destruct (pool_shape_entry k _ _ _ (proj1 Hrep) He) as (id & rc & al & Hid & Hrc & Hal & Hh).
  assert (PRS_POOL_GET_REFCNT (pool_header e) = rc) as ->.
  { unfold PRS_POOL_GET_REFCNT. rewrite Hh, pool_hdr_refcnt by done.
    change PRS_POOL_REFCNT_SHIFT with 52. rewrite Z.shiftr_div_pow2 by lia. apply Z.div_mul. lia. }
  pose proof (pool_live_hdr e id rc al Hid Hrc Hal Hh) as Hl.
  rewrite Hh, pool_hdr_id, pool_hdr_alloc by done.
  assert (∀ d, m' !! i = Some d → pool_ok i d e ∧ id = i ∧ al = 1) as Hlive.
  { intros d Hm. destruct (pool_rep_entry k p' m' i d Hrep Hm) as (e' & He' & Hok & Hl').
    simplify_eq. rewrite Hl in Hl'. destruct (Z.eqb_spec al 0); [done|].
    simplify_eq. split; [done|]. split; [done|lia]. }
  destruct (m' !! i) as [[[t|hs] x]|] eqn:Hm.
  - destruct (Hlive _ eq_refl) as ([Hi Hok] & -> & ->). rewrite Z.eqb_refl.
    change (truthy (1 * 2 ^ 63)) with true. cbn [andb].
    assert (rc = 0) as -> by (rewrite Hh in Hok; unfold pool_hdr in Hok; lia).
    by rewrite (settled_owned finals m' i t x Hfin Hm).
  - destruct (Hlive _ eq_refl) as ([Hi (_ & _ & _ & Hok)] & -> & ->). rewrite Z.eqb_refl.
    change (truthy (1 * 2 ^ 63)) with true. cbn [andb].
    rewrite Hh in Hok. unfold pool_hdr in Hok.
    rewrite <- (settled_count finals m' i hs x) by done. lia.
  - rewrite (settled_none finals m' i Hfin Hm).
    destruct (Z.eqb_spec id i) as [->|]; [|done]. cbn [andb].
    destruct (Z.eqb_spec al 0) as [->|Hne]; [done|].
    destruct (table_live _ _ _ _ _ _ _ _ (proj2 Hrep) He Hl) as (d & Hm' & _). congruence.
Qed.

(** One thread stores 30 in an entry and keeps it; another one locks it and lets it
    go through the variant with a destructor. *)
Definition pool_demo_clients : list (client Z (bool * option (Z → Z))) :=
  [CAlloc 30 (λ _, CStop);
   CLock 1 (λ r, match r with
                 | Some _ => CUnlock (false, Some (λ d, d + 1)) 1 (λ _, CStop)
                 | None => CStop
                 end)].

Definition pool_demo_pool : prs_pool Z * list (prog (prs_pool Z) (list Z)) :=
  (pool_initial 2 0 8, client_prog (RefDirOps0 := pool_ops 2) 2 [] <$> pool_demo_clients).

Definition pool_demo_schedule : list (nat * bool) :=
  replicate 10 (0%nat, false) ++ replicate 2 (1%nat, false) ++ [(1%nat, true)] ++
  replicate 8 (1%nat, false).

Definition pool_demo_final : prs_pool Z :=
  Pool None [PoolEntry (pool_hdr 0 0 1) 0; PoolEntry (pool_hdr 1 1 1) 30; PoolEntry 0 0; PoolEntry 0 0]
    8 16 4 3 2.

Lemma pool_clients_settled_witness :
  pool_run pool_demo_schedule pool_demo_pool = Some (pool_demo_final, Done <$> [[1]; []]) ∧
  ∃ e, pool_entries pool_demo_final !! pool_slot 2 1 = Some e ∧
    1 = if (PRS_POOL_GET_ID (pool_header e) =? 1) && truthy (PRS_POOL_TEST_ALLOC (pool_header e))
        then PRS_POOL_GET_REFCNT (pool_header e) else 0.
Proof.
  assert (pool_run pool_demo_schedule pool_demo_pool = Some (pool_demo_final, Done <$> [[1]; []])) as Hrun.
  { vm_compute. reflexivity. }
  split; [exact Hrun|].
  refine (proj2 (pool_clients_settled 2 8 0 2 pool_demo_clients pool_demo_final _ _ _
    (pool_run_rtc _ _ _ Hrun)) [[1]; []] eq_refl 1).
  - lia.
  - repeat constructor; simpl; intros; repeat constructor.
Defined.

(** ** One thread alone *)

Section sequential.
Context {D : Type} (k : Z) (Hk : 0 < k ≤ 52).
Implicit Types (p : prs_pool D) (e : prs_pool_entry D).

Lemma run_pool_get_entry i p :
  pool_shape k p → run (prs_pool_get_entry i) p = Ret (Some (i mod 2 ^ k), p).
Proof using Hk.
  intros H. unfold prs_pool_get_entry. rewrite run_bind, run_peek. ocbn.
  rewrite (pool_shape_mask k p H), land_low by lia. done.
Qed.

(** [prs_pool_alloc] takes index [i]. *)
Definition pool_fits p (i : Z) : bool :=
  match pool_entries p !! pool_slot k i with
  | Some e => (PRS_POOL_TEST_ALLOC (pool_header e) =? 0) && negb (PRS_POOL_GET_ID (pool_header e) =? i)
  | None => false
  end.

Definition pool_taken p (i : Z) : prs_pool D :=
  match pool_entries p !! pool_slot k i with
  | Some e =>
      pool_set_write_index (i + 1)
        (pool_set_entries (<[pool_slot k i := PoolEntry (pool_hdr (i mod 2 ^ 52) 0 1) (pool_data e)]>
          (pool_entries p)) p)
  | None => p
  end.

Lemma run_pool_alloc_loop n i p :
  pool_shape k p → 0 ≤ i → i + Z.of_nat n < 2 ^ 64 →
  run (prs_pool_alloc_loop n i) p =
    match List.find (pool_fits p) (seqZ i (Z.of_nat n)) with
    | Some j => Ret (Some (Some (j mod 2 ^ k), j), pool_taken p j)
    | None => Ret (Some (None, PRS_POOL_ID_INVALID), p)
    end.
Proof using Hk.
  intros Hsh. revert i. induction n as [|n IH]; intros i Hi Hn; [done|].
  cbn [prs_pool_alloc_loop]. rewrite run_bind, run_pool_get_entry by done. ocbn.
  destruct (pool_entry_exists k Hk p i Hsh) as [e He].
  rewrite run_bind, (run_load _ p (pool_header e)) by (by apply pool_header_get). ocbn.
  rewrite seqZ_cons by lia. replace (Z.pred (Z.of_nat (S n))) with (Z.of_nat n) by lia.
  cbn [List.find]. unfold pool_fits at 1. rewrite He.
  change (Z.succ i) with (i + 1). specialize (IH (i + 1) ltac:(lia) ltac:(lia)).
  unfold truthy. destruct (Z.eqb_spec (PRS_POOL_TEST_ALLOC (pool_header e)) 0) as [Hal|]; [|done].
  cbn [negb andb]. destruct (Z.eqb_spec (PRS_POOL_GET_ID (pool_header e)) i) as [|Hid]; [done|].
  cbn [negb]. rewrite run_bind. erewrite run_cas_strong; [|by apply pool_header_get|by apply pool_header_set].
  ocbn. cbn [negb]. rewrite run_bind. erewrite run_store by reflexivity. ocbn. cbn [run].
  unfold pool_taken. rewrite He, pool_new_header. by rewrite u64_small by lia.
Qed.

Lemma run_pool_alloc p :
  pool_shape k p → pool_write_index p + 2 ^ k < 2 ^ 64 →
  run prs_pool_alloc p =
    match List.find (pool_fits p) (seqZ (pool_write_index p) (2 ^ k)) with
    | Some i => Ret (Some (Some (i mod 2 ^ k), i), pool_taken p i)
    | None => Ret (Some (None, PRS_POOL_ID_INVALID), p)
    end.
Proof using Hk.
  intros Hsh Hw. unfold prs_pool_alloc.
  rewrite run_bind, (run_load _ p (pool_write_index p)) by done. ocbn.
  rewrite run_bind, run_peek. ocbn. rewrite (pool_shape_max k p Hsh).
  pose proof (pool_shape_write k p Hsh) as Hw0.
  assert (0 < 2 ^ k) by (apply Z.pow_pos_nonneg; lia).
  rewrite u64_small by lia.
  rewrite run_pool_alloc_loop by (done || lia).
  by replace (Z.of_nat (Z.to_nat (pool_write_index p + 2 ^ k - pool_write_index p))) with (2 ^ k) by lia.
Qed.

(** The pool after [j] allocations from the initial state. *)
Definition pool_after (zero : D) (data_size : Z) (j : nat) : prs_pool D :=
  Pool None (PoolEntry (pool_hdr 0 0 1) zero ::
      ((λ i, PoolEntry (pool_hdr (Z.of_nat i) 0 1) zero) <$> seq 1 j) ++
      replicate (Z.to_nat (2 ^ k) - 1 - j) (PoolEntry 0 zero))
    data_size (u64 (data_size + 8)) (2 ^ k) (2 ^ k - 1) (1 + Z.of_nat j).

Lemma pool_after_lookup zero data_size j i :
  (i < Z.to_nat (2 ^ k))%nat → (j < Z.to_nat (2 ^ k))%nat →
  pool_entries (pool_after zero data_size j) !! i =
    Some (if decide (i ≤ j)%nat then PoolEntry (pool_hdr (Z.of_nat i) 0 1) zero else PoolEntry 0 zero).
Proof using Hk.
  intros Hi Hj. destruct i as [|i]; [done|]. simpl.
  destruct (decide (S i ≤ j)%nat) as [Hle|Hgt].
  - rewrite lookup_app_l by (rewrite length_fmap, length_seq; lia).
    rewrite list_lookup_fmap, lookup_seq_lt by lia. done.
  - rewrite lookup_app_r by (rewrite length_fmap, length_seq; lia).
    rewrite length_fmap, length_seq. apply lookup_replicate_2. lia.
Qed.

Lemma pool_after_shape zero data_size j :
  (j < Z.to_nat (2 ^ k))%nat → Z.of_nat j < 2 ^ 52 → pool_shape k (pool_after zero data_size j).
Proof using Hk.
  intros Hj Hj'. assert (0 < 2 ^ k) by (apply Z.pow_pos_nonneg; lia). split; simpl; try done.
  - rewrite length_app, length_fmap, length_seq, length_replicate. lia.
  - constructor; [done|]. apply Forall_app. split; [|by apply Forall_replicate].
    apply Forall_fmap, Forall_forall. intros i Hi. apply elem_of_seq in Hi. simpl.
    apply pool_hdr_range; lia.
  - lia.
Qed.

Lemma pool_after_taken zero data_size j :
  (S j < Z.to_nat (2 ^ k))%nat →
  pool_taken (pool_after zero data_size j) (1 + Z.of_nat j) = pool_after zero data_size (S j).
Proof using Hk.
  intros Hj. assert (2 ^ k ≤ 2 ^ 52) by (apply Z.pow_le_mono_r; lia).
  assert (pool_slot k (1 + Z.of_nat j) = S j) as Hs.
  { unfold pool_slot. rewrite Z.mod_small by lia. lia. }
  unfold pool_taken. rewrite Hs, pool_after_lookup, decide_False by lia.
  unfold pool_set_write_index, pool_set_entries. cbn [pool_area pool_entries pool_data_size
    pool_entry_size pool_max_entries pool_max_entries_mask pool_write_index pool_data pool_after].
  unfold pool_after. f_equal; [|lia]. rewrite (Z.mod_small _ (2 ^ 52)) by lia.
  replace (1 + Z.of_nat j) with (Z.of_nat (S j)) by lia.
  change (<[S j := ?x]> (?a :: ?l)) with (a :: <[j := x]> l). f_equal.
  rewrite insert_app_r_alt, length_fmap, length_seq by (rewrite length_fmap, length_seq; lia).
  rewrite Nat.sub_diag, seq_S, fmap_app, <- app_assoc. f_equal.
  destruct (Z.to_nat (2 ^ k) - 1 - j)%nat as [|n] eqn:Hn; [lia|].
  replace (Z.to_nat (2 ^ k) - 1 - S j)%nat with n by lia. done.
Qed.

Lemma pool_after_next zero data_size j :
  (S j < Z.to_nat (2 ^ k))%nat →
  run prs_pool_alloc (pool_after zero data_size j) =
    Ret (Some (Some (1 + Z.of_nat j), 1 + Z.of_nat j), pool_after zero data_size (S j)).
Proof using Hk.
  intros Hj. assert (2 ^ k ≤ 2 ^ 52) by (apply Z.pow_le_mono_r; lia).
  rewrite run_pool_alloc; [|apply pool_after_shape; lia|simpl; lia].
  cbn [pool_write_index pool_after]. rewrite seqZ_cons by lia. cbn [List.find].
  assert (pool_fits (pool_after zero data_size j) (1 + Z.of_nat j) = true) as Hf.
  { unfold pool_fits, pool_slot. rewrite Z.mod_small by lia.
    rewrite pool_after_lookup, decide_False by lia. cbn [pool_header].
    change (PRS_POOL_TEST_ALLOC 0 =? 0) with true. change (PRS_POOL_GET_ID 0) with 0.
    destruct (Z.eqb_spec 0 (1 + Z.of_nat j)); [lia|done]. }
  rewrite Hf, Z.mod_small by lia.
  by rewrite <- pool_after_taken.
Qed.

Lemma pool_after_full zero data_size :
  let j := (Z.to_nat (2 ^ k) - 1)%nat in
  run prs_pool_alloc (pool_after zero data_size j) =
    Ret (Some (None, PRS_POOL_ID_INVALID), pool_after zero data_size j).
Proof using Hk.
  intros j. assert (2 ^ k ≤ 2 ^ 52) by (apply Z.pow_le_mono_r; lia).
  assert (0 < 2 ^ k) by (apply Z.pow_pos_nonneg; lia).
  rewrite run_pool_alloc; [|apply pool_after_shape; unfold j; lia|simpl; lia].
  destruct (List.find _ _) as [i|] eqn:Hf; [|done]. apply find_some in Hf as [_ Hf].
  unfold pool_fits in Hf. pose proof (Z.mod_pos_bound i (2 ^ k) ltac:(lia)).
  rewrite pool_after_lookup, decide_True in Hf by (unfold pool_slot, j; lia).
  cbn [pool_header] in Hf. rewrite pool_hdr_alloc in Hf by (unfold pool_slot; lia). done.
Qed.

(** Allocating [n] times in a row: the IDs obtained. *)
Fixpoint pool_alloc_many (n : nat) : prog (prs_pool D) (list Z) :=
  match n with
  | O => Done []
  | S n =>
      '(r, id) ← prs_pool_alloc;
      ids ← pool_alloc_many n;
      Done (match r with Some _ => id :: ids | None => ids end)
  end.

Lemma pool_alloc_many_full n zero data_size :
  let full := pool_after zero data_size (Z.to_nat (2 ^ k) - 1) in
  run (pool_alloc_many n) full = Ret (Some [], full).
Proof using Hk.
  cbn zeta. induction n as [|n IH]; [done|]. cbn [pool_alloc_many].
  rewrite run_bind. rewrite pool_after_full. ocbn. rewrite run_bind, IH. done.
Qed.

Lemma pool_alloc_many_from n extra zero data_size j :
  (j + n = Z.to_nat (2 ^ k) - 1)%nat → (j < Z.to_nat (2 ^ k))%nat →
  run (pool_alloc_many (n + extra)) (pool_after zero data_size j) =
    Ret (Some (Z.of_nat <$> seq (S j) n), pool_after zero data_size (Z.to_nat (2 ^ k) - 1)).
Proof using Hk.
  revert j. induction n as [|n IH]; intros j Hj Hlt.
  - replace j with (Z.to_nat (2 ^ k) - 1)%nat by lia. apply pool_alloc_many_full.
  - cbn [Nat.add pool_alloc_many]. rewrite run_bind, pool_after_next by lia. ocbn.
    rewrite run_bind, IH by lia. ocbn. cbn [run seq]. rewrite fmap_cons. do 4 f_equal. lia.
Qed.

(** *** Unlocking *)

Definition pool_with p (id rc al : Z) (d : D) : prs_pool D :=
  pool_set_entries (<[pool_slot k id := PoolEntry (pool_hdr id rc al) d]> (pool_entries p)) p.

Lemma pool_with_shape p id rc al d :
  pool_shape k p → 0 ≤ id < 2 ^ 52 → 0 ≤ rc < 2 ^ 11 → 0 ≤ al < 2 → pool_shape k (pool_with p id rc al d).
Proof using. intros Hsh Hid Hrc Hal. apply pool_shape_set; [done|]. by apply pool_hdr_range. Qed.

Lemma pool_with_lookup p id rc al d :
  pool_shape k p →
  pool_entries (pool_with p id rc al d) !! pool_slot k id = Some (PoolEntry (pool_hdr id rc al) d).
Proof using Hk.
  intros Hsh. apply list_lookup_insert_eq. destruct (pool_entry_exists k Hk p id Hsh) as [e He].
  by eapply lookup_lt_Some.
Qed.

Lemma pool_with_header p id rc al d :
  pool_shape k p →
  cell_get (pool_header_cell (id mod 2 ^ k)) (pool_with p id rc al d) = Ret (pool_hdr id rc al).
Proof using Hk. intros Hsh. exact (pool_header_get k Hk _ _ _ (pool_with_lookup p id rc al d Hsh)). Qed.

Lemma pool_with_set_header p id rc al d rc' al' :
  pool_shape k p →
  cell_set (pool_header_cell (id mod 2 ^ k)) (pool_hdr id rc' al') (pool_with p id rc al d) =
    Ret (pool_with p id rc' al' d).
Proof using Hk.
  intros Hsh. rewrite (pool_header_set k Hk _ _ _ _ (pool_with_lookup p id rc al d Hsh)).
  unfold pool_with, pool_set_entries. cbn [pool_entries pool_area pool_data_size pool_entry_size
    pool_max_entries pool_max_entries_mask pool_write_index pool_data]. by rewrite list_insert_insert_eq.
Qed.

Lemma pool_with_data p id rc al d :
  pool_shape k p → cell_get (pool_data_cell (id mod 2 ^ k)) (pool_with p id rc al d) = Ret d.
Proof using Hk. intros Hsh. exact (pool_data_get k Hk _ _ _ (pool_with_lookup p id rc al d Hsh)). Qed.

Lemma pool_with_set_data p id rc al d d' :
  pool_shape k p →
  cell_set (pool_data_cell (id mod 2 ^ k)) d' (pool_with p id rc al d) = Ret (pool_with p id rc al d').
Proof using Hk.
  intros Hsh. rewrite (pool_data_set k Hk _ _ _ _ (pool_with_lookup p id rc al d Hsh)).
  unfold pool_with, pool_set_entries. cbn [pool_entries pool_area pool_data_size pool_entry_size
    pool_max_entries pool_max_entries_mask pool_write_index pool_header]. by rewrite list_insert_insert_eq.
Qed.

(** The destructor's part of [prs_pool_unlock_internal]. *)
Lemma run_pool_destroy p id d (f : D → D) :
  pool_shape k p → 0 ≤ id < 2 ^ 52 →
  run (data ← read (pool_data_cell (id mod 2 ^ k));
       write (pool_data_cell (id mod 2 ^ k)) (f data);;
       '(result, _) ← prs_pal_atomic_compare_exchange_strong (pool_header_cell (id mod 2 ^ k))
         (pool_hdr id 0 1) (Z.land (pool_hdr id 0 1) PRS_POOL_ID_MASK);
       if negb result then Done false else Done true) (pool_with p id 0 1 d) =
    Ret (Some true, pool_with p id 0 0 (f d)).
Proof using Hk.
  intros Hsh Hid. unfold read, write.
  rewrite run_bind. erewrite run_load by (by apply pool_with_data). ocbn.
  rewrite run_bind. erewrite run_store by (by apply pool_with_set_data). ocbn.
  change (Z.land (pool_hdr id 0 1) PRS_POOL_ID_MASK) with (PRS_POOL_GET_ID (pool_hdr id 0 1)).
  rewrite pool_hdr_id by done. change id with (pool_hdr id 0 0) at 3.
  rewrite run_bind. erewrite run_cas_strong; [|by apply pool_with_header|by apply pool_with_set_header].
  done.
Qed.
End sequential.

(** C33: the capacity of a pool of [2 ^ k] entries is [2 ^ k - 1], whatever is asked
    for: the entry at index 0 is never handed out.  Allocating again and again gives
    the IDs 1, 2, ... in order until they are used up, and fails from then on. *)
Theorem pool_capacity {D : Type} (k : Z) (extra : nat) (zero : D) (data_size : Z) :
  0 < k ≤ 52 →
  let n := (Z.to_nat (2 ^ k) - 1)%nat in
  run (pool_alloc_many (n + extra)) (pool_initial k zero data_size) =
    Ret (Some (Z.of_nat <$> seq 1 n), pool_after k zero data_size n).
Proof.
  intros Hk. cbn zeta. assert (0 < 2 ^ k) by (apply Z.pow_pos_nonneg; lia).
  rewrite <- (pool_alloc_many_from k Hk _ extra zero data_size 0) by lia.
  f_equal. unfold pool_initial, pool_after. f_equal. cbn [seq fmap list_fmap app].
  rewrite Nat.sub_0_r. destruct (Z.to_nat (2 ^ k)) as [|m] eqn:Hm; [lia|].
  cbn [replicate insert list_insert]. f_equal. f_equal. lia.
Qed.

Lemma pool_capacity_witness :
  0 < 2 ≤ 52 ∧
  run (pool_alloc_many 5) (pool_initial 2 0 8) = Ret (Some [1; 2; 3], pool_after 2 0 8 3).
Proof.
  assert (0 < 2 ≤ 52) as H by lia. split; [exact H|].
  refine (pool_capacity 2 2 0 8 H).
Defined.


(** The last reference.  Alone, on an entry that is allocated with ID [id] and
    [rc] references, [prs_pool_unlock_internal] returns false and drops a reference
    when there are others, except that the "final" variants leave it; on the last
    reference it returns true, the destructor is applied to the data exactly then,
    and the entry is free but keeps its ID, so that the ID cannot be locked again. *)
Lemma pool_unlock_exact {D : Type} (k : Z) (fuel : nat) (p : prs_pool D) (id rc al : Z) (d : D)
    (try_final : bool) (destructor : option (D → D)) :
  0 < k ≤ 52 → pool_shape k p → 0 ≤ id < 2 ^ 52 → 0 ≤ rc < 2 ^ 11 → 0 ≤ al < 2 →
  run (prs_pool_unlock_internal (S fuel) id try_final destructor) (pool_with k p id rc al d) =
    if (al =? 0) || (rc =? 0) then Ret (Some false, pool_with k p id rc al d)
    else if rc =? 1 then
      Ret (Some true, pool_with k p id 0 0 (match destructor with Some f => f d | None => d end))
    else if try_final then Ret (Some false, pool_with k p id rc al d)
    else Ret (Some false, pool_with k p id (rc - 1) al d).
Proof.
  intros Hk Hsh Hid Hrc Hal. pose proof (pool_with_shape k p id rc al d Hsh Hid Hrc Hal) as Hsh'.
  pose proof (pool_with_header k Hk p id rc al d Hsh) as Hg.
  unfold prs_pool_unlock_internal.
  rewrite (proj2 (Z.eqb_neq id PRS_POOL_ID_INVALID))
    by (change PRS_POOL_ID_INVALID with (2 ^ 64 - 1); lia).
  rewrite run_bind, (run_pool_get_entry k Hk) by done. ocbn.
  rewrite run_bind, (run_load _ _ _ Hg). ocbn.
  rewrite run_bind, (run_cas_weak_loop _ _ _ _ _ Hg).
  unfold pool_unlock_body. rewrite pool_hdr_id, pool_hdr_alloc, pool_hdr_refcnt, Z.eqb_refl by done.
  cbn [negb]. unfold truthy.
  destruct (Z.eqb_spec (al * 2 ^ 63) 0), (Z.eqb_spec al 0); try lia; [done|]. cbn [negb orb].
  destruct (Z.eqb_spec (rc * 2 ^ 52) 0), (Z.eqb_spec rc 0); try lia; [done|]. cbn [negb orb].
  assert (al = 1) as -> by lia. rewrite pool_hdr_unlock by lia.
  change PRS_POOL_REFCNT_INC with (1 * 2 ^ 52).
  destruct (Z.eqb_spec (rc * 2 ^ 52) (1 * 2 ^ 52)), (Z.eqb_spec rc 1); try lia; cbn [negb andb].
  - subst rc. rewrite andb_false_r. change (1 - 1) with 0. destruct destructor as [f|]; cbn [negb].
    + rewrite (pool_with_set_header k Hk) by done. ocbn. by apply run_pool_destroy.
    + rewrite pool_clear_alloc by lia.
      pose proof (pool_with_set_header k Hk p id 1 1 d 0 0 Hsh) as Hset.
      change (pool_hdr id 0 0) with id in Hset. by rewrite Hset.
  - rewrite andb_true_r. destruct try_final; [done|].
    by rewrite (pool_with_set_header k Hk) by done.
Qed.

