(* ===== verification/God.v ===== *)
(** * Global object directory (prs/god.c)

    The table of registered objects, at the level of its atomic accesses (run-time
    checking on), and the proof that it implements the contract of [RefDir].  A
    registered object comes with callbacks; what a callback does outside the
    directory is a function on the rest of the system's state, of type [W]. *)

From S2P Require Import Prelude Bitops Heap Atomic RefDir.

(** ** Data *)

Definition PRS_OBJECT_ID_INVALID : Z := 0.
Definition PRS_GOD_HEADER_BITS : Z := 64.
Definition PRS_GOD_ID_BITS : Z := 32.
Definition PRS_GOD_NONID_BITS : Z := PRS_GOD_HEADER_BITS - PRS_GOD_ID_BITS.
Definition PRS_GOD_HEADER_ID : Z := Z.shiftl (Z.shiftl 1 PRS_GOD_ID_BITS - 1) PRS_GOD_NONID_BITS.
Definition PRS_GOD_HEADER_RESERVED : Z := 0x4000.
Definition PRS_GOD_HEADER_USED : Z := 0x2000.
Definition PRS_GOD_HEADER_DELETE_MARK : Z := 0x1000.
Definition PRS_GOD_HEADER_REFCNT : Z := 0xFFF.
Definition PRS_GOD_TEST_FLAG (header flag : Z) : Z := Z.land header flag.
Definition PRS_GOD_GET_ID (flags : Z) : Z := Z.shiftr (Z.land flags PRS_GOD_HEADER_ID) PRS_GOD_NONID_BITS.
Definition PRS_GOD_SET_ID (id : Z) : Z := u64 (Z.shiftl id PRS_GOD_NONID_BITS).

Section god.
Context {W : Type}.

Record prs_object_ops : Type := ObjectOps {
  ops_destroy : option (ptr → W → W);
  ops_free : option (ptr → W → W);
  ops_print : option (ptr → W → W)
}.

Record prs_god_entry : Type := GodEntry {
  god_header : Z;
  god_object : ptr;
  god_ops : option prs_object_ops
}.

(** [struct prs_god], and the rest of the system. *)
Record prs_god : Type := God {
  god_entries : list prs_god_entry;
  god_max_entries : Z;
  god_max_entries_mask : Z;
  god_write_index : Z;
  god_world : W
}.

Definition god_set_entries (es : list prs_god_entry) (g : prs_god) : prs_god :=
  God es (god_max_entries g) (god_max_entries_mask g) (god_write_index g) (god_world g).
Definition god_set_write_index (v : Z) (g : prs_god) : prs_god :=
  God (god_entries g) (god_max_entries g) (god_max_entries_mask g) v (god_world g).
Definition god_set_world (w : W) (g : prs_god) : prs_god :=
  God (god_entries g) (god_max_entries g) (god_max_entries_mask g) (god_write_index g) w.

Definition god_write_index_cell : cell prs_god Z :=
  Cell (λ g, Ret (god_write_index g)) (λ v g, Ret (god_set_write_index v g)).
Definition god_header_cell : Z → cell prs_god Z :=
  array_cell god_entries god_set_entries god_header
    (λ v e, GodEntry v (god_object e) (god_ops e)).
Definition god_object_cell : Z → cell prs_god ptr :=
  array_cell god_entries god_set_entries god_object
    (λ v e, GodEntry (god_header e) v (god_ops e)).
Definition god_ops_cell : Z → cell prs_god (option prs_object_ops) :=
  array_cell god_entries god_set_entries god_ops
    (λ v e, GodEntry (god_header e) (god_object e) v).

(** A call through a function pointer of [ops], when it is not null. *)
Definition call_op (op : option (ptr → W → W)) (object : ptr) : prog prs_god unit :=
  match op with
  | Some f => act (λ g, Ret (tt, god_set_world (f object (god_world g)) g))
  | None => Done tt
  end.

(** [entry->ops] before it is dereferenced. *)
Definition god_deref_ops (entry : Z) : prog prs_god prs_object_ops :=
  ops ← read (god_ops_cell entry);
  act (λ g, ops ← deref ops; Ret (ops, g)).

(** ** Operations *)

Definition prs_god_get_entry (id : Z) : prog prs_god Z :=
  mask ← peek god_max_entries_mask;
  Done (Z.land id mask).

(** The loop of [prs_god_alloc_and_lock] over [i], with [n] indices to go. *)
Fixpoint prs_god_alloc_loop (n : nat) (i : Z) (object : ptr) (ops : option prs_object_ops) :
    prog prs_god Z :=
  match n with
  | O => Done PRS_OBJECT_ID_INVALID
  | S n =>
      entry ← prs_god_get_entry i;
      header ← prs_pal_atomic_load (god_header_cell entry);
      if truthy (PRS_GOD_TEST_FLAG header PRS_GOD_HEADER_RESERVED)
      then prs_god_alloc_loop n (i + 1) object ops
      else if PRS_GOD_GET_ID header =? i then prs_god_alloc_loop n (i + 1) object ops
      else
        let new_header := Z.lor (Z.lor (PRS_GOD_SET_ID i) PRS_GOD_HEADER_RESERVED) 1 in
        '(ok, _) ← prs_pal_atomic_compare_exchange_strong (god_header_cell entry) header new_header;
        if negb ok then prs_god_alloc_loop n (i + 1) object ops
        else
          prs_pal_atomic_store god_write_index_cell (u32 (i + 1));;
          write (god_object_cell entry) object;;
          write (god_ops_cell entry) ops;;
          let new_header := Z.lor new_header PRS_GOD_HEADER_USED in
          prs_pal_atomic_store (god_header_cell entry) new_header;;
          Done i
  end.

Definition prs_god_alloc_and_lock (object : ptr) (ops : option prs_object_ops) : prog prs_god Z :=
  write_index ← prs_pal_atomic_load god_write_index_cell;
  max_entries ← peek god_max_entries;
  let end_ := u32 (write_index + max_entries) in
  prs_god_alloc_loop (Z.to_nat (end_ - write_index)) write_index object ops.

Definition prs_god_free (fuel : nat) (id : Z) : prog prs_god unit :=
  if id =? PRS_OBJECT_ID_INVALID then Done tt
  else
    entry ← prs_god_get_entry id;
    header ← prs_pal_atomic_load (god_header_cell entry);
    ops ← god_deref_ops entry;
    (match ops_free ops with
     | Some _ =>
         ops ← god_deref_ops entry;
         object ← read (god_object_cell entry);
         call_op (ops_free ops) object
     | None => Done tt
     end);;
    cas_weak_loop fuel (god_header_cell entry)
      (λ header, inr (Z.land header PRS_GOD_HEADER_ID, tt)) header.

Definition prs_god_find (id : Z) : prog prs_god ptr :=
  if id =? PRS_OBJECT_ID_INVALID then Done None
  else entry ← prs_god_get_entry id; read (god_object_cell entry).

Definition prs_god_lock_entry (fuel : nat) (id : Z) : prog prs_god (option Z) :=
  if id =? PRS_OBJECT_ID_INVALID then Done None
  else
    entry ← prs_god_get_entry id;
    header ← prs_pal_atomic_load (god_header_cell entry);
    cas_weak_loop fuel (god_header_cell entry) (λ header,
      if negb (PRS_GOD_GET_ID header =? id) then inl None
      else if negb (truthy (PRS_GOD_TEST_FLAG header PRS_GOD_HEADER_USED)) then inl None
      else if truthy (PRS_GOD_TEST_FLAG header PRS_GOD_HEADER_DELETE_MARK) then inl None
      else if PRS_GOD_TEST_FLAG header PRS_GOD_HEADER_REFCNT =? PRS_GOD_HEADER_REFCNT then inl None
      else inr (u64 (header + 1), Some entry)) header.

Definition prs_god_lock (fuel : nat) (id : Z) : prog prs_god ptr :=
  entry ← prs_god_lock_entry fuel id;
  match (entry : option Z) with
  | Some entry => read (god_object_cell entry)
  | None => Done None
  end.

(** The new header of the last unlock. *)
Definition god_delete_header (header : Z) : Z :=
  Z.land (Z.lor header PRS_GOD_HEADER_DELETE_MARK) (u64 (Z.lnot PRS_GOD_HEADER_REFCNT)).

(** The body of the loop of [prs_god_unlock]: nothing when it returns, otherwise
    the new header. *)
Definition god_unlock_body (id header : Z) : option Z + Z * option Z :=
  if negb (PRS_GOD_GET_ID header =? id) then inl None
  else if negb (truthy (PRS_GOD_TEST_FLAG header PRS_GOD_HEADER_USED)) then inl None
  else
    let refcnt := PRS_GOD_TEST_FLAG header PRS_GOD_HEADER_REFCNT in
    if refcnt =? 1 then
      let new_header := god_delete_header header in inr (new_header, Some new_header)
    else if refcnt =? 0 then inl None
    else let new_header := u64 (header - 1) in inr (new_header, Some new_header).

Definition prs_god_unlock (fuel : nat) (id : Z) : prog prs_god unit :=
  if id =? PRS_OBJECT_ID_INVALID then Done tt
  else
    entry ← prs_god_get_entry id;
    header ← prs_pal_atomic_load (god_header_cell entry);
    r ← cas_weak_loop fuel (god_header_cell entry) (god_unlock_body id) header;
    match r with
    | None => Done tt
    | Some new_header =>
        if PRS_GOD_TEST_FLAG new_header PRS_GOD_HEADER_REFCNT =? 0 then prs_god_free fuel id
        else Done tt
    end.

Definition god_try_unlock_body (id header : Z) : prs_result + Z * prs_result :=
  if negb (PRS_GOD_GET_ID header =? id) then inl PRS_INVALID_STATE
  else if negb (truthy (PRS_GOD_TEST_FLAG header PRS_GOD_HEADER_USED)) then inl PRS_INVALID_STATE
  else
    let refcnt := PRS_GOD_TEST_FLAG header PRS_GOD_HEADER_REFCNT in
    if refcnt =? 1 then inr (god_delete_header header, PRS_OK)
    else if refcnt =? 0 then inl PRS_INVALID_STATE
    else inl PRS_LOCKED.

Definition prs_god_try_unlock_final (fuel : nat) (id : Z) : prog prs_god prs_result :=
  if id =? PRS_OBJECT_ID_INVALID then Done PRS_NOT_FOUND
  else
    entry ← prs_god_get_entry id;
    header ← prs_pal_atomic_load (god_header_cell entry);
    r ← cas_weak_loop fuel (god_header_cell entry) (god_try_unlock_body id) header;
    if decide (r = PRS_OK) then prs_god_free fuel id;; Done PRS_OK
    else Done r.

Definition prs_god_object_destroy (fuel : nat) (id : Z) : prog prs_god prs_result :=
  r ← prs_god_lock_entry fuel id;
  match (r : option Z) with
  | Some entry =>
      ops ← god_deref_ops entry;
      (match ops_destroy ops with
       | Some _ =>
           ops ← god_deref_ops entry;
           object ← read (god_object_cell entry);
           call_op (ops_destroy ops) object
       | None => Done tt
       end);;
      prs_god_unlock fuel id;;
      Done PRS_OK
  | None => Done PRS_NOT_FOUND
  end.

(** The lines that [prs_god_print] hands to its callback; [emit] is what the
    callback does with a line. *)
Inductive god_line : Type :=
  | GodLineEntry (id refcnt header_high header_low : Z)
  | GodLineNoPrint
  | GodLineNoReference.

Context (emit : god_line → W → W).

Definition god_emit (l : god_line) : prog prs_god unit :=
  act (λ g, Ret (tt, god_set_world (emit l (god_world g)) g)).

(** The loop of [prs_god_print] over [i], with [n] indices to go. *)
Fixpoint prs_god_print_loop (fuel n : nat) (i : Z) : prog prs_god unit :=
  match n with
  | O => Done tt
  | S n =>
      entry ← prs_god_get_entry i;
      header ← prs_pal_atomic_load (god_header_cell entry);
      if negb (truthy (PRS_GOD_TEST_FLAG header PRS_GOD_HEADER_USED))
      then prs_god_print_loop fuel n (i + 1)
      else
        header' ← prs_pal_atomic_load (god_header_cell entry);
        let id := PRS_GOD_GET_ID header' in
        god_emit (GodLineEntry id (PRS_GOD_TEST_FLAG header PRS_GOD_HEADER_REFCNT)
                    (Z.shiftr header 32) (u32 header));;
        locked_entry ← prs_god_lock_entry fuel id;
        (match (locked_entry : option Z) with
         | Some _ =>
             ops ← god_deref_ops entry;
             (match ops_print ops with
              | Some _ => object ← read (god_object_cell entry); call_op (ops_print ops) object
              | None => god_emit GodLineNoPrint
              end);;
             prs_god_unlock fuel id
         | None => god_emit GodLineNoReference
         end);;
        prs_god_print_loop fuel n (i + 1)
  end.

Definition prs_god_print (fuel : nat) : prog prs_god unit :=
  max_entries ← peek god_max_entries;
  prs_god_print_loop fuel (Z.to_nat (max_entries - 1)) 1.

(** [prs_god_create], with the blocks of the structure and of the entries.  When
    the first allocation fails, [god->entries] is read through a null pointer. *)
Definition prs_god_create (max_entries : Z) (w : W) (h : heap) :
    outcome (prs_result * option (prs_god * ptr * ptr) * heap) :=
  let (god, h) := prs_pal_malloc_zero h in
  match god with
  | None => Undef
  | Some l =>
      let (es, h) := prs_pal_malloc_zero h in
      match es with
      | None => h ← prs_pal_free (Some l) h; Ret (PRS_OUT_OF_MEMORY, None, h)
      | Some l' =>
          let g := God (replicate (Z.to_nat max_entries) (GodEntry 0 None None)) (u32 max_entries)
                     (u32 (u32 max_entries - 1)) 1 w in
          g ← cell_set (god_header_cell 0) (Z.lor PRS_GOD_HEADER_RESERVED PRS_GOD_HEADER_USED) g;
          Ret (PRS_OK, Some (g, Some l, Some l'), h)
      end
  end.

Definition prs_god_destroy (self entries : ptr) (h : heap) : outcome heap :=
  h ← prs_pal_free entries h; prs_pal_free self h.
End god.
Arguments prs_object_ops : clear implicits.
Arguments prs_god_entry : clear implicits.
Arguments prs_god : clear implicits.

(** ** Headers *)

(** A header with ID [id] and the flags and reference count [fl]. *)
Definition god_hdr (id fl : Z) : Z := id * 2 ^ 32 + fl.

(** The four kinds of [fl] that occur. *)
Definition god_fl_reserved : Z := 0x4001.
Definition god_fl_used (rc : Z) : Z := 0x6000 + rc.
Definition god_fl_deleted : Z := 0x7000.

Section headers.
Context (id fl : Z) (Hid : 0 ≤ id < 2 ^ 32) (Hfl : 0 ≤ fl < 2 ^ 32).

Lemma god_hdr_range : 0 ≤ god_hdr id fl < 2 ^ 64.
Proof using Hid Hfl. unfold god_hdr. lia. Qed.

Lemma god_hdr_id : PRS_GOD_GET_ID (god_hdr id fl) = id.
Proof using Hid Hfl.
  unfold PRS_GOD_GET_ID, god_hdr. change PRS_GOD_HEADER_ID with (Z.shiftl (2 ^ 32 - 1) 32).
  change PRS_GOD_NONID_BITS with 32. rewrite land_field by lia.
  rewrite Z.div_add_l, (Z.div_small fl), Z.add_0_r, Z.mod_small by lia.
  rewrite Z.shiftr_div_pow2, Z.div_mul by lia. done.
Qed.

Lemma god_hdr_flag flag : 0 ≤ flag < 2 ^ 32 →
  PRS_GOD_TEST_FLAG (god_hdr id fl) flag = Z.land fl flag.
Proof using Hid Hfl.
  intros Hf. unfold PRS_GOD_TEST_FLAG, god_hdr. rewrite <- lor_high_low by lia.
  rewrite Z.land_lor_distr_l, land_high_low by lia. apply Z.lor_0_l.
Qed.

Lemma god_hdr_or flag : 0 ≤ flag < 2 ^ 32 → 0 ≤ Z.lor fl flag < 2 ^ 32 →
  Z.lor (god_hdr id fl) flag = god_hdr id (Z.lor fl flag).
Proof using Hid Hfl.
  intros Hf Hl. unfold god_hdr. rewrite <- (lor_high_low id fl), <- Z.lor_assoc by lia.
  by apply lor_high_low.
Qed.

(** [header & PRS_GOD_HEADER_ID]. *)
Lemma god_hdr_clear : Z.land (god_hdr id fl) PRS_GOD_HEADER_ID = god_hdr id 0.
Proof using Hid Hfl.
  unfold god_hdr. change PRS_GOD_HEADER_ID with (Z.shiftl (2 ^ 32 - 1) 32).
  rewrite land_field by lia.
  rewrite Z.div_add_l, (Z.div_small fl), Z.add_0_r, Z.mod_small; lia.
Qed.
End headers.

Lemma god_hdr_split h : 0 ≤ h < 2 ^ 64 →
  ∃ id fl, 0 ≤ id < 2 ^ 32 ∧ 0 ≤ fl < 2 ^ 32 ∧ h = god_hdr id fl.
Proof.
  intros Hh. exists (h / 2 ^ 32), (h mod 2 ^ 32). split_and!;
    try (apply Z.mod_pos_bound; lia); [apply Z.div_pos; lia|apply Z.div_lt_upper_bound; lia|].
  unfold god_hdr. pose proof (Z.div_mod h (2 ^ 32)). lia.
Qed.

(** The flags of a header in use, with [rc] references. *)
Section used.
Context (rc : Z) (Hrc : 0 ≤ rc < 2 ^ 12).

Lemma god_used_range : 0 ≤ god_fl_used rc < 2 ^ 32.
Proof using Hrc. unfold god_fl_used. lia. Qed.

Lemma god_used_reserved : Z.land (god_fl_used rc) PRS_GOD_HEADER_RESERVED = PRS_GOD_HEADER_RESERVED.
Proof using Hrc.
  unfold god_fl_used. change PRS_GOD_HEADER_RESERVED with (2 ^ 14). rewrite land_bit by lia.
  replace (0x6000 + rc) with (1 * 2 ^ 14 + (0x2000 + rc)) by lia.
  rewrite Z.div_add_l, (Z.div_small (_ + _)) by lia. done.
Qed.

Lemma god_used_used : Z.land (god_fl_used rc) PRS_GOD_HEADER_USED = PRS_GOD_HEADER_USED.
Proof using Hrc.
  unfold god_fl_used. change PRS_GOD_HEADER_USED with (2 ^ 13). rewrite land_bit by lia.
  replace (0x6000 + rc) with (3 * 2 ^ 13 + rc) by lia.
  rewrite Z.div_add_l, (Z.div_small rc) by lia. done.
Qed.

Lemma god_used_delete : Z.land (god_fl_used rc) PRS_GOD_HEADER_DELETE_MARK = 0.
Proof using Hrc.
  unfold god_fl_used. change PRS_GOD_HEADER_DELETE_MARK with (2 ^ 12). rewrite land_bit by lia.
  replace (0x6000 + rc) with (6 * 2 ^ 12 + rc) by lia.
  rewrite Z.div_add_l, (Z.div_small rc) by lia. done.
Qed.

Lemma god_used_refcnt : Z.land (god_fl_used rc) PRS_GOD_HEADER_REFCNT = rc.
Proof using Hrc.
  unfold god_fl_used. change PRS_GOD_HEADER_REFCNT with (2 ^ 12 - 1). rewrite land_low by lia.
  replace (0x6000 + rc) with (rc + 6 * 2 ^ 12) by lia. rewrite Z.mod_add by lia. by apply Z.mod_small.
Qed.
End used.

(** The three headers of [prs_god_alloc_and_lock], and the one of the last unlock. *)
Lemma god_new_header i : 0 ≤ i < 2 ^ 32 →
  Z.lor (Z.lor (PRS_GOD_SET_ID i) PRS_GOD_HEADER_RESERVED) 1 = god_hdr i god_fl_reserved.
Proof.
  intros Hi. unfold PRS_GOD_SET_ID. change PRS_GOD_NONID_BITS with 32.
  rewrite Z.shiftl_mul_pow2, u64_small, <- Z.lor_assoc by lia.
  change (Z.lor PRS_GOD_HEADER_RESERVED 1) with god_fl_reserved.
  unfold god_hdr. apply lor_high_low; [lia|]. unfold god_fl_reserved. lia.
Qed.

Lemma god_first_header i : 0 ≤ i < 2 ^ 32 →
  Z.lor (god_hdr i god_fl_reserved) PRS_GOD_HEADER_USED = god_hdr i (god_fl_used 1).
Proof. intros Hi. by rewrite god_hdr_or by (done || vm_compute; done). Qed.

Lemma god_delete_header_one i : 0 ≤ i < 2 ^ 32 →
  god_delete_header (god_hdr i (god_fl_used 1)) = god_hdr i god_fl_deleted.
Proof.
  intros Hi. unfold god_delete_header. rewrite god_hdr_or by (done || vm_compute; done).
  change (Z.lor (god_fl_used 1) PRS_GOD_HEADER_DELETE_MARK) with 0x7001.
  unfold god_hdr. rewrite <- (lor_high_low i 0x7001) by lia.
  rewrite Z.land_lor_distr_l. change (Z.land 0x7001 _) with 0x7000.
  assert (Z.land (i * 2 ^ 32) (u64 (Z.lnot PRS_GOD_HEADER_REFCNT)) = i * 2 ^ 32) as ->.
  { change (u64 (Z.lnot PRS_GOD_HEADER_REFCNT)) with (Z.lor (Z.ones 32 * 2 ^ 32) 0xFFFFF000).
    rewrite Z.land_lor_distr_r, (land_high_low i 0xFFFFF000 32), Z.lor_0_r by lia.
    rewrite <- !Z.shiftl_mul_pow2, <- Z.shiftl_land, Z.land_ones, Z.mod_small by lia. done. }
  unfold god_fl_deleted. apply lor_high_low; lia.
Qed.

(** ** The representation *)

Section representation.
Context {W : Type} (k : Z) (Hk : 0 < k ≤ 31).
#[local] Abbreviation obj := (ptr * prs_object_ops W)%type.
Implicit Types (g : prs_god W) (m : dirmap obj) (e : prs_god_entry W).

Definition god_live e : option Z :=
  if PRS_GOD_TEST_FLAG (god_header e) PRS_GOD_HEADER_RESERVED =? 0 then None
  else Some (PRS_GOD_GET_ID (god_header e)).

(** An owned entry is being registered or destroyed; entry 0 is set aside. *)
Definition god_owned_fl (i fl : Z) : Prop :=
  fl = god_fl_reserved ∨ fl = god_fl_deleted ∨ (i = PRS_OBJECT_ID_INVALID ∧ fl = god_fl_used 0).

Definition god_ok (i : Z) (d : dentry obj) e : Prop :=
  0 ≤ i < 2 ^ 32 ∧
  match d with
  | DEntry (Owned _) _ => ∃ fl, god_owned_fl i fl ∧ god_header e = god_hdr i fl
  | DEntry (Shared hs) x =>
      ∃ ops, x = Published (god_object e, ops) ∧ god_ops e = Some ops ∧ i ≠ PRS_OBJECT_ID_INVALID ∧
        (0 < length hs)%nat ∧ Z.of_nat (length hs) < 2 ^ 12 ∧
        god_header e = god_hdr i (god_fl_used (Z.of_nat (length hs)))
  end.

Lemma god_live_hdr e id fl :
  0 ≤ id < 2 ^ 32 → 0 ≤ fl < 2 ^ 32 → god_header e = god_hdr id fl →
  god_live e = if Z.land fl PRS_GOD_HEADER_RESERVED =? 0 then None else Some id.
Proof using.
  intros Hid Hfl He. unfold god_live. by rewrite He, god_hdr_flag, god_hdr_id.
Qed.

Lemma god_owned_range i fl : god_owned_fl i fl →
  0 ≤ fl < 2 ^ 32 ∧ Z.land fl PRS_GOD_HEADER_RESERVED = PRS_GOD_HEADER_RESERVED.
Proof using. intros [->|[->|[_ ->]]]; (split; [vm_compute; done|done]). Qed.

Lemma god_ok_live i d e : god_ok i d e → god_live e = Some i.
Proof using.
  destruct d as [[t|hs] x]; intros [Hi H].
  - destruct H as (fl & Ho & Hh). destruct (god_owned_range i fl Ho) as [Hr Hres].
    by rewrite (god_live_hdr e i fl), Hres.
  - destruct H as (ops & _ & _ & _ & _ & Hl & Hh).
    pose proof (god_used_range (Z.of_nat (length hs)) ltac:(lia)) as Hr.
    rewrite (god_live_hdr e i _ Hi Hr Hh). by rewrite god_used_reserved by lia.
Qed.

Definition god_slot (i : Z) : nat := Z.to_nat (i mod 2 ^ k).

(** A header; one that is not reserved is not in use. *)
Definition god_wf (h : Z) : Prop :=
  0 ≤ h < 2 ^ 64 ∧
  (PRS_GOD_TEST_FLAG h PRS_GOD_HEADER_RESERVED = 0 → PRS_GOD_TEST_FLAG h PRS_GOD_HEADER_USED = 0).

Lemma god_wf_owned i fl : 0 ≤ i < 2 ^ 32 → god_owned_fl i fl → god_wf (god_hdr i fl).
Proof using.
  intros Hi Ho. destruct (god_owned_range i fl Ho) as [Hr Hres]. split; [by apply god_hdr_range|].
  by rewrite god_hdr_flag, Hres.
Qed.

Lemma god_wf_used i rc : 0 ≤ i < 2 ^ 32 → 0 ≤ rc < 2 ^ 12 → god_wf (god_hdr i (god_fl_used rc)).
Proof using.
  intros Hi Hrc. pose proof (god_used_range rc Hrc) as Hr. split; [by apply god_hdr_range|].
  by rewrite god_hdr_flag, god_used_reserved.
Qed.

Lemma god_wf_free i : 0 ≤ i < 2 ^ 32 → god_wf (god_hdr i 0).
Proof using. intros Hi. split; [by apply god_hdr_range|]. by rewrite !god_hdr_flag. Qed.

Record god_shape g : Prop := GodShape {
  god_shape_max : god_max_entries g = 2 ^ k;
  god_shape_mask : god_max_entries_mask g = 2 ^ k - 1;
  god_shape_len : Z.of_nat (length (god_entries g)) = 2 ^ k;
  god_shape_hdr : Forall (λ e, god_wf (god_header e)) (god_entries g);
  god_shape_write : 0 < god_write_index g < 2 ^ 32
}.

Definition god_rep g m : Prop :=
  god_shape g ∧ table_rep god_slot god_live god_ok (god_entries g) m.

#[export] Instance god_dir : RefDirOps (prs_god W) obj := {
  rd_alloc o := id ← prs_god_alloc_and_lock o.1 (Some o.2);
                Done (if id =? PRS_OBJECT_ID_INVALID then None else Some id);
  rd_lock fuel id := r ← prs_god_lock_entry fuel id;
                     match (r : option Z) with
                     | Some entry =>
                         ops ← god_deref_ops entry;
                         object ← read (god_object_cell entry);
                         Done (Some (object, ops))
                     | None => Done None
                     end;
  rd_mode := bool;
  rd_try u := u;
  rd_unlock fuel u id :=
    if (u : bool) then r ← prs_god_try_unlock_final fuel id; Done (bool_decide (r = PRS_OK))
    else prs_god_unlock fuel id;; Done true;
  rd_key i := i;
  rd_valid i := true;
  rd_eager := True;
  rd_rep := god_rep;
  rd_same g g' i := god_entries g !! god_slot i = god_entries g' !! god_slot i
}.

Lemma god_entry_exists g i : god_shape g → ∃ e, god_entries g !! god_slot i = Some e.
Proof using Hk.
  intros H. apply lookup_lt_is_Some_2. pose proof (god_shape_len g H).
  pose proof (Z.mod_pos_bound i (2 ^ k)). unfold god_slot. lia.
Qed.

Lemma god_slot_range i : 0 ≤ i mod 2 ^ k.
Proof using Hk. apply Z.mod_pos_bound. lia. Qed.

Lemma god_header_get g i e : god_entries g !! god_slot i = Some e →
  cell_get (god_header_cell (i mod 2 ^ k)) g = Ret (god_header e).
Proof using Hk. apply array_cell_get, god_slot_range. Qed.

Lemma god_header_set g i e v : god_entries g !! god_slot i = Some e →
  cell_set (god_header_cell (i mod 2 ^ k)) v g =
    Ret (god_set_entries (<[god_slot i := GodEntry v (god_object e) (god_ops e)]> (god_entries g)) g).
Proof using Hk. exact (array_cell_set _ _ _ _ g _ e v (god_slot_range i)). Qed.

Lemma god_object_get g i e : god_entries g !! god_slot i = Some e →
  cell_get (god_object_cell (i mod 2 ^ k)) g = Ret (god_object e).
Proof using Hk. apply array_cell_get, god_slot_range. Qed.

Lemma god_object_set g i e v : god_entries g !! god_slot i = Some e →
  cell_set (god_object_cell (i mod 2 ^ k)) v g =
    Ret (god_set_entries (<[god_slot i := GodEntry (god_header e) v (god_ops e)]> (god_entries g)) g).
Proof using Hk. exact (array_cell_set _ _ _ _ g _ e v (god_slot_range i)). Qed.

Lemma god_ops_get g i e : god_entries g !! god_slot i = Some e →
  cell_get (god_ops_cell (i mod 2 ^ k)) g = Ret (god_ops e).
Proof using Hk. apply array_cell_get, god_slot_range. Qed.

Lemma god_ops_set g i e v : god_entries g !! god_slot i = Some e →
  cell_set (god_ops_cell (i mod 2 ^ k)) v g =
    Ret (god_set_entries (<[god_slot i := GodEntry (god_header e) (god_object e) v]> (god_entries g)) g).
Proof using Hk. exact (array_cell_set _ _ _ _ g _ e v (god_slot_range i)). Qed.

Lemma god_shape_set g s e :
  god_shape g → god_wf (god_header e) →
  god_shape (god_set_entries (<[s := e]> (god_entries g)) g).
Proof using.
  intros [H1 H2 H3 H4 H5] He. split; simpl; [done|done|by rewrite length_insert| |done].
  by apply Forall_insert.
Qed.

Lemma god_shape_entry g s e :
  god_shape g → god_entries g !! s = Some e →
  ∃ id fl, 0 ≤ id < 2 ^ 32 ∧ 0 ≤ fl < 2 ^ 32 ∧ god_header e = god_hdr id fl.
Proof using.
  intros [_ _ _ H _] He. apply god_hdr_split. by destruct (Forall_lookup_1 _ _ _ _ H He).
Qed.

(** The guarantee, for an action on the entry of ID [i] and on [m !! i] only. *)
Lemma god_guar t g m g' m' i e e' :
  god_rep g m → god_rep g' m' → dir_step t m m' →
  god_entries g !! god_slot i = Some e → god_live e = None ∨ god_live e = Some i →
  god_entries g' = <[god_slot i := e']> (god_entries g) →
  (∀ t', t' ≠ t → ¬ owned_by t' m i) →
  guar t (g, m) (g', m').
Proof using.
  intros Hrep Hrep' Hstep He Hl Hes Ho. split; [done|]. split; [done|]. split; [done|].
  intros t' j Hne [x Hj]. simpl in *. rewrite Hes, list_lookup_insert_ne; [done|].
  intros Hs. eapply table_slot_other; [apply god_ok_live|apply Hrep|apply He|apply Hl|apply Hj| |done].
  intros ->. apply (Ho t' Hne). by exists x.
Qed.

Lemma god_guar_same t g m g' :
  god_rep g m → god_rep g' m → god_entries g' = god_entries g → guar t (g, m) (g', m).
Proof using.
  intros Hrep Hrep' Hes. split; [done|]. split; [done|]. split; [constructor|].
  intros t' j _ _. simpl. by rewrite Hes.
Qed.

Lemma god_guar_nop t g m : god_rep g m → guar t (g, m) (g, m).
Proof using. intros H. by apply god_guar_same. Qed.

Lemma god_rely_rep t g m g' m' : rely t (g, m) (g', m') → god_rep g m → god_rep g' m'.
Proof using. exact (rely_rep t g m g' m'). Qed.

Lemma god_rely_owned t g m g' m' i :
  rely t (g, m) (g', m') → owned_by t m i →
  owned_by t m' i ∧ god_entries g' !! god_slot i = god_entries g !! god_slot i.
Proof using.
  intros HR Ho. split; [by apply (rely_owned t _ _ _ _ _ HR)|]. symmetry.
  refine (rely_same (RefDirOps0 := god_dir) t g m g' m' i _ _ HR Ho);
    [done|intros c1 c2 c3; simpl; congruence].
Qed.

Lemma rg_god_get_entry {A : Type} t i (f : Z → prog (prs_god W) A) Q g m :
  god_rep g m →
  (∀ g' m', rely t (g, m) (g', m') → god_rep g' m' →
    rg True True True (rely t) (guar t) (f (i mod 2 ^ k)) Q g' m') →
  rg True True True (rely t) (guar t) (prs_god_get_entry i ≫= f) Q g m.
Proof using Hk.
  intros Hrep Hf. unfold prs_god_get_entry. rg_bind. rg_bind_peek.
  intros g1 m1 HR. pose proof (god_rely_rep _ _ _ _ _ HR Hrep) as Hrep1.
  split; [by apply god_guar_nop|]. rewrite (god_shape_mask g1) by apply Hrep1.
  rewrite land_low by lia. apply rg_done. intros g2 m2 HR2. apply Hf.
  - by transitivity (g1, m1).
  - by apply (god_rely_rep _ _ _ _ _ HR2).
Qed.

(** *** The updates of an entry, on the map *)

Lemma god_rep_set g m i e e' d :
  god_rep g m → god_entries g !! god_slot i = Some e → god_live e = None ∨ god_live e = Some i →
  god_ok i d e' →
  god_rep (god_set_entries (<[god_slot i := e']> (god_entries g)) g) (<[i := d]> m).
Proof using.
  intros [Hsh Ht] He Hl Hok. split.
  - apply god_shape_set; [done|]. destruct d as [[t|hs] x], Hok as [Hi Hh].
    + destruct Hh as (fl & Ho & ->). by apply god_wf_owned.
    + destruct Hh as (ops & _ & _ & _ & _ & Hlen & ->). apply god_wf_used; [done|lia].
  - eapply table_set; [apply god_ok_live|done|done|done|done|done].
Qed.

Lemma god_rep_unset g m i e e' :
  god_rep g m → god_entries g !! god_slot i = Some e → god_live e = Some i →
  0 ≤ i < 2 ^ 32 → god_header e' = god_hdr i 0 →
  god_rep (god_set_entries (<[god_slot i := e']> (god_entries g)) g) (delete i m).
Proof using.
  intros [Hsh Ht] He Hl Hi He'. split.
  - apply god_shape_set; [done|]. rewrite He'. by apply god_wf_free.
  - eapply table_unset; [apply god_ok_live|done|done|done|]. by rewrite (god_live_hdr e' i 0).
Qed.

Lemma god_rep_entry g m i d :
  god_rep g m → m !! i = Some d →
  ∃ e, god_entries g !! god_slot i = Some e ∧ god_ok i d e ∧ god_live e = Some i.
Proof using.
  intros [_ Ht] Hm. destruct (table_lookup _ _ _ _ _ _ _ Ht Hm) as (e & He & Hok).
  exists e. split; [done|]. split; [done|]. by eapply god_ok_live.
Qed.

(** An entry whose header has the ID [i] and is in use, not marked for deletion. *)
Lemma god_rep_used g m i e :
  god_rep g m → god_entries g !! god_slot i = Some e → i ≠ PRS_OBJECT_ID_INVALID →
  PRS_GOD_GET_ID (god_header e) = i →
  PRS_GOD_TEST_FLAG (god_header e) PRS_GOD_HEADER_USED ≠ 0 →
  PRS_GOD_TEST_FLAG (god_header e) PRS_GOD_HEADER_DELETE_MARK = 0 →
  ∃ hs ops, m !! i = Some (DEntry (Shared hs) (Published (god_object e, ops))) ∧ 0 ≤ i < 2 ^ 32 ∧
    god_ops e = Some ops ∧ (0 < length hs)%nat ∧ Z.of_nat (length hs) < 2 ^ 12 ∧
    god_header e = god_hdr i (god_fl_used (Z.of_nat (length hs))).
Proof using.
  intros [Hsh Ht] He Hi0 Hid Hus Hdel.
  assert (PRS_GOD_TEST_FLAG (god_header e) PRS_GOD_HEADER_RESERVED ≠ 0) as Hres.
  { intros Hz. apply Hus. by apply (Forall_lookup_1 _ _ _ _ (god_shape_hdr g Hsh) He). }
  destruct (table_live _ _ _ _ m _ e i Ht He) as (d & Hm & Hi & Hok).
  { unfold god_live. rewrite (proj2 (Z.eqb_neq _ 0)) by done. by rewrite Hid. }
  destruct d as [[t|hs] x].
  - destruct Hok as (fl & Ho & Hh). destruct (god_owned_range i fl Ho) as [Hr _].
    rewrite Hh, god_hdr_flag in Hus, Hdel by done.
    destruct Ho as [->|[->|[-> _]]]; [by vm_compute in Hus|by vm_compute in Hdel|done].
  - destruct Hok as (ops & -> & Hops & _ & Hpos & Hlt & Hh). by exists hs, ops.
Qed.
End representation.

(** ** The directory implements the contract *)

Section contract.
Context {W : Type} (k : Z) (Hk : 0 < k ≤ 31).
#[local] Abbreviation obj := (ptr * prs_object_ops W)%type.
Implicit Types (g : prs_god W) (m : dirmap obj) (e : prs_god_entry W).
#[local] Existing Instance god_dir.
#[local] Abbreviation rep := (god_rep k).
#[local] Abbreviation dir := (god_dir (W := W) k).
#[local] Abbreviation rel := (rely (RefDirOps0 := dir)).
#[local] Abbreviation gua := (guar (RefDirOps0 := dir)).

Lemma god_same t g m g' m' : rel t (g, m) (g', m') → held_same t m m'.
Proof using. exact (held_same_rely t g m g' m'). Qed.

(** The entry of an ID that [t] owns, now and after the others have moved. *)
Lemma god_owned_entry t g m i e g' m' :
  rep g m → owned_by t m i → god_entries g !! god_slot k i = Some e →
  rel t (g, m) (g', m') →
  rep g' m' ∧ owned_by t m' i ∧ god_entries g' !! god_slot k i = Some e ∧
  ∃ fl, god_owned_fl i fl ∧ god_header e = god_hdr i fl ∧ god_live e = Some i ∧ 0 ≤ i < 2 ^ 32.
Proof using.
  intros Hrep Ho He HR. split; [by apply (god_rely_rep _ _ _ _ _ _ HR)|].
  destruct (god_rely_owned k t g m g' m' _ HR Ho) as [Ho' Hes]. rewrite He in Hes.
  split; [done|]. split; [done|]. destruct Ho as [x Hm].
  destruct (god_rep_entry k g m _ _ Hrep Hm) as (e' & He' & [Hi (fl & Hfl & Hh)] & Hl).
  simplify_eq. by exists fl.
Qed.

(** The owner writes the object or the operations. *)
Lemma god_owned_write t g m i e e' :
  rep g m → owned_by t m i → god_entries g !! god_slot k i = Some e →
  god_header e' = god_header e →
  let g' := god_set_entries (<[god_slot k i := e']> (god_entries g)) g in
  rep g' m ∧ gua t (g, m) (g', m).
Proof using.
  intros Hrep Ho He Heq g'.
  destruct (god_owned_entry t g m i e g m Hrep Ho He) as (_ & _ & _ & fl & Hfl & Hh & Hl & Hi);
    [reflexivity|].
  pose proof Ho as [x Hm].
  assert (rep g' m) as Hrep'.
  { assert (god_ok i (DEntry (Owned t) x) e') as Hok by (split; [done|]; exists fl; by rewrite Heq).
    pose proof (god_rep_set k g m i e e' _ Hrep He (or_intror Hl) Hok) as H.
    by rewrite (insert_id m) in H by done. }
  split; [done|]. eapply god_guar; [done|done|constructor|exact He|by right|done|].
  intros t'. by apply owned_not_other.
Qed.

(** After the exchange of [prs_god_alloc_and_lock]. *)
Lemma god_alloc_tail t i o ops g m (m0 : dirmap obj) :
  rep g m → 0 < i → i + 1 < 2 ^ 32 → held_same t m0 m → owned_by t m i →
  rg True True True (rel t) (gua t)
    (prs_pal_atomic_store god_write_index_cell (u32 (i + 1));;
     write (god_object_cell (i mod 2 ^ k)) o;;
     write (god_ops_cell (i mod 2 ^ k)) (Some ops);;
     prs_pal_atomic_store (god_header_cell (i mod 2 ^ k)) (god_hdr i (god_fl_used 1));;
     Done i)
    (λ r g' m', rep g' m' ∧ r = i ∧ held_plus t m0 m' i ∧ object_of m' i = Some (o, ops)) g m.
Proof using Hk.
  intros Hrep Hi Hi1 Hs Ho. destruct (god_entry_exists k Hk g i) as [e He]; [apply Hrep|].
  rg_bind_store. intros g1 m1 HR1.
  destruct (god_owned_entry t g m i e g1 m1 Hrep Ho He HR1) as (Hrep1 & Ho1 & He1 & _).
  eexists _, m1. split; [reflexivity|].
  assert (rep (god_set_write_index (u32 (i + 1)) g1) m1) as Hrep1'.
  { destruct Hrep1 as [[] ?]. split; [split|]; try done. simpl. rewrite u32_small; lia. }
  split; [by apply god_guar_same|]. rg_bind_store. intros g2 m2 HR2.
  destruct (god_owned_entry t _ m1 i e g2 m2 Hrep1' Ho1 He1 HR2) as (Hrep2 & Ho2 & He2 & _).
  eexists _, m2. split; [by apply god_object_set|].
  set (e2 := GodEntry (god_header e) o (god_ops e)).
  destruct (god_owned_write t g2 m2 i e e2 Hrep2 Ho2 He2 eq_refl) as [Hrep2' Hg2].
  split; [exact Hg2|]. rg_bind_store. intros g3 m3 HR3.
  assert (∀ g e', god_entries g !! god_slot k i = Some e → ∀ e1,
    god_entries (god_set_entries (<[god_slot k i := e1]> (god_entries g)) g) !! god_slot k i = Some e1) as Hset.
  { intros g' _ Hg' e1. apply list_lookup_insert_eq. by eapply lookup_lt_Some. }
  destruct (god_owned_entry t _ m2 i e2 g3 m3 Hrep2' Ho2 (Hset g2 e He2 _) HR3) as (Hrep3 & Ho3 & He3 & _).
  eexists _, m3. split; [by apply god_ops_set|].
  set (e3 := GodEntry (god_header e) o (Some ops)).
  destruct (god_owned_write t g3 m3 i e2 e3 Hrep3 Ho3 He3 eq_refl) as [Hrep3' Hg3].
  split; [exact Hg3|]. rg_bind_store. intros g4 m4 HR4.
  destruct (god_owned_entry t _ m3 i e3 g4 m4 Hrep3' Ho3) with (2 := HR4)
    as (Hrep4 & Ho4 & He4 & fl & Hfl & Hh & Hl & _).
  { apply list_lookup_insert_eq. by eapply lookup_lt_Some. }
  eexists _, (<[i := DEntry (Shared [t]) (Published (o, ops))]> m4).
  split; [by apply god_header_set|].
  assert (god_ok i (DEntry (Shared [t]) (Published (o, ops))) (GodEntry (god_hdr i (god_fl_used 1)) o (Some ops))) as Hok.
  { split; [lia|]. exists ops. unfold PRS_OBJECT_ID_INVALID. split_and!; simpl; try done; lia. }
  pose proof (god_rep_set k g4 m4 i e3 _ _ Hrep4 He4 (or_intror Hl) Hok) as Hrep5.
  split.
  { destruct Ho4 as [x Hm4]. eapply god_guar; [done|exact Hrep5|by eapply dir_first|done|by right|done|].
    intros t'. apply owned_not_other. by exists x. }
  apply rg_done. intros g6 m6 HR6. split; [by apply (god_rely_rep _ _ _ _ _ _ HR6)|]. split; [done|].
  assert (held_plus t m0 (<[i := DEntry (Shared [t]) (Published (o, ops))]> m4) i) as Hp.
  { apply held_plus_first; [|done]. eapply held_same_trans; [done|].
    do 3 (eapply held_same_trans; [by eapply god_same|]). by eapply god_same. }
  split; [eapply held_plus_same; [done|by eapply god_same]|].
  apply (rely_object t _ _ _ _ _ _ HR6).
  - rewrite Hp, decide_True by done. lia.
  - unfold object_of. by rewrite lookup_insert_eq.
Qed.

Definition god_alloc_post (t : nat) m0 (o : obj) (r : Z) g' m' : Prop :=
  rep g' m' ∧
  if r =? PRS_OBJECT_ID_INVALID then held_same t m0 m'
  else held_plus t m0 m' r ∧ object_of m' r = Some o.

Lemma god_alloc_loop_rg t o m0 n i g m :
  rep g m → held_same t m0 m → 0 < i → i + Z.of_nat n < 2 ^ 32 →
  rg True True True (rel t) (gua t) (prs_god_alloc_loop n i o.1 (Some o.2)) (god_alloc_post t m0 o) g m.
Proof using Hk.
  revert i g m. induction n as [|n IH]; intros i g m Hrep Hsame Hi Hn.
  - apply rg_done. intros g1 m1 HR. split; [by apply (god_rely_rep _ _ _ _ _ _ HR)|].
    eapply held_same_trans; [done|by eapply god_same].
  - cbn [prs_god_alloc_loop]. apply rg_god_get_entry; [done|done|]. intros g1 m1 HR1 Hrep1.
    rg_bind_load. intros g2 m2 HR2. pose proof (god_rely_rep _ _ _ _ _ _ HR2 Hrep1) as Hrep2.
    destruct (god_entry_exists k Hk g2 i) as [e He]; [apply Hrep2|].
    exists (god_header e). split; [by apply god_header_get|]. split; [by apply god_guar_nop|].
    assert (held_same t m0 m2) as Hsame2.
    { apply (held_same_trans _ _ _ _ Hsame). eapply held_same_trans; by eapply god_same. }
    assert (∀ g3 m3, rel t (g2, m2) (g3, m3) →
      rg True True True (rel t) (gua t) (prs_god_alloc_loop n (i + 1) o.1 (Some o.2)) (god_alloc_post t m0 o) g3 m3) as Hnext.
    { intros g3 m3 HR3. apply IH; [by apply (god_rely_rep _ _ _ _ _ _ HR3)| |lia..].
      eapply held_same_trans; [done|by eapply god_same]. }
    destruct (truthy _) eqn:Hal; [by apply Hnext|]. apply truthy_false in Hal.
    destruct (Z.eqb_spec (PRS_GOD_GET_ID (god_header e)) i) as [Hid|Hid]; [by apply Hnext|].
    rg_bind_cas_strong. intros g3 m3 HR3.
    pose proof (god_rely_rep _ _ _ _ _ _ HR3 Hrep2) as Hrep3.
    destruct (god_entry_exists k Hk g3 i) as [e3 He3]; [apply Hrep3|].
    exists (god_header e3). split; [by apply god_header_get|].
    case_decide as Heq; cbn [negb]; [|split; [by apply god_guar_nop|by apply Hnext]].
    rewrite god_new_header, god_first_header by lia.
    assert (god_live e3 = None) as Hl by (unfold god_live; by rewrite Heq, (proj2 (Z.eqb_eq _ _) Hal)).
    assert (m3 !! i = None) as Hnone.
    { eapply (table_not_live (god_slot k) god_live god_ok god_ok_live);
        [apply Hrep3|done|done|by rewrite Hl]. }
    pose proof (god_rep_set k g3 m3 i e3
      (GodEntry (god_hdr i god_fl_reserved) (god_object e3) (god_ops e3))
      (DEntry (Owned t) (Unpublished t)) Hrep3 He3 (or_introl Hl)) as Hrep4.
    specialize (Hrep4 ltac:(split; [lia|exists god_fl_reserved; split; [by left|done]])).
    eexists. eexists. split; [by apply god_header_set|]. split.
    { eapply god_guar; [done|exact Hrep4|by apply dir_reserve|done|by left|done|].
      intros t' _. by apply absent_not_owned. }
    eapply rg_mono; [|apply (god_alloc_tail t i o.1 o.2 _ _ m0 Hrep4); [lia|lia| |]].
    + intros r g5 m5 (Hrep5 & -> & Hp & Hob). split; [done|].
      rewrite (proj2 (Z.eqb_neq i _)) by (unfold PRS_OBJECT_ID_INVALID; lia). by destruct o.
    + eapply held_same_trans; [|by apply held_same_reserve].
      eapply held_same_trans; [done|by eapply god_same].
    + exists (Unpublished t). by rewrite lookup_insert_eq.
Qed.

Lemma god_alloc_rg t o g m :
  rep g m →
  rg True True True (rel t) (gua t) (prs_god_alloc_and_lock o.1 (Some o.2)) (god_alloc_post t m o) g m.
Proof using Hk.
  intros Hrep. unfold prs_god_alloc_and_lock. rg_bind_load. intros g1 m1 HR1.
  pose proof (god_rely_rep _ _ _ _ _ _ HR1 Hrep) as Hrep1.
  exists (god_write_index g1). split; [done|]. split; [by apply god_guar_nop|].
  rg_bind_peek. intros g2 m2 HR2. pose proof (god_rely_rep _ _ _ _ _ _ HR2 Hrep1) as Hrep2.
  split; [by apply god_guar_nop|].
  pose proof (god_shape_write k g1 (proj1 Hrep1)).
  pose proof (u32_range (god_write_index g1 + god_max_entries g2)).
  apply god_alloc_loop_rg; [done| |lia|lia].
  eapply held_same_trans; by eapply god_same.
Qed.

(** A test of a header that gives up, or goes on with what it has learnt. *)
Lemma god_lock_entry_rg t fuel i g m :
  rep g m →
  rg True True True (rel t) (gua t) (prs_god_lock_entry fuel i)
    (λ r g' m', rep g' m' ∧
      match r with
      | Some entry => entry = i mod 2 ^ k ∧ held_plus t m m' i
      | None => held_same t m m'
      end) g m.
Proof using Hk.
  intros Hrep. unfold prs_god_lock_entry. destruct (Z.eqb_spec i PRS_OBJECT_ID_INVALID) as [|Hinv].
  { apply rg_done. intros g1 m1 HR. split; [by apply (god_rely_rep _ _ _ _ _ _ HR)|].
    by eapply god_same. }
  apply rg_god_get_entry; [done|done|]. intros g1 m1 HR1 Hrep1.
  rg_bind_load. intros g2 m2 HR2. pose proof (god_rely_rep _ _ _ _ _ _ HR2 Hrep1) as Hrep2.
  destruct (god_entry_exists k Hk g2 i) as [e He]; [apply Hrep2|].
  exists (god_header e). split; [by apply god_header_get|]. split; [by apply god_guar_nop|].
  assert (∀ g4 m4, rel t (g2, m2) (g4, m4) → rep g4 m4 ∧ held_same t m m4) as Hout.
  { intros g4 m4 HR4. split; [by apply (god_rely_rep _ _ _ _ _ _ HR4)|].
    eapply god_same. transitivity (g1, m1); [done|]. by transitivity (g2, m2). }
  rg_cas_weak_loop.
  - intros g3 m3 HR3. apply god_guar_nop. by apply (god_rely_rep _ _ _ _ _ _ HR3).
  - intros g3 m3 HR3. destruct (Hout g3 m3 HR3) as [Hrep3 Hs3].
    destruct (god_entry_exists k Hk g3 i) as [e3 He3]; [apply Hrep3|].
    exists (god_header e3). split; [by apply god_header_get|].
    assert (∀ g4 m4, rel t (g3, m3) (g4, m4) → rep g4 m4 ∧ held_same t m m4) as Hout3.
    { intros g4 m4 HR4. apply Hout. by transitivity (g3, m3). }
    destruct (Z.eqb_spec (PRS_GOD_GET_ID (god_header e3)) i) as [Hid|]; [|done]. cbn [negb].
    destruct (truthy (PRS_GOD_TEST_FLAG _ PRS_GOD_HEADER_USED)) eqn:Hus; [|done].
    apply truthy_true in Hus. cbn [negb].
    destruct (truthy (PRS_GOD_TEST_FLAG _ PRS_GOD_HEADER_DELETE_MARK)) eqn:Hdel; [done|].
    apply truthy_false in Hdel.
    destruct (Z.eqb_spec (PRS_GOD_TEST_FLAG (god_header e3) PRS_GOD_HEADER_REFCNT)
      PRS_GOD_HEADER_REFCNT) as [|Hmax]; [done|].
    destruct (god_rep_used k g3 m3 i e3 Hrep3 He3 Hinv Hid Hus Hdel)
      as (hs & ops & Hm3 & Hi & Hops & Hpos & Hlt & Hh).
    pose proof (god_used_range (Z.of_nat (length hs)) ltac:(lia)) as Hr.
    rewrite Hh, god_hdr_flag, god_used_refcnt in Hmax by (done || lia).
    change PRS_GOD_HEADER_REFCNT with (2 ^ 12 - 1) in Hmax.
    assert (god_live e3 = Some i) as Hl.
    { rewrite (god_live_hdr e3 i _ Hi Hr Hh). by rewrite god_used_reserved by lia. }
    assert (u64 (god_header e3 + 1) = god_hdr i (god_fl_used (Z.of_nat (length hs) + 1))) as ->.
    { rewrite Hh. unfold god_hdr, god_fl_used in *. rewrite u64_small; lia. }
    pose proof (god_rep_set k g3 m3 i e3
      (GodEntry (god_hdr i (god_fl_used (Z.of_nat (length hs) + 1))) (god_object e3) (god_ops e3))
      (DEntry (Shared (t :: hs)) (Published (god_object e3, ops))) Hrep3 He3 (or_intror Hl)) as Hrep4.
    specialize (Hrep4 ltac:(split; [done|]; exists ops; cbn [length god_header god_object god_ops];
      split_and!; [done|done|done|lia|lia|do 2 f_equal; lia])).
    eexists. eexists. split; [by apply god_header_set|]. split.
    { eapply god_guar; [done|exact Hrep4|by apply dir_lock|done|by right|done|].
      intros t' _. by eapply shared_not_owned. }
    intros g5 m5 HR5. split; [by apply (god_rely_rep _ _ _ _ _ _ HR5)|]. split; [done|].
    eapply held_plus_same; [by apply held_plus_one|by eapply god_same].
  - repeat (match goal with |- context [if ?b then _ else _] => destruct b end; try done);
      by apply Hout.
Qed.

(** What a holder finds in the entry. *)
Lemma god_held_entry t g m i :
  rep g m → (0 < held t m i)%nat →
  ∃ e hs ops, god_entries g !! god_slot k i = Some e ∧
    m !! i = Some (DEntry (Shared hs) (Published (god_object e, ops))) ∧ god_ops e = Some ops ∧
    t ∈ hs ∧ 0 ≤ i < 2 ^ 32 ∧ i ≠ PRS_OBJECT_ID_INVALID ∧ Z.of_nat (length hs) < 2 ^ 12 ∧
    god_live e = Some i ∧ god_header e = god_hdr i (god_fl_used (Z.of_nat (length hs))).
Proof using.
  intros Hrep Hh. apply held_pos in Hh as (hs & x & Hm & Hin).
  destruct (god_rep_entry k g m i _ Hrep Hm) as (e & He & [Hi (ops & -> & Hops & Hi0 & Hpos & Hlt & Hh)] & Hl).
  exists e, hs, ops. repeat (split; [done|]). done.
Qed.

(** A holder reads the operations and the object. *)
Lemma god_deref_ops_rg {A : Type} t i (f : prs_object_ops W → prog (prs_god W) A) Q g m :
  rep g m → (0 < held t m i)%nat →
  (∀ ops g' m', rel t (g, m) (g', m') → rep g' m' → (0 < held t m' i)%nat →
    option_map snd (object_of m' i) = Some ops → rg True True True (rel t) (gua t) (f ops) Q g' m') →
  rg True True True (rel t) (gua t) (god_deref_ops (i mod 2 ^ k) ≫= f) Q g m.
Proof using Hk.
  intros Hrep Hh Hf. unfold god_deref_ops. rg_bind. rg_bind_load. intros g1 m1 HR1.
  pose proof (god_rely_rep _ _ _ _ _ _ HR1 Hrep) as Hrep1.
  assert (0 < held t m1 i)%nat as Hh1 by (by rewrite (god_same _ _ _ _ _ HR1)).
  destruct (god_held_entry t g1 m1 i Hrep1 Hh1) as (e & hs & ops & He & Hm & Hops & Hin & _).
  exists (god_ops e). split; [by apply god_ops_get|]. split; [by apply god_guar_nop|].
  rewrite Hops. rg_act. intros g2 m2 HR2. exists ops, g2, m2. split; [done|].
  pose proof (god_rely_rep _ _ _ _ _ _ HR2 Hrep1) as Hrep2. split; [by apply god_guar_nop|].
  intros g3 m3 HR3. assert (rel t (g1, m1) (g3, m3)) as HR13 by (by transitivity (g2, m2)).
  apply Hf.
  - by transitivity (g1, m1).
  - by apply (god_rely_rep _ _ _ _ _ _ HR3).
  - by rewrite (god_same _ _ _ _ _ HR13).
  - rewrite (rely_object t _ _ _ _ _ (god_object e, ops) HR13); [done|done|].
    unfold object_of. by rewrite Hm.
Qed.

(** *** The thread that dropped the last reference *)

(** [t] owns [i], whose entry is [e], and holds one reference less than in [m0]. *)
Definition god_owner t i e m0 g m : Prop :=
  rep g m ∧ owned_by t m i ∧ god_entries g !! god_slot k i = Some e ∧ held_minus t m0 m i.

Lemma god_owner_rely t i e m0 g m g' m' :
  god_owner t i e m0 g m → rel t (g, m) (g', m') → god_owner t i e m0 g' m'.
Proof using.
  intros (Hrep & Ho & He & Hm) HR.
  destruct (god_owned_entry t g m i e g' m' Hrep Ho He HR) as (Hrep' & Ho' & He' & _).
  repeat (split; [done|]). eapply held_minus_same; [done|by eapply god_same].
Qed.

Lemma god_owner_deref {A : Type} t i e ops m0 (f : prs_object_ops W → prog (prs_god W) A) Q g m :
  god_ops e = Some ops → god_owner t i e m0 g m →
  (∀ g' m', god_owner t i e m0 g' m' → rg True True True (rel t) (gua t) (f ops) Q g' m') →
  rg True True True (rel t) (gua t) (god_deref_ops (i mod 2 ^ k) ≫= f) Q g m.
Proof using Hk.
  intros Hops Hown Hf. unfold god_deref_ops. rg_bind. rg_bind_load. intros g1 m1 HR1.
  pose proof (god_owner_rely _ _ _ _ _ _ _ _ Hown HR1) as Hown1.
  exists (god_ops e). split; [apply god_ops_get; [done|apply Hown1]|].
  split; [apply god_guar_nop, Hown1|]. rewrite Hops. rg_act. intros g2 m2 HR2.
  pose proof (god_owner_rely _ _ _ _ _ _ _ _ Hown1 HR2) as Hown2.
  exists ops, g2, m2. split; [done|]. split; [apply god_guar_nop, Hown2|].
  intros g3 m3 HR3. apply Hf. by eapply god_owner_rely.
Qed.

(** A callback changes the rest of the system only. *)
Lemma god_world_rep g m w : rep g m → rep (god_set_world w g) m.
Proof using. intros [[] ?]. by split; [split|]. Qed.

Lemma god_call_op_rg t op o (Q : unit → prs_god W → dirmap obj → Prop) g m :
  rep g m →
  (∀ g1 m1 w g2 m2, rel t (g, m) (g1, m1) → rel t (god_set_world w g1, m1) (g2, m2) → Q tt g2 m2) →
  rg True True True (rel t) (gua t) (call_op op o) Q g m.
Proof using.
  intros Hrep HQ. destruct op as [op|]; cbn [call_op].
  - rg_act. intros g1 m1 HR1. pose proof (god_rely_rep _ _ _ _ _ _ HR1 Hrep) as Hrep1.
    eexists tt, _, m1. split; [done|].
    split; [apply god_guar_same; [done|by apply god_world_rep|done]|].
    intros g2 m2 HR2. by eapply HQ.
  - apply rg_done. intros g1 m1 HR1. apply (HQ g m (god_world g)); [reflexivity|].
    by destruct g.
Qed.

Lemma god_owner_world t i e m0 g m w : god_owner t i e m0 g m → god_owner t i e m0 (god_set_world w g) m.
Proof using. intros (Hrep & Ho & He & Hm). split; [by apply god_world_rep|done]. Qed.

(** The exchange that frees the entry. *)
Lemma god_owner_final t fuel i e m0 g m :
  i ≠ PRS_OBJECT_ID_INVALID → god_owner t i e m0 g m →
  rg True True True (rel t) (gua t) (cas_weak_loop fuel (god_header_cell (i mod 2 ^ k))
    (λ header, inr (Z.land header PRS_GOD_HEADER_ID, tt)) (god_header e))
    (λ _ g' m', rep g' m' ∧ held_minus t m0 m' i) g m.
Proof using Hk.
  intros Hi0 Hown. rg_cas_weak_loop.
  - intros g1 m1 HR1. apply god_guar_nop. by apply (god_owner_rely _ _ _ _ _ _ _ _ Hown HR1).
  - intros g1 m1 HR1.
    destruct (god_owner_rely _ _ _ _ _ _ _ _ Hown HR1) as (Hrep1 & Ho1 & He1 & Hm1).
    destruct (god_owned_entry t g1 m1 i e g1 m1 Hrep1 Ho1 He1) as (_ & _ & _ & fl & Hfl & Hh & Hl & Hi);
      [reflexivity|].
    exists (god_header e). split; [by apply god_header_get|].
    rewrite Hh, god_hdr_clear by (done || by apply (god_owned_range i)).
    eexists _, (delete i m1). split; [by apply god_header_set|].
    pose proof (god_rep_unset k g1 m1 i e (GodEntry (god_hdr i 0) (god_object e) (god_ops e))
      Hrep1 He1 Hl Hi eq_refl) as Hrep2.
    split.
    { pose proof Ho1 as [x Hx]. eapply god_guar; [done|exact Hrep2|by eapply dir_free|done|by right|done|].
      intros t'. by apply owned_not_other. }
    intros g4 m4 HR4. split; [by apply (god_rely_rep _ _ _ _ _ _ HR4)|].
    eapply held_minus_same; [done|]. eapply held_same_trans; [by apply held_same_free|by eapply god_same].
Qed.

(** [prs_god_free]: the free callback, and then the header. *)
Lemma god_free_rg t fuel i e ops g m m0 :
  i ≠ PRS_OBJECT_ID_INVALID → god_ops e = Some ops → god_owner t i e m0 g m →
  rg True True True (rel t) (gua t) (prs_god_free fuel i) (λ _ g' m', rep g' m' ∧ held_minus t m0 m' i) g m.
Proof using Hk.
  intros Hi0 Hops Hown. unfold prs_god_free. rewrite (proj2 (Z.eqb_neq i _)) by done.
  apply rg_god_get_entry; [done|apply Hown|]. intros g1 m1 HR1 _.
  pose proof (god_owner_rely _ _ _ _ _ _ _ _ Hown HR1) as Hown1.
  rg_bind_load. intros g2 m2 HR2. pose proof (god_owner_rely _ _ _ _ _ _ _ _ Hown1 HR2) as Hown2.
  exists (god_header e). split; [apply god_header_get; [done|apply Hown2]|].
  split; [apply god_guar_nop, Hown2|].
  apply (god_owner_deref t i e ops m0); [done|done|]. intros g3 m3 Hown3.
  rg_bind. eapply rg_mono with (Q := λ _ g m, god_owner t i e m0 g m);
    [intros [] g4 m4 Hown4; by apply god_owner_final|].
  destruct (ops_free ops) as [free|] eqn:Hfree.
  - apply (god_owner_deref t i e ops m0); [done|done|]. intros g4 m4 Hown4.
    rg_bind_load. intros g5 m5 HR5. pose proof (god_owner_rely _ _ _ _ _ _ _ _ Hown4 HR5) as Hown5.
    exists (god_object e). split; [apply god_object_get; [done|apply Hown5]|].
    split; [apply god_guar_nop, Hown5|].
    apply god_call_op_rg; [apply Hown5|]. intros g6 m6 w g7 m7 HR6 HR7.
    eapply god_owner_rely; [|done]. apply god_owner_world. by eapply god_owner_rely.
  - apply rg_done. intros g4 m4 HR4. by eapply god_owner_rely.
Qed.

(** *** Dropping a reference *)

(** The exchange of [prs_god_unlock] by a holder: the header it leaves. *)
Lemma god_unlock_step t g m i :
  rep g m → (0 < held t m i)%nat →
  ∃ e ops new, god_entries g !! god_slot k i = Some e ∧ god_ops e = Some ops ∧
    god_unlock_body i (god_header e) = inr (new, Some new) ∧
    god_try_unlock_body i (god_header e) =
      (if PRS_GOD_TEST_FLAG new PRS_GOD_HEADER_REFCNT =? 0 then inr (new, PRS_OK) else inl PRS_LOCKED) ∧
    let e' := GodEntry new (god_object e) (god_ops e) in
    let g' := god_set_entries (<[god_slot k i := e']> (god_entries g)) g in
    ∃ m', rep g' m' ∧ gua t (g, m) (g', m') ∧ held_minus t m m' i ∧
      (PRS_GOD_TEST_FLAG new PRS_GOD_HEADER_REFCNT = 0 → god_owner t i e' m g' m').
Proof using Hk.
  intros Hrep Hheld.
  destruct (god_held_entry t g m i Hrep Hheld)
    as (e & hs & ops & He & Hm & Hops & Hin & Hi & Hi0 & Hlt & Hl & Hh).
  pose proof (length_drop_ref t hs Hin) as Hlen.
  pose proof (god_used_range (Z.of_nat (length hs)) ltac:(lia)) as Hr.
  exists e, ops. unfold god_unlock_body, god_try_unlock_body.
  rewrite Hh, god_hdr_id, !god_hdr_flag, god_used_used, god_used_refcnt, Z.eqb_refl by (done || lia).
  cbn [negb]. change (truthy PRS_GOD_HEADER_USED) with true. cbn [negb].
  assert (∀ t', t' ≠ t → ¬ owned_by t' m i) as Hno by (intros t' _; by eapply shared_not_owned).
  destruct (Z.eqb_spec (Z.of_nat (length hs)) 1) as [H1|H1].
  - assert (drop_ref t hs = []) as Hnil by (apply length_zero_iff_nil; lia).
    pose proof (drop_ref_nil t hs Hin Hnil) as ->. change (Z.of_nat (length [t])) with 1.
    rewrite god_delete_header_one by done. exists (god_hdr i god_fl_deleted).
    assert (0 ≤ god_fl_deleted < 2 ^ 32) as Hrd by (vm_compute; done).
    rewrite god_hdr_flag by done. change (Z.land god_fl_deleted PRS_GOD_HEADER_REFCNT) with 0.
    split; [done|]. split; [done|]. split; [done|]. split; [done|].
    exists (<[i := DEntry (Owned t) (Published (god_object e, ops))]> m).
    assert (god_ok i (DEntry (Owned t) (Published (god_object e, ops)))
      (GodEntry (god_hdr i god_fl_deleted) (god_object e) (god_ops e))) as Hok.
    { split; [done|]. exists god_fl_deleted. split; [by right; left|done]. }
    pose proof (god_rep_set k g m i e _ _ Hrep He (or_intror Hl) Hok) as Hrep'.
    split; [done|]. split; [|split; [by eapply held_minus_retire|]].
    + eapply god_guar; [done|exact Hrep'|by eapply dir_retire|done|by right|done|done].
    + intros _. split; [done|]. split; [|split; [|by eapply held_minus_retire]].
      * exists (Published (god_object e, ops)). by rewrite lookup_insert_eq.
      * apply list_lookup_insert_eq. by eapply lookup_lt_Some.
  - rewrite (proj2 (Z.eqb_neq _ 0)) by lia.
    assert (u64 (god_hdr i (god_fl_used (Z.of_nat (length hs))) - 1) =
      god_hdr i (god_fl_used (Z.of_nat (length (drop_ref t hs))))) as ->.
    { unfold god_hdr, god_fl_used in *. rewrite u64_small; lia. }
    exists (god_hdr i (god_fl_used (Z.of_nat (length (drop_ref t hs))))).
    assert (0 ≤ Z.of_nat (length (drop_ref t hs)) < 2 ^ 12) as Hlt' by (clear -Hlen Hlt; lia).
    pose proof (god_used_range (Z.of_nat (length (drop_ref t hs))) Hlt') as Hr'.
    rewrite god_hdr_flag, god_used_refcnt by (done || lia).
    rewrite (proj2 (Z.eqb_neq _ 0)) by lia.
    split; [done|]. split; [done|]. split; [done|]. split; [done|].
    exists (<[i := DEntry (Shared (drop_ref t hs)) (Published (god_object e, ops))]> m).
    assert (god_ok i (DEntry (Shared (drop_ref t hs)) (Published (god_object e, ops)))
      (GodEntry (god_hdr i (god_fl_used (Z.of_nat (length (drop_ref t hs))))) (god_object e) (god_ops e))) as Hok.
    { split; [done|]. exists ops. repeat (split; [done || lia|]). done. }
    pose proof (god_rep_set k g m i e _ _ Hrep He (or_intror Hl) Hok) as Hrep'.
    split; [done|]. split; [|split; [by eapply held_minus_drop|lia]].
    eapply god_guar; [done|exact Hrep'|eapply dir_unlock; [done|done|]|done|by right|done|done].
    intros ->. simpl in *. lia.
Qed.

(** The beginning of both unlock functions, up to their loop. *)
Lemma god_unlock_start {A B : Type} t fuel i (body : Z → A + Z * A) (f : A → prog (prs_god W) B)
    (d : prog (prs_god W) B) Q Q1 g m :
  rep g m → (0 < held t m i)%nat →
  (∀ g1 m1, rep g1 m1 → held_same t m m1 → (0 < held t m1 i)%nat →
    ∃ e, god_entries g1 !! god_slot k i = Some e ∧
      match body (god_header e) with
      | inl r => Q1 r g1 m1
      | inr (new, r) =>
          let g' := god_set_entries
            (<[god_slot k i := GodEntry new (god_object e) (god_ops e)]> (god_entries g1)) g1 in
          ∃ m', gua t (g1, m1) (g', m') ∧ Q1 r g' m'
      end) →
  (∀ r g1 m1 g2 m2, Q1 r g1 m1 → rel t (g1, m1) (g2, m2) → Q1 r g2 m2) →
  (∀ r g1 m1, Q1 r g1 m1 → rg True True True (rel t) (gua t) (f r) Q g1 m1) →
  rg True True True (rel t) (gua t)
    (if i =? PRS_OBJECT_ID_INVALID then d
     else
       entry ← prs_god_get_entry i;
       header ← prs_pal_atomic_load (god_header_cell entry);
       r ← cas_weak_loop fuel (god_header_cell entry) body header;
       f r) Q g m.
Proof using Hk.
  intros Hrep Hheld Hbody HQ1 Hf.
  destruct (god_held_entry t g m i Hrep Hheld) as (_ & _ & _ & _ & _ & _ & _ & _ & Hi0 & _).
  rewrite (proj2 (Z.eqb_neq i _)) by done.
  apply rg_god_get_entry; [done|done|]. intros g1 m1 HR1 Hrep1.
  rg_bind_load. intros g2 m2 HR2.
  assert (∀ g3 m3, rel t (g2, m2) (g3, m3) → rep g3 m3 ∧ held_same t m m3 ∧ (0 < held t m3 i)%nat) as Hout.
  { intros g3 m3 HR3. assert (rel t (g, m) (g3, m3)) as HR.
    { transitivity (g1, m1); [done|]. by transitivity (g2, m2). }
    split; [by apply (god_rely_rep _ _ _ _ _ _ HR)|].
    split; [by eapply god_same|by rewrite (god_same _ _ _ _ _ HR)]. }
  destruct (Hout g2 m2 ltac:(reflexivity)) as (Hrep2 & Hs2 & Hh2).
  destruct (Hbody g2 m2 Hrep2 Hs2 Hh2) as (e & He & Hnow).
  exists (god_header e). split; [by apply god_header_get|]. split; [by apply god_guar_nop|].
  rg_bind. eapply rg_mono; [exact Hf|]. rg_cas_weak_loop.
  - intros g3 m3 HR3. apply god_guar_nop. by apply (Hout g3 m3).
  - intros g3 m3 HR3. destruct (Hout g3 m3 HR3) as (Hrep3 & Hs3 & Hh3).
    destruct (Hbody g3 m3 Hrep3 Hs3 Hh3) as (e3 & He3 & Hb3).
    exists (god_header e3). split; [by apply god_header_get|].
    destruct (body (god_header e3)) as [r|[new r]].
    + intros g4 m4 HR4. by eapply HQ1.
    + destruct Hb3 as (m' & Hg & Hq). eexists _, m'. split; [by apply god_header_set|].
      split; [exact Hg|]. intros g4 m4 HR4. by eapply HQ1.
  - destruct (body (god_header e)) as [r|[new r]]; [|done]. intros g4 m4 HR4. by eapply HQ1.
Qed.

(** Either the reference is gone, or the thread owns the ID with nobody left. *)
Definition god_dropped t i m0 (last : bool) g m : Prop :=
  rep g m ∧ held_minus t m0 m i ∧
  (last = true → ∃ e ops, god_ops e = Some ops ∧ god_owner t i e m0 g m).

Lemma god_dropped_rely t i m0 last g m g' m' :
  god_dropped t i m0 last g m → rel t (g, m) (g', m') → god_dropped t i m0 last g' m'.
Proof using.
  intros (Hrep & Hm & Hl) HR. split; [by apply (god_rely_rep _ _ _ _ _ _ HR)|].
  split; [eapply held_minus_same; [done|by eapply god_same]|].
  intros Ht. destruct (Hl Ht) as (e & ops & Hops & Hown). exists e, ops. split; [done|].
  by eapply god_owner_rely.
Qed.

Lemma god_owner_from t i e m0 m g' m' :
  held_same t m0 m → god_owner t i e m g' m' → god_owner t i e m0 g' m'.
Proof using.
  intros Hs (Hrep & Ho & He & Hm). repeat (split; [done|]). by eapply held_same_minus.
Qed.

Lemma god_unlock_rg t fuel i g m :
  rep g m → (0 < held t m i)%nat →
  rg True True True (rel t) (gua t) (prs_god_unlock fuel i) (λ _ g' m', rep g' m' ∧ held_minus t m m' i) g m.
Proof using Hk.
  intros Hrep Hheld.
  assert (i ≠ PRS_OBJECT_ID_INVALID) as Hi0.
  { by destruct (god_held_entry t g m i Hrep Hheld) as (_ & _ & _ & _ & _ & _ & _ & _ & Hi0 & _). }
  apply (god_unlock_start t fuel i (god_unlock_body i) _ _ _ (λ r g' m',
    ∃ new, r = Some new ∧ god_dropped t i m (PRS_GOD_TEST_FLAG new PRS_GOD_HEADER_REFCNT =? 0) g' m'));
    [done|done| | |].
  - intros g1 m1 Hrep1 Hs1 Hh1.
    destruct (god_unlock_step t g1 m1 i Hrep1 Hh1) as (e & ops & new & He & Hops & Hb & _ & m' & Hrep' & Hg & Hm' & Hown).
    exists e. split; [done|]. rewrite Hb. exists m'. split; [done|]. exists new. split; [done|].
    split; [done|]. split; [by eapply held_same_minus|]. intros Hz. apply Z.eqb_eq in Hz.
    eexists _, ops. split; [|eapply god_owner_from; [done|by apply Hown]]. done.
  - intros r g1 m1 g2 m2 (new & -> & Hd) HR. exists new. split; [done|]. by eapply god_dropped_rely.
  - intros r g1 m1 (new & -> & Hrep1 & Hm1 & Hlast). destruct (_ =? 0).
    + destruct (Hlast eq_refl) as (e & ops & Hops & Hown). by eapply god_free_rg.
    + apply rg_done. intros g2 m2 HR2. split; [by apply (god_rely_rep _ _ _ _ _ _ HR2)|].
      eapply held_minus_same; [done|by eapply god_same].
Qed.

Lemma god_try_unlock_final_rg t fuel i g m :
  rep g m → (0 < held t m i)%nat →
  rg True True True (rel t) (gua t) (prs_god_try_unlock_final fuel i)
    (λ r g' m', rep g' m' ∧
      ((r = PRS_OK ∧ held_minus t m m' i) ∨ (r = PRS_LOCKED ∧ held_same t m m'))) g m.
Proof using Hk.
  intros Hrep Hheld.
  assert (i ≠ PRS_OBJECT_ID_INVALID) as Hi0.
  { by destruct (god_held_entry t g m i Hrep Hheld) as (_ & _ & _ & _ & _ & _ & _ & _ & Hi0 & _). }
  apply (god_unlock_start t fuel i (god_try_unlock_body i) _ _ _ (λ r g' m',
    (r = PRS_OK ∧ god_dropped t i m true g' m') ∨ (r = PRS_LOCKED ∧ rep g' m' ∧ held_same t m m')));
    [done|done| | |].
  - intros g1 m1 Hrep1 Hs1 Hh1.
    destruct (god_unlock_step t g1 m1 i Hrep1 Hh1) as (e & ops & new & He & Hops & _ & Hb & m' & Hrep' & Hg & Hm' & Hown).
    exists e. split; [done|]. rewrite Hb. destruct (Z.eqb_spec (PRS_GOD_TEST_FLAG new PRS_GOD_HEADER_REFCNT) 0) as [Hz|Hz].
    + exists m'. split; [done|]. left. split; [done|]. split; [done|].
      split; [by eapply held_same_minus|]. intros _.
      eexists _, ops. split; [|eapply god_owner_from; [done|by apply Hown]]. done.
    + right. done.
  - intros r g1 m1 g2 m2 [[-> Hd]|(-> & Hr & Hs)] HR; [left|right].
    + split; [done|]. by eapply god_dropped_rely.
    + split; [done|]. split; [by apply (god_rely_rep _ _ _ _ _ _ HR)|].
      eapply held_same_trans; [done|by eapply god_same].
  - intros r g1 m1 [[-> (Hrep1 & Hm1 & Hlast)]|(-> & Hrep1 & Hs1)].
    + rewrite decide_True by done. rg_bind. destruct (Hlast eq_refl) as (e & ops & Hops & Hown).
      eapply rg_mono; [|by eapply god_free_rg]. intros [] g2 m2 [Hrep2 Hm2].
      apply rg_done. intros g3 m3 HR3. split; [by apply (god_rely_rep _ _ _ _ _ _ HR3)|]. left.
      split; [done|]. eapply held_minus_same; [done|by eapply god_same].
    + rewrite decide_False by done. apply rg_done. intros g2 m2 HR2.
      split; [by apply (god_rely_rep _ _ _ _ _ _ HR2)|]. right. split; [done|].
      eapply held_same_trans; [done|by eapply god_same].
Qed.

#[export] Instance god_refdir : RefDir (RefDirOps0 := dir) (prs_god W) obj.
Proof using Hk.
  split.
  - intros t o g m Hrep. cbn [rd_alloc god_dir]. rg_bind.
    eapply rg_mono; [|by apply god_alloc_rg]. intros id g1 m1 [Hrep1 H1].
    apply rg_done. intros g2 m2 HR2. split; [by apply (god_rely_rep _ _ _ _ _ _ HR2)|].
    cbn [rd_valid rd_key god_dir]. destruct (id =? PRS_OBJECT_ID_INVALID).
    + eapply held_same_trans; [done|by eapply god_same].
    + destruct H1 as [Hp Ho]. split; [eapply held_plus_same; [done|by eapply god_same]|].
      apply (rely_object t _ _ _ _ _ _ HR2); [|done]. rewrite Hp, decide_True by done. lia.
  - intros t n i g m Hrep. cbn [rd_lock god_dir]. rg_bind.
    eapply rg_mono; [|by apply god_lock_entry_rg]. intros [entry|] g1 m1 [Hrep1 H1].
    + destruct H1 as (-> & Hp).
      assert (∀ m3, held_same t m1 m3 → (0 < held t m3 i)%nat) as Hpos.
      { intros m3 H3. rewrite H3, Hp, decide_True by done. lia. }
      apply god_deref_ops_rg; [done|by apply Hpos|]. intros ops g2 m2 HR2 Hrep2 Hh2 Hops.
      rg_bind_load. intros g3 m3 HR3. pose proof (god_rely_rep _ _ _ _ _ _ HR3 Hrep2) as Hrep3.
      destruct (god_held_entry t g3 m3 i Hrep3) as (e & hs & ops' & He & Hm & _).
      { by rewrite (god_same _ _ _ _ _ HR3). }
      exists (god_object e). split; [by apply god_object_get|]. split; [by apply god_guar_nop|].
      apply rg_done. intros g4 m4 HR4. split; [by apply (god_rely_rep _ _ _ _ _ _ HR4)|].
      split.
      { eapply held_plus_same; [done|]. eapply held_same_trans; [by eapply god_same|].
        eapply held_same_trans; by eapply god_same. }
      intros _. destruct (object_of m2 i) as [[o ops2]|] eqn:Ho2; simplify_eq/=.
      pose proof (rely_object t _ _ _ _ _ _ HR3 Hh2 Ho2) as Ho3.
      unfold object_of in Ho3. rewrite Hm in Ho3. simplify_eq.
      apply (rely_object t _ _ _ _ _ _ HR4).
      * by rewrite (god_same _ _ _ _ _ HR3).
      * unfold object_of. by rewrite Hm.
    + apply rg_done. intros g2 m2 HR2. split; [by apply (god_rely_rep _ _ _ _ _ _ HR2)|].
      eapply held_same_trans; [done|by eapply god_same].
  - intros t n u i g m Hrep Hh. cbn [rd_unlock rd_try rd_mode god_dir] in *. destruct u; cbn [andb].
    + rg_bind. eapply rg_mono; [|by apply god_try_unlock_final_rg]. intros r g1 m1 [Hrep1 H1].
      apply rg_done. intros g2 m2 HR2. split; [by apply (god_rely_rep _ _ _ _ _ _ HR2)|].
      destruct H1 as [[-> Hm]|[-> Hs]]; simpl.
      * eapply held_minus_same; [done|by eapply god_same].
      * eapply held_same_trans; [done|by eapply god_same].
    + rg_bind. eapply rg_mono; [|by apply god_unlock_rg]. intros [] g1 m1 [Hrep1 H1].
      apply rg_done. intros g2 m2 HR2. split; [by apply (god_rely_rep _ _ _ _ _ _ HR2)|].
      eapply held_minus_same; [done|by eapply god_same].
Qed.
End contract.

(** ** Properties *)

Definition god_initial {W : Type} (k : Z) (w : W) : prs_god W :=
  God (<[0%nat := GodEntry (god_hdr 0 (god_fl_used 0)) None None]>
        (replicate (Z.to_nat (2 ^ k)) (GodEntry 0 None None))) (2 ^ k) (2 ^ k - 1) 1 w.

Lemma god_initial_create {W : Type} k (w : W) l l' h :
  0 < k ≤ 31 →
  prs_god_create (2 ^ k) w (Heap h [Some l; Some l']) =
    Ret (PRS_OK, Some (god_initial k w, Some l, Some l'), Heap ({[ l' ]} ∪ ({[ l ]} ∪ h)) []).
Proof.
  intros Hk. assert (2 ^ k ≤ 2 ^ 31) by (apply Z.pow_le_mono_r; lia).
  assert (0 < 2 ^ k) by (apply Z.pow_pos_nonneg; lia).
  unfold prs_god_create, prs_pal_malloc_zero, malloc. cbn [heap_answers heap_live].
  unfold god_header_cell. rewrite (array_cell_set _ _ _ _ _ 0 (GodEntry 0 None None)); [|done|].
  - ocbn. unfold god_initial, god_set_entries. cbn [god_entries god_max_entries
      god_max_entries_mask god_write_index god_world god_object god_ops].
    rewrite (u32_small (2 ^ k)), u32_small by lia. done.
  - simpl. apply lookup_replicate_2. lia.
Qed.

Lemma god_initial_rep {W : Type} k (w : W) t :
  0 < k ≤ 31 → god_rep k (god_initial k w) {[ 0 := DEntry (Owned t) (Unpublished t) ]}.
Proof.
  intros Hk. assert (0 < 2 ^ k) by (apply Z.pow_pos_nonneg; lia). split.
  - split; simpl; try done.
    + rewrite length_insert, length_replicate. lia.
    + apply Forall_insert; [apply Forall_replicate; by apply (god_wf_free 0)|].
      apply (god_wf_used 0 0); lia.
  - rewrite <- insert_empty. eapply table_set with (e := GodEntry 0 None None); [apply god_ok_live| | | | |].
    + by apply table_empty, Forall_replicate.
    + apply lookup_replicate_2. lia.
    + unfold god_slot. by rewrite Z.mod_0_l by lia.
    + by left.
    + split; [lia|]. exists (god_fl_used 0). split; [by right; right|done].
Qed.

(** C3: threads that use the directory in any interleaving, registering objects,
    locking IDs, and dropping the references they hold with [prs_god_unlock] or
    [prs_god_try_unlock_final]: nothing is undefined, in particular the callbacks
    are always found, and once all threads have returned, the reference count of an
    object in use is the number of references that the threads still hold. *)
Theorem god_clients_settled {W : Type} (k : Z) (w : W) (fuel : nat)
    (cls : list (client (ptr * prs_object_ops W) bool)) g' ps' :
  0 < k ≤ 31 → Forall (disciplined (RefDirOps0 := god_dir k) []) cls →
  rtc pool_step (god_initial k w, client_prog (RefDirOps0 := god_dir k) fuel [] <$> cls) (g', ps') →
  (∀ t p, ps' !! t = Some p → ¬ faults g' p) ∧
  ∀ finals, ps' = Done <$> finals →
    ∀ i, i ≠ PRS_OBJECT_ID_INVALID → ∃ e, god_entries g' !! god_slot k i = Some e ∧
      Z.of_nat (count_occ Z.eq_dec (concat finals) i) =
        if (PRS_GOD_GET_ID (god_header e) =? i) &&
           truthy (PRS_GOD_TEST_FLAG (god_header e) PRS_GOD_HEADER_USED)
        then PRS_GOD_TEST_FLAG (god_header e) PRS_GOD_HEADER_REFCNT else 0.
Proof.
  intros Hk Hcl Hr. pose proof (god_refdir (W := W) k Hk) as Hdir.
  set (m0 := {[ 0 := DEntry (Owned 0%nat) (Unpublished 0%nat) ]} : dirmap (ptr * prs_object_ops W)).
  assert (∀ t i, held t m0 i = 0%nat) as H0.
  { intros t i. unfold held, m0. destruct (decide (0 = i)) as [<-|Hne].
    - by rewrite lookup_singleton_eq.
    - by rewrite lookup_singleton_ne. }
  destruct (clients_safe (RefDirOps0 := god_dir k) fuel cls _ m0 g' ps'
    (god_initial_rep k w 0 Hk) H0 Hcl Hr) as (m' & Hrep & Hb & Hf & Hd).
  split; [done|]. intros finals ->.
  destruct (finals_hold (RefDirOps0 := god_dir k) fuel cls _ _ m' finals Hr Hb Hd) as [Hb' Hfin].
  intros i Hi0. destruct (god_entry_exists k Hk g' i (proj1 Hrep)) as [e He]. exists e. split; [done|].
  destruct (decide (count_occ Z.eq_dec (concat finals) i = 0%nat)) as [Hz|Hz].
  - rewrite Hz. destruct (Z.eqb_spec (PRS_GOD_GET_ID (god_header e)) i) as [Hid|]; [|done]. cbn [andb].
    destruct (truthy (PRS_GOD_TEST_FLAG _ PRS_GOD_HEADER_USED)) eqn:Hus; [|done]. apply truthy_true in Hus.
    destruct (decide (PRS_GOD_TEST_FLAG (god_header e) PRS_GOD_HEADER_DELETE_MARK = 0)) as [Hdel|Hdel].
    + destruct (god_rep_used k g' m' i e Hrep He Hi0 Hid Hus Hdel) as (hs & ops & Hm & Hi & _ & Hpos & Hlt & Hh).
      rewrite (settled_count finals m' i hs _ Hfin Hb' Hm) in Hpos. lia.
    + assert (PRS_GOD_TEST_FLAG (god_header e) PRS_GOD_HEADER_RESERVED ≠ 0) as Hres.
      { intros Hzr. apply Hus. by apply (Forall_lookup_1 _ _ _ _ (god_shape_hdr k g' (proj1 Hrep)) He). }
      destruct (table_live _ _ _ _ m' _ e i (proj2 Hrep) He) as (d & Hm & Hi & Hok).
      { unfold god_live. rewrite (proj2 (Z.eqb_neq _ 0)) by done. by rewrite Hid. }
      destruct d as [[t|hs] x].
      * destruct Hok as (fl & Ho & Hh). destruct (god_owned_range i fl Ho) as [Hr' _].
        rewrite Hh, god_hdr_flag in * by done. destruct Ho as [->|[->|[-> _]]]; [|done|done].
        by vm_compute in Hus.
      * destruct Hok as (ops & _ & _ & _ & Hpos & Hlt & Hh).
        rewrite Hh, god_hdr_flag, god_used_delete in Hdel by (done || lia || apply god_used_range; lia).
        done.
  - destruct (m' !! i) as [[[t|hs] x]|] eqn:Hm.
    + exfalso. apply Hz. by apply (settled_owned finals m' i t x).
    + destruct (god_rep_entry k g' m' i _ Hrep Hm) as (e' & He' & [Hi (ops & _ & _ & _ & Hpos & Hlt & Hh)] & _).
      simplify_eq. rewrite Hh, god_hdr_id, !god_hdr_flag, god_used_used, god_used_refcnt, Z.eqb_refl
        by (done || lia || apply god_used_range; lia).
      change (truthy PRS_GOD_HEADER_USED) with true. cbn [andb]. f_equal. symmetry.
      by eapply settled_count.
    + exfalso. apply Hz. by apply (settled_none finals m').
Qed.

(** Two threads: one registers object 7 and drops its reference at once, the other
    manages to lock ID 1 in between and drops it last; the world is the list of
    freed objects. *)
Definition god_demo_ops : prs_object_ops (list ptr) :=
  ObjectOps None (Some (λ o w, o :: w)) None.

Definition god_demo_clients : list (client (ptr * prs_object_ops (list ptr)) bool) :=
  [CAlloc (Some 7%positive, god_demo_ops) (λ r, match r with
     | Some i => CUnlock false i (λ _, CStop)
     | None => CStop
     end);
   CLock 1 (λ r, match r with
     | Some _ => CUnlock true 1 (λ _, CLock 1 (λ _, CStop))
     | None => CStop
     end)].

Definition god_demo_pool : prs_god (list ptr) * list (prog (prs_god (list ptr)) (list Z)) :=
  (god_initial 2 [], client_prog (RefDirOps0 := god_dir 2) 3 [] <$> god_demo_clients).

Definition god_demo_schedule : list (nat * bool) :=
  replicate 9 (0%nat, false) ++ replicate 7 (1%nat, false) ++ replicate 4 (0%nat, false) ++
  replicate 16 (1%nat, false).

Definition god_demo_final : prs_god (list ptr) :=
  God [GodEntry (god_hdr 0 (god_fl_used 0)) None None;
       GodEntry (god_hdr 1 0) (Some 7%positive) (Some god_demo_ops);
       GodEntry 0 None None; GodEntry 0 None None] 4 3 2 [Some 7%positive].

Lemma god_clients_settled_witness :
  pool_run god_demo_schedule god_demo_pool = Some (god_demo_final, Done <$> [[]; []]) ∧
  ∃ e, god_entries god_demo_final !! god_slot 2 1 = Some e ∧
    0 = if (PRS_GOD_GET_ID (god_header e) =? 1) && truthy (PRS_GOD_TEST_FLAG (god_header e) PRS_GOD_HEADER_USED)
        then PRS_GOD_TEST_FLAG (god_header e) PRS_GOD_HEADER_REFCNT else 0.
Proof.
  assert (pool_run god_demo_schedule god_demo_pool = Some (god_demo_final, Done <$> [[]; []])) as Hrun.
  { vm_compute. reflexivity. }
  split; [exact Hrun|].
  refine (proj2 (god_clients_settled 2 [] 3 god_demo_clients god_demo_final _ _ _
    (pool_run_rtc _ _ _ Hrun)) [[]; []] eq_refl 1 _).
  - lia.
  - apply Forall_cons; split; [|apply Forall_cons; split; [|by constructor]]; simpl.
    + intros [i|]; simpl; [split; [left|intros b; exact I]|exact I].
    + split; [exact I|]. intros p. split; [left|]. intros b. split; [exact I|intros; exact I].
  - done.
Defined.

(** ** One thread alone *)

Section sequential.
Context {W : Type} (k : Z) (Hk : 0 < k ≤ 31).
Implicit Types (g : prs_god W) (e : prs_god_entry W).

Lemma run_god_get_entry i g :
  god_shape k g → run (prs_god_get_entry i) g = Ret (Some (i mod 2 ^ k), g).
Proof using Hk.
  intros H. unfold prs_god_get_entry. rewrite run_bind, run_peek. ocbn.
  rewrite (god_shape_mask k g H), land_low by lia. done.
Qed.

(** [g] with object [o] at ID [i], flags and count [fl], and the world [w]. *)
Definition god_with g (i fl : Z) (o : ptr) (ops : prs_object_ops W) (w : W) : prs_god W :=
  god_set_world w
    (god_set_entries (<[god_slot k i := GodEntry (god_hdr i fl) o (Some ops)]> (god_entries g)) g).

Lemma god_with_shape g i fl o ops w :
  god_shape k g → god_wf (god_hdr i fl) → god_shape k (god_with g i fl o ops w).
Proof using.
  intros Hsh Hwf. destruct (god_shape_set k g (god_slot k i) (GodEntry (god_hdr i fl) o (Some ops)) Hsh Hwf).
  by split.
Qed.

Lemma god_with_lookup g i fl o ops w :
  god_shape k g →
  god_entries (god_with g i fl o ops w) !! god_slot k i = Some (GodEntry (god_hdr i fl) o (Some ops)).
Proof using Hk.
  intros Hsh. apply list_lookup_insert_eq. destruct (god_entry_exists k Hk g i Hsh) as [e He].
  by eapply lookup_lt_Some.
Qed.

Lemma god_with_header g i fl o ops w :
  god_shape k g →
  cell_get (god_header_cell (i mod 2 ^ k)) (god_with g i fl o ops w) = Ret (god_hdr i fl).
Proof using Hk. intros Hsh. exact (god_header_get k Hk _ _ _ (god_with_lookup g i fl o ops w Hsh)). Qed.

Lemma god_with_set_header g i fl o ops w fl' :
  god_shape k g →
  cell_set (god_header_cell (i mod 2 ^ k)) (god_hdr i fl') (god_with g i fl o ops w) =
    Ret (god_with g i fl' o ops w).
Proof using Hk.
  intros Hsh. rewrite (god_header_set k Hk _ _ _ _ (god_with_lookup g i fl o ops w Hsh)).
  unfold god_with, god_set_entries, god_set_world. cbn [god_entries god_max_entries
    god_max_entries_mask god_write_index god_world god_object god_ops]. by rewrite list_insert_insert_eq.
Qed.

Lemma run_god_deref_ops g i fl o ops w :
  god_shape k g →
  run (god_deref_ops (i mod 2 ^ k)) (god_with g i fl o ops w) = Ret (Some ops, god_with g i fl o ops w).
Proof using Hk.
  intros Hsh. unfold god_deref_ops, read. rewrite run_bind.
  erewrite run_load; [|exact (god_ops_get k Hk _ _ _ (god_with_lookup g i fl o ops w Hsh))]. done.
Qed.

(** The effect of an optional callback. *)
Definition op_effect (op : option (ptr → W → W)) (o : ptr) (w : W) : W :=
  match op with Some f => f o w | None => w end.

Lemma run_god_callback g i fl o ops w (op : prs_object_ops W → option (ptr → W → W)) :
  god_shape k g →
  run (match op ops with
       | Some _ =>
           ops ← god_deref_ops (i mod 2 ^ k);
           object ← read (god_object_cell (i mod 2 ^ k));
           call_op (op ops) object
       | None => Done tt
       end) (god_with g i fl o ops w) =
    Ret (Some tt, god_with g i fl o ops (op_effect (op ops) o w)).
Proof using Hk.
  intros Hsh. destruct (op ops) as [f|] eqn:Hop; [|done].
  rewrite run_bind, run_god_deref_ops by done. ocbn. rewrite Hop. rewrite run_bind. unfold read.
  erewrite run_load; [|exact (god_object_get k Hk _ _ _ (god_with_lookup g i fl o ops w Hsh))]. done.
Qed.

Lemma run_god_free fuel g i fl o ops w :
  god_shape k g → 0 < i < 2 ^ 32 → 0 ≤ fl < 2 ^ 32 → god_wf (god_hdr i fl) →
  run (prs_god_free (S fuel) i) (god_with g i fl o ops w) =
    Ret (Some tt, god_with g i 0 o ops (op_effect (ops_free ops) o w)).
Proof using Hk.
  intros Hsh Hi Hfl Hwf. unfold prs_god_free.
  rewrite (proj2 (Z.eqb_neq i PRS_OBJECT_ID_INVALID)) by (unfold PRS_OBJECT_ID_INVALID; lia).
  rewrite run_bind, run_god_get_entry by (by apply god_with_shape). ocbn.
  rewrite run_bind, (run_load _ _ (god_hdr i fl)) by (by apply god_with_header). ocbn.
  rewrite run_bind, run_god_deref_ops by done. ocbn.
  rewrite run_bind, run_god_callback by done. ocbn.
  rewrite (run_cas_weak_loop _ _ _ (god_hdr i fl)) by (by apply god_with_header).
  rewrite god_hdr_clear by lia. by rewrite god_with_set_header.
Qed.

Lemma run_god_lock_entry fuel g i rc o ops w :
  god_shape k g → 0 < i < 2 ^ 32 → 0 ≤ rc < 2 ^ 12 →
  run (prs_god_lock_entry (S fuel) i) (god_with g i (god_fl_used rc) o ops w) =
    if rc =? 4095 then Ret (Some None, god_with g i (god_fl_used rc) o ops w)
    else Ret (Some (Some (i mod 2 ^ k)), god_with g i (god_fl_used (rc + 1)) o ops w).
Proof using Hk.
  intros Hsh Hi Hrc. pose proof (god_used_range rc Hrc) as Hr. unfold prs_god_lock_entry.
  rewrite (proj2 (Z.eqb_neq i PRS_OBJECT_ID_INVALID)) by (unfold PRS_OBJECT_ID_INVALID; lia).
  rewrite run_bind, run_god_get_entry by (apply god_with_shape; [done|apply god_wf_used; lia]). ocbn.
  rewrite run_bind, (run_load _ _ (god_hdr i (god_fl_used rc))) by (by apply god_with_header). ocbn.
  rewrite (run_cas_weak_loop _ _ _ (god_hdr i (god_fl_used rc))) by (by apply god_with_header).
  rewrite god_hdr_id, !god_hdr_flag, god_used_used, god_used_delete, god_used_refcnt, Z.eqb_refl
    by (done || lia). cbn [negb].
  change (truthy PRS_GOD_HEADER_USED) with true. change (truthy 0) with false. cbn [negb].
  change PRS_GOD_HEADER_REFCNT with 4095. destruct (Z.eqb_spec rc 4095); [done|].
  assert (u64 (god_hdr i (god_fl_used rc) + 1) = god_hdr i (god_fl_used (rc + 1))) as ->.
  { unfold god_hdr, god_fl_used in *. rewrite u64_small; lia. }
  by rewrite god_with_set_header.
Qed.

Lemma run_god_unlock fuel g i rc o ops w :
  god_shape k g → 0 < i < 2 ^ 32 → 0 < rc < 2 ^ 12 →
  run (prs_god_unlock (S fuel) i) (god_with g i (god_fl_used rc) o ops w) =
    if rc =? 1 then Ret (Some tt, god_with g i 0 o ops (op_effect (ops_free ops) o w))
    else Ret (Some tt, god_with g i (god_fl_used (rc - 1)) o ops w).
Proof using Hk.
  intros Hsh Hi Hrc. pose proof (god_used_range rc ltac:(lia)) as Hr. unfold prs_god_unlock.
  rewrite (proj2 (Z.eqb_neq i PRS_OBJECT_ID_INVALID)) by (unfold PRS_OBJECT_ID_INVALID; lia).
  rewrite run_bind, run_god_get_entry by (apply god_with_shape; [done|apply god_wf_used; lia]). ocbn.
  rewrite run_bind, (run_load _ _ (god_hdr i (god_fl_used rc))) by (by apply god_with_header). ocbn.
  rewrite run_bind, (run_cas_weak_loop _ _ _ (god_hdr i (god_fl_used rc))) by (by apply god_with_header).
  unfold god_unlock_body.
  rewrite god_hdr_id, !god_hdr_flag, god_used_used, god_used_refcnt, Z.eqb_refl by (done || lia).
  cbn [negb]. change (truthy PRS_GOD_HEADER_USED) with true. cbn [negb].
  destruct (Z.eqb_spec rc 1) as [->|Hne].
  - rewrite god_delete_header_one, god_with_set_header by (done || lia). ocbn.
    assert (0 ≤ god_fl_deleted < 2 ^ 32) as Hrd by (vm_compute; done).
    rewrite god_hdr_flag by (done || lia).
    change (Z.land god_fl_deleted PRS_GOD_HEADER_REFCNT =? 0) with true. cbv iota.
    apply run_god_free; [done|done|done|]. apply god_wf_owned; [lia|by right; left].
  - rewrite (proj2 (Z.eqb_neq rc 0)) by lia.
    assert (u64 (god_hdr i (god_fl_used rc) - 1) = god_hdr i (god_fl_used (rc - 1))) as ->.
    { unfold god_hdr, god_fl_used in *. rewrite u64_small; lia. }
    rewrite god_with_set_header by done. ocbn.
    pose proof (god_used_range (rc - 1) ltac:(lia)) as Hr'.
    rewrite god_hdr_flag, god_used_refcnt by (done || lia).
    by rewrite (proj2 (Z.eqb_neq (rc - 1) 0)) by lia.
Qed.
End sequential.

(** C28: the life of a registered object, as one thread sees it when it runs alone,
    with [rc] references on ID [i].  [prs_god_lock] adds a reference and returns the
    object, up to 4095 references; [prs_god_unlock] drops one, and on the last one
    calls the free callback once, with the object, and frees the entry;
    [prs_god_try_unlock_final] does the same on the last reference and otherwise
    only says that the object is locked; [prs_god_object_destroy] calls the destroy
    callback and leaves the count as it was. *)
Theorem god_object_life {W : Type} (k : Z) (fuel : nat) (g : prs_god W) (i rc : Z) (o : ptr)
    (ops : prs_object_ops W) (w : W) :
  0 < k ≤ 31 → god_shape k g → 0 < i < 2 ^ 32 → 0 < rc < 2 ^ 12 →
  let at_ n w := god_with k g i (god_fl_used n) o ops w in
  let freed := god_with k g i 0 o ops (op_effect (ops_free ops) o w) in
  run (prs_god_lock (S fuel) i) (at_ rc w) =
    (if rc =? 4095 then Ret (Some None, at_ rc w) else Ret (Some o, at_ (rc + 1) w)) ∧
  run (prs_god_unlock (S fuel) i) (at_ rc w) =
    (if rc =? 1 then Ret (Some tt, freed) else Ret (Some tt, at_ (rc - 1) w)) ∧
  run (prs_god_try_unlock_final (S fuel) i) (at_ rc w) =
    (if rc =? 1 then Ret (Some PRS_OK, freed) else Ret (Some PRS_LOCKED, at_ rc w)) ∧
  run (prs_god_object_destroy (S fuel) i) (at_ rc w) =
    (if rc =? 4095 then Ret (Some PRS_NOT_FOUND, at_ rc w)
     else Ret (Some PRS_OK, at_ rc (op_effect (ops_destroy ops) o w))).
Proof.
  intros Hk Hsh Hi Hrc at_ freed. split; [|split; [by apply run_god_unlock|split]].
  - unfold prs_god_lock, at_. rewrite run_bind, (run_god_lock_entry k Hk) by (done || lia).
    destruct (rc =? 4095); [done|]. ocbn. unfold read.
    erewrite run_load; [done|]. exact (god_object_get k Hk _ _ _ (god_with_lookup k Hk g i _ o ops w Hsh)).
  - pose proof (god_used_range rc ltac:(lia)) as Hr. unfold prs_god_try_unlock_final, at_.
    rewrite (proj2 (Z.eqb_neq i PRS_OBJECT_ID_INVALID)) by (unfold PRS_OBJECT_ID_INVALID; lia).
    rewrite run_bind, (run_god_get_entry k Hk) by (apply god_with_shape; [done|apply god_wf_used; lia]). ocbn.
    rewrite run_bind, (run_load _ _ (god_hdr i (god_fl_used rc))) by (by apply god_with_header). ocbn.
    rewrite run_bind, (run_cas_weak_loop _ _ _ (god_hdr i (god_fl_used rc))) by (by apply god_with_header).
    unfold god_try_unlock_body.
    rewrite god_hdr_id, !god_hdr_flag, god_used_used, god_used_refcnt, Z.eqb_refl by (done || lia).
    cbn [negb]. change (truthy PRS_GOD_HEADER_USED) with true. cbn [negb].
    destruct (Z.eqb_spec rc 1) as [->|Hne].
    + rewrite god_delete_header_one, (god_with_set_header k Hk) by (done || lia). ocbn.
      rewrite decide_True, run_bind by done. rewrite (run_god_free k Hk); [done|done|done|by vm_compute|].
      apply god_wf_owned; [lia|by right; left].
    + rewrite (proj2 (Z.eqb_neq rc 0)) by lia. ocbn. by rewrite decide_False by done.
  - unfold prs_god_object_destroy, at_. rewrite run_bind, (run_god_lock_entry k Hk) by (done || lia).
    destruct (Z.eqb_spec rc 4095) as [|Hne]; [done|]. ocbn.
    rewrite run_bind, (run_god_deref_ops k Hk) by done. ocbn.
    rewrite run_bind, (run_god_callback k Hk g i _ o ops w ops_destroy Hsh). ocbn.
    rewrite run_bind, (run_god_unlock k Hk) by (done || lia).
    rewrite (proj2 (Z.eqb_neq (rc + 1) 1)) by lia. ocbn. by replace (rc + 1 - 1) with rc by lia.
Qed.

Lemma god_object_life_witness :
  run (prs_god_try_unlock_final 1 5)
    (god_with 2 (god_initial 2 []) 5 (god_fl_used 1) (Some 9%positive) god_demo_ops []) =
  Ret (Some PRS_OK, god_with 2 (god_initial 2 []) 5 0 (Some 9%positive) god_demo_ops [Some 9%positive]).
Proof.
  destruct (god_object_life 2 0 (god_initial 2 []) 5 1 (Some 9%positive) god_demo_ops [])
    as (_ & _ & H & _); [lia|apply (god_initial_rep 2 [] 0 ltac:(lia))|lia|lia|exact H].
Defined.

(** C29: the directory runs out of IDs for good: as soon as the 32-bit write index
    is within [max_entries] of its end, [prs_god_alloc_and_lock] fails whatever
    entries are free, and leaves the directory as it is, so that it goes on
    failing. *)
Theorem god_ids_exhausted {W : Type} (k : Z) (g : prs_god W) (o : ptr) (ops : option (prs_object_ops W)) :
  0 < k ≤ 31 → god_shape k g → 2 ^ 32 - 2 ^ k ≤ god_write_index g →
  run (prs_god_alloc_and_lock o ops) g = Ret (Some PRS_OBJECT_ID_INVALID, g).
Proof.
  intros Hk Hsh Hw. assert (2 ^ k ≤ 2 ^ 31) by (apply Z.pow_le_mono_r; lia).
  pose proof (god_shape_write k g Hsh) as Hw'. unfold prs_god_alloc_and_lock.
  rewrite run_bind, (run_load _ _ (god_write_index g)) by done. ocbn.
  rewrite run_bind, run_peek. ocbn. rewrite (god_shape_max k g Hsh).
  assert (u32 (god_write_index g + 2 ^ k) = god_write_index g + 2 ^ k - 2 ^ 32) as ->.
  { unfold u32. rewrite <- (Z.mod_small (god_write_index g + 2 ^ k - 2 ^ 32) (2 ^ 32)) by lia.
    rewrite <- (Z.mod_add (_ - 2 ^ 32) 1) by lia. f_equal. lia. }
  replace (Z.to_nat _) with 0%nat by lia. done.
Qed.

Lemma god_ids_exhausted_witness :
  let g := God (god_entries (god_initial 2 tt)) 4 3 (2 ^ 32 - 4) tt in
  (∃ e, god_entries g !! 2%nat = Some e ∧ god_header e = 0) ∧
  run (prs_god_alloc_and_lock (Some 1%positive) None) g = Ret (Some PRS_OBJECT_ID_INVALID, g).
Proof.
  split; [by eexists|]. apply (god_ids_exhausted 2); [lia| |done].
  destruct (god_initial_rep 2 tt 0 ltac:(lia)) as [[] _]. by split.
Defined.
