(* ===== verification/Dll.v ===== *)
(** * Doubly linked lists (prs/lib/ds/dllist.c, prs/lib/ds/idllist.c)

    Both lists run the same pointer surgery, on nodes that the list allocates
    ([dllist]) or that are part of the caller's objects ([idllist]).  Nodes live in a
    memory that several lists share; the functions are proved to act on the sequence
    of nodes as insertion and removal, and to leave all other nodes alone. *)

From S2P Require Import Prelude Heap.

(** ** Nodes and lists *)

(** [D] is what a node carries: the data pointer of [struct prs_dllist_node], or
    nothing for [struct prs_idllist_node]. *)
Record dl_node (D : Type) : Type := DlNode { dl_next : ptr; dl_prev : ptr; dl_data : D }.
Arguments DlNode {D} _ _ _.
Arguments dl_next {D} _.
Arguments dl_prev {D} _.
Arguments dl_data {D} _.

Record dl_list : Type := DlList { dl_head : ptr; dl_tail : ptr; dl_size : Z }.

Abbreviation dl_mem D := (gmap loc (dl_node D)).

Section surgery.
Context {D : Type}.
Implicit Types (mem : dl_mem D) (l : dl_list).

Definition dl_update (p : loc) (f : dl_node D → dl_node D) mem : outcome (dl_mem D) :=
  n ← deref (mem !! p); Ret (<[p := f n]> mem).
Definition set_next (q : ptr) (n : dl_node D) : dl_node D := DlNode q (dl_prev n) (dl_data n).
Definition set_prev (q : ptr) (n : dl_node D) : dl_node D := DlNode (dl_next n) q (dl_data n).

(** [if (p) { p->field = q; }] *)
Definition dl_update_if (p : ptr) (f : dl_node D → dl_node D) mem : outcome (dl_mem D) :=
  match p with Some p => dl_update p f mem | None => Ret mem end.

(** The common part of both [insert_before] functions. *)
Definition dl_link l mem (before : ptr) (node : loc) : outcome (dl_list * dl_mem D) :=
  let next := before in
  prev ← (match before with
          | Some b => n ← deref (mem !! b); Ret (dl_prev n)
          | None => Ret (dl_tail l)
          end);
  mem ← dl_update node (set_next next) mem;
  mem ← dl_update node (set_prev prev) mem;
  mem ← dl_update_if next (set_prev (Some node)) mem;
  mem ← dl_update_if prev (set_next (Some node)) mem;
  let head := if decide (next = dl_head l) then Some node else dl_head l in
  let tail := if decide (prev = dl_tail l) then Some node else dl_tail l in
  Ret (DlList head tail (u64 (dl_size l + 1)), mem).

(** The common part of both [remove] functions. *)
Definition dl_unlink l mem (node : loc) : outcome (dl_list * dl_mem D) :=
  n ← deref (mem !! node);
  let next := dl_next n in
  let prev := dl_prev n in
  mem ← dl_update_if next (set_prev prev) mem;
  mem ← dl_update_if prev (set_next next) mem;
  let head := if decide (Some node = dl_head l) then next else dl_head l in
  let tail := if decide (Some node = dl_tail l) then prev else dl_tail l in
  Ret (DlList head tail (u64 (dl_size l - 1)), mem).

(** ** The sequence of nodes *)

(** The node before position [i]. *)
Definition before_pos (xs : list loc) (i : nat) : ptr :=
  match i with O => None | S j => xs !! j end.

Definition dl_linked mem (xs : list loc) : Prop :=
  ∀ i x, xs !! i = Some x →
    ∃ n, mem !! x = Some n ∧ dl_next n = xs !! S i ∧ dl_prev n = before_pos xs i.

Record dl_rep l mem (xs : list loc) : Prop := DlRep {
  dl_rep_nodup : NoDup xs;
  dl_rep_head : dl_head l = xs !! 0%nat;
  dl_rep_tail : dl_tail l = before_pos xs (length xs);
  dl_rep_size : dl_size l = u64 (Z.of_nat (length xs));
  dl_rep_linked : dl_linked mem xs
}.

(** [xs] with [x] at position [i]. *)
Definition insert_at {A : Type} (i : nat) (x : A) (xs : list A) : list A := take i xs ++ x :: drop i xs.

Lemma fmap_insert_at {A B : Type} (f : A → B) i x xs :
  f <$> insert_at i x xs = insert_at i (f x) (f <$> xs).
Proof. unfold insert_at. by rewrite fmap_app, fmap_cons, fmap_take, fmap_drop. Qed.

Lemma insert_at_lookup i (x : loc) xs j :
  (i ≤ length xs)%nat →
  insert_at i x xs !! j =
    (if decide (j < i)%nat then xs !! j else if decide (j = i) then Some x else xs !! Nat.pred j).
Proof.
  intros Hi. unfold insert_at.
  destruct (decide (j < i)%nat).
  - rewrite lookup_app_l by (rewrite length_take; lia). apply lookup_take_lt. lia.
  - rewrite lookup_app_r by (rewrite length_take; lia). rewrite length_take, Nat.min_l by lia.
    destruct (decide (j = i)) as [->|]; [by rewrite Nat.sub_diag|].
    change (x :: drop i xs) with ([x] ++ drop i xs). rewrite lookup_app_r by (simpl; lia).
    rewrite lookup_drop. f_equal. simpl. lia.
Qed.

Lemma insert_at_length i (x : loc) xs : length (insert_at i x xs) = S (length xs).
Proof.
  unfold insert_at. rewrite length_app. cbn [length]. rewrite length_take, length_drop. lia.
Qed.

Lemma insert_at_perm i (x : loc) xs : insert_at i x xs ≡ₚ x :: xs.
Proof.
  unfold insert_at. rewrite <- Permutation_middle. by rewrite take_drop.
Qed.

Lemma delete_lookup (xs : list loc) (i j : nat) :
  delete i xs !! j = (if decide (j < i)%nat then xs !! j else xs !! S j).
Proof.
  destruct (decide (j < i)%nat).
  - by apply list_lookup_delete_lt.
  - apply list_lookup_delete_ge. lia.
Qed.

Lemma before_pos_ne xs i j x :
  NoDup xs → xs !! i = Some x → before_pos xs j = Some x → j = S i.
Proof.
  intros Hnd Hi Hj. destruct j as [|j]; [done|]. f_equal.
  by eapply NoDup_lookup.
Qed.

Definition alter_if (p : ptr) (f : dl_node D → dl_node D) mem : dl_mem D :=
  match p with Some p => alter f p mem | None => mem end.

Lemma lookup_alter_if p f mem y :
  alter_if p f mem !! y = (if decide (p = Some y) then f <$> mem !! y else mem !! y).
Proof.
  destruct p as [p|]; simpl; [|done]. rewrite lookup_alter.
  repeat case_decide; simplify_eq; done.
Qed.

Lemma dl_update_alter p f mem : is_Some (mem !! p) → dl_update p f mem = Ret (alter f p mem).
Proof.
  intros [n Hn]. unfold dl_update. rewrite Hn. ocbn. f_equal. apply map_eq. intros y.
  rewrite lookup_insert, lookup_alter. case_decide as Hy; [|done]. subst. by rewrite Hn.
Qed.

Lemma dl_update_if_alter p f mem :
  (∀ x, p = Some x → is_Some (mem !! x)) → dl_update_if p f mem = Ret (alter_if p f mem).
Proof. destruct p as [p|]; [|done]. intros H. apply dl_update_alter. by apply H. Qed.

(** The memory after linking and after unlinking. *)
Definition linked_mem mem (next prev : ptr) (node : loc) : dl_mem D :=
  alter_if prev (set_next (Some node)) (alter_if next (set_prev (Some node))
    (alter (set_prev prev) node (alter (set_next next) node mem))).
Definition unlinked_mem mem (next prev : ptr) : dl_mem D :=
  alter_if prev (set_next next) (alter_if next (set_prev prev) mem).

Lemma dl_rep_lookup l mem xs i x :
  dl_rep l mem xs → xs !! i = Some x →
  ∃ d, mem !! x = Some (DlNode (xs !! S i) (before_pos xs i) d).
Proof.
  intros Hrep Hx. destruct (dl_rep_linked l mem xs Hrep i x Hx) as ([n p d] & Hn & Hnext & Hprev).
  simpl in *. exists d. by subst.
Qed.

Lemma before_pos_in xs i x : before_pos xs i = Some x → x ∈ xs.
Proof. destruct i; [done|]. apply list_elem_of_lookup_2. Qed.

Lemma dl_rep_in l mem xs x : dl_rep l mem xs → x ∈ xs → is_Some (mem !! x).
Proof.
  intros Hrep Hx. apply list_elem_of_lookup in Hx as [i Hi].
  destruct (dl_rep_lookup l mem xs i x Hrep Hi) as [d Hd]. by eexists.
Qed.

(** What [dl_link] computes, on a list that is represented. *)
Lemma dl_link_eq l mem xs i node :
  dl_rep l mem xs → (i ≤ length xs)%nat → node ∉ xs → is_Some (mem !! node) →
  dl_link l mem (xs !! i) node =
    Ret (DlList (if decide (i = 0%nat) then Some node else dl_head l)
                (if decide (i = length xs) then Some node else dl_tail l)
                (u64 (dl_size l + 1)),
         linked_mem mem (xs !! i) (before_pos xs i) node).
Proof.
  intros Hrep Hi Hnode Hin. unfold dl_link.
  assert ((match xs !! i with
           | Some b => n ← deref (mem !! b); Ret (dl_prev n)
           | None => Ret (dl_tail l) end) = Ret (before_pos xs i)) as ->.
  { destruct (xs !! i) as [b|] eqn:Hb.
    - destruct (dl_rep_lookup l mem xs i b Hrep Hb) as [d ->]. done.
    - apply lookup_ge_None in Hb. replace i with (length xs) by lia. by rewrite (dl_rep_tail l mem xs Hrep). }
  ocbn. rewrite dl_update_alter by done. ocbn.
  rewrite dl_update_alter by (rewrite lookup_alter_eq; by apply fmap_is_Some). ocbn.
  assert (∀ x, x ∈ xs → is_Some (alter (set_prev (before_pos xs i)) node
    (alter (set_next (xs !! i)) node mem) !! x)) as Hx.
  { intros x Hx. rewrite !lookup_alter_ne by (intros ->; done). by eapply dl_rep_in. }
  rewrite dl_update_if_alter by (intros x Hb; apply Hx; by eapply list_elem_of_lookup_2). ocbn.
  rewrite dl_update_if_alter.
  2: { intros x Hp. rewrite lookup_alter_if. apply before_pos_in, Hx in Hp.
       case_decide; [by apply fmap_is_Some|done]. }
  ocbn. rewrite (dl_rep_head l mem xs Hrep), (dl_rep_tail l mem xs Hrep).
  f_equal. f_equal. f_equal.
  - destruct (decide (i = 0%nat)) as [->|Hne]; [by rewrite decide_True|].
    destruct (decide (xs !! i = xs !! 0%nat)) as [Heq|]; [|done]. exfalso.
    destruct (xs !! i) as [b|] eqn:Hb.
    + apply Hne. by eapply (NoDup_lookup xs); [apply Hrep| |].
    + apply lookup_ge_None in Hb. symmetry in Heq. apply lookup_ge_None in Heq. lia.
  - destruct (decide (i = length xs)) as [->|Hne]; [by rewrite decide_True|].
    destruct (decide (before_pos xs i = before_pos xs (length xs))) as [Heq|]; [|done]. exfalso.
    destruct (length xs) as [|n] eqn:Hn; [lia|]. cbn [before_pos] in Heq.
    destruct (lookup_lt_is_Some_2 xs n) as [y Hy]; [lia|]. rewrite Hy in Heq.
    destruct i as [|i]; [done|]. cbn [before_pos] in Heq. apply Hne. f_equal.
    by eapply (NoDup_lookup xs); [apply Hrep| |].
Qed.

Lemma dl_link_linked l mem xs i node d :
  dl_rep l mem xs → (i ≤ length xs)%nat → node ∉ xs →
  (∃ n, mem !! node = Some n ∧ dl_data n = d) →
  dl_linked (linked_mem mem (xs !! i) (before_pos xs i) node) (insert_at i node xs).
Proof.
  intros Hrep Hi Hnode (n0 & Hn0 & Hd) j x. rewrite insert_at_lookup by done.
  unfold linked_mem. rewrite !lookup_alter_if, !lookup_alter.
  assert (xs !! i ≠ Some node) as Hne1 by (intros H%list_elem_of_lookup_2; done).
  assert (before_pos xs i ≠ Some node) as Hne2 by (intros H%before_pos_in; done).
  destruct (decide (j < i)%nat) as [Hj|Hj]; [|destruct (decide (j = i)) as [->|Hji]].
  - intros Hx. destruct (dl_rep_lookup l mem xs j x Hrep Hx) as [dx Hmx].
    assert (node ≠ x) as Hnx by (intros ->; apply Hnode; by eapply list_elem_of_lookup_2).
    rewrite !(decide_False (P := node = x)) by done.
    rewrite (decide_False (P := xs !! i = Some x)).
    2: { intros Hix. assert (i = j); [|lia]. by eapply (NoDup_lookup xs); [apply Hrep| |]. }
    rewrite Hmx. rewrite insert_at_lookup by done.
    assert (before_pos (insert_at i node xs) j = before_pos xs j) as Hb.
    { destruct j as [|j]; [done|]. cbn [before_pos]. by rewrite insert_at_lookup, decide_True by lia. }
    case_decide as Hp.
    + apply (before_pos_ne xs j) in Hp as ->; [|apply Hrep|done].
      rewrite decide_False, decide_True by lia. by eexists.
    + destruct (decide (S j < i)%nat) as [|Hsj]; [by eexists|]. exfalso. apply Hp.
      assert (i = S j) as -> by lia. done.
  - intros [= <-]. rewrite !(decide_False (P := _ = Some node)) by done.
    rewrite !(decide_True (P := node = node)) by done. rewrite Hn0. eexists. split; [done|].
    split; simpl.
    + rewrite insert_at_lookup by done. rewrite decide_False, decide_False by lia. done.
    + destruct i as [|i]; [done|]. cbn [before_pos]. by rewrite insert_at_lookup, decide_True by lia.
  - intros Hx. destruct j as [|j]; [lia|]. cbn [Nat.pred] in Hx.
    destruct (dl_rep_lookup l mem xs j x Hrep Hx) as [dx Hmx].
    assert (node ≠ x) as Hnx by (intros ->; apply Hnode; by eapply list_elem_of_lookup_2).
    rewrite !(decide_False (P := node = x)) by done.
    rewrite (decide_False (P := before_pos xs i = Some x)).
    2: { intros Hp. apply (before_pos_ne xs j) in Hp; [lia|apply Hrep|done]. }
    rewrite Hmx, insert_at_lookup by done. rewrite (decide_False (P := (S (S j) < i)%nat)),
      (decide_False (P := S (S j) = i)) by lia. cbn [Nat.pred before_pos].
    rewrite insert_at_lookup by done. rewrite (decide_False (P := (j < i)%nat)) by lia.
    case_decide as Hp.
    + assert (i = j) as -> by (by eapply (NoDup_lookup xs); [apply Hrep| |]).
      rewrite decide_True by done. by eexists.
    + assert (j ≠ i) as Hne by (intros ->; done). rewrite (decide_False (P := j = i)) by done.
      assert (before_pos xs j = xs !! Nat.pred j) as Hb by (destruct j; [lia|done]).
      eexists. split; [done|]. split; [done|]. simpl. exact Hb.
Qed.

Lemma dl_link_rep l mem xs i node :
  dl_rep l mem xs → (i ≤ length xs)%nat → node ∉ xs → is_Some (mem !! node) →
  ∃ l' mem', dl_link l mem (xs !! i) node = Ret (l', mem') ∧ dl_rep l' mem' (insert_at i node xs) ∧
    (∀ y, y ∉ node :: xs → mem' !! y = mem !! y) ∧
    (∀ y, dl_data <$> mem' !! y = dl_data <$> mem !! y).
Proof.
  intros Hrep Hi Hnode [n0 Hn0].
  eexists _, _. split; [by apply dl_link_eq|]. split; [split|split].
  - rewrite insert_at_perm. constructor; [done|apply Hrep].
  - simpl. rewrite insert_at_lookup by done. rewrite (dl_rep_head l mem xs Hrep).
    destruct i as [|i]; [done|]. destruct (decide (0 < S i)%nat); [done|lia].
  - simpl. rewrite insert_at_length, (dl_rep_tail l mem xs Hrep). cbn [before_pos].
    rewrite insert_at_lookup by done. rewrite (decide_False (P := (length xs < i)%nat)) by lia.
    destruct (decide (i = length xs)) as [->|Hne]; [by rewrite decide_True|].
    rewrite !decide_False by (done || lia). destruct (length xs) as [|n]; [lia|done].
  - simpl. rewrite insert_at_length, (dl_rep_size l mem xs Hrep). unfold u64.
    rewrite Zplus_mod_idemp_l. f_equal. lia.
  - eapply dl_link_linked; [done..|]. by exists n0.
  - intros y Hy. apply not_elem_of_cons in Hy as [Hyn Hyx]. unfold linked_mem.
    rewrite !lookup_alter_if, !lookup_alter.
    rewrite !(decide_False (P := node = y)) by done.
    rewrite !decide_False; [done|intros H%list_elem_of_lookup_2; done|intros H%before_pos_in; done].
  - intros y. unfold linked_mem. rewrite !lookup_alter_if, !lookup_alter.
    repeat case_decide; subst; by repeat (match goal with |- context [mem !! ?z] => destruct (mem !! z) end).
Qed.

(** ** Removal *)

Lemma dl_unlink_eq l mem xs i node :
  dl_rep l mem xs → xs !! i = Some node →
  dl_unlink l mem node =
    Ret (DlList (if decide (i = 0%nat) then xs !! 1%nat else dl_head l)
                (if decide (S i = length xs) then before_pos xs i else dl_tail l)
                (u64 (dl_size l - 1)),
         unlinked_mem mem (xs !! S i) (before_pos xs i)).
Proof.
  intros Hrep Hnode. destruct (dl_rep_lookup l mem xs i node Hrep Hnode) as [d Hd].
  unfold dl_unlink. rewrite Hd. ocbn. cbn [dl_next dl_prev].
  assert (∀ x, x ∈ xs → is_Some (mem !! x)) as Hx by (intros x; by eapply dl_rep_in).
  rewrite dl_update_if_alter by (intros x Hb; apply Hx; by eapply list_elem_of_lookup_2). ocbn.
  rewrite dl_update_if_alter.
  2: { intros x Hp. rewrite lookup_alter_if. apply before_pos_in, Hx in Hp.
       case_decide; [by apply fmap_is_Some|done]. }
  ocbn. rewrite (dl_rep_head l mem xs Hrep), (dl_rep_tail l mem xs Hrep), <- Hnode.
  pose proof (dl_rep_nodup l mem xs Hrep) as Hnd.
  pose proof (lookup_lt_Some _ _ _ Hnode) as Hlt. f_equal. f_equal. f_equal.
  - destruct (decide (i = 0%nat)) as [->|Hne]; [by rewrite decide_True|].
    rewrite decide_False; [done|]. intros Heq. apply Hne. rewrite Hnode in Heq.
    by eapply (NoDup_lookup xs).
  - destruct (decide (S i = length xs)) as [Heq|Hne].
    + by rewrite decide_True by (rewrite <- Heq; done).
    + rewrite decide_False; [done|]. intros Heq. rewrite Hnode in Heq. symmetry in Heq.
      apply (before_pos_ne xs i _ node Hnd Hnode) in Heq. done.
Qed.

Lemma dl_unlink_linked l mem xs i node :
  dl_rep l mem xs → xs !! i = Some node →
  dl_linked (unlinked_mem mem (xs !! S i) (before_pos xs i)) (delete i xs).
Proof.
  intros Hrep Hnode j x. rewrite delete_lookup. unfold unlinked_mem. rewrite !lookup_alter_if.
  pose proof (dl_rep_nodup l mem xs Hrep) as Hnd.
  destruct (decide (j < i)%nat) as [Hj|Hj]; intros Hx.
  - destruct (dl_rep_lookup l mem xs j x Hrep Hx) as [dx ->].
    rewrite (decide_False (P := xs !! S i = Some x)).
    2: { intros H. assert (S i = j); [by eapply (NoDup_lookup xs)|lia]. }
    rewrite delete_lookup.
    assert (before_pos (delete i xs) j = before_pos xs j) as Hb.
    { destruct j as [|j]; [done|]. cbn [before_pos]. by rewrite delete_lookup, decide_True by lia. }
    case_decide as Hp.
    + apply (before_pos_ne xs j) in Hp as ->; [|done..].
      rewrite decide_False by lia. by eexists.
    + destruct (decide (S j < i)%nat) as [|Hsj]; [by eexists|]. exfalso. apply Hp.
      assert (i = S j) as -> by lia. done.
  - destruct (dl_rep_lookup l mem xs (S j) x Hrep Hx) as [dx ->].
    rewrite (decide_False (P := before_pos xs i = Some x)).
    2: { intros H. apply (before_pos_ne xs (S j)) in H; [lia|done..]. }
    rewrite delete_lookup. rewrite (decide_False (P := (S j < i)%nat)) by lia.
    case_decide as Hp.
    + assert (S i = S j) as [= ->] by (by eapply (NoDup_lookup xs)).
      eexists. split; [done|]. split; [done|]. simpl. destruct j as [|j]; [done|].
      cbn [before_pos]. by rewrite delete_lookup, decide_True by lia.
    + assert (j ≠ i) as Hne by (intros ->; done).
      eexists. split; [done|]. split; [done|]. simpl. destruct j as [|j]; [lia|].
      cbn [before_pos]. by rewrite delete_lookup, decide_False by lia.
Qed.

Lemma length_delete_pos (xs : list loc) i x : xs !! i = Some x → length xs = S (length (delete i xs)).
Proof. intros H. apply (Permutation_length (delete_Permutation xs i x H)). Qed.

Lemma dl_unlink_rep l mem xs i node :
  dl_rep l mem xs → xs !! i = Some node →
  ∃ l' mem', dl_unlink l mem node = Ret (l', mem') ∧ dl_rep l' mem' (delete i xs) ∧
    mem' !! node = mem !! node ∧
    (∀ y, y ∉ xs → mem' !! y = mem !! y) ∧
    (∀ y, dl_data <$> mem' !! y = dl_data <$> mem !! y).
Proof.
  intros Hrep Hnode. pose proof (length_delete_pos xs i node Hnode) as Hlen.
  pose proof (lookup_lt_Some _ _ _ Hnode) as Hlt.
  pose proof (dl_rep_nodup l mem xs Hrep) as Hnd.
  eexists _, _. split; [by apply dl_unlink_eq|]. split; [split|split; [|split]].
  - rewrite (delete_Permutation xs i node Hnode) in Hnd. by apply NoDup_cons in Hnd as [_ Hnd].
  - simpl. rewrite delete_lookup, (dl_rep_head l mem xs Hrep).
    destruct i as [|i]; [done|]. destruct (decide (0 < S i)%nat); [done|lia].
  - simpl. rewrite (dl_rep_tail l mem xs Hrep), Hlen. cbn [before_pos].
    destruct (length (delete i xs)) as [|n] eqn:Hn; cbn [before_pos].
    + assert (i = 0%nat) as -> by lia. by rewrite decide_True by lia.
    + rewrite delete_lookup. destruct (decide (S i = S (S n))) as [[= ->]|Hne].
      * by rewrite decide_True by lia.
      * by rewrite decide_False by lia.
  - simpl. rewrite (dl_rep_size l mem xs Hrep), Hlen. unfold u64. rewrite Zminus_mod_idemp_l. f_equal. lia.
  - eapply dl_unlink_linked; done.
  - unfold unlinked_mem. rewrite !lookup_alter_if.
    rewrite !decide_False; [done| |].
    + intros H. assert (S i = i); [by eapply (NoDup_lookup xs)|lia].
    + intros H. apply (before_pos_ne xs i) in H; [lia|done..].
  - intros y Hy. unfold unlinked_mem. rewrite !lookup_alter_if.
    rewrite !decide_False; [done|intros H%list_elem_of_lookup_2; done|intros H%before_pos_in; done].
  - intros y. unfold unlinked_mem. rewrite !lookup_alter_if.
    repeat case_decide; subst; by repeat (match goal with |- context [mem !! ?z] => destruct (mem !! z) end).
Qed.
End surgery.

(** The data that the nodes carry, in order. *)
Definition dl_values {D : Type} (mem : dl_mem D) (xs : list loc) : list (option D) :=
  (λ x, dl_data <$> mem !! x) <$> xs.

Lemma dl_values_same {D : Type} (mem mem' : dl_mem D) xs :
  (∀ y, y ∈ xs → dl_data <$> mem' !! y = dl_data <$> mem !! y) → dl_values mem' xs = dl_values mem xs.
Proof.
  intros H. unfold dl_values. apply list_fmap_ext. intros i x Hx. apply H.
  by eapply list_elem_of_lookup_2.
Qed.

Lemma dl_rep_mem {D : Type} l (mem mem' : dl_mem D) xs :
  (∀ y, y ∈ xs → mem' !! y = mem !! y) → dl_rep l mem xs → dl_rep l mem' xs.
Proof.
  intros Heq [H1 H2 H3 H4 H5]. split; [done..|]. intros i x Hx.
  destruct (H5 i x Hx) as (n & Hn & Hnext & Hprev). exists n. rewrite Heq; [done|].
  by eapply list_elem_of_lookup_2.
Qed.

(** ** The list that allocates its nodes (prs/lib/ds/dllist.c) *)

Section dllist.
Implicit Types (mem : dl_mem ptr) (l : dl_list) (h : heap).

Definition prs_dllist_create h : option (loc * dl_list) * heap :=
  let (p, h) := prs_pal_malloc_zero h in
  (match p with Some self => Some (self, DlList None None 0) | None => None end, h).

Definition prs_dllist_insert_before h mem l (before data : ptr) :
    outcome (prs_result * heap * dl_mem ptr * dl_list) :=
  let (node, h) := prs_pal_malloc h in
  match node with
  | None => Ret (PRS_OUT_OF_MEMORY, h, mem, l)
  | Some node =>
      let mem := <[node := DlNode None None data]> mem in
      '(l, mem) ← dl_link l mem before node;
      Ret (PRS_OK, h, mem, l)
  end.

Definition prs_dllist_remove h mem l (node : loc) : outcome (heap * dl_mem ptr * dl_list) :=
  '(l, mem) ← dl_unlink l mem node;
  h ← prs_pal_free (Some node) h;
  Ret (h, delete node mem, l).

Definition prs_dllist_begin l : ptr := dl_head l.
Definition prs_dllist_end l : ptr := None.
Definition prs_dllist_next mem (node : loc) : outcome ptr := n ← deref (mem !! node); Ret (dl_next n).
Definition prs_dllist_get_data mem (node : loc) : outcome ptr := n ← deref (mem !! node); Ret (dl_data n).
Definition prs_dllist_empty l : bool := dl_size l =? 0.
Definition prs_dllist_size l : Z := dl_size l.

(** The loop of [prs_dllist_destroy], nothing when the fuel runs out. *)
Fixpoint prs_dllist_clear (fuel : nat) h mem l : outcome (option (heap * dl_mem ptr * dl_list)) :=
  match fuel with
  | O => Ret None
  | S fuel =>
      match prs_dllist_begin l with
      | None => Ret (Some (h, mem, l))
      | Some node =>
          '(h, mem, l) ← prs_dllist_remove h mem l node;
          prs_dllist_clear fuel h mem l
      end
  end.

Definition prs_dllist_destroy (fuel : nat) (self : loc) h mem l : outcome (option (heap * dl_mem ptr)) :=
  r ← prs_dllist_clear fuel h mem l;
  match r with
  | None => Ret None
  | Some (h, mem, _) => h ← prs_pal_free (Some self) h; Ret (Some (h, mem))
  end.

(** [prs_dllist_foreach]: the nodes it visits. *)
Fixpoint prs_dllist_foreach (fuel : nat) mem (node : ptr) : outcome (option (list loc)) :=
  match fuel with
  | O => Ret None
  | S fuel =>
      match node with
      | None => Ret (Some [])
      | Some x =>
          next ← prs_dllist_next mem x;
          r ← prs_dllist_foreach fuel mem next;
          Ret (option_map (cons x) r)
      end
  end.

(** The list at [self] with nodes [xs] owns its blocks of the heap. *)
Record dllist_ok (self : loc) h mem l (xs : list loc) : Prop := DllistOk {
  dllist_ok_heap : heap_ok h;
  dllist_ok_rep : dl_rep l mem xs;
  dllist_ok_self : self ∉ xs;
  dllist_ok_live : ∀ x, x ∈ self :: xs → x ∈ heap_live h
}.

Lemma dllist_foreach_from fuel l mem xs i :
  dl_rep l mem xs → (i ≤ length xs)%nat → (length xs - i < fuel)%nat →
  prs_dllist_foreach fuel mem (xs !! i) = Ret (Some (drop i xs)).
Proof.
  intros Hrep. revert i. induction fuel as [|fuel IH]; intros i Hi Hf; [lia|].
  cbn [prs_dllist_foreach]. destruct (xs !! i) as [x|] eqn:Hx.
  - destruct (dl_rep_lookup l mem xs i x Hrep Hx) as [d Hd]. unfold prs_dllist_next. rewrite Hd. ocbn.
    pose proof (lookup_lt_Some _ _ _ Hx). cbn [dl_next]. rewrite IH by lia. ocbn. cbn [option_map].
    by rewrite (drop_S xs x i Hx).
  - apply lookup_ge_None in Hx. by rewrite drop_ge.
Qed.

Lemma dllist_remove_ok self h mem l xs i node :
  dllist_ok self h mem l xs → xs !! i = Some node →
  ∃ h' mem' l', prs_dllist_remove h mem l node = Ret (h', mem', l') ∧
    dllist_ok self h' mem' l' (delete i xs) ∧ heap_live h' = heap_live h ∖ {[ node ]} ∧
    dl_values mem' (delete i xs) = dl_values mem (delete i xs) ∧ mem' !! node = None ∧
    (∀ y, y ∉ xs → mem' !! y = mem !! y).
Proof.
  intros [Hh Hrep Hself Hlive] Hnode.
  destruct (dl_unlink_rep l mem xs i node Hrep Hnode) as (l' & mem' & Heq & Hrep' & _ & Hfr & Hdata).
  assert (node ∈ xs) as Hin by (by eapply list_elem_of_lookup_2).
  assert (node ∉ delete i xs) as Hout.
  { pose proof (dl_rep_nodup l mem xs Hrep) as Hnd. rewrite (delete_Permutation xs i node Hnode) in Hnd.
    by apply NoDup_cons in Hnd as [? _]. }
  assert (∀ y, y ∈ delete i xs → y ∈ xs) as Hsub.
  { intros y Hy. rewrite (delete_Permutation xs i node Hnode). by right. }
  unfold prs_dllist_remove, prs_pal_free. rewrite Heq. ocbn.
  rewrite free_live by (apply Hlive; by right). ocbn.
  eexists _, _, _. split; [done|]. split; [split|split; [done|split; [|split]]].
  - by apply heap_ok_free.
  - eapply dl_rep_mem; [|done]. intros y Hy. apply lookup_delete_ne. intros ->. done.
  - intros Hs. by apply Hself, Hsub.
  - intros x Hx. simpl. apply elem_of_difference. split.
    + apply Hlive. apply elem_of_cons in Hx as [->|Hx]; [by left|right; by apply Hsub].
    + intros ->%elem_of_singleton. apply elem_of_cons in Hx as [->|Hx]; done.
  - apply dl_values_same. intros y Hy. rewrite lookup_delete_ne by (intros ->; done). apply Hdata.
  - apply lookup_delete_eq.
  - intros y Hy. rewrite lookup_delete_ne by (intros ->; done). by apply Hfr.
Qed.

Lemma dllist_clear_ok fuel self h mem l xs :
  dllist_ok self h mem l xs → (length xs < fuel)%nat →
  ∃ h' mem' l', prs_dllist_clear fuel h mem l = Ret (Some (h', mem', l')) ∧
    dllist_ok self h' mem' l' [] ∧ heap_live h' = heap_live h ∖ list_to_set xs.
Proof.
  revert h mem l xs. induction fuel as [|fuel IH]; intros h mem l xs Hok Hf; [lia|].
  cbn [prs_dllist_clear]. unfold prs_dllist_begin.
  rewrite (dl_rep_head l mem xs) by apply Hok. destruct xs as [|x xs]; cbn [lookup list_lookup].
  - exists h, mem, l. split; [done|]. split; [done|]. set_solver.
  - destruct (dllist_remove_ok self h mem l (x :: xs) 0 x Hok eq_refl)
      as (h1 & mem1 & l1 & -> & Hok1 & Hl1 & _). ocbn. cbn [delete list_delete] in *.
    destruct (IH h1 mem1 l1 xs Hok1) as (h2 & mem2 & l2 & -> & Hok2 & Hl2); [simpl in Hf; lia|].
    exists h2, mem2, l2. split; [done|]. split; [done|]. rewrite Hl2, Hl1. set_solver.
Qed.
End dllist.

(** [prs_dllist_insert_before] inserts in the sequence.  On a list whose nodes
    carry some values, inserting before the node at position [i], or before null
    when [i] is the length, either fails with [PRS_OUT_OF_MEMORY] and changes
    nothing, or takes one fresh block of the heap and leaves a list whose values
    are the old ones with the new value at position [i]: at the end, not at the
    beginning, for a null [before].  Memory outside the list is not touched. *)
Lemma dllist_insert_exact self h mem l xs i data :
  dllist_ok self h mem l xs → (i ≤ length xs)%nat →
  ∃ r h' mem' l', prs_dllist_insert_before h mem l (xs !! i) data = Ret (r, h', mem', l') ∧
    match r with
    | PRS_OK => ∃ node, node ∉ heap_live h ∧ heap_live h' = {[ node ]} ∪ heap_live h ∧
        dllist_ok self h' mem' l' (insert_at i node xs) ∧
        dl_values mem' (insert_at i node xs) = insert_at i (Some data) (dl_values mem xs) ∧
        ∀ y, y ∉ node :: xs → mem' !! y = mem !! y
    | _ => r = PRS_OUT_OF_MEMORY ∧ heap_live h' = heap_live h ∧ mem' = mem ∧ l' = l
    end.
Proof.
  intros [Hh Hrep Hself Hlive] Hi. unfold prs_dllist_insert_before, prs_pal_malloc.
  destruct (malloc h) as [[node|] h1] eqn:Hm; pose proof (malloc_ok _ _ _ Hh Hm) as [Hh1 Hl1].
  2: { eexists _, h1, mem, l. split; [done|]. done. }
  destruct Hl1 as [Hfresh Hl1].
  assert (node ∉ xs) as Hnode by (intros H; apply Hfresh, Hlive; by right).
  set (mem1 := <[node := DlNode None None data]> mem).
  assert (∀ y, y ∈ xs → mem1 !! y = mem !! y) as Hsame.
  { intros y Hy. apply lookup_insert_ne. intros ->. done. }
  destruct (dl_link_rep l mem1 xs i node) as (l' & mem' & Heq & Hrep' & Hfr & Hdata);
    [by eapply dl_rep_mem|done|done|eexists; apply lookup_insert_eq|].
  rewrite Heq. ocbn. eexists _, h1, mem', l'. split; [done|]. exists node. split; [done|].
  split; [done|]. split; [split|split].
  - done.
  - done.
  - rewrite insert_at_perm. intros [->|H]%elem_of_cons; [|done]. apply Hfresh, Hlive. by left.
  - intros x Hx. rewrite Hl1. rewrite insert_at_perm in Hx. apply elem_of_union.
    apply elem_of_cons in Hx as [->|[->|Hx]%elem_of_cons]; [right|left|right].
    + apply Hlive. by left.
    + by apply elem_of_singleton.
    + apply Hlive. by right.
  - unfold dl_values at 1. rewrite fmap_insert_at, Hdata. unfold mem1 at 1.
    rewrite lookup_insert_eq. cbn [fmap option_fmap option_map dl_data]. f_equal.
    apply dl_values_same. intros y Hy. by rewrite Hdata, Hsame.
  - intros y Hy. rewrite Hfr by done. apply lookup_insert_ne. intros ->. apply Hy. by left.
Qed.

(** A list with one node, and a heap with one more block to give. *)
Definition dll_demo_heap : heap := Heap {[ 1; 2 ]}%positive [Some 3%positive].
Definition dll_demo_mem : dl_mem ptr := {[ 2%positive := DlNode None None (Some 20%positive) ]}.
Definition dll_demo_list : dl_list := DlList (Some 2%positive) (Some 2%positive) 1.

Lemma dll_demo_ok : dllist_ok 1%positive dll_demo_heap dll_demo_mem dll_demo_list [2%positive].
Proof.
  split.
  - split; [repeat constructor; set_solver|]. intros l Hl.
    apply list_elem_of_singleton in Hl. simplify_eq. simpl. set_solver.
  - split; try done; [repeat constructor; set_solver|]. intros [|i] x Hx; simplify_eq/=.
    eexists. split; [apply lookup_singleton_eq|done].
  - set_solver.
  - simpl. set_solver.
Qed.


(** [prs_dllist_remove] removes from the sequence and frees exactly the block
    of the node, whatever its position. *)
Lemma dllist_remove_exact self h mem l xs i node :
  dllist_ok self h mem l xs → xs !! i = Some node →
  ∃ h' mem' l', prs_dllist_remove h mem l node = Ret (h', mem', l') ∧
    dllist_ok self h' mem' l' (delete i xs) ∧ heap_live h' = heap_live h ∖ {[ node ]} ∧
    dl_values mem' (delete i xs) = delete i (dl_values mem xs) ∧
    (∀ y, y ∉ xs → mem' !! y = mem !! y).
Proof.
  intros Hok Hnode.
  destruct (dllist_remove_ok self h mem l xs i node Hok Hnode)
    as (h' & mem' & l' & Heq & Hok' & Hl & Hv & _ & Hfr).
  exists h', mem', l'. split; [done|]. split; [done|]. split; [done|]. split; [|done].
  rewrite Hv. unfold dl_values. by rewrite list_fmap_delete.
Qed.


(** A walk over a list with [prs_dllist_foreach] ends and visits the nodes in
    order, and [prs_dllist_destroy] ends and gives back exactly the blocks of the
    list and of its nodes. *)
Lemma dllist_destroy_exact fuel self h mem l xs :
  dllist_ok self h mem l xs → (length xs < fuel)%nat →
  prs_dllist_foreach fuel mem (prs_dllist_begin l) = Ret (Some xs) ∧
  prs_dllist_empty l = bool_decide (u64 (Z.of_nat (length xs)) = 0) ∧
  ∃ h' mem', prs_dllist_destroy fuel self h mem l = Ret (Some (h', mem')) ∧
    heap_live h' = heap_live h ∖ list_to_set (self :: xs).
Proof.
  intros Hok Hf. pose proof (dllist_ok_rep _ _ _ _ _ Hok) as Hrep. split; [|split].
  - unfold prs_dllist_begin. rewrite (dl_rep_head l mem xs Hrep).
    rewrite (dllist_foreach_from fuel l mem xs 0 Hrep) by lia. done.
  - unfold prs_dllist_empty. rewrite (dl_rep_size l mem xs Hrep).
    destruct (Z.eqb_spec (u64 (Z.of_nat (length xs))) 0); by case_bool_decide.
  - destruct (dllist_clear_ok fuel self h mem l xs Hok Hf) as (h1 & mem1 & l1 & Heq & Hok1 & Hl1).
    unfold prs_dllist_destroy, prs_pal_free. rewrite Heq. ocbn.
    rewrite free_live by (apply (dllist_ok_live _ _ _ _ _ Hok1); by left). ocbn.
    eexists _, _. split; [done|]. simpl. rewrite Hl1. set_solver.
Qed.


(** ** The intrusive list (prs/lib/ds/idllist.c) *)

Section idllist.
Implicit Types (mem : dl_mem unit).

Record prs_idllist : Type := Idllist { idl_list : dl_list; idl_node_offset : Z }.

Definition prs_idllist_create (node_offset : Z) (h : heap) : option (loc * prs_idllist) * heap :=
  let (p, h) := prs_pal_malloc_zero h in
  (match p with Some self => Some (self, Idllist (DlList None None 0) node_offset) | None => None end, h).

Definition prs_idllist_insert_before (l : prs_idllist) mem (before : ptr) (node : loc) :
    outcome (prs_idllist * dl_mem unit) :=
  n ← deref (mem !! node);
  if decide (dl_next n ≠ None) then Ret (l, mem)
  else if decide (dl_prev n ≠ None) then Ret (l, mem)
  else
    '(l', mem) ← dl_link (idl_list l) mem before node;
    Ret (Idllist l' (idl_node_offset l), mem).

Definition prs_idllist_remove (l : prs_idllist) mem (node : loc) : outcome (prs_idllist * dl_mem unit) :=
  '(l', mem) ← dl_unlink (idl_list l) mem node;
  mem ← dl_update node (set_next None) mem;
  mem ← dl_update node (set_prev None) mem;
  Ret (Idllist l' (idl_node_offset l), mem).

Definition prs_idllist_begin (l : prs_idllist) : ptr := dl_head (idl_list l).
Definition prs_idllist_end (l : prs_idllist) : ptr := None.
Definition prs_idllist_next mem (node : loc) : outcome ptr := n ← deref (mem !! node); Ret (dl_next n).
Definition prs_idllist_get_data (l : prs_idllist) (node_address : Z) : Z :=
  u64 (node_address - idl_node_offset l).
Definition prs_idllist_empty (l : prs_idllist) : bool := dl_size (idl_list l) =? 0.
Definition prs_idllist_size (l : prs_idllist) : Z := dl_size (idl_list l).

(** The loop of [prs_idllist_is_inserted] from [search] on. *)
Fixpoint prs_idllist_search (fuel : nat) (l : prs_idllist) mem (search : ptr) (node : loc) :
    outcome (option bool) :=
  match fuel with
  | O => Ret None
  | S fuel =>
      match search with
      | None => Ret (Some false)
      | Some x =>
          if decide (x = node) then Ret (Some true)
          else search ← prs_idllist_next mem x; prs_idllist_search fuel l mem search node
      end
  end.

Definition prs_idllist_is_inserted (fuel : nat) (l : prs_idllist) mem (node : loc) : outcome (option bool) :=
  prs_idllist_search fuel l mem (prs_idllist_begin l) node.

Fixpoint prs_idllist_clear (fuel : nat) (l : prs_idllist) mem : outcome (option (prs_idllist * dl_mem unit)) :=
  match fuel with
  | O => Ret None
  | S fuel =>
      match prs_idllist_begin l with
      | None => Ret (Some (l, mem))
      | Some node => '(l, mem) ← prs_idllist_remove l mem node; prs_idllist_clear fuel l mem
      end
  end.

Definition prs_idllist_destroy (fuel : nat) (self : loc) (l : prs_idllist) mem (h : heap) :
    outcome (option (dl_mem unit * heap)) :=
  r ← prs_idllist_clear fuel l mem;
  match r with
  | None => Ret None
  | Some (_, mem) => h ← prs_pal_free (Some self) h; Ret (Some (mem, h))
  end.

(** A node that is in no list has null links. *)
Definition idl_unlinked mem (node : loc) : Prop := mem !! node = Some (DlNode None None tt).

Lemma idllist_search_from fuel l mem xs i node :
  dl_rep (idl_list l) mem xs → (i ≤ length xs)%nat → (length xs - i < fuel)%nat →
  prs_idllist_search fuel l mem (xs !! i) node = Ret (Some (bool_decide (node ∈ drop i xs))).
Proof.
  intros Hrep. revert i. induction fuel as [|fuel IH]; intros i Hi Hf; [lia|].
  cbn [prs_idllist_search]. destruct (xs !! i) as [x|] eqn:Hx.
  - rewrite (drop_S xs x i Hx). destruct (decide (x = node)) as [->|Hne].
    + by rewrite bool_decide_true by left.
    + destruct (dl_rep_lookup _ mem xs i x Hrep Hx) as [d Hd]. unfold prs_idllist_next. rewrite Hd. ocbn.
      pose proof (lookup_lt_Some _ _ _ Hx). cbn [dl_next]. rewrite IH by lia. do 2 f_equal.
      apply bool_decide_ext. rewrite elem_of_cons. naive_solver.
  - apply lookup_ge_None in Hx. rewrite drop_ge by done. by rewrite bool_decide_false by apply not_elem_of_nil.
Qed.
End idllist.

(** C30: [prs_idllist_insert_before] on a node that is in no list inserts it in the
    sequence, before position [i]; [prs_idllist_remove] takes a node out of it and
    leaves it with null links, so that it can be inserted again; neither touches
    the nodes of other lists; and [prs_idllist_is_inserted] ends and tells exactly
    whether a node is in the list. *)
Theorem idllist_exact (l : prs_idllist) mem xs fuel :
  dl_rep (idl_list l) mem xs → (length xs < fuel)%nat →
  (∀ i node, (i ≤ length xs)%nat → node ∉ xs → idl_unlinked mem node →
    ∃ l' mem', prs_idllist_insert_before l mem (xs !! i) node = Ret (l', mem') ∧
      dl_rep (idl_list l') mem' (insert_at i node xs) ∧ ∀ y, y ∉ node :: xs → mem' !! y = mem !! y) ∧
  (∀ i node, xs !! i = Some node →
    ∃ l' mem', prs_idllist_remove l mem node = Ret (l', mem') ∧
      dl_rep (idl_list l') mem' (delete i xs) ∧ idl_unlinked mem' node ∧ ∀ y, y ∉ xs → mem' !! y = mem !! y) ∧
  (∀ node, prs_idllist_is_inserted fuel l mem node = Ret (Some (bool_decide (node ∈ xs)))).
Proof.
  intros Hrep Hf. split; [|split].
  - intros i node Hi Hnode Hun. unfold idl_unlinked in Hun.
    destruct (dl_link_rep (idl_list l) mem xs i node Hrep Hi Hnode) as (l' & mem' & Heq & Hrep' & Hfr & _);
      [by eexists|].
    unfold prs_idllist_insert_before. rewrite Hun. ocbn. cbn [dl_next dl_prev].
    rewrite !decide_False, Heq by (intros H; by apply H). ocbn. by eexists _, mem'.
  - intros i node Hnode.
    destruct (dl_unlink_rep (idl_list l) mem xs i node Hrep Hnode) as (l' & mem' & Heq & Hrep' & Hn & Hfr & _).
    destruct (dl_rep_lookup (idl_list l) mem xs i node Hrep Hnode) as [d Hd]. rewrite <- Hn in Hd.
    unfold prs_idllist_remove. rewrite Heq. ocbn.
    rewrite dl_update_alter by (by rewrite Hd). ocbn.
    rewrite dl_update_alter by (by rewrite lookup_alter_eq, Hd). ocbn.
    eexists _, _. split; [done|]. split; [|split].
    + eapply dl_rep_mem; [|done]. intros y Hy. rewrite !lookup_alter_ne; [done|..];
        intros ->; pose proof (dl_rep_nodup _ mem xs Hrep) as Hnd;
        rewrite (delete_Permutation xs i y Hnode) in Hnd; by apply NoDup_cons in Hnd as [? _].
    + unfold idl_unlinked. rewrite !lookup_alter_eq, Hd. by destruct d.
    + intros y Hy. rewrite !lookup_alter_ne by (intros ->; apply Hy; by eapply list_elem_of_lookup_2).
      by apply Hfr.
  - intros node. unfold prs_idllist_is_inserted, prs_idllist_begin.
    rewrite (dl_rep_head (idl_list l) mem xs Hrep).
    by rewrite (idllist_search_from fuel l mem xs 0 node Hrep) by lia.
Qed.

Lemma idllist_exact_witness :
  let mem := {[ 2%positive := DlNode None None tt ]} : dl_mem unit in
  prs_idllist_is_inserted 2 (Idllist dll_demo_list 8) mem 2 = Ret (Some true) ∧
  ∃ l' mem', prs_idllist_remove (Idllist dll_demo_list 8) mem 2 = Ret (l', mem') ∧
    dl_rep (idl_list l') mem' [].
Proof.
  set (mem := {[ 2%positive := DlNode None None tt ]} : dl_mem unit).
  assert (dl_rep dll_demo_list mem [2%positive]) as Hrep.
  { split; try done; [repeat constructor; set_solver|]. intros [|i] x Hx; simplify_eq/=.
    eexists. split; [apply lookup_singleton_eq|done]. }
  destruct (idllist_exact (Idllist dll_demo_list 8) mem [2%positive] 2 Hrep ltac:(simpl; lia)) as (_ & Hr & Hs).
  split; [exact (Hs 2%positive)|].
  destruct (Hr 0%nat 2%positive eq_refl) as (l' & mem' & Heq & Hrep' & _).
  exists l', mem'. split; [exact Heq|exact Hrep'].
Defined.

(** The run-time checks of [prs_idllist_insert_before] do not see that a node is
    already the only one of the list: inserting it again makes it its own
    successor and predecessor. *)
Lemma idllist_double_insert_undetected :
  let mem := {[ 2%positive := DlNode None None tt ]} : dl_mem unit in
  prs_idllist_insert_before (Idllist dll_demo_list 8) mem None 2%positive =
    Ret (Idllist (DlList (Some 2%positive) (Some 2%positive) 2) 8,
         {[ 2%positive := DlNode (Some 2%positive) (Some 2%positive) tt ]}).
Proof. vm_compute. reflexivity. Qed.
