(* ===== verification/Mpsc.v ===== *)
(** * Queues with many producers and one consumer (prs/lib/ds/mpscq.c, mpsciq.c)

    Producers push nodes on a stack with a compare-exchange; the consumer builds the
    links in the other direction, from the newest node it has not seen down to the
    newest it has, and reads the queue from its oldest node on.  [mpscq] allocates
    its nodes, [mpsciq] links nodes that are part of the caller's objects; the rest of
    the code is the same in both files.

    The first part holds the functions, as programs over the shared memory; the
    second part proves, for any number of producers and in every interleaving, that
    the queue loses, repeats and reorders nothing; the third one looks at a consumer
    that runs alone, and at termination. *)

From S2P Require Import Prelude Heap Atomic Dll.

(** ** Shared memory *)

(** [struct prs_mpscq] and [struct prs_mpsciq], with the nodes and the heap. *)
Record mpsc (D : Type) : Type := Mpsc {
  q_head : ptr;
  q_reverse_tail : ptr;
  q_reverse_head : ptr;
  q_nodes : dl_mem D;
  q_heap : heap
}.
Arguments Mpsc {D} _ _ _ _ _.
Arguments q_head {D} _.
Arguments q_reverse_tail {D} _.
Arguments q_reverse_head {D} _.
Arguments q_nodes {D} _.
Arguments q_heap {D} _.

Section cells.
Context {D : Type}.

Definition with_head (v : ptr) (c : mpsc D) : mpsc D :=
  Mpsc v (q_reverse_tail c) (q_reverse_head c) (q_nodes c) (q_heap c).
Definition with_reverse_tail (v : ptr) (c : mpsc D) : mpsc D :=
  Mpsc (q_head c) v (q_reverse_head c) (q_nodes c) (q_heap c).
Definition with_reverse_head (v : ptr) (c : mpsc D) : mpsc D :=
  Mpsc (q_head c) (q_reverse_tail c) v (q_nodes c) (q_heap c).
Definition with_nodes (ns : dl_mem D) (c : mpsc D) : mpsc D :=
  Mpsc (q_head c) (q_reverse_tail c) (q_reverse_head c) ns (q_heap c).
Definition with_heap (h : heap) (c : mpsc D) : mpsc D :=
  Mpsc (q_head c) (q_reverse_tail c) (q_reverse_head c) (q_nodes c) h.

Definition head_cell : cell (mpsc D) ptr := Cell (λ c, Ret (q_head c)) (λ v c, Ret (with_head v c)).
Definition reverse_tail_cell : cell (mpsc D) ptr :=
  Cell (λ c, Ret (q_reverse_tail c)) (λ v c, Ret (with_reverse_tail v c)).
Definition reverse_head_cell : cell (mpsc D) ptr :=
  Cell (λ c, Ret (q_reverse_head c)) (λ v c, Ret (with_reverse_head v c)).

(** A field of the node at [x]. *)
Definition node_cell {V : Type} (get : dl_node D → V) (set_ : V → dl_node D → dl_node D) (x : loc) :
    cell (mpsc D) V :=
  Cell (λ c, n ← deref (q_nodes c !! x); Ret (get n))
       (λ v c, n ← deref (q_nodes c !! x); Ret (with_nodes (<[x := set_ v n]> (q_nodes c)) c)).
Definition set_data (d : D) (n : dl_node D) : dl_node D := DlNode (dl_next n) (dl_prev n) d.

Definition next_cell : loc → cell (mpsc D) ptr := node_cell dl_next set_next.
Definition prev_cell : loc → cell (mpsc D) ptr := node_cell dl_prev set_prev.
Definition data_cell : loc → cell (mpsc D) D := node_cell dl_data set_data.

(** [p->next], through a pointer that may be null. *)
Definition read_next (p : ptr) : prog (mpsc D) ptr :=
  match p with Some x => read (next_cell x) | None => act (λ _, Undef) end.

(** ** What the two files share *)

(** [do { prev = node; node = node->next; ... } while (node != reverse_tail)]: the
    last value of [prev]. *)
Fixpoint reverse_loop (fuel : nat) (node : ptr) : prog (mpsc D) ptr :=
  match fuel with
  | O => Spin
  | S fuel =>
      let prev := node in
      node ← read_next prev;
      _ ← (match node with Some x => write (prev_cell x) prev | None => Done tt end);
      rt ← read reverse_tail_cell;
      if decide (node = rt) then Done prev else reverse_loop fuel node
  end.

Definition build_reverse (fuel : nat) (head : ptr) : prog (mpsc D) unit :=
  rt ← read reverse_tail_cell;
  if decide (head = rt) then Done tt
  else
    prev ← reverse_loop fuel head;
    rh ← read reverse_head_cell;
    _ ← (if decide (rh = None) then write reverse_head_cell prev else Done tt);
    write reverse_tail_cell head.

(** [while (!compare_exchange_weak(&head, &node->next, node)) {}]: the exchange
    writes the current head into [node->next] when it fails. *)
Fixpoint push_loop (fuel : nat) (node : loc) : prog (mpsc D) unit :=
  match fuel with
  | O => Spin
  | S fuel =>
      next ← read (next_cell node);
      '(ok, cur) ← prs_pal_atomic_compare_exchange_weak head_cell next (Some node);
      if (ok : bool) then Done tt else _ ← write (next_cell node) cur; push_loop fuel node
  end.

(** The statements of [remove] after the head has been dealt with. *)
Definition unlink (node : loc) : prog (mpsc D) unit :=
  next ← read (next_cell node);
  _ ← (match next with
       | Some n => prev ← read (prev_cell node); write (prev_cell n) prev
       | None => Done tt
       end);
  rh ← read reverse_head_cell;
  _ ← (if decide (Some node = rh)
       then prev ← read (prev_cell node); write reverse_head_cell prev else Done tt);
  prev ← read (prev_cell node);
  _ ← (match prev with
       | Some p => next ← read (next_cell node); prs_pal_atomic_store (next_cell p) next
       | None => Done tt
       end);
  rt ← read reverse_tail_cell;
  if decide (Some node = rt)
  then next ← read (next_cell node); write reverse_tail_cell next else Done tt.

Definition q_begin (fuel : nat) : prog (mpsc D) ptr :=
  head ← prs_pal_atomic_load head_cell;
  _ ← build_reverse fuel head;
  read reverse_head_cell.

(** [for (node = begin; node != end; node = next(node)) body], from [node] on; the
    body returns the new state of the iteration, and whether it breaks out. *)
Fixpoint foreach_from {S : Type} (fuel : nat) (step : loc → prog (mpsc D) ptr)
    (body : loc → S → prog (mpsc D) (S * bool)) (node : ptr) (s : S) : prog (mpsc D) S :=
  match fuel with
  | O => Spin
  | Datatypes.S fuel =>
      match node with
      | None => Done s
      | Some x =>
          '(s, stop) ← body x s;
          if (stop : bool) then Done s
          else node ← step x; foreach_from fuel step body node s
      end
  end.

(** [foreach (search) { if (search == node) return true; } return false;] *)
Definition search_body (node search : loc) (found : bool) : prog (mpsc D) (bool * bool) :=
  if decide (search = node) then Done (true, true) else Done (found, false).
End cells.

(** ** The intrusive queue *)

Section mpsciq.
Implicit Types (node : loc) (fuel : nat).

Definition prs_mpsciq_create (h : heap) : ptr * heap := prs_pal_malloc_zero h.
Definition prs_mpsciq_destroy (self : loc) (h : heap) : outcome heap := prs_pal_free (Some self) h.
(** What [prs_mpsciq_create] leaves in the queue's own block. *)
Definition mpsciq_empty (ns : dl_mem unit) (h : heap) : mpsc unit := Mpsc None None None ns h.

Definition prs_mpsciq_build_reverse : nat → ptr → prog (mpsc unit) unit := build_reverse.

Definition prs_mpsciq_push fuel node : prog (mpsc unit) unit :=
  next ← read (next_cell node);
  if decide (next ≠ None) then Done tt
  else
    prev ← read (prev_cell node);
    if decide (prev ≠ None) then Done tt
    else
      head ← prs_pal_atomic_load head_cell;
      _ ← write (next_cell node) head;
      push_loop fuel node.

Definition prs_mpsciq_remove fuel node : prog (mpsc unit) unit :=
  head ← prs_pal_atomic_load head_cell;
  head ← (if decide (Some node = head)
          then next ← read_next head;
               '(_, head) ← prs_pal_atomic_compare_exchange_strong head_cell head next;
               Done head
          else Done head);
  _ ← (if decide (Some node = head) then Done tt else prs_mpsciq_build_reverse fuel head);
  _ ← unlink node;
  _ ← write (next_cell node) None;
  write (prev_cell node) None.

Definition prs_mpsciq_begin fuel : prog (mpsc unit) ptr :=
  head ← prs_pal_atomic_load head_cell;
  _ ← prs_mpsciq_build_reverse fuel head;
  read reverse_head_cell.
Definition prs_mpsciq_rbegin : prog (mpsc unit) ptr := prs_pal_atomic_load head_cell.
Definition prs_mpsciq_end : ptr := None.
Definition prs_mpsciq_next node : prog (mpsc unit) ptr := read (prev_cell node).
Definition prs_mpsciq_prev node : prog (mpsc unit) ptr := read (next_cell node).
Definition prs_mpsciq_get_data (node_address node_offset : Z) : Z := u64 (node_address - node_offset).
Definition prs_mpsciq_foreach {S : Type} fuel (body : loc → S → prog (mpsc unit) (S * bool)) (s : S) :
    prog (mpsc unit) S :=
  node ← prs_mpsciq_begin fuel; foreach_from fuel prs_mpsciq_next body node s.
Definition prs_mpsciq_rforeach {S : Type} fuel (body : loc → S → prog (mpsc unit) (S * bool)) (s : S) :
    prog (mpsc unit) S :=
  node ← prs_mpsciq_rbegin; foreach_from fuel prs_mpsciq_prev body node s.
Definition prs_mpsciq_is_inserted fuel node : prog (mpsc unit) bool :=
  prs_mpsciq_foreach fuel (search_body node) false.
End mpsciq.

(** ** The queue of allocated nodes *)

Section mpscq.
Implicit Types (node : loc) (fuel : nat) (data : ptr).

Definition prs_mpscq_create (h : heap) : ptr * heap := prs_pal_malloc_zero h.
(** What [prs_mpscq_create] leaves in the queue's own block. *)
Definition mpscq_empty (h : heap) : mpsc ptr := Mpsc None None None ∅ h.

(** A new node, whose contents are not initialised. *)
Definition malloc_node (junk : dl_node ptr) : prog (mpsc ptr) ptr :=
  act (λ c, let (p, h) := prs_pal_malloc (q_heap c) in
            Ret (p, with_heap h (match p with
                                 | Some x => with_nodes (<[x := junk]> (q_nodes c)) c
                                 | None => c
                                 end))).
Definition free_node node : prog (mpsc ptr) unit :=
  act (λ c, h ← prs_pal_free (Some node) (q_heap c);
            Ret (tt, with_heap h (with_nodes (delete node (q_nodes c)) c))).

Definition prs_mpscq_build_reverse : nat → ptr → prog (mpsc ptr) unit := build_reverse.

Definition prs_mpscq_push fuel (junk : dl_node ptr) data : prog (mpsc ptr) prs_result :=
  p ← malloc_node junk;
  match p with
  | None => Done PRS_OUT_OF_MEMORY
  | Some node =>
      _ ← write (prev_cell node) None;
      _ ← write (data_cell node) data;
      head ← prs_pal_atomic_load head_cell;
      _ ← write (next_cell node) head;
      _ ← push_loop fuel node;
      Done PRS_OK
  end.

(** [do { if (node != head) break; } while (!compare_exchange_weak(&head, &head, head->next))] *)
Fixpoint drop_head_loop (fuel : nat) node (head : ptr) : prog (mpsc ptr) ptr :=
  match fuel with
  | O => Spin
  | S fuel =>
      if decide (Some node ≠ head) then Done head
      else
        next ← read_next head;
        '(ok, head) ← prs_pal_atomic_compare_exchange_weak head_cell head next;
        if (ok : bool) then Done head else drop_head_loop fuel node head
  end.

Definition prs_mpscq_remove fuel node : prog (mpsc ptr) unit :=
  head ← prs_pal_atomic_load head_cell;
  head ← drop_head_loop fuel node head;
  _ ← (if decide (Some node = head) then Done tt else prs_mpscq_build_reverse fuel head);
  _ ← unlink node;
  free_node node.

Definition prs_mpscq_begin fuel : prog (mpsc ptr) ptr :=
  head ← prs_pal_atomic_load head_cell;
  _ ← prs_mpscq_build_reverse fuel head;
  read reverse_head_cell.
Definition prs_mpscq_rbegin : prog (mpsc ptr) ptr := prs_pal_atomic_load head_cell.
Definition prs_mpscq_end : ptr := None.
Definition prs_mpscq_next node : prog (mpsc ptr) ptr := read (prev_cell node).
Definition prs_mpscq_prev node : prog (mpsc ptr) ptr := read (next_cell node).
Definition prs_mpscq_get_data node : prog (mpsc ptr) ptr := read (data_cell node).
Definition prs_mpscq_foreach {S : Type} fuel (body : loc → S → prog (mpsc ptr) (S * bool)) (s : S) :
    prog (mpsc ptr) S :=
  node ← prs_mpscq_begin fuel; foreach_from fuel prs_mpscq_next body node s.
Definition prs_mpscq_rforeach {S : Type} fuel (body : loc → S → prog (mpsc ptr) (S * bool)) (s : S) :
    prog (mpsc ptr) S :=
  node ← prs_mpscq_rbegin; foreach_from fuel prs_mpscq_prev body node s.
Definition prs_mpscq_is_inserted fuel node : prog (mpsc ptr) bool :=
  prs_mpscq_foreach fuel (search_body node) false.

Fixpoint prs_mpscq_clear (rounds fuel : nat) (node : ptr) : prog (mpsc ptr) unit :=
  match rounds with
  | O => Spin
  | S rounds =>
      match node with
      | None => Done tt
      | Some x =>
          _ ← prs_mpscq_remove fuel x;
          node ← prs_mpscq_begin fuel;
          prs_mpscq_clear rounds fuel node
      end
  end.

Definition prs_mpscq_destroy fuel (self : loc) : prog (mpsc ptr) unit :=
  node ← prs_mpscq_begin fuel;
  _ ← prs_mpscq_clear fuel fuel node;
  act (λ c, h ← prs_pal_free (Some self) (q_heap c); Ret (tt, with_heap h c)).
End mpscq.

(** ** Ghost state

    What the proofs keep next to the memory: the nodes of the queue with their data,
    from the oldest to the newest; every push so far, with the thread that made it;
    and which thread owns the nodes that are not in the queue.  Thread 0 is the
    consumer. *)

Record q_ghost (D : Type) : Type := QGhost {
  g_queue : list (loc * D);
  g_pushes : list (nat * (loc * D));
  g_owner : gmap loc nat
}.
Arguments QGhost {D} _ _ _.
Arguments g_queue {D} _.
Arguments g_pushes {D} _.
Arguments g_owner {D} _.

(** The setting: how many threads there are, which blocks of the heap are not nodes,
    what is known in advance of the queue and of the pushes, and whether the consumer
    frees what it removes. *)
Record q_conf (D : Type) : Type := QConf {
  cf_threads : nat;
  cf_base : gset loc;
  cf_known : list (loc * D) → list (nat * (loc * D)) → Prop;
  cf_frees : Prop
}.
Arguments QConf {D} _ _ _ _.
Arguments cf_threads {D} _.
Arguments cf_base {D} _.
Arguments cf_known {D} _ _ _.
Arguments cf_frees {D} _.

(** The pushes of one thread. *)
Definition pushes_of {D : Type} (t : nat) (h : list (nat * (loc * D))) : list (loc * D) :=
  (filter (λ e, e.1 = t) h).*2.

Section protocol.
Context {D : Type}.
Context (cf : q_conf D).
Implicit Types (c : mpsc D) (g : q_ghost D) (zs : list (loc * D)) (x : loc) (t : nat).

(** The head points to the newest node, and each node to the one pushed before. *)
Record queue_rep c zs : Prop := QueueRep {
  rep_nodup : NoDup zs.*1;
  rep_head : q_head c = last zs.*1;
  rep_node : ∀ i x d, zs !! i = Some (x, d) →
    ∃ n, q_nodes c !! x = Some n ∧ dl_next n = before_pos zs.*1 i ∧ dl_data n = d
}.

Record q_inv c g : Prop := QInv {
  inv_rep : queue_rep c (g_queue g);
  inv_known : cf_known cf (g_queue g) (g_pushes g);
  inv_shared : ∀ x, x ∈ (g_queue g).*1 → g_owner g !! x = None;
  inv_owned : ∀ x t, g_owner g !! x = Some t → (t < cf_threads cf)%nat ∧ is_Some (q_nodes c !! x);
  inv_heap : heap_ok (q_heap c);
  inv_live : ∀ x, x ∈ heap_live (q_heap c) ↔ x ∈ cf_base cf ∨ is_Some (q_nodes c !! x);
  inv_base : ∀ x, x ∈ cf_base cf → q_nodes c !! x = None;
  inv_nodes : ∀ x, is_Some (q_nodes c !! x) → x ∈ (g_queue g).*1 ∨ is_Some (g_owner g !! x);
  inv_threads : (0 < cf_threads cf)%nat
}.

(** [x] is a node that thread [t] owns, with these contents. *)
Definition owns t x (n : dl_node D) c g : Prop := g_owner g !! x = Some t ∧ q_nodes c !! x = Some n.

(** What a thread relies on. *)
Definition q_same t (s s' : mpsc D * q_ghost D) : Prop :=
  (∀ x, g_owner s.2 !! x = Some t ↔ g_owner s'.2 !! x = Some t) ∧
  (∀ x, g_owner s.2 !! x = Some t → q_nodes s'.1 !! x = q_nodes s.1 !! x) ∧
  pushes_of t (g_pushes s'.2) = pushes_of t (g_pushes s.2).

Definition q_grows (s s' : mpsc D * q_ghost D) : Prop :=
  ∃ new, g_queue s'.2 = g_queue s.2 ++ new.*2 ∧ g_pushes s'.2 = g_pushes s.2 ++ new ∧
    q_reverse_tail s'.1 = q_reverse_tail s.1 ∧ q_reverse_head s'.1 = q_reverse_head s.1 ∧
    (∀ x, x ∈ (g_queue s.2).*1 → q_nodes s'.1 !! x = q_nodes s.1 !! x) ∧
    (∀ x, x ∈ new.*2.*1 → dl_prev <$> q_nodes s'.1 !! x = Some None).

Definition q_rely t (s s' : mpsc D * q_ghost D) : Prop :=
  q_inv s.1 s.2 → q_inv s'.1 s'.2 ∧ q_same t s s' ∧ (t = 0%nat → q_grows s s').

Definition q_guar t (s s' : mpsc D * q_ghost D) : Prop :=
  (q_inv s.1 s.2 → q_inv s'.1 s'.2) ∧ ∀ t', t' ≠ t → q_rely t' s s'.

#[export] Instance q_rely_preorder t : PreOrder (q_rely t).
Proof.
  split.
  - intros [c g] Hinv. split; [done|]. split; [done|]. intros ->. exists []. simpl.
    rewrite !app_nil_r. split_and!; [done..|]. intros x Hx. by apply elem_of_nil in Hx.
  - intros [c1 g1] [c2 g2] [c3 g3] H12 H23 Hinv. simpl in *.
    destruct (H12 Hinv) as (Hinv2 & (Ho2 & Hn2 & Hp2) & Hg2).
    destruct (H23 Hinv2) as (Hinv3 & (Ho3 & Hn3 & Hp3) & Hg3). simpl in *.
    split; [done|]. split; [split_and!|].
    + intros x. by rewrite Ho2.
    + intros x Hx. simpl in *. rewrite Hn3, Hn2; [done|done|by apply Ho2].
    + simpl in *. congruence.
    + intros ->. destruct (Hg2 eq_refl) as (l2 & Hq2 & Hh2 & Ht2 & Hr2 & Hs2 & Hv2).
      destruct (Hg3 eq_refl) as (l3 & Hq3 & Hh3 & Ht3 & Hr3 & Hs3 & Hv3). simpl in *.
      exists (l2 ++ l3). simpl. rewrite !fmap_app.
      assert (∀ x, x ∈ (g_queue g2).*1 → q_nodes c3 !! x = q_nodes c2 !! x) as Hs by done.
      rewrite Hq2 in Hs. setoid_rewrite fmap_app in Hs.
      split_and!; [by rewrite Hq3, Hq2, app_assoc|by rewrite Hh3, Hh2, app_assoc|congruence..| |].
      * intros x Hx. rewrite Hs; [by apply Hs2|]. apply elem_of_app. by left.
      * intros x [Hx|Hx]%elem_of_app; [|by apply Hv3]. rewrite Hs; [by apply Hv2|].
        apply elem_of_app. by right.
Qed.

Lemma q_guar_rely i j s s' : i ≠ j → q_guar i s s' → q_rely j s s'.
Proof. intros Hne [_ H]. by apply H. Qed.

Lemma q_guar_inv t c g c' g' : q_guar t (c, g) (c', g') → q_inv c g → q_inv c' g'.
Proof. intros [H _]. exact H. Qed.

Lemma q_guar_refl t s : q_guar t s s.
Proof. split; [done|]. intros t' _. reflexivity. Qed.

Lemma q_guar_intro t s s' :
  (q_inv s.1 s.2 → q_inv s'.1 s'.2 ∧ (∀ t', t' ≠ t → q_same t' s s') ∧ (t ≠ 0%nat → q_grows s s')) →
  q_guar t s s'.
Proof.
  intros H. split; [intros Hi; by apply H|]. intros t' Hne Hi. destruct (H Hi) as (Hi' & Hs & Hg).
  split; [done|]. split; [by apply Hs|]. intros ->. by apply Hg.
Qed.

Lemma q_grows_nothing s c' g' :
  g_queue g' = g_queue s.2 → g_pushes g' = g_pushes s.2 →
  q_reverse_tail c' = q_reverse_tail s.1 → q_reverse_head c' = q_reverse_head s.1 →
  (∀ x, x ∈ (g_queue s.2).*1 → q_nodes c' !! x = q_nodes s.1 !! x) → q_grows s (c', g').
Proof.
  intros. exists []. simpl. rewrite !app_nil_r. split_and!; [done..|].
  intros x Hx. by apply elem_of_nil in Hx.
Qed.

(** ** The actions of the threads *)

Lemma owned_not_queued c g x t : q_inv c g → g_owner g !! x = Some t → x ∉ (g_queue g).*1.
Proof. intros Hi Ho Hx. apply (inv_shared c g Hi) in Hx. congruence. Qed.

(** The nodes of the queue keep their successor and their data. *)
Definition nodes_kept zs c c' : Prop :=
  ∀ x n, x ∈ zs.*1 → q_nodes c !! x = Some n →
    ∃ n', q_nodes c' !! x = Some n' ∧ dl_next n' = dl_next n ∧ dl_data n' = dl_data n.

Lemma queue_rep_kept c c' zs :
  queue_rep c zs → q_head c' = q_head c → nodes_kept zs c c' → queue_rep c' zs.
Proof.
  intros [Hnd Hh Hn] Hh' Hk. split; [done|congruence|]. intros i x d Hx.
  destruct (Hn i x d Hx) as (n & Hxn & Hnext & Hd).
  destruct (Hk x n) as (n' & Hx' & Hnext' & Hd'); [|done|exists n'; by rewrite Hnext', Hd'].
  apply list_elem_of_fmap. exists (x, d). split; [done|]. by eapply list_elem_of_lookup_2.
Qed.

Lemma nodes_kept_eq zs c c' :
  (∀ x, x ∈ zs.*1 → q_nodes c' !! x = q_nodes c !! x) → nodes_kept zs c c'.
Proof. intros H x n Hx Hn. rewrite (H x Hx). eauto. Qed.

Lemma nodes_kept_update zs c x n n' :
  q_nodes c !! x = Some n → dl_next n' = dl_next n → dl_data n' = dl_data n →
  nodes_kept zs c (with_nodes (<[x := n']> (q_nodes c)) c).
Proof.
  intros Hn H1 H2 y m Hy Hm. simpl. destruct (decide (x = y)) as [->|Hne].
  - rewrite lookup_insert_eq. exists n'. simplify_eq. done.
  - rewrite lookup_insert_ne by done. eauto.
Qed.

Lemma owned_nodes_kept t c g x n' :
  q_inv c g → g_owner g !! x = Some t →
  nodes_kept (g_queue g) c (with_nodes (<[x := n']> (q_nodes c)) c).
Proof.
  intros Hi Ho. apply nodes_kept_eq. intros y Hy. simpl. rewrite lookup_insert_ne; [done|].
  intros ->. by eapply owned_not_queued.
Qed.

Lemma inv_same_shape c c' g :
  q_inv c g → queue_rep c' (g_queue g) → q_heap c' = q_heap c →
  (∀ y, is_Some (q_nodes c' !! y) ↔ is_Some (q_nodes c !! y)) → q_inv c' g.
Proof.
  intros [Hr Hb Hs Ho Hh Hl Hbase Hnodes Hthreads] Hr' Hheap Hd. split; try rewrite Hheap; try done.
  - intros y t Hy. rewrite Hd. by apply Ho.
  - intros y. rewrite Hd. apply Hl.
  - intros y Hy. apply eq_None_not_Some. rewrite Hd. apply eq_None_not_Some. by apply Hbase.
  - intros y. rewrite Hd. apply Hnodes.
Qed.

Lemma inv_update_node c g x n n' :
  q_inv c g → q_nodes c !! x = Some n →
  nodes_kept (g_queue g) c (with_nodes (<[x := n']> (q_nodes c)) c) →
  q_inv (with_nodes (<[x := n']> (q_nodes c)) c) g.
Proof.
  intros Hi Hn Hk. eapply inv_same_shape; [exact Hi| |done|].
  - eapply queue_rep_kept; [apply Hi|done|done].
  - intros y. simpl. rewrite lookup_insert. case_decide as Hy; [subst|done]. rewrite Hn. split; by eexists.
Qed.

(** A thread writes a field of a node it owns. *)
Lemma own_write_guar t x n n' c g :
  owns t x n c g → q_guar t (c, g) (with_nodes (<[x := n']> (q_nodes c)) c, g).
Proof.
  intros [Ho Hn]. apply q_guar_intro. simpl. intros Hi.
  split; [eapply inv_update_node; [done..|]; by eapply owned_nodes_kept|]. split.
  - intros t' Hne. split_and!; simpl; [done| |done]. intros y Hy. rewrite lookup_insert_ne; [done|]. congruence.
  - intros _. apply q_grows_nothing; try done. intros y Hy. simpl. rewrite lookup_insert_ne; [done|].
    intros ->. by eapply owned_not_queued.
Qed.

(** The consumer writes the [prev] field of a node of the queue. *)
Lemma prev_write_guar x n p c g :
  q_nodes c !! x = Some n → x ∈ (g_queue g).*1 →
  q_guar 0 (c, g) (with_nodes (<[x := set_prev p n]> (q_nodes c)) c, g).
Proof.
  intros Hn Hx. apply q_guar_intro. simpl. intros Hi.
  split; [eapply inv_update_node; [done..|]; by eapply nodes_kept_update|]. split; [|done].
  intros t' Hne. split_and!; simpl; [done| |done]. intros y Hy. rewrite lookup_insert_ne; [done|].
  intros ->. by eapply owned_not_queued.
Qed.

(** The consumer writes the fields that are its own. *)
Lemma reverse_fields_guar c c' g :
  q_head c' = q_head c → q_nodes c' = q_nodes c → q_heap c' = q_heap c → q_guar 0 (c, g) (c', g).
Proof.
  intros Hh Hn Hp. apply q_guar_intro. simpl. intros Hi. split.
  - eapply inv_same_shape; [exact Hi| |done|intros y; by rewrite Hn].
    eapply queue_rep_kept; [apply Hi|done|]. apply nodes_kept_eq. intros. by rewrite Hn.
  - split; [|done]. intros t' Hne. split_and!; simpl; [done| |done]. intros. by rewrite Hn.
Qed.

(** A producer puts a node it owns at the head of the queue. *)
Definition g_push t x (d : D) g : q_ghost D :=
  QGhost (g_queue g ++ [(x, d)]) (g_pushes g ++ [(t, (x, d))]) (delete x (g_owner g)).

Lemma last_before {A : Type} (l : list A) : last l = match length l with O => None | S j => l !! j end.
Proof. rewrite last_lookup. by destruct l. Qed.

Lemma last_before_pos (xs : list loc) : last xs = before_pos xs (length xs).
Proof. apply last_before. Qed.

Lemma push_rep c zs x d :
  queue_rep c zs → q_nodes c !! x = Some (DlNode (q_head c) None d) → x ∉ zs.*1 →
  queue_rep (with_head (Some x) c) (zs ++ [(x, d)]).
Proof.
  intros [Hnd Hh Hn] Hx Hnew. split; simpl; rewrite fmap_app; simpl.
  - apply NoDup_app. split; [done|]. split; [|apply NoDup_singleton]. intros y Hy. by intros ->%list_elem_of_singleton.
  - by rewrite last_snoc.
  - intros i y dy Hy. assert (before_pos (zs.*1 ++ [x]) i = before_pos zs.*1 i) as ->.
    { apply lookup_lt_Some in Hy. rewrite length_app in Hy. destruct i as [|i]; [done|]. simpl in *.
      rewrite lookup_app_l; [done|]. rewrite length_fmap. lia. }
    apply lookup_app_Some in Hy as [Hy|[Hlen Hy]]; [by apply Hn|].
    apply list_lookup_singleton_Some in Hy as [Hi [= -> ->]]. assert (i = length zs) as -> by lia.
    eexists. split; [done|]. simpl. rewrite Hh, last_before_pos, length_fmap. done.
Qed.

Lemma pushes_of_app t (h h' : list (nat * (loc * D))) : pushes_of t (h ++ h') = pushes_of t h ++ pushes_of t h'.
Proof. unfold pushes_of. by rewrite filter_app, fmap_app. Qed.

Lemma push_guar t x d c g :
  t ≠ 0%nat → (∀ q h, cf_known cf q h → cf_known cf (q ++ [(x, d)]) (h ++ [(t, (x, d))])) →
  owns t x (DlNode (q_head c) None d) c g →
  q_guar t (c, g) (with_head (Some x) c, g_push t x d g).
Proof.
  intros Ht Hknown [Ho Hx]. apply q_guar_intro. simpl. intros Hi.
  pose proof (owned_not_queued _ _ _ _ Hi Ho) as Hnew. destruct Hi as [Hr Hb Hs Hown Hh Hl Hbase Hnodes Hthreads]. split_and!.
  - split; simpl; [by apply push_rep|by apply Hknown| | |done|done|done| |done].
    + intros y. rewrite fmap_app. intros [Hy|Hy]%elem_of_app.
      * rewrite lookup_delete_ne; [by apply Hs|]. intros ->. done.
      * apply list_elem_of_singleton in Hy as ->. apply lookup_delete_eq.
    + intros y t' Hy. apply lookup_delete_Some in Hy as [_ Hy]. by eapply Hown.
    + intros y Hy. rewrite fmap_app. destruct (decide (x = y)) as [->|Hne].
      * left. apply elem_of_app. right. by apply list_elem_of_singleton.
      * rewrite lookup_delete_ne by done. destruct (Hnodes y Hy) as [|]; [left|by right].
        apply elem_of_app. by left.
  - intros t' Hne. split_and!; simpl; [|done|].
    + intros y. rewrite lookup_delete_Some. split; [|naive_solver]. intros Hy. split; [|done]. congruence.
    + rewrite pushes_of_app. unfold pushes_of at 2. rewrite filter_cons_False by (simpl; congruence).
      by rewrite app_nil_r.
  - intros _. exists [(t, (x, d))]. simpl. split_and!; try done.
    intros y ->%list_elem_of_singleton. by rewrite Hx.
Qed.

(** A node is allocated. *)
Lemma malloc_guar t x junk h c g :
  q_inv c g → (t < cf_threads cf)%nat → prs_pal_malloc (q_heap c) = (Some x, h) →
  let c' := with_heap h (with_nodes (<[x := junk]> (q_nodes c)) c) in
  let g' := QGhost (g_queue g) (g_pushes g) (<[x := t]> (g_owner g)) in
  q_guar t (c, g) (c', g') ∧ owns t x junk c' g'.
Proof.
  intros Hi Ht Hm. destruct (malloc_ok _ _ _ (inv_heap c g Hi) Hm) as (Hok & Hfresh & Hlive).
  assert (q_nodes c !! x = None) as Hx.
  { destruct (q_nodes c !! x) eqn:E; [|done]. exfalso. apply Hfresh, (inv_live c g Hi). right. by eexists. }
  assert (g_owner g !! x = None) as Hxo.
  { destruct (g_owner g !! x) eqn:E; [|done]. destruct (inv_owned c g Hi _ _ E) as [_ [? ?]]. congruence. }
  assert (x ∉ (g_queue g).*1) as Hxq.
  { intros ([? d] & -> & Hq)%list_elem_of_fmap. apply list_elem_of_lookup in Hq as [i Hq].
    destruct (rep_node c _ (inv_rep c g Hi) i _ _ Hq) as (n & Hn & _). simpl in *. congruence. }
  intros c' g'. split; [|split; simpl; by rewrite lookup_insert_eq].
  apply q_guar_intro. simpl. intros [Hr Hb Hs Hown Hh Hl Hbase Hnodes Hthreads].
  assert (∀ y, y ∈ (g_queue g).*1 → <[x:=junk]> (q_nodes c) !! y = q_nodes c !! y) as Hk.
  { intros y Hy. rewrite lookup_insert_ne; [done|]. by intros ->. }
  split_and!.
  - assert (∀ y, y ∈ cf_base cf → x ≠ y) as Hxb by (intros y Hy ->; apply Hfresh, Hl; by left).
    split; simpl; [|done| | |done| | | |done].
    + eapply queue_rep_kept; [exact Hr|done|]. by apply nodes_kept_eq.
    + intros y Hy. rewrite lookup_insert_ne; [by apply Hs|]. by intros ->.
    + intros y t' Hy. destruct (decide (x = y)) as [->|].
      * rewrite lookup_insert_eq in Hy. rewrite lookup_insert_eq. simplify_eq. split; [done|]. by eexists.
      * rewrite lookup_insert_ne in Hy by done. rewrite lookup_insert_ne by done. by apply Hown.
    + intros y. rewrite Hlive, elem_of_union, Hl, elem_of_singleton. destruct (decide (x = y)) as [->|].
      * rewrite lookup_insert_eq. split; [right; by eexists|by left].
      * rewrite lookup_insert_ne by done. naive_solver.
    + intros y Hy. rewrite lookup_insert_ne by by apply Hxb. by apply Hbase.
    + intros y. destruct (decide (x = y)) as [->|].
      * intros _. right. by rewrite lookup_insert_eq.
      * rewrite !lookup_insert_ne by done. apply Hnodes.
  - intros t' Hne. split_and!; simpl; [| |done].
    + intros y. destruct (decide (x = y)) as [->|]; [rewrite lookup_insert_eq|by rewrite lookup_insert_ne].
      split; intros; simplify_eq.
    + intros y Hy. rewrite lookup_insert_ne; [done|]. intros ->. congruence.
  - intros _. by apply q_grows_nothing.
Qed.

Lemma malloc_none_guar t h c g :
  prs_pal_malloc (q_heap c) = (None, h) → q_guar t (c, g) (with_heap h c, g).
Proof.
  intros Hm. apply q_guar_intro. simpl. intros Hi.
  destruct (malloc_ok _ _ _ (inv_heap c g Hi) Hm) as [Hok Hlive].
  destruct Hi as [Hr Hb Hs Hown Hh Hl Hbase Hnodes Hthreads]. split_and!.
  - split; simpl; try done; [by eapply queue_rep_kept; [| |apply nodes_kept_eq]|]. intros y. by rewrite Hlive.
  - intros t' Hne. done.
  - intros _. by apply q_grows_nothing.
Qed.

(** The consumer takes the node at position [i] out of the queue. *)
Definition g_remove (i : nat) x g : q_ghost D :=
  QGhost (delete i (g_queue g)) (g_pushes g) (<[x := 0%nat]> (g_owner g)).

Lemma before_pos_delete (xs : list loc) (i j : nat) :
  before_pos (delete i xs) j = before_pos xs (if decide (j <= i)%nat then j else S j).
Proof.
  destruct j as [|j]; cbn [before_pos]; [rewrite decide_True by lia; done|].
  rewrite delete_lookup. destruct (decide (j < i)%nat).
  - rewrite decide_True by lia. done.
  - rewrite decide_False by lia. done.
Qed.

Lemma fmap_delete {A B : Type} (f : A → B) (l : list A) (i : nat) : f <$> delete i l = delete i (f <$> l).
Proof. revert i. induction l as [|a l IH]; intros [|i]; simpl; [done..|]. by rewrite IH. Qed.

Lemma remove_rep c c' zs i x d :
  queue_rep c zs → zs !! i = Some (x, d) → q_head c' = last (delete i zs.*1) →
  (∀ j y n, j ≠ i → j ≠ S i → zs.*1 !! j = Some y → q_nodes c !! y = Some n →
    ∃ n', q_nodes c' !! y = Some n' ∧ dl_next n' = dl_next n ∧ dl_data n' = dl_data n) →
  (∀ p n, zs.*1 !! S i = Some p → q_nodes c !! p = Some n →
    ∃ n', q_nodes c' !! p = Some n' ∧ dl_next n' = before_pos zs.*1 i ∧ dl_data n' = dl_data n) →
  queue_rep c' (delete i zs).
Proof.
  intros [Hnd Hh Hn] Hx Hhead Hother Hnext.
  assert (zs.*1 !! i = Some x) as Hx1 by by rewrite list_lookup_fmap, Hx.
  split; rewrite ?fmap_delete; [| done|].
  - apply (delete_Permutation zs.*1 i x) in Hx1. rewrite Hx1 in Hnd. by apply NoDup_cons in Hnd as [_ ?].
  - intros j y dy Hj. rewrite before_pos_delete.
    destruct (decide (j < i)%nat) as [Hlt|Hge].
    + rewrite list_lookup_delete_lt in Hj by done. rewrite decide_True by lia.
      destruct (Hn j y dy Hj) as (n & Hyn & Hnx & Hd).
      destruct (Hother j y n) as (n' & ? & ? & ?); [lia|lia|by rewrite list_lookup_fmap, Hj|done|].
      exists n'. split; [done|]. split; congruence.
    + rewrite list_lookup_delete_ge in Hj by lia.
      destruct (Hn (S j) y dy Hj) as (n & Hyn & Hnx & Hd).
      assert (zs.*1 !! S j = Some y) as Hj1 by by rewrite list_lookup_fmap, Hj.
      destruct (decide (j <= i)%nat) as [Hle|Hgt].
      * assert (j = i) as -> by lia. destruct (Hnext y n) as (n' & ? & ? & ?); [done..|].
        exists n'. split; [done|]. split; congruence.
      * destruct (Hother (S j) y n) as (n' & ? & ? & ?); [lia|lia|done|done|].
        exists n'. split; [done|]. split; congruence.
Qed.

Lemma remove_guar c c' g i x d :
  (∀ q h i, cf_known cf q h → cf_known cf (delete i q) h) → g_queue g !! i = Some (x, d) → 
  (q_inv c g → queue_rep c' (delete i (g_queue g))) → q_heap c' = q_heap c →
  (∀ y, is_Some (q_nodes c' !! y) ↔ is_Some (q_nodes c !! y)) →
  (∀ y, y ∉ (g_queue g).*1 → q_nodes c' !! y = q_nodes c !! y) →
  q_guar 0 (c, g) (c', g_remove i x g).
Proof.
  intros Hdown Hx Hrep Hheap Hdom Hother. apply q_guar_intro. simpl. intros Hi.
  assert (x ∈ (g_queue g).*1) as Hxq.
  { apply list_elem_of_fmap. exists (x, d). split; [done|]. by eapply list_elem_of_lookup_2. }
  pose proof (inv_shared c g Hi x Hxq) as Hxo.
  assert (∀ y t, g_owner g !! y = Some t → y ∉ (g_queue g).*1) as Hnq by (intros y t; by apply (owned_not_queued c)).
  pose proof (inv_threads c g Hi) as Hpos.
  specialize (Hrep Hi). destruct Hi as [Hr Hb Hs Hown Hh Hl Hbase Hnodes Hthreads]. split_and!; [| |done].
  - assert ((g_queue g).*1 !! i = Some x) as Hx1 by by rewrite list_lookup_fmap, Hx.
    pose proof (delete_Permutation (g_queue g).*1 i x Hx1) as Hp.
    pose proof (rep_nodup _ _ Hr) as Hnd. rewrite Hp in Hnd. apply NoDup_cons in Hnd as [Hnx _].
    split; simpl; [done| | | |by rewrite Hheap| | | |done].
    + by apply Hdown.
    + intros y. rewrite fmap_delete. intros Hy. rewrite lookup_insert_ne by (by intros ->).
      apply Hs. rewrite Hp. by right.
    + intros y t Hy. rewrite Hdom. destruct (decide (x = y)) as [->|].
      * rewrite lookup_insert_eq in Hy. simplify_eq. split; [done|].
        destruct (rep_node _ _ Hr i y d Hx) as (n & -> & _). done.
      * rewrite lookup_insert_ne in Hy by done. by apply Hown.
    + intros y. rewrite Hheap, Hdom. apply Hl.
    + intros y Hy. apply eq_None_not_Some. rewrite Hdom. apply eq_None_not_Some. by apply Hbase.
    + intros y. rewrite Hdom, fmap_delete. intros Hy. destruct (decide (x = y)) as [->|Hne].
      * right. by rewrite lookup_insert_eq.
      * rewrite lookup_insert_ne by done. destruct (Hnodes y Hy) as [Hyq|]; [left|by right].
        rewrite Hp in Hyq. apply elem_of_cons in Hyq as [->|]; done.
  - intros t' Hne. split_and!; simpl; [| |done].
    + intros y. destruct (decide (x = y)) as [->|]; [rewrite lookup_insert_eq, Hxo|by rewrite lookup_insert_ne].
      split; intros; simplify_eq.
    + intros y Hy. apply Hother. by eapply Hnq.
Qed.

(** A thread frees a node it owns. *)
Lemma free_guar t x n c g :
  let c' := with_heap (Heap (heap_live (q_heap c) ∖ {[ x ]}) (heap_answers (q_heap c)))
              (with_nodes (delete x (q_nodes c)) c) in
  let g' := QGhost (g_queue g) (g_pushes g) (delete x (g_owner g)) in
  owns t x n c g → q_guar t (c, g) (c', g').
Proof.
  intros c' g' [Ho Hx]. apply q_guar_intro. simpl. intros Hi.
  pose proof (owned_not_queued _ _ _ _ Hi Ho) as Hq. destruct Hi as [Hr Hb Hs Hown Hh Hl Hbase Hnodes Hthreads].
  assert (∀ y, y ∈ (g_queue g).*1 → delete x (q_nodes c) !! y = q_nodes c !! y) as Hk.
  { intros y Hy. rewrite lookup_delete_ne; [done|]. by intros ->. }
  split_and!.
  - split; simpl; [|done| | |by apply heap_ok_free| | | |done].
    + eapply queue_rep_kept; [exact Hr|done|]. by apply nodes_kept_eq.
    + intros y Hy. rewrite lookup_delete_None. right. by apply Hs.
    + intros y t' [Hne Hy]%lookup_delete_Some. rewrite lookup_delete_ne by done. by apply Hown.
    + intros y. rewrite elem_of_difference, not_elem_of_singleton, Hl. destruct (decide (x = y)) as [->|].
      * rewrite lookup_delete_eq. split; [naive_solver|]. intros [Hy|[m Hm]]; [|done]. rewrite Hbase in Hx; done.
      * rewrite lookup_delete_ne by done. naive_solver.
    + intros y Hy. rewrite lookup_delete_None. right. by apply Hbase.
    + intros y [m [Hne Hy]%lookup_delete_Some]. rewrite lookup_delete_ne by done. apply Hnodes. by eexists.
  - intros t' Hne. split_and!; simpl; [| |done].
    + intros y. rewrite lookup_delete_Some. split; [|naive_solver]. intros Hy. split; [|done]. congruence.
    + intros y Hy. rewrite lookup_delete_ne; [done|]. congruence.
  - intros _. by apply q_grows_nothing.
Qed.

(** ** What the consumer knows

    [zs] is a part of the queue that the consumer has seen, [h] the pushes until
    then, [pf] the [prev] fields of the nodes of [zs]; producers may have pushed
    since. *)
Definition knows zs (h : list (nat * (loc * D))) (pf : nat → ptr) (rt rh : ptr) c g : Prop :=
  q_inv c g ∧ q_reverse_tail c = rt ∧ q_reverse_head c = rh ∧
  (∀ j x, zs.*1 !! j = Some x → dl_prev <$> q_nodes c !! x = Some (pf j)) ∧
  ∃ new, g_queue g = zs ++ new.*2 ∧ g_pushes g = h ++ new ∧
    ∀ x, x ∈ new.*2.*1 → dl_prev <$> q_nodes c !! x = Some None.

Lemma knows_rely zs h pf rt rh c g c' g' :
  q_rely 0 (c, g) (c', g') → knows zs h pf rt rh c g → knows zs h pf rt rh c' g'.
Proof.
  intros HR (Hi & Hrt & Hrh & Hpf & new & Hq & Hh & Hnew).
  destruct (HR Hi) as (Hi' & _ & Hgrow). destruct (Hgrow eq_refl) as (new' & Hq' & Hh' & Ht' & Hr' & Hs & Hv).
  simpl in *. split; [done|]. split; [congruence|]. split; [congruence|]. rewrite Hq, fmap_app in Hs. split.
  - intros j x Hx. rewrite Hs; [by apply Hpf|]. apply elem_of_app. left. by eapply list_elem_of_lookup_2.
  - exists (new ++ new'). rewrite !fmap_app. split_and!; [by rewrite Hq', Hq, app_assoc|by rewrite Hh', Hh, app_assoc|].
    intros x [Hx|Hx]%elem_of_app; [|by apply Hv]. rewrite Hs; [by apply Hnew|]. apply elem_of_app. by right.
Qed.

Lemma owns_rely t x n c g c' g' :
  q_inv c g → q_rely t (c, g) (c', g') → owns t x n c g → owns t x n c' g'.
Proof.
  intros Hi HR [Ho Hx]. destruct (HR Hi) as (_ & (Hown & Hn & _) & _). simpl in *.
  split; [by apply Hown|]. by rewrite Hn.
Qed.

Lemma knows_inv zs h pf rt rh c g : knows zs h pf rt rh c g → q_inv c g.
Proof. by intros [? _]. Qed.

(** The consumer looks again: everything that is in the queue now. *)
Lemma knows_extend zs h pf rt rh c g :
  knows zs h pf rt rh c g →
  ∃ new, g_queue g = zs ++ new.*2 ∧
    knows (zs ++ new.*2) (h ++ new) (λ j, if decide (j < length zs)%nat then pf j else None) rt rh c g.
Proof.
  intros (Hi & Hrt & Hrh & Hpf & new & Hq & Hh & Hnew). exists new. split; [done|].
  split; [done|]. split; [done|]. split; [done|]. split.
  - intros j x Hx. rewrite fmap_app in Hx. case_decide as Hj.
    + apply Hpf. rewrite lookup_app_l in Hx; [done|]. by rewrite length_fmap.
    + apply Hnew. rewrite lookup_app_r in Hx; [by eapply list_elem_of_lookup_2|]. rewrite length_fmap. lia.
  - exists []. simpl. rewrite !app_nil_r. split_and!; [done..|]. intros x Hx. by apply elem_of_nil in Hx.
Qed.

Lemma knows_ext zs h pf pf' rt rh c g :
  (∀ j, (j < length zs)%nat → pf' j = pf j) → knows zs h pf rt rh c g → knows zs h pf' rt rh c g.
Proof.
  intros He (Hi & Hrt & Hrh & Hpf & Hn). do 3 (split; [done|]). split; [|done]. intros j x Hx.
  rewrite He; [by apply Hpf|]. apply lookup_lt_Some in Hx. by rewrite length_fmap in Hx.
Qed.

Lemma knows_nodup zs h pf rt rh c g : knows zs h pf rt rh c g → NoDup zs.*1.
Proof.
  intros (Hi & _ & _ & _ & new & Hq & _). pose proof (rep_nodup _ _ (inv_rep c g Hi)) as Hnd.
  rewrite Hq, fmap_app in Hnd. by apply NoDup_app in Hnd as [? _].
Qed.

Lemma knows_in_queue zs h pf rt rh c g j x :
  knows zs h pf rt rh c g → zs.*1 !! j = Some x → (g_queue g).*1 !! j = Some x.
Proof.
  intros (_ & _ & _ & _ & new & Hq & _) Hx. rewrite Hq, fmap_app. by apply lookup_app_l_Some.
Qed.

Lemma before_pos_app (xs ys : list loc) i : (i <= length xs)%nat → before_pos (xs ++ ys) i = before_pos xs i.
Proof. intros Hi. destruct i as [|i]; [done|]. simpl. rewrite lookup_app_l; [done|lia]. Qed.

(** The node at position [j] of what the consumer has seen. *)
Lemma knows_node zs h pf rt rh c g j x d :
  knows zs h pf rt rh c g → zs !! j = Some (x, d) →
  q_nodes c !! x = Some (DlNode (before_pos zs.*1 j) (pf j) d).
Proof.
  intros Hk Hx. assert (zs.*1 !! j = Some x) as Hx1 by by rewrite list_lookup_fmap, Hx.
  destruct Hk as (Hi & Hrt & Hrh & Hpf & new & Hq & Hh & Hnew).
  destruct (rep_node _ _ (inv_rep c g Hi) j x d) as (n & Hn & Hnext & Hd).
  { rewrite Hq. by apply lookup_app_l_Some. }
  specialize (Hpf j x Hx1). rewrite Hn in Hpf. destruct n as [nx pv dt]. simpl in *.
  rewrite Hn. injection Hpf as ->. rewrite Hnext, Hd, Hq, fmap_app, before_pos_app; [done|].
  apply lookup_lt_Some in Hx1. lia.
Qed.
End protocol.

(** ** The consumer's steps *)

Section consumer.
Context {D : Type} (cf : q_conf D) (sok spurious : Prop).
Implicit Types (c : mpsc D) (g : q_ghost D) (zs : list (loc * D)) (x : loc) (o : option (loc * dl_node D)).

Abbreviation crg := (rg False sok spurious (q_rely cf 0) (q_guar cf 0)).

(** A node that the consumer owns; the only one, when it frees its nodes. *)
Definition holding o c g : Prop :=
  match o with Some (x, n) => owns 0 x n c g | None => True end ∧
  (cf_frees cf → ∀ y, g_owner g !! y = Some 0%nat → ∃ n, o = Some (y, n)).

Definition K o zs h pf rt rh c g : Prop := knows cf zs h pf rt rh c g ∧ holding o c g.

Lemma holding_nodes o c c' g :
  holding o c g → (∀ x n, o = Some (x, n) → q_nodes c' !! x = q_nodes c !! x) → holding o c' g.
Proof.
  intros [Ho He] Hn. split; [|done]. destruct o as [[x n]|]; [|done]. destruct Ho as [Hown Hx].
  split; [done|]. by rewrite (Hn x n).
Qed.

Lemma K_rely o zs h pf rt rh c g c' g' :
  q_rely cf 0 (c, g) (c', g') → K o zs h pf rt rh c g → K o zs h pf rt rh c' g'.
Proof.
  intros HR [Hk [Ho He]]. split; [by eapply knows_rely|]. pose proof (knows_inv _ _ _ _ _ _ _ _ Hk) as Hi. split.
  - destruct o as [[x n]|]; [|done]. by eapply owns_rely.
  - intros Hf y Hy. apply He; [done|]. destruct (HR Hi) as (_ & (Hown & _) & _). by apply Hown.
Qed.

Lemma consumer_done {A : Type} (a : A) (Q : A → mpsc D → q_ghost D → Prop) o zs h pf rt rh c g :
  K o zs h pf rt rh c g → (∀ c g, K o zs h pf rt rh c g → Q a c g) → crg (Done a) Q c g.
Proof. intros HK HQ c' g' HR. apply HQ. by eapply K_rely. Qed.

Lemma consumer_act {X A : Type} (f : mpsc D → outcome (X * mpsc D)) (k : X → prog (mpsc D) A) Q o zs h pf rt rh c g :
  K o zs h pf rt rh c g →
  (∀ c g, K o zs h pf rt rh c g → ∃ r c' g', f c = Ret (r, c') ∧ q_guar cf 0 (c, g) (c', g') ∧ crg (k r) Q c' g') →
  crg (act f ≫= k) Q c g.
Proof.
  intros HK H. rg_bind_act. intros c1 g1 HR. apply H. by eapply K_rely.
Qed.

Lemma consumer_read {V A : Type} (p : cell (mpsc D) V) v (k : V → prog (mpsc D) A) Q o zs h pf rt rh c g :
  K o zs h pf rt rh c g → (∀ c g, K o zs h pf rt rh c g → cell_get p c = Ret v) →
  (∀ c g, K o zs h pf rt rh c g → crg (k v) Q c g) →
  crg (read p ≫= k) Q c g.
Proof.
  intros HK Hv H. eapply consumer_act; [done|]. intros c1 g1 HK1. exists v, c1, g1.
  rewrite (Hv c1 g1 HK1). split; [done|]. split; [apply q_guar_refl|]. by apply H.
Qed.

Lemma consumer_write {V A : Type} (p : cell (mpsc D) V) v (k : unit → prog (mpsc D) A) Q
    o zs h pf rt rh o' pf' rt' rh' c g :
  K o zs h pf rt rh c g →
  (∀ c g, K o zs h pf rt rh c g → ∃ c', cell_set p v c = Ret c' ∧
    q_guar cf 0 (c, g) (c', g) ∧ K o' zs h pf' rt' rh' c' g) →
  (∀ c g, K o' zs h pf' rt' rh' c g → crg (k tt) Q c g) →
  crg (write p v ≫= k) Q c g.
Proof.
  intros HK Hw H. eapply consumer_act; [done|]. intros c1 g1 HK1.
  destruct (Hw c1 g1 HK1) as (c' & Hset & HG & HK'). exists tt, c', g1. rewrite Hset. split; [done|].
  split; [done|]. by apply H.
Qed.

Section steps.
Context {A : Type} (Q : A → mpsc D → q_ghost D → Prop).
Context (o : option (loc * dl_node D)) (zs : list (loc * D)) (h : list (nat * (loc * D)))
  (pf : nat → ptr) (rt rh : ptr) (c : mpsc D) (g : q_ghost D).
Hypothesis HK : K o zs h pf rt rh c g.

Lemma read_reverse_tail (k : ptr → prog (mpsc D) A) :
  (∀ c g, K o zs h pf rt rh c g → crg (k rt) Q c g) → crg (read reverse_tail_cell ≫= k) Q c g.
Proof using HK.
  intros H. eapply consumer_read; [exact HK| |exact H]. intros c1 g1 [(_ & Hrt & _) _]. cbn. by rewrite Hrt.
Qed.

Lemma read_reverse_head (k : ptr → prog (mpsc D) A) :
  (∀ c g, K o zs h pf rt rh c g → crg (k rh) Q c g) → crg (read reverse_head_cell ≫= k) Q c g.
Proof using HK.
  intros H. eapply consumer_read; [exact HK| |exact H]. intros c1 g1 [(_ & _ & Hrh & _) _]. cbn. by rewrite Hrh.
Qed.

Lemma read_seen {V : Type} (get : dl_node D → V) set_ j x d (k : V → prog (mpsc D) A) :
  zs !! j = Some (x, d) →
  (∀ c g, K o zs h pf rt rh c g → crg (k (get (DlNode (before_pos zs.*1 j) (pf j) d))) Q c g) →
  crg (read (node_cell get set_ x) ≫= k) Q c g.
Proof using HK.
  intros Hx H. eapply consumer_read; [exact HK| |exact H]. intros c1 g1 [Hk _]. cbn.
  by rewrite (knows_node _ _ _ _ _ _ _ _ _ _ _ Hk Hx).
Qed.

Lemma write_reverse_tail v (k : unit → prog (mpsc D) A) :
  (∀ c g, K o zs h pf v rh c g → crg (k tt) Q c g) → crg (write reverse_tail_cell v ≫= k) Q c g.
Proof using HK.
  intros H. eapply consumer_write; [exact HK| |exact H]. intros c1 g1 [(Hi & Hrt & Hrh & Hpf & Hn) Ho].
  eexists. split; [done|].
  assert (q_guar cf 0 (c1, g1) (with_reverse_tail v c1, g1)) as HG by by apply reverse_fields_guar.
  split; [done|]. split; [|by eapply holding_nodes]. split; [by eapply q_guar_inv|]. done.
Qed.

Lemma write_reverse_head v (k : unit → prog (mpsc D) A) :
  (∀ c g, K o zs h pf rt v c g → crg (k tt) Q c g) → crg (write reverse_head_cell v ≫= k) Q c g.
Proof using HK.
  intros H. eapply consumer_write; [exact HK| |exact H]. intros c1 g1 [(Hi & Hrt & Hrh & Hpf & Hn) Ho].
  eexists. split; [done|].
  assert (q_guar cf 0 (c1, g1) (with_reverse_head v c1, g1)) as HG by by apply reverse_fields_guar.
  split; [done|]. split; [|by eapply holding_nodes]. split; [by eapply q_guar_inv|]. done.
Qed.

Lemma write_prev_seen j x p (k : unit → prog (mpsc D) A) :
  zs.*1 !! j = Some x →
  (∀ c g, K o zs h (λ i, if decide (i = j) then p else pf i) rt rh c g → crg (k tt) Q c g) →
  crg (write (prev_cell x) p ≫= k) Q c g.
Proof using HK.
  intros Hx H. eapply consumer_write; [exact HK| |exact H]. intros c1 g1 [Hk Ho].
  destruct (list_lookup_fmap_Some_1 fst zs j x Hx) as ([x' d] & [= <-] & Hxd).
  pose proof (knows_node _ _ _ _ _ _ _ _ _ _ _ Hk Hxd) as Hnode.
  pose proof (list_elem_of_lookup_2 _ _ _ (knows_in_queue _ _ _ _ _ _ _ _ _ _ Hk Hx)) as Hxq.
  pose proof (knows_nodup _ _ _ _ _ _ _ _ Hk) as Hnd.
  eexists. split; [cbn; by rewrite Hnode|].
  assert (q_guar cf 0 (c1, g1) (with_nodes (<[x := set_prev p (DlNode (before_pos zs.*1 j) (pf j) d)]>
    (q_nodes c1)) c1, g1)) as HG by by apply prev_write_guar.
  split; [done|]. destruct Hk as (Hi & Hrt & Hrh & Hpf & new & Hq & Hh & Hn).
  assert (NoDup (g_queue g1).*1) as Hndq by by apply (rep_nodup c1), inv_rep with cf.
  split; [split; [by eapply q_guar_inv|]; do 2 (split; [done|]); split|].
  - intros i y Hy. simpl. case_decide as Hij.
    + subst i. assert (y = x) as -> by congruence. by rewrite lookup_insert_eq.
    + rewrite lookup_insert_ne; [by apply Hpf|]. intros ->. apply Hij. by eapply (NoDup_lookup zs.*1).
  - exists new. split_and!; [done..|]. intros y Hy. simpl. rewrite lookup_insert_ne; [by apply Hn|].
    intros ->. rewrite Hq, fmap_app in Hndq. apply NoDup_app in Hndq as (_ & Hdis & _).
    apply (Hdis y); [by eapply list_elem_of_lookup_2|done].
  - eapply holding_nodes; [exact Ho|]. intros y n ->. destruct Ho as [[Hown Hy] _]. simpl.
    rewrite lookup_insert_ne; [done|]. intros ->. by eapply owned_not_queued.
Qed.
End steps.

Lemma read_own {A V : Type} (Q : A → mpsc D → q_ghost D → Prop) (get : dl_node D → V) set_ x n zs h pf rt rh c g
    (k : V → prog (mpsc D) A) :
  K (Some (x, n)) zs h pf rt rh c g →
  (∀ c g, K (Some (x, n)) zs h pf rt rh c g → crg (k (get n)) Q c g) →
  crg (read (node_cell get set_ x) ≫= k) Q c g.
Proof.
  intros HK H. eapply consumer_read; [exact HK| |exact H]. intros c1 g1 [_ [[_ Hn] _]]. cbn. by rewrite Hn.
Qed.

Lemma write_own {A V : Type} (Q : A → mpsc D → q_ghost D → Prop) (get : dl_node D → V) set_ v x n zs h pf rt rh c g
    (k : unit → prog (mpsc D) A) :
  K (Some (x, n)) zs h pf rt rh c g →
  (∀ c g, K (Some (x, set_ v n)) zs h pf rt rh c g → crg (k tt) Q c g) →
  crg (write (node_cell get set_ x) v ≫= k) Q c g.
Proof.
  intros HK H. eapply consumer_write; [exact HK| |exact H]. intros c1 g1 [Hk [[Ho Hn] He]].
  eexists. split; [cbn; by rewrite Hn|].
  assert (q_guar cf 0 (c1, g1) (with_nodes (<[x := set_ v n]> (q_nodes c1)) c1, g1)) as HG
    by by apply own_write_guar with n.
  split; [done|]. destruct Hk as (Hi & Hrt & Hrh & Hpf & new & Hq & Hh & Hnew).
  assert (x ∉ (g_queue g1).*1) as Hxq by by eapply owned_not_queued.
  rewrite Hq, fmap_app in Hxq. apply not_elem_of_app in Hxq as [Hx1 Hx2].
  split; [split; [by eapply q_guar_inv|]; do 2 (split; [done|]); split|].
  - intros i y Hy. simpl. rewrite lookup_insert_ne; [by apply Hpf|]. intros ->. apply Hx1. by eapply list_elem_of_lookup_2.
  - exists new. split_and!; [done..|]. intros y Hy. simpl. rewrite lookup_insert_ne; [by apply Hnew|]. by intros ->.
  - split; [split; [done|]; simpl; by rewrite lookup_insert_eq|].
    intros Hf y Hy. destruct (He Hf y Hy) as [m [= <- _]]. by eexists.
Qed.

(** ** Building the reverse links *)

(** The [prev] fields when the links exist below position [z] and, while they are
    being built, from [k] on. *)
Definition mid_pf zs (z k : nat) (j : nat) : ptr :=
  if decide (S j < z \/ k <= j)%nat then zs.*1 !! S j else None.
Definition built_pf zs (j : nat) : ptr := zs.*1 !! S j.
Definition pending_pf zs (z : nat) (j : nat) : ptr := if decide (S j < z)%nat then zs.*1 !! S j else None.

(** The links are built for the [z] oldest nodes. *)
Definition pending o zs (z : nat) h c g : Prop :=
  (z <= length zs)%nat ∧
  K o zs h (pending_pf zs z) (before_pos zs.*1 z) (if decide (z = 0%nat) then None else zs.*1 !! 0%nat) c g.

Definition built o zs h c g : Prop :=
  K o zs h (built_pf zs) (last zs.*1) (zs.*1 !! 0%nat) c g.

Lemma K_ext o zs h pf pf' rt rh c g :
  (∀ j, (j < length zs)%nat → pf' j = pf j) → K o zs h pf rt rh c g → K o zs h pf' rt rh c g.
Proof. intros He [Hk Ho]. split; [|done]. by eapply knows_ext. Qed.

Lemma built_pending o zs h c g : built o zs h c g ↔ pending o zs (length zs) h c g.
Proof.
  unfold built, pending. rewrite last_before_pos, length_fmap.
  assert (zs.*1 !! 0%nat = if decide (length zs = 0%nat) then None else zs.*1 !! 0%nat) as <-.
  { case_decide as Hz; [|done]. apply lookup_ge_None. rewrite length_fmap. lia. }
  split.
  - intros HK. split; [done|]. eapply K_ext; [|exact HK]. intros j Hj. unfold pending_pf, built_pf.
    case_decide; [done|]. symmetry. apply lookup_ge_None. rewrite length_fmap. lia.
  - intros [_ HK]. eapply K_ext; [|exact HK]. intros j Hj. unfold pending_pf, built_pf.
    case_decide; [done|]. apply lookup_ge_None. rewrite length_fmap. lia.
Qed.

Lemma seen_lookup zs j : (j < length zs)%nat → ∃ x d, zs !! j = Some (x, d) ∧ zs.*1 !! j = Some x.
Proof.
  intros Hj. destruct (lookup_lt_is_Some_2 zs j Hj) as [[x d] Hx]. exists x, d.
  by rewrite list_lookup_fmap, Hx.
Qed.

Lemma reverse_loop_rg fuel o zs z k h rh c g :
  (z <= k < length zs)%nat → sok ∨ (k - z < fuel)%nat →
  K o zs h (mid_pf zs z k) (before_pos zs.*1 z) rh c g →
  crg (reverse_loop fuel (zs.*1 !! k))
    (λ prev c g, prev = zs.*1 !! z ∧ K o zs h (built_pf zs) (before_pos zs.*1 z) rh c g) c g.
Proof.
  revert k c g. induction fuel as [|fuel IH]; intros k c g Hk Hfuel HK; [destruct Hfuel; [done|lia]|].
  cbn [reverse_loop]. destruct (seen_lookup zs k) as (x & d & Hx & Hx1); [lia|]. rewrite Hx1. cbn [read_next].
  eapply read_seen; [exact HK|exact Hx|]. clear c g HK. intros c g HK. cbn [dl_next].
  pose proof (knows_nodup _ _ _ _ _ _ _ _ (proj1 HK)) as Hnd.
  rg_bind. apply rg_mono with (Q := λ _ c g,
    K o zs h (mid_pf zs z (Nat.pred k)) (before_pos zs.*1 z) rh c g).
  - clear c g HK. intros _ c g HK. eapply read_reverse_tail; [exact HK|]. clear c g HK. intros c g HK.
    destruct (decide (before_pos zs.*1 k = before_pos zs.*1 z)) as [Heq|Hne].
    + assert (k = z) as ->.
      { destruct k as [|k]; [lia|]. simpl in Heq. destruct (seen_lookup zs k) as (y & dy & Hy & Hy1); [lia|].
        rewrite Hy1 in Heq. symmetry in Heq. symmetry. by eapply (before_pos_ne zs.*1). }
      eapply consumer_done; [exact HK|]. intros c' g' HK'. split; [done|].
      eapply K_ext; [|exact HK']. intros j Hj. unfold built_pf, mid_pf. rewrite decide_True by lia. done.
    + assert (k ≠ z) by (intros ->; done). replace (before_pos zs.*1 k) with (zs.*1 !! Nat.pred k) by (by destruct k; [lia|]).
      apply IH; [lia|destruct Hfuel; [by left|right; lia]|exact HK].
  - destruct k as [|k].
    + eapply consumer_done; [exact HK|done].
    + cbn [before_pos]. destruct (seen_lookup zs k) as (y & dy & Hy & Hy1); [lia|]. rewrite Hy1.
      eapply write_prev_seen with (k := Done); [exact HK|exact Hy1|].
      clear c g HK. intros c g HK. eapply consumer_done; [exact HK|]. intros c' g' HK'.
      eapply K_ext; [|exact HK']. intros j Hj. simpl. unfold mid_pf. destruct (decide (j = k)) as [->|Hne].
      * rewrite decide_True by lia. by rewrite Hx1.
      * destruct (decide (S j < z ∨ k ≤ j)%nat), (decide (S j < z ∨ S k ≤ j)%nat); [done|lia|lia|done].
Qed.

Section with_fuel.
Context (fuel : nat) (Hfuel : sok ∨ ∀ q h, cf_known cf q h → (length q <= fuel)%nat).

Lemma build_reverse_rg o zs z h c g :
  pending o zs z h c g → (sok ∨ (length zs <= fuel)%nat) →
  crg (build_reverse fuel (last zs.*1)) (λ _ c g, built o zs h c g) c g.
Proof.
  intros [Hz HK] Hf. unfold build_reverse. eapply read_reverse_tail; [exact HK|]. clear c g HK. intros c g HK.
  pose proof (knows_nodup _ _ _ _ _ _ _ _ (proj1 HK)) as Hnd.
  destruct (decide (last zs.*1 = before_pos zs.*1 z)) as [Heq|Hne].
  - assert (z = length zs) as ->.
    { rewrite last_before_pos, length_fmap in Heq. destruct (length zs) as [|n] eqn:Hn; [lia|]. simpl in Heq.
      destruct (seen_lookup zs n) as (y & dy & Hy & Hy1); [lia|]. rewrite Hy1 in Heq. symmetry in Heq.
      by eapply (before_pos_ne zs.*1). }
    eapply consumer_done; [exact HK|]. intros c' g' HK'. by apply built_pending.
  - assert (z ≠ length zs) by (intros ->; rewrite last_before_pos, length_fmap in Hne; done).
    rg_bind. rewrite last_before_pos, length_fmap. destruct (length zs) as [|n] eqn:Hn; [lia|]. cbn [before_pos].
    eapply rg_mono; [|apply (reverse_loop_rg fuel o zs z n h (if decide (z = 0%nat) then None else zs.*1 !! 0%nat)); [lia|destruct Hf; [by left|right; lia]|]].
    + clear c g HK. intros p c g [-> HK]. eapply read_reverse_head; [exact HK|]. clear c g HK. intros c g HK.
      rg_bind. apply rg_mono with (Q := λ _ c g, K o zs h (built_pf zs) (before_pos zs.*1 z) (zs.*1 !! 0%nat) c g).
      * clear c g HK. intros _ c g HK. eapply write_reverse_tail with (k := Done); [exact HK|].
        clear c g HK. intros c g HK. eapply consumer_done; [exact HK|]. intros c' g' HK'. unfold built.
        rewrite last_before_pos, length_fmap, Hn. exact HK'.
      * destruct (decide (z = 0%nat)) as [->|Hz0].
        -- rewrite decide_True by done. eapply write_reverse_head with (k := Done); [exact HK|].
           clear c g HK. intros c g HK. by eapply consumer_done.
        -- destruct (seen_lookup zs 0) as (y & dy & Hy & Hy1); [lia|]. rewrite Hy1.
           rewrite Hy1 in HK.
           rewrite decide_False by done. by eapply consumer_done.
    + eapply K_ext; [|exact HK]. intros j Hj. unfold mid_pf, pending_pf.
      destruct (decide (S j < z)%nat); [by rewrite decide_True by lia|].
      destruct (decide (S j < z ∨ n ≤ j)%nat); [|done]. apply lookup_ge_None. rewrite length_fmap. lia.
Qed.

(** ** Looking at the head *)

Lemma pending_extend o zs z h c g :
  pending o zs z h c g →
  ∃ new, g_queue g = zs ++ new.*2 ∧ pending o (zs ++ new.*2) z (h ++ new) c g.
Proof.
  intros [Hz [Hk Ho]]. destruct (knows_extend _ _ _ _ _ _ _ _ Hk) as (new & Hq & Hk').
  exists new. split; [done|]. split; [rewrite length_app; lia|].
  rewrite fmap_app, before_pos_app by (rewrite length_fmap; lia).
  assert ((if decide (z = 0%nat) then None else (zs.*1 ++ new.*2.*1) !! 0%nat) =
          (if decide (z = 0%nat) then None else zs.*1 !! 0%nat)) as ->.
  { case_decide; [done|]. apply lookup_app_l. rewrite length_fmap. lia. }
  eapply K_ext; [|split; [exact Hk'|done]]. intros j Hj. cbv beta. unfold pending_pf. rewrite fmap_app.
  destruct (decide (S j < z)%nat).
  - rewrite (decide_True (P := (j < length zs)%nat)) by lia. apply lookup_app_l. rewrite length_fmap. lia.
  - by destruct (decide (j < length zs)%nat).
Qed.

Lemma load_head_rg {A : Type} (k : ptr → prog (mpsc D) A) Q o zs z h c g :
  pending o zs z h c g →
  (∀ new c g, pending o (zs ++ new.*2) z (h ++ new) c g → sok ∨ (length (zs ++ new.*2) <= fuel)%nat →
    g_queue g = zs ++ new.*2 → crg (k (last (zs ++ new.*2).*1)) Q c g) →
  crg (prs_pal_atomic_load head_cell ≫= k) Q c g.
Proof using Hfuel.
  intros [Hz HK] H. eapply consumer_act; [exact HK|]. clear c g HK. intros c g HK.
  destruct (pending_extend o zs z h c g) as (new & Hq & Hp); [by split|].
  pose proof (knows_inv _ _ _ _ _ _ _ _ (proj1 HK)) as Hi.
  exists (last (zs ++ new.*2).*1), c, g. cbn.
  rewrite (rep_head _ _ (inv_rep _ _ _ Hi)), Hq. split; [done|]. split; [apply q_guar_refl|].
  apply H; [done| |done]. destruct Hfuel as [|Hb]; [by left|right]. rewrite <- Hq. exact (Hb _ _ (inv_known _ _ _ Hi)).
Qed.

Lemma q_begin_rg o zs z h c g :
  pending o zs z h c g →
  crg (q_begin fuel) (λ r c g, ∃ new, r = (zs ++ new.*2).*1 !! 0%nat ∧ built o (zs ++ new.*2) (h ++ new) c g) c g.
Proof using Hfuel.
  intros Hp. eapply load_head_rg; [exact Hp|]. clear c g Hp. intros new c g Hp Hf _.
  rg_bind. eapply rg_mono; [|by apply (build_reverse_rg o _ z (h ++ new))].
  clear c g Hp. intros u c g HK. cbv beta in HK. clear u. eapply read_reverse_head with (k := Done); [exact HK|].
  clear c g HK. intros c g HK. eapply consumer_done; [exact HK|]. intros c' g' HK'. exists new. done.
Qed.

(** ** Taking a node out *)

Lemma delete_app_left {A : Type} (l k : list A) (i : nat) :
  (i < length l)%nat → delete i (l ++ k) = delete i l ++ k.
Proof. revert i. induction l as [|a l IH]; intros [|i] Hi; simpl in *; [lia..|done|]. by rewrite IH by lia. Qed.

Lemma K_removed zs h pf rt rh c g c' i x d :
  K None zs h pf rt rh c g → zs !! i = Some (x, d) → q_guar cf 0 (c, g) (c', g_remove i x g) →
  (∀ y, dl_prev <$> q_nodes c' !! y = dl_prev <$> q_nodes c !! y) → q_nodes c' !! x = q_nodes c !! x →
  q_reverse_tail c' = q_reverse_tail c → q_reverse_head c' = q_reverse_head c →
  K (Some (x, DlNode (before_pos zs.*1 i) (pf i) d)) (delete i zs) h
    (λ j, pf (if decide (j < i)%nat then j else S j)) rt rh c' (g_remove i x g).
Proof.
  intros [Hk [_ He]] Hx HG Hprev Hnx Hrt' Hrh'.
  pose proof (knows_node _ _ _ _ _ _ _ _ _ _ _ Hk Hx) as Hn.
  destruct Hk as (Hi & Hrt & Hrh & Hpf & new & Hq & Hh & Hnew).
  split; [split; [by eapply q_guar_inv|]; split; [congruence|]; split; [congruence|]; split|].
  - intros j y. rewrite fmap_delete, delete_lookup, Hprev. intros Hy. case_decide; by apply Hpf.
  - exists new. simpl. split_and!; [|done|].
    + rewrite Hq. apply delete_app_left. by eapply lookup_lt_Some.
    + intros y Hy. rewrite Hprev. by apply Hnew.
  - split; [split; simpl; [by rewrite lookup_insert_eq|congruence]|].
    simpl. intros Hf y Hy. destruct (decide (x = y)) as [->|Hne]; [by eexists|].
    rewrite lookup_insert_ne in Hy by done. by destruct (He Hf y Hy).
Qed.

Context (known_down : ∀ q h i, cf_known cf q h → cf_known cf (delete i q) h).

Lemma knows_rep_prefix zs h pf rt rh c g : K None zs h pf rt rh c g → queue_rep c (g_queue g).
Proof. intros [Hk _]. by eapply inv_rep, knows_inv. Qed.

(** The head moves on from the newest node. *)
Lemma drop_head_step zs h pf rt rh c g i x d :
  K None zs h pf rt rh c g → g_queue g = zs → zs !! i = Some (x, d) → S i = length zs →
  let c' := with_head (before_pos zs.*1 i) c in
  let g' := g_remove i x g in
  q_guar cf 0 (c, g) (c', g') ∧
  K (Some (x, DlNode (before_pos zs.*1 i) (pf i) d)) (delete i zs) h
    (λ j, pf (if decide (j < i)%nat then j else S j)) rt rh c' g'.
Proof using known_down.
  intros HK Hq Hx Hi. simpl.
  assert (q_guar cf 0 (c, g) (with_head (before_pos zs.*1 i) c, g_remove i x g)) as HG.
  { apply remove_guar with d; [done|by rewrite Hq| |done..].
    intros Hinv. rewrite Hq. eapply (remove_rep c); [rewrite <- Hq; apply Hinv|exact Hx| | |].
    - simpl. rewrite last_before_pos, length_delete by (by rewrite list_lookup_fmap, Hx).
      rewrite length_fmap, <- Hi, before_pos_delete, decide_True by lia. f_equal. lia.
    - intros j y n _ _ _ Hn. by exists n.
    - intros p n Hp. apply lookup_lt_Some in Hp. rewrite length_fmap in Hp. lia. }
  split; [done|]. by eapply K_removed.
Qed.

(** The newer neighbour of a node gets its older neighbour as successor. *)
Lemma store_next_step zs h pf rt rh c g i x d p :
  K None zs h pf rt rh c g → zs !! i = Some (x, d) → zs.*1 !! S i = Some p →
  ∃ c', let g' := g_remove i x g in
    cell_set (next_cell p) (before_pos zs.*1 i) c = Ret c' ∧
    q_guar cf 0 (c, g) (c', g') ∧
    K (Some (x, DlNode (before_pos zs.*1 i) (pf i) d)) (delete i zs) h
      (λ j, pf (if decide (j < i)%nat then j else S j)) rt rh c' g'.
Proof using known_down.
  intros HK Hx Hp. pose proof HK as [Hk _].
  destruct (list_lookup_fmap_Some_1 fst zs (S i) p Hp) as ([p' dp] & [= <-] & Hpd).
  pose proof (knows_node _ _ _ _ _ _ _ _ _ _ _ Hk Hpd) as Hnp.
  assert (zs.*1 !! i = Some x) as Hx1 by by rewrite list_lookup_fmap, Hx.
  pose proof (knows_in_queue _ _ _ _ _ _ _ _ _ _ Hk Hx1) as Hxq.
  pose proof (knows_in_queue _ _ _ _ _ _ _ _ _ _ Hk Hp) as Hpq.
  assert (NoDup (g_queue g).*1) as Hnd by by eapply rep_nodup, knows_rep_prefix.
  assert (x ≠ p) as Hne. { intros ->. assert (i = S i); [by eapply (NoDup_lookup (g_queue g).*1)|lia]. }
  assert (g_queue g !! i = Some (x, d)) as Hxg.
  { destruct Hk as (_ & _ & _ & _ & new & Hq & _). rewrite Hq. by apply lookup_app_l_Some. }
  assert (before_pos (g_queue g).*1 i = before_pos zs.*1 i) as Hbp.
  { destruct Hk as (_ & _ & _ & _ & new & Hq & _). rewrite Hq, fmap_app. apply before_pos_app.
    apply lookup_lt_Some in Hx1. lia. }
  set (c' := with_nodes (<[p := set_next (before_pos zs.*1 i) (DlNode (before_pos zs.*1 (S i)) (pf (S i)) dp)]> (q_nodes c)) c).
  exists c'. cbv zeta. split; [cbn; by rewrite Hnp|].
  assert (q_guar cf 0 (c, g) (c', g_remove i x g)) as HG.
  { apply remove_guar with d; [done|done| |done| |].
    - intros Hinv. eapply (remove_rep c); [apply Hinv|exact Hxg| | |].
      + simpl. rewrite (rep_head _ _ (inv_rep _ _ _ Hinv)), !last_before_pos, length_delete by done.
        pose proof (lookup_lt_Some _ _ _ Hpq). rewrite before_pos_delete.
        destruct (length (g_queue g).*1) as [|n]; [lia|]. rewrite decide_False by lia. do 2 f_equal. lia.
      + intros j y n Hji Hjsi Hy Hn. simpl. rewrite lookup_insert_ne; [by exists n|]. intros ->. apply Hjsi.
        by eapply (NoDup_lookup (g_queue g).*1).
      + intros p' n Hp' Hn. assert (p' = p) as -> by congruence. simpl. rewrite lookup_insert_eq.
        eexists. split; [done|]. simplify_eq. simpl. by rewrite Hbp.
    - intros y. simpl. rewrite lookup_insert. case_decide; [subst; rewrite Hnp|done]. split; by eexists.
    - intros y Hy. simpl. rewrite lookup_insert_ne; [done|]. intros ->. apply Hy. by eapply list_elem_of_lookup_2. }
  split; [done|]. eapply K_removed; try done.
  - intros y. simpl. rewrite lookup_insert. case_decide; [subst; by rewrite Hnp|done].
  - simpl. by rewrite lookup_insert_ne.
Qed.

Lemma before_pos_cases zs i :
  (i < length zs)%nat →
  (i = 0%nat ∧ before_pos zs.*1 i = None) ∨
  ∃ i' y, i = S i' ∧ zs.*1 !! i' = Some y ∧ before_pos zs.*1 i = Some y.
Proof.
  intros Hi. destruct i as [|i]; [by left|right].
  destruct (seen_lookup zs i) as (y & dy & _ & Hy); [lia|]. by exists i, y.
Qed.

(** [unlink] on a node that was the head, and is not in the queue any more: [zs] is the
    queue before. *)
Section head_case.
Context (zs : list (loc * D)) (z i : nat) (h : list (nat * (loc * D))) (x : loc) (d : D).
Context (Hx : zs !! i = Some (x, d)) (Hi : S i = length zs) (Hz : (z <= length zs)%nat) (Hnd : NoDup zs.*1).

Abbreviation taken := (Some (x, DlNode (before_pos zs.*1 i) None d)).
Abbreviation old_tail := (before_pos zs.*1 z).
Abbreviation old_head := (if decide (z = 0%nat) then None else zs.*1 !! 0%nat).
Abbreviation new_head := (if decide (Nat.min z i = 0%nat) then None else (delete i zs).*1 !! 0%nat).
Abbreviation rest_pf := (pending_pf (delete i zs) (Nat.min z i)).

Lemma rest_length : length (delete i zs) = i.
Proof using Hx Hi Hz Hnd. rewrite length_delete by (by eexists). lia. Qed.

Lemma rest_lookup j : (delete i zs).*1 !! j = if decide (j < i)%nat then zs.*1 !! j else None.
Proof using Hx Hi Hz Hnd.
  rewrite fmap_delete, delete_lookup. destruct (decide (j < i)%nat); [done|].
  apply lookup_ge_None. rewrite length_fmap. lia.
Qed.

Lemma unlink_head_next pf c g :
  (∀ j, (j < i)%nat → pf j = pending_pf zs z j) →
  K taken (delete i zs) h pf old_tail old_head c g →
  crg (match before_pos zs.*1 i with
       | Some n => prev ← read (prev_cell x); write (prev_cell n) prev
       | None => Done tt
       end) (λ _ c g, K taken (delete i zs) h rest_pf old_tail old_head c g) c g.
Proof using Hx Hi Hz Hnd.
  intros Hpf HK. pose proof rest_length as Hlen.
  destruct (before_pos_cases zs i) as [(Hi0 & Hb)|(i' & y & Hi' & Hy & Hb)]; [lia|..].
  - rewrite Hb in HK |- *. eapply consumer_done; [exact HK|]. intros c' g' HK'.
    eapply K_ext; [|exact HK']. intros j Hj. lia.
  - rewrite Hb in HK |- *. eapply read_own; [exact HK|]. clear c g HK. intros c g HK. cbn [dl_prev].
    eapply write_prev_seen with (k := Done) (j := i'); [exact HK| |].
    { rewrite rest_lookup, decide_True by lia. exact Hy. }
    clear c g HK. intros c g HK. eapply consumer_done; [exact HK|]. intros c' g' HK'.
    eapply K_ext; [|exact HK']. intros j Hj. cbv beta. unfold pending_pf at 1. rewrite rest_lookup.
    destruct (decide (j = i')) as [->|Hne]; [by rewrite decide_False by lia|].
    rewrite Hpf by lia. unfold pending_pf. destruct (decide (S j < z)%nat).
    + by rewrite !decide_True by lia.
    + by rewrite decide_False by lia.
Qed.

Lemma unlink_head_reverse_head c g :
  K taken (delete i zs) h rest_pf old_tail old_head c g →
  crg (if decide (Some x = old_head)
       then prev ← read (prev_cell x); write reverse_head_cell prev else Done tt)
    (λ _ c g, K taken (delete i zs) h rest_pf old_tail new_head c g) c g.
Proof using Hx Hi Hz Hnd.
  intros HK. rewrite rest_lookup. destruct (decide (z = 0%nat)) as [->|Hz0].
  - rewrite decide_False by done. eapply consumer_done; [exact HK|]. intros c' g' HK'.
    by rewrite decide_True by lia.
  - assert (zs.*1 !! i = Some x) as Hx1 by by rewrite list_lookup_fmap, Hx.
    destruct (decide (i = 0%nat)) as [Hi0|Hi0].
    + rewrite Hi0 in Hx1. rewrite decide_True by done. eapply read_own; [exact HK|]. clear c g HK. intros c g HK. cbn [dl_prev].
      eapply write_reverse_head with (k := Done); [exact HK|]. clear c g HK. intros c g HK.
      eapply consumer_done; [exact HK|]. intros c' g' HK'. by rewrite decide_True by lia.
    + rewrite decide_False. 2: { intros Heq. symmetry in Heq. apply Hi0. by eapply (NoDup_lookup zs.*1). }
      eapply consumer_done; [exact HK|]. intros c' g' HK'. by rewrite decide_False, decide_True by lia.
Qed.

Lemma unlink_head_reverse_tail c g :
  K taken (delete i zs) h rest_pf old_tail new_head c g →
  crg (if decide (Some x = old_tail)
       then next ← read (next_cell x); write reverse_tail_cell next else Done tt)
    (λ _ c g, pending taken (delete i zs) (Nat.min z i) h c g) c g.
Proof using Hx Hi Hz Hnd.
  intros HK. assert (zs.*1 !! i = Some x) as Hx1 by by rewrite list_lookup_fmap, Hx.
  assert (∀ c g, K taken (delete i zs) h rest_pf (before_pos zs.*1 (Nat.min z i)) new_head c g →
    pending taken (delete i zs) (Nat.min z i) h c g) as Hend.
  { intros c' g' HK'. split; [rewrite rest_length; lia|].
    rewrite fmap_delete, before_pos_delete, decide_True, <- fmap_delete by lia. exact HK'. }
  destruct (decide (Some x = old_tail)) as [Ht|Ht].
  - symmetry in Ht. apply (before_pos_ne zs.*1 i) in Ht; [|done..].
    eapply read_own; [exact HK|]. clear c g HK. intros c g HK. cbn [dl_next].
    eapply write_reverse_tail with (k := Done); [exact HK|]. clear c g HK. intros c g HK.
    eapply consumer_done; [exact HK|]. intros c' g' HK'. apply Hend.
    by replace (Nat.min z i) with i in HK' |- * by lia.
  - eapply consumer_done; [exact HK|]. intros c' g' HK'. apply Hend.
    assert (z ≠ S i) by (intros ->; done). by replace (Nat.min z i) with z in HK' |- * by lia.
Qed.

Lemma unlink_head_rg pf c g :
  (∀ j, (j < i)%nat → pf j = pending_pf zs z j) →
  K taken (delete i zs) h pf old_tail old_head c g →
  crg (unlink x) (λ _ c g, ∃ n, pending (Some (x, n)) (delete i zs) (Nat.min z i) h c g) c g.
Proof using Hx Hi Hz Hnd.
  intros Hpf HK. unfold unlink.
  eapply read_own; [exact HK|]. clear c g HK. intros c g HK. rg_bind.
  eapply rg_mono; [|by eapply unlink_head_next]. clear c g HK. intros u c g HK. cbv beta in HK. clear u.
  eapply read_reverse_head; [exact HK|]. clear c g HK. intros c g HK. rg_bind.
  eapply rg_mono; [|by eapply unlink_head_reverse_head]. clear c g HK. intros u c g HK. cbv beta in HK. clear u.
  eapply read_own; [exact HK|]. clear c g HK. intros c g HK. rg_bind.
  eapply consumer_done; [exact HK|]. clear c g HK. intros c g HK.
  eapply read_reverse_tail; [exact HK|]. clear c g HK. intros c g HK.
  eapply rg_mono; [|by eapply unlink_head_reverse_tail]. intros u c' g' Hp. eexists. exact Hp.
Qed.
End head_case.

(** [unlink] on a node that is in the queue, and not the newest one. *)
Section inner_case.
Context (zs : list (loc * D)) (i : nat) (h : list (nat * (loc * D))) (x : loc) (d : D).
Context (Hx : zs !! i = Some (x, d)) (Hi : (S i < length zs)%nat) (Hnd : NoDup zs.*1).

(** The [prev] fields once the older neighbour has been relinked. *)
Definition skip_pf (j : nat) : ptr := if decide (S j = i) then zs.*1 !! S i else zs.*1 !! S j.

Lemma unlink_inner_next c g :
  built None zs h c g →
  crg (match before_pos zs.*1 i with
       | Some n => prev ← read (prev_cell x); write (prev_cell n) prev
       | None => Done tt
       end) (λ _ c g, K None zs h skip_pf (last zs.*1) (zs.*1 !! 0%nat) c g) c g.
Proof using Hx Hi Hnd known_down.
  intros HK. unfold built in HK.
  destruct (before_pos_cases zs i) as [(Hi0 & Hb)|(i' & y & Hi' & Hy & Hb)]; [lia|..]; rewrite Hb.
  - eapply consumer_done; [exact HK|]. intros c' g' HK'. eapply K_ext; [|exact HK']. intros j Hj.
    unfold skip_pf. by rewrite decide_False by lia.
  - eapply read_seen; [exact HK|exact Hx|]. clear c g HK. intros c g HK. cbn [dl_prev].
    eapply write_prev_seen with (k := Done); [exact HK|exact Hy|]. clear c g HK. intros c g HK.
    eapply consumer_done; [exact HK|]. intros c' g' HK'. eapply K_ext; [|exact HK']. intros j Hj.
    cbv beta. unfold skip_pf, built_pf. repeat case_decide; done || lia.
Qed.

Lemma unlink_inner_reverse_head c g :
  K None zs h skip_pf (last zs.*1) (zs.*1 !! 0%nat) c g →
  crg (if decide (Some x = zs.*1 !! 0%nat)
       then prev ← read (prev_cell x); write reverse_head_cell prev else Done tt)
    (λ _ c g, K None zs h skip_pf (last zs.*1) ((delete i zs).*1 !! 0%nat) c g) c g.
Proof using Hx Hi Hnd known_down.
  intros HK. assert (zs.*1 !! i = Some x) as Hx1 by by rewrite list_lookup_fmap, Hx.
  rewrite fmap_delete, delete_lookup. destruct (decide (Some x = zs.*1 !! 0%nat)) as [Hd|Hd].
  - assert (i = 0%nat) as Hi0 by (by eapply (NoDup_lookup zs.*1)).
    eapply read_seen; [exact HK|exact Hx|]. clear c g HK. intros c g HK. cbn [dl_prev].
    eapply write_reverse_head with (k := Done); [exact HK|]. clear c g HK. intros c g HK.
    eapply consumer_done; [exact HK|]. intros c' g' HK'. rewrite decide_False by lia.
    assert (skip_pf i = zs.*1 !! 1%nat) as <-; [|exact HK'].
    unfold skip_pf. rewrite decide_False by lia. by rewrite Hi0.
  - assert (i ≠ 0%nat) by (intros Hi0; rewrite Hi0 in Hx1; done).
    rewrite decide_True by lia. by eapply consumer_done.
Qed.

Lemma unlink_inner_store p c g :
  zs.*1 !! S i = Some p →
  K None zs h skip_pf (last zs.*1) ((delete i zs).*1 !! 0%nat) c g →
  crg (next ← read (next_cell x); prs_pal_atomic_store (next_cell p) next)
    (λ _ c g, ∃ n, built (Some (x, n)) (delete i zs) h c g) c g.
Proof using Hx Hi Hnd known_down.
  intros Hp HK. eapply read_seen; [exact HK|exact Hx|]. clear c g HK. intros c g HK. cbn [dl_next].
  eapply consumer_act with (k := Done); [exact HK|]. clear c g HK. intros c g HK.
  destruct (store_next_step _ _ _ _ _ _ _ _ _ _ _ HK Hx Hp) as (c' & Hset & HG & HK').
  eexists tt, c', _. cbv beta. rewrite Hset. split; [done|]. split; [exact HG|].
  eapply consumer_done; [exact HK'|]. intros c2 g2 HK2. eexists. unfold built.
  replace (last (delete i zs).*1) with (last zs.*1).
  - eapply K_ext; [|exact HK2]. intros j Hj. cbv beta. unfold built_pf, skip_pf.
    rewrite fmap_delete, delete_lookup. repeat case_decide; congruence || lia || (f_equal; lia).
  - rewrite fmap_delete, !last_before_pos, before_pos_delete, length_delete, length_fmap
      by (by rewrite list_lookup_fmap, Hx).
    destruct (length zs) as [|n]; [lia|]. rewrite decide_False by lia. f_equal. lia.
Qed.

Lemma unlink_inner_rg c g :
  built None zs h c g →
  crg (unlink x) (λ _ c g, ∃ n, built (Some (x, n)) (delete i zs) h c g) c g.
Proof using Hx Hi Hnd known_down.
  intros HK. unfold unlink. destruct (seen_lookup zs (S i) Hi) as (p & dp & _ & Hp).
  assert (zs.*1 !! i = Some x) as Hx1 by by rewrite list_lookup_fmap, Hx.
  unfold built in HK. eapply read_seen; [exact HK|exact Hx|]. clear c g HK. intros c g HK. rg_bind.
  eapply rg_mono; [|by eapply unlink_inner_next]. clear c g HK. intros u c g HK. cbv beta in HK. clear u.
  eapply read_reverse_head; [exact HK|]. clear c g HK. intros c g HK. rg_bind.
  eapply rg_mono; [|by eapply unlink_inner_reverse_head]. clear c g HK. intros u c g HK. cbv beta in HK. clear u.
  eapply read_seen; [exact HK|exact Hx|]. clear c g HK. intros c g HK. cbn [dl_prev].
  unfold skip_pf at 1. rewrite decide_False, Hp by lia. rg_bind.
  eapply rg_mono; [|by eapply unlink_inner_store]. clear c g HK. intros u c g [n HK]. clear u. unfold built in HK.
  eapply read_reverse_tail; [exact HK|]. clear c g HK. intros c g HK.
  rewrite decide_False; [eapply consumer_done; [exact HK|]; by eexists|].
  rewrite fmap_delete. intros Hl. symmetry in Hl.
  rewrite last_before_pos, before_pos_delete in Hl. apply (before_pos_ne zs.*1 i) in Hl; [|done..].
  rewrite length_delete, length_fmap in Hl by done. destruct (decide _) in Hl; lia.
Qed.
End inner_case.

(** ** [remove] *)

(** The node at position [i] of [zs] was the newest one, and the head has moved on. *)
Definition dropped zs z i h x d c g : Prop :=
  S i = length zs ∧ (z <= length zs)%nat ∧ NoDup zs.*1 ∧
  ∃ pf, (∀ j, (j < i)%nat → pf j = pending_pf zs z j) ∧
    K (Some (x, DlNode (before_pos zs.*1 i) None d)) (delete i zs) h pf (before_pos zs.*1 z)
      (if decide (z = 0%nat) then None else zs.*1 !! 0%nat) c g.

Lemma dropped_rely zs z i h x d c g c' g' :
  q_rely cf 0 (c, g) (c', g') → dropped zs z i h x d c g → dropped zs z i h x d c' g'.
Proof.
  intros HR (H1 & H2 & H3 & pf & H4 & HK). do 3 (split; [done|]). exists pf. split; [done|].
  by eapply K_rely.
Qed.

Lemma pending_rely o zs z h c g c' g' :
  q_rely cf 0 (c, g) (c', g') → pending o zs z h c g → pending o zs z h c' g'.
Proof. intros HR [Hz HK]. split; [done|]. by eapply K_rely. Qed.

Definition fuel_for zs : Prop := sok ∨ (length zs <= fuel)%nat.

Lemma pending_fuel o zs z h c g :
  pending o zs z h c g → g_queue g = zs → fuel_for zs.
Proof using Hfuel.
  intros [_ [Hk _]] <-. destruct Hfuel as [|Hb]; [by left|right]. exact (Hb _ _ (inv_known _ _ _ (knows_inv _ _ _ _ _ _ _ _ Hk))).
Qed.

Lemma pending_nodup o zs z h c g : pending o zs z h c g → NoDup zs.*1.
Proof. intros [_ [Hk _]]. by eapply knows_nodup. Qed.

Lemma pending_head o zs z h c g : pending o zs z h c g → q_head c = last (g_queue g).*1.
Proof. intros [_ [Hk _]]. by eapply rep_head, inv_rep, knows_inv. Qed.

Lemma pending_drop zs z h c g i x d :
  pending None zs z h c g → g_queue g = zs → zs !! i = Some (x, d) → S i = length zs →
  let c' := with_head (before_pos zs.*1 i) c in
  let g' := g_remove i x g in
  q_guar cf 0 (c, g) (c', g') ∧ dropped zs z i h x d c' g'.
Proof using known_down.
  intros Hp Hq Hx Hi. pose proof Hp as [Hz HK].
  destruct (drop_head_step _ _ _ _ _ _ _ _ _ _ HK Hq Hx Hi) as [HG HK'].
  assert (pending_pf zs z i = None) as Hpf by (unfold pending_pf; by rewrite decide_False by lia).
  rewrite Hpf in HK'. split; [done|]. split; [done|]. split; [done|]. split; [by eapply pending_nodup|].
  eexists. split; [|exact HK']. intros j Hj. cbv beta. by rewrite decide_True.
Qed.

(** One attempt to move the head on from its newest node: with a strong exchange it
    fails only when the node is not the newest one any more. *)
Lemma cas_drop_head {A : Type} (k : bool * ptr → prog (mpsc D) A) Q zs z h c g i x d :
  pending None zs z h c g → zs !! i = Some (x, d) → S i = length zs →
  (∀ c g, dropped zs z i h x d c g → crg (k (true, Some x)) Q c g) →
  (∀ new c g, new.*2 ≠ [] → pending None (zs ++ new.*2) z (h ++ new) c g → fuel_for (zs ++ new.*2) →
    crg (k (false, last (zs ++ new.*2).*1)) Q c g) →
  crg (prs_pal_atomic_compare_exchange_strong head_cell (Some x) (before_pos zs.*1 i) ≫= k) Q c g.
Proof using Hfuel known_down.
  intros Hp Hx Hi Htrue Hfalse. rg_bind_cas_strong. intros c1 g1 HR.
  apply (pending_rely _ _ _ _ _ _ _ _ HR) in Hp.
  assert (last zs.*1 = Some x) as Hl.
  { rewrite last_before_pos, length_fmap, <- Hi. simpl. by rewrite list_lookup_fmap, Hx. }
  eexists. split; [done|]. rewrite (pending_head _ _ _ _ _ _ Hp).
  destruct (pending_extend _ _ _ _ _ _ Hp) as (new & Hq & Hp').
  destruct (decide (last (g_queue g1).*1 = Some x)) as [Hh|Hh].
  - assert (new.*2 = []) as Hnil.
    { destruct (new.*2) as [|e l] eqn:Hnew; [done|]. exfalso.
      pose proof (pending_nodup _ _ _ _ _ _ Hp') as Hnd. rewrite Hq, fmap_app, last_app in Hh.
      rewrite fmap_app in Hnd. apply NoDup_app in Hnd as (_ & Hdis & _).
      destruct (last (e :: l).*1) as [y|] eqn:Hy; [|by apply last_None in Hy]. injection Hh as ->.
      apply (Hdis x); [|by apply last_Some_elem_of in Hy].
      apply list_elem_of_fmap. exists (x, d). split; [done|]. by eapply list_elem_of_lookup_2. }
    rewrite Hnil, app_nil_r in Hq.
    destruct (pending_drop _ _ _ _ _ _ _ _ Hp Hq Hx Hi) as [HG Hd].
    eexists _, _. split; [done|]. split; [exact HG|]. by apply Htrue.
  - split; [apply q_guar_refl|]. rewrite Hq. apply Hfalse; [|done|by eapply pending_fuel].
    intros Hnil. rewrite Hq, Hnil, app_nil_r in Hh. done.
Qed.

(** After the attempt, the node is either out of the queue or inside it. *)
Definition head_passed zs i x d h (head : ptr) c g : Prop :=
  ∃ new z, let zs' := zs ++ new.*2 in
    (head = Some x ∧ dropped zs' z i (h ++ new) x d c g) ∨
    (head = last zs'.*1 ∧ (S i < length zs')%nat ∧ pending None zs' z (h ++ new) c g ∧ fuel_for zs').

Definition removed zs i x h c g : Prop :=
  ∃ new z n, pending (Some (x, n)) (delete i (zs ++ new.*2)) z (h ++ new) c g.

Lemma head_passed_rely zs i x d h head c g c' g' :
  q_rely cf 0 (c, g) (c', g') → head_passed zs i x d h head c g → head_passed zs i x d h head c' g'.
Proof.
  intros HR (new & z & [[Hh Hd]|(Hh & Hi & Hp & Hf)]); exists new, z; [left|right].
  - split; [done|]. by eapply dropped_rely.
  - do 2 (split; [done|]). split; [|done]. by eapply pending_rely.
Qed.

Lemma removed_rely zs i x h c g c' g' :
  q_rely cf 0 (c, g) (c', g') → removed zs i x h c g → removed zs i x h c' g'.
Proof. intros HR (new & z & n & Hp). exists new, z, n. by eapply pending_rely. Qed.

Lemma inner_not_last zs i x d :
  NoDup zs.*1 → zs !! i = Some (x, d) → (S i < length zs)%nat → last zs.*1 ≠ Some x.
Proof.
  intros Hnd Hx Hi Hl. rewrite last_before_pos, length_fmap in Hl.
  apply (before_pos_ne zs.*1 i) in Hl; [lia|done|by rewrite list_lookup_fmap, Hx].
Qed.

Lemma last_seen zs i x d : zs !! i = Some (x, d) → S i = length zs → last zs.*1 = Some x.
Proof. intros Hx Hi. rewrite last_before_pos, length_fmap, <- Hi. simpl. by rewrite list_lookup_fmap, Hx. Qed.

Lemma head_passed_inner zs z i x d h c g :
  pending None zs z h c g → fuel_for zs → zs !! i = Some (x, d) → S i ≠ length zs →
  crg (Done (last zs.*1)) (λ head c g, head_passed zs i x d h head c g) c g.
Proof.
  intros Hp Hf Hx Hi c' g' HR. exists [], z. right. simpl. rewrite !app_nil_r.
  pose proof (lookup_lt_Some _ _ _ Hx). split; [done|]. split; [lia|]. split; [by eapply pending_rely|done].
Qed.

Lemma head_passed_extend zs (new : list (nat * (loc * D))) i x d h head c g :
  head_passed (zs ++ new.*2) i x d (h ++ new) head c g → head_passed zs i x d h head c g.
Proof. intros (new' & z & Hh). exists (new ++ new'), z. by rewrite fmap_app, !app_assoc. Qed.

Lemma lookup_extend zs (new : list (nat * (loc * D))) i x d :
  zs !! i = Some (x, d) → (zs ++ new.*2) !! i = Some (x, d).
Proof. apply lookup_app_l_Some. Qed.

Lemma unlink_passed_rg {A : Type} (k : unit → prog (mpsc D) A) Q zs i x d h head c g :
  zs !! i = Some (x, d) → head_passed zs i x d h head c g →
  (∀ c g, removed zs i x h c g → crg (k tt) Q c g) →
  crg (_ ← (if decide (Some x = head) then Done tt else build_reverse fuel head); _ ← unlink x; k tt) Q c g.
Proof using known_down.
  intros Hx (new & z & [[-> Hd]|(-> & Hi & Hp & Hf)]) Hk.
  - rewrite decide_True by done. rg_bind. intros c1 g1 HR.
    apply (dropped_rely _ _ _ _ _ _ _ _ _ _ HR) in Hd. destruct Hd as (Hi & Hz & Hnd & pf & Hpf & HK).
    rg_bind. eapply rg_mono; [|eapply unlink_head_rg; [by eapply lookup_extend|done|done|done|exact Hpf|exact HK]].
    intros [] c2 g2 [n Hn]. apply Hk. by eexists new, _, n.
  - pose proof (pending_nodup _ _ _ _ _ _ Hp) as Hnd.
    rewrite decide_False by (intros Heq; by eapply inner_not_last; [| |exact Hi|]; [done|by eapply lookup_extend|]).
    rg_bind. eapply rg_mono; [|by eapply build_reverse_rg]. clear c g Hp. intros u c g HK. cbv beta in HK. clear u.
    rg_bind. eapply rg_mono; [|eapply unlink_inner_rg; [by eapply lookup_extend|done|done|exact HK]].
    intros [] c2 g2 [n Hn]. apply Hk. exists new, (length (delete i (zs ++ new.*2))), n. by apply built_pending.
Qed.

Lemma removed_extend zs (new : list (nat * (loc * D))) i x h c g :
  removed (zs ++ new.*2) i x (h ++ new) c g → removed zs i x h c g.
Proof.
  intros (new' & z & n & Hp). exists (new ++ new'), z, n.
  by rewrite fmap_app, !app_assoc.
Qed.
End with_fuel.
End consumer.

(** ** The consumer of each queue *)

Section mpsciq_consumer.
Context (cf : q_conf unit) (sok spurious : Prop) (fuel : nat).
Context (Hfuel : sok ∨ ∀ q h, cf_known cf q h → (length q <= fuel)%nat) (known_down : ∀ q h i, cf_known cf q h → cf_known cf (delete i q) h).

Abbreviation crg := (rg False sok spurious (q_rely cf 0) (q_guar cf 0)).

Lemma mpsciq_pass_head (zs : list (loc * unit)) z h c g i x :
  pending cf None zs z h c g → fuel_for sok fuel zs → zs !! i = Some (x, tt) →
  crg (if decide (Some x = last zs.*1)
       then next ← read_next (last zs.*1);
            '(_, head) ← prs_pal_atomic_compare_exchange_strong head_cell (last zs.*1) next;
            Done head
       else Done (last zs.*1))
    (λ head c g, head_passed cf sok fuel zs i x tt h head c g) c g.
Proof using Hfuel known_down.
  intros Hp Hf Hx. destruct (decide (S i = length zs)) as [Hi|Hi].
  - rewrite (last_seen _ _ _ _ Hx Hi), decide_True by done. cbn [read_next].
    eapply read_seen; [exact (proj2 Hp)|exact Hx|]. intros c1 g1 HK.
    assert (pending cf None zs z h c1 g1) as Hp1 by by split; [apply Hp|].
    clear c g Hp HK. cbn [dl_next]. eapply (cas_drop_head _ _ _ fuel); [done..|exact Hp1|exact Hx|exact Hi| |].
    + intros c g Hd c' g' HR. exists [], z. simpl. left. rewrite !app_nil_r. split; [done|]. by eapply dropped_rely.
    + intros new c g Hne Hp2 Hf2. eapply rg_mono; [|eapply head_passed_inner; [exact Hp2|exact Hf2| |]].
      * intros head c' g' Hh. by eapply head_passed_extend.
      * by apply lookup_app_l_Some.
      * rewrite length_app. destruct (new.*2); [done|]. cbn [length]. lia.
  - rewrite decide_False.
    + by eapply head_passed_inner.
    + intros Hl. symmetry in Hl. pose proof (lookup_lt_Some _ _ _ Hx).
      eapply inner_not_last; [by eapply pending_nodup|exact Hx|lia|done].
Qed.

(** The consumer takes the node at position [i]: it owns it then, with null links. *)
Lemma mpsciq_remove_rg (zs : list (loc * unit)) z h c g i x :
  pending cf None zs z h c g → zs !! i = Some (x, tt) →
  crg (prs_mpsciq_remove fuel x) (λ _ c g, ∃ new z,
    pending cf (Some (x, DlNode None None tt)) (delete i (zs ++ new.*2)) z (h ++ new) c g) c g.
Proof using Hfuel known_down.
  intros Hp Hx. unfold prs_mpsciq_remove, prs_mpsciq_build_reverse.
  eapply load_head_rg; [exact Hfuel|exact Hp|]. clear c g Hp. intros new c g Hp Hf _. rg_bind.
  eapply rg_mono; [|by eapply mpsciq_pass_head, lookup_app_l_Some]. clear c g Hp. intros head c g Hh.
  eapply (unlink_passed_rg cf sok spurious fuel known_down (λ _, _ ← write (next_cell x) None; write (prev_cell x) None));
    [by apply lookup_app_l_Some|exact Hh|].
  clear c g Hh. intros c g Hr. apply removed_extend in Hr as (new' & z' & n & Hz & HK).
  eapply write_own; [exact HK|]. clear c g HK. intros c g HK.
  eapply write_own with (k := Done); [exact HK|]. clear c g HK. intros c g HK.
  intros c' g' HR. exists new', z'. split; [done|]. destruct n as [nx pv []].
  by eapply K_rely in HK.
Qed.

End mpsciq_consumer.

Section mpscq_consumer.
Context (cf : q_conf ptr) (sok spurious : Prop) (fuel : nat).
Context (Hfuel : sok ∨ ∀ q h, cf_known cf q h → (length q <= fuel)%nat) (known_down : ∀ q h i, cf_known cf q h → cf_known cf (delete i q) h).

Abbreviation crg := (rg False sok spurious (q_rely cf 0) (q_guar cf 0)).

Lemma mpscq_drop_head (attempts : nat) (zs : list (loc * ptr)) z h c g i x d :
  sok ∨ ¬ spurious ∧ ((if decide (S i = length zs) then 1 else 0) < attempts)%nat →
  pending cf None zs z h c g → fuel_for sok fuel zs → zs !! i = Some (x, d) →
  crg (drop_head_loop attempts x (last zs.*1))
    (λ head c g, head_passed cf sok fuel zs i x d h head c g) c g.
Proof using Hfuel known_down.
  revert zs h c g. induction attempts as [|attempts IH]; intros zs h c g Ha Hp Hf Hx; [destruct Ha; [done|lia]|].
  cbn [drop_head_loop]. destruct (decide (S i = length zs)) as [Hi|Hi].
  - rewrite (last_seen _ _ _ _ Hx Hi), decide_False by (intros H; by apply H). cbn [read_next].
    eapply read_seen; [exact (proj2 Hp)|exact Hx|]. intros c1 g1 HK.
    assert (pending cf None zs z h c1 g1) as Hp1 by by split; [apply Hp|].
    clear c g Hp HK. cbn [dl_next].
    assert (∀ new c g, sok ∨ ¬ spurious ∧ new.*2 ≠ [] → pending cf None (zs ++ new.*2) z (h ++ new) c g →
      fuel_for sok fuel (zs ++ new.*2) → crg (drop_head_loop attempts x (last (zs ++ new.*2).*1))
        (λ head c g, head_passed cf sok fuel zs i x d h head c g) c g) as Hretry.
    { intros new c g Hn Hp Hf'. eapply rg_mono; [|eapply IH; [|exact Hp|exact Hf'|by apply lookup_app_l_Some]].
      - intros head c2 g2 Hh. by eapply head_passed_extend.
      - destruct Ha as [|[Hs Ha]], Hn as [|[_ Hn]]; [by left..|right]. split; [done|].
        rewrite length_app. destruct (new.*2); [done|]. cbn [length]. rewrite decide_False by lia. lia. }
    intros [|] Hspur.
    + rg_bind_act. intros c2 g2 HR. apply (pending_rely _ _ _ _ _ _ _ _ _ HR) in Hp1.
      destruct (pending_extend _ _ _ _ _ _ _ Hp1) as (new & Hq & Hp2).
      eexists _, c2, g2. cbn. rewrite (pending_head _ _ _ _ _ _ _ Hp1), Hq. split; [done|].
      split; [apply q_guar_refl|]. apply Hretry; [|done|by eapply pending_fuel].
      destruct Ha as [|[Hs _]]; [by left|]. by destruct (Hs (Hspur eq_refl)).
    + eapply (cas_drop_head _ _ _ fuel); [done..|exact Hp1|exact Hx|exact Hi| |].
      * intros c g Hd c' g' HR. exists [], z. simpl. left. rewrite !app_nil_r. split; [done|]. by eapply dropped_rely.
      * intros new c g Hn Hp2 Hf2. apply Hretry; [|done..]. destruct Ha as [|[Hs _]]; [by left|by right].
  - rewrite decide_True; [by eapply head_passed_inner|].
    intros Hl. symmetry in Hl. pose proof (lookup_lt_Some _ _ _ Hx).
    eapply inner_not_last; [by eapply pending_nodup|exact Hx|lia|done].
Qed.

Lemma free_own_rg (zs : list (loc * ptr)) h pf rt rh c g x n :
  K cf (Some (x, n)) zs h pf rt rh c g →
  crg (free_node x) (λ _ c g, K cf None zs h pf rt rh c g) c g.
Proof.
  intros HK. eapply consumer_act with (k := Done); [exact HK|]. clear c g HK. intros c g [Hk [Ho He]].
  pose proof (free_guar cf 0 x n c g Ho) as HG. destruct Ho as [Hown Hn].
  pose proof (knows_inv _ _ _ _ _ _ _ _ Hk) as Hi.
  eexists tt, _, _. cbv beta. unfold prs_pal_free. rewrite free_live by (apply (inv_live _ _ _ Hi); right; by eexists).
  split; [done|]. split; [exact HG|]. intros c2 g2 HR. eapply K_rely; [exact HR|]. split.
  2: { split; [done|]. simpl. intros Hf y [Hne Hy]%lookup_delete_Some. destruct (He Hf y Hy). congruence. }
  destruct Hk as (_ & Hrt & Hrh & Hpf & new & Hq & Hh & Hnew).
  assert (x ∉ (g_queue g).*1) as Hxq by by eapply owned_not_queued.
  rewrite Hq, fmap_app in Hxq. apply not_elem_of_app in Hxq as [Hx1 Hx2].
  split; [by eapply q_guar_inv|]. do 2 (split; [done|]). split.
  - intros j y Hy. simpl. rewrite lookup_delete_ne; [by apply Hpf|]. intros ->. apply Hx1. by eapply list_elem_of_lookup_2.
  - exists new. split_and!; [done..|]. intros y Hy. simpl. rewrite lookup_delete_ne; [by apply Hnew|]. by intros ->.
Qed.

(** The consumer takes the node at position [i], and frees it. *)
Lemma mpscq_remove_rg (zs : list (loc * ptr)) z h c g i x d :
  sok ∨ ¬ spurious ∧ (2 <= fuel)%nat →
  pending cf None zs z h c g → zs !! i = Some (x, d) →
  crg (prs_mpscq_remove fuel x) (λ _ c g, ∃ new z,
    pending cf None (delete i (zs ++ new.*2)) z (h ++ new) c g) c g.
Proof using Hfuel known_down.
  intros Ha Hp Hx. unfold prs_mpscq_remove, prs_mpscq_build_reverse.
  eapply load_head_rg; [exact Hfuel|exact Hp|]. clear c g Hp. intros new c g Hp Hf _. rg_bind.
  eapply rg_mono; [|eapply mpscq_drop_head; [|exact Hp|exact Hf|by apply lookup_app_l_Some]].
  2: { destruct Ha as [|[Hs Ha]]; [by left|right]. split; [done|]. case_decide; lia. }
  clear c g Hp. intros head c g Hh.
  eapply (unlink_passed_rg cf sok spurious fuel known_down (λ _, free_node x));
    [by apply lookup_app_l_Some|exact Hh|].
  clear c g Hh. intros c g Hr. apply removed_extend in Hr as (new' & z' & n & Hz & HK).
  eapply rg_mono; [|by eapply free_own_rg]. intros u c' g' HK'. by exists new', z'.
Qed.
End mpscq_consumer.


(** ** The producers *)

Section producer.
Context {D : Type} (cf : q_conf D) (t : nat).
Context (Ht : t ≠ 0%nat) (known_push : ∀ q h e, cf_known cf q h → cf_known cf (q ++ [e]) (h ++ [(t, e)])).
Implicit Types (c : mpsc D) (g : q_ghost D) (x : loc) (os : dl_mem D) (ps : list (loc * D)).

Abbreviation prg := (rg False True True (q_rely cf t) (q_guar cf t)).

(** What a producer knows: its pushes so far, and the nodes it owns. *)
Definition producer ps os c g : Prop :=
  q_inv cf c g ∧ pushes_of t (g_pushes g) = ps ∧ (∀ x n, os !! x = Some n → owns t x n c g) ∧
  ∀ x, g_owner g !! x = Some t → is_Some (os !! x).

Lemma producer_rely ps os c g c' g' :
  q_rely cf t (c, g) (c', g') → producer ps os c g → producer ps os c' g'.
Proof.
  intros HR (Hi & Hp & Ho & He). destruct (HR Hi) as (Hi' & (Hown & _ & Hp') & _). simpl in *.
  split; [done|]. split; [congruence|]. split.
  - intros x n Hx. eapply owns_rely; [exact Hi|exact HR|]. by apply Ho.
  - intros x Hx. by apply He, Hown.
Qed.

Lemma producer_done {A : Type} (a : A) (Q : A → mpsc D → q_ghost D → Prop) ps os c g :
  producer ps os c g → (∀ c g, producer ps os c g → Q a c g) → prg (Done a) Q c g.
Proof. intros Hp HQ c' g' HR. apply HQ. by eapply producer_rely. Qed.

Lemma producer_load_head {A : Type} (k : ptr → prog (mpsc D) A) Q ps os c g :
  producer ps os c g → (∀ v c g, producer ps os c g → prg (k v) Q c g) →
  prg (prs_pal_atomic_load head_cell ≫= k) Q c g.
Proof.
  intros Hp H. rg_bind_load. intros c1 g1 HR. eexists. split; [done|]. split; [apply q_guar_refl|].
  apply H. by eapply producer_rely.
Qed.

Lemma producer_read {A V : Type} (get : dl_node D → V) set_ x n (k : V → prog (mpsc D) A) Q ps os c g :
  producer ps os c g → os !! x = Some n → (∀ c g, producer ps os c g → prg (k (get n)) Q c g) →
  prg (read (node_cell get set_ x) ≫= k) Q c g.
Proof.
  intros Hp Hx H. rg_bind_load. intros c1 g1 HR. apply (producer_rely _ _ _ _ _ _ HR) in Hp.
  pose proof Hp as (_ & _ & Ho & _). destruct (Ho x n Hx) as [_ Hn]. exists (get n). cbn. rewrite Hn.
  split; [done|]. split; [apply q_guar_refl|]. by apply H.
Qed.

Lemma producer_write {A V : Type} (get : dl_node D → V) set_ v x n (k : unit → prog (mpsc D) A) Q ps os c g :
  producer ps os c g → os !! x = Some n →
  (∀ c g, producer ps (<[x := set_ v n]> os) c g → prg (k tt) Q c g) →
  prg (write (node_cell get set_ x) v ≫= k) Q c g.
Proof.
  intros Hp Hx H. rg_bind_store. intros c1 g1 HR. apply (producer_rely _ _ _ _ _ _ HR) in Hp.
  destruct Hp as (Hi & Hps & Ho & He). pose proof (Ho x n Hx) as Hn.
  pose proof (own_write_guar cf t x n (set_ v n) c1 g1 Hn) as HG.
  eexists _, g1. cbn. rewrite (proj2 Hn). split; [done|]. split; [exact HG|]. apply H.
  split; [by eapply q_guar_inv|]. split; [done|]. split; intros y; [intros m Hy|];
    destruct (decide (x = y)) as [->|Hne].
  - rewrite lookup_insert_eq in Hy. simplify_eq. split; [apply Hn|]. simpl. by rewrite lookup_insert_eq.
  - rewrite lookup_insert_ne in Hy by done. split; [by apply (Ho y m)|]. simpl.
    rewrite lookup_insert_ne by done. by apply (Ho y m).
  - intros _. rewrite lookup_insert_eq. by eexists.
  - rewrite lookup_insert_ne by done. apply He.
Qed.

Lemma push_loop_rg fuel x n ps os c g :
  producer ps os c g → os !! x = Some n → dl_prev n = None →
  prg (push_loop fuel x) (λ _ c g, producer (ps ++ [(x, dl_data n)]) (delete x os) c g) c g.
Proof using Ht known_push.
  revert n os c g. induction fuel as [|fuel IH]; intros n os c g Hp Hx Hprev; [done|]. cbn [push_loop].
  eapply producer_read; [exact Hp|exact Hx|]. clear c g Hp. intros c g Hp.
  assert (∀ v c g, producer ps os c g →
    prg (_ ← write (next_cell x) v; push_loop fuel x)
      (λ _ c g, producer (ps ++ [(x, dl_data n)]) (delete x os) c g) c g) as Hretry.
  { intros v c1 g1 Hp1. eapply producer_write; [exact Hp1|exact Hx|]. intros c2 g2 Hp2.
    eapply rg_mono; [|eapply (IH (set_next v n)); [exact Hp2|by rewrite lookup_insert_eq|done]].
    intros u c3 g3 H3. cbv beta in H3. by rewrite delete_insert_eq in H3. }
  intros [|] _.
  - rg_bind_act. intros c1 g1 HR. eexists _, c1, g1. cbn. split; [done|]. split; [apply q_guar_refl|].
    apply Hretry. by eapply producer_rely.
  - rg_bind_cas_strong. intros c1 g1 HR. apply (producer_rely _ _ _ _ _ _ HR) in Hp.
    eexists. split; [done|]. destruct (decide (q_head c1 = dl_next n)) as [Hh|Hh].
    + destruct Hp as (Hi & Hps & Ho & He). pose proof (Ho x n Hx) as Hn.
      pose proof (push_guar cf t x (dl_data n) c1 g1 Ht (λ q h, known_push q h _)) as HG.
      destruct n as [nx pv d]. simpl in *. subst nx pv. specialize (HG Hn).
      eexists _, _. split; [done|]. split; [exact HG|]. eapply producer_done with (os := delete x os); [|done].
      split; [by eapply q_guar_inv|]. split.
      * simpl. rewrite pushes_of_app, Hps. unfold pushes_of. by rewrite filter_cons_True.
      * split.
        -- intros y m [Hne Hy]%lookup_delete_Some. destruct (Ho y m Hy) as [Hoy Hny]. split; [|done]. simpl.
           by rewrite lookup_delete_ne.
        -- simpl. intros y [Hne Hy]%lookup_delete_Some. rewrite lookup_delete_ne by done. by apply He.
    + split; [apply q_guar_refl|]. by apply Hretry.
Qed.
End producer.

(** Pushing a node that is in no queue, with null links. *)
Lemma mpsciq_push_rg cf t fuel x ps os c g :
  t ≠ 0%nat → (∀ q h e, cf_known cf q h → cf_known cf (q ++ [e]) (h ++ [(t, e)])) →
  producer cf t ps os c g → os !! x = Some (DlNode None None tt) →
  rg False True True (q_rely cf t) (q_guar cf t) (prs_mpsciq_push fuel x)
    (λ _ c g, producer cf t (ps ++ [(x, tt)]) (delete x os) c g) c g.
Proof.
  intros Ht Hb Hp Hx. unfold prs_mpsciq_push.
  eapply producer_read; [exact Hp|exact Hx|]. clear c g Hp. intros c g Hp. cbn [dl_next].
  rewrite decide_False by (intros H; by apply H).
  eapply producer_read; [exact Hp|exact Hx|]. clear c g Hp. intros c g Hp. cbn [dl_prev].
  rewrite decide_False by (intros H; by apply H).
  eapply producer_load_head; [exact Hp|]. clear c g Hp. intros v c g Hp.
  eapply producer_write; [exact Hp|exact Hx|]. clear c g Hp. intros c g Hp.
  eapply rg_mono; [|eapply push_loop_rg; [done|done|exact Hp|by rewrite lookup_insert_eq|done]].
  intros u c' g' H'. cbv beta in H'. by rewrite delete_insert_eq in H'.
Qed.

(** Pushing data in a new node; without memory nothing happens. *)
Lemma mpscq_push_rg cf t fuel junk data ps c g :
  t ≠ 0%nat → (∀ q h e, cf_known cf q h → cf_known cf (q ++ [e]) (h ++ [(t, e)])) →
  (t < cf_threads cf)%nat → producer cf t ps ∅ c g →
  rg False True True (q_rely cf t) (q_guar cf t) (prs_mpscq_push fuel junk data)
    (λ r c g, (r = PRS_OK ∧ ∃ x, producer cf t (ps ++ [(x, data)]) ∅ c g) ∨
              (r = PRS_OUT_OF_MEMORY ∧ producer cf t ps ∅ c g)) c g.
Proof.
  intros Ht Hb Hlt Hp. unfold prs_mpscq_push. rg_bind_act. intros c1 g1 HR.
  apply (producer_rely _ _ _ _ _ _ _ _ HR) in Hp. destruct Hp as (Hi & Hps & _ & He).
  assert (∀ y, g_owner g1 !! y ≠ Some t) as Hnone.
  { intros y Hy. destruct (He y Hy) as [? Hn]. by rewrite lookup_empty in Hn. }
  destruct (prs_pal_malloc (q_heap c1)) as [[x|] h] eqn:Hm.
  - destruct (malloc_guar cf t x junk h c1 g1 Hi Hlt Hm) as [HG Ho]. eexists _, _, _. split; [done|]. split; [exact HG|].
    assert (producer cf t ps {[ x := junk ]} (with_heap h (with_nodes (<[x:=junk]> (q_nodes c1)) c1))
      (QGhost (g_queue g1) (g_pushes g1) (<[x:=t]> (g_owner g1)))) as Hp.
    { split; [by eapply q_guar_inv|]. split; [done|]. split; [by intros y n [<- <-]%lookup_singleton_Some|].
      simpl. intros y. destruct (decide (x = y)) as [->|Hne]; [intros _; rewrite lookup_singleton_eq; by eexists|].
      rewrite lookup_insert_ne by done. intros Hy. by destruct (Hnone y). }
    revert Hp. generalize (with_heap h (with_nodes (<[x:=junk]> (q_nodes c1)) c1)).
    generalize (QGhost (g_queue g1) (g_pushes g1) (<[x:=t]> (g_owner g1))). clear - Ht Hb. intros g c Hp.
    eapply producer_write; [exact Hp|by rewrite lookup_singleton_eq|]. clear c g Hp. intros c g Hp.
    eapply producer_write; [exact Hp|by rewrite lookup_insert_eq|]. clear c g Hp. intros c g Hp.
    eapply producer_load_head; [exact Hp|]. clear c g Hp. intros v c g Hp.
    eapply producer_write; [exact Hp|by rewrite lookup_insert_eq|]. clear c g Hp. intros c g Hp.
    rg_bind. eapply rg_mono; [|eapply push_loop_rg; [done|done|exact Hp|by rewrite lookup_insert_eq|done]].
    intros u c' g' Hp'. cbv beta in Hp'. clear u. eapply producer_done; [exact Hp'|]. intros c2 g2 Hp2. left.
    split; [done|]. exists x. cbn [dl_data set_next set_data set_prev] in Hp2.
    rewrite delete_insert_eq, !delete_insert_eq, delete_singleton_eq in Hp2. exact Hp2.
  - pose proof (malloc_none_guar cf t h c1 g1 Hm) as HG. eexists _, _, g1. split; [done|]. split; [exact HG|].
    eapply producer_done with (ps := ps) (os := ∅); [|by right].
    split; [by eapply q_guar_inv|]. split; [done|]. split; intros y; [intros n Hy; by rewrite lookup_empty in Hy|].
    simpl. intros Hy. by destruct (Hnone y).
Qed.

(** ** Threads that use a queue

    A producer pushes the nodes (the data) of a list one after the other.  The
    consumer runs a script of positions: for each it calls [begin], walks that many
    steps with [next], and removes the node it is on, if there is one. *)

Fixpoint walk {D : Type} (i : nat) (node : ptr) : prog (mpsc D) ptr :=
  match i, node with
  | S i, Some x => node ← read (prev_cell x); walk i node
  | _, _ => Done node
  end.

Fixpoint mpsciq_consumer (fuel : nat) (script : list nat) (acc : list loc) : prog (mpsc unit) (list loc) :=
  match script with
  | [] => Done acc
  | i :: script =>
      node ← prs_mpsciq_begin fuel;
      node ← walk i node;
      match node with
      | Some x => _ ← prs_mpsciq_remove fuel x; mpsciq_consumer fuel script (acc ++ [x])
      | None => mpsciq_consumer fuel script acc
      end
  end.

Fixpoint mpsciq_producer (fuel : nat) (nodes : list loc) : prog (mpsc unit) (list loc) :=
  match nodes with
  | [] => Done []
  | x :: nodes => _ ← prs_mpsciq_push fuel x; mpsciq_producer fuel nodes
  end.

Fixpoint mpscq_consumer (fuel : nat) (script : list nat) (acc : list ptr) : prog (mpsc ptr) (list ptr) :=
  match script with
  | [] => Done acc
  | i :: script =>
      node ← prs_mpscq_begin fuel;
      node ← walk i node;
      match node with
      | Some x =>
          data ← prs_mpscq_get_data x;
          _ ← prs_mpscq_remove fuel x;
          mpscq_consumer fuel script (acc ++ [data])
      | None => mpscq_consumer fuel script acc
      end
  end.

(** The result is the data whose push succeeded. *)
Fixpoint mpscq_producer (fuel : nat) (junk : dl_node ptr) (datas acc : list ptr) : prog (mpsc ptr) (list ptr) :=
  match datas with
  | [] => Done acc
  | data :: datas =>
      r ← prs_mpscq_push fuel junk data;
      mpscq_producer fuel junk datas (if decide (r = PRS_OK) then acc ++ [data] else acc)
  end.

(** What the consumer took and what is left make up what was pushed. *)
Definition took {E : Type} (fifo : Prop) (acc zs pushed : list E) : Prop :=
  zs `sublist_of` pushed ∧ acc ++ zs ≡ₚ pushed ∧ (fifo → acc ++ zs = pushed).

Lemma took_extend {E : Type} fifo (acc zs pushed new : list E) :
  took fifo acc zs pushed → took fifo acc (zs ++ new) (pushed ++ new).
Proof.
  intros (Hs & Hp & Hf). split; [by apply sublist_app|]. split.
  - by rewrite app_assoc, Hp.
  - intros HF. by rewrite app_assoc, Hf.
Qed.

Lemma took_delete {E : Type} fifo (acc zs pushed : list E) i e :
  took fifo acc zs pushed → zs !! i = Some e → (fifo → i = 0%nat) →
  took fifo (acc ++ [e]) (delete i zs) pushed.
Proof.
  intros (Hs & Hp & Hf) He Hi. split; [|split].
  - etransitivity; [|exact Hs]. apply sublist_delete.
  - rewrite <- app_assoc. simpl. by rewrite <- (delete_Permutation zs i e He).
  - intros HF. rewrite <- (Hf HF). specialize (Hi HF). subst i. destruct zs as [|e' zs]; simplify_eq/=.
    by rewrite <- app_assoc.
Qed.

Section consumer_threads.
Context {D : Type} (cf : q_conf D) (sok spurious : Prop) (fuel : nat).
Context (Hfuel : sok ∨ ∀ q h, cf_known cf q h → (length q <= fuel)%nat).
Context {V : Type} (value : loc * D → V) (fifo : Prop).
Implicit Types (c : mpsc D) (g : q_ghost D) (acc : list V).

Abbreviation crg := (rg False sok spurious (q_rely cf 0) (q_guar cf 0)).

Definition consumed acc c g : Prop :=
  ∃ zs z h got, pending cf None zs z h c g ∧ acc = value <$> got ∧ took fifo got zs h.*2.

Lemma consumed_rely acc c g c' g' :
  q_rely cf 0 (c, g) (c', g') → consumed acc c g → consumed acc c' g'.
Proof. intros HR (zs & z & h & got & Hp & Ha). exists zs, z, h, got. split; [by eapply pending_rely|done]. Qed.

Lemma pending_forget o zs z h c g :
  (cf_frees cf → o = None) → pending cf o zs z h c g → pending cf None zs z h c g.
Proof.
  intros Ho [Hz [Hk [_ He]]]. split; [done|]. split; [done|]. split; [done|].
  intros Hf. rewrite <- (Ho Hf). by apply He.
Qed.

Lemma consumed_remove got zs i e h z new o c g :
  (cf_frees cf → o = None) → took fifo got zs h.*2 → zs !! i = Some e → (fifo → i = 0%nat) →
  pending cf o (delete i (zs ++ new.*2)) z (h ++ new) c g →
  consumed ((value <$> got) ++ [value e]) c g.
Proof.
  intros Ho Ht He Hi Hp. eexists _, z, _, (got ++ [e]). split; [by eapply pending_forget|].
  split; [by rewrite fmap_app|]. rewrite fmap_app. eapply took_delete; [by apply took_extend| |done].
  by apply lookup_app_l_Some.
Qed.

Lemma walk_rg i j zs h c g :
  built cf None zs h c g →
  crg (walk i (zs.*1 !! j)) (λ r c g, r = zs.*1 !! (j + i)%nat ∧ built cf None zs h c g) c g.
Proof.
  revert j c g. induction i as [|i IH]; intros j c g HK; cbn [walk].
  - rewrite Nat.add_0_r. eapply (consumer_done _ _ _ _ _ None); [exact HK|]. by intros.
  - destruct (zs.*1 !! j) as [x|] eqn:Hx.
    + destruct (list_lookup_fmap_Some_1 fst zs j x Hx) as ([x' d] & [= <-] & Hxd).
      unfold built in HK. eapply read_seen; [exact HK|exact Hxd|]. clear c g HK. intros c g HK. cbn [dl_prev].
      unfold built_pf at 1. replace (j + S i)%nat with (S j + i)%nat by lia. by apply IH.
    + eapply (consumer_done _ _ _ _ _ None); [exact HK|]. intros c' g' HK'. split; [|done].
      symmetry. apply lookup_ge_None. apply lookup_ge_None in Hx. lia.
Qed.

(** [begin] and a walk: the node reached is at that position. *)
Lemma find_rg {A : Type} i acc (k : ptr → prog (mpsc D) A) Q c g :
  consumed acc c g →
  (∀ c g, consumed acc c g → crg (k None) Q c g) →
  (∀ zs z h got x d c g, pending cf None zs z h c g → acc = value <$> got → took fifo got zs h.*2 →
    zs !! i = Some (x, d) → crg (k (Some x)) Q c g) →
  crg (node ← q_begin fuel; node ← walk i node; k node) Q c g.
Proof using Hfuel.
  intros (zs & z & h & got & Hp & Hacc & Ht) Hnone Hsome. rg_bind.
  eapply rg_mono; [|by eapply q_begin_rg]. clear c g Hp. intros r c g (new & -> & HK). rg_bind.
  eapply rg_mono; [|by eapply walk_rg]. clear c g HK. intros r c g [-> HK]. cbn [Nat.add].
  assert (took fifo got (zs ++ new.*2) (h ++ new).*2) as Ht' by (rewrite fmap_app; by apply took_extend).
  apply built_pending in HK. destruct ((zs ++ new.*2).*1 !! i) as [x|] eqn:Hx.
  - destruct (list_lookup_fmap_Some_1 fst _ i x Hx) as ([x' d] & [= <-] & Hxd). by eapply Hsome.
  - apply Hnone. by eexists _, _, _, _.
Qed.
End consumer_threads.

Lemma mpsciq_consumer_rg cf sok spurious fuel fifo script acc c g :
  ¬ cf_frees cf →
  (sok ∨ ∀ q h, cf_known cf q h → (length q <= fuel)%nat) → (∀ q h i, cf_known cf q h → cf_known cf (delete i q) h) →
  (fifo → Forall (λ i, i = 0%nat) script) → consumed cf fst fifo acc c g →
  rg False sok spurious (q_rely cf 0) (q_guar cf 0) (mpsciq_consumer fuel script acc)
    (consumed cf fst fifo) c g.
Proof.
  intros Hnf Hfuel Hdown. revert acc c g. induction script as [|i script IH]; intros acc c g Hff Hc; cbn [mpsciq_consumer].
  - intros c' g' HR. by eapply consumed_rely.
  - assert (fifo → i = 0%nat) as Hi0 by (intros HF; by apply Hff, Forall_cons in HF as [? _]).
    assert (fifo → Forall (λ i, i = 0%nat) script) as Hff' by (intros HF; by apply Hff, Forall_cons in HF as [_ ?]).
    eapply (find_rg cf sok spurious fuel Hfuel fst fifo i acc); [exact Hc| |].
    + intros c1 g1 Hc1. by apply IH.
    + intros zs z h got x [] c1 g1 Hp -> Ht Hx. rg_bind. eapply rg_mono; [|by eapply mpsciq_remove_rg].
      intros u c2 g2 (new & z' & Hp'). apply IH; [done|]. 
      eapply (consumed_remove cf fst fifo got zs i (x, tt)); [by intros H; destruct Hnf|done..|exact Hp'].
Qed.

Lemma mpscq_consumer_rg cf sok spurious fuel fifo script acc c g :
  (sok ∨ ∀ q h, cf_known cf q h → (length q <= fuel)%nat) → (∀ q h i, cf_known cf q h → cf_known cf (delete i q) h) →
  (sok ∨ ¬ spurious ∧ (2 <= fuel)%nat) →
  (fifo → Forall (λ i, i = 0%nat) script) → consumed cf snd fifo acc c g →
  rg False sok spurious (q_rely cf 0) (q_guar cf 0) (mpscq_consumer fuel script acc)
    (consumed cf snd fifo) c g.
Proof.
  intros Hfuel Hdown Hs. revert acc c g. induction script as [|i script IH]; intros acc c g Hff Hc; cbn [mpscq_consumer].
  - intros c' g' HR. by eapply consumed_rely.
  - assert (fifo → i = 0%nat) as Hi0 by (intros HF; by apply Hff, Forall_cons in HF as [? _]).
    assert (fifo → Forall (λ i, i = 0%nat) script) as Hff' by (intros HF; by apply Hff, Forall_cons in HF as [_ ?]).
    eapply (find_rg cf sok spurious fuel Hfuel snd fifo i acc); [exact Hc| |].
    + intros c1 g1 Hc1. by apply IH.
    + intros zs z h got x d c1 g1 Hp -> Ht Hx. pose proof Hp as [Hz HK].
      eapply read_seen; [exact HK|exact Hx|]. intros c2 g2 HK2. cbn [dl_data].
      rg_bind. eapply rg_mono; [|eapply mpscq_remove_rg; [done|done|done|split; [exact Hz|exact HK2]|exact Hx]].
      intros u c3 g3 (new & z' & Hp'). apply IH; [done|]. by eapply (consumed_remove cf snd fifo got zs i (x, d)).
Qed.

Section producer_threads.
Context (t : nat) (Ht : t ≠ 0%nat).

Lemma mpsciq_producer_rg (cf : q_conf unit) fuel xs ps os c g :
  (∀ q h e, cf_known cf q h → cf_known cf (q ++ [e]) (h ++ [(t, e)])) →
  NoDup xs → (∀ x, x ∈ xs → os !! x = Some (DlNode None None tt)) → producer cf t ps os c g →
  rg False True True (q_rely cf t) (q_guar cf t) (mpsciq_producer fuel xs)
    (λ r c g, r = [] ∧ pushes_of t (g_pushes g) = ps ++ ((λ x, (x, tt)) <$> xs)) c g.
Proof using Ht.
  intros Hpush. revert ps os c g. induction xs as [|x xs IH]; intros ps os c g Hnd Hos Hp; cbn [mpsciq_producer].
  - eapply producer_done; [exact Hp|]. intros c' g' (_ & Hps & _). split; [done|]. by rewrite app_nil_r.
  - apply NoDup_cons in Hnd as [Hx Hnd]. rg_bind.
    eapply rg_mono; [|eapply mpsciq_push_rg; [done|done|exact Hp|apply Hos; by left]].
    intros u c' g' Hp'. cbv beta in Hp'. eapply rg_mono; [|eapply IH; [done| |exact Hp']].
    + intros r c2 g2 [-> Hps]. split; [done|]. by rewrite Hps, <- app_assoc.
    + intros y Hy. rewrite lookup_delete_ne by (by intros ->). apply Hos. by right.
Qed.

Lemma mpscq_producer_rg (cf : q_conf ptr) fuel junk datas acc ps c g :
  (∀ q h e, cf_known cf q h → cf_known cf (q ++ [e]) (h ++ [(t, e)])) → (t < cf_threads cf)%nat →
  ps.*2 = acc → producer cf t ps ∅ c g →
  rg False True True (q_rely cf t) (q_guar cf t) (mpscq_producer fuel junk datas acc)
    (λ r c g, (pushes_of t (g_pushes g)).*2 = r ∧ ∀ x, g_owner g !! x ≠ Some t) c g.
Proof using Ht.
  intros Hpush Hlt. revert acc ps c g. induction datas as [|d datas IH]; intros acc ps c g Hacc Hp; cbn [mpscq_producer].
  - eapply producer_done; [exact Hp|]. intros c' g' (_ & Hps & _ & He). split; [congruence|].
    intros x Hx. destruct (He x Hx) as [n Hn]. by rewrite lookup_empty in Hn.
  - rg_bind. eapply rg_mono; [|by eapply mpscq_push_rg].
    intros r c' g' [[-> [x Hp']]|[-> Hp']].
    + rewrite decide_True by done. eapply IH; [|exact Hp']. by rewrite fmap_app, Hacc.
    + rewrite decide_False by done. by eapply IH.
Qed.
End producer_threads.

(** ** All threads together *)

Lemma Permutation_of_eq {A : Type} (l k : list A) : l = k → l ≡ₚ k.
Proof. by intros ->. Qed.

(** The pushes are those of the threads from 1 to [n]. *)
Definition pushed_by {E : Type} (n : nat) (h : list (nat * E)) : Prop := ∀ e, e ∈ h → (0 < e.1 <= n)%nat.

Lemma pushes_split {D : Type} n (h : list (nat * (loc * D))) :
  pushed_by n h → h.*2 ≡ₚ concat ((λ t, pushes_of (S t) h) <$> seq 0 n).
Proof.
  revert h. induction n as [|n IH]; intros h Hh.
  - destruct h as [|e h]; [done|]. specialize (Hh e ltac:(by left)). lia.
  - rewrite seq_S, fmap_app, concat_app. simpl. rewrite app_nil_r.
    set (h' := filter (λ e, e.1 ≠ S n) h).
    assert (h ≡ₚ h' ++ filter (λ e, e.1 = S n) h) as Hsplit.
    { subst h'. clear. induction h as [|[t e] h IHh]; [done|]. destruct (decide (t = S n)) as [->|Hne].
      - rewrite (filter_cons_False (λ e, e.1 ≠ S n)), (filter_cons_True (λ e, e.1 = S n)) by (simpl; auto).
        rewrite <- Permutation_middle. by constructor.
      - rewrite (filter_cons_True (λ e, e.1 ≠ S n)), (filter_cons_False (λ e, e.1 = S n)) by done.
        simpl. by constructor. }
    rewrite Hsplit at 1. rewrite fmap_app. apply Permutation_app; [|done]. rewrite IH.
    + apply Permutation_of_eq. f_equal. apply list_fmap_ext. intros i t Hi. apply lookup_seq in Hi as [-> Hi].
      unfold pushes_of. f_equal. subst h'. rewrite list_filter_filter. apply list_filter_iff. simpl. intros e. lia.
    + intros e [He1 He2]%list_elem_of_filter. specialize (Hh e He2). lia.
Qed.

Lemma fmap_concat {A B : Type} (f : A → B) (ls : list (list A)) : f <$> concat ls = concat ((λ l : list A, f <$> l) <$> ls).
Proof. apply concat_map. Qed.

(** What holds when all the threads have finished: nothing was lost or taken twice;
    the queue has kept the order of the pushes, and those of each thread are in its
    own order; taken from its oldest node only, the queue is first-in first-out.
    [left] is what is known of the nodes that are left. *)
Definition q_result {D V : Type} (value : loc * D → V) (fifo : Prop) (left : list loc → Prop) (c : mpsc D)
    (taken : list V) (pushed : list (list V)) : Prop :=
  ∃ queue pushes, queue_rep c queue ∧ left queue.*1 ∧ queue `sublist_of` pushes.*2 ∧
    (∀ t vs, pushed !! t = Some vs → value <$> pushes_of (S t) pushes = vs) ∧
    taken ++ (value <$> queue) ≡ₚ concat pushed ∧
    (fifo → taken ++ (value <$> queue) = value <$> pushes.*2).

Lemma q_result_from {D V : Type} (cf : q_conf D) (value : loc * D → V) fifo left taken pushed c g :
  consumed cf value fifo taken c g → pushed_by (length pushed) (g_pushes g) → left (g_queue g).*1 →
  (∀ t vs, pushed !! t = Some vs → value <$> pushes_of (S t) (g_pushes g) = vs) →
  q_result value fifo left c taken pushed.
Proof.
  intros (zs & z & h & got & Hp & -> & Htook) Hby Hleft Hvs.
  destruct (pending_extend _ _ _ _ _ _ _ Hp) as (new & Hq & Hp'). destruct Hp as [_ [Hk _]].
  destruct Hk as (Hi & _ & _ & _ & new' & Hq' & Hh' & _). rewrite Hq in Hq'. apply app_inv_head in Hq'.
  assert (took fifo got (g_queue g) (g_pushes g).*2) as (Hs & Hperm & Hff).
  { rewrite Hq, Hq', Hh', fmap_app. by apply took_extend. }
  exists (g_queue g), (g_pushes g). split; [apply Hi|]. do 3 (split; [done|]).
  rewrite <- fmap_app. split; [|intros HF; by rewrite Hff].
  rewrite Hperm, (pushes_split _ _ Hby), fmap_concat. apply Permutation_of_eq. f_equal.
  rewrite <- list_fmap_compose. apply list_eq. intros t. rewrite list_lookup_fmap.
  destruct (pushed !! t) as [vs|] eqn:Ht.
  - rewrite lookup_seq_lt by (by eapply lookup_lt_Some). simpl. by rewrite (Hvs t vs Ht).
  - rewrite lookup_seq_ge by (by apply lookup_ge_None). done.
Qed.

(** The nodes of [xs], in no queue. *)
Definition fresh_nodes (xs : list loc) : dl_mem unit := list_to_map ((λ x, (x, DlNode None None tt)) <$> xs).

(** Each node with the thread that will push it, from thread [t] on. *)
Fixpoint tagged (t : nat) (lists : list (list loc)) : list (loc * nat) :=
  match lists with
  | [] => []
  | xs :: lists => ((λ x, (x, t)) <$> xs) ++ tagged (S t) lists
  end.

Lemma fresh_nodes_lookup xs x n :
  fresh_nodes xs !! x = Some n ↔ x ∈ xs ∧ n = DlNode None None tt.
Proof.
  unfold fresh_nodes. induction xs as [|y xs IH]; simpl.
  - rewrite lookup_empty, elem_of_nil. naive_solver.
  - rewrite lookup_insert, elem_of_cons. case_decide; [subst|rewrite IH]; naive_solver.
Qed.

Lemma tagged_keys t lists : (tagged t lists).*1 = concat lists.
Proof.
  revert t. induction lists as [|xs lists IH]; intros t; [done|]. simpl. rewrite fmap_app, IH. f_equal.
  rewrite <- list_fmap_compose. apply list_fmap_id.
Qed.

Lemma tagged_in t lists x s :
  (x, s) ∈ tagged t lists ↔ ∃ i xs, lists !! i = Some xs ∧ x ∈ xs ∧ s = (t + i)%nat.
Proof.
  revert t. induction lists as [|ys lists IH]; intros t; simpl.
  - split; [by intros ?%elem_of_nil|intros (i & xs & Hi & _); by rewrite lookup_nil in Hi].
  - rewrite elem_of_app, list_elem_of_fmap, IH. split.
    + intros [(y & [= -> ->] & Hy)|(i & xs & Hi & Hx & ->)].
      * exists 0%nat, ys. split; [done|]. split; [done|lia].
      * exists (S i), xs. split; [done|]. split; [done|lia].
    + intros ([|i] & xs & Hi & Hx & ->); simpl in Hi; simplify_eq.
      * left. exists x. split; [f_equal; lia|done].
      * right. exists i, xs. split; [done|]. split; [done|lia].
Qed.

Lemma pushed_by_snoc {E : Type} n h (e : nat * E) :
  (0 < e.1 <= n)%nat → pushed_by n h → pushed_by n (h ++ [e]).
Proof. intros He Hh e' [H|H]%elem_of_app; [by apply Hh|]. by apply list_elem_of_singleton in H as ->. Qed.

Lemma empty_consumed {D V : Type} (cf : q_conf D) (value : loc * D → V) fifo ns hp owner :
  q_inv cf (Mpsc None None None ns hp) (QGhost [] [] owner) → (∀ x, owner !! x ≠ Some 0%nat) →
  consumed cf value fifo [] (Mpsc None None None ns hp) (QGhost [] [] owner).
Proof.
  intros Hi Ho. exists [], 0%nat, [], []. split; [|done]. split; [done|]. split.
  - split; [done|]. split; [done|]. split; [done|]. split; [done|]. exists [].
    split; [done|]. split; [done|]. intros x Hx. by apply elem_of_nil in Hx.
  - split; [done|]. intros _ y Hy. by destruct (Ho y).
Qed.

Section mpsciq_threads.
Context (lists : list (list loc)) (hp : heap).
Context (Hnd : NoDup (concat lists)) (Hok : heap_ok hp) (Hlive : ∀ x, x ∈ concat lists → x ∈ heap_live hp).

Definition mpsciq_conf : q_conf unit :=
  QConf (S (length lists)) (heap_live hp ∖ list_to_set (concat lists)) (λ _ h, pushed_by (length lists) h) False.
Definition mpsciq_start : mpsc unit := mpsciq_empty (fresh_nodes (concat lists)) hp.
Definition mpsciq_ghost : q_ghost unit := QGhost [] [] (list_to_map (tagged 1 lists)).

Lemma mpsciq_owner x t :
  g_owner mpsciq_ghost !! x = Some t ↔ ∃ i xs, lists !! i = Some xs ∧ x ∈ xs ∧ t = S i.
Proof using Hnd.
  simpl. rewrite <- elem_of_list_to_map by by rewrite tagged_keys. rewrite tagged_in. done.
Qed.

Lemma mpsciq_start_inv : q_inv mpsciq_conf mpsciq_start mpsciq_ghost.
Proof using Hnd Hok Hlive.
  assert (∀ x, is_Some (fresh_nodes (concat lists) !! x) ↔ x ∈ concat lists) as Hns.
  { intros x. split; [by intros [n [Hx _]%fresh_nodes_lookup]|]. intros Hx. exists (DlNode None None tt).
    by apply fresh_nodes_lookup. }
  split; try done.
  - split; [constructor|done|]. intros i x d Hx. done.
  - intros e He. by apply elem_of_nil in He.
  - intros x Hx. by apply elem_of_nil in Hx.
  - intros x t (i & xs & Hi & Hx & ->)%mpsciq_owner. simpl. split; [apply lookup_lt_Some in Hi; lia|].
    apply Hns. apply list_elem_of_In, in_concat. exists xs. rewrite <- !list_elem_of_In.
    split; [by eapply list_elem_of_lookup_2|done].
  - intros x. simpl. rewrite Hns, elem_of_difference, elem_of_list_to_set.
    destruct (decide (x ∈ concat lists)); naive_solver.
  - simpl. intros x [_ Hx]%elem_of_difference. apply eq_None_not_Some. rewrite Hns. by rewrite elem_of_list_to_set in Hx.
  - intros x Hx. right. simpl in Hx. apply Hns, list_elem_of_In, in_concat in Hx as (xs & Hxs & Hx).
    rewrite <- list_elem_of_In in Hxs. rewrite <- list_elem_of_In in Hx.
    apply list_elem_of_lookup in Hxs as [i Hi]. exists (S i). apply mpsciq_owner. by exists i, xs.
  - simpl. lia.
Qed.

Lemma mpsciq_start_producer i xs :
  lists !! i = Some xs → ∃ os, producer mpsciq_conf (S i) [] os mpsciq_start mpsciq_ghost ∧
    ∀ x, x ∈ xs → os !! x = Some (DlNode None None tt).
Proof using Hnd Hok Hlive.
  intros Hi. exists (fresh_nodes xs). split.
  - split; [apply mpsciq_start_inv|]. split; [done|]. split.
    + intros x n [Hx ->]%fresh_nodes_lookup. split; [apply mpsciq_owner; by exists i, xs|].
      simpl. apply fresh_nodes_lookup. split; [|done]. apply list_elem_of_In, in_concat. exists xs.
      rewrite <- !list_elem_of_In. split; [by eapply list_elem_of_lookup_2|done].
    + intros x (j & ys & Hj & Hx & [= <-])%mpsciq_owner. assert (ys = xs) as -> by congruence.
      exists (DlNode None None tt). by apply fresh_nodes_lookup.
  - intros x Hx. by apply fresh_nodes_lookup.
Qed.
End mpsciq_threads.

(** C4: any number of producers that push nodes of their own on an intrusive queue, and
    one consumer that removes nodes at any positions, never touch memory that is not
    a node, in any interleaving; and when all have finished, the nodes taken and
    those left in the queue are exactly the nodes pushed, the queue and every
    thread's pushes are in the order of the pushes, and a consumer that only takes
    the oldest node gets the nodes in the order of the pushes. *)
Theorem mpsciq_interleavings fuel script lists hp c' ps' :
  NoDup (concat lists) → heap_ok hp → (∀ x, x ∈ concat lists → x ∈ heap_live hp) →
  rtc pool_step (mpsciq_start lists hp,
    mpsciq_consumer fuel script [] :: (mpsciq_producer fuel <$> lists)) (c', ps') →
  (∀ t p, ps' !! t = Some p → ¬ faults c' p) ∧
  ∀ taken, ps' = Done taken :: replicate (length lists) (Done []) →
    q_result fst (Forall (λ i, i = 0%nat) script) (λ _, True) c' taken lists.
Proof.
  intros Hnd Hok Hlive Hr. set (cf := mpsciq_conf lists hp). set (fifo := Forall (λ i, i = 0%nat) script).
  set (Qs := λ (t : nat) (r : list loc) (c : mpsc unit) (g : q_ghost unit), match t with
    | O => consumed cf fst fifo r c g
    | S i => ∀ xs, lists !! i = Some xs → pushes_of (S i) (g_pushes g) = (λ x, (x, tt)) <$> xs
    end).
  assert (∀ i, (i < length lists)%nat → ∀ q h e, cf_known cf q h → cf_known cf (q ++ [e]) (h ++ [(S i, e)])) as Hpush.
  { intros i Hi q h e. apply pushed_by_snoc. simpl. lia. }
  destruct (pool_adequate False True True (λ _ _, False) I (q_rely cf) (q_guar cf) Qs (q_inv cf) (q_rely_preorder cf)
    (q_guar_rely cf) (q_guar_inv cf)) with (c := mpsciq_start lists hp) (g := mpsciq_ghost lists)
    (ps := mpsciq_consumer fuel script [] :: (mpsciq_producer fuel <$> lists)) (c' := c') (ps' := ps')
    as (g' & Hi' & Hf & Hq); [|done|].
  - split; [by apply mpsciq_start_inv|]. intros [|i] p Hp; simpl in Hp.
    + injection Hp as <-. apply mpsciq_consumer_rg; [by intros []|by left|done|done|].
      apply empty_consumed; [by apply mpsciq_start_inv|]. intros x (i & xs & _ & _ & ?)%mpsciq_owner; done.
    + rewrite list_lookup_fmap in Hp. destruct (lists !! i) as [xs|] eqn:Hxs; simplify_eq/=.
      destruct (mpsciq_start_producer lists hp Hnd Hok Hlive i xs Hxs) as (os & Hprod & Hos).
      pose proof (lookup_lt_Some _ _ _ Hxs) as Hlt.
      eapply rg_mono; [|eapply mpsciq_producer_rg; [done|exact (Hpush i Hlt)| |exact Hos|exact Hprod]].
      * intros r c g [_ Hps] ys Hys. by rewrite Hps; simplify_eq.
      * apply list_elem_of_split_length in Hxs as (l1 & l2 & -> & _). rewrite concat_app in Hnd. simpl in Hnd.
        apply NoDup_app in Hnd as (_ & _ & Hnd). by apply NoDup_app in Hnd as [? _].
  - split; [done|]. intros taken ->. eapply q_result_from.
    + apply (Hq 0%nat taken). done.
    + apply Hi'.
    + done.
    + intros t vs Ht. rewrite (Hq (S t) []) with (xs := vs); [|simpl; apply lookup_replicate_2; by eapply lookup_lt_Some|done].
      rewrite <- list_fmap_compose. apply list_fmap_id.
Qed.

Definition mpscq_conf (n : nat) (hp : heap) : q_conf ptr :=
  QConf (S n) (heap_live hp) (λ _ h, pushed_by n h) True.

Lemma mpscq_start_inv n hp : heap_ok hp → q_inv (mpscq_conf n hp) (mpscq_empty hp) (QGhost [] [] ∅).
Proof.
  intros Hok. split; try done.
  - split; [constructor|done|done].
  - intros e He. by apply elem_of_nil in He.
  - intros x. simpl. rewrite lookup_empty. split; [by left|]. by intros [|[? ?]].
  - simpl. intros x [? Hx]. by rewrite lookup_empty in Hx.
  - simpl. lia.
Qed.

(** The blocks of the heap are those from before, and the nodes that are left. *)
Definition only_nodes_left (hp : heap) (c : mpsc ptr) (left : list loc) : Prop :=
  ∀ x, x ∈ heap_live (q_heap c) ↔ x ∈ heap_live hp ∨ x ∈ left.

Lemma only_nodes_left_from n hp c g :
  q_inv (mpscq_conf n hp) c g → (∀ x t, (t <= n)%nat → g_owner g !! x ≠ Some t) →
  only_nodes_left hp c (g_queue g).*1.
Proof.
  intros Hi Hown x. rewrite (inv_live _ _ _ Hi). simpl. split; intros [Hx|Hx]; [by left| |by left|].
  - destruct (inv_nodes _ _ _ Hi x Hx) as [|[t Ht]]; [by right|]. exfalso. apply (Hown x t); [|done].
    destruct (inv_owned _ _ _ Hi x t Ht) as [Hlt _]. simpl in Hlt. lia.
  - right. apply list_elem_of_fmap in Hx as ([y d] & -> & Hy). apply list_elem_of_lookup in Hy as [i Hy].
    destruct (rep_node _ _ (inv_rep _ _ _ Hi) i y d Hy) as (m & Hm & _). by eexists.
Qed.

(** C5: the same for the queue of allocated nodes, whatever requests for memory fail:
    the data taken and the data left are exactly the data whose push returned
    [PRS_OK], and the only blocks left on the heap are the nodes of the queue. *)
Theorem mpscq_interleavings fuel script junk datas hp c' ps' :
  heap_ok hp →
  rtc pool_step (mpscq_empty hp,
    mpscq_consumer fuel script [] :: ((λ ds, mpscq_producer fuel junk ds []) <$> datas)) (c', ps') →
  (∀ t p, ps' !! t = Some p → ¬ faults c' p) ∧
  ∀ taken accepted, ps' = Done taken :: (Done <$> accepted) →
    q_result snd (Forall (λ i, i = 0%nat) script) (only_nodes_left hp c') c' taken accepted.
Proof.
  intros Hok Hr. set (n := length datas). set (cf := mpscq_conf n hp). set (fifo := Forall (λ i, i = 0%nat) script).
  set (Qs := λ (t : nat) (r : list ptr) (c : mpsc ptr) (g : q_ghost ptr), match t with
    | O => consumed cf snd fifo r c g
    | S i => snd <$> pushes_of (S i) (g_pushes g) = r ∧ ∀ x, g_owner g !! x ≠ Some (S i)
    end).
  assert (∀ i, (i < n)%nat → ∀ q h e, cf_known cf q h → cf_known cf (q ++ [e]) (h ++ [(S i, e)])) as Hpush.
  { intros i Hi q h e. apply pushed_by_snoc. simpl. lia. }
  destruct (pool_adequate False True True (λ _ _, False) I (q_rely cf) (q_guar cf) Qs (q_inv cf) (q_rely_preorder cf)
    (q_guar_rely cf) (q_guar_inv cf)) with (c := mpscq_empty hp) (g := QGhost [] [] ∅ : q_ghost ptr)
    (ps := mpscq_consumer fuel script [] :: ((λ ds, mpscq_producer fuel junk ds []) <$> datas)) (c' := c') (ps' := ps')
    as (g' & Hi' & Hf & Hq); [|done|].
  - split; [by apply mpscq_start_inv|]. intros [|i] p Hp; simpl in Hp.
    + injection Hp as <-. apply mpscq_consumer_rg; [by left|done|by left|done|].
      apply empty_consumed; [by apply mpscq_start_inv|done].
    + rewrite list_lookup_fmap in Hp. destruct (datas !! i) as [ds|] eqn:Hds; simplify_eq/=.
      pose proof (lookup_lt_Some _ _ _ Hds) as Hlt.
      apply (mpscq_producer_rg (S i) ltac:(done) cf fuel junk ds [] []); [exact (Hpush i Hlt)|simpl; unfold n; lia|done|].
      split; [by apply mpscq_start_inv|done].
  - split; [done|]. intros taken accepted ->.
    assert (length accepted = n) as Hlen.
    { apply pool_length in Hr. simpl in Hr. rewrite !length_fmap in Hr. lia. }
    assert (∀ t vs, accepted !! t = Some vs → Qs (S t) vs c' g') as Hacc.
    { intros t vs Ht. apply (Hq (S t) vs). simpl. by rewrite list_lookup_fmap, Ht. }
    pose proof (Hq 0%nat taken eq_refl) as Htaken.
    eapply q_result_from; [exact Htaken|rewrite Hlen; apply Hi'| |].
    + eapply only_nodes_left_from; [exact Hi'|]. intros x [|t] Hle Hx.
      * destruct Htaken as (zs & z & h & got & [_ [_ [_ He]]] & _). by destruct (He I x Hx).
      * destruct (lookup_lt_is_Some_2 accepted t) as [vs Hvs]; [lia|]. by apply (proj2 (Hacc t vs Hvs) x).
    + intros t vs Ht. apply (Hacc t vs Ht).
Qed.

(** ** A queue that nobody else uses *)

Section alone.
Context {D : Type}.
Implicit Types (c : mpsc D) (zs : list (loc * D)) (x : loc).

(** The queue of the nodes [zs], with the links built for the [z] oldest ones. *)
Record mpsc_ok c zs (z : nat) : Prop := MpscOk {
  ok_rep : queue_rep c zs;
  ok_built : (z <= length zs)%nat;
  ok_reverse_tail : q_reverse_tail c = before_pos zs.*1 z;
  ok_reverse_head : q_reverse_head c = if decide (z = 0%nat) then None else zs.*1 !! 0%nat;
  ok_prev : ∀ j x, zs.*1 !! j = Some x → dl_prev <$> q_nodes c !! x = Some (pending_pf zs z j)
}.

(** The nodes are blocks of the heap. *)
Definition nodes_live c : Prop :=
  heap_ok (q_heap c) ∧ ∀ x, is_Some (q_nodes c !! x) → x ∈ heap_live (q_heap c).

Definition alone_conf (frees : Prop) (fuel : nat) c : q_conf D :=
  QConf 1 (heap_live (q_heap c) ∖ dom (q_nodes c)) (λ q h, (length q <= fuel)%nat ∧ h = []) frees.
Definition alone_ghost c zs : q_ghost D :=
  QGhost zs [] (gset_to_gmap 0%nat (dom (q_nodes c) ∖ list_to_set zs.*1)).

Lemma alone_owner c zs x t :
  g_owner (alone_ghost c zs) !! x = Some t ↔ is_Some (q_nodes c !! x) ∧ x ∉ zs.*1 ∧ t = 0%nat.
Proof.
  simpl. rewrite lookup_gset_to_gmap_Some, elem_of_difference, elem_of_dom, elem_of_list_to_set. naive_solver.
Qed.

Lemma alone_pending frees fuel c zs z :
  mpsc_ok c zs z → nodes_live c → (length zs <= fuel)%nat →
  (frees → ∀ x, is_Some (q_nodes c !! x) → x ∈ zs.*1) →
  pending (alone_conf frees fuel c) None zs z [] c (alone_ghost c zs).
Proof.
  intros [Hr Hz Ht Hh Hp] [Hok Hlive] Hf Hfrees. split; [done|]. split.
  - split; [|split; [done|split; [done|split; [done|]]]].
    + split; simpl; try done.
      * intros x Hx. destruct (_ !! x) as [t|] eqn:Hy; [|done]. by apply (alone_owner c zs) in Hy as (_ & ? & _).
      * intros x t (Hx & _ & ->)%(alone_owner c zs). split; [lia|done].
      * intros x. rewrite elem_of_difference, elem_of_dom. destruct (q_nodes c !! x) eqn:Hx; [|naive_solver].
        split; [intros _; right; by eexists|]. intros _. apply Hlive. by eexists.
      * intros x [_ Hx]%elem_of_difference. by apply not_elem_of_dom.
      * intros x Hx. destruct (decide (x ∈ zs.*1)); [by left|right]. exists 0%nat. by apply (alone_owner c zs).
      * lia.
    + exists []. simpl. rewrite app_nil_r. split; [done|]. split; [done|]. intros x Hx. by apply elem_of_nil in Hx.
  - split; [done|]. intros HF x (Hx & Hn & _)%(alone_owner c zs). by destruct (Hn (Hfrees HF x Hx)).
Qed.

Lemma pending_alone frees fuel c0 o zs z h c g :
  pending (alone_conf frees fuel c0) o zs z h c g → h = [] ∧ mpsc_ok c zs z.
Proof.
  intros [Hz [(Hi & Ht & Hh & Hp & new & Hq & Hpu & _) _]].
  destruct (inv_known _ _ _ Hi) as [_ Hnil]. rewrite Hpu in Hnil.
  apply app_eq_nil in Hnil as [-> ->]. simpl in Hq. rewrite app_nil_r in Hq. split; [done|].
  split; try done. rewrite <- Hq. apply Hi.
Qed.

(** What a consumer that runs alone computes follows from its specification. *)
Lemma consumer_alone {A : Type} (cf : q_conf D) (p : prog (mpsc D) A) Q c g :
  rg False False False (q_rely cf 0) (q_guar cf 0) p Q c g →
  ∃ a c' g', run p c = Ret (Some a, c') ∧ Q a c' g'.
Proof. intros H. eapply rg_run; [..|exact H]; [tauto|tauto|tauto|]. intros s. reflexivity. Qed.

(** The loop of [is_inserted], from position [j] on. *)
Lemma search_rg cf sok fuel node j zs h c g :
  (length zs - j < fuel)%nat → built cf None zs h c g →
  rg False sok False (q_rely cf 0) (q_guar cf 0)
    (foreach_from fuel (λ x, read (prev_cell x)) (search_body node) (zs.*1 !! j) false)
    (λ r c g, r = bool_decide (node ∈ drop j zs.*1) ∧ built cf None zs h c g) c g.
Proof.
  revert j c g. induction fuel as [|fuel IH]; intros j c g Hf HK; [lia|]. unfold built in HK. cbn [foreach_from].
  destruct (zs.*1 !! j) as [x|] eqn:Hx.
  - change (search_body node x false) with
      (if decide (x = node) then Done (true, true) else Done (false, false) : prog (mpsc D) (bool * bool)).
    rewrite (drop_S _ _ _ Hx). pose proof (lookup_lt_Some _ _ _ Hx) as Hlt. rewrite length_fmap in Hlt.
    destruct (decide (x = node)) as [->|Hne].
    + rg_bind. eapply (consumer_done cf sok False); [exact HK|]. clear c g HK. intros c g HK.
      eapply (consumer_done cf sok False); [exact HK|]. intros c' g' HK'. split; [|done].
      symmetry. apply bool_decide_eq_true_2. by left.
    + rg_bind. eapply (consumer_done cf sok False); [exact HK|]. clear c g HK. intros c g HK. destruct (list_lookup_fmap_Some_1 fst zs j x Hx) as ([x' d] & [= <-] & Hxd).
      eapply read_seen; [exact HK|exact Hxd|]. clear c g HK. intros c g HK. cbn [dl_prev].
      unfold built_pf at 1. eapply rg_mono; [|apply IH; [lia|exact HK]]. intros r c' g' [-> HK']. split; [|done].
      apply bool_decide_ext. rewrite elem_of_cons. naive_solver.
  - eapply (consumer_done cf sok False); [exact HK|]. intros c' g' HK'. split; [|done].
    apply lookup_ge_None in Hx. rewrite drop_ge by done. symmetry. apply bool_decide_eq_false_2, not_elem_of_nil.
Qed.
End alone.

Section mpsciq_alone.
Context (fuel : nat) (c : mpsc unit) (zs : list (loc * unit)) (z : nat).
Context (Hok : mpsc_ok c zs z) (Hlive : nodes_live c) (Hfuel : (length zs < fuel)%nat).

Lemma alone_start : pending (alone_conf False fuel c) None zs z [] c (alone_ghost c zs).
Proof using Hok Hlive Hfuel. apply alone_pending; [done|done|lia|by intros []]. Qed.

Lemma alone_fuel : False ∨ ∀ q h, cf_known (alone_conf False fuel c) q h → (length q <= fuel)%nat.
Proof. right. by intros q h [? _]. Qed.

Lemma alone_down {D} (frees : Prop) (c0 : mpsc D) q h i :
  cf_known (alone_conf frees fuel c0) q h → cf_known (alone_conf frees fuel c0) (delete i q) h.
Proof.
  intros [Hq Hh]. split; [|done]. etransitivity; [|exact Hq]. apply sublist_length, sublist_delete.
Qed.

Lemma mpsciq_begin_alone :
  ∃ c', run (prs_mpsciq_begin fuel) c = Ret (Some (zs.*1 !! 0%nat), c') ∧ mpsc_ok c' zs (length zs).
Proof using Hok Hlive Hfuel.
  destruct (consumer_alone (alone_conf False fuel c) (prs_mpsciq_begin fuel) _ c (alone_ghost c zs)
    (q_begin_rg _ _ _ _ alone_fuel _ _ _ _ _ _ alone_start)) as (r & c' & g' & Hrun & new & -> & HK).
  apply built_pending in HK. destruct (pending_alone _ _ _ _ _ _ _ _ _ HK) as [Hnil Hok'].
  apply app_eq_nil in Hnil as [_ ->]. simpl in *. rewrite app_nil_r in *. eauto.
Qed.

Lemma mpsciq_remove_alone i x :
  zs !! i = Some (x, tt) →
  ∃ c' z', run (prs_mpsciq_remove fuel x) c = Ret (Some tt, c') ∧ mpsc_ok c' (delete i zs) z' ∧
    q_nodes c' !! x = Some (DlNode None None tt).
Proof using Hok Hlive Hfuel.
  intros Hx.
  destruct (consumer_alone (alone_conf False fuel c) (prs_mpsciq_remove fuel x) _ c (alone_ghost c zs)
    (mpsciq_remove_rg _ _ _ _ alone_fuel (alone_down False c) _ _ _ _ _ _ _ alone_start Hx))
    as ([] & c' & g' & Hrun & new & z' & HK).
  destruct (pending_alone _ _ _ _ _ _ _ _ _ HK) as [Hnil Hok']. apply app_eq_nil in Hnil as [_ ->].
  simpl in *. rewrite app_nil_r in *. destruct HK as [_ [_ [[_ Hn] _]]]. eauto 6.
Qed.

Lemma mpsciq_is_inserted_alone x :
  ∃ c', run (prs_mpsciq_is_inserted fuel x) c = Ret (Some (bool_decide (x ∈ zs.*1)), c') ∧
    mpsc_ok c' zs (length zs).
Proof using Hok Hlive Hfuel.
  unfold prs_mpsciq_is_inserted, prs_mpsciq_foreach. rewrite run_bind.
  destruct (consumer_alone (alone_conf False fuel c) (prs_mpsciq_begin fuel) _ c (alone_ghost c zs)
    (q_begin_rg _ _ _ _ alone_fuel _ _ _ _ _ _ alone_start)) as (r & c1 & g1 & Hrun & new & -> & HK).
  rewrite Hrun. ocbn. pose proof HK as HK'. apply built_pending in HK'.
  destruct (pending_alone _ _ _ _ _ _ _ _ _ HK') as [Hnil _].
  apply app_eq_nil in Hnil as [_ ->]. simpl in HK |- *. rewrite app_nil_r in HK |- *.
  destruct (consumer_alone (alone_conf False fuel c) (foreach_from fuel prs_mpsciq_next (search_body x) (zs.*1 !! 0%nat) false) _ c1 g1
    (search_rg _ False fuel x 0 zs [] c1 g1 ltac:(lia) HK)) as (r & c2 & g2 & Hrun2 & -> & HK2).
  exists c2. split; [exact Hrun2|]. apply built_pending in HK2. by destruct (pending_alone _ _ _ _ _ _ _ _ _ HK2).
Qed.

Lemma mpsciq_push_alone x :
  q_nodes c !! x = Some (DlNode None None tt) → x ∉ zs.*1 →
  ∃ c', run (prs_mpsciq_push fuel x) c = Ret (Some tt, c') ∧ mpsc_ok c' (zs ++ [(x, tt)]) z.
Proof using Hok Hfuel.
  intros Hx Hnew. set (ns := <[x := DlNode (q_head c) None tt]> (q_nodes c)).
  exists (with_head (Some x) (with_nodes ns c)). destruct fuel as [|n]; [lia|]. split.
  - unfold prs_mpsciq_push. rewrite run_bind, (run_load _ _ None) by (cbn; by rewrite Hx). ocbn.
    rewrite decide_False by (intros H; by apply H).
    rewrite run_bind, (run_load _ _ None) by (cbn; by rewrite Hx). ocbn.
    rewrite decide_False by (intros H; by apply H).
    rewrite run_bind, (run_load _ _ (q_head c)) by done. ocbn.
    rewrite run_bind, (run_store _ _ _ (with_nodes ns c)) by (cbn; by rewrite Hx). ocbn. cbn [push_loop].
    rewrite run_bind, (run_load _ _ (q_head c)) by (cbn; unfold ns; by rewrite lookup_insert_eq). ocbn.
    rewrite run_bind. cbn. by rewrite decide_True.
  - destruct Hok as [Hr Hz Ht Hh Hp]. split; simpl.
    + apply (push_rep (with_nodes ns c)); [|unfold ns; simpl; by rewrite lookup_insert_eq|done].
      eapply queue_rep_kept; [exact Hr|done|]. apply nodes_kept_eq. intros y Hy. simpl. unfold ns.
      rewrite lookup_insert_ne; [done|]. by intros ->.
    + rewrite length_app. lia.
    + rewrite fmap_app, before_pos_app by (rewrite length_fmap; lia). done.
    + rewrite Hh, fmap_app. case_decide; [done|]. rewrite lookup_app_l; [done|]. rewrite length_fmap. lia.
    + intros j y Hy. unfold ns. rewrite fmap_app in Hy. unfold pending_pf. rewrite fmap_app.
      apply lookup_app_Some in Hy as [Hy|[Hj Hy]].
      * rewrite lookup_insert_ne by (intros ->; apply Hnew; by eapply list_elem_of_lookup_2).
        rewrite (Hp j y Hy). unfold pending_pf. destruct (decide (S j < z)%nat); [|done].
        by rewrite lookup_app_l by (rewrite length_fmap; lia).
      * apply list_lookup_singleton_Some in Hy as [_ <-]. rewrite length_fmap in Hj.
        rewrite lookup_insert_eq, decide_False by lia. done.
Qed.
End mpsciq_alone.

(** For a consumer that is alone with an intrusive queue of at most [fuel] nodes, all
    loops end: [begin] returns the oldest node, [remove] takes out the given node,
    wherever it is, and leaves it with null links, [push] adds a node at the end, and
    [is_inserted] tells whether a node is in the queue; all of them whatever part of
    the reverse links has been built so far. *)
Lemma mpsciq_alone_exact (fuel : nat) (c : mpsc unit) (zs : list (loc * unit)) (z : nat) :
  mpsc_ok c zs z → nodes_live c → (length zs < fuel)%nat →
  (∃ c', run (prs_mpsciq_begin fuel) c = Ret (Some (zs.*1 !! 0%nat), c') ∧ mpsc_ok c' zs (length zs)) ∧
  (∀ i x, zs !! i = Some (x, tt) →
    ∃ c' z', run (prs_mpsciq_remove fuel x) c = Ret (Some tt, c') ∧ mpsc_ok c' (delete i zs) z' ∧
      q_nodes c' !! x = Some (DlNode None None tt)) ∧
  (∀ x, q_nodes c !! x = Some (DlNode None None tt) → x ∉ zs.*1 →
    ∃ c', run (prs_mpsciq_push fuel x) c = Ret (Some tt, c') ∧ mpsc_ok c' (zs ++ [(x, tt)]) z) ∧
  (∀ x, ∃ c', run (prs_mpsciq_is_inserted fuel x) c = Ret (Some (bool_decide (x ∈ zs.*1)), c') ∧
    mpsc_ok c' zs (length zs)).
Proof.
  intros Hok Hlive Hfuel. split; [by eapply mpsciq_begin_alone|]. split; [|split].
  - intros i x. by eapply mpsciq_remove_alone.
  - intros x. by apply mpsciq_push_alone.
  - intros x. by eapply mpsciq_is_inserted_alone.
Qed.

(** A queue of two nodes, 2 being the oldest, with no reverse links. *)
Definition mpsciq_demo : mpsc unit :=
  Mpsc (Some 3%positive) None None
    {[ 2%positive := DlNode None None tt; 3%positive := DlNode (Some 2%positive) None tt ]}
    (Heap {[ 2%positive; 3%positive ]} []).
Definition mpsciq_demo_queue : list (loc * unit) := [(2%positive, tt); (3%positive, tt)].

Lemma mpsciq_demo_ok : mpsc_ok mpsciq_demo mpsciq_demo_queue 0.
Proof.
  split; [split| | | |]; [repeat constructor; set_solver|done| |simpl; lia|done|done|].
  - intros [|[|i]] x d Hx; simplify_eq/=; eexists; split; [reflexivity|done|reflexivity|done].
  - intros [|[|i]] x Hx; simplify_eq/=; reflexivity.
Qed.

Lemma mpsciq_demo_live : nodes_live mpsciq_demo.
Proof.
  split; [split; [constructor|intros l Hl; by apply elem_of_nil in Hl]|].
  intros x [n Hn]. simpl in Hn. apply lookup_insert_Some in Hn as [[<- _]|[_ Hn]]; [set_solver|].
  apply lookup_singleton_Some in Hn as [<- _]. set_solver.
Qed.


Section mpscq_destroy.
Context (fuel : nat) (c0 : mpsc ptr).
Let cf := alone_conf True fuel c0.

Lemma clear_rg rounds zs c g :
  (length zs < rounds)%nat → (2 <= fuel)%nat → built cf None zs [] c g →
  rg False False False (q_rely cf 0) (q_guar cf 0) (prs_mpscq_clear rounds fuel (zs.*1 !! 0%nat))
    (λ _ c g, pending cf None [] 0 [] c g) c g.
Proof.
  assert (False ∨ ∀ q h, cf_known cf q h → (length q <= fuel)%nat) as Hfuel by (right; by intros q h [? _]).
  assert (∀ q h i, cf_known cf q h → cf_known cf (delete i q) h) as Hdown by by apply alone_down.
  revert zs c g. induction rounds as [|rounds IH]; intros zs c g Hr Hf HK; [lia|]. cbn [prs_mpscq_clear].
  apply built_pending in HK as Hp. destruct zs as [|[x d] zs]; cbn [fmap list_fmap lookup list_lookup fst].
  - intros c' g' HR. by eapply pending_rely.
  - rg_bind. eapply rg_mono; [|eapply (mpscq_remove_rg cf False False fuel Hfuel Hdown _ _ _ _ _ 0);
      [right; split; [tauto|done]|exact Hp|done]].
    clear c g HK Hp. intros u c g (new & z' & Hp). clear u.
    destruct (pending_alone _ _ _ _ _ _ _ _ _ Hp) as [Hnil _]. apply app_eq_nil in Hnil as [_ ->]. simpl in Hp.
    rewrite app_nil_r in Hp. rg_bind. eapply rg_mono; [|by eapply q_begin_rg]. clear c g Hp.
    intros r c g (new & -> & HK). apply built_pending in HK as Hp.
    destruct (pending_alone _ _ _ _ _ _ _ _ _ Hp) as [Hnil _]. apply app_eq_nil in Hnil as [_ ->].
    simpl in HK |- *. rewrite app_nil_r in HK |- *. apply IH; [simpl in Hr; lia|done|done].
Qed.

Lemma destroy_nodes c g :
  pending cf None [] 0 [] c g → q_nodes c = ∅ ∧ heap_live (q_heap c) = heap_live (q_heap c0) ∖ dom (q_nodes c0).
Proof.
  intros Hp. pose proof (pending_alone _ _ _ _ _ _ _ _ _ Hp) as [_ _].
  destruct Hp as [_ [(Hi & _ & _ & _ & new & Hq & Hpu & _) [_ He]]].
  destruct (inv_known _ _ _ Hi) as [_ Hnil]. rewrite Hnil in Hpu. symmetry in Hpu.
  apply app_eq_nil in Hpu as [_ ->]. simpl in Hq.
  assert (∀ x, q_nodes c !! x = None) as Hnone.
  { intros x. apply eq_None_not_Some. intros Hx. destruct (inv_nodes _ _ _ Hi x Hx) as [Hx1|[t Ht]].
    - rewrite Hq in Hx1. by apply elem_of_nil in Hx1.
    - destruct (inv_owned _ _ _ Hi x t Ht) as [Hlt _]. simpl in Hlt. assert (t = 0%nat) as -> by lia.
      by destruct (He I x Ht). }
  split; [by apply map_eq; intros x; rewrite Hnone, lookup_empty|].
  apply set_eq. intros x. rewrite (inv_live _ _ _ Hi), Hnone. simpl. split; [by intros [|[? ?]]|by left].
Qed.
End mpscq_destroy.

(** C31: [prs_mpscq_destroy] on a queue of any length, with any part of the reverse
    links built, ends and frees every node, each of them once, and the queue. *)
Theorem mpscq_destroy_exact (fuel : nat) (self : loc) (c : mpsc ptr) (zs : list (loc * ptr)) (z : nat) :
  mpsc_ok c zs z → nodes_live c → (∀ x, is_Some (q_nodes c !! x) → x ∈ zs.*1) →
  self ∈ heap_live (q_heap c) → q_nodes c !! self = None → (length zs < fuel)%nat → (2 <= fuel)%nat →
  ∃ c', run (prs_mpscq_destroy fuel self) c = Ret (Some tt, c') ∧ q_nodes c' = ∅ ∧
    heap_live (q_heap c') = heap_live (q_heap c) ∖ dom (q_nodes c) ∖ {[ self ]}.
Proof.
  intros Hok Hlive Honly Hself Hnot Hlen Hf. unfold prs_mpscq_destroy.
  set (cf := alone_conf True fuel c).
  assert (pending cf None zs z [] c (alone_ghost c zs)) as Hp by (apply alone_pending; [done..|lia|done]).
  assert (False ∨ ∀ q h, cf_known cf q h → (length q <= fuel)%nat) as Hfuel by (right; by intros q h [? _]).
  rewrite run_bind. destruct (consumer_alone cf (prs_mpscq_begin fuel) _ c (alone_ghost c zs)
    (q_begin_rg _ _ _ _ Hfuel _ _ _ _ _ _ Hp)) as (r & c1 & g1 & Hrun & new & -> & HK).
  rewrite Hrun. ocbn. clear Hrun. apply built_pending in HK as Hp1.
  destruct (pending_alone _ _ _ _ _ _ _ _ _ Hp1) as [Hnil _]. apply app_eq_nil in Hnil as [_ ->].
  rewrite fmap_nil, app_nil_r in HK |- *. rewrite run_bind.
  destruct (consumer_alone cf _ _ c1 g1 (clear_rg fuel c fuel zs c1 g1 Hlen Hf HK)) as ([] & c2 & g2 & Hrun & Hp2).
  rewrite Hrun. ocbn. destruct (destroy_nodes fuel c c2 g2 Hp2) as [Hn Hl]. eexists. split.
  - cbn [run act]. unfold prs_pal_free. rewrite free_live; [done|]. rewrite Hl. apply elem_of_difference.
    split; [done|]. by apply not_elem_of_dom.
  - simpl. by rewrite Hl.
Qed.

(** A queue of one node. *)
Definition mpscq_demo : mpsc ptr :=
  Mpsc (Some 2%positive) None None {[ 2%positive := DlNode None None (Some 7%positive) ]}
    (Heap {[ 1%positive; 2%positive ]} []).

Lemma mpscq_destroy_exact_witness :
  ∃ c', run (prs_mpscq_destroy 2 1%positive) mpscq_demo = Ret (Some tt, c') ∧ q_nodes c' = ∅ ∧
    heap_live (q_heap c') = heap_live (q_heap mpscq_demo) ∖ dom (q_nodes mpscq_demo) ∖ {[ 1%positive ]}.
Proof.
  apply (mpscq_destroy_exact 2 1 mpscq_demo [(2%positive, Some 7%positive)] 0).
  - split; [split| | | |]; [repeat constructor; set_solver|done| |simpl; lia|done|done|].
    + intros [|i] x d Hx; simplify_eq/=. eexists. split; [reflexivity|done].
    + intros [|i] x Hx; simplify_eq/=. reflexivity.
  - split; [split; [constructor|intros l Hl; by apply elem_of_nil in Hl]|].
    intros x [n Hn]. simpl in Hn. apply lookup_singleton_Some in Hn as [<- _]. set_solver.
  - intros x [n Hn]. simpl in Hn. apply lookup_singleton_Some in Hn as [<- _]. set_solver.
  - set_solver.
  - reflexivity.
  - simpl. lia.
  - lia.
Defined.

(** Two producers, and a consumer that removes twice the oldest node: the second
    producer pushes while the consumer is removing. *)
Definition mpsciq_demo_lists : list (list loc) := [[2%positive]; [3%positive]].
Definition mpsciq_demo_heap : heap := Heap {[ 2%positive; 3%positive ]} [].
Definition mpsciq_demo_threads : list (prog (mpsc unit) (list loc)) :=
  mpsciq_consumer 3 [0%nat; 0%nat] [] :: (mpsciq_producer 3 <$> mpsciq_demo_lists).
Definition mpsciq_demo_schedule : list (nat * bool) :=
  replicate 7 (1%nat, false) ++ replicate 7 (0%nat, false) ++ replicate 4 (2%nat, false) ++
  replicate 7 (0%nat, false) ++ replicate 7 (2%nat, false) ++ replicate 28 (0%nat, false).

Lemma mpsciq_demo_heap_ok :
  NoDup (concat mpsciq_demo_lists) ∧ heap_ok mpsciq_demo_heap ∧
  ∀ x, x ∈ concat mpsciq_demo_lists → x ∈ heap_live mpsciq_demo_heap.
Proof.
  split; [repeat constructor; set_solver|]. split; [split; [constructor|]|].
  - simpl. intros l Hl. by apply elem_of_nil in Hl.
  - simpl. intros x Hx. set_solver.
Qed.

Lemma mpsciq_interleavings_witness :
  ∃ c', pool_run mpsciq_demo_schedule (mpsciq_start mpsciq_demo_lists mpsciq_demo_heap, mpsciq_demo_threads) =
      Some (c', Done [2%positive; 3%positive] :: replicate 2 (Done [])) ∧
    q_result fst (Forall (λ i, i = 0%nat) [0%nat; 0%nat]) (λ _, True) c' [2%positive; 3%positive] mpsciq_demo_lists.
Proof.
  eexists.
  match goal with |- ?P ∧ _ => assert P as Hrun by (vm_compute; reflexivity) end.
  split; [exact Hrun|].
  destruct mpsciq_demo_heap_ok as (H1 & H2 & H3).
  exact (proj2 (mpsciq_interleavings 3 [0%nat; 0%nat] mpsciq_demo_lists mpsciq_demo_heap _ _ H1 H2 H3
    (pool_run_rtc _ _ _ Hrun)) [2%positive; 3%positive] eq_refl).
Defined.

(** Three pushes by two producers; memory runs out for the last one, and the
    consumer takes the oldest of the first two nodes. *)
Definition mpscq_demo_heap : heap := Heap ∅ [Some 2%positive; Some 3%positive; None].
Definition mpscq_demo_junk : dl_node ptr := DlNode (Some 9%positive) (Some 9%positive) None.
Definition mpscq_demo_datas : list (list ptr) := [[Some 7%positive]; [Some 8%positive; Some 9%positive]].
Definition mpscq_demo_threads : list (prog (mpsc ptr) (list ptr)) :=
  mpscq_consumer 3 [0%nat; 1%nat] [] :: ((λ ds, mpscq_producer 3 mpscq_demo_junk ds []) <$> mpscq_demo_datas).
Definition mpscq_demo_schedule : list (nat * bool) :=
  replicate 8 (1%nat, false) ++ replicate 7 (0%nat, false) ++ replicate 7 (2%nat, false) ++
  replicate 7 (0%nat, false) ++ replicate 6 (2%nat, false) ++ replicate 17 (0%nat, false).

Lemma mpscq_demo_heap_ok : heap_ok mpscq_demo_heap.
Proof. split; [repeat constructor; set_solver|]. simpl. intros l Hl. set_solver. Qed.

Lemma mpscq_interleavings_witness :
  ∃ c', pool_run mpscq_demo_schedule (mpscq_empty mpscq_demo_heap, mpscq_demo_threads) =
      Some (c', Done [Some 7%positive] :: (Done <$> [[Some 7%positive]; [Some 8%positive]])) ∧
    q_result snd (Forall (λ i, i = 0%nat) [0%nat; 1%nat]) (only_nodes_left mpscq_demo_heap c') c'
      [Some 7%positive] [[Some 7%positive]; [Some 8%positive]].
Proof.
  eexists.
  match goal with |- ?P ∧ _ => assert P as Hrun by (vm_compute; reflexivity) end.
  split; [exact Hrun|].
  exact (proj2 (mpscq_interleavings 3 [0%nat; 1%nat] mpscq_demo_junk mpscq_demo_datas mpscq_demo_heap _ _ mpscq_demo_heap_ok
    (pool_run_rtc _ _ _ Hrun)) [Some 7%positive] [[Some 7%positive]; [Some 8%positive]] eq_refl).
Defined.
