(* ===== verification/Kern.v ===== *)
(** * The kernel's shared memory

    The modules above the containers (tasks, events, workers, schedulers) share
    one memory.  This file declares its contents: the structures of the sources,
    stores of them by address, the object directory and the queues at the level
    of the contracts proved in God.v and Mpsc.v, and the calls made to the
    platform.  The functions of the modules are programs over this memory, so
    that they can be interleaved at every access. *)

From S2P Require Import Prelude Heap Atomic RefDir Pd.

(** ** Structures *)

(** The operations of an object ([struct prs_object_ops]), named by the table
    that holds them. *)
Inductive object_ops : Set :=
  | s_prs_task_object_ops
  | s_prs_worker_object_ops
  | s_prs_sched_object_ops
  | s_prs_sem_object_ops
  | s_prs_proc_object_ops.

(** [struct prs_task]; [name] is the contents of the array. *)
Record prs_task : Type := PrsTask {
  tk_id : Z;
  tk_name : list Z;
  tk_userdata : ptr;
  tk_stack : ptr;
  tk_stack_size : Z;
  tk_prio : Z;
  tk_proc_id : Z;
  tk_sched_id : Z;
  tk_sched_userdata : ptr;
  tk_state : Z;
  tk_context : ptr;
  tk_entry : ptr;
  tk_msgq : ptr
}.

(** [struct prs_event] *)
Record prs_event : Type := PrsEvent {
  ev_task_id : Z;
  ev_token : Z;
  ev_initial_refcnt : Z;
  ev_refcnt : Z
}.

(** [struct prs_worker]; [userdata] is the scheduler's structure for the worker. *)
Record prs_worker : Type := PrsWorker {
  wk_id : Z;
  wk_pal_thread : loc;
  wk_userdata : loc;
  wk_flags : Z;
  wk_current_task_id : Z;
  wk_current_task : ptr;
  wk_exit_context : ptr
}.

(** [struct prs_pal_thread]: what the kernel uses of it.  [th_signals] counts the
    interrupt signals sent to the thread. *)
Record prs_pal_thread : Type := PrsPalThread {
  th_from_current : bool;
  th_userdata : ptr;
  th_started : bool;
  th_exited : bool;
  th_idle_sem : Z;
  th_signals : nat
}.

(** [struct prs_sched_task_userdata] of both schedulers.  Its two queue nodes are
    known by the address of the structure: [prs_mpsciq_get_data] takes a node back
    to it. *)
Record prs_sched_task_userdata : Type := SchedTaskUserdata { ud_task : ptr }.

(** [struct prs_sched_swprio] *)
Record prs_sched_swprio : Type := PrsSchedSwprio {
  sp_ready_mask : Z;
  sp_readyq : list ptr;
  sp_removeq : ptr
}.

(** [struct prs_sched_swcoop] *)
Record prs_sched_swcoop : Type := PrsSchedSwcoop {
  sc_readyq : ptr;
  sc_removeq : ptr
}.

(** [struct prs_sched_worker]; [sched_data] is known by the address of its scheduler. *)
Record prs_sched_worker : Type := PrsSchedWorker {
  sw_sched : ptr;
  sw_sched_data : ptr;
  sw_worker : ptr
}.

(** The scheduling algorithms, named by the function that returns the table of
    their operations. *)
Inductive sched_impl : Set :=
  | prs_sched_swprio_ops
  | prs_sched_swcoop_ops.

(** [struct prs_sched]; its field [sched_data] is the last two. *)
Record prs_sched : Type := PrsSched {
  sd_id : Z;
  sd_name : list Z;
  sd_ops : sched_impl;
  sd_userdata : ptr;
  sd_workers : ptr
}.

(** [struct prs_spinlock] is the value of its lock.  [struct prs_clock]; its callback
    and userdata are never set. *)
Record prs_clock : Type := PrsClock {
  cl_pit : ptr;
  cl_timer : ptr;
  cl_spinlock : ptr
}.

(** The field that [offsetof] gives to a name resolver. *)
Inductive name_offset : Set :=
  | offsetof_task_name
  | offsetof_sched_name.

(** [struct prs_name]; its field [entries] is the address of the table and its
    contents; an entry ([struct prs_name_entry]) is the head of its list. *)
Record prs_name : Type := PrsName {
  nm_max_entries : Z;
  nm_string_offset : name_offset;
  nm_block : ptr;
  nm_entries : list ptr
}.

(** [struct prs_name_list_node] *)
Record prs_name_list_node : Type := PrsNameListNode {
  nn_next : ptr;
  nn_object_id : Z
}.

(** [struct prs_timer]; the table of lists by wheel and slot is flat.  The block is not
    zeroed when it is allocated: a pointer that has not been set has no value. *)
Record prs_timer : Type := PrsTimer {
  tm_lists : list (option ptr);
  tm_tmp_list : option ptr;
  tm_pool : option ptr;
  tm_queued : option ptr;
  tm_now : Z
}.

(** [struct prs_timer_entry], with its count of references in the pool: none when the
    entry is allocated and not yet locked. *)
Record prs_timer_entry : Type := PrsTimerEntry {
  te_start : Z;
  te_end : Z;
  te_event : ptr;
  te_event_type : Z;
  te_refcnt : option nat
}.

(** [struct prs_sem] *)
Record prs_sem : Type := PrsSem {
  sm_id : Z;
  sm_max_count : Z;
  sm_count : Z;
  sm_waitq : ptr
}.

(** [struct prs_msgq_filter]; the function is known by its address. *)
Record prs_msgq_filter : Type := PrsMsgqFilter {
  fl_id : Z;
  fl_event : ptr;
  fl_userdata : ptr;
  fl_userdata_size : Z;
  fl_function : ptr
}.

(** [struct prs_msgq] *)
Record prs_msgq : Type := PrsMsgq {
  mq_queue : ptr;
  mq_pd : ptr;
  mq_filter_id : Z
}.

(** The payload of a message: those of the process service (prs/svc/proc.msg), and the
    others with their ID and what follows it. *)
Inductive pr_msg : Type :=
  | MsgOther (id : Z) (payload : list Z)
  | ExecRequest (filename cmdline : list Z) (task_name : list Z) (userdata : ptr) (stack_size prio : Z) (entry : ptr)
      (sched_id : Z)
  | ExecResponse (proc_id : Z)
  | KillRequest (proc_id : Z) (respond : bool)
  | KillResponse (proc_id : Z)
  | UnregObjectRequest (proc_id object_id : Z) (respond : bool)
  | UnregObjectResponse (proc_id object_id : Z).

(** [struct prs_msg]; its node is known by the address of the message, [mg_size] is the
    room for its payload. *)
Record prs_msg : Type := PrsMsg {
  mg_owner : Z;
  mg_sender : Z;
  mg_size : Z;
  mg_data : pr_msg
}.

(** [struct prs_proc]; its node is known by the address of the process.  The fields
    [argc] and [argv] are those of [main_params]; a pointer of the table [argv] is the
    offset of the byte it points to in the buffer of the command line. *)
Record prs_proc : Type := PrsProc {
  pc_id : Z;
  pc_filename : list Z;
  pc_argc : Z;
  pc_argv : ptr;
  pc_pal_proc : ptr;
  pc_cmdline_buffer : ptr;
  pc_main_task : ptr;
  pc_range_table_index : Z;
  pc_objects : ptr;
  pc_atexit_callbacks : ptr;
  pc_destroyed : bool
}.

(** [struct prs_proc_data]; a range ([struct prs_proc_range]) is its base and its size. *)
Record prs_proc_data : Type := PrsProcData {
  pd_list : ptr;
  pd_range_table : list (Z * Z);
  pd_range_table_count : Z
}.

(** ** The memory

    [k_ids] are the IDs the object directory will give, [k_objs] the objects with
    their reference counts, [k_pal] the calls made to the platform on register
    contexts, threads and thread-local data, in order. *)

Inductive pal_call : Set :=
  | ContextSwap (save load : ptr)
  | ContextAdd (context worker : loc)
  | WlsWorkerInit (worker : loc)
  | WlsSet (worker : loc)
  | WlsWorkerUninit (worker : loc)
  | ExcpInitWorker (worker : loc)
  | ExcpUninitWorker (worker : loc)
  | ThreadLocalInit (thread : loc)
  | ContextCopy (to from : ptr)
  | SignalChain (context : loc).

(** The memory of the modules that only the application reaches: [k_bags] are the queues
    of mpmcq.c, [k_gpd] the global pointer directory with [k_gpd_ids] its next answers,
    [k_blocks] the blocks of plain bytes, [k_mpscqs] the queues of mpscq.c as their nodes
    with what they hold, [k_argvs] the tables of arguments; [k_proc_data] and [k_excp] are
    the static pointers of proc.c and excp.c. *)

Record mods : Type := Mods {
  md_sems : gmap loc prs_sem;
  md_bags : gmap loc (list loc);
  md_gpd : gmap Z (nat * loc);
  md_gpd_ids : list (option Z);
  md_msgqs : gmap loc prs_msgq;
  md_filters : gmap loc prs_msgq_filter;
  md_msgs : gmap loc prs_msg;
  md_blocks : gmap loc (list Z);
  md_mpscqs : gmap loc (list (loc * loc));
  md_procs : gmap loc prs_proc;
  md_argvs : gmap loc (list (option Z));
  md_proc_objects : gmap loc Z;
  md_proc_datas : gmap loc prs_proc_data;
  md_proc_data : ptr;
  md_excps : gmap loc ptr;
  md_excp : ptr
}.

Record kern : Type := Kern {
  k_heap : heap;
  k_ids : list Z;
  k_objs : gmap Z (nat * (loc * object_ops));
  k_tasks : gmap loc prs_task;
  k_events : gmap loc prs_event;
  k_workers : gmap loc prs_worker;
  k_threads : gmap loc prs_pal_thread;
  k_uds : gmap loc prs_sched_task_userdata;
  k_swprio : gmap loc prs_sched_swprio;
  k_swcoop : gmap loc prs_sched_swcoop;
  k_sched_workers : gmap loc prs_sched_worker;
  k_scheds : gmap loc prs_sched;
  k_queues : gmap loc (list loc);
  k_dllists : gmap loc (list (loc * loc));
  k_pal : list pal_call;
  k_spinlocks : gmap loc bool;
  k_ticks : Z;
  k_clocks : gmap loc prs_clock;
  k_clock : ptr;
  k_names : gmap loc prs_name;
  k_name_nodes : gmap loc prs_name_list_node;
  k_task_name : ptr;
  k_sched_name : ptr;
  k_idllists : gmap loc (list loc);
  k_pools : gmap loc (list ptr);
  k_timers : gmap loc prs_timer;
  k_timer_entries : gmap loc prs_timer_entry;
  k_mods : mods
}.

Definition with_heap (v : heap) (c : kern) : kern :=
  Kern v (k_ids c) (k_objs c) (k_tasks c) (k_events c) (k_workers c) (k_threads c) (k_uds c)
    (k_swprio c) (k_swcoop c) (k_sched_workers c) (k_scheds c) (k_queues c) (k_dllists c)
    (k_pal c) (k_spinlocks c) (k_ticks c) (k_clocks c) (k_clock c) (k_names c) (k_name_nodes
    c) (k_task_name c) (k_sched_name c) (k_idllists c) (k_pools c) (k_timers c)
    (k_timer_entries c) (k_mods c).
Definition with_ids (v : list Z) (c : kern) : kern :=
  Kern (k_heap c) v (k_objs c) (k_tasks c) (k_events c) (k_workers c) (k_threads c) (k_uds
    c) (k_swprio c) (k_swcoop c) (k_sched_workers c) (k_scheds c) (k_queues c) (k_dllists c)
    (k_pal c) (k_spinlocks c) (k_ticks c) (k_clocks c) (k_clock c) (k_names c) (k_name_nodes
    c) (k_task_name c) (k_sched_name c) (k_idllists c) (k_pools c) (k_timers c)
    (k_timer_entries c) (k_mods c).
Definition with_objs (v : gmap Z (nat * (loc * object_ops))) (c : kern) : kern :=
  Kern (k_heap c) (k_ids c) v (k_tasks c) (k_events c) (k_workers c) (k_threads c) (k_uds c)
    (k_swprio c) (k_swcoop c) (k_sched_workers c) (k_scheds c) (k_queues c) (k_dllists c)
    (k_pal c) (k_spinlocks c) (k_ticks c) (k_clocks c) (k_clock c) (k_names c) (k_name_nodes
    c) (k_task_name c) (k_sched_name c) (k_idllists c) (k_pools c) (k_timers c)
    (k_timer_entries c) (k_mods c).
Definition with_tasks (v : gmap loc prs_task) (c : kern) : kern :=
  Kern (k_heap c) (k_ids c) (k_objs c) v (k_events c) (k_workers c) (k_threads c) (k_uds c)
    (k_swprio c) (k_swcoop c) (k_sched_workers c) (k_scheds c) (k_queues c) (k_dllists c)
    (k_pal c) (k_spinlocks c) (k_ticks c) (k_clocks c) (k_clock c) (k_names c) (k_name_nodes
    c) (k_task_name c) (k_sched_name c) (k_idllists c) (k_pools c) (k_timers c)
    (k_timer_entries c) (k_mods c).
Definition with_events (v : gmap loc prs_event) (c : kern) : kern :=
  Kern (k_heap c) (k_ids c) (k_objs c) (k_tasks c) v (k_workers c) (k_threads c) (k_uds c)
    (k_swprio c) (k_swcoop c) (k_sched_workers c) (k_scheds c) (k_queues c) (k_dllists c)
    (k_pal c) (k_spinlocks c) (k_ticks c) (k_clocks c) (k_clock c) (k_names c) (k_name_nodes
    c) (k_task_name c) (k_sched_name c) (k_idllists c) (k_pools c) (k_timers c)
    (k_timer_entries c) (k_mods c).
Definition with_workers (v : gmap loc prs_worker) (c : kern) : kern :=
  Kern (k_heap c) (k_ids c) (k_objs c) (k_tasks c) (k_events c) v (k_threads c) (k_uds c)
    (k_swprio c) (k_swcoop c) (k_sched_workers c) (k_scheds c) (k_queues c) (k_dllists c)
    (k_pal c) (k_spinlocks c) (k_ticks c) (k_clocks c) (k_clock c) (k_names c) (k_name_nodes
    c) (k_task_name c) (k_sched_name c) (k_idllists c) (k_pools c) (k_timers c)
    (k_timer_entries c) (k_mods c).
Definition with_threads (v : gmap loc prs_pal_thread) (c : kern) : kern :=
  Kern (k_heap c) (k_ids c) (k_objs c) (k_tasks c) (k_events c) (k_workers c) v (k_uds c)
    (k_swprio c) (k_swcoop c) (k_sched_workers c) (k_scheds c) (k_queues c) (k_dllists c)
    (k_pal c) (k_spinlocks c) (k_ticks c) (k_clocks c) (k_clock c) (k_names c) (k_name_nodes
    c) (k_task_name c) (k_sched_name c) (k_idllists c) (k_pools c) (k_timers c)
    (k_timer_entries c) (k_mods c).
Definition with_uds (v : gmap loc prs_sched_task_userdata) (c : kern) : kern :=
  Kern (k_heap c) (k_ids c) (k_objs c) (k_tasks c) (k_events c) (k_workers c) (k_threads c)
    v (k_swprio c) (k_swcoop c) (k_sched_workers c) (k_scheds c) (k_queues c) (k_dllists c)
    (k_pal c) (k_spinlocks c) (k_ticks c) (k_clocks c) (k_clock c) (k_names c) (k_name_nodes
    c) (k_task_name c) (k_sched_name c) (k_idllists c) (k_pools c) (k_timers c)
    (k_timer_entries c) (k_mods c).
Definition with_swprio (v : gmap loc prs_sched_swprio) (c : kern) : kern :=
  Kern (k_heap c) (k_ids c) (k_objs c) (k_tasks c) (k_events c) (k_workers c) (k_threads c)
    (k_uds c) v (k_swcoop c) (k_sched_workers c) (k_scheds c) (k_queues c) (k_dllists c)
    (k_pal c) (k_spinlocks c) (k_ticks c) (k_clocks c) (k_clock c) (k_names c) (k_name_nodes
    c) (k_task_name c) (k_sched_name c) (k_idllists c) (k_pools c) (k_timers c)
    (k_timer_entries c) (k_mods c).
Definition with_swcoop (v : gmap loc prs_sched_swcoop) (c : kern) : kern :=
  Kern (k_heap c) (k_ids c) (k_objs c) (k_tasks c) (k_events c) (k_workers c) (k_threads c)
    (k_uds c) (k_swprio c) v (k_sched_workers c) (k_scheds c) (k_queues c) (k_dllists c)
    (k_pal c) (k_spinlocks c) (k_ticks c) (k_clocks c) (k_clock c) (k_names c) (k_name_nodes
    c) (k_task_name c) (k_sched_name c) (k_idllists c) (k_pools c) (k_timers c)
    (k_timer_entries c) (k_mods c).
Definition with_sched_workers (v : gmap loc prs_sched_worker) (c : kern) : kern :=
  Kern (k_heap c) (k_ids c) (k_objs c) (k_tasks c) (k_events c) (k_workers c) (k_threads c)
    (k_uds c) (k_swprio c) (k_swcoop c) v (k_scheds c) (k_queues c) (k_dllists c) (k_pal c)
    (k_spinlocks c) (k_ticks c) (k_clocks c) (k_clock c) (k_names c) (k_name_nodes c)
    (k_task_name c) (k_sched_name c) (k_idllists c) (k_pools c) (k_timers c)
    (k_timer_entries c) (k_mods c).
Definition with_scheds (v : gmap loc prs_sched) (c : kern) : kern :=
  Kern (k_heap c) (k_ids c) (k_objs c) (k_tasks c) (k_events c) (k_workers c) (k_threads c)
    (k_uds c) (k_swprio c) (k_swcoop c) (k_sched_workers c) v (k_queues c) (k_dllists c)
    (k_pal c) (k_spinlocks c) (k_ticks c) (k_clocks c) (k_clock c) (k_names c) (k_name_nodes
    c) (k_task_name c) (k_sched_name c) (k_idllists c) (k_pools c) (k_timers c)
    (k_timer_entries c) (k_mods c).
Definition with_queues (v : gmap loc (list loc)) (c : kern) : kern :=
  Kern (k_heap c) (k_ids c) (k_objs c) (k_tasks c) (k_events c) (k_workers c) (k_threads c)
    (k_uds c) (k_swprio c) (k_swcoop c) (k_sched_workers c) (k_scheds c) v (k_dllists c)
    (k_pal c) (k_spinlocks c) (k_ticks c) (k_clocks c) (k_clock c) (k_names c) (k_name_nodes
    c) (k_task_name c) (k_sched_name c) (k_idllists c) (k_pools c) (k_timers c)
    (k_timer_entries c) (k_mods c).
Definition with_dllists (v : gmap loc (list (loc * loc))) (c : kern) : kern :=
  Kern (k_heap c) (k_ids c) (k_objs c) (k_tasks c) (k_events c) (k_workers c) (k_threads c)
    (k_uds c) (k_swprio c) (k_swcoop c) (k_sched_workers c) (k_scheds c) (k_queues c) v
    (k_pal c) (k_spinlocks c) (k_ticks c) (k_clocks c) (k_clock c) (k_names c) (k_name_nodes
    c) (k_task_name c) (k_sched_name c) (k_idllists c) (k_pools c) (k_timers c)
    (k_timer_entries c) (k_mods c).
Definition with_pal (v : list pal_call) (c : kern) : kern :=
  Kern (k_heap c) (k_ids c) (k_objs c) (k_tasks c) (k_events c) (k_workers c) (k_threads c)
    (k_uds c) (k_swprio c) (k_swcoop c) (k_sched_workers c) (k_scheds c) (k_queues c)
    (k_dllists c) v (k_spinlocks c) (k_ticks c) (k_clocks c) (k_clock c) (k_names c)
    (k_name_nodes c) (k_task_name c) (k_sched_name c) (k_idllists c) (k_pools c) (k_timers
    c) (k_timer_entries c) (k_mods c).
Definition with_spinlocks (v : gmap loc bool) (c : kern) : kern :=
  Kern (k_heap c) (k_ids c) (k_objs c) (k_tasks c) (k_events c) (k_workers c) (k_threads c)
    (k_uds c) (k_swprio c) (k_swcoop c) (k_sched_workers c) (k_scheds c) (k_queues c)
    (k_dllists c) (k_pal c) v (k_ticks c) (k_clocks c) (k_clock c) (k_names c) (k_name_nodes
    c) (k_task_name c) (k_sched_name c) (k_idllists c) (k_pools c) (k_timers c)
    (k_timer_entries c) (k_mods c).
Definition with_ticks (v : Z) (c : kern) : kern :=
  Kern (k_heap c) (k_ids c) (k_objs c) (k_tasks c) (k_events c) (k_workers c) (k_threads c)
    (k_uds c) (k_swprio c) (k_swcoop c) (k_sched_workers c) (k_scheds c) (k_queues c)
    (k_dllists c) (k_pal c) (k_spinlocks c) v (k_clocks c) (k_clock c) (k_names c)
    (k_name_nodes c) (k_task_name c) (k_sched_name c) (k_idllists c) (k_pools c) (k_timers
    c) (k_timer_entries c) (k_mods c).
Definition with_clocks (v : gmap loc prs_clock) (c : kern) : kern :=
  Kern (k_heap c) (k_ids c) (k_objs c) (k_tasks c) (k_events c) (k_workers c) (k_threads c)
    (k_uds c) (k_swprio c) (k_swcoop c) (k_sched_workers c) (k_scheds c) (k_queues c)
    (k_dllists c) (k_pal c) (k_spinlocks c) (k_ticks c) v (k_clock c) (k_names c)
    (k_name_nodes c) (k_task_name c) (k_sched_name c) (k_idllists c) (k_pools c) (k_timers
    c) (k_timer_entries c) (k_mods c).
Definition with_clock (v : ptr) (c : kern) : kern :=
  Kern (k_heap c) (k_ids c) (k_objs c) (k_tasks c) (k_events c) (k_workers c) (k_threads c)
    (k_uds c) (k_swprio c) (k_swcoop c) (k_sched_workers c) (k_scheds c) (k_queues c)
    (k_dllists c) (k_pal c) (k_spinlocks c) (k_ticks c) (k_clocks c) v (k_names c)
    (k_name_nodes c) (k_task_name c) (k_sched_name c) (k_idllists c) (k_pools c) (k_timers
    c) (k_timer_entries c) (k_mods c).
Definition with_names (v : gmap loc prs_name) (c : kern) : kern :=
  Kern (k_heap c) (k_ids c) (k_objs c) (k_tasks c) (k_events c) (k_workers c) (k_threads c)
    (k_uds c) (k_swprio c) (k_swcoop c) (k_sched_workers c) (k_scheds c) (k_queues c)
    (k_dllists c) (k_pal c) (k_spinlocks c) (k_ticks c) (k_clocks c) (k_clock c) v
    (k_name_nodes c) (k_task_name c) (k_sched_name c) (k_idllists c) (k_pools c) (k_timers
    c) (k_timer_entries c) (k_mods c).
Definition with_name_nodes (v : gmap loc prs_name_list_node) (c : kern) : kern :=
  Kern (k_heap c) (k_ids c) (k_objs c) (k_tasks c) (k_events c) (k_workers c) (k_threads c)
    (k_uds c) (k_swprio c) (k_swcoop c) (k_sched_workers c) (k_scheds c) (k_queues c)
    (k_dllists c) (k_pal c) (k_spinlocks c) (k_ticks c) (k_clocks c) (k_clock c) (k_names c)
    v (k_task_name c) (k_sched_name c) (k_idllists c) (k_pools c) (k_timers c)
    (k_timer_entries c) (k_mods c).
Definition with_task_name (v : ptr) (c : kern) : kern :=
  Kern (k_heap c) (k_ids c) (k_objs c) (k_tasks c) (k_events c) (k_workers c) (k_threads c)
    (k_uds c) (k_swprio c) (k_swcoop c) (k_sched_workers c) (k_scheds c) (k_queues c)
    (k_dllists c) (k_pal c) (k_spinlocks c) (k_ticks c) (k_clocks c) (k_clock c) (k_names c)
    (k_name_nodes c) v (k_sched_name c) (k_idllists c) (k_pools c) (k_timers c)
    (k_timer_entries c) (k_mods c).
Definition with_sched_name (v : ptr) (c : kern) : kern :=
  Kern (k_heap c) (k_ids c) (k_objs c) (k_tasks c) (k_events c) (k_workers c) (k_threads c)
    (k_uds c) (k_swprio c) (k_swcoop c) (k_sched_workers c) (k_scheds c) (k_queues c)
    (k_dllists c) (k_pal c) (k_spinlocks c) (k_ticks c) (k_clocks c) (k_clock c) (k_names c)
    (k_name_nodes c) (k_task_name c) v (k_idllists c) (k_pools c) (k_timers c)
    (k_timer_entries c) (k_mods c).
Definition with_idllists (v : gmap loc (list loc)) (c : kern) : kern :=
  Kern (k_heap c) (k_ids c) (k_objs c) (k_tasks c) (k_events c) (k_workers c) (k_threads c)
    (k_uds c) (k_swprio c) (k_swcoop c) (k_sched_workers c) (k_scheds c) (k_queues c)
    (k_dllists c) (k_pal c) (k_spinlocks c) (k_ticks c) (k_clocks c) (k_clock c) (k_names c)
    (k_name_nodes c) (k_task_name c) (k_sched_name c) v (k_pools c) (k_timers c)
    (k_timer_entries c) (k_mods c).
Definition with_pools (v : gmap loc (list ptr)) (c : kern) : kern :=
  Kern (k_heap c) (k_ids c) (k_objs c) (k_tasks c) (k_events c) (k_workers c) (k_threads c)
    (k_uds c) (k_swprio c) (k_swcoop c) (k_sched_workers c) (k_scheds c) (k_queues c)
    (k_dllists c) (k_pal c) (k_spinlocks c) (k_ticks c) (k_clocks c) (k_clock c) (k_names c)
    (k_name_nodes c) (k_task_name c) (k_sched_name c) (k_idllists c) v (k_timers c)
    (k_timer_entries c) (k_mods c).
Definition with_timers (v : gmap loc prs_timer) (c : kern) : kern :=
  Kern (k_heap c) (k_ids c) (k_objs c) (k_tasks c) (k_events c) (k_workers c) (k_threads c)
    (k_uds c) (k_swprio c) (k_swcoop c) (k_sched_workers c) (k_scheds c) (k_queues c)
    (k_dllists c) (k_pal c) (k_spinlocks c) (k_ticks c) (k_clocks c) (k_clock c) (k_names c)
    (k_name_nodes c) (k_task_name c) (k_sched_name c) (k_idllists c) (k_pools c) v
    (k_timer_entries c) (k_mods c).
Definition with_timer_entries (v : gmap loc prs_timer_entry) (c : kern) : kern :=
  Kern (k_heap c) (k_ids c) (k_objs c) (k_tasks c) (k_events c) (k_workers c) (k_threads c)
    (k_uds c) (k_swprio c) (k_swcoop c) (k_sched_workers c) (k_scheds c) (k_queues c)
    (k_dllists c) (k_pal c) (k_spinlocks c) (k_ticks c) (k_clocks c) (k_clock c) (k_names c)
    (k_name_nodes c) (k_task_name c) (k_sched_name c) (k_idllists c) (k_pools c) (k_timers
    c) v (k_mods c).
Definition with_mods (v : mods) (c : kern) : kern :=
  Kern (k_heap c) (k_ids c) (k_objs c) (k_tasks c) (k_events c) (k_workers c) (k_threads c)
    (k_uds c) (k_swprio c) (k_swcoop c) (k_sched_workers c) (k_scheds c) (k_queues c)
    (k_dllists c) (k_pal c) (k_spinlocks c) (k_ticks c) (k_clocks c) (k_clock c) (k_names c)
    (k_name_nodes c) (k_task_name c) (k_sched_name c) (k_idllists c) (k_pools c) (k_timers
    c) (k_timer_entries c) v.
Definition k_sems (c : kern) : gmap loc prs_sem := md_sems (k_mods c).
Definition k_bags (c : kern) : gmap loc (list loc) := md_bags (k_mods c).
Definition k_gpd (c : kern) : gmap Z (nat * loc) := md_gpd (k_mods c).
Definition k_gpd_ids (c : kern) : list (option Z) := md_gpd_ids (k_mods c).
Definition k_msgqs (c : kern) : gmap loc prs_msgq := md_msgqs (k_mods c).
Definition k_filters (c : kern) : gmap loc prs_msgq_filter := md_filters (k_mods c).
Definition k_msgs (c : kern) : gmap loc prs_msg := md_msgs (k_mods c).
Definition k_blocks (c : kern) : gmap loc (list Z) := md_blocks (k_mods c).
Definition k_mpscqs (c : kern) : gmap loc (list (loc * loc)) := md_mpscqs (k_mods c).
Definition k_procs (c : kern) : gmap loc prs_proc := md_procs (k_mods c).
Definition k_argvs (c : kern) : gmap loc (list (option Z)) := md_argvs (k_mods c).
Definition k_proc_objects (c : kern) : gmap loc Z := md_proc_objects (k_mods c).
Definition k_proc_datas (c : kern) : gmap loc prs_proc_data := md_proc_datas (k_mods c).
Definition k_proc_data (c : kern) : ptr := md_proc_data (k_mods c).
Definition k_excps (c : kern) : gmap loc ptr := md_excps (k_mods c).
Definition k_excp (c : kern) : ptr := md_excp (k_mods c).

Definition with_sems (v : gmap loc prs_sem) (c : kern) : kern :=
  with_mods (Mods v (k_bags c) (k_gpd c) (k_gpd_ids c) (k_msgqs c) (k_filters c) (k_msgs c)
    (k_blocks c) (k_mpscqs c) (k_procs c) (k_argvs c) (k_proc_objects c) (k_proc_datas c)
    (k_proc_data c) (k_excps c) (k_excp c)) c.
Definition with_bags (v : gmap loc (list loc)) (c : kern) : kern :=
  with_mods (Mods (k_sems c) v (k_gpd c) (k_gpd_ids c) (k_msgqs c) (k_filters c) (k_msgs c)
    (k_blocks c) (k_mpscqs c) (k_procs c) (k_argvs c) (k_proc_objects c) (k_proc_datas c)
    (k_proc_data c) (k_excps c) (k_excp c)) c.
Definition with_gpd (v : gmap Z (nat * loc)) (c : kern) : kern :=
  with_mods (Mods (k_sems c) (k_bags c) v (k_gpd_ids c) (k_msgqs c) (k_filters c) (k_msgs c)
    (k_blocks c) (k_mpscqs c) (k_procs c) (k_argvs c) (k_proc_objects c) (k_proc_datas c)
    (k_proc_data c) (k_excps c) (k_excp c)) c.
Definition with_gpd_ids (v : list (option Z)) (c : kern) : kern :=
  with_mods (Mods (k_sems c) (k_bags c) (k_gpd c) v (k_msgqs c) (k_filters c) (k_msgs c)
    (k_blocks c) (k_mpscqs c) (k_procs c) (k_argvs c) (k_proc_objects c) (k_proc_datas c)
    (k_proc_data c) (k_excps c) (k_excp c)) c.
Definition with_msgqs (v : gmap loc prs_msgq) (c : kern) : kern :=
  with_mods (Mods (k_sems c) (k_bags c) (k_gpd c) (k_gpd_ids c) v (k_filters c) (k_msgs c)
    (k_blocks c) (k_mpscqs c) (k_procs c) (k_argvs c) (k_proc_objects c) (k_proc_datas c)
    (k_proc_data c) (k_excps c) (k_excp c)) c.
Definition with_filters (v : gmap loc prs_msgq_filter) (c : kern) : kern :=
  with_mods (Mods (k_sems c) (k_bags c) (k_gpd c) (k_gpd_ids c) (k_msgqs c) v (k_msgs c)
    (k_blocks c) (k_mpscqs c) (k_procs c) (k_argvs c) (k_proc_objects c) (k_proc_datas c)
    (k_proc_data c) (k_excps c) (k_excp c)) c.
Definition with_msgs (v : gmap loc prs_msg) (c : kern) : kern :=
  with_mods (Mods (k_sems c) (k_bags c) (k_gpd c) (k_gpd_ids c) (k_msgqs c) (k_filters c) v
    (k_blocks c) (k_mpscqs c) (k_procs c) (k_argvs c) (k_proc_objects c) (k_proc_datas c)
    (k_proc_data c) (k_excps c) (k_excp c)) c.
Definition with_blocks (v : gmap loc (list Z)) (c : kern) : kern :=
  with_mods (Mods (k_sems c) (k_bags c) (k_gpd c) (k_gpd_ids c) (k_msgqs c) (k_filters c)
    (k_msgs c) v (k_mpscqs c) (k_procs c) (k_argvs c) (k_proc_objects c) (k_proc_datas c)
    (k_proc_data c) (k_excps c) (k_excp c)) c.
Definition with_mpscqs (v : gmap loc (list (loc * loc))) (c : kern) : kern :=
  with_mods (Mods (k_sems c) (k_bags c) (k_gpd c) (k_gpd_ids c) (k_msgqs c) (k_filters c)
    (k_msgs c) (k_blocks c) v (k_procs c) (k_argvs c) (k_proc_objects c) (k_proc_datas c)
    (k_proc_data c) (k_excps c) (k_excp c)) c.
Definition with_procs (v : gmap loc prs_proc) (c : kern) : kern :=
  with_mods (Mods (k_sems c) (k_bags c) (k_gpd c) (k_gpd_ids c) (k_msgqs c) (k_filters c)
    (k_msgs c) (k_blocks c) (k_mpscqs c) v (k_argvs c) (k_proc_objects c) (k_proc_datas c)
    (k_proc_data c) (k_excps c) (k_excp c)) c.
Definition with_argvs (v : gmap loc (list (option Z))) (c : kern) : kern :=
  with_mods (Mods (k_sems c) (k_bags c) (k_gpd c) (k_gpd_ids c) (k_msgqs c) (k_filters c)
    (k_msgs c) (k_blocks c) (k_mpscqs c) (k_procs c) v (k_proc_objects c) (k_proc_datas c)
    (k_proc_data c) (k_excps c) (k_excp c)) c.
Definition with_proc_objects (v : gmap loc Z) (c : kern) : kern :=
  with_mods (Mods (k_sems c) (k_bags c) (k_gpd c) (k_gpd_ids c) (k_msgqs c) (k_filters c)
    (k_msgs c) (k_blocks c) (k_mpscqs c) (k_procs c) (k_argvs c) v (k_proc_datas c)
    (k_proc_data c) (k_excps c) (k_excp c)) c.
Definition with_proc_datas (v : gmap loc prs_proc_data) (c : kern) : kern :=
  with_mods (Mods (k_sems c) (k_bags c) (k_gpd c) (k_gpd_ids c) (k_msgqs c) (k_filters c)
    (k_msgs c) (k_blocks c) (k_mpscqs c) (k_procs c) (k_argvs c) (k_proc_objects c) v
    (k_proc_data c) (k_excps c) (k_excp c)) c.
Definition with_proc_data (v : ptr) (c : kern) : kern :=
  with_mods (Mods (k_sems c) (k_bags c) (k_gpd c) (k_gpd_ids c) (k_msgqs c) (k_filters c)
    (k_msgs c) (k_blocks c) (k_mpscqs c) (k_procs c) (k_argvs c) (k_proc_objects c)
    (k_proc_datas c) v (k_excps c) (k_excp c)) c.
Definition with_excps (v : gmap loc ptr) (c : kern) : kern :=
  with_mods (Mods (k_sems c) (k_bags c) (k_gpd c) (k_gpd_ids c) (k_msgqs c) (k_filters c)
    (k_msgs c) (k_blocks c) (k_mpscqs c) (k_procs c) (k_argvs c) (k_proc_objects c)
    (k_proc_datas c) (k_proc_data c) v (k_excp c)) c.
Definition with_excp (v : ptr) (c : kern) : kern :=
  with_mods (Mods (k_sems c) (k_bags c) (k_gpd c) (k_gpd_ids c) (k_msgqs c) (k_filters c)
    (k_msgs c) (k_blocks c) (k_mpscqs c) (k_procs c) (k_argvs c) (k_proc_objects c)
    (k_proc_datas c) (k_proc_data c) (k_excps c) v) c.
Definition set_tk_id (v : Z) (e : prs_task) : prs_task :=
  PrsTask v (tk_name e) (tk_userdata e) (tk_stack e) (tk_stack_size e) (tk_prio e) (tk_proc_id
    e) (tk_sched_id e) (tk_sched_userdata e) (tk_state e) (tk_context e) (tk_entry e) (tk_msgq
    e).
Definition set_tk_name (v : list Z) (e : prs_task) : prs_task :=
  PrsTask (tk_id e) v (tk_userdata e) (tk_stack e) (tk_stack_size e) (tk_prio e) (tk_proc_id e)
    (tk_sched_id e) (tk_sched_userdata e) (tk_state e) (tk_context e) (tk_entry e) (tk_msgq e).
Definition set_tk_userdata (v : ptr) (e : prs_task) : prs_task :=
  PrsTask (tk_id e) (tk_name e) v (tk_stack e) (tk_stack_size e) (tk_prio e) (tk_proc_id e)
    (tk_sched_id e) (tk_sched_userdata e) (tk_state e) (tk_context e) (tk_entry e) (tk_msgq e).
Definition set_tk_stack (v : ptr) (e : prs_task) : prs_task :=
  PrsTask (tk_id e) (tk_name e) (tk_userdata e) v (tk_stack_size e) (tk_prio e) (tk_proc_id e)
    (tk_sched_id e) (tk_sched_userdata e) (tk_state e) (tk_context e) (tk_entry e) (tk_msgq e).
Definition set_tk_stack_size (v : Z) (e : prs_task) : prs_task :=
  PrsTask (tk_id e) (tk_name e) (tk_userdata e) (tk_stack e) v (tk_prio e) (tk_proc_id e)
    (tk_sched_id e) (tk_sched_userdata e) (tk_state e) (tk_context e) (tk_entry e) (tk_msgq e).
Definition set_tk_prio (v : Z) (e : prs_task) : prs_task :=
  PrsTask (tk_id e) (tk_name e) (tk_userdata e) (tk_stack e) (tk_stack_size e) v (tk_proc_id e)
    (tk_sched_id e) (tk_sched_userdata e) (tk_state e) (tk_context e) (tk_entry e) (tk_msgq e).
Definition set_tk_proc_id (v : Z) (e : prs_task) : prs_task :=
  PrsTask (tk_id e) (tk_name e) (tk_userdata e) (tk_stack e) (tk_stack_size e) (tk_prio e) v
    (tk_sched_id e) (tk_sched_userdata e) (tk_state e) (tk_context e) (tk_entry e) (tk_msgq e).
Definition set_tk_sched_id (v : Z) (e : prs_task) : prs_task :=
  PrsTask (tk_id e) (tk_name e) (tk_userdata e) (tk_stack e) (tk_stack_size e) (tk_prio e)
    (tk_proc_id e) v (tk_sched_userdata e) (tk_state e) (tk_context e) (tk_entry e) (tk_msgq e).
Definition set_tk_sched_userdata (v : ptr) (e : prs_task) : prs_task :=
  PrsTask (tk_id e) (tk_name e) (tk_userdata e) (tk_stack e) (tk_stack_size e) (tk_prio e)
    (tk_proc_id e) (tk_sched_id e) v (tk_state e) (tk_context e) (tk_entry e) (tk_msgq e).
Definition set_tk_state (v : Z) (e : prs_task) : prs_task :=
  PrsTask (tk_id e) (tk_name e) (tk_userdata e) (tk_stack e) (tk_stack_size e) (tk_prio e)
    (tk_proc_id e) (tk_sched_id e) (tk_sched_userdata e) v (tk_context e) (tk_entry e) (tk_msgq
    e).
Definition set_tk_context (v : ptr) (e : prs_task) : prs_task :=
  PrsTask (tk_id e) (tk_name e) (tk_userdata e) (tk_stack e) (tk_stack_size e) (tk_prio e)
    (tk_proc_id e) (tk_sched_id e) (tk_sched_userdata e) (tk_state e) v (tk_entry e) (tk_msgq
    e).
Definition set_tk_entry (v : ptr) (e : prs_task) : prs_task :=
  PrsTask (tk_id e) (tk_name e) (tk_userdata e) (tk_stack e) (tk_stack_size e) (tk_prio e)
    (tk_proc_id e) (tk_sched_id e) (tk_sched_userdata e) (tk_state e) (tk_context e) v (tk_msgq
    e).
Definition set_tk_msgq (v : ptr) (e : prs_task) : prs_task :=
  PrsTask (tk_id e) (tk_name e) (tk_userdata e) (tk_stack e) (tk_stack_size e) (tk_prio e)
    (tk_proc_id e) (tk_sched_id e) (tk_sched_userdata e) (tk_state e) (tk_context e) (tk_entry
    e) v.
Definition set_ev_task_id (v : Z) (e : prs_event) : prs_event :=
  PrsEvent v (ev_token e) (ev_initial_refcnt e) (ev_refcnt e).
Definition set_ev_token (v : Z) (e : prs_event) : prs_event :=
  PrsEvent (ev_task_id e) v (ev_initial_refcnt e) (ev_refcnt e).
Definition set_ev_initial_refcnt (v : Z) (e : prs_event) : prs_event :=
  PrsEvent (ev_task_id e) (ev_token e) v (ev_refcnt e).
Definition set_ev_refcnt (v : Z) (e : prs_event) : prs_event :=
  PrsEvent (ev_task_id e) (ev_token e) (ev_initial_refcnt e) v.
Definition set_wk_id (v : Z) (e : prs_worker) : prs_worker :=
  PrsWorker v (wk_pal_thread e) (wk_userdata e) (wk_flags e) (wk_current_task_id e)
    (wk_current_task e) (wk_exit_context e).
Definition set_wk_flags (v : Z) (e : prs_worker) : prs_worker :=
  PrsWorker (wk_id e) (wk_pal_thread e) (wk_userdata e) v (wk_current_task_id e)
    (wk_current_task e) (wk_exit_context e).
Definition set_wk_current_task_id (v : Z) (e : prs_worker) : prs_worker :=
  PrsWorker (wk_id e) (wk_pal_thread e) (wk_userdata e) (wk_flags e) v (wk_current_task e)
    (wk_exit_context e).
Definition set_wk_current_task (v : ptr) (e : prs_worker) : prs_worker :=
  PrsWorker (wk_id e) (wk_pal_thread e) (wk_userdata e) (wk_flags e) (wk_current_task_id e) v
    (wk_exit_context e).
Definition set_wk_exit_context (v : ptr) (e : prs_worker) : prs_worker :=
  PrsWorker (wk_id e) (wk_pal_thread e) (wk_userdata e) (wk_flags e) (wk_current_task_id e)
    (wk_current_task e) v.
Definition set_th_userdata (v : ptr) (e : prs_pal_thread) : prs_pal_thread :=
  PrsPalThread (th_from_current e) v (th_started e) (th_exited e) (th_idle_sem e) (th_signals
    e).
Definition set_th_started (v : bool) (e : prs_pal_thread) : prs_pal_thread :=
  PrsPalThread (th_from_current e) (th_userdata e) v (th_exited e) (th_idle_sem e) (th_signals
    e).
Definition set_th_exited (v : bool) (e : prs_pal_thread) : prs_pal_thread :=
  PrsPalThread (th_from_current e) (th_userdata e) (th_started e) v (th_idle_sem e) (th_signals
    e).
Definition set_th_idle_sem (v : Z) (e : prs_pal_thread) : prs_pal_thread :=
  PrsPalThread (th_from_current e) (th_userdata e) (th_started e) (th_exited e) v (th_signals
    e).
Definition set_th_signals (v : nat) (e : prs_pal_thread) : prs_pal_thread :=
  PrsPalThread (th_from_current e) (th_userdata e) (th_started e) (th_exited e) (th_idle_sem e)
    v.
Definition set_ud_task (v : ptr) (e : prs_sched_task_userdata) : prs_sched_task_userdata :=
  SchedTaskUserdata v.
Definition set_sp_ready_mask (v : Z) (e : prs_sched_swprio) : prs_sched_swprio :=
  PrsSchedSwprio v (sp_readyq e) (sp_removeq e).
Definition set_sp_readyq (v : list ptr) (e : prs_sched_swprio) : prs_sched_swprio :=
  PrsSchedSwprio (sp_ready_mask e) v (sp_removeq e).
Definition set_sp_removeq (v : ptr) (e : prs_sched_swprio) : prs_sched_swprio :=
  PrsSchedSwprio (sp_ready_mask e) (sp_readyq e) v.
Definition set_sc_readyq (v : ptr) (e : prs_sched_swcoop) : prs_sched_swcoop :=
  PrsSchedSwcoop v (sc_removeq e).
Definition set_sc_removeq (v : ptr) (e : prs_sched_swcoop) : prs_sched_swcoop :=
  PrsSchedSwcoop (sc_readyq e) v.
Definition set_sw_sched (v : ptr) (e : prs_sched_worker) : prs_sched_worker :=
  PrsSchedWorker v (sw_sched_data e) (sw_worker e).
Definition set_sw_sched_data (v : ptr) (e : prs_sched_worker) : prs_sched_worker :=
  PrsSchedWorker (sw_sched e) v (sw_worker e).
Definition set_sw_worker (v : ptr) (e : prs_sched_worker) : prs_sched_worker :=
  PrsSchedWorker (sw_sched e) (sw_sched_data e) v.
Definition set_sd_id (v : Z) (e : prs_sched) : prs_sched :=
  PrsSched v (sd_name e) (sd_ops e) (sd_userdata e) (sd_workers e).
Definition set_sd_name (v : list Z) (e : prs_sched) : prs_sched :=
  PrsSched (sd_id e) v (sd_ops e) (sd_userdata e) (sd_workers e).
Definition set_sd_ops (v : sched_impl) (e : prs_sched) : prs_sched :=
  PrsSched (sd_id e) (sd_name e) v (sd_userdata e) (sd_workers e).
Definition set_sd_userdata (v : ptr) (e : prs_sched) : prs_sched :=
  PrsSched (sd_id e) (sd_name e) (sd_ops e) v (sd_workers e).
Definition set_sd_workers (v : ptr) (e : prs_sched) : prs_sched :=
  PrsSched (sd_id e) (sd_name e) (sd_ops e) (sd_userdata e) v.
Definition set_cl_pit (v : ptr) (e : prs_clock) : prs_clock :=
  PrsClock v (cl_timer e) (cl_spinlock e).
Definition set_cl_timer (v : ptr) (e : prs_clock) : prs_clock :=
  PrsClock (cl_pit e) v (cl_spinlock e).
Definition set_cl_spinlock (v : ptr) (e : prs_clock) : prs_clock :=
  PrsClock (cl_pit e) (cl_timer e) v.
Definition set_nm_block (v : ptr) (e : prs_name) : prs_name :=
  PrsName (nm_max_entries e) (nm_string_offset e) v (nm_entries e).
Definition set_nm_entries (v : list ptr) (e : prs_name) : prs_name :=
  PrsName (nm_max_entries e) (nm_string_offset e) (nm_block e) v.
Definition set_nn_next (v : ptr) (e : prs_name_list_node) : prs_name_list_node :=
  PrsNameListNode v (nn_object_id e).
Definition set_nn_object_id (v : Z) (e : prs_name_list_node) : prs_name_list_node :=
  PrsNameListNode (nn_next e) v.
Definition set_tm_lists (v : list (option ptr)) (e : prs_timer) : prs_timer :=
  PrsTimer v (tm_tmp_list e) (tm_pool e) (tm_queued e) (tm_now e).
Definition set_tm_tmp_list (v : option ptr) (e : prs_timer) : prs_timer :=
  PrsTimer (tm_lists e) v (tm_pool e) (tm_queued e) (tm_now e).
Definition set_tm_pool (v : option ptr) (e : prs_timer) : prs_timer :=
  PrsTimer (tm_lists e) (tm_tmp_list e) v (tm_queued e) (tm_now e).
Definition set_tm_queued (v : option ptr) (e : prs_timer) : prs_timer :=
  PrsTimer (tm_lists e) (tm_tmp_list e) (tm_pool e) v (tm_now e).
Definition set_tm_now (v : Z) (e : prs_timer) : prs_timer :=
  PrsTimer (tm_lists e) (tm_tmp_list e) (tm_pool e) (tm_queued e) v.
Definition set_te_start (v : Z) (e : prs_timer_entry) : prs_timer_entry :=
  PrsTimerEntry v (te_end e) (te_event e) (te_event_type e) (te_refcnt e).
Definition set_te_end (v : Z) (e : prs_timer_entry) : prs_timer_entry :=
  PrsTimerEntry (te_start e) v (te_event e) (te_event_type e) (te_refcnt e).
Definition set_te_event (v : ptr) (e : prs_timer_entry) : prs_timer_entry :=
  PrsTimerEntry (te_start e) (te_end e) v (te_event_type e) (te_refcnt e).
Definition set_te_event_type (v : Z) (e : prs_timer_entry) : prs_timer_entry :=
  PrsTimerEntry (te_start e) (te_end e) (te_event e) v (te_refcnt e).
Definition set_te_refcnt (v : option nat) (e : prs_timer_entry) : prs_timer_entry :=
  PrsTimerEntry (te_start e) (te_end e) (te_event e) (te_event_type e) v.
Definition set_sm_id (v : Z) (e : prs_sem) : prs_sem :=
  PrsSem v (sm_max_count e) (sm_count e) (sm_waitq e).
Definition set_sm_max_count (v : Z) (e : prs_sem) : prs_sem :=
  PrsSem (sm_id e) v (sm_count e) (sm_waitq e).
Definition set_sm_count (v : Z) (e : prs_sem) : prs_sem :=
  PrsSem (sm_id e) (sm_max_count e) v (sm_waitq e).
Definition set_sm_waitq (v : ptr) (e : prs_sem) : prs_sem :=
  PrsSem (sm_id e) (sm_max_count e) (sm_count e) v.
Definition set_fl_id (v : Z) (e : prs_msgq_filter) : prs_msgq_filter :=
  PrsMsgqFilter v (fl_event e) (fl_userdata e) (fl_userdata_size e) (fl_function e).
Definition set_fl_event (v : ptr) (e : prs_msgq_filter) : prs_msgq_filter :=
  PrsMsgqFilter (fl_id e) v (fl_userdata e) (fl_userdata_size e) (fl_function e).
Definition set_fl_userdata (v : ptr) (e : prs_msgq_filter) : prs_msgq_filter :=
  PrsMsgqFilter (fl_id e) (fl_event e) v (fl_userdata_size e) (fl_function e).
Definition set_fl_userdata_size (v : Z) (e : prs_msgq_filter) : prs_msgq_filter :=
  PrsMsgqFilter (fl_id e) (fl_event e) (fl_userdata e) v (fl_function e).
Definition set_fl_function (v : ptr) (e : prs_msgq_filter) : prs_msgq_filter :=
  PrsMsgqFilter (fl_id e) (fl_event e) (fl_userdata e) (fl_userdata_size e) v.
Definition set_mq_queue (v : ptr) (e : prs_msgq) : prs_msgq :=
  PrsMsgq v (mq_pd e) (mq_filter_id e).
Definition set_mq_pd (v : ptr) (e : prs_msgq) : prs_msgq :=
  PrsMsgq (mq_queue e) v (mq_filter_id e).
Definition set_mq_filter_id (v : Z) (e : prs_msgq) : prs_msgq :=
  PrsMsgq (mq_queue e) (mq_pd e) v.
Definition set_mg_owner (v : Z) (e : prs_msg) : prs_msg :=
  PrsMsg v (mg_sender e) (mg_size e) (mg_data e).
Definition set_mg_sender (v : Z) (e : prs_msg) : prs_msg :=
  PrsMsg (mg_owner e) v (mg_size e) (mg_data e).
Definition set_mg_data (v : pr_msg) (e : prs_msg) : prs_msg :=
  PrsMsg (mg_owner e) (mg_sender e) (mg_size e) v.
Definition set_pc_id (v : Z) (e : prs_proc) : prs_proc :=
  PrsProc v (pc_filename e) (pc_argc e) (pc_argv e) (pc_pal_proc e) (pc_cmdline_buffer e)
    (pc_main_task e) (pc_range_table_index e) (pc_objects e) (pc_atexit_callbacks e)
    (pc_destroyed e).
Definition set_pc_filename (v : list Z) (e : prs_proc) : prs_proc :=
  PrsProc (pc_id e) v (pc_argc e) (pc_argv e) (pc_pal_proc e) (pc_cmdline_buffer e)
    (pc_main_task e) (pc_range_table_index e) (pc_objects e) (pc_atexit_callbacks e)
    (pc_destroyed e).
Definition set_pc_argc (v : Z) (e : prs_proc) : prs_proc :=
  PrsProc (pc_id e) (pc_filename e) v (pc_argv e) (pc_pal_proc e) (pc_cmdline_buffer e)
    (pc_main_task e) (pc_range_table_index e) (pc_objects e) (pc_atexit_callbacks e)
    (pc_destroyed e).
Definition set_pc_argv (v : ptr) (e : prs_proc) : prs_proc :=
  PrsProc (pc_id e) (pc_filename e) (pc_argc e) v (pc_pal_proc e) (pc_cmdline_buffer e)
    (pc_main_task e) (pc_range_table_index e) (pc_objects e) (pc_atexit_callbacks e)
    (pc_destroyed e).
Definition set_pc_pal_proc (v : ptr) (e : prs_proc) : prs_proc :=
  PrsProc (pc_id e) (pc_filename e) (pc_argc e) (pc_argv e) v (pc_cmdline_buffer e)
    (pc_main_task e) (pc_range_table_index e) (pc_objects e) (pc_atexit_callbacks e)
    (pc_destroyed e).
Definition set_pc_cmdline_buffer (v : ptr) (e : prs_proc) : prs_proc :=
  PrsProc (pc_id e) (pc_filename e) (pc_argc e) (pc_argv e) (pc_pal_proc e) v (pc_main_task
    e) (pc_range_table_index e) (pc_objects e) (pc_atexit_callbacks e) (pc_destroyed e).
Definition set_pc_main_task (v : ptr) (e : prs_proc) : prs_proc :=
  PrsProc (pc_id e) (pc_filename e) (pc_argc e) (pc_argv e) (pc_pal_proc e)
    (pc_cmdline_buffer e) v (pc_range_table_index e) (pc_objects e) (pc_atexit_callbacks e)
    (pc_destroyed e).
Definition set_pc_range_table_index (v : Z) (e : prs_proc) : prs_proc :=
  PrsProc (pc_id e) (pc_filename e) (pc_argc e) (pc_argv e) (pc_pal_proc e)
    (pc_cmdline_buffer e) (pc_main_task e) v (pc_objects e) (pc_atexit_callbacks e)
    (pc_destroyed e).
Definition set_pc_objects (v : ptr) (e : prs_proc) : prs_proc :=
  PrsProc (pc_id e) (pc_filename e) (pc_argc e) (pc_argv e) (pc_pal_proc e)
    (pc_cmdline_buffer e) (pc_main_task e) (pc_range_table_index e) v (pc_atexit_callbacks
    e) (pc_destroyed e).
Definition set_pc_atexit_callbacks (v : ptr) (e : prs_proc) : prs_proc :=
  PrsProc (pc_id e) (pc_filename e) (pc_argc e) (pc_argv e) (pc_pal_proc e)
    (pc_cmdline_buffer e) (pc_main_task e) (pc_range_table_index e) (pc_objects e) v
    (pc_destroyed e).
Definition set_pc_destroyed (v : bool) (e : prs_proc) : prs_proc :=
  PrsProc (pc_id e) (pc_filename e) (pc_argc e) (pc_argv e) (pc_pal_proc e)
    (pc_cmdline_buffer e) (pc_main_task e) (pc_range_table_index e) (pc_objects e)
    (pc_atexit_callbacks e) v.
Definition set_pd_list (v : ptr) (e : prs_proc_data) : prs_proc_data :=
  PrsProcData v (pd_range_table e) (pd_range_table_count e).
Definition set_pd_range_table (v : list (Z * Z)) (e : prs_proc_data) : prs_proc_data :=
  PrsProcData (pd_list e) v (pd_range_table_count e).
Definition set_pd_range_table_count (v : Z) (e : prs_proc_data) : prs_proc_data :=
  PrsProcData (pd_list e) (pd_range_table e) v.

(** ** Access

    The field of a structure at an address, as a cell of the memory. *)

Section fields.
Context {E V : Type} (get : kern → gmap loc E) (put : gmap loc E → kern → kern)
  (f : E → V) (set_ : V → E → E).

Definition field (p : loc) : cell kern V :=
  Cell (λ c, e ← deref (get c !! p); Ret (f e))
       (λ v c, e ← deref (get c !! p); Ret (put (<[p := set_ v e]> (get c)) c)).

Lemma field_get c p e : get c !! p = Some e → cell_get (field p) c = Ret (f e).
Proof. intros He. simpl. by rewrite He. Qed.

Lemma field_value c p v : f <$> get c !! p = Some v → cell_get (field p) c = Ret v.
Proof. simpl. destruct (get c !! p); simpl; intros; by simplify_eq. Qed.

Lemma read_value c p v :
  f <$> get c !! p = Some v → (v ← cell_get (field p) c; Ret (v, c)) = Ret (v, c).
Proof. intros Hv. by rewrite (field_value _ _ _ Hv). Qed.

Lemma field_set c p e v :
  get c !! p = Some e → cell_set (field p) v c = Ret (put (<[p := set_ v e]> (get c)) c).
Proof. intros He. simpl. by rewrite He. Qed.
End fields.

(** A field that is only read. *)
Definition get_field {E V : Type} (get : kern → gmap loc E) (f : E → V) (p : loc) : prog kern V :=
  act (λ c, e ← deref (get c !! p); Ret (f e, c)).

Lemma get_field_value {E V : Type} (get : kern → gmap loc E) (f : E → V) p c v :
  f <$> get c !! p = Some v → (e ← deref (get c !! p); Ret (f e, c)) = Ret (v, c).
Proof. destruct (get c !! p); simpl; intros; by simplify_eq. Qed.

(** A pointer that is about to be dereferenced. *)
Definition nonnull (p : ptr) : prog kern loc := act (λ c, l ← deref p; Ret (l, c)).

(** [PRS_FATAL_WHEN(cond)] *)
Definition fatal_if (cond : bool) : prog kern unit := act (λ c, _ ← fatal_when cond; Ret (tt, c)).

Definition task_state := field k_tasks with_tasks tk_state set_tk_state.
Definition task_prio := field k_tasks with_tasks tk_prio set_tk_prio.
Definition task_sched_id := field k_tasks with_tasks tk_sched_id set_tk_sched_id.
Definition task_sched_userdata := field k_tasks with_tasks tk_sched_userdata set_tk_sched_userdata.
Definition event_task_id := field k_events with_events ev_task_id set_ev_task_id.
Definition event_token := field k_events with_events ev_token set_ev_token.
Definition event_initial_refcnt := field k_events with_events ev_initial_refcnt set_ev_initial_refcnt.
Definition event_refcnt := field k_events with_events ev_refcnt set_ev_refcnt.
Definition worker_id := field k_workers with_workers wk_id set_wk_id.
Definition worker_flags := field k_workers with_workers wk_flags set_wk_flags.
Definition worker_current_task_id :=
  field k_workers with_workers wk_current_task_id set_wk_current_task_id.
Definition worker_current_task := field k_workers with_workers wk_current_task set_wk_current_task.
Definition worker_exit_context := field k_workers with_workers wk_exit_context set_wk_exit_context.
Definition userdata_task := field k_uds with_uds ud_task set_ud_task.
Definition swprio_ready_mask := field k_swprio with_swprio sp_ready_mask set_sp_ready_mask.
Definition swprio_readyq := field k_swprio with_swprio sp_readyq set_sp_readyq.
Definition swprio_removeq := field k_swprio with_swprio sp_removeq set_sp_removeq.
Definition swcoop_readyq := field k_swcoop with_swcoop sc_readyq set_sc_readyq.
Definition swcoop_removeq := field k_swcoop with_swcoop sc_removeq set_sc_removeq.
Definition sched_worker_sched := field k_sched_workers with_sched_workers sw_sched set_sw_sched.
Definition sched_worker_sched_data :=
  field k_sched_workers with_sched_workers sw_sched_data set_sw_sched_data.
Definition sched_worker_worker := field k_sched_workers with_sched_workers sw_worker set_sw_worker.
Definition sched_id := field k_scheds with_scheds sd_id set_sd_id.
Definition sched_name := field k_scheds with_scheds sd_name set_sd_name.
Definition sched_ops := field k_scheds with_scheds sd_ops set_sd_ops.
Definition sched_userdata := field k_scheds with_scheds sd_userdata set_sd_userdata.
Definition sched_workers := field k_scheds with_scheds sd_workers set_sd_workers.
Definition thread_idle_sem := field k_threads with_threads th_idle_sem set_th_idle_sem.
Definition thread_userdata := field k_threads with_threads th_userdata set_th_userdata.
Definition thread_started := field k_threads with_threads th_started set_th_started.
Definition thread_exited := field k_threads with_threads th_exited set_th_exited.
Definition thread_signals := field k_threads with_threads th_signals set_th_signals.

(** The clock ([s_prs_ticks] of clock.c). *)
Definition s_prs_ticks : cell kern Z := Cell (λ c, Ret (k_ticks c)) (λ v c, Ret (with_ticks v c)).

(** ** The heap *)

(** [prs_pal_malloc_zero(sizeof(E))]: a block that holds [e]. *)
Definition alloc_block {E : Type} (get : kern → gmap loc E) (put : gmap loc E → kern → kern)
    (e : E) : prog kern ptr :=
  act (λ c,
    let (p, h) := prs_pal_malloc_zero (k_heap c) in
    match p with
    | None => Ret (None, with_heap h c)
    | Some l => Ret (Some l, put (<[l := e]> (get c)) (with_heap h c))
    end).

(** [prs_pal_free(p)]: the structure is gone. *)
Definition free_block {E : Type} (get : kern → gmap loc E) (put : gmap loc E → kern → kern)
    (p : loc) : prog kern unit :=
  act (λ c,
    _ ← deref (get c !! p);
    h ← prs_pal_free (Some p) (k_heap c);
    Ret (tt, put (delete p (get c)) (with_heap h c))).

(** ** The object directory

    One action per operation, on the count of references: the effect that
    God.v's programs have in every interleaving. *)

(** [object->ops->free(object)]: the function the tables of operations hold. *)
Class ObjectFree : Type := object_free : object_ops → loc → prog kern unit.

Definition god_alloc_and_lock (object : loc) (ops : object_ops) : prog kern Z :=
  act (λ c,
    match k_ids c with
    | [] => Ret (0, c)
    | i :: ids => Ret (i, with_ids ids (with_objs (<[i := (1%nat, (object, ops))]> (k_objs c)) c))
    end).

Definition god_lock (id : Z) : prog kern ptr :=
  act (λ c,
    match k_objs c !! id with
    | None => Ret (None, c)
    | Some (n, (p, ops)) => Ret (Some p, with_objs (<[id := (S n, (p, ops))]> (k_objs c)) c)
    end).

Definition god_find (id : Z) : prog kern ptr :=
  act (λ c,
    match k_objs c !! id with
    | None => Ret (None, c)
    | Some (_, (p, _)) => Ret (Some p, c)
    end).

(** The count goes down; the last reference hands the object to its [free]. *)
Definition god_unlock `{!ObjectFree} (id : Z) : prog kern unit :=
  last ← act (λ c,
    match k_objs c !! id with
    | Some (S (S n), o) => Ret (None, with_objs (<[id := (S n, o)]> (k_objs c)) c)
    | Some (_, o) => Ret (Some o, with_objs (delete id (k_objs c)) c)
    | None => Undef
    end);
  match last with
  | Some (p, ops) => object_free ops p
  | None => mret tt
  end.

(** [prs_god_try_unlock_final(id)] of an object that is live. *)
Definition god_try_unlock_final `{!ObjectFree} (id : Z) : prog kern prs_result :=
  last ← act (λ c,
    match k_objs c !! id with
    | Some (1%nat, o) => Ret (Some o, with_objs (delete id (k_objs c)) c)
    | Some _ => Ret (None, c)
    | None => Undef
    end);
  match last with
  | Some (p, ops) => _ ← object_free ops p; mret PRS_OK
  | None => mret PRS_LOCKED
  end.

(** [ops->destroy], null for the kinds of objects that have none. *)
Class ObjectDestroy : Type := object_destroy : object_ops → option (loc → prog kern unit).

Definition god_object_destroy `{!ObjectFree, !ObjectDestroy} (id : Z) : prog kern prs_result :=
  object ← act (λ c,
    match k_objs c !! id with
    | None => Ret (None, c)
    | Some (n, o) => Ret (Some o, with_objs (<[id := (S n, o)]> (k_objs c)) c)
    end);
  match object with
  | Some (p, ops) =>
      _ ← match object_destroy ops with Some destroy => destroy p | None => mret tt end;
      _ ← god_unlock id;
      mret PRS_OK
  | None => mret PRS_NOT_FOUND
  end.

(** ** Queues and lists

    A multiple-producer queue is the sequence of the structures whose nodes are
    on it, and each of its operations one action: so it is in every interleaving
    (Mpsc.v).  [prs_mpsciq_get_data] is the identity on this representation. *)

Definition queue (q : loc) : cell kern (list loc) := field k_queues with_queues id (λ v _, v) q.

Definition mpsciq_create : prog kern ptr := alloc_block k_queues with_queues [].
Definition mpsciq_destroy (q : ptr) : prog kern unit :=
  q ← nonnull q; free_block k_queues with_queues q.
Definition mpsciq_push (q : ptr) (x : loc) : prog kern unit :=
  q ← nonnull q; _ ← atomic_update (queue q) (λ xs, xs ++ [x]); mret tt.
Definition mpsciq_begin (q : ptr) : prog kern ptr :=
  q ← nonnull q; xs ← prs_pal_atomic_load (queue q); mret (head xs).
Definition mpsciq_is_inserted (q : ptr) (x : loc) : prog kern bool :=
  q ← nonnull q; xs ← prs_pal_atomic_load (queue q); mret (bool_decide (x ∈ xs)).
Definition mpsciq_remove (q : ptr) (x : loc) : prog kern unit :=
  q ← nonnull q; _ ← atomic_update (queue q) (drop_ref x); mret tt.

(** [prs_mpsciq_begin(q)] builds the links that [prs_mpsciq_next] follows: the walk is
    over the structures that are on the queue at that moment. *)
Definition mpsciq_walk (q : ptr) : prog kern (list loc) :=
  q ← nonnull q; prs_pal_atomic_load (queue q).

(** A queue of many consumers (Mpmcq.v) hands out, once, any of the elements that were
    put in, or nothing, even when there are some; which one is a choice of the machine,
    and so is whether there is a node for a new element. *)
Definition bag (q : loc) : cell kern (list loc) := field k_bags with_bags id (λ v _, v) q.

Definition mpmcq_create : prog kern ptr := alloc_block k_bags with_bags [].
Definition mpmcq_destroy (q : loc) : prog kern unit := free_block k_bags with_bags q.
Definition mpmcq_push (q : ptr) (x : loc) : prog kern prs_result :=
  q ← nonnull q;
  Flip (λ fails, if fails then mret PRS_OUT_OF_MEMORY
    else _ ← atomic_update (bag q) (λ xs, xs ++ [x]); mret PRS_OK).

(** A number up to [n]. *)
Fixpoint choose (n : nat) : prog kern nat :=
  match n with
  | O => mret 0%nat
  | S n => Flip (λ more, if more then k ← choose n; mret (S k) else mret 0%nat)
  end.

Definition mpmcq_pop (n : nat) (q : ptr) : prog kern (prs_result * ptr) :=
  q ← nonnull q;
  k ← choose n;
  act (λ c,
    xs ← cell_get (bag q) c;
    match xs !! k with
    | None => Ret ((PRS_EMPTY, None), c)
    | Some x => c ← cell_set (bag q) (delete k xs) c; Ret ((PRS_OK, Some x), c)
    end).

(** A queue of nodes (Mpsc.v): the nodes, with the pointers they hold. *)
Definition mpscq (q : loc) : cell kern (list (loc * loc)) := field k_mpscqs with_mpscqs id (λ v _, v) q.

Definition mpscq_create : prog kern ptr := alloc_block k_mpscqs with_mpscqs [].
Definition mpscq_push (q : ptr) (data : loc) : prog kern prs_result :=
  q ← nonnull q;
  act (λ c,
    let (p, h) := prs_pal_malloc (k_heap c) in
    match p with
    | None => Ret (PRS_OUT_OF_MEMORY, with_heap h c)
    | Some node =>
        xs ← cell_get (mpscq q) c;
        c ← cell_set (mpscq q) (xs ++ [(node, data)]) (with_heap h c);
        Ret (PRS_OK, c)
    end).
Definition mpscq_destroy (q : ptr) : prog kern unit :=
  q ← nonnull q;
  act (λ c,
    xs ← cell_get (mpscq q) c;
    h ← foldr (λ x h, h ← h; prs_pal_free (Some x.1) h) (Ret (k_heap c)) xs;
    h ← prs_pal_free (Some q) h;
    Ret (tt, with_mpscqs (delete q (k_mpscqs c)) (with_heap h c))).

(** What the nodes hold, from the oldest on. *)
Definition mpscq_data (q : ptr) : prog kern (list loc) :=
  q ← nonnull q; xs ← prs_pal_atomic_load (mpscq q); Done (xs.*2).

(** The global pointer directory, at the level of its contract (Pd.v). *)
Definition gpd_alloc_and_lock (p : loc) : prog kern (prs_result * Z) :=
  act (λ c,
    match k_gpd_ids c with
    | Some i :: ids => Ret ((PRS_OK, i), with_gpd_ids ids (with_gpd (<[i := (1%nat, p)]> (k_gpd c)) c))
    | ids => Ret ((PRS_OUT_OF_MEMORY, PRS_PD_ID_INVALID), with_gpd_ids (tail ids) c)
    end).
Definition gpd_lock (id : Z) : prog kern ptr :=
  act (λ c,
    match k_gpd c !! id with
    | None => Ret (None, c)
    | Some (n, p) => Ret (Some p, with_gpd (<[id := (S n, p)]> (k_gpd c)) c)
    end).
Definition gpd_unlock (id : Z) : prog kern bool :=
  act (λ c,
    match k_gpd c !! id with
    | None => Ret (false, c)
    | Some (S (S n), p) => Ret (false, with_gpd (<[id := (S n, p)]> (k_gpd c)) c)
    | Some (_, p) => Ret (true, with_gpd (delete id (k_gpd c)) c)
    end).

(** A list of nodes (Dll.v): the nodes, with the pointers they hold. *)
Definition dllist (l : loc) : cell kern (list (loc * loc)) :=
  field k_dllists with_dllists id (λ v _, v) l.

Definition dllist_create : prog kern ptr := alloc_block k_dllists with_dllists [].

(** [prs_dllist_insert_before(l, 0, data)]: at the end. *)
Definition dllist_push (l : ptr) (data : loc) : prog kern prs_result :=
  l ← nonnull l;
  act (λ c,
    let (p, h) := prs_pal_malloc (k_heap c) in
    match p with
    | None => Ret (PRS_OUT_OF_MEMORY, with_heap h c)
    | Some node =>
        xs ← cell_get (dllist l) c;
        c ← cell_set (dllist l) (xs ++ [(node, data)]) (with_heap h c);
        Ret (PRS_OK, c)
    end).

(** [prs_dllist_remove(l, prs_dllist_begin(l))] *)
Definition dllist_remove_first (l : ptr) : prog kern unit :=
  l ← nonnull l;
  act (λ c,
    xs ← cell_get (dllist l) c;
    match xs with
    | [] => Undef
    | (node, _) :: xs =>
        h ← prs_pal_free (Some node) (k_heap c);
        c ← cell_set (dllist l) xs (with_heap h c);
        Ret (tt, c)
    end).

Definition dllist_destroy (l : ptr) : prog kern unit :=
  l ← nonnull l;
  act (λ c,
    xs ← cell_get (dllist l) c;
    h ← foldr (λ x h, h ← h; prs_pal_free (Some x.1) h) (Ret (k_heap c)) xs;
    h ← prs_pal_free (Some l) h;
    Ret (tt, with_dllists (delete l (k_dllists c)) (with_heap h c))).

(** The pointers of a list that nobody changes while it is walked. *)
Definition dllist_data (l : ptr) : prog kern (list loc) :=
  l ← nonnull l; xs ← prs_pal_atomic_load (dllist l); Done (xs.*2).

(** An intrusive list (Dll.v): the structures whose nodes are on it. *)
Definition idllist (l : loc) : cell kern (list loc) := field k_idllists with_idllists id (λ v _, v) l.

Definition idllist_create : prog kern ptr := alloc_block k_idllists with_idllists [].
Definition idllist_destroy (l : ptr) : prog kern unit :=
  l ← nonnull l; free_block k_idllists with_idllists l.
(** [prs_idllist_insert_before(l, 0, &x->node)]: at the end. *)
Definition idllist_insert (l : ptr) (x : loc) : prog kern unit :=
  l ← nonnull l; _ ← atomic_update (idllist l) (λ xs, xs ++ [x]); mret tt.
Definition idllist_begin (l : ptr) : prog kern ptr :=
  l ← nonnull l; xs ← prs_pal_atomic_load (idllist l); mret (head xs).
Definition idllist_is_inserted (l : ptr) (x : loc) : prog kern bool :=
  l ← nonnull l; xs ← prs_pal_atomic_load (idllist l); mret (bool_decide (x ∈ xs)).
(** [prs_idllist_next(l, &x->node)] *)
Definition idllist_next (l : ptr) (x : loc) : prog kern ptr :=
  l ← nonnull l; xs ← prs_pal_atomic_load (idllist l); mret (i ← list_find (eq x) xs; xs !! S i.1).
Definition idllist_remove (l : ptr) (x : loc) : prog kern unit :=
  l ← nonnull l; _ ← atomic_update (idllist l) (drop_ref x); mret tt.

(** A block of bytes. *)
Definition block (p : loc) : cell kern (list Z) := field k_blocks with_blocks id (λ v _, v) p.

(** ** Pools

    The pool of timer entries (Pool.v): [prs_pool_get_id] takes an entry to its ID,
    which is not invalid, and the entry stands for both. *)

Definition entry_refcnt := field k_timer_entries with_timer_entries te_refcnt set_te_refcnt.

Definition pool_create : prog kern ptr := alloc_block k_pools with_pools [].
Definition pool_destroy (p : ptr) : prog kern unit := p ← nonnull p; free_block k_pools with_pools p.

(** [prs_pool_alloc(p, &id)]: the next answer of the pool. *)
Definition pool_alloc (p : ptr) : prog kern ptr :=
  p ← nonnull p;
  act (λ c,
    answers ← deref (k_pools c !! p);
    match answers with
    | Some entry :: answers =>
        Ret (Some entry, with_pools (<[p := answers]> (k_pools c))
          (with_timer_entries (<[entry := PrsTimerEntry 0 0 None 0 None]> (k_timer_entries c)) c))
    | _ => Ret (None, with_pools (<[p := tail answers]> (k_pools c)) c)
    end).

(** [prs_pool_lock_first(p, id)] *)
Definition pool_lock_first (p : ptr) (entry : loc) : prog kern unit :=
  _ ← nonnull p; prs_pal_atomic_store (entry_refcnt entry) (Some 1%nat).

(** [prs_pool_lock(p, id)] of an entry that is locked. *)
Definition pool_lock (p : ptr) (entry : loc) : prog kern ptr :=
  _ ← nonnull p; _ ← atomic_update (entry_refcnt entry) (fmap S); mret (Some entry).

(** [prs_pool_unlock(p, id)]: the last reference frees the entry. *)
Definition pool_unlock (p : ptr) (entry : loc) : prog kern unit :=
  _ ← nonnull p;
  act (λ c,
    n ← cell_get (entry_refcnt entry) c;
    match n with
    | Some (S (S n)) => c ← cell_set (entry_refcnt entry) (Some (S n)) c; Ret (tt, c)
    | Some 1%nat => Ret (tt, with_timer_entries (delete entry (k_timer_entries c)) c)
    | _ => Ret (tt, c)
    end).

(** [prs_pool_try_unlock_final_dest(p, id, destructor, userdata)] *)
Definition pool_try_unlock_final_dest (p : ptr) (entry : loc) (destructor : prog kern unit) : prog kern bool :=
  _ ← nonnull p;
  final ← act (λ c,
    n ← cell_get (entry_refcnt entry) c;
    match n with
    | Some 1%nat => c ← cell_set (entry_refcnt entry) (Some 0%nat) c; Ret (true, c)
    | _ => Ret (false, c)
    end);
  if (final : bool) then
    _ ← destructor;
    _ ← act (λ c, Ret (tt, with_timer_entries (delete entry (k_timer_entries c)) c));
    mret true
  else mret false.

(** ** One thread alone *)

Section run.
Context {E V : Type} (get : kern → gmap loc E) (put : gmap loc E → kern → kern)
  (f : E → V) (set_ : V → E → E).
Implicit Types (q : cell kern V).

Lemma run_update_field q p (u : V → V) c e :
  q = field get put f set_ p → get c !! p = Some e →
  run (atomic_update q u) c = Ret (Some (f e), put (<[p := set_ (u (f e)) e]> (get c)) c).
Proof. intros -> He. cbn. by rewrite He. Qed.

Lemma run_cas_field `{EqDecision V} q p a b c e :
  q = field get put f set_ p → get c !! p = Some e →
  run (prs_pal_atomic_compare_exchange_strong q a b) c =
    if decide (f e = a) then Ret (Some (true, a), put (<[p := set_ b e]> (get c)) c)
    else Ret (Some (false, f e), c).
Proof. intros -> He. cbn. rewrite He. ocbn. by case_decide. Qed.

Lemma run_get_field p c e : get c !! p = Some e → run (get_field get f p) c = Ret (Some (f e), c).
Proof. intros He. cbn. by rewrite He. Qed.
End run.

Lemma run_alloc_block {E : Type} (get : kern → gmap loc E) (put : gmap loc E → kern → kern) e c l hs :
  heap_answers (k_heap c) = Some l :: hs →
  run (alloc_block get put e) c =
    Ret (Some (Some l), put (<[l := e]> (get c)) (with_heap (Heap ({[ l ]} ∪ heap_live (k_heap c)) hs) c)).
Proof. intros Ha. cbn. unfold prs_pal_malloc_zero, malloc. by rewrite Ha. Qed.

Lemma run_nonnull l c : run (nonnull (Some l)) c = Ret (Some l, c).
Proof. done. Qed.

(** Evaluates the next statement of a sequence, an access to a field whose
    structure is known to be there. *)
Ltac run_field :=
  unfold read, write, prs_pal_atomic_fetch_or, prs_pal_atomic_fetch_and, prs_pal_atomic_fetch_sub,
    prs_pal_atomic_fetch_add, prs_pal_atomic_exchange;
  rewrite ?run_bind;
  first
    [ erewrite run_load by (eapply field_get; eassumption)
    | erewrite run_store by (eapply field_set; eassumption)
    | erewrite run_update_field by (reflexivity || eassumption)
    | erewrite run_cas_field by (reflexivity || eassumption)
    | erewrite run_get_field by eassumption ];
  ocbn.

Definition kern_empty : kern :=
  Kern (Heap ∅ []) [] ∅ ∅ ∅ ∅ ∅ ∅ ∅ ∅ ∅ ∅ ∅ ∅ [] ∅ 0 ∅ None ∅ ∅ None None ∅ ∅ ∅ ∅
    (Mods ∅ ∅ ∅ [] ∅ ∅ ∅ ∅ ∅ ∅ ∅ ∅ ∅ None ∅ None).
