(* ===== verification/Pal.v ===== *)
(** * Threads and register contexts (prs/pal/posix/thread.c, prs/pal/posix/context.c)

    What the kernel relies on of the platform: register contexts as opaque blocks,
    with the swaps between them recorded, and POSIX threads with the semaphore on
    which an idle thread waits.  The functions a thread calls back are arguments. *)

From S2P Require Import Prelude Heap Atomic Kern.

(** A call that only concerns the processor or thread-local data is recorded. *)
Definition pal (call : pal_call) : prog kern unit :=
  act (λ c, Ret (tt, with_pal (k_pal c ++ [call]) c)).

(** ** Register contexts *)

(** [prs_pal_context_swap(save, load)]: what follows happens when something
    swaps back to [save]. *)
Definition prs_pal_context_swap (save load : ptr) : prog kern unit := pal (ContextSwap save load).

Definition prs_pal_context_copy (to from : ptr) : prog kern unit := pal (ContextCopy to from).

(** [prs_pal_context_add(context, prs_worker_task_prologue, 1, worker)] *)
Definition prs_pal_context_add (context worker : loc) : prog kern unit :=
  pal (ContextAdd context worker).

(** The block is initialised before its address is checked. *)
Definition prs_pal_context_alloc : prog kern ptr :=
  act (λ c,
    let (p, h) := prs_pal_malloc_zero (k_heap c) in
    context ← deref p; Ret (Some context, with_heap h c)).

Definition prs_pal_context_free (context : ptr) : prog kern unit :=
  act (λ c, h ← prs_pal_free context (k_heap c); Ret (tt, with_heap h c)).

(** ** Threads *)

(** [sem_wait] blocks until the count is positive; it is called again when a
    signal interrupts it. *)
Definition prs_pal_thread_suspend (thread : loc) : prog kern prs_result :=
  _ ← wait (λ c,
    n ← cell_get (thread_idle_sem thread) c;
    if 0 <? n then c ← cell_set (thread_idle_sem thread) (n - 1) c; Ret (Some (tt, c))
    else Ret None);
  mret PRS_OK.

(** [sem_post] cannot fail on a semaphore that is valid and does not overflow. *)
Definition prs_pal_thread_resume (thread : loc) : prog kern prs_result :=
  _ ← atomic_update (thread_idle_sem thread) (λ n, n + 1);
  mret PRS_OK.

(** [pthread_kill] of a thread that exists. *)
Definition prs_pal_thread_interrupt (thread : loc) : prog kern prs_result :=
  _ ← atomic_update (thread_signals thread) S;
  mret PRS_OK.

Definition prs_pal_thread_set_callback_params (thread userdata : loc) : prog kern prs_result :=
  _ ← write (thread_userdata thread) (Some userdata);
  mret PRS_OK.

(** The signal handler, on the thread that was interrupted, if it is one of ours;
    otherwise the previous handler is called. *)
Definition prs_pal_thread_sighandler (interruptible : loc → ptr → prog kern bool)
    (interrupt : loc → ptr → prog kern unit) (thread : ptr) (context : loc) : prog kern unit :=
  match thread with
  | None => pal (SignalChain context)
  | Some thread =>
      userdata ← read (thread_userdata thread);
      userdata ← nonnull userdata;
      ok ← interruptible userdata (Some context);
      if (ok : bool) then interrupt userdata (Some context) else mret tt
  end.

Section entry.
Variable entry : loc → prog kern unit.

(** What a thread of its own runs: it waits for [prs_pal_thread_start]. *)
Definition prs_pal_thread_entry (thread : loc) : prog kern unit :=
  _ ← pal (ThreadLocalInit thread);
  _ ← prs_pal_thread_suspend thread;
  _ ← write (thread_started thread) true;
  userdata ← read (thread_userdata thread);
  userdata ← nonnull userdata;
  _ ← entry userdata;
  write (thread_exited thread) true.

Definition prs_pal_thread_start (thread : loc) : prog kern prs_result :=
  from_current ← get_field k_threads th_from_current thread;
  if (from_current : bool) then
    _ ← write (thread_started thread) true;
    _ ← pal (ThreadLocalInit thread);
    userdata ← read (thread_userdata thread);
    userdata ← nonnull userdata;
    _ ← entry userdata;
    _ ← write (thread_exited thread) true;
    _ ← write (thread_started thread) false;
    mret PRS_OK
  else prs_pal_thread_resume thread.
End entry.

(** [pthread_join] waits until the thread has returned from its entry. *)
Definition prs_pal_thread_join (thread : loc) : prog kern prs_result :=
  from_current ← get_field k_threads th_from_current thread;
  exited ← read (thread_exited thread);
  if (from_current : bool) then
    mret (if (exited : bool) then PRS_OK else PRS_INVALID_STATE)
  else
    _ ← (if (exited : bool) then mret tt
         else wait (λ c,
           exited ← cell_get (thread_exited thread) c;
           Ret (if (exited : bool) then Some (tt, c) else None)));
    mret PRS_OK.
