(* ===== verification/Worker.v ===== *)
(** * Workers (prs/worker.c)

    A worker runs the tasks of a scheduler on one thread.  The thread the code runs
    on matters only through [prs_worker_current]; it is the argument [self], the
    worker of the calling thread. *)

From S2P Require Import Prelude Heap Atomic RefDir Kern Pal.

(** ** Flags *)

Definition PRS_WORKER_FLAG_INTERRUPTIBLE : Z := 1.
Definition PRS_WORKER_FLAG_INTERRUPT_PENDING : Z := 2.
Definition PRS_WORKER_FLAG_IDLE : Z := 4.
Definition PRS_WORKER_FLAG_STOP : Z := 8.

(** The C expression [~x] on 32 bits. *)
Definition not32 (x : Z) : Z := u32 (Z.lnot x).

(** [flags & flag] as a condition. *)
Definition has (flags flag : Z) : bool := truthy (Z.land flags flag).

(** [worker->ops.get_next(worker->userdata, prev_task, &next_task)]: the result, and
    [next_task]. *)
Class GetNext : Type := worker_get_next : loc → ptr → prog kern (bool * ptr).

Section worker.
Context `{!GetNext}.

(** ** Scheduling *)

Definition prs_worker_idle (worker : loc) : prog kern unit :=
  '(ok, _) ← prs_pal_atomic_compare_exchange_strong (worker_flags worker) 0
    (Z.lor PRS_WORKER_FLAG_IDLE PRS_WORKER_FLAG_INTERRUPT_PENDING);
  if (ok : bool) then
    thread ← get_field k_workers wk_pal_thread worker;
    _ ← prs_pal_thread_suspend thread;
    mret tt
  else mret tt.

Definition prs_worker_set_current_task (worker : loc) (task : ptr) : prog kern ptr :=
  prev_task ← read (worker_current_task worker);
  _ ← write (worker_current_task worker) task;
  id ← match task with Some task => get_field k_tasks tk_id task | None => mret 0 end;
  _ ← prs_pal_atomic_store (worker_current_task_id worker) id;
  mret prev_task.

(** The loop of [prs_worker_schedule_internal].  What follows a swap to the exit
    context from nowhere is never run, as nothing swaps back. *)
Fixpoint worker_schedule_loop (fuel : nat) (worker : loc) (check : bool)
    (prev_context exit_context : ptr) : prog kern unit :=
  match fuel with
  | O => Spin
  | S fuel =>
      flags ← (if check
               then prs_pal_atomic_fetch_and (worker_flags worker)
                 (not32 PRS_WORKER_FLAG_INTERRUPT_PENDING)
               else mret PRS_WORKER_FLAG_INTERRUPT_PENDING);
      if has flags PRS_WORKER_FLAG_STOP then
        match exit_context with
        | Some _ => mret tt
        | None =>
            worker_exit ← read (worker_exit_context worker);
            prs_pal_context_swap None worker_exit
        end
      else if has flags PRS_WORKER_FLAG_INTERRUPT_PENDING then
        prev_task ← prs_worker_set_current_task worker None;
        prev_context ← match prev_task with
                       | Some prev_task => get_field k_tasks tk_context prev_task
                       | None => mret prev_context
                       end;
        userdata ← get_field k_workers wk_userdata worker;
        '(switch_to_next, next_task) ← worker_get_next userdata prev_task;
        match next_task with
        | Some next =>
            _ ← prs_worker_set_current_task worker next_task;
            if decide (prev_task = next_task) then mret tt
            else
              let save_context := match prev_context with Some _ => prev_context | None => exit_context end in
              next_context ← get_field k_tasks tk_context next;
              prs_pal_context_swap save_context next_context
        | None =>
            if (switch_to_next : bool) then
              _ ← prs_worker_idle worker;
              worker_schedule_loop fuel worker true prev_context exit_context
            else
              worker_exit ← read (worker_exit_context worker);
              prs_pal_context_swap None worker_exit
        end
      else mret tt
  end.

Definition prs_worker_schedule_internal (fuel : nat) (worker : loc) (check_flags : bool)
    (exit_context : ptr) : prog kern unit :=
  worker_schedule_loop fuel worker check_flags None exit_context.

Fixpoint worker_entry_loop (fuel : nat) (worker : loc) : prog kern unit :=
  match fuel with
  | O => Spin
  | S fuel' =>
      flags ← prs_pal_atomic_load (worker_flags worker);
      if has flags PRS_WORKER_FLAG_STOP then mret tt
      else
        worker_exit ← read (worker_exit_context worker);
        _ ← prs_worker_schedule_internal fuel worker false worker_exit;
        worker_entry_loop fuel' worker
  end.

Definition prs_worker_entry (fuel : nat) (worker : loc) : prog kern unit :=
  _ ← pal (WlsWorkerInit worker);
  _ ← pal (WlsSet worker);
  _ ← pal (ExcpInitWorker worker);
  context ← prs_pal_context_alloc;
  _ ← write (worker_exit_context worker) context;
  _ ← worker_entry_loop fuel worker;
  worker_exit ← read (worker_exit_context worker);
  _ ← prs_pal_context_free worker_exit;
  _ ← write (worker_exit_context worker) None;
  _ ← pal (ExcpUninitWorker worker);
  pal (WlsWorkerUninit worker).

Fixpoint prs_worker_task_prologue (fuel : nat) (worker : loc) : prog kern unit :=
  match fuel with
  | O => Spin
  | S fuel' =>
      _ ← prs_worker_schedule_internal fuel worker true None;
      '(result, _) ← prs_pal_atomic_compare_exchange_strong (worker_flags worker) 0
        PRS_WORKER_FLAG_INTERRUPTIBLE;
      if (result : bool) then mret tt else prs_worker_task_prologue fuel' worker
  end.

Definition prs_worker_schedule (fuel : nat) (worker : loc) : prog kern unit :=
  prs_worker_schedule_internal fuel worker false None.

(** ** Interrupts *)

Definition prs_worker_int_disable (worker : loc) : prog kern bool :=
  flags ← prs_pal_atomic_fetch_and (worker_flags worker) (not32 PRS_WORKER_FLAG_INTERRUPTIBLE);
  mret (has flags PRS_WORKER_FLAG_INTERRUPTIBLE).

Definition prs_worker_int_enable (fuel : nat) (worker : loc) : prog kern unit :=
  prs_worker_task_prologue fuel worker.

Definition prs_worker_int_enabled (worker : loc) : prog kern bool :=
  flags ← prs_pal_atomic_load (worker_flags worker);
  mret (has flags PRS_WORKER_FLAG_INTERRUPTIBLE).

Definition prs_worker_interrupt_entry (fuel : nat) (worker : loc) (context : ptr) : prog kern unit :=
  interrupts_enabled ← prs_worker_int_disable worker;
  if (interrupts_enabled : bool) then
    match context with
    | Some context => prs_pal_context_add context worker
    | None => prs_worker_task_prologue fuel worker
    end
  else mret tt.

(** [is_user_text context]: [prs_proc_is_user_text] of the instruction pointer of
    the context that was interrupted. *)
Definition prs_worker_interruptible (is_user_text : loc → prog kern bool) (worker : loc)
    (context : ptr) : prog kern bool :=
  flags ← prs_pal_atomic_load (worker_flags worker);
  if has flags PRS_WORKER_FLAG_INTERRUPTIBLE then
    match context with
    | Some context => is_user_text context
    | None => mret true
    end
  else mret false.

Definition prs_worker_post (worker : loc) (interrupt : bool) : prog kern prs_result :=
  flags ← prs_pal_atomic_fetch_or (worker_flags worker) PRS_WORKER_FLAG_INTERRUPT_PENDING;
  '(resumed, flags) ← (if has flags PRS_WORKER_FLAG_IDLE then
      flags ← prs_pal_atomic_fetch_and (worker_flags worker) (not32 PRS_WORKER_FLAG_IDLE);
      if has flags PRS_WORKER_FLAG_IDLE then
        thread ← get_field k_workers wk_pal_thread worker;
        result ← prs_pal_thread_resume thread;
        mret (Some result, flags)
      else mret (None, flags)
    else mret (None, flags));
  match resumed with
  | Some result => mret result
  | None =>
      if (interrupt : bool) then
        let interruptible := has flags PRS_WORKER_FLAG_INTERRUPTIBLE in
        if interruptible && negb (has flags PRS_WORKER_FLAG_INTERRUPT_PENDING) then
          thread ← get_field k_workers wk_pal_thread worker;
          prs_pal_thread_interrupt thread
        else mret (if interruptible then PRS_ALREADY_EXISTS else PRS_LOCKED)
      else mret PRS_OK
  end.

Definition prs_worker_interrupt (worker : loc) : prog kern prs_result := prs_worker_post worker true.
Definition prs_worker_signal (worker : loc) : prog kern prs_result := prs_worker_post worker false.

(** ** Life *)

Record prs_worker_create_params : Type := PrsWorkerCreateParams {
  wcp_pal_thread : loc;
  wcp_userdata : loc
}.

(** The result, and the ID stored through [id] when there is one. *)
Definition prs_worker_create (params : prs_worker_create_params) : prog kern (prs_result * option Z) :=
  worker ← alloc_block k_workers with_workers
    (PrsWorker 0 (wcp_pal_thread params) (wcp_userdata params) 0 0 None None);
  match worker with
  | None => mret (PRS_OUT_OF_MEMORY, None)
  | Some worker =>
      id ← god_alloc_and_lock worker s_prs_worker_object_ops;
      _ ← write (worker_id worker) id;
      if id =? 0 then
        _ ← free_block k_workers with_workers worker;
        mret (PRS_OUT_OF_MEMORY, None)
      else mret (PRS_OK, Some id)
  end.

Definition prs_worker_object_free (worker : loc) : prog kern unit :=
  free_block k_workers with_workers worker.

Definition prs_worker_destroy (worker : loc) : prog kern prs_result := mret PRS_NOT_IMPLEMENTED.

Definition prs_worker_start (fuel : nat) (worker : loc) : prog kern prs_result :=
  thread ← get_field k_workers wk_pal_thread worker;
  result ← prs_pal_thread_set_callback_params thread worker;
  if decide (result = PRS_OK) then
    _ ← prs_pal_atomic_store (worker_flags worker) 0;
    prs_pal_thread_start (prs_worker_entry fuel) thread
  else mret result.

Definition prs_worker_join (worker : loc) : prog kern prs_result :=
  thread ← get_field k_workers wk_pal_thread worker;
  prs_pal_thread_join thread.

Definition prs_worker_stop (self : ptr) (worker : loc) : prog kern prs_result :=
  _ ← prs_pal_atomic_fetch_or (worker_flags worker) PRS_WORKER_FLAG_STOP;
  if decide (Some worker = self) then
    worker_exit ← read (worker_exit_context worker);
    _ ← prs_pal_context_swap None worker_exit;
    mret PRS_OK
  else
    result ← prs_worker_interrupt worker;
    if decide (result = PRS_OK) then prs_worker_join worker else mret result.

(** ** Accessors *)

Definition prs_worker_current (self : ptr) : ptr := self.

Definition prs_worker_get_current_task (worker : loc) : prog kern ptr :=
  read (worker_current_task worker).

Definition prs_worker_get_current_task_id (worker : loc) : prog kern Z :=
  prs_pal_atomic_load (worker_current_task_id worker).

Definition prs_worker_get_userdata (worker : loc) : prog kern loc :=
  get_field k_workers wk_userdata worker.

Definition prs_worker_restore_context (worker context : loc) : prog kern unit :=
  worker_exit ← read (worker_exit_context worker);
  prs_pal_context_copy (Some context) worker_exit.
End worker.
