(* ===== verification/Task.v ===== *)
(** * Tasks (prs/task.c, prs/task.h)

    The state of a task is a token that also counts the changes of state, so that
    only the token of the current state unblocks it.  This file has the token, the
    functions that change the state, and how often tokens repeat. *)

From S2P Require Import Prelude Heap Atomic RefDir Kern Pal Worker.

(** ** Tokens *)

(** [enum prs_task_state] *)
Inductive prs_task_state : Set :=
  | PRS_TASK_STATE_STOPPED
  | PRS_TASK_STATE_READY
  | PRS_TASK_STATE_RUNNING
  | PRS_TASK_STATE_BLOCKED
  | PRS_TASK_STATE_ZOMBIE.

#[export] Instance prs_task_state_eq_dec : EqDecision prs_task_state.
Proof. solve_decision. Defined.

(** The value of an enumerator. *)
Definition state_code (s : prs_task_state) : Z :=
  match s with
  | PRS_TASK_STATE_STOPPED => 0
  | PRS_TASK_STATE_READY => 1
  | PRS_TASK_STATE_RUNNING => 2
  | PRS_TASK_STATE_BLOCKED => 3
  | PRS_TASK_STATE_ZOMBIE => 4
  end.
Coercion state_code : prs_task_state >-> Z.

(** [prs_task_token_t] is [prs_uint_t]: 64 bits. *)
Definition PRS_TASK_STATE_BITS : Z := 4.
Definition PRS_TASK_CAUSE_BITS : Z := 8.
Definition PRS_TASK_COUNT_BITS : Z := 8 * 8 - PRS_TASK_STATE_BITS - PRS_TASK_CAUSE_BITS.

Definition PRS_TASK_STATE_MASK : Z := u64 (Z.shiftl 1 PRS_TASK_STATE_BITS) - 1.
Definition PRS_TASK_CAUSE_MASK : Z :=
  u64 (Z.shiftl (u64 (Z.shiftl 1 PRS_TASK_CAUSE_BITS) - 1) PRS_TASK_STATE_BITS).
Definition PRS_TASK_COUNT_MASK : Z := u64 (Z.lnot (Z.lor PRS_TASK_STATE_MASK PRS_TASK_CAUSE_MASK)).

Definition PRS_TASK_GET_STATE (token : Z) : Z := Z.land token PRS_TASK_STATE_MASK.
Definition PRS_TASK_GET_CAUSE (token : Z) : Z :=
  Z.shiftr (Z.land token PRS_TASK_CAUSE_MASK) PRS_TASK_STATE_BITS mod 2 ^ 8.
Definition PRS_TASK_GET_COUNT (token : Z) : Z :=
  Z.shiftr (Z.land token PRS_TASK_COUNT_MASK) (PRS_TASK_STATE_BITS + PRS_TASK_CAUSE_BITS).
Definition PRS_TASK_SET_TOKEN (s ca co : Z) : Z :=
  Z.lor (Z.lor (u64 (Z.shiftl (u64 co) (PRS_TASK_STATE_BITS + PRS_TASK_CAUSE_BITS)))
               (Z.land (u64 (Z.shiftl (u64 ca) PRS_TASK_STATE_BITS)) PRS_TASK_CAUSE_MASK))
        (Z.land (u64 s) PRS_TASK_STATE_MASK).
Definition PRS_TASK_COUNT_INCREMENT : Z :=
  u64 (Z.shiftl 1 (PRS_TASK_STATE_BITS + PRS_TASK_CAUSE_BITS)).

(** The count of the next token. *)
Definition next_count (token : Z) : Z := u64 (PRS_TASK_GET_COUNT token + PRS_TASK_COUNT_INCREMENT).

(** ** State changes *)

(** [prs_sched_ready(task)], from the scheduler module. *)
Class SchedReady : Type := prs_sched_ready : loc → prog kern prs_result.

Definition prs_task_get_id (task : loc) : prog kern Z := get_field k_tasks tk_id task.
Definition prs_task_get_prio (task : loc) : prog kern Z := read (task_prio task).

Definition prs_task_current (self : ptr) : prog kern ptr :=
  match prs_worker_current self with
  | Some worker => prs_worker_get_current_task worker
  | None => mret None
  end.

(** The error is reported in the log when the task is not the current one. *)
Definition prs_task_set_prio (self : loc) (task : loc) (prio : Z) : prog kern unit :=
  _ ← write (task_prio task) prio;
  current_task ← prs_worker_get_current_task self;
  if decide (Some task = current_task) then
    _ ← prs_worker_signal self; mret tt
  else mret tt.

Definition prs_task_get_state (task : loc) : prog kern Z :=
  token ← prs_pal_atomic_load (task_state task);
  mret (PRS_TASK_GET_STATE token).

Definition prs_task_change_state (task : loc) (expected_state new_state : Z) : prog kern unit :=
  token ← prs_pal_atomic_load (task_state task);
  prs_pal_atomic_store (task_state task)
    (PRS_TASK_SET_TOKEN new_state (PRS_TASK_GET_CAUSE token) (next_count token)).

Definition block_token (token : Z) : Z :=
  PRS_TASK_SET_TOKEN PRS_TASK_STATE_BLOCKED 0 (next_count token).

Definition prs_task_block (task : loc) : prog kern Z :=
  token ← prs_pal_atomic_load (task_state task);
  let new_token := block_token token in
  _ ← prs_pal_atomic_store (task_state task) new_token;
  mret new_token.

Definition unblock_token (token : Z) (is_current_task : bool) (cause : Z) : Z :=
  PRS_TASK_SET_TOKEN (if is_current_task then PRS_TASK_STATE_RUNNING else PRS_TASK_STATE_READY)
    cause (next_count token).

Definition prs_task_unblock `{!SchedReady} (self : ptr) (task : loc) (token cause : Z) :
    prog kern bool :=
  current_task ← prs_task_current self;
  let is_current_task := bool_decide (Some task = current_task) in
  '(result, _) ← prs_pal_atomic_compare_exchange_strong (task_state task) token
    (unblock_token token is_current_task cause);
  if (result : bool) then
    if is_current_task then mret true
    else _ ← prs_sched_ready task; mret true
  else mret false.

Definition prs_task_get_last_unblock_cause (task : loc) : prog kern Z :=
  token ← prs_pal_atomic_load (task_state task);
  mret (PRS_TASK_GET_CAUSE token).

(** ** Fields of a token *)

Lemma get_state_mod token : PRS_TASK_GET_STATE token = token mod 16.
Proof. apply (land_low token 4). lia. Qed.

Lemma cause_field x : Z.land x PRS_TASK_CAUSE_MASK = x / 16 mod 256 * 16.
Proof. apply (land_field x 8 4); lia. Qed.

Lemma get_cause_mod token : PRS_TASK_GET_CAUSE token = token / 16 mod 256.
Proof.
  unfold PRS_TASK_GET_CAUSE. rewrite cause_field. change PRS_TASK_STATE_BITS with 4.
  rewrite Z.shiftr_div_pow2 by lia. change (2 ^ 4) with 16. rewrite Z.div_mul by lia.
  apply Z.mod_mod. lia.
Qed.

Lemma get_count_div token : 0 ≤ token < 2 ^ 64 → PRS_TASK_GET_COUNT token = token / 4096.
Proof.
  intros Ht. unfold PRS_TASK_GET_COUNT.
  replace (Z.land token PRS_TASK_COUNT_MASK) with (token / 2 ^ 12 mod 2 ^ 52 * 2 ^ 12)
    by (symmetry; apply (land_field token 52 12); lia).
  change (PRS_TASK_STATE_BITS + PRS_TASK_CAUSE_BITS) with 12.
  rewrite Z.shiftr_div_pow2, Z.div_mul by lia. apply Z.mod_small.
  split; [apply Z.div_pos; lia|]. apply Z.div_lt_upper_bound; lia.
Qed.

Lemma set_token_sum s ca co :
  PRS_TASK_SET_TOKEN s ca co = co mod 2 ^ 52 * 4096 + ca mod 256 * 16 + s mod 16.
Proof.
  unfold PRS_TASK_SET_TOKEN. change (PRS_TASK_STATE_BITS + PRS_TASK_CAUSE_BITS) with 12.
  change PRS_TASK_STATE_BITS with 4.
  assert (u64 (Z.shiftl (u64 co) 12) = co mod 2 ^ 52 * 2 ^ 12) as ->.
  { rewrite Z.shiftl_mul_pow2 by lia. unfold u64. change (2 ^ 64) with (2 ^ 52 * 2 ^ 12) at 2.
    rewrite Z.mul_mod_distr_r by lia. f_equal. by apply mod_mod_pow2. }
  assert (Z.land (u64 (Z.shiftl (u64 ca) 4)) PRS_TASK_CAUSE_MASK = ca mod 256 * 2 ^ 4) as ->.
  { rewrite cause_field, Z.shiftl_mul_pow2 by lia. unfold u64. f_equal.
    change (2 ^ 64) with (2 ^ 60 * 2 ^ 4) at 2. rewrite Z.mul_mod_distr_r by lia.
    change 16 with (2 ^ 4). rewrite Z.div_mul by lia. change 256 with (2 ^ 8).
    by rewrite !mod_mod_pow2 by lia. }
  assert (Z.land (u64 s) PRS_TASK_STATE_MASK = s mod 16) as ->.
  { etransitivity; [apply (land_low (u64 s) 4); lia|]. by apply (mod_mod_pow2 s 64 4). }
  pose proof (Z.mod_pos_bound ca 256 ltac:(lia)). pose proof (Z.mod_pos_bound s 16 ltac:(lia)).
  rewrite lor_high_low by lia.
  replace (co mod 2 ^ 52 * 2 ^ 12 + ca mod 256 * 2 ^ 4) with ((co mod 2 ^ 52 * 2 ^ 8 + ca mod 256) * 2 ^ 4) by lia.
  rewrite lor_high_low by lia. lia.
Qed.

Lemma set_token_fields s ca co :
  0 ≤ s < 16 → 0 ≤ ca < 256 → 0 ≤ co < 2 ^ 52 →
  0 ≤ PRS_TASK_SET_TOKEN s ca co < 2 ^ 64 ∧
  PRS_TASK_GET_STATE (PRS_TASK_SET_TOKEN s ca co) = s ∧
  PRS_TASK_GET_CAUSE (PRS_TASK_SET_TOKEN s ca co) = ca ∧
  PRS_TASK_GET_COUNT (PRS_TASK_SET_TOKEN s ca co) = co.
Proof.
  intros Hs Hca Hco. rewrite set_token_sum, !(Z.mod_small _ (2 ^ 52)), (Z.mod_small ca), (Z.mod_small s) by lia.
  set (t := co * 4096 + ca * 16 + s). assert (0 ≤ t < 2 ^ 64) as Ht by (unfold t; lia).
  split; [done|]. rewrite get_state_mod, get_cause_mod, get_count_div by done. unfold t.
  split_and!.
  - symmetry. apply (Z.mod_unique _ _ (co * 256 + ca)); lia.
  - assert ((co * 4096 + ca * 16 + s) / 16 = co * 256 + ca) as ->
      by (symmetry; apply (Z.div_unique _ _ _ s); lia).
    symmetry. apply (Z.mod_unique _ _ co); lia.
  - symmetry. apply (Z.div_unique _ _ _ (ca * 16 + s)); lia.
Qed.

(** A token is made of its state, cause and count: putting three fields together
    and taking them apart gives them back, and every 64-bit token is the
    combination of its fields. *)
Lemma task_token_roundtrip s ca co token :
  0 ≤ s < 2 ^ PRS_TASK_STATE_BITS → 0 ≤ ca < 2 ^ PRS_TASK_CAUSE_BITS →
  0 ≤ co < 2 ^ PRS_TASK_COUNT_BITS → 0 ≤ token < 2 ^ 64 →
  (PRS_TASK_GET_STATE (PRS_TASK_SET_TOKEN s ca co) = s ∧
   PRS_TASK_GET_CAUSE (PRS_TASK_SET_TOKEN s ca co) = ca ∧
   PRS_TASK_GET_COUNT (PRS_TASK_SET_TOKEN s ca co) = co) ∧
  PRS_TASK_SET_TOKEN (PRS_TASK_GET_STATE token) (PRS_TASK_GET_CAUSE token)
    (PRS_TASK_GET_COUNT token) = token.
Proof.
  intros Hs Hca Hco Ht. split; [by apply set_token_fields|].
  rewrite set_token_sum, get_state_mod, get_cause_mod, get_count_div by done.
  pose proof (Z.div_mod token 4096 ltac:(lia)). pose proof (Z.div_mod token 16 ltac:(lia)).
  pose proof (Z.div_mod (token / 16) 256 ltac:(lia)) as Hd.
  rewrite Z.div_div in Hd by lia. change (16 * 256) with 4096 in Hd.
  rewrite (Z.mod_small (token / 4096)), !Z.mod_mod; [lia|lia..|].
  split; [apply Z.div_pos|apply Z.div_lt_upper_bound]; lia.
Qed.


(** ** Versions *)

Definition token_of (c : kern) (task : loc) : option Z := tk_state <$> k_tasks c !! task.

Definition put_token (task : loc) (token : Z) (c : kern) : kern :=
  with_tasks (alter (set_tk_state token) task (k_tasks c)) c.

Lemma put_token_insert task token c e :
  k_tasks c !! task = Some e →
  with_tasks (<[task := set_tk_state token e]> (k_tasks c)) c = put_token task token c.
Proof. intros He. unfold put_token. by rewrite (alter_alt_Some _ _ _ e). Qed.

Definition change_token (token s : Z) : Z :=
  PRS_TASK_SET_TOKEN s (PRS_TASK_GET_CAUSE token) (next_count token).

Lemma change_token_state token (st : prs_task_state) : PRS_TASK_GET_STATE (change_token token st) = st.
Proof.
  unfold change_token. rewrite get_state_mod, set_token_sum.
  rewrite <- Z.add_mod_idemp_l by lia.
  replace (next_count token mod 2 ^ 52 * 4096 + PRS_TASK_GET_CAUSE token mod 256 * 16)
    with ((next_count token mod 2 ^ 52 * 256 + PRS_TASK_GET_CAUSE token mod 256) * 16) by lia.
  rewrite Z.mod_mul, Z.add_0_l, Z.mod_mod by lia. by destruct st.
Qed.

(** The task the calling thread runs, if any. *)
Definition current_is (c : kern) (self : ptr) (task : ptr) : Prop :=
  match self with
  | Some worker => wk_current_task <$> k_workers c !! worker = Some task
  | None => task = None
  end.

Lemma run_current c self task :
  current_is c self task → run (prs_task_current self) c = Ret (Some task, c).
Proof.
  unfold current_is, prs_task_current, prs_worker_current. destruct self as [worker|]; [|by intros ->].
  intros H. apply fmap_Some in H as (e & He & ->). unfold prs_worker_get_current_task. by run_field.
Qed.

Section runs.
Context {c : kern} {task : loc} {e : prs_task} (He : k_tasks c !! task = Some e).

Lemma run_get_state : run (prs_task_get_state task) c = Ret (Some (PRS_TASK_GET_STATE (tk_state e)), c).
Proof using He. unfold prs_task_get_state. by run_field. Qed.

Lemma run_change_state expected s :
  run (prs_task_change_state task expected s) c =
    Ret (Some tt, put_token task (change_token (tk_state e) s) c).
Proof using He.
  unfold prs_task_change_state. run_field. run_field. by rewrite (put_token_insert _ _ _ _ He).
Qed.

Lemma run_block :
  run (prs_task_block task) c =
    Ret (Some (block_token (tk_state e)), put_token task (block_token (tk_state e)) c).
Proof using He.
  unfold prs_task_block. run_field. run_field. by rewrite (put_token_insert _ _ _ _ He).
Qed.

Lemma run_unblock `{!SchedReady} self cur token cause :
  current_is c self cur →
  run (prs_task_unblock self task token cause) c =
    (let is_current := bool_decide (Some task = cur) in
     let c' := put_token task (unblock_token token is_current cause) c in
     if decide (tk_state e = token) then
       if is_current then Ret (Some true, c')
       else ('(r, c'') ← run (prs_sched_ready task) c';
             Ret (match r with Some _ => Some true | None => None end, c''))
     else Ret (Some false, c)).
Proof using He.
  intros Hc. unfold prs_task_unblock. rewrite run_bind, (run_current _ _ _ Hc). ocbn.
  run_field. destruct (decide (tk_state e = token)) as [<-|]; ocbn; [|done].
  rewrite (put_token_insert _ _ _ _ He). destruct (bool_decide (Some task = cur)); [done|].
  rewrite run_bind. destruct (run _ _) as [[[r|] c']| |]; done.
Qed.
End runs.

(** What happens to a task: [n] changes of its state, among actions that leave
    its token alone. *)
Inductive changes `{!SchedReady} (task : loc) : nat → kern → kern → Prop :=
  | changes_nil c : changes task 0 c c
  | changes_elsewhere n c c' c'' :
      token_of c' task = token_of c task → changes task n c' c'' → changes task n c c''
  | changes_block n c token c' c'' :
      run (prs_task_block task) c = Ret (Some token, c') →
      changes task n c' c'' → changes task (S n) c c''
  | changes_change n c expected (s : prs_task_state) c' c'' :
      run (prs_task_change_state task expected s) c = Ret (Some tt, c') →
      changes task n c' c'' → changes task (S n) c c''
  | changes_unblock n c self token cause c' c'' :
      0 ≤ cause < 256 → run (prs_task_unblock self task token cause) c = Ret (Some true, c') →
      changes task n c' c'' → changes task (S n) c c''.

(** Schedulers leave the state of the task they are told about alone. *)
Class SchedReadyKeeps `{!SchedReady} : Prop :=
  sched_ready_keeps : ∀ task c r c',
    run (prs_sched_ready task) c = Ret (r, c') → token_of c' task = token_of c task.

(** A token of 64 bits. *)
Definition token_range (token : Z) : Prop := 0 ≤ token < 2 ^ 64.

Lemma next_count_mod token :
  token_range token → next_count token mod 2 ^ 52 = (PRS_TASK_GET_COUNT token + 4096) mod 2 ^ 52.
Proof.
  intros Ht. unfold next_count, u64. change PRS_TASK_COUNT_INCREMENT with 4096.
  by apply mod_mod_pow2.
Qed.

(** The count of a token that a change has made. *)
Lemma new_token_count s ca token :
  0 ≤ s < 16 → 0 ≤ ca < 256 → token_range token →
  let new := PRS_TASK_SET_TOKEN s ca (next_count token) in
  token_range new ∧ PRS_TASK_GET_COUNT new = (PRS_TASK_GET_COUNT token + 4096) mod 2 ^ 52 ∧
  PRS_TASK_GET_STATE new = s ∧ PRS_TASK_GET_CAUSE new = ca.
Proof.
  intros Hs Hca Ht new.
  assert (new = PRS_TASK_SET_TOKEN s ca ((PRS_TASK_GET_COUNT token + 4096) mod 2 ^ 52)) as ->.
  { unfold new. rewrite !set_token_sum, next_count_mod by done. by rewrite Z.mod_mod by lia. }
  destruct (set_token_fields s ca ((PRS_TASK_GET_COUNT token + 4096) mod 2 ^ 52) Hs Hca
    ltac:(apply Z.mod_pos_bound; lia)) as (? & ? & ? & ?). done.
Qed.

Lemma state_code_range (s : prs_task_state) : 0 ≤ s < 16.
Proof. destruct s; simpl; lia. Qed.

Lemma unblocked_state_range (is_current : bool) :
  0 ≤ (if is_current then PRS_TASK_STATE_RUNNING else PRS_TASK_STATE_READY) < 16.
Proof. destruct is_current; apply state_code_range. Qed.

Lemma get_cause_range token : 0 ≤ PRS_TASK_GET_CAUSE token < 256.
Proof. rewrite get_cause_mod. apply Z.mod_pos_bound. lia. Qed.

Lemma get_count_range token : token_range token → 0 ≤ PRS_TASK_GET_COUNT token < 2 ^ 52.
Proof.
  intros Ht. rewrite get_count_div by done. unfold token_range in Ht.
  split; [apply Z.div_pos|apply Z.div_lt_upper_bound]; lia.
Qed.

Lemma token_of_put task token c e :
  k_tasks c !! task = Some e → token_of (put_token task token c) task = Some token.
Proof. intros He. unfold token_of, put_token. simpl. by rewrite lookup_alter_eq, He. Qed.

Lemma unblock_changed `{!SchedReady, !SchedReadyKeeps} self task token cause c c' :
  run (prs_task_unblock self task token cause) c = Ret (Some true, c') →
  token_of c task = Some token ∧
  ∃ is_current, token_of c' task = Some (unblock_token token is_current cause).
Proof.
  intros Hr. assert (∃ cur, current_is c self cur) as [cur Hcur].
  { destruct self as [w|]; [|by exists None]. destruct (k_workers c !! w) as [e|] eqn:He.
    - exists (wk_current_task e). unfold current_is. by rewrite He.
    - unfold prs_task_unblock in Hr. rewrite run_bind in Hr. simpl in Hr. by rewrite He in Hr. }
  assert (∃ e, k_tasks c !! task = Some e) as [e He].
  { destruct (k_tasks c !! task) as [e|] eqn:He; [by exists e|].
    unfold prs_task_unblock in Hr. rewrite run_bind, (run_current _ _ _ Hcur) in Hr. simpl in Hr.
    by rewrite He in Hr. }
  rewrite (run_unblock He _ _ _ _ Hcur) in Hr. cbv zeta in Hr.
  destruct (decide (tk_state e = token)) as [<-|]; [|done].
  split; [unfold token_of; by rewrite He|]. exists (bool_decide (Some task = cur)).
  destruct (bool_decide (Some task = cur)); simplify_eq.
  - by apply (token_of_put _ _ _ e).
  - destruct (run _ _) as [[r c'']| |] eqn:Hready; simplify_eq/=.
    rewrite (sched_ready_keeps _ _ _ _ Hready). by apply (token_of_put _ _ _ e).
Qed.

(** Every change adds 4096 to the count. *)
Lemma changes_count `{!SchedReady, !SchedReadyKeeps} task n c c' token :
  changes task n c c' → token_of c task = Some token → token_range token →
  ∃ now, token_of c' task = Some now ∧ token_range now ∧
    PRS_TASK_GET_COUNT now = (PRS_TASK_GET_COUNT token + 4096 * Z.of_nat n) mod 2 ^ 52 ∧
    (n = 0%nat → now = token).
Proof.
  assert (∀ n a b now, (PRS_TASK_GET_COUNT a = (b + 4096) mod 2 ^ 52) →
    PRS_TASK_GET_COUNT now = (PRS_TASK_GET_COUNT a + 4096 * Z.of_nat n) mod 2 ^ 52 →
    PRS_TASK_GET_COUNT now = (b + 4096 * Z.of_nat (S n)) mod 2 ^ 52) as Hadd.
  { intros k a b now -> ->. rewrite Zplus_mod_idemp_l. f_equal. lia. }
  intros Hch. revert token. induction Hch as [c|n c c1 c2 Hsame _ IH|n c tok c1 c2 Hr _ IH
    |n c x s c1 c2 Hr _ IH|n c self tok cause c1 c2 Hcause Hr _ IH]; intros token Htok Ht.
  - exists token. split_and!; [done..| |done]. rewrite Z.add_0_r, Z.mod_small by by apply get_count_range.
    done.
  - apply IH; [congruence|done].
  - pose proof Htok as Htok'. apply fmap_Some in Htok' as (e & He & ->). rewrite (run_block He) in Hr.
    simplify_eq. destruct (new_token_count PRS_TASK_STATE_BLOCKED 0 (tk_state e) ltac:(simpl; lia)
      ltac:(lia) Ht) as (H1 & H2 & _).
    destruct (IH (block_token (tk_state e))) as (now & Hn & Hrange & Hc & _);
      [by apply (token_of_put _ _ _ e)|done|]. exists now. split_and!; [done..| |done]. by eapply Hadd.
  - pose proof Htok as Htok'. apply fmap_Some in Htok' as (e & He & ->). rewrite (run_change_state He) in Hr.
    simplify_eq. destruct (new_token_count s (PRS_TASK_GET_CAUSE (tk_state e)) (tk_state e)
      (state_code_range s) (get_cause_range _) Ht) as (H1 & H2 & _).
    destruct (IH (change_token (tk_state e) s)) as (now & Hn & Hrange & Hc & _);
      [by apply (token_of_put _ _ _ e)|done|]. exists now. split_and!; [done..| |done]. by eapply Hadd.
  - apply unblock_changed in Hr as [Htok' [is_current Hnew]].
    assert (tok = token) as -> by congruence.
    destruct (new_token_count (if is_current then PRS_TASK_STATE_RUNNING else PRS_TASK_STATE_READY) cause token
      (unblocked_state_range _) Hcause Ht) as (H1 & H2 & _).
    destruct (IH (unblock_token token is_current cause)) as (now & Hn & Hrange & Hc & _); [done..|].
    exists now. split_and!; [done..| |done]. by eapply Hadd.
Qed.

Lemma token_fields token s ca co :
  token_range token → PRS_TASK_GET_STATE token = s → PRS_TASK_GET_CAUSE token = ca →
  PRS_TASK_GET_COUNT token = co → token = co * 4096 + ca * 16 + s.
Proof.
  intros Ht <- <- <-. rewrite get_state_mod, get_cause_mod, get_count_div by done.
  pose proof (Z.div_mod token 16 ltac:(lia)). pose proof (Z.div_mod (token / 16) 256 ltac:(lia)) as Hd.
  rewrite Z.div_div in Hd by lia. change (16 * 256) with 4096 in Hd. lia.
Qed.

(** Two tokens are equal when their fields are. *)
Lemma token_ext a b :
  token_range a → token_range b → PRS_TASK_GET_STATE a = PRS_TASK_GET_STATE b →
  PRS_TASK_GET_CAUSE a = PRS_TASK_GET_CAUSE b → PRS_TASK_GET_COUNT a = PRS_TASK_GET_COUNT b → a = b.
Proof.
  intros Ha Hb Hs Hca Hco.
  rewrite (token_fields a _ _ _ Ha Hs Hca Hco). symmetry.
  by apply token_fields.
Qed.

(** A count of 52 bits that grows by 4096 is back after 2^40 steps. *)
Lemma count_again count n :
  0 ≤ count < 2 ^ 52 → count = (count + 4096 * n) mod 2 ^ 52 ↔ (2 ^ 40 | n).
Proof.
  intros Hc. split.
  - intros Heq. apply (f_equal (λ x, (x - count) mod 2 ^ 52)) in Heq.
    rewrite Zminus_mod_idemp_l, Z.sub_diag in Heq. replace (count + 4096 * n - count) with (4096 * n) in Heq by lia.
    symmetry in Heq. apply Z.mod_divide in Heq as [q Hq]; [|lia]. exists q. lia.
  - intros [q ->]. replace (4096 * (q * 2 ^ 40)) with (q * 2 ^ 52) by lia.
    rewrite Z.mod_add by lia. symmetry. by apply Z.mod_small.
Qed.

(** Unblocking is a change of version. *)
Lemma unblock_token_ne token is_current cause :
  token_range token → unblock_token token is_current cause ≠ token.
Proof.
  intros Ht Heq. unfold unblock_token in Heq. rewrite set_token_sum, next_count_mod in Heq by done.
  apply (f_equal (λ x, x / 4096)) in Heq. rewrite <- (get_count_div token) in Heq by done.
  set (s := if is_current then _ else _) in Heq.
  pose proof (Z.mod_pos_bound cause 256 ltac:(lia)). pose proof (Z.mod_pos_bound s 16 ltac:(lia)).
  rewrite <- (Z.div_unique _ 4096 ((PRS_TASK_GET_COUNT token + 4096) mod 2 ^ 52)
    (cause mod 256 * 16 + s mod 16)) in Heq by lia.
  symmetry in Heq. change 4096 with (4096 * 1) in Heq.
  apply count_again in Heq as [q Hq]; [lia|by apply get_count_range].
Qed.

(** C26: the token that [prs_task_block] returns stays the version of that one
    blocking: after [n] changes of the task's state, whoever made them, it is the
    current token again exactly when [n] is a multiple of 2^40 and the task is
    blocked, and [prs_task_unblock] with it does nothing and returns false at all
    other times; when it is current, the task becomes running (for itself) or
    ready (and the scheduler is told), with the cause recorded. *)
Theorem task_token_versions `{!SchedReady, !SchedReadyKeeps} task token c0 c1 n c2 old :
  token_of c0 task = Some old → token_range old →
  run (prs_task_block task) c0 = Ret (Some token, c1) → changes task n c1 c2 →
  ∃ now, token_of c2 task = Some now ∧
    (now = token ↔ (2 ^ 40 | Z.of_nat n) ∧ PRS_TASK_GET_STATE now = PRS_TASK_STATE_BLOCKED ∧
       PRS_TASK_GET_CAUSE now = 0) ∧
    ∀ self cur cause, current_is c2 self cur → 0 ≤ cause < 256 →
      if decide (now = token) then
        ∃ new, let c3 := put_token task new c2 in
          PRS_TASK_GET_CAUSE new = cause ∧
          (cur = Some task → PRS_TASK_GET_STATE new = PRS_TASK_STATE_RUNNING ∧
             run (prs_task_unblock self task token cause) c2 = Ret (Some true, c3)) ∧
          (cur ≠ Some task → PRS_TASK_GET_STATE new = PRS_TASK_STATE_READY ∧
             ∀ r c4, run (prs_sched_ready task) c3 = Ret (Some r, c4) →
               run (prs_task_unblock self task token cause) c2 = Ret (Some true, c4))
      else run (prs_task_unblock self task token cause) c2 = Ret (Some false, c2).
Proof.
  intros Hold Hrange Hblock Hch. apply fmap_Some in Hold as (e0 & He0 & ->).
  rewrite (run_block He0) in Hblock. simplify_eq.
  destruct (new_token_count PRS_TASK_STATE_BLOCKED 0 (tk_state e0) ltac:(simpl; lia) ltac:(lia) Hrange)
    as (Htr & Hco & Hst & Hca).
  fold (block_token (tk_state e0)) in Htr, Hco, Hst, Hca. set (token := block_token (tk_state e0)) in *.
  destruct (changes_count task n _ c2 token Hch) as (now & Hnow & Hnr & Hnc & _);
    [by apply (token_of_put _ _ _ e0)|done|].
  pose proof (get_count_range token Htr) as Hcr.
  exists now. split_and!; [done|split|].
  - intros ->. split_and!; [|done..]. by apply (count_again (PRS_TASK_GET_COUNT token)).
  - intros (Hn & Hs & Hc). apply token_ext; [done..|congruence|congruence|].
    rewrite Hnc. symmetry. by apply count_again.
  - intros self cur cause Hcur Hcause. apply fmap_Some in Hnow as (e & He & ->).
    pose proof (run_unblock He self cur token cause Hcur) as Hrun. cbv zeta in Hrun.
    destruct (decide (tk_state e = token)) as [Heq|Hne]; [|done].
    destruct (new_token_count (if bool_decide (Some task = cur) then PRS_TASK_STATE_RUNNING else PRS_TASK_STATE_READY)
      cause token (unblocked_state_range _) Hcause Htr) as (_ & _ & Hs & Hc).
    exists (unblock_token token (bool_decide (Some task = cur)) cause).
    split; [exact Hc|]. split.
    + intros ->. rewrite bool_decide_true in * by done. split; [exact Hs|exact Hrun].
    + intros Hne. rewrite bool_decide_false in * by congruence. split; [exact Hs|].
      intros r c4 Hready. rewrite Hrun, Hready. done.
Qed.

(** A task that blocks itself and is made ready again; its old token is stale. *)
Definition demo_task (token : Z) : prs_task :=
  PrsTask 7 [] None None 0 3 0 0 None token None None None.
Definition demo_kern (token : Z) : kern :=
  with_tasks {[ 1%positive := demo_task token ]} kern_empty.
Definition demo_sched_ready : SchedReady := λ _, mret PRS_OK.

Lemma demo_sched_ready_keeps : SchedReadyKeeps (H := demo_sched_ready).
Proof. intros task c r c' [= <- <-]. done. Qed.

Lemma task_token_versions_witness :
  let token := block_token 2 in
  run (prs_task_block 1) (demo_kern 2) = Ret (Some token, demo_kern token) ∧
  run (prs_task_change_state 1 PRS_TASK_STATE_BLOCKED PRS_TASK_STATE_READY) (demo_kern token) =
    Ret (Some tt, demo_kern (change_token token 1)) ∧
  run (prs_task_unblock (H := demo_sched_ready) None 1 token 5) (demo_kern (change_token token 1)) =
    Ret (Some false, demo_kern (change_token token 1)).
Proof.
  intros token.
  assert (run (prs_task_block 1) (demo_kern 2) = Ret (Some token, demo_kern token)) as Hb
    by (vm_compute; reflexivity).
  assert (run (prs_task_change_state 1 PRS_TASK_STATE_BLOCKED PRS_TASK_STATE_READY) (demo_kern token) =
    Ret (Some tt, demo_kern (change_token token 1))) as Hc by (vm_compute; reflexivity).
  split; [exact Hb|]. split; [exact Hc|].
  destruct (task_token_versions (H := demo_sched_ready) (H0 := demo_sched_ready_keeps) 1 token (demo_kern 2)
    (demo_kern token) 1 (demo_kern (change_token token 1)) 2 eq_refl ltac:(unfold token_range; lia) Hb
    (changes_change _ _ _ _ _ _ _ Hc (changes_nil _ _))) as (now & Hnow & _ & Hrun).
  specialize (Hrun None None 5 eq_refl ltac:(lia)).
  assert (now = change_token token 1) as -> by (vm_compute in Hnow |- *; congruence).
  exact Hrun.
Defined.

(** ** Well-formed tokens *)

(** A token of 64 bits whose state is an enumerator. *)
Definition token_typed (token : Z) : Prop :=
  token_range token ∧ ∃ s : prs_task_state, PRS_TASK_GET_STATE token = s.

Lemma new_token_typed (s : prs_task_state) ca token :
  0 ≤ ca < 256 → token_range token → token_typed (PRS_TASK_SET_TOKEN s ca (next_count token)).
Proof.
  intros Hca Ht. destruct (new_token_count s ca token (state_code_range s) Hca Ht) as (Hr & _ & Hs & _).
  split; [done|by exists s].
Qed.

Lemma block_token_typed token : token_range token → token_typed (block_token token).
Proof. apply (new_token_typed PRS_TASK_STATE_BLOCKED). lia. Qed.

Lemma change_token_typed token (s : prs_task_state) : token_range token → token_typed (change_token token s).
Proof. apply new_token_typed, get_cause_range. Qed.

Lemma unblock_token_typed token (is_current : bool) cause :
  0 ≤ cause < 256 → token_range token → token_typed (unblock_token token is_current cause).
Proof.
  unfold unblock_token.
  destruct is_current; [apply (new_token_typed PRS_TASK_STATE_RUNNING)|apply (new_token_typed PRS_TASK_STATE_READY)].
Qed.

Lemma changes_typed `{!SchedReady, !SchedReadyKeeps} task n c c' token :
  changes task n c c' → token_of c task = Some token → token_typed token →
  ∃ now, token_of c' task = Some now ∧ token_typed now.
Proof.
  intros Hch. revert token. induction Hch as [c|n c c1 c2 Hsame _ IH|n c tok c1 c2 Hr _ IH
    |n c x s c1 c2 Hr _ IH|n c self tok cause c1 c2 Hcause Hr _ IH]; intros token Htok Ht.
  - by exists token.
  - apply (IH token); [congruence|done].
  - apply fmap_Some in Htok as (e & He & ->). rewrite (run_block He) in Hr. simplify_eq.
    eapply IH; [by apply (token_of_put _ _ _ e)|]. by apply block_token_typed, Ht.
  - apply fmap_Some in Htok as (e & He & ->). rewrite (run_change_state He) in Hr. simplify_eq.
    eapply IH; [by apply (token_of_put _ _ _ e)|]. by apply change_token_typed, Ht.
  - apply unblock_changed in Hr as [Htok' [is_current Hnew]].
    assert (tok = token) as -> by congruence.
    eapply IH; [exact Hnew|]. apply unblock_token_typed; [done|by apply Ht].
Qed.

(** C27: tokens stay well-formed, and a task whose token is well-formed is never stuck.  From a
    64-bit token whose state is an enumerator, after any sequence of blocking, unblocking and
    changes of state, the token is again one; [prs_task_get_state] then returns an enumerator and
    [prs_task_get_last_unblock_cause] a byte; and [prs_task_block], [prs_task_change_state] and
    [prs_task_unblock] return, the last one when the scheduler does. *)
Theorem task_token_typed `{!SchedReady, !SchedReadyKeeps} task n c c' token :
  changes task n c c' → token_of c task = Some token → token_typed token →
  (∃ now, token_of c' task = Some now ∧ token_typed now) ∧
  (∃ s : prs_task_state, run (prs_task_get_state task) c' = Ret (Some (s : Z), c')) ∧
  (∃ cause, 0 ≤ cause < 256 ∧ run (prs_task_get_last_unblock_cause task) c' = Ret (Some cause, c')) ∧
  (∃ blocked c'', run (prs_task_block task) c' = Ret (Some blocked, c'') ∧
     token_of c'' task = Some blocked ∧ token_typed blocked ∧ PRS_TASK_GET_STATE blocked = PRS_TASK_STATE_BLOCKED) ∧
  (∀ expected (s : prs_task_state), ∃ c'', run (prs_task_change_state task expected s) c' = Ret (Some tt, c'') ∧
     run (prs_task_get_state task) c'' = Ret (Some (s : Z), c'')) ∧
  (∀ self cur old cause, current_is c' self cur →
     (∀ c1, ∃ r c2, run (prs_sched_ready task) c1 = Ret (Some r, c2)) →
     ∃ b c'', run (prs_task_unblock self task old cause) c' = Ret (Some b, c'')).
Proof.
  intros Hch Htok Ht. destruct (changes_typed _ _ _ _ _ Hch Htok Ht) as (now & Hnow & Hnt).
  split; [by exists now|]. apply fmap_Some in Hnow as (e & He & ->). destruct Hnt as [Hnr [s Hs]].
  split_and!.
  - exists s. by rewrite (run_get_state He), Hs.
  - exists (PRS_TASK_GET_CAUSE (tk_state e)). split; [apply get_cause_range|].
    unfold prs_task_get_last_unblock_cause. by run_field.
  - exists (block_token (tk_state e)), (put_token task (block_token (tk_state e)) c').
    rewrite (run_block He). split_and!; [done|by apply (token_of_put _ _ _ e)|by apply block_token_typed|].
    by apply (new_token_count PRS_TASK_STATE_BLOCKED 0); [apply (state_code_range PRS_TASK_STATE_BLOCKED)|lia|].
  - intros expected s'. exists (put_token task (change_token (tk_state e) s') c').
    rewrite (run_change_state He). split; [done|].
    pose proof (token_of_put task (change_token (tk_state e) s') c' e He) as Hput.
    apply fmap_Some in Hput as (e1 & He1 & Heq). by rewrite (run_get_state He1), <- Heq, change_token_state.
  - intros self cur old cause Hcur Hready. rewrite (run_unblock He _ _ _ _ Hcur). cbv zeta.
    destruct (decide _); [|by eauto]. destruct (bool_decide _); [by eauto|].
    destruct (Hready (put_token task (unblock_token old false cause) c')) as (r & c2 & ->). eauto.
Qed.

(** A task that was blocked once. *)
Lemma task_token_typed_witness :
  ∃ now, token_of (demo_kern (block_token 2)) 1 = Some now ∧ token_typed now.
Proof.
  assert (run (prs_task_block 1) (demo_kern 2) = Ret (Some (block_token 2), demo_kern (block_token 2))) as Hb
    by (vm_compute; reflexivity).
  apply (task_token_typed (H := demo_sched_ready) (H0 := demo_sched_ready_keeps) 1 1 (demo_kern 2) _ 2).
  - exact (changes_block _ _ _ _ _ _ Hb (changes_nil _ _)).
  - reflexivity.
  - split; [unfold token_range; lia|by exists PRS_TASK_STATE_RUNNING].
Defined.
