(* ===== verification/Event.v ===== *)
(** * Blocking events (prs/event.c)

    An event is shared by its sources; the first that signals it unblocks the task,
    the last one that drops its reference frees it. *)

From S2P Require Import Prelude Heap Atomic RefDir Kern Pal Worker Task.

Definition PRS_EVENT_STATE_SIGNALED : Z := 1.
Definition PRS_EVENT_STATE_FREED : Z := 2.

Definition prs_event_create (task : loc) (refcnt : Z) : prog kern loc :=
  event ← alloc_block k_events with_events (PrsEvent 0 0 0 0);
  _ ← fatal_if (bool_decide (event = None));
  event ← nonnull event;
  id ← get_field k_tasks tk_id task;
  _ ← write (event_task_id event) id;
  token ← prs_task_block task;
  _ ← write (event_token event) token;
  _ ← write (event_initial_refcnt event) refcnt;
  _ ← prs_pal_atomic_store (event_refcnt event) refcnt;
  mret event.

Definition prs_event_destroy (event : loc) : prog kern unit := free_block k_events with_events event.

Section event.
Context `{!SchedReady, !ObjectFree}.


Definition prs_event_unref_internal (self : ptr) (event : loc) (signal : bool) (type : Z) :
    prog kern Z :=
  task_id ← read (event_task_id event);
  token ← read (event_token event);
  initial_refcnt ← read (event_initial_refcnt event);
  refcnt ← prs_pal_atomic_fetch_sub 64 (event_refcnt event) 1;
  state ← (if refcnt =? 1 then _ ← prs_event_destroy event; mret (Z.lor 0 PRS_EVENT_STATE_FREED)
           else mret 0);
  if (signal : bool) then
    task ← god_lock task_id;
    success ← match task with
              | Some task =>
                  success ← prs_task_unblock self task token type;
                  _ ← god_unlock task_id;
                  mret success
              | None => mret false
              end;
    mret (if (success : bool) then state else Z.lor state PRS_EVENT_STATE_SIGNALED)
  else mret state.

Definition prs_event_signal (self : ptr) (event : loc) (type : Z) : prog kern Z :=
  prs_event_unref_internal self event true type.
Definition prs_event_unref (self : ptr) (event : loc) : prog kern Z :=
  prs_event_unref_internal self event false 0.
Definition prs_event_cancel (event : loc) : prog kern unit := prs_event_destroy event.
End event.

(** ** The sources of an event

    Any number of threads share an event, each of which signals it or drops its
    reference, once. *)

Inductive source : Set :=
  | Signal (self : ptr) (type : Z)
  | Unref (self : ptr).

Definition source_self (s : source) : ptr := match s with Signal self _ | Unref self => self end.

Definition source_prog `{!SchedReady, !ObjectFree} (event : loc) (s : source) : prog kern Z :=
  match s with
  | Signal self type => prs_event_signal self event type
  | Unref self => prs_event_unref self event
  end.

(** What the proof remembers of the threads: which ones have dropped their
    reference on the event, which ones hold one on the task, which one has unblocked
    the task, and which one was the last to drop its reference and has to free
    the event. *)
Record e_ghost : Type := EGhost {
  g_dropped : gset nat;
  g_locked : gset nat;
  g_winner : option nat;
  g_last : option nat;
  g_freed : bool
}.

(** The parts of the memory that the event module writes. *)
Record event_touches (task_id : Z) (task : loc) (c c' : kern) : Prop := EventTouches {
  et_objs i : i ≠ task_id → k_objs c' !! i = k_objs c !! i;
  et_tasks t : t ≠ task → k_tasks c' !! t = k_tasks c !! t;
  et_task : set_tk_state 0 <$> k_tasks c' !! task = set_tk_state 0 <$> k_tasks c !! task;
  et_rest : (k_ids c', k_workers c', k_threads c', k_uds c', k_swprio c', k_swcoop c',
             k_sched_workers c', k_scheds c', k_queues c', k_dllists c', k_pal c') =
            (k_ids c, k_workers c, k_threads c, k_uds c, k_swprio c, k_swcoop c,
             k_sched_workers c, k_scheds c, k_queues c, k_dllists c, k_pal c)
}.

(** What the scheduler may do when it is told about the task: anything but to
    touch the event, the state and the references of the task, and what the
    workers run. *)
Record ready_frame (J : kern → Prop) (task_id : Z) (task : loc) (c c' : kern) : Prop := ReadyFrame {
  rf_events : k_events c' = k_events c;
  rf_live : heap_live (k_heap c') = heap_live (k_heap c);
  rf_token : token_of c' task = token_of c task;
  rf_objs : k_objs c' !! task_id = k_objs c !! task_id;
  rf_current w : wk_current_task <$> k_workers c' !! w = wk_current_task <$> k_workers c !! w;
  rf_inv : J c'
}.

(** The part of the ghost state that is about thread [j]. *)
Definition e_view (j : nat) (g : e_ghost) : bool * bool * bool * option bool :=
  (bool_decide (j ∈ g_dropped g), bool_decide (j ∈ g_locked g), bool_decide (g_winner g = Some j),
   if decide (g_last g = Some j) then Some (g_freed g) else None).

Lemma view_iff i d l w f g :
  e_view i g = (d, l, w, f) ↔
    (i ∈ g_dropped g ↔ d = true) ∧ (i ∈ g_locked g ↔ l = true) ∧ (g_winner g = Some i ↔ w = true) ∧
    match f with Some b => g_last g = Some i ∧ g_freed g = b | None => g_last g ≠ Some i end.
Proof.
  unfold e_view. split.
  - intros [= <- <- <- Hf]. rewrite !bool_decide_eq_true. split_and!; [done..|].
    rewrite <- Hf. by case_decide.
  - intros (Hd & Hl & Hw & Hf). f_equal; [f_equal; [f_equal|]|].
    + destruct d; [apply bool_decide_eq_true|apply bool_decide_eq_false]; naive_solver.
    + destruct l; [apply bool_decide_eq_true|apply bool_decide_eq_false]; naive_solver.
    + destruct w; [apply bool_decide_eq_true|apply bool_decide_eq_false]; naive_solver.
    + destruct f as [b|]; case_decide; naive_solver.
Qed.

Lemma view_other j g g' :
  (j ∈ g_dropped g' ↔ j ∈ g_dropped g) → (j ∈ g_locked g' ↔ j ∈ g_locked g) →
  (g_winner g' = Some j ↔ g_winner g = Some j) → (g_last g' = Some j ↔ g_last g = Some j) →
  (g_last g = Some j → g_freed g' = g_freed g) → e_view j g' = e_view j g.
Proof.
  intros Hd Hl Hw Hla Hf. destruct (e_view j g) as [[[d l] w] f] eqn:Hv.
  apply view_iff in Hv as (Hd' & Hl' & Hw' & Hf'). apply view_iff.
  rewrite Hd, Hl, Hw. split_and!; [done..|]. destruct f; naive_solver.
Qed.

Section protocol.
Context `{!SchedReady, !ObjectFree}.
Context (sources : list source) (ev : loc) (task_id : Z) (task : loc) (ops : object_ops).
(** What the thread of a source runs; a source may run as the task that waits. *)
Context (running : ptr → ptr).
Context (token initial : Z) (base : nat) (J : kern → Prop).
Let n := length sources.
Hypothesis sources_fit : (0 < n)%nat ∧ Z.of_nat n < 2 ^ 64.
Hypothesis base_pos : (0 < base)%nat.
Hypothesis J_stable : ∀ c c', event_touches task_id task c c' → J c → J c'.
Hypothesis ready_ok : within J (ready_frame J task_id task) (prs_sched_ready task).

Definition is_own (self : ptr) : bool := bool_decide (Some task = running self).

(** The state of the task once thread [w] has unblocked it. *)
Definition winner_token (w : option nat) : Z :=
  match w ≫= λ i, sources !! i with
  | Some (Signal self type) => unblock_token token (is_own self) type
  | _ => token
  end.

Record e_inv (c : kern) (g : e_ghost) : Prop := EInv {
  ei_dropped i : i ∈ g_dropped g → (i < n)%nat;
  ei_locked i : i ∈ g_locked g → (i < n)%nat;
  ei_last : is_Some (g_last g) ↔ size (g_dropped g) = n;
  ei_last_dropped i : g_last g = Some i → i ∈ g_dropped g;
  ei_freed : g_freed g = true → is_Some (g_last g);
  ei_event :
    if g_freed g then k_events c !! ev = None ∧ ev ∉ heap_live (k_heap c)
    else k_events c !! ev =
           Some (PrsEvent task_id token initial (Z.of_nat (n - size (g_dropped g)))) ∧
         ev ∈ heap_live (k_heap c);
  ei_objs : k_objs c !! task_id = Some ((base + size (g_locked g))%nat, (task, ops));
  ei_token : token_of c task = Some (winner_token (g_winner g));
  ei_winner i : g_winner g = Some i → ∃ self type, sources !! i = Some (Signal self type);
  ei_current s : s ∈ sources → current_is c (source_self s) (running (source_self s));
  ei_J : J c
}.

Definition e_mono (g g' : e_ghost) : Prop :=
  (is_Some (g_winner g) → g_winner g' = g_winner g) ∧ (is_Some (g_last g) → g_last g' = g_last g).

Definition e_rely (j : nat) (s s' : kern * e_ghost) : Prop :=
  (e_inv s.1 s.2 → e_inv s'.1 s'.2) ∧ e_view j s'.2 = e_view j s.2 ∧ e_mono s.2 s'.2.
Definition e_guar (i : nat) (s s' : kern * e_ghost) : Prop :=
  (e_inv s.1 s.2 → e_inv s'.1 s'.2) ∧ (∀ j, j ≠ i → e_view j s'.2 = e_view j s.2) ∧ e_mono s.2 s'.2.

#[local] Instance e_rely_preorder j : PreOrder (e_rely j).
Proof.
  split.
  - intros s. split_and!; [done|done|by split].
  - intros s1 s2 s3 (H1 & H2 & H3 & H4) (K1 & K2 & K3 & K4). split_and!; [auto|congruence|].
    split; intros Hs.
    + rewrite K3; [by apply H3|]. by rewrite H3.
    + rewrite K4; [by apply H4|]. by rewrite H4.
Qed.

Lemma e_guar_rely i j s s' : i ≠ j → e_guar i s s' → e_rely j s s'.
Proof. intros Hne (H1 & H2 & H3). split_and!; [done|by apply H2|done]. Qed.

(** Where thread [i] is: in the invariant, with its view of the ghost state. *)
Definition here (i : nat) (v : bool * bool * bool * option bool) (c : kern) (g : e_ghost) : Prop :=
  e_inv c g ∧ e_view i g = v.

Lemma here_rely i v c g c' g' : e_rely i (c, g) (c', g') → here i v c g → here i v c' g'.
Proof. intros (H1 & H2 & _) [HI Hv]. simpl in *. split; [auto|congruence]. Qed.

(** The event is there as long as a thread holds its reference. *)
Lemma size_not_dropped (i : nat) (D : gset nat) :
  (i < n)%nat → i ∉ D → (∀ j, j ∈ D → (j < n)%nat) → (size D < n)%nat.
Proof.
  intros Hi Hd Hlt. assert (D ⊆ set_seq 0 n ∖ {[ i ]}) as Hsub.
  { intros j Hj. apply elem_of_difference. split; [apply elem_of_set_seq; specialize (Hlt j Hj); lia|].
    intros ->%elem_of_singleton. done. }
  apply subseteq_size in Hsub. rewrite size_difference in Hsub.
  - rewrite size_set_seq, size_singleton in Hsub. lia.
  - intros j ->%elem_of_singleton. apply elem_of_set_seq. lia.
Qed.

Lemma event_present i c g :
  (i < n)%nat → i ∉ g_dropped g → e_inv c g →
  (size (g_dropped g) < n)%nat ∧ g_freed g = false ∧
  k_events c !! ev = Some (PrsEvent task_id token initial (Z.of_nat (n - size (g_dropped g)))).
Proof.
  intros Hi Hd HI. assert (size (g_dropped g) < n)%nat as Hs
    by (eapply size_not_dropped; [done|done|apply HI]).
  pose proof (ei_event _ _ HI) as He. destruct (g_freed g) eqn:Hf.
  - apply HI in Hf. apply (ei_last _ _ HI) in Hf. lia.
  - tauto.
Qed.

(** *** The atomic actions *)

Lemma e_guar_intro i c g c' g' :
  (e_inv c g → e_inv c' g') → (∀ j, j ≠ i → e_view j g' = e_view j g) → e_mono g g' →
  e_guar i (c, g) (c', g').
Proof. done. Qed.

Lemma e_guar_same i s : e_guar i s s.
Proof. split_and!; [done|done|by split]. Qed.

Lemma current_kept s c c' cur :
  (∀ w, wk_current_task <$> k_workers c' !! w = wk_current_task <$> k_workers c !! w) →
  current_is c (source_self s) cur → current_is c' (source_self s) cur.
Proof. intros Hw. unfold current_is. destruct (source_self s) as [w|]; [by rewrite Hw|done]. Qed.

Lemma current_inv c c' :
  (∀ w, wk_current_task <$> k_workers c' !! w = wk_current_task <$> k_workers c !! w) →
  (∀ s, s ∈ sources → current_is c (source_self s) (running (source_self s))) →
  ∀ s, s ∈ sources → current_is c' (source_self s) (running (source_self s)).
Proof.
  intros Hw Hall s Hs. eapply current_kept; [done|by apply Hall].
Qed.

(** A reference on the event is dropped. *)
Definition drop_ghost (i : nat) (g : e_ghost) : e_ghost :=
  EGhost ({[ i ]} ∪ g_dropped g) (g_locked g) (g_winner g)
    (if decide (S (size (g_dropped g)) = n) then Some i else g_last g) (g_freed g).

Lemma drop_step i l w c g :
  (i < n)%nat → here i (false, l, w, None) c g →
  let m := (n - size (g_dropped g))%nat in
  let c' := with_events (<[ev := PrsEvent task_id token initial (Z.of_nat (m - 1))]> (k_events c)) c in
  e_guar i (c, g) (c', drop_ghost i g) ∧
  here i (true, l, w, if decide (m = 1%nat) then Some false else None) c' (drop_ghost i g).
Proof using All.
  intros Hi Hh m c'. pose proof Hh as [HI Hv]. assert (i ∉ g_dropped g) as Hd.
  { apply view_iff in Hv. naive_solver. }
  destruct (event_present i c g Hi Hd HI) as (Hs & Hf & He).
  assert (size ({[ i ]} ∪ g_dropped g) = S (size (g_dropped g))) as Hsz.
  { rewrite size_union, size_singleton by set_solver. done. }
  assert (g_last g = None) as Hl.
  { apply eq_None_not_Some. intros Hl. apply (ei_last _ _ HI) in Hl. lia. }
  assert (e_inv c' (drop_ghost i g)) as HI'.
  { destruct HI. split; simpl; try done.
    - intros j [->%elem_of_singleton|Hj]%elem_of_union; auto.
    - rewrite Hsz. destruct (decide (S (size (g_dropped g)) = n)); [done|]. rewrite ei_last0. lia.
    - intros j. rewrite Hl. destruct (decide (S (size (g_dropped g)) = n)); [|done]. intros [= <-]. set_solver.
    - rewrite Hf. done.
    - rewrite Hf in ei_event0 |- *. split; [|tauto]. rewrite lookup_insert_eq, Hsz. do 3 f_equal. unfold m. lia.
    - eapply J_stable; [|done]. by split. }
  split.
  - apply e_guar_intro; [done| |split; simpl; [done|rewrite Hl; by intros [??]]].
    intros j Hj. apply view_other; simpl; [set_solver|done..| |done].
    rewrite Hl. case_decide; naive_solver.
  - split; [done|]. apply view_iff in Hv as (_ & Hv2 & Hv3 & _). apply view_iff. simpl.
    split_and!; [set_solver|done|done|]. rewrite Hl, Hf. unfold m.
    repeat case_decide; try done; lia.
Qed.

(** The last reference frees the event. *)
Definition free_ghost (g : e_ghost) : e_ghost :=
  EGhost (g_dropped g) (g_locked g) (g_winner g) (g_last g) true.

Lemma free_step i d l w c g :
  here i (d, l, w, Some false) c g →
  ∃ c', (h ← prs_pal_free (Some ev) (k_heap c);
         Ret (tt, with_events (delete ev (k_events c)) (with_heap h c))) = Ret (tt, c') ∧
    is_Some (k_events c !! ev) ∧
    e_guar i (c, g) (c', free_ghost g) ∧ here i (d, l, w, Some true) c' (free_ghost g).
Proof using All.
  intros [HI Hv]. pose proof Hv as (_ & _ & _ & Hlast & Hf)%view_iff.
  pose proof (ei_event _ _ HI) as He. rewrite Hf in He. destruct He as [He Hlive].
  unfold prs_pal_free. rewrite (free_live _ _ Hlive). ocbn. eexists. split; [done|]. split; [by rewrite He|].
  assert (∀ c', c' = with_events (delete ev (k_events c)) (with_heap
    (Heap (heap_live (k_heap c) ∖ {[ev]}) (heap_answers (k_heap c))) c) → e_inv c' (free_ghost g)) as HI'.
  { intros c' ->. destruct HI. split; simpl; try done.
    - split; [by rewrite lookup_delete_eq|set_solver].
    - eapply J_stable; [|done]. by split. }
  split.
  - apply e_guar_intro; [intros _; by apply HI'| |by split].
    intros j Hj. apply view_other; simpl; try done. rewrite Hlast. congruence.
  - split; [by apply HI'|]. apply view_iff in Hv as (? & ? & ? & _). by apply view_iff.
Qed.

(** The task is locked and unlocked. *)
Definition lock_ghost (i : nat) (g : e_ghost) : e_ghost :=
  EGhost (g_dropped g) ({[ i ]} ∪ g_locked g) (g_winner g) (g_last g) (g_freed g).
Definition unlock_ghost (i : nat) (g : e_ghost) : e_ghost :=
  EGhost (g_dropped g) (g_locked g ∖ {[ i ]}) (g_winner g) (g_last g) (g_freed g).

Lemma objs_step i d l w f c g (L : gset nat) l' :
  (i < n)%nat → here i (d, l, w, f) c g →
  (∀ j, j ≠ i → j ∈ L ↔ j ∈ g_locked g) → (i ∈ L ↔ l' = true) →
  let c' := with_objs (<[task_id := ((base + size L)%nat, (task, ops))]> (k_objs c)) c in
  let g' := EGhost (g_dropped g) L (g_winner g) (g_last g) (g_freed g) in
  e_guar i (c, g) (c', g') ∧ here i (d, l', w, f) c' g'.
Proof using All.
  intros Hi [HI Hv] HL Hl' c' g'.
  assert (e_inv c' g') as HI'.
  { destruct HI. split; simpl; try done.
    - intros j Hj. destruct (decide (j = i)) as [->|Hne]; [done|]. apply ei_locked0. by apply HL.
    - by rewrite lookup_insert_eq.
    - eapply J_stable; [|done]. split; try done. intros k Hk. simpl. by rewrite lookup_insert_ne. }
  split.
  - apply e_guar_intro; [done| |by split]. intros j Hj.
    apply view_other; simpl; auto.
  - split; [done|]. apply view_iff in Hv as (? & _ & ? & ?). by apply view_iff.
Qed.

(** The task is unblocked. *)
Definition win_ghost (i : nat) (g : e_ghost) : e_ghost :=
  EGhost (g_dropped g) (g_locked g) (Some i) (g_last g) (g_freed g).

Lemma win_step i d l f self type c g e :
  sources !! i = Some (Signal self type) → g_winner g = None → k_tasks c !! task = Some e →
  here i (d, l, false, f) c g →
  let c' := with_tasks (<[task := set_tk_state (unblock_token token (is_own self) type) e]> (k_tasks c)) c in
  e_guar i (c, g) (c', win_ghost i g) ∧ here i (d, l, true, f) c' (win_ghost i g).
Proof using All.
  intros Hi Hw He [HI Hv] c'.
  assert (e_inv c' (win_ghost i g)) as HI'.
  { destruct HI. split; simpl; try done.
    - unfold token_of. simpl. rewrite lookup_insert_eq. unfold winner_token. simpl. by rewrite Hi.
    - intros j [= <-]. by exists self, type.
    - eapply J_stable; [|done]. split; try done; simpl.
      + intros t Ht. by rewrite lookup_insert_ne.
      + rewrite lookup_insert_eq, He. done. }
  split.
  - apply e_guar_intro; [done| |split; simpl; [|done]].
    + intros j Hj. apply view_other; simpl; try done. rewrite Hw. naive_solver.
    + rewrite Hw. by intros [? ?].
  - split; [done|]. apply view_iff in Hv as (? & ? & _ & ?). by apply view_iff.
Qed.

Lemma winner_rely i c g c' g' :
  e_rely i (c, g) (c', g') → is_Some (g_winner g) → is_Some (g_winner g').
Proof. intros (_ & _ & Hm & _) Hw. simpl in Hm. by rewrite Hm. Qed.

Lemma winner_guar i c g c' g' :
  e_guar i (c, g) (c', g') → is_Some (g_winner g) → is_Some (g_winner g').
Proof. intros (_ & _ & Hm & _) Hw. simpl in Hm. by rewrite Hm. Qed.

(** *** The threads *)

Abbreviation erg i := (rg False False True (e_rely i) (e_guar i)).

(** An access to the event by a thread that holds its reference. *)
Lemma read_event {V A : Type} (f : prs_event → V) set_ i c g (k : V → prog kern A) Q :
  (i < n)%nat → here i (false, false, false, None) c g →
  (∀ m, let e := PrsEvent task_id token initial m in
    ∀ c1 g1, here i (false, false, false, None) c1 g1 → erg i (k (f e)) Q c1 g1) →
  erg i (read (field k_events with_events f set_ ev) ≫= k) Q c g.
Proof using All.
  intros Hi Hh Hk. unfold read. rg_bind_load. intros c1 g1 HR. apply (here_rely _ _ _ _ _ _ HR) in Hh.
  pose proof Hh as [HI Hv]. apply view_iff in Hv as (Hd & _).
  destruct (event_present i c1 g1 Hi ltac:(naive_solver) HI) as (_ & _ & He).
  eexists. split; [by apply field_get|]. split; [apply e_guar_same|]. by apply Hk.
Qed.

(** A finished thread: how many bits its result has. *)
Definition source_result (s : source) (won : bool) (last : option bool) : Z :=
  Z.lor (match last with Some _ => PRS_EVENT_STATE_FREED | None => 0 end)
        (match s with
         | Signal _ _ => if won then 0 else PRS_EVENT_STATE_SIGNALED
         | Unref _ => 0
         end).

Definition source_post (i : nat) (s : source) (r : Z) (c : kern) (g : e_ghost) : Prop :=
  ∃ won last, here i (true, false, won, last) c g ∧ last ≠ Some false ∧
    r = source_result s won last ∧ match s with Signal _ _ => is_Some (g_winner g) | _ => True end.

Lemma source_post_rely i s r c g c' g' :
  e_rely i (c, g) (c', g') → source_post i s r c g → source_post i s r c' g'.
Proof.
  intros HR (won & last & Hh & Hl & Hr & Hw). exists won, last.
  split; [by eapply here_rely|]. split_and!; [done..|].
  destruct s; [|done]. destruct HR as (_ & _ & Hm & _). simpl in Hm. by rewrite Hm.
Qed.

Lemma current_rg i v s c g Q :
  s ∈ sources → here i v c g →
  (∀ c g, here i v c g → Q (running (source_self s)) c g) →
  erg i (prs_task_current (source_self s)) Q c g.
Proof using All.
  intros Hs Hh HQ. unfold prs_task_current, prs_worker_current.
  assert (∀ c g, here i v c g → current_is c (source_self s) (running (source_self s))) as Hcur.
  { intros c1 g1 [HI _]. by apply (ei_current _ _ HI). }
  destruct (source_self s) as [w|].
  - unfold prs_worker_get_current_task, read. rg_act. intros c1 g1 HR.
    apply (here_rely _ _ _ _ _ _ HR) in Hh. pose proof (Hcur _ _ Hh) as Hc. cbn in Hc.
    apply fmap_Some in Hc as (e & He & Hrun). exists (wk_current_task e), c1, g1.
    split; [cbn; by rewrite He|]. split; [apply e_guar_same|].
    intros c3 g3 HR3. rewrite <- Hrun. apply HQ. by eapply here_rely.
  - apply rg_done. intros c1 g1 HR. pose proof (Hcur _ _ Hh) as Hc. cbn in Hc. rewrite <- Hc.
    apply HQ. by eapply here_rely.
Qed.

(** Telling the scheduler. *)
Lemma ready_rg i v c g :
  here i v c g → erg i (prs_sched_ready task) (λ _ c' g', here i v c' g') c g.
Proof using All.
  intros Hh. eapply (rg_within _ _ _ _ _ _ J (ready_frame J task_id task) (here i v)); [| | |done|done].
  - intros c1 g1 c2 g2. apply here_rely.
  - intros c1 g1 [HI _]. apply HI.
  - intros c1 c2 g1 [HI Hv] [He Hl Ht Ho Hw HJ].
    assert (e_inv c2 g1) as HI2.
    { destruct HI. split; try done; try congruence.
      - destruct (g_freed g1); by rewrite He, Hl.
      - eapply current_inv; [|done]. done. }
    split; [by split|]. apply e_guar_intro; [done|done|by split].
Qed.

Lemma unblock_rg i self type f c g :
  token_range token → sources !! i = Some (Signal self type) → here i (true, true, false, f) c g →
  erg i (prs_task_unblock self task token type)
    (λ won c' g', here i (true, true, won, f) c' g' ∧ is_Some (g_winner g')) c g.
Proof using All.
  intros Ht Hi Hh. unfold prs_task_unblock. rg_bind.
  apply current_rg with (s := Signal self type) (v := (true, true, false, f));
    [by eapply list_elem_of_lookup_2|done|]. clear c g Hh.
  intros c g Hh. cbn [source_self]. fold (is_own self).
  rg_bind_cas_strong. intros c1 g1 HR. apply (here_rely _ _ _ _ _ _ HR) in Hh. clear c g HR.
  pose proof Hh as [HI Hv]. pose proof (ei_token _ _ HI) as Htok.
  apply fmap_Some in Htok as (e & He & Hst). exists (tk_state e). split; [by apply field_get|].
  destruct (decide (tk_state e = token)) as [Heq|Hne'].
  - assert (g_winner g1 = None) as Hw.
    { apply eq_None_not_Some. intros [k Hk]. destruct (ei_winner _ _ HI k Hk) as (self' & type' & Hs).
      rewrite Hk in Hst. unfold winner_token in Hst. simpl in Hst. rewrite Hs in Hst.
      apply (unblock_token_ne token (is_own self') type'); congruence. }
    eexists _, (win_ghost i g1). split; [by apply field_set|].
    destruct (win_step i true true f self type c1 g1 e Hi Hw He Hh) as [HG Hh2].
    split; [exact HG|]. cbn iota beta.
    assert (∀ c3 g3, here i (true, true, true, f) c3 g3 → here i (true, true, true, f) c3 g3 ∧ is_Some (g_winner g3)) as Hwon.
    { intros c3 g3 Hh3. split; [done|]. destruct Hh3 as [_ Hv3]. apply view_iff in Hv3 as (_ & _ & Hw3 & _).
      exists i. by apply Hw3. }
    destruct (is_own self).
    + apply rg_done. intros c3 g3 HR. apply Hwon. by eapply here_rely.
    + rg_bind. eapply rg_mono; [|apply (ready_rg i _ _ _ Hh2)].
      intros r c2 g2 Hh3. apply rg_done. intros c3 g3 HR. apply Hwon. by eapply here_rely.
  - split; [apply e_guar_same|]. apply rg_done. intros c2 g2 HR.
    split; [by eapply here_rely|]. destruct HR as (_ & _ & Hm & _). simpl in Hm.
    assert (is_Some (g_winner g1)) as Hw.
    { destruct (g_winner g1) as [k|] eqn:Hk; [by exists k|]. unfold winner_token in Hst. simpl in Hst. done. }
    by rewrite Hm.
Qed.


Lemma unlock_rg i d w f c g :
  (i < n)%nat → here i (d, true, w, f) c g →
  erg i (god_unlock task_id) (λ _ c' g', here i (d, false, w, f) c' g') c g.
Proof using All.
  intros Hi Hh. unfold god_unlock. rg_bind_act. intros c1 g1 HR.
  apply (here_rely _ _ _ _ _ _ HR) in Hh. pose proof Hh as [HI Hv].
  apply view_iff in Hv as (_ & Hl & _). assert (i ∈ g_locked g1) as Hin by by apply Hl.
  assert (size (g_locked g1) = S (size (g_locked g1 ∖ {[i]}))) as Hsz.
  { rewrite size_difference, size_singleton by set_solver.
    assert (size (g_locked g1) ≠ 0%nat) by (apply size_non_empty_iff; set_solver). lia. }
  set (k := size (g_locked g1 ∖ {[i]})) in *.
  rewrite (ei_objs _ _ HI), Hsz. replace (base + S k)%nat with (S (S (pred base + k))) by lia.
  destruct (objs_step i d true w f c1 g1 (g_locked g1 ∖ {[i]}) false Hi Hh) as [HG Hh2]; [set_solver..|].
  fold k in HG, Hh2. replace (base + k)%nat with (S (pred base + k)) in HG, Hh2 by lia.
  eexists None, _, _. split; [reflexivity|]. split; [exact HG|].
  apply rg_done. intros c3 g3 HR3. by eapply here_rely.
Qed.

Lemma lock_rg {A : Type} i d w f c g (k : ptr → prog kern A) Q :
  (i < n)%nat → here i (d, false, w, f) c g →
  (∀ c1 g1, here i (d, true, w, f) c1 g1 → erg i (k (Some task)) Q c1 g1) →
  erg i (god_lock task_id ≫= k) Q c g.
Proof using All.
  intros Hi Hh Hk. unfold god_lock. rg_bind_act. intros c1 g1 HR.
  apply (here_rely _ _ _ _ _ _ HR) in Hh. pose proof Hh as [HI Hv].
  apply view_iff in Hv as (_ & Hl & _). assert (i ∉ g_locked g1) as Hin by naive_solver.
  rewrite (ei_objs _ _ HI).
  destruct (objs_step i d false w f c1 g1 ({[i]} ∪ g_locked g1) true Hi Hh) as [HG Hh2];
    [set_solver|set_solver|]. rewrite size_union, size_singleton in HG, Hh2 by set_solver.
  replace (base + (1 + size (g_locked g1)))%nat with (S (base + size (g_locked g1))) in HG, Hh2 by lia.
  eexists (Some task), _, _. split; [reflexivity|]. split; [exact HG|]. by apply Hk.
Qed.

(** The last reference frees the event, the others do not touch it. *)
Lemma drop_rg {A : Type} i c g (k : Z → prog kern A) Q :
  (i < n)%nat → here i (false, false, false, None) c g →
  (∀ last c1 g1, last ≠ Some false → here i (true, false, false, last) c1 g1 →
    erg i (k (match last with Some _ => PRS_EVENT_STATE_FREED | None => 0 end)) Q c1 g1) →
  erg i (refcnt ← prs_pal_atomic_fetch_sub 64 (event_refcnt ev) 1;
         state ← (if refcnt =? 1 then _ ← prs_event_destroy ev; mret (Z.lor 0 PRS_EVENT_STATE_FREED)
                  else mret 0);
         k state) Q c g.
Proof using All.
  intros Hi Hh Hk. unfold prs_pal_atomic_fetch_sub, atomic_update. rg_bind_act. intros c1 g1 HR.
  apply (here_rely _ _ _ _ _ _ HR) in Hh. pose proof Hh as [HI Hv]. apply view_iff in Hv as (Hd & _).
  destruct (event_present i c1 g1 Hi ltac:(naive_solver) HI) as (Hs & _ & He).
  destruct (drop_step i false false c1 g1 Hi Hh) as [HG Hh2]. cbv zeta in HG, Hh2.
  set (m := (n - size (g_dropped g1))%nat) in *.
  eexists (Z.of_nat m), _, (drop_ghost i g1). split; [|split; [exact HG|]].
  { cbn. rewrite He. ocbn. unfold set_ev_refcnt. simpl. do 4 f_equal. do 2 f_equal.
    rewrite Z.mod_small; lia. }
  destruct (decide (m = 1%nat)) as [Hm|Hm].
  - rewrite (proj2 (Z.eqb_eq _ _)) by lia. rg_bind. unfold prs_event_destroy, free_block.
    rg_bind_act. intros c2 g2 HR2. apply (here_rely _ _ _ _ _ _ HR2) in Hh2.
    destruct (free_step i true false false c2 g2 Hh2) as (c3 & Hf & [e2 He2] & HG3 & Hh3).
    exists tt, c3, (free_ghost g2). rewrite He2. ocbn. split; [exact Hf|]. split; [exact HG3|].
    apply rg_done. intros c4 g4 HR4. apply (Hk (Some true)); [done|]. by eapply here_rely.
  - rewrite (proj2 (Z.eqb_neq _ _)) by lia. rg_bind. apply rg_done. intros c4 g4 HR4.
    apply (Hk None); [done|]. by eapply here_rely.
Qed.

Lemma source_rg i s c g :
  token_range token → sources !! i = Some s → here i (false, false, false, None) c g →
  erg i (source_prog ev s) (source_post i s) c g.
Proof using All.
  intros Ht Hs Hh. assert (i < n)%nat as Hi by by eapply lookup_lt_Some.
  assert (source_prog ev s = prs_event_unref_internal (source_self s) ev
    (match s with Signal _ _ => true | Unref _ => false end)
    (match s with Signal _ type => type | Unref _ => 0 end)) as -> by by destruct s.
  unfold prs_event_unref_internal. apply read_event; [done|done|]. clear c g Hh. intros m1 e1 c g Hh.
  apply read_event; [done|done|]. clear c g Hh. intros m2 e2 c g Hh.
  apply read_event; [done|done|]. clear c g Hh. intros m3 e3 c g Hh.
  apply drop_rg; [done|done|]. clear c g Hh. intros last c g Hl Hh.
  destruct s as [self type|self]; cbv beta iota delta [source_self].
  - apply (lock_rg _ _ _ _ _ _ _ _ Hi Hh). clear c g Hh. intros c g Hh. rg_bind. rg_bind.
    eapply rg_mono; [|by eapply unblock_rg]. clear c g Hh. intros won c g [Hh Hw]. rg_bind.
    eapply rg_mono; [|eapply rg_frame with (P := λ _ g, is_Some (g_winner g));
      [apply winner_rely|apply winner_guar|exact Hw|by apply unlock_rg]].
    clear c g Hh Hw. intros u c g HP. cbv beta in HP. destruct HP as [Hh Hw]. apply rg_done.
    intros c1 g1 HR1. apply rg_done. intros c2 g2 HR2. apply (source_post_rely _ _ _ _ _ _ _ HR2).
    exists won, last. split; [by eapply here_rely|]. split; [done|]. split; [by destruct won, last|].
    by eapply winner_rely.
  - apply rg_done. intros c1 g1 HR1. apply (source_post_rely _ _ _ _ _ _ _ HR1).
    exists false, last. split_and!; [done..| |done]. by destruct last.
Qed.

(** *** All the threads *)

Definition event_start (c : kern) : Prop :=
  k_events c !! ev = Some (PrsEvent task_id token initial (Z.of_nat n)) ∧
  ev ∈ heap_live (k_heap c) ∧
  k_objs c !! task_id = Some (base, (task, ops)) ∧
  token_of c task = Some token ∧
  (∀ s, s ∈ sources → current_is c (source_self s) (running (source_self s))) ∧ J c.

(** What the threads return, and what is left: [last] freed the event, [winner]
    unblocked the task. *)
Definition event_outcome (last : nat) (winner : option nat) (results : list Z) (c : kern) : Prop :=
  results = imap (λ i s, source_result s (bool_decide (winner = Some i))
    (if decide (last = i) then Some true else None)) sources ∧
  (last < n)%nat ∧
  match winner with
  | Some i => ∃ self type, sources !! i = Some (Signal self type)
  | None => ∀ s, s ∈ sources → ∃ self, s = Unref self
  end ∧
  k_events c !! ev = None ∧ ev ∉ heap_live (k_heap c) ∧
  token_of c task = Some (winner_token winner) ∧
  k_objs c !! task_id = Some (base, (task, ops)).

Lemma start_inv c : event_start c → e_inv c (EGhost ∅ ∅ None None false).
Proof using sources_fit base_pos.
  intros (He & Hl & Ho & Ht & Hc & HJ).
  split; cbn [g_dropped g_locked g_winner g_last g_freed]; rewrite ?size_empty; try done.
  - split; [by intros [??]|lia].
  - by rewrite Nat.sub_0_r.
  - by rewrite Nat.add_0_r.
Qed.

Lemma finished_outcome c g results :
  length results = n → e_inv c g →
  (∀ i s r, sources !! i = Some s → results !! i = Some r → source_post i s r c g) →
  ∃ last, event_outcome last (g_winner g) results c.
Proof using All.
  intros Hlen HI Hpost.
  assert (∀ i s, sources !! i = Some s → ∃ r, results !! i = Some r ∧ source_post i s r c g) as Hall.
  { intros i s Hs. destruct (lookup_lt_is_Some_2 results i) as [r Hr];
      [rewrite Hlen; by eapply lookup_lt_Some|]. exists r. auto. }
  assert (∀ i, (i < n)%nat → i ∈ g_dropped g ∧ i ∉ g_locked g ∧ (g_last g = Some i → g_freed g = true)) as Hv.
  { intros i Hi. destruct (lookup_lt_is_Some_2 sources i Hi) as [s Hs].
    destruct (Hall i s Hs) as (r & _ & won & la & [_ Hv] & Hla & _). apply view_iff in Hv.
    destruct la as [[]|]; naive_solver. }
  assert (g_locked g = ∅) as Hl.
  { apply set_eq. intros i. split; [|by intros ?%not_elem_of_empty]. intros Hi.
    by destruct (Hv i (ei_locked _ _ HI i Hi)) as (_ & ? & _). }
  assert (is_Some (g_last g)) as [last Hlast].
  { apply (ei_last _ _ HI). rewrite <- (size_set_seq (C := gset nat) 0 n). f_equal. apply set_eq. intros i.
    rewrite elem_of_set_seq. split; [intros Hi; apply HI in Hi; lia|intros Hi; apply Hv; lia]. }
  pose proof (ei_dropped _ _ HI _ (ei_last_dropped _ _ HI last Hlast)) as Hlt.
  assert (g_freed g = true) as Hf by (by apply (Hv last Hlt)).
  pose proof (ei_event _ _ HI) as He. rewrite Hf in He. destruct He as [He Hlive].
  exists last. split; [|split; [done|]]; [|split].
  - apply list_eq. intros i. rewrite list_lookup_imap.
    destruct (sources !! i) as [s|] eqn:Hs; simpl.
    + destruct (Hall i s Hs) as (r & -> & won & la & [_ Hvi] & Hla & -> & _). f_equal. f_equal.
      * apply view_iff in Hvi as (_ & _ & Hw & _). destruct won; [rewrite bool_decide_true|rewrite bool_decide_false]; naive_solver.
      * apply view_iff in Hvi as (_ & _ & _ & Hw). case_decide; destruct la as [[]|]; naive_solver.
    + apply lookup_ge_None. apply lookup_ge_None in Hs. unfold n in Hlen. lia.
  - destruct (g_winner g) as [i|] eqn:Hw; [by apply (ei_winner _ _ HI)|].
    intros s Hs. apply list_elem_of_lookup in Hs as [i Hs]. destruct s as [self type|self]; [|by exists self].
    destruct (Hall i _ Hs) as (r & _ & won & la & _ & _ & _ & [k Hk]). congruence.
  - split_and!; [done|done|apply HI|]. rewrite (ei_objs _ _ HI), Hl, size_empty. by rewrite Nat.add_0_r.
Qed.
(** Only one thread can have unblocked the task, given what the threads returned. *)
Lemma outcome_winner last1 last2 w1 w2 results c :
  event_outcome last1 w1 results c → event_outcome last2 w2 results c → w1 = w2.
Proof using Type.
  assert (∀ i last1 last2 w2 w1, w1 = Some i → event_outcome last1 w1 results c → event_outcome last2 w2 results c → w2 = Some i) as Hone.
  { intros i l1 l2 w2' w1' -> (-> & _ & (self & type & Hi) & _) (Heq & _).
    apply (f_equal (λ l, l !! i)) in Heq. rewrite !list_lookup_imap, Hi in Heq. cbn in Heq. injection Heq as Heq.
    rewrite bool_decide_true in Heq by done. destruct (bool_decide_reflect (w2' = Some i)) as [|Hne]; [done|].
    exfalso. by repeat case_decide. }
  intros H1 H2. destruct w1 as [i|]; [symmetry; by eapply Hone|]. destruct w2 as [i|]; [|done]. by eapply (Hone i).
Qed.

(** How the threads got there: [(c, ps)] is any state on the way from the first one to
    [(c', Done <$> results)]. *)
Record event_on_the_way (winner : option nat) (s0 s s' : kern * list (prog kern Z)) : Prop := EventOnTheWay {
  (** The first change of the task by a source is the last one. *)
  ow_first v : token_of s.1 task = Some v → v ≠ token → token_of s'.1 task = Some v;
  (** No source that signals has finished before that. *)
  ow_undecided i self type r :
    token_of s.1 task = Some token → sources !! i = Some (Signal self type) → s.2 !! i ≠ Some (Done r);
  (** As long as a source has not started, the event is there, and if another one has changed
      the task by then, it is not the one that unblocks it. *)
  ow_unstarted i : (i < n)%nat → rtc (step_without i) s0 s →
    is_Some (k_events s.1 !! ev) ∧ ev ∈ heap_live (k_heap s.1) ∧ (token_of s.1 task ≠ Some token → winner ≠ Some i)
}.

Definition event_results (i : nat) (r : Z) (c : kern) (g : e_ghost) : Prop :=
  ∀ s, sources !! i = Some s → source_post i s r c g.
Abbreviation event_pool := (pool_ok False False True (λ _ _, False) e_rely e_guar event_results).

Lemma start_pool c : token_range token → event_start c → event_pool e_inv c (EGhost ∅ ∅ None None false) (source_prog ev <$> sources).
Proof using All.
  intros Ht Hstart. split; [by apply start_inv|]. intros i p Hp. rewrite list_lookup_fmap in Hp.
  destruct (sources !! i) as [s|] eqn:Hs; simplify_eq/=.
  eapply rg_mono; [|eapply source_rg; [exact Ht|exact Hs|]].
  - intros r c1 g1 Hpost s' Hs'. by simplify_eq.
  - split; [by apply start_inv|]. apply view_iff. naive_solver set_solver.
Qed.

(** From a state on the way to the end. *)
Lemma pool_finish c g ps c' results :
  event_pool e_inv c g ps → length ps = n → rtc pool_step (c, ps) (c', Done <$> results) →
  ∃ last w, event_outcome last w results c' ∧ token_of c' task = Some (winner_token w) ∧ (is_Some (g_winner g) → w = g_winner g).
Proof using All.
  intros [HI Hps] Hlen Hr.
  destruct (pool_adequate False False True (λ _ _, False) I e_rely e_guar event_results
    (λ c2 g2, e_inv c2 g2 ∧ (is_Some (g_winner g) → g_winner g2 = g_winner g)) e_rely_preorder e_guar_rely) with
    (c := c) (g := g) (ps := ps) (c' := c') (ps' := Done (C := kern) <$> results) as (g' & [HI' Hw] & _ & Hq); [|done|exact Hr|].
  - intros i c1 g1 c2 g2 (HG & _ & Hm & _) [HI1 Hw1]. split; [by apply HG|]. cbn in Hm.
    intros Hs. rewrite Hm; [by apply Hw1|]. by rewrite Hw1.
  - destruct (finished_outcome c' g' results) as [last Ho]; [|done| |].
    + apply pool_length in Hr. simpl in Hr. rewrite length_fmap in Hr. congruence.
    + intros i s r Hs Hres. apply (Hq i r); [|done]. by rewrite list_lookup_fmap, Hres.
    + exists last, (g_winner g'). split; [exact Ho|]. split; [apply Ho|exact Hw].
Qed.

Lemma on_the_way last winner c0 c ps c' results :
  token_range token → event_start c0 → event_outcome last winner results c' →
  rtc pool_step (c0, source_prog ev <$> sources) (c, ps) → rtc pool_step (c, ps) (c', Done <$> results) →
  event_on_the_way winner (c0, source_prog ev <$> sources) (c, ps) (c', Done <$> results).
Proof using All.
  intros Ht Hstart Ho Hr1 Hr2. pose proof (start_pool c0 Ht Hstart) as Hok0.
  assert (length ps = n) as Hlen by (apply pool_length in Hr1; simpl in Hr1; by rewrite length_fmap in Hr1).
  assert (∀ c2 g2 i c3 g3, e_guar i (c2, g2) (c3, g3) → e_inv c2 g2 → e_inv c3 g3) as Hinv by (intros c2 g2 i c3 g3 HG; apply HG).
  assert (∀ w, is_Some w → (∀ k, w = Some k → ∃ self type, sources !! k = Some (Signal self type)) → winner_token w ≠ token) as Hchanged.
  { intros w [k ->] Hk. destruct (Hk k eq_refl) as (self & type & Hs). unfold winner_token. cbn. rewrite Hs. by apply unblock_token_ne. }
  destruct (pool_rtc_ok False False True (λ _ _, False) I e_rely e_guar event_results e_inv e_rely_preorder e_guar_rely
    (λ i c g c2 g2, Hinv c g i c2 g2) _ _ _ _ _ Hok0 Hr1) as (g1 & [HI1 Hps1]).
  destruct (pool_finish c g1 ps c' results (conj HI1 Hps1) Hlen Hr2) as (last' & w & Ho' & Hw & Hkeep).
  split; cbn [fst snd].
  - intros v Hv Hne. rewrite Hw. rewrite (ei_token _ _ HI1) in Hv. injection Hv as <-.
    destruct (g_winner g1) as [k|] eqn:Hk; [|by destruct Hne]. by rewrite Hkeep.
  - intros i self type r Hv Hs Hdone. pose proof (Hps1 i _ Hdone c g1 ltac:(reflexivity) _ Hs) as (? & ? & _ & _ & _ & Hsome).
    rewrite (ei_token _ _ HI1) in Hv. injection Hv as Hv. by apply (Hchanged (g_winner g1) Hsome (ei_winner _ _ HI1)).
  - intros i Hi Hr.
    destruct (pool_without_ok False False True (λ _ _, False) I e_rely e_guar event_results e_inv e_rely_preorder e_guar_rely
      (λ i c g c2 g2, Hinv c g i c2 g2) i _ _ _ _ _ Hok0 Hr) as (g2 & [HI2 Hps2] & (_ & Hview & _)). cbn [fst snd] in Hview.
    assert (e_view i g2 = (false, false, false, None)) as Hv by (rewrite Hview; apply view_iff; naive_solver set_solver).
    apply view_iff in Hv as (Hd & _ & Hnot & _).
    destruct (event_present i c g2 Hi ltac:(naive_solver) HI2) as (_ & Hf & He).
    pose proof (ei_event _ _ HI2) as Hlive. rewrite Hf in Hlive. split; [by rewrite He|]. split; [apply Hlive|].
    intros Hv ->. destruct (pool_finish c g2 ps c' results (conj HI2 Hps2) Hlen Hr2) as (last2 & w2 & Ho2 & _ & Hkeep2).
    rewrite (ei_token _ _ HI2) in Hv. destruct (g_winner g2) as [k|] eqn:Hk; [|done].
    pose proof (outcome_winner _ _ _ _ _ _ Ho Ho2) as Heq. rewrite Hkeep2 in Heq by done. naive_solver.
Qed.
End protocol.

(** C13: in every interleaving of the sources of an event, each of which signals it or drops its
    reference once, with whatever the scheduler does when it is told about the task, no
    thread touches freed memory.  A source may run as the task that waits.  When all have
    finished, the event has been freed exactly once, by the thread that is told so; exactly
    one of the threads that signalled has unblocked the task, with its type as the cause, and
    the others are told that the event was signalled already; and the task has the
    references it had.  The first comes first: once a source has changed the task no other
    changes it, no source that signals has finished before that, and a source that has not
    started by then does not win.  The event is not freed as long as a source has not
    started. *)
Theorem event_signalled_once `{!SchedReady, !ObjectFree} sources ev task_id task ops running token initial base J c0 c' ps' :
  (0 < length sources)%nat → Z.of_nat (length sources) < 2 ^ 64 → (0 < base)%nat → token_range token →
  (∀ c c', event_touches task_id task c c' → J c → J c') →
  within J (ready_frame J task_id task) (prs_sched_ready task) →
  event_start sources ev task_id task ops running token initial base J c0 →
  rtc pool_step (c0, source_prog ev <$> sources) (c', ps') →
  (∀ t p, ps' !! t = Some p → ¬ faults c' p) ∧
  ∀ results, ps' = Done <$> results →
    ∃ last winner, event_outcome sources ev task_id task ops running token base last winner results c' ∧
      ∀ s, rtc pool_step (c0, source_prog ev <$> sources) s → rtc pool_step s (c', ps') →
        event_on_the_way sources ev task token winner (c0, source_prog ev <$> sources) s (c', ps').
Proof.
  intros Hn0 Hn Hb Ht HJ Hready Hstart Hr. pose proof (conj Hn0 Hn) as Hfit.
  pose proof (start_pool sources ev task_id task ops running token initial base J Hfit Hb HJ Hready c0 Ht Hstart) as Hok. split.
  - destruct (pool_adequate False False True (λ _ _, False) I _ _ _ _
      (e_rely_preorder sources ev task_id task ops running token initial base J)
      (e_guar_rely sources ev task_id task ops running token initial base J)
      (λ i c g c2 g2 HG, proj1 HG) _ _ _ _ _ Hok Hr) as (g' & _ & Hf & _). exact Hf.
  - intros results ->.
    destruct (pool_finish sources ev task_id task ops running token initial base J Hfit Hb HJ Hready _ _ _ _ _ Hok
      ltac:(by rewrite length_fmap) Hr) as (last & winner & Ho & _).
    exists last, winner. split; [exact Ho|]. intros [c ps] Hr1 Hr2. by eapply on_the_way.
Qed.

(** Two threads signal, the second of them running as the task itself, and one gives up: the
    first to reach the task unblocks it, the last to drop its reference frees the event. *)
Definition demo_sources : list source := [Signal None 5; Unref None; Signal (Some 3%positive) 9].
Definition demo_running (self : ptr) : ptr := match self with Some _ => Some 1%positive | None => None end.
Definition demo_event_kern : kern :=
  with_heap (Heap {[ 2%positive ]} [])
    (with_events {[ 2%positive := PrsEvent 7 (block_token 2) 3 3 ]}
      (with_objs {[ 7 := (1%nat, (1%positive, s_prs_task_object_ops)) ]}
        (with_workers {[ 3%positive := PrsWorker 5 3 3 0 0 (Some 1%positive) None ]} (demo_kern (block_token 2))))).
Definition demo_object_free : ObjectFree := λ _ _, mret tt.
Definition demo_event_schedule1 : list (nat * bool) :=
  replicate 3 (0%nat, false) ++ replicate 8 (2%nat, false).
Definition demo_event_schedule2 : list (nat * bool) :=
  replicate 2 (1%nat, false) ++ replicate 4 (0%nat, false) ++ replicate 3 (1%nat, false).
Definition demo_event_threads : list (prog kern Z) :=
  source_prog (H := demo_sched_ready) (H0 := demo_object_free) 2 <$> demo_sources.

Lemma event_signalled_once_witness :
  ∃ s c', pool_run demo_event_schedule1 (demo_event_kern, demo_event_threads) = Some s ∧
    pool_run demo_event_schedule2 s = Some (c', Done <$> [1; 2; 0]) ∧
    ∃ last winner, event_outcome demo_sources 2 7 1 s_prs_task_object_ops demo_running (block_token 2) 1
      last winner [1; 2; 0] c' ∧ token_of c' 1 = Some (unblock_token (block_token 2) true 9).
Proof.
  assert (∃ c', (pool_run demo_event_schedule1 (demo_event_kern, demo_event_threads) ≫= pool_run demo_event_schedule2) =
    Some (c', Done <$> [1; 2; 0])) as [c' Hall] by (eexists; vm_compute; reflexivity).
  assert ((λ s, token_of s.1 1) <$> pool_run demo_event_schedule1 (demo_event_kern, demo_event_threads) =
    Some (Some (unblock_token (block_token 2) true 9))) as Htoken by (vm_compute; reflexivity).
  destruct (pool_run demo_event_schedule1 (demo_event_kern, demo_event_threads)) as [s|] eqn:Hrun1; [|done].
  injection Htoken as Htoken. exists s, c'. split; [done|]. split; [exact Hall|]. pose proof Hall as Hrun2. apply pool_run_rtc in Hrun1, Hrun2.
  destruct (proj2 (event_signalled_once (H := demo_sched_ready) (H0 := demo_object_free) demo_sources 2 7 1
    s_prs_task_object_ops demo_running (block_token 2) 3 1 (λ _, True) demo_event_kern _ _
    ltac:(simpl; lia) ltac:(simpl; lia) ltac:(lia) ltac:(unfold token_range; by vm_compute) ltac:(done) I
    ltac:(split; [reflexivity|split; [vm_compute; set_solver|split; [reflexivity|split; [reflexivity|
      split; [intros src Hs; unfold demo_sources in Hs; set_unfold in Hs; by destruct_or! Hs; subst src|exact I]]]]])
    (transitivity Hrun1 Hrun2)) [1; 2; 0] eq_refl) as (last & winner & Ho & Hway).
  exists last, winner. split; [exact Ho|].
  refine (ow_first _ _ _ _ _ _ _ _ (Hway _ Hrun1 Hrun2) _ Htoken _). vm_compute. discriminate.
Defined.
