(* ===== verification/EventRun.v ===== *)
(** * Events, one thread alone (prs/event.c)

    What signalling an event does to the memory, for an event whose task still waits and for
    one whose task has gone on; used by the modules that block tasks. *)

From S2P Require Import Prelude Heap Atomic RefDir Kern Pal Worker Task Event.

Lemma with_objs_same c : with_objs (k_objs c) c = c.
Proof. by destruct c. Qed.

Lemma with_objs_twice a b c : with_objs a (with_objs b c) = with_objs a c.
Proof. done. Qed.

Lemma run_obj_lock c id n o :
  k_objs c !! id = Some (n, o) →
  run (god_lock id) c = Ret (Some (Some o.1), with_objs (<[id := (S n, o)]> (k_objs c)) c).
Proof. intros Ho. unfold god_lock, act. cbn [run]. rewrite Ho. destruct o as [p ops]. reflexivity. Qed.

Lemma run_obj_unlock `{!ObjectFree} c id n o :
  k_objs c !! id = Some (S (S n), o) →
  run (god_unlock id) c = Ret (Some tt, with_objs (<[id := (S n, o)]> (k_objs c)) c).
Proof.
  intros Ho. unfold god_unlock.
  eapply run_seq; [unfold act; cbn [run]; rewrite Ho; reflexivity|reflexivity].
Qed.

(** What a source of the event [x] leaves when it has dropped its reference. *)
Definition event_drop (x : loc) (c : kern) : kern :=
  match k_events c !! x with
  | Some ev =>
      if ev_refcnt ev =? 1
      then with_events (delete x (k_events c))
             (with_heap (Heap (heap_live (k_heap c) ∖ {[ x ]}) (heap_answers (k_heap c))) c)
      else with_events (<[x := set_ev_refcnt (ev_refcnt ev - 1) ev]> (k_events c)) c
  | None => c
  end.

Definition drop_state (ev : prs_event) : Z := if ev_refcnt ev =? 1 then PRS_EVENT_STATE_FREED else 0.

(** The event [x] is there, and so is its task. *)
Record event_ok (c : kern) (x : loc) (ev : prs_event) (task : loc) (tk : prs_task) (n : nat) (ops : object_ops) :
    Prop := EventOk {
  eo_event : k_events c !! x = Some ev;
  eo_range : 1 ≤ ev_refcnt ev < 2 ^ 64;
  eo_live : x ∈ heap_live (k_heap c);
  eo_obj : k_objs c !! ev_task_id ev = Some (S n, (task, ops));
  eo_task : k_tasks c !! task = Some tk
}.

Lemma event_drop_frame x c : k_objs (event_drop x c) = k_objs c ∧ k_tasks (event_drop x c) = k_tasks c ∧
  k_workers (event_drop x c) = k_workers c ∧ k_sems (event_drop x c) = k_sems c ∧ k_bags (event_drop x c) = k_bags c.
Proof. unfold event_drop. destruct (k_events c !! x) as [ev|]; [|done]. by destruct (_ =? _). Qed.

Lemma event_drop_events x c y :
  y ≠ x → k_events (event_drop x c) !! y = k_events c !! y ∧
  (y ∈ heap_live (k_heap (event_drop x c)) ↔ y ∈ heap_live (k_heap c)).
Proof.
  intros Hne. unfold event_drop. destruct (k_events c !! x) as [ev|]; [|done]. destruct (_ =? _); cbn.
  - split; [by apply lookup_delete_ne|set_solver].
  - split; [by apply lookup_insert_ne|done].
Qed.

Lemma event_drop_at x c ev :
  k_events c !! x = Some ev →
  k_events (event_drop x c) !! x =
    (if ev_refcnt ev =? 1 then None else Some (set_ev_refcnt (ev_refcnt ev - 1) ev)).
Proof.
  intros He. unfold event_drop. rewrite He. destruct (_ =? _); cbn;
    [apply lookup_delete_eq|apply lookup_insert_eq].
Qed.

Section signal.
Context `{!SchedReady, !ObjectFree} {c : kern} {x : loc} {ev : prs_event} {task : loc} {tk : prs_task} {n : nat}
  {ops : object_ops}.
Hypothesis Hok : event_ok c x ev task tk n ops.

Lemma run_event_drop {B : Type} (k : Z → prog kern B) R :
  run (k (drop_state ev)) (event_drop x c) = R →
  run (refcnt ← prs_pal_atomic_fetch_sub 64 (event_refcnt x) 1;
       state ← (if refcnt =? 1 then _ ← prs_event_destroy x; mret (Z.lor 0 PRS_EVENT_STATE_FREED) else mret 0);
       k state) c = R.
Proof using Hok.
  destruct Hok as [Hev Hrange Hlive _ _]. intros HR.
  eapply run_seq; [eapply run_update_field; [reflexivity|exact Hev]|].
  cbv beta. rewrite (Z.mod_small (ev_refcnt ev - 1)) by lia. unfold event_drop, drop_state in HR. rewrite Hev in HR.
  destruct (Z.eqb_spec (ev_refcnt ev) 1) as [H1|H1]; [|exact HR].
  eapply run_seq; [|exact HR]. eapply run_seq; [|reflexivity]. unfold prs_event_destroy, free_block.
  cbn [act run k_events with_events k_heap]. rewrite lookup_insert_eq. cbn [deref mbind].
  unfold prs_pal_free, free. cbn [k_heap with_events]. rewrite decide_True by exact Hlive.
  ocbn. cbn. rewrite delete_insert_eq. reflexivity.
Qed.

Lemma signal_task objs : k_tasks (with_objs objs (event_drop x c)) !! task = Some tk.
Proof using Hok. cbn [k_tasks with_objs]. destruct (event_drop_frame x c) as (_ & -> & _). apply Hok. Qed.

Lemma signal_current objs self cur : current_is c self cur → current_is (with_objs objs (event_drop x c)) self cur.
Proof using Type.
  unfold current_is. destruct self as [w|]; [|done]. cbn [k_workers with_objs].
  by destruct (event_drop_frame x c) as (_ & _ & -> & _).
Qed.

(** An event whose task has gone on meanwhile. *)
Lemma run_signal_stale self cur type :
  current_is c self cur → tk_state tk ≠ ev_token ev →
  run (prs_event_signal self x type) c = Ret (Some (Z.lor (drop_state ev) PRS_EVENT_STATE_SIGNALED), event_drop x c).
Proof using Hok.
  intros Hcur Hne. pose proof Hok as [Hev Hrange Hlive Hobj Htk].
  destruct (event_drop_frame x c) as (Ho & Ht & Hw & _).
  unfold prs_event_signal, prs_event_unref_internal.
  eapply run_seq; [apply run_load; eapply field_get; exact Hev|].
  eapply run_seq; [apply run_load; eapply field_get; exact Hev|].
  eapply run_seq; [apply run_load; eapply field_get; exact Hev|].
  apply run_event_drop. cbv beta iota.
  eapply run_seq; [eapply run_obj_lock; rewrite Ho; exact Hobj|]. rewrite Ho.
  apply (run_seq _ _ _ false (event_drop x c)); [|reflexivity].
  eapply run_seq; [rewrite (run_unblock (signal_task _) _ cur _ _ (signal_current _ _ _ Hcur))|].
  - cbv zeta. rewrite decide_False by exact Hne. reflexivity.
  - eapply run_seq; [eapply run_obj_unlock; cbn; apply lookup_insert_eq|]. cbn [run mret prog_ret]. f_equal. f_equal.
    rewrite with_objs_twice. cbn. rewrite insert_insert_eq, insert_id by done. rewrite <- Ho. apply with_objs_same.
Qed.

(** The memory when the scheduler is told about the task. *)
Definition woken (type : Z) : kern :=
  put_token task (unblock_token (ev_token ev) false type)
    (with_objs (<[ev_task_id ev := (S (S n), (task, ops))]> (k_objs c)) (event_drop x c)).

Lemma run_signal_live self cur type r c2 :
  current_is c self cur → cur ≠ Some task → tk_state tk = ev_token ev →
  run (prs_sched_ready task) (woken type) = Ret (Some r, c2) → k_objs c2 = k_objs (woken type) →
  run (prs_event_signal self x type) c = Ret (Some (drop_state ev), with_objs (k_objs c) c2).
Proof using Hok.
  intros Hcur Hnot Heq Hready Hkeep. pose proof Hok as [Hev Hrange Hlive Hobj Htk].
  destruct (event_drop_frame x c) as (Ho & Ht & Hw & _).
  unfold prs_event_signal, prs_event_unref_internal.
  eapply run_seq; [apply run_load; eapply field_get; exact Hev|].
  eapply run_seq; [apply run_load; eapply field_get; exact Hev|].
  eapply run_seq; [apply run_load; eapply field_get; exact Hev|].
  apply run_event_drop. cbv beta iota.
  eapply run_seq; [eapply run_obj_lock; rewrite Ho; exact Hobj|]. rewrite Ho.
  apply (run_seq _ _ _ true (with_objs (k_objs c) c2)); [|reflexivity].
  eapply run_seq; [rewrite (run_unblock (signal_task _) _ cur _ _ (signal_current _ _ _ Hcur))|].
  - cbv zeta. rewrite decide_True by exact Heq. rewrite bool_decide_false by congruence.
    fold (woken type). rewrite Hready. reflexivity.
  - eapply run_seq; [eapply run_obj_unlock; rewrite Hkeep; apply lookup_insert_eq|].
    cbn [run mret prog_ret]. f_equal. f_equal. rewrite Hkeep. cbn.
    by rewrite insert_insert_eq, insert_id.
Qed.
End signal.
