(* ===== verification/Swprio.v ===== *)
(** * The priority scheduler (prs/sched/swprio.c)

    One worker, a queue of ready tasks per priority, and a mask of the priorities
    whose queue may hold a task.  The lowest value is the highest priority. *)

From S2P Require Import Prelude Bitops Heap Atomic RefDir Kern Pal Worker Task.

Definition PRS_MAX_TASK_PRIO : Z := 32.

(** The C expressions [1 << prio] and [~(1 << prio)], stored in 32 bits; a shift by
    the width or more is undefined. *)
Definition prio_bit (prio : Z) : prog kern Z :=
  act (λ c, if (0 <=? prio) && (prio <? 32) then Ret (u32 (Z.shiftl 1 prio), c) else Undef).

(** [sched->readyq[prio]] *)
Definition readyq_at (sched : loc) (prio : Z) : prog kern ptr :=
  act (λ c, e ← deref (k_swprio c !! sched); q ← load (sp_readyq e) prio; Ret (q, c)).

Definition set_readyq_at (sched : loc) (prio : nat) (q : ptr) : prog kern unit :=
  act (λ c,
    e ← deref (k_swprio c !! sched);
    Ret (tt, with_swprio (<[sched := set_sp_readyq (<[prio := q]> (sp_readyq e)) e]> (k_swprio c)) c)).

(** [sched_data->userdata] *)
Definition swprio_of (sched_data : loc) : prog kern loc :=
  userdata ← read (sched_userdata sched_data); nonnull userdata.

(** ** Creation *)

(** Destroys the queues that were created. *)
Fixpoint destroy_readyqs (sched : loc) (prios : list nat) : prog kern unit :=
  match prios with
  | [] => mret tt
  | prio :: prios =>
      readyq ← readyq_at sched (Z.of_nat prio);
      _ ← match readyq with Some _ => mpsciq_destroy readyq | None => mret tt end;
      destroy_readyqs sched prios
  end.

(** Creates the queues of the given priorities, until one fails. *)
Fixpoint create_readyqs (sched : loc) (prios : list nat) : prog kern bool :=
  match prios with
  | [] => mret true
  | prio :: prios =>
      q ← mpsciq_create;
      _ ← set_readyq_at sched prio q;
      match q with
      | Some _ => create_readyqs sched prios
      | None => mret false
      end
  end.

Definition all_prios : list nat := seq 0 (Z.to_nat PRS_MAX_TASK_PRIO).

Definition prs_sched_swprio_init (sched_data : loc) : prog kern prs_result :=
  sched ← alloc_block k_swprio with_swprio (PrsSchedSwprio 0 (replicate 32 None) None);
  match sched with
  | None => mret PRS_OUT_OF_MEMORY
  | Some sched =>
      created ← create_readyqs sched all_prios;
      if (created : bool) then
        removeq ← mpsciq_create;
        _ ← write (swprio_removeq sched) removeq;
        _ ← fatal_if (bool_decide (removeq = None));
        _ ← write (sched_userdata sched_data) (Some sched);
        mret PRS_OK
      else
        _ ← destroy_readyqs sched all_prios;
        _ ← free_block k_swprio with_swprio sched;
        mret PRS_OUT_OF_MEMORY
  end.

Definition prs_sched_swprio_uninit (sched_data : loc) : prog kern prs_result :=
  sched ← swprio_of sched_data;
  removeq ← read (swprio_removeq sched);
  _ ← mpsciq_destroy removeq;
  _ ← destroy_readyqs sched all_prios;
  _ ← free_block k_swprio with_swprio sched;
  mret PRS_OK.

Section swprio.
Context `{!ObjectFree}.

(** ** The next task *)

(** The tasks that are to be removed; [false] when the current one is among them. *)
Fixpoint remove_loop (fuel : nat) (sched : loc) (current_task : ptr) : prog kern bool :=
  match fuel with
  | O => Spin
  | S fuel =>
      removeq ← read (swprio_removeq sched);
      remove_node ← mpsciq_begin removeq;
      match remove_node with
      | None => mret true
      | Some task_userdata =>
          removed_task ← read (userdata_task task_userdata);
          if decide (current_task = removed_task) then mret false
          else
            removed_task ← nonnull removed_task;
            prio ← read (task_prio removed_task);
            readyq ← readyq_at sched prio;
            inserted ← mpsciq_is_inserted readyq task_userdata;
            _ ← (if (inserted : bool) then
                _ ← mpsciq_remove readyq task_userdata;
                first ← mpsciq_begin readyq;
                match first with
                | Some _ => mret tt
                | None =>
                    prio ← read (task_prio removed_task);
                    bit ← prio_bit prio;
                    _ ← prs_pal_atomic_fetch_and (swprio_ready_mask sched) (not32 bit);
                    first ← mpsciq_begin readyq;
                    match first with
                    | Some _ =>
                        prio ← read (task_prio removed_task);
                        bit ← prio_bit prio;
                        _ ← prs_pal_atomic_fetch_or (swprio_ready_mask sched) bit;
                        mret tt
                    | None => mret tt
                    end
                end
              else mret tt);
            _ ← prs_task_change_state removed_task PRS_TASK_STATE_STOPPED PRS_TASK_STATE_ZOMBIE;
            _ ← write (task_sched_userdata removed_task) None;
            _ ← mpsciq_remove removeq task_userdata;
            _ ← free_block k_uds with_uds task_userdata;
            id ← get_field k_tasks tk_id removed_task;
            _ ← god_unlock id;
            remove_loop fuel sched current_task
      end
  end.

(** The highest priority that has a ready task, with the queue and its oldest
    element.  A bit of the mask whose queue is empty is cleared, and set again
    when a task arrived meanwhile. *)
Fixpoint select_loop (fuel : nat) (sched : loc) (ready_mask : Z) : prog kern (option (Z * ptr * loc)) :=
  if ready_mask =? 0 then mret None
  else
    match fuel with
    | O => Spin
    | S fuel =>
        let prio := prs_bitops_lsb_uint32 ready_mask in
        readyq ← readyq_at sched prio;
        node ← mpsciq_begin readyq;
        match node with
        | Some node => mret (Some (prio, readyq, node))
        | None =>
            prio_mask ← prio_bit prio;
            _ ← prs_pal_atomic_fetch_and (swprio_ready_mask sched) (not32 prio_mask);
            node ← mpsciq_begin readyq;
            match node with
            | Some node =>
                _ ← prs_pal_atomic_fetch_or (swprio_ready_mask sched) prio_mask;
                mret (Some (prio, readyq, node))
            | None => select_loop fuel sched (Z.land ready_mask (not32 prio_mask))
            end
        end
    end.

(** The state of a task, when there is one. *)
Definition is_running (task : ptr) : prog kern bool :=
  match task with
  | Some task => state ← prs_task_get_state task; mret (state =? PRS_TASK_STATE_RUNNING)
  | None => mret false
  end.

(** Takes the task off its queue and runs it. *)
Definition take_task (readyq : ptr) (node : loc) : prog kern (bool * ptr) :=
  userdata ← mret node;
  _ ← mpsciq_remove readyq node;
  next_task ← read (userdata_task userdata);
  next_task ← nonnull next_task;
  _ ← prs_task_change_state next_task PRS_TASK_STATE_READY PRS_TASK_STATE_RUNNING;
  mret (true, Some next_task).

(** The result, and [*task]. *)
Definition prs_sched_swprio_get_next (fuel : nat) (sched_worker : loc) (current_task : ptr) :
    prog kern (bool * ptr) :=
  sched_data ← read (sched_worker_sched_data sched_worker);
  sched_data ← nonnull sched_data;
  sched ← swprio_of sched_data;
  removed ← remove_loop fuel sched current_task;
  if (removed : bool) then
    ready_mask ← prs_pal_atomic_load (swprio_ready_mask sched);
    next ← select_loop (S (Z.to_nat PRS_MAX_TASK_PRIO)) sched ready_mask;
    running ← is_running current_task;
    match next with
    | None => mret (true, if (running : bool) then current_task else None)
    | Some (next_prio, readyq, node) =>
        match current_task, (running : bool) with
        | Some current, true =>
            prio ← read (task_prio current);
            if next_prio <? prio then
              task_userdata ← read (task_sched_userdata current);
              prio ← read (task_prio current);
              preempted ← readyq_at sched prio;
              task_userdata ← nonnull task_userdata;
              _ ← mpsciq_push preempted task_userdata;
              prio ← read (task_prio current);
              bit ← prio_bit prio;
              _ ← prs_pal_atomic_fetch_or (swprio_ready_mask sched) bit;
              _ ← prs_task_change_state current PRS_TASK_STATE_RUNNING PRS_TASK_STATE_READY;
              take_task readyq node
            else mret (true, Some current)
        | _, _ => take_task readyq node
        end
    end
  else mret (false, None).

(** ** Ready tasks *)

(** The worker whose current task has the lowest priority, and that priority. *)
Fixpoint lowest_worker (sched_workers : list loc) (lowest : ptr * Z) : prog kern (ptr * Z) :=
  match sched_workers with
  | [] => mret lowest
  | sched_worker :: sched_workers =>
      worker ← read (sched_worker_worker sched_worker);
      worker ← nonnull worker;
      current_task_id ← prs_worker_get_current_task_id worker;
      current_task ← (if current_task_id =? 0 then mret None else god_lock current_task_id);
      lowest ← match current_task with
               | None => mret (Some worker, PRS_MAX_TASK_PRIO)
               | Some current_task =>
                   prio ← read (task_prio current_task);
                   mret (if lowest.2 <? prio then (Some worker, prio) else lowest)
               end;
      _ ← match current_task with
          | Some _ => god_unlock current_task_id
          | None => mret tt
          end;
      lowest_worker sched_workers lowest
  end.

Definition prs_sched_swprio_ready (sched_data task : loc) : prog kern prs_result :=
  sched ← swprio_of sched_data;
  task_userdata ← read (task_sched_userdata task);
  prio ← read (task_prio task);
  readyq ← readyq_at sched prio;
  task_userdata ← nonnull task_userdata;
  _ ← mpsciq_push readyq task_userdata;
  prio ← read (task_prio task);
  bit ← prio_bit prio;
  _ ← prs_pal_atomic_fetch_or (swprio_ready_mask sched) bit;
  workers ← read (sched_workers sched_data);
  sched_workers ← dllist_data workers;
  '(lowest, lowest_prio) ← lowest_worker sched_workers (None, 0);
  prio ← read (task_prio task);
  _ ← match lowest with
      | Some worker => if prio <? lowest_prio then _ ← prs_worker_interrupt worker; mret tt else mret tt
      | None => mret tt
      end;
  mret PRS_OK.

Definition prs_sched_swprio_add (sched_data task : loc) : prog kern prs_result :=
  userdata ← alloc_block k_uds with_uds (SchedTaskUserdata None);
  match userdata with
  | None => mret PRS_OUT_OF_MEMORY
  | Some userdata =>
      _ ← write (task_sched_userdata task) (Some userdata);
      _ ← write (userdata_task userdata) (Some task);
      id ← get_field k_tasks tk_id task;
      _ ← god_lock id;
      _ ← prs_task_change_state task PRS_TASK_STATE_STOPPED PRS_TASK_STATE_READY;
      prs_sched_swprio_ready sched_data task
  end.

(** Interrupts the worker that runs the task. *)
Fixpoint interrupt_runner (sched_workers : list loc) (task : loc) : prog kern unit :=
  match sched_workers with
  | [] => mret tt
  | sched_worker :: sched_workers =>
      worker ← read (sched_worker_worker sched_worker);
      worker ← nonnull worker;
      current_task_id ← prs_worker_get_current_task_id worker;
      id ← get_field k_tasks tk_id task;
      if current_task_id =? id then _ ← prs_worker_interrupt worker; mret tt
      else interrupt_runner sched_workers task
  end.

Definition prs_sched_swprio_remove (sched_data task : loc) : prog kern prs_result :=
  prev_state ← prs_task_get_state task;
  if prev_state =? PRS_TASK_STATE_STOPPED then mret PRS_OK
  else
    sched ← swprio_of sched_data;
    userdata ← read (task_sched_userdata task);
    _ ← prs_task_change_state task prev_state PRS_TASK_STATE_STOPPED;
    removeq ← read (swprio_removeq sched);
    userdata ← nonnull userdata;
    _ ← mpsciq_push removeq userdata;
    _ ← (if prev_state =? PRS_TASK_STATE_RUNNING then
        workers ← read (sched_workers sched_data);
        sched_workers ← dllist_data workers;
        interrupt_runner sched_workers task
      else mret tt);
    mret PRS_OK.
End swprio.
