(* ===== verification/Swcoop.v ===== *)
(** * The cooperative scheduler (prs/sched/swcoop.c)

    One worker and one queue of ready tasks; the current task keeps running until it
    blocks or yields. *)

From S2P Require Import Prelude Heap Atomic RefDir Kern Pal Worker Task.

(** [sched_data->userdata] *)
Definition swcoop_of (sched_data : loc) : prog kern loc :=
  userdata ← read (sched_userdata sched_data); nonnull userdata.

Definition prs_sched_swcoop_init (sched_data : loc) : prog kern prs_result :=
  sched ← alloc_block k_swcoop with_swcoop (PrsSchedSwcoop None None);
  match sched with
  | None => mret PRS_OUT_OF_MEMORY
  | Some sched =>
      readyq ← mpsciq_create;
      _ ← write (swcoop_readyq sched) readyq;
      match readyq with
      | None =>
          _ ← free_block k_swcoop with_swcoop sched;
          mret PRS_OUT_OF_MEMORY
      | Some _ =>
          removeq ← mpsciq_create;
          _ ← write (swcoop_removeq sched) removeq;
          _ ← fatal_if (bool_decide (removeq = None));
          _ ← write (sched_userdata sched_data) (Some sched);
          mret PRS_OK
      end
  end.

Definition prs_sched_swcoop_uninit (sched_data : loc) : prog kern prs_result :=
  sched ← swcoop_of sched_data;
  removeq ← read (swcoop_removeq sched);
  _ ← mpsciq_destroy removeq;
  readyq ← read (swcoop_readyq sched);
  _ ← mpsciq_destroy readyq;
  _ ← free_block k_swcoop with_swcoop sched;
  mret PRS_OK.

Section swcoop.
Context `{!ObjectFree}.

(** The tasks that are to be removed; [false] when the current one is among them. *)
Fixpoint coop_remove_loop (fuel : nat) (sched : loc) (current_task : ptr) : prog kern bool :=
  match fuel with
  | O => Spin
  | S fuel =>
      removeq ← read (swcoop_removeq sched);
      remove_node ← mpsciq_begin removeq;
      match remove_node with
      | None => mret true
      | Some task_userdata =>
          removed_task ← read (userdata_task task_userdata);
          if decide (current_task = removed_task) then mret false
          else
            readyq ← read (swcoop_readyq sched);
            inserted ← mpsciq_is_inserted readyq task_userdata;
            _ ← (if (inserted : bool) then mpsciq_remove readyq task_userdata else mret tt);
            removed_task ← nonnull removed_task;
            _ ← prs_task_change_state removed_task PRS_TASK_STATE_STOPPED PRS_TASK_STATE_ZOMBIE;
            _ ← write (task_sched_userdata removed_task) None;
            _ ← mpsciq_remove removeq task_userdata;
            _ ← free_block k_uds with_uds task_userdata;
            id ← get_field k_tasks tk_id removed_task;
            _ ← god_unlock id;
            coop_remove_loop fuel sched current_task
      end
  end.

(** The result, and [*task]. *)
Definition prs_sched_swcoop_get_next (fuel : nat) (sched_worker : loc) (current_task : ptr) :
    prog kern (bool * ptr) :=
  sched_data ← read (sched_worker_sched_data sched_worker);
  sched_data ← nonnull sched_data;
  sched ← swcoop_of sched_data;
  removed ← coop_remove_loop fuel sched current_task;
  if (removed : bool) then
    running ← match current_task with
              | Some task => state ← prs_task_get_state task; mret (state =? PRS_TASK_STATE_RUNNING)
              | None => mret false
              end;
    if (running : bool) then mret (true, current_task)
    else
      readyq ← read (swcoop_readyq sched);
      node ← mpsciq_begin readyq;
      match node with
      | Some userdata =>
          _ ← mpsciq_remove readyq userdata;
          next_task ← read (userdata_task userdata);
          next_task ← nonnull next_task;
          _ ← prs_task_change_state next_task PRS_TASK_STATE_READY PRS_TASK_STATE_RUNNING;
          mret (true, Some next_task)
      | None => mret (true, None)
      end
  else mret (false, None).

(** The worker of the last element of the list. *)
Fixpoint last_worker (sched_workers : list loc) (worker : ptr) : prog kern ptr :=
  match sched_workers with
  | [] => mret worker
  | sched_worker :: sched_workers =>
      worker ← read (sched_worker_worker sched_worker);
      last_worker sched_workers worker
  end.

Definition prs_sched_swcoop_ready (sched_data task : loc) : prog kern prs_result :=
  sched ← swcoop_of sched_data;
  task_userdata ← read (task_sched_userdata task);
  readyq ← read (swcoop_readyq sched);
  task_userdata ← nonnull task_userdata;
  _ ← mpsciq_push readyq task_userdata;
  workers ← read (sched_workers sched_data);
  sched_workers ← dllist_data workers;
  worker ← last_worker sched_workers None;
  worker ← nonnull worker;
  prs_worker_signal worker.

Definition prs_sched_swcoop_add (sched_data task : loc) : prog kern prs_result :=
  userdata ← alloc_block k_uds with_uds (SchedTaskUserdata None);
  match userdata with
  | None => mret PRS_OUT_OF_MEMORY
  | Some userdata =>
      _ ← write (task_sched_userdata task) (Some userdata);
      _ ← write (userdata_task userdata) (Some task);
      id ← get_field k_tasks tk_id task;
      _ ← god_lock id;
      _ ← prs_task_change_state task PRS_TASK_STATE_STOPPED PRS_TASK_STATE_READY;
      prs_sched_swcoop_ready sched_data task
  end.

(** Interrupts the worker that runs the task. *)
Fixpoint coop_interrupt_runner (sched_workers : list loc) (task : loc) : prog kern unit :=
  match sched_workers with
  | [] => mret tt
  | sched_worker :: sched_workers =>
      worker ← read (sched_worker_worker sched_worker);
      worker ← nonnull worker;
      current_task_id ← prs_worker_get_current_task_id worker;
      id ← get_field k_tasks tk_id task;
      if current_task_id =? id then _ ← prs_worker_interrupt worker; mret tt
      else coop_interrupt_runner sched_workers task
  end.

Definition prs_sched_swcoop_remove (sched_data task : loc) : prog kern prs_result :=
  prev_state ← prs_task_get_state task;
  if prev_state =? PRS_TASK_STATE_STOPPED then mret PRS_OK
  else
    sched ← swcoop_of sched_data;
    userdata ← read (task_sched_userdata task);
    _ ← prs_task_change_state task prev_state PRS_TASK_STATE_STOPPED;
    removeq ← read (swcoop_removeq sched);
    userdata ← nonnull userdata;
    _ ← mpsciq_push removeq userdata;
    _ ← (if prev_state =? PRS_TASK_STATE_RUNNING then
        workers ← read (sched_workers sched_data);
        sched_workers ← dllist_data workers;
        coop_interrupt_runner sched_workers task
      else mret tt);
    mret PRS_OK.
End swcoop.
