(* ===== verification/Wakeup.v ===== *)
(** * Going idle and waking up (prs/worker.c with prs/sched/swcoop.c)

    A worker that finds no task to run goes idle while other threads make tasks
    ready.  This file states the protocol between them as an abstract machine,
    shows that the functions of the worker and of the cooperative scheduler follow
    it in every interleaving, and that no wake-up is lost. *)

From S2P Require Import Prelude Heap Atomic RefDir Kern Pal Worker Task Swcoop.

(** ** The protocol *)

(** A thread that makes a task ready: before the push, before the flag is set,
    before the idle flag is cleared, before the thread is resumed, done. *)
Inductive post_phase : Set := Start | Pushed | SawIdle | Resuming | Posted.

#[export] Instance post_phase_eq_dec : EqDecision post_phase.
Proof. solve_decision. Defined.

(** The flags of the worker, the semaphore of its thread, the ready queue, and the
    phases of the other threads.  The worker is idle between the exchange that sets
    the flag and its return from the semaphore; the pending flag is stale when it
    may have been set before the worker looked at the queue; the worker is about
    to look between clearing the flag and reading the queue; it has taken a task
    in the end. *)
Record wst : Type := WSt {
  s_flags : Z;
  s_sem : Z;
  s_queue : list loc;
  s_phases : list post_phase;
  s_idle : bool;
  s_stale : bool;
  s_look : bool;
  s_took : option loc
}.

Definition PENDING : Z := PRS_WORKER_FLAG_INTERRUPT_PENDING.
Definition IDLE_PENDING : Z := Z.lor PRS_WORKER_FLAG_IDLE PRS_WORKER_FLAG_INTERRUPT_PENDING.

(** The actions of thread [t]; thread 0 is the worker. *)
Inductive wstep (t : nat) : wst → wst → Prop :=
  | w_nop s : wstep t s s
  | w_push i u f n q ps id st lo to : t = S i → ps !! i = Some Start →
      wstep t (WSt f n q ps id st lo to) (WSt f n (q ++ [u]) (<[i := Pushed]> ps) id st lo to)
  | w_post i f n q ps id st lo to : t = S i → ps !! i = Some Pushed →
      wstep t (WSt f n q ps id st lo to)
        (WSt (Z.lor f PENDING) n q
          (<[i := if has f PRS_WORKER_FLAG_IDLE then SawIdle else Posted]> ps) id st lo to)
  | w_unidle i f n q ps id st lo to : t = S i → ps !! i = Some SawIdle →
      wstep t (WSt f n q ps id st lo to)
        (WSt (Z.land f (not32 PRS_WORKER_FLAG_IDLE)) n q
          (<[i := if has f PRS_WORKER_FLAG_IDLE then Resuming else Posted]> ps) id st lo to)
  | w_resume i f n q ps id st lo to : t = S i → ps !! i = Some Resuming →
      wstep t (WSt f n q ps id st lo to) (WSt f (n + 1) q (<[i := Posted]> ps) id st lo to)
  | w_clear f n q ps st lo to : t = 0%nat →
      wstep t (WSt f n q ps false st lo to)
        (WSt (Z.land f (not32 PENDING)) n q ps false false true to)
  | w_nothing f n ps st lo to : t = 0%nat →
      wstep t (WSt f n [] ps false st lo to) (WSt f n [] ps false st false to)
  | w_take u f n q ps st lo : t = 0%nat →
      wstep t (WSt f n (u :: q) ps false st lo None) (WSt f n q ps false st lo (Some u))
  | w_sleep n q ps st : t = 0%nat →
      wstep t (WSt 0 n q ps false st false None) (WSt IDLE_PENDING n q ps true st false None)
  | w_wake f n q ps st lo to : t = 0%nat → 0 < n →
      wstep t (WSt f n q ps true st lo to) (WSt f (n - 1) q ps false st lo to).

(** A task is left for the worker, or it has one. *)
Definition work (s : wst) : Prop := s_queue s ≠ [] ∨ is_Some (s_took s).

Record winv (s : wst) : Prop := WInv {
  wi_flags : s_flags s = 0 ∨ s_flags s = PENDING ∨ s_flags s = IDLE_PENDING;
  wi_awake : s_idle s = false → s_flags s ≠ IDLE_PENDING ∧ s_sem s = 0 ∧ Resuming ∉ s_phases s;
  wi_idle : s_idle s = true →
    (s_flags s = IDLE_PENDING ∧ s_sem s = 0 ∧ Resuming ∉ s_phases s) ∨
    (s_flags s = PENDING ∧ work s ∧
       ((s_sem s = 1 ∧ Resuming ∉ s_phases s) ∨
        (s_sem s = 0 ∧ ∃ i, s_phases s !! i = Some Resuming ∧
           ∀ j, s_phases s !! j = Some Resuming → j = i)));
  wi_told : s_queue s ≠ [] → s_took s = None → s_look s = false →
    s_flags s = PENDING ∨ Pushed ∈ s_phases s ∨ (s_flags s = IDLE_PENDING ∧ SawIdle ∈ s_phases s);
  wi_fresh : s_idle s = false → s_stale s = false → s_flags s = PENDING → work s;
  wi_pushed i p : s_phases s !! i = Some p → p ≠ Start → work s;
  wi_took : is_Some (s_took s) → s_idle s = false
}.

Lemma phases_set (ps : list post_phase) i p q :
  q ∈ <[i := p]> ps → q = p ∨ (q ∈ ps).
Proof.
  intros Hq. apply list_elem_of_lookup in Hq as [j Hj].
  apply list_lookup_insert_Some in Hj as [(_ & <- & _)|[_ Hj]]; [by left|right].
  by eapply list_elem_of_lookup_2.
Qed.

Lemma phases_other (ps : list post_phase) i p p0 q :
  ps !! i = Some p0 → q ≠ p0 → q ∈ ps → q ∈ <[i := p]> ps.
Proof.
  intros Hi Hne Hq. apply list_elem_of_lookup in Hq as [j Hj].
  apply list_elem_of_lookup. exists j. rewrite list_lookup_insert_ne; [done|]. intros <-. congruence.
Qed.

Lemma phases_new (ps : list post_phase) i p p0 : ps !! i = Some p0 → p ∈ <[i := p]> ps.
Proof.
  intros Hi. apply list_elem_of_lookup. exists i. apply list_lookup_insert_eq.
  by eapply lookup_lt_Some.
Qed.

Lemma phases_no (ps : list post_phase) i p q : q ∉ ps → q ≠ p → q ∉ <[i := p]> ps.
Proof. intros Hq Hne [->|?]%phases_set; done. Qed.

Lemma phases_pushed (ps : list post_phase) i p p0 (W : Prop) :
  (∀ j q, ps !! j = Some q → q ≠ Start → W) → ps !! i = Some p0 → p0 ≠ Start →
  ∀ j q, <[i := p]> ps !! j = Some q → q ≠ Start → W.
Proof. intros H Hi Hne j q _ _. by apply (H i p0). Qed.

Lemma phases_unique (ps : list post_phase) i p p0 :
  ps !! i = Some p0 → p0 ≠ Resuming → p ≠ Resuming →
  (∃ k, ps !! k = Some Resuming ∧ ∀ j, ps !! j = Some Resuming → j = k) →
  ∃ k, <[i := p]> ps !! k = Some Resuming ∧ ∀ j, <[i := p]> ps !! j = Some Resuming → j = k.
Proof.
  intros Hi H0 Hp (k & Hk & Hu). assert (i ≠ k) by (intros ->; congruence).
  exists k. split; [by rewrite list_lookup_insert_ne|].
  intros j [(_ & ? & _)|[_ Hj]]%list_lookup_insert_Some; [congruence|auto].
Qed.

Lemma phases_first (ps : list post_phase) i p0 :
  ps !! i = Some p0 → Resuming ∉ ps →
  ∃ k, <[i := Resuming]> ps !! k = Some Resuming ∧ ∀ j, <[i := Resuming]> ps !! j = Some Resuming → j = k.
Proof.
  intros Hi Hn. exists i. split; [apply list_lookup_insert_eq; by eapply lookup_lt_Some|].
  intros j [(-> & _)|[_ Hj]]%list_lookup_insert_Some; [done|]. by apply list_elem_of_lookup_2 in Hj.
Qed.

Lemma phases_last (ps : list post_phase) i :
  (∃ k, ps !! k = Some Resuming ∧ ∀ j, ps !! j = Some Resuming → j = k) → ps !! i = Some Resuming →
  Resuming ∉ <[i := Posted]> ps.
Proof.
  intros (k & _ & Hu) Hi [j Hj]%list_elem_of_lookup.
  apply list_lookup_insert_Some in Hj as [(_ & ? & _)|[Hne Hj]]; [done|].
  rewrite (Hu i Hi), (Hu j Hj) in Hne. done.
Qed.

Lemma w_push_inv i u f n q ps id st lo to :
  ps !! i = Some Start → winv (WSt f n q ps id st lo to) →
  winv (WSt f n (q ++ [u]) (<[i := Pushed]> ps) id st lo to).
Proof.
  intros Hi [Hf Ha Hid Ht Hr Hp Hto]. unfold work in *. simpl in *.
  assert (q ++ [u] ≠ []) as Hq by (by destruct q).
  split; unfold work; simpl; auto.
  - intros Hid'. destruct (Ha Hid') as (? & ? & ?). split_and!; [done..|]. by apply phases_no.
  - intros Hid'. destruct (Hid Hid') as [(? & ? & ?)|(? & ? & Hs)]; [left|right].
    + split_and!; [done..|]. by apply phases_no.
    + split; [done|]. split; [auto|]. destruct Hs as [[? ?]|[? ?]]; [left|right].
      * split; [done|]. by apply phases_no.
      * split; [done|]. by eapply phases_unique.
  - intros _ _ _. right; left. by eapply phases_new.
Qed.

Lemma w_post_inv i f n q ps id st lo to :
  ps !! i = Some Pushed → winv (WSt f n q ps id st lo to) →
  winv (WSt (Z.lor f PENDING) n q
    (<[i := if has f PRS_WORKER_FLAG_IDLE then SawIdle else Posted]> ps) id st lo to).
Proof.
  intros Hi [Hf Ha Hid Ht Hr Hp Hto]. unfold work in *. simpl in *.
  pose proof (Hp i Pushed Hi ltac:(done)) as Hw.
  destruct Hf as [->|[->| ->]]; simpl in *.
  - split; unfold work; simpl; auto.
    + intros Hid'. destruct (Ha Hid') as (? & ? & ?). split_and!; try done. by apply phases_no.
    + intros Hid'. by destruct (Hid Hid') as [(? & _)|(? & _)].
  - split; unfold work; simpl; auto.
    + intros Hid'. destruct (Ha Hid') as (? & ? & ?). split_and!; try done. by apply phases_no.
    + intros Hid'. destruct (Hid Hid') as [(? & _)|(? & ? & Hs)]; [done|]. right.
      split; [done|]. split; [done|]. destruct Hs as [[? ?]|[? ?]]; [left|right];
        (split; [done|]); [by apply phases_no|by eapply phases_unique].
  - split; unfold work; simpl; auto.
    + intros Hid'. by destruct (Ha Hid').
    + intros Hid'. destruct (Hid Hid') as [(? & ? & ?)|(? & _)]; [|done]. left.
      split_and!; [done..|]. by apply phases_no.
    + intros _ _ _. right; right. split; [done|]. by eapply phases_new.
Qed.

Lemma w_unidle_inv i f n q ps id st lo to :
  ps !! i = Some SawIdle → winv (WSt f n q ps id st lo to) →
  winv (WSt (Z.land f (not32 PRS_WORKER_FLAG_IDLE)) n q
    (<[i := if has f PRS_WORKER_FLAG_IDLE then Resuming else Posted]> ps) id st lo to).
Proof.
  intros Hi [Hf Ha Hid Ht Hr Hp Hto]. unfold work in *. simpl in *.
  pose proof (Hp i SawIdle Hi ltac:(done)) as Hw.
  destruct Hf as [->|[->| ->]]; simpl in *.
  - split; unfold work; simpl; auto.
    + intros Hid'. destruct (Ha Hid') as (? & ? & ?). split_and!; try done. by apply phases_no.
    + intros Hid'. by destruct (Hid Hid') as [(? & _)|(? & _)].
    + intros H1 H2 H3. destruct (Ht H1 H2 H3) as [?|[?|[? _]]]; [done| |done].
      right; left. by eapply phases_other.
  - split; unfold work; simpl; auto.
    + intros Hid'. destruct (Ha Hid') as (? & ? & ?). split_and!; try done. by apply phases_no.
    + intros Hid'. destruct (Hid Hid') as [(? & _)|(? & ? & Hs)]; [done|]. right.
      split; [done|]. split; [done|]. destruct Hs as [[? ?]|[? ?]]; [left|right];
        (split; [done|]); [by apply phases_no|by eapply phases_unique].
  - destruct id; [|destruct (Ha eq_refl); done].
    destruct (Hid eq_refl) as [(_ & Hs & Hn)|(? & _)]; [|done].
    split; unfold work; simpl; auto; try done.
    intros _. right. split; [done|]. split; [done|]. right. split; [done|]. by eapply phases_first.
Qed.

Lemma w_resume_inv i f n q ps id st lo to :
  ps !! i = Some Resuming → winv (WSt f n q ps id st lo to) →
  winv (WSt f (n + 1) q (<[i := Posted]> ps) id st lo to).
Proof.
  intros Hi [Hf Ha Hid Ht Hr Hp Hto]. unfold work in *. simpl in *.
  pose proof (list_elem_of_lookup_2 _ _ _ Hi) as Hin.
  destruct id; [|destruct (Ha eq_refl) as (_ & _ & ?); done].
  destruct (Hid eq_refl) as [(_ & _ & ?)|(-> & Hw & Hs)]; [done|].
  destruct Hs as [[_ ?]|[-> Hu]]; [done|].
  split; unfold work; simpl; auto; try done.
  intros _. right. split; [done|]. split; [done|]. left. split; [done|]. by apply phases_last.
Qed.

Lemma wstep_inv t s s' : wstep t s s' → winv s → winv s'.
Proof.
  intros [s0|i u f n q ps id st lo to _ Hi|i f n q ps id st lo to _ Hi|i f n q ps id st lo to _ Hi
    |i f n q ps id st lo to _ Hi|f n q ps st lo to _|f n ps st lo to _|u f n q ps st lo _
    |n q ps st _|f n q ps st lo to _ Hn] HI; [done|..].
  - by apply w_push_inv.
  - by apply w_post_inv.
  - by apply w_unidle_inv.
  - by apply w_resume_inv.
  - destruct HI as [Hf Ha Hid Ht Hr Hp Hto]. unfold work in *. simpl in *.
    destruct (Ha eq_refl) as (? & ? & ?).
    assert (Z.land f (not32 PENDING) = 0) as -> by (destruct Hf as [->|[->| ->]]; done).
    split; unfold work; simpl; auto; try done.
  - destruct HI as [Hf Ha Hid Ht Hr Hp Hto]. unfold work in *. simpl in *.
    split; unfold work; simpl; auto; try done.
  - destruct HI as [Hf Ha Hid Ht Hr Hp Hto]. unfold work in *. simpl in *.
    split; unfold work; simpl; auto; try done; intros; right; by eexists.
  - destruct HI as [Hf Ha Hid Ht Hr Hp Hto]. unfold work in *. simpl in *.
    destruct (Ha eq_refl) as (? & ? & ?).
    split; unfold work; simpl; auto; try done.
    intros Hq _ _. destruct (Ht Hq eq_refl eq_refl) as [?|[?|[? _]]]; [done| |done]. by right; left.
  - destruct HI as [Hf Ha Hid Ht Hr Hp Hto]. unfold work in *. simpl in *.
    destruct (Hid eq_refl) as [(_ & ? & _)|(-> & Hw & [[-> ?]|[? _]])]; [lia| |lia].
    split; unfold work; simpl; auto; try done.
Qed.

(** ** The memory

    [w] is the worker, on thread [th], of the scheduler [sd], whose structures are
    [sw], [sc] and [dl], with the ready queue [rq] and an empty remove queue [mq].
    [U] gives the task of each scheduler's structure of a task. *)

Section implementation.
Context `{!ObjectFree}.
Context (w th sw sd sc dl nd rq mq : loc) (U : gmap loc loc).

Record wenv (c : kern) : Prop := WEnv {
  we_sched_worker : sw_sched_data <$> k_sched_workers c !! sw = Some (Some sd);
  we_sched_worker' : sw_worker <$> k_sched_workers c !! sw = Some (Some w);
  we_sched : sd_userdata <$> k_scheds c !! sd = Some (Some sc);
  we_workers : sd_workers <$> k_scheds c !! sd = Some (Some dl);
  we_swcoop : k_swcoop c !! sc = Some (PrsSchedSwcoop (Some rq) (Some mq));
  we_dllist : k_dllists c !! dl = Some [(nd, sw)];
  we_removeq : k_queues c !! mq = Some [];
  we_thread : wk_pal_thread <$> k_workers c !! w = Some th;
  we_userdata : wk_userdata <$> k_workers c !! w = Some sw;
  we_uds u t : U !! u = Some t →
    k_uds c !! u = Some (SchedTaskUserdata (Some t)) ∧
    tk_sched_userdata <$> k_tasks c !! t = Some (Some u)
}.

Record rep (c : kern) (s : wst) : Prop := Rep {
  rep_env : wenv c;
  rep_flags : wk_flags <$> k_workers c !! w = Some (s_flags s);
  rep_sem : th_idle_sem <$> k_threads c !! th = Some (s_sem s);
  rep_queue : k_queues c !! rq = Some (s_queue s);
  rep_known u : u ∈ s_queue s ∨ s_took s = Some u → is_Some (U !! u);
  rep_inv : winv s
}.

(** What only the worker changes. *)
Definition wview (c : kern) : gmap loc prs_task * option ptr * list pal_call :=
  (k_tasks c, wk_current_task <$> k_workers c !! w, k_pal c).

Definition wguar (t : nat) (s s' : kern * wst) : Prop :=
  rep s.1 s.2 ∧ rep s'.1 s'.2 ∧ wstep t s.2 s'.2 ∧ (t ≠ 0%nat → wview s'.1 = wview s.1).
Definition wothers (t : nat) (s s' : kern * wst) : Prop := ∃ t', t' ≠ t ∧ wguar t' s s'.
Definition wrely (t : nat) : relation (kern * wst) := rtc (wothers t).

#[local] Instance wrely_preorder t : PreOrder (wrely t).
Proof. unfold wrely. apply _. Qed.

Lemma wguar_rely i j s s' : i ≠ j → wguar i s s' → wrely j s s'.
Proof. intros Hne HG. apply rtc_once. by exists i. Qed.

(** Whatever the actions of the other threads preserve, the rely preserves. *)
Lemma wrely_preserves (P : kern → wst → Prop) t c s c' s' :
  (∀ t' c1 s1 c2 s2, t' ≠ t → wguar t' (c1, s1) (c2, s2) → P c1 s1 → P c2 s2) →
  wrely t (c, s) (c', s') → P c s → P c' s'.
Proof.
  intros Hstep HR. remember (c, s) as x eqn:Ex. remember (c', s') as x' eqn:Ex'.
  revert c s Ex. induction HR as [x|x1 [c2 s2] x3 Hs _ IH]; intros c s -> HP.
  - by simplify_eq.
  - destruct Hs as (t' & Hne & HG). apply (IH Ex' c2 s2 eq_refl). by eapply Hstep.
Qed.

(** Where the worker is: what it runs, the tasks, the calls to the platform, its
    part of the protocol, and what it knows: that there is work or what the oldest
    ready task is, and that the pending flag is set. *)
Inductive knowledge : Set := Nothing | Work | Oldest (u : loc).

Definition known (kn : knowledge) (s : wst) : Prop :=
  match kn with
  | Nothing => True
  | Work => work s
  | Oldest u => head (s_queue s) = Some u
  end.

Record at_worker (cur : ptr) (T : gmap loc prs_task) (L : list pal_call) (id st lo : bool)
    (to : option loc) (kn : knowledge) (pend : bool) (c : kern) (s : wst) : Prop := AtWorker {
  aw_rep : rep c s;
  aw_view : wview c = (T, Some cur, L);
  aw_idle : s_idle s = id;
  aw_stale : s_stale s = st;
  aw_look : s_look s = lo;
  aw_took : s_took s = to;
  aw_known : known kn s;
  aw_pending : pend = true → s_idle s = false ∧ s_flags s = PENDING
}.

(** Where another thread is. *)
Definition at_post (i : nat) (p : post_phase) (c : kern) (s : wst) : Prop :=
  rep c s ∧ s_phases s !! i = Some p.

Lemma work_step t s s' : t ≠ 0%nat → wstep t s s' → work s → work s'.
Proof.
  intros Ht Hs [Hw|Hw]; destruct Hs; try (by left); try (by right); try lia.
  left. simpl in *. by destruct q.
Qed.

Lemma known_step t kn s s' : t ≠ 0%nat → wstep t s s' → known kn s → known kn s'.
Proof.
  intros Ht Hs. destruct kn as [| |u]; simpl; [done|by apply (work_step t)|].
  intros Hh. destruct Hs; simpl in *; try done; try lia. by destruct q.
Qed.

Lemma pending_step t s s' :
  t ≠ 0%nat → wstep t s s' → s_flags s = PENDING → s_flags s' = PENDING.
Proof. intros Ht Hs Hf. destruct Hs; simpl in *; subst; try done; lia. Qed.

Lemma at_worker_rely cur T L id st lo to kn pend c s c' s' :
  wrely 0 (c, s) (c', s') → at_worker cur T L id st lo to kn pend c s →
  at_worker cur T L id st lo to kn pend c' s'.
Proof.
  apply (wrely_preserves (at_worker cur T L id st lo to kn pend)).
  intros t c1 s1 c2 s2 Hne (_ & Hr & Hs & Hv) [_ Hv1 H1 H2 H3 H4 H5 H6]. simpl in *.
  rewrite <- (Hv Hne) in Hv1.
  assert (s_idle s2 = s_idle s1 ∧ s_stale s2 = s_stale s1 ∧ s_look s2 = s_look s1 ∧ s_took s2 = s_took s1)
    as (E1 & E2 & E3 & E4) by (destruct Hs; simpl; split_and!; done || lia).
  split; try congruence; try done.
  - eapply known_step; eauto.
  - intros Hb. destruct (H6 Hb). rewrite E1. split; [done|]. by eapply pending_step.
Qed.

Lemma at_post_rely i p c s c' s' : wrely (S i) (c, s) (c', s') → at_post i p c s → at_post i p c' s'.
Proof.
  apply (wrely_preserves (at_post i p)). intros t c1 s1 c2 s2 Hne (_ & Hr & Hs & _) [_ Hp]. simpl in *.
  split; [done|]. destruct Hs as [| | | | | | | | |]; try done; simpl in *;
    (rewrite list_lookup_insert_ne; [done|]; intros ->; congruence).
Qed.

(** An action that the protocol does not see. *)
Lemma rep_quiet c c' s :
  rep c s →
  (k_sched_workers c', k_scheds c', k_swcoop c', k_dllists c', k_queues c', k_uds c') =
    (k_sched_workers c, k_scheds c, k_swcoop c, k_dllists c, k_queues c, k_uds c) →
  (λ e, (wk_pal_thread e, wk_userdata e, wk_flags e)) <$> k_workers c' !! w =
    (λ e, (wk_pal_thread e, wk_userdata e, wk_flags e)) <$> k_workers c !! w →
  th_idle_sem <$> k_threads c' !! th = th_idle_sem <$> k_threads c !! th →
  (∀ t, tk_sched_userdata <$> k_tasks c' !! t = tk_sched_userdata <$> k_tasks c !! t) →
  rep c' s.
Proof.
  intros [[? ? ? ? ? ? ? Hth Hud Hu] Hf Hs Hq Hk HI] Heq Hw Ht Htasks. injection Heq as H1 H2 H3 H4 H5 H6.
  assert (∀ {V} (f : prs_worker → V), (∃ g, ∀ e, f e = g (wk_pal_thread e, wk_userdata e, wk_flags e)) →
    f <$> k_workers c' !! w = f <$> k_workers c !! w) as Hwf.
  { intros V f [g Hg]. apply (f_equal (fmap g)) in Hw. rewrite <- !option_fmap_compose in Hw.
    destruct (k_workers c' !! w), (k_workers c !! w); simpl in *; rewrite ?Hg; congruence. }
  split.
  - split; try congruence.
    + rewrite (Hwf _ wk_pal_thread); [done|]. by exists (λ x, x.1.1).
    + rewrite (Hwf _ wk_userdata); [done|]. by exists (λ x, x.1.2).
    + intros u t Hut. rewrite H6, Htasks. auto.
  - rewrite (Hwf _ wk_flags); [done|]. by exists (λ x, x.2).
  - congruence.
  - congruence.
  - done.
  - done.
Qed.

(** *** Rules *)

(** The worker may be blocked when there is no work, or somebody will still
    resume it. *)
Definition wblk (c : kern) (s : wst) : Prop :=
  ¬ work s ∨ ∃ i p, s_phases s !! i = Some p ∧ p ≠ Posted.

Abbreviation wrg t := (rgb False False True wblk (wrely t) (wguar t)).

Definition stable (t : nat) (P : kern → wst → Prop) : Prop :=
  ∀ c s c' s', wrely t (c, s) (c', s') → P c s → P c' s'.

Lemma worker_stable cur T L id st lo to kn pend : stable 0 (at_worker cur T L id st lo to kn pend).
Proof. intros c s c' s'. apply at_worker_rely. Qed.

Lemma post_stable i p : stable (S i) (at_post i p).
Proof. intros c s c' s'. apply at_post_rely. Qed.

Section rules.
Context {A : Type} (t : nat) (P : kern → wst → Prop) (Hst : stable t P) (Hrep : ∀ c s, P c s → rep c s).

Lemma wrg_read {V : Type} (f : kern → outcome (V * kern)) v (k : V → prog kern A) Q c s :
  P c s → (∀ c s, P c s → f c = Ret (v, c)) → (∀ c s, P c s → wrg t (k v) Q c s) →
  wrg t (act f ≫= k) Q c s.
Proof using Hst Hrep.
  intros HP Hf Hk. rg_bind_act. intros c1 s1 HR. apply (Hst _ _ _ _ HR) in HP.
  pose proof (Hrep _ _ HP) as Hr. exists v, c1, s1. split; [by eapply Hf|]. split; [|by apply Hk].
  split_and!; try done. apply w_nop.
Qed.

Lemma wrg_read_only {V : Type} (f : kern → outcome (V * kern)) v (Q : V → kern → wst → Prop) c s :
  P c s → (∀ c s, P c s → f c = Ret (v, c)) → (∀ c s, P c s → Q v c s) → wrg t (act f) Q c s.
Proof using Hst Hrep.
  intros HP Hf Hk. rg_act. intros c1 s1 HR. apply (Hst _ _ _ _ HR) in HP.
  pose proof (Hrep _ _ HP) as Hr. exists v, c1, s1. split; [by eapply Hf|]. split.
  - split_and!; try done. apply w_nop.
  - intros c3 s3 HR3. apply Hk. by apply (Hst _ _ _ _ HR3).
Qed.

Lemma wrg_done (a : A) (Q : A → kern → wst → Prop) c s :
  P c s → (∀ c s, P c s → Q a c s) → wrg t (mret a) Q c s.
Proof using Hst.
  intros HP HQ. apply rg_done. intros c1 s1 HR. apply HQ. by apply (Hst _ _ _ _ HR).
Qed.

(** An action, with where it leads. *)
Lemma wrg_act {V : Type} (f : kern → outcome (V * kern)) (k : V → prog kern A) Q c s :
  P c s →
  (∀ c s, P c s → ∃ v c' s', f c = Ret (v, c') ∧ rep c' s' ∧ wstep t s s' ∧
    (t ≠ 0%nat → wview c' = wview c) ∧ wrg t (k v) Q c' s') →
  wrg t (act f ≫= k) Q c s.
Proof using Hst Hrep.
  intros HP Hf. rg_bind_act. intros c1 s1 HR. apply (Hst _ _ _ _ HR) in HP.
  destruct (Hf c1 s1 HP) as (v & c' & s' & Hfc & Hr & Hs & Hv & Hk).
  pose proof (Hrep _ _ HP) as Hr1. exists v, c', s'. split; [done|]. split; [|done]. by split_and!.
Qed.
End rules.

(** *** A thread that makes a task ready *)

(** A read by another thread than the worker. *)
Lemma post_read {A V : Type} i p (f : kern → outcome (V * kern)) v (k : V → prog kern A) Q c s :
  at_post i p c s → (∀ c s, rep c s → f c = Ret (v, c)) →
  (∀ c s, at_post i p c s → wrg (S i) (k v) Q c s) → wrg (S i) (act f ≫= k) Q c s.
Proof.
  intros HP Hf Hk. eapply (wrg_read _ _ (post_stable i p)); [by intros ? ? []|done| |done].
  intros c1 s1 [Hr _]. by eapply Hf.
Qed.

Lemma post_read_only {V : Type} i p (f : kern → outcome (V * kern)) v (Q : V → kern → wst → Prop) c s :
  at_post i p c s → (∀ c s, rep c s → f c = Ret (v, c)) →
  (∀ c s, at_post i p c s → Q v c s) → wrg (S i) (act f) Q c s.
Proof.
  intros HP Hf Hk. eapply (wrg_read_only _ _ (post_stable i p)); [by intros ? ? []|done| |done].
  intros c1 s1 [Hr _]. by eapply Hf.
Qed.

Lemma ud_of_task c s u t :
  rep c s → U !! u = Some t → tk_sched_userdata <$> k_tasks c !! t = Some (Some u).
Proof. intros Hr Hu. by apply (we_uds _ (rep_env _ _ Hr)). Qed.

Lemma task_of_ud c s u t : rep c s → U !! u = Some t → ud_task <$> k_uds c !! u = Some (Some t).
Proof. intros Hr Hu. by destruct (we_uds _ (rep_env _ _ Hr) u t Hu) as [-> _]. Qed.

#[local] Opaque rgb.

(** The value of a read, from what is known of the memory. *)
Ltac env_fact Hr :=
  first
    [ apply (we_sched_worker _ (rep_env _ _ Hr)) | apply (we_sched_worker' _ (rep_env _ _ Hr))
    | apply (we_sched _ (rep_env _ _ Hr)) | apply (we_workers _ (rep_env _ _ Hr))
    | rewrite (we_swcoop _ (rep_env _ _ Hr)); reflexivity
    | rewrite (we_dllist _ (rep_env _ _ Hr)); reflexivity
    | rewrite (we_removeq _ (rep_env _ _ Hr)); reflexivity
    | apply (we_thread _ (rep_env _ _ Hr)) | apply (we_userdata _ (rep_env _ _ Hr))
    | eapply ud_of_task; eassumption | eapply task_of_ud; eassumption ].
Ltac env_value Hr := first [reflexivity | eapply read_value; env_fact Hr | eapply get_field_value; env_fact Hr].
Ltac post_step Hat :=
  lazymatch type of Hat with
  | at_post _ _ ?c ?s =>
      first [eapply post_read_only|eapply post_read];
        [exact Hat|let Hr := fresh in intros ? ? Hr; cbv beta; env_value Hr|];
        clear Hat; try clear c s; intros c s Hat; cbv beta
  end.

(** The updates that the protocol sees. *)
Hypothesis queues_differ : mq ≠ rq.

Lemma rep_flags_set c s e v :
  rep c s → k_workers c !! w = Some e →
  let c' := with_workers (<[w := set_wk_flags v e]> (k_workers c)) c in
  wview c' = wview c ∧
  ∀ s', s_sem s' = s_sem s → s_queue s' = s_queue s → s_took s' = s_took s → s_flags s' = v →
    winv s' → rep c' s'.
Proof.
  intros [[H1 H2 H3 H4 H5 H6 H7 H8 H9 H10] Hf Hs Hq Hk HI] He c'. split.
  { unfold wview, c'. simpl. by rewrite lookup_insert_eq, He. }
  intros s' Es Eq Et Ef HI'. unfold c'. split; simpl; rewrite ?Es, ?Eq, ?Et; try done.
  - split; try done; simpl; rewrite lookup_insert_eq; rewrite He in *; done.
  - rewrite lookup_insert_eq. simpl. congruence.
Qed.

Lemma rep_sem_set c s e v :
  rep c s → k_threads c !! th = Some e →
  let c' := with_threads (<[th := set_th_idle_sem v e]> (k_threads c)) c in
  wview c' = wview c ∧
  ∀ s', s_flags s' = s_flags s → s_queue s' = s_queue s → s_took s' = s_took s → s_sem s' = v →
    winv s' → rep c' s'.
Proof.
  intros [[H1 H2 H3 H4 H5 H6 H7 H8 H9 H10] Hf Hs Hq Hk HI] He c'. split; [done|].
  intros s' Ef Eq Et Es HI'. unfold c'. split; simpl; rewrite ?Ef, ?Eq, ?Et; try done.
  rewrite lookup_insert_eq. simpl. congruence.
Qed.

Lemma rep_queue_set c s q' :
  rep c s →
  let c' := with_queues (<[rq := q']> (k_queues c)) c in
  wview c' = wview c ∧
  ∀ s', s_flags s' = s_flags s → s_sem s' = s_sem s → s_queue s' = q' →
    (∀ u, u ∈ s_queue s' ∨ s_took s' = Some u → is_Some (U !! u)) → winv s' → rep c' s'.
Proof using queues_differ.
  intros [[H1 H2 H3 H4 H5 H6 H7 H8 H9 H10] Hf Hs Hq Hk HI] c'. split; [done|].
  intros s' Ef Es Eq Hk' HI'. unfold c'. split; simpl; rewrite ?Ef, ?Es; try done.
  - split; try done. simpl. by rewrite lookup_insert_ne.
  - rewrite lookup_insert_eq. congruence.
Qed.

Lemma flags_value c s : rep c s → ∃ e, k_workers c !! w = Some e ∧ wk_flags e = s_flags s.
Proof. intros Hr. pose proof (rep_flags _ _ Hr) as (e & ? & ?)%fmap_Some. by exists e. Qed.

(** An action of another thread that moves it to its next phase. *)
Lemma post_move {A V : Type} i p (p' : V → post_phase) (f : kern → outcome (V * kern)) (k : V → prog kern A) Q c s :
  at_post i p c s →
  (∀ c s, rep c s → s_phases s !! i = Some p → ∃ v c' s', f c = Ret (v, c') ∧ wview c' = wview c ∧
     wstep (S i) s s' ∧ (winv s' → rep c' s') ∧ s_phases s' !! i = Some (p' v)) →
  (∀ v c s, at_post i (p' v) c s → wrg (S i) (k v) Q c s) →
  wrg (S i) (act f ≫= k) Q c s.
Proof.
  intros Hat Hf Hk. eapply (wrg_act _ _ (post_stable i p)); [by intros ? ? []|exact Hat|].
  clear Hat. intros c1 s1 [Hr Hp]. destruct (Hf c1 s1 Hr Hp) as (v & c' & s' & Hfc & Hv & Hs & Hr' & Hp').
  assert (rep c' s') as Hrep by (apply Hr'; eapply wstep_inv; [done|apply Hr]).
  exists v, c', s'. split_and!; try done. apply Hk. by split.
Qed.

Lemma lookup_set (ps : list post_phase) i p p0 : ps !! i = Some p0 → <[i := p]> ps !! i = Some p.
Proof. intros Hi. apply list_lookup_insert_eq. by eapply lookup_lt_Some. Qed.

Lemma push_move i u c s :
  U !! u <> None → rep c s → s_phases s !! i = Some Start →
  ∃ v c' s', (v ← cell_get (queue rq) c; c ← cell_set (queue rq) (v ++ [u]) c; Ret (v, c)) = Ret (v, c') ∧
    wview c' = wview c ∧ wstep (S i) s s' ∧ (winv s' → rep c' s') ∧ s_phases s' !! i = Some Pushed.
Proof using All.
  intros Hu Hr Hp. pose proof (rep_queue _ _ Hr) as Hq.
  destruct s as [f n q ps id st lo to]. simpl in *.
  destruct (rep_queue_set _ _ (q ++ [u]) Hr) as [Hv Hrep].
  eexists q, _, (WSt f n (q ++ [u]) (<[i := Pushed]> ps) id st lo to).
  split; [cbn; by rewrite Hq|]. split; [done|]. split; [by apply w_push|].
  split; [|by eapply lookup_set].
  apply Hrep; try done. simpl. intros u' [[Hu'|Hu'%list_elem_of_singleton]%elem_of_app|Ht].
  - apply (rep_known _ _ Hr). by left.
  - subst u'. by apply not_eq_None_Some.
  - apply (rep_known _ _ Hr). by right.
Qed.

Lemma flag_move i p p' g c s :
  rep c s → s_phases s !! i = Some p →
  (∀ f n q ps id st lo to, ps !! i = Some p →
     wstep (S i) (WSt f n q ps id st lo to) (WSt (g f) n q (<[i := p' f]> ps) id st lo to)) →
  ∃ v c' s', (v ← cell_get (worker_flags w) c; c ← cell_set (worker_flags w) (g v) c; Ret (v, c)) = Ret (v, c') ∧
    wview c' = wview c ∧ wstep (S i) s s' ∧ (winv s' → rep c' s') ∧ s_phases s' !! i = Some (p' v).
Proof using All.
  intros Hr Hp Hs. destruct (flags_value _ _ Hr) as (e & He & Hf).
  destruct s as [f n q ps id st lo to]. simpl in *. subst f.
  destruct (rep_flags_set _ _ e (g (wk_flags e)) Hr He) as [Hv Hrep].
  eexists (wk_flags e), _, (WSt (g (wk_flags e)) n q (<[i := p' (wk_flags e)]> ps) id st lo to).
  split; [cbn; by rewrite He|]. split; [done|]. split; [by apply Hs|].
  split; [by apply Hrep|by eapply lookup_set].
Qed.

Lemma resume_move i c s :
  rep c s → s_phases s !! i = Some Resuming →
  ∃ v c' s', (v ← cell_get (thread_idle_sem th) c; c ← cell_set (thread_idle_sem th) (v + 1) c; Ret (v, c)) =
      Ret (v, c') ∧
    wview c' = wview c ∧ wstep (S i) s s' ∧ (winv s' → rep c' s') ∧ s_phases s' !! i = Some Posted.
Proof using All.
  intros Hr Hp. pose proof (rep_sem _ _ Hr) as (e & He & Hn)%fmap_Some.
  destruct s as [f n q ps id st lo to]. simpl in *. subst n.
  destruct (rep_sem_set _ _ e (th_idle_sem e + 1) Hr He) as [Hv Hrep].
  eexists (th_idle_sem e), _, (WSt f (th_idle_sem e + 1) q (<[i := Posted]> ps) id st lo to).
  split; [cbn; by rewrite He|]. split; [done|]. split; [by apply w_resume|].
  split; [by apply Hrep|by eapply lookup_set].
Qed.

Ltac post_done Hat :=
  lazymatch type of Hat with
  | at_post _ _ ?c ?s =>
      apply (wrg_done _ _ (post_stable _ _) _ _ _ _ Hat); clear Hat; try clear c s; intros c s Hat
  end.

Lemma post_rg i c s :
  at_post i Pushed c s →
  wrg (S i) (prs_worker_signal w) (λ r c' s', at_post i Posted c' s' ∧ r = PRS_OK) c s.
Proof using All.
  intros Hat. unfold prs_worker_signal, prs_worker_post.
  eapply (post_move i Pushed (λ f, if has f PRS_WORKER_FLAG_IDLE then SawIdle else Posted)); [exact Hat| |].
  { intros c1 s1 Hr Hp. apply (flag_move i Pushed); [done|done|]. intros. by apply w_post. }
  clear c s Hat. intros f c s Hat. rg_bind. destruct (has f PRS_WORKER_FLAG_IDLE).
  - eapply (post_move i SawIdle (λ f, if has f PRS_WORKER_FLAG_IDLE then Resuming else Posted)); [exact Hat| |].
    { intros c1 s1 Hr Hp. apply (flag_move i SawIdle); [done|done|]. intros. by apply w_unidle. }
    clear c s Hat. intros f' c s Hat. destruct (has f' PRS_WORKER_FLAG_IDLE).
    + post_step Hat. unfold prs_pal_thread_resume. rg_bind.
      eapply (post_move i Resuming (λ _, Posted)); [exact Hat|intros; by apply resume_move|].
      clear c s Hat. intros v c s Hat. post_done Hat. post_done Hat. by post_done Hat.
    + post_done Hat. by post_done Hat.
  - post_done Hat. by post_done Hat.
Qed.

Lemma swcoop_ready_rg i task u c s :
  U !! u = Some task → at_post i Start c s →
  wrg (S i) (prs_sched_swcoop_ready sd task)
    (λ r c' s', at_post i Posted c' s' ∧ r = PRS_OK) c s.
Proof using All.
  intros Hu Hat. unfold prs_sched_swcoop_ready, swcoop_of.
  rg_bind. post_step Hat. post_step Hat. post_step Hat. post_step Hat. post_step Hat.
  unfold mpsciq_push. rg_bind. post_step Hat.
  eapply (post_move i Start (λ _, Pushed)); [exact Hat| |].
  { intros c1 s1 Hr Hp. apply push_move; [congruence|done|done]. }
  clear c s Hat. intros q c s Hat. post_done Hat. post_step Hat.
  unfold dllist_data. rg_bind. post_step Hat. post_step Hat. post_done Hat.
  cbn [fmap list_fmap snd last_worker]. rg_bind. post_step Hat. post_step Hat.
  by apply post_rg.
Qed.

(** *** The worker *)

Lemma worker_read_only {V : Type} cur T L id st lo to kn pend (f : kern → outcome (V * kern)) v
    (Q : V → kern → wst → Prop) c s :
  at_worker cur T L id st lo to kn pend c s →
  (∀ c s, at_worker cur T L id st lo to kn pend c s → f c = Ret (v, c)) →
  (∀ c s, at_worker cur T L id st lo to kn pend c s → Q v c s) → wrg 0 (act f) Q c s.
Proof.
  intros HP Hf Hk. eapply (wrg_read_only _ _ (worker_stable _ _ _ _ _ _ _ _ _)); [|done|done|done].
  intros ? ? []. done.
Qed.

Lemma worker_read {A V : Type} cur T L id st lo to kn pend (f : kern → outcome (V * kern)) v
    (k : V → prog kern A) Q c s :
  at_worker cur T L id st lo to kn pend c s →
  (∀ c s, at_worker cur T L id st lo to kn pend c s → f c = Ret (v, c)) →
  (∀ c s, at_worker cur T L id st lo to kn pend c s → wrg 0 (k v) Q c s) → wrg 0 (act f ≫= k) Q c s.
Proof.
  intros HP Hf Hk. eapply (wrg_read _ _ (worker_stable _ _ _ _ _ _ _ _ _)); [|done|done|done].
  intros ? ? []. done.
Qed.

(** An action of the worker, and where it leads. *)
Lemma worker_move {A V : Type} cur T L id st lo to kn pend (P : V → kern → wst → Prop)
    (f : kern → outcome (V * kern)) (k : V → prog kern A) Q c s :
  at_worker cur T L id st lo to kn pend c s →
  (∀ c s, at_worker cur T L id st lo to kn pend c s → ∃ v c' s', f c = Ret (v, c') ∧ wstep 0 s s' ∧
     (winv s' → rep c' s' ∧ P v c' s')) →
  (∀ v c s, P v c s → wrg 0 (k v) Q c s) → wrg 0 (act f ≫= k) Q c s.
Proof.
  intros Hat Hf Hk. eapply (wrg_act _ _ (worker_stable _ _ _ _ _ _ _ _ _)); [by intros ? ? []|exact Hat|].
  clear Hat. intros c1 s1 Hat. destruct (Hf c1 s1 Hat) as (v & c' & s' & Hfc & Hs & Hr').
  destruct Hr' as [Hrep HP]; [eapply wstep_inv; [done|apply (rep_inv _ _ (aw_rep _ _ _ _ _ _ _ _ _ _ _ Hat))]|].
  exists v, c', s'. split_and!; try done. by apply Hk.
Qed.

(** *** What the worker writes by itself *)

Lemma wview_inv c T cur L :
  wview c = (T, Some cur, L) →
  k_tasks c = T ∧ (∃ e, k_workers c !! w = Some e ∧ wk_current_task e = cur) ∧ k_pal c = L.
Proof. unfold wview. intros [= <- Hc <-]. apply fmap_Some in Hc as (e & ? & ->). eauto. Qed.

Lemma write_current_move cur T L id st lo to kn pend v c s :
  at_worker cur T L id st lo to kn pend c s →
  ∃ c', (c ← cell_set (worker_current_task w) v c; Ret (tt, c)) = Ret (tt, c') ∧
    rep c' s ∧ at_worker v T L id st lo to kn pend c' s.
Proof.
  intros [Hr Hv H1 H2 H3 H4 H5 H6]. destruct (wview_inv _ _ _ _ Hv) as (HT & (e & He & Hc) & HL).
  eexists. split; [cbn; by rewrite He|].
  assert (rep (with_workers (<[w := set_wk_current_task v e]> (k_workers c)) c) s) as Hr'.
  { eapply rep_quiet; [exact Hr|done| |done|done]. simpl. by rewrite lookup_insert_eq, He. }
  split; [done|]. split; try done. unfold wview. simpl. rewrite lookup_insert_eq. simpl. congruence.
Qed.

Lemma write_current_id_move cur T L id st lo to kn pend v c s :
  at_worker cur T L id st lo to kn pend c s →
  ∃ c', (c ← cell_set (worker_current_task_id w) v c; Ret (tt, c)) = Ret (tt, c') ∧
    rep c' s ∧ at_worker cur T L id st lo to kn pend c' s.
Proof.
  intros [Hr Hv H1 H2 H3 H4 H5 H6]. destruct (wview_inv _ _ _ _ Hv) as (HT & (e & He & Hc) & HL).
  eexists. split; [cbn; by rewrite He|].
  assert (rep (with_workers (<[w := set_wk_current_task_id v e]> (k_workers c)) c) s) as Hr'.
  { eapply rep_quiet; [exact Hr|done| |done|done]. simpl. by rewrite lookup_insert_eq, He. }
  split; [done|]. split; try done. unfold wview. simpl. rewrite lookup_insert_eq. simpl. congruence.
Qed.

Lemma write_state_move cur T L id st lo to kn pend t e v c s :
  T !! t = Some e → at_worker cur T L id st lo to kn pend c s →
  ∃ c', (c ← cell_set (task_state t) v c; Ret (tt, c)) = Ret (tt, c') ∧
    rep c' s ∧ at_worker cur (<[t := set_tk_state v e]> T) L id st lo to kn pend c' s.
Proof.
  intros HTt [Hr Hv H1 H2 H3 H4 H5 H6]. destruct (wview_inv _ _ _ _ Hv) as (<- & (ew & Hew & Hc) & HL).
  eexists. split; [cbn; by rewrite HTt|].
  assert (rep (with_tasks (<[t := set_tk_state v e]> (k_tasks c)) c) s) as Hr'.
  { eapply rep_quiet; [exact Hr|done|done|done|]. intros t'. simpl.
    destruct (decide (t = t')) as [<-|]; [by rewrite lookup_insert_eq, HTt|by rewrite lookup_insert_ne]. }
  split; [done|]. split; try done. unfold wview. simpl. rewrite Hew. simpl. congruence.
Qed.

Lemma pal_move cur T L id st lo to kn pend call c s :
  at_worker cur T L id st lo to kn pend c s →
  rep (with_pal (k_pal c ++ [call]) c) s ∧
  at_worker cur T (L ++ [call]) id st lo to kn pend (with_pal (k_pal c ++ [call]) c) s.
Proof.
  intros [Hr Hv H1 H2 H3 H4 H5 H6]. destruct (wview_inv _ _ _ _ Hv) as (<- & (ew & Hew & Hc) & <-).
  assert (rep (with_pal (k_pal c ++ [call]) c) s) as Hr' by (eapply rep_quiet; done).
  split; [done|]. split; try done. unfold wview. simpl. rewrite Hew. simpl. congruence.
Qed.

(** *** What the worker does in the protocol *)

Lemma clear_move cur T L st lo kn c s :
  at_worker cur T L false st lo None kn true c s →
  ∃ v c' s', (v ← cell_get (worker_flags w) c;
      c ← cell_set (worker_flags w) (Z.land v (not32 PENDING)) c; Ret (v, c)) = Ret (v, c') ∧
    wstep 0 s s' ∧
    (winv s' → rep c' s' ∧ v = PENDING ∧ at_worker cur T L false false true None kn false c' s').
Proof using All.
  intros [Hr Hv H1 H2 H3 H4 H5 H6]. destruct (flags_value _ _ Hr) as (e & He & Hf).
  destruct (H6 eq_refl) as [_ Hp]. destruct s as [f n q ps id st' lo' to]. simpl in *. subst.
  destruct (rep_flags_set _ _ e (Z.land (wk_flags e) (not32 PENDING)) Hr He) as [Hv' Hrep].
  eexists (wk_flags e), _, (WSt (Z.land (wk_flags e) (not32 PENDING)) n q ps false false true None).
  split; [cbn; by rewrite He|]. split; [by apply w_clear|].
  intros HI. assert (rep _ (WSt (Z.land (wk_flags e) (not32 PENDING)) n q ps false false true None)) as Hr'
    by by apply Hrep.
  split; [exact Hr'|]. split; [done|]. split; try done. congruence.
Qed.

Lemma look_move cur T L st lo kn pend c s :
  (∀ u, kn ≠ Oldest u) → at_worker cur T L false st lo None kn pend c s →
  ∃ v c' s', (v ← cell_get (queue rq) c; Ret (v, c)) = Ret (v, c') ∧ wstep 0 s s' ∧
    (winv s' → rep c' s' ∧
       match v with
       | [] => kn = Nothing ∧ at_worker cur T L false st false None Nothing pend c' s'
       | u :: _ => at_worker cur T L false st lo None (Oldest u) pend c' s'
       end).
Proof using All.
  intros Hkn [Hr Hv H1 H2 H3 H4 H5 H6]. pose proof (rep_queue _ _ Hr) as Hq.
  destruct s as [f n q ps id st' lo' to]. simpl in *. subst.
  destruct q as [|u q].
  - eexists [], c, (WSt f n [] ps false st false None). split; [cbn; by rewrite Hq|].
    split; [by apply w_nothing|]. intros HI.
    assert (rep c (WSt f n [] ps false st false None)) as Hr' by (destruct Hr; by split).
    split; [done|]. split; [|by split].
    destruct kn as [| |u]; [done| |by destruct (Hkn u)]. destruct H5 as [H5|[? H5]]; done.
  - eexists (u :: q), c, _. split; [cbn; by rewrite Hq|]. split; [apply w_nop|]. intros HI.
    split; [done|]. by split.
Qed.

Lemma take_move cur T L st lo u pend c s :
  at_worker cur T L false st lo None (Oldest u) pend c s →
  ∃ v c' s', (v ← cell_get (queue rq) c; c ← cell_set (queue rq) (drop_ref u v) c; Ret (v, c)) = Ret (v, c') ∧
    wstep 0 s s' ∧
    (winv s' → rep c' s' ∧ at_worker cur T L false st lo (Some u) Nothing false c' s').
Proof using All.
  intros [Hr Hv H1 H2 H3 H4 H5 H6]. pose proof (rep_queue _ _ Hr) as Hq.
  destruct s as [f n q ps id st' lo' to]. simpl in *. subst.
  destruct q as [|u' q]; simplify_eq/=.
  destruct (rep_queue_set _ _ q Hr) as [Hv' Hrep].
  assert (drop_ref u (u :: q) = q) as Hdrop by (simpl; by rewrite decide_True).
  eexists (u :: q), _, (WSt f n q ps false st lo (Some u)).
  split; [simpl; rewrite Hq; ocbn; by rewrite Hdrop|]. split; [by apply w_take|]. intros HI.
  assert (rep (with_queues (<[rq:=q]> (k_queues c)) c) (WSt f n q ps false st lo (Some u))) as Hr'.
  { apply Hrep; try done. simpl. intros u' [Hu'|[= <-]]; apply (rep_known _ _ Hr); left; simpl; set_solver. }
  split; [done|]. split; try done.
Qed.

(** Going to sleep succeeds when nobody has set the pending flag; otherwise the
    flag is fresh, and there is work. *)
Lemma sleep_move cur T L st pend c s :
  at_worker cur T L false st false None Nothing pend c s →
  ∃ v c' s', (cur ← cell_get (worker_flags w) c;
      if decide (cur = 0) then c ← cell_set (worker_flags w) IDLE_PENDING c; Ret ((true, 0), c)
      else Ret ((false, cur), c)) = Ret (v, c') ∧
    wstep 0 s s' ∧
    (winv s' → rep c' s' ∧
       if (v.1 : bool) then at_worker cur T L true st false None Nothing false c' s'
       else at_worker cur T L false st false None (if st then Nothing else Work) true c' s').
Proof using All.
  intros [Hr Hv H1 H2 H3 H4 H5 H6]. destruct (flags_value _ _ Hr) as (e & He & Hf).
  pose proof (rep_inv _ _ Hr) as HI. destruct s as [f n q ps id st' lo' to]. simpl in *. subst.
  destruct (decide (wk_flags e = 0)) as [H0|H0].
  - destruct (rep_flags_set _ _ e IDLE_PENDING Hr He) as [Hv' Hrep].
    eexists (true, 0), _, (WSt IDLE_PENDING n q ps true st false None).
    split; [cbn; rewrite He; ocbn; rewrite decide_True by done; done|].
    rewrite H0. split; [by apply w_sleep|]. intros HI'.
    assert (rep _ (WSt IDLE_PENDING n q ps true st false None)) as Hr' by by apply Hrep.
    split; [exact Hr'|]. split; try done. congruence.
  - eexists (false, wk_flags e), c, _.
    split; [cbn; rewrite He; ocbn; by rewrite decide_False by done|]. split; [apply w_nop|].
    intros _. split; [done|].
    assert (wk_flags e = PENDING) as Hp.
    { destruct HI as [Hfl Ha _ _ _ _ _]. simpl in *. destruct Hfl as [?|[?|?]]; [done|done|].
      by destruct (Ha eq_refl). }
    split; try done. destruct st; [done|]. simpl. by apply (wi_fresh _ HI).
Qed.

(** Waking up means that there is work; being blocked means that there is none, or
    that another thread has not finished. *)
Lemma wake_move cur T L st c s :
  at_worker cur T L true st false None Nothing false c s →
  ((n ← cell_get (thread_idle_sem th) c;
    if 0 <? n then c ← cell_set (thread_idle_sem th) (n - 1) c; Ret (Some (tt, c)) else Ret None) = Ret None ∧
   wblk c s) ∨
  ∃ c' s', (n ← cell_get (thread_idle_sem th) c;
      if 0 <? n then c ← cell_set (thread_idle_sem th) (n - 1) c; Ret (Some (tt, c)) else Ret None) =
      Ret (Some (tt, c')) ∧
    wguar 0 (c, s) (c', s') ∧ at_worker cur T L false st false None Work true c' s'.
Proof using All.
  intros [Hr Hv H1 H2 H3 H4 H5 H6]. pose proof (rep_sem _ _ Hr) as (e & He & Hn)%fmap_Some.
  pose proof (rep_inv _ _ Hr) as HI. destruct s as [f n q ps id st' lo' to]. simpl in *. subst.
  pose proof (wi_idle _ HI eq_refl) as Hidle. simpl in Hidle.
  destruct (Z.ltb_spec 0 (th_idle_sem e)) as [Hpos|Hz].
  - right. destruct (rep_sem_set _ _ e (th_idle_sem e - 1) Hr He) as [Hv' Hrep].
    eexists _, (WSt f (th_idle_sem e - 1) q ps false st false None).
    split; [cbn; rewrite He; ocbn; by rewrite (proj2 (Z.ltb_lt _ _) Hpos)|].
    destruct Hidle as [(_ & ? & _)|(-> & Hw & _)]; [lia|].
    assert (wstep 0 (WSt PENDING (th_idle_sem e) q ps true st false None)
      (WSt PENDING (th_idle_sem e - 1) q ps false st false None)) as Hs by by apply w_wake.
    assert (rep (with_threads (<[th := set_th_idle_sem (th_idle_sem e - 1) e]> (k_threads c)) c)
      (WSt PENDING (th_idle_sem e - 1) q ps false st false None)) as Hr'
      by (apply Hrep; try done; by eapply wstep_inv).
    split; [by split_and!|]. split; try done.
  - left. split; [cbn; rewrite He; ocbn; by rewrite (proj2 (Z.ltb_ge _ _) Hz)|].
    destruct Hidle as [(-> & _ & _)|(-> & _ & [[? _]|[_ (i & Hi & _)]])]; [|lia|].
    + destruct q as [|u q]; [left; intros [?|[? ?]]; done|]. right.
      destruct (wi_told _ HI) as [?|[Hp|[_ Hp]]]; try done; simpl in *;
        apply list_elem_of_lookup in Hp as [i Hi]; eauto.
    + right. by exists i, Resuming.
Qed.

(** *** The loop of the worker *)

Lemma worker_rep cur T L id st lo to kn pend c s :
  at_worker cur T L id st lo to kn pend c s → rep c s.
Proof. by intros []. Qed.

Lemma view_current cur T L id st lo to kn pend c s :
  at_worker cur T L id st lo to kn pend c s → wk_current_task <$> k_workers c !! w = Some cur.
Proof. intros [_ Hv _ _ _ _ _ _]. by injection Hv. Qed.

Lemma view_task {V : Type} (f : prs_task → V) cur T L id st lo to kn pend c s t e :
  T !! t = Some e → at_worker cur T L id st lo to kn pend c s →
  f <$> k_tasks c !! t = Some (f e).
Proof. intros He [_ Hv _ _ _ _ _ _]. injection Hv as -> _ _. by rewrite He. Qed.

Lemma task_there cur T L id st lo to kn pend c s u t :
  U !! u = Some t → at_worker cur T L id st lo to kn pend c s → is_Some (T !! t).
Proof.
  intros Hu Hat. pose proof (ud_of_task _ _ _ _ (worker_rep _ _ _ _ _ _ _ _ _ _ _ Hat) Hu) as Ht.
  destruct Hat as [_ Hv _ _ _ _ _ _]. injection Hv as HT _ _. rewrite HT in Ht. by destruct (T !! t).
Qed.

Lemma worker_done {A : Type} cur T L id st lo to kn pend (a : A) (Q : A → kern → wst → Prop) c s :
  at_worker cur T L id st lo to kn pend c s →
  (∀ c s, at_worker cur T L id st lo to kn pend c s → Q a c s) → wrg 0 (mret a) Q c s.
Proof. apply (wrg_done _ _ (worker_stable _ _ _ _ _ _ _ _ _)). Qed.

Ltac worker_value Hat :=
  let Hr := fresh in pose proof (worker_rep _ _ _ _ _ _ _ _ _ _ _ Hat) as Hr; cbv beta;
  first
    [ env_value Hr
    | eapply read_value; first [eapply view_current; eassumption|eapply view_task; eassumption]
    | eapply get_field_value; eapply view_task; eassumption ].
Ltac worker_step Hat :=
  lazymatch type of Hat with
  | at_worker _ _ _ _ _ _ _ _ _ ?c ?s =>
      first [eapply worker_read_only|eapply worker_read];
        [exact Hat|let Hr := fresh in intros ? ? Hr; worker_value Hr|];
        clear Hat; try clear c s; intros c s Hat; cbv beta
  end.
Ltac worker_done Hat :=
  lazymatch type of Hat with
  | at_worker _ _ _ _ _ _ _ _ _ ?c ?s =>
      eapply worker_done; [exact Hat|]; clear Hat; try clear c s; intros c s Hat; cbv beta
  end.

(** An action of the worker that the protocol does not see. *)
Lemma worker_write {A : Type} (P : kern → wst → Prop) cur T L id st lo to kn pend
    (f : kern → outcome (unit * kern)) (k : unit → prog kern A) Q c s :
  at_worker cur T L id st lo to kn pend c s →
  (∀ c s, at_worker cur T L id st lo to kn pend c s → ∃ c', f c = Ret (tt, c') ∧ rep c' s ∧ P c' s) →
  (∀ c s, P c s → wrg 0 (k tt) Q c s) → wrg 0 (act f ≫= k) Q c s.
Proof.
  intros Hat Hf Hk. eapply (worker_move _ _ _ _ _ _ _ _ _ (λ _, P)); [exact Hat| |by intros []].
  clear c s Hat. intros c s Hat. destruct (Hf c s Hat) as (c' & Hc & Hr & HP).
  exists tt, c', s. split; [done|]. split; [apply w_nop|]. by intros _.
Qed.

Lemma worker_write_only (P : kern → wst → Prop) cur T L id st lo to kn pend
    (f : kern → outcome (unit * kern)) (Q : unit → kern → wst → Prop) c s :
  stable 0 P →
  at_worker cur T L id st lo to kn pend c s →
  (∀ c s, at_worker cur T L id st lo to kn pend c s → ∃ c', f c = Ret (tt, c') ∧ rep c' s ∧ P c' s) →
  (∀ c s, P c s → Q tt c s) → wrg 0 (act f) Q c s.
Proof.
  intros Hst Hat Hf HQ. rg_act. intros c1 s1 HR. apply (worker_stable _ _ _ _ _ _ _ _ _ _ _ _ _ HR) in Hat.
  destruct (Hf c1 s1 Hat) as (c' & Hc & Hr & HP). exists tt, c', s1. split; [done|]. split.
  - split_and!; [by eapply worker_rep|done|apply w_nop|done].
  - intros c3 s3 HR3. apply HQ. by apply (Hst _ _ _ _ HR3).
Qed.

Lemma set_current_rg cur T L id st lo to kn pend v c s :
  at_worker cur T L id st lo to kn pend c s → (∀ t, v = Some t → is_Some (T !! t)) →
  wrg 0 (prs_worker_set_current_task w v)
    (λ r c s, r = cur ∧ at_worker v T L id st lo to kn pend c s) c s.
Proof.
  intros Hat Hv. unfold prs_worker_set_current_task. worker_step Hat.
  eapply worker_write; [exact Hat|intros; by eapply write_current_move|]. clear c s Hat. intros c s Hat. cbv beta in Hat.
  rg_bind. enough (wrg 0 (match v with Some task => get_field k_tasks tk_id task | None => mret 0 end)
    (λ _ c s, at_worker v T L id st lo to kn pend c s) c s) as Hid.
  { eapply rg_mono; [|exact Hid]. clear c s Hat Hid. intros i c s Hat.
    eapply worker_write; [exact Hat|intros; by eapply write_current_id_move|]. clear c s Hat. intros c s Hat. cbv beta in Hat.
    by worker_done Hat. }
  destruct v as [t|]; [|by worker_done Hat].
  destruct (Hv t eq_refl) as [e He]. by worker_step Hat.
Qed.

(** The previous task is not running any more. *)
Definition not_running (T : gmap loc prs_task) (task : ptr) : Prop :=
  ∀ t, task = Some t → ∃ e, T !! t = Some e ∧ PRS_TASK_GET_STATE (tk_state e) ≠ PRS_TASK_STATE_RUNNING.

(** The worker has taken task [t]. *)
Definition taken (T : gmap loc prs_task) (cur : ptr) (L : list pal_call) (st lo : bool) (t : loc)
    (c : kern) (s : wst) : Prop :=
  ∃ u e token, U !! u = Some t ∧ T !! t = Some e ∧
    PRS_TASK_GET_STATE token = PRS_TASK_STATE_RUNNING ∧
    at_worker cur (<[t := set_tk_state token e]> T) L false st lo (Some u) Nothing false c s.

Lemma change_state_rg cur T L id st lo to kn pend t e expected (new : prs_task_state) c s :
  T !! t = Some e → at_worker cur T L id st lo to kn pend c s →
  wrg 0 (prs_task_change_state t expected new)
    (λ _, at_worker cur (<[t := set_tk_state (change_token (tk_state e) new) e]> T) L id st lo to kn pend) c s.
Proof.
  intros He Hat. unfold prs_task_change_state. worker_step Hat.
  eapply worker_write_only; [apply worker_stable|exact Hat|intros; by eapply write_state_move|].
  clear c s Hat. by intros c s Hat.
Qed.

Lemma running_rg cur T L id st lo to kn pend task c s :
  not_running T task → at_worker cur T L id st lo to kn pend c s →
  wrg 0 (match task with
         | Some task => state ← prs_task_get_state task; mret (state =? PRS_TASK_STATE_RUNNING)
         | None => mret false
         end) (λ r c s, r = false ∧ at_worker cur T L id st lo to kn pend c s) c s.
Proof.
  intros Hn Hat. destruct task as [t|]; [|by worker_done Hat].
  destruct (Hn t eq_refl) as (e & He & Hs). unfold prs_task_get_state.
  rg_bind. worker_step Hat. worker_done Hat. worker_done Hat. split; [|done].
  by apply Z.eqb_neq.
Qed.

Lemma no_removal_rg cur T L id st lo to kn pend fuel task c s :
  at_worker cur T L id st lo to kn pend c s →
  wrg 0 (coop_remove_loop (S fuel) sc task)
    (λ r c s, r = true ∧ at_worker cur T L id st lo to kn pend c s) c s.
Proof.
  intros Hat. cbn [coop_remove_loop]. worker_step Hat. unfold mpsciq_begin. rg_bind.
  worker_step Hat. worker_step Hat. worker_done Hat. cbn [head]. by worker_done Hat.
Qed.

Lemma get_next_rg fuel T L st lo kn pend task c s :
  not_running T task → (∀ u, kn ≠ Oldest u) →
  at_worker None T L false st lo None kn pend c s →
  wrg 0 (prs_sched_swcoop_get_next (S fuel) sw task) (λ r c s,
    (r = (true, None) ∧ kn = Nothing ∧ at_worker None T L false st false None Nothing pend c s) ∨
    ∃ t, r = (true, Some t) ∧ taken T None L st lo t c s) c s.
Proof using All.
  intros Hn Hkn Hat. unfold prs_sched_swcoop_get_next, swcoop_of. worker_step Hat. worker_step Hat.
  rg_bind. worker_step Hat. worker_step Hat. rg_bind.
  eapply rg_mono; [|by apply no_removal_rg]. clear c s Hat. intros r c s [-> Hat]. cbv iota.
  rg_bind. eapply rg_mono; [|by eapply running_rg]. clear c s Hat. intros r c s [-> Hat]. cbv iota.
  worker_step Hat. unfold mpsciq_begin. rg_bind. worker_step Hat.
  eapply (worker_move _ _ _ _ _ _ _ _ _ (λ v c s, match v with
       | [] => kn = Nothing ∧ at_worker None T L false st false None Nothing pend c s
       | u :: _ => at_worker None T L false st lo None (Oldest u) pend c s
       end)); [exact Hat|intros; by apply look_move|].
  clear c s Hat. intros q c s Hq. destruct q as [|u q].
  - destruct Hq as [-> Hat]. worker_done Hat. worker_done Hat. by left.
  - rename Hq into Hat. worker_done Hat. cbn [head]. unfold mpsciq_remove. rg_bind. worker_step Hat.
    eapply (worker_move _ _ _ _ _ _ _ _ _ (λ _ c s, at_worker None T L false st lo (Some u) Nothing false c s));
      [exact Hat|intros; by eapply take_move|].
    clear c s Hat. intros _ c s Hat. worker_done Hat.
    assert (is_Some (U !! u)) as [t Ht].
    { apply (rep_known _ _ (worker_rep _ _ _ _ _ _ _ _ _ _ _ Hat)). right.
      by destruct Hat. }
    destruct (task_there _ _ _ _ _ _ _ _ _ _ _ _ _ Ht Hat) as [e He].
    worker_step Hat. worker_step Hat. rg_bind.
    eapply rg_mono; [|by eapply change_state_rg]. clear c s Hat. intros r c s Hat. cbv beta in Hat.
    worker_done Hat. right. exists t. split; [done|]. exists u, e, (change_token (tk_state e) PRS_TASK_STATE_RUNNING).
    split_and!; [done..|apply change_token_state|done].
Qed.

Lemma idle_rg cur T L st pend c s :
  at_worker cur T L false st false None Nothing pend c s →
  wrg 0 (prs_worker_idle w) (λ _ c s, ∃ kn, (st = false → kn = Work) ∧ (∀ u, kn ≠ Oldest u) ∧
    at_worker cur T L false st false None kn true c s) c s.
Proof using All.
  intros Hat. unfold prs_worker_idle.
  eapply (worker_move _ _ _ _ _ _ _ _ _ (λ v c s,
    if (v.1 : bool) then at_worker cur T L true st false None Nothing false c s
    else at_worker cur T L false st false None (if st then Nothing else Work) true c s));
    [exact Hat|intros; by eapply sleep_move|].
  clear c s Hat. intros [[] v] c s Hat; simpl in Hat.
  - worker_step Hat. unfold prs_pal_thread_suspend. rg_bind. rg_bind_wait. intros c1 s1 HR.
    apply (worker_stable _ _ _ _ _ _ _ _ _ _ _ _ _ HR) in Hat.
    destruct (wake_move _ _ _ _ _ _ Hat) as [?|(c2 & s2 & Hf & HG & Hat2)]; [by left|right].
    exists tt, c2, s2. split; [exact Hf|]. split; [done|].
    clear c s c1 s1 HR Hat Hf HG. rename c2 into c, s2 into s, Hat2 into Hat.
    worker_done Hat. worker_done Hat. exists Work. by split_and!.
  - worker_done Hat. eexists. split; [|split; [|exact Hat]]; by destruct st.
Qed.

(** The context that is saved when the worker switches. *)
Definition saved (T : gmap loc prs_task) (cur prev_context exit_context : ptr) : ptr :=
  let prev_context := match cur ≫= (T !!.) with Some e => tk_context e | None => prev_context end in
  match prev_context with Some _ => prev_context | None => exit_context end.

(** The worker runs a task that was ready: it is the current task, in the running
    state, and the worker has switched to its context unless it was there already. *)
Definition switched (T : gmap loc prs_task) (L : list pal_call) (cur save : ptr) (c : kern) (s : wst) : Prop :=
  ∃ t e L' st lo, T !! t = Some e ∧ taken T (Some t) L' st lo t c s ∧
    (cur = Some t ∧ L' = L ∨ L' = L ++ [ContextSwap save (tk_context e)]).

(** Rounds that are enough. *)
Definition enough (fuel : nat) (check : bool) (kn : knowledge) : Prop :=
  (1 ≤ fuel)%nat ∧ kn = Work ∨ (2 ≤ fuel)%nat ∧ check = true ∨ (3 ≤ fuel)%nat.

(** The flags at the start of a round. *)
Lemma round_flags cur T L st lo kn (check : bool) c s :
  at_worker cur T L false st lo None kn check c s →
  wrg 0 (if check then prs_pal_atomic_fetch_and (worker_flags w) (not32 PRS_WORKER_FLAG_INTERRUPT_PENDING)
         else mret PRS_WORKER_FLAG_INTERRUPT_PENDING)
    (λ flags c s, flags = PENDING ∧
       ∃ lo, at_worker cur T L false (if check then false else st) lo None kn false c s) c s.
Proof using All.
  intros Hat. destruct check.
  - unfold prs_pal_atomic_fetch_and, atomic_update. rg_act. intros c1 s1 HR.
    apply (worker_stable _ _ _ _ _ _ _ _ _ _ _ _ _ HR) in Hat.
    destruct (clear_move _ _ _ _ _ _ _ _ Hat) as (v & c2 & s2 & Hf & Hs & Hr).
    destruct Hr as (Hr & -> & Hat2);
      [eapply wstep_inv; [exact Hs|apply (rep_inv _ _ (worker_rep _ _ _ _ _ _ _ _ _ _ _ Hat))]|].
    exists PENDING, c2, s2. split; [exact Hf|]. split.
    + split_and!; [by eapply worker_rep|done|done|done].
    + intros c3 s3 HR3. split; [done|]. exists true. by apply (worker_stable _ _ _ _ _ _ _ _ _ _ _ _ _ HR3).
  - worker_done Hat. split; [done|]. by exists lo.
Qed.

Lemma taken_current T cur L st lo t c s :
  taken T cur L st lo t c s →
  wrg 0 (prs_worker_set_current_task w (Some t)) (λ _ c s, taken T (Some t) L st lo t c s) c s.
Proof using All.
  intros (u & e & token & Hu & He & Htok & Hat).
  eapply rg_mono; [|eapply set_current_rg; [exact Hat|intros t' [= <-]; by rewrite lookup_insert_eq]].
  clear c s Hat. intros r c s [_ Hat]. by exists u, e, token.
Qed.

(** Once a task is taken, the rest of the round switches to it. *)
Lemma switch_rg T L st lo cur prev_context exit_context t c s :
  taken T (Some t) L st lo t c s →
  wrg 0 (if decide (cur = Some t) then mret tt
         else
           next_context ← get_field k_tasks tk_context t;
           prs_pal_context_swap (match prev_context with Some _ => prev_context | None => exit_context end)
             next_context)
    (λ _, switched T L cur (match prev_context with Some _ => prev_context | None => exit_context end)) c s.
Proof using All.
  intros (u & e & token & Hu & He & Htok & Hat). destruct (decide (cur = Some t)) as [->|Hne].
  - worker_done Hat. exists t, e, L, st, lo. split; [done|]. split; [|by left]. by exists u, e, token.
  - assert (<[t := set_tk_state token e]> T !! t = Some (set_tk_state token e)) as Ht by apply lookup_insert_eq.
    worker_step Hat. unfold prs_pal_context_swap, pal. cbn [set_tk_state tk_context].
    eapply worker_write_only; [apply worker_stable|exact Hat| |].
    { intros c1 s1 Hat1. eexists. split; [reflexivity|]. by eapply pal_move. }
    clear c s Hat. intros c s Hat. eexists t, e, _, st, lo. split; [done|]. split; [|by right].
    by exists u, e, token.
Qed.

Lemma context_rg T L id st lo to kn pend cur prev_context c s :
  not_running T cur → at_worker None T L id st lo to kn pend c s →
  wrg 0 (match cur with Some prev_task => get_field k_tasks tk_context prev_task | None => mret prev_context end)
    (λ r c s, r = match cur ≫= (T !!.) with Some e => tk_context e | None => prev_context end ∧
       at_worker None T L id st lo to kn pend c s) c s.
Proof.
  intros Hn Hat. destruct cur as [p|]; [|by worker_done Hat].
  destruct (Hn p eq_refl) as (e & He & _). simpl. rewrite He. by worker_step Hat.
Qed.

Lemma loop_rg `{!GetNext} fuel check prev_context exit_context cur T L st lo kn c s :
  (∀ task, worker_get_next sw task = prs_sched_swcoop_get_next 1 sw task) →
  enough fuel check kn → not_running T cur → (∀ u, kn ≠ Oldest u) →
  at_worker cur T L false st lo None kn check c s →
  wrg 0 (worker_schedule_loop fuel w check prev_context exit_context)
    (λ _ c s, ∃ cur', (cur' = cur ∨ cur' = None) ∧
       switched T L cur' (saved T cur prev_context exit_context) c s) c s.
Proof using All.
  intros Hgn. revert check prev_context cur st lo kn c s.
  induction fuel as [|fuel IH]; intros check prev_context cur st lo kn c s Hen Hn Hkn Hat;
    [unfold enough in Hen; lia|].
  cbn [worker_schedule_loop]. rg_bind. eapply rg_mono; [|by eapply round_flags].
  clear lo c s Hat. intros flags c s (-> & lo & Hat).
  change (has PENDING PRS_WORKER_FLAG_STOP) with false.
  change (has PENDING PRS_WORKER_FLAG_INTERRUPT_PENDING) with true. cbv iota.
  rg_bind. eapply rg_mono; [|eapply set_current_rg; [exact Hat|done]].
  clear c s Hat. intros prev c s [-> Hat]. rg_bind.
  eapply rg_mono; [|by apply context_rg].
  clear c s Hat. intros r c s [-> Hat]. worker_step Hat. rewrite Hgn. rg_bind.
  eapply rg_mono; [|by eapply get_next_rg].
  clear c s Hat. intros r c s [(-> & -> & Hat)|(t & -> & Ht)]; cbv iota.
  - rg_bind. eapply rg_mono; [|by eapply idle_rg]. clear c s Hat.
    intros _ c s (kn & Hst & Hkn' & Hat). eapply rg_mono; [|eapply (IH true _ None _ _ kn); [|done..|exact Hat]].
    + intros _ c' s' (cur' & [->| ->] & H'); exists None; (split; [by right|exact H']).
    + destruct Hen as [[_ ?]|[[? ->]|?]]; [done| |right; left; split; [lia|done]].
      left. split; [lia|]. by apply Hst.
  - rg_bind. eapply rg_mono; [|by eapply taken_current]. clear c s Ht. intros r c s Ht. cbv beta in Ht.
    eapply rg_mono; [|apply (switch_rg _ _ _ _ _ _ _ _ _ _ Ht)]. intros ? c' s' Hsw. exists cur. split; [by left|exact Hsw].
Qed.
End implementation.

#[export] Existing Instance wrely_preorder.

(** ** No lost wake-up *)

Lemma work_any_step t s s' : wstep t s s' → work s → work s'.
Proof.
  intros Hs [Hw|Hw]; destruct Hs; try (by left); try (by right).
  left. simpl in *. by destruct q.
Qed.

Lemma wstep_phases t s s' : wstep t s s' →
  length (s_phases s') = length (s_phases s) ∧ (t = 0%nat → s_phases s' = s_phases s).
Proof. intros []; simpl; rewrite ?length_insert; split; done || lia. Qed.

Section wakeup.
Context `{!ObjectFree} (w th sw sd sc dl nd rq mq : loc) (U : gmap loc loc).
Hypothesis queues_differ : mq ≠ rq.

#[local] Instance swcoop_get_next : GetNext := prs_sched_swcoop_get_next 1.

(** The worker's thread, and one that makes a task ready. *)
Definition schedule_thread : prog kern prs_result := _ ← prs_worker_schedule 3 w; mret PRS_OK.
Definition ready_thread (t : loc) : prog kern prs_result := prs_sched_swcoop_ready sd t.

(** What every thread relies on, once and for all. *)
Definition wglobal (n : nat) (q0 : list loc) (c : kern) (s : wst) : Prop :=
  rep w th sw sd sc dl nd rq mq U c s ∧ length (s_phases s) = n ∧ (q0 ≠ [] → work s).

Lemma wglobal_step n q0 t c s c' s' :
  wguar w th sw sd sc dl nd rq mq U t (c, s) (c', s') → wglobal n q0 c s → wglobal n q0 c' s'.
Proof.
  intros (_ & Hr & Hs & _) (_ & Hn & Hw). simpl in *. split; [done|].
  split; [by rewrite (proj1 (wstep_phases _ _ _ Hs))|].
  intros Hq. by eapply work_any_step; [|apply Hw].
Qed.

(** What the worker and the other threads have done when they return. *)
Definition schedule_post (T : gmap loc prs_task) (cur : ptr) (L : list pal_call)
    (r : prs_result) (c : kern) (s : wst) : Prop :=
  r = PRS_OK ∧ ∃ cur', (cur' = cur ∨ cur' = None) ∧
    switched w th sw sd sc dl nd rq mq U T L cur' (saved T cur None None) c s.

Definition thread_post T cur L (i : nat) (r : prs_result) (c : kern) (s : wst) : Prop :=
  match i with
  | O => schedule_post T cur L r c s
  | S i => at_post w th sw sd sc dl nd rq mq U i Posted c s ∧ r = PRS_OK
  end.

#[local] Opaque rgb.

Lemma schedule_thread_rg T cur L st lo c s :
  not_running T cur →
  at_worker w th sw sd sc dl nd rq mq U cur T L false st lo None Nothing false c s →
  rgb False False True wblk (wrely w th sw sd sc dl nd rq mq U 0) (wguar w th sw sd sc dl nd rq mq U 0)
    schedule_thread (schedule_post T cur L) c s.
Proof using queues_differ.
  intros Hn Hat. unfold schedule_thread, prs_worker_schedule, prs_worker_schedule_internal.
  rg_bind. eapply rg_mono; [|eapply (loop_rg _ _ _ _ _ _ _ _ _ U queues_differ 3); [done| | | |exact Hat]].
  - intros _ c1 s1 (cur' & Hc & t & e & L' & st' & lo' & He & (u & e' & token & Hu & He' & Htok & Hat1) & HL).
    apply rg_done. intros c2 s2 HR. split; [done|]. exists cur'. split; [done|].
    exists t, e, L', st', lo'. split; [done|]. split; [|done]. exists u, e', token.
    split_and!; try done. by apply (worker_stable _ _ _ _ _ _ _ _ _ _ _ _ _ _ _ _ _ _ _ _ _ _ _ HR).
  - right; right. lia.
  - done.
  - done.
Qed.

(** The memory before the threads start. *)
Record before (c : kern) (cur : ptr) (q : list loc) : Prop := Before {
  bf_env : wenv w th sw sd sc dl nd rq mq U c;
  bf_flags : wk_flags <$> k_workers c !! w = Some 0 ∨ wk_flags <$> k_workers c !! w = Some PENDING;
  bf_current : wk_current_task <$> k_workers c !! w = Some cur;
  bf_sem : th_idle_sem <$> k_threads c !! th = Some 0;
  bf_queue : k_queues c !! rq = Some q;
  bf_known u : u ∈ q → is_Some (U !! u);
  bf_not_running : not_running (k_tasks c) cur
}.

Lemma before_ok c cur q n :
  before c cur q → ∃ f, let s := WSt f 0 q (replicate n Start) false true true None in
    wglobal n q c s ∧
    at_worker w th sw sd sc dl nd rq mq U cur (k_tasks c) (k_pal c) false true true None Nothing false c s.
Proof.
  intros [He Hf Hc Hs Hq Hk Hn].
  assert (∃ f, wk_flags <$> k_workers c !! w = Some f ∧ (f = 0 ∨ f = PENDING)) as (f & Hf' & Hv) by naive_solver.
  exists f. set (s := WSt f 0 q (replicate n Start) false true true None).
  assert (winv s) as HI.
  { split; unfold work; simpl; try done; try tauto.
    - intros _. split_and!; [by destruct Hv as [->| ->]|done|]. by intros [? _]%elem_of_replicate.
    - intros i p [-> _]%lookup_replicate_1. done. }
  assert (rep w th sw sd sc dl nd rq mq U c s) as Hr.
  { split; simpl; try done. intros u [?|?]; [by apply Hk|done]. }
  split.
  - split; [done|]. split; [apply length_replicate|]. intros ?. by left.
  - split; try done. unfold wview. by rewrite Hc.
Qed.

Lemma threads_ok c cur q ts :
  before c cur q → (∀ t, t ∈ ts → ∃ u, U !! u = Some t) →
  ∃ s, pool_ok False False True wblk (wrely w th sw sd sc dl nd rq mq U) (wguar w th sw sd sc dl nd rq mq U)
    (thread_post (k_tasks c) cur (k_pal c)) (wglobal (length ts) q) c s
    (schedule_thread :: (ready_thread <$> ts)).
Proof using queues_differ.
  intros Hb Hts. destruct (before_ok c cur q (length ts) Hb) as (f & Hg & Hat).
  eexists. split; [exact Hg|]. intros [|i] p Hp; simpl in Hp.
  - simplify_eq. eapply schedule_thread_rg; [apply Hb|exact Hat].
  - apply list_lookup_fmap_Some in Hp as (t & -> & Ht).
    destruct (Hts t) as [u Hu]; [by eapply list_elem_of_lookup_2|].
    eapply rg_mono;
      [|eapply (swcoop_ready_rg _ _ _ _ _ _ _ _ _ U queues_differ i t u); [done|]].
    + intros r c' s' [Hp ->]. by split.
    + split; [apply Hg|]. apply lookup_replicate. split; [done|]. by eapply lookup_lt_Some.
Qed.

(** All the other threads have returned: the worker is not blocked. *)
Definition all_posted (c : kern) (s : wst) : Prop :=
  work s ∧ ∀ i p, s_phases s !! i = Some p → p = Posted.

Lemma all_posted_awake c s : all_posted c s → ¬ wblk c s.
Proof. intros [Hw Hp] [?|(i & p & Hi & Hne)]; [done|]. apply Hne. by eapply Hp. Qed.

Lemma all_posted_step c s c' s' :
  wguar w th sw sd sc dl nd rq mq U 0 (c, s) (c', s') → all_posted c s → all_posted c' s'.
Proof.
  intros (_ & _ & Hs & _) [Hw Hp]. simpl in *. split; [by eapply work_any_step|].
  by rewrite (proj2 (wstep_phases _ _ _ Hs) eq_refl).
Qed.

Lemma switched_values T L cur save c s :
  switched w th sw sd sc dl nd rq mq U T L cur save c s →
  ∃ u t e e', U !! u = Some t ∧ T !! t = Some e ∧
    wk_current_task <$> k_workers c !! w = Some (Some t) ∧
    k_tasks c !! t = Some e' ∧ PRS_TASK_GET_STATE (tk_state e') = PRS_TASK_STATE_RUNNING ∧
    (cur = Some t ∧ k_pal c = L ∨ k_pal c = L ++ [ContextSwap save (tk_context e)]).
Proof.
  intros (t & e & L' & st & lo & He & (u & e2 & token & Hu & He2 & Htok & Hat) & HL).
  exists u, t, e, (set_tk_state token e2). destruct Hat as [_ Hv _ _ _ _ _ _].
  destruct (wview_inv _ _ _ _ _ Hv) as (-> & (ew & -> & Hcur) & ->).
  split_and!; try done; [simpl; congruence|]. by rewrite lookup_insert_eq.
Qed.

Lemma posted_all T cur L q (ts : list loc) c s (ps : list (prog kern prs_result)) :
  wglobal (length ts) q c s → q ≠ [] ∨ ts ≠ [] →
  (∀ i, (i < length ts)%nat → ∃ r, ps !! S i = Some (Done r)) →
  (∀ i p, ps !! i = Some p → rgb False False True wblk (wrely w th sw sd sc dl nd rq mq U i)
     (wguar w th sw sd sc dl nd rq mq U i) p (thread_post T cur L i) c s) →
  all_posted c s.
Proof.
  intros (Hr & Hn & Hw) Hne Hdone Hps.
  assert (∀ i, (i < length ts)%nat → s_phases s !! i = Some Posted) as Hposted.
  { intros i Hi. destruct (Hdone i Hi) as [r Hri].
    by destruct (Hps _ _ Hri c s ltac:(reflexivity)) as [[_ ?] _]. }
  split.
  - destruct Hne as [Hne|Hne]; [by apply Hw|].
    apply (wi_pushed _ (rep_inv _ _ _ _ _ _ _ _ _ _ _ _ Hr) 0 Posted); [|done].
    apply Hposted. destruct ts; [done|]. simpl. lia.
  - intros i p Hi. pose proof (lookup_lt_Some _ _ _ Hi). rewrite Hposted in Hi by lia. congruence.
Qed.

(** C6: No wake-up is lost.  A worker of the cooperative scheduler looks for a task and goes idle
    when there is none ([prs_worker_schedule]), while any number of other threads
    make tasks ready ([prs_sched_swcoop_ready]).  In every interleaving no thread
    faults and those that return report success; and whenever all the other
    threads have returned, and there is or was a ready task, the worker, left
    alone, is not blocked: within three rounds of its loop it makes a ready task
    its current one, running, and has switched to the context of this task from
    the one of the previous task (unless it is the same). *)
Theorem worker_wakes_up c cur q ts c' ps' :
  before c cur q → (∀ t, t ∈ ts → ∃ u, U !! u = Some t) →
  rtc pool_step (c, schedule_thread :: (ready_thread <$> ts)) (c', ps') →
  (∀ i p, ps' !! i = Some p → ¬ faults c' p) ∧
  (∀ i r, ps' !! i = Some (Done r) → r = PRS_OK) ∧
  ((∀ i, (i < length ts)%nat → ∃ r, ps' !! S i = Some (Done r)) → q ≠ [] ∨ ts ≠ [] →
   ∃ p c'' u t e e', ps' !! 0%nat = Some p ∧ run p c' = Ret (Some PRS_OK, c'') ∧
     U !! u = Some t ∧ k_tasks c !! t = Some e ∧
     wk_current_task <$> k_workers c'' !! w = Some (Some t) ∧
     k_tasks c'' !! t = Some e' ∧ PRS_TASK_GET_STATE (tk_state e') = PRS_TASK_STATE_RUNNING ∧
     (cur = Some t ∧ k_pal c'' = k_pal c ∨
      k_pal c'' = k_pal c ++ [ContextSwap (saved (k_tasks c) cur None None) (tk_context e)])).
Proof using queues_differ.
  intros Hb Hts Hsteps. destruct (threads_ok c cur q ts Hb Hts) as [s Hok].
  pose proof (pool_length _ _ Hsteps) as Hlen. simpl in Hlen. rewrite length_fmap in Hlen.
  assert (∀ i j s s', i ≠ j → wguar w th sw sd sc dl nd rq mq U i s s' → wrely w th sw sd sc dl nd rq mq U j s s')
    as HGR by (intros; by eapply wguar_rely).
  destruct (pool_adequate False False True wblk I _ _ _ _ (wrely_preorder _ _ _ _ _ _ _ _ _ _) HGR
    (λ i, wglobal_step _ _ i) _ _ _ _ _ Hok Hsteps) as (s1 & _ & Hfaults & Hdone).
  split_and!; [done| |].
  { intros [|i] r Hi; apply (Hdone _ r Hi). }
  clear s1 Hfaults Hdone. intros Hdone Hne.
  destruct (pool_rtc_ok False False True wblk I _ _ _ _ (wrely_preorder _ _ _ _ _ _ _ _ _ _) HGR
    (λ i, wglobal_step _ _ i) _ _ _ _ _ Hok Hsteps) as (s' & Hg & Hps).
  destruct (lookup_lt_is_Some_2 ps' 0) as [p Hp]; [lia|].
  assert (all_posted c' s') as Hall by (by eapply posted_all).
  destruct (rg_run_from _ _ _ _ _ _ all_posted p _ _ _ (λ H, H) (λ H, H) (λ _, reflexivity _)
    all_posted_awake all_posted_step Hall (Hps _ _ Hp)) as (r & c'' & s'' & Hrun & Hpost & _).
  destruct Hpost as (-> & cur' & Hcur' & Hsw).
  destruct (switched_values _ _ _ _ _ _ Hsw) as (u & t & e & e' & H').
  exists p, c'', u, t, e, e'. naive_solver.
Qed.
End wakeup.

(** A worker that finds nothing, goes to sleep, and is woken for task 10. *)
Definition demo_wakeup_kern : kern :=
  with_tasks {[ 10%positive := PrsTask 7 [] None None 0 3 0 0 (Some 11%positive) 4097 (Some 12%positive) None None ]}
    (with_workers {[ 1%positive := PrsWorker 5 2 3 0 0 None None ]}
    (with_threads {[ 2%positive := PrsPalThread false (Some 1%positive) true false 0 0 ]}
    (with_uds {[ 11%positive := SchedTaskUserdata (Some 10%positive) ]}
    (with_swcoop {[ 5%positive := PrsSchedSwcoop (Some 8%positive) (Some 9%positive) ]}
    (with_sched_workers {[ 3%positive := PrsSchedWorker (Some 4%positive) (Some 4%positive) (Some 1%positive) ]}
    (with_scheds {[ 4%positive := PrsSched 9 [] prs_sched_swcoop_ops (Some 5%positive) (Some 6%positive) ]}
    (with_queues {[ 8%positive := []; 9%positive := [] ]}
    (with_dllists {[ 6%positive := [(7%positive, 3%positive)] ]} kern_empty)))))))).

Definition demo_wakeup_threads : list (prog kern prs_result) :=
  let _ : ObjectFree := λ _ _, mret tt in
  schedule_thread 1 :: (ready_thread 4 <$> [10%positive]).

Definition demo_wakeup_schedule : list (nat * bool) :=
  replicate 16 (0%nat, false) ++ replicate 16 (1%nat, false).

Lemma demo_before :
  before 1 2 3 4 5 6 7 8 9 {[ 11%positive := 10%positive ]} demo_wakeup_kern None [].
Proof.
  split; try reflexivity; try done; [|by left|intros u Hu; by apply elem_of_nil in Hu].
  split; try reflexivity. intros u t [<- <-]%lookup_singleton_Some. done.
Qed.

Lemma worker_wakes_up_witness :
  match pool_run (take 16 demo_wakeup_schedule) (demo_wakeup_kern, demo_wakeup_threads) with
  | Some (c, p :: _) => blocked c p
  | _ => False
  end ∧
  match pool_run demo_wakeup_schedule (demo_wakeup_kern, demo_wakeup_threads) with
  | Some (c, ps) => ∃ p c', ps !! 0%nat = Some p ∧ run p c = Ret (Some PRS_OK, c') ∧
      wk_current_task <$> k_workers c' !! 1%positive = Some (Some 10%positive)
  | _ => False
  end.
Proof.
  split; [vm_compute; reflexivity|].
  assert ((λ s, s.2 !! 1%nat) <$> pool_run demo_wakeup_schedule (demo_wakeup_kern, demo_wakeup_threads) =
    Some (Some (Done PRS_OK))) as Hdone by (vm_compute; reflexivity).
  destruct (pool_run demo_wakeup_schedule _) as [[c ps]|] eqn:Hrun; [|discriminate Hdone].
  destruct (worker_wakes_up (H := λ _ _, mret tt) 1 2 3 4 5 6 7 8 9 {[ 11%positive := 10%positive ]} ltac:(done)
    _ None [] [10%positive] c ps demo_before) as (_ & _ & Hwake).
  - intros t ->%list_elem_of_singleton. by exists 11%positive.
  - exact (pool_run_rtc _ _ _ Hrun).
  - destruct Hwake as (p & c' & u & t & e & e' & Hp & Hr & Hu & _ & Hcur & _).
    + intros i Hi. exists PRS_OK. assert (i = 0%nat) as -> by (simpl in Hi; lia). by injection Hdone.
    + by right.
    + apply lookup_singleton_Some in Hu as [_ <-]. exists p, c'. exact (conj Hp (conj Hr Hcur)).
Defined.
