(* ===== verification/Spinlock.v ===== *)
(** * Spinlocks (prs/spinlock.c)

    A lock that is one atomic flag.  The theorem is that critical sections under it
    are serializable: whatever the interleaving, the memory is what the sections
    that are over have left, run one after the other in the order in which they took
    the lock, followed by what the one that is under way has done so far. *)

From S2P Require Import Prelude Heap Atomic Kern.

Definition spinlock_lock (p : loc) : cell kern bool :=
  field k_spinlocks with_spinlocks id (λ v _, v) p.

Definition prs_spinlock_create : prog kern ptr :=
  spinlock ← alloc_block k_spinlocks with_spinlocks false;
  _ ← fatal_if (bool_decide (spinlock = None));
  spinlock ← nonnull spinlock;
  _ ← prs_pal_atomic_store (spinlock_lock spinlock) false;
  mret (Some spinlock).

Definition prs_spinlock_destroy (spinlock : loc) : prog kern unit :=
  free_block k_spinlocks with_spinlocks spinlock.

Definition prs_spinlock_try_lock (spinlock : loc) : prog kern bool :=
  lock ← prs_pal_atomic_exchange (spinlock_lock spinlock) true;
  mret (negb lock).

Fixpoint prs_spinlock_lock (fuel : nat) (spinlock : loc) : prog kern unit :=
  match fuel with
  | O => Spin
  | S fuel =>
      locked ← prs_spinlock_try_lock spinlock;
      if (locked : bool) then mret tt else prs_spinlock_lock fuel spinlock
  end.

Definition prs_spinlock_unlock (spinlock : loc) : prog kern unit :=
  prs_pal_atomic_store (spinlock_lock spinlock) false.

(** ** Critical sections *)

Section critical.
Context {A : Type} (p : loc).

Definition release (r : A) : prog kern A := _ ← prs_spinlock_unlock p; mret r.

(** A section of code under the lock. *)
Definition critical (fuel : nat) (body : prog kern A) : prog kern A :=
  _ ← prs_spinlock_lock fuel p;
  r ← body;
  release r.

(** Code that leaves the lock alone. *)
Fixpoint keeps_lock (q : prog kern A) : Prop :=
  match q with
  | Done _ | Spin => True
  | Act f k => ∀ c x c', f c = Ret (x, c') → k_spinlocks c' !! p = k_spinlocks c !! p ∧ keeps_lock (k x)
  | Flip k => ∀ b, keeps_lock (k b)
  | Wait f k => ∀ c x c', f c = Ret (Some (x, c')) →
      k_spinlocks c' !! p = k_spinlocks c !! p ∧ keeps_lock (k x)
  end.

(** Steps of one program that nobody interrupts. *)
Definition alone : relation (kern * prog kern A) :=
  rtc (λ s s', ∃ b, prog_step b s.1 s.2 = Some s').

Definition with_lock (v : bool) (c : kern) : kern := with_spinlocks (<[p := v]> (k_spinlocks c)) c.

(** Whole sections one after the other: which, and what they return. *)
Inductive serial (bodies : list (prog kern A)) (c0 : kern) : list (nat * A) → kern → Prop :=
  | serial_nil : serial bodies c0 [] c0
  | serial_snoc order c i body r c' :
      serial bodies c0 order c → bodies !! i = Some body →
      alone (with_lock true c, body) (c', Done r) →
      serial bodies c0 (order ++ [(i, r)]) (with_lock false c').

Lemma with_lock_value v c : k_spinlocks (with_lock v c) !! p = Some v.
Proof. simpl. by rewrite lookup_insert_eq. Qed.

Lemma with_lock_same v c : k_spinlocks c !! p = Some v → with_lock v c = c.
Proof. intros Hv. unfold with_lock. rewrite insert_id by done. by destruct c. Qed.

Lemma with_lock_twice u v c : with_lock u (with_lock v c) = with_lock u c.
Proof. unfold with_lock. simpl. by rewrite insert_insert_eq. Qed.

Lemma keeps_lock_step b c q c' q' :
  keeps_lock q → prog_step b c q = Some (c', q') →
  k_spinlocks c' !! p = k_spinlocks c !! p ∧ keeps_lock q'.
Proof.
  destruct q as [a| |X f k|k|X f k]; simpl; intros Hq Hs; try done.
  - destruct (f c) as [[x c2]| |] eqn:Hf; simplify_eq. by apply Hq.
  - simplify_eq. auto.
  - destruct (f c) as [[[x c2]|]| |] eqn:Hf; simplify_eq. by apply Hq.
Qed.

(** Where a thread is: before the lock, in its section, done. *)
Inductive place : Type := Before (fuel : nat) | Inside (q : prog kern A) | After (r : A).

Definition program (body : prog kern A) (s : place) : prog kern A :=
  match s with
  | Before fuel => critical fuel body
  | Inside q => q ≫= release
  | After r => Done r
  end.

(** What a step of a thread does to the lock and its place. *)
Lemma place_step b c body s v c' p' :
  k_spinlocks c !! p = Some v → prog_step b c (program body s) = Some (c', p') →
  (∀ q, s = Inside q → v = true ∧ keeps_lock q) →
  ∃ s', p' = program body s' ∧
    match s with
    | Before _ =>
        if v then c' = c ∧ ∃ n, s' = Before n else c' = with_lock true c ∧ s' = Inside body
    | Inside q =>
        (∃ r, q = Done r ∧ c' = with_lock false c ∧ s' = After r) ∨
        ∃ q', prog_step b c q = Some (c', q') ∧ s' = Inside q'
    | After _ => False
    end.
Proof.
  intros Hv Hs Hin. destruct s as [[|fuel]|q|r]; [done| | |done].
  - simpl in Hs. rewrite Hv in Hs. simpl in Hs. simplify_eq. destruct v; simpl.
    + exists (Before fuel). split; [done|]. split; [by apply with_lock_same|by exists fuel].
    + by exists (Inside body).
  - destruct (Hin q eq_refl) as [-> Hk].
    destruct q as [r| |X f k|k|X f k].
    + simpl in Hs. rewrite Hv in Hs. simpl in Hs. simplify_eq.
      exists (After r). split; [done|]. left. by exists r.
    + done.
    + apply bind_step in Hs as (q1 & Hq1 & ->); [|done]. exists (Inside q1). split; [done|]. right. by exists q1.
    + apply bind_step in Hs as (q1 & Hq1 & ->); [|done]. exists (Inside q1). split; [done|]. right. by exists q1.
    + apply bind_step in Hs as (q1 & Hq1 & ->); [|done]. exists (Inside q1). split; [done|]. right. by exists q1.
Qed.

(** The sections that are over, and the one that is under way. *)
Definition holder (bodies : list (prog kern A)) (places : list place) (cm c : kern) : Prop :=
  (c = cm ∧ ∀ i q, places !! i ≠ Some (Inside q)) ∨
  ∃ i q body, places !! i = Some (Inside q) ∧ (∀ j q', places !! j = Some (Inside q') → j = i) ∧
    bodies !! i = Some body ∧ keeps_lock q ∧ k_spinlocks c !! p = Some true ∧
    alone (with_lock true cm, body) (c, q).

Record lock_inv (bodies : list (prog kern A)) (c0 c : kern) (ps : list (prog kern A))
    (places : list place) (order : list (nat * A)) (cm : kern) : Prop := LockInv {
  li_programs i q : ps !! i = Some q →
    ∃ body s, bodies !! i = Some body ∧ places !! i = Some s ∧ q = program body s;
  li_length : length places = length ps;
  li_serial : serial bodies c0 order cm;
  li_free : k_spinlocks cm !! p = Some false;
  li_done i r : places !! i = Some (After r) ↔ (i, r) ∈ order;
  li_once : NoDup (order.*1);
  li_holder : holder bodies places cm c
}.

Lemma lock_inv_start fuel bodies c0 :
  k_spinlocks c0 !! p = Some false →
  lock_inv bodies c0 c0 (critical fuel <$> bodies) (replicate (length bodies) (Before fuel)) [] c0.
Proof.
  intros Hv. split; try done.
  - intros i q Hq. apply list_lookup_fmap_Some in Hq as (body & -> & Hb).
    exists body, (Before fuel). split_and!; [done| |done]. apply lookup_replicate. split; [done|].
    by eapply lookup_lt_Some.
  - by rewrite length_replicate, length_fmap.
  - constructor.
  - intros i r. split; [|by intros ?%elem_of_nil]. by intros [? _]%lookup_replicate.
  - constructor.
  - left. split; [done|]. by intros i q [? _]%lookup_replicate.
Qed.

(** One thread moves. *)
Lemma lock_inv_move bodies c0 ps places order' cm' c' i body s s' q :
  (∀ i q, ps !! i = Some q →
    ∃ body s, bodies !! i = Some body ∧ places !! i = Some s ∧ q = program body s) →
  length places = length ps → ps !! i = Some q → bodies !! i = Some body → places !! i = Some s →
  serial bodies c0 order' cm' → k_spinlocks cm' !! p = Some false →
  (∀ j r, <[i := s']> places !! j = Some (After r) ↔ (j, r) ∈ order') → NoDup (order'.*1) →
  holder bodies (<[i := s']> places) cm' c' →
  lock_inv bodies c0 c' (<[i := program body s']> ps) (<[i := s']> places) order' cm'.
Proof.
  intros Hp Hl Hi Hb Hpl Hs Hf Hd Ho Hh. split; try done.
  - intros j q' [(<- & <- & _)|[Hne Hj]]%list_lookup_insert_Some.
    + exists body, s'. split_and!; [done| |done]. apply list_lookup_insert_eq. by eapply lookup_lt_Some.
    + destruct (Hp j q' Hj) as (body' & s2 & ? & ? & ?). exists body', s2.
      by rewrite list_lookup_insert_ne.
  - by rewrite !length_insert.
Qed.

Lemma done_before (places : list place) (order : list (nat * A)) i s s' :
  (∀ j r, places !! j = Some (After r) ↔ (j, r) ∈ order) → places !! i = Some s →
  (∀ r, s ≠ After r) → (∀ r, s' ≠ After r) →
  ∀ j r, <[i := s']> places !! j = Some (After r) ↔ (j, r) ∈ order.
Proof.
  intros Hd Hi Hs Hs' j r. rewrite <- Hd. destruct (decide (i = j)) as [<-|Hne].
  - rewrite list_lookup_insert_eq by (by eapply lookup_lt_Some). split; intros H; exfalso; naive_solver.
  - by rewrite list_lookup_insert_ne.
Qed.

Lemma done_after (places : list place) (order : list (nat * A)) i s r0 :
  (∀ j r, places !! j = Some (After r) ↔ (j, r) ∈ order) → places !! i = Some s →
  (∀ r, s ≠ After r) →
  ∀ j r, <[i := After r0]> places !! j = Some (After r) ↔ (j, r) ∈ order ++ [(i, r0)].
Proof.
  intros Hd Hi Hs j r. rewrite elem_of_app, list_elem_of_singleton, <- Hd.
  destruct (decide (i = j)) as [<-|Hne].
  - rewrite list_lookup_insert_eq by (by eapply lookup_lt_Some). naive_solver.
  - rewrite list_lookup_insert_ne by done. naive_solver.
Qed.

(** The thread in its section is the only one after its step, too. *)
Lemma inside_only (places : list place) i s s' :
  places !! i = Some s → (∀ j q, places !! j = Some (Inside q) → j = i) →
  ∀ j q, <[i := s']> places !! j = Some (Inside q) → j = i.
Proof. intros Hi Hu j q [(-> & _)|[_ Hj]]%list_lookup_insert_Some; [done|by eapply Hu]. Qed.

Lemma lock_inv_step bodies c0 c ps places order cm c' ps' :
  (∀ body, body ∈ bodies → keeps_lock body) →
  lock_inv bodies c0 c ps places order cm → pool_step (c, ps) (c', ps') →
  ∃ places order cm, lock_inv bodies c0 c' ps' places order cm.
Proof.
  intros Hk [Hp Hl Hs Hf Hd Ho Hh] Hstep. inversion Hstep as [i b ? ? q ? q' Hi Hq]; subst.
  destruct (Hp i q Hi) as (body & s & Hb & Hpl & ->).
  pose proof (Hk body ltac:(by eapply list_elem_of_lookup_2)) as Hkb.
  destruct Hh as [[-> Hn]|(j & q & bodyj & Hj & Hu & Hbj & Hkj & Ht & Ha)].
  - destruct (place_step b cm body s false c' q' Hf Hq) as (s' & -> & Hs');
      [intros q ->; by destruct (Hn i q)|].
    destruct s as [fuel|q|r]; [|by destruct (Hn i q)|done]. destruct Hs' as [-> ->].
    eexists _, order, cm. eapply lock_inv_move; try done; [by eapply done_before|].
    right. exists i, body, body. split_and!; try done.
    + apply list_lookup_insert_eq. by eapply lookup_lt_Some.
    + intros j q' [(-> & _)|[_ Hj]]%list_lookup_insert_Some; [done|by destruct (Hn j q')].
    + apply with_lock_value.
  - destruct (place_step b c body s true c' q' Ht Hq) as (s' & -> & Hs').
    { intros q2 ->. split; [done|]. assert (i = j) as -> by by eapply Hu. congruence. }
    destruct s as [fuel|q2|r]; [| |done].
    + destruct Hs' as [-> [n ->]]. assert (i ≠ j) by (intros ->; congruence).
      eexists _, order, cm. eapply lock_inv_move; try done; [by eapply done_before|].
      right. exists j, q, bodyj. split_and!; try done; [by rewrite list_lookup_insert_ne|].
      intros j' q' [(_ & ? & _)|[_ Hj']]%list_lookup_insert_Some; [done|by eapply Hu].
    + assert (i = j) as <- by by eapply Hu. simplify_eq.
      destruct Hs' as [(r & -> & -> & ->)|(q' & Hq' & ->)].
      * eexists _, (order ++ [(i, r)]), (with_lock false c). eapply lock_inv_move; try done.
        -- by econstructor.
        -- apply with_lock_value.
        -- by eapply done_after.
        -- rewrite fmap_app. apply NoDup_app. split_and!; [done| |apply NoDup_singleton].
           intros x Hx Hxi%list_elem_of_singleton. apply list_elem_of_fmap in Hx as ([i' r'] & -> & Hx).
           apply Hd in Hx. simpl in Hxi. congruence.
        -- left. split; [done|]. intros j' q' [(_ & ? & _)|[Hne Hj']]%list_lookup_insert_Some; [done|].
           apply Hne. symmetry. by eapply Hu.
      * destruct (keeps_lock_step _ _ _ _ _ Hkj Hq') as [Hsame Hk'].
        eexists _, order, cm. eapply lock_inv_move; try done; [by eapply done_before|].
        right. exists i, q', bodyj. split_and!; try done.
        -- apply list_lookup_insert_eq. by eapply lookup_lt_Some.
        -- by eapply inside_only.
        -- congruence.
        -- eapply rtc_r; [exact Ha|]. by exists b.
Qed.

Lemma lock_inv_reach bodies c0 c ps places order cm c' ps' :
  (∀ body, body ∈ bodies → keeps_lock body) →
  lock_inv bodies c0 c ps places order cm → rtc pool_step (c, ps) (c', ps') →
  ∃ places order cm, lock_inv bodies c0 c' ps' places order cm.
Proof.
  intros Hk HI Hr. remember (c, ps) as s eqn:Es. remember (c', ps') as s' eqn:Es'.
  revert c ps places order cm HI Es. induction Hr as [s|s [c1 ps1] s' Hs _ IH];
    intros c ps places order cm HI ->; [simplify_eq; eauto|].
  destruct (lock_inv_step _ _ _ _ _ _ _ _ _ Hk HI Hs) as (places1 & order1 & cm1 & HI1). eauto.
Qed.

Lemma program_done body s r : program body s = Done r ↔ s = After r.
Proof.
  split; [|by intros ->]. destruct s as [[|fuel]|q|r']; simpl; try done; [|by intros [= ->]].
  by destruct q.
Qed.
End critical.

(** C37: Critical sections under a spinlock are serializable.  Any number of threads each take the
    lock, run their section, which may be anything that leaves the lock itself
    alone, and release it.  In every state of every interleaving there is an order
    of the sections that are over (those of the threads that have returned, each
    once, with what they returned) such that the memory is what running these
    sections one after the other in that order leaves; and if the lock is held, what
    one more section, and no other, has done since then. *)
Theorem spinlock_serializable {A : Type} (p : loc) fuel (bodies : list (prog kern A)) c0 c ps :
  k_spinlocks c0 !! p = Some false → (∀ body, body ∈ bodies → keeps_lock p body) →
  rtc pool_step (c0, critical p fuel <$> bodies) (c, ps) →
  ∃ order cm, serial p bodies c0 order cm ∧ NoDup (order.*1) ∧
    (∀ i r, ps !! i = Some (Done r) ↔ (i, r) ∈ order) ∧
    ((k_spinlocks c !! p = Some false ∧ c = cm) ∨
     (k_spinlocks c !! p = Some true ∧ ∃ i q body,
        bodies !! i = Some body ∧ ps !! i = Some (q ≫= release p) ∧ (∀ r, (i, r) ∉ order) ∧
        alone (with_lock p true cm, body) (c, q))).
Proof.
  intros Hv Hk Hr.
  destruct (lock_inv_reach p bodies c0 _ _ _ _ _ _ _ Hk (lock_inv_start p fuel bodies c0 Hv) Hr)
    as (places & order & cm & [Hp Hl Hs Hf Hd Ho Hh]).
  assert (∀ i s, places !! i = Some s → ∃ body, bodies !! i = Some body ∧ ps !! i = Some (program p body s)) as Hplace.
  { intros i s Hi. destruct (lookup_lt_is_Some_2 ps i) as [q Hq]; [rewrite <- Hl; by eapply lookup_lt_Some|].
    destruct (Hp i q Hq) as (body & s' & ? & ? & ->). simplify_eq. eauto. }
  exists order, cm. split_and!; [done..| |].
  - intros i r. rewrite <- Hd. split.
    + intros Hi. destruct (Hp i _ Hi) as (body & s & _ & Hpl & Heq). symmetry in Heq.
      apply program_done in Heq as ->. done.
    + intros Hi. destruct (Hplace i _ Hi) as (body & _ & Hq). done.
  - destruct Hh as [[-> _]|(i & q & body & Hi & _ & Hb & _ & Ht & Ha)]; [by left|right].
    split; [done|]. exists i, q, body. destruct (Hplace i _ Hi) as (body' & ? & Hq). simplify_eq.
    split_and!; try done. intros r Hr'. apply Hd in Hr'. congruence.
Qed.

(** Two threads that count the same ticks without atomic operations. *)
Definition demo_count : prog kern Z :=
  ticks ← read s_prs_ticks; _ ← write s_prs_ticks (ticks + 1); mret ticks.

Definition demo_lock_kern : kern := with_spinlocks {[ 1%positive := false ]} kern_empty.
Definition demo_lock_threads : list (prog kern Z) := critical 1 3 <$> [demo_count; demo_count].
Definition demo_lock_schedule : list (nat * bool) :=
  (λ i, (i, false)) <$> [0; 1; 0; 0; 1; 0; 1; 1; 1; 1]%nat.

Lemma spinlock_serializable_witness :
  match pool_run demo_lock_schedule (demo_lock_kern, demo_lock_threads) with
  | Some (c, ps) => k_ticks c = 2 ∧ ∃ order cm, serial 1 [demo_count; demo_count] demo_lock_kern order cm ∧
      (0%nat, 0) ∈ order ∧ (1%nat, 1) ∈ order ∧ c = cm
  | None => False
  end.
Proof.
  assert ((λ s, (s.2, k_ticks s.1, k_spinlocks s.1 !! 1%positive)) <$>
    pool_run demo_lock_schedule (demo_lock_kern, demo_lock_threads) =
    Some ([Done 0; Done 1], 2, Some false)) as Hd by (vm_compute; reflexivity).
  destruct (pool_run demo_lock_schedule _) as [[c ps]|] eqn:Hrun; [|discriminate Hd].
  cbn in Hd. injection Hd as Hps Ht Hv. split; [exact Ht|].
  destruct (spinlock_serializable 1 3 [demo_count; demo_count] demo_lock_kern c ps) as (order & cm & Hs & _ & Ho & Hc).
  - reflexivity.
  - intros body Hb. assert (body = demo_count) as -> by set_solver.
    intros c1 x c2 [= <- <-]. split; [done|]. intros c1' x' c2' [= <- <-]. done.
  - exact (pool_run_rtc _ _ _ Hrun).
  - exists order, cm. split; [exact Hs|].
    split; [apply Ho; by rewrite Hps|]. split; [apply Ho; by rewrite Hps|].
    destruct Hc as [[_ Hc]|[Hl _]]; [exact Hc|rewrite Hv in Hl; discriminate Hl].
Defined.
