(* ===== verification/Name.v ===== *)
(** * The name resolver (prs/name.c)

    A hash table from names to object IDs, shared by all threads without locks: every
    bucket is a list of nodes that only grows; a node whose ID is zero is free. *)

From S2P Require Import Prelude Heap Atomic RefDir Kern.

(** ** Strings

    A C string is read from an array of bytes up to its terminator; an array without
    one is read out of its bounds. *)

(** The value of a [char] of the sources' platforms, as 32 bits. *)
Definition char32 (c : Z) : Z := u32 (if c <? 128 then c else c - 256).

Fixpoint hash_loop (p : list Z) (hash : Z) : outcome Z :=
  match p with
  | [] => Undef
  | c :: p => if c =? 0 then Ret hash else hash_loop p (u32 (Z.lxor (char32 c) hash * 0x01000193))
  end.

Definition prs_name_hash (key : list Z) : outcome Z := hash_loop key 0x811C9DC5.

(** [!strcmp(a, b)] *)
Fixpoint string_eq (a b : list Z) : outcome bool :=
  match a, b with
  | x :: a, y :: b => if x =? y then if x =? 0 then Ret true else string_eq a b else Ret false
  | _, _ => Undef
  end.

(** A computation that reads no memory. *)
Definition pure {A : Type} (m : outcome A) : prog kern A := act (λ c, x ← m; Ret (x, c)).

(** ** The table *)

(** [&entry->list] or [&node->next] *)
Inductive node_ptr : Set := EntryList (entry_index : Z) | NodeNext (node : loc).

Definition name_entries := field k_names with_names nm_entries set_nm_entries.
Definition name_block := field k_names with_names nm_block set_nm_block.
Definition node_next := field k_name_nodes with_name_nodes nn_next set_nn_next.
Definition node_object_id := field k_name_nodes with_name_nodes nn_object_id set_nn_object_id.

Definition entry_list (name : loc) (i : Z) : cell kern ptr :=
  Cell (λ c, es ← cell_get (name_entries name) c; load es i)
       (λ v c, es ← cell_get (name_entries name) c; es ← store es i v; cell_set (name_entries name) es c).

Definition node_cell (name : loc) (p : node_ptr) : cell kern ptr :=
  match p with EntryList i => entry_list name i | NodeNext node => node_next node end.

(** The array that holds the name of an object. *)
Definition prs_name_get_key (name object : loc) : prog kern (list Z) :=
  offset ← get_field k_names nm_string_offset name;
  match offset with
  | offsetof_task_name => get_field k_tasks tk_name object
  | offsetof_sched_name => get_field k_scheds sd_name object
  end.

(** The index of the entry; a division by zero is undefined. *)
Definition prs_name_get_entry (name : loc) (key : list Z) : prog kern Z :=
  hash ← pure (prs_name_hash key);
  max_entries ← get_field k_names nm_max_entries name;
  pure (if max_entries =? 0 then Undef else Ret (hash mod max_entries)).

Record prs_name_create_params : Type := PrsNameCreateParams {
  ncp_max_entries : Z;
  ncp_string_offset : name_offset
}.

Definition prs_name_create (params : prs_name_create_params) : prog kern loc :=
  name ← alloc_block k_names with_names
    (PrsName (ncp_max_entries params) (ncp_string_offset params) None []);
  _ ← fatal_if (bool_decide (name = None));
  name ← nonnull name;
  entries ← act (λ c, let (p, h) := prs_pal_malloc_zero (k_heap c) in Ret (p, with_heap h c));
  _ ← fatal_if (bool_decide (entries = None));
  _ ← write (name_block name) entries;
  _ ← write (name_entries name) (replicate (Z.to_nat (ncp_max_entries params)) None);
  mret name.

(** The nodes of one entry. *)
Fixpoint destroy_nodes (fuel : nat) (name : loc) (node_ptr : node_ptr) : prog kern unit :=
  match fuel with
  | O => Spin
  | S fuel =>
      node ← prs_pal_atomic_load (node_cell name node_ptr);
      match node with
      | Some node =>
          _ ← free_block k_name_nodes with_name_nodes node;
          destroy_nodes fuel name (NodeNext node)
      | None => mret tt
      end
  end.

Fixpoint destroy_entries (fuel : nat) (name : loc) (entries : list nat) : prog kern unit :=
  match entries with
  | [] => mret tt
  | i :: entries => _ ← destroy_nodes fuel name (EntryList (Z.of_nat i)); destroy_entries fuel name entries
  end.

Definition prs_name_destroy (fuel : nat) (name : loc) : prog kern unit :=
  max_entries ← get_field k_names nm_max_entries name;
  _ ← destroy_entries fuel name (seq 0 (Z.to_nat max_entries));
  entries ← read (name_block name);
  _ ← act (λ c, h ← prs_pal_free entries (k_heap c); Ret (tt, with_heap h c));
  free_block k_names with_names name.

(** ** Operations *)

Section name.
Context `{!ObjectFree}.

(** The result, and the node that was allocated and not used. *)
Fixpoint name_alloc_loop (fuel : nat) (name : loc) (id : Z) (node_ptr : node_ptr) (new_node : ptr) :
    prog kern (prs_result * ptr) :=
  match fuel with
  | O => Spin
  | S fuel =>
      node ← prs_pal_atomic_load (node_cell name node_ptr);
      match node with
      | Some node =>
          object_id ← prs_pal_atomic_load (node_object_id node);
          if object_id =? id then mret (PRS_ALREADY_EXISTS, new_node)
          else if object_id =? 0 then
            '(result, _) ← prs_pal_atomic_compare_exchange_strong (node_object_id node) object_id id;
            if (result : bool) then mret (PRS_OK, new_node)
            else name_alloc_loop fuel name id node_ptr new_node
          else name_alloc_loop fuel name id (NodeNext node) new_node
      | None =>
          new_node ← match new_node with
                     | Some new_node => mret new_node
                     | None =>
                         new_node ← alloc_block k_name_nodes with_name_nodes (PrsNameListNode None 0);
                         _ ← fatal_if (bool_decide (new_node = None));
                         new_node ← nonnull new_node;
                         _ ← prs_pal_atomic_store (node_next new_node) None;
                         _ ← prs_pal_atomic_store (node_object_id new_node) id;
                         mret new_node
                     end;
          '(result, _) ← prs_pal_atomic_compare_exchange_strong (node_cell name node_ptr) None (Some new_node);
          if (result : bool) then mret (PRS_OK, None)
          else name_alloc_loop fuel name id node_ptr (Some new_node)
      end
  end.

Definition prs_name_alloc (fuel : nat) (name : loc) (id : Z) : prog kern prs_result :=
  object ← god_lock id;
  match object with
  | None => mret PRS_NOT_FOUND
  | Some object =>
      str ← prs_name_get_key name object;
      entry ← prs_name_get_entry name str;
      '(result, new_node) ← name_alloc_loop fuel name id (EntryList entry) None;
      _ ← match new_node with
          | Some new_node => free_block k_name_nodes with_name_nodes new_node
          | None => mret tt
          end;
      _ ← god_unlock id;
      mret result
  end.

Fixpoint name_free_loop (fuel : nat) (name : loc) (id : Z) (node_ptr : node_ptr) : prog kern prs_result :=
  match fuel with
  | O => Spin
  | S fuel =>
      node ← prs_pal_atomic_load (node_cell name node_ptr);
      match node with
      | Some node =>
          object_id ← prs_pal_atomic_load (node_object_id node);
          if object_id =? id then
            _ ← prs_pal_atomic_store (node_object_id node) 0;
            mret PRS_OK
          else name_free_loop fuel name id (NodeNext node)
      | None => mret PRS_NOT_FOUND
      end
  end.

Definition prs_name_free (fuel : nat) (name : loc) (id : Z) : prog kern prs_result :=
  object ← god_lock id;
  match object with
  | None => mret PRS_NOT_FOUND
  | Some object =>
      str ← prs_name_get_key name object;
      entry ← prs_name_get_entry name str;
      result ← name_free_loop fuel name id (EntryList entry);
      _ ← god_unlock id;
      mret result
  end.

Fixpoint name_find_loop (fuel : nat) (name : loc) (key : list Z) (keep_locked : bool)
    (node_ptr : node_ptr) : prog kern Z :=
  match fuel with
  | O => Spin
  | S fuel =>
      node ← prs_pal_atomic_load (node_cell name node_ptr);
      match node with
      | Some node =>
          object_id ← prs_pal_atomic_load (node_object_id node);
          found ← (if object_id =? 0 then mret false
                   else
                     object ← god_lock object_id;
                     match object with
                     | Some object =>
                         str ← prs_name_get_key name object;
                         found ← pure (string_eq str key);
                         _ ← (if negb found || negb keep_locked then god_unlock object_id else mret tt);
                         mret found
                     | None => mret false
                     end);
          if (found : bool) then mret object_id else name_find_loop fuel name key keep_locked (NodeNext node)
      | None => mret 0
      end
  end.

Definition prs_name_find_internal (fuel : nat) (name : loc) (key : list Z) (keep_locked : bool) : prog kern Z :=
  entry ← prs_name_get_entry name key;
  name_find_loop fuel name key keep_locked (EntryList entry).

Definition prs_name_find (fuel : nat) (name : loc) (key : list Z) : prog kern Z :=
  prs_name_find_internal fuel name key false.
Definition prs_name_find_and_lock (fuel : nat) (name : loc) (key : list Z) : prog kern Z :=
  prs_name_find_internal fuel name key true.
End name.
