(* ===== verification/Timer.v ===== *)
(** * Timers (prs/timer.c)

    A wheel of lists by the time of expiry.  Timeout requests are queued by any
    thread and handled by the tick, which runs on one thread. *)

From S2P Require Import Prelude Bitops Heap Atomic RefDir Kern Pal Worker Task Event.

(** [prs_clock_get] of clock.c *)
Definition prs_clock_get : prog kern Z := prs_pal_atomic_load s_prs_ticks.

(** [prs_ticks_t] is 32 bits wide. *)
Definition PRS_MAX_TIMER_WHEELS : Z := 4.
Definition PRS_MAX_TIMER_BITS_PER_WHEEL : Z := (4 * 8) / PRS_MAX_TIMER_WHEELS.
Definition PRS_MAX_TIMER_SLOTS_PER_WHEEL : Z := Z.shiftl 1 PRS_MAX_TIMER_BITS_PER_WHEEL.
Definition PRS_MAX_OBJECTS : Z := 4096.

Definition timer_lists := field k_timers with_timers tm_lists set_tm_lists.
Definition timer_tmp_list := field k_timers with_timers tm_tmp_list set_tm_tmp_list.
Definition timer_pool := field k_timers with_timers tm_pool set_tm_pool.
Definition timer_queued := field k_timers with_timers tm_queued set_tm_queued.
Definition timer_now := field k_timers with_timers tm_now set_tm_now.
Definition entry_start := field k_timer_entries with_timer_entries te_start set_te_start.
Definition entry_end := field k_timer_entries with_timer_entries te_end set_te_end.
Definition entry_event := field k_timer_entries with_timer_entries te_event set_te_event.
Definition entry_event_type := field k_timer_entries with_timer_entries te_event_type set_te_event_type.

(** A pointer of the timer that may not have been set: reading it is undefined. *)
Definition read_set {V : Type} (p : cell kern (option V)) : prog kern V :=
  act (λ c, o ← cell_get p c; v ← deref o; Ret (v, c)).

(** [timer->lists[wheel][slot]]; an index out of the arrays is undefined. *)
Definition wheel_cell (timer : loc) (wheel slot : Z) : cell kern (option ptr) :=
  let i := wheel * PRS_MAX_TIMER_SLOTS_PER_WHEEL + slot in
  let ok := (0 <=? wheel) && (wheel <? PRS_MAX_TIMER_WHEELS) && (0 <=? slot)
    && (slot <? PRS_MAX_TIMER_SLOTS_PER_WHEEL) in
  Cell (λ c, lists ← cell_get (timer_lists timer) c; if ok then load lists i else Undef)
       (λ v c, lists ← cell_get (timer_lists timer) c;
               lists ← (if ok then store lists i v else Undef);
               cell_set (timer_lists timer) lists c).

(** The indices of the lists, wheel after wheel. *)
Definition all_lists : list (Z * Z) :=
  wheel ← Z.of_nat <$> seq 0 (Z.to_nat PRS_MAX_TIMER_WHEELS);
  (λ slot, (wheel, Z.of_nat slot)) <$> seq 0 (Z.to_nat PRS_MAX_TIMER_SLOTS_PER_WHEEL).

(** ** Creation *)

Fixpoint create_lists (timer : loc) (lists : list (Z * Z)) : prog kern bool :=
  match lists with
  | [] => mret true
  | (wheel, slot) :: lists =>
      idllist ← idllist_create;
      match idllist with
      | None => mret false
      | Some _ => _ ← write (wheel_cell timer wheel slot) (Some idllist); create_lists timer lists
      end
  end.

(** The lists that are not null. *)
Fixpoint cleanup_lists (timer : loc) (lists : list (Z * Z)) : prog kern unit :=
  match lists with
  | [] => mret tt
  | (wheel, slot) :: lists =>
      idllist ← read_set (wheel_cell timer wheel slot);
      _ ← match idllist with Some _ => idllist_destroy idllist | None => mret tt end;
      cleanup_lists timer lists
  end.

Definition timer_cleanup (timer : loc) : prog kern ptr :=
  queued ← read_set (timer_queued timer);
  _ ← match queued with Some _ => mpsciq_destroy queued | None => mret tt end;
  pool ← read_set (timer_pool timer);
  _ ← match pool with Some _ => pool_destroy pool | None => mret tt end;
  tmp_list ← read_set (timer_tmp_list timer);
  _ ← match tmp_list with Some _ => idllist_destroy tmp_list | None => mret tt end;
  _ ← cleanup_lists timer all_lists;
  _ ← free_block k_timers with_timers timer;
  mret None.

Definition prs_timer_create : prog kern ptr :=
  timer ← alloc_block k_timers with_timers (PrsTimer (replicate 1024 None) None None None 0);
  match timer with
  | None => mret None
  | Some timer =>
      created ← create_lists timer all_lists;
      if (created : bool) then
        tmp_list ← idllist_create;
        _ ← write (timer_tmp_list timer) (Some tmp_list);
        match tmp_list with
        | None => timer_cleanup timer
        | Some _ =>
            pool ← pool_create;
            _ ← write (timer_pool timer) (Some pool);
            match pool with
            | None => timer_cleanup timer
            | Some _ =>
                queued ← mpsciq_create;
                _ ← write (timer_queued timer) (Some queued);
                match queued with
                | None => timer_cleanup timer
                | Some _ =>
                    now ← prs_clock_get;
                    _ ← write (timer_now timer) now;
                    mret (Some timer)
                end
            end
        end
      else timer_cleanup timer
  end.

Fixpoint destroy_lists (timer : loc) (lists : list (Z * Z)) : prog kern unit :=
  match lists with
  | [] => mret tt
  | (wheel, slot) :: lists =>
      idllist ← read_set (wheel_cell timer wheel slot);
      _ ← idllist_destroy idllist;
      destroy_lists timer lists
  end.

Definition prs_timer_destroy (timer : loc) : prog kern unit :=
  queued ← read_set (timer_queued timer);
  _ ← mpsciq_destroy queued;
  tmp_list ← read_set (timer_tmp_list timer);
  _ ← idllist_destroy tmp_list;
  _ ← destroy_lists timer all_lists;
  pool ← read_set (timer_pool timer);
  _ ← pool_destroy pool;
  free_block k_timers with_timers timer.

(** ** Requests *)

Definition prs_timer_queue (timer event : loc) (event_type timeout : Z) : prog kern loc :=
  pool ← read_set (timer_pool timer);
  entry ← pool_alloc pool;
  _ ← fatal_if (bool_decide (entry = None));
  entry ← nonnull entry;
  _ ← write (entry_event entry) (Some event);
  _ ← write (entry_event_type entry) event_type;
  now ← prs_clock_get;
  _ ← write (entry_start entry) now;
  start ← read (entry_start entry);
  _ ← write (entry_end entry) (u32 (start + timeout));
  pool ← read_set (timer_pool timer);
  _ ← pool_lock_first pool entry;
  pool ← read_set (timer_pool timer);
  _ ← pool_lock pool entry;
  queued ← read_set (timer_queued timer);
  _ ← mpsciq_push queued entry;
  mret entry.

Definition prs_timer_get_start (entry : loc) : prog kern Z := read (entry_start entry).

Definition prs_timer_cancel (timer entry : loc) : prog kern unit :=
  pool ← read_set (timer_pool timer);
  pool_unlock pool entry.

(** [sizeof(ticks)] is 4. *)
Definition prs_timer_hsb (ticks : Z) : Z := prs_bitops_hsb_uint32 ticks.

(** A shift by the width of the operand or more is undefined. *)
Definition shr32 (x n : Z) : outcome Z := if (0 <=? n) && (n <? 32) then Ret (Z.shiftr x n) else Undef.

(** ** The tick *)

Section timer.
Context `{!SchedReady, !ObjectFree}.

Definition prs_timer_event_destructor (self : ptr) (entry : loc) : prog kern unit :=
  event ← read (entry_event entry);
  event ← nonnull event;
  _ ← prs_event_unref self event;
  mret tt.

(** The difference of two 32-bit values is unsigned: the delay is never negative. *)
Definition prs_timer_queue_internal (self : ptr) (timer entry : loc) : prog kern unit :=
  end_ ← read (entry_end entry);
  now ← read (timer_now timer);
  let delay := u32 (end_ - now) in
  if delay <=? 0 then
    event ← read (entry_event entry);
    event_type ← read (entry_event_type entry);
    event ← nonnull event;
    _ ← prs_event_signal self event event_type;
    pool ← read_set (timer_pool timer);
    pool_unlock pool entry
  else
    pool ← read_set (timer_pool timer);
    canceled ← pool_try_unlock_final_dest pool entry (prs_timer_event_destructor self entry);
    if (canceled : bool) then mret tt
    else
      let hsb := prs_timer_hsb (u32 delay) in
      let wheel := Z.quot hsb PRS_MAX_TIMER_BITS_PER_WHEEL in
      let wheel_shift := wheel * PRS_MAX_TIMER_BITS_PER_WHEEL in
      end_ ← read (entry_end entry);
      shifted ← act (λ c, x ← shr32 end_ wheel_shift; Ret (x, c));
      let slot := Z.land (u32 (shifted - (if truthy wheel then 1 else 0))) (PRS_MAX_TIMER_SLOTS_PER_WHEEL - 1) in
      list ← read_set (wheel_cell timer wheel slot);
      idllist_insert list entry.

(** Moves the entries of one list to the temporary list. *)
Fixpoint move_entries (fuel : nat) (timer : loc) (list : ptr) : prog kern unit :=
  match fuel with
  | O => Spin
  | S fuel =>
      idllist_node ← idllist_begin list;
      match idllist_node with
      | None => mret tt
      | Some entry =>
          _ ← idllist_remove list entry;
          tmp_list ← read_set (timer_tmp_list timer);
          _ ← idllist_insert tmp_list entry;
          move_entries fuel timer list
      end
  end.

(** Slots [first_slot + i] for [i] in the list. *)
Fixpoint move_slots (fuel : nat) (timer : loc) (wheel first_slot : Z) (slots : list nat) : prog kern unit :=
  match slots with
  | [] => mret tt
  | i :: slots =>
      list ← read_set (wheel_cell timer wheel (first_slot + Z.of_nat i));
      _ ← move_entries fuel timer list;
      move_slots fuel timer wheel first_slot slots
  end.

Fixpoint move_wheels (fuel : nat) (timer : loc) (elapsed : Z) (wheels : list nat) : prog kern unit :=
  match wheels with
  | [] => mret tt
  | wheel :: wheels =>
      let wheel := Z.of_nat wheel in
      now ← read (timer_now timer);
      shifted ← act (λ c, x ← shr32 now (wheel * PRS_MAX_TIMER_BITS_PER_WHEEL); Ret (x, c));
      let first_slot := Z.land shifted (PRS_MAX_TIMER_SLOTS_PER_WHEEL - 1) in
      elapsed_slots ← act (λ c, x ← shr32 elapsed (wheel * PRS_MAX_TIMER_SLOTS_PER_WHEEL); Ret (i32 x, c));
      let elapsed_slots :=
        if PRS_MAX_TIMER_SLOTS_PER_WHEEL <? elapsed_slots then PRS_MAX_TIMER_SLOTS_PER_WHEEL else elapsed_slots in
      _ ← move_slots fuel timer wheel first_slot (seq 0 (Z.to_nat elapsed_slots));
      move_wheels fuel timer elapsed wheels
  end.

Fixpoint requeue_loop (fuel : nat) (self : ptr) (timer : loc) : prog kern unit :=
  match fuel with
  | O => Spin
  | S fuel =>
      tmp_list ← read_set (timer_tmp_list timer);
      tmp_entry ← idllist_begin tmp_list;
      match tmp_entry with
      | None => mret tt
      | Some entry =>
          _ ← idllist_remove tmp_list entry;
          _ ← prs_timer_queue_internal self timer entry;
          requeue_loop fuel self timer
      end
  end.

Fixpoint queued_loop (fuel : nat) (self : ptr) (timer : loc) : prog kern unit :=
  match fuel with
  | O => Spin
  | S fuel =>
      queued ← read_set (timer_queued timer);
      node ← mpsciq_begin queued;
      match node with
      | None => mret tt
      | Some entry =>
          _ ← mpsciq_remove queued entry;
          _ ← prs_timer_queue_internal self timer entry;
          queued_loop fuel self timer
      end
  end.

Definition prs_timer_tick (fuel : nat) (self : ptr) (timer : loc) : prog kern unit :=
  now ← prs_clock_get;
  timer_now_ ← read (timer_now timer);
  let elapsed := u32 (now - timer_now_) in
  let changed := Z.lxor now timer_now_ in
  let max_wheel := Z.quot (prs_timer_hsb changed) PRS_MAX_TIMER_BITS_PER_WHEEL + 1 in
  _ ← move_wheels fuel timer elapsed (seq 0 (Z.to_nat max_wheel));
  _ ← requeue_loop fuel self timer;
  _ ← write (timer_now timer) now;
  queued_loop fuel self timer.
End timer.
