(* ===== verification/Clock.v ===== *)
(** * The system clock (prs/clock.c)

    The interval timer of the platform calls the entry at every tick. *)

From S2P Require Import Prelude Heap Atomic RefDir Kern Pal Worker Task Event Timer Spinlock.

Definition clock_timer := field k_clocks with_clocks cl_timer set_cl_timer.
Definition clock_spinlock := field k_clocks with_clocks cl_spinlock set_cl_spinlock.
Definition clock_pit := field k_clocks with_clocks cl_pit set_cl_pit.

Definition s_prs_clock : cell kern ptr := Cell (λ c, Ret (k_clock c)) (λ v c, Ret (with_clock v c)).

(** [PRS_TICKS_FROM_US] and [PRS_HZ] *)
Definition PRS_HZ : Z := 1000.
Definition PRS_TICKS_FROM_US (us : Z) : Z := u32 (u32 us * PRS_HZ) / 1000000.

(** [prs_pal_pit_create] and [prs_pal_pit_destroy] of the platform; the callback is
    [prs_clock_entry] on the clock. *)
Class Pit : Type := {
  prs_pal_pit_create : Z → loc → prog kern ptr;
  prs_pal_pit_destroy : ptr → prog kern unit
}.

Section clock.
Context `{!SchedReady, !ObjectFree, !Pit}.

Definition prs_clock_entry (fuel : nat) (self : ptr) (clock : loc) : prog kern unit :=
  spinlock ← read (clock_spinlock clock);
  spinlock ← nonnull spinlock;
  locked ← prs_spinlock_try_lock spinlock;
  _ ← fatal_if (negb locked);
  _ ← prs_pal_atomic_fetch_add 32 s_prs_ticks 1;
  timer ← read (clock_timer clock);
  timer ← nonnull timer;
  _ ← prs_timer_tick fuel self timer;
  spinlock ← read (clock_spinlock clock);
  spinlock ← nonnull spinlock;
  prs_spinlock_unlock spinlock.

Definition prs_clock_init : prog kern prs_result :=
  clock ← alloc_block k_clocks with_clocks (PrsClock None None None);
  match clock with
  | None => mret PRS_OUT_OF_MEMORY
  | Some clock =>
      _ ← prs_pal_atomic_store s_prs_ticks 0;
      timer ← prs_timer_create;
      _ ← write (clock_timer clock) timer;
      match timer with
      | None => _ ← free_block k_clocks with_clocks clock; mret PRS_UNKNOWN
      | Some _ =>
          spinlock ← prs_spinlock_create;
          _ ← write (clock_spinlock clock) spinlock;
          match spinlock with
          | None => _ ← free_block k_clocks with_clocks clock; mret PRS_UNKNOWN
          | Some _ =>
              pit ← prs_pal_pit_create (PRS_TICKS_FROM_US (1000000 * 1 / PRS_HZ)) clock;
              _ ← write (clock_pit clock) pit;
              match pit with
              | None => _ ← free_block k_clocks with_clocks clock; mret PRS_UNKNOWN
              | Some _ => _ ← write s_prs_clock (Some clock); mret PRS_OK
              end
          end
      end
  end.

Definition prs_clock_uninit : prog kern unit :=
  clock ← read s_prs_clock;
  clock ← nonnull clock;
  pit ← read (clock_pit clock);
  _ ← prs_pal_pit_destroy pit;
  spinlock ← read (clock_spinlock clock);
  spinlock ← nonnull spinlock;
  prs_spinlock_destroy spinlock.

Definition prs_clock_timer : prog kern ptr :=
  clock ← read s_prs_clock;
  clock ← nonnull clock;
  read (clock_timer clock).
End clock.
