(* ===== verification/Sched.v ===== *)
(** * Schedulers (prs/sched.c)

    A scheduler dispatches to the operations of its algorithm, and keeps the
    references of the object directory.  [self] is the worker of the calling thread. *)

From S2P Require Import Prelude Str Heap Atomic RefDir Kern Pal Worker Task Event Timer Clock Swprio Swcoop Name.

Definition s_prs_sched_name : cell kern ptr :=
  Cell (λ c, Ret (k_sched_name c)) (λ v c, Ret (with_sched_name v c)).

(** [struct prs_sched_create_params]; the algorithms ignore their userdata. *)
Record prs_sched_create_params : Type := PrsSchedCreateParams {
  scp_name : list Z;
  scp_ops : sched_impl
}.

(** [offsetof(struct prs_sched, name)] and the size of the name resolvers. *)
Definition name_entries_max : Z := PRS_MAX_OBJECTS * 4.

(** The name resolver of a module is created when it is first needed. *)
Definition ensure_name (s_prs_name : cell kern ptr) (offset : name_offset) : prog kern loc :=
  name ← read s_prs_name;
  match name with
  | Some name => mret name
  | None =>
      name ← prs_name_create (PrsNameCreateParams name_entries_max offset);
      _ ← write s_prs_name (Some name);
      mret name
  end.

Section sched.
Context `{!ObjectFree, !Pit}.

(** ** The operations of the algorithms *)

Definition ops_init (ops : sched_impl) : loc → prog kern prs_result :=
  match ops with
  | prs_sched_swprio_ops => prs_sched_swprio_init
  | prs_sched_swcoop_ops => prs_sched_swcoop_init
  end.

Definition ops_uninit (ops : sched_impl) : loc → prog kern prs_result :=
  match ops with
  | prs_sched_swprio_ops => prs_sched_swprio_uninit
  | prs_sched_swcoop_ops => prs_sched_swcoop_uninit
  end.

Definition ops_add (ops : sched_impl) : loc → loc → prog kern prs_result :=
  match ops with
  | prs_sched_swprio_ops => prs_sched_swprio_add
  | prs_sched_swcoop_ops => prs_sched_swcoop_add
  end.

Definition ops_remove (ops : sched_impl) : loc → loc → prog kern prs_result :=
  match ops with
  | prs_sched_swprio_ops => prs_sched_swprio_remove
  | prs_sched_swcoop_ops => prs_sched_swcoop_remove
  end.

Definition ops_get_next (fuel : nat) (ops : sched_impl) : loc → ptr → prog kern (bool * ptr) :=
  match ops with
  | prs_sched_swprio_ops => prs_sched_swprio_get_next fuel
  | prs_sched_swcoop_ops => prs_sched_swcoop_get_next fuel
  end.

Definition ops_ready (ops : sched_impl) : loc → loc → prog kern prs_result :=
  match ops with
  | prs_sched_swprio_ops => prs_sched_swprio_ready
  | prs_sched_swcoop_ops => prs_sched_swcoop_ready
  end.

Definition prs_sched_object_free (object : loc) : prog kern unit := free_block k_scheds with_scheds object.

Definition prs_sched_get_next (fuel : nat) (userdata : loc) (current_task : ptr) : prog kern (bool * ptr) :=
  sched ← read (sched_worker_sched userdata);
  sched ← nonnull sched;
  ops ← read (sched_ops sched);
  ops_get_next fuel ops userdata current_task.

(** ** Creation *)

(** The [cleanup] of [prs_sched_create]. *)
Definition sched_create_cleanup (fuel : nat) (name sched : loc) (result : prs_result) :
    prog kern (prs_result * option Z) :=
  id ← read (sched_id sched);
  _ ← (if id =? 0 then mret tt
       else _ ← prs_name_free fuel name id; god_unlock id);
  workers ← read (sched_workers sched);
  _ ← match workers with Some _ => dllist_destroy workers | None => mret tt end;
  _ ← free_block k_scheds with_scheds sched;
  mret (result, None).

(** The result, and the ID stored through [id] when there is one. *)
Definition prs_sched_create (fuel : nat) (params : prs_sched_create_params) : prog kern (prs_result * option Z) :=
  name ← ensure_name s_prs_sched_name offsetof_sched_name;
  sched ← alloc_block k_scheds with_scheds (PrsSched 0 (replicate 32 0) (scp_ops params) None None);
  match sched with
  | None => mret (PRS_OUT_OF_MEMORY, None)
  | Some sched =>
      workers ← dllist_create;
      _ ← write (sched_workers sched) workers;
      match workers with
      | None => sched_create_cleanup fuel name sched PRS_OUT_OF_MEMORY
      | Some _ =>
          old_name ← read (sched_name sched);
          '(new_name, _) ← pure (prs_str_copy old_name (scp_name params) 32);
          _ ← write (sched_name sched) new_name;
          id ← god_alloc_and_lock sched s_prs_sched_object_ops;
          _ ← write (sched_id sched) id;
          if id =? 0 then sched_create_cleanup fuel name sched PRS_OUT_OF_MEMORY
          else
            result ← prs_name_alloc fuel name id;
            if decide (result = PRS_OK) then
              result ← ops_init (scp_ops params) sched;
              if decide (result = PRS_OK) then mret (result, Some id)
              else sched_create_cleanup fuel name sched result
            else sched_create_cleanup fuel name sched result
      end
  end.

(** [prs_worker_stop], [prs_worker_destroy] or [prs_worker_start] of every worker. *)
Fixpoint each_worker (f : loc → prog kern prs_result) (sched_workers : list loc) : prog kern unit :=
  match sched_workers with
  | [] => mret tt
  | sched_worker :: sched_workers =>
      worker ← read (sched_worker_worker sched_worker);
      worker ← nonnull worker;
      _ ← f worker;
      each_worker f sched_workers
  end.

Fixpoint start_workers (fuel : nat) (sched_workers : list loc) (result : prs_result) : prog kern prs_result :=
  match sched_workers with
  | [] => mret result
  | sched_worker :: sched_workers =>
      worker ← read (sched_worker_worker sched_worker);
      worker ← nonnull worker;
      let _ : GetNext := prs_sched_get_next fuel in
      result ← prs_worker_start fuel worker;
      if decide (result = PRS_OK) then start_workers fuel sched_workers result else mret result
  end.

Definition prs_sched_stop (self : ptr) (id : Z) : prog kern prs_result :=
  sched ← god_lock id;
  match sched with
  | None => mret PRS_UNKNOWN
  | Some sched =>
      workers ← read (sched_workers sched);
      sched_workers ← dllist_data workers;
      _ ← each_worker (prs_worker_stop self) sched_workers;
      mret PRS_OK
  end.

Definition prs_sched_destroy (fuel : nat) (id : Z) : prog kern prs_result :=
  sched ← god_lock id;
  match sched with
  | None => mret PRS_UNKNOWN
  | Some sched =>
      workers ← read (sched_workers sched);
      sched_workers_ ← dllist_data workers;
      _ ← each_worker prs_worker_destroy sched_workers_;
      ops ← read (sched_ops sched);
      result ← ops_uninit ops sched;
      name ← read s_prs_sched_name;
      name ← nonnull name;
      _ ← prs_name_free fuel name id;
      _ ← god_unlock id;
      workers ← read (sched_workers sched);
      _ ← dllist_destroy workers;
      _ ← free_block k_scheds with_scheds sched;
      mret result
  end.

Definition prs_sched_start (fuel : nat) (id : Z) : prog kern prs_result :=
  sched ← god_lock id;
  match sched with
  | None => mret PRS_UNKNOWN
  | Some sched =>
      workers ← read (sched_workers sched);
      sched_workers ← dllist_data workers;
      result ← start_workers fuel sched_workers PRS_OK;
      _ ← god_unlock id;
      mret result
  end.

(** ** Threads and tasks *)

Definition prs_sched_add_thread (id : Z) (pal_thread : loc) : prog kern prs_result :=
  sched ← god_lock id;
  match sched with
  | None => mret PRS_UNKNOWN
  | Some sched =>
      sched_worker ← alloc_block k_sched_workers with_sched_workers (PrsSchedWorker None None None);
      match sched_worker with
      | None => _ ← god_unlock id; mret PRS_OUT_OF_MEMORY
      | Some sched_worker =>
          workers ← read (sched_workers sched);
          result ← dllist_push workers sched_worker;
          if decide (result = PRS_OK) then
            _ ← write (sched_worker_sched sched_worker) (Some sched);
            '(result, worker_id) ← prs_worker_create (PrsWorkerCreateParams pal_thread sched_worker);
            match worker_id with
            | Some worker_id =>
                worker ← god_lock worker_id;
                _ ← fatal_if (bool_decide (worker = None));
                _ ← write (sched_worker_worker sched_worker) worker;
                _ ← write (sched_worker_sched_data sched_worker) (Some sched);
                _ ← god_unlock id;
                mret result
            | None =>
                sched_ ← read (sched_worker_sched sched_worker);
                _ ← match sched_ with
                    | Some _ => workers ← read (sched_workers sched); dllist_remove_first workers
                    | None => mret tt
                    end;
                _ ← free_block k_sched_workers with_sched_workers sched_worker;
                _ ← god_unlock id;
                mret result
            end
          else _ ← god_unlock id; mret result
      end
  end.

(** The references are kept when the task was added. *)
Definition prs_sched_add_task (id task_id : Z) : prog kern prs_result :=
  sched ← god_lock id;
  match sched with
  | None => mret PRS_UNKNOWN
  | Some sched =>
      task ← god_lock task_id;
      match task with
      | None => _ ← god_unlock id; mret PRS_UNKNOWN
      | Some task =>
          ops ← read (sched_ops sched);
          result ← ops_add ops sched task;
          if decide (result = PRS_OK) then
            sched_id ← read (sched_id sched);
            _ ← write (task_sched_id task) sched_id;
            mret result
          else
            _ ← god_unlock task_id;
            _ ← god_unlock id;
            mret result
      end
  end.

(** The references taken when the task was added are released, too. *)
Definition prs_sched_remove_task (id task_id : Z) : prog kern prs_result :=
  sched ← god_lock id;
  match sched with
  | None => mret PRS_UNKNOWN
  | Some sched =>
      task ← god_lock task_id;
      match task with
      | None => _ ← god_unlock id; mret PRS_UNKNOWN
      | Some task =>
          ops ← read (sched_ops sched);
          result ← ops_remove ops sched task;
          _ ← (if decide (result = PRS_OK) then _ ← god_unlock task_id; god_unlock id else mret tt);
          _ ← god_unlock task_id;
          _ ← god_unlock id;
          mret result
      end
  end.

(** ** The current task *)

Definition sched_worker_schedule (fuel : nat) (worker : loc) : prog kern unit :=
  let _ : GetNext := prs_sched_get_next fuel in prs_worker_schedule fuel worker.

Definition prs_sched_schedule (fuel : nat) (self : ptr) : prog kern unit :=
  worker ← nonnull (prs_worker_current self);
  sched_worker_schedule fuel worker.

#[export] Instance prs_sched_ready : SchedReady := λ task,
  id ← read (task_sched_id task);
  sched ← god_lock id;
  sched ← nonnull sched;
  ops ← read (sched_ops sched);
  result ← ops_ready ops sched task;
  id ← read (task_sched_id task);
  _ ← god_unlock id;
  mret result.

Definition prs_sched_yield (fuel : nat) (self : ptr) : prog kern unit :=
  worker ← nonnull (prs_worker_current self);
  task ← prs_worker_get_current_task worker;
  task ← nonnull task;
  _ ← prs_task_block task;
  _ ← prs_task_change_state task PRS_TASK_STATE_BLOCKED PRS_TASK_STATE_READY;
  _ ← prs_sched_ready task;
  sched_worker_schedule fuel worker.

Definition prs_sched_sleep (fuel : nat) (self : ptr) (ticks : Z) : prog kern unit :=
  worker ← nonnull (prs_worker_current self);
  task ← prs_worker_get_current_task worker;
  task ← nonnull task;
  event ← prs_event_create task 1;
  timer ← prs_clock_timer;
  timer ← nonnull timer;
  timer_entry ← prs_timer_queue timer event 1 ticks;
  _ ← sched_worker_schedule fuel worker;
  timer ← prs_clock_timer;
  timer ← nonnull timer;
  prs_timer_cancel timer timer_entry.

Definition prs_sched_block (fuel : nat) (self : ptr) : prog kern unit :=
  worker ← nonnull (prs_worker_current self);
  task ← prs_worker_get_current_task worker;
  task ← nonnull task;
  _ ← prs_task_change_state task PRS_TASK_STATE_RUNNING PRS_TASK_STATE_BLOCKED;
  sched_worker_schedule fuel worker.

Definition prs_sched_find (fuel : nat) (key : list Z) : prog kern Z :=
  name ← read s_prs_sched_name;
  name ← nonnull name;
  prs_name_find fuel name key.

Definition prs_sched_find_and_lock (fuel : nat) (key : list Z) : prog kern ptr :=
  name ← read s_prs_sched_name;
  name ← nonnull name;
  object_id ← prs_name_find_and_lock fuel name key;
  god_find object_id.
End sched.
