(* ===== verification/TaskLife.v ===== *)
(** * Creation and destruction of tasks (prs/task.c)

    A task is registered in the object directory and by its name; it belongs to the
    process of the task that created it.  Stacks, message queues and processes are
    interfaces. *)

From S2P Require Import Prelude Str Heap Atomic RefDir Kern Pal Worker Task Event Timer Clock Name Sched.

Definition s_prs_task_name : cell kern ptr :=
  Cell (λ c, Ret (k_task_name c)) (λ v c, Ret (with_task_name v c)).

Definition task_name_field := field k_tasks with_tasks tk_name set_tk_name.
Definition task_id := field k_tasks with_tasks tk_id set_tk_id.
Definition task_userdata := field k_tasks with_tasks tk_userdata set_tk_userdata.
Definition task_entry := field k_tasks with_tasks tk_entry set_tk_entry.
Definition task_stack := field k_tasks with_tasks tk_stack set_tk_stack.
Definition task_stack_size := field k_tasks with_tasks tk_stack_size set_tk_stack_size.
Definition task_context := field k_tasks with_tasks tk_context set_tk_context.
Definition task_msgq := field k_tasks with_tasks tk_msgq set_tk_msgq.
Definition task_proc_id := field k_tasks with_tasks tk_proc_id set_tk_proc_id.

(** What a task needs of stacks (alloc/stack.c), message queues (msgq.c) and of the
    platform; [prs_stack_create] also gives the size. *)
Class TaskParts : Type := {
  prs_stack_create : Z → prog kern (ptr * Z);
  prs_stack_destroy : loc → prog kern unit;
  prs_msgq_create : prog kern ptr;
  prs_msgq_destroy : loc → prog kern unit;
  prs_pal_os_get_page_size : Z;
  prs_pal_context_make : loc → ptr → loc → prog kern unit;
  task_entry_call : ptr → ptr → prog kern unit
}.

(** What a task needs of processes (proc.c): [prs_proc_register_object],
    [prs_proc_unregister_object], [prs_proc_send_unreg_object] and
    [PRS_PROC_SVC_NAME]. *)
Class ProcObjects : Type := {
  prs_proc_register_object : loc → Z → prog kern unit;
  prs_proc_unregister_object : loc → Z → prog kern unit;
  prs_proc_send_unreg_object : Z → Z → Z → bool → prog kern unit;
  PRS_PROC_SVC_NAME : list Z
}.

(** [struct prs_task_create_params] *)
Record prs_task_create_params : Type := PrsTaskCreateParams {
  tcp_name : list Z;
  tcp_userdata : ptr;
  tcp_stack_size : Z;
  tcp_prio : Z;
  tcp_entry : ptr
}.

Section task.
Context `{!ObjectFree, !Pit, !TaskParts, !ProcObjects}.

Definition prs_task_object_free (task : loc) : prog kern unit :=
  msgq ← read (task_msgq task);
  _ ← match msgq with Some msgq => prs_msgq_destroy msgq | None => mret tt end;
  context ← read (task_context task);
  _ ← match context with Some _ => prs_pal_context_free context | None => mret tt end;
  stack ← read (task_stack task);
  _ ← match stack with Some stack => prs_stack_destroy stack | None => mret tt end;
  free_block k_tasks with_tasks task.

(** ** Names *)

Definition prs_task_find (fuel : nat) (key : list Z) : prog kern Z :=
  name ← read s_prs_task_name;
  name ← nonnull name;
  prs_name_find fuel name key.

Definition prs_task_find_and_lock (fuel : nat) (key : list Z) : prog kern ptr :=
  name ← read s_prs_task_name;
  name ← nonnull name;
  object_id ← prs_name_find_and_lock fuel name key;
  god_find object_id.

(** ** The process of a task *)

(** Takes the task off a process: directly in the task of the process service,
    through a message to it elsewhere. *)
Definition leave_proc (fuel : nat) (self : ptr) (task proc : loc) (proc_id : Z) : prog kern unit :=
  proc_task_id ← prs_task_find fuel PRS_PROC_SVC_NAME;
  _ ← fatal_if (proc_task_id =? 0);
  current ← prs_task_current self;
  current ← nonnull current;
  current_id ← prs_task_get_id current;
  id ← read (task_id task);
  if proc_task_id =? current_id then prs_proc_unregister_object proc id
  else prs_proc_send_unreg_object proc_task_id proc_id id false.

Definition prs_task_set_proc (fuel : nat) (self : ptr) (task : loc) (proc_id : Z) : prog kern prs_result :=
  proc ← god_lock proc_id;
  match proc with
  | Some proc =>
      old_proc_id ← read (task_proc_id task);
      _ ← (if old_proc_id =? 0 then mret tt
           else
             _ ← leave_proc fuel self task proc proc_id;
             old_proc_id ← read (task_proc_id task);
             god_unlock old_proc_id);
      id ← read (task_id task);
      _ ← prs_proc_register_object proc id;
      _ ← write (task_proc_id task) proc_id;
      mret PRS_OK
  | None => mret PRS_NOT_FOUND
  end.

(** ** Creation *)

(** The [cleanup] of [prs_task_create]. *)
Definition task_create_cleanup (task : loc) : prog kern ptr :=
  id ← read (task_id task);
  _ ← (if id =? 0 then free_block k_tasks with_tasks task else god_unlock id);
  mret None.

(** The process of the current task is inherited; with no worker this is the first
    task.  [false]: the process is gone. *)
Definition inherit_proc (fuel : nat) (self : ptr) (task : loc) : prog kern bool :=
  match prs_worker_current self with
  | None => mret true
  | Some worker =>
      current_task ← prs_worker_get_current_task worker;
      current_task ← nonnull current_task;
      proc_id ← read (task_proc_id current_task);
      if proc_id =? 0 then mret true
      else
        result ← prs_task_set_proc fuel self task proc_id;
        mret (bool_decide (result = PRS_OK))
  end.

Definition prs_task_create (fuel : nat) (self : ptr) (params : prs_task_create_params) : prog kern ptr :=
  name ← ensure_name s_prs_task_name offsetof_task_name;
  task ← alloc_block k_tasks with_tasks (PrsTask 0 (replicate 32 0) None None 0 0 0 0 None 0 None None None);
  match task with
  | None => mret None
  | Some task =>
      id ← god_alloc_and_lock task s_prs_task_object_ops;
      _ ← write (task_id task) id;
      if id =? 0 then task_create_cleanup task
      else
        let stack_size := if tcp_stack_size params =? 0 then prs_pal_os_get_page_size else tcp_stack_size params in
        '(stack, size) ← prs_stack_create stack_size;
        _ ← match stack with Some _ => write (task_stack_size task) size | None => mret tt end;
        _ ← write (task_stack task) stack;
        match stack with
        | None => task_create_cleanup task
        | Some _ =>
            context ← prs_pal_context_alloc;
            _ ← write (task_context task) context;
            match context with
            | None => task_create_cleanup task
            | Some context =>
                msgq ← prs_msgq_create;
                _ ← write (task_msgq task) msgq;
                inherited ← inherit_proc fuel self task;
                if (inherited : bool) then
                  old_name ← read (task_name_field task);
                  '(new_name, _) ← pure (prs_str_copy old_name (tcp_name params) 32);
                  _ ← write (task_name_field task) new_name;
                  _ ← write (task_prio task) (tcp_prio params);
                  _ ← write (task_userdata task) (tcp_userdata params);
                  _ ← write (task_entry task) (tcp_entry params);
                  _ ← prs_task_change_state task 0 PRS_TASK_STATE_STOPPED;
                  stack ← read (task_stack task);
                  _ ← prs_pal_context_make context stack task;
                  id ← read (task_id task);
                  result ← prs_name_alloc fuel name id;
                  if decide (result = PRS_OK) then mret (Some task) else task_create_cleanup task
                else task_create_cleanup task
            end
        end
  end.

(** ** Destruction *)

(** The name is freed once: so a task is destroyed once. *)
Definition prs_task_destroy (fuel : nat) (self : ptr) (task : loc) : prog kern unit :=
  name ← read s_prs_task_name;
  name ← nonnull name;
  id ← read (task_id task);
  result ← prs_name_free fuel name id;
  if decide (result = PRS_OK) then
    sched_id ← read (task_sched_id task);
    _ ← (if sched_id =? 0 then mret tt
         else
           sched_id ← read (task_sched_id task);
           id ← read (task_id task);
           _ ← prs_sched_remove_task sched_id id; mret tt);
    proc_id ← read (task_proc_id task);
    _ ← (if proc_id =? 0 then mret tt
         else
           proc ← god_lock proc_id;
           proc ← nonnull proc;
           _ ← leave_proc fuel self task proc proc_id;
           proc_id ← read (task_proc_id task);
           _ ← god_unlock proc_id;
           proc_id ← read (task_proc_id task);
           god_unlock proc_id);
    id ← read (task_id task);
    god_unlock id
  else mret tt.

Definition prs_task_object_destroy (fuel : nat) (self : ptr) (object : loc) : prog kern unit :=
  prs_task_destroy fuel self object.

(** What the context of a task runs. *)
Definition prs_task_entry (fuel : nat) (self : ptr) (task : loc) : prog kern unit :=
  worker ← nonnull (prs_worker_current self);
  let _ : GetNext := prs_sched_get_next fuel in
  _ ← prs_worker_int_enable fuel worker;
  entry ← read (task_entry task);
  userdata ← read (task_userdata task);
  _ ← task_entry_call entry userdata;
  _ ← prs_worker_int_disable worker;
  _ ← prs_task_destroy fuel self task;
  prs_worker_schedule fuel worker.
End task.
