(* ===== verification/Sem.v ===== *)
(** * Semaphores (prs/sem.c)

    A semaphore is a count and a queue of the events of the tasks that wait.  [self] is
    the worker of the calling thread, [choices] bounds which element of the queue a pop may
    return. *)

From S2P Require Import Prelude Heap Atomic RefDir Kern Pal Worker Task Event EventRun Timer Clock Name Sched.

Definition PRS_SEM_EVENT_TYPE_SIGNAL : Z := 1.
Definition PRS_SEM_EVENT_TYPE_TIMEOUT : Z := 2.

Definition sem_id := field k_sems with_sems sm_id set_sm_id.
Definition sem_max_count := field k_sems with_sems sm_max_count set_sm_max_count.
Definition sem_count := field k_sems with_sems sm_count set_sm_count.
Definition sem_waitq := field k_sems with_sems sm_waitq set_sm_waitq.

(** [prs_pal_atomic_fetch_add(&sem->count, v)]: [prs_int_t] is signed, of 64 bits, and the
    atomic operations wrap. *)
Definition wrap64 (x : Z) : Z := (x + 2 ^ 63) mod 2 ^ 64 - 2 ^ 63.
Definition sem_count_add (sem : loc) (v : Z) : prog kern Z := atomic_update (sem_count sem) (λ x, wrap64 (x + v)).

(** [struct prs_sem_create_params] *)
Record prs_sem_create_params : Type := PrsSemCreateParams {
  smp_max_count : Z;
  smp_initial_count : Z
}.

Definition prs_sem_object_free (object : loc) : prog kern unit :=
  waitq ← read (sem_waitq object);
  _ ← match waitq with Some waitq => mpmcq_destroy waitq | None => mret tt end;
  free_block k_sems with_sems object.

Section sem.
Context `{!ObjectFree, !Pit} (choices : nat).

Definition prs_sem_destroy (sem : loc) : prog kern unit :=
  id ← read (sem_id sem);
  god_unlock id.

Definition prs_sem_object_destroy (object : loc) : prog kern unit := prs_sem_destroy object.

(** The [cleanup] of [prs_sem_create]. *)
Definition sem_create_cleanup (sem : loc) : prog kern ptr :=
  id ← read (sem_id sem);
  _ ← (if id =? 0 then free_block k_sems with_sems sem else god_unlock id);
  mret None.

Definition prs_sem_create (params : prs_sem_create_params) : prog kern ptr :=
  sem ← alloc_block k_sems with_sems (PrsSem 0 0 0 None);
  match sem with
  | None => mret None
  | Some sem =>
      waitq ← mpmcq_create;
      _ ← write (sem_waitq sem) waitq;
      match waitq with
      | None => sem_create_cleanup sem
      | Some _ =>
          id ← god_alloc_and_lock sem s_prs_sem_object_ops;
          _ ← write (sem_id sem) id;
          if id =? 0 then sem_create_cleanup sem
          else
            _ ← write (sem_max_count sem) (smp_max_count params);
            _ ← prs_pal_atomic_store (sem_count sem) (smp_initial_count params);
            mret (Some sem)
      end
  end.

(** The loop over the events of the queue that are signalled already. *)
Fixpoint prs_sem_signal_once (fuel : nat) (self : ptr) (sem : loc) (self_event : ptr) : prog kern bool :=
  match fuel with
  | O => Spin
  | S fuel =>
      waitq ← read (sem_waitq sem);
      '(result, pop_event) ← mpmcq_pop choices waitq;
      if decide (result ≠ PRS_OK) then mret false
      else
        match pop_event with
        | None => mret false
        | Some event =>
            event_state ← prs_event_signal self event PRS_SEM_EVENT_TYPE_SIGNAL;
            if truthy (Z.land event_state PRS_EVENT_STATE_SIGNALED) then prs_sem_signal_once fuel self sem self_event
            else if decide (pop_event = self_event) then
              _ ← (if truthy (Z.land event_state PRS_EVENT_STATE_FREED) then mret tt else prs_event_cancel event);
              mret true
            else mret false
        end
  end.

(** The first half of both ways to wait: the event, and whether the task goes on at once.
    A queue that is out of memory kills the task. *)
Definition sem_wait_begin (fuel : nat) (self : ptr) (kill : prog kern unit) (sem : loc) (sources : Z) :
    prog kern (loc * loc * bool) :=
  worker ← nonnull (prs_worker_current self);
  task ← prs_worker_get_current_task worker;
  task ← nonnull task;
  push_event ← prs_event_create task sources;
  waitq ← read (sem_waitq sem);
  result ← mpmcq_push waitq push_event;
  _ ← (if decide (result ≠ PRS_OK) then kill else mret tt);
  value ← sem_count_add sem (-1);
  signaled ← (if 0 <? value then prs_sem_signal_once fuel self sem (Some push_event) else mret false);
  mret (task, push_event, signaled).

(** [kill]: [PRS_KILL_TASK_WHEN] (Excp.v). *)
Definition prs_sem_wait (fuel : nat) (self : ptr) (kill : prog kern unit) (sem : loc) : prog kern unit :=
  '(_, _, signaled) ← sem_wait_begin fuel self kill sem 1;
  if (signaled : bool) then mret tt else prs_sched_schedule fuel self.

Definition prs_sem_wait_timeout (fuel : nat) (self : ptr) (kill : prog kern unit) (sem : loc) (timeout : Z) :
    prog kern prs_result :=
  '(task, push_event, signaled) ← sem_wait_begin fuel self kill sem 2;
  if (signaled : bool) then mret PRS_OK
  else
    timer ← prs_clock_timer;
    timer ← nonnull timer;
    timer_entry ← prs_timer_queue timer push_event PRS_SEM_EVENT_TYPE_TIMEOUT timeout;
    _ ← prs_sched_schedule fuel self;
    timer ← prs_clock_timer;
    timer ← nonnull timer;
    _ ← prs_timer_cancel timer timer_entry;
    event_type ← prs_task_get_last_unblock_cause task;
    mret (if event_type =? PRS_SEM_EVENT_TYPE_SIGNAL then PRS_OK else PRS_TIMEOUT).

Definition prs_sem_signal (fuel : nat) (self : ptr) (sem : loc) : prog kern unit :=
  value ← sem_count_add sem 1;
  if value <? 0 then _ ← prs_sem_signal_once fuel self sem None; mret tt else mret tt.
End sem.

(** ** Signalling a semaphore, alone *)

(** The events of a queue drop a reference each, the oldest first. *)
Fixpoint drops (xs : list loc) (c : kern) : kern :=
  match xs with [] => c | x :: xs => drops xs (event_drop x c) end.

Lemma with_bags_same c : with_bags (k_bags c) c = c.
Proof. destruct c. match goal with m : mods |- _ => by destruct m end. Qed.

Lemma event_drop_bags x b c : event_drop x (with_bags b c) = with_bags b (event_drop x c).
Proof.
  unfold event_drop. change (k_events (with_bags b c)) with (k_events c).
  destruct (k_events c !! x) as [ev|]; [|done]. by destruct (_ =? _).
Qed.

Lemma drops_app xs ys c : drops (xs ++ ys) c = drops ys (drops xs c).
Proof. revert c. by induction xs; intros; cbn. Qed.

Lemma drops_bags xs b c : drops xs (with_bags b c) = with_bags b (drops xs c).
Proof. revert c. induction xs as [|x xs IH]; intros c; [done|]. cbn. by rewrite event_drop_bags, IH. Qed.

Lemma drops_frame xs c : k_objs (drops xs c) = k_objs c ∧ k_tasks (drops xs c) = k_tasks c ∧
  k_workers (drops xs c) = k_workers c ∧ k_sems (drops xs c) = k_sems c ∧ k_bags (drops xs c) = k_bags c.
Proof.
  revert c. induction xs as [|x xs IH]; intros c; [done|]. cbn.
  destruct (IH (event_drop x c)) as (-> & -> & -> & -> & ->). apply event_drop_frame.
Qed.

Lemma event_ok_drop c x ev task tk n ops y :
  event_ok c x ev task tk n ops → x ≠ y → event_ok (event_drop y c) x ev task tk n ops.
Proof.
  intros [H1 H2 H3 H4 H5] Hne. destruct (event_drop_frame y c) as (Ho & Ht & _).
  destruct (event_drop_events y c x Hne) as [He Hl].
  split; [by rewrite He|done|by apply Hl|by rewrite Ho|by rewrite Ht].
Qed.

Lemma event_ok_drops c x ev task tk n ops xs :
  event_ok c x ev task tk n ops → x ∉ xs → event_ok (drops xs c) x ev task tk n ops.
Proof.
  revert c. induction xs as [|y xs IH]; intros c Hok Hx; [done|]. apply not_elem_of_cons in Hx as [Hne Hx].
  cbn [drops]. apply IH; [|done]. by apply event_ok_drop.
Qed.

Lemma event_ok_rest c x ev task tk n ops b sems :
  event_ok c x ev task tk n ops → event_ok (with_bags b c) x ev task tk n ops ∧
  event_ok (with_sems sems c) x ev task tk n ops.
Proof. intros [H1 H2 H3 H4 H5]. by split. Qed.

(** The task of the event [x] has gone on already: its wait was given up. *)
Definition stale (c : kern) (x : loc) : Prop :=
  ∃ ev task tk n ops, event_ok c x ev task tk n ops ∧ tk_state tk ≠ ev_token ev.

Lemma run_choose n c : run (choose n) c = Ret (Some 0%nat, c).
Proof. by destruct n. Qed.

Lemma run_bag_pop choices q c xs :
  k_bags c !! q = Some xs →
  run (mpmcq_pop choices (Some q)) c =
    match xs with
    | [] => Ret (Some (PRS_EMPTY, None), c)
    | x :: xs => Ret (Some (PRS_OK, Some x), with_bags (<[q := xs]> (k_bags c)) c)
    end.
Proof.
  intros Hq. unfold mpmcq_pop. eapply run_seq; [apply run_nonnull|]. eapply run_seq; [apply run_choose|].
  unfold act. cbn [run]. unfold bag. rewrite (field_get _ _ _ _ _ _ _ Hq). ocbn.
  destruct xs as [|x xs]; [done|]. cbn [lookup list_lookup]. rewrite (field_set _ _ _ _ _ _ _ _ Hq). done.
Qed.

Section once.
Context `{!ObjectFree} (choices : nat) (self : ptr) (cur : ptr) (sem : loc) (q : loc).

(** One event of the queue: the loop goes on when it is stale. *)
Lemma run_once_stale fuel c s x xs :
  k_sems c !! sem = Some s → sm_waitq s = Some q → k_bags c !! q = Some (x :: xs) →
  current_is c self cur → stale c x →
  run (prs_sem_signal_once choices (S fuel) self sem None) c =
    run (prs_sem_signal_once choices fuel self sem None) (with_bags (<[q := xs]> (k_bags c)) (event_drop x c)).
Proof using Type.
  intros Hs Hq Hb Hcur (ev & task & tk & n & ops & Hok & Hne). cbn [prs_sem_signal_once].
  eapply run_seq; [apply run_load; eapply field_get; exact Hs|]. rewrite Hq.
  eapply run_seq; [apply (run_bag_pop _ _ _ _ Hb)|]. cbv beta iota. rewrite decide_False by naive_solver.
  eapply run_seq; [eapply (run_signal_stale (proj1 (event_ok_rest _ _ _ _ _ _ _ _ ∅ Hok))); [exact Hcur|exact Hne]|].
  rewrite event_drop_bags. unfold drop_state. by destruct (_ =? _).
Qed.

Lemma run_once_empty fuel c s :
  k_sems c !! sem = Some s → sm_waitq s = Some q → k_bags c !! q = Some [] →
  run (prs_sem_signal_once choices (S fuel) self sem None) c = Ret (Some false, c).
Proof using Type.
  intros Hs Hq Hb. cbn [prs_sem_signal_once].
  eapply run_seq; [apply run_load; eapply field_get; exact Hs|]. rewrite Hq.
  eapply run_seq; [apply (run_bag_pop _ _ _ _ Hb)|]. done.
Qed.

(** A live event ends it. *)
Lemma run_once_live fuel c s x xs ev task tk n ops r c2 :
  k_sems c !! sem = Some s → sm_waitq s = Some q → k_bags c !! q = Some (x :: xs) →
  current_is c self cur → event_ok c x ev task tk n ops → tk_state tk = ev_token ev → cur ≠ Some task →
  let c1 := put_token task (unblock_token (ev_token ev) false PRS_SEM_EVENT_TYPE_SIGNAL)
              (with_objs (<[ev_task_id ev := (S (S n), (task, ops))]> (k_objs c))
                (with_bags (<[q := xs]> (k_bags c)) (event_drop x c))) in
  run (prs_sched_ready task) c1 = Ret (Some r, c2) → k_objs c2 = k_objs c1 →
  run (prs_sem_signal_once choices (S fuel) self sem None) c = Ret (Some false, with_objs (k_objs c) c2).
Proof using Type.
  intros Hs Hq Hb Hcur Hok Htk Hnot c1 Hready Hkeep. cbn [prs_sem_signal_once].
  eapply run_seq; [apply run_load; eapply field_get; exact Hs|]. rewrite Hq.
  eapply run_seq; [apply (run_bag_pop _ _ _ _ Hb)|]. cbv beta iota. rewrite decide_False by naive_solver.
  pose proof (proj1 (event_ok_rest _ _ _ _ _ _ _ (<[q := xs]> (k_bags c)) ∅ Hok)) as Hok1.
  eapply run_seq; [apply (run_signal_live Hok1 self cur PRS_SEM_EVENT_TYPE_SIGNAL r c2)|].
  - exact Hcur.
  - exact Hnot.
  - exact Htk.
  - unfold woken. rewrite event_drop_bags. exact Hready.
  - unfold woken. rewrite event_drop_bags. exact Hkeep.
  - unfold drop_state. by destruct (_ =? _).
Qed.

Lemma run_once_drops fuel stales c s xs :
  k_sems c !! sem = Some s → sm_waitq s = Some q → k_bags c !! q = Some (stales ++ xs) →
  current_is c self cur → Forall (stale c) stales → NoDup stales →
  run (prs_sem_signal_once choices (length stales + fuel) self sem None) c =
    run (prs_sem_signal_once choices fuel self sem None) (with_bags (<[q := xs]> (k_bags c)) (drops stales c)).
Proof using Type.
  revert c. induction stales as [|x stales IH]; intros c Hs Hq Hb Hcur Hst Hnd.
  { cbn [app] in Hb. cbn [length Nat.add drops]. by rewrite insert_id, with_bags_same by done. }
  apply Forall_cons in Hst as [Hx Hst]. apply NoDup_cons in Hnd as [Hxn Hnd].
  cbn [length Nat.add]. rewrite (run_once_stale _ c s x (stales ++ xs)) by done.
  destruct (event_drop_frame x c) as (Ho & Ht & Hw & Hse & Hba).
  rewrite IH.
  - cbn [drops]. rewrite drops_bags. change (k_bags (with_bags ?b ?d)) with b. by rewrite insert_insert_eq.
  - cbn. by rewrite Hse.
  - done.
  - apply lookup_insert_eq.
  - unfold current_is in *. destruct self; [|done]. cbn. by rewrite Hw.
  - apply Forall_forall. intros y Hy. rewrite Forall_forall in Hst.
    destruct (Hst y Hy) as (ev & task & tk & n & ops & Hok & Hne).
    exists ev, task, tk, n, ops. split; [|done].
    apply event_ok_rest with (sems := ∅). apply event_ok_drop; [done|]. by intros ->.
  - done.
Qed.
End once.

(** The count of the semaphore has changed. *)
Definition counted (sem : loc) (s : prs_sem) (z : Z) (c : kern) : kern :=
  with_sems (<[sem := set_sm_count z s]> (k_sems c)) c.

(** The events [xs] have left the queue [q], which keeps [ys]. *)
Definition taken (q : loc) (xs ys : list loc) (c : kern) : kern :=
  with_bags (<[q := ys]> (k_bags c)) (drops xs c).

Lemma taken_one q xs x ys c :
  with_bags (<[q := ys]> (k_bags (taken q xs (x :: ys) c))) (event_drop x (taken q xs (x :: ys) c))
    = taken q (xs ++ [x]) ys c.
Proof.
  unfold taken. rewrite event_drop_bags, drops_app. cbn [drops]. change (k_bags (with_bags ?b ?d)) with b.
  by rewrite insert_insert_eq.
Qed.

(** C12: [prs_sem_signal] adds one to the count, and when tasks were counted as waiting it
    takes the events of the queue one after the other: the stale ones, whose tasks have been
    unblocked by something else (a timeout), only lose a reference, and the first one whose
    task still waits unblocks that task with the cause of a signal, and makes it ready.
    When every event is stale nobody gets the unit that was signalled: the count is one
    higher but, since the tasks that gave up do not take back what they subtracted, the next
    task to wait blocks although nobody has used the signal. *)
Theorem sem_signal_exact `{!ObjectFree} choices self cur sem q c s stales rest fuel :
  k_sems c !! sem = Some s → sm_waitq s = Some q → k_bags c !! q = Some (stales ++ rest) →
  -2 ^ 63 ≤ sm_count s < 2 ^ 63 - 1 → current_is c self cur →
  Forall (stale c) stales → NoDup stales → (length stales < fuel)%nat →
  let c1 := counted sem s (sm_count s + 1) c in
  (0 ≤ sm_count s → run (prs_sem_signal choices fuel self sem) c = Ret (Some tt, c1)) ∧
  (sm_count s < 0 → rest = [] →
    run (prs_sem_signal choices fuel self sem) c = Ret (Some tt, taken q stales [] c1)) ∧
  (∀ x xs ev task tk n ops r c2,
    sm_count s < 0 → rest = x :: xs → x ∉ stales → event_ok c x ev task tk n ops →
    tk_state tk = ev_token ev → cur ≠ Some task →
    let c3 := put_token task (unblock_token (ev_token ev) false PRS_SEM_EVENT_TYPE_SIGNAL)
                (with_objs (<[ev_task_id ev := (S (S n), (task, ops))]> (k_objs c))
                  (taken q (stales ++ [x]) xs c1)) in
    run (prs_sched_ready task) c3 = Ret (Some r, c2) → k_objs c2 = k_objs c3 →
    run (prs_sem_signal choices fuel self sem) c = Ret (Some tt, with_objs (k_objs c) c2)).
Proof.
  intros Hs Hq Hb Hz Hcur Hst Hnd Hfuel c1.
  assert (run (sem_count_add sem 1) c = Ret (Some (sm_count s), c1)) as Hadd.
  { unfold sem_count_add. eapply eq_trans; [eapply run_update_field; [reflexivity|exact Hs]|].
    unfold c1, counted. repeat f_equal. unfold wrap64. rewrite Z.mod_small; lia. }
  assert (Forall (stale c1) stales) as Hst1.
  { eapply Forall_impl; [exact Hst|]. intros y (ev & task & tk & n & ops & Hok & Hne).
    exists ev, task, tk, n, ops. split; [|done]. by apply event_ok_rest with (b := ∅). }
  assert (k_sems c1 !! sem = Some (set_sm_count (sm_count s + 1) s)) as Hs1 by apply lookup_insert_eq.
  assert (sm_waitq (set_sm_count (sm_count s + 1) s) = Some q) as Hq' by exact Hq.
  assert (∀ k, run (prs_sem_signal_once choices (length stales + k) self sem None) c1 =
    run (prs_sem_signal_once choices k self sem None) (taken q stales rest c1)) as Honce.
  { intros k. by rewrite (run_once_drops choices self cur sem q k stales c1 _ rest Hs1). }
  replace fuel with (length stales + S (fuel - S (length stales)))%nat by lia.
  set (k := (fuel - S (length stales))%nat) in *. destruct (drops_frame stales c1) as (Ho & Ht & Hw & Hse & Hba).
  unfold prs_sem_signal. split_and!.
  - intros H0. eapply run_seq; [exact Hadd|]. by rewrite (proj2 (Z.ltb_ge _ _) H0).
  - intros H0 ->. eapply run_seq; [exact Hadd|]. rewrite (proj2 (Z.ltb_lt _ _) H0).
    eapply run_seq; [rewrite Honce; eapply run_once_empty; [|exact Hq'|apply lookup_insert_eq]|reflexivity].
    cbn. by rewrite Hse.
  - intros x xs ev task tk n ops r c2 H0 Hr Hx Hok Htk Hnot. subst rest. intros Hready Hkeep.
    eapply run_seq; [exact Hadd|]. rewrite (proj2 (Z.ltb_lt _ _) H0).
    pose proof (proj2 (event_ok_rest _ _ _ _ _ _ _ ∅ (<[sem := set_sm_count (sm_count s + 1) s]> (k_sems c)) Hok)) as Hok1.
    pose proof (proj1 (event_ok_rest _ _ _ _ _ _ _ (<[q := x :: xs]> (k_bags c1)) ∅ (event_ok_drops _ _ _ _ _ _ _ _ Hok1 Hx))) as Hok2.
    fold (taken q stales (x :: xs) c1) in Hok2.
    pose proof (λ H1 H2 H3, run_once_live choices self cur sem q k (taken q stales (x :: xs) c1) _ x xs ev task tk n ops r c2
      H1 Hq' H2 H3 Hok2 Htk Hnot) as Hrun.
    cbv zeta in Hrun. rewrite taken_one in Hrun. replace (k_objs (taken q stales (x :: xs) c1)) with (k_objs c) in Hrun by (symmetry; exact Ho).
    eapply run_seq; [|reflexivity]. rewrite Honce. apply Hrun; [cbn; by rewrite Hse|apply lookup_insert_eq| |exact Hready|exact Hkeep].
    unfold current_is in *. destruct self; [|done]. cbn. by rewrite Hw.
Qed.

(** Two tasks have waited; the first gave up. *)
Definition demo_sem_task (id state : Z) (userdata : loc) : prs_task :=
  PrsTask id [] None None 0 3 0 9 (Some userdata) state (Some 12%positive) None None.

Definition demo_sem_kern : kern :=
  with_tasks {[ 10%positive := demo_sem_task 7 4097 11; 13%positive := demo_sem_task 14 4098 15 ]}
    (with_objs {[ 7 := (1%nat, (10%positive, s_prs_task_object_ops)); 14 := (1%nat, (13%positive, s_prs_task_object_ops));
                  9 := (1%nat, (4%positive, s_prs_sched_object_ops)) ]}
    (with_workers {[ 1%positive := PrsWorker 5 2 3 PRS_WORKER_FLAG_IDLE 0 None None ]}
    (with_threads {[ 2%positive := PrsPalThread false (Some 1%positive) true false 0 0 ]}
    (with_uds {[ 11%positive := SchedTaskUserdata (Some 10%positive) ]}
    (with_swcoop {[ 5%positive := PrsSchedSwcoop (Some 8%positive) (Some 9%positive) ]}
    (with_sched_workers {[ 3%positive := PrsSchedWorker (Some 4%positive) (Some 4%positive) (Some 1%positive) ]}
    (with_scheds {[ 4%positive := PrsSched 9 [] prs_sched_swcoop_ops (Some 5%positive) (Some 6%positive) ]}
    (with_queues {[ 8%positive := []; 9%positive := [] ]}
    (with_dllists {[ 6%positive := [(7%positive, 3%positive)] ]}
    (with_events {[ 20%positive := PrsEvent 14 4097 2 1; 21%positive := PrsEvent 7 4097 1 1 ]}
    (with_bags {[ 30%positive := [20%positive; 21%positive] ]}
    (with_sems {[ 31%positive := PrsSem 40 1 (-2) (Some 30%positive) ]}
    (with_heap (Heap {[ 20%positive; 21%positive ]} []) kern_empty))))))))))))).

Definition state_after {A : Type} (r : outcome (A * kern)) : kern :=
  match r with Ret (_, c) => c | _ => kern_empty end.

Lemma demo_event_ok c x ev task tk ops :
  k_events c !! x = Some ev → 1 ≤ ev_refcnt ev < 2 ^ 64 → bool_decide (x ∈ heap_live (k_heap c)) = true →
  k_objs c !! ev_task_id ev = Some (1%nat, (task, ops)) → k_tasks c !! task = Some tk →
  event_ok c x ev task tk 0 ops.
Proof. intros H1 H2 H3%bool_decide_eq_true H4 H5. by split. Qed.

Lemma sem_signal_exact_witness :
  let free : ObjectFree := λ _ _, mret tt in
  ∃ c', run (prs_sem_signal 2 2 None 31) demo_sem_kern = Ret (Some tt, c') ∧
    sm_count <$> k_sems c' !! 31%positive = Some (-1) ∧ k_bags c' !! 30%positive = Some [] ∧
    k_events c' = ∅ ∧ token_of c' 13%positive = Some 4098 ∧
    PRS_TASK_GET_STATE <$> token_of c' 10%positive = Some (state_code PRS_TASK_STATE_READY) ∧
    k_queues c' !! 8%positive = Some [11%positive].
Proof.
  intros free.
  destruct (sem_signal_exact 2 None None 31 30 demo_sem_kern (PrsSem 40 1 (-2) (Some 30%positive))
    [20%positive] [21%positive] 2) as (_ & _ & Hlive).
  - reflexivity.
  - reflexivity.
  - reflexivity.
  - simpl. lia.
  - reflexivity.
  - constructor; [|constructor]. exists (PrsEvent 14 4097 2 1), 13%positive, (demo_sem_task 14 4098 15), 0%nat, s_prs_task_object_ops.
    split; [apply demo_event_ok; [reflexivity|simpl; lia|vm_compute; reflexivity|reflexivity|reflexivity]|discriminate].
  - apply NoDup_singleton.
  - simpl. lia.
  - specialize (Hlive 21%positive [] (PrsEvent 7 4097 1 1) 10%positive (demo_sem_task 7 4097 11) 0%nat s_prs_task_object_ops).
    set (c3 := put_token _ _ _) in Hlive.
    assert (run (prs_sched_ready 10%positive) c3 = Ret (Some PRS_OK, state_after (run (prs_sched_ready 10%positive) c3))) as Hready
      by (vm_compute; reflexivity).
    set (c2 := state_after _) in Hready. exists (with_objs (k_objs demo_sem_kern) c2). split.
    + apply (Hlive PRS_OK c2); [simpl; lia|reflexivity|by intros ?%list_elem_of_singleton| |reflexivity|discriminate|exact Hready|].
      * apply demo_event_ok; [reflexivity|simpl; lia|vm_compute; reflexivity|reflexivity|reflexivity].
      * vm_compute; reflexivity.
    + vm_compute. split_and!; reflexivity.
Defined.
