(* ===== verification/Msgq.v ===== *)
(** * Message queues (prs/msgq.c)

    A queue of messages with one consumer, which may ask for the first message that a
    filter accepts.  Its pointer directory is the global one, at the level of its contract
    (Kern.v).  [gpd] is [s_prs_gpd] of gpd.c, [self] the worker of the calling thread.  The
    lemmas on a receiver, at once and after a wait, are for the calls of Pr.v. *)

From S2P Require Import Prelude Heap Atomic RefDir Pd Kern Pal Worker Task Event EventRun Timer Clock Name Sched Sem.

Definition PRS_MSGQ_EVENT_TYPE_SEND : Z := 1.
Definition PRS_MSGQ_EVENT_TYPE_TIMEOUT : Z := 2.
Definition PRS_MSGQ_EVENT_TYPE_FREE : Z := 3.

Definition msgq_queue := field k_msgqs with_msgqs mq_queue set_mq_queue.
Definition msgq_pd := field k_msgqs with_msgqs mq_pd set_mq_pd.
Definition msgq_filter_id := field k_msgqs with_msgqs mq_filter_id set_mq_filter_id.
Definition filter_id := field k_filters with_filters fl_id set_fl_id.
Definition filter_event := field k_filters with_filters fl_event set_fl_event.
Definition filter_userdata := field k_filters with_filters fl_userdata set_fl_userdata.
Definition filter_userdata_size := field k_filters with_filters fl_userdata_size set_fl_userdata_size.
Definition filter_function := field k_filters with_filters fl_function set_fl_function.

(** [memcpy] of [size] bytes to a new block. *)
Definition copy_block (to : loc) (from : ptr) (size : Z) : prog kern unit :=
  from ← nonnull from;
  bytes ← read (block from);
  if Z.of_nat (length bytes) <? size then pure Undef else write (block to) (take (Z.to_nat size) bytes).

(** The filter functions of the application, called with their userdata and a message. *)
Class MsgFilters : Type := msg_filter : loc → ptr → loc → prog kern bool.

Section msgq.
Context `{!ObjectFree, !Pit, !MsgFilters}.

Definition prs_msgq_filter_create (msgq : loc) (userdata : ptr) (userdata_size : Z) (function : ptr) : prog kern loc :=
  filter ← alloc_block k_filters with_filters (PrsMsgqFilter 0 None None 0 None);
  _ ← fatal_if (bool_decide (filter = None));
  filter ← nonnull filter;
  '(result, id) ← gpd_alloc_and_lock filter;
  _ ← write (filter_id filter) id;
  _ ← fatal_if (bool_decide (result ≠ PRS_OK));
  _ ← write (filter_function filter) function;
  _ ← match function with
      | Some _ =>
          _ ← write (filter_userdata_size filter) userdata_size;
          if 0 <? userdata_size then
            copy ← alloc_block k_blocks with_blocks [];
            _ ← write (filter_userdata filter) copy;
            _ ← fatal_if (bool_decide (copy = None));
            copy ← nonnull copy;
            copy_block copy userdata userdata_size
          else write (filter_userdata filter) userdata
      | None => mret tt
      end;
  mret filter.

Definition prs_msgq_filter_unref (msgq filter : loc) : prog kern unit :=
  id ← read (filter_id filter);
  must_free ← gpd_unlock id;
  if (must_free : bool) then
    function ← read (filter_function filter);
    _ ← match function with
        | Some _ =>
            size ← read (filter_userdata_size filter);
            if 0 <? size then
              userdata ← read (filter_userdata filter);
              match userdata with Some userdata => free_block k_blocks with_blocks userdata | None => mret tt end
            else mret tt
        | None => mret tt
        end;
    free_block k_filters with_filters filter
  else mret tt.

Definition prs_msgq_alloc_event (self : ptr) (filter : loc) (event_sources : Z) : prog kern loc :=
  worker ← nonnull (prs_worker_current self);
  task ← prs_worker_get_current_task worker;
  task ← nonnull task;
  event ← prs_event_create task (event_sources + 1);
  _ ← prs_pal_atomic_store (filter_event filter) (Some event);
  mret event.

Definition prs_msgq_free_event (self : ptr) (filter event : loc) : prog kern bool :=
  left_event ← prs_pal_atomic_exchange (filter_event filter) None;
  _ ← (if decide (left_event = None) then mret tt else _ ← prs_event_unref self event; mret tt);
  event_state ← prs_event_signal self event PRS_MSGQ_EVENT_TYPE_FREE;
  mret (truthy (Z.land event_state PRS_EVENT_STATE_SIGNALED)).

(** The [cleanup] of [prs_msgq_create]. *)
Definition msgq_create_cleanup (msgq : loc) : prog kern ptr :=
  queue ← read (msgq_queue msgq);
  _ ← match queue with Some _ => mpsciq_destroy queue | None => mret tt end;
  _ ← free_block k_msgqs with_msgqs msgq;
  mret None.

Definition prs_msgq_create (gpd params_pd : ptr) : prog kern ptr :=
  msgq ← alloc_block k_msgqs with_msgqs (PrsMsgq None None 0);
  match msgq with
  | None => mret None
  | Some msgq =>
      queue ← mpsciq_create;
      _ ← write (msgq_queue msgq) queue;
      match queue with
      | None => msgq_create_cleanup msgq
      | Some _ =>
          _ ← write (msgq_pd msgq) params_pd;
          match params_pd with
          | Some _ => mret (Some msgq)
          | None =>
              _ ← write (msgq_pd msgq) gpd;
              match gpd with
              | None => msgq_create_cleanup msgq
              | Some _ => mret (Some msgq)
              end
          end
      end
  end.

Definition prs_msgq_destroy (msgq : loc) : prog kern unit :=
  queue ← read (msgq_queue msgq);
  _ ← mpsciq_destroy queue;
  free_block k_msgqs with_msgqs msgq.

(** The receiver's filter is offered the message: its event is taken and signalled when it
    accepts. *)
Definition msgq_offer (self : ptr) (filter msg : loc) : prog kern unit :=
  event ← prs_pal_atomic_load (filter_event filter);
  match event with
  | None => mret tt
  | Some _ =>
      function ← read (filter_function filter);
      is_match ← match function with
                 | Some function =>
                     userdata ← read (filter_userdata filter);
                     msg_filter function userdata msg
                 | None => mret true
                 end;
      if (is_match : bool) then
        event ← prs_pal_atomic_exchange (filter_event filter) None;
        match event with
        | Some event => _ ← prs_event_signal self event PRS_MSGQ_EVENT_TYPE_SEND; mret tt
        | None => mret tt
        end
      else mret tt
  end.

Definition prs_msgq_send (self : ptr) (msgq msg : loc) : prog kern unit :=
  queue ← read (msgq_queue msgq);
  _ ← mpsciq_push queue msg;
  id ← prs_pal_atomic_load (msgq_filter_id msgq);
  filter ← (if decide (id = PRS_PD_ID_INVALID) then mret None else gpd_lock id);
  match filter with
  | None => mret tt
  | Some filter =>
      _ ← msgq_offer self filter msg;
      prs_msgq_filter_unref msgq filter
  end.

Definition prs_msgq_filter_reset (msgq filter : loc) : prog kern unit :=
  _ ← prs_pal_atomic_exchange (msgq_filter_id msgq) PRS_PD_ID_INVALID;
  prs_msgq_filter_unref msgq filter.

Definition prs_msgq_filter_set (msgq filter : loc) : prog kern unit :=
  id ← read (filter_id filter);
  prs_pal_atomic_store (msgq_filter_id msgq) id.

(** The loop of [prs_msgq_search] over the nodes from [node] on; it returns the message
    found and the node before the one where it stopped. *)
Fixpoint msgq_search_loop (nodes : list loc) (prev : ptr) (userdata function : ptr) : prog kern (ptr * ptr) :=
  match nodes with
  | [] => mret (None, prev)
  | msg :: nodes =>
      is_match ← match function with
                 | Some function => msg_filter function userdata msg
                 | None => mret true
                 end;
      if (is_match : bool) then mret (Some msg, prev) else msgq_search_loop nodes (Some msg) userdata function
  end.

(** Returns the message and the new hint. *)
Definition prs_msgq_search (msgq : loc) (userdata function hint : ptr) : prog kern (ptr * ptr) :=
  queue ← read (msgq_queue msgq);
  nodes ← mpsciq_walk queue;
  nodes ← match hint with
          | None => mret nodes
          | Some node =>
              match list_find (eq node) nodes with
              | Some (i, _) => mret (drop i nodes)
              | None => pure Undef
              end
          end;
  '(result, prev) ← msgq_search_loop nodes (head nodes) userdata function;
  mret (result, match result with None => prev | Some _ => hint end).

(** One round of waiting: the message, if any, whether one was expected, the hint and the
    ticks that are left. *)
Definition msgq_wait (fuel : nat) (self : ptr) (msgq : loc) (userdata : ptr) (function : ptr) (filter event : loc)
    (hint : ptr) (wait_left : Z) (timeout_active : bool) : prog kern (ptr * bool * ptr * Z) :=
  timer_entry ← (if timeout_active then
                   timer ← prs_clock_timer;
                   timer ← nonnull timer;
                   entry ← prs_timer_queue timer event PRS_MSGQ_EVENT_TYPE_TIMEOUT wait_left;
                   mret (Some entry)
                 else mret None);
  _ ← prs_sched_schedule fuel self;
  wait_left ← match timer_entry with
              | Some entry =>
                  now ← prs_clock_get;
                  start ← prs_timer_get_start entry;
                  let diff := (now - start) mod 2 ^ 32 in
                  timer ← prs_clock_timer;
                  timer ← nonnull timer;
                  _ ← prs_timer_cancel timer entry;
                  mret (if wait_left <=? diff then 0 else wait_left - diff)
              | None => mret wait_left
              end;
  task ← prs_task_current self;
  task ← nonnull task;
  event_type ← prs_task_get_last_unblock_cause task;
  '(msg, msg_expected, hint) ←
    (if event_type =? PRS_MSGQ_EVENT_TYPE_SEND then
       '(msg, hint) ← prs_msgq_search msgq userdata function hint;
       mret (msg, true, hint)
     else mret (None, false, hint));
  _ ← prs_msgq_free_event self filter event;
  mret (msg, msg_expected, hint, wait_left).

(** The loop of [prs_msgq_recv_internal], which is entered without a message. *)
Fixpoint msgq_recv_loop (fuel : nat) (self : ptr) (msgq : loc) (userdata : ptr) (userdata_size : Z) (function : ptr)
    (hint : ptr) (wait_left : Z) (use_timeout : bool) : prog kern ptr :=
  match fuel with
  | O => Spin
  | S fuel' =>
      let timeout_active := use_timeout && (0 <? wait_left) in
      if use_timeout && negb timeout_active then mret None
      else
        filter ← prs_msgq_filter_create msgq userdata userdata_size function;
        event ← prs_msgq_alloc_event self filter (if timeout_active then 2 else 1);
        _ ← prs_msgq_filter_set msgq filter;
        '(msg, hint) ← prs_msgq_search msgq userdata function hint;
        '(msg, msg_expected, hint, wait_left) ←
          match msg with
          | Some _ =>
              already_signaled ← prs_msgq_free_event self filter event;
              _ ← (if (already_signaled : bool) then prs_sched_schedule fuel self else mret tt);
              mret (msg, true, hint, wait_left)
          | None => msgq_wait fuel self msgq userdata function filter event hint wait_left timeout_active
          end;
        _ ← prs_msgq_filter_reset msgq filter;
        match msg with
        | Some _ => mret msg
        | None =>
            if (msg_expected : bool)
            then msgq_recv_loop fuel' self msgq userdata userdata_size function hint wait_left use_timeout
            else mret None
        end
  end.

Definition prs_msgq_recv_internal (fuel : nat) (self : ptr) (msgq : loc) (userdata : ptr) (userdata_size : Z)
    (function : ptr) (timeout : Z) (use_timeout : bool) : prog kern ptr :=
  '(msg, hint) ← prs_msgq_search msgq userdata function None;
  msg ← match msg with
        | Some _ => mret msg
        | None => msgq_recv_loop fuel self msgq userdata userdata_size function hint timeout use_timeout
        end;
  match msg with
  | Some node =>
      queue ← read (msgq_queue msgq);
      _ ← mpsciq_remove queue node;
      mret msg
  | None => mret msg
  end.

Definition prs_msgq_recv (fuel : nat) (self : ptr) (msgq : loc) : prog kern ptr :=
  prs_msgq_recv_internal fuel self msgq None 0 None 0 false.

Definition prs_msgq_recv_timeout (fuel : nat) (self : ptr) (msgq : loc) (timeout : Z) : prog kern ptr :=
  prs_msgq_recv_internal fuel self msgq None 0 None timeout true.

Definition prs_msgq_recv_filter (fuel : nat) (self : ptr) (msgq : loc) (userdata : ptr) (userdata_size : Z)
    (function : loc) : prog kern ptr :=
  prs_msgq_recv_internal fuel self msgq userdata userdata_size (Some function) 0 false.

Definition prs_msgq_recv_filter_timeout (fuel : nat) (self : ptr) (msgq : loc) (userdata : ptr) (userdata_size : Z)
    (function : loc) (timeout : Z) : prog kern ptr :=
  prs_msgq_recv_internal fuel self msgq userdata userdata_size (Some function) timeout true.
End msgq.

(** ** Receiving without waiting *)

Section search.
Context `{!ObjectFree, !Pit, !MsgFilters} (userdata function : ptr) (accepts : loc → bool) (c : kern).

(** What the filter answers on the messages [xs], without changing anything. *)
Definition answers (xs : list loc) : Prop :=
  ∀ m, m ∈ xs →
    match function with
    | None => accepts m = true
    | Some f => run (msg_filter f userdata m) c = Ret (Some (accepts m), c)
    end.

Lemma run_filter xs m :
  answers xs → m ∈ xs →
  run (match function with Some f => msg_filter f userdata m | None => mret true end) c = Ret (Some (accepts m), c).
Proof using Type. intros Ha Hm. specialize (Ha m Hm). destruct function; [done|]. by rewrite Ha. Qed.

Lemma run_search_found pre m post prev :
  answers (pre ++ m :: post) → Forall (λ x, accepts x = false) pre → accepts m = true →
  ∃ prev', run (msgq_search_loop (pre ++ m :: post) prev userdata function) c = Ret (Some (Some m, prev'), c).
Proof using Type.
  intros Ha Hpre Hm. revert prev. induction Hpre as [|x pre Hx Hpre IH]; intros prev.
  - exists prev. cbn [app msgq_search_loop].
    eapply run_seq; [apply (run_filter _ _ Ha); by left|]. by rewrite Hm.
  - destruct (IH (λ y Hy, Ha y (list_elem_of_further _ _ _ Hy)) (Some x)) as [prev' Hrun]. exists prev'.
    cbn [app msgq_search_loop].
    eapply run_seq; [apply (run_filter _ _ Ha); by left|]. by rewrite Hx.
Qed.

Lemma run_search_none xs prev :
  answers xs → Forall (λ x, accepts x = false) xs →
  ∃ prev', run (msgq_search_loop xs prev userdata function) c = Ret (Some (None, prev'), c).
Proof using Type.
  intros Ha Hxs. revert prev. induction Hxs as [|x xs Hx Hxs IH]; intros prev.
  - by exists prev.
  - destruct (IH (λ y Hy, Ha y (list_elem_of_further _ _ _ Hy)) (Some x)) as [prev' Hrun]. exists prev'.
    cbn [msgq_search_loop]. eapply run_seq; [apply (run_filter _ _ Ha); by left|]. by rewrite Hx.
Qed.

Context (msgq q : loc) (e : prs_msgq) (xs : list loc).
Context (He : k_msgqs c !! msgq = Some e) (Hq : mq_queue e = Some q) (Hxs : k_queues c !! q = Some xs) (Ha : answers xs).

Lemma run_search R :
  (∃ prev, run (msgq_search_loop xs (head xs) userdata function) c = Ret (Some (R, prev), c)) →
  ∃ hint, run (prs_msgq_search msgq userdata function None) c = Ret (Some (R, hint), c).
Proof using He Hq Hxs.
  intros [prev Hrun]. exists (match R with None => prev | Some _ => None end).
  unfold prs_msgq_search. eapply run_seq; [apply run_load; eapply field_get; exact He|]. rewrite Hq.
  eapply run_seq; [eapply run_seq; [apply run_nonnull|apply run_load; eapply field_get; exact Hxs]|].
  eapply run_seq; [reflexivity|]. eapply run_seq; [exact Hrun|]. by destruct R.
Qed.

(** The oldest message that is accepted is taken off the queue, at once. *)
Lemma run_recv_found fuel self size timeout use_timeout pre m post :
  xs = pre ++ m :: post → Forall (λ x, accepts x = false) pre → accepts m = true → m ∉ pre →
  run (prs_msgq_recv_internal fuel self msgq userdata size function timeout use_timeout) c =
    Ret (Some (Some m), with_queues (<[q := pre ++ post]> (k_queues c)) c).
Proof using All.
  intros Hsplit Hpre Hm Hnot. unfold prs_msgq_recv_internal.
  destruct (run_search (Some m)) as [hint Hs]; [subst xs; by apply run_search_found|].
  eapply run_seq; [exact Hs|]. eapply run_seq; [reflexivity|].
  eapply run_seq; [apply run_load; eapply field_get; exact He|]. rewrite Hq.
  eapply run_seq; [eapply run_seq; [apply run_nonnull|eapply run_seq; [eapply run_update_field; [reflexivity|exact Hxs]|reflexivity]]|].
  subst xs. cbn. by rewrite drop_ref_split.
Qed.

(** With a timeout that is over nothing is waited for. *)
Lemma run_recv_none fuel self size timeout :
  Forall (λ x, accepts x = false) xs → timeout ≤ 0 →
  run (prs_msgq_recv_internal (S fuel) self msgq userdata size function timeout true) c = Ret (Some None, c).
Proof using All.
  intros Hnone Ht. unfold prs_msgq_recv_internal.
  destruct (run_search None) as [hint Hs]; [by apply run_search_none|].
  eapply run_seq; [exact Hs|]. eapply (run_seq _ _ _ None c); [|reflexivity].
  cbn [msgq_recv_loop]. by rewrite (proj2 (Z.ltb_ge _ _) Ht).
Qed.
End search.

(** ** Receiving with a wait

    A receiver that finds no message publishes a filter, with an event on which it blocks,
    looks again and lets its worker schedule.  The sender whose message the filter accepts
    takes the event and unblocks the task; the call then searches the queue once more, from
    the last node that it saw. *)

Lemma block_token_cause token : PRS_TASK_GET_CAUSE (block_token token) = 0.
Proof.
  rewrite get_cause_mod. unfold block_token. rewrite set_token_sum. set (n := next_count token mod 2 ^ 52).
  change (PRS_TASK_STATE_BLOCKED mod 16) with 3. change (0 mod 256) with 0.
  replace (n * 4096 + 0 * 16 + 3) with ((n * 256) * 16 + 3) by lia.
  rewrite Z.div_add_l, Z.add_0_r by lia. by apply Z.mod_mul.
Qed.

Section hint.
Context `{!ObjectFree, !Pit, !MsgFilters} (userdata function : ptr) (accepts : loc → bool) (c : kern).
Context (msgq q : loc) (e : prs_msgq) (xs : list loc).
Context (He : k_msgqs c !! msgq = Some e) (Hq : mq_queue e = Some q) (Hxs : k_queues c !! q = Some xs)
  (Ha : answers userdata function accepts c xs).

Lemma search_loop_none ys prev :
  answers userdata function accepts c ys → Forall (λ x, accepts x = false) ys →
  run (msgq_search_loop ys prev userdata function) c = Ret (Some (None, match last ys with Some x => Some x | None => prev end), c).
Proof using Type.
  intros Hys Hno. revert prev. induction Hno as [|x ys Hx Hno IH]; intros prev; [done|].
  cbn [msgq_search_loop]. eapply run_seq; [apply (run_filter _ _ _ _ _ _ Hys); by left|]. rewrite Hx.
  rewrite IH by (intros y Hy; apply Hys; by right). rewrite last_cons. by destruct (last ys).
Qed.

(** A search that starts at the node [hint]: the nodes before it are passed over. *)
Lemma run_search_from pre ys hint R :
  xs = pre ++ ys → (∀ x, x ∈ pre → hint ≠ Some x) → match hint with Some x => head ys = Some x | None => pre = [] end →
  run (msgq_search_loop ys (head ys) userdata function) c = R →
  run (prs_msgq_search msgq userdata function hint) c =
    ('(r, c) ← R; match r with
                  | Some (result, prev) => Ret (Some (result, match result with None => prev | Some _ => hint end), c)
                  | None => Ret (None, c)
                  end).
Proof using He Hq Hxs.
  clear Ha accepts. intros Hsplit Hpre Hhint HR.
  unfold prs_msgq_search. eapply run_seq; [apply run_load; eapply field_get; exact He|]. rewrite Hq.
  eapply run_seq; [eapply run_seq; [apply run_nonnull|apply run_load; eapply field_get; exact Hxs]|]. cbn [id].
  apply (run_seq _ _ _ ys c).
  - subst xs. destruct hint as [h|]; [|by subst pre]. destruct ys as [|h' ys]; [done|]. injection Hhint as ->.
    assert (list_find (eq h) (pre ++ h :: ys) = Some (length pre, h)) as ->.
    { apply list_find_Some. split_and!; [by apply list_lookup_middle|done|]. intros j y Hj Hlt ->.
      rewrite lookup_app_l in Hj by done. apply (Hpre y); [by apply list_elem_of_lookup_2 in Hj|done]. }
    by rewrite drop_app_length.
  - rewrite run_bind, HR. destruct R as [[[[result prev]|] c']| |]; done.
Qed.

(** Nothing is found, and the hint is the last node. *)
Lemma run_search_last pre ys hint :
  xs = pre ++ ys → (∀ x, x ∈ pre → hint ≠ Some x) → match hint with Some x => head ys = Some x | None => pre = [] end →
  Forall (λ x, accepts x = false) ys →
  run (prs_msgq_search msgq userdata function hint) c = Ret (Some (None, last ys), c).
Proof using All.
  intros Hsplit Hpre Hhint Hno. erewrite run_search_from; [|done|done|done|apply search_loop_none; [|done]].
  - ocbn. repeat f_equal. destruct ys as [|y ys]; [done|]. rewrite last_cons. by destruct (last ys).
  - intros y Hy. apply Ha. subst xs. set_solver.
Qed.
End hint.

Lemma run_free_block {E : Type} (get : kern → gmap loc E) (put : gmap loc E → kern → kern) p e c :
  get c !! p = Some e → p ∈ heap_live (k_heap c) →
  run (free_block get put p) c =
    Ret (Some tt, put (delete p (get c)) (with_heap (Heap (heap_live (k_heap c) ∖ {[ p ]}) (heap_answers (k_heap c))) c)).
Proof. intros He Hp. unfold free_block, act. cbn [run]. rewrite He. cbn. unfold free. by rewrite decide_True. Qed.

Lemma run_gpd_unlock c i n p :
  k_gpd c !! i = Some (S n, p) →
  run (gpd_unlock i) c =
    Ret (Some (match n with O => true | S _ => false end),
         with_gpd (match n with O => delete i (k_gpd c) | S _ => <[i := (n, p)]> (k_gpd c) end) c).
Proof. intros Hi. unfold gpd_unlock, act. cbn [run]. rewrite Hi. by destruct n. Qed.

Lemma run_gpd_alloc c p i ids :
  k_gpd_ids c = Some i :: ids →
  run (gpd_alloc_and_lock p) c = Ret (Some (PRS_OK, i), with_gpd_ids ids (with_gpd (<[i := (1%nat, p)]> (k_gpd c)) c)).
Proof. intros Hi. unfold gpd_alloc_and_lock, act. cbn [run]. by rewrite Hi. Qed.

(** Two descriptions of a memory. *)
Ltac kern_eq := cbn; rewrite ?insert_insert_eq, ?delete_insert_eq; reflexivity.

Section wait.
Context `{!ObjectFree, !Pit, !MsgFilters} (fuel : nat) (w cur msgq q : loc) (e : prs_msgq).

(** The receiver asks for any message, or with [function] for those that it accepts with
    the [size] bytes at [u].  Its filter is [f], known as [i] in the directory, its event
    [x], and [y] the copy of the bytes. *)
Context (u : loc) (bytes : list Z) (size : Z) (function : ptr) (f y x : loc) (i : Z).

Definition wait_userdata : ptr := match function with Some _ => Some u | None => None end.
Definition wait_size : Z := match function with Some _ => size | None => 0 end.
Definition wait_filter (event : ptr) : prs_msgq_filter :=
  PrsMsgqFilter i event (match function with Some _ => Some y | None => None end) wait_size function.
Definition wait_copy (m : gmap loc (list Z)) : gmap loc (list Z) :=
  match function with Some _ => <[y := take (Z.to_nat size) bytes]> m | None => m end.
Definition wait_heap (h : heap) (hs : list ptr) : heap :=
  Heap ({[ x ]} ∪ match function with Some _ => {[ y ]} ∪ ({[ f ]} ∪ heap_live h) | None => {[ f ]} ∪ heap_live h end) hs.
Definition wait_answers : list ptr := match function with Some _ => [Some f; Some y; Some x] | None => [Some f; Some x] end.

(** The memory when the receiver lets its worker schedule. *)
Definition published (tk : prs_task) (ids : list (option Z)) (hs : list ptr) (c : kern) : kern :=
  with_msgqs (<[msgq := set_mq_filter_id i e]> (k_msgqs c))
    (with_filters (<[f := wait_filter (Some x)]> (k_filters c))
    (with_gpd (<[i := (1%nat, f)]> (k_gpd c)) (with_gpd_ids ids
    (with_events (<[x := PrsEvent (tk_id tk) (block_token (tk_state tk)) 2 2]> (k_events c))
    (with_tasks (<[cur := set_tk_state (block_token (tk_state tk)) tk]> (k_tasks c))
    (with_blocks (wait_copy (k_blocks c))
    (with_heap (wait_heap (k_heap c) hs) c))))))).

Section before.
Context (c : kern) (tk : prs_task) (ids : list (option Z)) (hs : list ptr).
Context (Hmq : k_msgqs c !! msgq = Some e) (Hw : wk_current_task <$> k_workers c !! w = Some (Some cur))
  (Htk : k_tasks c !! cur = Some tk) (Hids : k_gpd_ids c = Some i :: ids) (Hans : heap_answers (k_heap c) = wait_answers ++ hs)
  (Hdata : is_Some function → k_blocks c !! u = Some bytes ∧ 0 < size ≤ Z.of_nat (length bytes) ∧ u ≠ y).

(** The filter is made and known. *)
Lemma run_filter_create :
  ∃ c', run (prs_msgq_filter_create msgq wait_userdata wait_size function) c = Ret (Some f, c') ∧
    c' = with_filters (<[f := wait_filter None]> (k_filters c))
      (with_gpd (<[i := (1%nat, f)]> (k_gpd c)) (with_gpd_ids ids (with_blocks (wait_copy (k_blocks c))
      (with_heap (Heap (match function with Some _ => {[ y ]} ∪ ({[ f ]} ∪ heap_live (k_heap c)) | None => {[ f ]} ∪ heap_live (k_heap c) end)
        (Some x :: hs)) c)))).
Proof using Hdata Hans Hids.
  eexists. split; [|reflexivity]. unfold prs_msgq_filter_create.
  assert (heap_answers (k_heap c) = Some f :: tail (wait_answers ++ hs)) as Hf by (rewrite Hans; unfold wait_answers; by destruct function).
  eapply run_seq; [apply run_alloc_block, Hf|]. eapply run_seq; [reflexivity|]. eapply run_seq; [apply run_nonnull|].
  eapply run_seq; [apply run_gpd_alloc; exact Hids|]. cbv beta iota.
  eapply run_seq; [apply run_store; eapply field_set; apply lookup_insert_eq|]. eapply run_seq; [reflexivity|].
  eapply run_seq; [apply run_store; eapply field_set; apply lookup_insert_eq|].
  pose proof Hdata as Hd. unfold wait_userdata, wait_filter, wait_size, wait_copy, wait_answers in *.
  destruct function as [fn|]; cbn [app tail] in *.
  - destruct (Hd (mk_is_Some _ _ eq_refl)) as (Hu & Hsize & Hne). eapply run_seq; [|reflexivity].
    eapply run_seq; [apply run_store; eapply field_set; apply lookup_insert_eq|]. rewrite (proj2 (Z.ltb_lt 0 size)) by lia.
    eapply run_seq; [by apply run_alloc_block|].
    eapply run_seq; [apply run_store; eapply field_set; apply lookup_insert_eq|]. eapply run_seq; [reflexivity|].
    eapply run_seq; [apply run_nonnull|]. unfold copy_block. eapply run_seq; [apply run_nonnull|].
    eapply run_seq; [apply run_load; eapply field_get; cbn; rewrite lookup_insert_ne by done; exact Hu|]. cbn [id].
    rewrite (proj2 (Z.ltb_ge _ _)) by lia. eapply eq_trans; [apply run_store; eapply field_set; apply lookup_insert_eq|].
    f_equal. f_equal. clear. kern_eq.
  - eapply run_seq; [reflexivity|]. cbn [run mret prog_ret]. f_equal. f_equal. clear. kern_eq.
Qed.

(** The task is blocked on the event, and the filter is the one of the queue. *)
Lemma run_publish :
  ∃ c1 c2, run (prs_msgq_filter_create msgq wait_userdata wait_size function) c = Ret (Some f, c1) ∧
    run (prs_msgq_alloc_event (Some w) f 1) c1 = Ret (Some x, c2) ∧
    run (prs_msgq_filter_set msgq f) c2 = Ret (Some tt, published tk ids hs c).
Proof using All.
  destruct run_filter_create as (c1 & Hrun & Hc1). exists c1. eexists. split; [exact Hrun|]. subst c1. clear Hrun.
  apply fmap_Some in Hw as (we & Hwe & Hcur). split.
  - unfold prs_msgq_alloc_event. eapply run_seq; [apply run_nonnull|].
    eapply run_seq; [unfold prs_worker_get_current_task; apply run_load; eapply field_get; exact Hwe|]. rewrite <- Hcur.
    eapply run_seq; [apply run_nonnull|].
    eapply run_seq.
    { unfold prs_event_create. eapply run_seq; [by apply run_alloc_block|]. eapply run_seq; [reflexivity|].
      eapply run_seq; [apply run_nonnull|]. eapply run_seq; [apply run_get_field; exact Htk|].
      eapply run_seq; [apply run_store; eapply field_set; apply lookup_insert_eq|].
      eapply run_seq; [apply (run_block (e := tk)); exact Htk|].
      eapply run_seq; [apply run_store; eapply field_set; apply lookup_insert_eq|].
      eapply run_seq; [apply run_store; eapply field_set; apply lookup_insert_eq|].
      eapply run_seq; [apply run_store; eapply field_set; apply lookup_insert_eq|]. reflexivity. }
    eapply run_seq; [apply run_store; eapply field_set; apply lookup_insert_eq|reflexivity].
  - unfold prs_msgq_filter_set. eapply run_seq; [apply run_load; eapply field_get; apply lookup_insert_eq|].
    eapply eq_trans; [apply run_store; eapply field_set; exact Hmq|]. f_equal. f_equal.
    unfold put_token. rewrite (alter_alt_Some _ _ _ _ Htk). kern_eq.
Qed.
End before.

(** ** After the wait *)

Definition freed (l : loc) (c : kern) : kern :=
  with_heap (Heap (heap_live (k_heap c) ∖ {[ l ]}) (heap_answers (k_heap c))) c.

(** The receiver gives up its reference on the filter; [n] senders hold one still. *)
Definition given_up (n : nat) (c : kern) : kern :=
  match n with
  | S n => with_gpd (<[i := (S n, f)]> (k_gpd c)) c
  | O =>
      let c := with_gpd (delete i (k_gpd c)) c in
      let c := match function with Some _ => with_blocks (delete y (k_blocks c)) (freed y c) | None => c end in
      with_filters (delete f (k_filters c)) (freed f c)
  end.

Lemma given_up_keeps n c : k_msgqs (given_up n c) = k_msgqs c ∧ k_queues (given_up n c) = k_queues c.
Proof using Type. destruct n; [|done]. unfold given_up. by destruct function. Qed.

(** The memory after the call, when [xs] are on the queue. *)
Definition received (n : nat) (xs : list loc) (c : kern) : kern :=
  let c := with_events (delete x (k_events c)) (freed x c) in
  let c := with_msgqs (<[msgq := set_mq_filter_id PRS_PD_ID_INVALID e]> (k_msgqs c)) c in
  let c := given_up n c in
  with_queues (<[q := xs]> (k_queues c)) c.

Lemma received_workers n xs c : k_workers (received n xs c) = k_workers c.
Proof using Type. destruct n; [|done]. unfold received, given_up. by destruct function. Qed.

(** The task runs again after a sender has unblocked it: the event and the filter are its
    own, but for the [n] senders that hold the filter. *)
Record awake (id token : Z) (n : nat) (xs : list loc) (c : kern) : Prop := Awake {
  aw_worker : wk_current_task <$> k_workers c !! w = Some (Some cur);
  aw_task : ∃ tk, k_tasks c !! cur = Some tk ∧ PRS_TASK_GET_CAUSE (tk_state tk) = PRS_MSGQ_EVENT_TYPE_SEND;
  aw_object : ∃ refs ops, k_objs c !! id = Some (S refs, (cur, ops));
  aw_event : k_events c !! x = Some (PrsEvent id (block_token token) 2 1);
  aw_filter : k_filters c !! f = Some (wait_filter None);
  aw_gpd : k_gpd c !! i = Some (S n, f);
  aw_copy : is_Some function → is_Some (k_blocks c !! y);
  aw_live : x ∈ heap_live (k_heap c) ∧ f ∈ heap_live (k_heap c) ∧ f ≠ x ∧
    (is_Some function → y ∈ heap_live (k_heap c) ∧ y ≠ x ∧ y ≠ f);
  aw_msgq : k_msgqs c !! msgq = Some (set_mq_filter_id i e);
  aw_queue : k_queues c !! q = Some xs
}.

Lemma run_free_event id token n xs c :
  awake id token n xs c →
  run (prs_msgq_free_event (Some w) f x) c =
    Ret (Some true, with_events (delete x (k_events c)) (freed x c)).
Proof using Type.
  intros [Hw (tk & Htk & Hcause) (refs & ops & Hobj) Hev Hf _ _ (Hx & _) _ _].
  unfold prs_msgq_free_event. apply (run_seq _ _ _ None c).
  { eapply eq_trans; [eapply run_update_field; [reflexivity|exact Hf]|]. cbn [wait_filter fl_event set_fl_event fl_id fl_userdata fl_userdata_size fl_function].
    fold (wait_filter None). rewrite insert_id by done. clear. destruct c as []. by destruct k_mods. }
  eapply run_seq; [reflexivity|].
  assert (event_ok c x (PrsEvent id (block_token token) 2 1) cur tk refs ops) as Hok by (split; cbn; [done|lia|done..]).
  eapply run_seq; [eapply (run_signal_stale Hok (Some w) (Some cur)); [exact Hw|]|].
  - intros Heq. cbn in Heq. rewrite Heq, block_token_cause in Hcause. done.
  - unfold event_drop. rewrite Hev. reflexivity.
Qed.

Lemma run_filter_reset n c :
  k_msgqs c !! msgq = Some (set_mq_filter_id i e) → k_filters c !! f = Some (wait_filter None) → k_gpd c !! i = Some (S n, f) →
  (is_Some function → is_Some (k_blocks c !! y)) → f ∈ heap_live (k_heap c) →
  (is_Some function → y ∈ heap_live (k_heap c) ∧ y ≠ f) → (is_Some function → 0 < size) →
  run (prs_msgq_filter_reset msgq f) c =
    Ret (Some tt, given_up n (with_msgqs (<[msgq := set_mq_filter_id PRS_PD_ID_INVALID e]> (k_msgqs c)) c)).
Proof using Type.
  intros Hmq Hf Hg Hy Hlf Hly Hsize. unfold prs_msgq_filter_reset.
  eapply run_seq; [eapply run_update_field; [reflexivity|exact Hmq]|].
  match goal with |- run _ ?d = _ => set (d1 := d) end. unfold prs_msgq_filter_unref.
  eapply run_seq; [apply run_load; eapply field_get; exact Hf|].
  destruct n as [|n].
  2:{ eapply run_seq; [apply run_gpd_unlock; exact Hg|]. done. }
  eapply run_seq; [apply run_gpd_unlock; exact Hg|]. cbv iota.
  eapply run_seq; [apply run_load; eapply field_get; exact Hf|].
  unfold given_up, wait_filter, wait_size in *. cbn [fl_function fl_userdata fl_userdata_size].
  destruct function as [fn|].
  - destruct (Hy (mk_is_Some _ _ eq_refl)) as [copy Hcopy]. destruct (Hly (mk_is_Some _ _ eq_refl)) as [Hlive Hne].
    eapply run_seq.
    + eapply run_seq; [apply run_load; eapply field_get; exact Hf|]. cbn [fl_userdata_size].
      rewrite (proj2 (Z.ltb_lt _ _)) by (apply Hsize; by eexists).
      eapply run_seq; [apply run_load; eapply field_get; exact Hf|]. cbn [fl_userdata].
      eapply run_free_block; [exact Hcopy|exact Hlive].
    + eapply eq_trans; [eapply run_free_block; [exact Hf|cbn; set_solver]|]. done.
  - eapply run_seq; [reflexivity|]. eapply eq_trans; [eapply run_free_block; [exact Hf|exact Hlf]|]. done.
Qed.
Section loop.
Context (c : kern) (tk : prs_task) (ids : list (option Z)) (hs : list ptr) (xs : list loc) (accepts : loc → bool).
Context (Hmq : k_msgqs c !! msgq = Some e) (Hw : wk_current_task <$> k_workers c !! w = Some (Some cur))
  (Htk : k_tasks c !! cur = Some tk) (Hids : k_gpd_ids c = Some i :: ids) (Hans : heap_answers (k_heap c) = wait_answers ++ hs)
  (Hdata : is_Some function → k_blocks c !! u = Some bytes ∧ 0 < size ≤ Z.of_nat (length bytes) ∧ u ≠ y).
Context (Hq : mq_queue e = Some q) (Hxs : k_queues c !! q = Some xs) (Hnd : NoDup xs) (Hnone : Forall (λ x, accepts x = false) xs)
  (Ha : answers wait_userdata function accepts c xs)
  (Hpub : answers wait_userdata function accepts (published tk ids hs c) xs).

(** The search when the task runs again. *)
Lemma run_search_again accepts' c' pre m post e' :
  k_msgqs c' !! msgq = Some e' → mq_queue e' = Some q → k_queues c' !! q = Some (xs ++ pre ++ m :: post) →
  answers wait_userdata function accepts' c' (xs ++ pre ++ m :: post) →
  Forall (λ x, accepts' x = false) (xs ++ pre) → accepts' m = true →
  run (prs_msgq_search msgq wait_userdata function (last xs)) c' = Ret (Some (Some m, last xs), c').
Proof using Hnd.
  intros He' Hq' Hys Ha' Hno Hm. clear Hpub Ha Hnone Hxs. destruct xs as [|h xs' _] using rev_ind.
  - cbn [app last] in *. destruct (run_search_found _ _ _ _ pre m post (head (pre ++ m :: post)) Ha' Hno Hm) as [prev Hrun].
    erewrite (run_search_from _ _ _ _ _ _ _ He' Hq' Hys [] (pre ++ m :: post)); [|done..|exact Hrun]. done.
  - rewrite last_snoc. rewrite <- !app_assoc in *. cbn [app] in *.
    apply Forall_app in Hno as [_ Hno].
    destruct (run_search_found wait_userdata function accepts' c' (h :: pre) m post (Some h)) as [prev Hrun];
      [|done..|].
    { intros z Hz. apply Ha'. apply elem_of_app. by right. }
    erewrite (run_search_from _ _ _ _ _ _ _ He' Hq' Hys xs' (h :: pre ++ m :: post)); [|done| |done|exact Hrun]; [done|].
    intros z Hz [= ->]. apply NoDup_app in Hnd as (_ & Hdis & _). apply (Hdis _ Hz). by left.
Qed.

Lemma pauses_recv timeout :
  ∃ r, pauses (prs_sched_schedule (S fuel) (Some w))
      (prs_msgq_recv_internal (S fuel) (Some w) msgq wait_userdata wait_size function timeout false) c (published tk ids hs c) r ∧
    ∀ c' n pre m post accepts', awake (tk_id tk) (tk_state tk) n (xs ++ pre ++ m :: post) c' →
      answers wait_userdata function accepts' c' (xs ++ pre ++ m :: post) →
      Forall (λ x, accepts' x = false) (xs ++ pre) → accepts' m = true → m ∉ xs ++ pre →
      r tt c' = Ret (Some (Some m), received n (xs ++ pre ++ post) c').
Proof using All.
  pose proof (run_search_last wait_userdata function accepts c msgq q e xs Hmq Hq Hxs Ha [] xs None eq_refl) as Hsearch1.
  destruct (run_publish c tk ids hs Hmq Hw Htk Hids Hans Hdata) as (c1 & c2 & Hcreate & Halloc & Hset).
  assert (run (prs_msgq_search msgq wait_userdata function (last xs)) (published tk ids hs c) = Ret (Some (None, last xs), published tk ids hs c))
    as Hsearch2.
  { destruct xs as [|h xs' _] using rev_ind.
    - apply (run_search_last wait_userdata function accepts (published tk ids hs c) msgq q (set_mq_filter_id i e) [] (lookup_insert_eq _ _ _) Hq Hxs Hpub [] []); [done| |done..].
      by intros ? ?%not_elem_of_nil.
    - rewrite last_snoc.
      apply (run_search_last wait_userdata function accepts (published tk ids hs c) msgq q (set_mq_filter_id i e) _ (lookup_insert_eq _ _ _) Hq Hxs Hpub xs' [h]); [done| |done|].
      + intros z Hz [= ->]. apply NoDup_app in Hnd as (_ & Hdis & _). apply (Hdis _ Hz). by left.
      + by apply Forall_app in Hnone as [_ Hnone]. }
  eexists. split.
  - unfold prs_msgq_recv_internal. eapply pauses_seq; [apply Hsearch1; [by intros ? ?%not_elem_of_nil|done|done]|]. cbv beta iota.
    eapply pauses_bind. cbn [msgq_recv_loop andb negb].
    eapply pauses_seq; [exact Hcreate|]. eapply pauses_seq; [exact Halloc|]. eapply pauses_seq; [exact Hset|].
    eapply pauses_seq; [exact Hsearch2|]. cbv beta iota.
    eapply pauses_bind. unfold msgq_wait. eapply pauses_seq; [reflexivity|]. cbv beta iota.
    eapply pauses_bind, pauses_here.
  - intros c' n pre m post accepts' Haw Ha' Hno Hm Hnot. pose proof Haw as [Hw' (tk' & Htk' & Hcause) _ _ _ _ _ _ Hmq' Hxs'].
    set (c3 := with_events (delete x (k_events c')) (freed x c')).
    assert (run (prs_msgq_filter_reset msgq f) c3 =
      Ret (Some tt, given_up n (with_msgqs (<[msgq := set_mq_filter_id PRS_PD_ID_INVALID e]> (k_msgqs c3)) c3))) as Hreset.
    { destruct Haw as [_ _ _ _ Hf Hg Hy (Hlx & Hlf & Hne & Hly) _ _]. apply run_filter_reset; [done..| | |].
      - cbn. set_solver.
      - intros Hfn. destruct (Hly Hfn) as (? & ? & ?). cbn. set_solver.
      - intros Hfn. destruct (Hdata Hfn) as (_ & ? & _). lia. }
    eapply rest_seq; [eapply rest_seq; [eapply rest_seq; [reflexivity|]|]|].
    + cbv beta. eapply run_seq; [reflexivity|]. eapply run_seq; [apply run_current; exact Hw'|]. eapply run_seq; [apply run_nonnull|].
      eapply run_seq; [unfold prs_task_get_last_unblock_cause; eapply run_seq; [apply run_load; eapply field_get; exact Htk'|reflexivity]|].
      rewrite Hcause. eapply run_seq.
      * eapply run_seq; [exact (run_search_again accepts' c' pre m post _ Hmq' Hq Hxs' Ha' Hno Hm)|reflexivity].
      * cbv beta iota. eapply run_seq; [by eapply run_free_event|reflexivity].
    + cbv beta iota. eapply run_seq; [exact Hreset|]. reflexivity.
    + cbv beta iota. destruct (given_up_keeps n (with_msgqs (<[msgq := set_mq_filter_id PRS_PD_ID_INVALID e]> (k_msgqs c3)) c3)) as [Hkm Hkq].
      eapply run_seq; [apply run_load; eapply field_get; rewrite Hkm; apply lookup_insert_eq|]. cbn [mq_queue set_mq_filter_id]. rewrite Hq.
      eapply run_seq; [eapply run_seq; [apply run_nonnull|eapply run_seq; [eapply run_update_field; [reflexivity|rewrite Hkq; exact Hxs']|reflexivity]]|].
      cbn [id run mret prog_ret]. rewrite app_assoc, drop_ref_split, <- app_assoc by done. done.
Qed.
End loop.
End wait.

(** ** Sending *)

Lemma with_gpd_same c : with_gpd (k_gpd c) c = c.
Proof. destruct c. match goal with m : mods |- _ => by destruct m end. Qed.

Section send.
Context `{!ObjectFree, !Pit, !MsgFilters} (self : ptr) (msgq msg q : loc) (c : kern) (e : prs_msgq) (xs : list loc).
Context (He : k_msgqs c !! msgq = Some e) (Hq : mq_queue e = Some q) (Hxs : k_queues c !! q = Some xs).

(** The message is on the queue. *)
Definition pushed : kern := with_queues (<[q := xs ++ [msg]]> (k_queues c)) c.

Lemma run_push {B : Type} (k : unit → prog kern B) R :
  run (k tt) pushed = R → run (queue ← read (msgq_queue msgq); r ← mpsciq_push queue msg; k r) c = R.
Proof using He Hq Hxs.
  intros HR. eapply run_seq; [apply run_load; eapply field_get; exact He|]. rewrite Hq.
  eapply run_seq; [|exact HR]. eapply run_seq; [apply run_nonnull|].
  eapply run_seq; [eapply run_update_field; [reflexivity|exact Hxs]|done].
Qed.

Lemma run_gpd_lock c0 id n f :
  k_gpd c0 !! id = Some (n, f) → run (gpd_lock id) c0 = Ret (Some (Some f), with_gpd (<[id := (S n, f)]> (k_gpd c0)) c0).
Proof using Type. intros Hg. unfold gpd_lock, act. cbn [run]. by rewrite Hg. Qed.

(** The last reference stays with the receiver. *)
Lemma run_unref c0 f fe n :
  k_filters c0 !! f = Some fe → k_gpd c0 !! fl_id fe = Some (S (S n), f) →
  run (prs_msgq_filter_unref msgq f) c0 = Ret (Some tt, with_gpd (<[fl_id fe := (S n, f)]> (k_gpd c0)) c0).
Proof using Type.
  intros Hf Hg. unfold prs_msgq_filter_unref. eapply run_seq; [apply run_load; eapply field_get; exact Hf|].
  eapply run_seq; [unfold gpd_unlock, act; cbn [run]; rewrite Hg; reflexivity|]. done.
Qed.

Context (n : nat) (f : loc) (fe : prs_msgq_filter).
Context (Hf : k_filters c !! f = Some fe) (Hid : fl_id fe = mq_filter_id e) (Hvalid : mq_filter_id e ≠ PRS_PD_ID_INVALID)
  (Hg : k_gpd c !! mq_filter_id e = Some (S n, f)).

Lemma unref_restores c0 :
  k_filters c0 !! f = Some fe ∨ k_filters c0 !! f = Some (set_fl_event None fe) →
  k_gpd c0 = <[mq_filter_id e := (S (S n), f)]> (k_gpd c) →
  run (prs_msgq_filter_unref msgq f) c0 = Ret (Some tt, with_gpd (k_gpd c) c0).
Proof using Hid Hg.
  intros Hf0 Hg0.
  assert (∃ fe0, k_filters c0 !! f = Some fe0 ∧ fl_id fe0 = mq_filter_id e) as (fe0 & Hfe0 & Hid0).
  { destruct Hf0 as [Hf0|Hf0]; eexists; split; [exact Hf0|exact Hid|exact Hf0|exact Hid]. }
  rewrite (run_unref c0 f fe0 n Hfe0).
  - rewrite Hid0, Hg0, insert_insert_eq, insert_id by done. done.
  - rewrite Hid0, Hg0. apply lookup_insert_eq.
Qed.
End send.

(** The event of a filter is signalled by the message [msg] that it accepts. *)
Definition filter_accepts `{!MsgFilters} (fe : prs_msgq_filter) (msg : loc) (c : kern) (accepted : bool) : Prop :=
  match fl_function fe with
  | None => accepted = true
  | Some function => run (msg_filter function (fl_userdata fe) msg) c = Ret (Some accepted, c)
  end.

Lemma run_offer_none `{!ObjectFree, !Pit, !MsgFilters} self f fe msg c :
  k_filters c !! f = Some fe → fl_event fe = None → run (msgq_offer self f msg) c = Ret (Some tt, c).
Proof.
  intros Hf Hev. unfold msgq_offer. eapply run_seq; [apply run_load; eapply field_get; exact Hf|]. by rewrite Hev.
Qed.

Lemma run_offer `{!ObjectFree, !Pit, !MsgFilters} self f fe msg c event accepted :
  k_filters c !! f = Some fe → fl_event fe = Some event → filter_accepts fe msg c accepted →
  run (msgq_offer self f msg) c =
    if accepted
    then run (_ ← prs_event_signal self event PRS_MSGQ_EVENT_TYPE_SEND; mret tt)
           (with_filters (<[f := set_fl_event None fe]> (k_filters c)) c)
    else Ret (Some tt, c).
Proof.
  intros Hf Hev Hacc. unfold msgq_offer. eapply run_seq; [apply run_load; eapply field_get; exact Hf|]. rewrite Hev.
  eapply run_seq; [apply run_load; eapply field_get; exact Hf|].
  eapply (run_seq _ _ _ accepted c).
  - unfold filter_accepts in Hacc. destruct (fl_function fe) as [fn|]; [|by rewrite Hacc].
    eapply run_seq; [apply run_load; eapply field_get; exact Hf|exact Hacc].
  - destruct accepted; [|done]. eapply run_seq; [eapply run_update_field; [reflexivity|exact Hf]|]. by rewrite Hev.
Qed.

Lemma run_filter_id (msgq : loc) (e : prs_msgq) c0 (k : Z → prog kern unit) R :
  k_msgqs c0 !! msgq = Some e → run (k (mq_filter_id e)) c0 = R →
  run (id ← prs_pal_atomic_load (msgq_filter_id msgq); k id) c0 = R.
Proof. intros He HR. eapply run_seq; [apply run_load; eapply field_get; exact He|exact HR]. Qed.

(** Without a filter the message is pushed, and that is all. *)
Lemma run_send_idle `{!ObjectFree, !Pit, !MsgFilters} self msgq msg c e q xs :
  k_msgqs c !! msgq = Some e → mq_queue e = Some q → k_queues c !! q = Some xs →
  mq_filter_id e = PRS_PD_ID_INVALID ∨ k_gpd c !! mq_filter_id e = None →
  run (prs_msgq_send self msgq msg) c = Ret (Some tt, pushed msg q c xs).
Proof.
  intros He Hq Hxs Hno. unfold prs_msgq_send. apply (run_push msgq msg q c e xs He Hq Hxs).
  apply (run_filter_id msgq e); [exact He|]. apply (run_seq _ _ _ None (pushed msg q c xs)); [|reflexivity].
  case_decide as Hd; [done|]. destruct Hno as [|Hno]; [done|]. unfold gpd_lock, act. cbn [run].
  change (k_gpd (pushed msg q c xs)) with (k_gpd c). by rewrite Hno.
Qed.

(** C11: [prs_msgq_send] puts the message at the end of the queue.  Nothing else happens
    when the receiver has no filter, when the filter is gone from the directory, when its
    event was taken already, or when it rejects the message; the reference that the sender
    takes on the filter is given back.  When the filter accepts the message the event is
    taken out of it, so that no other sender finds it, and signalled. *)
Theorem msgq_send_exact `{!ObjectFree, !Pit, !MsgFilters} self msgq msg c e q xs :
  k_msgqs c !! msgq = Some e → mq_queue e = Some q → k_queues c !! q = Some xs →
  let c1 := pushed msg q c xs in
  (mq_filter_id e = PRS_PD_ID_INVALID ∨ k_gpd c !! mq_filter_id e = None →
    run (prs_msgq_send self msgq msg) c = Ret (Some tt, c1)) ∧
  (∀ n f fe, mq_filter_id e ≠ PRS_PD_ID_INVALID → k_gpd c !! mq_filter_id e = Some (S n, f) →
    k_filters c !! f = Some fe → fl_id fe = mq_filter_id e →
    (fl_event fe = None → run (prs_msgq_send self msgq msg) c = Ret (Some tt, c1)) ∧
    let c2 := with_gpd (<[mq_filter_id e := (S (S n), f)]> (k_gpd c)) c1 in
    ∀ event accepted, fl_event fe = Some event → filter_accepts fe msg c2 accepted →
      (accepted = false → run (prs_msgq_send self msgq msg) c = Ret (Some tt, c1)) ∧
      let c3 := with_filters (<[f := set_fl_event None fe]> (k_filters c)) c2 in
      ∀ st c4, accepted = true →
        run (prs_event_signal self event PRS_MSGQ_EVENT_TYPE_SEND) c3 = Ret (Some st, c4) →
        k_gpd c4 = k_gpd c3 → k_filters c4 = k_filters c3 →
        run (prs_msgq_send self msgq msg) c = Ret (Some tt, with_gpd (k_gpd c) c4)).
Proof.
  intros He Hq Hxs c1.
  split; [intros Hno; by apply (run_send_idle self msgq msg c e q xs)|].
  intros n f fe Hv Hg Hf Hid.
  set (c2 := with_gpd (<[mq_filter_id e := (S (S n), f)]> (k_gpd c)) c1).
  assert (∀ c4, run (msgq_offer self f msg) c2 = Ret (Some tt, c4) → k_gpd c4 = k_gpd c2 →
    k_filters c4 !! f = Some fe ∨ k_filters c4 !! f = Some (set_fl_event None fe) →
    run (prs_msgq_send self msgq msg) c = Ret (Some tt, with_gpd (k_gpd c) c4)) as Hsend.
  { intros c4 Hoffer Hg4 Hf4. unfold prs_msgq_send. apply (run_push msgq msg q c e xs He Hq Hxs).
    apply (run_filter_id msgq e); [exact He|].
    apply (run_seq _ _ _ (Some f) c2); [rewrite decide_False by done; exact (run_gpd_lock c1 (mq_filter_id e) (S n) f Hg)|].
    eapply run_seq; [exact Hoffer|]. by apply (unref_restores msgq c e n f fe Hid Hg c4). }
  assert (run (msgq_offer self f msg) c2 = Ret (Some tt, c2) → run (prs_msgq_send self msgq msg) c = Ret (Some tt, c1))
    as Hnothing.
  { intros Hoffer. rewrite (Hsend c2 Hoffer eq_refl (or_introl Hf)). do 2 f_equal. exact (with_gpd_same c1). }
  split; [|intros c2' event accepted Hev Hacc; split].
  - intros Hev. apply Hnothing. apply (run_offer_none self f fe msg c2 Hf Hev).
  - intros ->. apply Hnothing. by apply (run_offer self f fe msg c2 event false Hf Hev Hacc).
  - intros c3 st c4 -> Hsig Hg4 Hf4. apply Hsend; [|by rewrite Hg4|right; rewrite Hf4; apply lookup_insert_eq].
    rewrite (run_offer self f fe msg c2 event true Hf Hev Hacc). fold c3.
    eapply run_seq; [exact Hsig|done].
Qed.

(** The task 10 waits for a message. *)
Definition demo_msgq_kern : kern :=
  with_msgqs {[ 40%positive := PrsMsgq (Some 41%positive) (Some 44%positive) 50 ]}
    (with_queues {[ 8%positive := []; 9%positive := []; 41%positive := [45%positive] ]}
    (with_filters {[ 42%positive := PrsMsgqFilter 50 (Some 21%positive) None 0 None ]}
    (with_gpd {[ 50 := (1%nat, 42%positive) ]}
    (with_events {[ 21%positive := PrsEvent 7 4097 2 2 ]} demo_sem_kern)))).

Lemma msgq_send_exact_witness :
  let free : ObjectFree := λ _ _, mret tt in
  let pit : Pit := {| prs_pal_pit_create := λ _ _, mret None; prs_pal_pit_destroy := λ _, mret tt |} in
  let filters : MsgFilters := λ _ _ _, mret true in
  ∃ c', run (prs_msgq_send None 40 43) demo_msgq_kern = Ret (Some tt, c') ∧
    k_queues c' !! 41%positive = Some [45%positive; 43%positive] ∧
    fl_event <$> k_filters c' !! 42%positive = Some None ∧ k_gpd c' !! 50 = Some (1%nat, 42%positive) ∧
    PRS_TASK_GET_STATE <$> token_of c' 10%positive = Some (state_code PRS_TASK_STATE_READY).
Proof.
  intros free pit filters.
  destruct (msgq_send_exact None 40 43 demo_msgq_kern (PrsMsgq (Some 41%positive) (Some 44%positive) 50) 41 [45%positive]
    eq_refl eq_refl eq_refl) as [_ Hset].
  destruct (Hset 0%nat 42%positive (PrsMsgqFilter 50 (Some 21%positive) None 0 None) ltac:(discriminate) eq_refl eq_refl eq_refl)
    as [_ Hoffer].
  destruct (Hoffer 21%positive true eq_refl eq_refl) as [_ Hacc].
  set (c3 := with_filters _ _) in Hacc.
  assert (run (prs_event_signal None 21 PRS_MSGQ_EVENT_TYPE_SEND) c3 =
    Ret (Some 0, state_after (run (prs_event_signal None 21 PRS_MSGQ_EVENT_TYPE_SEND) c3))) as Hsig
    by (vm_compute; reflexivity).
  set (c4 := state_after _) in Hsig. exists (with_gpd (k_gpd demo_msgq_kern) c4). split.
  - apply (Hacc 0 c4 eq_refl Hsig); vm_compute; reflexivity.
  - vm_compute. split_and!; reflexivity.
Defined.
