(* ===== verification/Proc.v ===== *)
(** * Processes (prs/proc.c)

    The command line is split in place; the text of the loaded programs is a table of
    ranges; a process keeps a reference per object that belongs to it.  Loading a program
    is the platform's. *)

From S2P Require Import Prelude Str Heap Atomic RefDir Kern Pal Worker Task Event Timer Clock Name Sched TaskLife.

Definition PRS_MAX_PATH : Z := 256.
Definition PRS_MAX_CMDLINE : Z := 256.

(** ** The command line *)

(** The characters that matter: the terminator, a space and a double quote. *)
Definition SPACE : Z := 32.
Definition QUOTE : Z := 34.

(** [strlen(b)] *)
Fixpoint strlen (b : list Z) : outcome Z :=
  match b with
  | [] => Undef
  | ch :: b => if ch =? 0 then Ret 0 else n ← strlen b; Ret (1 + n)
  end.

(** The first pass of [prs_proc_parse_cmdline], from [p] on: the number of arguments. *)
Fixpoint cmdline_count (fuel : nat) (b : list Z) (p argc : Z) (in_quote in_arg : bool) : outcome Z :=
  match fuel with
  | O => Undef
  | S fuel =>
      ch ← load b p;
      if ch =? 0 then Ret argc
      else if ch =? SPACE then
        let in_arg := if negb in_quote && in_arg then false else in_arg in
        cmdline_count fuel b (p + 1) argc in_quote in_arg
      else
        let in_quote := if ch =? QUOTE then negb in_quote else in_quote in
        let argc := if in_arg then argc else argc + 1 in
        cmdline_count fuel b (p + 1) argc in_quote true
  end.

(** The second pass: the buffer and the table of arguments, as offsets in the buffer. *)
Fixpoint cmdline_split (fuel : nat) (b : list Z) (argv : list (option Z)) (p argc : Z) (in_quote in_arg : bool) :
    outcome (list Z * list (option Z)) :=
  match fuel with
  | O => Undef
  | S fuel =>
      ch ← load b p;
      if ch =? 0 then Ret (b, argv)
      else if ch =? SPACE then
        if negb in_quote && in_arg then
          b ← store b p 0;
          cmdline_split fuel b argv (p + 1) argc in_quote false
        else cmdline_split fuel b argv (p + 1) argc in_quote in_arg
      else
        '(b, in_quote) ← (if ch =? QUOTE then b ← store b p 0; Ret (b, negb in_quote) else Ret (b, in_quote));
        if in_arg then cmdline_split fuel b argv (p + 1) argc in_quote true
        else
          argv ← store argv argc (Some (if (in_quote : bool) then p + 1 else p));
          cmdline_split fuel b argv (p + 1) (argc + 1) in_quote true
  end.

(** A round per character is enough. *)
Definition cmdline_fuel (b : list Z) : nat := S (length b).

Definition proc_argc := field k_procs with_procs pc_argc set_pc_argc.
Definition proc_argv := field k_procs with_procs pc_argv set_pc_argv.
Definition proc_cmdline_buffer := field k_procs with_procs pc_cmdline_buffer set_pc_cmdline_buffer.

(** A table of arguments. *)
Definition argv_block (p : loc) : cell kern (list (option Z)) := field k_argvs with_argvs id (λ v _, v) p.

(** A table that could not be allocated is written through a null pointer, unless there
    is no argument. *)
Definition prs_proc_parse_cmdline (proc : loc) (cmdline : list Z) : prog kern unit :=
  n ← pure (strlen cmdline);
  let len := n + 1 in
  buffer ← alloc_block k_blocks with_blocks [];
  _ ← write (proc_cmdline_buffer proc) buffer;
  _ ← fatal_if (bool_decide (buffer = None));
  buffer ← nonnull buffer;
  _ ← write (block buffer) (take (Z.to_nat len) cmdline);
  b ← read (block buffer);
  argc ← pure (cmdline_count (cmdline_fuel b) b 0 0 false false);
  _ ← write (proc_argc proc) argc;
  argv ← alloc_block k_argvs with_argvs (replicate (Z.to_nat argc) None);
  _ ← write (proc_argv proc) argv;
  args ← match argv with Some argv => read (argv_block argv) | None => mret [] end;
  '(b, args) ← pure (cmdline_split (cmdline_fuel b) b args 0 0 false false);
  _ ← write (block buffer) b;
  match argv with Some argv => write (argv_block argv) args | None => mret tt end.

(** *** What the arguments are

    A word is a run of characters up to a space outside quotes; its argument is what comes
    before its first quote, or between its first two when it begins with one. *)

Fixpoint words (q : bool) (cur : option (list Z)) (cs : list Z) : list (list Z) :=
  match cs with
  | [] => match cur with Some w => [w] | None => [] end
  | ch :: cs =>
      if (ch =? SPACE) && negb q then
        match cur with Some w => w :: words q None cs | None => words q None cs end
      else words (if ch =? QUOTE then negb q else q) (Some (default [] cur ++ [ch])) cs
  end.

Fixpoint before (stop : Z) (cs : list Z) : list Z :=
  match cs with
  | [] => []
  | ch :: cs => if ch =? stop then [] else ch :: before stop cs
  end.

Definition word_arg (w : list Z) : list Z :=
  match w with
  | ch :: cs => if ch =? QUOTE then before QUOTE cs else before QUOTE w
  | [] => []
  end.

Definition cmdline_args (cs : list Z) : list (list Z) := word_arg <$> words false None cs.

(** The string at an offset of a buffer. *)
Definition string_at (b : list Z) (off : Z) : list Z := before 0 (drop (Z.to_nat off) b).

(** *** The passes as functions of the rest of the line *)

Fixpoint marked (q a : bool) (cs : list Z) : list Z :=
  match cs with
  | [] => []
  | ch :: cs =>
      if ch =? SPACE then
        if negb q && a then 0 :: marked q false cs else ch :: marked q a cs
      else if ch =? QUOTE then 0 :: marked (negb q) true cs
      else ch :: marked q true cs
  end.

Fixpoint starts (p : Z) (q a : bool) (cs : list Z) : list Z :=
  match cs with
  | [] => []
  | ch :: cs =>
      if ch =? SPACE then
        if negb q && a then starts (p + 1) q false cs else starts (p + 1) q a cs
      else
        let q := if ch =? QUOTE then negb q else q in
        if a then starts (p + 1) q true cs else (if q then p + 1 else p) :: starts (p + 1) q true cs
  end.

Lemma load_app (l1 l2 : list Z) x p : p = Z.of_nat (length l1) → load (l1 ++ x :: l2) p = Ret x.
Proof.
  intros ->. unfold load. rewrite (proj2 (Z.leb_le _ _)), Nat2Z.id by lia. by rewrite list_lookup_middle.
Qed.

Lemma store_app {A : Type} (l1 l2 : list A) x y p :
  p = Z.of_nat (length l1) → store (l1 ++ x :: l2) p y = Ret (l1 ++ y :: l2).
Proof.
  intros ->. unfold store. rewrite length_app. simpl.
  rewrite (proj2 (Z.leb_le _ _)), (proj2 (Z.ltb_lt _ _)), Nat2Z.id by lia. simpl.
  f_equal. rewrite insert_app_r_alt by lia. by rewrite Nat.sub_diag.
Qed.

Lemma snoc_cons {A : Type} (l1 l2 : list A) x : l1 ++ x :: l2 = (l1 ++ [x]) ++ l2.
Proof. by rewrite <- (assoc_L (++)). Qed.

Lemma length_snoc {A : Type} (l : list A) x p :
  p = Z.of_nat (length l) → p + 1 = Z.of_nat (length (l ++ [x])).
Proof. intros ->. rewrite length_app. simpl. lia. Qed.

Lemma cmdline_count_starts fuel pre cs p argc q a :
  0 ∉ cs → p = Z.of_nat (length pre) → (length cs < fuel)%nat →
  cmdline_count fuel (pre ++ cs ++ [0]) p argc q a = Ret (argc + Z.of_nat (length (starts p q a cs))).
Proof.
  revert pre cs p argc q a. induction fuel as [|fuel IH]; intros pre [|ch cs] p argc q a Hz Hp Hf; simpl in Hf; try lia.
  - cbn [cmdline_count app]. rewrite load_app by done. ocbn. cbn. f_equal. lia.
  - cbn [cmdline_count app]. rewrite load_app by done. ocbn. cbn [starts].
    apply not_elem_of_cons in Hz as [Hch Hz]. rewrite (proj2 (Z.eqb_neq ch 0)) by congruence.
    rewrite (snoc_cons pre). assert (p + 1 = Z.of_nat (length (pre ++ [ch]))) as Hp' by by apply length_snoc.
    destruct (ch =? SPACE).
    + rewrite IH; [|done|done|lia]. by destruct (negb q && a).
    + rewrite IH; [|done|done|lia]. destruct a; [done|]. cbn [length]. f_equal. lia.
Qed.

Lemma cmdline_split_marked fuel pre cs argv p argc q a n :
  0 ∉ cs → p = Z.of_nat (length pre) → argc = Z.of_nat (length argv) → (length cs < fuel)%nat →
  n = length (starts p q a cs) →
  cmdline_split fuel (pre ++ cs ++ [0]) (argv ++ replicate n None) p argc q a =
    Ret (pre ++ marked q a cs ++ [0], argv ++ (Some <$> starts p q a cs)).
Proof.
  revert pre cs argv p argc q a n.
  induction fuel as [|fuel IH]; intros pre [|ch cs] argv p argc q a n Hz Hp Hargc Hf Hn; simpl in Hf; try lia.
  - cbn [cmdline_split app]. rewrite load_app by done. ocbn. by rewrite Hn.
  - cbn [cmdline_split app]. rewrite load_app by done. ocbn. cbn [starts marked] in *.
    apply not_elem_of_cons in Hz as [Hch Hz]. rewrite (proj2 (Z.eqb_neq ch 0)) by congruence.
    assert (∀ x, p + 1 = Z.of_nat (length (pre ++ [x]))) as Hp' by (intros x; by apply length_snoc).
    destruct (ch =? SPACE).
    + destruct (negb q && a).
      * rewrite store_app by done. ocbn. rewrite (snoc_cons pre); erewrite IH by (done || lia). by rewrite <- (assoc_L (++)).
      * rewrite (snoc_cons pre); erewrite IH by (done || lia). by rewrite <- (assoc_L (++)).
    + set (q' := if ch =? QUOTE then negb q else q) in *.
      assert ((if ch =? QUOTE then b ← store (pre ++ ch :: cs ++ [0]) p 0; Ret (b, negb q)
               else Ret (pre ++ ch :: cs ++ [0], q)) =
              Ret ((pre ++ [if ch =? QUOTE then 0 else ch]) ++ cs ++ [0], q')) as ->.
      { unfold q'. rewrite <- snoc_cons. destruct (ch =? QUOTE); [by rewrite store_app|done]. }
      ocbn. assert (∀ x, (if ch =? QUOTE then 0 :: marked (negb q) true cs else ch :: marked q true cs) ++ x =
        (if ch =? QUOTE then 0 else ch) :: marked q' true cs ++ x) as Hm by (intros x; unfold q'; by destruct (ch =? QUOTE)).
      rewrite Hm. destruct a.
      * erewrite IH; [by rewrite <- (snoc_cons pre)|done|done|done|lia|done].
      * subst n. cbn [length replicate]. rewrite store_app by done. ocbn.
        rewrite (snoc_cons argv); erewrite IH; [|done|done|by apply length_snoc|lia|done]. cbn [fmap list_fmap].
        by rewrite <- (snoc_cons pre), <- (snoc_cons argv).
Qed.

(** *** The arguments are the marked words *)

(** What is left of the current word. *)
Fixpoint rest (q : bool) (cs : list Z) : list Z :=
  match cs with
  | [] => []
  | ch :: cs => if (ch =? SPACE) && negb q then [] else ch :: rest (if ch =? QUOTE then negb q else q) cs
  end.

Fixpoint after (q : bool) (cs : list Z) : list (list Z) :=
  match cs with
  | [] => []
  | ch :: cs => if (ch =? SPACE) && negb q then words false None cs else after (if ch =? QUOTE then negb q else q) cs
  end.

Lemma words_some q w cs : words q (Some w) cs = (w ++ rest q cs) :: after q cs.
Proof.
  revert q w. induction cs as [|ch cs IH]; intros q w; simpl; [by rewrite app_nil_r|].
  destruct (_ && _) eqn:E.
  - apply andb_true_iff in E as [_ Hq]. destruct q; [done|]. by rewrite app_nil_r.
  - rewrite IH. by rewrite <- (assoc_L (++)).
Qed.

Lemma before_marked q cs : 0 ∉ cs → before 0 (marked q true cs ++ [0]) = before QUOTE (rest q cs).
Proof.
  revert q. induction cs as [|ch cs IH]; intros q Hz; [done|]. apply not_elem_of_cons in Hz as [Hch Hz].
  simpl. destruct (ch =? SPACE) eqn:Es.
  - apply Z.eqb_eq in Es as ->. destruct q; [|done]. simpl. f_equal. by apply (IH true).
  - simpl. destruct (ch =? QUOTE); [done|]. simpl. rewrite (proj2 (Z.eqb_neq ch 0)) by congruence. f_equal. by apply IH.
Qed.

(** The strings at the starts, in a buffer whose beginning is [pre]. *)
Lemma starts_words pre cs p :
  0 ∉ cs → p = Z.of_nat (length pre) →
  (∀ q, string_at (pre ++ marked q true cs ++ [0]) <$> starts p q true cs = word_arg <$> after q cs) ∧
  string_at (pre ++ marked false false cs ++ [0]) <$> starts p false false cs = word_arg <$> words false None cs.
Proof.
  revert pre p. induction cs as [|ch cs IH]; intros pre p Hz Hp; [done|]. apply not_elem_of_cons in Hz as [Hch Hz].
  assert (∀ x, (∀ q, string_at (pre ++ x :: marked q true cs ++ [0]) <$> starts (p + 1) q true cs = word_arg <$> after q cs) ∧
    string_at (pre ++ x :: marked false false cs ++ [0]) <$> starts (p + 1) false false cs = word_arg <$> words false None cs) as IH'.
  { intros x. destruct (IH (pre ++ [x]) (p + 1) Hz) as [H1 H2]; [by apply length_snoc|].
    split; [intros q; specialize (H1 q)|]; by rewrite (snoc_cons pre). }
  clear IH. split.
  - intros q. simpl. destruct (ch =? SPACE) eqn:Es.
    + apply Z.eqb_eq in Es as ->. destruct q; simpl; apply IH'.
    + simpl. destruct (ch =? QUOTE); apply IH'.
  - simpl. destruct (ch =? SPACE) eqn:Es; [apply IH'|]. simpl.
    assert (∀ x l, string_at (pre ++ x :: l) p = before 0 (x :: l)) as Hat.
    { intros x l. unfold string_at. by rewrite Hp, Nat2Z.id, drop_app_length. }
    destruct (ch =? QUOTE) eqn:Eq; cbn [fmap list_fmap]; rewrite words_some; cbn [fmap list_fmap app]; f_equal.
    2, 4: apply IH'.
    + assert (∀ x l, string_at (pre ++ x :: l) (p + 1) = before 0 l) as Hat'.
      { intros x l. rewrite snoc_cons. unfold string_at. rewrite (length_snoc pre x p Hp), Nat2Z.id. by rewrite drop_app_length. }
      rewrite Hat', before_marked by done. simpl. by rewrite Eq.
    + rewrite Hat. simpl. rewrite Eq. rewrite (proj2 (Z.eqb_neq ch 0)) by congruence.
      f_equal. by apply before_marked.
Qed.

Lemma length_marked q a cs : length (marked q a cs) = length cs.
Proof.
  revert q a. induction cs as [|ch cs IH]; intros q a; simpl; [done|].
  destruct (ch =? SPACE); [destruct (negb q && a)|destruct (ch =? QUOTE)]; simpl; by rewrite IH.
Qed.

Lemma starts_range p q a cs : Forall (λ off, p ≤ off ≤ p + Z.of_nat (length cs)) (starts p q a cs).
Proof.
  revert p q a. induction cs as [|ch cs IH]; intros p q a; cbn [starts]; [done|].
  assert (∀ q a, Forall (λ off, p ≤ off ≤ p + Z.of_nat (length (ch :: cs))) (starts (p + 1) q a cs)) as IH'.
  { intros q' a'. eapply Forall_impl; [apply IH|]. intros x Hx. cbv beta in *. cbn [length]. lia. }
  destruct (ch =? SPACE); [destruct (negb q && a); apply IH'|]. cbv zeta. destruct a; [apply IH'|].
  constructor; [|apply IH']. cbn [length]. destruct (if ch =? QUOTE then negb q else q); lia.
Qed.

(** The first pass counts exactly the arguments that the second one stores. *)
Lemma passes_exact (cs : list Z) (Hz : 0 ∉ cs) :
  let b := cs ++ [0] in
  let args := cmdline_args cs in
  cmdline_count (cmdline_fuel b) b 0 0 false false = Ret (Z.of_nat (length args)) ∧
  ∃ b' offs,
    cmdline_split (cmdline_fuel b) b (replicate (length args) None) 0 0 false false = Ret (b', Some <$> offs) ∧
    length b' = length b ∧ Forall (λ off, 0 ≤ off < Z.of_nat (length b')) offs ∧
    string_at b' <$> offs = args.
Proof.
  cbv zeta. pose proof (proj2 (starts_words [] cs 0 Hz eq_refl)) as Hargs. cbn [app] in Hargs.
  assert (length (cmdline_args cs) = length (starts 0 false false cs)) as Hlen.
  { unfold cmdline_args. rewrite <- Hargs. by rewrite length_fmap. }
  assert (length cs < cmdline_fuel (cs ++ [0%Z]))%nat as Hf by (unfold cmdline_fuel; rewrite length_app; simpl; lia).
  split.
  - rewrite (cmdline_count_starts _ [] cs 0 0 false false) by done. f_equal. lia.
  - exists (marked false false cs ++ [0]), (starts 0 false false cs).
    split; [exact (cmdline_split_marked _ [] cs [] 0 0 false false _ Hz eq_refl eq_refl Hf Hlen)|].
    assert (length (marked false false cs ++ [0]) = length (cs ++ [0])) as -> by by rewrite !length_app, length_marked.
    split; [done|]. split; [|done]. eapply Forall_impl; [apply starts_range|]. intros x Hx. simpl in Hx.
    rewrite length_app. simpl. lia.
Qed.

Fixpoint strings_at (b : list Z) (args : list (option Z)) : option (list (list Z)) :=
  match args with
  | [] => Some []
  | Some off :: args => match strings_at b args with Some ss => Some (string_at b off :: ss) | None => None end
  | None :: _ => None
  end.

Lemma strings_at_all b (offs : list Z) : strings_at b (Some <$> offs) = Some (string_at b <$> offs).
Proof. induction offs as [|off offs IH]; [done|]. cbn. by rewrite IH. Qed.

(** What [prs_proc_parse_cmdline] leaves: the strings that the table of arguments points to. *)
Definition proc_args (c : kern) (proc : loc) : option (list (list Z)) :=
  e ← k_procs c !! proc;
  buffer ← pc_cmdline_buffer e;
  b ← k_blocks c !! buffer;
  argv ← pc_argv e;
  args ← k_argvs c !! argv;
  strings_at b args.

Lemma proc_args_intro c proc e buffer b argv args ss :
  k_procs c !! proc = Some e → pc_cmdline_buffer e = Some buffer → k_blocks c !! buffer = Some b →
  pc_argv e = Some argv → k_argvs c !! argv = Some args → strings_at b args = Some ss → proc_args c proc = Some ss.
Proof. intros H1 H2 H3 H4 H5 H6. unfold proc_args. rewrite H1. cbn. rewrite H2. cbn. rewrite H3. cbn. rewrite H4. cbn. by rewrite H5. Qed.

Lemma strlen_app cs junk : 0 ∉ cs → strlen (cs ++ 0 :: junk) = Ret (Z.of_nat (length cs)).
Proof.
  induction cs as [|ch cs IH]; intros Hz; [done|]. apply not_elem_of_cons in Hz as [Hch Hz]. cbn [strlen app].
  rewrite (proj2 (Z.eqb_neq ch 0)), IH by congruence || done. ocbn. f_equal. cbn [length]. lia.
Qed.

Lemma run_pure {A : Type} (m : outcome A) x c : m = Ret x → run (pure m) c = Ret (Some x, c).
Proof. intros ->. done. Qed.

(** C25: Parsing the command line of a process: whatever follows the terminator, the count
    is that of the arguments of the line (runs of characters up to a space outside quotes,
    cut at their first quote or between their first two), the table has exactly one entry
    for each, every entry points into the buffer, and the strings they point to are the
    arguments in order. *)
Theorem cmdline_parse_exact (cs junk : list Z) (proc buffer argv : loc) (hs : list ptr) (e : prs_proc) (c : kern)
  (Hz : 0 ∉ cs) (Hproc : k_procs c !! proc = Some e)
  (Hheap : heap_answers (k_heap c) = Some buffer :: Some argv :: hs) :
  ∃ c' e', run (prs_proc_parse_cmdline proc (cs ++ 0 :: junk)) c = Ret (Some tt, c') ∧
    k_procs c' !! proc = Some e' ∧ pc_argc e' = Z.of_nat (length (cmdline_args cs)) ∧
    proc_args c' proc = Some (cmdline_args cs) ∧
    ∃ b offs, k_blocks c' !! buffer = Some b ∧ k_argvs c' !! argv = Some (Some <$> offs) ∧
      length b = length (cs ++ [0]) ∧ Forall (λ off, 0 ≤ off < Z.of_nat (length b)) offs.
Proof.
  destruct (passes_exact cs Hz) as (Hcount & b' & offs & Hsplit & Hlen & Hin & Hargs).
  assert (take (Z.to_nat (Z.of_nat (length cs) + 1)) (cs ++ 0 :: junk) = cs ++ [0]) as Htake.
  { rewrite (cons_middle 0 cs junk), (assoc_L (++)). rewrite take_app_length'; [done|]. rewrite length_app. simpl. lia. }
  unfold prs_proc_parse_cmdline. eexists _, _. split.
  { eapply run_seq; [apply run_pure; by apply strlen_app|]. cbv zeta.
    eapply run_seq; [apply run_alloc_block; exact Hheap|].
    eapply run_seq; [apply run_store; eapply field_set; exact Hproc|].
    eapply run_seq; [reflexivity|].
    eapply run_seq; [reflexivity|].
    eapply run_seq; [apply run_store; eapply field_set; apply lookup_insert_eq|]. rewrite Htake.
    eapply run_seq; [apply run_load; eapply field_get; apply lookup_insert_eq|].
    eapply run_seq; [apply run_pure; exact Hcount|].
    eapply run_seq; [apply run_store; eapply field_set; apply lookup_insert_eq|].
    rewrite Nat2Z.id. eapply run_seq; [apply run_alloc_block; reflexivity|].
    eapply run_seq; [apply run_store; eapply field_set; apply lookup_insert_eq|].
    eapply run_seq; [apply run_load; eapply field_get; apply lookup_insert_eq|].
    eapply run_seq; [apply run_pure; exact Hsplit|].
    eapply run_seq; [apply run_store; eapply field_set; apply lookup_insert_eq|].
    apply run_store. eapply field_set. apply lookup_insert_eq. }
  split; [apply lookup_insert_eq|]. split; [done|]. split; [|exists b', offs; split_and!; [|apply lookup_insert_eq|done..]].
  - eapply proc_args_intro; [apply lookup_insert_eq|reflexivity| |reflexivity|apply lookup_insert_eq|].
    + apply lookup_insert_eq.
    + by rewrite <- Hargs, strings_at_all.
  - apply lookup_insert_eq.
Qed.

(** The line [a "b c"d]. *)
Definition demo_line : list Z := [97; SPACE; QUOTE; 98; SPACE; 99; QUOTE; 100].
Definition demo_proc : prs_proc := PrsProc 0 [] 0 None None None None 0 None None false.
Definition demo_proc_kern : kern :=
  with_procs {[ 1%positive := demo_proc ]} (with_heap (Heap {[ 1%positive ]} [Some 2%positive; Some 3%positive]) kern_empty).

Lemma cmdline_parse_exact_witness : ∃ c' e',
  run (prs_proc_parse_cmdline 1%positive (demo_line ++ [0])) demo_proc_kern = Ret (Some tt, c') ∧
  k_procs c' !! 1%positive = Some e' ∧ pc_argc e' = 2 ∧ proc_args c' 1%positive = Some [[97]; [98; SPACE; 99]].
Proof.
  assert (0 ∉ demo_line) as Hz by (apply (bool_decide_unpack _); by vm_compute).
  destruct (cmdline_parse_exact demo_line [] 1 2 3 [] demo_proc demo_proc_kern Hz eq_refl eq_refl)
    as (c' & e' & Hrun & He & Hargc & Hargs & _).
  exists c', e'. by split_and!.
Defined.

(** ** Loaded programs *)

(** The platform's part (pal/proc.h): loading a program, and the main program with its file
    name and command line; [None] when a program cannot be loaded. *)
Class PalProc : Type := {
  prs_pal_proc_create_main : prog kern (ptr * (list Z * list Z));
  prs_pal_proc_load : list Z → prog kern ptr;
  prs_pal_proc_destroy : loc → prog kern unit;
  prs_pal_proc_get_entry_point : loc → ptr;
  prs_pal_proc_get_base : loc → Z;
  prs_pal_proc_get_size : loc → Z
}.

(** The functions registered with [prs_proc_atexit]. *)
Class AtexitCalls : Type := atexit_call : loc → prog kern unit.

Definition s_prs_proc_data : cell kern ptr := Cell (λ c, Ret (k_proc_data c)) (λ v c, Ret (with_proc_data v c)).
Definition proc_data_list := field k_proc_datas with_proc_datas pd_list set_pd_list.
Definition range_table_count := field k_proc_datas with_proc_datas pd_range_table_count set_pd_range_table_count.
Definition range_table := field k_proc_datas with_proc_datas pd_range_table set_pd_range_table.

Definition proc_id := field k_procs with_procs pc_id set_pc_id.
Definition proc_filename := field k_procs with_procs pc_filename set_pc_filename.
Definition proc_pal_proc := field k_procs with_procs pc_pal_proc set_pc_pal_proc.
Definition proc_main_task := field k_procs with_procs pc_main_task set_pc_main_task.
Definition proc_range_table_index := field k_procs with_procs pc_range_table_index set_pc_range_table_index.
Definition proc_objects := field k_procs with_procs pc_objects set_pc_objects.
Definition proc_atexit_callbacks := field k_procs with_procs pc_atexit_callbacks set_pc_atexit_callbacks.
Definition proc_destroyed := field k_procs with_procs pc_destroyed set_pc_destroyed.

(** A field of [range_table[i]]. *)
Definition range_cell (get : Z * Z → Z) (set_ : Z → Z * Z → Z * Z) (data : loc) (i : Z) : cell kern Z :=
  Cell (λ c, t ← cell_get (range_table data) c; r ← load t i; Ret (get r))
       (λ v c, t ← cell_get (range_table data) c; r ← load t i; t ← store t i (set_ v r); cell_set (range_table data) t c).
Definition range_base : loc → Z → cell kern Z := range_cell fst (λ v r, (v, r.2)).
Definition range_size : loc → Z → cell kern Z := range_cell snd (λ v r, (r.1, v)).

(** The first free range from [i] down, or [index]; [n] ranges are left. *)
Fixpoint range_table_search (n : nat) (data : loc) (index : Z) : prog kern Z :=
  match n with
  | O => mret index
  | S n =>
      let i := Z.of_nat n in
      base ← read (range_base data i);
      if base =? 0 then mret i else range_table_search n data index
  end.

Definition prs_proc_range_table_add `{!PalProc} (proc : loc) : prog kern unit :=
  data ← read s_prs_proc_data;
  data ← nonnull data;
  count ← prs_pal_atomic_load (range_table_count data);
  index ← range_table_search (Z.to_nat count) data count;
  _ ← fatal_if (PRS_MAX_OBJECTS <=? index);
  pal_proc ← read (proc_pal_proc proc);
  pal_proc ← nonnull pal_proc;
  _ ← prs_pal_atomic_store (range_size data index) (prs_pal_proc_get_size pal_proc);
  _ ← prs_pal_atomic_store (range_base data index) (prs_pal_proc_get_base pal_proc);
  _ ← (if count <=? index then prs_pal_atomic_store (range_table_count data) (index + 1) else mret tt);
  write (proc_range_table_index proc) index.

Definition prs_proc_range_table_del (proc : loc) : prog kern unit :=
  index ← read (proc_range_table_index proc);
  _ ← fatal_if (PRS_MAX_OBJECTS <=? index);
  data ← read s_prs_proc_data;
  data ← nonnull data;
  _ ← prs_pal_atomic_store (range_base data index) 0;
  prs_pal_atomic_store (range_size data index) 0.

(** The loop of [prs_proc_is_user_text] over the ranges from [i] on, [n] of them. *)
Fixpoint is_user_text_loop (n : nat) (data : loc) (i ip : Z) : prog kern bool :=
  match n with
  | O => mret false
  | S n =>
      base ← prs_pal_atomic_load (range_base data i);
      if truthy base && (base <? ip) then
        size ← prs_pal_atomic_load (range_size data i);
        if truthy size && (ip <? u64 (base + size)) then mret true
        else is_user_text_loop n data (i + 1) ip
      else is_user_text_loop n data (i + 1) ip
  end.

Definition prs_proc_is_user_text (instr_ptr : Z) : prog kern bool :=
  data ← read s_prs_proc_data;
  data ← nonnull data;
  count ← prs_pal_atomic_load (range_table_count data);
  is_user_text_loop (Z.to_nat count) data 0 instr_ptr.

(** ** Life of a process *)

(** Each of the registered functions, the oldest first. *)
Fixpoint run_callbacks `{!AtexitCalls} (functions : list loc) : prog kern unit :=
  match functions with
  | [] => mret tt
  | function :: functions => _ ← atexit_call function; run_callbacks functions
  end.

Definition prs_proc_run_atexit_callbacks `{!AtexitCalls} (proc : loc) : prog kern unit :=
  callbacks ← read (proc_atexit_callbacks proc);
  functions ← mpscq_data callbacks;
  run_callbacks functions.

(** A field that is freed when it is not null. *)
Definition unless_null (p : ptr) (f : loc → prog kern unit) : prog kern unit :=
  match p with Some p => f p | None => mret tt end.

Definition prs_proc_object_free `{!PalProc, !AtexitCalls} (proc : loc) : prog kern unit :=
  callbacks ← read (proc_atexit_callbacks proc);
  _ ← unless_null callbacks (λ callbacks,
    _ ← prs_proc_run_atexit_callbacks proc; mpscq_destroy (Some callbacks));
  buffer ← read (proc_cmdline_buffer proc);
  _ ← unless_null buffer (free_block k_blocks with_blocks);
  argv ← read (proc_argv proc);
  _ ← unless_null argv (free_block k_argvs with_argvs);
  pal_proc ← read (proc_pal_proc proc);
  _ ← unless_null pal_proc prs_pal_proc_destroy;
  data ← read s_prs_proc_data;
  data ← nonnull data;
  list ← read (proc_data_list data);
  inserted ← idllist_is_inserted list proc;
  _ ← (if (inserted : bool) then _ ← idllist_remove list proc; prs_proc_range_table_del proc else mret tt);
  objects ← read (proc_objects proc);
  _ ← unless_null objects (λ objects, mpsciq_destroy (Some objects));
  free_block k_procs with_procs proc.

(** *** The objects of a process *)

Definition prs_proc_register_object (proc : loc) (object_id : Z) : prog kern unit :=
  proc_object ← alloc_block k_proc_objects with_proc_objects 0;
  _ ← fatal_if (bool_decide (proc_object = None));
  proc_object ← nonnull proc_object;
  _ ← write (field k_proc_objects with_proc_objects id (λ v _, v) proc_object) object_id;
  objects ← read (proc_objects proc);
  _ ← mpsciq_push objects proc_object;
  id ← read (proc_id proc);
  p ← god_lock id;
  fatal_if (bool_decide (p = None)).

Definition proc_object_id (proc_object : loc) : prog kern Z := get_field k_proc_objects id proc_object.

(** The first record of the object from the oldest on; the record is not freed. *)
Fixpoint unregister_loop `{!ObjectFree} (proc : loc) (object_id : Z) (proc_objects_left : list loc) : prog kern prs_result :=
  match proc_objects_left with
  | [] => mret PRS_NOT_FOUND
  | proc_object :: proc_objects_left =>
      id ← proc_object_id proc_object;
      if id =? object_id then
        objects ← read (proc_objects proc);
        _ ← mpsciq_remove objects proc_object;
        id ← read (proc_id proc);
        _ ← god_unlock id;
        mret PRS_OK
      else unregister_loop proc object_id proc_objects_left
  end.

Definition prs_proc_unregister_object `{!ObjectFree} (proc : loc) (object_id : Z) : prog kern prs_result :=
  objects ← read (proc_objects proc);
  proc_objects_left ← mpsciq_walk objects;
  unregister_loop proc object_id proc_objects_left.

(** The objects are destroyed from the oldest on. *)
Fixpoint destroy_objects `{!ObjectFree, !ObjectDestroy} (proc_objects_left : list loc) : prog kern unit :=
  match proc_objects_left with
  | [] => mret tt
  | proc_object :: proc_objects_left =>
      object_id ← proc_object_id proc_object;
      _ ← god_object_destroy object_id;
      destroy_objects proc_objects_left
  end.

Definition prs_proc_destroy `{!ObjectFree, !ObjectDestroy} (proc : loc) : prog kern unit :=
  destroyed ← read (proc_destroyed proc);
  if (destroyed : bool) then mret tt
  else
    objects ← read (proc_objects proc);
    proc_objects_left ← mpsciq_walk objects;
    _ ← destroy_objects proc_objects_left;
    write (proc_destroyed proc) true.

Definition prs_proc_atexit (proc function : loc) : prog kern unit :=
  callbacks ← read (proc_atexit_callbacks proc);
  _ ← mpscq_push callbacks function;
  mret tt.

(** *** Garbage collection *)

(** One walk over the list of processes: [PRS_OK] when one was freed. *)
Fixpoint gc_walk `{!ObjectFree} (fuel : nat) (list node : ptr) (result : prs_result) : prog kern prs_result :=
  match fuel with
  | O => Spin
  | S fuel =>
      match node with
      | None => mret result
      | Some proc =>
          destroyed ← read (proc_destroyed proc);
          result ← (if (destroyed : bool) then id ← read (proc_id proc); god_try_unlock_final id else mret result);
          if (destroyed : bool) && bool_decide (result = PRS_OK) then mret result
          else
            next ← idllist_next list proc;
            gc_walk fuel list next result
      end
  end.

Fixpoint gc_loop `{!ObjectFree} (fuel : nat) (data : loc) : prog kern unit :=
  match fuel with
  | O => Spin
  | S fuel =>
      list ← read (proc_data_list data);
      node ← idllist_begin list;
      result ← gc_walk fuel list node PRS_EMPTY;
      if decide (result = PRS_OK) then gc_loop fuel data else mret tt
  end.

Definition prs_proc_gc `{!ObjectFree} (fuel : nat) : prog kern unit :=
  data ← read s_prs_proc_data;
  data ← nonnull data;
  gc_loop fuel data.

(** ** Execution *)

(** What tasks need of processes; the messages to the process service are its own. *)
Class ProcService : Type := {
  send_unreg_object : Z → Z → Z → bool → prog kern unit;
  proc_svc_name : list Z
}.

#[export] Instance proc_objects_of `{!ObjectFree, !ProcService} : ProcObjects := {|
  TaskLife.prs_proc_register_object := prs_proc_register_object;
  TaskLife.prs_proc_unregister_object := λ proc id, _ ← prs_proc_unregister_object proc id; mret tt;
  prs_proc_send_unreg_object := send_unreg_object;
  PRS_PROC_SVC_NAME := proc_svc_name
|}.

(** [struct prs_proc_exec_params] *)
Record prs_proc_exec_params : Type := PrsProcExecParams {
  pxp_filename : list Z;
  pxp_cmdline : list Z;
  pxp_main_task_params : prs_task_create_params;
  pxp_sched_id : Z
}.

Section proc.
Context `{!ObjectFree, !Pit, !TaskParts, !ProcService, !PalProc}.

(** The [cleanup] of [prs_proc_exec]. *)
Definition proc_exec_cleanup (proc : loc) : prog kern ptr :=
  id ← read (proc_id proc);
  _ ← (if id =? 0 then mret tt else god_unlock id);
  mret None.

(** The two queues of a new process. *)
Definition proc_queues (proc : loc) : prog kern unit :=
  objects ← mpsciq_create;
  _ ← write (proc_objects proc) objects;
  _ ← fatal_if (bool_decide (objects = None));
  callbacks ← mpscq_create;
  _ ← write (proc_atexit_callbacks proc) callbacks;
  fatal_if (bool_decide (callbacks = None)).

Definition zeroed_proc : prs_proc :=
  PrsProc 0 (replicate (Z.to_nat PRS_MAX_PATH) 0) 0 None None None None 0 None None false.

(** The userdata of the main task is the address of [main_params]. *)
Definition prs_proc_exec (fuel : nat) (self : ptr) (params : prs_proc_exec_params) : prog kern ptr :=
  proc ← alloc_block k_procs with_procs zeroed_proc;
  _ ← fatal_if (bool_decide (proc = None));
  proc ← nonnull proc;
  id ← god_alloc_and_lock proc s_prs_proc_object_ops;
  _ ← write (proc_id proc) id;
  _ ← fatal_if (id =? 0);
  _ ← proc_queues proc;
  old_name ← read (proc_filename proc);
  '(filename, _) ← pure (prs_str_copy old_name (pxp_filename params) PRS_MAX_PATH);
  _ ← write (proc_filename proc) filename;
  _ ← prs_proc_parse_cmdline proc (pxp_cmdline params);
  pal_proc ← prs_pal_proc_load filename;
  _ ← write (proc_pal_proc proc) pal_proc;
  match pal_proc with
  | None => proc_exec_cleanup proc
  | Some pal_proc =>
      data ← read s_prs_proc_data;
      data ← nonnull data;
      list ← read (proc_data_list data);
      _ ← idllist_insert list proc;
      _ ← prs_proc_range_table_add proc;
      let task_params := PrsTaskCreateParams (tcp_name (pxp_main_task_params params)) (Some proc)
        (tcp_stack_size (pxp_main_task_params params)) (tcp_prio (pxp_main_task_params params))
        (prs_pal_proc_get_entry_point pal_proc) in
      main_task ← prs_task_create fuel self task_params;
      _ ← write (proc_main_task proc) main_task;
      match main_task with
      | None => proc_exec_cleanup proc
      | Some main_task =>
          id ← read (proc_id proc);
          _ ← write (task_proc_id main_task) id;
          _ ← prs_task_set_proc fuel self main_task id;
          main_task_id ← read (task_id main_task);
          result ← prs_sched_add_task (pxp_sched_id params) main_task_id;
          if decide (result = PRS_OK) then mret (Some proc) else proc_exec_cleanup proc
      end
  end.

Definition prs_proc_init_main (fuel : nat) (self : ptr) : prog kern unit :=
  main_proc ← alloc_block k_procs with_procs zeroed_proc;
  _ ← fatal_if (bool_decide (main_proc = None));
  main_proc ← nonnull main_proc;
  _ ← proc_queues main_proc;
  '(pal_proc, (filename, cmdline)) ← prs_pal_proc_create_main;
  _ ← write (proc_filename main_proc) filename;
  _ ← write (proc_pal_proc main_proc) pal_proc;
  _ ← prs_proc_parse_cmdline main_proc cmdline;
  id ← god_alloc_and_lock main_proc s_prs_proc_object_ops;
  _ ← write (proc_id main_proc) id;
  _ ← fatal_if (id =? 0);
  main_task ← prs_task_current self;
  _ ← write (proc_main_task main_proc) main_task;
  main_task ← nonnull main_task;
  result ← prs_task_set_proc fuel self main_task id;
  _ ← fatal_if (bool_decide (result ≠ PRS_OK));
  data ← read s_prs_proc_data;
  data ← nonnull data;
  list ← read (proc_data_list data);
  _ ← idllist_insert list main_proc;
  prs_proc_range_table_add main_proc.

Definition prs_proc_init (fuel : nat) (self : ptr) : prog kern unit :=
  data ← alloc_block k_proc_datas with_proc_datas
    (PrsProcData None (replicate (Z.to_nat PRS_MAX_OBJECTS) (0, 0)) 0);
  _ ← write s_prs_proc_data data;
  _ ← fatal_if (bool_decide (data = None));
  data ← nonnull data;
  list ← idllist_create;
  _ ← write (proc_data_list data) list;
  _ ← fatal_if (bool_decide (list = None));
  prs_proc_init_main fuel self.

Definition prs_proc_uninit : prog kern unit := mret tt.

(** ** The arguments of the current process *)

Definition prs_proc_get_argc (self : ptr) : prog kern Z :=
  task ← prs_task_current self;
  task ← nonnull task;
  id ← read (task_proc_id task);
  proc ← god_lock id;
  match proc with
  | Some proc =>
      result ← read (proc_argc proc);
      id ← read (task_proc_id task);
      _ ← god_unlock id;
      mret result
  | None => mret 0
  end.

(** The table and the buffer are read as they are; the result is the offset of the
    argument in the buffer of the command line.  Only the upper bound of [arg] is checked. *)
Definition prs_proc_get_argv (self : ptr) (arg : Z) : prog kern (option Z) :=
  task ← prs_task_current self;
  task ← nonnull task;
  id ← read (task_proc_id task);
  proc ← god_lock id;
  match proc with
  | Some proc =>
      argc ← read (proc_argc proc);
      if argc <=? arg then
        id ← read (task_proc_id task);
        _ ← god_unlock id;
        mret None
      else
        argv ← read (proc_argv proc);
        argv ← nonnull argv;
        args ← read (argv_block argv);
        result ← pure (o ← load args arg; off ← deref o; Ret off);
        id ← read (task_proc_id task);
        _ ← god_unlock id;
        mret (Some result)
  | None => mret None
  end.
End proc.

(** ** The table of ranges

    [loaded] are the processes whose programs are loaded, with base and size. *)

Record ranges_ok (data : loc) (c : kern) (loaded : gmap loc (Z * Z)) (table : list (Z * Z)) (count : nat)
    (index : loc → nat) : Prop := RangesOk {
  ro_data : k_proc_data c = Some data;
  ro_entry : ∃ l, k_proc_datas c !! data = Some (PrsProcData l table (Z.of_nat count));
  ro_length : length table = 4096%nat;
  ro_count : (count ≤ 4096)%nat;
  ro_unused i r : (count ≤ i)%nat → table !! i = Some r → r = (0, 0);
  ro_loaded p r : loaded !! p = Some r → 0 < r.1 ∧ (index p < count)%nat ∧ table !! index p = Some r ∧
    ∃ e, k_procs c !! p = Some e ∧ pc_range_table_index e = Z.of_nat (index p);
  ro_inj p p' : is_Some (loaded !! p) → is_Some (loaded !! p') → index p = index p' → p = p';
  ro_used i r : table !! i = Some r → r.1 ≠ 0 → ∃ p, loaded !! p = Some r ∧ index p = i
}.

Lemma range_cell_get get set_ data i c l table n r :
  k_proc_datas c !! data = Some (PrsProcData l table n) → 0 ≤ i → table !! Z.to_nat i = Some r →
  cell_get (range_cell get set_ data i) c = Ret (get r).
Proof.
  intros Hd Hi Hr. cbn [cell_get range_cell]. unfold range_table. rewrite (field_get _ _ _ _ _ _ _ Hd). ocbn. cbn. unfold load.
  by rewrite (proj2 (Z.leb_le _ _) Hi), Hr.
Qed.

Lemma range_cell_set get set_ data i v c l table n r :
  k_proc_datas c !! data = Some (PrsProcData l table n) → 0 ≤ i → table !! Z.to_nat i = Some r →
  cell_set (range_cell get set_ data i) v c =
    Ret (with_proc_datas (<[data := PrsProcData l (<[Z.to_nat i := set_ v r]> table) n]> (k_proc_datas c)) c).
Proof.
  intros Hd Hi Hr. cbn [cell_set range_cell]. unfold range_table. rewrite (field_get _ _ _ _ _ _ _ Hd). ocbn. cbn. unfold load.
  rewrite (proj2 (Z.leb_le _ _) Hi), Hr. ocbn. rewrite store_in by (apply lookup_lt_Some in Hr; lia). ocbn.
  rewrite Hd. done.
Qed.

(** The search finds the last free range below [n], if there is one. *)
Definition free_below (table : list (Z * Z)) (n : nat) (i : nat) : Prop :=
  (i < n)%nat ∧ fst <$> table !! i = Some 0.

Lemma run_range_search n data c l table m index :
  k_proc_datas c !! data = Some (PrsProcData l table m) → (n ≤ length table)%nat →
  ∃ i, run (range_table_search n data index) c = Ret (Some i, c) ∧
    ((i = index ∧ ∀ j, ¬ free_below table n j) ∨ ∃ j, i = Z.of_nat j ∧ free_below table n j).
Proof.
  intros Hd Hn. induction n as [|n IH]; cbn [range_table_search].
  - exists index. split; [done|]. left. split; [done|]. intros j [Hj _]. lia.
  - destruct (lookup_lt_is_Some_2 table n Hn) as [r Hr].
    assert (run (read (range_base data (Z.of_nat n))) c = Ret (Some r.1, c)) as Hread.
    { apply run_load. eapply range_cell_get; [exact Hd|lia|by rewrite Nat2Z.id]. }
    rewrite run_bind, Hread. ocbn. destruct (Z.eqb_spec r.1 0) as [H0|H0].
    + exists (Z.of_nat n). split; [done|]. right. exists n. split; [done|]. split; [lia|]. rewrite Hr. simpl. by rewrite H0.
    + destruct IH as (i & Hrun & Hi); [lia|]. exists i. split; [done|]. destruct Hi as [[-> Hno]|(j & -> & Hj & Hz)].
      * left. split; [done|]. intros j [Hj Hz]. apply (Hno j). split; [|done].
        enough (j ≠ n) by lia. intros ->. rewrite Hr in Hz. by simplify_eq/=.
      * right. exists j. split; [done|]. by split; [lia|].
Qed.

Definition set_at (index : loc → nat) (p : loc) (i : nat) (q : loc) : nat := if decide (q = p) then i else index q.

(** A range has been written to the slot [i], which was free. *)
Lemma ranges_ok_add data c c' loaded table count count' index p r i e :
  ranges_ok data c loaded table count index → loaded !! p = None → 0 < r.1 → (i < count' ≤ 4096)%nat →
  (count ≤ count')%nat → (∀ j, (count ≤ j < count')%nat → j = i) → fst <$> table !! i = Some 0 →
  k_proc_data c' = k_proc_data c →
  (∃ l, k_proc_datas c' !! data = Some (PrsProcData l (<[i := r]> table) (Z.of_nat count'))) →
  k_procs c' !! p = Some e → pc_range_table_index e = Z.of_nat i →
  (∀ q, q ≠ p → k_procs c' !! q = k_procs c !! q) →
  ranges_ok data c' (<[p := r]> loaded) (<[i := r]> table) count' (set_at index p i).
Proof.
  intros [H1 H2 H3 H4 H5 H6 H7 H8] Hp Hr Hi Hc Hci Hfree Hd He Hpe Hidx Hq.
  assert (∀ q r', loaded !! q = Some r' → index q ≠ i) as Hne.
  { intros q r' Hq' <-. destruct (H6 q r' Hq') as (? & _ & Ht & _). rewrite Ht in Hfree. simplify_eq/=. lia. }
  assert (∀ q r', loaded !! q = Some r' → q ≠ p) as Hqp by (intros q r' Hq' ->; congruence).
  split; [by rewrite Hd|done|by rewrite length_insert|lia| | | | ].
  - intros j r' Hj Hr'. rewrite list_lookup_insert_ne in Hr' by lia. apply (H5 j); [lia|done].
  - intros q r' Hq'. unfold set_at. destruct (decide (q = p)) as [->|Hqne].
    + rewrite lookup_insert_eq in Hq'. simplify_eq. split; [done|]. split; [lia|]. split; [apply list_lookup_insert_eq; lia|].
      by exists e.
    + rewrite lookup_insert_ne in Hq' by done. destruct (H6 q r' Hq') as (Hb & Hlt & Ht & e' & He' & Hi').
      split; [done|]. split; [lia|]. split; [rewrite list_lookup_insert_ne; [done|]|].
      * intros Heq. by apply (Hne q r' Hq').
      * exists e'. by rewrite Hq.
  - intros q q' [r1 Hr1] [r2 Hr2]. unfold set_at. destruct (decide (q = p)) as [->|Hqne], (decide (q' = p)) as [->|Hqne']; try done.
    + rewrite lookup_insert_ne in Hr2 by done. intros Heq. by destruct (Hne q' r2 Hr2).
    + rewrite lookup_insert_ne in Hr1 by done. intros Heq. by destruct (Hne q r1 Hr1).
    + rewrite lookup_insert_ne in Hr1, Hr2 by done. by apply H7; [exists r1|exists r2].
  - intros j r' Hj Hr'. destruct (decide (j = i)) as [->|Hji].
    + rewrite list_lookup_insert_eq in Hj by lia. simplify_eq. exists p. unfold set_at. by rewrite lookup_insert_eq, decide_True.
    + rewrite list_lookup_insert_ne in Hj by done. destruct (H8 j r' Hj Hr') as (q & Hq' & <-). exists q. unfold set_at.
      assert (q ≠ p) by (by eapply Hqp). by rewrite lookup_insert_ne, decide_False.
Qed.

Lemma ranges_ok_del data c c' loaded table count index p r :
  ranges_ok data c loaded table count index → loaded !! p = Some r →
  k_proc_data c' = k_proc_data c →
  (∃ l, k_proc_datas c' !! data = Some (PrsProcData l (<[index p := (0, 0)]> table) (Z.of_nat count))) →
  (∀ q, k_procs c' !! q = k_procs c !! q) →
  ranges_ok data c' (delete p loaded) (<[index p := (0, 0)]> table) count index.
Proof.
  intros [H1 H2 H3 H4 H5 H6 H7 H8] Hp Hd He Hq. destruct (H6 p r Hp) as (Hb & Hlt & Ht & e & Hpe & Hidx).
  assert (∀ q r', delete p loaded !! q = Some r' → loaded !! q = Some r' ∧ index q ≠ index p) as Hdel.
  { intros q r' Hq'. apply lookup_delete_Some in Hq' as [Hne Hq']. split; [done|].
    intros Heq. apply Hne. symmetry. apply H7; [by exists r'|by exists r|done]. }
  split; [by rewrite Hd|done|by rewrite length_insert|done| | | | ].
  - intros j r' Hj Hr'. rewrite list_lookup_insert_ne in Hr' by lia. by apply (H5 j).
  - intros q r' Hq'. apply Hdel in Hq' as [Hq' Hne]. destruct (H6 q r' Hq') as (? & ? & ? & e' & ? & ?).
    split; [done|]. split; [done|]. split; [by rewrite list_lookup_insert_ne by done|]. exists e'. by rewrite Hq.
  - intros q q' [r1 Hr1] [r2 Hr2]. apply Hdel in Hr1 as [? _]. apply Hdel in Hr2 as [? _]. apply H7; by eexists.
  - intros j r' Hj Hr'. destruct (decide (j = index p)) as [->|Hji].
    + rewrite list_lookup_insert_eq in Hj by lia. by simplify_eq.
    + rewrite list_lookup_insert_ne in Hj by done. destruct (H8 j r' Hj Hr') as (q & Hq' & <-). exists q.
      split; [|done]. apply lookup_delete_Some. split; [|done]. by intros <-.
Qed.

(** The ranges that contain an address. *)
Definition inside (ip : Z) (r : Z * Z) : Prop := r.1 ≠ 0 ∧ r.1 < ip ∧ r.2 ≠ 0 ∧ ip < u64 (r.1 + r.2).

#[export] Instance inside_dec ip r : Decision (inside ip r) := ltac:(unfold inside; apply _).

Lemma run_is_user_text n i data c l table m ip :
  k_proc_datas c !! data = Some (PrsProcData l table m) → 0 ≤ i → (Z.to_nat i + n ≤ length table)%nat →
  run (is_user_text_loop n data i ip) c =
    Ret (Some (bool_decide (Exists (inside ip) (take n (drop (Z.to_nat i) table)))), c).
Proof.
  intros Hd. revert i. induction n as [|n IH]; intros i Hi Hn; cbn [is_user_text_loop].
  - rewrite take_0, bool_decide_false; [done|]. by intros ?%Exists_nil.
  - destruct (lookup_lt_is_Some_2 table (Z.to_nat i)) as [r Hr]; [lia|].
    rewrite (drop_S _ _ _ Hr). cbn [take].
    eapply run_seq; [apply run_load; eapply range_cell_get; [exact Hd|done|exact Hr]|].
    assert (run (is_user_text_loop n data (i + 1) ip) c =
      Ret (Some (bool_decide (Exists (inside ip) (take n (drop (S (Z.to_nat i)) table)))), c)) as Hrest.
    { rewrite IH by lia. by replace (Z.to_nat (i + 1)) with (S (Z.to_nat i)) by lia. }
    assert (¬ inside ip r → bool_decide (Exists (inside ip) (r :: take n (drop (S (Z.to_nat i)) table))) =
      bool_decide (Exists (inside ip) (take n (drop (S (Z.to_nat i)) table)))) as Hno.
    { intros Hno. apply bool_decide_ext. rewrite Exists_cons. naive_solver. }
    unfold truthy. destruct (Z.eqb_spec r.1 0) as [H0|H0]; cbn [negb andb].
    { rewrite Hno by (by intros []). exact Hrest. }
    destruct (Z.ltb_spec r.1 ip) as [H1|H1]; [|rewrite Hno by (intros (? & ? & _); lia); exact Hrest].
    eapply run_seq; [apply run_load; eapply range_cell_get; [exact Hd|done|exact Hr]|].
    destruct (Z.eqb_spec r.2 0) as [H2|H2]; cbn [negb andb].
    { rewrite Hno by (by intros (? & ? & ? & _)). exact Hrest. }
    destruct (Z.ltb_spec ip (u64 (r.1 + r.2))) as [H3|H3]; [|rewrite Hno by (intros (? & ? & ? & ?); lia); exact Hrest].
    rewrite bool_decide_true; [done|]. apply Exists_cons. by left.
Qed.

Lemma run_range_set get set_ data i v c l table n r :
  k_proc_datas c !! data = Some (PrsProcData l table n) → table !! i = Some r →
  run (prs_pal_atomic_store (range_cell get set_ data (Z.of_nat i)) v) c =
    Ret (Some tt, with_proc_datas (<[data := PrsProcData l (<[i := set_ v r]> table) n]> (k_proc_datas c)) c).
Proof.
  intros Hd Hr. apply run_store. rewrite (range_cell_set _ _ _ _ _ _ _ _ _ r Hd) by (lia || by rewrite Nat2Z.id).
  by rewrite Nat2Z.id.
Qed.

Definition range_of `{!PalProc} (pal_proc : loc) : Z * Z := (prs_pal_proc_get_base pal_proc, prs_pal_proc_get_size pal_proc).

Lemma run_set_count count count' j data c l table :
  count' = (if decide (count ≤ j)%nat then S count else count) → (j ≤ count)%nat →
  k_proc_datas c !! data = Some (PrsProcData l table (Z.of_nat count)) →
  run (if Z.of_nat count <=? Z.of_nat j then prs_pal_atomic_store (range_table_count data) (Z.of_nat j + 1) else mret tt) c =
    Ret (Some tt, with_proc_datas (<[data := PrsProcData l table (Z.of_nat count')]> (k_proc_datas c)) c).
Proof.
  intros -> Hj Hd. destruct (decide (count ≤ j)%nat) as [Hle|Hgt].
  - rewrite (proj2 (Z.leb_le _ _)) by lia. apply run_store.
    replace (Z.of_nat j + 1) with (Z.of_nat (S count)) by lia. unfold range_table_count. by rewrite (field_set _ _ _ _ _ _ _ _ Hd).
  - rewrite (proj2 (Z.leb_gt _ _)) by lia. cbn. rewrite insert_id by done. by destruct c as [? ? ? ? ? ? ? ? ? ? ? ? ? ? ? ? ? ? ? ? ? ? ? ? ? ? ? []].
Qed.

Lemma run_range_add `{!PalProc} data c loaded table count index p e pal_proc :
  ranges_ok data c loaded table count index → loaded !! p = None → k_procs c !! p = Some e →
  pc_pal_proc e = Some pal_proc → 0 < (range_of pal_proc).1 →
  ((∀ i, ¬ free_below table 4096 i) ∧ run (prs_proc_range_table_add p) c = Fatal) ∨
  ∃ c' table' count' index', run (prs_proc_range_table_add p) c = Ret (Some tt, c') ∧
    ranges_ok data c' (<[p := range_of pal_proc]> loaded) table' count' index'.
Proof.
  intros Hok Hp He Hpal Hbase. pose proof Hok as [H1 [l H2] H3 H4 H5 H6 H7 H8].
  destruct (run_range_search count data c l table (Z.of_nat count) (Z.of_nat count) H2) as (i & Hsearch & Hi); [lia|].
  assert (∃ j, i = Z.of_nat j ∧ (j ≤ count)%nat ∧ ((j < 4096)%nat → fst <$> table !! j = Some 0) ∧
    (j = count → ∀ k, ¬ free_below table count k)) as (j & -> & Hj & Hfree & Hnone).
  { destruct Hi as [[-> Hno]|(j & -> & Hj & Hz)]; [exists count|exists j]; split_and!; try done; try lia.
    intros Hlt. destruct (lookup_lt_is_Some_2 table count) as [r Hr]; [lia|]. rewrite Hr. simpl.
    by rewrite (H5 count r) by done. }
  assert (∀ R, run (_ ← fatal_if (PRS_MAX_OBJECTS <=? Z.of_nat j);
    pal_proc ← read (proc_pal_proc p); pal_proc ← nonnull pal_proc;
    _ ← prs_pal_atomic_store (range_size data (Z.of_nat j)) (prs_pal_proc_get_size pal_proc);
    _ ← prs_pal_atomic_store (range_base data (Z.of_nat j)) (prs_pal_proc_get_base pal_proc);
    _ ← (if Z.of_nat count <=? Z.of_nat j then prs_pal_atomic_store (range_table_count data) (Z.of_nat j + 1) else mret tt);
    write (proc_range_table_index p) (Z.of_nat j)) c = R → run (prs_proc_range_table_add p) c = R) as Hrun.
  { intros R HR. eapply run_seq; [apply run_load; cbn; by rewrite H1|]. eapply run_seq; [done|].
    eapply run_seq; [apply run_load; eapply field_get; exact H2|]. cbn [pd_range_table_count]. rewrite Nat2Z.id.
    eapply run_seq; [exact Hsearch|]. exact HR. }
  destruct (Nat.lt_ge_cases j 4096) as [Hlt|Hge].
  - right. destruct (lookup_lt_is_Some_2 table j) as [r Hr]; [lia|].
    set (count' := if decide (count ≤ j)%nat then S count else count).
    eexists _, (<[j := range_of pal_proc]> table), count', (set_at index p j). split.
    { apply Hrun. eapply run_seq; [unfold PRS_MAX_OBJECTS; cbn; rewrite (proj2 (Z.leb_gt _ _)) by lia; done|].
      eapply run_seq; [apply run_load; eapply field_get; exact He|]. rewrite Hpal. eapply run_seq; [done|].
      eapply run_seq; [eapply run_range_set; [exact H2|exact Hr]|].
      eapply run_seq; [eapply run_range_set; [apply lookup_insert_eq|apply list_lookup_insert_eq; lia]|].
      eapply run_seq; [eapply (run_set_count count count' j); [done|lia|apply lookup_insert_eq]|].
      apply run_store. eapply field_set. exact He. }
    eapply (ranges_ok_add _ c); [exact Hok|done|done|unfold count'; destruct (decide _); lia|unfold count'; destruct (decide _); lia
      |unfold count'; destruct (decide _); lia|by apply Hfree|done| |apply lookup_insert_eq|done|intros q Hq; by apply lookup_insert_ne].
    exists l. cbn. rewrite list_insert_insert_eq. apply lookup_insert_eq.
  - left. assert (j = 4096%nat) as -> by lia. split; [|apply Hrun; done]. assert (count = 4096%nat) as -> by lia. by apply Hnone.
Qed.

Lemma run_range_del data c loaded table count index p r :
  ranges_ok data c loaded table count index → loaded !! p = Some r →
  ∃ c' table', run (prs_proc_range_table_del p) c = Ret (Some tt, c') ∧
    ranges_ok data c' (delete p loaded) table' count index.
Proof.
  intros Hok Hp. pose proof Hok as [H1 [l H2] H3 H4 H5 H6 H7 H8]. destruct (H6 p r Hp) as (Hb & Hlt & Ht & e & He & Hidx).
  eexists _, (<[index p := (0, 0)]> table). split.
  - unfold prs_proc_range_table_del. eapply run_seq; [apply run_load; eapply field_get; exact He|]. rewrite Hidx.
    eapply run_seq; [unfold PRS_MAX_OBJECTS; cbn; rewrite (proj2 (Z.leb_gt _ _)) by lia; done|].
    eapply run_seq; [apply run_load; cbn; by rewrite H1|]. eapply run_seq; [done|].
    eapply run_seq; [eapply run_range_set; [exact H2|exact Ht]|].
    eapply run_range_set; [apply lookup_insert_eq|apply list_lookup_insert_eq; lia].
  - eapply ranges_ok_del; [exact Hok|exact Hp|done| |done]. exists l. cbn. rewrite list_insert_insert_eq. apply lookup_insert_eq.
Qed.

(** The table of a new process module. *)
Lemma ranges_ok_init data l c :
  k_proc_data c = Some data → k_proc_datas c !! data = Some (PrsProcData l (replicate 4096 (0, 0)) 0) →
  ranges_ok data c ∅ (replicate 4096 (0, 0)) 0 (λ _, 0%nat).
Proof.
  intros Hd He. split; [done|by exists l|apply length_replicate|lia| | | | ].
  - intros i r _ Hr. by apply lookup_replicate in Hr as [-> _].
  - intros p r Hp. by rewrite lookup_empty in Hp.
  - intros p p' [r Hp]. by rewrite lookup_empty in Hp.
  - intros i r Hr Hne. by apply lookup_replicate in Hr as [-> _].
Qed.

(** C24: The table of ranges implements the set of the loaded programs: a program is added
    in a free slot or the system stops because all 4096 are taken, a program is removed,
    and an address is user text exactly when it lies in a loaded program beyond its first
    byte. *)
Theorem proc_ranges_exact `{!PalProc} (data : loc) (c : kern) (loaded : gmap loc (Z * Z)) (table : list (Z * Z))
    (count : nat) (index : loc → nat)
  (Hok : ranges_ok data c loaded table count index)
  (Hsizes : ∀ p r, loaded !! p = Some r → 0 < r.2 ∧ r.1 + r.2 < 2 ^ 64) :
  (∀ p e pal_proc, loaded !! p = None → k_procs c !! p = Some e → pc_pal_proc e = Some pal_proc →
     0 < (range_of pal_proc).1 →
     ((∀ i, ¬ free_below table 4096 i) ∧ run (prs_proc_range_table_add p) c = Fatal) ∨
     ∃ c' table' count' index', run (prs_proc_range_table_add p) c = Ret (Some tt, c') ∧
       ranges_ok data c' (<[p := range_of pal_proc]> loaded) table' count' index') ∧
  (∀ p r, loaded !! p = Some r → ∃ c' table', run (prs_proc_range_table_del p) c = Ret (Some tt, c') ∧
     ranges_ok data c' (delete p loaded) table' count index) ∧
  (∀ ip, ∃ b, run (prs_proc_is_user_text ip) c = Ret (Some b, c) ∧
     (b = true ↔ ∃ p r, loaded !! p = Some r ∧ r.1 < ip < r.1 + r.2)).
Proof.
  split; [intros; by eapply run_range_add|]. split; [intros; by eapply run_range_del|]. intros ip.
  pose proof Hok as [H1 [l H2] H3 H4 H5 H6 H7 H8].
  exists (bool_decide (Exists (inside ip) (take count table))). split.
  - eapply run_seq; [apply run_load; cbn; by rewrite H1|]. eapply run_seq; [done|].
    eapply run_seq; [apply run_load; eapply field_get; exact H2|]. cbn [pd_range_table_count]. rewrite Nat2Z.id.
    apply (run_is_user_text count 0 data c l table (Z.of_nat count) ip H2); [lia|rewrite H3; simpl; lia].
  - rewrite bool_decide_eq_true, Exists_exists. split.
    + intros (r & (i & Hi)%list_elem_of_lookup & Hb & Hlt & Hs & Hend). apply lookup_take_Some in Hi as [Hi _].
      destruct (H8 i r Hi Hb) as (p & Hp & _). exists p, r. destruct (Hsizes p r Hp), (H6 p r Hp) as (? & _).
      unfold u64 in Hend. rewrite Z.mod_small in Hend by lia. split; [done|lia].
    + intros (p & r & Hp & Hin). destruct (Hsizes p r Hp), (H6 p r Hp) as (? & ? & Ht & _). exists r. split.
      * apply (list_elem_of_lookup_2 _ (index p)). by apply lookup_take_Some.
      * unfold inside, u64. rewrite Z.mod_small by lia. lia.
Qed.

(** A program at 4096 bytes of size 4096. *)
Definition demo_pal_proc : PalProc := {|
  prs_pal_proc_create_main := mret (None, ([], []));
  prs_pal_proc_load := λ _, mret None;
  prs_pal_proc_destroy := λ _, mret tt;
  prs_pal_proc_get_entry_point := λ _, None;
  prs_pal_proc_get_base := λ _, 4096;
  prs_pal_proc_get_size := λ _, 4096
|}.

Definition demo_range_kern : kern :=
  with_proc_data (Some 9%positive) (with_proc_datas {[ 9%positive := PrsProcData None (replicate 4096 (0, 0)) 0 ]}
    (with_procs {[ 1%positive := set_pc_pal_proc (Some 5%positive) demo_proc ]} kern_empty)).

Lemma proc_ranges_exact_witness :
  (∃ c' table' count' index', run (prs_proc_range_table_add (H := demo_pal_proc) 1%positive) demo_range_kern = Ret (Some tt, c') ∧
    ranges_ok 9 c' {[ 1%positive := (4096, 4096) ]} table' count' index') ∧
  ∃ b, run (prs_proc_is_user_text 5000) demo_range_kern = Ret (Some b, demo_range_kern).
Proof.
  assert (ranges_ok 9 demo_range_kern ∅ (replicate 4096 (0, 0)) 0 (λ _, 0%nat)) as Hok by by apply (ranges_ok_init 9 None).
  destruct (proc_ranges_exact (H := demo_pal_proc) 9 demo_range_kern ∅ _ _ _ Hok) as (Hadd & _ & Htext).
  { intros p r Hp. by rewrite lookup_empty in Hp. }
  split.
  - destruct (Hadd 1%positive (set_pc_pal_proc (Some 5%positive) demo_proc) 5%positive) as [[Hfull _]|Hin]; [done..| |exact Hin].
    exfalso. apply (Hfull 0%nat). split; [lia|done].
  - destruct (Htext 5000) as (b & Hrun & _). by exists b.
Defined.

(** ** The objects of a process *)

Lemma drop_ref_snoc (l : loc) xs : l ∉ xs → drop_ref l (xs ++ [l]) = xs.
Proof. intros Hl. by rewrite drop_ref_split, app_nil_r. Qed.

Lemma run_unregister `{!ObjectFree} p object_id c e q xs ys x n o :
  k_procs c !! p = Some e → pc_objects e = Some q → k_queues c !! q = Some (xs ++ x :: ys) →
  Forall (λ y, ∃ i, k_proc_objects c !! y = Some i ∧ i ≠ object_id) xs → k_proc_objects c !! x = Some object_id →
  k_objs c !! pc_id e = Some (S (S n), o) →
  run (prs_proc_unregister_object p object_id) c =
    Ret (Some PRS_OK, with_objs (<[pc_id e := (S n, o)]> (k_objs c)) (with_queues (<[q := drop_ref x (xs ++ x :: ys)]> (k_queues c)) c)).
Proof.
  intros He Hq Hxs Hall Hx Ho. unfold prs_proc_unregister_object.
  eapply run_seq; [apply run_load; eapply field_get; exact He|]. rewrite Hq.
  eapply run_seq; [eapply run_seq; [done|]; apply run_load; eapply field_get; exact Hxs|].
  assert (∀ zs, run (unregister_loop p object_id (x :: zs)) c =
    Ret (Some PRS_OK, with_objs (<[pc_id e := (S n, o)]> (k_objs c)) (with_queues (<[q := drop_ref x (xs ++ x :: ys)]> (k_queues c)) c))) as Hlast.
  { intros zs. cbn [unregister_loop]. eapply run_seq; [eapply run_get_field; exact Hx|]. cbn [id]. rewrite Z.eqb_refl.
    eapply run_seq; [apply run_load; eapply field_get; exact He|]. rewrite Hq.
    eapply run_seq; [eapply run_seq; [done|]; eapply run_seq; [eapply run_update_field; [reflexivity|exact Hxs]|done]|].
    eapply run_seq; [apply run_load; eapply field_get; exact He|].
    eapply run_seq; [unfold god_unlock; eapply run_seq; [cbn; rewrite Ho; reflexivity|done]|]. done. }
  revert Hlast. generalize (drop_ref x (xs ++ x :: ys)). intros dropped Hlast. clear Hxs. revert Hall.
  induction xs as [|y xs IH]; intros Hall; [apply Hlast|].
  apply Forall_cons in Hall as [(i & Hy & Hne) Hall]. cbn [app unregister_loop].
  eapply run_seq; [eapply run_get_field; exact Hy|]. cbn [id]. rewrite (proj2 (Z.eqb_neq i object_id)) by done. by apply IH.
Qed.

(** Registering an object of a process and unregistering it again leaves the queue of
    its objects and the references of the process as they were; the record of the object
    stays allocated. *)
Lemma proc_register_roundtrip `{!ObjectFree} (p q l : loc) (object_id : Z) (c : kern) (e : prs_proc) (xs : list loc)
    (n : nat) (o : loc * object_ops) (hs : list ptr)
  (He : k_procs c !! p = Some e) (Hq : pc_objects e = Some q) (Hxs : k_queues c !! q = Some xs)
  (Hall : Forall (λ y, ∃ i, k_proc_objects c !! y = Some i ∧ i ≠ object_id) xs) (Hl : k_proc_objects c !! l = None)
  (Ho : k_objs c !! pc_id e = Some (S n, o)) (Hh : heap_answers (k_heap c) = Some l :: hs) :
  ∃ c1 c2, run (prs_proc_register_object p object_id) c = Ret (Some tt, c1) ∧
    k_queues c1 !! q = Some (xs ++ [l]) ∧ k_objs c1 !! pc_id e = Some (S (S n), o) ∧
    run (prs_proc_unregister_object p object_id) c1 = Ret (Some PRS_OK, c2) ∧
    k_queues c2 = k_queues c ∧ k_objs c2 = k_objs c ∧ l ∈ heap_live (k_heap c2).
Proof.
  destruct o as [p0 ops]. assert (l ∉ xs) as Hlx. { intros Hin. rewrite Forall_forall in Hall. destruct (Hall l Hin) as (i & Hi & _). congruence. }
  eexists _, _. split.
  { unfold prs_proc_register_object. eapply run_seq; [apply run_alloc_block; exact Hh|].
    eapply run_seq; [reflexivity|]. eapply run_seq; [reflexivity|].
    eapply run_seq; [apply run_store; eapply field_set; apply lookup_insert_eq|].
    eapply run_seq; [apply run_load; eapply field_get; exact He|]. rewrite Hq.
    eapply run_seq; [eapply run_seq; [done|]; eapply run_seq; [eapply run_update_field; [reflexivity|exact Hxs]|done]|].
    eapply run_seq; [apply run_load; eapply field_get; exact He|].
    eapply run_seq; [cbn; rewrite Ho; reflexivity|]. reflexivity. }
  split; [apply lookup_insert_eq|]. split; [apply lookup_insert_eq|]. split.
  { eapply (run_unregister p object_id _ e q xs []); [exact He|exact Hq|apply lookup_insert_eq| |apply lookup_insert_eq|apply lookup_insert_eq].
    eapply Forall_impl; [exact Hall|]. intros y (i & Hi & Hne). exists i. split; [|done].
    cbn. rewrite !lookup_insert_ne; [done|intros ->; congruence..]. }
  cbn. split_and!.
  - rewrite insert_insert_eq, insert_id; [done|]. rewrite Hxs. f_equal. by rewrite drop_ref_snoc.
  - by rewrite insert_insert_eq, insert_id.
  - set_solver.
Qed.

Definition demo_objects_kern : kern :=
  with_procs {[ 1%positive := PrsProc 3 [] 0 None None None None 0 (Some 2%positive) None false ]}
    (with_queues {[ 2%positive := [] ]} (with_objs {[ 3 := (1%nat, (1%positive, s_prs_proc_object_ops)) ]}
      (with_heap (Heap {[ 1%positive; 2%positive ]} [Some 4%positive]) kern_empty))).

