(* ===== verification/Excp.v ===== *)
(** * Exceptions and errors (prs/excp.c, prs/error.c)

    An exception goes to the registered handlers, the newest first, and at last to the
    default one; what the first handler that does not forward it answers is done.  What is
    printed to the log is left out. *)

From S2P Require Import Prelude Heap Atomic RefDir Kern Pal Worker Task Event Timer Clock Name Sched TaskLife Proc.

(** [enum prs_excp_type] *)
Inductive prs_excp_type : Set :=
  | PRS_EXCP_TYPE_UNKNOWN
  | PRS_EXCP_TYPE_ASSERT
  | PRS_EXCP_TYPE_USER
  | PRS_EXCP_TYPE_PRS
  | PRS_EXCP_TYPE_OS
  | PRS_EXCP_TYPE_STACK_OVERFLOW
  | PRS_EXCP_TYPE_SEGMENTATION_FAULT
  | PRS_EXCP_TYPE_ILLEGAL_INSTRUCTION
  | PRS_EXCP_TYPE_INTEGER
  | PRS_EXCP_TYPE_FLOATING_POINT
  | PRS_EXCP_TYPE_BUS
  | PRS_EXCP_TYPE_USER_INTERRUPT.

(** [enum prs_excp_result] *)
Inductive prs_excp_result : Set :=
  | PRS_EXCP_RESULT_EXIT
  | PRS_EXCP_RESULT_KILL_TASK
  | PRS_EXCP_RESULT_CONTINUE
  | PRS_EXCP_RESULT_FORWARD.

#[export] Instance prs_excp_result_eq_dec : EqDecision prs_excp_result.
Proof. solve_decision. Defined.

(** [struct prs_excp_raise_info]: what the handlers use of it. *)
Record prs_excp_raise_info : Type := PrsExcpRaiseInfo { ri_behavior : prs_excp_result }.

(** The pointer [extra]: an address, and what it points to when it is the information of a
    raised exception. *)
Record excp_extra : Type := ExcpExtra {
  ex_address : Z;
  ex_info : option prs_excp_raise_info
}.

(** [enum prs_error_type] *)
Inductive prs_error_type : Set :=
  | PRS_ERROR_TYPE_CONTINUE
  | PRS_ERROR_TYPE_KILL_TASK
  | PRS_ERROR_TYPE_FATAL.

Definition prs_error_type_to_excp_behavior (error : prs_error_type) : prs_excp_result :=
  match error with
  | PRS_ERROR_TYPE_CONTINUE => PRS_EXCP_RESULT_CONTINUE
  | PRS_ERROR_TYPE_KILL_TASK => PRS_EXCP_RESULT_KILL_TASK
  | PRS_ERROR_TYPE_FATAL => PRS_EXCP_RESULT_EXIT
  end.

(** What a handler is called with. *)
Record excp_args : Type := ExcpArgs {
  xa_excp : prs_excp_type;
  xa_extra : excp_extra;
  xa_worker : ptr;
  xa_task : ptr;
  xa_context : ptr
}.

(** The functions that are registered, by their address. *)
Class ExcpHandlers : Type := excp_handler : loc → excp_args → prog kern prs_excp_result.

(** Stacks (Stack.v) and the end of the program (init.c): [prs_stack_grow] gives whether
    the stack has grown, and its new size. *)
Class ExcpParts : Type := {
  prs_stack_address_in_range : ptr → Z → bool;
  prs_stack_grow : ptr → Z → Z → prog kern (bool * Z);
  prs_exit_from_excp : Z → prog kern unit
}.

Definition s_prs_excp : cell kern ptr := Cell (λ c, Ret (k_excp c)) (λ v c, Ret (with_excp v c)).
Definition excp_handlers : loc → cell kern ptr := field k_excps with_excps id (λ v _, v).

Section excp.
Context `{!ObjectFree, !Pit, !TaskParts, !ProcObjects, !ExcpParts} (fuel : nat) (self : ptr).

(** The stack of the task grows when the address is on it. *)
Definition excp_stack_overflow (task : ptr) (address : Z) : prog kern prs_excp_result :=
  match task with
  | Some task =>
      stack ← read (task_stack task);
      if prs_stack_address_in_range stack address then
        size ← read (task_stack_size task);
        '(grown, size) ← prs_stack_grow stack size address;
        _ ← write (task_stack_size task) size;
        mret (if (grown : bool) then PRS_EXCP_RESULT_CONTINUE else PRS_EXCP_RESULT_EXIT)
      else mret PRS_EXCP_RESULT_EXIT
  | None => mret PRS_EXCP_RESULT_EXIT
  end.

Definition prs_excp_default_handler (a : excp_args) : prog kern prs_excp_result :=
  match xa_excp a with
  | PRS_EXCP_TYPE_UNKNOWN | PRS_EXCP_TYPE_ASSERT => mret PRS_EXCP_RESULT_EXIT
  | PRS_EXCP_TYPE_USER => mret PRS_EXCP_RESULT_CONTINUE
  | PRS_EXCP_TYPE_PRS => info ← pure (deref (ex_info (xa_extra a))); mret (ri_behavior info)
  | PRS_EXCP_TYPE_OS => mret PRS_EXCP_RESULT_EXIT
  | PRS_EXCP_TYPE_STACK_OVERFLOW => excp_stack_overflow (xa_task a) (ex_address (xa_extra a))
  | PRS_EXCP_TYPE_SEGMENTATION_FAULT | PRS_EXCP_TYPE_ILLEGAL_INSTRUCTION | PRS_EXCP_TYPE_INTEGER
  | PRS_EXCP_TYPE_FLOATING_POINT | PRS_EXCP_TYPE_BUS =>
      match xa_task a with
      | Some _ =>
          user ← prs_proc_is_user_text (ex_address (xa_extra a));
          mret (if (user : bool) then PRS_EXCP_RESULT_KILL_TASK else PRS_EXCP_RESULT_EXIT)
      | None => mret PRS_EXCP_RESULT_EXIT
      end
  | PRS_EXCP_TYPE_USER_INTERRUPT => mret PRS_EXCP_RESULT_EXIT
  end.

(** What is done with the answer of a handler: whether the next one is to be called. *)
Definition excp_act (a : excp_args) (result : prs_excp_result) : prog kern bool :=
  match result with
  | PRS_EXCP_RESULT_EXIT => _ ← prs_exit_from_excp (-1); mret false
  | PRS_EXCP_RESULT_KILL_TASK =>
      task ← nonnull (xa_task a);
      _ ← prs_task_destroy fuel self task;
      worker ← nonnull (xa_worker a);
      _ ← match xa_context a with
          | Some context => prs_worker_restore_context worker context
          | None => sched_worker_schedule fuel worker
          end;
      mret false
  | PRS_EXCP_RESULT_CONTINUE => mret false
  | PRS_EXCP_RESULT_FORWARD => mret true
  end.

Definition prs_excp_process (handler : excp_args → prog kern prs_excp_result) (a : excp_args) : prog kern bool :=
  result ← handler a;
  excp_act a result.

(** The registered handlers, in the order in which they are called. *)
Fixpoint excp_process_all `{!ExcpHandlers} (handlers : list loc) (a : excp_args) : prog kern bool :=
  match handlers with
  | [] => mret true
  | handler :: handlers =>
      next ← prs_excp_process (excp_handler handler) a;
      if (next : bool) then excp_process_all handlers a else mret false
  end.

(** [prs_mpscq_rforeach] starts from the newest node. *)
Definition prs_excp_raise `{!ExcpHandlers} (excp : prs_excp_type) (extra : excp_extra) (worker context : ptr) :
    prog kern unit :=
  task ← match worker with Some worker => prs_worker_get_current_task worker | None => mret None end;
  let a := ExcpArgs excp extra worker task context in
  s ← read s_prs_excp;
  next ← match s with
         | Some s =>
             queue ← read (excp_handlers s);
             handlers ← mpscq_data queue;
             excp_process_all (reverse handlers) a
         | None => mret true
         end;
  if (next : bool) then
    next ← prs_excp_process prs_excp_default_handler a;
    if (next : bool) then prs_exit_from_excp (-1) else mret tt
  else mret tt.

Definition prs_excp_register_handler (handler : loc) : prog kern prs_result :=
  s ← read s_prs_excp;
  s ← nonnull s;
  queue ← read (excp_handlers s);
  mpscq_push queue handler.

Definition prs_excp_init : prog kern unit :=
  s ← alloc_block k_excps with_excps None;
  _ ← write s_prs_excp s;
  _ ← fatal_if (bool_decide (s = None));
  s ← nonnull s;
  handlers ← mpscq_create;
  _ ← write (excp_handlers s) handlers;
  fatal_if (bool_decide (handlers = None)).

(** [address]: the information of the error is on the caller's stack. *)
Definition prs_error `{!ExcpHandlers} (error : prs_error_type) (address : Z) : prog kern unit :=
  prs_excp_raise PRS_EXCP_TYPE_PRS (ExcpExtra address (Some (PrsExcpRaiseInfo (prs_error_type_to_excp_behavior error))))
    (prs_worker_current self) None.
End excp.

(** ** Which handler decides *)

(** The handlers forward the exception, one after the other. *)
Fixpoint forwards `{!ExcpHandlers} (handlers : list loc) (a : excp_args) (c c' : kern) : Prop :=
  match handlers with
  | [] => c = c'
  | handler :: handlers =>
      ∃ c1, run (excp_handler handler a) c = Ret (Some PRS_EXCP_RESULT_FORWARD, c1) ∧ forwards handlers a c1 c'
  end.

(** The handlers that are registered, the oldest first. *)
Definition registered (c : kern) (handlers : list loc) : Prop :=
  ∃ s q ns, k_excp c = Some s ∧ k_excps c !! s = Some (Some q) ∧ k_mpscqs c !! q = Some ns ∧ ns.*2 = handlers.

Section dispatch.
Context `{!ObjectFree, !Pit, !TaskParts, !ProcObjects, !ExcpParts, !ExcpHandlers} (fuel : nat) (self : ptr).

Lemma run_forwards handlers rest a c c' :
  forwards handlers a c c' →
  run (excp_process_all fuel self (handlers ++ rest) a) c = run (excp_process_all fuel self rest a) c'.
Proof using Type.
  revert c. induction handlers as [|h hs IH]; intros c; simpl; [by intros ->|]. intros (c1 & Hrun & Hf).
  eapply run_seq; [eapply run_seq; [exact Hrun|done]|]. by apply IH.
Qed.

(** Up to the walk over the handlers. *)
Lemma run_raise excp extra worker context c handlers task R :
  registered c handlers → current_is c worker task →
  run (next ← excp_process_all fuel self (reverse handlers) (ExcpArgs excp extra worker task context);
       if (next : bool) then
         next ← prs_excp_process fuel self prs_excp_default_handler (ExcpArgs excp extra worker task context);
         if (next : bool) then prs_exit_from_excp (-1) else mret tt
       else mret tt) c = R →
  run (prs_excp_raise fuel self excp extra worker context) c = R.
Proof using Type.
  intros (s & q & ns & Hs & Hq & Hns & <-) Htask HR. unfold prs_excp_raise.
  eapply (run_seq _ _ _ task).
  { destruct worker as [w|]; simpl in Htask; [|by rewrite Htask].
    apply fmap_Some in Htask as (e & He & ->). apply run_load. eapply field_get. exact He. }
  eapply run_seq; [apply run_load; cbn; by rewrite Hs|].
  rewrite !run_bind in HR. rewrite run_bind.
  assert (run (queue ← read (excp_handlers s); handlers ← mpscq_data queue;
    excp_process_all fuel self (reverse handlers) (ExcpArgs excp extra worker task context)) c =
    run (excp_process_all fuel self (reverse ns.*2) (ExcpArgs excp extra worker task context)) c) as ->; [|exact HR].
  eapply run_seq; [apply run_load; eapply field_get; exact Hq|]. cbn [id].
  eapply run_seq; [eapply run_seq; [done|]; eapply run_seq; [apply run_load; eapply field_get; exact Hns|done]|]. done.
Qed.

Lemma run_bind_inv {A B : Type} (p : prog kern A) (k : A → prog kern B) b c c' :
  run (p ≫= k) c = Ret (Some b, c') → ∃ a c1, run (k a) c1 = Ret (Some b, c').
Proof using Type. rewrite run_bind. destruct (run p c) as [[[a|] c1]| |]; ocbn; [|done..]. eauto. Qed.

Lemma excp_act_stops a result b c c' :
  result ≠ PRS_EXCP_RESULT_FORWARD → run (excp_act fuel self a result) c = Ret (Some b, c') → b = false.
Proof using Type.
  intros Hne Hrun. destruct result; [| | |done].
  - apply run_bind_inv in Hrun as (? & ? & Hrun). by simplify_eq/=.
  - do 4 apply run_bind_inv in Hrun as (? & ? & Hrun). by simplify_eq/=.
  - by simplify_eq/=.
Qed.

(** C20: An exception is handled by one handler: the newest registered one that does not
    forward it, with the older ones not called; by the default handler when all of them
    forward it.  An error that comes to the default handler does what its type says: go on,
    destroy the task, or exit. *)
Theorem excp_raise_exact (excp : prs_excp_type) (extra : excp_extra) (worker context task : ptr)
    (olds news : list loc) (h : loc) (result : prs_excp_result) (error : prs_error_type) (address : Z) (c c1 c2 : kern)
  (Htask : current_is c worker task)
  (Hnews : forwards (reverse news) (ExcpArgs excp extra worker task context) c c1) :
  (registered c (olds ++ h :: news) → result ≠ PRS_EXCP_RESULT_FORWARD →
   run (excp_handler h (ExcpArgs excp extra worker task context)) c1 = Ret (Some result, c2) →
   run (prs_excp_raise fuel self excp extra worker context) c =
     run (_ ← excp_act fuel self (ExcpArgs excp extra worker task context) result; mret tt) c2) ∧
  (registered c news →
   run (prs_excp_raise fuel self excp extra worker context) c =
     run (next ← prs_excp_process fuel self prs_excp_default_handler (ExcpArgs excp extra worker task context);
          if (next : bool) then prs_exit_from_excp (-1) else mret tt) c1) ∧
  (registered c news → excp = PRS_EXCP_TYPE_PRS → worker = self → context = None →
   extra = ExcpExtra address (Some (PrsExcpRaiseInfo (prs_error_type_to_excp_behavior error))) →
   run (prs_error fuel self error address) c =
     match error with
     | PRS_ERROR_TYPE_CONTINUE => Ret (Some tt, c1)
     | PRS_ERROR_TYPE_KILL_TASK =>
         run (_ ← excp_act fuel self (ExcpArgs excp extra worker task context) PRS_EXCP_RESULT_KILL_TASK; mret tt) c1
     | PRS_ERROR_TYPE_FATAL => run (prs_exit_from_excp (-1)) c1
     end).
Proof using Type.
  assert (registered c news →
    run (prs_excp_raise fuel self excp extra worker context) c =
      run (next ← prs_excp_process fuel self prs_excp_default_handler (ExcpArgs excp extra worker task context);
           if (next : bool) then prs_exit_from_excp (-1) else mret tt) c1) as Hdefault.
  { intros Hreg. eapply run_raise; [exact Hreg|exact Htask|].
    pose proof (run_forwards _ [] _ _ _ Hnews) as Hf. rewrite app_nil_r in Hf. by rewrite run_bind, Hf. }
  split; [|split; [done|]].
  - intros Hreg Hne Hrun. eapply run_raise; [exact Hreg|exact Htask|].
    rewrite reverse_app, reverse_cons, <- (assoc_L (++)). rewrite run_bind, (run_forwards _ _ _ _ _ Hnews).
    cbn [app excp_process_all].
    assert (∀ B (k : bool → prog kern B), run (prs_excp_process fuel self (excp_handler h) (ExcpArgs excp extra worker task context) ≫= k) c1 =
      run (excp_act fuel self (ExcpArgs excp extra worker task context) result ≫= k) c2) as ->.
    { intros B k. rewrite !run_bind.
      assert (run (prs_excp_process fuel self (excp_handler h) (ExcpArgs excp extra worker task context)) c1 =
        run (excp_act fuel self (ExcpArgs excp extra worker task context) result) c2) as -> by by eapply run_seq. done. }
    rewrite !run_bind. destruct (run (excp_act _ _ _ _) c2) as [[[b|] c3]| |] eqn:Hact; ocbn; [|done..].
    by rewrite (excp_act_stops _ _ _ _ _ Hne Hact).
  - intros Hreg -> -> -> ->. unfold prs_error. change (prs_worker_current self) with self. rewrite (Hdefault Hreg).
    assert (∀ r, r ≠ PRS_EXCP_RESULT_FORWARD → ∀ a, run (next ← excp_act fuel self a r; if (next : bool) then prs_exit_from_excp (-1) else mret tt) c1 =
      run (_ ← excp_act fuel self a r; mret tt) c1) as Hend.
    { intros r Hr a. rewrite !run_bind. destruct (run (excp_act _ _ _ _) c1) as [[[b|] c3]| |] eqn:Hact; ocbn; [|done..].
      by rewrite (excp_act_stops _ _ _ _ _ Hr Hact). }
    destruct error; [done|by apply (Hend PRS_EXCP_RESULT_KILL_TASK)|].
    etransitivity; [by apply (Hend PRS_EXCP_RESULT_EXIT)|]. cbn [excp_act]. rewrite !run_bind.
    destruct (run (prs_exit_from_excp (-1)) c1) as [[[[]|] c3]| |]; done.
Qed.
End dispatch.

(** Handlers 5 and 6: the newer one, 6, continues after a user exception and forwards the
    others. *)
Definition demo_handlers : ExcpHandlers := λ h a,
  mret (if decide (h = 6%positive) then
    match xa_excp a with PRS_EXCP_TYPE_USER => PRS_EXCP_RESULT_CONTINUE | _ => PRS_EXCP_RESULT_FORWARD end
  else PRS_EXCP_RESULT_FORWARD).

Definition demo_excp_kern : kern :=
  with_excp (Some 1%positive) (with_excps {[ 1%positive := Some 2%positive ]}
    (with_mpscqs {[ 2%positive := [(3%positive, 5%positive); (4%positive, 6%positive)] ]} kern_empty)).

Definition demo_parts : TaskParts := {|
  prs_stack_create := λ _, mret (None, 0);
  prs_stack_destroy := λ _, mret tt;
  prs_msgq_create := mret None;
  prs_msgq_destroy := λ _, mret tt;
  prs_pal_os_get_page_size := 4096;
  prs_pal_context_make := λ _ _ _, mret tt;
  task_entry_call := λ _ _, mret tt
|}.
Definition demo_pit : Pit := {| prs_pal_pit_create := λ _ _, mret None; prs_pal_pit_destroy := λ _, mret tt |}.
Definition demo_service : ProcService := {| send_unreg_object := λ _ _ _ _, mret tt; proc_svc_name := [] |}.
Definition demo_excp_parts : ExcpParts := {|
  prs_stack_address_in_range := λ _ _, false;
  prs_stack_grow := λ _ _ _, mret (false, 0);
  prs_exit_from_excp := λ _, mret tt
|}.

Lemma excp_raise_exact_witness :
  let free : ObjectFree := λ _ _, mret tt in
  let pit := demo_pit in let parts := demo_parts in let service := demo_service in
  let ends := demo_excp_parts in let handlers := demo_handlers in
  run (prs_excp_raise 0 None PRS_EXCP_TYPE_USER (ExcpExtra 0 None) None None) demo_excp_kern = Ret (Some tt, demo_excp_kern) ∧
  run (prs_error 0 None PRS_ERROR_TYPE_CONTINUE 64) demo_excp_kern = Ret (Some tt, demo_excp_kern).
Proof.
  intros free pit parts service ends handlers. split.
  - destruct (excp_raise_exact 0 None PRS_EXCP_TYPE_USER (ExcpExtra 0 None) None None None [5%positive] [] 6%positive
      PRS_EXCP_RESULT_CONTINUE PRS_ERROR_TYPE_FATAL 0 demo_excp_kern demo_excp_kern demo_excp_kern) as (H & _); [done|done|].
    apply H; [|done|done]. by exists 1%positive, 2%positive, [(3%positive, 5%positive); (4%positive, 6%positive)].
  - destruct (excp_raise_exact 0 None PRS_EXCP_TYPE_PRS (ExcpExtra 64 (Some (PrsExcpRaiseInfo PRS_EXCP_RESULT_CONTINUE))) None None None
      [] [5%positive; 6%positive] 7%positive PRS_EXCP_RESULT_EXIT PRS_ERROR_TYPE_CONTINUE 64 demo_excp_kern demo_excp_kern demo_excp_kern)
      as (_ & _ & H); [done| |].
    + by exists demo_excp_kern; split; [|exists demo_excp_kern].
    + apply H; [|done..]. by exists 1%positive, 2%positive, [(3%positive, 5%positive); (4%positive, 6%positive)].
Defined.
