(* ===== verification/Pr.v ===== *)
(** * The application interface (prs/pr.c) and the requests to the process service
    (include/prs/svc/proc.msg)

    Each call of an application keeps interrupts away while it runs, and goes to the module
    that does the work.  [self] is the worker of the calling thread, [address] the address of
    the information that [prs_error] puts on its stack.  A message and its payload
    ([PRS_MSG_FROM_DATA]) are known by the same address. *)

From S2P Require Import Prelude Str Heap Atomic RefDir Pd Kern Pal Worker Task Event EventRun Timer Clock.
From S2P Require Import Name Sched TaskLife Sem Msgq Proc Excp.

(** [prs_ticks_t] is 32 bits wide. *)
Definition PRS_TICKS_FROM_MS (ms : Z) : Z := u32 (u32 ms * PRS_HZ) / 1000.

(** The [i]th 32-bit word of a block of bytes, and the bytes of a word. *)
Definition load32 (b : list Z) (i : Z) : outcome Z :=
  b0 ← load b (4 * i); b1 ← load b (4 * i + 1); b2 ← load b (4 * i + 2); b3 ← load b (4 * i + 3);
  Ret (b0 + 256 * b1 + 65536 * b2 + 16777216 * b3).
Definition bytes32 (x : Z) : list Z := [x mod 256; x / 256 mod 256; x / 65536 mod 256; x / 16777216 mod 256].

(** ** Messages *)

Definition msg_owner := field k_msgs with_msgs mg_owner set_mg_owner.
Definition msg_sender := field k_msgs with_msgs mg_sender set_mg_sender.
Definition msg_data := field k_msgs with_msgs mg_data set_mg_data.

(** [enum pr_id_class], [enum pr_id_svc] and the macros of pr_msg.h. *)
Definition PR_ID_CLASS_PR : Z := 176.
Definition PR_ID_SVC_PROC : Z := 1.
Definition PR_ID_CLASS (class : Z) : Z := u32 (Z.shiftl class 24).
Definition PR_ID_SVC (svc : Z) : Z := u32 (Z.shiftl svc 16).
Definition PR_ID_CREATE (class svc id : Z) : Z := Z.lor (Z.lor (PR_ID_CLASS class) (PR_ID_SVC svc)) id.

Definition PRS_PROC_MSG_ID_EXEC_REQUEST : Z := PR_ID_CREATE PR_ID_CLASS_PR PR_ID_SVC_PROC 0.
Definition PRS_PROC_MSG_ID_EXEC_RESPONSE : Z := PR_ID_CREATE PR_ID_CLASS_PR PR_ID_SVC_PROC 1.
Definition PRS_PROC_MSG_ID_KILL_REQUEST : Z := PR_ID_CREATE PR_ID_CLASS_PR PR_ID_SVC_PROC 2.
Definition PRS_PROC_MSG_ID_KILL_RESPONSE : Z := PR_ID_CREATE PR_ID_CLASS_PR PR_ID_SVC_PROC 3.
Definition PRS_PROC_MSG_ID_UNREG_OBJECT_REQUEST : Z := PR_ID_CREATE PR_ID_CLASS_PR PR_ID_SVC_PROC 4.
Definition PRS_PROC_MSG_ID_UNREG_OBJECT_RESPONSE : Z := PR_ID_CREATE PR_ID_CLASS_PR PR_ID_SVC_PROC 5.

(** The word that every payload starts with. *)
Definition msg_id (m : pr_msg) : Z :=
  match m with
  | MsgOther id _ => id
  | ExecRequest _ _ _ _ _ _ _ _ => PRS_PROC_MSG_ID_EXEC_REQUEST
  | ExecResponse _ => PRS_PROC_MSG_ID_EXEC_RESPONSE
  | KillRequest _ _ => PRS_PROC_MSG_ID_KILL_REQUEST
  | KillResponse _ => PRS_PROC_MSG_ID_KILL_RESPONSE
  | UnregObjectRequest _ _ _ => PRS_PROC_MSG_ID_UNREG_OBJECT_REQUEST
  | UnregObjectResponse _ _ => PRS_PROC_MSG_ID_UNREG_OBJECT_RESPONSE
  end.

(** [sizeof] of the structures, and of their largest part that is written. *)
Definition sizeof_msg (m : pr_msg) : Z :=
  match m with
  | MsgOther _ payload => 4 + Z.of_nat (length payload)
  | ExecRequest _ _ _ _ _ _ _ _ => 592
  | ExecResponse _ => 8
  | KillRequest _ _ => 12
  | KillResponse _ => 8
  | UnregObjectRequest _ _ _ => 16
  | UnregObjectResponse _ _ => 12
  end.

(** The fields of a structure are written to the payload, which must have room for them. *)
Definition fill_msg (msg : loc) (m : pr_msg) : prog kern unit :=
  size ← get_field k_msgs mg_size msg;
  if size <? sizeof_msg m then pure Undef else write (msg_data msg) m.

(** The filter function of the application's filters: a count, and as many message IDs. *)
Fixpoint filter_loop (n : nat) (filter : list Z) (i id : Z) : outcome bool :=
  match n with
  | O => Ret false
  | S n =>
      x ← load32 filter i;
      if x =? id then Ret true else filter_loop n filter (i + 1) id
  end.

Definition pr_msgq_filter_function (userdata : ptr) (msg : loc) : prog kern bool :=
  userdata ← nonnull userdata;
  m ← read (msg_data msg);
  filter ← read (block userdata);
  count ← pure (load32 filter 0);
  pure (filter_loop (Z.to_nat count) filter 1 (msg_id m)).

(** It is the only filter function of the program. *)
#[export] Instance pr_filters : MsgFilters := λ _, pr_msgq_filter_function.

Section pr.
Context `{!ObjectFree, !Pit, !TaskParts, !ProcService, !ExcpParts, !ExcpHandlers}.
Context (choices fuel : nat) (self : ptr) (filter_function_address : loc) (address : Z).

(** [PR_INT_DISABLE] and [PR_INT_ENABLE]. *)
Definition int_masked {A : Type} (body : prog kern A) : prog kern A :=
  disabled ← match prs_worker_current self with
             | Some worker => prs_worker_int_disable worker
             | None => mret false
             end;
  result ← body;
  _ ← (if (disabled : bool) then
         worker ← nonnull self;
         let _ : GetNext := prs_sched_get_next fuel in prs_worker_int_enable fuel worker
       else mret tt);
  mret result.

(** [PRS_ERROR] and [PRS_KILL_TASK_WHEN]. *)
Definition error_continue : prog kern unit := prs_error fuel self PRS_ERROR_TYPE_CONTINUE address.
Definition kill_task : prog kern unit := prs_error fuel self PRS_ERROR_TYPE_KILL_TASK address.
Definition kill_task_when (b : bool) : prog kern unit := if b then kill_task else mret tt.

Definition pr_get_current_worker : prog kern loc :=
  _ ← fatal_if (bool_decide (prs_worker_current self = None));
  nonnull (prs_worker_current self).

Definition pr_get_current_task : prog kern loc :=
  worker ← pr_get_current_worker;
  task ← prs_worker_get_current_task worker;
  _ ← fatal_if (bool_decide (task = None));
  nonnull task.

Definition pr_int_disable : prog kern bool := worker ← pr_get_current_worker; prs_worker_int_disable worker.
Definition pr_int_enable : prog kern unit :=
  worker ← pr_get_current_worker;
  let _ : GetNext := prs_sched_get_next fuel in prs_worker_int_enable fuel worker.

Definition pr_ticks_get : prog kern Z := prs_clock_get.
Definition pr_ticks_per_second : Z := PRS_HZ.

(** The contents of the application's blocks are its own. *)
Definition pr_malloc (size : Z) : prog kern ptr :=
  int_masked (act (λ c, let (p, h) := prs_pal_malloc (k_heap c) in Ret (p, with_heap h c))).
Definition pr_free (p : ptr) : prog kern unit :=
  int_masked (act (λ c, h ← prs_pal_free p (k_heap c); Ret (tt, with_heap h c))).

Definition pr_sched_get_current : prog kern Z := task ← pr_get_current_task; read (task_sched_id task).
Definition pr_sched_find (name : list Z) : prog kern Z := int_masked (prs_sched_find fuel name).

(** ** Tasks *)

Definition pr_task_get_current : prog kern Z :=
  worker ← pr_get_current_worker;
  task ← prs_worker_get_current_task worker;
  task ← nonnull task;
  prs_task_get_id task.

(** A call on the task with an ID, or the answer when there is none. *)
Definition with_task {A : Type} (task_id : Z) (none : A) (body : loc → prog kern A) : prog kern A :=
  int_masked (
    task ← god_lock task_id;
    match task with
    | None => _ ← error_continue; mret none
    | Some task => result ← body task; _ ← god_unlock task_id; mret result
    end).

(** The result, and the priority stored through [prio] when there is one. *)
Definition pr_task_get_prio (task_id : Z) : prog kern (prs_result * option Z) :=
  with_task task_id (PRS_NOT_FOUND, None) (λ task, prio ← prs_task_get_prio task; mret (PRS_OK, Some prio)).

Definition pr_task_set_prio (task_id prio : Z) : prog kern prs_result :=
  with_task task_id PRS_NOT_FOUND (λ task,
    worker ← nonnull self; _ ← prs_task_set_prio worker task prio; mret PRS_OK).

Definition pr_task_get_stack_size (task_id : Z) : prog kern Z :=
  with_task task_id 0 (λ task, read (task_stack_size task)).

(** [struct pr_task_create_params] is that of the task and the scheduler. *)
Definition pr_task_create (params : prs_task_create_params) (sched_id : Z) : prog kern Z :=
  '(name, _) ← pure (prs_str_copy (replicate 32 0) (tcp_name params) 32);
  let task_params := PrsTaskCreateParams name (tcp_userdata params) (tcp_stack_size params) (tcp_prio params)
    (tcp_entry params) in
  int_masked (
    task ← prs_task_create fuel self task_params;
    match task with
    | Some task =>
        id ← read (task_id task);
        _ ← prs_sched_add_task sched_id id;
        prs_task_get_id task
    | None => mret 0
    end).

Definition pr_task_find (name : list Z) : prog kern Z := int_masked (prs_task_find fuel name).

(** ** Messages *)

(** The header and the payload are one block of the heap. *)
Definition pr_msg_alloc (id size : Z) : prog kern loc :=
  task ← pr_get_current_task;
  int_masked (
    pmsg ← int_masked (alloc_block k_msgs with_msgs (PrsMsg 0 0 size (MsgOther 0 [])));
    _ ← fatal_if (bool_decide (pmsg = None));
    pmsg ← nonnull pmsg;
    task_id ← prs_task_get_id task;
    _ ← write (msg_owner pmsg) task_id;
    task_id ← prs_task_get_id task;
    _ ← write (msg_sender pmsg) task_id;
    _ ← fill_msg pmsg (MsgOther id []);
    mret pmsg).

Definition pr_msg_free (msg : loc) : prog kern unit := int_masked (int_masked (free_block k_msgs with_msgs msg)).

Definition pr_msg_send (task_id : Z) (msg : loc) : prog kern unit :=
  int_masked (
    task ← god_lock task_id;
    match task with
    | None =>
        _ ← error_continue;
        pr_msg_free msg
    | Some task =>
        id ← prs_task_get_id task;
        _ ← write (msg_owner msg) id;
        current ← pr_get_current_task;
        sender ← prs_task_get_id current;
        _ ← write (msg_sender msg) sender;
        msgq ← read (task_msgq task);
        msgq ← nonnull msgq;
        _ ← prs_msgq_send self msgq msg;
        god_unlock task_id
    end).

(** The queue of the current task, with interrupts off. *)
Definition with_msgq {A : Type} (body : loc → prog kern A) : prog kern A :=
  task ← pr_get_current_task;
  int_masked (
    msgq ← read (task_msgq task);
    msgq ← nonnull msgq;
    body msgq).

Definition pr_msg_recv : prog kern loc :=
  pmsg ← with_msgq (prs_msgq_recv fuel self);
  nonnull pmsg.

(** The size of a filter, a count and that many IDs, and the checks on it. *)
Definition filter_size (filter : ptr) : prog kern Z :=
  _ ← kill_task_when (bool_decide (filter = None));
  filter ← nonnull filter;
  bytes ← read (block filter);
  count ← pure (load32 bytes 0);
  _ ← kill_task_when (16 <? count);
  bytes ← read (block filter);
  count ← pure (load32 bytes 0);
  mret (u32 (count + 1) * 4).

Definition pr_msg_recv_filter (filter : ptr) : prog kern loc :=
  size ← filter_size filter;
  pmsg ← with_msgq (λ msgq, prs_msgq_recv_filter fuel self msgq filter size filter_function_address);
  nonnull pmsg.

Definition pr_msg_recv_timeout (ticks : Z) : prog kern ptr :=
  with_msgq (λ msgq, prs_msgq_recv_timeout fuel self msgq ticks).

Definition pr_msg_recv_filter_timeout (filter : ptr) (ticks : Z) : prog kern ptr :=
  size ← filter_size filter;
  with_msgq (λ msgq, prs_msgq_recv_filter_timeout fuel self msgq filter size filter_function_address ticks).

Definition pr_msg_get_sender (msg : loc) : prog kern Z := read (msg_sender msg).

(** ** Semaphores *)

Definition pr_sem_create (params : prs_sem_create_params) : prog kern Z :=
  sem ← int_masked (prs_sem_create params);
  sem ← nonnull sem;
  read (sem_id sem).

(** A call on the semaphore with an ID, or the answer when there is none. *)
Definition with_sem {A : Type} (sem_id : Z) (none : A) (body : loc → prog kern A) : prog kern A :=
  int_masked (
    sem ← god_lock sem_id;
    match sem with
    | None => mret none
    | Some sem => result ← body sem; _ ← god_unlock sem_id; mret result
    end).

Definition pr_sem_destroy (sem_id : Z) : prog kern unit := with_sem sem_id tt prs_sem_destroy.
Definition pr_sem_wait (sem_id : Z) : prog kern unit := with_sem sem_id tt (prs_sem_wait choices fuel self kill_task).
Definition pr_sem_wait_timeout (sem_id timeout : Z) : prog kern prs_result :=
  with_sem sem_id PRS_NOT_FOUND (λ sem, prs_sem_wait_timeout choices fuel self kill_task sem timeout).
Definition pr_sem_signal (sem_id : Z) : prog kern unit := with_sem sem_id tt (prs_sem_signal choices fuel self).

(** ** Scheduling *)

Definition pr_yield : prog kern unit := int_masked (prs_sched_yield fuel self).
Definition pr_stop : prog kern unit := int_masked (prs_sched_block fuel self).
Definition pr_sleep_ticks (ticks : Z) : prog kern unit := int_masked (prs_sched_sleep fuel self ticks).
Definition pr_sleep_ms (ms : Z) : prog kern unit := pr_sleep_ticks (PRS_TICKS_FROM_MS ms).
Definition pr_sleep_us (us : Z) : prog kern unit := pr_sleep_ticks (PRS_TICKS_FROM_US us).
End pr.

(** ** The filters of an application *)

(** The 32-bit words [ws], as bytes. *)
Definition words_bytes (ws : list Z) : list Z := concat (bytes32 <$> ws).

Lemma load_0 {A : Type} (x : A) b : load (x :: b) 0 = Ret x.
Proof. done. Qed.

Lemma load_skip {A : Type} (xs b : list A) i :
  0 ≤ i → load (xs ++ b) (Z.of_nat (length xs) + i) = load b i.
Proof.
  intros Hi. unfold load. rewrite (proj2 (Z.leb_le _ _)), (proj2 (Z.leb_le 0 i)) by lia.
  rewrite lookup_app_r by lia. do 2 f_equal. lia.
Qed.

Lemma load32_here w ws : 0 ≤ w < 2 ^ 32 → load32 (words_bytes (w :: ws)) 0 = Ret w.
Proof.
  intros Hw. unfold load32, words_bytes. cbn [fmap list_fmap concat bytes32 app].
  transitivity (Ret (w mod 256 + 256 * (w / 256 mod 256) + 65536 * (w / 65536 mod 256) + 16777216 * (w / 16777216 mod 256)));
    [reflexivity|f_equal].
  pose proof (Z.div_mod w 256 ltac:(lia)). pose proof (Z.div_mod (w / 256) 256 ltac:(lia)).
  pose proof (Z.div_mod (w / 65536) 256 ltac:(lia)). pose proof (Z.div_mod (w / 16777216) 256 ltac:(lia)).
  assert (w / 256 / 256 = w / 65536) as He1 by (rewrite Z.div_div by lia; done).
  assert (w / 65536 / 256 = w / 16777216) as He2 by (rewrite Z.div_div by lia; done).
  assert (w / 16777216 / 256 = 0) as He3 by (rewrite Z.div_div by lia; apply Z.div_small; lia).
  lia.
Qed.

Lemma load32_there w ws i : 0 ≤ i → load32 (words_bytes (w :: ws)) (i + 1) = load32 (words_bytes ws) i.
Proof.
  intros Hi. unfold load32. change (words_bytes (w :: ws)) with (bytes32 w ++ words_bytes ws).
  replace (4 * (i + 1)) with (Z.of_nat (length (bytes32 w)) + 4 * i) by (cbn; lia).
  rewrite <- !Z.add_assoc, !load_skip by lia. done.
Qed.

Lemma load32_word ws (i : nat) w :
  Forall (λ w, 0 ≤ w < 2 ^ 32) ws → ws !! i = Some w → load32 (words_bytes ws) (Z.of_nat i) = Ret w.
Proof.
  revert i. induction ws as [|w' ws IH]; intros i Hws Hi; [done|].
  apply Forall_cons in Hws as [Hw' Hws]. destruct i as [|i].
  - injection Hi as ->. by apply load32_here.
  - rewrite Nat2Z.inj_succ, <- Z.add_1_r, load32_there by lia. by apply IH.
Qed.

Lemma filter_loop_words pre ids n id :
  Forall (λ w, 0 ≤ w < 2 ^ 32) (pre ++ ids) → n = length ids →
  filter_loop n (words_bytes (pre ++ ids)) (Z.of_nat (length pre)) id = Ret (bool_decide (id ∈ ids)).
Proof.
  revert pre n. induction ids as [|x ids IH]; intros pre n Hws ->; [done|].
  cbn [length filter_loop]. rewrite (load32_word _ (length pre) x); [|done|by rewrite list_lookup_middle].
  ocbn. destruct (Z.eqb_spec x id) as [->|Hne].
  - rewrite bool_decide_true by (by left). done.
  - rewrite cons_middle, app_assoc in Hws |- *. specialize (IH (pre ++ [x]) _ Hws eq_refl).
    rewrite length_app in IH. cbn [length] in IH. replace (Z.of_nat (length pre) + 1) with (Z.of_nat (length pre + 1)) by lia.
    rewrite IH. f_equal. apply bool_decide_ext. rewrite elem_of_cons. naive_solver.
Qed.

(** The filter of the IDs [ids]. *)
Definition filter_bytes (ids : list Z) : list Z := words_bytes (Z.of_nat (length ids) :: ids).

Definition filter_ids_ok (ids : list Z) : Prop :=
  Forall (λ w, 0 ≤ w < 2 ^ 32) ids ∧ (length ids ≤ 16)%nat.

Lemma filter_words_ok ids : filter_ids_ok ids → Forall (λ w, 0 ≤ w < 2 ^ 32) (Z.of_nat (length ids) :: ids).
Proof. intros [Hids Hlen]. constructor; [lia|done]. Qed.

Lemma run_filter_function c f msg m ids :
  filter_ids_ok ids → k_blocks c !! f = Some (filter_bytes ids) → k_msgs c !! msg = Some m →
  run (pr_msgq_filter_function (Some f) msg) c = Ret (Some (bool_decide (msg_id (mg_data m) ∈ ids)), c).
Proof.
  intros Hids Hf Hm. pose proof (proj2 Hids) as Hlen. unfold pr_msgq_filter_function. eapply run_seq; [apply run_nonnull|].
  eapply run_seq; [apply run_load; eapply field_get; exact Hm|].
  eapply run_seq; [apply run_load; eapply field_get; exact Hf|].
  eapply run_seq; [apply run_pure; unfold id, filter_bytes; apply load32_here; lia|].
  apply run_pure. pose proof (filter_loop_words [Z.of_nat (length ids)] ids (length ids) (msg_id (mg_data m))) as Hl.
  cbn [app length] in Hl. rewrite Nat2Z.id. apply Hl; [by apply filter_words_ok|done].
Qed.

(** ** Calls with interrupts off

    An ordinary task runs with interrupts enabled, that is, with the flag
    [PRS_WORKER_FLAG_INTERRUPTIBLE] of its worker set (task.c, [prs_task_entry]); a call
    clears it and sets it again, unless an interrupt is pending by then.  A call within
    another one finds it cleared and leaves it so. *)
Definition quiet (c : kern) (self : ptr) : Prop :=
  match self with
  | None => True
  | Some w => ∃ e, k_workers c !! w = Some e ∧
      (Z.land (wk_flags e) (not32 PRS_WORKER_FLAG_INTERRUPTIBLE) = wk_flags e ∨ wk_flags e = PRS_WORKER_FLAG_INTERRUPTIBLE)
  end.

(** The memory while the call runs. *)
Definition mask_worker (e : prs_worker) : prs_worker :=
  set_wk_flags (Z.land (wk_flags e) (not32 PRS_WORKER_FLAG_INTERRUPTIBLE)) e.
Definition masked (self : ptr) (c : kern) : kern :=
  match self with Some w => with_workers (alter mask_worker w (k_workers c)) c | None => c end.

Lemma not_interruptible f :
  Z.land f (not32 PRS_WORKER_FLAG_INTERRUPTIBLE) = f → has f PRS_WORKER_FLAG_INTERRUPTIBLE = false.
Proof. intros <-. unfold has. by rewrite <- Z.land_assoc, Z.land_0_r. Qed.

Lemma with_workers_same c : with_workers (k_workers c) c = c.
Proof. by destruct c. Qed.

Lemma mask_worker_mask e : mask_worker (mask_worker e) = mask_worker e.
Proof. unfold mask_worker. destruct e. cbn. by rewrite <- Z.land_assoc, Z.land_diag. Qed.

Lemma quiet_masked c self : quiet c self → quiet (masked self c) self ∧ masked self (masked self c) = masked self c.
Proof.
  destruct self as [w|]; [|done]. intros (e & He & Hf). cbn. split.
  - exists (mask_worker e). rewrite lookup_alter_eq, He. split; [done|left]. cbn. by rewrite <- Z.land_assoc, Z.land_diag.
  - change (with_workers (alter mask_worker w (alter mask_worker w (k_workers c))) c = with_workers (alter mask_worker w (k_workers c)) c).
    f_equal. apply map_eq. intros v. destruct (decide (v = w)) as [->|Hne].
    + rewrite !lookup_alter_eq, He. cbn. by rewrite mask_worker_mask.
    + by rewrite !lookup_alter_ne.
Qed.

(** Enabling interrupts when none is pending. *)
Lemma run_int_enable `{!GetNext} fuel c w e :
  k_workers c !! w = Some e → wk_flags e = 0 →
  run (prs_worker_int_enable (S (S fuel)) w) c =
    Ret (Some tt, with_workers (<[w := set_wk_flags PRS_WORKER_FLAG_INTERRUPTIBLE e]> (k_workers c)) c).
Proof.
  intros He Hf. unfold prs_worker_int_enable. cbn [prs_worker_task_prologue].
  assert (∀ f, run (prs_worker_schedule_internal (S f) w true None) c = Ret (Some tt, c)) as Hsched.
  { intros f. unfold prs_worker_schedule_internal. cbn [worker_schedule_loop].
    eapply run_seq; [eapply run_update_field; [reflexivity|exact He]|]. cbv beta. rewrite Hf.
    replace (set_wk_flags (Z.land 0 _) e) with e by (destruct e; cbn in *; by subst).
    rewrite insert_id, with_workers_same by done. done. }
  eapply run_seq; [apply Hsched|].
  eapply run_seq; [eapply run_cas_strong; [rewrite <- Hf; by eapply field_get|by eapply field_set]|]. done.
Qed.

Section messages.
Context `{!ObjectFree, !Pit, !TaskParts, !ProcService, !ExcpParts, !ExcpHandlers}.
Context (fuel : nat) (address_of_filter : loc) (address : Z).

(** A call whose body leaves the workers alone. *)
Lemma run_int_masked {A : Type} self (body : prog kern A) c a c' :
  (1 < fuel)%nat → quiet c self → run body (masked self c) = Ret (Some a, c') → k_workers c' = k_workers (masked self c) →
  run (int_masked fuel self body) c = Ret (Some a, with_workers (k_workers c) c').
Proof using Type.
  intros Hfuel Hq Hrun Hkeep. unfold int_masked. destruct self as [w|]; cbn [prs_worker_current].
  2:{ eapply run_seq; [reflexivity|]. eapply run_seq; [exact Hrun|]. cbn in Hkeep. rewrite <- Hkeep, with_workers_same. done. }
  destruct Hq as (e & He & Hf). cbn in Hrun, Hkeep.
  assert (alter mask_worker w (k_workers c) = <[w := mask_worker e]> (k_workers c)) as Halter by by apply alter_alt_Some.
  rewrite Halter in Hrun, Hkeep.
  eapply run_seq.
  { unfold prs_worker_int_disable. eapply run_seq; [eapply run_update_field; [reflexivity|exact He]|]. reflexivity. }
  eapply run_seq; [exact Hrun|]. destruct Hf as [Hf|Hf].
  - rewrite not_interruptible by done.
    replace (mask_worker e) with e in Hkeep by (unfold mask_worker; rewrite Hf; by destruct e).
    rewrite insert_id in Hkeep by done. rewrite <- Hkeep, with_workers_same. done.
  - rewrite Hf. change (has PRS_WORKER_FLAG_INTERRUPTIBLE PRS_WORKER_FLAG_INTERRUPTIBLE) with true. cbv iota.
    destruct fuel as [|[|fuel']]; [lia..|].
    eapply run_seq; [|reflexivity]. eapply run_seq; [reflexivity|]. cbv zeta.
    rewrite (run_int_enable fuel' c' w (mask_worker e)); [|rewrite Hkeep; apply lookup_insert_eq|unfold mask_worker; cbn; by rewrite Hf].
    f_equal. f_equal. rewrite Hkeep, insert_insert_eq, insert_id; [done|]. rewrite He. f_equal. destruct e. cbn in *. by subst.
Qed.

(** A call whose body pauses: when it goes on, the worker runs the task again with interrupts
    disabled, as the call had left it. *)
Lemma pauses_int_masked {A X : Type} (call : prog kern X) w we (body : prog kern A) c c1 r :
  (1 < fuel)%nat → k_workers c !! w = Some we → quiet c (Some w) → pauses call body (masked (Some w) c) c1 r →
  ∃ r', pauses call (int_masked fuel (Some w) body) c c1 r' ∧
    ∀ v c2 a c3 we3, r v c2 = Ret (Some a, c3) → k_workers c3 !! w = Some we3 → wk_flags we3 = wk_flags (mask_worker we) →
      r' v c2 = Ret (Some a, with_workers (<[w := set_wk_flags (wk_flags we) we3]> (k_workers c3)) c3).
Proof using Type.
  intros Hfuel He (e & He' & Hf) Hp. rewrite He in He'. injection He' as <-.
  eexists. split.
  - unfold int_masked. cbn [prs_worker_current]. eapply pauses_seq.
    { unfold prs_worker_int_disable. eapply run_seq; [eapply run_update_field; [reflexivity|exact He]|]. reflexivity. }
    eapply pauses_bind. cbn in Hp. rewrite (alter_alt_Some _ _ _ _ He) in Hp. exact Hp.
  - intros v c2 a c3 we3 Hr Hw3 Hf3. eapply rest_seq; [exact Hr|]. cbv beta. unfold mask_worker in Hf3. cbn in Hf3. destruct Hf as [Hf|Hf].
    + rewrite not_interruptible by done. rewrite Hf in Hf3. eapply run_seq; [reflexivity|].
      replace (set_wk_flags (wk_flags we) we3) with we3 by (rewrite <- Hf3; by destruct we3).
      by rewrite insert_id, with_workers_same.
    + rewrite Hf in Hf3 |- *. change (has PRS_WORKER_FLAG_INTERRUPTIBLE PRS_WORKER_FLAG_INTERRUPTIBLE) with true. cbv iota.
      destruct fuel as [|[|fuel']]; [lia..|].
      eapply run_seq; [|reflexivity]. eapply run_seq; [reflexivity|]. cbv zeta. by rewrite (run_int_enable fuel' c3 w we3).
Qed.

Context (c : kern) (w cur : loc) (we : prs_worker) (tk : prs_task).
Context (Hfuel : (1 < fuel)%nat) (Hw : k_workers c !! w = Some we) (Hq : quiet c (Some w))
  (Hcur : wk_current_task we = Some cur) (Htk : k_tasks c !! cur = Some tk).

Lemma run_current_task objs :
  run (pr_get_current_task (Some w)) (with_objs objs c) = Ret (Some cur, with_objs objs c).
Proof using Hw Hcur.
  unfold pr_get_current_task, pr_get_current_worker.
  eapply run_seq; [reflexivity|]. eapply run_seq; [apply run_load; eapply field_get; exact Hw|].
  rewrite Hcur. done.
Qed.

Lemma run_with_msgq {A : Type} (body : loc → prog kern A) mq a c' :
  tk_msgq tk = Some mq → run (body mq) (masked (Some w) c) = Ret (Some a, c') → k_workers c' = k_workers (masked (Some w) c) →
  run (with_msgq fuel (Some w) body) c = Ret (Some a, with_workers (k_workers c) c').
Proof using Hfuel Hw Hq Hcur Htk.
  intros Hmq Hrun Hkeep. unfold with_msgq. apply (run_seq _ _ c cur c).
  - rewrite <- (with_objs_same c). apply run_current_task.
  - apply run_int_masked; [exact Hfuel|exact Hq| |exact Hkeep]. eapply run_seq; [apply run_load; eapply field_get; exact Htk|].
    rewrite Hmq. eapply run_seq; [apply run_nonnull|]. exact Hrun.
Qed.

Lemma pauses_with_msgq {A X : Type} (call : prog kern X) (body : loc → prog kern A) mq c1 r :
  tk_msgq tk = Some mq → pauses call (body mq) (masked (Some w) c) c1 r →
  ∃ r', pauses call (with_msgq fuel (Some w) body) c c1 r' ∧
    ∀ v c2 a c3 we3, r v c2 = Ret (Some a, c3) → k_workers c3 !! w = Some we3 → wk_flags we3 = wk_flags (mask_worker we) →
      r' v c2 = Ret (Some a, with_workers (<[w := set_wk_flags (wk_flags we) we3]> (k_workers c3)) c3).
Proof using Hfuel Hw Hq Hcur Htk.
  intros Hmq Hp. edestruct (pauses_int_masked call w we (msgq ← read (task_msgq cur); msgq ← nonnull msgq; body msgq) c c1 r)
    as (r' & Hpause & Hr'); [done..| |].
  - eapply pauses_seq; [apply run_load; eapply field_get; exact Htk|]. rewrite Hmq.
    eapply pauses_seq; [apply run_nonnull|]. exact Hp.
  - exists r'. split; [|exact Hr']. unfold with_msgq. eapply pauses_seq; [|exact Hpause].
    rewrite <- (with_objs_same c) at 1. rewrite run_current_task. by rewrite with_objs_same.
Qed.
End messages.

(** ** Receiving *)

(** The message [x] has one of the IDs [ids]. *)
Definition has_id (c : kern) (ids : list Z) (x : loc) : bool :=
  match k_msgs c !! x with Some m => bool_decide (msg_id (mg_data m) ∈ ids) | None => false end.

(** The worker [w] runs the task [cur], with no interrupt pending if interrupts are enabled,
    and the task's queue [q] holds the messages [xs]. *)
Record receives (c : kern) (w cur mq q : loc) (xs : list loc) : Prop := Receives {
  rc_worker : ∃ we, k_workers c !! w = Some we ∧ wk_current_task we = Some cur;
  rc_quiet : quiet c (Some w);
  rc_task : ∃ tk, k_tasks c !! cur = Some tk ∧ tk_msgq tk = Some mq;
  rc_queue : ∃ e, k_msgqs c !! mq = Some e ∧ mq_queue e = Some q;
  rc_messages : k_queues c !! q = Some xs
}.

Section receive.
Context `{!ObjectFree, !Pit, !TaskParts, !ProcService, !ExcpParts, !ExcpHandlers}.
Context (fuel : nat) (address_of_filter : loc) (address : Z).

Lemma run_receives {A : Type} (body : loc → prog kern A) c w cur mq q xs a c' :
  (1 < fuel)%nat → receives c w cur mq q xs → run (body mq) (masked (Some w) c) = Ret (Some a, c') →
  k_workers c' = k_workers (masked (Some w) c) →
  run (with_msgq fuel (Some w) body) c = Ret (Some a, with_workers (k_workers c) c').
Proof using Type.
  intros Hfuel [(we & Hw & Hc) Hquiet (tk & Htk & Hmq) _ _].
  exact (run_with_msgq fuel c w cur we tk Hfuel Hw Hquiet Hc Htk body mq a c' Hmq).
Qed.

(** The workers are as before the call. *)
Lemma unmasked_queues w queues c :
  with_workers (k_workers c) (with_queues queues (masked (Some w) c)) = with_queues queues c.
Proof using Type. by destruct c. Qed.
Lemma unmasked w c : with_workers (k_workers c) (masked (Some w) c) = c.
Proof using Type. by destruct c. Qed.

Lemma length_filter_bytes ids : Z.of_nat (length (filter_bytes ids)) = (Z.of_nat (length ids) + 1) * 4.
Proof using Type.
  unfold filter_bytes, words_bytes. cbn [fmap list_fmap concat]. rewrite length_app. cbn [bytes32 length].
  induction ids as [|z ids IH]; cbn [fmap list_fmap concat bytes32 length app] in *; lia.
Qed.

Lemma run_filter_size self f c ids :
  filter_ids_ok ids → k_blocks c !! f = Some (filter_bytes ids) →
  run (filter_size fuel self address (Some f)) c = Ret (Some (Z.of_nat (length (filter_bytes ids))), c).
Proof using Type.
  intros Hids Hf. pose proof (proj2 Hids) as Hlen. rewrite length_filter_bytes. unfold filter_size.
  assert (load32 (filter_bytes ids) 0 = Ret (Z.of_nat (length ids))) as Hcount by (apply load32_here; lia).
  eapply run_seq; [reflexivity|]. eapply run_seq; [apply run_nonnull|].
  eapply run_seq; [apply run_load; eapply field_get; exact Hf|]. eapply run_seq; [apply run_pure; exact Hcount|].
  rewrite (proj2 (Z.ltb_ge _ _)) by lia. eapply run_seq; [reflexivity|].
  eapply run_seq; [apply run_load; eapply field_get; exact Hf|]. eapply run_seq; [apply run_pure; exact Hcount|].
  unfold u32. by rewrite Z.mod_small by lia.
Qed.

Lemma filter_answers f c ids xs :
  filter_ids_ok ids → k_blocks c !! f = Some (filter_bytes ids) → (∀ x, x ∈ xs → is_Some (k_msgs c !! x)) →
  answers (Some f) (Some address_of_filter) (has_id c ids) c xs.
Proof using Type.
  intros Hids Hf Hxs m Hm. destruct (Hxs m Hm) as [md Hmd]. unfold has_id. rewrite Hmd.
  by apply run_filter_function.
Qed.

(** The calls that wait as long as it takes, for any message or with a filter, and the
    messages they take. *)
Definition recv_call (filtered : bool) (w f : loc) : prog kern loc :=
  if filtered then pr_msg_recv_filter fuel (Some w) address_of_filter address (Some f) else pr_msg_recv fuel (Some w).
Definition recv_function (filtered : bool) : ptr := if filtered then Some address_of_filter else None.
Definition wanted (filtered : bool) (ids : list Z) (c : kern) (x : loc) : bool := if filtered then has_id c ids x else true.

Lemma wanted_answers filtered f c ids xs :
  filter_ids_ok ids → k_blocks c !! f = Some (filter_bytes ids) → (∀ x, x ∈ xs → is_Some (k_msgs c !! x)) →
  answers (wait_userdata f (recv_function filtered)) (recv_function filtered) (wanted filtered ids c) c xs.
Proof using Type. intros Hids Hf Hxs. destruct filtered; [by apply filter_answers|done]. Qed.

(** A call that has to wait. *)
Lemma recv_waits filtered c w cur mq q xs f ids we tk e fl y x i next hs :
  (1 < fuel)%nat → receives c w cur mq q xs → NoDup xs → (∀ x, x ∈ xs → is_Some (k_msgs c !! x)) →
  filter_ids_ok ids → k_blocks c !! f = Some (filter_bytes ids) →
  Forall (λ x, wanted filtered ids c x = false) xs →
  k_workers c !! w = Some we → k_tasks c !! cur = Some tk → k_msgqs c !! mq = Some e →
  k_gpd_ids c = Some i :: next → heap_answers (k_heap c) = wait_answers (recv_function filtered) fl y x ++ hs → f ≠ y →
  let function := recv_function filtered in
  let size := Z.of_nat (length (filter_bytes ids)) in
  ∃ r, pauses (prs_sched_schedule fuel (Some w)) (recv_call filtered w f) c
      (published cur mq e (filter_bytes ids) size function fl y x i tk next hs (masked (Some w) c)) r ∧
    ∀ c' n pre m post we', awake w cur mq q e size function fl y x i (tk_id tk) (tk_state tk) n (xs ++ pre ++ m :: post) c' →
      k_blocks c' !! f = Some (filter_bytes ids) → (∀ x, x ∈ xs ++ pre ++ m :: post → is_Some (k_msgs c' !! x)) →
      Forall (λ x, wanted filtered ids c' x = false) (xs ++ pre) → wanted filtered ids c' m = true → m ∉ xs ++ pre →
      k_workers c' !! w = Some we' → wk_flags we' = wk_flags (mask_worker we) →
      r tt c' = Ret (Some m, with_workers (<[w := set_wk_flags (wk_flags we) we']> (k_workers c'))
                               (received mq q e function fl y x i n (xs ++ pre ++ post) c')).
Proof using All.
  intros Hfuel Hr Hnd Hms Hids Hf Hnone Hwe Htk He Hgpd Hans Hfy function size.
  pose proof Hr as [(we1 & Hw1 & Hcur) Hquiet (tk1 & Htk1 & Hmq) (e1 & He1 & Hq) Hxs].
  rewrite Hwe in Hw1. rewrite Htk in Htk1. rewrite He in He1. injection Hw1 as <-. injection Htk1 as <-. injection He1 as <-.
  assert (∃ fuel', fuel = S fuel') as [fuel' Hfu] by (exists (pred fuel); lia).
  pose proof (length_filter_bytes ids) as Hlen.
  edestruct (pauses_recv fuel' w cur mq q e f (filter_bytes ids) size function fl y x i (masked (Some w) c) tk next hs xs (wanted filtered ids c))
    with (timeout := 0) as (r & Hpause & Hrest); [exact He| |exact Htk|exact Hgpd|exact Hans| |exact Hq|exact Hxs|exact Hnd|exact Hnone| | |].
  - cbn. rewrite lookup_alter_eq, Hwe. cbn. by rewrite Hcur.
  - intros _. split_and!; [exact Hf|unfold size; lia|unfold size; lia|exact Hfy].
  - exact (wanted_answers filtered f (masked (Some w) c) ids xs Hids Hf Hms).
  - apply (wanted_answers filtered f (published cur mq e (filter_bytes ids) size function fl y x i tk next hs (masked (Some w) c)) ids xs Hids);
      [|exact Hms]. cbn. unfold wait_copy. destruct function; [by rewrite lookup_insert_ne by congruence|exact Hf].
  - rewrite <- Hfu in Hpause. destruct (pauses_with_msgq fuel c w cur we tk Hfuel Hwe Hquiet Hcur Htk (prs_sched_schedule fuel (Some w))
      (λ msgq, prs_msgq_recv_internal fuel (Some w) msgq (wait_userdata f function) (wait_size size function) function 0 false)
      mq _ r Hmq Hpause) as (r1 & Hpause1 & Hrest1).
    exists (λ v, rest_bind (r1 v) nonnull). split.
    + unfold recv_call. destruct filtered; [eapply pauses_seq; [by apply run_filter_size|]|]; apply (pauses_bind _ _ nonnull), Hpause1.
    + intros c' n pre m post we' Haw Hf' Hms' Hno Hm Hnot Hwe' Hflags.
      match goal with |- _ = Ret (_, ?d) => apply (rest_seq _ _ _ (Some m) d); [|reflexivity] end.
      specialize (Hrest c' n pre m post (wanted filtered ids c') Haw ltac:(by apply wanted_answers) Hno Hm Hnot).
      pose proof (received_workers mq q e function fl y x i n (xs ++ pre ++ post) c') as Hkeep.
      rewrite (Hrest1 tt c' _ _ we' Hrest); [by rewrite Hkeep|by rewrite Hkeep|done].
Qed.
End receive.

(** C10: A call that receives takes the oldest message of the task's queue, or with a filter
    the oldest one whose ID the filter lists, and leaves the others in their order; with a
    timeout that is over and no such message it returns null and changes nothing.  A call
    without a timeout that finds no such message publishes a filter with a copy of its IDs
    and an event on which the task is blocked, and lets the worker schedule.  When the task
    runs again on the same worker, because a sender has unblocked it, and messages that the
    call asked for are on the queue, it takes the oldest one, whatever else others have put
    on the queue and done to the rest of the memory by then; its event is gone, so are its
    filter and the copy of the IDs unless senders still hold them, the queue has no filter,
    and interrupts are enabled again if they were before.  No interrupt is pending when the
    call starts and when it goes on.  The wait of a call with a timeout, and the repetition
    when the message is gone from the queue, are not covered. *)
Theorem pr_receive_exact `{!ObjectFree, !Pit, !TaskParts, !ProcService, !ExcpParts, !ExcpHandlers}
    fuel address_of_filter address c w cur mq q xs f ids :
  (1 < fuel)%nat → receives c w cur mq q xs → NoDup xs → (∀ x, x ∈ xs → is_Some (k_msgs c !! x)) →
  filter_ids_ok ids → k_blocks c !! f = Some (filter_bytes ids) →
  let left_ xs := with_queues (<[q := xs]> (k_queues c)) c in
  (∀ m post, xs = m :: post →
    run (pr_msg_recv fuel (Some w)) c = Ret (Some m, left_ post) ∧
    ∀ ticks, run (pr_msg_recv_timeout fuel (Some w) ticks) c = Ret (Some (Some m), left_ post)) ∧
  (∀ pre m post, xs = pre ++ m :: post → Forall (λ x, has_id c ids x = false) pre → has_id c ids m = true →
    run (pr_msg_recv_filter fuel (Some w) address_of_filter address (Some f)) c = Ret (Some m, left_ (pre ++ post)) ∧
    ∀ ticks, run (pr_msg_recv_filter_timeout fuel (Some w) address_of_filter address (Some f) ticks) c =
      Ret (Some (Some m), left_ (pre ++ post))) ∧
  (∀ ticks, ticks ≤ 0 →
    (xs = [] → run (pr_msg_recv_timeout fuel (Some w) ticks) c = Ret (Some None, c)) ∧
    (Forall (λ x, has_id c ids x = false) xs →
      run (pr_msg_recv_filter_timeout fuel (Some w) address_of_filter address (Some f) ticks) c = Ret (Some None, c))) ∧
  (∀ filtered we tk e fl y x i next hs,
    Forall (λ x, wanted filtered ids c x = false) xs →
    k_workers c !! w = Some we → k_tasks c !! cur = Some tk → k_msgqs c !! mq = Some e → k_gpd_ids c = Some i :: next →
    let function := recv_function address_of_filter filtered in
    heap_answers (k_heap c) = wait_answers function fl y x ++ hs → f ≠ y →
    let size := Z.of_nat (length (filter_bytes ids)) in
    ∃ r, pauses (prs_sched_schedule fuel (Some w)) (recv_call fuel address_of_filter address filtered w f) c
        (published cur mq e (filter_bytes ids) size function fl y x i tk next hs (masked (Some w) c)) r ∧
      ∀ c' n pre m post we',
        awake w cur mq q e size function fl y x i (tk_id tk) (tk_state tk) n (xs ++ pre ++ m :: post) c' →
        k_blocks c' !! f = Some (filter_bytes ids) → (∀ x, x ∈ xs ++ pre ++ m :: post → is_Some (k_msgs c' !! x)) →
        Forall (λ x, wanted filtered ids c' x = false) (xs ++ pre) → wanted filtered ids c' m = true → m ∉ xs ++ pre →
        k_workers c' !! w = Some we' → wk_flags we' = wk_flags (mask_worker we) →
        r tt c' = Ret (Some m, with_workers (<[w := set_wk_flags (wk_flags we) we']> (k_workers c'))
                                 (received mq q e function fl y x i n (xs ++ pre ++ post) c'))).
Proof.
  intros Hfuel Hr Hnd Hms Hids Hf left_. pose proof Hr as [_ _ _ (e & He & Hq) Hxs]. set (c0 := masked (Some w) c).
  pose proof (filter_answers address_of_filter f c0 ids xs Hids Hf Hms) as Hfa.
  assert (answers None None (λ _, true) c0 xs) as Ha by done.
  pose proof (run_filter_size fuel address (Some w) f c ids Hids Hf) as Hsize. set (size := Z.of_nat _) in Hsize.
  assert (∀ pre m post, xs = pre ++ m :: post → m ∉ pre) as Hnot.
  { intros pre m post ->. apply NoDup_app in Hnd as (_ & Hdis & _). intros Hm. apply (Hdis m Hm). by left. }
  assert (∀ (body : loc → prog kern ptr) m ys,
    run (body mq) c0 = Ret (Some m, with_queues (<[q := ys]> (k_queues c0)) c0) →
    run (with_msgq fuel (Some w) body) c = Ret (Some m, left_ ys)) as Hcall.
  { intros body m ys Hrun. rewrite (run_receives fuel body c w cur mq q xs m _ Hfuel Hr Hrun) by done.
    unfold c0. by rewrite unmasked_queues. }
  split_and!.
  - intros m post ->.
    assert (∀ size ticks ut, run (prs_msgq_recv_internal fuel (Some w) mq None size None ticks ut) c0 =
      Ret (Some (Some m), with_queues (<[q := post]> (k_queues c0)) c0)) as Hrun.
    { intros sz ticks ut. apply (run_recv_found None None (λ _, true) c0 mq q e _ He Hq Hxs Ha _ _ _ _ _ [] m post);
        [done|constructor|done|apply not_elem_of_nil]. }
    split; [|intros ticks; by apply Hcall, Hrun].
    unfold pr_msg_recv. apply (run_seq _ _ _ (Some m) (left_ post)); [|reflexivity]. by apply Hcall, Hrun.
  - intros pre m post Hsplit Hpre Hm. unfold pr_msg_recv_filter, pr_msg_recv_filter_timeout.
    assert (∀ ticks ut, run (prs_msgq_recv_internal fuel (Some w) mq (Some f) size (Some address_of_filter) ticks ut) c0 =
      Ret (Some (Some m), with_queues (<[q := pre ++ post]> (k_queues c0)) c0)) as Hrun.
    { intros ticks ut. apply (run_recv_found (Some f) (Some address_of_filter) (has_id c ids) c0 mq q e xs He Hq Hxs Hfa); eauto. }
    split; [|intros ticks]; (eapply run_seq; [exact Hsize|]); [|by apply Hcall, Hrun].
    apply (run_seq _ _ _ (Some m) (left_ (pre ++ post))); [|reflexivity]. by apply Hcall, Hrun.
  - intros ticks Ht. destruct fuel as [|fuel']; [lia|].
    assert (∀ body : loc → prog kern ptr, run (body mq) c0 = Ret (Some None, c0) →
      run (with_msgq (S fuel') (Some w) body) c = Ret (Some None, c)) as Hnothing.
    { intros body Hrun. rewrite (run_receives (S fuel') body c w cur mq q xs None _ Hfuel Hr Hrun) by done.
      unfold c0. by rewrite unmasked. }
    split.
    + intros ->. unfold pr_msg_recv_timeout. apply Hnothing.
      by apply (run_recv_none None None (λ _, true) c0 mq q e [] He Hq Hxs Ha).
    + intros Hnone. unfold pr_msg_recv_filter_timeout. eapply run_seq; [exact Hsize|]. apply Hnothing.
      by apply (run_recv_none (Some f) (Some address_of_filter) (has_id c ids) c0 mq q e xs He Hq Hxs Hfa).
  - intros filtered we tk e' fl y x i next hs Hnone Hw Htk He' Hgpd function Hans Hfy.
    by apply (recv_waits fuel address_of_filter address filtered c w cur mq q xs f ids).
Qed.

(** ** From the sender to the receiver *)

Inductive pr_call : Set := Send (x : loc) | Recv.

(** The messages that are sent, the number of calls that receive, and that none of these
    finds the queue, which has [n] messages at first, empty. *)
Definition sent_by (calls : list pr_call) : list loc :=
  omap (λ call, match call with Send x => Some x | Recv => None end) calls.
Fixpoint receive_count (calls : list pr_call) : nat :=
  match calls with [] => 0 | Send _ :: calls => receive_count calls | Recv :: calls => S (receive_count calls) end.
Fixpoint never_empty (n : nat) (calls : list pr_call) : Prop :=
  match calls with
  | [] => True
  | Send _ :: calls => never_empty (S n) calls
  | Recv :: calls => match n with O => False | S n => never_empty n calls end
  end.

Section roundtrip.
Context `{!ObjectFree, !Pit, !TaskParts, !ProcService, !ExcpParts, !ExcpHandlers}.
Context (fuel : nat) (address : Z) (sender : loc) (task_id : Z).

(** The calls of the two tasks one after the other, and what was received. *)
Fixpoint exchange (receiver : loc) (calls : list pr_call) : prog kern (list loc) :=
  match calls with
  | [] => mret []
  | Send m :: calls => _ ← pr_msg_send fuel (Some sender) address task_id m; exchange receiver calls
  | Recv :: calls => m ← pr_msg_recv fuel (Some receiver); ms ← exchange receiver calls; mret (m :: ms)
  end.

(** The worker [sender] runs the task [cs], whose ID is [sid], with no interrupt pending if
    interrupts are enabled, and the task with the ID [task_id] waits for nothing. *)
Record sends (c : kern) (cur mq : loc) (sid : Z) : Prop := Sends {
  sd_worker : ∃ we cs tk, k_workers c !! sender = Some we ∧ wk_current_task we = Some cs ∧
    k_tasks c !! cs = Some tk ∧ tk_id tk = sid;
  sd_quiet : quiet c (Some sender);
  sd_object : ∃ n ops, k_objs c !! task_id = Some (S n, (cur, ops));
  sd_task : ∃ tk, k_tasks c !! cur = Some tk ∧ tk_id tk = task_id ∧ tk_msgq tk = Some mq;
  sd_msgq : ∃ e, k_msgqs c !! mq = Some e ∧ mq_filter_id e = PRS_PD_ID_INVALID
}.

(** A message on its way. *)
Definition addressed (sid : Z) (m : prs_msg) : prs_msg := PrsMsg task_id sid (mg_size m) (mg_data m).

(** What sending the message [x] to the queue [q] leaves. *)
Definition sent (sid : Z) (q x : loc) (c : kern) : kern :=
  with_queues (alter (λ xs, xs ++ [x]) q (k_queues c)) (with_msgs (alter (addressed sid) x (k_msgs c)) c).

Lemma sends_masked c cur mq sid : sends c cur mq sid → sends (masked (Some sender) c) cur mq sid.
Proof using All.
  intros [(we & cs & tk & Hw & Hcs & Htk & Hid) Hq Ho Ht Hm]. split; [|by apply quiet_masked|done..].
  exists (mask_worker we), cs, tk. cbn. by rewrite lookup_alter_eq, Hw.
Qed.

Lemma run_send c cur mq q sid x m xs :
  (1 < fuel)%nat → sends c cur mq sid → (∃ e, k_msgqs c !! mq = Some e ∧ mq_queue e = Some q) → k_queues c !! q = Some xs →
  k_msgs c !! x = Some m →
  run (pr_msg_send fuel (Some sender) address task_id x) c = Ret (Some tt, sent sid q x c).
Proof using All.
  intros Hfuel Hs Hqueue Hxs Hm. unfold pr_msg_send. pose proof (sends_masked _ _ _ _ Hs) as Hs0.
  replace (sent sid q x c) with (with_workers (k_workers c) (sent sid q x (masked (Some sender) c))) by by destruct c.
  apply run_int_masked; [done|apply Hs| |done]. set (d := masked (Some sender) c).
  change (k_queues d !! q = Some xs) in Hxs. change (k_msgs d !! x = Some m) in Hm.
  change (∃ e, k_msgqs d !! mq = Some e ∧ mq_queue e = Some q) in Hqueue. change (sends d cur mq sid) in Hs0. clearbody d. clear Hs c.
  destruct Hs0 as [(we & cs & tks & Hw & Hcs & Htks & Hsid) _ (n & ops & Ho) (tk & Htk & Hid & Hmq) (e & He & Hnone)].
  destruct Hqueue as (e' & He' & Hq). rewrite He in He'. injection He' as <-.
  eapply run_seq; [apply (run_obj_lock d task_id (S n) (cur, ops) Ho)|]. cbn [fst].
  eapply run_seq; [apply run_get_field; exact Htk|].
  eapply run_seq; [apply run_store; eapply field_set; exact Hm|].
  eapply run_seq; [eapply run_seq; [reflexivity|eapply run_seq; [apply run_load; eapply field_get; exact Hw|];
    rewrite Hcs; reflexivity]|].
  eapply run_seq; [apply run_get_field; exact Htks|].
  eapply run_seq; [apply run_store; eapply field_set; apply lookup_insert_eq|].
  eapply run_seq; [apply run_load; eapply field_get; exact Htk|]. rewrite Hmq.
  eapply run_seq; [apply run_nonnull|].
  match goal with |- run (_ ≫= _) ?d = _ =>
    eapply run_seq; [exact (run_send_idle (Some sender) mq x d e q xs He Hq Hxs (or_introl Hnone))|] end.
  eapply eq_trans; [eapply run_obj_unlock; apply lookup_insert_eq|].
  unfold sent, pushed. f_equal. f_equal.
  rewrite (alter_alt_Some _ _ _ _ Hxs), (alter_alt_Some _ _ _ _ Hm).
  cbn [k_objs k_msgs with_objs with_msgs with_queues with_mods k_mods md_msgs].
  rewrite !insert_insert_eq, (insert_id _ _ _ Ho). unfold addressed, set_mg_sender, set_mg_owner. cbn [mg_owner mg_sender mg_size mg_data].
  rewrite Hid, Hsid. by destruct d.
Qed.

Lemma sends_sent c cur mq sid q x : sends c cur mq sid → sends (sent sid q x c) cur mq sid.
Proof using Type. intros []. by split. Qed.
Lemma receives_sent c sid w cur mq q xs x : receives c w cur mq q xs → receives (sent sid q x c) w cur mq q (xs ++ [x]).
Proof using Type. intros [? ? ? ? Hxs]. split; [done..|]. cbn. by rewrite lookup_alter_eq, Hxs. Qed.

Lemma sends_queues c cur mq sid queues : sends c cur mq sid → sends (with_queues queues c) cur mq sid.
Proof using Type. intros []. by split. Qed.
Lemma receives_queues c w cur mq q xs ys :
  receives c w cur mq q xs → receives (with_queues (<[q := ys]> (k_queues c)) c) w cur mq q ys.
Proof using Type. intros []. split; [done..|]. apply lookup_insert_eq. Qed.

Lemma run_recv c w cur mq q x xs :
  (1 < fuel)%nat → receives c w cur mq q (x :: xs) →
  run (pr_msg_recv fuel (Some w)) c = Ret (Some x, with_queues (<[q := xs]> (k_queues c)) c).
Proof using All.
  intros Hfuel Hr. pose proof Hr as [_ _ _ (e & He & Hq) Hxs]. unfold pr_msg_recv.
  apply (run_seq _ _ _ (Some x) (with_queues (<[q := xs]> (k_queues c)) c)); [|reflexivity].
  rewrite (run_receives fuel _ c w cur mq q _ (Some x) (with_queues (<[q := xs]> (k_queues c)) (masked (Some w) c)) Hfuel Hr);
    [by rewrite unmasked_queues| |done].
  exact (run_recv_found None None (λ _, true) (masked (Some w) c) mq q e _ He Hq Hxs ltac:(done) _ _ _ _ _ [] x xs eq_refl
    ltac:(constructor) eq_refl (not_elem_of_nil _)).
Qed.

(** Any sequence of calls. *)
Lemma run_pr_calls receiver calls cur mq q sid : ∀ c xs,
  (1 < fuel)%nat → sends c cur mq sid → receives c receiver cur mq q xs →
  (∀ x, x ∈ sent_by calls → is_Some (k_msgs c !! x)) → never_empty (length xs) calls →
  ∃ c', run (exchange receiver calls) c = Ret (Some (take (receive_count calls) (xs ++ sent_by calls)), c') ∧
    k_queues c' !! q = Some (drop (receive_count calls) (xs ++ sent_by calls)) ∧
    ∀ x, k_msgs c' !! x = (if decide (x ∈ sent_by calls) then addressed sid else id) <$> k_msgs c !! x.
Proof using All.
  induction calls as [|[x|] calls IH]; intros c xs Hfuel Hs Hr Hms Hfed; cbn [exchange receive_count never_empty] in *.
  - exists c. rewrite app_nil_r. split_and!; [done|apply Hr|]. intros x. cbn. symmetry. apply option_fmap_id.
  - change (sent_by (Send x :: calls)) with (x :: sent_by calls) in *. destruct (Hms x) as [m Hm]; [by left|].
    destruct (IH (sent sid q x c) (xs ++ [x])) as (c' & Hrun & Hq & Hmsg); [done|by apply sends_sent|by apply receives_sent| | |].
    { intros y Hy. cbn. apply lookup_alter_is_Some, Hms. by right. }
    { rewrite length_app. cbn. by rewrite Nat.add_1_r. }
    rewrite <- app_assoc in Hrun, Hq. exists c'. split_and!; [|exact Hq|].
    + eapply run_seq; [eapply run_send; [done|exact Hs|apply Hr|apply Hr|exact Hm]|exact Hrun].
    + intros y. rewrite Hmsg. cbn [sent k_msgs with_queues with_msgs with_mods k_mods md_msgs]. destruct (decide (x = y)) as [<-|Hne].
      * rewrite lookup_alter_eq, (decide_True (P := x ∈ x :: sent_by calls)) by by left.
        destruct (k_msgs c !! x); cbn; [|done]. by case_decide.
      * rewrite lookup_alter_ne by done. f_equal. destruct (decide (y ∈ sent_by calls)) as [Hy|Hy].
        -- by rewrite decide_True by by right.
        -- by rewrite decide_False by (intros [->|?]%elem_of_cons; done).
  - change (sent_by (Recv :: calls)) with (sent_by calls) in *. destruct xs as [|x xs]; [done|].
    destruct (IH (with_queues (<[q := xs]> (k_queues c)) c) xs) as (c' & Hrun & Hq & Hmsg);
      [done|by apply sends_queues|by eapply receives_queues|done|done|].
    exists c'. split_and!; [|exact Hq|exact Hmsg].
    eapply run_seq; [by eapply run_recv|]. eapply run_seq; [exact Hrun|]. done.
Qed.
End roundtrip.

(** C9: Whatever the order of the calls in which a task sends messages and the receiving task
    takes them, when the receiver never finds its queue empty, the messages are received
    once each, in the order in which they were sent and after those that were on the
    queue, and those that are not received stay on the queue in their order.  Each has the
    receiver as its owner, the sending task as its sender and the payload it had; the other
    messages are not touched.  Both tasks run with interrupts enabled, none of which is
    pending, or within another call; a receiver that waits is the matter of the next
    theorem. *)
Theorem pr_messages_roundtrip `{!ObjectFree, !Pit, !TaskParts, !ProcService, !ExcpParts, !ExcpHandlers}
    fuel address sender receiver task_id c cur mq q sid xs calls :
  (1 < fuel)%nat → sends sender task_id c cur mq sid → receives c receiver cur mq q xs → NoDup (xs ++ sent_by calls) →
  (∀ x, x ∈ sent_by calls → is_Some (k_msgs c !! x)) → never_empty (length xs) calls →
  let n := receive_count calls in
  let all := xs ++ sent_by calls in
  ∃ c', run (exchange fuel address sender task_id receiver calls) c = Ret (Some (take n all), c') ∧
    k_queues c' !! q = Some (drop n all) ∧
    (∀ x m, x ∈ sent_by calls → k_msgs c !! x = Some m →
      k_msgs c' !! x = Some (PrsMsg task_id sid (mg_size m) (mg_data m))) ∧
    (∀ x, x ∉ sent_by calls → k_msgs c' !! x = k_msgs c !! x).
Proof.
  intros Hfuel Hs Hr Hnd Hms Hfed n all.
  destruct (run_pr_calls fuel address sender task_id receiver calls cur mq q sid c xs Hfuel Hs Hr Hms Hfed) as (c' & Hrun & Hq & Hmsg).
  exists c'. split_and!; [exact Hrun|exact Hq| |].
  - intros x m Hx Hm. rewrite Hmsg, Hm, decide_True by done. done.
  - intros x Hx. rewrite Hmsg, decide_False by done. apply option_fmap_id.
Qed.

(** Task 10, which worker 1 runs, has the message 45 on its queue; task 13 runs on worker 2. *)
Definition demo_pr_task (id : Z) (mq : ptr) : prs_task :=
  PrsTask id [] None None 0 3 0 9 None 2 None None mq.
Definition demo_pr_worker (task : loc) : prs_worker := PrsWorker 5 3 3 PRS_WORKER_FLAG_INTERRUPTIBLE 0 (Some task) None.
Definition demo_pr_kern : kern :=
  with_tasks {[ 10%positive := demo_pr_task 7 (Some 40%positive); 13%positive := demo_pr_task 14 None ]}
    (with_objs {[ 7 := (1%nat, (10%positive, s_prs_task_object_ops)) ]}
    (with_workers {[ 1%positive := demo_pr_worker 10; 2%positive := demo_pr_worker 13 ]}
    (with_msgqs {[ 40%positive := PrsMsgq (Some 41%positive) (Some 44%positive) PRS_PD_ID_INVALID ]}
    (with_queues {[ 41%positive := [45%positive] ]}
    (with_blocks {[ 50%positive := filter_bytes [3; 9] ]}
    (with_msgs {[ 43%positive := PrsMsg 0 0 8 (MsgOther 9 [1; 2; 3; 4]); 45%positive := PrsMsg 7 14 4 (MsgOther 8 []);
                  46%positive := PrsMsg 0 0 4 (MsgOther 5 []) ]}
      kern_empty)))))).

Definition demo_handlers_none : ExcpHandlers := λ _ _, mret PRS_EXCP_RESULT_FORWARD.

Lemma pr_messages_roundtrip_witness :
  let free : ObjectFree := λ _ _, mret tt in
  let pit := demo_pit in let parts := demo_parts in let service := demo_service in
  let ends := demo_excp_parts in let handlers := demo_handlers_none in
  ∃ c', run (exchange 2 0 2 7 1 [Send 43; Recv; Recv; Send 46]) demo_pr_kern = Ret (Some [45%positive; 43%positive], c') ∧
    k_queues c' !! 41%positive = Some [46%positive] ∧ k_msgs c' !! 43%positive = Some (PrsMsg 7 14 8 (MsgOther 9 [1; 2; 3; 4])).
Proof.
  intros free pit parts service ends handlers.
  destruct (pr_messages_roundtrip 2 0 2 1 7 demo_pr_kern 10 40 41 14 [45%positive] [Send 43; Recv; Recv; Send 46])
    as (c' & Hrun & Hq & Hmsg & _).
  - lia.
  - split; [by exists (demo_pr_worker 13), 13%positive, (demo_pr_task 14 None)| |by exists 0%nat, s_prs_task_object_ops| |].
    + exists (demo_pr_worker 13). split; [reflexivity|by right].
    + by exists (demo_pr_task 7 (Some 40%positive)).
    + by exists (PrsMsgq (Some 41%positive) (Some 44%positive) PRS_PD_ID_INVALID).
  - split; [by exists (demo_pr_worker 10)| |by exists (demo_pr_task 7 (Some 40%positive))| |reflexivity].
    + exists (demo_pr_worker 10). split; [reflexivity|by right].
    + by exists (PrsMsgq (Some 41%positive) (Some 44%positive) PRS_PD_ID_INVALID).
  - apply (bool_decide_eq_true_1 _). vm_compute. reflexivity.
  - intros x Hx. apply elem_of_cons in Hx as [->|Hx]; [by eexists|]. apply list_elem_of_singleton in Hx as ->. by eexists.
  - exact I.
  - exists c'. split; [exact Hrun|]. split; [exact Hq|]. by apply (Hmsg 43%positive (PrsMsg 0 0 8 (MsgOther 9 [1; 2; 3; 4]))); [left|].
Defined.

(** Task 10 asks for messages of the IDs 3 and 9 and has to wait; another task sends the
    message 43 and unblocks it. *)
Definition demo_wait_kern : kern :=
  with_gpd_ids [Some 60] (with_heap (Heap ∅ [Some 70%positive; Some 71%positive; Some 72%positive]) demo_pr_kern).
Definition demo_awake_kern (c : kern) : kern :=
  with_events {[ 72%positive := PrsEvent 7 (block_token 0) 2 1 ]}
    (with_tasks (alter (set_tk_state (unblock_token (block_token 0) false PRS_MSGQ_EVENT_TYPE_SEND)) 10%positive (k_tasks c))
    (with_filters (alter (set_fl_event None) 70%positive (k_filters c))
    (with_queues {[ 41%positive := [45%positive; 43%positive; 46%positive] ]} c))).

Lemma pr_receive_exact_witness :
  let free : ObjectFree := λ _ _, mret tt in
  let pit := demo_pit in let parts := demo_parts in let service := demo_service in
  let ends := demo_excp_parts in let handlers := demo_handlers_none in
  let c := with_queues {[ 41%positive := [45%positive; 43%positive; 46%positive] ]} demo_pr_kern in
  run (pr_msg_recv_filter 2 (Some 1%positive) 99 0 (Some 50%positive)) c =
    Ret (Some 43%positive, with_queues {[ 41%positive := [45%positive; 46%positive] ]} demo_pr_kern) ∧
  run (pr_msg_recv_timeout 2 (Some 1%positive) 0) c =
    Ret (Some (Some 45%positive), with_queues {[ 41%positive := [43%positive; 46%positive] ]} demo_pr_kern) ∧
  ∃ c1 r c3, pauses (prs_sched_schedule 2 (Some 1%positive)) (pr_msg_recv_filter 2 (Some 1%positive) 99 0 (Some 50%positive))
      demo_wait_kern c1 r ∧
    r tt (demo_awake_kern c1) = Ret (Some 43%positive, c3) ∧ k_queues c3 !! 41%positive = Some [45%positive; 46%positive] ∧
    k_filters c3 = ∅ ∧ k_events c3 = ∅ ∧ k_workers c3 !! 1%positive = Some (demo_pr_worker 10).
Proof.
  intros free pit parts service ends handlers c.
  destruct (pr_receive_exact 2 99 0 c 1 10 40 41 [45%positive; 43%positive; 46%positive] 50 [3; 9]) as (_ & Hfilter & _).
  - lia.
  - split; [by exists (demo_pr_worker 10)|exists (demo_pr_worker 10); split; [reflexivity|by right]|
      by exists (demo_pr_task 7 (Some 40%positive))| |reflexivity].
    by exists (PrsMsgq (Some 41%positive) (Some 44%positive) PRS_PD_ID_INVALID).
  - apply (bool_decide_eq_true_1 _). vm_compute. reflexivity.
  - intros x Hx. repeat (apply elem_of_cons in Hx as [->|Hx]; [by eexists|]). by apply elem_of_nil in Hx.
  - split; [repeat (constructor; [lia|]); constructor|simpl; lia].
  - reflexivity.
  - split; [|split; [vm_compute; reflexivity|]].
    2: { destruct (pr_receive_exact 2 99 0 demo_wait_kern 1 10 40 41 [45%positive] 50 [3; 9]) as (_ & _ & _ & Hwait).
      + lia.
      + split; [by exists (demo_pr_worker 10)|exists (demo_pr_worker 10); split; [reflexivity|by right]|
          by exists (demo_pr_task 7 (Some 40%positive))| |reflexivity].
        by exists (PrsMsgq (Some 41%positive) (Some 44%positive) PRS_PD_ID_INVALID).
      + apply (bool_decide_eq_true_1 _). vm_compute. reflexivity.
      + intros x Hx%list_elem_of_singleton. subst x. by eexists.
      + split; [repeat (constructor; [lia|]); constructor|simpl; lia].
      + reflexivity.
      + destruct (Hwait true (demo_pr_worker 10) (demo_pr_task 7 (Some 40%positive))
          (PrsMsgq (Some 41%positive) (Some 44%positive) PRS_PD_ID_INVALID) 70%positive 71%positive 72%positive 60 [] [])
          as (r & Hpause & Hrest); [by repeat constructor|reflexivity..|discriminate|].
        eexists _, r, _. split; [exact Hpause|]. split.
        * apply (Hrest _ 0%nat [] 43%positive [46%positive] (mask_worker (demo_pr_worker 10)));
            [|reflexivity| |by repeat constructor|reflexivity| |reflexivity|reflexivity].
          -- split; try reflexivity; [by eexists|by eexists _, _|by eexists|].
             vm_compute. split_and!; try done.
          -- intros x Hx. repeat (apply elem_of_cons in Hx as [->|Hx]; [by eexists|]). by apply elem_of_nil in Hx.
          -- intros Hx%list_elem_of_singleton. discriminate.
        * vm_compute. split_and!; reflexivity. }
    destruct (Hfilter [45%positive] 43%positive [46%positive] eq_refl) as [Hrun _]; [by repeat constructor|reflexivity|].
    exact Hrun.
Defined.
