(* ===== verification/SvcProc.v ===== *)
(** * The process service (prs/svc/proc.c), the requests to it (include/prs/svc/proc.msg), and
    the calls of the application that use them (prs/pr.c)

    [local] is the address of the filter that a function keeps on its stack. *)

From S2P Require Import Prelude Str Heap Atomic RefDir Kern Pal Worker Task Event EventRun Timer Clock Name.
From S2P Require Import Sched TaskLife Sem Msgq Proc Excp Pr.

(** [PRS_TICKS_FROM_SECS] *)
Definition PRS_TICKS_FROM_SECS (secs : Z) : Z := u32 (u32 secs * PRS_HZ).

(** [enum pr_error_type], and a value that is none of them. *)
Inductive pr_error_type : Set :=
  | PR_ERROR_TYPE_CONTINUE
  | PR_ERROR_TYPE_KILL_TASK
  | PR_ERROR_TYPE_FATAL
  | PR_ERROR_TYPE_OTHER.

Section requests.
Context `{!ObjectFree, !Pit, !TaskParts, !ProcService, !ExcpParts, !ExcpHandlers}.
Context (fuel : nat) (self : ptr) (filter_function_address : loc) (address : Z) (local : loc).

(** [pr_msg_id_t filter[] = {1, id}; pr_msg_recv_filter(filter)] *)
Definition recv_response (id : Z) : prog kern loc :=
  _ ← act (λ c, Ret (tt, with_blocks (<[local := bytes32 1 ++ bytes32 id]> (k_blocks c)) c));
  rsp ← pr_msg_recv_filter fuel self filter_function_address address (Some local);
  _ ← act (λ c, Ret (tt, with_blocks (delete local (k_blocks c)) c));
  mret rsp.

(** [strcpy] to an array of [size] bytes: the string with its terminator must fit. *)
Definition strcpy_fits (s : list Z) (size : Z) : outcome unit :=
  n ← strlen s; if n <? size then Ret tt else Undef.

Definition prs_proc_send_exec (proc_task_id : Z) (filename cmdline : list Z) (params : prs_task_create_params)
    (sched_id : Z) : prog kern Z :=
  req ← pr_msg_alloc fuel self PRS_PROC_MSG_ID_EXEC_REQUEST 592;
  _ ← pure (strcpy_fits filename PRS_MAX_PATH);
  _ ← pure (strcpy_fits cmdline PRS_MAX_CMDLINE);
  _ ← fill_msg req (ExecRequest filename cmdline (tcp_name params) (tcp_userdata params) (tcp_stack_size params)
        (tcp_prio params) (tcp_entry params) sched_id);
  _ ← pr_msg_send fuel self address proc_task_id req;
  rsp ← recv_response PRS_PROC_MSG_ID_EXEC_RESPONSE;
  m ← read (msg_data rsp);
  proc_id ← pure (match m with ExecResponse proc_id => Ret proc_id | _ => Undef end);
  _ ← pr_msg_free fuel self rsp;
  mret proc_id.

Definition prs_proc_send_kill (proc_task_id proc_id : Z) (wait : bool) : prog kern unit :=
  req ← pr_msg_alloc fuel self PRS_PROC_MSG_ID_KILL_REQUEST 12;
  _ ← fill_msg req (KillRequest proc_id wait);
  _ ← pr_msg_send fuel self address proc_task_id req;
  if (wait : bool) then
    rsp ← recv_response PRS_PROC_MSG_ID_KILL_RESPONSE;
    pr_msg_free fuel self rsp
  else mret tt.

Definition prs_proc_send_unreg_object (proc_task_id proc_id object_id : Z) (wait : bool) : prog kern unit :=
  req ← pr_msg_alloc fuel self PRS_PROC_MSG_ID_UNREG_OBJECT_REQUEST 16;
  _ ← fill_msg req (UnregObjectRequest proc_id object_id wait);
  _ ← pr_msg_send fuel self address proc_task_id req;
  if (wait : bool) then
    rsp ← recv_response PRS_PROC_MSG_ID_UNREG_OBJECT_RESPONSE;
    pr_msg_free fuel self rsp
  else mret tt.

(** ** The rest of the application interface *)

Definition pr_error (error : pr_error_type) : prog kern unit :=
  int_masked fuel self (
    e ← match error with
        | PR_ERROR_TYPE_CONTINUE => mret PRS_ERROR_TYPE_CONTINUE
        | PR_ERROR_TYPE_KILL_TASK => mret PRS_ERROR_TYPE_KILL_TASK
        | PR_ERROR_TYPE_FATAL => mret PRS_ERROR_TYPE_FATAL
        | PR_ERROR_TYPE_OTHER => _ ← kill_task fuel self address; mret PRS_ERROR_TYPE_FATAL
        end;
    prs_error fuel self e address).

Definition pr_exit (status : Z) : prog kern unit :=
  int_masked fuel self (
    task ← pr_get_current_task self;
    proc_task_id ← prs_task_find fuel PRS_PROC_SVC_NAME;
    proc_id ← read (task_proc_id task);
    _ ← prs_proc_send_kill proc_task_id proc_id true;
    prs_task_destroy fuel self task).

(** It returns -1 whatever happens. *)
Definition pr_atexit (function : loc) : prog kern Z :=
  int_masked fuel self (
    task ← pr_get_current_task self;
    proc_id ← read (task_proc_id task);
    proc ← god_lock proc_id;
    _ ← match proc with
        | Some proc =>
            _ ← prs_proc_atexit proc function;
            proc_id ← read (task_proc_id task);
            god_unlock proc_id
        | None => mret tt
        end;
    mret (-1)).

(** [exit_]: [prs_exit] of init.c. *)
Definition pr_system_exit (exit_ : Z → prog kern unit) (status : Z) : prog kern unit :=
  int_masked fuel self (exit_ status).
End requests.

(** ** The service *)

Section service.
Context `{!ObjectFree, !ObjectDestroy, !Pit, !TaskParts, !ProcService, !PalProc, !ExcpParts, !ExcpHandlers}.
Context (fuel : nat) (self : ptr) (filter_function_address : loc) (address : Z).

(** The answer to a request, of [size] bytes, goes to the sender of the message. *)
Definition svc_respond (msg : loc) (size : Z) (m : pr_msg) : prog kern unit :=
  rsp ← pr_msg_alloc fuel self (msg_id m) size;
  _ ← fill_msg rsp m;
  sender ← pr_msg_get_sender msg;
  pr_msg_send fuel self address sender rsp.

(** [case PRS_PROC_MSG_ID_EXEC_REQUEST] *)
Definition svc_exec (msg : loc) (filename cmdline : list Z) (params : prs_task_create_params) (sched_id : Z) :
    prog kern unit :=
  '(filename, _) ← pure (prs_str_copy (replicate (Z.to_nat PRS_MAX_PATH) 0) filename PRS_MAX_PATH);
  '(cmdline, _) ← pure (prs_str_copy (replicate (Z.to_nat PRS_MAX_CMDLINE) 0) cmdline PRS_MAX_CMDLINE);
  proc ← prs_proc_exec fuel self (PrsProcExecParams filename cmdline params sched_id);
  rsp ← pr_msg_alloc fuel self PRS_PROC_MSG_ID_EXEC_RESPONSE 8;
  id ← match proc with Some proc => read (proc_id proc) | None => mret 0 end;
  _ ← fill_msg rsp (ExecResponse id);
  sender ← pr_msg_get_sender msg;
  pr_msg_send fuel self address sender rsp.

(** [case PRS_PROC_MSG_ID_KILL_REQUEST] *)
Definition svc_kill (msg : loc) (req_proc_id : Z) (respond : bool) : prog kern unit :=
  proc ← god_lock req_proc_id;
  _ ← match proc with
      | Some proc => _ ← prs_proc_destroy proc; god_unlock req_proc_id
      | None => mret tt
      end;
  if (respond : bool) then svc_respond msg 8 (KillResponse req_proc_id) else mret tt.

(** [case PRS_PROC_MSG_ID_UNREG_OBJECT_REQUEST]: the size of the answer is that of an exec
    response. *)
Definition svc_unreg_object (req_proc_id object_id : Z) : prog kern unit :=
  proc ← god_lock req_proc_id;
  match proc with
  | Some proc => _ ← prs_proc_unregister_object proc object_id; god_unlock req_proc_id
  | None => mret tt
  end.

Definition svc_unreg (msg : loc) (req_proc_id object_id : Z) (respond : bool) : prog kern unit :=
  _ ← svc_unreg_object req_proc_id object_id;
  if (respond : bool) then svc_respond msg 8 (UnregObjectResponse req_proc_id object_id) else mret tt.

(** The [switch] on the ID of a message. *)
Definition svc_dispatch (msg : loc) : prog kern unit :=
  m ← read (msg_data msg);
  match m with
  | ExecRequest filename cmdline name userdata stack_size prio entry sched_id =>
      svc_exec msg filename cmdline (PrsTaskCreateParams name userdata stack_size prio entry) sched_id
  | KillRequest proc_id respond => svc_kill msg proc_id respond
  | UnregObjectRequest proc_id object_id respond => svc_unreg msg proc_id object_id respond
  | MsgOther id _ =>
      if bool_decide (id ∈ [PRS_PROC_MSG_ID_EXEC_REQUEST; PRS_PROC_MSG_ID_KILL_REQUEST;
                            PRS_PROC_MSG_ID_UNREG_OBJECT_REQUEST])
      then pure Undef (* a structure that was not filled in *)
      else error_continue fuel self address
  | _ => error_continue fuel self address
  end.

(** The body of the loop of [prs_svc_proc_task]. *)
Definition svc_proc_round (last_gc_ticks : Z) : prog kern Z :=
  now ← prs_clock_get;
  last_gc_ticks ← (if PRS_TICKS_FROM_SECS 1 <=? u32 (now - last_gc_ticks) then _ ← prs_proc_gc fuel; mret now
                   else mret last_gc_ticks);
  msg ← pr_msg_recv_timeout fuel self (u32 (PRS_TICKS_FROM_SECS 1 - (now - last_gc_ticks)));
  match msg with
  | None => mret last_gc_ticks
  | Some msg =>
      worker ← nonnull self;
      _ ← prs_worker_int_disable worker;
      _ ← svc_dispatch msg;
      _ ← (let _ : GetNext := prs_sched_get_next fuel in prs_worker_int_enable fuel worker);
      _ ← pr_msg_free fuel self msg;
      mret last_gc_ticks
  end.

Fixpoint svc_proc_loop (rounds : nat) (last_gc_ticks : Z) : prog kern unit :=
  match rounds with
  | O => Spin
  | S rounds => last_gc_ticks ← svc_proc_round last_gc_ticks; svc_proc_loop rounds last_gc_ticks
  end.

Definition prs_svc_proc_task (rounds : nat) : prog kern unit :=
  last_gc_ticks ← prs_clock_get;
  svc_proc_loop rounds last_gc_ticks.

(** [entry]: the address of [prs_svc_proc_task], [name] that of the service. *)
Definition svc_init (name : list Z) (stack_size : Z) (entry : ptr) (sched_id prio : Z) : prog kern unit :=
  task ← prs_task_create fuel self (PrsTaskCreateParams name None stack_size prio entry);
  _ ← fatal_if (bool_decide (task = None));
  task ← nonnull task;
  id ← prs_task_get_id task;
  result ← prs_sched_add_task sched_id id;
  fatal_if (bool_decide (result ≠ PRS_OK)).

Definition prs_svc_proc_init (entry : ptr) (sched_id prio : Z) : prog kern unit :=
  svc_init PRS_PROC_SVC_NAME 16384 entry sched_id prio.
End service.

(** ** The sizes of the answers *)

Section sizes.
Context `{!ObjectFree, !ObjectDestroy, !Pit, !TaskParts, !ProcService, !PalProc, !ExcpParts, !ExcpHandlers}.
Context (fuel : nat) (address : Z).

(** A new message has the size that was asked for, and the ID when that has room. *)
Lemma run_msg_alloc c w cur we tk id size l hs :
  (1 < fuel)%nat → k_workers c !! w = Some we → wk_current_task we = Some cur → quiet c (Some w) →
  k_tasks c !! cur = Some tk → heap_answers (k_heap c) = Some l :: hs → 4 ≤ size →
  run (pr_msg_alloc fuel (Some w) id size) c =
    Ret (Some l, with_msgs (<[l := PrsMsg (tk_id tk) (tk_id tk) size (MsgOther id [])]> (k_msgs c))
                   (with_heap (Heap ({[ l ]} ∪ heap_live (k_heap c)) hs) c)).
Proof using Type.
  intros Hfuel Hw Hcur Hq Htk Ha Hsize. unfold pr_msg_alloc.
  eapply run_seq; [eapply eq_trans; [apply (run_seq _ _ _ w c); [reflexivity|]; eapply run_seq; [apply run_load; eapply field_get; exact Hw|];
    rewrite Hcur; reflexivity|reflexivity]|].
  destruct (quiet_masked _ _ Hq) as [Hq1 Hm].
  match goal with |- _ = Ret (Some l, ?d) => transitivity (Ret (Some l, with_workers (k_workers c) (with_workers (k_workers (masked (Some w) c)) d)));
    [|by destruct c] end.
  apply run_int_masked; [done|done| |done].
  eapply run_seq; [eapply run_int_masked; [done|exact Hq1|rewrite Hm; by apply run_alloc_block|by rewrite Hm]|].
  eapply run_seq; [reflexivity|]. eapply run_seq; [apply run_nonnull|].
  eapply run_seq; [apply run_get_field; exact Htk|].
  eapply run_seq; [apply run_store; eapply field_set; apply lookup_insert_eq|].
  eapply run_seq; [apply run_get_field; exact Htk|].
  eapply run_seq; [apply run_store; eapply field_set; apply lookup_insert_eq|].
  eapply run_seq; [|reflexivity]. eapply run_seq; [apply run_get_field; apply lookup_insert_eq|].
  cbn [mg_size set_mg_sender set_mg_owner sizeof_msg length]. rewrite (proj2 (Z.ltb_ge _ _)) by lia.
  eapply eq_trans; [apply run_store; eapply field_set; apply lookup_insert_eq|].
  cbn. by rewrite !insert_insert_eq.
Qed.

(** The answer to a request to take an object off a process is allocated with the size of
    another structure, and its last field is written past the end. *)
Lemma svc_unreg_overflows c c1 w cur we tk msg p o l hs :
  (1 < fuel)%nat → run (svc_unreg_object p o) c = Ret (Some tt, c1) →
  k_workers c1 !! w = Some we → wk_current_task we = Some cur → quiet c1 (Some w) →
  k_tasks c1 !! cur = Some tk → heap_answers (k_heap c1) = Some l :: hs →
  run (svc_unreg fuel (Some w) address msg p o true) c = Undef.
Proof using Type.
  intros Hfuel Hrun Hw Hcur Hq Htk Ha. unfold svc_unreg, svc_respond. eapply run_seq; [exact Hrun|].
  eapply run_seq; [by eapply run_msg_alloc|].
  rewrite run_bind. unfold fill_msg at 1. rewrite run_bind.
  erewrite run_get_field by apply lookup_insert_eq. done.
Qed.
End sizes.
