(* ===== verification/Stack.v ===== *)
(** * Virtual memory and stacks (prs/pal/posix/mem.c, prs/alloc/stack.c)

    A stack reserves a fixed range of addresses and commits pages at its end; it grows
    when the pages that are not committed are touched. *)

From S2P Require Import Prelude Bitops.

(** ** The operating system

    [mmap] answers with an address or [MAP_FAILED]; [mprotect] sets the protection of whole
    pages of mapped memory, and may fail for want of memory even then ([ENOMEM]). *)

Definition MAP_FAILED : Z := 2 ^ 64 - 1.
Definition PROT_NONE : Z := 0.
Definition PROT_READ : Z := 1.
Definition PROT_WRITE : Z := 2.
Definition PROT_EXEC : Z := 4.
Definition MAP_PRIVATE : Z := 0x2.
Definition MAP_ANONYMOUS : Z := 0x20.
Definition MAP_LOCKED : Z := 0x2000.
Definition MAP_HUGETLB : Z := 0x40000.
Definition MAP_HUGE_SHIFT : Z := 26.

(** The mapped ranges (address, size), the protections that were set (address, size,
    protection), the last first, the errors reported in the log, and, for the coming calls
    of [mprotect], whether the system refuses them: [Some n] when it does, with the new
    protection set for the first [n] bytes all the same; no answer means that it does not. *)
Record vm : Type := Vm {
  vm_answers : list Z;
  vm_maps : list (Z * Z);
  vm_prots : list (Z * Z * Z);
  vm_errors : nat;
  vm_denied : list (option Z)
}.

Section mem.
(** The page sizes, which the system reports at start-up. *)
Variables page_size huge_page_size : Z.

(** [mmap(0, size, prot, flags, 0, 0)].  The flags choose the kind of pages, which does
    not matter for what can be accessed. *)
Definition mmap (size prot flags : Z) (m : vm) : Z * vm :=
  match vm_answers m with
  | addr :: answers =>
      if addr =? MAP_FAILED then (MAP_FAILED, Vm answers (vm_maps m) (vm_prots m) (vm_errors m) (vm_denied m))
      else (addr, Vm answers ((addr, size) :: vm_maps m) ((addr, size, prot) :: vm_prots m) (vm_errors m) (vm_denied m))
  | [] => (MAP_FAILED, m)
  end.

Definition inside (r : Z * Z) (addr size : Z) : bool := (r.1 <=? addr) && (addr + size <=? r.1 + r.2).

(** [mprotect(addr, size, prot)]: whether it failed. *)
Definition mprotect (addr size prot : Z) (m : vm) : bool * vm :=
  let size := (size + page_size - 1) / page_size * page_size in
  if (addr mod page_size =? 0) && existsb (λ r, inside r addr size) (vm_maps m) then
    let set size := Vm (vm_answers m) (vm_maps m) ((addr, size, prot) :: vm_prots m) (vm_errors m) (tail (vm_denied m)) in
    match head (vm_denied m) with
    | Some (Some part) => (true, set (Z.min part size))
    | _ => (false, set size)
    end
  else (true, m).

(** [munmap(addr, size)] of a whole mapping. *)
Definition munmap (addr size : Z) (m : vm) : bool * vm :=
  if addr mod page_size =? 0
  then (false, Vm (vm_answers m) (filter (λ r, ¬ (r.1 = addr ∧ r.2 = size)) (vm_maps m)) (vm_prots m) (vm_errors m) (vm_denied m))
  else (true, m).

(** The protection of the memory at an address. *)
Fixpoint prot_at (prots : list (Z * Z * Z)) (a : Z) : Z :=
  match prots with
  | [] => PROT_NONE
  | (addr, size, prot) :: prots => if (addr <=? a) && (a <? addr + size) then prot else prot_at prots a
  end.

Definition mapped (m : vm) (a : Z) : bool := existsb (λ r, inside r a 1) (vm_maps m).
Definition accessible (m : vm) (a : Z) : bool :=
  mapped m a && (prot_at (vm_prots m) a =? Z.lor PROT_READ PROT_WRITE).

(** [PRS_ERROR_WHEN(cond)] *)
Definition error_when (cond : bool) (m : vm) : vm :=
  if cond then Vm (vm_answers m) (vm_maps m) (vm_prots m) (S (vm_errors m)) (vm_denied m) else m.

(** ** Memory (posix/mem.c) *)

Definition PRS_PAL_MEM_FLAG_READ : Z := 1.
Definition PRS_PAL_MEM_FLAG_WRITE : Z := 2.
Definition PRS_PAL_MEM_FLAG_EXECUTE : Z := 4.
Definition PRS_PAL_MEM_FLAG_GUARD_ONLY : Z := 8.
Definition PRS_PAL_MEM_FLAG_COMMIT : Z := 0x80000000.
Definition PRS_PAL_MEM_FLAG_LOCK : Z := 0x40000000.
Definition PRS_PAL_MEM_FLAG_LARGE_PAGE : Z := 0x20000000.
Definition PRS_PAL_MEM_FLAG_ALL_PROTECTION : Z :=
  Z.lor (Z.lor (Z.lor PRS_PAL_MEM_FLAG_READ PRS_PAL_MEM_FLAG_WRITE) PRS_PAL_MEM_FLAG_EXECUTE)
    PRS_PAL_MEM_FLAG_GUARD_ONLY.

Definition prs_pal_mem_protect_flags (flags : Z) : Z :=
  let prot := PROT_NONE in
  let prot := if truthy (Z.land flags PRS_PAL_MEM_FLAG_READ) then Z.lor prot PROT_READ else prot in
  let prot := if truthy (Z.land flags PRS_PAL_MEM_FLAG_WRITE) then Z.lor prot PROT_WRITE else prot in
  if truthy (Z.land flags PRS_PAL_MEM_FLAG_EXECUTE) then Z.lor prot PROT_EXEC else prot.

(** The result is compared with null, not with [MAP_FAILED]. *)
Definition prs_pal_mem_map (size flags : Z) (m : vm) : Z * vm :=
  let prot :=
    if truthy (Z.land flags PRS_PAL_MEM_FLAG_COMMIT) && truthy (Z.land flags PRS_PAL_MEM_FLAG_ALL_PROTECTION)
    then prs_pal_mem_protect_flags flags else PROT_NONE in
  let mmap_flags := Z.lor MAP_PRIVATE MAP_ANONYMOUS in
  let mmap_flags :=
    if truthy (Z.land flags PRS_PAL_MEM_FLAG_LARGE_PAGE)
    then Z.lor (Z.lor mmap_flags MAP_HUGETLB) (Z.shiftl (prs_bitops_hsb_uint huge_page_size) MAP_HUGE_SHIFT)
    else mmap_flags in
  let mmap_flags :=
    if truthy (Z.land flags PRS_PAL_MEM_FLAG_LOCK) then Z.lor mmap_flags MAP_LOCKED else mmap_flags in
  let (result, m) := mmap size prot mmap_flags m in
  (result, error_when (result =? 0) m).

Definition prs_pal_mem_unmap (ptr size : Z) (m : vm) : vm :=
  let (error, m) := munmap ptr size m in error_when error m.

Definition prs_pal_mem_commit (ptr size flags : Z) (m : vm) : vm :=
  let (error, m) := mprotect ptr size (prs_pal_mem_protect_flags flags) m in error_when error m.

Definition prs_pal_mem_uncommit (ptr size : Z) (m : vm) : vm :=
  let (error, m) := mprotect ptr size PROT_NONE m in error_when error m.

Definition prs_pal_mem_protect (ptr size flags : Z) (m : vm) : vm :=
  let (error, m) := mprotect ptr size (prs_pal_mem_protect_flags flags) m in error_when error m.

(** ** Stacks (alloc/stack.c) *)

Definition PRS_MAX_STACK_SIZE : Z := 1 * 1024 * 1024.

(** The end of the stack (null on failure), and the size that is committed. *)
Definition prs_stack_create (size : Z) (m : vm) : Z * Z * vm :=
  let aligned_size := prs_bitops_align_size size page_size in
  if PRS_MAX_STACK_SIZE <? aligned_size then (0, 0, m)
  else
    let (stack_bottom, m) := prs_pal_mem_map PRS_MAX_STACK_SIZE 0 m in
    if stack_bottom =? 0 then (0, 0, m)
    else
      let protected_size := u64 (PRS_MAX_STACK_SIZE - aligned_size) in
      let stack_limit := u64 (stack_bottom + protected_size) in
      let m := prs_pal_mem_commit stack_limit aligned_size
        (Z.lor PRS_PAL_MEM_FLAG_READ PRS_PAL_MEM_FLAG_WRITE) m in
      (u64 (stack_bottom + PRS_MAX_STACK_SIZE), aligned_size, m).

Definition prs_stack_destroy (stack : Z) (m : vm) : vm :=
  prs_pal_mem_unmap (u64 (stack - PRS_MAX_STACK_SIZE)) PRS_MAX_STACK_SIZE m.

(** Success, and the new size. *)
Definition prs_stack_grow (stack old_size failed_ptr : Z) (m : vm) : bool * Z * vm :=
  let required_size := u64 (stack - failed_ptr) in
  let grow_size := prs_bitops_align_size required_size page_size in
  let aligned_new_size := prs_bitops_align_size required_size page_size in
  if PRS_MAX_STACK_SIZE <? aligned_new_size then (false, old_size, m)
  else
    let stack_bottom := u64 (stack - PRS_MAX_STACK_SIZE) in
    let protected_size := u64 (PRS_MAX_STACK_SIZE - aligned_new_size) in
    let stack_limit := u64 (stack_bottom + protected_size) in
    let m := prs_pal_mem_commit stack_limit grow_size
      (Z.lor PRS_PAL_MEM_FLAG_READ PRS_PAL_MEM_FLAG_WRITE) m in
    (true, aligned_new_size, m).

Definition prs_stack_address_in_range (stack address : Z) : bool :=
  let start := u64 (stack - PRS_MAX_STACK_SIZE) in
  (start <=? address) && (address <? stack).
End mem.

(** ** What is accessible *)

(** The system does not refuse the next change of a protection. *)
Definition granted (m : vm) : Prop := match head (vm_denied m) with Some (Some _) => False | _ => True end.

Lemma mprotect_granted page_size addr size prot m n :
  (size + page_size - 1) / page_size * page_size = n → addr mod page_size = 0 →
  existsb (λ r, inside r addr n) (vm_maps m) = true → granted m →
  mprotect page_size addr size prot m =
    (false, Vm (vm_answers m) (vm_maps m) ((addr, n, prot) :: vm_prots m) (vm_errors m) (tail (vm_denied m))).
Proof.
  intros <- Ha Hin Hg. unfold mprotect, granted in *. rewrite Ha, Hin. cbn [Z.eqb andb].
  by destruct (head (vm_denied m)) as [[part|]|].
Qed.

Lemma mprotect_denied page_size addr size prot m n part denied :
  (size + page_size - 1) / page_size * page_size = n → addr mod page_size = 0 →
  existsb (λ r, inside r addr n) (vm_maps m) = true → vm_denied m = Some part :: denied →
  mprotect page_size addr size prot m =
    (true, Vm (vm_answers m) (vm_maps m) ((addr, Z.min part n, prot) :: vm_prots m) (vm_errors m) denied).
Proof. intros <- Ha Hin Hd. unfold mprotect. by rewrite Ha, Hin, Hd. Qed.

(** The stack's range is mapped, and the last [n] bytes of it, and no others, can be
    read and written. *)
Record committed (base n : Z) (m : vm) : Prop := Committed {
  cm_mapped : (base, PRS_MAX_STACK_SIZE) ∈ vm_maps m;
  cm_access a : base ≤ a < base + PRS_MAX_STACK_SIZE →
    accessible m a = (base + PRS_MAX_STACK_SIZE - n <=? a)
}.

Section stack.
Context (k huge base : Z) (Hk : 0 ≤ k ≤ 20) (Hbase : 0 < base) (Hend : base + PRS_MAX_STACK_SIZE < 2 ^ 64)
  (Haligned : base mod 2 ^ k = 0).

Lemma page_bounds : 1 ≤ 2 ^ k ≤ 2 ^ 20 ∧ PRS_MAX_STACK_SIZE mod 2 ^ k = 0.
Proof using Hk.
  split; [split; [pose proof (Z.pow_pos_nonneg 2 k); lia|apply Z.pow_le_mono_r; lia]|].
  apply Z.mod_divide; [lia|]. exists (2 ^ (20 - k)). rewrite <- Z.pow_add_r by lia.
  change PRS_MAX_STACK_SIZE with (2 ^ 20). f_equal. lia.
Qed.

(** The aligned size of a stack stays within the maximum. *)
Lemma stack_size_aligned size :
  0 < size ≤ PRS_MAX_STACK_SIZE →
  let a := prs_bitops_align_size size (2 ^ k) in
  size ≤ a < size + 2 ^ k ∧ a mod 2 ^ k = 0 ∧ a ≤ PRS_MAX_STACK_SIZE.
Proof using Hk.
  intros Hs a. destruct page_bounds as [Hp Hm]. unfold PRS_MAX_STACK_SIZE in Hs.
  destruct (align_size_bounds size k) as [Hb Ha]; [lia..|]. fold a in Hb, Ha.
  split; [done|]. split; [done|].
  apply Z.mod_divide in Ha as [q Hq]; [|lia]. apply Z.mod_divide in Hm as [r Hr]; [|lia].
  rewrite Hq, Hr. apply Z.mul_le_mono_nonneg_r; [lia|]. rewrite Hq in Hb.
  assert (q * 2 ^ k < (r + 1) * 2 ^ k) as Hlt.
  { rewrite Z.mul_add_distr_r, <- Hr, Z.mul_1_l. unfold PRS_MAX_STACK_SIZE. lia. }
  apply Z.mul_lt_mono_pos_r in Hlt; lia.
Qed.

Lemma round_up_aligned n : n mod 2 ^ k = 0 → (n + 2 ^ k - 1) / 2 ^ k * 2 ^ k = n.
Proof using Hk.
  intros Hn. destruct page_bounds as [Hp _]. apply Z.mod_divide in Hn as [q ->]; [|lia].
  replace (q * 2 ^ k + 2 ^ k - 1) with (2 ^ k - 1 + q * 2 ^ k) by lia.
  rewrite Z.div_add, Z.div_small by lia. lia.
Qed.

(** Committing the last [n] bytes. *)
Lemma end_mapped n m :
  (base, PRS_MAX_STACK_SIZE) ∈ vm_maps m → 0 ≤ n ≤ PRS_MAX_STACK_SIZE → n mod 2 ^ k = 0 →
  (base + (PRS_MAX_STACK_SIZE - n)) mod 2 ^ k = 0 ∧
  existsb (λ r, inside r (base + (PRS_MAX_STACK_SIZE - n)) n) (vm_maps m) = true.
Proof using Hk Haligned.
  intros Hin Hn Hm. destruct page_bounds as [Hp Hmax]. split.
  - rewrite Z.add_mod, Zminus_mod, Haligned, Hmax, Hm by lia. by rewrite Z.sub_0_r, !Z.mod_0_l by lia.
  - apply existsb_exists. exists (base, PRS_MAX_STACK_SIZE). split; [by apply list_elem_of_In|].
    unfold inside. simpl. apply andb_true_iff. rewrite !Z.leb_le. lia.
Qed.

Lemma commit_end n m :
  (base, PRS_MAX_STACK_SIZE) ∈ vm_maps m → 0 ≤ n ≤ PRS_MAX_STACK_SIZE → n mod 2 ^ k = 0 → granted m →
  prs_pal_mem_commit (2 ^ k) (base + (PRS_MAX_STACK_SIZE - n)) n
    (Z.lor PRS_PAL_MEM_FLAG_READ PRS_PAL_MEM_FLAG_WRITE) m =
  Vm (vm_answers m) (vm_maps m) ((base + (PRS_MAX_STACK_SIZE - n), n, 3) :: vm_prots m) (vm_errors m) (tail (vm_denied m)).
Proof using Hk Haligned.
  intros Hin Hn Hm Hg. destruct (end_mapped n m Hin Hn Hm) as [Ha He].
  unfold prs_pal_mem_commit. by rewrite (mprotect_granted _ _ _ _ _ n) by (done || by apply round_up_aligned).
Qed.

Lemma commit_end_denied n m part denied :
  (base, PRS_MAX_STACK_SIZE) ∈ vm_maps m → 0 ≤ n ≤ PRS_MAX_STACK_SIZE → n mod 2 ^ k = 0 → vm_denied m = Some part :: denied →
  prs_pal_mem_commit (2 ^ k) (base + (PRS_MAX_STACK_SIZE - n)) n
    (Z.lor PRS_PAL_MEM_FLAG_READ PRS_PAL_MEM_FLAG_WRITE) m =
  Vm (vm_answers m) (vm_maps m) ((base + (PRS_MAX_STACK_SIZE - n), Z.min part n, 3) :: vm_prots m) (S (vm_errors m)) denied.
Proof using Hk Haligned.
  intros Hin Hn Hm Hd. destruct (end_mapped n m Hin Hn Hm) as [Ha He].
  unfold prs_pal_mem_commit. by rewrite (mprotect_denied _ _ _ _ _ n part denied) by (done || by apply round_up_aligned).
Qed.

(** What was accessible still is, and nothing else when nothing was set. *)
Lemma denied_access n part m errors denied :
  let m' := Vm (vm_answers m) (vm_maps m) ((base + (PRS_MAX_STACK_SIZE - n), Z.min part n, 3) :: vm_prots m) errors denied in
  (∀ a, accessible m a = true → accessible m' a = true) ∧ (part ≤ 0 → ∀ a, accessible m' a = accessible m a).
Proof using Type.
  clear.
  intros m'. unfold accessible, mapped. cbn [m' vm_maps vm_prots prot_at]. split.
  - intros a. rewrite !andb_true_iff. intros [Hm Hp]. split; [done|]. by destruct (_ && _).
  - intros Hpart a. set (lo := base + _). destruct (Z.leb_spec lo a); [|done].
    by rewrite (proj2 (Z.ltb_ge _ _)) by lia.
Qed.

Lemma commit_committed n m denied :
  (base, PRS_MAX_STACK_SIZE) ∈ vm_maps m → 0 ≤ n ≤ PRS_MAX_STACK_SIZE →
  (∀ a, base ≤ a < base + PRS_MAX_STACK_SIZE - n → accessible m a = false) →
  committed base n
    (Vm (vm_answers m) (vm_maps m) ((base + (PRS_MAX_STACK_SIZE - n), n, 3) :: vm_prots m) (vm_errors m) denied).
Proof using Hk Hbase Hend Haligned.
  intros Hin Hn Hno. split; [done|]. intros a Ha.
  assert (mapped m a = true) as Hmap.
  { apply existsb_exists. exists (base, PRS_MAX_STACK_SIZE). split; [by apply list_elem_of_In|].
    unfold inside. simpl. apply andb_true_iff. rewrite !Z.leb_le. lia. }
  unfold accessible, mapped in *. simpl. rewrite Hmap. simpl.
  destruct (Z.leb_spec (base + PRS_MAX_STACK_SIZE - n) a) as [Hin'|Hout].
  - rewrite (proj2 (Z.leb_le _ _)), (proj2 (Z.ltb_lt _ _)) by lia. done.
  - rewrite (proj2 (Z.leb_gt _ _)) by lia. simpl. specialize (Hno a ltac:(lia)).
    by rewrite Hmap in Hno.
Qed.

Lemma commit_limit n : 0 ≤ n ≤ PRS_MAX_STACK_SIZE →
  u64 (base + u64 (PRS_MAX_STACK_SIZE - n)) = base + (PRS_MAX_STACK_SIZE - n).
Proof using Hbase Hend Hk.
  intros Hn. rewrite (u64_small (PRS_MAX_STACK_SIZE - n)) by (unfold PRS_MAX_STACK_SIZE in *; lia).
  by rewrite u64_small by lia.
Qed.

(** The creation, whether or not the system commits the pages. *)
Lemma stack_create_eq answers m size :
  vm_answers m = base :: answers → 0 < size ≤ PRS_MAX_STACK_SIZE →
  let a := prs_bitops_align_size size (2 ^ k) in
  let m1 := Vm answers ((base, PRS_MAX_STACK_SIZE) :: vm_maps m) ((base, PRS_MAX_STACK_SIZE, PROT_NONE) :: vm_prots m)
    (vm_errors m) (vm_denied m) in
  prs_stack_create (2 ^ k) huge size m = (base + PRS_MAX_STACK_SIZE, a,
    prs_pal_mem_commit (2 ^ k) (base + (PRS_MAX_STACK_SIZE - a)) a (Z.lor PRS_PAL_MEM_FLAG_READ PRS_PAL_MEM_FLAG_WRITE) m1) ∧
  (base, PRS_MAX_STACK_SIZE) ∈ vm_maps m1 ∧ ∀ b, base ≤ b < base + PRS_MAX_STACK_SIZE → accessible m1 b = false.
Proof using Hk Hbase Hend Haligned.
  intros Hans Hs a m1. destruct (stack_size_aligned size Hs) as (Hb & Hm & Hmax). fold a in Hb, Hm, Hmax. split; [|split].
  - unfold prs_stack_create. fold a. rewrite (proj2 (Z.ltb_ge _ _)) by lia.
    unfold prs_pal_mem_map, mmap. rewrite Hans.
    destruct (Z.eqb_spec base MAP_FAILED) as [->|_]; [unfold MAP_FAILED, PRS_MAX_STACK_SIZE in Hend; lia|].
    cbn [truthy]. rewrite (proj2 (Z.eqb_neq base 0)) by lia. cbn [error_when].
    rewrite commit_limit by lia. by rewrite u64_small by (unfold PRS_MAX_STACK_SIZE in *; lia).
  - by left.
  - intros b Hbnd. unfold accessible. cbn [m1 vm_prots prot_at].
    rewrite (proj2 (Z.leb_le base b)), (proj2 (Z.ltb_lt b _)) by lia. apply andb_false_r.
Qed.

Lemma stack_create_ok answers m size :
  vm_answers m = base :: answers → 0 < size ≤ PRS_MAX_STACK_SIZE → granted m →
  let a := prs_bitops_align_size size (2 ^ k) in
  ∃ m', prs_stack_create (2 ^ k) huge size m = (base + PRS_MAX_STACK_SIZE, a, m') ∧
    committed base a m' ∧ vm_errors m' = vm_errors m.
Proof using Hk Hbase Hend Haligned.
  intros Hans Hs Hg a. destruct (stack_size_aligned size Hs) as (Hb & Hm & Hmax). fold a in Hb, Hm, Hmax.
  destruct (stack_create_eq answers m size Hans Hs) as (Heq & Hin & Hno). fold a in Heq.
  rewrite Heq, commit_end by (done || lia). eexists. split; [reflexivity|]. split; [|done].
  apply commit_committed; [done|lia|]. intros b Hbnd. apply Hno. lia.
Qed.

(** Growing, whether or not the system commits the pages. *)
Lemma stack_grow_eq n m failed :
  0 ≤ n → base ≤ failed < base + PRS_MAX_STACK_SIZE - n →
  let n' := prs_bitops_align_size (base + PRS_MAX_STACK_SIZE - failed) (2 ^ k) in
  prs_stack_grow (2 ^ k) (base + PRS_MAX_STACK_SIZE) n failed m = (true, n',
    prs_pal_mem_commit (2 ^ k) (base + (PRS_MAX_STACK_SIZE - n')) n' (Z.lor PRS_PAL_MEM_FLAG_READ PRS_PAL_MEM_FLAG_WRITE) m).
Proof using Hk Hbase Hend.
  intros Hn Hf n'. destruct (stack_size_aligned (base + PRS_MAX_STACK_SIZE - failed) ltac:(lia)) as (Hb & Hm & Hmax).
  fold n' in Hb, Hm, Hmax.
  unfold prs_stack_grow. rewrite (u64_small (base + PRS_MAX_STACK_SIZE - failed))
    by (unfold PRS_MAX_STACK_SIZE in *; lia).
  fold n'. rewrite (proj2 (Z.ltb_ge _ _)) by lia.
  replace (u64 (base + PRS_MAX_STACK_SIZE - PRS_MAX_STACK_SIZE)) with base
    by (rewrite u64_small by (unfold PRS_MAX_STACK_SIZE in *; lia); lia).
  by rewrite commit_limit by lia.
Qed.

Lemma stack_grow_ok n m failed :
  committed base n m → 0 ≤ n → base ≤ failed < base + PRS_MAX_STACK_SIZE - n → granted m →
  let n' := prs_bitops_align_size (base + PRS_MAX_STACK_SIZE - failed) (2 ^ k) in
  ∃ m', prs_stack_grow (2 ^ k) (base + PRS_MAX_STACK_SIZE) n failed m = (true, n', m') ∧
    committed base n' m' ∧ vm_errors m' = vm_errors m.
Proof using Hk Hbase Hend Haligned.
  intros [Hin Hacc] Hn Hf Hg n'.
  destruct (stack_size_aligned (base + PRS_MAX_STACK_SIZE - failed) ltac:(lia)) as (Hb & Hm & Hmax).
  fold n' in Hb, Hm, Hmax. rewrite stack_grow_eq by done. fold n'. rewrite commit_end by (done || lia).
  eexists. split; [reflexivity|]. split; [|done].
  apply commit_committed; [done|lia|]. intros b Hbnd. rewrite Hacc by lia. apply Z.leb_gt. lia.
Qed.
End stack.


