(* ===== verification/Cpu.v ===== *)
(** * The processor

    An AMD64 thread, as far as the register contexts of both platforms need it: registers,
    flags, SSE state and memory; the instructions of the assembly in prs/pal/posix/context.c
    and prs/pal/windows/context.c; runs of a text, and what blocks of loads and stores do.

    Memory is made of 64-bit words at addresses that are multiples of 8; an access that is
    not aligned is undefined here (the code makes none). *)

From S2P Require Import Prelude.

(** ** The processor *)

Inductive reg : Set :=
  | R8 | R9 | R10 | R11 | R12 | R13 | R14 | R15 | RDI | RSI | RBP | RBX | RDX | RAX | RCX | RSP.

(** [REG_R8], ..., [REG_RSP] of the C library. *)
Definition reg_index (r : reg) : Z :=
  match r with
  | R8 => 0 | R9 => 1 | R10 => 2 | R11 => 3 | R12 => 4 | R13 => 5 | R14 => 6 | R15 => 7
  | RDI => 8 | RSI => 9 | RBP => 10 | RBX => 11 | RDX => 12 | RAX => 13 | RCX => 14 | RSP => 15
  end.

Abbreviation memory := (gmap Z Z).

Record machine : Type := Machine {
  m_regs : reg → Z;
  m_flags : Z;
  m_xmm : nat → Z * Z;
  m_mxcsr : Z;
  m_mem : memory
}.

Definition upd_reg (r : reg) (v : Z) (f : reg → Z) : reg → Z :=
  λ r', if reg_index r =? reg_index r' then v else f r'.
Definition upd_xmm (i : nat) (v : Z * Z) (f : nat → Z * Z) : nat → Z * Z :=
  λ i', if (i =? i')%nat then v else f i'.

Definition set_reg (r : reg) (v : Z) (m : machine) : machine :=
  Machine (upd_reg r v (m_regs m)) (m_flags m) (m_xmm m) (m_mxcsr m) (m_mem m).
Definition set_flags (v : Z) (m : machine) : machine :=
  Machine (m_regs m) v (m_xmm m) (m_mxcsr m) (m_mem m).
Definition set_xmm (i : nat) (v : Z * Z) (m : machine) : machine :=
  Machine (m_regs m) (m_flags m) (upd_xmm i v (m_xmm m)) (m_mxcsr m) (m_mem m).
Definition set_mxcsr (v : Z) (m : machine) : machine :=
  Machine (m_regs m) (m_flags m) (m_xmm m) v (m_mem m).
Definition set_mem (v : memory) (m : machine) : machine :=
  Machine (m_regs m) (m_flags m) (m_xmm m) (m_mxcsr m) v.

(** *** Memory *)

Definition rd (mem : memory) (a : Z) : outcome Z := if a mod 8 =? 0 then deref (mem !! a) else Undef.
Definition wr (mem : memory) (a v : Z) : outcome memory :=
  if a mod 8 =? 0 then _ ← deref (mem !! a); Ret (<[a := v]> mem) else Undef.

(** 32 bits at an address, in the low or in the high half of a word. *)
Definition rd32 (mem : memory) (a : Z) : outcome Z :=
  if a mod 8 =? 4 then w ← rd mem (a - 4); Ret (w / 2 ^ 32) else w ← rd mem a; Ret (w mod 2 ^ 32).
Definition wr32 (mem : memory) (a v : Z) : outcome memory :=
  if a mod 8 =? 4 then w ← rd mem (a - 4); wr mem (a - 4) (v mod 2 ^ 32 * 2 ^ 32 + w mod 2 ^ 32)
  else w ← rd mem a; wr mem a (w / 2 ^ 32 * 2 ^ 32 + v mod 2 ^ 32).

(** 128 bits, for the instructions that need addresses that are multiples of 16. *)
Definition rd128 (mem : memory) (a : Z) : outcome (Z * Z) :=
  if a mod 16 =? 0 then lo ← rd mem a; hi ← rd mem (a + 8); Ret (lo, hi) else Undef.
Definition wr128 (mem : memory) (a : Z) (v : Z * Z) : outcome memory :=
  if a mod 16 =? 0 then mem ← wr mem a v.1; wr mem (a + 8) v.2 else Undef.

(** *** Instructions

    In the order of the source: the last operand is the destination; [MovRM r off b] is
    [mov %r, off(%b)] and [MovMR off b r] is [mov off(%b), %r]. *)

(** The labels of the assembly; [prs_pal_context_swap] is the function, whose first
    instructions are the compiler's. *)
Inductive label : Set :=
  | _prs_pal_context_return
  | _prs_pal_context_return_trampoline
  | prs_pal_context_swap
  | rip_ref
  | prs_pal_context_swap_restore
  | prs_pal_context_swap_return.

Inductive instr : Set :=
  | MovRR (src dst : reg)
  | MovI (imm : Z) (dst : reg)
  | MovRM (src : reg) (off : Z) (base : reg)
  | MovMR (off : Z) (base dst : reg)
  | MovRM32 (src : reg) (off : Z) (base : reg)
  | MovMR32 (off : Z) (base dst : reg)
  | MovLabel (l : label) (dst : reg)
  | AddI (imm : Z) (dst : reg)
  | AddDiff (to from : label) (dst : reg)
  | SubI (imm : Z) (dst : reg)
  | Xor (src dst : reg)
  | Test (src dst : reg)
  | LeaRip (dst : reg)
  | Push (src : reg)
  | Pop (dst : reg)
  | Pushfq
  | Popfq
  | MovapsRM (src : nat) (off : Z) (base : reg)
  | MovapsMR (off : Z) (base : reg) (dst : nat)
  | Ldmxcsr (off : Z) (base : reg)
  | Jz (to : label)
  | Call (to : label)
  | Retq.

(** The flags that [popfq] changes in a user program, and those that [pushfq] clears. *)
Definition USER_FLAGS : Z := 0x244DD5.
Definition RF_VM_FLAGS : Z := 0x30000.
Definition ZF_BIT : Z := 6.

(** What an arithmetic instruction with a given result makes of the flags; only the zero
    flag is looked at. *)
Class ArithFlags : Type := {
  arith_flags : Z → Z → Z;
  arith_flags_zf : ∀ old result, Z.testbit (arith_flags old result) ZF_BIT = (result =? 0)
}.

(** The instructions that the compiler puts before the body of a function: they may push
    and move the frame pointer, below what was on the stack, and, on Windows, use the
    [home] bytes above the return address that the caller leaves for the arguments. *)
Class Prologue (home : Z) : Type := {
  enter : machine → machine;
  enter_regs : ∀ m r, r ≠ RBP → r ≠ RSP → m_regs (enter m) r = m_regs m r;
  enter_xmm : ∀ m, m_xmm (enter m) = m_xmm m ∧ m_mxcsr (enter m) = m_mxcsr m;
  enter_mem : ∀ m a, m_regs m RSP ≤ a → ¬ (m_regs m RSP + 8 ≤ a < m_regs m RSP + 8 + home) →
    m_mem (enter m) !! a = m_mem m !! a;
  enter_dom : ∀ m a, is_Some (m_mem (enter m) !! a) ↔ is_Some (m_mem m !! a)
}.

(** *** Texts *)

(** The instructions, and for every label the index of the one after it. *)
Class Text : Type := {
  text : list instr;
  label_index : label → nat
}.

(** Where the linker puts the instructions; the address after the last one is that of the
    compiled code that follows the assembly in [prs_pal_context_swap]. *)
Class TextLayout `{!Text} : Type := {
  address : nat → Z;
  position : Z → option nat;
  address_range : ∀ i, (i ≤ length text)%nat → 0 ≤ address i < 2 ^ 64;
  position_address : ∀ i, (i ≤ length text)%nat → position (address i) = Some i
}.

(** *** Runs *)

Inductive next : Set := Seq | Goto (pc : nat) | Leave (rip : Z).

Section machine.
Context {home : Z} `{!ArithFlags, !Prologue home, !Text, !TextLayout}.

Definition ea (m : machine) (off : Z) (base : reg) : Z := u64 (m_regs m base + off).

Definition arith (result : Z) (m : machine) : machine := set_flags (arith_flags (m_flags m) result) m.

Definition push (v : Z) (m : machine) : outcome machine :=
  let sp := u64 (m_regs m RSP - 8) in
  mem ← wr (m_mem m) sp v; Ret (set_mem mem (set_reg RSP sp m)).

Definition pop (m : machine) : outcome (Z * machine) :=
  let sp := m_regs m RSP in
  v ← rd (m_mem m) sp; Ret (v, set_reg RSP (u64 (sp + 8)) m).

(** An instruction at index [pc]. *)
Definition exec_instr (pc : nat) (i : instr) (m : machine) : outcome (next * machine) :=
  match i with
  | MovRR src dst => Ret (Seq, set_reg dst (m_regs m src) m)
  | MovI imm dst => Ret (Seq, set_reg dst imm m)
  | MovRM src off base => mem ← wr (m_mem m) (ea m off base) (m_regs m src); Ret (Seq, set_mem mem m)
  | MovMR off base dst => v ← rd (m_mem m) (ea m off base); Ret (Seq, set_reg dst v m)
  | MovRM32 src off base => mem ← wr32 (m_mem m) (ea m off base) (m_regs m src); Ret (Seq, set_mem mem m)
  | MovMR32 off base dst => v ← rd32 (m_mem m) (ea m off base); Ret (Seq, set_reg dst v m)
  | MovLabel l dst =>
      (* the immediate has 32 bits: for a text that is above them the program is not linked *)
      let v := address (label_index l) in if v <? 2 ^ 31 then Ret (Seq, set_reg dst v m) else Undef
  | AddI imm dst => let v := u64 (m_regs m dst + imm) in Ret (Seq, set_reg dst v (arith v m))
  | AddDiff to from dst =>
      let v := u64 (m_regs m dst + (address (label_index to) - address (label_index from))) in
      Ret (Seq, set_reg dst v (arith v m))
  | SubI imm dst => let v := u64 (m_regs m dst - imm) in Ret (Seq, set_reg dst v (arith v m))
  | Xor src dst => let v := Z.lxor (m_regs m src) (m_regs m dst) in Ret (Seq, set_reg dst v (arith v m))
  | Test src dst => Ret (Seq, arith (Z.land (m_regs m src) (m_regs m dst)) m)
  | LeaRip dst => Ret (Seq, set_reg dst (address (S pc)) m)
  | Push src => m ← push (m_regs m src) m; Ret (Seq, m)
  | Pop dst => '(v, m) ← pop m; Ret (Seq, set_reg dst v m)
  | Pushfq => m ← push (Z.ldiff (m_flags m) RF_VM_FLAGS) m; Ret (Seq, m)
  | Popfq =>
      '(v, m) ← pop m;
      Ret (Seq, set_flags (Z.lor (Z.ldiff (m_flags m) USER_FLAGS) (Z.land v USER_FLAGS)) m)
  | MovapsRM src off base => mem ← wr128 (m_mem m) (ea m off base) (m_xmm m src); Ret (Seq, set_mem mem m)
  | MovapsMR off base dst => v ← rd128 (m_mem m) (ea m off base); Ret (Seq, set_xmm dst v m)
  | Ldmxcsr off base => v ← rd32 (m_mem m) (ea m off base); Ret (Seq, set_mxcsr v m)
  | Jz to => Ret (if Z.testbit (m_flags m) ZF_BIT then Goto (label_index to) else Seq, m)
  | Call to => m ← push (address (S pc)) m; Ret (Goto (label_index to), enter m)
  | Retq => '(v, m) ← pop m; Ret (Leave v, m)
  end.

(** The run from an index of the text until it leaves it: the address where the thread goes
    on, and the machine then; nothing when the fuel is over. *)
Fixpoint exec (fuel pc : nat) (m : machine) : outcome (option (Z * machine)) :=
  match fuel with
  | O => Ret None
  | S fuel =>
      match text !! pc with
      | None => Ret (Some (address pc, m))
      | Some i =>
          '(next, m) ← exec_instr pc i m;
          match next with
          | Seq => exec fuel (S pc) m
          | Goto pc => exec fuel pc m
          | Leave rip =>
              match position rip with
              | Some pc => exec fuel pc m
              | None => Ret (Some (rip, m))
              end
          end
      end
  end.


Definition resume (fuel : nat) (rip : Z) (m : machine) : outcome (option (Z * machine)) :=
  match position rip with Some pc => exec fuel pc m | None => Ret (Some (rip, m)) end.

End machine.

(** ** What the C functions share *)

(** [memcpy] of [n] words; the areas may not overlap. *)
Fixpoint copy_words (n : nat) (dst src : Z) (mem : memory) : outcome memory :=
  match n with
  | O => Ret mem
  | S n => v ← rd mem src; mem ← wr mem dst v; copy_words n (dst + 8) (src + 8) mem
  end.
Definition memcpy (dst src size : Z) (mem : memory) : outcome memory :=
  if (dst + size <=? src) || (src + size <=? dst) then copy_words (Z.to_nat (size / 8)) dst src mem else Undef.

(** The registers of a context at [context], at their offsets. *)
Section registers.
Context (off : reg → Z).
(** What the context holds of [r]. *)
Definition reg_of (context : Z) (mem : memory) (r : reg) : outcome Z := rd mem (context + off r).

(** Some of the registers of a context. *)
Fixpoint read_regs (context : Z) (rs : list reg) (mem : memory) : outcome (reg → Z) :=
  match rs with
  | [] => Ret (λ _, 0)
  | r :: rs => v ← reg_of context mem r; f ← read_regs context rs mem; Ret (upd_reg r v f)
  end.
Fixpoint write_regs (context : Z) (rs : list reg) (f : reg → Z) (mem : memory) : outcome memory :=
  match rs with
  | [] => Ret mem
  | r :: rs => mem ← wr mem (context + off r) (f r); write_regs context rs f mem
  end.

End registers.

(** The stack pointer of the call, below what is pushed; whether it had to be aligned. *)
Definition call_frame (sp stack_argc : Z) : Z * bool :=
  let sp := u64 (sp - 2 * 8) in
  let sp := u64 (sp - stack_argc * 8) in
  let sp := u64 (sp - 8) in
  let frame_align := negb (truthy (Z.land sp 15)) in
  (if frame_align then u64 (sp - 8) else sp, frame_align).

(** ** Memory *)

Ltac aligned := Z.to_euclidean_division_equations; lia.

Lemma rd_ok mem a v : a mod 8 = 0 → mem !! a = Some v → rd mem a = Ret v.
Proof. intros Ha Hv. unfold rd. by rewrite Ha, Hv. Qed.

Lemma wr_ok mem a v : a mod 8 = 0 → is_Some (mem !! a) → wr mem a v = Ret (<[a := v]> mem).
Proof. intros Ha [x Hx]. unfold wr. by rewrite Ha, Hx. Qed.

Lemma rd32_ok mem a w : a mod 8 = 0 → mem !! a = Some w → rd32 mem a = Ret (w mod 2 ^ 32).
Proof. intros Ha Hw. unfold rd32. rewrite Ha. cbn. by rewrite (rd_ok _ _ w). Qed.

Lemma wr32_ok mem a w v :
  a mod 8 = 0 → mem !! a = Some w → wr32 mem a v = Ret (<[a := w / 2 ^ 32 * 2 ^ 32 + v mod 2 ^ 32]> mem).
Proof. intros Ha Hw. unfold wr32. rewrite Ha. cbn. rewrite (rd_ok _ _ w) by done. cbn. by rewrite wr_ok by (done || by exists w). Qed.

Lemma rd128_ok mem a lo hi :
  a mod 16 = 0 → mem !! a = Some lo → mem !! (a + 8) = Some hi → rd128 mem a = Ret (lo, hi).
Proof.
  intros Ha Hlo Hhi. unfold rd128. rewrite Ha. cbn. rewrite (rd_ok _ a lo) by (done || aligned). cbn.
  by rewrite (rd_ok _ (a + 8) hi) by (done || aligned).
Qed.

Lemma wr128_ok mem a v :
  a mod 16 = 0 → is_Some (mem !! a) → is_Some (mem !! (a + 8)) →
  wr128 mem a v = Ret (<[a + 8 := v.2]> (<[a := v.1]> mem)).
Proof.
  intros Ha Hlo Hhi. unfold wr128. rewrite Ha. cbn. rewrite wr_ok by (done || aligned). cbn.
  rewrite wr_ok; [done|aligned|]. by rewrite lookup_insert_ne by lia.
Qed.

(** [n] words from an address on are mapped. *)
Definition mapped (mem : memory) (a n : Z) : Prop := ∀ i, 0 ≤ i < n → is_Some (mem !! (a + 8 * i)).

(** Memory that has changed in an area only, and where nothing was unmapped. *)
Definition changed_in (a n : Z) (mem mem' : memory) : Prop :=
  (∀ x, ¬ (a ≤ x < a + 8 * n) → mem' !! x = mem !! x) ∧ ∀ x, is_Some (mem !! x) → is_Some (mem' !! x).

Lemma mapped_changed b k mem mem' a n : changed_in b k mem mem' → mapped mem a n → mapped mem' a n.
Proof. intros [_ Hd] Hm i Hi. by apply Hd, Hm. Qed.

Lemma changed_refl a n mem : changed_in a n mem mem.
Proof. done. Qed.

Lemma changed_trans a n mem mem' mem'' :
  changed_in a n mem mem' → changed_in a n mem' mem'' → changed_in a n mem mem''.
Proof.
  intros [H1 H2] [H3 H4]. split; [|by auto]. intros x Hx. by rewrite H3, H1.
Qed.

Lemma changed_weaken a n b k mem mem' :
  changed_in a n mem mem' → b ≤ a → a + 8 * n ≤ b + 8 * k → changed_in b k mem mem'.
Proof. intros [H1 H2] ??. split; [|done]. intros x Hx. apply H1. lia. Qed.

Lemma changed_insert a v mem : is_Some (mem !! a) → changed_in a 1 mem (<[a := v]> mem).
Proof.
  intros Ha. split.
  - intros x Hx. apply lookup_insert_ne. lia.
  - intros x Hx. destruct (decide (a = x)) as [->|]; [by rewrite lookup_insert_eq|by rewrite lookup_insert_ne].
Qed.

Lemma copy_words_ok n dst src mem :
  dst mod 8 = 0 → src mod 8 = 0 → mapped mem dst (Z.of_nat n) → mapped mem src (Z.of_nat n) →
  dst + 8 * Z.of_nat n ≤ src ∨ src + 8 * Z.of_nat n ≤ dst →
  ∃ mem', copy_words n dst src mem = Ret mem' ∧ changed_in dst (Z.of_nat n) mem mem' ∧
    ∀ i, 0 ≤ i < Z.of_nat n → mem' !! (dst + 8 * i) = mem !! (src + 8 * i).
Proof.
  revert dst src mem. induction n as [|n IH]; intros dst src mem Hd Hs Hmd Hms Hov; cbn [copy_words].
  - exists mem. split_and!; [done|done|lia].
  - destruct (Hms 0) as [v Hv]; [lia|]. rewrite Z.add_0_r in Hv.
    assert (is_Some (mem !! dst)) as Hdst. { specialize (Hmd 0). rewrite Z.add_0_r in Hmd. apply Hmd. lia. }
    rewrite (rd_ok _ _ v) by done. ocbn. rewrite wr_ok by done. ocbn.
    pose proof (changed_insert dst v mem Hdst) as Hch.
    destruct (IH (dst + 8) (src + 8) (<[dst := v]> mem)) as (mem' & Hcopy & Hch' & Heq); [aligned|aligned| | |lia|].
    + intros i Hi. apply Hch. replace (dst + 8 + 8 * i) with (dst + 8 * (i + 1)) by lia. apply Hmd. lia.
    + intros i Hi. apply Hch. replace (src + 8 + 8 * i) with (src + 8 * (i + 1)) by lia. apply Hms. lia.
    + exists mem'. split; [done|]. split.
      * eapply changed_trans; [eapply changed_weaken; [exact Hch|lia|lia]|eapply changed_weaken; [exact Hch'|lia|lia]].
      * intros i Hi. destruct (decide (i = 0)) as [->|].
        -- rewrite !Z.add_0_r, (proj1 Hch') by lia. by rewrite lookup_insert_eq, Hv.
        -- replace (dst + 8 * i) with (dst + 8 + 8 * (i - 1)) by lia. rewrite Heq by lia.
           rewrite lookup_insert_ne by lia. f_equal. lia.
Qed.

Lemma memcpy_ok dst src n mem :
  0 ≤ n → dst mod 8 = 0 → src mod 8 = 0 → mapped mem dst n → mapped mem src n →
  dst + 8 * n ≤ src ∨ src + 8 * n ≤ dst →
  ∃ mem', memcpy dst src (8 * n) mem = Ret mem' ∧ changed_in dst n mem mem' ∧
    ∀ i, 0 ≤ i < n → mem' !! (dst + 8 * i) = mem !! (src + 8 * i).
Proof.
  intros Hn Hd Hs Hmd Hms Hov. destruct (copy_words_ok (Z.to_nat n) dst src mem) as (mem' & Hc & Hch & Heq);
    try (rewrite Z2Nat.id by lia); [done..|].
  rewrite !Z2Nat.id in * by lia. exists mem'. split; [|done].
  unfold memcpy. replace (8 * n / 8) with n by aligned.
  replace ((dst + 8 * n <=? src) || (src + 8 * n <=? dst)) with true; [done|]. symmetry. apply orb_true_iff.
  rewrite !Z.leb_le. lia.
Qed.

(** The words from [lo] up to [hi] are mapped. *)
Definition mapped_from (mem : memory) (lo hi : Z) : Prop := ∀ a, lo ≤ a < hi → a mod 8 = 0 → is_Some (mem !! a).

Lemma mapped_range mem lo hi a n :
  mapped_from mem lo hi → a mod 8 = 0 → lo ≤ a → a + 8 * n ≤ hi → mapped mem a n.
Proof. intros Hm Ha ?? i Hi. apply Hm; [lia|aligned]. Qed.

Lemma land15 x : Z.land x 15 = x mod 16.
Proof. apply (land_low x 4). lia. Qed.
Lemma call_frame_ok t k :
  t mod 16 = 0 → 0 ≤ k → 32 + 8 * k ≤ t < 2 ^ 64 →
  ∃ s1 fr, call_frame t k = (s1, fr) ∧ s1 mod 16 = 8 ∧ s1 + 8 + 8 * k + (if fr : bool then 8 else 0) = t - 16.
Proof.
  intros Ht16 Hk Ht. unfold call_frame.
  rewrite (u64_small (t - 2 * 8)), (u64_small (t - 2 * 8 - k * 8)), (u64_small (t - 2 * 8 - k * 8 - 8)), land15 by lia.
  eexists _, _. split; [reflexivity|]. unfold truthy. rewrite negb_involutive, (u64_small (t - 2 * 8 - k * 8 - 8 - 8)) by lia.
  destruct (Z.eqb_spec ((t - 2 * 8 - k * 8 - 8) mod 16) 0); (split; [aligned|lia]).
Qed.

(** ** Runs of the assembly *)

#[export] Instance reg_eq_dec : EqDecision reg.
Proof. solve_decision. Defined.

Lemma reg_index_inj r r' : reg_index r = reg_index r' → r = r'.
Proof. destruct r, r'; done. Qed.

Lemma upd_reg_eq r v f : upd_reg r v f r = v.
Proof. unfold upd_reg. by rewrite Z.eqb_refl. Qed.

Lemma upd_reg_ne r r' v f : r ≠ r' → upd_reg r v f r' = f r'.
Proof. intros Hne. unfold upd_reg. by rewrite (proj2 (Z.eqb_neq _ _)) by (intros ?%reg_index_inj; done). Qed.

(** Reads the parts of a machine that was updated. *)
Ltac mstate :=
  repeat first
    [ progress cbn [m_regs m_flags m_xmm m_mxcsr m_mem set_reg set_flags set_xmm set_mxcsr set_mem arith]
    | rewrite upd_reg_eq | rewrite upd_reg_ne by discriminate ].

(** [popfq] restores the flags that it may. *)
Lemma flags_restored old efl :
  Z.land (Z.lor (Z.ldiff old USER_FLAGS) (Z.land efl USER_FLAGS)) USER_FLAGS = Z.land efl USER_FLAGS.
Proof.
  apply Z.bits_inj'. intros i Hi. rewrite !Z.land_spec, Z.lor_spec, Z.ldiff_spec, Z.land_spec.
  destruct (Z.testbit USER_FLAGS i); cbn; by rewrite ?andb_false_r, ?andb_true_r, ?orb_false_r.
Qed.

Section exec.
Context {home : Z} `{!ArithFlags, !Prologue home, !Text, !TextLayout}.

(** Instructions that do not jump, from index [pc] on. *)
Fixpoint run_block (pc : nat) (ins : list instr) (m : machine) : outcome machine :=
  match ins with
  | [] => Ret m
  | i :: ins =>
      '(next, m) ← exec_instr pc i m;
      match next with Seq => run_block (S pc) ins m | _ => Undef end
  end.

Lemma run_block_app pc ins1 ins2 m :
  run_block pc (ins1 ++ ins2) m = (m ← run_block pc ins1 m; run_block (pc + length ins1) ins2 m).
Proof.
  revert pc m. induction ins1 as [|i ins1 IH]; intros pc m; cbn.
  - by rewrite Nat.add_0_r.
  - destruct (exec_instr pc i m) as [[[|?|?] m1]| |]; cbn; [|done..]. by rewrite IH, Nat.add_succ_r.
Qed.

(** [ins] is in the text at index [pc]. *)
Definition text_at (pc : nat) (ins : list instr) : Prop := take (length ins) (drop pc text) = ins.

Lemma exec_block ins : ∀ pc m m' fuel,
  text_at pc ins → run_block pc ins m = Ret m' → exec (length ins + fuel) pc m = exec fuel (pc + length ins) m'.
Proof.
  induction ins as [|i ins IH]; intros pc m m' fuel Hat Hrun; cbn [length run_block] in *.
  - injection Hrun as ->. by rewrite Nat.add_0_r.
  - unfold text_at in Hat. cbn [length] in Hat. destruct (drop pc text) as [|j js] eqn:Hd; [done|].
    cbn [take] in Hat. injection Hat as -> Hat. cbn [Nat.add exec].
    assert (text !! pc = Some i) as ->.
    { rewrite <- (Nat.add_0_r pc), <- lookup_drop, Hd. done. }
    destruct (exec_instr pc i m) as [[[|?|?] m1]| |]; ocbn; cbn [mbind outcome_bind obind] in Hrun; [|done..].
    rewrite (IH (S pc) m1 m'); [|unfold text_at; by rewrite <- Nat.add_1_r, <- drop_drop, Hd|done].
    f_equal. lia.
Qed.

(** The states of the SSE registers after [movaps] loads from a base. *)
Lemma run_xmm_loads xoff base x ins : ∀ pc m,
  (∀ i, i ∈ ins → rd128 (m_mem m) (u64 (m_regs m base + xoff i)) = Ret (x i)) →
  ∃ m', run_block pc ((λ i, MovapsMR (xoff i) base i) <$> ins) m = Ret m' ∧
    m_regs m' = m_regs m ∧ m_mem m' = m_mem m ∧ m_mxcsr m' = m_mxcsr m ∧ m_flags m' = m_flags m ∧
    ∀ i, m_xmm m' i = if bool_decide (i ∈ ins) then x i else m_xmm m i.
Proof.
  induction ins as [|i ins IH]; intros pc m Hx; cbn [fmap list_fmap run_block].
  - exists m. by split_and!.
  - cbn [exec_instr]. unfold ea. rewrite (Hx i) by by left. ocbn.
    destruct (IH (S pc) (set_xmm i (x i) m)) as (m' & Hrun & Hr & Hm & Hc & Hf & Hx'); [intros j Hj; apply Hx; by right|].
    exists m'. split_and!; [done..|]. intros j. rewrite Hx'. cbn. unfold upd_xmm.
    destruct (Nat.eqb_spec i j) as [->|Hne].
    + rewrite (bool_decide_true (j ∈ j :: ins)) by by left. by destruct (bool_decide _).
    + rewrite (bool_decide_ext (j ∈ i :: ins) (j ∈ ins)); [done|]. rewrite elem_of_cons. naive_solver.
Qed.

(** And of [movaps] stores, which only change the area of these registers. *)
Lemma run_xmm_stores xoff x0 n base ins : ∀ pc m,
  (∀ i, xoff i = x0 + 16 * Z.of_nat i) → 0 ≤ x0 → x0 + 256 ≤ 8 * n → x0 mod 16 = 0 →
  0 ≤ m_regs m base → m_regs m base + 8 * n ≤ 2 ^ 64 → m_regs m base mod 16 = 0 →
  mapped (m_mem m) (m_regs m base) n → NoDup ins → (∀ i, i ∈ ins → (i < 16)%nat) →
  ∃ m', run_block pc ((λ i, MovapsRM i (xoff i) base) <$> ins) m = Ret m' ∧
    m_regs m' = m_regs m ∧ m_mxcsr m' = m_mxcsr m ∧ m_flags m' = m_flags m ∧ m_xmm m' = m_xmm m ∧
    changed_in (m_regs m base) n (m_mem m) (m_mem m') ∧
    (∀ a, (∀ i, i ∈ ins → ¬ (m_regs m base + xoff i ≤ a < m_regs m base + xoff i + 16)) →
       m_mem m' !! a = m_mem m !! a) ∧
    ∀ i, i ∈ ins → rd128 (m_mem m') (m_regs m base + xoff i) = Ret (m_xmm m i).
Proof.
  induction ins as [|i ins IH]; intros pc m Hxo Hx00 Hx0n Hx016 Hb0 Hb1 Ha Hmap Hnd Hlt; cbn [fmap list_fmap run_block].
  - exists m. split_and!; try done. intros i Hi. by apply elem_of_nil in Hi.
  - set (b := m_regs m base) in *. set (a := b + xoff i).
    assert (i < 16)%nat as Hi by (apply Hlt; by left).
    assert (xoff i mod 16 = 0 ∧ 0 ≤ xoff i ∧ xoff i + 16 ≤ 8 * n) as (Hx1 & Hx2 & Hx3)
      by (rewrite Hxo; split_and!; aligned).
    assert (a mod 16 = 0) as Ha16 by (unfold a; aligned).
    assert (is_Some (m_mem m !! a)) as Hs1.
    { replace a with (b + 8 * (xoff i / 8)) by (unfold a; aligned). apply Hmap. aligned. }
    assert (is_Some (m_mem m !! (a + 8))) as Hs2.
    { replace (a + 8) with (b + 8 * (xoff i / 8 + 1)) by (unfold a; aligned). apply Hmap. aligned. }
    cbn [exec_instr]. unfold ea. fold b. rewrite u64_small by lia. fold a. rewrite wr128_ok by done. ocbn.
    set (mem1 := <[a + 8 := _]> _).
    assert (changed_in a 2 (m_mem m) mem1) as Hch1.
    { pose proof (changed_insert a (m_xmm m i).1 (m_mem m) Hs1) as Hc1.
      apply (changed_trans _ _ _ _ _ (changed_weaken _ _ a 2 _ _ Hc1 ltac:(lia) ltac:(lia))).
      apply (changed_weaken (a + 8) 1); [|lia|lia]. by apply changed_insert, Hc1. }
    apply NoDup_cons in Hnd as [Hni Hnd].
    destruct (IH (S pc) (set_mem mem1 m)) as (m' & Hrun & Hr & Hc & Hf & Hx & Hch & Hold & Hnew);
      [done..|by eapply mapped_changed|done|intros j Hj; apply Hlt; by right|].
    cbn in Hr, Hc, Hf, Hx, Hch, Hold, Hnew. fold b in Hch, Hold, Hnew.
    exists m'. split_and!; try done.
    + eapply changed_trans; [eapply changed_weaken; [exact Hch1|unfold a; lia|unfold a; lia]|exact Hch].
    + intros y Hy. rewrite Hold by (intros j Hj; apply Hy; by right). apply Hch1. specialize (Hy i ltac:(by left)).
      unfold a. lia.
    + intros j [->|Hj]%elem_of_cons; [|by apply Hnew].
      assert (∀ y, a ≤ y < a + 16 → m_mem m' !! y = mem1 !! y) as Hkeep.
      { intros y Hy. apply Hold. intros k Hk Hyk. assert (k ≠ i) by congruence. unfold a in *. rewrite !Hxo in *. lia. }
      fold a. rewrite (rd128_ok _ a (m_xmm m i).1 (m_xmm m i).2); [by destruct (m_xmm m i)|done|..].
      * rewrite Hkeep by lia. unfold mem1. rewrite lookup_insert_ne by lia. apply lookup_insert_eq.
      * rewrite Hkeep by lia. apply lookup_insert_eq.
Qed.

(** Loads of registers from a base that is not one of them. *)
Lemma run_reg_loads off base f rs : ∀ pc m,
  base ∉ rs → (∀ r, r ∈ rs → rd (m_mem m) (u64 (m_regs m base + off r)) = Ret (f r)) →
  ∃ m', run_block pc ((λ r, MovMR (off r) base r) <$> rs) m = Ret m' ∧
    m_mem m' = m_mem m ∧ m_mxcsr m' = m_mxcsr m ∧ m_flags m' = m_flags m ∧ m_xmm m' = m_xmm m ∧
    ∀ r, m_regs m' r = if bool_decide (r ∈ rs) then f r else m_regs m r.
Proof.
  induction rs as [|r rs IH]; intros pc m Hb Hf; cbn [fmap list_fmap run_block].
  - exists m. by split_and!.
  - apply not_elem_of_cons in Hb as [Hne Hb]. cbn [exec_instr]. unfold ea. rewrite (Hf r) by by left. ocbn.
    destruct (IH (S pc) (set_reg r (f r) m)) as (m' & Hrun & Hm & Hc & Hfl & Hx & Hr); [done| |].
    { intros r' Hr'. cbn. rewrite upd_reg_ne by done. apply Hf. by right. }
    exists m'. split_and!; [done..|]. intros r'. rewrite Hr. cbn. destruct (decide (r = r')) as [->|Hrr].
    + rewrite upd_reg_eq, (bool_decide_true (r' ∈ r' :: rs)) by by left. by destruct (bool_decide _).
    + rewrite upd_reg_ne by done. rewrite (bool_decide_ext (r' ∈ r :: rs) (r' ∈ rs)); [done|].
      rewrite elem_of_cons. naive_solver.
Qed.

(** One instruction of a block. *)
Lemma blk_seq pc i ins m m1 : exec_instr pc i m = Ret (Seq, m1) → run_block pc (i :: ins) m = run_block (S pc) ins m1.
Proof. intros Hi. cbn [run_block]. by rewrite Hi. Qed.

Lemma blk_load pc off base dst ins m v :
  rd (m_mem m) (ea m off base) = Ret v → run_block pc (MovMR off base dst :: ins) m = run_block (S pc) ins (set_reg dst v m).
Proof. intros Hv. cbn [run_block exec_instr]. by rewrite Hv. Qed.

Lemma blk_load32 pc off base dst ins m v :
  rd32 (m_mem m) (ea m off base) = Ret v → run_block pc (MovMR32 off base dst :: ins) m = run_block (S pc) ins (set_reg dst v m).
Proof. intros Hv. cbn [run_block exec_instr]. by rewrite Hv. Qed.

Lemma blk_store pc src off base ins m a :
  ea m off base = a → a mod 8 = 0 → is_Some (m_mem m !! a) →
  run_block pc (MovRM src off base :: ins) m = run_block (S pc) ins (set_mem (<[a := m_regs m src]> (m_mem m)) m).
Proof. intros Ha Hal Hs. cbn [run_block exec_instr]. by rewrite Ha, wr_ok. Qed.

Lemma blk_pop pc dst ins m v :
  rd (m_mem m) (m_regs m RSP) = Ret v →
  run_block pc (Pop dst :: ins) m = run_block (S pc) ins (set_reg dst v (set_reg RSP (u64 (m_regs m RSP + 8)) m)).
Proof. intros Hv. cbn [run_block exec_instr]. unfold pop. by rewrite Hv. Qed.

Lemma blk_popfq pc ins m v :
  rd (m_mem m) (m_regs m RSP) = Ret v →
  run_block pc (Popfq :: ins) m = run_block (S pc) ins
    (set_flags (Z.lor (Z.ldiff (m_flags m) USER_FLAGS) (Z.land v USER_FLAGS)) (set_reg RSP (u64 (m_regs m RSP + 8)) m)).
Proof. intros Hv. cbn [run_block exec_instr]. unfold pop. by rewrite Hv. Qed.

Section stores.
Context (off : reg → Z).
Hypothesis off_range : ∀ r, 0 ≤ off r ∧ off r mod 8 = 0.
Hypothesis off_inj : ∀ r r', off r = off r' → r = r'.

Lemma run_reg_stores n base c rs : ∀ pc m,
  (∀ r, off r + 8 ≤ 8 * n) → m_regs m base = c → 0 ≤ c → c + 8 * n ≤ 2 ^ 64 → c mod 8 = 0 → mapped (m_mem m) c n → NoDup rs →
  ∃ m', run_block pc ((λ r, MovRM r (off r) base) <$> rs) m = Ret m' ∧
    m_regs m' = m_regs m ∧ m_xmm m' = m_xmm m ∧ m_mxcsr m' = m_mxcsr m ∧ m_flags m' = m_flags m ∧
    changed_in c n (m_mem m) (m_mem m') ∧
    (∀ r, r ∈ rs → m_mem m' !! (c + off r) = Some (m_regs m r)) ∧
    ∀ a, (∀ r, r ∈ rs → a ≠ c + off r) → m_mem m' !! a = m_mem m !! a.
Proof.
  induction rs as [|r rs IH]; intros pc m off_le Hb Hc0 Hc Hc8 Hmap Hnd; cbn [fmap list_fmap].
  - exists m. split_and!; try done. intros r Hr. by apply elem_of_nil in Hr.
  - apply NoDup_cons in Hnd as [Hni Hnd]. pose proof (off_range r) as Hor. pose proof (off_le r) as Hon.
    assert (is_Some (m_mem m !! (c + off r))) as Hs.
    { replace (c + off r) with (c + 8 * (off r / 8)) by aligned. apply Hmap. aligned. }
    rewrite (blk_store _ _ _ _ _ _ (c + off r)); [|unfold ea; rewrite Hb; rewrite u64_small; lia|aligned|done].
    pose proof (changed_insert _ (m_regs m r) _ Hs) as Hch.
    assert (changed_in c n (m_mem m) (<[c + off r := m_regs m r]> (m_mem m))) as Hch1 by (eapply changed_weaken; [exact Hch|lia..]).
    destruct (IH (S pc) (set_mem (<[c + off r := m_regs m r]> (m_mem m)) m)) as (m' & Hrun & Hr & Hx & Hmx & Hf & Hch' & Hnew & Hold);
      [done..|by eapply mapped_changed|done|]. cbn [set_mem m_mem m_regs m_xmm m_mxcsr m_flags] in *.
    exists m'. split_and!; [done..|by eapply changed_trans| |].
    + intros r' [->|Hin]%elem_of_cons; [|by apply Hnew]. rewrite Hold; [apply lookup_insert_eq|].
      intros r'' Hr'' He. assert (r = r'') as -> by (apply off_inj; lia). done.
    + intros a Ha. rewrite Hold by (intros r' Hr'; apply Ha; by right). apply lookup_insert_ne.
      intros He. by apply (Ha r ltac:(by left)).
Qed.
End stores.


(** What is in memory after a thread has saved itself in the context at [c]: [m] is the
    thread when it entered. *)
(** The three words that the restoration leaves below the stack pointer. *)
Definition below_stack (s rip efl last : Z) (mem : memory) : memory :=
  <[s - 24 := last]> (<[s - 16 := efl]> (<[s - 8 := rip]> mem)).

(** What a thread has after a context was restored. *)
Record restored (regs : reg → Z) (efl mxcsr : Z) (xmm : nat → Z * Z) (m : machine) : Prop := Restored {
  rs_regs : ∀ r, m_regs m r = regs r;
  rs_flags : Z.land (m_flags m) USER_FLAGS = Z.land efl USER_FLAGS;
  rs_mxcsr : m_mxcsr m = mxcsr;
  rs_xmm : ∀ i, (i < 16)%nat → m_xmm m i = xmm i
}.

End exec.

(** The index where the run goes on in machine [m]. *)
Ltac at_index pc m := match goal with |- context [run_block ?n _ m] => change n with pc end.


Section registers.
Context (off : reg → Z).
Hypothesis off_range : ∀ r, 0 ≤ off r ∧ off r mod 8 = 0.
Hypothesis off_inj : ∀ r r', off r = off r' → r = r'.

Lemma read_regs_ok c mem regs rs :
  c mod 8 = 0 → (∀ r, mem !! (c + off r) = Some (regs r)) →
  ∃ f, read_regs off c rs mem = Ret f ∧ ∀ r, r ∈ rs → f r = regs r.
Proof.
  intros Hc Hr. induction rs as [|r rs (f & Hf & Heq)]; cbn [read_regs].
  - exists (λ _, 0). split; [done|]. intros r Hin. by apply elem_of_nil in Hin.
  - unfold reg_of. pose proof (off_range r). rewrite (rd_ok _ _ (regs r)) by (done || aligned). ocbn. rewrite Hf. ocbn.
    exists (upd_reg r (regs r) f). split; [done|]. intros r' Hr'. destruct (decide (r = r')) as [->|Hne]; [apply upd_reg_eq|].
    rewrite upd_reg_ne by done. apply Heq. apply elem_of_cons in Hr' as [->|]; done.
Qed.

Lemma write_regs_ok c f rs : ∀ mem,
  c mod 8 = 0 → (∀ r, is_Some (mem !! (c + off r))) → NoDup rs →
  ∃ mem', write_regs off c rs f mem = Ret mem' ∧ (∀ x, is_Some (mem !! x) → is_Some (mem' !! x)) ∧
    (∀ r, r ∈ rs → mem' !! (c + off r) = Some (f r)) ∧
    ∀ a, (∀ r, r ∈ rs → a ≠ c + off r) → mem' !! a = mem !! a.
Proof.
  induction rs as [|r rs IH]; intros mem Hc Hs Hnd; cbn [write_regs].
  - exists mem. split_and!; try done. intros r Hin. by apply elem_of_nil in Hin.
  - apply NoDup_cons in Hnd as [Hni Hnd]. pose proof (off_range r). rewrite wr_ok by (done || aligned). ocbn.
    pose proof (changed_insert _ (f r) _ (Hs r)) as [_ Hd].
    destruct (IH (<[c + off r := f r]> mem)) as (mem' & Hw & Hdom & Heq & Hsame); [done|intros r'; apply Hd, Hs|done|].
    exists mem'. split_and!; [done|by auto| |].
    + intros r' [->|Hin]%elem_of_cons; [|by apply Heq]. rewrite Hsame; [apply lookup_insert_eq|].
      intros r'' Hin Hx. assert (r = r'') as -> by (apply off_inj; lia). done.
    + intros a Ha. rewrite Hsame by (intros r' Hin; apply Ha; by right). apply lookup_insert_ne.
      intros Hx. by apply (Ha r ltac:(by left)).
Qed.

End registers.

(** ** A machine *)

Definition zf_flags (old result : Z) : Z :=
  if result =? 0 then Z.lor old 64 else Z.ldiff old 64.

#[export] Program Instance demo_flags : ArithFlags := {| arith_flags := zf_flags |}.
Next Obligation.
  intros old result. unfold zf_flags, ZF_BIT. change 64 with (2 ^ 6). destruct (Z.eqb_spec result 0).
  - rewrite Z.lor_spec, testbit_pow2 by lia. apply orb_true_r.
  - rewrite Z.ldiff_spec, testbit_pow2 by lia. apply andb_false_r.
Qed.

(** The compiler adds nothing before the body. *)
Program Definition demo_prologue home : Prologue home := {| enter := λ m, m |}.
Solve All Obligations with done.

(** A text at 0x400000, one byte for an instruction. *)
Program Definition demo_layout_of `{!Text} (short : (length text < 1000)%nat) : TextLayout := {|
  address i := 0x400000 + Z.of_nat i;
  position a := if (0x400000 <=? a) && (a <=? 0x400000 + Z.of_nat (length text)) then Some (Z.to_nat (a - 0x400000)) else None
|}.
Next Obligation. intros H short i Hi. lia. Qed.
Next Obligation.
  intros H short i Hi. cbv beta. rewrite (proj2 (Z.leb_le 0x400000 _)), (proj2 (Z.leb_le _ (0x400000 + Z.of_nat (length text)))) by lia.
  cbn [andb]. f_equal. lia.
Qed.

(** Words from an address on, each with its number. *)
Definition words (a : Z) (n : nat) : memory :=
  list_to_map ((λ i, (a + 8 * Z.of_nat i, 1000 + Z.of_nat i)) <$> seq 0 n).

Lemma words_lookup a n i : 0 ≤ i < Z.of_nat n → words a n !! (a + 8 * i) = Some (1000 + i).
Proof.
  intros Hi. unfold words. apply elem_of_list_to_map.
  - rewrite <- list_fmap_compose. apply NoDup_fmap; [|apply NoDup_seq]. intros x y. cbn. lia.
  - apply list_elem_of_fmap. exists (Z.to_nat i). rewrite Z2Nat.id by lia. split; [done|]. apply elem_of_seq. lia.
Qed.

Lemma words_outside a n b : ¬ (a ≤ b < a + 8 * Z.of_nat n) → words a n !! b = None.
Proof.
  intros Hb. apply not_elem_of_list_to_map. rewrite <- list_fmap_compose. intros (i & -> & Hi%elem_of_seq)%list_elem_of_fmap.
  cbn in Hb. lia.
Qed.

