(* ===== verification/Context.v ===== *)
(** * Register contexts (prs/pal/posix/context.c)

    What Pal.v records as calls, at the level of the processor of Cpu.v: the C functions
    that build a context write the words of memory, and the assembly that saves and restores
    contexts runs on the registers, the flags, the SSE state and the memory of a thread.

    The layouts of [ucontext_t] and [struct _libc_fpstate] are those of the C library for
    AMD64. *)

From S2P Require Import Prelude Cpu.

(** *** Layout of contexts *)

(** The indices in the array of registers after those of [reg_index]. *)
Definition REG_RIP : Z := 16.
Definition REG_EFL : Z := 17.

Definition greg (i : Z) : Z := 40 + 8 * i.
Definition off_fpregs : Z := 224.
Definition sizeof_ucontext : Z := 968.
Definition off_fpstate : Z := 976.
Definition sizeof_fpstate : Z := 512.
(** [sizeof(struct prs_pal_context)] *)
Definition sizeof_context : Z := 1488.
Definition off_mxcsr : Z := 24.
Definition PRS_CONTEXT_XMM (i : nat) : Z := 160 + 16 * Z.of_nat i.

(** *** The text *)

Definition asm_return : list instr :=
  [ Push RBP; MovRR RSP RBP;
    (* _prs_pal_context_return_trampoline *)
    MovI 0 RDI; MovRR RBP RSI; AddI 16 RSI; Call prs_pal_context_swap; Pop RBP; Retq ].

Definition asm_save : list instr :=
  [ Test RDI RDI; Jz prs_pal_context_swap_restore;
    MovRM RSP (greg (reg_index RSP)) RDI;
    LeaRip RAX;
    (* rip_ref *)
    AddDiff prs_pal_context_swap_return rip_ref RAX;
    MovRM RAX (greg REG_RIP) RDI;
    MovRM RBP (greg (reg_index RBP)) RDI; MovRM RBX (greg (reg_index RBX)) RDI;
    MovRM R12 (greg (reg_index R12)) RDI; MovRM R13 (greg (reg_index R13)) RDI;
    MovRM R14 (greg (reg_index R14)) RDI; MovRM R15 (greg (reg_index R15)) RDI;
    Pushfq; Pop RAX; MovRM32 RAX (greg REG_EFL) RDI;
    MovMR off_fpregs RDI RDI ] ++
  ((λ i, MovapsRM i (PRS_CONTEXT_XMM i) RDI) <$> seq 8 8).

(** The registers that are loaded from the context while [rsi] points to it. *)
Definition restored_regs : list reg := [RBP; RDI; RCX; RDX; R8; R9; R10; R11; R12; R13; R14; R15].

Definition asm_restore : list instr :=
  [ Test RSI RSI; Jz prs_pal_context_swap_return;
    MovMR off_fpregs RSI RAX; Ldmxcsr off_mxcsr RAX ] ++
  ((λ i, MovapsMR (PRS_CONTEXT_XMM i) RAX i) <$> seq 0 16) ++
  ((λ r, MovMR (greg (reg_index r)) RSI r) <$> restored_regs) ++
  [ MovMR (greg (reg_index RSP)) RSI RAX;
    MovMR (greg REG_RIP) RSI RBX; MovRM RBX (-8) RAX;
    Xor RBX RBX; MovMR32 (greg REG_EFL) RSI RBX; MovRM RBX (-16) RAX;
    MovMR (greg (reg_index RSI)) RSI RBX; MovRM RBX (-24) RAX;
    MovMR (greg (reg_index RAX)) RSI RAX; MovMR (greg (reg_index RBX)) RSI RBX;
    MovMR (greg (reg_index RSP)) RSI RSI; SubI 24 RSI; MovRR RSI RSP;
    Pop RSI; Popfq; Retq ].

Definition code : list instr := asm_return ++ asm_save ++ asm_restore.

(** The index in the text of the instruction after a label. *)
Definition label_pos (l : label) : nat :=
  match l with
  | _prs_pal_context_return => 0
  | _prs_pal_context_return_trampoline => 2
  | prs_pal_context_swap => length asm_return
  | rip_ref => length asm_return + 4
  | prs_pal_context_swap_restore => length asm_return + length asm_save
  | prs_pal_context_swap_return => length code
  end.

#[export] Instance posix_text : Text := {| text := code; label_index := label_pos |}.

(** ** The C functions *)

Definition PRS_CONTEXT_RED_ZONE_SIZE : Z := 128.

Definition off_reg (r : reg) : Z := greg (reg_index r).

Definition prs_pal_context_copy (dst src : Z) (mem : memory) : outcome memory :=
  mem ← memcpy dst src sizeof_ucontext mem;
  fpregs ← rd mem (src + off_fpregs);
  mem ← memcpy (dst + off_fpstate) fpregs sizeof_fpstate mem;
  wr mem (dst + off_fpregs) (dst + off_fpstate).

(** The registers of the first arguments. *)
Definition arg_regs : list reg := [RDI; RSI; RDX; RCX; R8; R9].

(** The loop over the arguments from number [i] on: the registers, the place on the stack
    and the memory after it. *)
Fixpoint fill_args (i : nat) (args : list Z) (new : reg → Z) (psp : Z) (mem : memory) :
    outcome ((reg → Z) * Z * memory) :=
  match args with
  | [] => Ret (new, psp, mem)
  | arg :: args =>
      match arg_regs !! i with
      | Some r => fill_args (S i) args (upd_reg r arg new) psp mem
      | None => mem ← wr mem psp arg; fill_args (S i) args new (psp + 8) mem
      end
  end.

(** The stack pointer of the interrupted code, moved below its red zone and below a copy of
    its context; whether the copy had to be aligned. *)
Definition context_room (rip sp : Z) : Z * bool :=
  if truthy rip then
    let sp := u64 (sp - PRS_CONTEXT_RED_ZONE_SIZE) in
    let sp := u64 (sp - sizeof_context) in
    let context_align := truthy (Z.land sp 15) in
    (if context_align then u64 (sp - 8) else sp, context_align)
  else (sp, false).

(** The copy of the context at [psp]. *)
Definition save_context (psp context : Z) (mem : memory) : outcome memory :=
  mem ← memcpy psp context sizeof_ucontext mem;
  mem ← wr mem (psp + off_fpregs) (psp + off_fpstate);
  fpregs ← rd mem (context + off_fpregs);
  if truthy fpregs then memcpy (psp + off_fpstate) fpregs sizeof_fpstate mem else Ret mem.

Section context.
Context `{!TextLayout}.

(** The data on the stack from [psp] on: the registers of the arguments, and the frame
    pointer of the call. *)
Definition push_call (context psp : Z) (frame_align : bool) (args : list Z) (mem : memory) :
    outcome ((reg → Z) * Z * memory) :=
  rip ← rd mem (context + greg REG_RIP);
  mem ← wr mem psp (if truthy rip then address (label_pos _prs_pal_context_return_trampoline) else 0);
  let psp := psp + 8 in
  new ← read_regs off_reg context arg_regs mem;
  '(new, psp, mem) ← fill_args 0 args new psp mem;
  let psp := if frame_align then psp + 8 else psp in
  let new_rbp := psp in
  rbp ← reg_of off_reg context mem RBP;
  mem ← wr mem psp rbp;
  let psp := psp + 8 in
  rip ← rd mem (context + greg REG_RIP);
  mem ← wr mem psp rip;
  let psp := psp + 8 in
  mem ← (if truthy rip then save_context psp context mem else Ret mem);
  Ret (new, new_rbp, mem).

Definition prs_pal_context_add_internal (context function : Z) (args : list Z) (mem : memory) : outcome memory :=
  let argc := Z.of_nat (length args) in
  let stack_argc := if 6 <? argc then argc - 6 else 0 in
  sp ← reg_of off_reg context mem RSP;
  rip ← rd mem (context + greg REG_RIP);
  let (sp, context_align) := context_room rip sp in
  let (sp, frame_align) := call_frame sp stack_argc in
  '(new, new_rbp, mem) ← push_call context sp frame_align args mem;
  mem ← wr mem (context + greg REG_RIP) function;
  mem ← wr mem (context + off_reg RBP) new_rbp;
  mem ← wr mem (context + off_reg RSP) sp;
  write_regs off_reg context arg_regs new mem.

Definition prs_pal_context_make (context stack function : Z) (args : list Z) (mem : memory) : outcome memory :=
  fpregs ← rd mem (context + off_fpregs);
  mem ← wr32 mem (fpregs + off_mxcsr) 0x1f80;
  mem ← wr mem (context + greg REG_RIP) 0;
  mem ← wr mem (context + off_reg RSP) stack;
  mem ← wr mem (context + off_reg RBP) 0;
  prs_pal_context_add_internal context function args mem.

Definition prs_pal_context_add (context function : Z) (args : list Z) (mem : memory) : outcome memory :=
  prs_pal_context_add_internal context function args mem.

Definition prs_pal_context_is_using_stack (context stack stack_size : Z) (mem : memory) : outcome bool :=
  sp ← reg_of off_reg context mem RSP;
  Ret ((stack <=? sp) && (sp <? u64 (stack + stack_size))).

Definition prs_pal_context_get_ip (context : Z) (mem : memory) : outcome Z := rd mem (context + greg REG_RIP).
End context.

(** ** Runs of the assembly *)

Section exec.
Context `{!ArithFlags, !Prologue 0, !TextLayout}.

(** *** Restoring *)

(** Memory holds a context: the context at [c], its SSE state at [f], and what they say. *)
Record ctx_holds (mem : memory) (c f : Z) (regs : reg → Z) (rip efl mxcsr : Z) (xmm : nat → Z * Z) : Prop := CtxHolds {
  ch_range : 0 < c ∧ c + sizeof_ucontext ≤ 2 ^ 64 ∧ c mod 8 = 0;
  ch_fp_range : 0 ≤ f ∧ f + sizeof_fpstate ≤ 2 ^ 64 ∧ f mod 16 = 0;
  ch_regs : ∀ r, mem !! (c + off_reg r) = Some (regs r);
  ch_rip : mem !! (c + greg REG_RIP) = Some rip;
  ch_efl : ∃ w, mem !! (c + greg REG_EFL) = Some w ∧ w mod 2 ^ 32 = efl;
  ch_fpregs : mem !! (c + off_fpregs) = Some f;
  ch_mxcsr : ∃ w, mem !! (f + off_mxcsr) = Some w ∧ w mod 2 ^ 32 = mxcsr;
  ch_xmm : ∀ i, (i < 16)%nat → rd128 mem (f + PRS_CONTEXT_XMM i) = Ret (xmm i)
}.

Lemma off_reg_range r : 40 ≤ off_reg r ≤ 160 ∧ off_reg r mod 8 = 0.
Proof. by destruct r. Qed.

Definition restore_tail : list instr :=
  [ MovMR (greg (reg_index RSP)) RSI RAX;
    MovMR (greg REG_RIP) RSI RBX; MovRM RBX (-8) RAX;
    Xor RBX RBX; MovMR32 (greg REG_EFL) RSI RBX; MovRM RBX (-16) RAX;
    MovMR (greg (reg_index RSI)) RSI RBX; MovRM RBX (-24) RAX;
    MovMR (greg (reg_index RAX)) RSI RAX; MovMR (greg (reg_index RBX)) RSI RBX;
    MovMR (greg (reg_index RSP)) RSI RSI; SubI 24 RSI; MovRR RSI RSP;
    Pop RSI; Popfq ].

Lemma run_restore_tail pc mem0 c f regs rip efl mxcsr xmm m :
  ctx_holds mem0 c f regs rip efl mxcsr xmm → m_mem m = mem0 → m_regs m RSI = c →
  regs RSP mod 8 = 0 → 24 ≤ regs RSP < 2 ^ 64 → mapped mem0 (regs RSP - 24) 3 →
  (c + sizeof_ucontext ≤ regs RSP - 24 ∨ regs RSP ≤ c) →
  ∃ m', run_block pc restore_tail m = Ret m' ∧
    m_mem m' = below_stack (regs RSP) rip efl (regs RSI) mem0 ∧
    m_xmm m' = m_xmm m ∧ m_mxcsr m' = m_mxcsr m ∧ Z.land (m_flags m') USER_FLAGS = Z.land efl USER_FLAGS ∧
    m_regs m' RSP = regs RSP - 8 ∧
    ∀ r, r ≠ RSP → m_regs m' r = if bool_decide (r ∈ [RAX; RBX; RSI]) then regs r else m_regs m r.
Proof.
  intros [Hrange _ Hregs Hrip (w & Hefl & Hw) _ _ _] Hmem Hrsi Hs8 Hs Hmap Hdis. set (s := regs RSP) in *.
  unfold sizeof_ucontext in *.
  assert (∀ mem a w, c ≤ a → a + 8 ≤ c + 968 → a mod 8 = 0 → mem0 !! a = Some w →
    (∀ x, ¬ (s - 24 ≤ x < s) → mem !! x = mem0 !! x) → rd mem (u64 a) = Ret w) as Hctx.
  { intros mem a v Ha1 Ha2 Ha8 Hv Hx. rewrite u64_small by lia. apply rd_ok; [done|]. by rewrite Hx by lia. }
  assert (∀ mem r, (∀ x, ¬ (s - 24 ≤ x < s) → mem !! x = mem0 !! x) → rd mem (u64 (c + greg (reg_index r))) = Ret (regs r)) as Hload.
  { intros mem r Hx. pose proof (off_reg_range r) as Hr. unfold off_reg in Hr. eapply Hctx; [lia|lia|aligned|apply Hregs|done]. }
  pose proof (Hmap 0 ltac:(lia)) as Hm24. pose proof (Hmap 1 ltac:(lia)) as Hm16. pose proof (Hmap 2 ltac:(lia)) as Hm8.
  replace (s - 24 + 8 * 0) with (s - 24) in Hm24 by lia. replace (s - 24 + 8 * 1) with (s - 16) in Hm16 by lia.
  replace (s - 24 + 8 * 2) with (s - 8) in Hm8 by lia.
  assert (u64 (s + -8) = s - 8) as E8 by (rewrite u64_small; lia).
  assert (u64 (s + -16) = s - 16) as E16 by (rewrite u64_small; lia).
  assert (u64 (s + -24) = s - 24) as E24 by (rewrite u64_small; lia).
  unfold restore_tail. subst mem0. eexists. split.
  { rewrite (blk_load _ _ _ _ _ _ s) by (unfold ea; rewrite Hrsi; by apply Hload).
    rewrite (blk_load _ _ _ _ _ _ rip) by (unfold ea; mstate; rewrite Hrsi; eapply Hctx; [..|exact Hrip|done]; unfold greg, REG_RIP; [lia|lia|aligned]).
    rewrite (blk_store _ _ _ _ _ _ (s - 8)); [|unfold ea; mstate; done|aligned|done]. mstate.
    rewrite (blk_seq _ (Xor RBX RBX) _ _ _ eq_refl). mstate. rewrite Z.lxor_nilpotent.
    rewrite (blk_load32 _ _ _ _ _ _ efl).
    2:{ unfold ea. mstate. rewrite Hrsi, u64_small by (unfold greg, REG_EFL; lia).
        rewrite (rd32_ok _ _ w); [by rewrite Hw|unfold greg, REG_EFL; aligned|].
        rewrite lookup_insert_ne; [done|unfold greg, REG_EFL; lia]. }
    rewrite (blk_store _ _ _ _ _ _ (s - 16)); [|unfold ea; mstate; done|aligned|mstate; by rewrite lookup_insert_ne by lia]. mstate.
    rewrite (blk_load _ _ _ _ _ _ (regs RSI)).
    2:{ unfold ea. mstate. rewrite Hrsi. apply Hload. intros x Hx. by rewrite !lookup_insert_ne by lia. }
    rewrite (blk_store _ _ _ _ _ _ (s - 24)); [|unfold ea; mstate; done|aligned|mstate; by rewrite !lookup_insert_ne by lia]. mstate.
    assert (∀ x, ¬ (s - 24 ≤ x < s) → below_stack s rip efl (regs RSI) (m_mem m) !! x = m_mem m !! x) as Hb.
    { intros x Hx. unfold below_stack. by rewrite !lookup_insert_ne by lia. }
    fold (below_stack s rip efl (regs RSI) (m_mem m)).
    rewrite (blk_load _ _ _ _ _ _ (regs RAX)) by (unfold ea; mstate; rewrite Hrsi; by apply Hload). mstate.
    rewrite (blk_load _ _ _ _ _ _ (regs RBX)) by (unfold ea; mstate; rewrite Hrsi; by apply Hload). mstate.
    rewrite (blk_load _ _ _ _ _ _ s) by (unfold ea; mstate; rewrite Hrsi; by apply Hload). mstate.
    rewrite (blk_seq _ (SubI 24 RSI) _ _ _ eq_refl). mstate. rewrite (u64_small (s - 24)) by lia.
    rewrite (blk_seq _ (MovRR RSI RSP) _ _ _ eq_refl). mstate.
    rewrite (blk_pop _ _ _ _ (regs RSI)) by (mstate; apply rd_ok; [aligned|apply lookup_insert_eq]). mstate.
    replace (u64 (s - 24 + 8)) with (s - 16) by (rewrite u64_small; lia).
    rewrite (blk_popfq _ _ _ efl).
    2:{ mstate. apply rd_ok; [aligned|]. unfold below_stack. rewrite lookup_insert_ne by lia. apply lookup_insert_eq. }
    mstate. replace (u64 (s - 16 + 8)) with (s - 8) by (rewrite u64_small; lia).
    reflexivity. }
  mstate. split_and!; [done..| | |].
  - apply flags_restored.
  - done.
  - intros r Hr. destruct r; mstate; try done. all: try by rewrite bool_decide_true by set_solver. all: try by rewrite bool_decide_false by set_solver.
Qed.

(** What a thread has after a context was restored. *)
Lemma run_restore_head pc mem0 c f regs rip efl mxcsr xmm m :
  ctx_holds mem0 c f regs rip efl mxcsr xmm → m_mem m = mem0 → m_regs m RSI = c →
  ∃ m', run_block pc [Test RSI RSI; Jz prs_pal_context_swap_return; MovMR off_fpregs RSI RAX; Ldmxcsr off_mxcsr RAX] m = Ret m' ∧
    m_mem m' = mem0 ∧ m_mxcsr m' = mxcsr ∧ m_regs m' RAX = f ∧ ∀ r, r ≠ RAX → m_regs m' r = m_regs m r.
Proof.
  intros [Hrange Hf _ _ _ Hfp (w & Hw & Hm) _] Hmem Hrsi. subst mem0. unfold sizeof_ucontext, sizeof_fpstate in *.
  eexists. split.
  { rewrite (blk_seq _ (Test RSI RSI) _ _ _ eq_refl). rewrite Hrsi, Z.land_diag.
    rewrite (blk_seq _ (Jz _) _ _ (arith c m)).
    2:{ cbn [exec_instr]. mstate. rewrite arith_flags_zf. by rewrite (proj2 (Z.eqb_neq c 0)) by lia. }
    rewrite (blk_load _ _ _ _ _ _ f).
    2:{ unfold ea. mstate. rewrite Hrsi, u64_small by (unfold off_fpregs; lia). apply rd_ok; [unfold off_fpregs; aligned|done]. }
    rewrite (blk_seq _ (Ldmxcsr _ _) _ _ (set_mxcsr mxcsr (set_reg RAX f (arith c m)))); [reflexivity|].
    cbn [exec_instr]. unfold ea. mstate. rewrite u64_small by (unfold off_mxcsr; lia).
    rewrite (rd32_ok _ _ w) by (done || unfold off_mxcsr; aligned). by rewrite Hm. }
  mstate. split_and!; [done..|]. intros r Hr. rewrite upd_reg_ne by done. done.
Qed.

Lemma exec_restore c f regs rip efl mxcsr xmm m fuel :
  ctx_holds (m_mem m) c f regs rip efl mxcsr xmm → m_regs m RSI = c →
  regs RSP mod 8 = 0 → 24 ≤ regs RSP < 2 ^ 64 → mapped (m_mem m) (regs RSP - 24) 3 →
  (c + sizeof_ucontext ≤ regs RSP - 24 ∨ regs RSP ≤ c) →
  ∃ m', exec (length asm_restore + fuel) (label_pos prs_pal_context_swap_restore) m = resume fuel rip m' ∧
    restored regs efl mxcsr xmm m' ∧ m_mem m' = below_stack (regs RSP) rip efl (regs RSI) (m_mem m).
Proof.
  intros Hc Hrsi Hs8 Hs Hmap Hdis. set (pc := label_pos prs_pal_context_swap_restore).
  destruct (run_restore_head pc _ c f regs rip efl mxcsr xmm m Hc eq_refl Hrsi) as (m1 & Hrun1 & Hm1 & Hx1 & Hax1 & Hr1).
  pose proof (ch_fp_range _ _ _ _ _ _ _ _ Hc) as Hf. pose proof (ch_range _ _ _ _ _ _ _ _ Hc) as Hcr.
  unfold sizeof_fpstate, sizeof_ucontext in *.
  destruct (run_xmm_loads PRS_CONTEXT_XMM RAX xmm (seq 0 16) (pc + 4) m1) as (m2 & Hrun2 & Hr2 & Hm2 & Hx2 & _ & Hxmm).
  { intros i Hi%elem_of_seq. rewrite Hax1, Hm1, u64_small by (unfold PRS_CONTEXT_XMM; lia). apply (ch_xmm _ _ _ _ _ _ _ _ Hc). lia. }
  destruct (run_reg_loads off_reg RSI regs restored_regs (pc + 4 + 16) m2) as (m3 & Hrun3 & Hm3 & Hx3 & _ & Hxm3 & Hr3).
  { unfold restored_regs. set_solver. }
  { intros r _. rewrite Hr2, Hr1, Hrsi, Hm2, Hm1 by done. pose proof (off_reg_range r) as Hr.
    rewrite u64_small by lia. apply rd_ok; [aligned|apply (ch_regs _ _ _ _ _ _ _ _ Hc)]. }
  assert (m_mem m3 = m_mem m) as Em3 by congruence.
  destruct (run_restore_tail (pc + 4 + 16 + 12) (m_mem m) c f regs rip efl mxcsr xmm m3 Hc Em3) as
    (m4 & Hrun4 & Hm4 & Hx4 & Hxc4 & Hfl4 & Hsp4 & Hr4); [|done..|].
  { rewrite Hr3, bool_decide_false by (unfold restored_regs; set_solver). by rewrite Hr2, Hr1. }
  assert (run_block pc (take 47 asm_restore) m = Ret m4) as Hrun.
  { change (take 47 asm_restore) with ([Test RSI RSI; Jz prs_pal_context_swap_return; MovMR off_fpregs RSI RAX; Ldmxcsr off_mxcsr RAX] ++
      ((λ i, MovapsMR (PRS_CONTEXT_XMM i) RAX i) <$> seq 0 16) ++ ((λ r, MovMR (off_reg r) RSI r) <$> restored_regs) ++ restore_tail).
    rewrite run_block_app, Hrun1. ocbn. cbn [length]. rewrite run_block_app, Hrun2. ocbn.
    rewrite length_fmap, length_seq, run_block_app, Hrun3. ocbn. by rewrite length_fmap. }
  pose proof (Hmap 2 ltac:(lia)) as Hm8. replace (regs RSP - 24 + 8 * 2) with (regs RSP - 8) in Hm8 by lia.
  exists (set_reg RSP (regs RSP) m4). split.
  - change (length asm_restore + fuel)%nat with (length (take 47 asm_restore) + S fuel)%nat.
    rewrite (exec_block _ pc m m4 (S fuel) eq_refl Hrun). cbn [exec].
    change (text !! (pc + length (take 47 asm_restore))%nat) with (Some Retq). cbn [exec_instr]. unfold pop.
    rewrite Hsp4, Hm4, (rd_ok _ _ rip); [|aligned|]; ocbn.
    + replace (u64 (regs RSP - 8 + 8)) with (regs RSP) by (rewrite u64_small; lia). done.
    + unfold below_stack. rewrite !lookup_insert_ne by lia. apply lookup_insert_eq.
  - split; [split|exact Hm4]; mstate; [|done|congruence|].
    + intros r. destruct (decide (r = RSP)) as [->|Hne]; [apply upd_reg_eq|]. rewrite upd_reg_ne, Hr4, Hr3 by done.
      destruct r; try done; (rewrite bool_decide_true by (unfold restored_regs; set_solver)) || rewrite bool_decide_false by set_solver; try done.
      all: by rewrite bool_decide_true by (unfold restored_regs; set_solver).
    + intros i Hi. rewrite Hx4, Hxm3, Hxmm. by rewrite bool_decide_true by (apply elem_of_seq; lia).
Qed.

(** ** Building contexts *)

(** A context is held by its own words and those of its SSE state. *)
Lemma ctx_holds_same mem mem' c f regs rip efl mxcsr xmm :
  ctx_holds mem c f regs rip efl mxcsr xmm →
  (∀ a, c ≤ a < c + sizeof_ucontext ∨ f ≤ a < f + sizeof_fpstate → mem' !! a = mem !! a) →
  ctx_holds mem' c f regs rip efl mxcsr xmm.
Proof.
  intros [Hc Hf Hr Hrip (w & Hw & Hefl) Hfp (x & Hx & Hm) Hxmm] Hsame. unfold sizeof_ucontext, sizeof_fpstate in *.
  split; [done|done|..].
  - intros r. pose proof (off_reg_range r). rewrite Hsame by lia. apply Hr.
  - rewrite Hsame by (unfold greg, REG_RIP; lia). done.
  - exists w. rewrite Hsame by (unfold greg, REG_EFL; lia). done.
  - rewrite Hsame by (unfold off_fpregs; lia). done.
  - exists x. rewrite Hsame by (unfold off_mxcsr; lia). done.
  - intros i Hi. rewrite <- (Hxmm i Hi). unfold rd128, rd.
    rewrite !Hsame by (unfold PRS_CONTEXT_XMM; lia). done.
Qed.

Lemma save_context_ok mem c f psp regs rip efl mxcsr xmm :
  ctx_holds mem c f regs rip efl mxcsr xmm → f ≠ 0 → 0 < psp → psp + sizeof_context ≤ 2 ^ 64 → psp mod 16 = 0 →
  mapped mem psp 186 → mapped mem c 121 → mapped mem f 64 →
  (c + sizeof_ucontext ≤ psp ∨ psp + sizeof_context ≤ c) → (f + sizeof_fpstate ≤ psp ∨ psp + sizeof_context ≤ f) →
  ∃ mem', save_context psp c mem = Ret mem' ∧ changed_in psp 186 mem mem' ∧
    ctx_holds mem' psp (psp + off_fpstate) regs rip efl mxcsr xmm.
Proof.
  intros Hc Hf0 Hp0 Hp Hp16 Hmp Hmc Hmf Hdc Hdf.
  pose proof Hc as [Hcr Hfr Hr Hrip (w & Hw & Hefl) Hfp (x & Hx & Hm) Hxmm].
  unfold sizeof_context, sizeof_ucontext, sizeof_fpstate, off_fpstate in *.
  destruct (memcpy_ok psp c 121 mem) as (mem1 & Hcp1 & Hch1 & Heq1); [lia|aligned|lia|intros i Hi; apply Hmp; lia|done|lia|].
  change (8 * 121) with 968 in Hcp1.
  set (mem2 := <[psp + off_fpregs := psp + 976]> mem1).
  assert (is_Some (mem1 !! (psp + off_fpregs))) as Hs1.
  { apply Hch1. replace (psp + off_fpregs) with (psp + 8 * 28) by (unfold off_fpregs; lia). apply Hmp. lia. }
  pose proof (changed_insert _ (psp + 976) _ Hs1) as Hch2. fold mem2 in Hch2.
  assert (changed_in psp 121 mem mem2) as Hch12.
  { eapply changed_trans; [exact Hch1|]. eapply changed_weaken; [exact Hch2|unfold off_fpregs; lia..]. }
  destruct (memcpy_ok (psp + 976) f 64 mem2) as (mem3 & Hcp3 & Hch3 & Heq3); [lia|aligned|aligned| |by eapply mapped_changed|lia|].
  { eapply mapped_changed; [exact Hch12|]. intros i Hi. replace (psp + 976 + 8 * i) with (psp + 8 * (122 + i)) by lia. apply Hmp. lia. }
  change (8 * 64) with 512 in Hcp3.
  assert (∀ i, 0 ≤ i < 121 → i ≠ 28 → mem3 !! (psp + 8 * i) = mem !! (c + 8 * i)) as Hword.
  { intros i Hi Hne. rewrite (proj1 Hch3) by lia. unfold mem2. rewrite lookup_insert_ne by (unfold off_fpregs; lia). by apply Heq1. }
  assert (∀ i, 0 ≤ i < 64 → mem3 !! (psp + 976 + 8 * i) = mem !! (f + 8 * i)) as Hfword.
  { intros i Hi. rewrite Heq3 by lia. apply (proj1 Hch12). lia. }
  exists mem3. split_and!.
  - unfold save_context, sizeof_ucontext, sizeof_fpstate, off_fpstate. rewrite Hcp1. ocbn. rewrite wr_ok by (done || unfold off_fpregs; aligned). ocbn. fold mem2.
    rewrite (rd_ok _ _ f); [|unfold off_fpregs; aligned|]; ocbn.
    + rewrite (proj2 (truthy_true f)) by done. exact Hcp3.
    + rewrite (proj1 Hch12) by (unfold off_fpregs; lia). done.
  - eapply changed_trans; (eapply changed_weaken; [eassumption|lia..]).
  - split; unfold sizeof_ucontext, sizeof_fpstate.
    + split_and!; [lia|lia|aligned].
    + split_and!; [lia|lia|aligned].
    + intros r. pose proof (off_reg_range r) as Hor. rewrite <- (Hr r).
      assert (off_reg r = 8 * (off_reg r / 8)) as -> by aligned. apply Hword; [aligned|].
      destruct r; done.
    + rewrite <- Hrip. apply (Hword 21); lia.
    + exists w. split; [|done]. rewrite <- Hw. apply (Hword 22); lia.
    + rewrite (proj1 Hch3) by (unfold off_fpregs; lia). apply lookup_insert_eq.
    + exists x. split; [|done]. rewrite <- Hx. apply (Hfword 3); lia.
    + intros i Hi. rewrite <- (Hxmm i Hi). unfold rd128, rd, PRS_CONTEXT_XMM.
      replace (psp + 976 + (160 + 16 * Z.of_nat i)) with (psp + 976 + 8 * (20 + 2 * Z.of_nat i)) by lia.
      replace (psp + 976 + 8 * (20 + 2 * Z.of_nat i) + 8) with (psp + 976 + 8 * (21 + 2 * Z.of_nat i)) by lia.
      replace (f + (160 + 16 * Z.of_nat i)) with (f + 8 * (20 + 2 * Z.of_nat i)) by lia.
      replace (f + 8 * (20 + 2 * Z.of_nat i) + 8) with (f + 8 * (21 + 2 * Z.of_nat i)) by lia.
      rewrite !Hfword by lia.
      replace ((psp + 976 + 8 * (20 + 2 * Z.of_nat i)) mod 16) with 0 by aligned.
      replace ((psp + 976 + 8 * (20 + 2 * Z.of_nat i)) mod 8) with 0 by aligned.
      replace ((psp + 976 + 8 * (21 + 2 * Z.of_nat i)) mod 8) with 0 by aligned.
      replace ((f + 8 * (20 + 2 * Z.of_nat i)) mod 16) with 0 by aligned.
      replace ((f + 8 * (20 + 2 * Z.of_nat i)) mod 8) with 0 by aligned.
      replace ((f + 8 * (21 + 2 * Z.of_nat i)) mod 8) with 0 by aligned. done.
Qed.

Lemma off_reg_pos r : 0 ≤ off_reg r ∧ off_reg r mod 8 = 0.
Proof. pose proof (off_reg_range r). lia. Qed.

Lemma context_xmm_at i : PRS_CONTEXT_XMM i = 160 + 16 * Z.of_nat i.
Proof. done. Qed.

Lemma off_reg_fits r : off_reg r + 8 ≤ 8 * 121.
Proof. pose proof (off_reg_range r). lia. Qed.

Lemma off_reg_inj r r' : off_reg r = off_reg r' → r = r'.
Proof. intros He. apply reg_index_inj. unfold off_reg, greg in He. lia. Qed.

Lemma fill_args_ok args : ∀ i new psp mem,
  psp mod 8 = 0 → mapped mem psp (Z.of_nat (length args - (6 - i))) →
  ∃ new' mem', fill_args i args new psp mem = Ret (new', psp + 8 * Z.of_nat (length args - (6 - i)), mem') ∧
    changed_in psp (Z.of_nat (length args - (6 - i))) mem mem' ∧
    (∀ j v, args !! j = Some v →
       match arg_regs !! (i + j)%nat with
       | Some r => new' r = v
       | None => mem' !! (psp + 8 * (Z.of_nat (i + j) - Z.of_nat (Nat.max 6 i))) = Some v
       end) ∧
    ∀ r, (∀ j, (j < length args)%nat → arg_regs !! (i + j)%nat ≠ Some r) → new' r = new r.
Proof.
  induction args as [|arg args IH]; intros i new psp mem Hp Hm; cbn [fill_args length] in *.
  - exists new, mem. rewrite Z.add_0_r. by split_and!.
  - destruct (arg_regs !! i) as [r|] eqn:Hi.
    + assert (i < 6)%nat as Hi6 by (apply (lookup_lt_Some arg_regs i r Hi)).
      destruct (IH (S i) (upd_reg r arg new) psp mem Hp) as (new' & mem' & Hf & Hch & Hargs & Hnew).
      { intros k Hk. apply Hm. lia. }
      replace (S (length args) - (6 - i))%nat with (length args - (6 - S i))%nat by lia.
      exists new', mem'. split_and!; [done|done| |].
      * intros [|j] v Hv; cbn in Hv.
        -- rewrite Nat.add_0_r, Hi. injection Hv as ->. rewrite Hnew; [apply upd_reg_eq|]. intros j Hj Hx.
           enough (i = S i + j)%nat by lia. apply (NoDup_lookup arg_regs _ _ r); [|done|done]. unfold arg_regs.
           repeat constructor; set_solver.
        -- specialize (Hargs j v Hv). rewrite <- plus_n_Sm. change (S i + j)%nat with (S (i + j)) in Hargs.
           replace (Nat.max 6 i) with (Nat.max 6 (S i)) by lia. done.
      * intros r' Hr'. rewrite Hnew.
        -- apply upd_reg_ne. intros ->. apply (Hr' 0%nat); [lia|]. by rewrite Nat.add_0_r.
        -- intros j Hj. specialize (Hr' (S j)). rewrite <- plus_n_Sm in Hr'. apply Hr'. lia.
    + assert (6 ≤ i)%nat as Hi6 by (apply lookup_ge_None in Hi; done).
      replace (S (length args) - (6 - i))%nat with (S (length args)) in * by lia.
      assert (is_Some (mem !! psp)) as Hs. { specialize (Hm 0). rewrite Z.add_0_r in Hm. apply Hm. lia. }
      rewrite wr_ok by done. ocbn. pose proof (changed_insert psp arg mem Hs) as Hch0.
      destruct (IH (S i) new (psp + 8) (<[psp := arg]> mem)) as (new' & mem' & Hf & Hch & Hargs & Hnew); [aligned| |].
      { eapply mapped_changed; [exact Hch0|]. intros k Hk. replace (psp + 8 + 8 * k) with (psp + 8 * (k + 1)) by lia. apply Hm. lia. }
      replace (length args - (6 - S i))%nat with (length args) in * by lia.
      exists new', mem'. split_and!.
      * rewrite Hf. do 3 f_equal. lia.
      * eapply changed_trans; (eapply changed_weaken; [eassumption|lia..]).
      * intros [|j] v Hv; cbn in Hv.
        -- rewrite Nat.add_0_r, Hi. injection Hv as ->. replace (psp + 8 * _) with psp by lia.
           rewrite (proj1 Hch) by lia. apply lookup_insert_eq.
        -- specialize (Hargs j v Hv). rewrite <- plus_n_Sm. change (S i + j)%nat with (S (i + j)) in Hargs.
           destruct (arg_regs !! S (i + j)) eqn:Hij; [done|]. rewrite <- Hargs. f_equal. lia.
      * intros r' Hr'. apply Hnew. intros j Hj. specialize (Hr' (S j)). rewrite <- plus_n_Sm in Hr'. apply Hr'. lia.
Qed.

Lemma context_room_ok rip s :
  rip ≠ 0 → s mod 8 = 0 → 1624 ≤ s < 2 ^ 64 →
  ∃ t al, context_room rip s = (t, al) ∧ t mod 16 = 0 ∧ t = s - 1616 - (if al : bool then 8 else 0).
Proof.
  intros Hrip Hs8 Hs. unfold context_room, PRS_CONTEXT_RED_ZONE_SIZE, sizeof_context.
  rewrite (proj2 (truthy_true rip)) by done. rewrite (u64_small (s - 128)), (u64_small (s - 128 - 1488)), land15 by lia.
  exists (if truthy ((s - 128 - 1488) mod 16) then s - 1616 - 8 else s - 1616), (truthy ((s - 128 - 1488) mod 16)).
  unfold truthy. destruct (Z.eqb_spec ((s - 128 - 1488) mod 16) 0); cbn [negb].
  - split_and!; [f_equal; lia|aligned|lia].
  - split_and!; [|aligned|lia]. rewrite u64_small by lia. f_equal. lia.
Qed.

(** The state of the interrupted thread after a call of [function] was put on top of it:
    [s1] is its stack pointer, [b] its frame pointer. *)
Record call_pushed (c f function s1 b : Z) (args : list Z) (regs : reg → Z) (rip efl mxcsr : Z)
    (xmm : nat → Z * Z) (mem mem' : memory) : Prop := CallPushed {
  cp_aligned : s1 mod 16 = 8;
  cp_below : s1 + 8 + 8 * Z.of_nat (length args - 6) ≤ b ∧ b + 16 + sizeof_context + PRS_CONTEXT_RED_ZONE_SIZE ≤ regs RSP;
  cp_above : regs RSP - 1672 - 8 * Z.of_nat (length args - 6) ≤ s1;
  cp_frame : b mod 16 = 0;
  cp_call : ∃ regs', ctx_holds mem' c f regs' function efl mxcsr xmm ∧ regs' RSP = s1 ∧ regs' RBP = b ∧
    (∀ j v r, args !! j = Some v → arg_regs !! j = Some r → regs' r = v) ∧
    ∀ r, r ≠ RSP → r ≠ RBP → (∀ j, (j < length args)%nat → arg_regs !! j ≠ Some r) → regs' r = regs r;
  cp_return : mem' !! s1 = Some (address (label_pos _prs_pal_context_return_trampoline));
  cp_args : ∀ j v, args !! (6 + j)%nat = Some v → mem' !! (s1 + 8 + 8 * Z.of_nat j) = Some v;
  cp_backtrace : mem' !! b = Some (regs RBP) ∧ mem' !! (b + 8) = Some rip;
  cp_saved : ctx_holds mem' (b + 16) (b + 16 + off_fpstate) regs rip efl mxcsr xmm;
  cp_rest : ∀ a, ¬ (s1 ≤ a < b + 16 + sizeof_context) → ¬ (c ≤ a < c + sizeof_ucontext) → mem' !! a = mem !! a;
  cp_dom : ∀ a, is_Some (mem !! a) → is_Some (mem' !! a)
}.

(** The registers of the call are written to the context. *)
Lemma set_call_ok c f function s1 b new regs rip efl mxcsr xmm mem :
  ctx_holds mem c f regs rip efl mxcsr xmm → (f + sizeof_fpstate ≤ c ∨ c + sizeof_ucontext ≤ f) →
  ∃ mem', (mem ← wr mem (c + greg REG_RIP) function; mem ← wr mem (c + off_reg RBP) b;
           mem ← wr mem (c + off_reg RSP) s1; write_regs off_reg c arg_regs new mem) = Ret mem' ∧
    (∀ a, is_Some (mem !! a) → is_Some (mem' !! a)) ∧
    (∀ a, ¬ (c ≤ a < c + sizeof_ucontext) → mem' !! a = mem !! a) ∧
    ctx_holds mem' c f (λ r, if bool_decide (r ∈ arg_regs) then new r else if bool_decide (r = RSP) then s1
                             else if bool_decide (r = RBP) then b else regs r) function efl mxcsr xmm.
Proof.
  intros [Hcr Hfr Hr Hrip (w & Hw & Hefl) Hfp (x & Hx & Hm) Hxmm] Hdis.
  unfold sizeof_ucontext, sizeof_fpstate in *.
  set (mem1 := <[c + off_reg RSP := s1]> (<[c + off_reg RBP := b]> (<[c + greg REG_RIP := function]> mem))).
  assert (∀ y, is_Some (mem !! y) → is_Some (mem1 !! y)) as Hd1.
  { intros y Hy. unfold mem1. rewrite !lookup_insert_is_Some'. auto. }
  destruct (write_regs_ok off_reg off_reg_pos off_reg_inj c new arg_regs mem1) as (mem' & Hwr & Hd & Hnew & Hold).
  { tauto. } { intros r. apply Hd1. by rewrite Hr. } { unfold arg_regs. repeat constructor; set_solver. }
  assert (∀ a, ¬ (c + 40 ≤ a < c + 176) → mem' !! a = mem !! a) as Hout.
  { intros a Ha. rewrite Hold.
    - unfold mem1, off_reg, greg, REG_RIP. cbn. by rewrite !lookup_insert_ne by lia.
    - intros r _ ->. pose proof (off_reg_range r). lia. }
  exists mem'. split_and!.
  - rewrite wr_ok; [ocbn|unfold greg, REG_RIP; aligned|by rewrite Hrip].
    rewrite wr_ok; [ocbn|pose proof (off_reg_range RBP); aligned|].
    2:{ rewrite lookup_insert_ne by (unfold off_reg, greg, REG_RIP; cbn; lia). by rewrite Hr. }
    rewrite wr_ok; [ocbn; exact Hwr|pose proof (off_reg_range RSP); aligned|].
    rewrite !lookup_insert_ne by (unfold off_reg, greg, REG_RIP; cbn; lia). by rewrite Hr.
  - auto.
  - intros a Ha. apply Hout. lia.
  - split; unfold sizeof_ucontext, sizeof_fpstate; [done|done|..].
    + intros r. destruct (decide (r ∈ arg_regs)) as [Hin|Hni].
      * rewrite bool_decide_true by done. by apply Hnew.
      * rewrite (bool_decide_false (r ∈ arg_regs)) by done. rewrite Hold by (intros r' Hr' He; assert (r = r') by (apply off_reg_inj; lia); congruence).
        unfold mem1. case_bool_decide; [subst; apply lookup_insert_eq|].
        rewrite lookup_insert_ne by (intros He; apply (f_equal (λ z, z - c)) in He; assert (RSP = r) by (apply off_reg_inj; lia); congruence).
        case_bool_decide; [subst; apply lookup_insert_eq|].
        rewrite lookup_insert_ne by (intros He; apply (f_equal (λ z, z - c)) in He; assert (RBP = r) by (apply off_reg_inj; lia); congruence).
        rewrite lookup_insert_ne by (pose proof (off_reg_range r); unfold greg, REG_RIP; lia). apply Hr.
    + rewrite Hold by (intros r _; pose proof (off_reg_range r); unfold greg, REG_RIP; lia). unfold mem1, off_reg, greg, REG_RIP. cbn.
      rewrite !lookup_insert_ne by lia. apply lookup_insert_eq.
    + exists w. rewrite Hout by (unfold greg, REG_EFL; lia). done.
    + by rewrite Hout by (unfold off_fpregs; lia).
    + exists x. by rewrite Hout by (unfold off_mxcsr; lia).
    + intros i Hi. rewrite <- (Hxmm i Hi). unfold rd128, rd. by rewrite !Hout by (unfold PRS_CONTEXT_XMM; lia).
Qed.

Lemma push_call_ok mem c f s1 (fr : bool) b args regs rip efl mxcsr xmm :
  let k := Z.of_nat (length args - 6) in
  ctx_holds mem c f regs rip efl mxcsr xmm → rip ≠ 0 → f ≠ 0 → 0 ≤ s1 → s1 mod 16 = 8 → b mod 16 = 0 →
  s1 + 8 + 8 * k + (if fr then 8 else 0) = b → b + 16 + sizeof_context < 2 ^ 64 →
  mapped_from mem s1 (b + 16 + sizeof_context) → mapped mem c 121 → mapped mem f 64 →
  (c + sizeof_ucontext ≤ s1 ∨ b + 16 + sizeof_context ≤ c) → (f + sizeof_fpstate ≤ s1 ∨ b + 16 + sizeof_context ≤ f) →
  ∃ new mem', push_call c s1 fr args mem = Ret (new, b, mem') ∧
    changed_in s1 ((b + 16 + sizeof_context - s1) / 8) mem mem' ∧
    (∀ j v r, args !! j = Some v → arg_regs !! j = Some r → new r = v) ∧
    (∀ r, r ∈ arg_regs → (∀ j, (j < length args)%nat → arg_regs !! j ≠ Some r) → new r = regs r) ∧
    mem' !! s1 = Some (address (label_pos _prs_pal_context_return_trampoline)) ∧
    (∀ j v, args !! (6 + j)%nat = Some v → mem' !! (s1 + 8 + 8 * Z.of_nat j) = Some v) ∧
    mem' !! b = Some (regs RBP) ∧ mem' !! (b + 8) = Some rip ∧
    ctx_holds mem' (b + 16) (b + 16 + off_fpstate) regs rip efl mxcsr xmm.
Proof.
  intros k Hc Hrip Hf0 Hs10 Hs1 Hb16 Eb Hb Hms Hmc Hmf Hdc Hdf.
  pose proof (ch_range _ _ _ _ _ _ _ _ Hc) as Hcr. pose proof (ch_fp_range _ _ _ _ _ _ _ _ Hc) as Hfr.
  unfold sizeof_ucontext, sizeof_fpstate, sizeof_context in *. set (n := (b + 16 + 1488 - s1) / 8).
  assert (s1 + 8 * n = b + 16 + 1488) as Hn by (unfold n; aligned). assert (0 ≤ k) as Hk by (unfold k; lia).
  assert (s1 + 8 + 8 * k ≤ b) as Hb1 by (destruct fr; lia).
  (* as long as only this area changes, the context is the same *)
  assert (∀ m, changed_in s1 n mem m → ctx_holds m c f regs rip efl mxcsr xmm) as Hkeep.
  { intros m [Hm _]. apply (ctx_holds_same mem); [done|]. intros a Ha. unfold sizeof_ucontext, sizeof_fpstate in Ha. apply Hm. lia. }
  assert (∀ m, changed_in s1 n mem m → rd m (c + greg REG_RIP) = Ret rip) as Hkrip.
  { intros m Hm. apply rd_ok; [unfold greg, REG_RIP; aligned|]. apply (ch_rip _ _ _ _ _ _ _ _ (Hkeep m Hm)). }
  unfold push_call. rewrite (Hkrip mem) by done. ocbn. rewrite (proj2 (truthy_true rip)) by done.
  set (tramp := address _). assert (is_Some (mem !! s1)) as Hss1 by (apply Hms; [lia|aligned]).
  rewrite wr_ok by (done || aligned). ocbn. set (mem1 := <[s1 := tramp]> mem).
  pose proof (changed_insert s1 tramp mem Hss1) as Hch1. fold mem1 in Hch1.
  assert (changed_in s1 n mem mem1) as Hc1 by (eapply changed_weaken; [exact Hch1|lia..]).
  destruct (read_regs_ok off_reg off_reg_pos c mem1 regs arg_regs) as (new0 & Hrd & Hnew0); [tauto|apply (Hkeep mem1 Hc1)|].
  rewrite Hrd. ocbn.
  destruct (fill_args_ok args 0 new0 (s1 + 8) mem1) as (new & mem2 & Hfill & Hch2 & Hargs & Hnew); [aligned| |].
  { eapply mapped_changed; [exact Hc1|]. eapply mapped_range; [exact Hms|aligned|lia|]. change (Z.of_nat (length args - (6 - 0))) with k. lia. }
  change (Z.of_nat (length args - (6 - 0))) with k in *. rewrite Hfill. ocbn.
  assert (changed_in s1 n mem mem2) as Hc2.
  { eapply changed_trans; [exact Hc1|]. eapply changed_weaken; [exact Hch2|lia|lia]. }
  replace (if fr then s1 + 8 + 8 * k + 8 else s1 + 8 + 8 * k) with b by (destruct fr; lia).
  unfold reg_of at 1. rewrite (rd_ok _ _ (regs RBP)); [|pose proof (off_reg_range RBP); aligned|apply (Hkeep mem2 Hc2)]. ocbn.
  rewrite wr_ok; [ocbn|aligned|apply Hc2, Hms; [lia|aligned]].
  set (mem3 := <[b := regs RBP]> mem2).
  assert (changed_in s1 n mem mem3) as Hc3.
  { eapply changed_trans; [exact Hc2|]. eapply changed_weaken; [apply changed_insert|lia..]. apply Hc2, Hms; [lia|aligned]. }
  rewrite (Hkrip mem3 Hc3). ocbn. rewrite wr_ok; [ocbn|aligned|apply Hc3, Hms; [lia|aligned]].
  set (mem4 := <[b + 8 := rip]> mem3).
  assert (changed_in s1 n mem mem4) as Hc4.
  { eapply changed_trans; [exact Hc3|]. eapply changed_weaken; [apply changed_insert|lia..]. apply Hc3, Hms; [lia|aligned]. }
  rewrite (proj2 (truthy_true rip)) by done. replace (b + 8 + 8) with (b + 16) by lia.
  destruct (save_context_ok mem4 c f (b + 16) regs rip efl mxcsr xmm) as (mem5 & Hsave & Hch5 & Hheld);
    [by apply Hkeep|done|lia|unfold sizeof_context; lia|aligned| |by eapply mapped_changed|by eapply mapped_changed
    |unfold sizeof_ucontext, sizeof_context; lia|unfold sizeof_fpstate, sizeof_context; lia|].
  { eapply mapped_changed; [exact Hc4|]. eapply mapped_range; [exact Hms|aligned|lia|lia]. }
  rewrite Hsave. ocbn. exists new, mem5. split; [done|].
  assert (∀ a, a < b + 16 → mem5 !! a = mem4 !! a) as H54 by (intros a Ha; apply (proj1 Hch5); lia).
  split; [eapply changed_trans; [exact Hc4|]; eapply changed_weaken; [exact Hch5|lia|lia]|].
  split_and!; [| | | | | |exact Hheld].
  - intros j v r Hv Hj. specialize (Hargs j v Hv). cbn [Nat.add] in Hargs. by rewrite Hj in Hargs.
  - intros r Hr Hno. rewrite Hnew by done. by apply Hnew0.
  - rewrite H54 by (lia). unfold mem4, mem3. rewrite !lookup_insert_ne by (lia).
    rewrite (proj1 Hch2) by lia. apply lookup_insert_eq.
  - intros j v Hv. assert (Z.of_nat j < k) as Hjk by (apply lookup_lt_Some in Hv; unfold k; lia).
    specialize (Hargs (6 + j)%nat v Hv). rewrite (lookup_ge_None_2 arg_regs) in Hargs by (cbn; lia).
    rewrite H54 by (lia). unfold mem4, mem3. rewrite !lookup_insert_ne by (lia).
    rewrite <- Hargs. f_equal. lia.
  - rewrite H54 by lia. unfold mem4. rewrite lookup_insert_ne by lia. apply lookup_insert_eq.
  - rewrite H54 by lia. apply lookup_insert_eq.
Qed.

Lemma add_internal_ok mem c f function args regs rip efl mxcsr xmm :
  let k := Z.of_nat (length args - 6) in
  let s := regs RSP in
  ctx_holds mem c f regs rip efl mxcsr xmm → rip ≠ 0 → f ≠ 0 → s mod 8 = 0 → 1672 + 8 * k ≤ s < 2 ^ 64 →
  mapped_from mem (s - 1672 - 8 * k) s → mapped mem c 121 → mapped mem f 64 →
  (c + sizeof_ucontext ≤ s - 1672 - 8 * k ∨ s ≤ c) → (f + sizeof_fpstate ≤ s - 1672 - 8 * k ∨ s ≤ f) →
  (f + sizeof_fpstate ≤ c ∨ c + sizeof_ucontext ≤ f) →
  ∃ mem' s1 b, prs_pal_context_add_internal c function args mem = Ret mem' ∧
    call_pushed c f function s1 b args regs rip efl mxcsr xmm mem mem'.
Proof.
  intros k s Hc Hrip Hf0 Hs8 Hs Hms Hmc Hmf Hdc Hdf Hcf.
  destruct (context_room_ok rip s Hrip Hs8) as (t & al & Eroom & Ht16 & Ht); [lia|].
  assert (0 ≤ k ∧ s - 1624 ≤ t ≤ s - 1616) as [Hk Htr] by (split; [unfold k; lia|destruct al; lia]).
  destruct (call_frame_ok t k Ht16 Hk) as (s1 & fr & Eframe & Hs1 & Eb); [lia|].
  set (b := t - 16) in *. assert (b mod 16 = 0) as Hb16 by (unfold b; aligned).
  assert (s - 1672 - 8 * k ≤ s1 ∧ s1 + 8 + 8 * k ≤ b ∧ b + 16 + 1488 + 128 ≤ s) as (Hs1r & Hs1b & Hbs) by (unfold b in *; destruct fr; lia).
  unfold sizeof_ucontext, sizeof_fpstate in *.
  destruct (push_call_ok mem c f s1 fr b args regs rip efl mxcsr xmm) as
    (new & mem1 & Hpush & [Hch Hd] & Hargs & Hnew & Hret & Hsargs & Hrbp & Hbrip & Hsaved); try done;
    [lia|unfold sizeof_context; lia| |unfold sizeof_ucontext, sizeof_context; lia|unfold sizeof_fpstate, sizeof_context; lia|].
  { intros a Ha Ha8. apply Hms; [unfold sizeof_context in Ha; lia|done]. }
  assert (s1 + 8 * ((b + 16 + sizeof_context - s1) / 8) = b + 16 + 1488) as En by (unfold sizeof_context; aligned).
  rewrite En in Hch.
  destruct (set_call_ok c f function s1 b new regs rip efl mxcsr xmm mem1) as (mem2 & Hset & Hd2 & Hout & Hheld).
  { apply (ctx_holds_same mem); [done|]. unfold sizeof_ucontext, sizeof_fpstate. intros a Ha. apply Hch. lia. }
  { unfold sizeof_ucontext, sizeof_fpstate. lia. }
  unfold sizeof_ucontext in Hout.
  pose proof (ch_range _ _ _ _ _ _ _ _ Hc) as Hcr. unfold sizeof_ucontext in Hcr.
  exists mem2, s1, b. split.
  - unfold prs_pal_context_add_internal, reg_of. pose proof (off_reg_range RSP).
    rewrite (rd_ok mem (c + off_reg RSP) s) by (aligned || apply (ch_regs _ _ _ _ _ _ _ _ Hc)). ocbn.
    rewrite (rd_ok mem (c + greg REG_RIP) rip) by ((unfold greg, REG_RIP; aligned) || apply (ch_rip _ _ _ _ _ _ _ _ Hc)). ocbn.
    rewrite Eroom. replace (if 6 <? Z.of_nat (length args) then Z.of_nat (length args) - 6 else 0) with k
      by (unfold k; destruct (Z.ltb_spec 6 (Z.of_nat (length args))); lia).
    rewrite Eframe, Hpush. exact Hset.
  - split; unfold sizeof_context, PRS_CONTEXT_RED_ZONE_SIZE, sizeof_ucontext.
    + done.
    + fold k s. lia.
    + fold k s. lia.
    + done.
    + eexists. split; [exact Hheld|]. split_and!.
      * done.
      * done.
      * intros j v r Hv Hj. rewrite bool_decide_true by (by eapply list_elem_of_lookup_2). by eapply Hargs.
      * intros r Hr1 Hr2 Hno. case_bool_decide; [by apply Hnew|]. by rewrite !bool_decide_false.
    + rewrite Hout by lia. done.
    + intros j v Hv. assert (Z.of_nat j < k) by (apply lookup_lt_Some in Hv; unfold k; lia). rewrite Hout by lia. by apply Hsargs.
    + rewrite !Hout by lia. done.
    + apply (ctx_holds_same mem1); [exact Hsaved|]. unfold sizeof_ucontext, sizeof_fpstate, off_fpstate. intros a Ha. apply Hout. lia.
    + intros a Ha1 Ha2. rewrite Hout by lia. apply Hch. lia.
    + auto.
Qed.

(** *** Coming back *)

(** The function that was called returns to the trampoline: the interrupted context, which
    is above the frame pointer, is restored. *)
Lemma exec_trampoline b f regs rip efl mxcsr xmm m fuel :
  ctx_holds (m_mem m) (b + 16) f regs rip efl mxcsr xmm → m_regs m RBP = b → 0 ≤ b →
  8 ≤ m_regs m RSP → m_regs m RSP mod 8 = 0 → m_regs m RSP < 2 ^ 64 → m_regs m RSP ≤ b → m_regs m RSP ≤ f →
  is_Some (m_mem m !! (m_regs m RSP - 8)) → regs RSP mod 8 = 0 → regs RSP < 2 ^ 64 →
  b + 16 + sizeof_ucontext ≤ regs RSP - 24 → mapped (m_mem m) (regs RSP - 24) 3 →
  ∃ m', exec (6 + (length asm_restore + fuel)) (label_pos _prs_pal_context_return_trampoline) m = resume fuel rip m' ∧
    restored regs efl mxcsr xmm m' ∧
    (∀ a, m_regs m RSP ≤ a → ¬ (regs RSP - 24 ≤ a < regs RSP) → m_mem m' !! a = m_mem m !! a) ∧
    m_mem m' !! (regs RSP - 24) = Some (regs RSI) ∧ m_mem m' !! (regs RSP - 16) = Some efl ∧
    m_mem m' !! (regs RSP - 8) = Some rip.
Proof.
  intros Hc Hrbp Hb Hsp Hsp8 Hsp64 Hspb Hspf Hsm Hs8 Hs64 Hbs Hmap.
  pose proof (ch_range _ _ _ _ _ _ _ _ Hc) as Hcr. unfold sizeof_ucontext in *.
  set (sp := m_regs m RSP) in *.
  set (m1 := arith (b + 16) (set_reg RSI (b + 16) (set_reg RSI b (set_reg RDI 0 m)))).
  assert (run_block 2 [MovI 0 RDI; MovRR RBP RSI; AddI 16 RSI] m = Ret (set_reg RSI (b + 16) (arith (b + 16) (set_reg RSI b (set_reg RDI 0 m))))) as Hrun.
  { cbn [run_block exec_instr]. ocbn. mstate. rewrite Hrbp, u64_small by lia. done. }
  set (m2 := set_reg RSI _ _) in Hrun.
  set (m3 := set_mem (<[sp - 8 := address 6]> (m_mem m)) (set_reg RSP (sp - 8) m2)).
  assert (m_regs m3 RSP = sp - 8) as Hsp3 by (unfold m3; by mstate).
  assert (∀ a, sp ≤ a → m_mem (enter m3) !! a = m_mem m !! a) as Hmem3.
  { intros a Ha. rewrite enter_mem by lia. unfold m3. mstate. apply lookup_insert_ne. lia. }
  destruct (exec_restore (b + 16) f regs rip efl mxcsr xmm (arith 0 (enter m3)) fuel) as (m' & Hexec & Hrest & Hm').
  { mstate. apply (ctx_holds_same (m_mem m)); [done|]. unfold sizeof_ucontext, sizeof_fpstate. intros a Ha. apply Hmem3. lia. }
  { mstate. rewrite enter_regs by done. unfold m3, m2. by mstate. }
  { done. } { lia. }
  { intros i Hi. mstate. rewrite Hmem3 by lia. by apply Hmap. }
  { unfold sizeof_ucontext. lia. }
  exists m'. split.
  - change (6 + (length asm_restore + fuel))%nat with (length [MovI 0 RDI; MovRR RBP RSI; AddI 16 RSI] + (3 + (length asm_restore + fuel)))%nat.
    rewrite (exec_block _ _ _ m2 _ eq_refl Hrun). generalize (length asm_restore + fuel)%nat as n, Hexec. intros n Hn.
    cbn [exec Nat.add length label_pos].
    change (text !! 5%nat) with (Some (Call prs_pal_context_swap)). cbn [exec_instr]. unfold push.
    assert (m_regs m2 RSP = sp ∧ m_mem m2 = m_mem m) as [-> ->] by (unfold m2; by mstate).
    rewrite u64_small, wr_ok by (done || lia || aligned). ocbn. fold m3. change (label_index prs_pal_context_swap) with (label_pos prs_pal_context_swap).
    change (text !! label_pos prs_pal_context_swap) with (Some (Test RDI RDI)). cbn [exec_instr]. ocbn.
    change (text !! S (label_pos prs_pal_context_swap)) with (Some (Jz prs_pal_context_swap_restore)). cbn [exec_instr]. ocbn.
    assert (m_regs (enter m3) RDI = 0) as -> by (rewrite enter_regs by done; unfold m3, m2; by mstate).
    mstate. rewrite arith_flags_zf. exact Hn.
  - split; [done|]. rewrite Hm'. mstate. unfold below_stack. split_and!.
    + intros a Ha Hna. rewrite !lookup_insert_ne by lia. by apply Hmem3.
    + apply lookup_insert_eq.
    + rewrite lookup_insert_ne by lia. apply lookup_insert_eq.
    + rewrite !lookup_insert_ne by lia. apply lookup_insert_eq.
Qed.

(** *** Saving *)

(** The registers that [prs_pal_context_swap] saves, but for the stack pointer. *)
Definition saved_regs : list reg := [RBP; RBX; R12; R13; R14; R15].

Record ctx_saved (c f : Z) (m : machine) (mem : memory) : Prop := CtxSaved {
  cs_regs : ∀ r, r = RSP ∨ r ∈ saved_regs → mem !! (c + off_reg r) = Some (m_regs m r);
  cs_rip : mem !! (c + greg REG_RIP) = Some (address (label_pos prs_pal_context_swap_return));
  cs_fpregs : mem !! (c + off_fpregs) = Some f;
  cs_xmm : ∀ i, (8 ≤ i < 16)%nat → rd128 mem (f + PRS_CONTEXT_XMM i) = Ret (m_xmm m i);
  cs_mxcsr : mem !! (f + off_mxcsr) = m_mem m !! (f + off_mxcsr);
  cs_rest : ∀ a, ¬ (c ≤ a < c + sizeof_ucontext) → ¬ (f ≤ a < f + sizeof_fpstate) → a ≠ m_regs m RSP - 8 →
    mem !! a = m_mem m !! a;
  cs_dom : ∀ a, is_Some (m_mem m !! a) → is_Some (mem !! a)
}.

(** The context at [c] can be written by a thread whose stack pointer is [sp]. *)
Definition ctx_ready (c f sp : Z) (mem : memory) : Prop :=
  (0 < c ∧ c + sizeof_ucontext ≤ 2 ^ 64 ∧ c mod 8 = 0 ∧ mapped mem c 121) ∧
  (0 ≤ f ∧ f + sizeof_fpstate ≤ 2 ^ 64 ∧ f mod 16 = 0 ∧ mapped mem f 64) ∧
  (f + sizeof_fpstate ≤ c ∨ c + sizeof_ucontext ≤ f) ∧ mem !! (c + off_fpregs) = Some f ∧
  (8 ≤ sp < 2 ^ 64 ∧ sp mod 8 = 0 ∧ is_Some (mem !! (sp - 8))) ∧
  (c + sizeof_ucontext ≤ sp - 8 ∨ sp ≤ c) ∧ (f + sizeof_fpstate ≤ sp - 8 ∨ sp ≤ f).

Lemma run_save_pc c m :
  m_regs m RDI = c → c ≠ 0 →
  run_block (label_pos prs_pal_context_swap) [Test RDI RDI; Jz prs_pal_context_swap_restore] m = Ret (arith c m).
Proof.
  intros Hrdi Hc. rewrite (blk_seq _ (Test RDI RDI) _ _ _ eq_refl), Hrdi, Z.land_diag.
  rewrite (blk_seq _ (Jz _) _ _ (arith c m)); [done|]. cbn [exec_instr]. mstate.
  by rewrite arith_flags_zf, (proj2 (Z.eqb_neq c 0)).
Qed.

Lemma swap_return_in_text : (label_pos prs_pal_context_swap_return ≤ length text)%nat.
Proof. exact (le_n _). Qed.

(** The instruction pointer is saved as the address of the label at the end. *)
Lemma run_save_rip c m :
  m_regs m RDI = c → 0 ≤ c → c + sizeof_ucontext ≤ 2 ^ 64 → c mod 8 = 0 → mapped (m_mem m) c 121 →
  ∃ m', run_block (label_pos prs_pal_context_swap + 3)
          [LeaRip RAX; AddDiff prs_pal_context_swap_return rip_ref RAX; MovRM RAX (greg REG_RIP) RDI] m = Ret m' ∧
    m_mem m' = <[c + greg REG_RIP := address (label_pos prs_pal_context_swap_return)]> (m_mem m) ∧
    m_xmm m' = m_xmm m ∧ m_mxcsr m' = m_mxcsr m ∧ ∀ r, r ≠ RAX → m_regs m' r = m_regs m r.
Proof.
  intros Hrdi Hc0 Hc Hc8 Hmap. unfold sizeof_ucontext in *. eexists. split.
  { rewrite (blk_seq _ (LeaRip RAX) _ _ _ eq_refl).
    rewrite (blk_seq _ (AddDiff _ _ RAX) _ _ _ eq_refl). mstate.
    change (S (label_pos prs_pal_context_swap + 3)) with (label_pos rip_ref).
    change (label_index prs_pal_context_swap_return) with (label_pos prs_pal_context_swap_return).
    change (label_index rip_ref) with (label_pos rip_ref).
    replace (u64 _) with (address (label_pos prs_pal_context_swap_return)).
    2:{ pose proof (address_range _ swap_return_in_text). rewrite u64_small; lia. }
    rewrite (blk_store _ _ _ _ _ _ (c + greg REG_RIP)); [reflexivity| | |].
    - unfold ea. mstate. rewrite Hrdi. apply u64_small. unfold greg, REG_RIP. lia.
    - unfold greg, REG_RIP. aligned.
    - mstate. replace (c + greg REG_RIP) with (c + 8 * 21) by (unfold greg, REG_RIP; lia). apply Hmap. lia. }
  mstate. split_and!; [done..|]. intros r Hr. by rewrite !upd_reg_ne by done.
Qed.

(** The flags, through the stack. *)
Lemma run_save_flags pc c f m :
  m_regs m RDI = c → ctx_ready c f (m_regs m RSP) (m_mem m) →
  ∃ m', run_block pc [Pushfq; Pop RAX; MovRM32 RAX (greg REG_EFL) RDI; MovMR off_fpregs RDI RDI] m = Ret m' ∧
    m_regs m' RDI = f ∧ (∀ r, r ≠ RAX → r ≠ RDI → m_regs m' r = m_regs m r) ∧
    m_xmm m' = m_xmm m ∧ m_mxcsr m' = m_mxcsr m ∧ (∀ a, is_Some (m_mem m !! a) → is_Some (m_mem m' !! a)) ∧
    ∀ a, a ≠ m_regs m RSP - 8 → a ≠ c + greg REG_EFL → m_mem m' !! a = m_mem m !! a.
Proof.
  intros Hrdi ((Hc0 & Hc & Hc8 & Hmc) & (Hf0 & Hf & Hf16 & Hmf) & Hcf & Hfp & (Hsp & Hsp8 & Hsm) & Hdc & Hdf).
  unfold sizeof_ucontext, sizeof_fpstate in *. set (sp := m_regs m RSP) in *.
  set (v := Z.ldiff (m_flags m) RF_VM_FLAGS). set (mem1 := <[sp - 8 := v]> (m_mem m)).
  assert (∀ a, a ≠ sp - 8 → mem1 !! a = m_mem m !! a) as Hm1 by (intros a Ha; apply lookup_insert_ne; lia).
  destruct (Hmc 22 ltac:(lia)) as [w Hw]. replace (c + 8 * 22) with (c + greg REG_EFL) in Hw by (unfold greg, REG_EFL; lia).
  set (w' := w / 2 ^ 32 * 2 ^ 32 + v mod 2 ^ 32). set (mem2 := <[c + greg REG_EFL := w']> mem1).
  exists (set_reg RDI f (set_mem mem2 (set_reg RAX v (set_reg RSP sp (set_mem mem1 (set_reg RSP (sp - 8) m)))))).
  split_and!; [| | | | | |].
  - rewrite (blk_seq _ Pushfq _ _ (set_mem mem1 (set_reg RSP (sp - 8) m))).
    2:{ cbn [exec_instr]. unfold push. fold sp. rewrite u64_small, wr_ok by (done || lia || aligned). done. }
    rewrite (blk_pop _ _ _ _ v) by (mstate; apply rd_ok; [aligned|apply lookup_insert_eq]). mstate.
    replace (u64 (sp - 8 + 8)) with sp by (rewrite u64_small; lia).
    rewrite (blk_seq _ (MovRM32 _ _ _) _ _ (set_mem mem2 (set_reg RAX v (set_reg RSP sp (set_mem mem1 (set_reg RSP (sp - 8) m)))))).
    2:{ cbn [exec_instr]. unfold ea. mstate. rewrite Hrdi, u64_small by (unfold greg, REG_EFL; lia).
        rewrite (wr32_ok _ _ w); [done|unfold greg, REG_EFL; aligned|]. rewrite Hm1 by (unfold greg, REG_EFL; lia). done. }
    rewrite (blk_load _ _ _ _ _ _ f); [done|]. unfold ea. mstate. rewrite Hrdi, u64_small by (unfold off_fpregs; lia).
    apply rd_ok; [unfold off_fpregs; aligned|]. unfold mem2. rewrite lookup_insert_ne by (unfold off_fpregs, greg, REG_EFL; lia).
    by rewrite Hm1 by (unfold off_fpregs; lia).
  - by mstate.
  - intros r Hra Hrd. mstate. rewrite !upd_reg_ne by done. destruct (decide (r = RSP)) as [->|]; [by rewrite upd_reg_eq|].
    by rewrite !upd_reg_ne by done.
  - done.
  - done.
  - intros a Ha. mstate. unfold mem2, mem1. rewrite !lookup_insert_is_Some'. auto.
  - intros a Ha1 Ha2. mstate. unfold mem2. rewrite lookup_insert_ne by done. by apply Hm1.
Qed.

Lemma ctx_ready_changed c f sp mem mem' :
  ctx_ready c f sp mem → (∀ a, is_Some (mem !! a) → is_Some (mem' !! a)) → mem' !! (c + off_fpregs) = mem !! (c + off_fpregs) →
  ctx_ready c f sp mem'.
Proof.
  intros ((Hc0 & Hc & Hc8 & Hmc) & (Hf0 & Hf & Hf16 & Hmf) & Hcf & Hfp & (Hsp & Hsp8 & Hsm) & Hdc & Hdf) Hd Heq.
  unfold ctx_ready. rewrite Heq. split_and!; try done; try lia; [..|by apply Hd]; intros i Hi; apply Hd; [by apply Hmc|by apply Hmf].
Qed.

Lemma off_reg_not r : off_reg r ≠ off_fpregs ∧ off_reg r ≠ greg REG_RIP ∧ off_reg r ≠ greg REG_EFL.
Proof. by destruct r. Qed.

Lemma saved_regs_NoDup : NoDup saved_regs.
Proof. by apply (bool_decide_unpack _). Qed.

Lemma saved_regs_RAX : RAX ∉ saved_regs.
Proof. by apply (bool_decide_unpack _). Qed.

Lemma off_reg_saved c r : r ∈ saved_regs → c + off_reg RSP ≠ c + off_reg r.
Proof. intros Hr He. assert (RSP = r) as <- by (apply off_reg_inj; lia). revert Hr. by apply (bool_decide_unpack (RSP ∉ saved_regs)). Qed.

(** The first part of the saving: the registers and the instruction pointer. *)
Definition save_regs_ins : list instr :=
  [Test RDI RDI; Jz prs_pal_context_swap_restore] ++ ((λ r, MovRM r (off_reg r) RDI) <$> [RSP]) ++
  [LeaRip RAX; AddDiff prs_pal_context_swap_return rip_ref RAX; MovRM RAX (greg REG_RIP) RDI] ++
  ((λ r, MovRM r (off_reg r) RDI) <$> saved_regs).

Lemma run_save_regs c f m :
  m_regs m RDI = c → ctx_ready c f (m_regs m RSP) (m_mem m) →
  ∃ m', run_block (label_pos prs_pal_context_swap) save_regs_ins m = Ret m' ∧
    (∀ r, r ≠ RAX → m_regs m' r = m_regs m r) ∧ m_xmm m' = m_xmm m ∧ m_mxcsr m' = m_mxcsr m ∧
    (∀ a, is_Some (m_mem m !! a) → is_Some (m_mem m' !! a)) ∧
    (∀ r, r = RSP ∨ r ∈ saved_regs → m_mem m' !! (c + off_reg r) = Some (m_regs m r)) ∧
    m_mem m' !! (c + greg REG_RIP) = Some (address (label_pos prs_pal_context_swap_return)) ∧
    ∀ a, (∀ r, r = RSP ∨ r ∈ saved_regs → a ≠ c + off_reg r) → a ≠ c + greg REG_RIP → m_mem m' !! a = m_mem m !! a.
Proof.
  intros Hrdi ((Hc0 & Hc & Hc8 & Hmc) & _).
  set (pc := label_pos prs_pal_context_swap). pose proof (run_save_pc c m Hrdi ltac:(lia)) as Hrun1. set (m1 := arith c m) in Hrun1. fold pc in Hrun1.
  destruct (run_reg_stores off_reg off_reg_pos off_reg_inj 121 RDI c [RSP] (pc + 2) m1 off_reg_fits) as (m2 & Hrun2 & Hr2 & Hx2 & Hc2 & _ & Hch2 & Hnew2 & Hold2).
  { done. } { lia. } { done. } { done. } { done. } { apply NoDup_singleton. }
  destruct (run_save_rip c m2) as (m3 & Hrun3 & Hm3 & Hx3 & Hc3 & Hr3).
  { by rewrite Hr2. } { lia. } { done. } { done. } { by eapply mapped_changed. }
  fold pc in Hrun3. assert (∀ a, is_Some (m_mem m !! a) → is_Some (m_mem m3 !! a)) as Hd3.
  { intros a Ha. rewrite Hm3. apply lookup_insert_is_Some'. right. by apply Hch2. }
  destruct (run_reg_stores off_reg off_reg_pos off_reg_inj 121 RDI c saved_regs (pc + 6) m3 off_reg_fits) as (m4 & Hrun4 & Hr4 & Hx4 & Hc4 & _ & Hch4 & Hnew4 & Hold4).
  { rewrite Hr3, Hr2 by done. done. } { lia. } { done. } { done. } { intros i Hi. by apply Hd3, Hmc. } { exact saved_regs_NoDup. }
  exists m4. split_and!.
  - unfold save_regs_ins. rewrite run_block_app, Hrun1. ocbn. rewrite run_block_app. at_index (pc + 2)%nat m1. rewrite Hrun2. ocbn.
    rewrite run_block_app. at_index (pc + 3)%nat m2. rewrite Hrun3. ocbn. at_index (pc + 6)%nat m3. exact Hrun4.
  - intros r Hr. by rewrite Hr4, Hr3, Hr2 by done.
  - by rewrite Hx4, Hx3, Hx2.
  - by rewrite Hc4, Hc3, Hc2.
  - intros a Ha. by apply Hch4, Hd3.
  - intros r [->|Hr].
    + rewrite Hold4, Hm3, lookup_insert_ne by (apply off_reg_saved || (unfold off_reg, greg, REG_RIP, reg_index; lia)). apply (Hnew2 RSP). by left.
    + rewrite Hnew4 by done. by rewrite Hr3, Hr2 by (intros ->; by apply saved_regs_RAX).
  - rewrite Hold4; [rewrite Hm3; apply lookup_insert_eq|]. intros r _ He. destruct (off_reg_not r) as (_ & Hn1 & _). lia.
  - intros a Ha Hna. rewrite Hold4 by (intros r Hr; apply Ha; by right). rewrite Hm3, lookup_insert_ne by done.
    apply Hold2. intros r ->%list_elem_of_singleton. apply Ha. by left.
Qed.

Lemma asm_save_at : text_at (label_pos prs_pal_context_swap) asm_save.
Proof. by vm_compute. Qed.

(** What holds of the registers that were saved, and of the flags and the SSE registers
    after them. *)
Lemma exec_save c f m fuel :
  m_regs m RDI = c → ctx_ready c f (m_regs m RSP) (m_mem m) →
  ∃ m', exec (length asm_save + fuel) (label_pos prs_pal_context_swap) m = exec fuel (label_pos prs_pal_context_swap_restore) m' ∧
    ctx_saved c f m (m_mem m') ∧ m_xmm m' = m_xmm m ∧ m_mxcsr m' = m_mxcsr m ∧
    ∀ r, r ≠ RAX → r ≠ RDI → m_regs m' r = m_regs m r.
Proof.
  intros Hrdi Hready. pose proof Hready as ((Hc0 & Hc & Hc8 & Hmc) & (Hf0 & Hf & Hf16 & Hmf) & Hcf & Hfp & (Hsp & Hsp8 & Hsm) & Hdc & Hdf).
  destruct (run_save_regs c f m Hrdi Hready) as (m4 & Hrun4 & Hregs4 & Hx4 & Hc4 & Hd4 & Hnew4 & Hrip4 & Hsame4).
  set (pc := label_pos prs_pal_context_swap) in *.
  destruct (run_save_flags (pc + 12) c f m4) as (m5 & Hrun5 & Hrdi5 & Hr5 & Hx5 & Hc5 & Hd5 & Hold5).
  { by rewrite Hregs4. }
  { rewrite Hregs4 by done. apply (ctx_ready_changed _ _ _ (m_mem m)); [done|done|]. apply Hsame4; [|unfold off_fpregs, greg, REG_RIP; lia].
    intros r _ He. destruct (off_reg_not r) as [Hne _]. lia. }
  destruct (run_xmm_stores PRS_CONTEXT_XMM 160 64 RDI (seq 8 8) (pc + 16) m5 context_xmm_at) as (m6 & Hrun6 & Hr6 & Hc6 & _ & Hx6 & Hch6 & Hold6 & Hnew6); rewrite ?Hrdi5 in *; unfold sizeof_fpstate in *.
  { lia. } { lia. } { done. } { done. } { done. } { done. } { intros i Hi. by apply Hd5, Hd4, Hmf. } { apply NoDup_seq. } { intros i Hi%elem_of_seq. lia. }
  assert (run_block pc asm_save m = Ret m6) as Hrun.
  { change asm_save with (save_regs_ins ++ [Pushfq; Pop RAX; MovRM32 RAX (greg REG_EFL) RDI; MovMR off_fpregs RDI RDI] ++
      ((λ i, MovapsRM i (PRS_CONTEXT_XMM i) RDI) <$> seq 8 8)).
    rewrite run_block_app, Hrun4. ocbn. rewrite run_block_app. at_index (pc + 12)%nat m4. rewrite Hrun5. ocbn.
    at_index (pc + 16)%nat m5. exact Hrun6. }
  exists m6. split; [rewrite (exec_block asm_save pc m m6 fuel asm_save_at Hrun); done|].
  unfold sizeof_ucontext in *. split_and!; [|by rewrite Hx6, Hx5, Hx4|by rewrite Hc6, Hc5, Hc4|].
  - assert (∀ a, ¬ (f ≤ a < f + 512) → a ≠ m_regs m RSP - 8 → a ≠ c + greg REG_EFL → m_mem m6 !! a = m_mem m4 !! a) as H64.
    { intros a Ha1 Ha2 Ha3. rewrite (proj1 Hch6) by lia. apply Hold5; [by rewrite Hregs4|done]. }
    split; unfold sizeof_ucontext, sizeof_fpstate.
    + intros r Hr. pose proof (off_reg_range r). destruct (off_reg_not r) as (_ & Hn1 & Hn2). rewrite H64 by lia.
      by apply Hnew4.
    + rewrite H64 by (unfold greg, REG_RIP, REG_EFL; lia). exact Hrip4.
    + rewrite H64 by (unfold off_fpregs, greg, REG_EFL; lia). rewrite Hsame4; [done| |unfold off_fpregs, greg, REG_RIP; lia].
      intros r _ He. destruct (off_reg_not r) as (Hn & _). lia.
    + intros i Hi. rewrite Hnew6 by (apply elem_of_seq; lia). by rewrite Hx5, Hx4.
    + rewrite Hold6 by (intros i Hi%elem_of_seq; unfold off_mxcsr, PRS_CONTEXT_XMM; lia).
      rewrite Hold5 by (rewrite ?Hregs4 by done; unfold off_mxcsr, greg, REG_EFL; lia). apply Hsame4.
      * intros r _. pose proof (off_reg_range r). unfold off_mxcsr. lia.
      * unfold off_mxcsr, greg, REG_RIP. lia.
    + intros a Ha1 Ha2 Ha3. rewrite H64 by (done || unfold greg, REG_EFL; lia). apply Hsame4; [|unfold greg, REG_RIP; lia].
      intros r _. pose proof (off_reg_range r). lia.
    + intros a Ha. apply Hch6, Hd5, Hd4, Ha.
  - intros r Hra Hrd. rewrite Hr6, Hr5 by done. by apply Hregs4.
Qed.

(** C16: An interrupted thread does not notice a call that is put on top of it.  Whatever the
    function and its arguments, [prs_pal_context_add] makes the context one that calls the
    function as the ABI wants it: aligned stack, the arguments in registers and on the
    stack, below the red zone and a copy of the context, with the trampoline as return
    address.  When the function returns, its frame pointer and what is above it unchanged,
    the assembly gives the thread back all its registers, flags and SSE registers, and lets it go on
    where it was interrupted; its memory, red zone included, is as it was, but for the three
    words below its stack pointer. *)
Theorem context_call_roundtrip mem c f function args regs rip efl mxcsr xmm :
  let k := Z.of_nat (length args - 6) in
  let s := regs RSP in
  ctx_holds mem c f regs rip efl mxcsr xmm → rip ≠ 0 → position rip = None → f ≠ 0 → s mod 8 = 0 →
  1672 + 8 * k ≤ s < 2 ^ 64 → mapped_from mem (s - 1672 - 8 * k) s → mapped mem c 121 → mapped mem f 64 →
  (c + sizeof_ucontext ≤ s - 1672 - 8 * k ∨ s ≤ c) → (f + sizeof_fpstate ≤ s - 1672 - 8 * k ∨ s ≤ f) →
  (f + sizeof_fpstate ≤ c ∨ c + sizeof_ucontext ≤ f) →
  ∃ mem' s1 b, prs_pal_context_add c function args mem = Ret mem' ∧
    call_pushed c f function s1 b args regs rip efl mxcsr xmm mem mem' ∧
    ∀ m fuel, m_regs m RBP = b → m_regs m RSP = s1 + 8 → (∀ a, b ≤ a → m_mem m !! a = mem' !! a) →
      is_Some (m_mem m !! s1) →
      ∃ m', exec (54 + fuel) (label_pos _prs_pal_context_return_trampoline) m = Ret (Some (rip, m')) ∧
        restored regs efl mxcsr xmm m' ∧
        (∀ a, s - PRS_CONTEXT_RED_ZONE_SIZE ≤ a → ¬ (s - 24 ≤ a < s) → ¬ (c ≤ a < c + sizeof_ucontext) →
           m_mem m' !! a = mem !! a) ∧
        m_mem m' !! (s - 24) = Some (regs RSI) ∧ m_mem m' !! (s - 16) = Some efl ∧ m_mem m' !! (s - 8) = Some rip.
Proof.
  intros k s Hc Hrip Hpos Hf0 Hs8 Hs Hms Hmc Hmf Hdc Hdf Hcf.
  destruct (add_internal_ok mem c f function args regs rip efl mxcsr xmm) as (mem' & s1 & b & Hadd & Hp); [done..|].
  exists mem', s1, b. split; [done|]. split; [done|]. intros m fuel Hrbp Hrsp Hmem Hm1.
  pose proof Hp as [Hal [Hb1 Hb2] Habove Hb16 _ _ _ _ Hsaved Hrest Hdom].
  fold k s in Hb1, Hb2, Habove. unfold sizeof_context, PRS_CONTEXT_RED_ZONE_SIZE, sizeof_ucontext, sizeof_fpstate in *.
  assert (0 ≤ k) by (unfold k; lia).
  destruct (exec_trampoline b (b + 16 + off_fpstate) regs rip efl mxcsr xmm m fuel) as (m' & Hexec & Hrestored & Hsame & Hw);
    rewrite ?Hrsp; fold s; unfold sizeof_ucontext, off_fpstate; try done; try lia.
  - apply (ctx_holds_same mem'); [done|]. unfold sizeof_ucontext, sizeof_fpstate, off_fpstate. intros a Ha. apply Hmem. lia.
  - aligned.
  - by replace (s1 + 8 - 8) with s1 by lia.
  - intros i Hi. rewrite Hmem by lia. apply Hdom, Hms; [lia|aligned].
  - exists m'. fold s in Hsame, Hw. rewrite Hrsp in Hsame. split_and!; try tauto.
    + change (54 + fuel)%nat with (6 + (length asm_restore + fuel))%nat. rewrite Hexec. unfold resume. by rewrite Hpos.
    + intros a Ha Hna Hnc. rewrite Hsame by lia. rewrite Hmem by lia. apply Hrest; lia.
Qed.

(** *** Coming back to a saved context *)

Definition apart (a n b k : Z) : Prop := a + n ≤ b ∨ b + k ≤ a.

(** What was saved is a context, as long as nobody writes to it. *)
Lemma saved_holds c f sp m mem mem' :
  ctx_saved c f m mem → ctx_ready c f sp (m_mem m) →
  (∀ a, c ≤ a < c + sizeof_ucontext ∨ f ≤ a < f + sizeof_fpstate → mem' !! a = mem !! a) →
  ∃ regs efl w xmm,
    ctx_holds mem' c f regs (address (label_pos prs_pal_context_swap_return)) efl (w mod 2 ^ 32) xmm ∧
    (∀ r, r = RSP ∨ r ∈ saved_regs → regs r = m_regs m r) ∧ (∀ i, (8 ≤ i < 16)%nat → xmm i = m_xmm m i) ∧
    m_mem m !! (f + off_mxcsr) = Some w.
Proof.
  intros [Hregs Hrip Hfp Hx Hmx Hrest Hdom] ((Hc0 & Hc & Hc8 & Hmc) & (Hf0 & Hf & Hf16 & Hmf) & Hcf & _ & _) Heq.
  unfold sizeof_ucontext, sizeof_fpstate in *.
  set (at_ a := default 0 (mem' !! a)).
  assert (∀ i, 0 ≤ i < 121 → mem' !! (c + 8 * i) = Some (at_ (c + 8 * i))) as Hctx.
  { intros i Hi. unfold at_. rewrite Heq by lia. by destruct (Hdom _ (Hmc i Hi)) as [? ->]. }
  assert (∀ i, 0 ≤ i < 64 → mem' !! (f + 8 * i) = Some (at_ (f + 8 * i))) as Hfpu.
  { intros i Hi. unfold at_. rewrite Heq by lia. by destruct (Hdom _ (Hmf i Hi)) as [? ->]. }
  destruct (Hmf 3 ltac:(lia)) as [w Hw]. change (8 * 3) with off_mxcsr in Hw.
  exists (λ r, at_ (c + off_reg r)), (at_ (c + greg REG_EFL) mod 2 ^ 32), w,
    (λ i, (at_ (f + PRS_CONTEXT_XMM i), at_ (f + PRS_CONTEXT_XMM i + 8))). split_and!; [| | |done].
  - split; unfold sizeof_ucontext, sizeof_fpstate; try done.
    + intros r. pose proof (off_reg_range r). replace (c + off_reg r) with (c + 8 * (off_reg r / 8)) by aligned. apply Hctx. aligned.
    + by rewrite Heq by (unfold greg, REG_RIP; lia).
    + eexists. split; [|done]. change (greg REG_EFL) with (8 * 22). by apply Hctx.
    + by rewrite Heq by (unfold off_fpregs; lia).
    + exists w. split; [|done]. rewrite Heq by (unfold off_mxcsr; lia). by rewrite Hmx.
    + intros i Hi. apply rd128_ok; [unfold PRS_CONTEXT_XMM; aligned|..].
      * replace (f + PRS_CONTEXT_XMM i) with (f + 8 * (20 + 2 * Z.of_nat i)) by (unfold PRS_CONTEXT_XMM; lia). apply Hfpu. lia.
      * replace (f + PRS_CONTEXT_XMM i + 8) with (f + 8 * (21 + 2 * Z.of_nat i)) by (unfold PRS_CONTEXT_XMM; lia). apply Hfpu. lia.
  - intros r Hr. pose proof (off_reg_range r). unfold at_. rewrite Heq by lia. by rewrite Hregs.
  - intros i Hi. specialize (Hx i Hi). unfold at_. rewrite !Heq by (unfold PRS_CONTEXT_XMM; lia).
    revert Hx. unfold rd128, rd. replace ((f + PRS_CONTEXT_XMM i) mod 16) with 0 by (unfold PRS_CONTEXT_XMM; aligned).
    replace ((f + PRS_CONTEXT_XMM i) mod 8) with 0 by (unfold PRS_CONTEXT_XMM; aligned).
    replace ((f + PRS_CONTEXT_XMM i + 8) mod 8) with 0 by (unfold PRS_CONTEXT_XMM; aligned). cbn [Z.eqb].
    destruct (mem !! (f + PRS_CONTEXT_XMM i)) as [lo|]; [|done].
    destruct (mem !! (f + PRS_CONTEXT_XMM i + 8)) as [hi|]; [|done]. cbn. by injection 1 as <-.
Qed.

(** C18: A switch and the switch back.  A thread that calls [prs_pal_context_swap] with a
    context to save and one to restore becomes the second context: its registers, flags and
    SSE state, at its instruction pointer.  When, later, any thread restores the first
    context, which nobody has written to, it goes on behind the call, with the stack
    pointer and the registers that a function has to preserve, and [xmm8] to [xmm15], as
    they were; memory is untouched but for three words below the stack pointer.  The SSE
    control word is not what it was: it is the one that the context held from before. *)
Theorem context_switch_roundtrip c f o fo regs rip efl mxcsr xmm m fuel :
  let sp := m_regs m RSP in
  let s := regs RSP in
  m_regs m RDI = c → m_regs m RSI = o → ctx_ready c f sp (m_mem m) → 24 ≤ sp → apart c sizeof_ucontext (sp - 24) 24 →
  ctx_holds (m_mem m) o fo regs rip efl mxcsr xmm → position rip = None →
  apart o sizeof_ucontext c sizeof_ucontext → apart o sizeof_ucontext f sizeof_fpstate → apart o sizeof_ucontext (sp - 8) 8 →
  apart fo sizeof_fpstate c sizeof_ucontext → apart fo sizeof_fpstate f sizeof_fpstate → apart fo sizeof_fpstate (sp - 8) 8 →
  s mod 8 = 0 → 24 ≤ s < 2 ^ 64 → mapped (m_mem m) (s - 24) 3 → apart o sizeof_ucontext (s - 24) 24 →
  apart c sizeof_ucontext (s - 24) 24 → apart f sizeof_fpstate (s - 24) 24 →
  ∃ m1, exec (72 + fuel) (label_pos prs_pal_context_swap) m = Ret (Some (rip, m1)) ∧ restored regs efl mxcsr xmm m1 ∧
    (∀ a, is_Some (m_mem m !! a) → is_Some (m_mem m1 !! a)) ∧
    ∀ t fuel', m_regs t RSI = c →
      (∀ a, c ≤ a < c + sizeof_ucontext ∨ f ≤ a < f + sizeof_fpstate → m_mem t !! a = m_mem m1 !! a) →
      mapped (m_mem t) (sp - 24) 3 →
      ∃ m2, exec (49 + fuel') (label_pos prs_pal_context_swap_restore) t =
              Ret (Some (address (label_pos prs_pal_context_swap_return), m2)) ∧
        (∀ r, r ∈ [RSP; RBP; RBX; R12; R13; R14; R15] → m_regs m2 r = m_regs m r) ∧
        (∀ i, (8 ≤ i < 16)%nat → m_xmm m2 i = m_xmm m i) ∧
        (∃ w, m_mem m !! (f + off_mxcsr) = Some w ∧ m_mxcsr m2 = w mod 2 ^ 32) ∧
        ∀ a, ¬ (sp - 24 ≤ a < sp) → m_mem m2 !! a = m_mem t !! a.
Proof.
  intros sp s Hrdi Hrsi Hready Hsp Hcsp Ho Hpos Hoc Hof Hosp Hfoc Hfof Hfosp Hs8 Hs Hms Hos Hcs Hfs.
  destruct (exec_save c f m (length asm_restore + fuel) Hrdi Hready) as (ms & Hsave & Hsaved & _ & _ & Hregs).
  assert (∀ a, is_Some (m_mem m !! a) → is_Some (m_mem ms !! a)) as Hdom by apply (cs_dom _ _ _ _ Hsaved).
  pose proof (cs_rest _ _ _ _ Hsaved) as Hrest. fold sp in Hrest.
  pose proof Hready as (_ & _ & _ & _ & (Hspr & Hsp8 & _) & _ & _). unfold apart, sizeof_ucontext, sizeof_fpstate in *.
  destruct (exec_restore o fo regs rip efl mxcsr xmm ms fuel) as (m1 & Hexec1 & Hrestored & Hmem1); fold s; unfold sizeof_ucontext; try done; try lia.
  { apply (ctx_holds_same (m_mem m)); [done|]. unfold sizeof_ucontext, sizeof_fpstate. intros a Ha. apply Hrest; lia. }
  { by rewrite Hregs. } { intros i Hi. by apply Hdom, Hms. }
  exists m1. split; [|split; [done|split]].
  { change (72 + fuel)%nat with (length asm_save + (length asm_restore + fuel))%nat. rewrite Hsave, Hexec1.
    unfold resume. by rewrite Hpos. }
  { intros a Ha. rewrite Hmem1. unfold below_stack. rewrite !lookup_insert_is_Some'. auto. }
  intros t fuel' Htc Htm Hts.
  destruct (saved_holds c f sp m (m_mem ms) (m_mem t) Hsaved Hready) as (regs2 & efl2 & w & xmm2 & Hholds & Hr2 & Hx2 & Hw).
  { unfold sizeof_ucontext, sizeof_fpstate. intros a Ha. rewrite Htm, Hmem1 by done. unfold below_stack. fold s.
    by rewrite !lookup_insert_ne by lia. }
  assert (regs2 RSP = sp) as Esp by (apply Hr2; by left).
  destruct (exec_restore c f _ _ _ _ _ t (1 + fuel') Hholds Htc) as (m2 & Hexec2 & [Hr Hfl Hmx Hx] & Hmem2);
    rewrite ?Esp; unfold sizeof_ucontext; try done; try lia.
  exists m2. split_and!.
  - change (49 + fuel')%nat with (length asm_restore + (1 + fuel'))%nat. rewrite Hexec2. unfold resume.
    by rewrite (position_address _ swap_return_in_text).
  - intros r Hin. rewrite Hr. apply Hr2. by apply elem_of_cons in Hin.
  - intros i Hi. rewrite Hx by lia. by apply Hx2.
  - by exists w.
  - intros a Ha. rewrite Hmem2. unfold below_stack. rewrite Esp. by rewrite !lookup_insert_ne by lia.
Qed.
End exec.

(** ** A machine *)

#[export] Instance posix_prologue : Prologue 0 := demo_prologue 0.

Lemma posix_text_short : (length text < 1000)%nat.
Proof. vm_compute. lia. Qed.

#[export] Instance demo_layout : TextLayout := demo_layout_of posix_text_short.

(** The context of a thread at 0x10000, and its stack below 0x22000. *)
Definition demo_mem : memory :=
  <[0x10000 + off_fpregs := 0x10000 + off_fpstate]> (<[0x10000 + off_reg RSP := 0x22000]>
    (words 0x10000 186 ∪ words 0x20000 1100)).

Definition demo_regs (r : reg) : Z := if reg_index r =? 15 then 0x22000 else 1005 + reg_index r.

Lemma demo_mapped a : (0x10000 ≤ a < 0x10000 + 8 * 186 ∨ 0x20000 ≤ a < 0x20000 + 8 * 1100) → a mod 8 = 0 → is_Some (demo_mem !! a).
Proof.
  intros Ha H8. unfold demo_mem. apply lookup_insert_is_Some'. right. apply lookup_insert_is_Some'. right.
  apply lookup_union_is_Some. destruct Ha as [Ha|Ha]; [left|right].
  - replace a with (0x10000 + 8 * ((a - 0x10000) / 8)) by aligned. eexists. apply words_lookup. aligned.
  - replace a with (0x20000 + 8 * ((a - 0x20000) / 8)) by aligned. eexists. apply words_lookup. aligned.
Qed.

Lemma demo_holds :
  ctx_holds demo_mem 0x10000 (0x10000 + off_fpstate) demo_regs 1021 1022 1125
    (λ i, (1142 + 2 * Z.of_nat i, 1143 + 2 * Z.of_nat i)).
Proof.
  split; unfold sizeof_ucontext, sizeof_fpstate, off_fpstate.
  - split_and!; by vm_compute.
  - split_and!; by vm_compute.
  - intros r. destruct r; vm_compute; reflexivity.
  - vm_compute. reflexivity.
  - exists 1022. split; vm_compute; reflexivity.
  - vm_compute. reflexivity.
  - exists 1125. split; vm_compute; reflexivity.
  - intros i Hi. do 16 (destruct i as [|i]; [vm_compute; reflexivity|]). lia.
Qed.

(** A call with nine arguments, of a function that changes every register it may. *)
Lemma context_call_roundtrip_witness :
  ∃ mem' s1 b m', prs_pal_context_add 0x10000 0x500000 [1; 2; 3; 4; 5; 6; 7; 8; 9] demo_mem = Ret mem' ∧ s1 mod 16 = 8 ∧
    exec (54 + 0) (label_pos _prs_pal_context_return_trampoline)
      (Machine (upd_reg RBP b (upd_reg RSP (s1 + 8) (λ _, 77))) 5 (λ _, (1, 2)) 3 mem') = Ret (Some (1021, m')) ∧
    m_regs m' RSP = 0x22000 ∧ m_regs m' RAX = 1018.
Proof.
  destruct (context_call_roundtrip demo_mem 0x10000 (0x10000 + off_fpstate) 0x500000 [1; 2; 3; 4; 5; 6; 7; 8; 9]
    demo_regs 1021 1022 1125 (λ i, (1142 + 2 * Z.of_nat i, 1143 + 2 * Z.of_nat i)))
    as (mem' & s1 & b & Hadd & Hp & Hret).
  - apply demo_holds.
  - done.
  - done.
  - done.
  - done.
  - cbn. lia.
  - intros a Ha. apply demo_mapped. cbn in Ha. lia.
  - intros i Hi. apply demo_mapped; [lia|aligned].
  - intros i Hi. apply demo_mapped; unfold off_fpstate; [lia|aligned].
  - left. cbn. unfold sizeof_ucontext. lia.
  - left. cbn. unfold sizeof_fpstate, off_fpstate. lia.
  - right. unfold sizeof_ucontext, off_fpstate. lia.
  - destruct (Hret (Machine (upd_reg RBP b (upd_reg RSP (s1 + 8) (λ _, 77))) 5 (λ _, (1, 2)) 3 mem') 0%nat)
      as (m' & Hexec & [Hr _ _ _] & _); [done|done|done|cbn [m_mem]; rewrite (cp_return _ _ _ _ _ _ _ _ _ _ _ _ _ Hp); by eexists|].
    exists mem', s1, b, m'. split; [exact Hadd|]. split; [apply (cp_aligned _ _ _ _ _ _ _ _ _ _ _ _ _ Hp)|].
    split; [exact Hexec|]. rewrite !Hr. split; reflexivity.
Defined.

(** Two threads that switch: the first one, at 0x22000 on its stack, saves itself in the
    context at 0x10000 and restores the one at 0x40000; the second one comes back. *)
Definition switch_mem : memory :=
  <[0x40000 + off_fpregs := 0x40000 + off_fpstate]> (<[0x40000 + off_reg RSP := 0x20800]>
    (demo_mem ∪ words 0x40000 186)).

Definition switch_regs (r : reg) : Z := if reg_index r =? 15 then 0x20800 else 1005 + reg_index r.

Definition switch_thread : machine :=
  Machine (upd_reg RDI 0x10000 (upd_reg RSI 0x40000 (upd_reg RSP 0x22000 reg_index))) 2 (λ i, (Z.of_nat i, 1)) 0x9F80 switch_mem.

Lemma switch_mapped a :
  (0x10000 ≤ a < 0x10000 + 8 * 186 ∨ 0x20000 ≤ a < 0x20000 + 8 * 1100) → a mod 8 = 0 → is_Some (switch_mem !! a).
Proof.
  intros Ha H8. unfold switch_mem. apply lookup_insert_is_Some'. right. apply lookup_insert_is_Some'. right.
  apply lookup_union_is_Some. left. by apply demo_mapped.
Qed.

Lemma switch_holds :
  ctx_holds switch_mem 0x40000 (0x40000 + off_fpstate) switch_regs 1021 1022 1125
    (λ i, (1142 + 2 * Z.of_nat i, 1143 + 2 * Z.of_nat i)).
Proof.
  split; unfold sizeof_ucontext, sizeof_fpstate, off_fpstate.
  - split_and!; by vm_compute.
  - split_and!; by vm_compute.
  - intros r. destruct r; vm_compute; reflexivity.
  - vm_compute. reflexivity.
  - exists 1022. split; vm_compute; reflexivity.
  - vm_compute. reflexivity.
  - exists 1125. split; vm_compute; reflexivity.
  - intros i Hi. do 16 (destruct i as [|i]; [vm_compute; reflexivity|]). lia.
Qed.

Lemma switch_ready : ctx_ready 0x10000 (0x10000 + off_fpstate) 0x22000 switch_mem.
Proof.
  unfold ctx_ready. split; [|split; [|split; [|split; [|split; [|split]]]]].
  - split_and!; [by vm_compute..|]. intros i Hi. apply switch_mapped; [lia|aligned].
  - split_and!; [by vm_compute..|]. intros i Hi. apply switch_mapped; unfold off_fpstate; [lia|aligned].
  - right. by vm_compute.
  - vm_compute. reflexivity.
  - split_and!; [by vm_compute..|]. by apply switch_mapped; [lia|].
  - left. by vm_compute.
  - left. by vm_compute.
Qed.

Lemma context_switch_roundtrip_witness :
  ∃ m1 m2, exec (72 + 0) (label_pos prs_pal_context_swap) switch_thread = Ret (Some (1021, m1)) ∧ m_regs m1 RSP = 0x20800 ∧
    exec (49 + 0) (label_pos prs_pal_context_swap_restore) (set_reg RSI 0x10000 m1) =
      Ret (Some (address (label_pos prs_pal_context_swap_return), m2)) ∧
    m_regs m2 RSP = 0x22000 ∧ m_regs m2 R12 = 4 ∧ m_mxcsr m2 = 1125.
Proof.
  destruct (context_switch_roundtrip 0x10000 (0x10000 + off_fpstate) 0x40000 (0x40000 + off_fpstate) switch_regs 1021 1022 1125
    (λ i, (1142 + 2 * Z.of_nat i, 1143 + 2 * Z.of_nat i)) switch_thread 0%nat) as (m1 & Hexec & [Hr _ _ _] & Hdom & Hback).
  1: reflexivity. 1: reflexivity. 1: exact switch_ready. 1: done. 2: exact switch_holds. 2: done.
  all: change (m_regs switch_thread RSP) with 0x22000; change (switch_regs RSP) with 0x20800.
  all: try lazymatch goal with
    | |- apart _ _ _ _ => unfold apart, sizeof_ucontext, sizeof_fpstate, off_fpstate; lia
    | |- mapped _ _ _ => fail
    | |- _ = _ => reflexivity
    | |- _ => lia
    end.
  1: { intros i Hi. apply switch_mapped; [lia|aligned]. }
  - destruct (Hback (set_reg RSI 0x10000 m1) 0%nat) as (m2 & Hexec2 & Hregs & _ & (w & Hw & Hmx) & _); [done|done| |].
    + intros i Hi. apply Hdom, switch_mapped; change (m_regs switch_thread RSP) with 0x22000; [lia|aligned].
    + exists m1, m2. split; [exact Hexec|]. split; [by rewrite Hr|]. split; [exact Hexec2|].
      split; [rewrite Hregs by (by left); reflexivity|]. split; [rewrite Hregs by (do 3 right; by left); reflexivity|].
      rewrite Hmx. vm_compute in Hw. injection Hw as <-. reflexivity.
Defined.

