(* ===== verification/Elf.v ===== *)
(** * The loader of programs (prs/pal/linux/proc.c)

    A program is a shared object in the ELF64 format: the loader maps the file, reserves
    one range of memory for the loadable segments, copies them there, loads the libraries
    the program needs, and puts the addresses of the symbols it imports into its tables.

    The file is a list of bytes behind a mapping of whole pages: a read behind its end
    gives zero up to the end of the last page, and is undefined after it.  The loader
    checks no offset, so what a damaged file does shows as undefined behaviour. *)

From S2P Require Import Prelude Heap Bitops Str Stack.

(** ** The system

    What the system answers to the loader: the descriptor of the file, the mapping of the
    file (an address, null or [MAP_FAILED]), and what the dynamic linker knows. *)
Class LoaderSystem : Type := {
  page_size : Z;
  huge_page_size : Z;
  open_file : Z;
  fstat_error : bool;
  file : list Z;
  map_file : Z;
  dlopen : list Z → bool;
  dlsym : list Z → Z
}.

(** [struct prs_pal_proc] *)
Record prs_pal_proc : Type := PrsPalProc { pp_size : Z; pp_data : Z; pp_entry : Z }.

(** The process as far as the loader changes it: the heap and the records on it, the
    mappings and the bytes in them, the open descriptors, the mappings of files, the
    libraries that were loaded, and the number of warnings in the log. *)
Record space : Type := Space {
  sp_heap : heap;
  sp_procs : gmap loc prs_pal_proc;
  sp_vm : vm;
  sp_bytes : Z → Z;
  sp_fds : list Z;
  sp_files : list Z;
  sp_libs : list (list Z);
  sp_traces : nat
}.

Definition with_heap (h : heap) (s : space) : space :=
  Space h (sp_procs s) (sp_vm s) (sp_bytes s) (sp_fds s) (sp_files s) (sp_libs s) (sp_traces s).
Definition with_procs (p : gmap loc prs_pal_proc) (s : space) : space :=
  Space (sp_heap s) p (sp_vm s) (sp_bytes s) (sp_fds s) (sp_files s) (sp_libs s) (sp_traces s).
Definition with_vm (m : vm) (s : space) : space :=
  Space (sp_heap s) (sp_procs s) m (sp_bytes s) (sp_fds s) (sp_files s) (sp_libs s) (sp_traces s).
Definition with_bytes (b : Z → Z) (s : space) : space :=
  Space (sp_heap s) (sp_procs s) (sp_vm s) b (sp_fds s) (sp_files s) (sp_libs s) (sp_traces s).
Definition with_fds (l : list Z) (s : space) : space :=
  Space (sp_heap s) (sp_procs s) (sp_vm s) (sp_bytes s) l (sp_files s) (sp_libs s) (sp_traces s).
Definition with_files (l : list Z) (s : space) : space :=
  Space (sp_heap s) (sp_procs s) (sp_vm s) (sp_bytes s) (sp_fds s) l (sp_libs s) (sp_traces s).
Definition with_libs (l : list (list Z)) (s : space) : space :=
  Space (sp_heap s) (sp_procs s) (sp_vm s) (sp_bytes s) (sp_fds s) (sp_files s) l (sp_traces s).

(** [PRS_FTRACE] *)
Definition ftrace (s : space) : space :=
  Space (sp_heap s) (sp_procs s) (sp_vm s) (sp_bytes s) (sp_fds s) (sp_files s) (sp_libs s) (S (sp_traces s)).

(** A store to a byte: its page is mapped, and may be written. *)
Definition writable (m : vm) (a : Z) : bool :=
  Stack.mapped m a && truthy (Z.land (prot_at (vm_prots m) a) PROT_WRITE).
Definition poke (a v : Z) (s : space) : outcome space :=
  if writable (sp_vm s) a then Ret (with_bytes (λ b, if b =? a then v else sp_bytes s b) s) else Undef.

(** [memset(dst, 0, n)], and a store of [n] bytes in little-endian order. *)
Fixpoint memset_zero (n : nat) (dst : Z) (s : space) : outcome space :=
  match n with
  | O => Ret s
  | S n => s ← poke (u64 dst) 0 s; memset_zero n (dst + 1) s
  end.
Fixpoint poke_le (n : nat) (dst v : Z) (s : space) : outcome space :=
  match n with
  | O => Ret s
  | S n => s ← poke (u64 dst) (v mod 256) s; poke_le n (dst + 1) (v / 256) s
  end.

Section loader.
Context `{!LoaderSystem}.

(** ** Reading the file *)

(** The end of the mapping of the file. *)
Definition file_end : Z := (Z.of_nat (length file) + page_size - 1) / page_size * page_size.

(** A byte at an offset from the mapping of the file. *)
Definition peek (offset : Z) : outcome Z :=
  let offset := u64 offset in
  if map_file =? MAP_FAILED then Undef
  else if offset <? Z.of_nat (length file) then deref (file !! Z.to_nat offset)
  else if offset <? file_end then Ret 0 else Undef.

(** A number of [n] bytes. *)
Fixpoint peek_le (n : nat) (offset : Z) : outcome Z :=
  match n with
  | O => Ret 0
  | S n => b ← peek offset; r ← peek_le n (offset + 1); Ret (b + 256 * r)
  end.

(** A string; there are no more bytes than the mapping has. *)
Fixpoint peek_string_from (fuel : nat) (offset : Z) : outcome (list Z) :=
  match fuel with
  | O => Undef
  | S fuel => b ← peek offset; if b =? 0 then Ret [] else s ← peek_string_from fuel (offset + 1); Ret (b :: s)
  end.
Definition peek_string (offset : Z) : outcome (list Z) := peek_string_from (Z.to_nat file_end) offset.

(** *** The structures of elf.h, by their offsets *)

Definition e_ident (i : Z) : outcome Z := peek i.
Definition e_entry : outcome Z := peek_le 8 24.
Definition e_phoff : outcome Z := peek_le 8 32.
Definition e_shoff : outcome Z := peek_le 8 40.
Definition e_phnum : outcome Z := peek_le 2 56.
Definition e_shnum : outcome Z := peek_le 2 60.

Definition sizeof_phdr : Z := 56.
Definition p_type (phdr : Z) : outcome Z := peek_le 4 phdr.
Definition p_flags (phdr : Z) : outcome Z := peek_le 4 (phdr + 4).
Definition p_offset (phdr : Z) : outcome Z := peek_le 8 (phdr + 8).
Definition p_vaddr (phdr : Z) : outcome Z := peek_le 8 (phdr + 16).
Definition p_filesz (phdr : Z) : outcome Z := peek_le 8 (phdr + 32).
Definition p_memsz (phdr : Z) : outcome Z := peek_le 8 (phdr + 40).

Definition sizeof_shdr : Z := 64.
Definition sh_type (shdr : Z) : outcome Z := peek_le 4 (shdr + 4).
Definition sh_offset (shdr : Z) : outcome Z := peek_le 8 (shdr + 24).
Definition sh_size (shdr : Z) : outcome Z := peek_le 8 (shdr + 32).
Definition sh_link (shdr : Z) : outcome Z := peek_le 4 (shdr + 40).

Definition PT_LOAD : Z := 1.
Definition PF_X : Z := 1.
Definition PF_W : Z := 2.
Definition PF_R : Z := 4.
Definition SHT_RELA : Z := 4.
Definition SHT_DYNAMIC : Z := 6.
Definition SHT_REL : Z := 9.
Definition SHT_DYNSYM : Z := 11.
Definition DT_NEEDED : Z := 1.
Definition sizeof_dyn : Z := 16.
Definition sizeof_sym : Z := 24.
Definition sizeof_rel : Z := 16.
Definition sizeof_rela : Z := 24.

(** The checks of the identification, in their order. *)
Fixpoint ident_matches (checks : list (Z * list Z)) : outcome bool :=
  match checks with
  | [] => Ret true
  | (i, values) :: checks => b ← e_ident i; if bool_decide (b ∈ values) then ident_matches checks else Ret false
  end.
Definition ELF_IDENT : list (Z * list Z) :=
  [(0, [0x7f]); (1, [0x45]); (2, [0x4c]); (3, [0x46]);
   (* EI_CLASS, EI_DATA, EI_VERSION, EI_OSABI *)
   (4, [2]); (5, [1]); (6, [1]); (7, [0; 3])].

(** ** Memory *)

Definition prs_pal_proc_elf_offset (base offset : Z) : Z := u64 (base + offset).

(** [memcpy] of [n] bytes of the file. *)
Fixpoint memcpy_file (n : nat) (dst offset : Z) (s : space) : outcome space :=
  match n with
  | O => Ret s
  | S n => b ← peek offset; s ← poke (u64 dst) b s; memcpy_file n (dst + 1) (offset + 1) s
  end.

(** Anonymous memory is zero. *)
Definition mem_map (size flags : Z) (s : space) : Z * space :=
  let (data, m) := prs_pal_mem_map huge_page_size size flags (sp_vm s) in
  (data, with_vm m (with_bytes (λ a, if (data <=? a) && (a <? data + size) then 0 else sp_bytes s a) s)).

Definition mem_protect (addr size flags : Z) (s : space) : space :=
  with_vm (prs_pal_mem_protect page_size addr size flags (sp_vm s)) s.

(** ** Loading *)

(** The start of the first loadable segment, and the size of the range from there to the
    end of the last one. *)
Fixpoint load_extent (n : nat) (phdr : Z) (vstart : option Z) (size : Z) : outcome (option Z * Z) :=
  match n with
  | O => Ret (vstart, size)
  | S n =>
      type ← p_type phdr;
      if negb (type =? PT_LOAD) then load_extent n (phdr + sizeof_phdr) vstart size
      else
        vaddr ← p_vaddr phdr;
        let start := default vaddr vstart in
        memsz ← p_memsz phdr;
        load_extent n (phdr + sizeof_phdr) (Some start) (u64 (vaddr - start + memsz))
  end.

Definition segment_flags (flags : Z) : Z :=
  let result := 0 in
  let result := if truthy (Z.land flags PF_R) then Z.lor result PRS_PAL_MEM_FLAG_READ else result in
  let result := if truthy (Z.land flags PF_W) then Z.lor result PRS_PAL_MEM_FLAG_WRITE else result in
  if truthy (Z.land flags PF_X) then Z.lor result PRS_PAL_MEM_FLAG_EXECUTE else result.

(** One segment is copied and cleared, with its pages writable meanwhile. *)
Definition load_segment (vbase phdr : Z) (s : space) : outcome space :=
  vaddr ← p_vaddr phdr;
  let pbase := prs_pal_proc_elf_offset vbase vaddr in
  memsz ← p_memsz phdr;
  let unaligned_bytes := pbase mod page_size in
  let psize := if truthy unaligned_bytes then u64 (memsz + unaligned_bytes) else memsz in
  let aligned_pbase := if truthy unaligned_bytes then pbase - unaligned_bytes else pbase in
  let s := mem_protect aligned_pbase psize PRS_PAL_MEM_FLAG_WRITE s in
  filesz ← p_filesz phdr;
  _ ← fatal_when (memsz <? filesz);
  offset ← p_offset phdr;
  s ← memcpy_file (Z.to_nat filesz) pbase offset s;
  s ← memset_zero (Z.to_nat (memsz - filesz)) (prs_pal_proc_elf_offset pbase filesz) s;
  flags ← p_flags phdr;
  Ret (mem_protect aligned_pbase psize (segment_flags flags) s).

Fixpoint load_segments (n : nat) (vbase phdr : Z) (s : space) : outcome space :=
  match n with
  | O => Ret s
  | S n =>
      type ← p_type phdr;
      s ← (if negb (type =? PT_LOAD) then Ret s else load_segment vbase phdr s);
      load_segments n vbase (phdr + sizeof_phdr) s
  end.

(** The symbols and their names: offsets of the first section of dynamic symbols and of the
    strings it is linked to. *)
Fixpoint find_dynsym (n : nat) (shdr_base shdr : Z) : outcome (option (Z * Z)) :=
  match n with
  | O => Ret None
  | S n =>
      type ← sh_type shdr;
      if type =? SHT_DYNSYM then
        sym_base ← sh_offset shdr;
        link ← sh_link shdr;
        sym_string_base ← sh_offset (shdr_base + sizeof_shdr * link);
        Ret (Some (sym_base, sym_string_base))
      else find_dynsym n shdr_base (shdr + sizeof_shdr)
  end.

(** The libraries that a dynamic section names. *)
Fixpoint load_needed (n : nat) (dyn strings : Z) (libprs : list Z) (s : space) : outcome space :=
  match n with
  | O => Ret s
  | S n =>
      tag ← peek_le 8 dyn;
      s ← (if tag =? DT_NEEDED then
             val ← peek_le 8 (dyn + 8);
             name ← peek_string (strings + val);
             Ret (if bool_decide (name = libprs) then s
                  else if dlopen name then with_libs (sp_libs s ++ [name]) s else ftrace s)
           else Ret s);
      load_needed n (dyn + sizeof_dyn) strings libprs s
  end.

(** ["libprs.so"] *)
Definition LIBPRS : list Z := [108; 105; 98; 112; 114; 115; 46; 115; 111].

(** A number of entries, as an [int]. *)
Definition entry_count (size entry_size : Z) : nat := Z.to_nat (i32 (size / entry_size)).

Fixpoint load_libraries (n : nat) (shdr strings : Z) (s : space) : outcome space :=
  match n with
  | O => Ret s
  | S n =>
      type ← sh_type shdr;
      s ← (if type =? SHT_DYNAMIC then
             dyn ← sh_offset shdr;
             size ← sh_size shdr;
             load_needed (entry_count size sizeof_dyn) dyn strings LIBPRS s
           else Ret s);
      load_libraries n (shdr + sizeof_shdr) strings s
  end.

(** ** Relocation *)

(** One relocation; those of other types are passed over. *)
Definition relocate_entry (vbase rela symbols strings : Z) (s : space) : outcome space :=
  info ← peek_le 8 (rela + 8);
  let sym_table_index := info / 2 ^ 32 in
  let rel_type := info mod 2 ^ 32 in
  name_offset ← peek_le 4 (symbols + sizeof_sym * sym_table_index);
  let symbol_name := strings + name_offset in
  if (rel_type =? 6) || (rel_type =? 7) then
    name ← peek_string symbol_name;
    let symbol_addr := dlsym name in
    if truthy symbol_addr then
      offset ← peek_le 8 rela;
      poke_le 8 (prs_pal_proc_elf_offset vbase offset) symbol_addr s
    else Ret (ftrace s)
  else Ret s.

Fixpoint relocate_table (n : nat) (vbase rela size symbols strings : Z) (s : space) : outcome space :=
  match n with
  | O => Ret s
  | S n => s ← relocate_entry vbase rela symbols strings s; relocate_table n vbase (rela + size) size symbols strings s
  end.

Fixpoint relocate_sections (n : nat) (vbase shdr symbols strings : Z) (s : space) : outcome space :=
  match n with
  | O => Ret s
  | S n =>
      type ← sh_type shdr;
      s ← (if (type =? SHT_REL) || (type =? SHT_RELA) then
             let entry_size := if type =? SHT_REL then sizeof_rel else sizeof_rela in
             rela ← sh_offset shdr;
             size ← sh_size shdr;
             relocate_table (entry_count size entry_size) vbase rela entry_size symbols strings s
           else Ret s);
      relocate_sections n vbase (shdr + sizeof_shdr) symbols strings s
  end.

(** ** The functions of the interface *)

(** [cleanup]: the descriptor and the mapping of the file are left. *)
Definition load_cleanup (proc : loc) (data size : Z) (s : space) : outcome (ptr * space) :=
  let s := if truthy data then with_vm (munmap page_size data size (sp_vm s)).2 s else s in
  h ← prs_pal_free (Some proc) (sp_heap s);
  Ret (None, with_procs (delete proc (sp_procs s)) (with_heap h s)).

(** What follows when the memory for the segments is there. *)
Definition load_image (proc : loc) (data size vstart : Z) (s : space) : outcome (ptr * space) :=
  let vbase := prs_pal_proc_elf_offset data (- vstart) in
  phnum ← e_phnum;
  phoff ← e_phoff;
  s ← load_segments (Z.to_nat phnum) vbase phoff s;
  shoff ← e_shoff;
  shnum ← e_shnum;
  dynsym ← find_dynsym (Z.to_nat shnum) shoff shoff;
  let found := match dynsym with
               | Some (symbols, strings) =>
                   if truthy (u64 (map_file + symbols)) && truthy (u64 (map_file + strings)) then dynsym else None
               | None => None
               end in
  match found with
  | None => load_cleanup proc data size (ftrace s)
  | Some (symbols, strings) =>
      s ← load_libraries (Z.to_nat shnum) shoff strings s;
      s ← relocate_sections (Z.to_nat shnum) vbase shoff symbols strings s;
      entry ← e_entry;
      Ret (Some proc, with_procs (<[proc := PrsPalProc size data (prs_pal_proc_elf_offset vbase entry)]> (sp_procs s)) s)
  end.

Definition prs_pal_proc_load (s : space) : outcome (ptr * space) :=
  let (p, h) := prs_pal_malloc_zero (sp_heap s) in
  let s := with_heap h s in
  match p with
  | None => Ret (None, s)
  | Some proc =>
      let s := with_procs (<[proc := PrsPalProc 0 0 0]> (sp_procs s)) s in
      if open_file <? 0 then load_cleanup proc 0 0 s
      else
        let s := with_fds (open_file :: sp_fds s) s in
        if fstat_error then load_cleanup proc 0 0 s
        else if map_file =? 0 then load_cleanup proc 0 0 s
        else
          let s := if map_file =? MAP_FAILED then s else with_files (map_file :: sp_files s) s in
          ok ← ident_matches ELF_IDENT;
          if negb (ok : bool) then load_cleanup proc 0 0 (ftrace s)
          else
            phoff ← e_phoff;
            phnum ← e_phnum;
            '(vstart, size) ← load_extent (Z.to_nat phnum) phoff None 0;
            match vstart with
            | None => load_cleanup proc 0 size (ftrace s)
            | Some vstart =>
                let size := prs_bitops_align_size size page_size in
                let (data, s) := mem_map size PRS_PAL_MEM_FLAG_COMMIT s in
                if data =? 0 then load_cleanup proc 0 size (ftrace s)
                else load_image proc data size vstart s
            end
  end.

Definition prs_pal_proc_destroy (pal_proc : loc) (s : space) : outcome space :=
  proc ← deref (sp_procs s !! pal_proc);
  let s := with_vm (prs_pal_mem_unmap page_size (pp_data proc) (pp_size proc) (sp_vm s)) s in
  h ← prs_pal_free (Some pal_proc) (sp_heap s);
  Ret (with_procs (delete pal_proc (sp_procs s)) (with_heap h s)).

Definition prs_pal_proc_get_entry_point (pal_proc : loc) (s : space) : outcome Z :=
  proc ← deref (sp_procs s !! pal_proc); Ret (pp_entry proc).
Definition prs_pal_proc_get_base (pal_proc : loc) (s : space) : outcome Z :=
  proc ← deref (sp_procs s !! pal_proc); Ret (pp_data proc).
Definition prs_pal_proc_get_size (pal_proc : loc) (s : space) : outcome Z :=
  proc ← deref (sp_procs s !! pal_proc); Ret (pp_size proc).
End loader.

(** ** The main program *)

(** What the dynamic linker tells of the objects it has loaded. *)
Record dl_phdr : Type := DlPhdr { dp_type : Z; dp_vaddr : Z; dp_memsz : Z }.
Record dl_phdr_info : Type := DlPhdrInfo { dlpi_addr : Z; dlpi_phdr : list dl_phdr }.

(** The segment that holds the function at [addr]. *)
Fixpoint find_segment (addr dlpi_addr : Z) (phdrs : list dl_phdr) : option (Z * Z) :=
  match phdrs with
  | [] => None
  | phdr :: phdrs =>
      let base := u64 (dlpi_addr + dp_vaddr phdr) in
      if (dp_type phdr =? PT_LOAD) && ((base <=? addr) && (addr <? u64 (base + dp_memsz phdr)))
      then Some (base, dp_memsz phdr)
      else find_segment addr dlpi_addr phdrs
  end.

(** The result of the callback, and the record it fills. *)
Definition prs_pal_proc_find_base_address (addr : Z) (info : dl_phdr_info) (proc : prs_pal_proc) : Z * prs_pal_proc :=
  match find_segment addr (dlpi_addr info) (dlpi_phdr info) with
  | Some (data, size) => (1, PrsPalProc size data (pp_entry proc))
  | None => (0, proc)
  end.

(** [dl_iterate_phdr] calls back for each object, until the answer is not zero. *)
Fixpoint dl_iterate_phdr (addr : Z) (objects : list dl_phdr_info) (proc : prs_pal_proc) : Z * prs_pal_proc :=
  match objects with
  | [] => (0, proc)
  | info :: objects =>
      let (found, proc) := prs_pal_proc_find_base_address addr info proc in
      if truthy found then (found, proc) else dl_iterate_phdr addr objects proc
  end.

(** The arguments in [/proc/self/cmdline] end with null bytes, which become spaces. *)
Fixpoint read_cmdline (n : nat) (i : Z) (stream cmdline : list Z) : outcome (list Z) :=
  match n with
  | O => Ret cmdline
  | S n =>
      match stream with
      | [] => store cmdline i 0
      | c :: stream => cmdline ← store cmdline i (if c =? 0 then 32 else c); read_cmdline n (i + 1) stream cmdline
      end
  end.

Definition PRS_MAX_PATH : Z := 256.
Definition PRS_MAX_CMDLINE : Z := 256.

(** [stream]: what the file holds, if it could be opened; [addr]: the function's own
    address.  The record is used without looking whether there was memory for it. *)
Definition prs_pal_proc_create_main (progname : list Z) (stream : option (list Z)) (addr : Z)
    (objects : list dl_phdr_info) (filename cmdline : list Z) (s : space) :
    outcome (ptr * list Z * list Z * space) :=
  let (proc, h) := prs_pal_malloc_zero (sp_heap s) in
  let s := with_heap h s in
  '(filename, _) ← prs_str_copy filename progname PRS_MAX_PATH;
  stream ← deref stream;
  cmdline ← read_cmdline (Z.to_nat (PRS_MAX_CMDLINE - 1)) 0 stream cmdline;
  cmdline ← store cmdline (PRS_MAX_CMDLINE - 1) 0;
  let (found, record) := dl_iterate_phdr addr objects (PrsPalProc 0 0 0) in
  _ ← fatal_when (negb (truthy found));
  p ← deref proc;
  Ret (proc, filename, cmdline, with_procs (<[p := record]> (sp_procs s)) s).

(** What the command line becomes: the bytes, with spaces for nulls, cut at the end of the
    buffer. *)
Definition cmdline_text (stream : list Z) : list Z :=
  take (Z.to_nat (PRS_MAX_CMDLINE - 1)) ((λ c, if c =? 0 then 32 else c) <$> stream).

Lemma read_cmdline_exact stream : ∀ n cmdline done_,
  (length done_ + n < length cmdline)%nat → take (length done_) cmdline = done_ →
  ∃ cmdline', read_cmdline n (Z.of_nat (length done_)) stream cmdline = Ret cmdline' ∧ length cmdline' = length cmdline ∧
    let text := done_ ++ take n ((λ c, if c =? 0 then 32 else c) <$> stream) in
    take (length text) cmdline' = text ∧
    ((length stream < n)%nat → cmdline' !! length text = Some 0).
Proof.
  induction stream as [|c stream IH]; intros n cmdline done_ Hn Hd.
  - cbn [fmap list_fmap]. rewrite take_nil, app_nil_r. destruct n as [|n]; cbn [read_cmdline].
    + exists cmdline. split_and!; try done. cbn. lia.
    + rewrite store_in by lia. rewrite Nat2Z.id. eexists. split; [done|]. rewrite length_insert. split; [done|]. cbn zeta. split.
      * by rewrite take_insert_ge by lia.
      * intros _. apply list_lookup_insert_eq. lia.
  - destruct n as [|n]; cbn [read_cmdline].
    + exists cmdline. rewrite take_0, app_nil_r. split_and!; try done. cbn. lia.
    + rewrite store_in by lia. rewrite Nat2Z.id. ocbn. set (x := if c =? 0 then 32 else c).
      destruct (IH n (<[length done_ := x]> cmdline) (done_ ++ [x])) as (cmdline' & Hrun & Hlen & Ht & Hz).
      * rewrite length_app, length_insert. cbn. lia.
      * rewrite length_app. cbn. rewrite Nat.add_1_r.
        erewrite take_S_r by (apply list_lookup_insert_eq; lia). by rewrite take_insert_ge, Hd by lia.
      * exists cmdline'. rewrite length_insert in Hlen. rewrite length_app in Hrun. cbn in Hrun.
        replace (Z.of_nat (length done_) + 1) with (Z.of_nat (length done_ + 1)) by lia. split; [done|]. split; [done|].
        rewrite <- app_assoc in Ht, Hz. cbn in Ht, Hz |- *. fold x. split; [done|]. intros Hl. apply Hz. lia.
Qed.

(** The command line of the main program is a string that fits in its buffer: the words of
    the command with spaces between and after them. *)
Lemma main_cmdline_exact stream cmdline :
  length cmdline = Z.to_nat PRS_MAX_CMDLINE →
  ∃ cmdline', (c ← read_cmdline (Z.to_nat (PRS_MAX_CMDLINE - 1)) 0 stream cmdline; store c (PRS_MAX_CMDLINE - 1) 0) = Ret cmdline' ∧
    take (length (cmdline_text stream)) cmdline' = cmdline_text stream ∧
    cmdline' !! length (cmdline_text stream) = Some 0 ∧ length cmdline' = Z.to_nat PRS_MAX_CMDLINE.
Proof.
  intros Hl. destruct (read_cmdline_exact stream (Z.to_nat (PRS_MAX_CMDLINE - 1)) cmdline []) as (c & Hrun & Hlen & Ht & Hz).
  { rewrite Hl. unfold PRS_MAX_CMDLINE. cbn [length]. lia. } { done. }
  cbn [length app] in *. change (Z.of_nat 0) with 0 in Hrun. rewrite Hrun. ocbn. fold (cmdline_text stream) in Ht, Hz.
  assert (length (cmdline_text stream) ≤ 255)%nat as Hle by (unfold cmdline_text; rewrite length_take; unfold PRS_MAX_CMDLINE; lia).
  rewrite store_in by (rewrite Hlen, Hl; unfold PRS_MAX_CMDLINE; lia).
  eexists. split; [done|]. rewrite length_insert. split_and!.
  - by rewrite take_insert_ge by (unfold PRS_MAX_CMDLINE; lia).
  - destruct (decide (length (cmdline_text stream) = 255%nat)) as [He|He].
    + rewrite He. apply list_lookup_insert_eq. rewrite Hlen, Hl. unfold PRS_MAX_CMDLINE. lia.
    + rewrite list_lookup_insert_ne by (unfold PRS_MAX_CMDLINE; lia). apply Hz.
      revert He Hle. unfold cmdline_text. rewrite length_take, length_fmap. unfold PRS_MAX_CMDLINE. lia.
  - congruence.
Qed.

(** ** What a file says

    The contract of the loader: the program that a file describes, read off the file, and
    the memory that it asks for. *)

Record segment : Type := Segment {
  sg_vaddr : Z;
  sg_memsz : Z;
  sg_filesz : Z;
  sg_offset : Z;
  sg_flags : Z
}.

(** A slot, by its virtual address, and the address of the symbol it is for. *)
Record reloc : Type := Reloc { rl_slot : Z; rl_addr : Z }.

(** Symbols that are not found are [None] among the relocations. *)
Record program : Type := Program {
  pg_segments : list segment;
  pg_needed : list (list Z);
  pg_relocs : list (option reloc);
  pg_entry : Z
}.

Section contract.
Context `{!LoaderSystem}.

Definition read_segment (phdr : Z) : outcome segment :=
  vaddr ← p_vaddr phdr;
  memsz ← p_memsz phdr;
  filesz ← p_filesz phdr;
  offset ← p_offset phdr;
  flags ← p_flags phdr;
  Ret (Segment vaddr memsz filesz offset flags).

Fixpoint read_segments (n : nat) (phdr : Z) : outcome (list segment) :=
  match n with
  | O => Ret []
  | S n =>
      type ← p_type phdr;
      if negb (type =? PT_LOAD) then read_segments n (phdr + sizeof_phdr)
      else g ← read_segment phdr; gs ← read_segments n (phdr + sizeof_phdr); Ret (g :: gs)
  end.

Fixpoint read_needed (n : nat) (dyn strings : Z) : outcome (list (list Z)) :=
  match n with
  | O => Ret []
  | S n =>
      tag ← peek_le 8 dyn;
      if tag =? DT_NEEDED then
        val ← peek_le 8 (dyn + 8);
        name ← peek_string (strings + val);
        names ← read_needed n (dyn + sizeof_dyn) strings;
        Ret (name :: names)
      else read_needed n (dyn + sizeof_dyn) strings
  end.

Fixpoint read_libraries (n : nat) (shdr strings : Z) : outcome (list (list Z)) :=
  match n with
  | O => Ret []
  | S n =>
      type ← sh_type shdr;
      if type =? SHT_DYNAMIC then
        dyn ← sh_offset shdr;
        size ← sh_size shdr;
        names ← read_needed (entry_count size sizeof_dyn) dyn strings;
        rest ← read_libraries n (shdr + sizeof_shdr) strings;
        Ret (names ++ rest)
      else read_libraries n (shdr + sizeof_shdr) strings
  end.

(** Only the types 6 and 7 stand for something. *)
Definition read_reloc (rela symbols strings : Z) : outcome (list (option reloc)) :=
  info ← peek_le 8 (rela + 8);
  name_offset ← peek_le 4 (symbols + sizeof_sym * (info / 2 ^ 32));
  if (info mod 2 ^ 32 =? 6) || (info mod 2 ^ 32 =? 7) then
    name ← peek_string (strings + name_offset);
    if truthy (dlsym name) then offset ← peek_le 8 rela; Ret [Some (Reloc offset (dlsym name))] else Ret [None]
  else Ret [].

Fixpoint read_table (n : nat) (rela size symbols strings : Z) : outcome (list (option reloc)) :=
  match n with
  | O => Ret []
  | S n => r ← read_reloc rela symbols strings; rs ← read_table n (rela + size) size symbols strings; Ret (r ++ rs)
  end.

Fixpoint read_relocs (n : nat) (shdr symbols strings : Z) : outcome (list (option reloc)) :=
  match n with
  | O => Ret []
  | S n =>
      type ← sh_type shdr;
      if (type =? SHT_REL) || (type =? SHT_RELA) then
        let entry_size := if type =? SHT_REL then sizeof_rel else sizeof_rela in
        rela ← sh_offset shdr;
        size ← sh_size shdr;
        rs ← read_table (entry_count size entry_size) rela entry_size symbols strings;
        rest ← read_relocs n (shdr + sizeof_shdr) symbols strings;
        Ret (rs ++ rest)
      else read_relocs n (shdr + sizeof_shdr) symbols strings
  end.

(** The program in the file, if it is one. *)
Definition read_program : outcome (option program) :=
  ok ← ident_matches ELF_IDENT;
  if negb (ok : bool) then Ret None
  else
    phoff ← e_phoff;
    phnum ← e_phnum;
    gs ← read_segments (Z.to_nat phnum) phoff;
    shoff ← e_shoff;
    shnum ← e_shnum;
    dynsym ← find_dynsym (Z.to_nat shnum) shoff shoff;
    match dynsym with
    | Some (symbols, strings) =>
        if truthy (u64 (map_file + symbols)) && truthy (u64 (map_file + strings)) then
          needed ← read_libraries (Z.to_nat shnum) shoff strings;
          relocs ← read_relocs (Z.to_nat shnum) shoff symbols strings;
          entry ← e_entry;
          Ret (Some (Program gs needed relocs entry))
        else Ret None
    | None => Ret None
    end.

(** *** The memory of a program *)

(** A byte of the file, or of the rest of its last page. *)
Definition file_byte (offset : Z) : Z := default 0 (file !! Z.to_nat offset).

Definition segment_byte (g : segment) (i : Z) : Z := if i <? sg_filesz g then file_byte (sg_offset g + i) else 0.

(** The byte at a virtual address: that of the segment there, or what was there before. *)
Fixpoint image_byte (gs : list segment) (old v : Z) : Z :=
  match gs with
  | [] => old
  | g :: gs =>
      image_byte gs (if (sg_vaddr g <=? v) && (v <? sg_vaddr g + sg_memsz g) then segment_byte g (v - sg_vaddr g) else old) v
  end.

(** The pages of a segment that lies at address [pbase], and the protection of an
    address when the segments lie at [delta] from their virtual addresses. *)
Definition page_start (pbase : Z) : Z := pbase - pbase mod page_size.
Definition page_round (size : Z) : Z := (size + page_size - 1) / page_size * page_size.
Definition in_pages (pbase memsz a : Z) : bool :=
  (page_start pbase <=? a) && (a <? page_start pbase + page_round (memsz + pbase mod page_size)).
Fixpoint image_prot (gs : list segment) (delta old a : Z) : Z :=
  match gs with
  | [] => old
  | g :: gs =>
      image_prot gs delta
        (if in_pages (sg_vaddr g + delta) (sg_memsz g) a then prs_pal_mem_protect_flags (segment_flags (sg_flags g)) else old) a
  end.

(** The slots, over the bytes that were there. *)
Fixpoint reloc_byte (rs : list (option reloc)) (old v : Z) : Z :=
  match rs with
  | [] => old
  | None :: rs => reloc_byte rs old v
  | Some r :: rs =>
      reloc_byte rs (if (rl_slot r <=? v) && (v <? rl_slot r + 8) then rl_addr r / 256 ^ (v - rl_slot r) mod 256 else old) v
  end.

(** Where the segments end; they are in the order of their addresses and do not overlap. *)
Fixpoint segments_end (v : Z) (gs : list segment) : Z :=
  match gs with [] => v | g :: gs => segments_end (sg_vaddr g + sg_memsz g) gs end.
Fixpoint ascending (v : Z) (gs : list segment) : Prop :=
  match gs with [] => True | g :: gs => v ≤ sg_vaddr g ∧ ascending (sg_vaddr g + sg_memsz g) gs end.

Definition segment_ok (g : segment) : Prop :=
  0 ≤ sg_filesz g ≤ sg_memsz g ∧ 0 ≤ sg_offset g ∧ sg_offset g + sg_filesz g ≤ file_end.

(** The start of the range, and its size in whole pages. *)
Definition program_start (pg : program) : Z :=
  match pg_segments pg with g :: _ => sg_vaddr g | [] => 0 end.
Definition program_end (pg : program) : Z := segments_end (program_start pg) (pg_segments pg).
Definition program_size (pg : program) : Z := prs_bitops_align_size (program_end pg - program_start pg) page_size.

(** A program that can be loaded at [data]: its slots are where it may write. *)
Record program_ok (pg : program) (data : Z) : Prop := ProgramOk {
  pk_some : pg_segments pg ≠ [];
  pk_start : 0 ≤ program_start pg;
  pk_ascending : ascending (program_start pg) (pg_segments pg);
  pk_segments : Forall segment_ok (pg_segments pg);
  pk_end : program_end pg < 2 ^ 64;
  pk_relocs : ∀ r v, Some r ∈ pg_relocs pg → rl_slot r ≤ v < rl_slot r + 8 →
    program_start pg ≤ v < program_start pg + program_size pg ∧
    truthy (Z.land (image_prot (pg_segments pg) (data - program_start pg) PROT_NONE (data + (v - program_start pg))) PROT_WRITE) = true
}.

(** The libraries that get loaded, and the warnings. *)
Definition loaded_libraries (names : list (list Z)) : list (list Z) :=
  filter (λ name, name ≠ LIBPRS ∧ dlopen name = true) names.
End contract.

(** ** Loading a program *)

(** What the stages of the loader leave as it is. *)
Definition same_rest (s s' : space) : Prop :=
  sp_heap s' = sp_heap s ∧ sp_procs s' = sp_procs s ∧ sp_fds s' = sp_fds s ∧ sp_files s' = sp_files s.

Lemma same_rest_refl s : same_rest s s.
Proof. done. Qed.

Lemma same_rest_trans s1 s2 s3 : same_rest s1 s2 → same_rest s2 s3 → same_rest s1 s3.
Proof. intros (?&?&?&?) (?&?&?&?). unfold same_rest. split_and!; congruence. Qed.

(** Only bytes differ. *)
Definition only_bytes (s s' : space) : Prop := ∃ b, s' = with_bytes b s.

Lemma only_bytes_refl s : only_bytes s s.
Proof. exists (sp_bytes s). by destruct s. Qed.

Lemma only_bytes_trans s1 s2 s3 : only_bytes s1 s2 → only_bytes s2 s3 → only_bytes s1 s3.
Proof. intros [b ->] [b' ->]. by exists b'. Qed.

Lemma only_bytes_parts s s' :
  only_bytes s s' → same_rest s s' ∧ sp_vm s' = sp_vm s ∧ sp_libs s' = sp_libs s.
Proof. by intros [b ->]. Qed.

#[export] Hint Resolve same_rest_refl only_bytes_refl : prs.

Lemma poke_ok a v s :
  writable (sp_vm s) a = true →
  ∃ s', poke a v s = Ret s' ∧ only_bytes s s' ∧ ∀ b, sp_bytes s' b = if b =? a then v else sp_bytes s b.
Proof. intros Hw. unfold poke. rewrite Hw. eexists. split; [done|]. split; [by eexists|done]. Qed.

Lemma memset_zero_ok n : ∀ dst s,
  0 ≤ dst → dst + Z.of_nat n < 2 ^ 64 → (∀ a, dst ≤ a < dst + Z.of_nat n → writable (sp_vm s) a = true) →
  ∃ s', memset_zero n dst s = Ret s' ∧ only_bytes s s' ∧
    ∀ a, sp_bytes s' a = if (dst <=? a) && (a <? dst + Z.of_nat n) then 0 else sp_bytes s a.
Proof.
  induction n as [|n IH]; intros dst s H0 H1 Hw; cbn [memset_zero].
  - exists s. split; [done|]. split; [auto with prs|]. intros a. destruct (Z.leb_spec dst a), (Z.ltb_spec a (dst + Z.of_nat 0)); (done || lia).
  - rewrite u64_small by lia. destruct (poke_ok dst 0 s) as (s1 & -> & Hb1 & E1); [apply Hw; lia|]. ocbn.
    destruct (IH (dst + 1) s1) as (s2 & Hrun & Hb2 & E2); [lia|lia| |].
    { intros a Ha. destruct (only_bytes_parts _ _ Hb1) as (_ & -> & _). apply Hw. lia. }
    exists s2. split; [done|]. split; [by eapply only_bytes_trans|]. intros a. rewrite E2, E1.
    destruct (Z.leb_spec (dst + 1) a), (Z.ltb_spec a (dst + 1 + Z.of_nat n)), (Z.eqb_spec a dst),
      (Z.leb_spec dst a), (Z.ltb_spec a (dst + Z.of_nat (S n))); cbn; (done || lia).
Qed.

Lemma poke_le_ok n : ∀ dst v s,
  0 ≤ dst → dst + Z.of_nat n < 2 ^ 64 → (∀ a, dst ≤ a < dst + Z.of_nat n → writable (sp_vm s) a = true) →
  ∃ s', poke_le n dst v s = Ret s' ∧ only_bytes s s' ∧
    ∀ a, sp_bytes s' a = if (dst <=? a) && (a <? dst + Z.of_nat n) then v / 256 ^ (a - dst) mod 256 else sp_bytes s a.
Proof.
  induction n as [|n IH]; intros dst v s H0 H1 Hw; cbn [poke_le].
  - exists s. split; [done|]. split; [auto with prs|]. intros a. destruct (Z.leb_spec dst a), (Z.ltb_spec a (dst + Z.of_nat 0)); (done || lia).
  - rewrite u64_small by lia. destruct (poke_ok dst (v mod 256) s) as (s1 & -> & Hb1 & E1); [apply Hw; lia|]. ocbn.
    destruct (IH (dst + 1) (v / 256) s1) as (s2 & Hrun & Hb2 & E2); [lia|lia| |].
    { intros a Ha. destruct (only_bytes_parts _ _ Hb1) as (_ & -> & _). apply Hw. lia. }
    exists s2. split; [done|]. split; [by eapply only_bytes_trans|]. intros a. rewrite E2, E1.
    destruct (Z.leb_spec (dst + 1) a), (Z.ltb_spec a (dst + 1 + Z.of_nat n)), (Z.eqb_spec a dst),
      (Z.leb_spec dst a), (Z.ltb_spec a (dst + Z.of_nat (S n))); cbn; try (done || lia).
    + f_equal. rewrite Z.div_div by lia. f_equal. rewrite <- Z.pow_succ_r by lia. f_equal. lia.
    + subst. rewrite Z.sub_diag, Z.pow_0_r, Z.div_1_r. done.
Qed.

Section load.
Context `{!LoaderSystem}.

Lemma peek_ok offset :
  map_file ≠ MAP_FAILED → 0 ≤ offset < file_end → file_end < 2 ^ 64 → peek offset = Ret (file_byte offset).
Proof.
  intros Hm Ho He. unfold peek, file_byte. rewrite u64_small, (proj2 (Z.eqb_neq _ _) Hm) by lia.
  destruct (Z.ltb_spec offset (Z.of_nat (length file))) as [Hl|Hl].
  - destruct (lookup_lt_is_Some_2 file (Z.to_nat offset)) as [b Hb]; [lia|]. by rewrite Hb.
  - rewrite (proj2 (Z.ltb_lt offset file_end)) by lia. by rewrite lookup_ge_None_2 by lia.
Qed.

Lemma memcpy_file_ok n : ∀ dst offset s,
  map_file ≠ MAP_FAILED → file_end < 2 ^ 64 → 0 ≤ offset → offset + Z.of_nat n ≤ file_end →
  0 ≤ dst → dst + Z.of_nat n < 2 ^ 64 → (∀ a, dst ≤ a < dst + Z.of_nat n → writable (sp_vm s) a = true) →
  ∃ s', memcpy_file n dst offset s = Ret s' ∧ only_bytes s s' ∧
    ∀ a, sp_bytes s' a = if (dst <=? a) && (a <? dst + Z.of_nat n) then file_byte (offset + (a - dst)) else sp_bytes s a.
Proof.
  induction n as [|n IH]; intros dst offset s Hm He Ho0 Ho H0 H1 Hw; cbn [memcpy_file].
  - exists s. split; [done|]. split; [auto with prs|]. intros a. destruct (Z.leb_spec dst a), (Z.ltb_spec a (dst + Z.of_nat 0)); (done || lia).
  - rewrite peek_ok by (done || lia). ocbn. rewrite u64_small by lia.
    destruct (poke_ok dst (file_byte offset) s) as (s1 & -> & Hb1 & E1); [apply Hw; lia|]. ocbn.
    destruct (IH (dst + 1) (offset + 1) s1) as (s2 & Hrun & Hb2 & E2); [done|done|lia..| |].
    { intros a Ha. destruct (only_bytes_parts _ _ Hb1) as (_ & -> & _). apply Hw. lia. }
    exists s2. split; [done|]. split; [by eapply only_bytes_trans|]. intros a. rewrite E2, E1.
    destruct (Z.leb_spec (dst + 1) a), (Z.ltb_spec a (dst + 1 + Z.of_nat n)), (Z.eqb_spec a dst),
      (Z.leb_spec dst a), (Z.ltb_spec a (dst + Z.of_nat (S n))); cbn; try (done || lia); f_equal; lia.
Qed.

(** *** Libraries and relocations *)

Definition load_names (names : list (list Z)) (s : space) : space :=
  foldl (λ s name, if bool_decide (name = LIBPRS) then s
                   else if dlopen name then with_libs (sp_libs s ++ [name]) s else ftrace s) s names.

Lemma load_needed_names n : ∀ dyn strings names s,
  read_needed n dyn strings = Ret names → load_needed n dyn strings LIBPRS s = Ret (load_names names s).
Proof.
  induction n as [|n IH]; intros dyn strings names s Hr; cbn [read_needed load_needed] in *; [by injection Hr as <-|].
  outcome_inv Hr. rewrite Ho. ocbn. destruct (x =? DT_NEEDED); [|by apply IH].
  outcome_inv Hr. rewrite Ho0. ocbn. rewrite Ho1. ocbn. subst names. by rewrite (IH _ _ _ _ Ho2).
Qed.

Lemma load_libraries_names n : ∀ shdr strings names s,
  read_libraries n shdr strings = Ret names → load_libraries n shdr strings s = Ret (load_names names s).
Proof.
  induction n as [|n IH]; intros shdr strings names s Hr; cbn [read_libraries load_libraries] in *; [by injection Hr as <-|].
  outcome_inv Hr. rewrite Ho. ocbn. destruct (x =? SHT_DYNAMIC); [|by apply IH].
  outcome_inv Hr. rewrite Ho0. ocbn. rewrite Ho1. ocbn. rewrite (load_needed_names _ _ _ _ _ Ho2). ocbn.
  subst names. unfold load_names. rewrite foldl_app. by apply IH.
Qed.

Lemma load_names_exact names : ∀ s,
  same_rest s (load_names names s) ∧ sp_vm (load_names names s) = sp_vm s ∧
  sp_bytes (load_names names s) = sp_bytes s ∧ sp_libs (load_names names s) = sp_libs s ++ loaded_libraries names.
Proof.
  induction names as [|name names IH]; intros s; cbn [load_names foldl]; [by rewrite app_nil_r|].
  unfold loaded_libraries. rewrite filter_cons. fold (loaded_libraries names).
  set (s1 := if bool_decide _ then s else _). destruct (IH s1) as (Hs & Hvm & Hby & Hl). fold (load_names names s1).
  rewrite Hvm, Hby, Hl. subst s1. destruct (decide (name = LIBPRS)) as [He|He].
  - rewrite bool_decide_true in * by done. rewrite decide_False by tauto. done.
  - rewrite bool_decide_false in * by done. destruct (dlopen name) eqn:Hd.
    + rewrite decide_True by done. split_and!; try done. cbn. by rewrite <- app_assoc.
    + rewrite decide_False by (intros [? ?]; done). done.
Qed.

Fixpoint apply_relocs (vbase : Z) (rs : list (option reloc)) (s : space) : outcome space :=
  match rs with
  | [] => Ret s
  | None :: rs => apply_relocs vbase rs (ftrace s)
  | Some r :: rs => s ← poke_le 8 (prs_pal_proc_elf_offset vbase (rl_slot r)) (rl_addr r) s; apply_relocs vbase rs s
  end.

Lemma apply_relocs_app vbase rs1 rs2 s :
  apply_relocs vbase (rs1 ++ rs2) s = (s ← apply_relocs vbase rs1 s; apply_relocs vbase rs2 s).
Proof.
  revert s. induction rs1 as [|[r|] rs1 IH]; intros s; cbn [app apply_relocs]; [done| |apply IH].
  destruct (poke_le 8 _ _ s); ocbn; [apply IH|done..].
Qed.

Lemma relocate_entry_apply vbase rela symbols strings rs s :
  read_reloc rela symbols strings = Ret rs → relocate_entry vbase rela symbols strings s = apply_relocs vbase rs s.
Proof.
  unfold read_reloc, relocate_entry. intros Hr. outcome_inv Hr. rewrite Ho. ocbn. rewrite Ho0. ocbn.
  destruct (_ || _); [|by injection Hr as <-]. outcome_inv Hr. rewrite Ho1. ocbn.
  destruct (truthy _); [|by injection Hr as <-]. outcome_inv Hr. rewrite Ho2. ocbn. subst rs. cbn [apply_relocs rl_slot rl_addr].
  by destruct (poke_le 8 _ _ s).
Qed.

Lemma relocate_table_apply n : ∀ vbase rela size symbols strings rs s,
  read_table n rela size symbols strings = Ret rs →
  relocate_table n vbase rela size symbols strings s = apply_relocs vbase rs s.
Proof.
  induction n as [|n IH]; intros vbase rela size symbols strings rs s Hr; cbn [read_table relocate_table] in *; [by injection Hr as <-|].
  outcome_inv Hr. subst rs. rewrite apply_relocs_app, (relocate_entry_apply _ _ _ _ _ _ Ho).
  destruct (apply_relocs _ _ _); ocbn; [by apply IH|done..].
Qed.

Lemma relocate_sections_apply n : ∀ vbase shdr symbols strings rs s,
  read_relocs n shdr symbols strings = Ret rs →
  relocate_sections n vbase shdr symbols strings s = apply_relocs vbase rs s.
Proof.
  induction n as [|n IH]; intros vbase shdr symbols strings rs s Hr; cbn [read_relocs relocate_sections] in *; [by injection Hr as <-|].
  outcome_inv Hr. rewrite Ho. ocbn. destruct (_ || _); [|by apply IH].
  outcome_inv Hr. rewrite Ho0. ocbn. rewrite Ho1. ocbn. subst rs. rewrite apply_relocs_app, (relocate_table_apply _ _ _ _ _ _ _ _ Ho2).
  destruct (apply_relocs _ _ _); ocbn; [by apply IH|done..].
Qed.

Lemma apply_relocs_ok vbase delta rs : ∀ s,
  (∀ r, Some r ∈ rs → prs_pal_proc_elf_offset vbase (rl_slot r) = rl_slot r + delta ∧ 0 ≤ rl_slot r + delta ∧ rl_slot r + delta + 8 < 2 ^ 64) →
  (∀ r v, Some r ∈ rs → rl_slot r ≤ v < rl_slot r + 8 → writable (sp_vm s) (v + delta) = true) →
  ∃ s', apply_relocs vbase rs s = Ret s' ∧ same_rest s s' ∧ sp_vm s' = sp_vm s ∧ sp_libs s' = sp_libs s ∧
    ∀ v, sp_bytes s' (v + delta) = reloc_byte rs (sp_bytes s (v + delta)) v.
Proof.
  induction rs as [|[r|] rs IH]; intros s Ha Hw; cbn [apply_relocs reloc_byte].
  - exists s. by split_and!.
  - destruct (Ha r ltac:(by left)) as (-> & H0 & H1).
    destruct (poke_le_ok 8 (rl_slot r + delta) (rl_addr r) s) as (s1 & -> & Hb & E); [lia|lia| |].
    { intros a Hr. replace a with (a - delta + delta) by lia. apply (Hw r); [by left|lia]. }
    ocbn. destruct (only_bytes_parts _ _ Hb) as (Hs1 & Hvm1 & Hl1).
    destruct (IH s1) as (s' & Hrun & Hs & Hvm & Hl & E').
    + intros r' Hr'. apply Ha. by right.
    + intros r' v Hr' Hv. rewrite Hvm1. apply (Hw r'); [by right|done].
    + exists s'. split; [done|]. split_and!; [by eapply same_rest_trans|congruence..|].
      intros v. rewrite E', E. f_equal. change (Z.of_nat 8) with 8. replace (v + delta - (rl_slot r + delta)) with (v - rl_slot r) by lia.
      destruct (Z.leb_spec (rl_slot r + delta) (v + delta)), (Z.ltb_spec (v + delta) (rl_slot r + delta + 8)),
        (Z.leb_spec (rl_slot r) v), (Z.ltb_spec v (rl_slot r + 8)); (done || lia).
  - destruct (IH (ftrace s)) as (s' & Hrun & Hs & Hvm & Hl & E').
    + intros r' Hr'. apply Ha. by right.
    + intros r' v Hr' Hv. apply (Hw r'); [by right|done].
    + exists s'. by split_and!.
Qed.

(** *** Segments *)

Lemma segments_end_ge gs : ∀ v, ascending v gs → Forall segment_ok gs → v ≤ segments_end v gs.
Proof.
  induction gs as [|g gs IH]; intros v Hasc Hok; cbn in *; [lia|]. destruct Hasc as [Hv Hasc].
  apply Forall_cons in Hok as [(Hg & _) Hok]. specialize (IH _ Hasc Hok). lia.
Qed.

Section segments.
Context (k : Z) (Hk : 0 ≤ k ≤ 20) (Hpage : page_size = 2 ^ k) (Hmap : map_file ≠ MAP_FAILED) (Hfile : file_end < 2 ^ 64).

Lemma page_pos : 0 < page_size.
Proof using Hk Hpage. rewrite Hpage. apply Z.pow_pos_nonneg; lia. Qed.

Lemma page_round_least n m :
  0 ≤ n ≤ m → m mod page_size = 0 → n ≤ page_round n ≤ m ∧ page_round n mod page_size = 0.
Proof using Hk Hpage.
  intros Hn Hm. pose proof page_pos as Hp. unfold page_round. split; [split|].
  - pose proof (Z.mod_pos_bound (n + page_size - 1) page_size Hp).
    pose proof (Z.div_mod (n + page_size - 1) page_size (Z.neq_sym _ _ (Z.lt_neq _ _ Hp))). lia.
  - apply Z.mod_divide in Hm as [q ->]; [|lia]. apply Z.mul_le_mono_nonneg_r; [lia|].
    apply Z.lt_succ_r, Z.div_lt_upper_bound; [lia|]. rewrite Z.mul_succ_r. lia.
  - apply Z.mod_mul. lia.
Qed.

(** A range of whole pages is mapped, and the system refuses no protection. *)
Definition region (data size : Z) (m : vm) : Prop :=
  (data, size) ∈ vm_maps m ∧ data mod page_size = 0 ∧ size mod page_size = 0 ∧ 0 < data ∧ data + size < 2 ^ 64 ∧
  vm_denied m = [].

Definition same_maps (m m' : vm) : Prop := vm_maps m' = vm_maps m ∧ vm_denied m' = vm_denied m.

Lemma region_mapped data size m a : region data size m → data ≤ a < data + size → Stack.mapped m a = true.
Proof using Type.
  clear.
  intros (Hin & _) Ha. apply existsb_exists. exists (data, size). split; [by apply list_elem_of_In|].
  unfold inside. cbn. apply andb_true_iff. rewrite !Z.leb_le. lia.
Qed.

Lemma region_protect data size m addr n flags :
  region data size m → addr mod page_size = 0 → 0 ≤ n → data ≤ addr → addr + n ≤ data + size →
  prs_pal_mem_protect page_size addr n flags m =
    Vm (vm_answers m) (vm_maps m) ((addr, page_round n, prs_pal_mem_protect_flags flags) :: vm_prots m) (vm_errors m) (vm_denied m).
Proof using Hk Hpage.
  intros (Hin & Hd & Hs & _ & _ & Hno) Ha Hn Hda He. unfold prs_pal_mem_protect.
  rewrite (mprotect_granted _ _ _ _ _ (page_round n)); [by rewrite Hno|done|done| |by unfold granted; rewrite Hno]. pose proof page_pos as Hp. destruct (page_round_least n (data + size - addr)) as [Hr _].
  { lia. } { rewrite Zminus_mod, Z.add_mod, Hd, Hs, Ha by lia. by rewrite !Z.mod_0_l by lia. }
  apply existsb_exists. exists (data, size). split; [by apply list_elem_of_In|].
  unfold inside. cbn. apply andb_true_iff. rewrite !Z.leb_le. lia.
Qed.

Lemma page_start_aligned a : page_start a mod page_size = 0 ∧ page_start a ≤ a < page_start a + page_size.
Proof using Hk Hpage.
  unfold page_start. pose proof page_pos as Hp. pose proof (Z.mod_pos_bound a page_size Hp).
  split; [|lia]. rewrite Zminus_mod, Z.mod_mod, Z.sub_diag by lia. apply Z.mod_0_l. lia.
Qed.

Lemma page_start_least data a : data mod page_size = 0 → data ≤ a → data ≤ page_start a.
Proof using Hk Hpage.
  intros Hd Ha. unfold page_start. pose proof page_pos as Hp. apply Z.mod_divide in Hd as [q ->]; [|lia].
  replace (a - a mod page_size) with (a / page_size * page_size) by (pose proof (Z.div_mod a page_size (Z.neq_sym _ _ (Z.lt_neq _ _ Hp))); lia).
  apply Z.mul_le_mono_nonneg_r; [lia|]. apply Z.div_le_lower_bound; [lia|]. lia.
Qed.

(** The protections that a segment has while it is copied, and those it gets. *)
Definition segment_vm (pbase memsz flags : Z) (m : vm) : vm :=
  let len := page_round (memsz + pbase mod page_size) in
  Vm (vm_answers m) (vm_maps m) ((page_start pbase, len, prs_pal_mem_protect_flags flags) :: vm_prots m) (vm_errors m) (vm_denied m).

Lemma segment_protect data size pbase memsz flags s :
  region data size (sp_vm s) → 0 ≤ memsz → data ≤ pbase → pbase + memsz ≤ data + size →
  mem_protect (if truthy (pbase mod page_size) then pbase - pbase mod page_size else pbase)
    (if truthy (pbase mod page_size) then u64 (memsz + pbase mod page_size) else memsz) flags s =
  with_vm (segment_vm pbase memsz flags (sp_vm s)) s ∧ region data size (segment_vm pbase memsz flags (sp_vm s)).
Proof using Hk Hpage.
  intros Hr Hm Hd He. pose proof page_pos as Hp. pose proof (Z.mod_pos_bound pbase page_size Hp) as Hu.
  destruct (page_start_aligned pbase) as [Hal Hs]. pose proof Hr as (_ & Hdm & _ & Hd0 & Hde & _).
  pose proof (page_start_least data pbase Hdm Hd). split; [|exact Hr].
  replace (if truthy (pbase mod page_size) then pbase - pbase mod page_size else pbase) with (page_start pbase).
  2:{ unfold page_start, truthy. destruct (Z.eqb_spec (pbase mod page_size) 0) as [->|]; cbn; lia. }
  replace (if truthy (pbase mod page_size) then u64 (memsz + pbase mod page_size) else memsz) with (memsz + pbase mod page_size).
  2:{ unfold truthy. unfold page_start in *. destruct (Z.eqb_spec (pbase mod page_size) 0) as [->|]; cbn; [lia|].
      rewrite u64_small; lia. }
  unfold mem_protect, segment_vm. erewrite region_protect; [done|done|done|lia|lia|unfold page_start in *; lia].
Qed.

Lemma segment_writable data size pbase memsz m a :
  region data size m → 0 ≤ memsz → data ≤ pbase → pbase + memsz ≤ data + size → pbase ≤ a < pbase + memsz →
  writable (segment_vm pbase memsz PRS_PAL_MEM_FLAG_WRITE m) a = true.
Proof using Hk Hpage.
  intros Hr Hm Hd He Ha. unfold writable. pose proof page_pos as Hp. pose proof Hr as (_ & Hdm & Hsm & _).
  rewrite (region_mapped data size) by (exact Hr || lia). cbn [segment_vm vm_prots prot_at].
  destruct (page_start_aligned pbase) as [Hal Hs]. pose proof (Z.mod_pos_bound pbase page_size Hp) as Hu.
  destruct (page_round_least (memsz + pbase mod page_size) (data + size - page_start pbase)) as [Hl _].
  { unfold page_start in *. lia. } { rewrite Zminus_mod, Z.add_mod, Hdm, Hsm, Hal by lia. by rewrite !Z.mod_0_l by lia. }
  rewrite (proj2 (Z.leb_le _ _)), (proj2 (Z.ltb_lt _ _)) by (unfold page_start in *; lia). reflexivity.
Qed.

Lemma load_segment_ok data size vbase delta phdr g s :
  read_segment phdr = Ret g → segment_ok g → region data size (sp_vm s) →
  prs_pal_proc_elf_offset vbase (sg_vaddr g) = sg_vaddr g + delta →
  data ≤ sg_vaddr g + delta → sg_vaddr g + sg_memsz g + delta ≤ data + size →
  ∃ s', load_segment vbase phdr s = Ret s' ∧ same_rest s s' ∧ sp_libs s' = sp_libs s ∧
    same_maps (sp_vm s) (sp_vm s') ∧
    (∀ v, sp_bytes s' (v + delta) = image_byte [g] (sp_bytes s (v + delta)) v) ∧
    ∀ a, prot_at (vm_prots (sp_vm s')) a = image_prot [g] delta (prot_at (vm_prots (sp_vm s)) a) a.
Proof using Hk Hpage Hmap Hfile.
  intros Hread (Hfz & Hof & Hoe) Hr Hbase Hlo Hhi. unfold read_segment in Hread. outcome_inv Hread.
  subst g. cbn [sg_vaddr sg_memsz sg_filesz sg_offset sg_flags] in *. rename x into vaddr, x0 into memsz, x1 into filesz, x2 into offset, x3 into flags.
  pose proof Hr as (_ & _ & _ & Hd0 & Hde & _). set (pbase := vaddr + delta) in *.
  unfold load_segment. rewrite Ho. ocbn. rewrite Hbase, Ho0. ocbn.
  destruct (segment_protect data size pbase memsz PRS_PAL_MEM_FLAG_WRITE s Hr) as [-> Hr1]; [lia..|].
  rewrite Ho1. ocbn. rewrite (proj2 (Z.ltb_ge memsz filesz)) by lia. ocbn. rewrite Ho2. ocbn.
  set (s1 := with_vm _ s).
  assert (∀ a, pbase ≤ a < pbase + memsz → writable (sp_vm s1) a = true) as Hw.
  { intros a Ha. eapply segment_writable; [exact Hr|lia..]. }
  destruct (memcpy_file_ok (Z.to_nat filesz) pbase offset s1) as (s2 & -> & Hb2 & E2); [done|done|lia..| |].
  { intros a Ha. apply Hw. lia. }
  ocbn. destruct (only_bytes_parts _ _ Hb2) as (Hs2 & Hvm2 & Hl2).
  assert (prs_pal_proc_elf_offset pbase filesz = pbase + filesz) as -> by (apply u64_small; lia).
  destruct (memset_zero_ok (Z.to_nat (memsz - filesz)) (pbase + filesz) s2) as (s3 & -> & Hb3 & E3); [lia..| |].
  { intros a Ha. rewrite Hvm2. apply Hw. lia. }
  ocbn. rewrite Ho3. ocbn. destruct (only_bytes_parts _ _ Hb3) as (Hs3 & Hvm3 & Hl3).
  destruct (segment_protect data size pbase memsz (segment_flags flags) s3) as [-> _]; [by rewrite Hvm3, Hvm2|lia..|].
  eexists. split; [done|]. rewrite Hvm3, Hvm2. split_and!.
  - change (same_rest s s3). eapply (same_rest_trans s s1); [done|]. by eapply same_rest_trans.
  - change (sp_libs s3 = sp_libs s1). congruence.
  - done.
  - intros v. cbn [with_vm sp_bytes image_byte sg_vaddr sg_memsz]. rewrite E3, E2. unfold segment_byte. cbn [sg_filesz sg_offset].
    change (sp_bytes s1) with (sp_bytes s). unfold pbase.
    destruct (Z.leb_spec (vaddr + delta + filesz) (v + delta)), (Z.ltb_spec (v + delta) (vaddr + delta + filesz + Z.of_nat (Z.to_nat (memsz - filesz)))),
      (Z.leb_spec (vaddr + delta) (v + delta)), (Z.ltb_spec (v + delta) (vaddr + delta + Z.of_nat (Z.to_nat filesz))),
      (Z.leb_spec vaddr v), (Z.ltb_spec v (vaddr + memsz)), (Z.ltb_spec (v - vaddr) filesz); cbn; try (done || lia); f_equal; lia.
  - intros a. unfold segment_vm. cbn [with_vm sp_vm vm_prots prot_at image_prot sg_vaddr sg_memsz sg_flags]. fold pbase.
    unfold in_pages. destruct (_ && _) eqn:E; [done|]. change (sp_vm s1) with (segment_vm pbase memsz PRS_PAL_MEM_FLAG_WRITE (sp_vm s)).
    unfold segment_vm. cbn [vm_prots prot_at]. by rewrite E.
Qed.

Lemma load_segments_ok data size vbase delta n : ∀ phdr gs v0 s,
  read_segments n phdr = Ret gs → Forall segment_ok gs → ascending v0 gs → region data size (sp_vm s) →
  (∀ v, v0 ≤ v ≤ segments_end v0 gs → prs_pal_proc_elf_offset vbase v = v + delta) →
  data ≤ v0 + delta → segments_end v0 gs + delta ≤ data + size →
  ∃ s', load_segments n vbase phdr s = Ret s' ∧ same_rest s s' ∧ sp_libs s' = sp_libs s ∧
    same_maps (sp_vm s) (sp_vm s') ∧
    (∀ v, sp_bytes s' (v + delta) = image_byte gs (sp_bytes s (v + delta)) v) ∧
    ∀ a, prot_at (vm_prots (sp_vm s')) a = image_prot gs delta (prot_at (vm_prots (sp_vm s)) a) a.
Proof using Hk Hpage Hmap Hfile.
  induction n as [|n IH]; intros phdr gs v0 s Hread Hok Hasc Hr Hbase Hlo Hhi; cbn [read_segments load_segments] in *.
  { injection Hread as <-. exists s. by split_and!. }
  outcome_inv Hread. rewrite Ho. ocbn. destruct (negb _); [ocbn; by eapply IH|].
  outcome_inv Hread. subst gs. rename x0 into g, x1 into gs. cbn [ascending segments_end] in *. destruct Hasc as [Hv Hasc].
  inversion Hok as [|?? Hg Hgs]; subst. pose proof Hg as (Hfz & _).
  pose proof (segments_end_ge gs _ Hasc Hgs) as Hend.
  destruct (load_segment_ok data size vbase delta phdr g s) as (s1 & -> & Hs1 & Hl1 & [Hm1 Hn1] & E1 & P1); [done|done|done|apply Hbase; lia|lia|lia|].
  ocbn. destruct (IH (phdr + sizeof_phdr) gs (sg_vaddr g + sg_memsz g) s1) as (s2 & Hrun & Hs2 & Hl2 & [Hm2 Hn2] & E2 & P2); [done|done|done| | |lia|lia|].
  { destruct Hr as (Hin & ? & ? & ? & ? & Hno). split; [by rewrite Hm1|]. by rewrite Hn1. }
  { intros v Hv'. apply Hbase. lia. }
  exists s2. split; [done|]. split_and!; [by eapply same_rest_trans|congruence|split; congruence| |].
  - intros v. rewrite E2, E1. done.
  - intros a. rewrite P2, P1. done.
Qed.
End segments.

(** *** The range *)

Fixpoint extent (gs : list segment) (start : option Z) (size : Z) : option Z * Z :=
  match gs with
  | [] => (start, size)
  | g :: gs => let st := default (sg_vaddr g) start in extent gs (Some st) (u64 (sg_vaddr g - st + sg_memsz g))
  end.

Lemma read_segment_parts phdr g :
  read_segment phdr = Ret g →
  p_vaddr phdr = Ret (sg_vaddr g) ∧ p_memsz phdr = Ret (sg_memsz g) ∧ p_filesz phdr = Ret (sg_filesz g).
Proof. intros Hread. unfold read_segment in Hread. outcome_inv Hread. by subst g. Qed.

Lemma load_extent_segments n : ∀ phdr gs start size,
  read_segments n phdr = Ret gs → load_extent n phdr start size = Ret (extent gs start size).
Proof.
  induction n as [|n IH]; intros phdr gs start size Hread; cbn [read_segments load_extent] in *; [by injection Hread as <-|].
  outcome_inv Hread. rewrite Ho. ocbn. destruct (negb _); [by apply IH|]. outcome_inv Hread. subst gs. cbn [extent].
  apply read_segment_parts in Ho0 as (-> & -> & _). ocbn. by apply IH.
Qed.

Lemma extent_ok gs : ∀ v st size,
  gs ≠ [] → ascending v gs → Forall segment_ok gs → st ≤ v → segments_end v gs - st < 2 ^ 64 →
  extent gs (Some st) size = (Some st, segments_end v gs - st).
Proof.
  induction gs as [|g gs IH]; intros v st size Hne Hasc Hok Hst He; [done|]. cbn [extent segments_end default from_option] in *.
  destruct Hasc as [Hv Hasc]. apply Forall_cons in Hok as [Hg Hok]. pose proof (segments_end_ge gs _ Hasc Hok).
  destruct Hg as (Hfz & _). destruct gs as [|g' gs].
  - cbn. f_equal. cbn [segments_end] in *. rewrite u64_small; lia.
  - apply IH; [done|done|done|lia|exact He].
Qed.

Lemma program_extent k pg :
  0 ≤ k ≤ 20 → page_size = 2 ^ k → pg_segments pg ≠ [] → ascending (program_start pg) (pg_segments pg) →
  Forall segment_ok (pg_segments pg) → program_end pg - program_start pg + 2 ^ k ≤ 2 ^ 64 →
  extent (pg_segments pg) None 0 = (Some (program_start pg), program_end pg - program_start pg) ∧
  program_end pg - program_start pg ≤ program_size pg ∧ program_size pg mod page_size = 0.
Proof.
  intros Hk Hpage Hne Hasc Hok He. unfold program_size.
  pose proof (segments_end_ge _ _ Hasc Hok) as Hge. fold (program_end pg) in Hge.
  destruct (align_size_bounds (program_end pg - program_start pg) k) as [Hs Hm]; [lia..|]. rewrite <- Hpage in Hs, Hm.
  assert (0 < 2 ^ k) by (apply Z.pow_pos_nonneg; lia). split; [|by split; [lia|]].
  unfold program_end, program_start in *. destruct (pg_segments pg) as [|g gs]; [done|].
  apply (extent_ok (g :: gs) (sg_vaddr g) (sg_vaddr g) 0); [done|done|done|lia|]. lia.
Qed.

Lemma image_byte_outside gs old : ∀ v0 v,
  ascending v0 gs → Forall segment_ok gs → v < v0 ∨ segments_end v0 gs ≤ v → image_byte gs old v = old.
Proof.
  induction gs as [|g gs IH]; intros v0 v Hasc Hok Hv; [done|]. cbn [image_byte segments_end] in *.
  destruct Hasc as [Hv0 Hasc]. apply Forall_cons in Hok as [(Hfz & _) Hok]. pose proof (segments_end_ge gs _ Hasc Hok).
  replace ((sg_vaddr g <=? v) && (v <? sg_vaddr g + sg_memsz g)) with false.
  - apply (IH (sg_vaddr g + sg_memsz g)); [done|done|lia].
  - symmetry. apply andb_false_iff. rewrite Z.leb_gt, Z.ltb_ge. lia.
Qed.

(** The segments do not overlap: each has its bytes. *)
Lemma image_byte_segment gs : ∀ v0 old g i,
  ascending v0 gs → Forall segment_ok gs → g ∈ gs → 0 ≤ i < sg_memsz g → image_byte gs old (sg_vaddr g + i) = segment_byte g i.
Proof.
  induction gs as [|g' gs IH]; intros v0 old g i Hasc Hok Hin Hi; [by apply elem_of_nil in Hin|]. cbn [image_byte].
  destruct Hasc as [Hv0 Hasc]. apply Forall_cons in Hok as [Hg' Hok].
  apply elem_of_cons in Hin as [->|Hin].
  - rewrite (proj2 (Z.leb_le _ _)), (proj2 (Z.ltb_lt _ _)) by lia. cbn [andb].
    rewrite (image_byte_outside gs _ (sg_vaddr g' + sg_memsz g')) by (done || lia). f_equal. lia.
  - by apply (IH (sg_vaddr g' + sg_memsz g')).
Qed.

Lemma reloc_byte_outside rs old v :
  (∀ r, Some r ∈ rs → ¬ (rl_slot r ≤ v < rl_slot r + 8)) → reloc_byte rs old v = old.
Proof.
  revert old. induction rs as [|[r|] rs IH]; intros old Hr; cbn [reloc_byte]; [done| |].
  - replace ((rl_slot r <=? v) && (v <? rl_slot r + 8)) with false; [apply IH; intros r' Hr'; apply Hr; by right|].
    symmetry. apply andb_false_iff. rewrite Z.leb_gt, Z.ltb_ge. specialize (Hr r ltac:(by left)). lia.
  - apply IH. intros r' Hr'. apply Hr. by right.
Qed.

Lemma prot_at_new data size prots a : data ≤ a < data + size → prot_at ((data, size, PROT_NONE) :: prots) a = PROT_NONE.
Proof. intros Ha. cbn [prot_at]. by rewrite (proj2 (Z.leb_le _ _)), (proj2 (Z.ltb_lt _ _)) by lia. Qed.

(** *** The whole *)

Lemma load_image_ok k pg data proc s :
  0 ≤ k ≤ 20 → page_size = 2 ^ k → map_file ≠ MAP_FAILED → file_end < 2 ^ 64 →
  read_program = Ret (Some pg) → program_ok pg data → program_end pg - program_start pg + 2 ^ k ≤ 2 ^ 64 →
  region data (program_size pg) (sp_vm s) →
  (∀ a, data ≤ a < data + program_size pg → prot_at (vm_prots (sp_vm s)) a = PROT_NONE) →
  let start := program_start pg in
  let size := program_size pg in
  ∃ s', load_image proc data size start s = Ret (Some proc, s') ∧
    sp_procs s' = <[proc := PrsPalProc size data (u64 (data - start + pg_entry pg))]> (sp_procs s) ∧
    sp_heap s' = sp_heap s ∧ vm_maps (sp_vm s') = vm_maps (sp_vm s) ∧
    (∀ v, sp_bytes s' (v + (data - start)) = reloc_byte (pg_relocs pg) (image_byte (pg_segments pg) (sp_bytes s (v + (data - start))) v) v) ∧
    (∀ a, prot_at (vm_prots (sp_vm s')) a = image_prot (pg_segments pg) (data - start) (prot_at (vm_prots (sp_vm s)) a) a) ∧
    sp_libs s' = sp_libs s ++ loaded_libraries (pg_needed pg) ∧ sp_fds s' = sp_fds s ∧ sp_files s' = sp_files s.
Proof.
  intros Hk Hpage Hmap Hfile Hread [Hne Hst Hasc Hok Hend Hrel] Hext Hr Hnone start size. fold start in Hst, Hasc, Hext, Hrel. fold size in Hr, Hnone, Hrel.
  destruct (program_extent k pg Hk Hpage Hne Hasc Hok Hext) as (_ & Hsz & _). fold start size in Hsz.
  pose proof Hr as (_ & _ & _ & Hd0 & Hde & _). set (delta := data - start). set (vbase := prs_pal_proc_elf_offset data (- start)).
  assert (∀ v, start ≤ v ≤ start + size → prs_pal_proc_elf_offset vbase v = v + delta) as Hoff.
  { intros v Hv. unfold vbase, prs_pal_proc_elf_offset, u64. rewrite Zplus_mod_idemp_l. rewrite Z.mod_small; unfold delta; lia. }
  unfold read_program in Hread. outcome_inv Hread. destruct (negb x); [done|]. outcome_inv Hread.
  rename x0 into phoff, x1 into phnum, x2 into gs, x3 into shoff, x4 into shnum. destruct x5 as [[symbols strings]|]; [|done].
  destruct (_ && _) eqn:Ht; [|done]. outcome_inv Hread. subst pg. cbn [pg_segments pg_needed pg_relocs pg_entry] in *.
  unfold load_image. fold vbase. rewrite Ho1. ocbn. rewrite Ho0. ocbn. change (segments_end start gs - start ≤ size) in Hsz. change (segments_end start gs < 2 ^ 64) in Hend.
  destruct (load_segments_ok k Hk Hpage Hmap Hfile data size vbase delta (Z.to_nat phnum) phoff gs start s) as (s1 & -> & Hs1 & Hl1 & [Hm1 Hn1] & E1 & P1);
    [done|done|done|done| |unfold delta; lia|unfold delta; lia|].
  { intros v Hv. apply Hoff. lia. }
  ocbn. rewrite Ho3. ocbn. rewrite Ho4. ocbn. rewrite Ho5. ocbn. rewrite Ht.
  rewrite (load_libraries_names _ _ _ _ _ Ho6). ocbn. destruct (load_names_exact x0 s1) as (Hs2 & Hvm2 & Hb2 & Hl2). set (s2 := load_names x0 s1) in *.
  rewrite (relocate_sections_apply _ _ _ _ _ _ _ Ho7).
  destruct (apply_relocs_ok vbase delta x1 s2) as (s3 & -> & Hs3 & Hvm3 & Hl3 & E3).
  { intros r Hin. destruct (Hrel r (rl_slot r) Hin ltac:(lia)) as [Hlo _]. destruct (Hrel r (rl_slot r + 7) Hin ltac:(lia)) as [Hhi _].
    rewrite Hoff by lia. unfold delta. lia. }
  { intros r v Hin Hv. destruct (Hrel r v Hin Hv) as [Hlo Hw]. rewrite Hvm2. unfold writable.
    rewrite (region_mapped data size) by ((destruct Hr as (? & ? & ? & ? & ? & ?); split; [by rewrite Hm1|by rewrite Hn1]) || (unfold delta; lia)).
    cbn [andb]. rewrite P1, Hnone by (unfold delta; lia). unfold delta. by replace (v + (data - start)) with (data + (v - start)) by lia. }
  ocbn. rewrite Ho8. ocbn. destruct Hs1 as (Hh1 & Hp1 & Hf1 & Hi1), Hs2 as (Hh2 & Hp2 & Hf2 & Hi2), Hs3 as (Hh3 & Hp3 & Hf3 & Hi3).
  eexists. split; [reflexivity|]. cbn [with_procs sp_procs sp_heap sp_vm sp_bytes sp_libs sp_fds sp_files]. split_and!; try congruence.
  rewrite Hp3, Hp2, Hp1. do 2 f_equal. unfold vbase, prs_pal_proc_elf_offset, u64. by rewrite Zplus_mod_idemp_l.
Qed.

(** C14: Loading a program.  When the file describes a program whose segments are in order,
    lie within the file, do not overlap and have their slots in writable pages, and the
    system has memory and refuses no protection, [prs_pal_proc_load] answers with a process: one range of whole pages
    from the first segment to the end of the last holds, at every address, the byte of the
    segment there (file, then zeros), or zero between segments, with the eight bytes of
    each slot replaced by the address of its symbol; every page has the protection of the
    last segment on it; the libraries the file names are loaded, in order, [libprs.so]
    excepted; the entry point is the file's, moved with the range.  Other memory is
    untouched.  The descriptor and the mapping of the file stay open. *)
Theorem elf_load_exact k pg data answers proc os s :
  0 ≤ k ≤ 20 → page_size = 2 ^ k → map_file ≠ 0 → map_file ≠ MAP_FAILED → file_end < 2 ^ 64 →
  0 ≤ open_file → fstat_error = false →
  read_program = Ret (Some pg) → program_ok pg data → program_end pg - program_start pg + 2 ^ k ≤ 2 ^ 64 →
  heap_answers (sp_heap s) = Some proc :: os → vm_answers (sp_vm s) = data :: answers → vm_denied (sp_vm s) = [] →
  0 < data → data mod page_size = 0 → data + program_size pg < MAP_FAILED →
  let start := program_start pg in
  let size := program_size pg in
  ∃ s', prs_pal_proc_load s = Ret (Some proc, s') ∧
    sp_procs s' !! proc = Some (PrsPalProc size data (u64 (data - start + pg_entry pg))) ∧
    proc ∈ heap_live (sp_heap s') ∧ vm_maps (sp_vm s') = (data, size) :: vm_maps (sp_vm s) ∧
    (∀ v, start ≤ v < start + size →
       sp_bytes s' (v + (data - start)) = reloc_byte (pg_relocs pg) (image_byte (pg_segments pg) 0 v) v ∧
       prot_at (vm_prots (sp_vm s')) (v + (data - start)) =
         image_prot (pg_segments pg) (data - start) PROT_NONE (v + (data - start))) ∧
    (∀ a, ¬ (data ≤ a < data + size) → sp_bytes s' a = sp_bytes s a) ∧
    sp_libs s' = sp_libs s ++ loaded_libraries (pg_needed pg) ∧
    sp_fds s' = open_file :: sp_fds s ∧ sp_files s' = map_file :: sp_files s.
Proof.
  intros Hk Hpage Hm0 Hmap Hfile Hfd Hst Hread Hpk Hext Hheap Hvm Hno Hd0 Hdm Hde start size.
  pose proof Hpk as [Hne Hs0 Hasc Hok Hend Hrel].
  destruct (program_extent k pg Hk Hpage Hne Hasc Hok Hext) as (Hex & Hsz & Hszm). fold start size in Hsz, Hszm.
  pose proof (segments_end_ge _ _ Hasc Hok) as Hge. fold (program_end pg) start in Hge. fold size in Hde.
  unfold MAP_FAILED in Hde. pose proof (page_pos k Hk Hpage) as Hp. set (s1 := Space (Heap ({[proc]} ∪ heap_live (sp_heap s)) os) (<[proc := PrsPalProc 0 0 0]> (sp_procs s))
    (Vm answers ((data, size) :: vm_maps (sp_vm s)) ((data, size, PROT_NONE) :: vm_prots (sp_vm s)) (vm_errors (sp_vm s)) (vm_denied (sp_vm s)))
    (λ a, if (data <=? a) && (a <? data + size) then 0 else sp_bytes s a) (open_file :: sp_fds s) (map_file :: sp_files s) (sp_libs s) (sp_traces s)).
  destruct (load_image_ok k pg data proc s1) as (s2 & Hrun & Hprocs & Hh & Hmaps & Hbytes & Hprot & Hlibs & Hfds & Hfiles); try done.
  { split; [by left|]. split_and!; (done || lia). }
  { intros a Ha. by apply prot_at_new. }
  fold start in Hbytes, Hprot. exists s2. split_and!.
  - unfold read_program in Hread. outcome_inv Hread. destruct x; [|done]. outcome_inv Hread. cbn [negb] in *. outcome_inv Hread.
    unfold prs_pal_proc_load, prs_pal_malloc_zero, malloc. rewrite Hheap. cbn zeta.
    rewrite (proj2 (Z.ltb_ge _ _) Hfd), Hst, (proj2 (Z.eqb_neq _ _) Hm0), (proj2 (Z.eqb_neq _ _) Hmap), Ho. ocbn. cbn [negb].
    rewrite Ho0. ocbn. rewrite Ho1. ocbn. rewrite (load_extent_segments _ _ _ _ _ Ho2). ocbn.
    replace x1 with (pg_segments pg) by (destruct x4 as [[? ?]|]; [|done]; destruct (_ && _); [|done]; outcome_inv Hread; by subst pg).
    rewrite Hex. fold start size. unfold mem_map, prs_pal_mem_map, mmap. cbn [with_heap with_procs with_fds with_files sp_vm]. rewrite Hvm.
    rewrite (proj2 (Z.eqb_neq data MAP_FAILED)), (proj2 (Z.eqb_neq data 0)) by (unfold MAP_FAILED; lia). exact Hrun.
  - rewrite Hprocs. apply lookup_insert_eq.
  - rewrite Hh. cbn. set_solver.
  - done.
  - intros v Hv. rewrite Hbytes, Hprot. unfold s1. cbn [sp_bytes sp_vm vm_prots].
    rewrite prot_at_new by lia. by rewrite (proj2 (Z.leb_le data (v + (data - start)))), (proj2 (Z.ltb_lt (v + (data - start)) (data + size))) by lia.
  - intros a Ha. replace a with ((a - (data - start)) + (data - start)) at 1 by lia. rewrite Hbytes.
    rewrite reloc_byte_outside, (image_byte_outside _ _ start); [|done|done| |].
    + unfold s1. cbn [sp_bytes]. replace (a - (data - start) + (data - start)) with a by lia.
      replace ((data <=? a) && (a <? data + size)) with false; [done|]. symmetry. apply andb_false_iff. rewrite Z.leb_gt, Z.ltb_ge. lia.
    + change (segments_end start (pg_segments pg)) with (program_end pg). lia.
    + intros r Hin Hr. destruct (Hrel r _ Hin Hr) as [Hb _]. fold start size in Hb. lia.
  - done.
  - done.
  - done.
Qed.

(** *** A load that fails *)

Lemma poke_keeps a v s s' : poke a v s = Ret s' → only_bytes s s'.
Proof. unfold poke. destruct (writable _ _); [|done]. injection 1 as <-. by eexists. Qed.

Lemma memset_zero_keeps n : ∀ dst s s', memset_zero n dst s = Ret s' → only_bytes s s'.
Proof.
  induction n as [|n IH]; intros dst s s' Hrun; cbn in Hrun; [injection Hrun as <-; auto with prs|].
  outcome_inv Hrun. eapply only_bytes_trans; [by eapply poke_keeps|by eapply IH].
Qed.

Lemma memcpy_file_keeps n : ∀ dst offset s s', memcpy_file n dst offset s = Ret s' → only_bytes s s'.
Proof.
  induction n as [|n IH]; intros dst offset s s' Hrun; cbn in Hrun; [injection Hrun as <-; auto with prs|].
  outcome_inv Hrun. eapply only_bytes_trans; [by eapply poke_keeps|by eapply IH].
Qed.

Lemma protect_maps addr size flags m : vm_maps (prs_pal_mem_protect page_size addr size flags m) = vm_maps m.
Proof. unfold prs_pal_mem_protect, mprotect. destruct (_ && _); [|done]. by destruct (head (vm_denied m)) as [[part|]|]. Qed.

Definition keeps (s s' : space) : Prop :=
  same_rest s s' ∧ sp_libs s' = sp_libs s ∧ vm_maps (sp_vm s') = vm_maps (sp_vm s).

Lemma keeps_trans s1 s2 s3 : keeps s1 s2 → keeps s2 s3 → keeps s1 s3.
Proof. intros (Hr1&?&?) (Hr2&?&?). split; [by eapply same_rest_trans|]. split; congruence. Qed.

Lemma only_bytes_keeps s s' : only_bytes s s' → keeps s s'.
Proof. by intros [b ->]. Qed.

Lemma mem_protect_keeps addr size flags s : keeps s (mem_protect addr size flags s).
Proof. split; [done|]. split; [done|]. apply protect_maps. Qed.

Lemma load_segment_keeps vbase phdr s s' : load_segment vbase phdr s = Ret s' → keeps s s'.
Proof.
  unfold load_segment. intros Hrun. outcome_inv Hrun. subst s'.
  eapply keeps_trans; [apply mem_protect_keeps|]. eapply keeps_trans; [by eapply only_bytes_keeps, memcpy_file_keeps|].
  eapply keeps_trans; [by eapply only_bytes_keeps, memset_zero_keeps|]. apply mem_protect_keeps.
Qed.

Lemma load_segments_keeps n : ∀ vbase phdr s s', load_segments n vbase phdr s = Ret s' → keeps s s'.
Proof.
  induction n as [|n IH]; intros vbase phdr s s' Hrun; cbn [load_segments] in Hrun; [by injection Hrun as <-|].
  outcome_inv Hrun. eapply keeps_trans; [|by eapply IH]. destruct (negb _); [by injection Ho0 as <-|by eapply load_segment_keeps].
Qed.

(** The record is freed, and the range, if there is one, given back. *)
Lemma load_cleanup_exact proc data size s r s' :
  load_cleanup proc data size s = Ret (r, s') →
  r = None ∧ heap_live (sp_heap s') = heap_live (sp_heap s) ∖ {[proc]} ∧ sp_procs s' = delete proc (sp_procs s) ∧
  sp_fds s' = sp_fds s ∧ sp_files s' = sp_files s ∧ sp_libs s' = sp_libs s ∧
  vm_maps (sp_vm s') = if truthy data && (data mod page_size =? 0)
    then filter (λ r, ¬ (r.1 = data ∧ r.2 = size)) (vm_maps (sp_vm s)) else vm_maps (sp_vm s).
Proof.
  unfold load_cleanup, prs_pal_free, free, munmap. destruct (truthy data); cbn [andb];
    [destruct (data mod page_size =? 0)|]; cbn [with_vm sp_heap]; destruct (decide _); ocbn; try done; by injection 1 as <- <-.
Qed.

(** The next mapping is new, and lies on a page boundary. *)
Definition fresh_mapping (m : vm) : Prop :=
  ∀ addr answers, vm_answers m = addr :: answers → addr ≠ MAP_FAILED →
    addr mod page_size = 0 ∧ addr ≠ 0 ∧ ∀ r, r ∈ vm_maps m → r.1 ≠ addr.

Lemma filter_all {A : Type} (P : A → Prop) `{!∀ x, Decision (P x)} (l : list A) : Forall P l → filter P l = l.
Proof. induction 1 as [|x l Hx _ IH]; [done|]. by rewrite filter_cons_True, IH. Qed.

Lemma mem_map_parts size flags s data s' :
  fresh_mapping (sp_vm s) → mem_map size flags s = (data, s') →
  same_rest s s' ∧ sp_libs s' = sp_libs s ∧
  (data = MAP_FAILED ∧ vm_maps (sp_vm s') = vm_maps (sp_vm s) ∨
   data mod page_size = 0 ∧ data ≠ 0 ∧ vm_maps (sp_vm s') = (data, size) :: vm_maps (sp_vm s) ∧ ∀ r, r ∈ vm_maps (sp_vm s) → r.1 ≠ data).
Proof.
  intros Hfresh. unfold mem_map, prs_pal_mem_map, mmap. unfold fresh_mapping in Hfresh.
  destruct (vm_answers (sp_vm s)) as [|addr answers]; [injection 1 as <- <-; split; [done|split; [done|by left]]|].
  destruct (Z.eqb_spec addr MAP_FAILED) as [->|Hne]; [injection 1 as <- <-; split; [done|split; [done|by left]]|].
  destruct (Hfresh addr answers eq_refl Hne) as (Hal & H0 & Hnew). injection 1 as <- <-.
  rewrite (proj2 (Z.eqb_neq _ _) H0). split; [done|]. split; [done|]. right. by split_and!.
Qed.

Lemma load_image_failure proc data size vstart s s' :
  load_image proc data size vstart s = Ret (None, s') → ∃ s1, keeps s s1 ∧ load_cleanup proc data size s1 = Ret (None, s').
Proof.
  unfold load_image. intros Hrun. outcome_inv Hrun. destruct x4 as [[symbols strings]|].
  - destruct (_ && _).
    + outcome_inv Hrun. done.
    + exists (ftrace x1). split; [exact (load_segments_keeps _ _ _ _ _ Ho1)|done].
  - exists (ftrace x1). split; [exact (load_segments_keeps _ _ _ _ _ Ho1)|done].
Qed.

(** Reads the parts of a failure before the memory was there. *)
Ltac failed_parts H :=
  destruct H as (_ & -> & -> & -> & -> & -> & ->); split_and!; [set_solver|by apply delete_insert_id|done..].

(** C15: A load that fails leaves no memory behind.  Whatever the file holds, when
    [prs_pal_proc_load] answers with null the blocks and the mappings of the process, its
    records and its libraries are those from before.  What it does leave behind, unless
    there was no memory for the record or no such file, is the open descriptor, and the
    mapping of the file when there was one. *)
Theorem elf_load_failure s s' :
  heap_ok (sp_heap s) → (∀ l, Some l ∈ heap_answers (sp_heap s) → sp_procs s !! l = None) →
  fresh_mapping (sp_vm s) → MAP_FAILED mod page_size ≠ 0 →
  prs_pal_proc_load s = Ret (None, s') →
  let record := match heap_answers (sp_heap s) with Some _ :: _ => true | _ => false end in
  let opened := record && negb (open_file <? 0) in
  heap_live (sp_heap s') = heap_live (sp_heap s) ∧ sp_procs s' = sp_procs s ∧
  vm_maps (sp_vm s') = vm_maps (sp_vm s) ∧ sp_libs s' = sp_libs s ∧
  sp_fds s' = (if opened then [open_file] else []) ++ sp_fds s ∧
  sp_files s' = (if opened && negb fstat_error && truthy map_file then [map_file] else []) ++ sp_files s.
Proof.
  intros Hok Hprocs Hfresh Hmf Hrun record opened. unfold opened, record. unfold prs_pal_proc_load, prs_pal_malloc_zero in Hrun.
  destruct (malloc (sp_heap s)) as [p h] eqn:Em. pose proof (malloc_ok _ _ _ Hok Em) as [_ Hlive].
  unfold malloc in Em. destruct (heap_answers (sp_heap s)) as [|[proc|] os] eqn:Ea; injection Em as <- <-; [by injection Hrun as <-| |by injection Hrun as <-].
  destruct Hlive as [Hnl _]. pose proof (Hprocs proc ltac:(by left)) as Hnp. cbn [andb heap_live sp_heap with_heap with_procs sp_procs] in *.
  destruct (open_file <? 0); [apply load_cleanup_exact in Hrun; cbn in Hrun; failed_parts Hrun|].
  destruct fstat_error; [apply load_cleanup_exact in Hrun; cbn in Hrun; failed_parts Hrun|].
  unfold truthy. destruct (map_file =? 0); [apply load_cleanup_exact in Hrun; cbn in Hrun; failed_parts Hrun|].
  destruct (map_file =? MAP_FAILED) eqn:Emf.
  { unfold ident_matches, e_ident, peek in Hrun. rewrite Emf in Hrun. done. }
  outcome_inv Hrun. destruct x; cbn [negb] in Hrun; [|apply load_cleanup_exact in Hrun; cbn in Hrun; failed_parts Hrun].
  outcome_inv Hrun. destruct x1 as [[vstart|] size]; [|apply load_cleanup_exact in Hrun; cbn in Hrun; failed_parts Hrun].
  destruct (mem_map _ _ _) as [data s2] eqn:Emap. apply mem_map_parts in Emap as ((Hh & Hp & Hf & Hi) & Hl & Hm); [|exact Hfresh].
  assert (∃ s3, keeps s2 s3 ∧ load_cleanup proc data (prs_bitops_align_size size page_size) s3 = Ret (None, s')) as (s3 & Hk & Hc).
  { revert Hrun. destruct (Z.eqb_spec data 0) as [->|?]; intros Hrun; [exists (ftrace s2); split; [by repeat split|exact Hrun]|]. by eapply load_image_failure. }
  destruct Hk as ((Hh3 & Hp3 & Hf3 & Hi3) & Hl3 & Hm3). apply load_cleanup_exact in Hc as (_ & -> & -> & -> & -> & -> & ->).
  rewrite Hh3, Hp3, Hf3, Hi3, Hl3, Hm3, Hh, Hp, Hf, Hi, Hl. cbn. split_and!; [set_solver|by apply delete_insert_id| |done..].
  destruct Hm as [(-> & ->)|(Hal & H0 & -> & Hnew)].
  - by rewrite (proj2 (Z.eqb_neq _ _) Hmf).
  - unfold truthy. rewrite (proj2 (Z.eqb_neq _ _) H0), (proj2 (Z.eqb_eq _ _) Hal). cbn [negb andb].
    rewrite filter_cons_False by (cbn; tauto). apply filter_all. apply Forall_forall. intros r Hr [Hr1 _]. by apply (Hnew r).
Qed.
End load.

(** ** A file *)

Fixpoint le_bytes (n : nat) (v : Z) : list Z :=
  match n with O => [] | S n => v mod 256 :: le_bytes n (v / 256) end.

Definition demo_ident : list Z := [0x7f; 0x45; 0x4c; 0x46; 2; 1; 1; 0] ++ replicate 8 0.
Definition demo_ehdr (entry phoff shoff phnum shnum : Z) : list Z :=
  demo_ident ++ le_bytes 2 3 ++ le_bytes 2 62 ++ le_bytes 4 1 ++ le_bytes 8 entry ++ le_bytes 8 phoff ++ le_bytes 8 shoff ++
  le_bytes 4 0 ++ le_bytes 2 64 ++ le_bytes 2 56 ++ le_bytes 2 phnum ++ le_bytes 2 64 ++ le_bytes 2 shnum ++ le_bytes 2 0.
Definition demo_phdr (type flags offset vaddr filesz memsz : Z) : list Z :=
  le_bytes 4 type ++ le_bytes 4 flags ++ le_bytes 8 offset ++ le_bytes 8 vaddr ++ le_bytes 8 vaddr ++ le_bytes 8 filesz ++
  le_bytes 8 memsz ++ le_bytes 8 16.
Definition demo_shdr (type offset size link : Z) : list Z :=
  le_bytes 4 0 ++ le_bytes 4 type ++ le_bytes 8 0 ++ le_bytes 8 0 ++ le_bytes 8 offset ++ le_bytes 8 size ++ le_bytes 4 link ++ le_bytes 20 0.

(** Headers at 0, segments at 64, sections at 232, then strings, symbols, the dynamic
    section, relocations, and twelve bytes for the two segments. *)
Definition demo_file : list Z :=
  demo_ehdr 4 64 232 3 4 ++
  demo_phdr 6 4 64 0 168 168 ++ demo_phdr PT_LOAD 5 616 0 8 20 ++ demo_phdr PT_LOAD 6 624 48 4 24 ++
  demo_shdr SHT_DYNAMIC 536 32 2 ++ demo_shdr SHT_DYNSYM 512 24 2 ++ demo_shdr 3 488 24 0 ++ demo_shdr SHT_RELA 568 48 1 ++
  (* 488: "", "libprs.so", "libm", "f" *)
  ([0] ++ LIBPRS ++ [0; 108; 105; 98; 109; 0; 102; 0] ++ replicate 6 0) ++
  (le_bytes 4 16 ++ replicate 20 0) ++
  (le_bytes 8 DT_NEEDED ++ le_bytes 8 1 ++ le_bytes 8 DT_NEEDED ++ le_bytes 8 11) ++
  (le_bytes 8 56 ++ le_bytes 8 7 ++ le_bytes 8 0 ++ le_bytes 8 0 ++ le_bytes 8 8 ++ le_bytes 8 0) ++
  [1; 2; 3; 4; 5; 6; 7; 8] ++ [9; 10; 11; 12].

(** Pages of 16 bytes; every library loads, and ["f"] is at a fixed address. *)
#[export] Instance demo_system : LoaderSystem := {|
  page_size := 16;
  huge_page_size := 0;
  open_file := 3;
  fstat_error := false;
  file := demo_file;
  map_file := 0x700000;
  dlopen := λ _, true;
  dlsym := λ name, if bool_decide (name = [102]) then 0x123456 else 0
|}.

Definition demo_program : program :=
  Program [Segment 0 20 8 616 5; Segment 48 24 4 624 6] [LIBPRS; [108; 105; 98; 109]] [Some (Reloc 56 0x123456)] 4.

Definition demo_space : space :=
  Space (Heap ∅ [Some 7%positive]) ∅ (Vm [0x10000] [] [] 0 []) (λ _, 255) [] [] [] 0.

Lemma demo_read : read_program = Ret (Some demo_program).
Proof. vm_compute. reflexivity. Qed.

Lemma demo_program_ok : program_ok demo_program 0x10000.
Proof.
  split.
  - discriminate.
  - vm_compute. discriminate.
  - repeat split; vm_compute; discriminate.
  - repeat constructor; vm_compute; discriminate.
  - vm_compute. reflexivity.
  - intros r v Hr Hv. apply list_elem_of_singleton in Hr. injection Hr as ->. cbn [rl_slot] in Hv. split.
    + change (program_start demo_program) with 0. change (program_size demo_program) with 80. lia.
    + assert (v = 56 ∨ v = 57 ∨ v = 58 ∨ v = 59 ∨ v = 60 ∨ v = 61 ∨ v = 62 ∨ v = 63) as Hc by lia.
      destruct_or! Hc; subst v; vm_compute; reflexivity.
Qed.

(** What the memory of the program is: text, cleared bytes, data and the slot. *)
Lemma elf_load_exact_witness :
  ∃ s', prs_pal_proc_load demo_space = Ret (Some 7%positive, s') ∧
    sp_procs s' !! 7%positive = Some (PrsPalProc 80 0x10000 0x10004) ∧
    sp_bytes s' 0x10002 = 3 ∧ sp_bytes s' 0x10010 = 0 ∧ sp_bytes s' 0x10033 = 12 ∧ sp_bytes s' 0x10039 = 0x34 ∧
    prot_at (vm_prots (sp_vm s')) 0x10039 = 3 ∧ sp_libs s' = [[108; 105; 98; 109]] ∧ sp_fds s' = [3].
Proof.
  destruct (elf_load_exact 4 demo_program 0x10000 [] 7%positive [] demo_space) as (s' & Hrun & Hp & _ & _ & Hb & _ & Hl & Hf & _);
    [lia|reflexivity|discriminate|discriminate|vm_compute; reflexivity|vm_compute; discriminate|reflexivity|exact demo_read|
     exact demo_program_ok|vm_compute; discriminate|reflexivity|reflexivity|reflexivity|lia|reflexivity|vm_compute; reflexivity|].
  change (program_start demo_program) with 0 in Hb. change (program_size demo_program) with 80 in Hb.
  exists s'. split; [exact Hrun|]. split; [rewrite Hp; vm_compute; reflexivity|].
  split; [apply (Hb 2); lia|]. split; [apply (Hb 16); lia|]. split; [apply (Hb 51); lia|]. split; [apply (Hb 57); lia|].
  split; [apply (Hb 57); lia|]. split; [rewrite Hl; vm_compute; reflexivity|exact Hf].
Defined.

(** The file of the example, but for another machine's class: the load fails. *)
#[local] Instance bad_system : LoaderSystem := {|
  page_size := 16;
  huge_page_size := 0;
  open_file := 3;
  fstat_error := false;
  file := [0x7f; 0x45; 0x4c; 0x46; 1; 1; 1; 0];
  map_file := 0x700000;
  dlopen := λ _, true;
  dlsym := λ _, 0
|}.

Lemma elf_load_failure_witness :
  ∃ s', @prs_pal_proc_load bad_system demo_space = Ret (None, s') ∧ heap_live (sp_heap s') = ∅ ∧ sp_fds s' = [3] ∧ sp_files s' = [0x700000].
Proof.
  destruct (@prs_pal_proc_load bad_system demo_space) as [[r s']| |] eqn:Hrun; [|exfalso; vm_compute in Hrun; discriminate..].
  assert (r = None) as -> by (vm_compute in Hrun; by injection Hrun as <- _).
  destruct (@elf_load_failure bad_system demo_space s') as (Hh & _ & _ & _ & Hf & Hi).
  - split; [apply NoDup_singleton|]. intros l _. apply not_elem_of_empty.
  - done.
  - intros addr answers [=<- <-] _. split; [reflexivity|]. split; [discriminate|]. intros r Hr. by apply elem_of_nil in Hr.
  - vm_compute. discriminate.
  - exact Hrun.
  - exists s'. split; [reflexivity|]. split; [exact Hh|]. split; [exact Hf|exact Hi].
Defined.
