(* ===== verification/Signal.v ===== *)
(** * Signals, threads and interval timers (prs/pal/posix/signal.c, excp.c, pit.c, thread.c, prs/pal/linux/os.c)

    Which signals a thread can get and what they do, the creation and destruction of
    threads, and the timer that ticks the clock, at the level of the calls of the system.
    A system call that fails has no effect; [os_fails] says which of the next calls do.
    Threads are numbered; [self] is the calling one. *)

From S2P Require Import Prelude Heap Bitops Stack Atomic RefDir Kern Pal Worker Task Event Timer Clock Name.
From S2P Require Import Sched TaskLife Proc Excp.

(** ** The process *)

Definition SIGINT : Z := 2.
Definition SIGILL : Z := 4.
Definition SIGBUS : Z := 7.
Definition SIGFPE : Z := 8.
Definition SIGUSR1 : Z := 10.
Definition SIGSEGV : Z := 11.
Definition SIGALRM : Z := 14.
Definition SIGSYS : Z := 31.

Definition SA_SIGINFO : Z := 0x4.
Definition SA_ONSTACK : Z := 0x08000000.

(** [SIG_DFL] is the null pointer, [SIG_IGN] an address where there is no code; the
    functions of PRS, and those that others have installed. *)
Inductive sighandler : Set :=
  | SIG_DFL
  | SIG_IGN
  | ExcpSighandler
  | PitSighandler
  | ThreadSighandler
  | UserInterrupt
  | Foreign (f : Z).

Record sigaction : Type := Sigaction {
  sa_handler : sighandler;
  sa_flags : Z;
  sa_mask : Z → bool
}.

(** [sigset_t] *)
Definition sigfull : Z → bool := λ _, true.

(** Calls out of the modelled code: a handler that is chained to, with its signal and
    whether it gets the information, and the timer's callback with its argument. *)
Inductive call : Set :=
  | Chained (handler : sighandler) (signum : Z) (siginfo : bool)
  | Callback (callback userdata : Z).

Inductive prs_pal_thread_prio : Set :=
  | PRS_PAL_THREAD_PRIO_IDLE
  | PRS_PAL_THREAD_PRIO_LOW
  | PRS_PAL_THREAD_PRIO_NORMAL
  | PRS_PAL_THREAD_PRIO_HIGH
  | PRS_PAL_THREAD_PRIO_REALTIME.

(** [struct prs_pal_pit]; a semaphore has a count once it is initialised. *)
Record prs_pal_pit : Type := PrsPalPit {
  pt_userdata : Z;
  pt_callback : Z;
  pt_period : Z;
  pt_use_current_thread : bool;
  pt_thread : ptr;
  pt_exit_sem : option Z
}.

(** [struct prs_pal_thread] of thread.c; [th_id]: the number of the thread. *)
Record pal_thread : Type := PalThread {
  th_id : option nat;
  th_prio : prs_pal_thread_prio;
  th_affinity : Z;
  th_from_current : bool;
  th_userdata : ptr;
  th_started : bool;
  th_exited : bool;
  th_idle_sem : option Z
}.

(** What a thread has of its own: the variables in thread-local storage, and what the system
    keeps for it. *)
Record tls : Type := Tls {
  tl_initialized : bool;
  tl_stack : Z;
  tl_pit : ptr;
  tl_thread : ptr;
  tl_altstack : option (Z * Z);
  tl_blocked : Z → bool;
  tl_affinity : Z → bool;
  tl_policy : Z * Z
}.

(** The timer is the process's [ITIMER_REAL], in microseconds; 0 when it is off. *)
Record process : Type := Process {
  os_fails : list bool;
  os_heap : heap;
  os_vm : vm;
  os_actions : Z → sigaction;
  os_timer : Z;
  os_excp_done : bool;
  os_excp_prev : sigaction;
  os_pit_done : bool;
  os_pit_prev : sigaction;
  os_thread_done : bool;
  os_thread_prev : sigaction;
  os_pits : gmap loc prs_pal_pit;
  os_threads : gmap loc pal_thread;
  os_tls : gmap nat tls;
  os_calls : list call
}.

Definition set_pt_userdata (v : Z) (e : prs_pal_pit) : prs_pal_pit :=
  PrsPalPit v (pt_callback e) (pt_period e) (pt_use_current_thread e) (pt_thread e) (pt_exit_sem e).
Definition set_pt_callback (v : Z) (e : prs_pal_pit) : prs_pal_pit :=
  PrsPalPit (pt_userdata e) v (pt_period e) (pt_use_current_thread e) (pt_thread e) (pt_exit_sem e).
Definition set_pt_period (v : Z) (e : prs_pal_pit) : prs_pal_pit :=
  PrsPalPit (pt_userdata e) (pt_callback e) v (pt_use_current_thread e) (pt_thread e) (pt_exit_sem e).
Definition set_pt_use_current_thread (v : bool) (e : prs_pal_pit) : prs_pal_pit :=
  PrsPalPit (pt_userdata e) (pt_callback e) (pt_period e) v (pt_thread e) (pt_exit_sem e).
Definition set_pt_thread (v : ptr) (e : prs_pal_pit) : prs_pal_pit :=
  PrsPalPit (pt_userdata e) (pt_callback e) (pt_period e) (pt_use_current_thread e) v (pt_exit_sem e).
Definition set_pt_exit_sem (v : option Z) (e : prs_pal_pit) : prs_pal_pit :=
  PrsPalPit (pt_userdata e) (pt_callback e) (pt_period e) (pt_use_current_thread e) (pt_thread e) v.

Definition set_th_id (v : option nat) (e : pal_thread) : pal_thread :=
  PalThread v (th_prio e) (th_affinity e) (th_from_current e) (th_userdata e) (th_started e) (th_exited e) (th_idle_sem e).
Definition set_th_prio (v : prs_pal_thread_prio) (e : pal_thread) : pal_thread :=
  PalThread (th_id e) v (th_affinity e) (th_from_current e) (th_userdata e) (th_started e) (th_exited e) (th_idle_sem e).
Definition set_th_affinity (v : Z) (e : pal_thread) : pal_thread :=
  PalThread (th_id e) (th_prio e) v (th_from_current e) (th_userdata e) (th_started e) (th_exited e) (th_idle_sem e).
Definition set_th_from_current (v : bool) (e : pal_thread) : pal_thread :=
  PalThread (th_id e) (th_prio e) (th_affinity e) v (th_userdata e) (th_started e) (th_exited e) (th_idle_sem e).
Definition set_th_userdata (v : ptr) (e : pal_thread) : pal_thread :=
  PalThread (th_id e) (th_prio e) (th_affinity e) (th_from_current e) v (th_started e) (th_exited e) (th_idle_sem e).
Definition set_th_started (v : bool) (e : pal_thread) : pal_thread :=
  PalThread (th_id e) (th_prio e) (th_affinity e) (th_from_current e) (th_userdata e) v (th_exited e) (th_idle_sem e).
Definition set_th_exited (v : bool) (e : pal_thread) : pal_thread :=
  PalThread (th_id e) (th_prio e) (th_affinity e) (th_from_current e) (th_userdata e) (th_started e) v (th_idle_sem e).
Definition set_th_idle_sem (v : option Z) (e : pal_thread) : pal_thread :=
  PalThread (th_id e) (th_prio e) (th_affinity e) (th_from_current e) (th_userdata e) (th_started e) (th_exited e) v.

Definition set_tl_initialized (v : bool) (e : tls) : tls :=
  Tls v (tl_stack e) (tl_pit e) (tl_thread e) (tl_altstack e) (tl_blocked e) (tl_affinity e) (tl_policy e).
Definition set_tl_stack (v : Z) (e : tls) : tls :=
  Tls (tl_initialized e) v (tl_pit e) (tl_thread e) (tl_altstack e) (tl_blocked e) (tl_affinity e) (tl_policy e).
Definition set_tl_pit (v : ptr) (e : tls) : tls :=
  Tls (tl_initialized e) (tl_stack e) v (tl_thread e) (tl_altstack e) (tl_blocked e) (tl_affinity e) (tl_policy e).
Definition set_tl_thread (v : ptr) (e : tls) : tls :=
  Tls (tl_initialized e) (tl_stack e) (tl_pit e) v (tl_altstack e) (tl_blocked e) (tl_affinity e) (tl_policy e).
Definition set_tl_altstack (v : option (Z * Z)) (e : tls) : tls :=
  Tls (tl_initialized e) (tl_stack e) (tl_pit e) (tl_thread e) v (tl_blocked e) (tl_affinity e) (tl_policy e).
Definition set_tl_blocked (v : Z → bool) (e : tls) : tls :=
  Tls (tl_initialized e) (tl_stack e) (tl_pit e) (tl_thread e) (tl_altstack e) v (tl_affinity e) (tl_policy e).
Definition set_tl_affinity (v : Z → bool) (e : tls) : tls :=
  Tls (tl_initialized e) (tl_stack e) (tl_pit e) (tl_thread e) (tl_altstack e) (tl_blocked e) v (tl_policy e).
Definition set_tl_policy (v : Z * Z) (e : tls) : tls :=
  Tls (tl_initialized e) (tl_stack e) (tl_pit e) (tl_thread e) (tl_altstack e) (tl_blocked e) (tl_affinity e) v.

Definition with_os_fails (v : list bool) (s : process) : process :=
  Process v (os_heap s) (os_vm s) (os_actions s) (os_timer s) (os_excp_done s) (os_excp_prev s) (os_pit_done s) (os_pit_prev s) (os_thread_done s) (os_thread_prev s) (os_pits s) (os_threads s) (os_tls s) (os_calls s).
Definition with_os_heap (v : heap) (s : process) : process :=
  Process (os_fails s) v (os_vm s) (os_actions s) (os_timer s) (os_excp_done s) (os_excp_prev s) (os_pit_done s) (os_pit_prev s) (os_thread_done s) (os_thread_prev s) (os_pits s) (os_threads s) (os_tls s) (os_calls s).
Definition with_os_vm (v : vm) (s : process) : process :=
  Process (os_fails s) (os_heap s) v (os_actions s) (os_timer s) (os_excp_done s) (os_excp_prev s) (os_pit_done s) (os_pit_prev s) (os_thread_done s) (os_thread_prev s) (os_pits s) (os_threads s) (os_tls s) (os_calls s).
Definition with_os_actions (v : Z → sigaction) (s : process) : process :=
  Process (os_fails s) (os_heap s) (os_vm s) v (os_timer s) (os_excp_done s) (os_excp_prev s) (os_pit_done s) (os_pit_prev s) (os_thread_done s) (os_thread_prev s) (os_pits s) (os_threads s) (os_tls s) (os_calls s).
Definition with_os_timer (v : Z) (s : process) : process :=
  Process (os_fails s) (os_heap s) (os_vm s) (os_actions s) v (os_excp_done s) (os_excp_prev s) (os_pit_done s) (os_pit_prev s) (os_thread_done s) (os_thread_prev s) (os_pits s) (os_threads s) (os_tls s) (os_calls s).
Definition with_os_excp_done (v : bool) (s : process) : process :=
  Process (os_fails s) (os_heap s) (os_vm s) (os_actions s) (os_timer s) v (os_excp_prev s) (os_pit_done s) (os_pit_prev s) (os_thread_done s) (os_thread_prev s) (os_pits s) (os_threads s) (os_tls s) (os_calls s).
Definition with_os_excp_prev (v : sigaction) (s : process) : process :=
  Process (os_fails s) (os_heap s) (os_vm s) (os_actions s) (os_timer s) (os_excp_done s) v (os_pit_done s) (os_pit_prev s) (os_thread_done s) (os_thread_prev s) (os_pits s) (os_threads s) (os_tls s) (os_calls s).
Definition with_os_pit_done (v : bool) (s : process) : process :=
  Process (os_fails s) (os_heap s) (os_vm s) (os_actions s) (os_timer s) (os_excp_done s) (os_excp_prev s) v (os_pit_prev s) (os_thread_done s) (os_thread_prev s) (os_pits s) (os_threads s) (os_tls s) (os_calls s).
Definition with_os_pit_prev (v : sigaction) (s : process) : process :=
  Process (os_fails s) (os_heap s) (os_vm s) (os_actions s) (os_timer s) (os_excp_done s) (os_excp_prev s) (os_pit_done s) v (os_thread_done s) (os_thread_prev s) (os_pits s) (os_threads s) (os_tls s) (os_calls s).
Definition with_os_thread_done (v : bool) (s : process) : process :=
  Process (os_fails s) (os_heap s) (os_vm s) (os_actions s) (os_timer s) (os_excp_done s) (os_excp_prev s) (os_pit_done s) (os_pit_prev s) v (os_thread_prev s) (os_pits s) (os_threads s) (os_tls s) (os_calls s).
Definition with_os_thread_prev (v : sigaction) (s : process) : process :=
  Process (os_fails s) (os_heap s) (os_vm s) (os_actions s) (os_timer s) (os_excp_done s) (os_excp_prev s) (os_pit_done s) (os_pit_prev s) (os_thread_done s) v (os_pits s) (os_threads s) (os_tls s) (os_calls s).
Definition with_os_pits (v : gmap loc prs_pal_pit) (s : process) : process :=
  Process (os_fails s) (os_heap s) (os_vm s) (os_actions s) (os_timer s) (os_excp_done s) (os_excp_prev s) (os_pit_done s) (os_pit_prev s) (os_thread_done s) (os_thread_prev s) v (os_threads s) (os_tls s) (os_calls s).
Definition with_os_threads (v : gmap loc pal_thread) (s : process) : process :=
  Process (os_fails s) (os_heap s) (os_vm s) (os_actions s) (os_timer s) (os_excp_done s) (os_excp_prev s) (os_pit_done s) (os_pit_prev s) (os_thread_done s) (os_thread_prev s) (os_pits s) v (os_tls s) (os_calls s).
Definition with_os_tls (v : gmap nat tls) (s : process) : process :=
  Process (os_fails s) (os_heap s) (os_vm s) (os_actions s) (os_timer s) (os_excp_done s) (os_excp_prev s) (os_pit_done s) (os_pit_prev s) (os_thread_done s) (os_thread_prev s) (os_pits s) (os_threads s) v (os_calls s).
Definition with_os_calls (v : list call) (s : process) : process :=
  Process (os_fails s) (os_heap s) (os_vm s) (os_actions s) (os_timer s) (os_excp_done s) (os_excp_prev s) (os_pit_done s) (os_pit_prev s) (os_thread_done s) (os_thread_prev s) (os_pits s) (os_threads s) (os_tls s) v.

(** A field of an entry of a table, and a static variable. *)
Definition entry {K E V : Type} `{Countable K} (get : process → gmap K E) (put : gmap K E → process → process)
    (proj : E → V) (upd : V → E → E) (k : K) : cell process V :=
  Cell (λ s, e ← deref (get s !! k); Ret (proj e))
       (λ v s, e ← deref (get s !! k); Ret (put (<[k := upd v e]> (get s)) s)).
Definition static {V : Type} (get : process → V) (put : V → process → process) : cell process V :=
  Cell (λ s, Ret (get s)) (λ v s, Ret (put v s)).
Definition own {V : Type} (proj : tls → V) (upd : V → tls → tls) (self : nat) : cell process V :=
  entry os_tls with_os_tls proj upd self.
Definition pit_field {V : Type} (proj : prs_pal_pit → V) (upd : V → prs_pal_pit → prs_pal_pit) (pit : loc) : cell process V :=
  entry os_pits with_os_pits proj upd pit.
Definition thread_field {V : Type} (proj : pal_thread → V) (upd : V → pal_thread → pal_thread) (thread : loc) : cell process V :=
  entry os_threads with_os_threads proj upd thread.

Definition stop_if (cond : bool) : prog process unit := act (λ s, _ ← fatal_when cond; Ret (tt, s)).
Definition not_null (p : ptr) : prog process loc := act (λ s, l ← deref p; Ret (l, s)).

(** A system call: whether it failed. *)
Definition syscall (f : process → outcome process) : prog process bool :=
  act (λ s,
    match os_fails s with
    | true :: fails => Ret (true, with_os_fails fails s)
    | false :: fails => s ← f (with_os_fails fails s); Ret (false, s)
    | [] => s ← f s; Ret (false, s)
    end).

(** ** Signals (posix/signal.c) *)

Inductive sigmask_how : Set := SIG_BLOCK | SIG_UNBLOCK.

Definition pthread_sigmask (self : nat) (how : sigmask_how) (set : Z → bool) : prog process bool :=
  syscall (λ s,
    e ← deref (os_tls s !! self);
    let blocked := λ n, match how with SIG_BLOCK => tl_blocked e n || set n | SIG_UNBLOCK => tl_blocked e n && negb (set n) end in
    Ret (with_os_tls (<[self := set_tl_blocked blocked e]> (os_tls s)) s)).

Section posix.
(** The sizes of pages and of signal stacks of the system. *)
Context (page_size huge_page_size SIGSTKSZ : Z) (self : nat).

Definition prs_pal_signal_init : prog process prs_result :=
  initialized ← read (own tl_initialized set_tl_initialized self);
  if (initialized : bool) then mret PRS_OK
  else
    '(stack_top, stack_size) ← act (λ s,
      let '(top, size, m) := Stack.prs_stack_create page_size huge_page_size SIGSTKSZ (os_vm s) in Ret ((top, size), with_os_vm m s));
    _ ← stop_if (stack_top =? 0);
    let stack := u64 (stack_top - stack_size) in
    _ ← write (own tl_stack set_tl_stack self) stack;
    error ← syscall (cell_set (own tl_altstack set_tl_altstack self) (Some (stack, stack_size)));
    if (error : bool) then mret PRS_PLATFORM_ERROR
    else
      (* sigfillset *)
      error ← syscall Ret;
      if (error : bool) then mret PRS_PLATFORM_ERROR
      else
        error ← pthread_sigmask self SIG_BLOCK sigfull;
        if (error : bool) then mret PRS_PLATFORM_ERROR
        else _ ← write (own tl_initialized set_tl_initialized self) true; mret PRS_OK.

Definition prs_pal_signal_set (signum : Z) (action : sigmask_how) : prog process prs_result :=
  result ← prs_pal_signal_init;
  if negb (bool_decide (result = PRS_OK)) then mret result
  else
    (* sigemptyset, sigaddset *)
    error ← syscall Ret;
    if (error : bool) then mret PRS_PLATFORM_ERROR
    else
      error ← syscall Ret;
      if (error : bool) then mret PRS_PLATFORM_ERROR
      else
        error ← pthread_sigmask self action (λ n, n =? signum);
        mret (if (error : bool) then PRS_PLATFORM_ERROR else PRS_OK).

Definition prs_pal_signal_block (signum : Z) : prog process prs_result := prs_pal_signal_set signum SIG_BLOCK.
Definition prs_pal_signal_unblock (signum : Z) : prog process prs_result := prs_pal_signal_set signum SIG_UNBLOCK.

(** [prev]: where the action from before goes, if anywhere. *)
Definition prs_pal_signal_action (signum : Z) (handler : sighandler) (prev : option (cell process sigaction)) :
    prog process prs_result :=
  (* sigfillset *)
  error ← syscall Ret;
  if (error : bool) then mret PRS_PLATFORM_ERROR
  else
    let sa := Sigaction handler (Z.lor SA_ONSTACK SA_SIGINFO) sigfull in
    error ← syscall (λ s,
      let old := os_actions s signum in
      let s := with_os_actions (λ n, if n =? signum then sa else os_actions s n) s in
      match prev with Some prev => cell_set prev old s | None => Ret s end);
    mret (if (error : bool) then PRS_PLATFORM_ERROR else PRS_OK).

(** The address [SIG_IGN] is called like a function when it is the action to chain to. *)
Definition prs_pal_signal_chain (signum : Z) (action : cell process sigaction) : prog process unit :=
  sa ← read action;
  match sa_handler sa with
  | SIG_DFL => mret tt
  | SIG_IGN => act (λ _, Undef)
  | handler =>
      act (λ s, Ret (tt, with_os_calls (os_calls s ++ [Chained handler signum (truthy (Z.land (sa_flags sa) SA_SIGINFO))]) s))
  end.

(** A loop over signals that returns at the first failure. *)
Fixpoint for_signals (f : Z → prog process prs_result) (signums : list Z) : prog process prs_result :=
  match signums with
  | [] => mret PRS_OK
  | signum :: signums =>
      result ← f signum;
      if negb (bool_decide (result = PRS_OK)) then mret result else for_signals f signums
  end.

(** Handlers are installed once in the life of the process. *)
Definition install_once (done_ : cell process bool) (prev : cell process sigaction) (handler : sighandler) (signums : list Z) :
    prog process prs_result :=
  was ← prs_pal_atomic_exchange done_ true;
  if (was : bool) then mret PRS_OK
  else for_signals (λ signum, prs_pal_signal_action signum handler (Some prev)) signums.

(** ** Exceptions (posix/excp.c) *)

Definition s_prs_pal_excp_sigaction_done : cell process bool := static os_excp_done with_os_excp_done.
Definition s_prs_pal_excp_prev_sigaction : cell process sigaction := static os_excp_prev with_os_excp_prev.

Definition prs_pal_excp_handled_signals : list Z := [SIGFPE; SIGILL; SIGSEGV; SIGBUS; SIGSYS].

Definition prs_pal_excp_init_worker : prog process prs_result :=
  result ← install_once s_prs_pal_excp_sigaction_done s_prs_pal_excp_prev_sigaction ExcpSighandler prs_pal_excp_handled_signals;
  if negb (bool_decide (result = PRS_OK)) then mret result
  else for_signals prs_pal_signal_unblock prs_pal_excp_handled_signals.

(** The results are not looked at. *)
Definition prs_pal_excp_uninit_worker : prog process unit :=
  _ ← for_signals (λ signum, _ ← prs_pal_signal_block signum; mret PRS_OK) prs_pal_excp_handled_signals;
  mret tt.

(** ** Start-up (linux/os.c)

    The calls that fail at start-up end the process. *)
Definition prs_pal_os_init : prog process unit :=
  (* uname *)
  error ← syscall Ret;
  _ ← stop_if error;
  result ← prs_pal_signal_action SIGINT UserInterrupt None;
  _ ← stop_if (negb (bool_decide (result = PRS_OK)));
  result ← prs_pal_signal_unblock SIGINT;
  stop_if (negb (bool_decide (result = PRS_OK))).

(** ** Threads (posix/thread.c) *)

Definition s_prs_pal_thread_sigaction_done : cell process bool := static os_thread_done with_os_thread_done.
Definition s_prs_pal_thread_prev_sigaction : cell process sigaction := static os_thread_prev with_os_thread_prev.
Definition PRS_PAL_THREAD_INTERRUPT_SIGNAL : Z := SIGUSR1.
Definition prs_pal_thread_handled_signals : list Z := [SIGUSR1].

(** [SCHED_OTHER], [SCHED_FIFO], [SCHED_RR], [SCHED_BATCH], [SCHED_IDLE]; the least
    priority of [SCHED_RR] is 1, the greatest of [SCHED_FIFO] 99. *)
Definition sched_policy (prio : prs_pal_thread_prio) : Z * Z :=
  match prio with
  | PRS_PAL_THREAD_PRIO_IDLE => (5, 0)
  | PRS_PAL_THREAD_PRIO_LOW => (3, 0)
  | PRS_PAL_THREAD_PRIO_NORMAL => (0, 0)
  | PRS_PAL_THREAD_PRIO_HIGH => (2, 1)
  | PRS_PAL_THREAD_PRIO_REALTIME => (1, 99)
  end.

Definition prs_pal_thread_local_init (thread : loc) : prog process unit :=
  _ ← write (own tl_thread set_tl_thread self) (Some thread);
  affinity ← read (thread_field th_affinity set_th_affinity thread);
  error ← syscall (cell_set (own tl_affinity set_tl_affinity self) (λ n, (0 <=? n) && (n <? 32) && Z.testbit affinity n));
  _ ← stop_if error;
  prio ← read (thread_field th_prio set_th_prio thread);
  error ← syscall (cell_set (own tl_policy set_tl_policy self) (sched_policy prio));
  _ ← stop_if error;
  result ← for_signals prs_pal_signal_unblock prs_pal_thread_handled_signals;
  stop_if (negb (bool_decide (result = PRS_OK))).

(** The parts of the parameters that are used. *)
Record thread_params : Type := ThreadParams { tp_prio : prs_pal_thread_prio; tp_affinity : Z; tp_from_current : bool }.

(** A new block of one of the tables. *)
Definition new_block {E : Type} (get : process → gmap loc E) (put : gmap loc E → process → process) (e : E) : prog process ptr :=
  act (λ s,
    let (p, h) := prs_pal_malloc_zero (os_heap s) in
    let s := with_os_heap h s in
    Ret (p, match p with Some l => put (<[l := e]> (get s)) s | None => s end)).
Definition free_block {E : Type} (get : process → gmap loc E) (put : gmap loc E → process → process) (l : loc) : prog process unit :=
  act (λ s, h ← prs_pal_free (Some l) (os_heap s); Ret (tt, put (delete l (get s)) (with_os_heap h s))).

(** [new]: the number that the system gives to the new thread, which inherits the mask of
    blocked signals and has no alternate stack. *)
Definition pthread_create (thread : loc) (new : nat) : prog process bool :=
  syscall (λ s,
    e ← deref (os_tls s !! self);
    s ← cell_set (thread_field th_id set_th_id thread) (Some new) s;
    Ret (with_os_tls (<[new := Tls false 0 None None None (tl_blocked e) (tl_affinity e) (tl_policy e)]> (os_tls s)) s)).

(** [sem_destroy] of a semaphore that was never initialised is undefined. *)
Definition thread_create_cleanup (thread : loc) : prog process ptr :=
  sem ← read (thread_field th_idle_sem set_th_idle_sem thread);
  _ ← act (λ s, _ ← deref sem; Ret (tt, s));
  _ ← free_block os_threads with_os_threads thread;
  mret None.

Definition prs_pal_thread_create (params : thread_params) (new : nat) : prog process ptr :=
  p ← new_block os_threads with_os_threads (PalThread None PRS_PAL_THREAD_PRIO_IDLE 0 false None false false None);
  match p with
  | None => mret None
  | Some thread =>
      error ← syscall (cell_set (thread_field th_idle_sem set_th_idle_sem thread) (Some 0));
      if (error : bool) then thread_create_cleanup thread
      else
        _ ← write (thread_field th_prio set_th_prio thread) (tp_prio params);
        _ ← write (thread_field th_affinity set_th_affinity thread) (tp_affinity params);
        _ ← write (thread_field th_from_current set_th_from_current thread) (tp_from_current params);
        result ← install_once s_prs_pal_thread_sigaction_done s_prs_pal_thread_prev_sigaction ThreadSighandler
          prs_pal_thread_handled_signals;
        if negb (bool_decide (result = PRS_OK)) then thread_create_cleanup thread
        else if tp_from_current params then
          _ ← write (thread_field th_id set_th_id thread) (Some self);
          mret (Some thread)
        else
          error ← pthread_create thread new;
          if (error : bool) then thread_create_cleanup thread else mret (Some thread)
  end.

(** [pthread_join] of a thread that has returned does not wait. *)
Definition prs_pal_thread_destroy (thread : loc) : prog process prs_result :=
  started ← read (thread_field th_started set_th_started thread);
  if (started : bool) then
    exited ← read (thread_field th_exited set_th_exited thread);
    if negb exited then mret PRS_INVALID_STATE
    else
      _ ← free_block os_threads with_os_threads thread;
      mret PRS_OK
  else mret PRS_INVALID_STATE.

(** A thread waits on its semaphore, is woken up, and runs [entry]. *)
Definition sem_take (sem : cell process (option Z)) : prog process unit :=
  wait (λ s,
    v ← cell_get sem s;
    n ← deref v;
    if 0 <? n then s ← cell_set sem (Some (n - 1)) s; Ret (Some (tt, s)) else Ret None).
Definition sem_give (sem : cell process (option Z)) : prog process unit :=
  act (λ s, v ← cell_get sem s; n ← deref v; s ← cell_set sem (Some (n + 1)) s; Ret (tt, s)).

Definition thread_run (entry : loc → prog process unit) (thread : loc) : prog process unit :=
  _ ← prs_pal_thread_local_init thread;
  _ ← sem_take (thread_field th_idle_sem set_th_idle_sem thread);
  _ ← write (thread_field th_started set_th_started thread) true;
  userdata ← read (thread_field th_userdata set_th_userdata thread);
  userdata ← not_null userdata;
  _ ← entry userdata;
  write (thread_field th_exited set_th_exited thread) true.

(** ** Interval timers (posix/pit.c) *)

Definition s_prs_pal_pit : cell process ptr := own tl_pit set_tl_pit self.
Definition s_prs_pal_pit_sigaction_done : cell process bool := static os_pit_done with_os_pit_done.
Definition s_prs_pal_pit_prev_sigaction : cell process sigaction := static os_pit_prev with_os_pit_prev.
Definition prs_pal_pit_handled_signals : list Z := [SIGALRM].

(** Ticks are 32 bits wide, and there are 1000 in a second. *)
Definition PRS_TICKS_TO_US (ticks : Z) : Z := u32 (ticks * 1000000) / PRS_HZ.

Definition prs_pal_pit_sighandler (signum : Z) : prog process unit :=
  pit ← read s_prs_pal_pit;
  match pit with
  | None => prs_pal_signal_chain signum s_prs_pal_pit_prev_sigaction
  | Some pit =>
      callback ← read (pit_field pt_callback set_pt_callback pit);
      userdata ← read (pit_field pt_userdata set_pt_userdata pit);
      act (λ s, Ret (tt, with_os_calls (os_calls s ++ [Callback callback userdata]) s))
  end.

(** [setitimer(ITIMER_REAL, ...)] with no seconds and this number of microseconds, which the
    system refuses when there are a million or more. *)
Definition setitimer (usec : Z) : prog process bool :=
  if usec <? 1000000 then syscall (λ s, Ret (with_os_timer usec s)) else mret true.

Definition prs_pal_pit_init_timer (pit : loc) : prog process prs_result :=
  result ← for_signals prs_pal_signal_unblock prs_pal_pit_handled_signals;
  if negb (bool_decide (result = PRS_OK)) then mret result
  else
    period ← read (pit_field pt_period set_pt_period pit);
    error ← setitimer (PRS_TICKS_TO_US period);
    mret (if (error : bool) then PRS_PLATFORM_ERROR else PRS_OK).

Definition prs_pal_pit_uninit_timer : prog process prs_result :=
  error ← setitimer 0;
  if (error : bool) then mret PRS_PLATFORM_ERROR
  else for_signals prs_pal_signal_block prs_pal_pit_handled_signals.

(** The semaphore is waited for again after a signal. *)
Definition prs_pal_pit_thread_entry (pit : loc) : prog process unit :=
  _ ← write s_prs_pal_pit (Some pit);
  result ← prs_pal_pit_init_timer pit;
  _ ← stop_if (negb (bool_decide (result = PRS_OK)));
  _ ← sem_take (pit_field pt_exit_sem set_pt_exit_sem pit);
  _ ← prs_pal_pit_uninit_timer;
  mret tt.

Record pit_params : Type := PitParams {
  ip_userdata : Z;
  ip_callback : Z;
  ip_period : Z;
  ip_use_current_thread : bool;
  ip_prio : prs_pal_thread_prio;
  ip_affinity : Z
}.

Definition pit_create_cleanup (pit : loc) : prog process ptr :=
  use_current_thread ← read (pit_field pt_use_current_thread set_pt_use_current_thread pit);
  _ ← (if (use_current_thread : bool) then _ ← prs_pal_pit_uninit_timer; mret tt else mret tt);
  _ ← free_block os_pits with_os_pits pit;
  mret None.

(** The part for a timer with a thread of its own.  [sem_close] is called on the semaphore,
    which is for named ones: nothing is said of what it does. *)
Definition pit_create_thread (pit : loc) (params : pit_params) (new : nat) : prog process ptr :=
  error ← syscall (cell_set (pit_field pt_exit_sem set_pt_exit_sem pit) (Some 0));
  if (error : bool) then pit_create_cleanup pit
  else
    thread ← prs_pal_thread_create (ThreadParams (ip_prio params) (ip_affinity params) false) new;
    _ ← write (pit_field pt_thread set_pt_thread pit) thread;
    match thread with
    | None => pit_create_cleanup pit
    | Some thread =>
        _ ← write (thread_field th_userdata set_th_userdata thread) (Some pit);
        _ ← sem_give (thread_field th_idle_sem set_th_idle_sem thread);
        mret (Some pit)
    end.

Definition prs_pal_pit_create (params : pit_params) (new : nat) : prog process ptr :=
  p ← new_block os_pits with_os_pits
    (PrsPalPit (ip_userdata params) (ip_callback params) (ip_period params) (ip_use_current_thread params) None None);
  match p with
  | None => mret None
  | Some pit =>
      result ← install_once s_prs_pal_pit_sigaction_done s_prs_pal_pit_prev_sigaction PitSighandler prs_pal_pit_handled_signals;
      if negb (bool_decide (result = PRS_OK)) then pit_create_cleanup pit
      else if ip_use_current_thread params then
        _ ← write s_prs_pal_pit (Some pit);
        result ← prs_pal_pit_init_timer pit;
        if negb (bool_decide (result = PRS_OK)) then pit_create_cleanup pit else mret (Some pit)
      else pit_create_thread pit params new
  end.

Definition prs_pal_pit_destroy (pit : loc) : prog process unit :=
  use_current_thread ← read (pit_field pt_use_current_thread set_pt_use_current_thread pit);
  _ ← (if (use_current_thread : bool) then _ ← prs_pal_pit_uninit_timer; mret tt
       else
         _ ← sem_give (pit_field pt_exit_sem set_pt_exit_sem pit);
         thread ← read (pit_field pt_thread set_pt_thread pit);
         thread ← not_null thread;
         _ ← prs_pal_thread_destroy thread;
         mret tt);
  free_block os_pits with_os_pits pit.
End posix.

(** ** Faults become exceptions

    The handler of excp.c runs on the thread that faults, on its alternate stack; it goes on
    with the exceptions of Excp.v. *)

Section fault.
Context `{!ObjectFree, !Clock.Pit, !TaskParts, !ProcObjects, !ExcpParts, !ExcpHandlers} (fuel : nat) (self : ptr).

Definition prs_pal_excp_sighandler (signo si_addr : Z) (ucontext : loc) : prog kern unit :=
  let worker := prs_worker_current self in
  match worker with
  | None => pal (SignalChain ucontext)
  | Some current =>
      type ← (if signo =? SIGFPE then mret PRS_EXCP_TYPE_FLOATING_POINT
              else if signo =? SIGBUS then mret PRS_EXCP_TYPE_BUS
              else if signo =? SIGILL then mret PRS_EXCP_TYPE_ILLEGAL_INSTRUCTION
              else if signo =? SIGSEGV then
                task ← prs_worker_get_current_task current;
                match task with
                | Some task =>
                    stack ← read (task_stack task);
                    mret (if Excp.prs_stack_address_in_range stack si_addr then PRS_EXCP_TYPE_STACK_OVERFLOW
                          else PRS_EXCP_TYPE_SEGMENTATION_FAULT)
                | None => mret PRS_EXCP_TYPE_SEGMENTATION_FAULT
                end
              else if signo =? SIGSYS then mret PRS_EXCP_TYPE_OS
              else mret PRS_EXCP_TYPE_UNKNOWN);
      prs_excp_raise fuel self type (ExcpExtra si_addr None) worker (Some ucontext)
  end.

Definition prs_pal_os_user_interrupt (ucontext : loc) : prog kern unit :=
  prs_excp_raise fuel self PRS_EXCP_TYPE_USER_INTERRUPT (ExcpExtra 0 None) None (Some ucontext).
End fault.

(** ** What a worker's thread gets *)

Section signals.
Context (page_size huge_page_size SIGSTKSZ : Z) (self : nat).

Lemma run_syscall f s s' : os_fails s = [] → f s = Ret s' → run (syscall f) s = Ret (Some false, s').
Proof. intros Hf Hs. cbn. by rewrite Hf, Hs. Qed.

(** The action that [prs_pal_signal_action] installs. *)
Definition prs_action (handler : sighandler) : sigaction := Sigaction handler (Z.lor SA_ONSTACK SA_SIGINFO) sigfull.

Lemma run_excp_actions signums : ∀ s,
  os_fails s = [] → NoDup signums →
  ∃ s', run (for_signals (λ n, prs_pal_signal_action n ExcpSighandler (Some s_prs_pal_excp_prev_sigaction)) signums) s = Ret (Some PRS_OK, s') ∧
    os_fails s' = [] ∧ os_tls s' = os_tls s ∧ os_vm s' = os_vm s ∧ os_excp_done s' = os_excp_done s ∧
    (∀ n, os_actions s' n = if bool_decide (n ∈ signums) then prs_action ExcpSighandler else os_actions s n) ∧
    os_excp_prev s' = match last signums with Some n => os_actions s n | None => os_excp_prev s end.
Proof.
  induction signums as [|n ns IH]; intros s Hf Hnd; cbn [for_signals].
  - exists s. by split_and!.
  - apply NoDup_cons in Hnd as [Hn Hnd].
    set (s1 := with_os_excp_prev (os_actions s n) (with_os_actions (λ m, if m =? n then prs_action ExcpSighandler else os_actions s m) s)).
    assert (run (prs_pal_signal_action n ExcpSighandler (Some s_prs_pal_excp_prev_sigaction)) s = Ret (Some PRS_OK, s1)) as Hrun.
    { unfold prs_pal_signal_action. eapply run_seq. { eapply run_syscall; [exact Hf|reflexivity]. } cbn [negb].
      eapply run_seq; [eapply run_syscall; [exact Hf|reflexivity]|]. done. }
    destruct (IH s1) as (s' & Hrest & Hf' & Ht & Hv & Hd & Ha & Hp); [done|done|].
    exists s'. split_and!; try done.
    + eapply run_seq; [exact Hrun|]. rewrite bool_decide_true by done. exact Hrest.
    + intros m. rewrite Ha. cbn [s1 with_os_excp_prev with_os_actions os_actions]. destruct (Z.eqb_spec m n) as [->|Hne].
      * rewrite (bool_decide_true (n ∈ n :: ns)) by by left. by destruct (bool_decide _).
      * rewrite (bool_decide_ext (m ∈ n :: ns) (m ∈ ns)); [done|]. rewrite elem_of_cons. naive_solver.
    + rewrite Hp. rewrite last_cons. destruct (last ns) as [m|] eqn:El; [|done].
      cbn [s1 with_os_excp_prev with_os_actions os_actions]. destruct (Z.eqb_spec m n) as [->|]; [|done].
      exfalso. apply Hn. apply last_Some in El as [l ->]. apply elem_of_app. right. by left.
Qed.

(** One signal, in a thread whose stack for signals is there. *)
Lemma run_signal_set n how s e :
  os_fails s = [] → os_tls s !! self = Some e → tl_initialized e = true →
  run (prs_pal_signal_set page_size huge_page_size SIGSTKSZ self n how) s =
    Ret (Some PRS_OK, with_os_tls (<[self := set_tl_blocked
      (λ m, match how with SIG_BLOCK => tl_blocked e m || (m =? n) | SIG_UNBLOCK => tl_blocked e m && negb (m =? n) end) e]> (os_tls s)) s).
Proof.
  intros Hf He Hi. unfold prs_pal_signal_set, prs_pal_signal_init.
  eapply run_seq.
  { eapply run_seq; [apply run_load; cbn; rewrite He; cbn; by rewrite Hi|]. done. }
  rewrite bool_decide_true by done. cbn [negb].
  do 2 (eapply run_seq; [eapply run_syscall; [exact Hf|reflexivity]|]).
  eapply run_seq; [eapply run_syscall; [exact Hf|rewrite He; reflexivity]|]. done.
Qed.

Lemma run_unblock_all signums : ∀ s e,
  os_fails s = [] → os_tls s !! self = Some e → tl_initialized e = true →
  ∃ b, run (for_signals (prs_pal_signal_unblock page_size huge_page_size SIGSTKSZ self) signums) s =
         Ret (Some PRS_OK, with_os_tls (<[self := set_tl_blocked b e]> (os_tls s)) s) ∧
       ∀ n, b n = tl_blocked e n && negb (bool_decide (n ∈ signums)).
Proof.
  induction signums as [|n ns IH]; intros s e Hf He Hi; cbn [for_signals].
  - exists (tl_blocked e). split; [|intros n; by rewrite andb_true_r].
    replace (set_tl_blocked (tl_blocked e) e) with e by by destruct e. rewrite insert_id by done. by destruct s.
  - set (e1 := set_tl_blocked (λ m, tl_blocked e m && negb (m =? n)) e).
    set (s1 := with_os_tls (<[self := e1]> (os_tls s)) s).
    destruct (IH s1 e1) as (b & Hrun & Hb); [done|apply lookup_insert_eq|done|]. exists b. split.
    + eapply run_seq; [apply (run_signal_set n SIG_UNBLOCK s e); done|]. rewrite bool_decide_true by done. cbn [negb].
      refine (eq_trans Hrun _). unfold s1, e1. cbn [with_os_tls os_tls]. rewrite insert_insert_eq. done.
    + intros m. rewrite Hb. unfold e1. cbn [set_tl_blocked tl_blocked]. destruct (Z.eqb_spec m n) as [->|Hne].
      * rewrite andb_false_r. cbn. by rewrite (bool_decide_true (n ∈ n :: ns)), andb_false_r by by left.
      * rewrite andb_true_r. rewrite (bool_decide_ext (m ∈ n :: ns) (m ∈ ns)); [done|]. rewrite elem_of_cons. naive_solver.
Qed.

(** The thread once it can get signals at all: all of them are blocked, and handlers have a
    stack of their own. *)
Lemma run_signal_init s e top size m :
  os_fails s = [] → os_tls s !! self = Some e → tl_initialized e = false →
  Stack.prs_stack_create page_size huge_page_size SIGSTKSZ (os_vm s) = (top, size, m) → top ≠ 0 →
  ∃ e1 s1, run (prs_pal_signal_init page_size huge_page_size SIGSTKSZ self) s = Ret (Some PRS_OK, s1) ∧
    s1 = with_os_tls (<[self := e1]> (os_tls s)) (with_os_vm m s) ∧
    tl_altstack e1 = Some (u64 (top - size), size) ∧ tl_initialized e1 = true ∧ ∀ n, tl_blocked e1 n = true.
Proof.
  intros Hf He Hi Hst Ht. unfold prs_pal_signal_init. eexists _, _. split.
  { eapply run_seq; [apply run_load; cbn; rewrite He; reflexivity|]. rewrite Hi.
    eapply run_seq; [cbn; rewrite Hst; reflexivity|]. cbn beta iota. rewrite (proj2 (Z.eqb_neq top 0)) by done.
    eapply run_seq; [reflexivity|]. eapply run_seq; [apply run_store; cbn; rewrite He; reflexivity|].
    eapply run_seq; [eapply run_syscall; [exact Hf|cbn; rewrite lookup_insert_eq; reflexivity]|]. cbn beta iota.
    eapply run_seq; [eapply run_syscall; [exact Hf|reflexivity]|]. cbn beta iota.
    eapply run_seq; [eapply run_syscall; [exact Hf|cbn; rewrite lookup_insert_eq; reflexivity]|]. cbn beta iota.
    eapply run_seq; [apply run_store; cbn; rewrite lookup_insert_eq; reflexivity|]. reflexivity. }
  split; [cbn; rewrite !insert_insert_eq; reflexivity|]. split; [done|]. split; [done|].
  intros n. cbn. apply orb_true_r.
Qed.

Lemma run_unblock_first n ns s s1 e1 :
  run (prs_pal_signal_init page_size huge_page_size SIGSTKSZ self) s = Ret (Some PRS_OK, s1) →
  os_tls s1 !! self = Some e1 → tl_initialized e1 = true →
  run (for_signals (prs_pal_signal_unblock page_size huge_page_size SIGSTKSZ self) (n :: ns)) s =
  run (for_signals (prs_pal_signal_unblock page_size huge_page_size SIGSTKSZ self) (n :: ns)) s1.
Proof.
  intros Hrun He Hi. cbn [for_signals]. rewrite !run_bind.
  assert (run (prs_pal_signal_unblock page_size huge_page_size SIGSTKSZ self n) s =
    run (prs_pal_signal_unblock page_size huge_page_size SIGSTKSZ self n) s1) as ->; [|done].
  unfold prs_pal_signal_unblock, prs_pal_signal_set. rewrite !run_bind, Hrun.
  assert (run (prs_pal_signal_init page_size huge_page_size SIGSTKSZ self) s1 = Ret (Some PRS_OK, s1)) as ->; [|done].
  unfold prs_pal_signal_init. eapply run_seq; [apply run_load; cbn; rewrite He; reflexivity|]. by rewrite Hi.
Qed.

Lemma run_install s :
  os_fails s = [] →
  ∃ s', run (install_once s_prs_pal_excp_sigaction_done s_prs_pal_excp_prev_sigaction ExcpSighandler prs_pal_excp_handled_signals) s =
          Ret (Some PRS_OK, s') ∧ os_fails s' = [] ∧ os_tls s' = os_tls s ∧ os_vm s' = os_vm s ∧
    (∀ n, os_actions s' n = if negb (os_excp_done s) && bool_decide (n ∈ prs_pal_excp_handled_signals) then prs_action ExcpSighandler else os_actions s n) ∧
    os_excp_prev s' = if os_excp_done s then os_excp_prev s else os_actions s SIGSYS.
Proof.
  intros Hf. unfold install_once. destruct (os_excp_done s) eqn:Hd.
  - exists (with_os_excp_done true s). split_and!; try done. eapply run_seq; [reflexivity|]. by rewrite Hd.
  - destruct (run_excp_actions prs_pal_excp_handled_signals (with_os_excp_done true s)) as (s' & Hrun & Hf' & Ht & Hv & _ & Ha & Hp);
      [done|by apply (bool_decide_unpack _)|].
    exists s'. split_and!; try done. eapply run_seq; [reflexivity|]. by rewrite Hd.
Qed.

(** C22: The signals of a worker's thread.  When no call of the system fails,
    [prs_pal_excp_init_worker] leaves a thread that has not handled signals before with a
    stack of its own for them and all signals blocked but those that stand for exceptions,
    whatever it had blocked before, and other threads as they are; the first worker installs the handler for
    these signals, and no later one changes any action.  The action to chain to is that of the last signal only.
    When the first worker's installation fails, the handler is missing for good: later
    workers are told that all is well. *)
Theorem worker_signals_exact s e top size m :
  os_tls s !! self = Some e → tl_initialized e = false →
  Stack.prs_stack_create page_size huge_page_size SIGSTKSZ (os_vm s) = (top, size, m) → top ≠ 0 →
  (os_fails s = [] →
   ∃ s' e', run (prs_pal_excp_init_worker page_size huge_page_size SIGSTKSZ self) s = Ret (Some PRS_OK, s') ∧
     os_tls s' = <[self := e']> (os_tls s) ∧ os_vm s' = m ∧
     tl_altstack e' = Some (u64 (top - size), size) ∧
     (∀ n, tl_blocked e' n = negb (bool_decide (n ∈ prs_pal_excp_handled_signals))) ∧
     (∀ n, os_actions s' n = if negb (os_excp_done s) && bool_decide (n ∈ prs_pal_excp_handled_signals)
                             then prs_action ExcpSighandler else os_actions s n) ∧
     (os_excp_done s = false → os_excp_prev s' = os_actions s SIGSYS)) ∧
  (os_fails s = [true] → os_excp_done s = false →
   ∃ s1, run (prs_pal_excp_init_worker page_size huge_page_size SIGSTKSZ self) s = Ret (Some PRS_PLATFORM_ERROR, s1) ∧
   ∃ s2, run (prs_pal_excp_init_worker page_size huge_page_size SIGSTKSZ self) s1 = Ret (Some PRS_OK, s2) ∧
     ∀ n, os_actions s2 n = os_actions s n).
Proof.
  intros He Hi Hst Ht.
  assert (∀ s, os_fails s = [] → os_tls s !! self = Some e →
    Stack.prs_stack_create page_size huge_page_size SIGSTKSZ (os_vm s) = (top, size, m) →
    ∃ s' e', run (prs_pal_excp_init_worker page_size huge_page_size SIGSTKSZ self) s = Ret (Some PRS_OK, s') ∧
     os_tls s' = <[self := e']> (os_tls s) ∧ os_vm s' = m ∧
     tl_altstack e' = Some (u64 (top - size), size) ∧
     (∀ n, tl_blocked e' n = negb (bool_decide (n ∈ prs_pal_excp_handled_signals))) ∧
     (∀ n, os_actions s' n = if negb (os_excp_done s) && bool_decide (n ∈ prs_pal_excp_handled_signals)
                             then prs_action ExcpSighandler else os_actions s n) ∧
     (os_excp_done s = false → os_excp_prev s' = os_actions s SIGSYS)) as Hok.
  { clear s He Hst. intros s Hf He Hst. destruct (run_install s Hf) as (s1 & Hrun1 & Hf1 & Ht1 & Hv1 & Ha1 & Hp1).
    destruct (run_signal_init s1 e top size m) as (e2 & s2 & Hrun2 & Es2 & Halt & Hini & Hbl); [done|by rewrite Ht1|done|by rewrite Hv1|done|].
    assert (os_tls s2 !! self = Some e2) as He2 by (rewrite Es2; apply lookup_insert_eq).
    destruct (run_unblock_all prs_pal_excp_handled_signals s2 e2) as (b & Hrun3 & Hb); [by rewrite Es2|done|done|].
    eexists _, (set_tl_blocked b e2). split.
    { unfold prs_pal_excp_init_worker. eapply run_seq; [exact Hrun1|]. rewrite bool_decide_true by done. cbn [negb].
      unfold prs_pal_excp_handled_signals. erewrite run_unblock_first; [exact Hrun3|exact Hrun2|exact He2|exact Hini]. }
    rewrite Es2. cbn [with_os_tls with_os_vm os_tls os_vm os_actions os_excp_prev]. rewrite Ht1, insert_insert_eq.
    split_and!; [done..| |done|].
    - intros n. cbn [set_tl_blocked tl_blocked]. by rewrite Hb, Hbl.
    - intros Hd. by rewrite Hp1, Hd. }
  split; [intros Hf; by apply Hok|]. intros Hf Hd.
  set (s1 := with_os_fails [] (with_os_excp_done true s)). exists s1. split.
  { assert (run (prs_pal_signal_action SIGFPE ExcpSighandler (Some s_prs_pal_excp_prev_sigaction)) (with_os_excp_done true s) =
      Ret (Some PRS_PLATFORM_ERROR, s1)) as Hact.
    { unfold prs_pal_signal_action. eapply run_seq; [cbn; rewrite Hf; reflexivity|]. reflexivity. }
    assert (run (install_once s_prs_pal_excp_sigaction_done s_prs_pal_excp_prev_sigaction ExcpSighandler prs_pal_excp_handled_signals) s =
      Ret (Some PRS_PLATFORM_ERROR, s1)) as Hinst.
    { unfold install_once. eapply run_seq; [reflexivity|]. rewrite Hd. eapply run_seq; [exact Hact|]. reflexivity. }
    unfold prs_pal_excp_init_worker. eapply run_seq; [exact Hinst|]. reflexivity. }
  destruct (Hok s1) as (s2 & e' & Hrun & _ & _ & _ & _ & Ha & _); [done|done|done|]. exists s2. split; [exact Hrun|]. exact Ha.
Qed.
End signals.

(** A process with pages of 4096 bytes whose thread 0 has handled no signal yet; the next
    mapping of memory is at 1 MiB. *)
Definition demo_tls : tls := Tls false 0 None None None (λ n, n =? SIGUSR1) (λ _, true) (0, 0).
Definition demo_process (fails : list bool) : process :=
  Process fails (Heap ∅ []) (Vm [0x100000] [] [] 0 []) (λ _, Sigaction SIG_DFL 0 (λ _, false)) 0
    false (Sigaction SIG_DFL 0 (λ _, false)) false (Sigaction SIG_DFL 0 (λ _, false)) false (Sigaction SIG_DFL 0 (λ _, false))
    ∅ ∅ {[ 0%nat := demo_tls ]} [].

Lemma worker_signals_exact_witness :
  (∃ s', run (prs_pal_excp_init_worker 4096 0x200000 8192 0) (demo_process []) = Ret (Some PRS_OK, s') ∧
     os_excp_prev s' = Sigaction SIG_DFL 0 (λ _, false)) ∧
  (∃ s1, run (prs_pal_excp_init_worker 4096 0x200000 8192 0) (demo_process [true]) = Ret (Some PRS_PLATFORM_ERROR, s1)).
Proof.
  split.
  - destruct (worker_signals_exact 4096 0x200000 8192 0 (demo_process []) demo_tls
      (Stack.prs_stack_create 4096 0x200000 8192 (os_vm (demo_process []))).1.1 8192
      (Stack.prs_stack_create 4096 0x200000 8192 (os_vm (demo_process []))).2) as [Hok _]; [done|done|by vm_compute|by vm_compute|].
    destruct Hok as (s' & e' & Hrun & _ & _ & _ & _ & _ & Hp); [done|]. exists s'. split; [exact Hrun|by apply Hp].
  - destruct (worker_signals_exact 4096 0x200000 8192 0 (demo_process [true]) demo_tls
      (Stack.prs_stack_create 4096 0x200000 8192 (os_vm (demo_process [true]))).1.1 8192
      (Stack.prs_stack_create 4096 0x200000 8192 (os_vm (demo_process [true]))).2) as [_ Hfail]; [done|done|by vm_compute|by vm_compute|].
    destruct Hfail as (s1 & Hrun & _); [done|done|]. by exists s1.
Defined.

(** ** What a fault does *)

Section faults.
Context `{!ObjectFree, !Clock.Pit, !TaskParts, !ProcObjects, !ExcpParts, !ExcpHandlers} (fuel : nat).

Definition fault_args (excp : prs_excp_type) (si_addr : Z) (w t ucontext : loc) : excp_args :=
  ExcpArgs excp (ExcpExtra si_addr None) (Some w) (Some t) (Some ucontext).

Lemma run_sigsegv si_addr ucontext w t e c R :
  current_is c (Some w) (Some t) → k_tasks c !! t = Some e →
  run (prs_excp_raise fuel (Some w)
    (if Excp.prs_stack_address_in_range (tk_stack e) si_addr then PRS_EXCP_TYPE_STACK_OVERFLOW else PRS_EXCP_TYPE_SEGMENTATION_FAULT)
    (ExcpExtra si_addr None) (Some w) (Some ucontext)) c = R →
  run (prs_pal_excp_sighandler fuel (Some w) SIGSEGV si_addr ucontext) c = R.
Proof using Type.
  intros (we & Hw & Hcur)%fmap_Some Ht HR. unfold prs_pal_excp_sighandler. change (prs_worker_current (Some w)) with (Some w).
  cbn zeta iota. eapply run_seq; [|exact HR]. cbn [Z.eqb SIGSEGV SIGFPE SIGBUS SIGILL Pos.eqb].
  eapply run_seq; [apply run_load; eapply field_get; exact Hw|]. rewrite <- Hcur.
  eapply run_seq; [apply run_load; eapply field_get; exact Ht|]. done.
Qed.

Lemma run_exit a worker c :
  run (next ← excp_act fuel worker a PRS_EXCP_RESULT_EXIT; if (next : bool) then prs_exit_from_excp (-1) else mret tt) c =
    run (prs_exit_from_excp (-1)) c.
Proof using Type.
  cbn [excp_act]. rewrite !run_bind. destruct (run (prs_exit_from_excp (-1)) c) as [[[[]|] c3]| |]; done.
Qed.

(** A fault that no registered handler wants, up to the default handler's answer. *)
Lemma run_fault_default excp si_addr ucontext w t news result c c1 c' :
  registered c news → current_is c (Some w) (Some t) →
  forwards (reverse news) (fault_args excp si_addr w t ucontext) c c1 →
  run (prs_excp_default_handler (fault_args excp si_addr w t ucontext)) c1 = Ret (Some result, c') →
  run (prs_excp_raise fuel (Some w) excp (ExcpExtra si_addr None) (Some w) (Some ucontext)) c =
    run (next ← excp_act fuel (Some w) (fault_args excp si_addr w t ucontext) result;
         if (next : bool) then prs_exit_from_excp (-1) else mret tt) c'.
Proof using Type.
  intros Hreg Hcur Hf Hrun. eapply run_raise; [exact Hreg|exact Hcur|].
  pose proof (run_forwards fuel (Some w) _ [] _ _ _ Hf) as Hall. rewrite app_nil_r in Hall.
  unfold fault_args in *. rewrite run_bind, Hall. cbn [excp_process_all]. change (run (mret true : prog kern bool) c1) with (Ret (Some true, c1)). ocbn.
  rewrite !run_bind. unfold prs_excp_process. by rewrite run_bind, Hrun.
Qed.

Lemma run_kill a t ucontext w c :
  xa_task a = Some t → xa_worker a = Some w → xa_context a = Some ucontext →
  run (next ← excp_act fuel (Some w) a PRS_EXCP_RESULT_KILL_TASK; if (next : bool) then prs_exit_from_excp (-1) else mret tt) c =
    run (_ ← prs_task_destroy fuel (Some w) t; prs_worker_restore_context w ucontext) c.
Proof using Type.
  intros Ht Hw Hc. cbn [excp_act]. rewrite Ht, Hw, Hc.
  assert (∀ l c, run (nonnull (Some l)) c = Ret (Some l, c)) as Hnn by done.
  rewrite !run_bind, Hnn. ocbn. rewrite !run_bind.
  destruct (run (prs_task_destroy fuel (Some w) t) c) as [[[[]|] c4]| |]; ocbn; [|done..].
  rewrite !run_bind, Hnn. ocbn. rewrite !run_bind.
  destruct (run (prs_worker_restore_context w ucontext) c4) as [[[[]|] c5]| |]; done.
Qed.

(** C21: What an invalid access does.  A worker's task that accesses an address on its own
    stack goes on with a stack that has grown, and its size noted, when no registered handler
    wants the exception; when the stack cannot grow the program exits.  Any other address is
    a segmentation fault, and it is the address accessed that tells whose fault it is: the task is destroyed
    when it is in the text of a loaded program, and otherwise (a null pointer) the program
    exits.  On a thread without a worker the handler from before is called and nothing else
    happens. *)
Theorem excp_fault_exact (si_addr size : Z) (ucontext w t : loc) (e : prs_task) (news : list loc) (grown user : bool) (c c1 c2 : kern) :
  registered c news → current_is c (Some w) (Some t) → k_tasks c !! t = Some e →
  (Excp.prs_stack_address_in_range (tk_stack e) si_addr = true →
   forwards (reverse news) (fault_args PRS_EXCP_TYPE_STACK_OVERFLOW si_addr w t ucontext) c c1 →
   k_tasks c1 !! t = Some e →
   run (Excp.prs_stack_grow (tk_stack e) (tk_stack_size e) si_addr) c1 = Ret (Some (grown, size), c2) → k_tasks c2 !! t = Some e →
   let c3 := with_tasks (<[t := set_tk_stack_size size e]> (k_tasks c2)) c2 in
   run (prs_pal_excp_sighandler fuel (Some w) SIGSEGV si_addr ucontext) c =
     if grown then Ret (Some tt, c3) else run (prs_exit_from_excp (-1)) c3) ∧
  (Excp.prs_stack_address_in_range (tk_stack e) si_addr = false →
   forwards (reverse news) (fault_args PRS_EXCP_TYPE_SEGMENTATION_FAULT si_addr w t ucontext) c c1 →
   run (prs_proc_is_user_text si_addr) c1 = Ret (Some user, c1) →
   run (prs_pal_excp_sighandler fuel (Some w) SIGSEGV si_addr ucontext) c =
     if user then
       run (_ ← prs_task_destroy fuel (Some w) t; prs_worker_restore_context w ucontext) c1
     else run (prs_exit_from_excp (-1)) c1) ∧
  run (prs_pal_excp_sighandler fuel None SIGSEGV si_addr ucontext) c = Ret (Some tt, with_pal (k_pal c ++ [SignalChain ucontext]) c).
Proof using Type.
  intros Hreg Hcur Ht. split; [|split; [|done]].
  - intros Hin Hf Ht1 Hgrow Ht2. cbn zeta. eapply run_sigsegv; [done..|]. rewrite Hin.
    erewrite run_fault_default; [|exact Hreg|exact Hcur|exact Hf|].
    2: { eapply run_seq; [apply run_load; eapply field_get; exact Ht1|]. cbn [fault_args xa_extra ex_address]. rewrite Hin.
         eapply run_seq; [apply run_load; eapply field_get; exact Ht1|].
         eapply run_seq; [exact Hgrow|]. cbn beta iota.
         eapply run_seq; [apply run_store; eapply field_set; exact Ht2|]. reflexivity. }
    destruct grown; [done|apply run_exit].
  - intros Hin Hf Huser. eapply run_sigsegv; [done..|]. rewrite Hin.
    erewrite run_fault_default; [|exact Hreg|exact Hcur|exact Hf|eapply run_seq; [exact Huser|reflexivity]].
    destruct user; [by apply run_kill|apply run_exit].
Qed.
End faults.

(** Task 20 runs on worker 21, and its stack is the two pages that end at address 8192; handlers
    5 and 6 of Excp.v forward all of these exceptions. *)
Definition demo_fault_kern : kern :=
  with_excp (Some 1%positive) (with_excps {[ 1%positive := Some 2%positive ]}
    (with_mpscqs {[ 2%positive := [(3%positive, 5%positive); (4%positive, 6%positive)] ]}
    (with_workers {[ 21%positive := PrsWorker 5 2 3 0 7 (Some 20%positive) None ]}
    (with_tasks {[ 20%positive := PrsTask 7 [] None (Some 22%positive) 4096 3 0 0 None 0 None None None ]} demo_range_kern)))).
Definition demo_fault_parts : ExcpParts := {|
  Excp.prs_stack_address_in_range := λ _ a, (0 <? a) && (a <? 8192);
  Excp.prs_stack_grow := λ _ _ a, mret (true, 8192 - a);
  prs_exit_from_excp := λ n, pal (SignalChain 9%positive)
|}.

Lemma excp_fault_exact_witness :
  let free : ObjectFree := λ _ _, mret tt in
  let pit := demo_pit in let parts := demo_parts in let service := demo_service in
  let ends := demo_fault_parts in let handlers := demo_handlers in
  run (prs_pal_excp_sighandler 0 (Some 21%positive) SIGSEGV 4000 30%positive) demo_fault_kern =
    Ret (Some tt, with_tasks {[ 20%positive := PrsTask 7 [] None (Some 22%positive) 4192 3 0 0 None 0 None None None ]} demo_fault_kern) ∧
  run (prs_pal_excp_sighandler 0 (Some 21%positive) SIGSEGV 0 30%positive) demo_fault_kern =
    Ret (Some tt, with_pal [SignalChain 9%positive] demo_fault_kern).
Proof.
  intros free pit parts service ends handlers.
  assert (registered demo_fault_kern [5%positive; 6%positive]) as Hreg
    by by exists 1%positive, 2%positive, [(3%positive, 5%positive); (4%positive, 6%positive)].
  assert (∀ excp a, excp ≠ PRS_EXCP_TYPE_USER → forwards (reverse [5%positive; 6%positive])
    (fault_args excp a 21%positive 20%positive 30%positive) demo_fault_kern demo_fault_kern) as Hf.
  { intros excp a Hne. exists demo_fault_kern. split; [by destruct excp|]. exists demo_fault_kern. by split. }
  split.
  - destruct (excp_fault_exact 0 4000 4192 30%positive 21%positive 20%positive _ _ true false _ demo_fault_kern demo_fault_kern
      Hreg eq_refl eq_refl) as (Hgrow & _ & _).
    apply Hgrow; [done|by apply Hf|done..].
  - destruct (excp_fault_exact 0 0 0 30%positive 21%positive 20%positive _ _ true false _ demo_fault_kern demo_fault_kern
      Hreg eq_refl eq_refl) as (_ & Hexit & _).
    apply Hexit; [done|by apply Hf|]. by vm_compute.
Defined.

(** ** A timer and its thread *)

(** Thread 0 creates a timer of 10 ticks with a thread of its own and destroys it again;
    thread 1 is that thread. *)
Definition race_process : process :=
  Process [] (Heap ∅ [Some 11%positive; Some 12%positive]) (Vm [0x100000; 0x300000] [] [] 0 []) (λ _, Sigaction SIG_DFL 0 (λ _, false)) 0
    false (Sigaction SIG_DFL 0 (λ _, false)) false (Sigaction SIG_DFL 0 (λ _, false)) false (Sigaction SIG_DFL 0 (λ _, false))
    ∅ ∅ {[ 0%nat := demo_tls ]} [].
Definition race_threads : list (prog process unit) :=
  [ (p ← prs_pal_pit_create 4096 0x200000 8192 0 (PitParams 7 8 10 false PRS_PAL_THREAD_PRIO_NORMAL 1) 1;
     pit ← not_null p; prs_pal_pit_destroy 4096 0x200000 8192 0 pit);
    thread_run 4096 0x200000 8192 1 (prs_pal_pit_thread_entry 4096 0x200000 8192 1) 12%positive ].

Definition race_schedule : list (nat * bool) :=
  replicate 19 (0%nat, false) ++ replicate 31 (1%nat, false) ++ replicate 6 (0%nat, false).

(** Thread 0 is done, and the next action of thread 1, like the next signal, has no defined
    behaviour. *)
Definition used_after_free (s : process * list (prog process unit)) : bool :=
  match s.2 with
  | [Done _; Wait f _] =>
      match f s.1, os_pits s.1 !! 11%positive, run (prs_pal_pit_sighandler 1 SIGALRM) s.1 with
      | Undef, None, Undef => os_timer s.1 =? 10000
      | _, _, _ => false
      end
  | _ => false
  end.

Lemma used_after_free_spec r :
  match r with Some s => used_after_free s | None => false end = true →
  ∃ c p, r = Some (c, [Done tt; p]) ∧ faults c p ∧ os_pits c !! 11%positive = None ∧ os_timer c = 10000 ∧
    run (prs_pal_pit_sighandler 1 SIGALRM) c = Undef.
Proof.
  destruct r as [[c ps]|]; [|done]. unfold used_after_free. cbn [fst snd]. intros H.
  destruct ps as [|[[]| | | |] [|[| | | |B f k] [|]]]; try done.
  destruct (f c) eqn:Ef; try done. destruct (os_pits c !! 11%positive) eqn:Ep; [done|].
  destruct (run (prs_pal_pit_sighandler 1 SIGALRM) c) eqn:Er; try done. apply Z.eqb_eq in H.
  exists c, (Wait f k). by split_and!.
Qed.

(** [prs_pal_pit_destroy] does not wait for the timer's thread: that one has not returned
    when it is asked for, [prs_pal_thread_destroy] refuses, and the answer is not looked at.
    The timer is freed while it is still running, and the thread's next action, like the
    next signal, is on freed memory. *)
Lemma pit_destroy_frees_running_timer :
  ∃ c p, rtc pool_step (race_process, race_threads) (c, [Done tt; p]) ∧
    faults c p ∧ os_pits c !! 11%positive = None ∧ os_timer c = 10000 ∧
    run (prs_pal_pit_sighandler 1 SIGALRM) c = Undef.
Proof.
  destruct (used_after_free_spec (pool_run race_schedule (race_process, race_threads))) as (c & p & E & Hrest); [by vm_compute|].
  exists c, p. split; [|exact Hrest]. exact (pool_run_rtc race_schedule _ _ E).
Qed.

(** The timer's interval is its period when that is less than a second; from a second on the
    system refuses it, and from 4295 ticks on the multiplication wraps and it is accepted with
    another interval. *)
Lemma pit_timer_exact page_size huge_page_size SIGSTKSZ self s e pit p :
  os_fails s = [] → os_tls s !! self = Some e → tl_initialized e = true → os_pits s !! pit = Some p →
  0 ≤ pt_period p →
  ∃ result s', run (prs_pal_pit_init_timer page_size huge_page_size SIGSTKSZ self pit) s = Ret (Some result, s') ∧
    (pt_period p < 1000 → result = PRS_OK ∧ os_timer s' = pt_period p * 1000) ∧
    (1000 ≤ pt_period p < 4295 → result = PRS_PLATFORM_ERROR ∧ os_timer s' = os_timer s) ∧
    (pt_period p = 4295 → result = PRS_OK ∧ os_timer s' = 32).
Proof.
  intros Hf He Hi Hp H0. destruct (run_unblock_all page_size huge_page_size SIGSTKSZ self prs_pal_pit_handled_signals s e) as (b & Hrun & _); [done..|].
  set (s1 := with_os_tls (<[self := set_tl_blocked b e]> (os_tls s)) s) in *.
  set (usec := PRS_TICKS_TO_US (pt_period p)).
  exists (if usec <? 1000000 then PRS_OK else PRS_PLATFORM_ERROR), (if usec <? 1000000 then with_os_timer usec s1 else s1). split.
  { eapply run_seq; [exact Hrun|]. rewrite bool_decide_true by done. cbn [negb].
    eapply run_seq; [apply run_load; cbn; rewrite Hp; reflexivity|]. fold usec. unfold setitimer.
    destruct (usec <? 1000000); [|done]. eapply run_seq; [eapply run_syscall; [exact Hf|reflexivity]|]. done. }
  assert (pt_period p < 4295 → usec = pt_period p * 1000) as Hus.
  { intros Hlt. unfold usec, PRS_TICKS_TO_US, PRS_HZ. unfold u32. rewrite Z.mod_small by lia.
    replace (pt_period p * 1000000) with (pt_period p * 1000 * 1000) by lia. by rewrite Z.div_mul. }
  split_and!.
  - intros Hlt. rewrite Hus by lia. rewrite (proj2 (Z.ltb_lt _ _)) by lia. by split.
  - intros Hlt. rewrite Hus by lia. rewrite (proj2 (Z.ltb_ge _ _)) by lia. by split.
  - intros Heq. unfold usec. rewrite Heq. by vm_compute.
Qed.
