(* ===== verification/WinStack.v ===== *)
(** * Memory and stacks on Windows (prs/pal/windows/mem.c, the Windows part of prs/alloc/stack.c)

    The exception handler of a thread runs on the stack that overflowed, so that a stack has
    a guard page below what is committed, and below it pages for the handler.  What
    VirtualAlloc and its companions do to the pages of the process is modelled as far as it
    is documented. *)

From S2P Require Import Prelude Bitops Stack.

(** ** Pages *)

Definition PAGE_NOACCESS : Z := 0x01.
Definition PAGE_READONLY : Z := 0x02.
Definition PAGE_READWRITE : Z := 0x04.
Definition PAGE_EXECUTE : Z := 0x10.
Definition PAGE_EXECUTE_READ : Z := 0x20.
Definition PAGE_EXECUTE_READWRITE : Z := 0x40.
Definition PAGE_GUARD : Z := 0x100.

Definition MEM_COMMIT : Z := 0x1000.
Definition MEM_RESERVE : Z := 0x2000.
Definition MEM_LARGE_PAGES : Z := 0x20000000.

(** [wv_answers]: where the next reservations will be, 0 for none; [wv_prots]: the ranges of
    pages with their protection, the newest first, 0 when they are not committed;
    [wv_locked]: the pages that are locked; [wv_refused]: whether the system refuses the
    coming calls that commit, protect or lock pages, for want of memory or of quota; when
    it does, nothing changes. *)
Record wvm : Type := Wvm {
  wv_answers : list Z;
  wv_maps : list (Z * Z);
  wv_prots : list (Z * Z * Z);
  wv_locked : list Z;
  wv_errors : nat;
  wv_refused : list bool
}.

Definition with_prots (prots : list (Z * Z * Z)) (m : wvm) : wvm :=
  Wvm (wv_answers m) (wv_maps m) prots (wv_locked m) (wv_errors m) (wv_refused m).
Definition with_locked (locked : list Z) (m : wvm) : wvm :=
  Wvm (wv_answers m) (wv_maps m) (wv_prots m) locked (wv_errors m) (wv_refused m).

(** Whether the system refuses a call. *)
Definition refuses (m : wvm) : bool * wvm :=
  (nth 0 (wv_refused m) false, Wvm (wv_answers m) (wv_maps m) (wv_prots m) (wv_locked m) (wv_errors m) (tail (wv_refused m))).

Definition win_error_when (cond : bool) (m : wvm) : wvm :=
  if cond then Wvm (wv_answers m) (wv_maps m) (wv_prots m) (wv_locked m) (S (wv_errors m)) (wv_refused m) else m.

Fixpoint protection_in (prots : list (Z * Z * Z)) (a : Z) : Z :=
  match prots with
  | [] => 0
  | (addr, size, prot) :: prots => if (addr <=? a) && (a <? addr + size) then prot else protection_in prots a
  end.
Definition protection (m : wvm) (a : Z) : Z := protection_in (wv_prots m) a.

Section windows.
Context (page_size : Z).

(** The pages that hold a byte of a range: where they start, and their size. *)
Definition page_range (ptr size : Z) : Z * Z :=
  let start := ptr / page_size * page_size in
  (start, (ptr + size - start + page_size - 1) / page_size * page_size).
Definition pages (ptr size : Z) : list Z :=
  let (start, len) := page_range ptr size in
  (λ i, start + Z.of_nat i * page_size) <$> seq 0 (Z.to_nat (len / page_size)).

Definition reserved (m : wvm) (r : Z * Z) : bool := existsb (λ map, inside map r.1 r.2) (wv_maps m).

(** Committing pages that are committed already gives them the new protection. *)
Definition VirtualAlloc (ptr size winflags protect : Z) (m : wvm) : Z * wvm :=
  if ptr =? 0 then
    match wv_answers m with
    | addr :: answers =>
        let m := Wvm answers (wv_maps m) (wv_prots m) (wv_locked m) (wv_errors m) (wv_refused m) in
        if addr =? 0 then (0, m)
        else
          let len := (page_range addr size).2 in
          (addr, Wvm answers ((addr, len) :: wv_maps m)
            ((addr, len, if truthy (Z.land winflags MEM_COMMIT) then protect else 0) :: wv_prots m) (wv_locked m) (wv_errors m) (wv_refused m))
    | [] => (0, m)
    end
  else
    let r := page_range ptr size in
    if truthy (Z.land winflags MEM_COMMIT) && reserved m r then
      let (refused, m) := refuses m in
      if refused then (0, m) else (r.1, with_prots ((r.1, r.2, protect) :: wv_prots m) m)
    else (0, m).

(** With [MEM_RELEASE] and a size of 0: a whole reservation. *)
Definition VirtualFree_release (ptr : Z) (m : wvm) : bool * wvm :=
  if existsb (λ r, r.1 =? ptr) (wv_maps m)
  then (true, Wvm (wv_answers m) (filter (λ r, r.1 ≠ ptr) (wv_maps m)) (wv_prots m) (wv_locked m) (wv_errors m) (wv_refused m))
  else (false, m).
Definition VirtualFree_decommit (ptr size : Z) (m : wvm) : bool * wvm :=
  let r := page_range ptr size in
  if reserved m r then (true, with_prots ((r.1, r.2, 0) :: wv_prots m) m) else (false, m).

Definition VirtualProtect (ptr size protect : Z) (m : wvm) : bool * wvm :=
  let r := page_range ptr size in
  if reserved m r && forallb (λ a, negb (protection m a =? 0)) (pages ptr size) then
    let (refused, m) := refuses m in
    if refused then (false, m) else (true, with_prots ((r.1, r.2, protect) :: wv_prots m) m)
  else (false, m).

(** Pages that cannot be accessed, or that are guarded, cannot be locked. *)
Definition lockable (protect : Z) : bool :=
  negb (protect =? 0) && negb (protect =? PAGE_NOACCESS) && negb (truthy (Z.land protect PAGE_GUARD)).
Definition VirtualLock (ptr size : Z) (m : wvm) : bool * wvm :=
  if reserved m (page_range ptr size) && forallb (λ a, lockable (protection m a)) (pages ptr size) then
    let (refused, m) := refuses m in
    if refused then (false, m) else (true, with_locked (pages ptr size ++ wv_locked m) m)
  else (false, m).
Definition VirtualUnlock (ptr size : Z) (m : wvm) : bool * wvm :=
  if forallb (λ a, bool_decide (a ∈ wv_locked m)) (pages ptr size)
  then (true, with_locked (filter (λ a, a ∉ pages ptr size) (wv_locked m)) m)
  else (false, m).

(** ** Memory (windows/mem.c) *)

Definition prs_pal_mem_protect_flags (flags : Z) : Z :=
  let protect :=
    if truthy (Z.land flags PRS_PAL_MEM_FLAG_READ) then
      if truthy (Z.land flags PRS_PAL_MEM_FLAG_WRITE) then
        if truthy (Z.land flags PRS_PAL_MEM_FLAG_EXECUTE) then PAGE_EXECUTE_READWRITE else PAGE_READWRITE
      else
        if truthy (Z.land flags PRS_PAL_MEM_FLAG_EXECUTE) then PAGE_EXECUTE_READ else PAGE_READONLY
    else
      if truthy (Z.land flags PRS_PAL_MEM_FLAG_EXECUTE) then PAGE_EXECUTE else PAGE_NOACCESS in
  if truthy (Z.land flags PRS_PAL_MEM_FLAG_GUARD_ONLY) then Z.lor protect PAGE_GUARD else protect.

Definition prs_pal_mem_lock (ptr size : Z) (m : wvm) : wvm :=
  let (result, m) := VirtualLock ptr size m in win_error_when (negb result) m.

Definition prs_pal_mem_unlock (ptr size : Z) (m : wvm) : wvm :=
  let (result, m) := VirtualUnlock ptr size m in win_error_when (negb result) m.

(** What is locked is at the address that was asked for, not at the one that was given. *)
Definition prs_pal_mem_alloc (ptr size flags : Z) (m : wvm) : Z * wvm :=
  let commit := truthy (Z.land flags PRS_PAL_MEM_FLAG_COMMIT) in
  let winflags :=
    if commit then if truthy ptr then MEM_COMMIT else Z.lor MEM_RESERVE MEM_COMMIT else MEM_RESERVE in
  let protect :=
    if commit && truthy (Z.land flags PRS_PAL_MEM_FLAG_ALL_PROTECTION) then prs_pal_mem_protect_flags flags else PAGE_NOACCESS in
  let winflags :=
    if truthy (Z.land flags PRS_PAL_MEM_FLAG_LARGE_PAGE) then Z.lor winflags MEM_LARGE_PAGES else winflags in
  let (result, m) := VirtualAlloc ptr size winflags protect m in
  let m := win_error_when (result =? 0) m in
  let m := if truthy (Z.land flags PRS_PAL_MEM_FLAG_LOCK) then prs_pal_mem_lock ptr size m else m in
  (result, m).

Definition prs_pal_mem_map (size flags : Z) (m : wvm) : Z * wvm := prs_pal_mem_alloc 0 size flags m.

Definition prs_pal_mem_unmap (ptr size : Z) (m : wvm) : wvm :=
  let (result, m) := VirtualFree_release ptr m in win_error_when (negb result) m.

Definition prs_pal_mem_commit (ptr size flags : Z) (m : wvm) : wvm :=
  (prs_pal_mem_alloc ptr size (Z.lor flags PRS_PAL_MEM_FLAG_COMMIT) m).2.

Definition prs_pal_mem_uncommit (ptr size : Z) (m : wvm) : wvm :=
  let (result, m) := VirtualFree_decommit ptr size m in win_error_when (negb result) m.

Definition prs_pal_mem_protect (ptr size flags : Z) (m : wvm) : wvm :=
  let (result, m) := VirtualProtect ptr size (prs_pal_mem_protect_flags flags) m in win_error_when (negb result) m.

(** ** Stacks (alloc/stack.c) *)

Definition PRS_STACK_EXTRA_PAGES : Z := 3.
Definition PRS_PAL_MEM_FLAG_RW : Z := Z.lor PRS_PAL_MEM_FLAG_READ PRS_PAL_MEM_FLAG_WRITE.
Definition PRS_PAL_MEM_FLAG_GUARD : Z :=
  Z.lor PRS_PAL_MEM_FLAG_GUARD_ONLY PRS_PAL_MEM_FLAG_RW.

(** The pages for the handler and the guard page, below [stack_limit]. *)
Definition commit_guard (stack_limit extra_size : Z) (m : wvm) : wvm :=
  let stack_extra := u64 (stack_limit - extra_size) in
  let stack_guard := u64 (stack_limit - page_size) in
  let m := prs_pal_mem_commit stack_extra (page_size * PRS_STACK_EXTRA_PAGES) PRS_PAL_MEM_FLAG_RW m in
  prs_pal_mem_commit stack_guard page_size (Z.lor PRS_PAL_MEM_FLAG_GUARD PRS_PAL_MEM_FLAG_RW) m.

Definition prs_stack_create (size : Z) (m : wvm) : Z * Z * wvm :=
  let aligned_size := prs_bitops_align_size size page_size in
  if PRS_MAX_STACK_SIZE <? aligned_size then (0, 0, m)
  else
    let (stack_bottom, m) := prs_pal_mem_map PRS_MAX_STACK_SIZE 0 m in
    if stack_bottom =? 0 then (0, 0, m)
    else
      let protected_size := u64 (PRS_MAX_STACK_SIZE - aligned_size) in
      let stack_limit := u64 (stack_bottom + protected_size) in
      let extra_size := u64 (page_size * (1 + PRS_STACK_EXTRA_PAGES)) in
      if u64 (PRS_MAX_STACK_SIZE - extra_size) <? aligned_size then (0, 0, m)
      else
        let m := commit_guard stack_limit extra_size m in
        let m := prs_pal_mem_commit stack_limit aligned_size PRS_PAL_MEM_FLAG_RW m in
        (u64 (stack_bottom + PRS_MAX_STACK_SIZE), aligned_size, m).

Definition prs_stack_destroy (stack : Z) (m : wvm) : wvm :=
  prs_pal_mem_unmap (u64 (stack - PRS_MAX_STACK_SIZE)) PRS_MAX_STACK_SIZE m.

(** The address of the fault does not matter. *)
Definition prs_stack_grow (stack old_size : Z) (m : wvm) : bool * Z * wvm :=
  let grow_size := u64 ((1 + PRS_STACK_EXTRA_PAGES) * page_size) in
  let aligned_new_size := u64 (old_size + grow_size) in
  if PRS_MAX_STACK_SIZE <? aligned_new_size then (false, old_size, m)
  else
    let stack_bottom := u64 (stack - PRS_MAX_STACK_SIZE) in
    let protected_size := u64 (PRS_MAX_STACK_SIZE - aligned_new_size) in
    let stack_limit := u64 (stack_bottom + protected_size) in
    if u64 (PRS_MAX_STACK_SIZE - grow_size) <? aligned_new_size then (false, old_size, m)
    else
      let m := commit_guard stack_limit grow_size m in
      let m := prs_pal_mem_commit stack_limit grow_size PRS_PAL_MEM_FLAG_RW m in
      (true, aligned_new_size, m).

(** ** Accesses *)

Inductive access : Set := Fine | GuardViolation | AccessViolation.

(** A thread reads or writes at [a]: the first access to a guarded page raises an exception
    and takes the guard away. *)
Definition touch (a : Z) (m : wvm) : access * wvm :=
  let protect := protection m a in
  if truthy (Z.land protect PAGE_GUARD) then
    let start := a / page_size * page_size in
    (GuardViolation, with_prots ((start, page_size, Z.ldiff protect PAGE_GUARD) :: wv_prots m) m)
  else if (protect =? PAGE_READWRITE) || (protect =? PAGE_EXECUTE_READWRITE) then (Fine, m)
  else (AccessViolation, m).

(** A stack that ends at [stack] with its last [n] bytes committed. *)
Definition stack_protection (stack n a : Z) : Z :=
  if stack - n <=? a then PAGE_READWRITE
  else if stack - n - page_size <=? a then Z.lor PAGE_READWRITE PAGE_GUARD
  else if stack - n - 4 * page_size <=? a then PAGE_READWRITE
  else 0.

(** The pages when [c] bytes at the limit of a stack of [n] bytes, the guard page below them
    and three pages below that one are committed, each as far as the system does not
    refuse it: first the three pages, then the guard page, then those at the limit. *)
Definition laid_out (refused : bool * bool * bool) (stack n c : Z) (old : Z → Z) (a : Z) : Z :=
  let '(extra, guard, limit) := refused in
  if (stack - n <=? a) && (a <? stack - n + c) then if limit : bool then old a else PAGE_READWRITE
  else if (stack - n - page_size <=? a) && (a <? stack - n) then if guard : bool then old a else Z.lor PAGE_READWRITE PAGE_GUARD
  else if (stack - n - 4 * page_size <=? a) && (a <? stack - n - page_size) then if extra : bool then old a else PAGE_READWRITE
  else old a.

Record win_stack (stack n : Z) (m : wvm) : Prop := WinStack {
  ws_mapped : (stack - PRS_MAX_STACK_SIZE, PRS_MAX_STACK_SIZE) ∈ wv_maps m;
  ws_room : n mod page_size = 0 ∧ 0 ≤ n ∧ n + 4 * page_size ≤ PRS_MAX_STACK_SIZE;
  ws_protection a : stack - PRS_MAX_STACK_SIZE ≤ a < stack → protection m a = stack_protection stack n a
}.
End windows.

(** ** Growing *)

Section stack.
Context (k base : Z) (Hk : 0 ≤ k ≤ 17) (Hbase : 0 < base) (Hend : base + PRS_MAX_STACK_SIZE < 2 ^ 64)
  (Haligned : base mod 2 ^ k = 0).
Abbreviation p := (2 ^ k).
Abbreviation stack := (base + PRS_MAX_STACK_SIZE).

Lemma win_page_bounds : 1 ≤ p ≤ 2 ^ 17 ∧ PRS_MAX_STACK_SIZE mod p = 0.
Proof using Hk.
  split; [split; [pose proof (Z.pow_pos_nonneg 2 k); lia|apply Z.pow_le_mono_r; lia]|].
  apply (page_bounds k). lia.
Qed.

Lemma page_range_aligned ptr size : ptr mod p = 0 → size mod p = 0 → page_range p ptr size = (ptr, size).
Proof using Hk.
  intros Hp Hs. destruct win_page_bounds as [Hb _]. unfold page_range.
  assert (ptr / p * p = ptr) as -> by (pose proof (Z.div_mod ptr p ltac:(lia)); lia).
  f_equal. replace (ptr + size - ptr) with size by lia. apply round_up_aligned; [lia|done].
Qed.

(** Whole pages of the stack's range. *)
Definition in_stack (ptr size : Z) : Prop :=
  ptr mod p = 0 ∧ size mod p = 0 ∧ base ≤ ptr ∧ ptr + size ≤ stack.

Lemma in_stack_reserved ptr size m :
  (base, PRS_MAX_STACK_SIZE) ∈ wv_maps m → in_stack ptr size → reserved m (ptr, size) = true.
Proof using Type.
  intros Hin (_ & _ & H1 & H2). apply existsb_exists. exists (base, PRS_MAX_STACK_SIZE).
  split; [by apply list_elem_of_In|]. unfold inside. cbn [fst snd]. apply andb_true_iff. rewrite !Z.leb_le. lia.
Qed.

(** A commit that the system may refuse. *)
Definition committed_pages (ptr size prot : Z) (m : wvm) : wvm :=
  let (refused, m) := refuses m in
  if refused then win_error_when true m else with_prots ((ptr, size, prot) :: wv_prots m) m.

Lemma win_commit ptr size flags m :
  (base, PRS_MAX_STACK_SIZE) ∈ wv_maps m → in_stack ptr size →
  flags = PRS_PAL_MEM_FLAG_RW ∨ flags = Z.lor PRS_PAL_MEM_FLAG_GUARD PRS_PAL_MEM_FLAG_RW →
  prs_pal_mem_commit p ptr size flags m = committed_pages ptr size (prs_pal_mem_protect_flags flags) m.
Proof using All.
  intros Hin Hst Hf. pose proof Hst as (Hp & Hs & Hlo & Hhi).
  unfold prs_pal_mem_commit, prs_pal_mem_alloc, VirtualAlloc.
  assert (truthy ptr = true) as -> by (apply truthy_true; lia).
  rewrite (proj2 (Z.eqb_neq ptr 0)) by lia. rewrite page_range_aligned by done.
  set (f := Z.lor flags PRS_PAL_MEM_FLAG_COMMIT).
  assert (truthy (Z.land f PRS_PAL_MEM_FLAG_COMMIT) = true ∧ truthy (Z.land f PRS_PAL_MEM_FLAG_LARGE_PAGE) = false ∧
    truthy (Z.land f PRS_PAL_MEM_FLAG_LOCK) = false ∧ truthy (Z.land f PRS_PAL_MEM_FLAG_ALL_PROTECTION) = true ∧
    prs_pal_mem_protect_flags f = prs_pal_mem_protect_flags flags) as (-> & -> & -> & -> & ->)
    by (unfold f; destruct Hf as [-> | ->]; split_and!; by vm_compute).
  change (truthy (Z.land MEM_COMMIT MEM_COMMIT)) with true. rewrite in_stack_reserved by done. cbn [andb fst snd].
  unfold committed_pages, refuses. destruct (nth 0 _ _); [done|].
  by rewrite (proj2 (Z.eqb_neq ptr 0)) by lia.
Qed.

Lemma in_stack_sub n c : n mod p = 0 → c mod p = 0 → 0 ≤ c ≤ n → n ≤ PRS_MAX_STACK_SIZE → in_stack (stack - n) c.
Proof using Hk Haligned.
  intros Hn Hc Hcn Hmax. destruct win_page_bounds as [Hb Hm]. split; [|split; [done|lia]].
  rewrite Zminus_mod, Z.add_mod, Haligned, Hm, Hn by lia. by rewrite Z.add_0_l, Z.sub_0_r, !Z.mod_0_l by lia.
Qed.

(** Which of the next three commits the system refuses. *)
Definition refusals (m : wvm) : bool * bool * bool :=
  (nth 0 (wv_refused m) false, nth 1 (wv_refused m) false, nth 2 (wv_refused m) false).
Definition refused_count (refused : bool * bool * bool) : nat :=
  let '(extra, guard, limit) := refused in Nat.b2n extra + Nat.b2n guard + Nat.b2n limit.

Lemma committed_pages_exact ptr size prot m :
  let m' := committed_pages ptr size prot m in
  (∀ a, protection m' a = if (ptr <=? a) && (a <? ptr + size) then if nth 0 (wv_refused m) false then protection m a else prot else protection m a) ∧
  wv_errors m' = (wv_errors m + Nat.b2n (nth 0 (wv_refused m) false))%nat ∧ wv_maps m' = wv_maps m ∧ wv_refused m' = tail (wv_refused m).
Proof using Type.
  clear. unfold committed_pages, refuses. destruct (nth 0 _ _); (split_and!; [intros a|cbn; lia|done|done]); [by destruct (_ && _)|done].
Qed.

(** Committing [c] bytes at the limit of a stack of [n] bytes, after the pages below it. *)
Lemma layout_exact n c m :
  (base, PRS_MAX_STACK_SIZE) ∈ wv_maps m → n mod p = 0 → c mod p = 0 → 0 ≤ c ≤ n → n + 4 * p ≤ PRS_MAX_STACK_SIZE →
  let m' := prs_pal_mem_commit p (stack - n) c PRS_PAL_MEM_FLAG_RW (commit_guard p (stack - n) (4 * p) m) in
  (∀ a, protection m' a = laid_out p (refusals m) stack n c (protection m) a) ∧
  wv_errors m' = (wv_errors m + refused_count (refusals m))%nat ∧ wv_maps m' = wv_maps m.
Proof using All.
  intros Hin Hn Hc Hcn Hmax m'. destruct win_page_bounds as [Hb Hm].
  assert (p mod p = 0 ∧ (3 * p) mod p = 0 ∧ (n + p) mod p = 0 ∧ (n + 4 * p) mod p = 0) as (Hp1 & Hp3 & Hnp & Hn4).
  { rewrite Z.mod_same, Z.mod_mul, Z.mod_add by lia. replace (n + p) with (n + 1 * p) by lia. by rewrite Z.mod_add by lia. }
  set (m1 := committed_pages (stack - (n + 4 * p)) (3 * p) PAGE_READWRITE m).
  set (m2 := committed_pages (stack - (n + p)) p (Z.lor PAGE_READWRITE PAGE_GUARD) m1).
  destruct (committed_pages_exact (stack - (n + 4 * p)) (3 * p) PAGE_READWRITE m) as (P1 & E1 & M1 & R1).
  destruct (committed_pages_exact (stack - (n + p)) p (Z.lor PAGE_READWRITE PAGE_GUARD) m1) as (P2 & E2 & M2 & R2).
  destruct (committed_pages_exact (stack - n) c PAGE_READWRITE m2) as (P3 & E3 & M3 & _).
  fold m1 in P1, E1, M1, R1. fold m2 in P2, E2, M2, R2.
  assert (m' = committed_pages (stack - n) c PAGE_READWRITE m2) as ->.
  { unfold m', commit_guard, PRS_STACK_EXTRA_PAGES.
    rewrite (u64_small (stack - n - 4 * p)), (u64_small (stack - n - p)) by (unfold PRS_MAX_STACK_SIZE in *; lia).
    replace (p * 3) with (3 * p) by lia.
    replace (stack - n - 4 * p) with (stack - (n + 4 * p)) by lia. replace (stack - n - p) with (stack - (n + p)) by lia.
    rewrite (win_commit _ (3 * p) PRS_PAL_MEM_FLAG_RW) by (first [done|by left|by right|apply in_stack_sub; first [done|lia]]).
    change (committed_pages _ (3 * p) _ m) with m1.
    rewrite (win_commit _ p) by (first [by rewrite M1|by left|by right|apply in_stack_sub; first [done|lia]]).
    change (committed_pages _ p _ m1) with m2.
    by rewrite (win_commit _ c) by (first [by rewrite M2, M1|by left|by right|apply in_stack_sub; first [done|lia]]). }
  rewrite R2, R1 in P3, E3. rewrite R1 in P2, E2. unfold refusals.
  assert (∀ i (l : list bool), nth i (tail l) false = nth (S i) l false) as Htail by (intros i [|? ?]; by destruct i).
  rewrite !Htail in P3, E3. rewrite Htail in P2, E2. split_and!; [|unfold refused_count; lia|by rewrite M3, M2, M1].
  intros a. rewrite P3, P2, P1. unfold laid_out.
  replace (stack - (n + p) + p) with (stack - n) by lia. replace (stack - (n + 4 * p) + 3 * p) with (stack - n - p) by lia.
  replace (stack - (n + p)) with (stack - n - p) by lia. replace (stack - (n + 4 * p)) with (stack - n - 4 * p) by lia.
  destruct (nth 0 _ _), (nth 1 _ _), (nth 2 _ _), (Z.leb_spec (stack - n) a), (Z.ltb_spec a (stack - n + c)),
    (Z.leb_spec (stack - n - p) a), (Z.ltb_spec a (stack - n)), (Z.leb_spec (stack - n - 4 * p) a), (Z.ltb_spec a (stack - n - p)); cbn; first [done|lia].
Qed.

(** Nothing is refused. *)
Definition all_granted (m : wvm) : Prop := refusals m = (false, false, false).

Lemma layout_ok n c m m' :
  (∀ a, protection m' a = laid_out p (refusals m) stack n c (protection m) a) → wv_maps m' = wv_maps m →
  (base, PRS_MAX_STACK_SIZE) ∈ wv_maps m → n mod p = 0 → 0 ≤ c ≤ n → n + 4 * p ≤ PRS_MAX_STACK_SIZE →
  (∀ a, stack - n + c ≤ a < stack → protection m a = PAGE_READWRITE) →
  (∀ a, base ≤ a < stack - n - 4 * p → protection m a = 0) → all_granted m →
  win_stack p stack n m'.
Proof using Hk.
  intros Hprot Hmaps Hin Hn Hcn Hmax Hhi Hlo Hg. destruct win_page_bounds as [Hb _]. split.
  - rewrite Hmaps. by replace (stack - PRS_MAX_STACK_SIZE) with base by lia.
  - split; [done|lia].
  - intros a Ha. rewrite Hprot, Hg. unfold laid_out, stack_protection.
    destruct (Z.leb_spec (stack - n) a), (Z.ltb_spec a (stack - n + c)), (Z.leb_spec (stack - n - p) a), (Z.ltb_spec a (stack - n)),
      (Z.leb_spec (stack - n - 4 * p) a), (Z.ltb_spec a (stack - n - p)); cbn; first [done|lia|apply Hhi; lia|apply Hlo; lia].
Qed.

Lemma laid_out_old r n c old old' a : old a = old' a → laid_out p r stack n c old a = laid_out p r stack n c old' a.
Proof using Type. clear. intros E. unfold laid_out. by rewrite E. Qed.

(** What a creation leaves, whether or not the system commits the pages. *)
Lemma win_stack_create_exact size answers m :
  wv_answers m = base :: answers → 0 < size ≤ PRS_MAX_STACK_SIZE →
  let a := prs_bitops_align_size size p in
  (a + 4 * p ≤ PRS_MAX_STACK_SIZE →
   ∃ m', prs_stack_create p size m = (stack, a, m') ∧ wv_errors m' = (wv_errors m + refused_count (refusals m))%nat ∧
     (∀ b, base ≤ b < stack → protection m' b = laid_out p (refusals m) stack a a (λ _, 0) b) ∧
     (all_granted m → win_stack p stack a m')) ∧
  (PRS_MAX_STACK_SIZE < a + 4 * p →
   ∃ m', prs_stack_create p size m = (0, 0, m') ∧ (base, PRS_MAX_STACK_SIZE) ∈ wv_maps m').
Proof using All.
  intros Hans Hs a. destruct win_page_bounds as [Hb Hm].
  destruct (stack_size_aligned k ltac:(lia) size Hs) as (Ha & Ham & Hamax). fold a in Ha, Ham, Hamax.
  set (m1 := Wvm answers ((base, PRS_MAX_STACK_SIZE) :: wv_maps m) ((base, PRS_MAX_STACK_SIZE, 0) :: wv_prots m) (wv_locked m) (wv_errors m) (wv_refused m)).
  assert (prs_pal_mem_map p PRS_MAX_STACK_SIZE 0 m = (base, m1)) as Hmap.
  { unfold prs_pal_mem_map, prs_pal_mem_alloc, VirtualAlloc. rewrite Hans.
    change (0 =? 0) with true. cbv iota. rewrite (proj2 (Z.eqb_neq base 0)) by lia.
    rewrite page_range_aligned by done. change (truthy (Z.land 0 _)) with false. cbv iota zeta beta.
    by rewrite (proj2 (Z.eqb_neq base 0)) by lia. }
  assert (∀ b, base ≤ b < stack → protection m1 b = 0) as Hnone.
  { intros b Hlt. unfold protection, m1. cbn [wv_prots protection_in].
    by rewrite (proj2 (Z.leb_le base b)), (proj2 (Z.ltb_lt b stack)) by lia. }
  unfold prs_stack_create. fold a. rewrite (proj2 (Z.ltb_ge _ _)) by lia. rewrite Hmap.
  rewrite (proj2 (Z.eqb_neq base 0)) by lia. cbv zeta. rewrite (commit_limit k base) by (first [assumption|lia]).
  replace (p * (1 + PRS_STACK_EXTRA_PAGES)) with (4 * p) by (unfold PRS_STACK_EXTRA_PAGES; lia).
  rewrite (u64_small (4 * p)) by lia. rewrite (u64_small (PRS_MAX_STACK_SIZE - 4 * p)) by (unfold PRS_MAX_STACK_SIZE; lia).
  split; intros Hroom.
  - rewrite (proj2 (Z.ltb_ge _ _)) by lia. replace (base + (PRS_MAX_STACK_SIZE - a)) with (stack - a) by lia.
    rewrite (u64_small stack) by (unfold PRS_MAX_STACK_SIZE in *; lia).
    destruct (layout_exact a a m1) as (Hp & He & Hmaps); [by left|done..|lia|lia|].
    eexists. split; [reflexivity|]. split; [exact He|]. split.
    + intros b Hlt. rewrite Hp. by apply laid_out_old, Hnone.
    + intros Hg. eapply (layout_ok a a m1); [exact Hp|exact Hmaps|by left|done|lia|lia|intros; lia| |exact Hg].
      intros b Hlt. apply Hnone. lia.
  - rewrite (proj2 (Z.ltb_lt _ _)) by lia. eexists. split; [reflexivity|]. by left.
Qed.

Lemma page_of f n : n mod p = 0 → stack - n - p ≤ f < stack - n → f / p * p = stack - n - p.
Proof using Hk Haligned.
  intros Hn Hf. destruct win_page_bounds as [Hb Hm].
  apply Z.mod_divide in Hm as [q1 Hq1]; [|lia]. apply Z.mod_divide in Hn as [q2 Hq2]; [|lia].
  apply Z.mod_divide in Haligned as [q3 Hq3]; [|lia].
  assert (f / p = q3 + q1 - q2 - 1) as ->; [|lia]. symmetry. apply (Z.div_unique f p _ (f - (stack - n - p))); lia.
Qed.

Lemma win_stack_touch n m f :
  win_stack p stack n m → base ≤ f < stack →
  touch p f m =
    if stack - n <=? f then (Fine, m)
    else if stack - n - p <=? f then (GuardViolation, with_prots ((stack - n - p, p, PAGE_READWRITE) :: wv_prots m) m)
    else if stack - n - 4 * p <=? f then (Fine, m) else (AccessViolation, m).
Proof using Hk Haligned.
  intros [Hin (Hn & H0 & Hroom) Hprot] Hf. unfold touch. rewrite Hprot by lia. unfold stack_protection.
  destruct (Z.leb_spec (stack - n) f); [done|]. destruct (Z.leb_spec (stack - n - p) f).
  - rewrite page_of with (n := n) by (done || lia). done.
  - by destruct (Z.leb_spec (stack - n - 4 * p) f).
Qed.

(** What a growth leaves, whether or not the system commits the pages. *)
Lemma win_stack_grow_exact n m :
  (base, PRS_MAX_STACK_SIZE) ∈ wv_maps m → n mod p = 0 → 0 ≤ n → n + 4 * p ≤ PRS_MAX_STACK_SIZE →
  (n + 8 * p ≤ PRS_MAX_STACK_SIZE →
   ∃ m', prs_stack_grow p stack n m = (true, n + 4 * p, m') ∧ wv_errors m' = (wv_errors m + refused_count (refusals m))%nat ∧
     (∀ a, protection m' a = laid_out p (refusals m) stack (n + 4 * p) (4 * p) (protection m) a) ∧ wv_maps m' = wv_maps m) ∧
  (PRS_MAX_STACK_SIZE < n + 8 * p → prs_stack_grow p stack n m = (false, n, m)).
Proof using All.
  intros Hin Hn H0 Hroom. destruct win_page_bounds as [Hb Hm]. unfold prs_stack_grow.
  replace ((1 + PRS_STACK_EXTRA_PAGES) * p) with (4 * p) by (unfold PRS_STACK_EXTRA_PAGES; lia).
  rewrite (u64_small (4 * p)) by lia. rewrite (u64_small (n + 4 * p)), (u64_small (PRS_MAX_STACK_SIZE - 4 * p)) by (unfold PRS_MAX_STACK_SIZE in *; lia).
  rewrite (u64_small (stack - PRS_MAX_STACK_SIZE)) by (unfold PRS_MAX_STACK_SIZE in *; lia).
  replace (stack - PRS_MAX_STACK_SIZE) with base by lia. rewrite (proj2 (Z.ltb_ge PRS_MAX_STACK_SIZE _)) by lia.
  cbv zeta. rewrite (commit_limit k base) by (first [assumption|lia]). split; intros Hmax.
  - rewrite (proj2 (Z.ltb_ge _ _)) by lia. replace (base + (PRS_MAX_STACK_SIZE - (n + 4 * p))) with (stack - (n + 4 * p)) by lia.
    destruct (layout_exact (n + 4 * p) (4 * p) m) as (Hp & He & Hmaps); [done|by rewrite Z.mod_add by lia|by rewrite Z.mod_mul by lia|lia|lia|].
    eexists. split; [reflexivity|]. split; [exact He|]. split; [exact Hp|exact Hmaps].
  - by rewrite (proj2 (Z.ltb_lt _ _)) by lia.
Qed.

(** A growth after an access to the guard page, which is an ordinary page then. *)
Lemma win_stack_grow_ok n m :
  let m1 := with_prots ((stack - n - p, p, PAGE_READWRITE) :: wv_prots m) m in
  win_stack p stack n m → n + 8 * p ≤ PRS_MAX_STACK_SIZE →
  ∃ m2, prs_stack_grow p stack n m1 = (true, n + 4 * p, m2) ∧ wv_errors m2 = (wv_errors m + refused_count (refusals m))%nat ∧
    (∀ a, protection m2 a = laid_out p (refusals m) stack (n + 4 * p) (4 * p) (protection m1) a) ∧
    (∀ a, stack - n - p ≤ a < stack → protection m2 a = PAGE_READWRITE) ∧
    (all_granted m → win_stack p stack (n + 4 * p) m2) ∧
    ((refusals m).1.2 = true → ∀ a, stack - n - 5 * p ≤ a < stack - n - 4 * p → protection m2 a = 0).
Proof using All.
  intros m1 [Hin (Hn & H0 & Hroom) Hprot] Hmax. destruct win_page_bounds as [Hb Hm].
  replace (stack - PRS_MAX_STACK_SIZE) with base in Hin, Hprot by lia.
  destruct (proj1 (win_stack_grow_exact n m1 Hin Hn H0 Hroom) Hmax) as (m2 & Hg & He & Hp & Hmaps).
  change (refusals m1) with (refusals m) in *. change (wv_errors m1) with (wv_errors m) in He.
  assert (∀ a, base ≤ a < stack → protection m1 a = if stack - n - p <=? a then PAGE_READWRITE else stack_protection p stack n a) as Hm1.
  { intros a Ha. unfold protection, m1. cbn [with_prots wv_prots protection_in]. fold (protection m a). rewrite Hprot by lia. unfold stack_protection.
    destruct (Z.leb_spec (stack - n - p) a), (Z.ltb_spec a (stack - n - p + p)), (Z.leb_spec (stack - n) a); cbn; first [done|lia]. }
  assert (∀ a, stack - n - p ≤ a < stack → protection m1 a = PAGE_READWRITE) as Hhi.
  { intros a Ha. rewrite Hm1 by (unfold PRS_MAX_STACK_SIZE in *; lia). by rewrite (proj2 (Z.leb_le _ _)) by lia. }
  assert (∀ a, base ≤ a < stack - n - 4 * p → protection m1 a = 0) as Hlo.
  { intros a Ha. rewrite Hm1 by lia. unfold stack_protection. by rewrite !(proj2 (Z.leb_gt _ _)) by lia. }
  exists m2. split; [exact Hg|]. split; [exact He|]. split; [exact Hp|]. split; [|split].
  - intros a Ha. rewrite Hp. unfold laid_out. destruct (refusals m) as [[extra guard] limit].
    rewrite (Hhi a Ha), (proj2 (Z.leb_le _ _)) by lia. destruct (Z.ltb_spec a (stack - (n + 4 * p) + 4 * p)); cbn [andb]; [by destruct limit|].
    rewrite (proj2 (Z.ltb_ge a (stack - (n + 4 * p)))), andb_false_r by lia.
    by rewrite (proj2 (Z.ltb_ge a (stack - (n + 4 * p) - p))), andb_false_r by lia.
  - intros Hgr. eapply (layout_ok (n + 4 * p) (4 * p) m1); [exact Hp|exact Hmaps|exact Hin|by rewrite Z.mod_add by lia|lia|lia| | |exact Hgr].
    + intros a Ha. apply Hhi. lia.
    + intros a Ha. apply Hlo. lia.
  - intros Hguard a Ha. rewrite Hp. unfold laid_out. destruct (refusals m) as [[extra guard] limit]. cbn in Hguard. subst guard.
    rewrite (proj2 (Z.leb_gt (stack - (n + 4 * p)) a)) by lia. cbn [andb].
    rewrite (proj2 (Z.leb_le (stack - (n + 4 * p) - p) a)), (proj2 (Z.ltb_lt a (stack - (n + 4 * p)))) by lia. apply Hlo. lia.
Qed.
End stack.

(** C40: A stack on Windows keeps its layout as long as the system commits its pages.  A new
    stack has whole pages, the least number that holds the requested size, at the end of its
    range, a guard page below them and three pages below that one.  Whatever it has grown to,
    the first access to the guard page raises the exception, and growing then commits the
    four pages down to the next limit with a guard page and three pages below it again, so
    that the access succeeds and the next overflow is noticed, too; when that would leave
    the range, growing refuses and changes nothing.  An access that misses the guard page,
    as that of a function with a large frame may, is not noticed in the three pages below
    it, and further down is an access violation, which does not grow the stack.  A size that
    leaves no room for the guard is refused, and the range stays reserved.  Each of the
    three commits of a creation or of a growth may be refused by the system: that is
    reported once as an error and otherwise ignored.  The results are the same, the pages
    of the commit stay as they were, and the access that overflowed still succeeds, but when
    the guard page of a growth is refused, the next overflow is an access violation and
    does not grow the stack. *)
Theorem win_stack_keeps_layout k base answers size m :
  0 ≤ k ≤ 17 → 0 < base → base + PRS_MAX_STACK_SIZE < 2 ^ 64 → base mod 2 ^ k = 0 →
  wv_answers m = base :: answers → 0 < size ≤ PRS_MAX_STACK_SIZE →
  let p := 2 ^ k in
  let stack := base + PRS_MAX_STACK_SIZE in
  let a := prs_bitops_align_size size p in
  size ≤ a < size + p ∧
  (a + 4 * p ≤ PRS_MAX_STACK_SIZE →
   ∃ m', prs_stack_create p size m = (stack, a, m') ∧ wv_errors m' = (wv_errors m + refused_count (refusals m))%nat ∧
     (∀ b, base ≤ b < stack → protection m' b = laid_out p (refusals m) stack a a (λ _, 0) b) ∧
     (all_granted m → win_stack p stack a m')) ∧
  (PRS_MAX_STACK_SIZE < a + 4 * p →
   ∃ m', prs_stack_create p size m = (0, 0, m') ∧ (base, PRS_MAX_STACK_SIZE) ∈ wv_maps m') ∧
  ∀ n m1, win_stack p stack n m1 →
    (∀ f, stack - n - p ≤ f < stack - n →
     ∃ m2, touch p f m1 = (GuardViolation, m2) ∧
       (n + 8 * p ≤ PRS_MAX_STACK_SIZE →
        ∃ m3, prs_stack_grow p stack n m2 = (true, n + 4 * p, m3) ∧
          wv_errors m3 = (wv_errors m1 + refused_count (refusals m1))%nat ∧ touch p f m3 = (Fine, m3) ∧
          (∀ b, protection m3 b = laid_out p (refusals m1) stack (n + 4 * p) (4 * p) (protection m2) b) ∧
          (all_granted m1 → win_stack p stack (n + 4 * p) m3) ∧
          ((refusals m1).1.2 = true →
           ∀ f', stack - n - 5 * p ≤ f' < stack - n - 4 * p → touch p f' m3 = (AccessViolation, m3))) ∧
       (PRS_MAX_STACK_SIZE < n + 8 * p → prs_stack_grow p stack n m2 = (false, n, m2))) ∧
    (∀ f, stack - n - 4 * p ≤ f < stack - n - p → touch p f m1 = (Fine, m1)) ∧
    (∀ f, base ≤ f < stack - n - 4 * p → touch p f m1 = (AccessViolation, m1)) ∧
    (base, PRS_MAX_STACK_SIZE) ∉ wv_maps (prs_stack_destroy stack m1).
Proof.
  intros Hk Hbase Hend Hal Hans Hs p stack a.
  destruct (win_page_bounds k Hk) as [Hb _]. fold p in Hb.
  destruct (stack_size_aligned k ltac:(lia) size Hs) as (Ha & _ & _). fold p a in Ha.
  destruct (win_stack_create_exact k base Hk Hbase Hend Hal size answers m Hans Hs) as [Hc1 Hc2].
  split; [done|]. split; [exact Hc1|]. split; [exact Hc2|]. intros n m1 Hst.
  pose proof Hst as [Hin (Hn & H0 & Hroom) _].
  assert (∀ n m f, win_stack p stack n m → base ≤ f < stack → _) as Htouch by exact (λ n m f, win_stack_touch k base Hk Hal n m f).
  fold p stack in Htouch. split; [|split; [|split]].
  - intros f Hf. rewrite Htouch with (n := n) by (done || (unfold PRS_MAX_STACK_SIZE in *; lia)).
    rewrite (proj2 (Z.leb_gt _ _)), (proj2 (Z.leb_le _ _)) by lia. eexists. split; [reflexivity|]. split.
    + intros Hmax. destruct (win_stack_grow_ok k base Hk Hbase Hend Hal n m1 Hst Hmax) as (m3 & Hg & He & Hp & Hhi & Hok & Hno).
      exists m3. split_and!; [exact Hg|exact He| |exact Hp|exact Hok|].
      * unfold touch. by rewrite Hhi by (fold p stack; lia).
      * intros Hr f' Hf'. unfold touch. by rewrite Hno by (done || fold p stack; lia).
    + intros Hmax. refine (proj2 (win_stack_grow_exact k base Hk Hbase Hend Hal n _ _ Hn H0 Hroom) Hmax).
      replace base with (stack - PRS_MAX_STACK_SIZE) by (unfold stack; lia). exact Hin.
  - intros f Hf. rewrite Htouch with (n := n) by (done || (unfold PRS_MAX_STACK_SIZE in *; lia)).
    rewrite (proj2 (Z.leb_gt (stack - n) f)), (proj2 (Z.leb_gt (stack - n - p) f)) by lia. by rewrite (proj2 (Z.leb_le _ _)) by lia.
  - intros f Hf. rewrite Htouch with (n := n) by (done || (unfold PRS_MAX_STACK_SIZE in *; lia)).
    by rewrite !(proj2 (Z.leb_gt _ _)) by lia.
  - unfold prs_stack_destroy, prs_pal_mem_unmap, VirtualFree_release.
    rewrite u64_small by (unfold stack, PRS_MAX_STACK_SIZE in *; lia). replace (stack - PRS_MAX_STACK_SIZE) with base in * by (unfold stack; lia).
    assert (existsb (λ r, r.1 =? base) (wv_maps m1) = true) as ->.
    { apply existsb_exists. exists (base, PRS_MAX_STACK_SIZE). split; [by apply list_elem_of_In|]. apply Z.eqb_refl. }
    cbn. intros [Hne _]%list_elem_of_filter. by apply Hne.
Qed.

(** Pages of 4096 bytes, and a range at 4 GiB; the system refuses the guard page of the growth. *)
Lemma win_stack_keeps_layout_witness :
  let m := Wvm [2 ^ 32] [] [] [] 0 [false; false; false; false; true] in
  ∃ m', prs_stack_create (2 ^ 12) 5000 m = (2 ^ 32 + PRS_MAX_STACK_SIZE, 8192, m') ∧
    ∃ m2 m3, touch (2 ^ 12) (2 ^ 32 + PRS_MAX_STACK_SIZE - 9000) m' = (GuardViolation, m2) ∧
      prs_stack_grow (2 ^ 12) (2 ^ 32 + PRS_MAX_STACK_SIZE) 8192 m2 = (true, 8192 + 4 * 2 ^ 12, m3) ∧
      touch (2 ^ 12) (2 ^ 32 + PRS_MAX_STACK_SIZE - 9000) m3 = (Fine, m3) ∧ wv_errors m3 = 1%nat ∧
      touch (2 ^ 12) (2 ^ 32 + PRS_MAX_STACK_SIZE - 25000) m3 = (AccessViolation, m3).
Proof.
  intros m. destruct (win_stack_keeps_layout 12 (2 ^ 32) [] 5000 m) as (_ & Hcreate & _ & Hgrow); try reflexivity;
    try (unfold PRS_MAX_STACK_SIZE; lia).
  destruct Hcreate as (m' & Hc & He & _ & Hst); [by vm_compute|]. specialize (Hst eq_refl).
  exists m'. split; [rewrite Hc; by vm_compute|].
  assert (refusals m' = (false, true, false)) as Hr.
  { assert ((prs_stack_create (2 ^ 12) 5000 m).2 = m') as <- by by rewrite Hc. by vm_compute. }
  destruct (Hgrow _ _ Hst) as (Hg & _).
  destruct (Hg (2 ^ 32 + PRS_MAX_STACK_SIZE - 9000)) as (m2 & Ht & Hok & _); [split; by vm_compute|].
  destruct Hok as (m3 & Hg3 & He3 & Ht3 & _ & _ & Hno); [by vm_compute|]. exists m2, m3.
  split; [exact Ht|]. split; [exact Hg3|]. split; [exact Ht3|]. split; [by rewrite He3, Hr, He|].
  apply Hno; [by rewrite Hr|]. split; by vm_compute.
Defined.

(** ** The same flags on both platforms

    Reading, writing and executing. *)
Definition posix_rights (prot : Z) : bool * bool * bool :=
  (truthy (Z.land prot PROT_READ), truthy (Z.land prot PROT_WRITE), truthy (Z.land prot PROT_EXEC)).
Definition win_rights (protect : Z) : bool * bool * bool :=
  (existsb (Z.eqb protect) [PAGE_READONLY; PAGE_READWRITE; PAGE_EXECUTE_READ; PAGE_EXECUTE_READWRITE],
   existsb (Z.eqb protect) [PAGE_READWRITE; PAGE_EXECUTE_READWRITE],
   existsb (Z.eqb protect) [PAGE_EXECUTE; PAGE_EXECUTE_READ; PAGE_EXECUTE_READWRITE]).

(** Memory that is not a guard page can be used in the same way on both, unless it may be
    written and not read: then Windows does not let it be written either. *)
Lemma mem_flags_agree flags :
  truthy (Z.land flags PRS_PAL_MEM_FLAG_GUARD_ONLY) = false →
  win_rights (prs_pal_mem_protect_flags flags) =
    let '(r, w, x) := posix_rights (Stack.prs_pal_mem_protect_flags flags) in (r, r && w, x).
Proof.
  intros Hg. unfold prs_pal_mem_protect_flags, Stack.prs_pal_mem_protect_flags. rewrite Hg.
  destruct (truthy (Z.land flags PRS_PAL_MEM_FLAG_READ)), (truthy (Z.land flags PRS_PAL_MEM_FLAG_WRITE)),
    (truthy (Z.land flags PRS_PAL_MEM_FLAG_EXECUTE)); by vm_compute.
Qed.
