(* ===== verification/Windows.v ===== *)
(** * Threads, interval timers and exceptions on Windows (prs/pal/windows/thread.c, pit.c, excp.c)

    The same functions as those of Signal.v and Pal.v, for the other platform: a thread is
    interrupted by suspending it and changing its registers from outside, two timers of the
    system watch over each other, and exceptions come through a handler of the process.  A
    system call that fails has no effect; [w_fails] says which of the next calls do.  A
    thread's registers are one number. *)

From S2P Require Import Prelude Heap Bitops Stack Atomic RefDir Kern Pal Worker Task Event Timer Clock Name.
From S2P Require Import Sched TaskLife Proc Excp Signal.

(** ** The process *)

(** [struct prs_pal_thread]; a handle of 0 is none. *)
Record win_thread : Type := WinThread {
  wt_handle : Z;
  wt_from_current : bool;
  wt_userdata : ptr;
  wt_started : bool;
  wt_exited : bool;
  wt_interrupt_context : ptr;
  wt_idle_event : Z
}.

(** What the system keeps of a thread: how often it is suspended, its registers, and whether
    it has returned. *)
Record os_thread : Type := OsThread {
  ot_suspended : Z;
  ot_regs : Z;
  ot_affinity : Z;
  ot_prio : Z;
  ot_done : bool
}.

(** [struct prs_pal_pit] with multimedia timers. *)
Record win_pit : Type := WinPit {
  wp_userdata : Z;
  wp_callback : Z;
  wp_period : Z;
  wp_wintimer : Z;
  wp_wintimer_backup : Z;
  wp_check0 : Z;
  wp_check1 : Z
}.

(** The two functions that timers call. *)
Inductive timer_entry : Set := MainEntry | BackupEntry.

(** [w_handle]: the next handle; [w_events]: whether they are set; [w_timers]: what each
    calls, for which timer, and its period in milliseconds; [w_calls]: the callbacks that were
    called, with their argument; [w_errors]: how often an error was reported. *)
Record wproc : Type := Wproc {
  w_fails : list bool;
  w_heap : heap;
  w_handle : Z;
  w_threads : gmap loc win_thread;
  w_contexts : gmap loc Z;
  w_os_threads : gmap Z os_thread;
  w_events : gmap Z bool;
  w_pits : gmap loc win_pit;
  w_timers : gmap Z (timer_entry * loc * Z);
  w_begin_period : Z;
  w_excp_registered : bool;
  w_excp_handlers : list Z;
  w_calls : list (Z * Z);
  w_errors : nat
}.

Definition set_wt_handle (v : Z) (e : win_thread) : win_thread :=
  WinThread v (wt_from_current e) (wt_userdata e) (wt_started e) (wt_exited e) (wt_interrupt_context e) (wt_idle_event e).
Definition set_wt_from_current (v : bool) (e : win_thread) : win_thread :=
  WinThread (wt_handle e) v (wt_userdata e) (wt_started e) (wt_exited e) (wt_interrupt_context e) (wt_idle_event e).
Definition set_wt_userdata (v : ptr) (e : win_thread) : win_thread :=
  WinThread (wt_handle e) (wt_from_current e) v (wt_started e) (wt_exited e) (wt_interrupt_context e) (wt_idle_event e).
Definition set_wt_started (v : bool) (e : win_thread) : win_thread :=
  WinThread (wt_handle e) (wt_from_current e) (wt_userdata e) v (wt_exited e) (wt_interrupt_context e) (wt_idle_event e).
Definition set_wt_exited (v : bool) (e : win_thread) : win_thread :=
  WinThread (wt_handle e) (wt_from_current e) (wt_userdata e) (wt_started e) v (wt_interrupt_context e) (wt_idle_event e).
Definition set_wt_interrupt_context (v : ptr) (e : win_thread) : win_thread :=
  WinThread (wt_handle e) (wt_from_current e) (wt_userdata e) (wt_started e) (wt_exited e) v (wt_idle_event e).
Definition set_wt_idle_event (v : Z) (e : win_thread) : win_thread :=
  WinThread (wt_handle e) (wt_from_current e) (wt_userdata e) (wt_started e) (wt_exited e) (wt_interrupt_context e) v.

Definition set_ot_suspended (v : Z) (e : os_thread) : os_thread :=
  OsThread v (ot_regs e) (ot_affinity e) (ot_prio e) (ot_done e).
Definition set_ot_regs (v : Z) (e : os_thread) : os_thread :=
  OsThread (ot_suspended e) v (ot_affinity e) (ot_prio e) (ot_done e).
Definition set_ot_affinity (v : Z) (e : os_thread) : os_thread :=
  OsThread (ot_suspended e) (ot_regs e) v (ot_prio e) (ot_done e).
Definition set_ot_prio (v : Z) (e : os_thread) : os_thread :=
  OsThread (ot_suspended e) (ot_regs e) (ot_affinity e) v (ot_done e).
Definition set_ot_done (v : bool) (e : os_thread) : os_thread :=
  OsThread (ot_suspended e) (ot_regs e) (ot_affinity e) (ot_prio e) v.

Definition set_wp_userdata (v : Z) (e : win_pit) : win_pit :=
  WinPit v (wp_callback e) (wp_period e) (wp_wintimer e) (wp_wintimer_backup e) (wp_check0 e) (wp_check1 e).
Definition set_wp_callback (v : Z) (e : win_pit) : win_pit :=
  WinPit (wp_userdata e) v (wp_period e) (wp_wintimer e) (wp_wintimer_backup e) (wp_check0 e) (wp_check1 e).
Definition set_wp_period (v : Z) (e : win_pit) : win_pit :=
  WinPit (wp_userdata e) (wp_callback e) v (wp_wintimer e) (wp_wintimer_backup e) (wp_check0 e) (wp_check1 e).
Definition set_wp_wintimer (v : Z) (e : win_pit) : win_pit :=
  WinPit (wp_userdata e) (wp_callback e) (wp_period e) v (wp_wintimer_backup e) (wp_check0 e) (wp_check1 e).
Definition set_wp_wintimer_backup (v : Z) (e : win_pit) : win_pit :=
  WinPit (wp_userdata e) (wp_callback e) (wp_period e) (wp_wintimer e) v (wp_check0 e) (wp_check1 e).
Definition set_wp_check0 (v : Z) (e : win_pit) : win_pit :=
  WinPit (wp_userdata e) (wp_callback e) (wp_period e) (wp_wintimer e) (wp_wintimer_backup e) v (wp_check1 e).
Definition set_wp_check1 (v : Z) (e : win_pit) : win_pit :=
  WinPit (wp_userdata e) (wp_callback e) (wp_period e) (wp_wintimer e) (wp_wintimer_backup e) (wp_check0 e) v.

Definition with_w_fails (v : list bool) (s : wproc) : wproc :=
  Wproc v (w_heap s) (w_handle s) (w_threads s) (w_contexts s) (w_os_threads s) (w_events s) (w_pits s) (w_timers s) (w_begin_period s) (w_excp_registered s) (w_excp_handlers s) (w_calls s) (w_errors s).
Definition with_w_heap (v : heap) (s : wproc) : wproc :=
  Wproc (w_fails s) v (w_handle s) (w_threads s) (w_contexts s) (w_os_threads s) (w_events s) (w_pits s) (w_timers s) (w_begin_period s) (w_excp_registered s) (w_excp_handlers s) (w_calls s) (w_errors s).
Definition with_w_handle (v : Z) (s : wproc) : wproc :=
  Wproc (w_fails s) (w_heap s) v (w_threads s) (w_contexts s) (w_os_threads s) (w_events s) (w_pits s) (w_timers s) (w_begin_period s) (w_excp_registered s) (w_excp_handlers s) (w_calls s) (w_errors s).
Definition with_w_threads (v : gmap loc win_thread) (s : wproc) : wproc :=
  Wproc (w_fails s) (w_heap s) (w_handle s) v (w_contexts s) (w_os_threads s) (w_events s) (w_pits s) (w_timers s) (w_begin_period s) (w_excp_registered s) (w_excp_handlers s) (w_calls s) (w_errors s).
Definition with_w_contexts (v : gmap loc Z) (s : wproc) : wproc :=
  Wproc (w_fails s) (w_heap s) (w_handle s) (w_threads s) v (w_os_threads s) (w_events s) (w_pits s) (w_timers s) (w_begin_period s) (w_excp_registered s) (w_excp_handlers s) (w_calls s) (w_errors s).
Definition with_w_os_threads (v : gmap Z os_thread) (s : wproc) : wproc :=
  Wproc (w_fails s) (w_heap s) (w_handle s) (w_threads s) (w_contexts s) v (w_events s) (w_pits s) (w_timers s) (w_begin_period s) (w_excp_registered s) (w_excp_handlers s) (w_calls s) (w_errors s).
Definition with_w_events (v : gmap Z bool) (s : wproc) : wproc :=
  Wproc (w_fails s) (w_heap s) (w_handle s) (w_threads s) (w_contexts s) (w_os_threads s) v (w_pits s) (w_timers s) (w_begin_period s) (w_excp_registered s) (w_excp_handlers s) (w_calls s) (w_errors s).
Definition with_w_pits (v : gmap loc win_pit) (s : wproc) : wproc :=
  Wproc (w_fails s) (w_heap s) (w_handle s) (w_threads s) (w_contexts s) (w_os_threads s) (w_events s) v (w_timers s) (w_begin_period s) (w_excp_registered s) (w_excp_handlers s) (w_calls s) (w_errors s).
Definition with_w_timers (v : gmap Z (timer_entry * loc * Z)) (s : wproc) : wproc :=
  Wproc (w_fails s) (w_heap s) (w_handle s) (w_threads s) (w_contexts s) (w_os_threads s) (w_events s) (w_pits s) v (w_begin_period s) (w_excp_registered s) (w_excp_handlers s) (w_calls s) (w_errors s).
Definition with_w_begin_period (v : Z) (s : wproc) : wproc :=
  Wproc (w_fails s) (w_heap s) (w_handle s) (w_threads s) (w_contexts s) (w_os_threads s) (w_events s) (w_pits s) (w_timers s) v (w_excp_registered s) (w_excp_handlers s) (w_calls s) (w_errors s).
Definition with_w_excp_registered (v : bool) (s : wproc) : wproc :=
  Wproc (w_fails s) (w_heap s) (w_handle s) (w_threads s) (w_contexts s) (w_os_threads s) (w_events s) (w_pits s) (w_timers s) (w_begin_period s) v (w_excp_handlers s) (w_calls s) (w_errors s).
Definition with_w_excp_handlers (v : list Z) (s : wproc) : wproc :=
  Wproc (w_fails s) (w_heap s) (w_handle s) (w_threads s) (w_contexts s) (w_os_threads s) (w_events s) (w_pits s) (w_timers s) (w_begin_period s) (w_excp_registered s) v (w_calls s) (w_errors s).
Definition with_w_calls (v : list (Z * Z)) (s : wproc) : wproc :=
  Wproc (w_fails s) (w_heap s) (w_handle s) (w_threads s) (w_contexts s) (w_os_threads s) (w_events s) (w_pits s) (w_timers s) (w_begin_period s) (w_excp_registered s) (w_excp_handlers s) v (w_errors s).
Definition with_w_errors (v : nat) (s : wproc) : wproc :=
  Wproc (w_fails s) (w_heap s) (w_handle s) (w_threads s) (w_contexts s) (w_os_threads s) (w_events s) (w_pits s) (w_timers s) (w_begin_period s) (w_excp_registered s) (w_excp_handlers s) (w_calls s) v.

Definition wentry {K E V : Type} `{Countable K} (get : wproc → gmap K E) (put : gmap K E → wproc → wproc)
    (proj : E → V) (upd : V → E → E) (k : K) : cell wproc V :=
  Cell (λ s, e ← deref (get s !! k); Ret (proj e))
       (λ v s, e ← deref (get s !! k); Ret (put (<[k := upd v e]> (get s)) s)).
Definition wt_field {V : Type} (proj : win_thread → V) (upd : V → win_thread → win_thread) (thread : loc) : cell wproc V :=
  wentry w_threads with_w_threads proj upd thread.
Definition wp_field {V : Type} (proj : win_pit → V) (upd : V → win_pit → win_pit) (pit : loc) : cell wproc V :=
  wentry w_pits with_w_pits proj upd pit.

Definition win_fatal_when (cond : bool) : prog wproc unit := act (λ s, _ ← fatal_when cond; Ret (tt, s)).
Definition win_nonnull (p : ptr) : prog wproc loc := act (λ s, l ← deref p; Ret (l, s)).
(** [PRS_ERROR]: what the exception handlers make of it is in Excp.v. *)
Definition win_error : prog wproc unit := act (λ s, Ret (tt, with_w_errors (S (w_errors s)) s)).

(** A system call, and what it answers when it fails. *)
Definition win_call {A : Type} (failed : A) (f : wproc → outcome (A * wproc)) : prog wproc A :=
  act (λ s,
    match w_fails s with
    | true :: fails => Ret (failed, with_w_fails fails s)
    | false :: fails => f (with_w_fails fails s)
    | [] => f s
    end).

Definition win_alloc {E : Type} (get : wproc → gmap loc E) (put : gmap loc E → wproc → wproc) (e : E) : prog wproc ptr :=
  act (λ s,
    let (p, h) := prs_pal_malloc_zero (w_heap s) in
    let s := with_w_heap h s in
    Ret (p, match p with Some l => put (<[l := e]> (get s)) s | None => s end)).
Definition win_free {E : Type} (get : wproc → gmap loc E) (put : gmap loc E → wproc → wproc) (l : loc) : prog wproc unit :=
  act (λ s, h ← prs_pal_free (Some l) (w_heap s); Ret (tt, put (delete l (get s)) (with_w_heap h s))).

(** ** The system's threads and events *)

(** [(DWORD)-1] *)
Definition SUSPEND_FAILED : Z := 2 ^ 32 - 1.
Definition MAXIMUM_SUSPEND_COUNT : Z := 127.

Definition with_os_thread (handle : Z) (f : os_thread → os_thread) (s : wproc) : outcome wproc :=
  e ← deref (w_os_threads s !! handle); Ret (with_w_os_threads (<[handle := f e]> (w_os_threads s)) s).

(** The handle of a thread is read with the call. *)
Definition on_thread {A : Type} (thread : loc) (f : Z → os_thread → wproc → A * wproc) (s : wproc) : outcome (A * wproc) :=
  t ← deref (w_threads s !! thread);
  e ← deref (w_os_threads s !! wt_handle t);
  Ret (f (wt_handle t) e s).

Definition set_os_thread (handle : Z) (e : os_thread) (s : wproc) : wproc :=
  with_w_os_threads (<[handle := e]> (w_os_threads s)) s.

(** How often the thread was suspended before. *)
Definition SuspendThread (thread : loc) : prog wproc Z :=
  win_call SUSPEND_FAILED (on_thread thread (λ handle e s,
    if ot_suspended e <? MAXIMUM_SUSPEND_COUNT
    then (ot_suspended e, set_os_thread handle (set_ot_suspended (ot_suspended e + 1) e) s)
    else (SUSPEND_FAILED, s))).
Definition ResumeThread (thread : loc) : prog wproc Z :=
  win_call SUSPEND_FAILED (on_thread thread (λ handle e s,
    (ot_suspended e, set_os_thread handle (set_ot_suspended (if 0 <? ot_suspended e then ot_suspended e - 1 else 0) e) s))).

(** The registers go from the thread to the context, and back. *)
Definition GetThreadContext (thread context : loc) : prog wproc bool :=
  win_call false (on_thread thread (λ handle e s, (true, with_w_contexts (<[context := ot_regs e]> (w_contexts s)) s))).
Definition SetThreadContext (thread context : loc) : prog wproc bool :=
  win_call false (λ s,
    regs ← deref (w_contexts s !! context);
    on_thread thread (λ handle e s, (true, set_os_thread handle (set_ot_regs regs e) s)) s).

(** A new handle, or 0. *)
Definition CreateEvent : prog wproc Z :=
  win_call 0 (λ s, Ret (w_handle s, with_w_handle (w_handle s + 1) (with_w_events (<[w_handle s := false]> (w_events s)) s))).
(** [_beginthreadex] with [CREATE_SUSPENDED] *)
Definition beginthreadex : prog wproc Z :=
  win_call 0 (λ s, Ret (w_handle s, with_w_handle (w_handle s + 1)
    (with_w_os_threads (<[w_handle s := OsThread 1 0 0 0 false]> (w_os_threads s)) s))).
(** A handle to the thread itself; [self] is its own number. *)
Definition DuplicateHandle (self : Z) : prog wproc bool := win_call false (λ s, Ret (true, s)).
Definition SetThreadAffinityMask (handle mask : Z) : prog wproc bool :=
  win_call false (λ s, s ← with_os_thread handle (set_ot_affinity mask) s; Ret (true, s)).
Definition SetThreadPriority (handle prio : Z) : prog wproc bool :=
  win_call false (λ s, s ← with_os_thread handle (set_ot_prio prio) s; Ret (true, s)).
(** The thread goes on without its handle; an event is gone. *)
Definition CloseHandle (handle : Z) : prog wproc unit :=
  act (λ s, Ret (tt, with_w_events (delete handle (w_events s)) s)).

(** [WaitForSingleObject] without a limit: whether it did not fail. *)
Definition wait_event (event : Z) : prog wproc bool :=
  wait (λ s, set ← deref (w_events s !! event); Ret (if (set : bool) then Some (true, s) else None)).
Definition wait_thread (handle : Z) : prog wproc bool :=
  wait (λ s, e ← deref (w_os_threads s !! handle); Ret (if ot_done e then Some (true, s) else None)).
Definition set_event (event : Z) (v : bool) : prog wproc bool :=
  win_call false (λ s, _ ← deref (w_events s !! event); Ret (true, with_w_events (<[event := v]> (w_events s)) s)).

(** ** Threads (windows/thread.c)

    The functions of the callback parameters: they get the user data and the context of the
    thread that is interrupted. *)
Class WinCallbacks : Type := {
  win_entry : ptr → prog wproc unit;
  win_interrupt : ptr → loc → prog wproc unit;
  win_interruptible : ptr → loc → prog wproc bool
}.

Section thread.
Context `{!WinCallbacks}.

Definition THREAD_PRIORITY_IDLE : Z := -15.
Definition THREAD_PRIORITY_LOWEST : Z := -2.
Definition THREAD_PRIORITY_NORMAL : Z := 0.
Definition THREAD_PRIORITY_HIGHEST : Z := 2.
Definition THREAD_PRIORITY_TIME_CRITICAL : Z := 15.

Definition prs_pal_thread_prio_to_windows (prio : prs_pal_thread_prio) : Z :=
  match prio with
  | PRS_PAL_THREAD_PRIO_IDLE => THREAD_PRIORITY_IDLE
  | PRS_PAL_THREAD_PRIO_LOW => THREAD_PRIORITY_LOWEST
  | PRS_PAL_THREAD_PRIO_NORMAL => THREAD_PRIORITY_NORMAL
  | PRS_PAL_THREAD_PRIO_HIGH => THREAD_PRIORITY_HIGHEST
  | PRS_PAL_THREAD_PRIO_REALTIME => THREAD_PRIORITY_TIME_CRITICAL
  end.

(** The thread itself, once it runs. *)
Definition prs_pal_thread_entry (thread : loc) : prog wproc unit :=
  userdata ← read (wt_field wt_userdata set_wt_userdata thread);
  _ ← win_entry userdata;
  _ ← write (wt_field wt_exited set_wt_exited thread) true;
  (* _endthreadex *)
  act (on_thread thread (λ handle e s, (tt, set_os_thread handle (set_ot_done true e) s))).

(** [prs_pal_context_alloc] of windows/context.c *)
Definition win_context_alloc : prog wproc ptr :=
  context ← win_alloc w_contexts with_w_contexts 0;
  _ ← win_fatal_when (bool_decide (context = None));
  mret context.

Definition win_thread_cleanup (thread : loc) : prog wproc ptr :=
  handle ← read (wt_field wt_handle set_wt_handle thread);
  _ ← (if truthy handle then CloseHandle handle else mret tt);
  idle_event ← read (wt_field wt_idle_event set_wt_idle_event thread);
  _ ← (if truthy idle_event then CloseHandle idle_event else mret tt);
  context ← read (wt_field wt_interrupt_context set_wt_interrupt_context thread);
  _ ← match context with Some context => win_free w_contexts with_w_contexts context | None => mret tt end;
  _ ← win_free w_threads with_w_threads thread;
  mret None.

(** The affinity and the priority of the new thread. *)
Definition win_thread_settings (thread : loc) (params : thread_params) : prog wproc ptr :=
  handle ← read (wt_field wt_handle set_wt_handle thread);
  result ← SetThreadAffinityMask handle (tp_affinity params);
  if negb result then win_thread_cleanup thread
  else
    result ← SetThreadPriority handle (prs_pal_thread_prio_to_windows (tp_prio params));
    if negb result then win_thread_cleanup thread else mret (Some thread).

Definition prs_pal_thread_create (self : Z) (params : thread_params) : prog wproc ptr :=
  p ← win_alloc w_threads with_w_threads (WinThread 0 false None false false None 0);
  match p with
  | None => mret None
  | Some thread =>
      context ← win_context_alloc;
      _ ← write (wt_field wt_interrupt_context set_wt_interrupt_context thread) context;
      event ← CreateEvent;
      _ ← write (wt_field wt_idle_event set_wt_idle_event thread) event;
      if negb (truthy event) then win_thread_cleanup thread
      else
        _ ← write (wt_field wt_from_current set_wt_from_current thread) (tp_from_current params);
        if tp_from_current params then
          result ← DuplicateHandle self;
          if negb result then win_thread_cleanup thread
          else
            _ ← write (wt_field wt_handle set_wt_handle thread) self;
            win_thread_settings thread params
        else
          handle ← beginthreadex;
          _ ← write (wt_field wt_handle set_wt_handle thread) handle;
          if negb (truthy handle) then win_thread_cleanup thread else win_thread_settings thread params
  end.

Definition prs_pal_thread_destroy (thread : loc) : prog wproc prs_result :=
  started ← read (wt_field wt_started set_wt_started thread);
  exited ← (if (started : bool) then read (wt_field wt_exited set_wt_exited thread) else mret true);
  if started && negb exited then mret PRS_INVALID_STATE
  else
    handle ← read (wt_field wt_handle set_wt_handle thread);
    _ ← CloseHandle handle;
    idle_event ← read (wt_field wt_idle_event set_wt_idle_event thread);
    _ ← CloseHandle idle_event;
    context ← read (wt_field wt_interrupt_context set_wt_interrupt_context thread);
    context ← win_nonnull context;
    _ ← win_free w_contexts with_w_contexts context;
    _ ← win_free w_threads with_w_threads thread;
    mret PRS_OK.

(** The other parameters are the functions of [WinCallbacks]. *)
Definition prs_pal_thread_set_callback_params (thread : loc) (userdata : ptr) : prog wproc prs_result :=
  _ ← write (wt_field wt_userdata set_wt_userdata thread) userdata;
  mret PRS_OK.

Definition prs_pal_thread_start (thread : loc) : prog wproc prs_result :=
  from_current ← read (wt_field wt_from_current set_wt_from_current thread);
  if (from_current : bool) then
    _ ← write (wt_field wt_started set_wt_started thread) true;
    userdata ← read (wt_field wt_userdata set_wt_userdata thread);
    _ ← win_entry userdata;
    _ ← write (wt_field wt_exited set_wt_exited thread) true;
    _ ← write (wt_field wt_started set_wt_started thread) false;
    mret PRS_OK
  else
    result ← ResumeThread thread;
    if result =? 1 then _ ← write (wt_field wt_started set_wt_started thread) true; mret PRS_OK
    else mret PRS_PLATFORM_ERROR.

Definition prs_pal_thread_join (thread : loc) : prog wproc prs_result :=
  from_current ← read (wt_field wt_from_current set_wt_from_current thread);
  if (from_current : bool) then
    started ← read (wt_field wt_started set_wt_started thread);
    exited ← (if (started : bool) then read (wt_field wt_exited set_wt_exited thread) else mret true);
    mret (if negb started || exited then PRS_OK else PRS_INVALID_STATE)
  else
    exited ← read (wt_field wt_exited set_wt_exited thread);
    if negb exited then
      handle ← read (wt_field wt_handle set_wt_handle thread);
      object ← wait_thread handle;
      if negb object then _ ← win_error; mret PRS_PLATFORM_ERROR else mret PRS_OK
    else mret PRS_OK.

(** The end of [prs_pal_thread_interrupt], from the label [resume] on. *)
Definition interrupt_resume (thread : loc) (result : prs_result) : prog wproc prs_result :=
  _ ← ResumeThread thread;
  mret result.

(** While the thread is suspended by this one alone. *)
Definition interrupt_suspended (thread : loc) : prog wproc prs_result :=
  context ← read (wt_field wt_interrupt_context set_wt_interrupt_context thread);
  context ← win_nonnull context;
  result ← GetThreadContext thread context;
  if negb result then _ ← win_error; mret PRS_PLATFORM_ERROR
  else
    userdata ← read (wt_field wt_userdata set_wt_userdata thread);
    interruptible ← win_interruptible userdata context;
    if negb interruptible then mret PRS_OK
    else
      _ ← win_interrupt userdata context;
      result ← SetThreadContext thread context;
      if negb result then _ ← win_error; mret PRS_PLATFORM_ERROR else mret PRS_OK.

(** The count is unsigned: the test for a failure is never true. *)
Definition prs_pal_thread_interrupt (thread : loc) : prog wproc prs_result :=
  suspend_count ← SuspendThread thread;
  if suspend_count <? 0 then _ ← win_error; mret PRS_PLATFORM_ERROR
  else if 0 <? suspend_count then interrupt_resume thread PRS_OK
  else result ← interrupt_suspended thread; interrupt_resume thread result.

Definition prs_pal_thread_suspend (thread : loc) : prog wproc prs_result :=
  idle_event ← read (wt_field wt_idle_event set_wt_idle_event thread);
  object ← wait_event idle_event;
  if negb object then _ ← win_error; mret PRS_PLATFORM_ERROR
  else
    result ← set_event idle_event false;
    if negb result then _ ← win_error; mret PRS_PLATFORM_ERROR else mret PRS_OK.

Definition prs_pal_thread_resume (thread : loc) : prog wproc prs_result :=
  idle_event ← read (wt_field wt_idle_event set_wt_idle_event thread);
  result ← set_event idle_event true;
  if negb result then _ ← win_error; mret PRS_PLATFORM_ERROR else mret PRS_OK.
End thread.

(** ** Interval timers (windows/pit.c) *)

(** [timeSetEvent]: a new timer, or 0. *)
Definition timeSetEvent (delay : Z) (entry : timer_entry) (pit : loc) : prog wproc Z :=
  win_call 0 (λ s, Ret (w_handle s, with_w_handle (w_handle s + 1)
    (with_w_timers (<[w_handle s := (entry, pit, delay)]> (w_timers s)) s))).
Definition timeKillEvent (timer : Z) : prog wproc unit :=
  act (λ s, Ret (tt, with_w_timers (delete timer (w_timers s)) s)).

(** Ticks are 32 bits wide. *)
Definition PRS_TICKS_TO_MS (ticks : Z) : Z := u32 (ticks * 1000) / PRS_HZ.

Definition prs_pal_pit_windows_entry (pit : loc) : prog wproc unit :=
  callback ← read (wp_field wp_callback set_wp_callback pit);
  userdata ← read (wp_field wp_userdata set_wp_userdata pit);
  _ ← act (λ s, Ret (tt, with_w_calls (w_calls s ++ [(callback, userdata)]) s));
  _ ← prs_pal_atomic_fetch_add 64 (wp_field wp_check0 set_wp_check0 pit) 1;
  mret tt.

Definition prs_pal_pit_windows_backup_entry (pit : loc) : prog wproc unit :=
  check0 ← prs_pal_atomic_load (wp_field wp_check0 set_wp_check0 pit);
  check1 ← prs_pal_atomic_fetch_add 64 (wp_field wp_check1 set_wp_check1 pit) 1;
  let diff := if check1 <? check0 then u64 (check0 - check1) else u64 (check1 - check0) in
  if 100 <=? diff then
    _ ← prs_pal_atomic_store (wp_field wp_check0 set_wp_check0 pit) 0;
    _ ← prs_pal_atomic_store (wp_field wp_check1 set_wp_check1 pit) 0;
    wintimer ← read (wp_field wp_wintimer set_wp_wintimer pit);
    _ ← timeKillEvent wintimer;
    period ← read (wp_field wp_period set_wp_period pit);
    wintimer ← timeSetEvent (PRS_TICKS_TO_MS period) MainEntry pit;
    _ ← write (wp_field wp_wintimer set_wp_wintimer pit) wintimer;
    if truthy wintimer then mret tt else win_error
  else mret tt.

Definition s_prs_pal_pit_begin_period : cell wproc Z :=
  Cell (λ s, Ret (w_begin_period s)) (λ v s, Ret (with_w_begin_period v s)).

Definition win_pit_cleanup (pit : loc) : prog wproc ptr :=
  _ ← win_free w_pits with_w_pits pit;
  mret None.

(** [period_min]: the shortest period of the system's timers, in milliseconds. *)
Definition prs_pal_pit_create (period_min : Z) (params : pit_params) : prog wproc ptr :=
  p ← win_alloc w_pits with_w_pits (WinPit (ip_userdata params) (ip_callback params) (ip_period params) 0 0 0 0);
  match p with
  | None => mret None
  | Some pit =>
      _ ← win_fatal_when (1000 / PRS_HZ <? period_min);
      begin_period ← read s_prs_pal_pit_begin_period;
      _ ← write s_prs_pal_pit_begin_period (begin_period + 1);
      _ ← (if begin_period =? 0 then ok ← win_call false (λ s, Ret (true, s)); win_fatal_when (negb ok) else mret tt);
      wintimer ← read (wp_field wp_wintimer set_wp_wintimer pit);
      _ ← (if truthy wintimer then timeKillEvent wintimer else mret tt);
      wintimer ← timeSetEvent (PRS_TICKS_TO_MS (ip_period params)) MainEntry pit;
      _ ← write (wp_field wp_wintimer set_wp_wintimer pit) wintimer;
      if negb (truthy wintimer) then _ ← win_error; win_pit_cleanup pit
      else
        backup ← timeSetEvent (PRS_TICKS_TO_MS (ip_period params)) BackupEntry pit;
        _ ← write (wp_field wp_wintimer_backup set_wp_wintimer_backup pit) backup;
        (* the main timer is tested again *)
        wintimer ← read (wp_field wp_wintimer set_wp_wintimer pit);
        if negb (truthy wintimer) then _ ← win_error; win_pit_cleanup pit else mret (Some pit)
  end.

Definition prs_pal_pit_destroy (pit : loc) : prog wproc unit :=
  backup ← read (wp_field wp_wintimer_backup set_wp_wintimer_backup pit);
  _ ← (if truthy backup then timeKillEvent backup else mret tt);
  wintimer ← read (wp_field wp_wintimer set_wp_wintimer pit);
  _ ← (if truthy wintimer then timeKillEvent wintimer else mret tt);
  begin_period ← read s_prs_pal_pit_begin_period;
  _ ← write s_prs_pal_pit_begin_period (begin_period - 1);
  win_free w_pits with_w_pits pit.

(** ** Exceptions (windows/excp.c) *)

(** [AddVectoredExceptionHandler] answers a handle, which its counterpart wants; the
    address of the function, [handler], is none. *)
Definition prs_pal_excp_init_worker : prog wproc prs_result :=
  registered ← act (λ s, Ret (w_excp_registered s, s));
  if negb registered then
    _ ← act (λ s, Ret (tt, with_w_excp_registered true s));
    result ← win_call 0 (λ s, Ret (w_handle s, with_w_handle (w_handle s + 1) (with_w_excp_handlers (w_handle s :: w_excp_handlers s) s)));
    mret (if truthy result then PRS_OK else PRS_PLATFORM_ERROR)
  else mret PRS_OK.

Definition prs_pal_excp_uninit_worker (handler : Z) : prog wproc unit :=
  registered ← act (λ s, Ret (w_excp_registered s, s));
  if (registered : bool) then
    _ ← act (λ s, Ret (tt, with_w_excp_registered false s));
    act (λ s, Ret (tt, with_w_excp_handlers (filter (λ h, h ≠ handler) (w_excp_handlers s)) s))
  else mret tt.

Definition STATUS_GUARD_PAGE_VIOLATION : Z := 0x80000001.
Definition STATUS_ACCESS_VIOLATION : Z := 0xC0000005.
Definition STATUS_INVALID_HANDLE : Z := 0xC0000008.
Definition STATUS_INVALID_PARAMETER : Z := 0xC000000D.
Definition STATUS_ILLEGAL_INSTRUCTION : Z := 0xC000001D.
Definition STATUS_PRIVILEGED_INSTRUCTION : Z := 0xC0000096.
Definition STATUS_CONTROL_C_EXIT : Z := 0xC000013A.
Definition STATUS_ASSERTION_FAILURE : Z := 0xC0000420.
Definition STATUS_INTEGER_DIVIDE_BY_ZERO : Z := 0xC0000094.
Definition STATUS_INTEGER_OVERFLOW : Z := 0xC0000095.
(** [STATUS_FLOAT_DENORMAL_OPERAND] to [STATUS_FLOAT_UNDERFLOW], and the two for several
    faults and traps. *)
Definition status_float : list Z :=
  [0xC000008D; 0xC000008E; 0xC000008F; 0xC0000090; 0xC0000091; 0xC0000092; 0xC0000093; 0xC00002B4; 0xC00002B5].

(** The kind of an exception, and whether its address is passed on. *)
Definition status_to_excp (code : Z) : prs_excp_type * bool :=
  if code =? STATUS_ACCESS_VIOLATION then (PRS_EXCP_TYPE_SEGMENTATION_FAULT, true)
  else if code =? STATUS_GUARD_PAGE_VIOLATION then (PRS_EXCP_TYPE_STACK_OVERFLOW, true)
  else if bool_decide (code ∈ [STATUS_INVALID_HANDLE; STATUS_INVALID_PARAMETER; STATUS_ASSERTION_FAILURE])
  then (PRS_EXCP_TYPE_OS, false)
  else if bool_decide (code ∈ [STATUS_ILLEGAL_INSTRUCTION; STATUS_PRIVILEGED_INSTRUCTION])
  then (PRS_EXCP_TYPE_ILLEGAL_INSTRUCTION, false)
  else if code =? STATUS_CONTROL_C_EXIT then (PRS_EXCP_TYPE_USER_INTERRUPT, false)
  else if bool_decide (code ∈ status_float) then (PRS_EXCP_TYPE_FLOATING_POINT, false)
  else if bool_decide (code ∈ [STATUS_INTEGER_DIVIDE_BY_ZERO; STATUS_INTEGER_OVERFLOW]) then (PRS_EXCP_TYPE_INTEGER, false)
  else (PRS_EXCP_TYPE_UNKNOWN, false).

Inductive vectored_result : Set := EXCEPTION_CONTINUE_EXECUTION | EXCEPTION_CONTINUE_SEARCH.

(** [address]: [ExceptionInformation[1]] *)
Definition prs_pal_excp_windows_vectored_handler
    `{!ObjectFree, !Clock.Pit, !TaskParts, !ProcObjects, !ExcpParts, !ExcpHandlers} (fuel : nat) (self : ptr)
    (code address : Z) (wincontext : loc) : prog kern vectored_result :=
  let worker := prs_worker_current self in
  match worker with
  | None => mret EXCEPTION_CONTINUE_SEARCH
  | Some _ =>
      let (type, with_address) := status_to_excp code in
      _ ← prs_excp_raise fuel self type (ExcpExtra (if with_address then address else 0) None) worker (Some wincontext);
      mret EXCEPTION_CONTINUE_EXECUTION
  end.

(** ** Interrupting a thread *)

(** How many elements have a property. *)
Fixpoint count {A : Type} (b : A → bool) (l : list A) : Z :=
  match l with
  | [] => 0
  | x :: l => (if b x then 1 else 0) + count b l
  end.

Lemma count_insert {A : Type} (b : A → bool) l i x y :
  l !! i = Some y → count b (<[i := x]> l) = count b l - (if b y then 1 else 0) + (if b x then 1 else 0).
Proof.
  revert i. induction l as [|z l IH]; intros [|i] Hi; simplify_eq/=; [lia|]. rewrite (IH i Hi). lia.
Qed.

Lemma count_bounds {A : Type} (b : A → bool) l : 0 ≤ count b l ≤ Z.of_nat (length l).
Proof. induction l as [|x l IH]; cbn [count length]; [lia|]. destruct (b x); lia. Qed.

Lemma count_zero {A : Type} (b : A → bool) l i x : count b l = 0 → l !! i = Some x → b x = false.
Proof.
  revert i. induction l as [|z l IH]; intros [|i] H0 Hi; simplify_eq/=; pose proof (count_bounds b l);
    destruct (b x) eqn:Hb; try destruct (b z); try done; try lia. apply (IH i) in Hi; [congruence|lia].
Qed.

Lemma count_none {A : Type} (b : A → bool) l : (∀ x, x ∈ l → b x = false) → count b l = 0.
Proof.
  induction l as [|x l IH]; intros H; cbn [count]; [done|]. rewrite (H x) by by left. rewrite IH; [done|].
  intros y Hy. apply H. by right.
Qed.

Lemma count_one {A : Type} (b : A → bool) l i j x y :
  count b l ≤ 1 → l !! i = Some x → l !! j = Some y → b x = true → b y = true → i = j.
Proof.
  intros H1 Hi Hj Hx Hy. destruct (decide (i = j)) as [|Hne]; [done|]. exfalso.
  pose proof (count_insert (λ z, b z) l i x x Hi) as Hc.
  assert (count b l = 0 ∨ 0 < count b l) as [H0|Hpos] by (pose proof (count_bounds b l); lia).
  { by rewrite (count_zero b l i x H0 Hi) in Hx. }
  clear Hc. revert i j Hi Hj Hne H1. clear Hpos. induction l as [|z l IH]; intros [|i] [|j] Hi Hj Hne H1; simplify_eq/=.
  - rewrite Hx in H1. pose proof (count_bounds b l). by rewrite (count_zero b l j y) in Hy by (done || lia).
  - rewrite Hy in H1. pose proof (count_bounds b l). by rewrite (count_zero b l i x) in Hx by (done || lia).
  - apply (IH i j); try done; [congruence|]. destruct (b z); lia.
Qed.

Section interrupts.
Context `{HW : !WinCallbacks} (thread : loc) (handle : Z).

Definition suspended (s : wproc) : option Z := ot_suspended <$> w_os_threads s !! handle.
Definition target (s : wproc) : Prop := wt_handle <$> w_threads s !! thread = Some handle ∧ w_fails s = [].

(** Code that leaves the target's suspensions alone. *)
Fixpoint quiet {A : Type} (q : prog wproc A) : Prop :=
  match q with
  | Done _ | Spin => True
  | Act f k => ∀ s x s', target s → f s = Ret (x, s') → (target s' ∧ suspended s' = suspended s) ∧ quiet (k x)
  | Flip k => ∀ b, quiet (k b)
  | Wait f k => ∀ s x s', target s → f s = Ret (Some (x, s')) → (target s' ∧ suspended s' = suspended s) ∧ quiet (k x)
  end.

Lemma quiet_bind {A B : Type} (q : prog wproc A) (h : A → prog wproc B) : quiet q → (∀ a, quiet (h a)) → quiet (q ≫= h).
Proof using Type.
  intros Hq Hh. induction q as [a| |X f k IH|k IH|X f k IH]; cbn in *; [by apply Hh|done| | |].
  - intros s x s' Ht Hs. destruct (Hq s x s' Ht Hs) as [Hsame Hk]. split; [done|]. by apply IH.
  - intros b. by apply IH.
  - intros s x s' Ht Hs. destruct (Hq s x s' Ht Hs) as [Hsame Hk]. split; [done|]. by apply IH.
Qed.

Lemma quiet_act {A : Type} (f : wproc → outcome (A * wproc)) :
  (∀ s x s', target s → f s = Ret (x, s') → target s' ∧ suspended s' = suspended s) → quiet (act f).
Proof using Type. intros Hf s x s' Ht Hs. split; [by eapply Hf|done]. Qed.

Lemma quiet_read {V : Type} (proj : win_thread → V) upd t : quiet (read (wt_field proj upd t)).
Proof using Type.
  apply quiet_act. intros s x s' Ht. cbn. destruct (w_threads s !! t); intros Hs; cbn in Hs; [|done]. by simplify_eq.
Qed.

Lemma quiet_suspended :
  (∀ u c, quiet (win_interruptible u c)) → (∀ u c, quiet (win_interrupt u c)) → quiet (interrupt_suspended thread).
Proof using Type.
  intros Hb Hi.
  assert (quiet win_error) as Herr by (apply quiet_act; intros s x s' Ht [= _ <-]; done).
  apply quiet_bind; [apply quiet_read|]. intros context. apply quiet_bind.
  { apply quiet_act. intros s x s' Ht. destruct context; intros Hs; cbn in Hs; simplify_eq. done. }
  intros ctx. apply quiet_bind.
  { apply quiet_act. intros s x s' [Ht Hf]. rewrite Hf. unfold on_thread. destruct (w_threads s !! thread) as [t|] eqn:Et; [|done].
    cbn. destruct (w_os_threads s !! wt_handle t); [|done]. cbn. intros [= _ <-]. unfold target. cbn. by rewrite Et. }
  intros [|]; cbn [negb]; [|apply quiet_bind; [apply Herr|done]].
  apply quiet_bind; [apply quiet_read|]. intros userdata. apply quiet_bind; [apply Hb|]. intros [|]; cbn [negb]; [|done].
  apply quiet_bind; [apply Hi|]. intros _. apply quiet_bind.
  { apply quiet_act. intros s x s' [Ht Hf]. rewrite Hf. destruct (w_contexts s !! ctx) as [regs|]; [|done]. cbn.
    unfold on_thread. destruct (w_threads s !! thread) as [t|] eqn:Et; [|done]. cbn.
    destruct (w_os_threads s !! wt_handle t) as [e|] eqn:Ee; [|done]. cbn. intros [= _ <-].
    split; [split; [cbn; by rewrite Et|done]|]. cbn in Ht. simplify_eq. unfold suspended. cbn.
    rewrite <- Ht. by rewrite lookup_insert_eq, Ee. }
  intros [|]; cbn [negb]; [done|apply quiet_bind; [apply Herr|done]].
Qed.

(** Where a thread that interrupts the target is. *)
Inductive spot : Type := Before | Skipping | Inside (q : prog wproc prs_result) | After (r : prs_result).

Definition program (s : spot) : prog wproc prs_result :=
  match s with
  | Before => prs_pal_thread_interrupt thread
  | Skipping => interrupt_resume thread PRS_OK
  | Inside q => q ≫= interrupt_resume thread
  | After r => Done r
  end.

Definition busy (s : spot) : bool := match s with Skipping | Inside _ => true | _ => false end.
Definition inside (s : spot) : bool := match s with Inside _ => true | _ => false end.

Record interrupts (spots : list spot) (ps : list (prog wproc prs_result)) (c : wproc) : Prop := Interrupts {
  in_programs : ps = program <$> spots;
  in_target : target c;
  in_count : suspended c = Some (count busy spots);
  in_alone : count inside spots ≤ 1;
  in_quiet q : Inside q ∈ spots → quiet q
}.

Lemma insert_spots spots i s s' c c' :
  spots !! i = Some s → target c' → suspended c = Some (count busy spots) →
  suspended c' = Some (count busy spots - (if busy s then 1 else 0) + (if busy s' then 1 else 0)) →
  count inside spots - (if inside s then 1 else 0) + (if inside s' then 1 else 0) ≤ 1 →
  (∀ q, Inside q ∈ spots → quiet q) → (∀ q, s' = Inside q → quiet q) →
  interrupts (<[i := s']> spots) (<[i := program s']> (program <$> spots)) c'.
Proof using Type.
  intros Hi Ht Hc Hc' Hin Hq Hq'. split; [by rewrite list_fmap_insert|done| | |].
  - by rewrite (count_insert _ _ _ _ _ Hi).
  - by rewrite (count_insert _ _ _ _ _ Hi).
  - intros q Hel. apply list_elem_of_lookup in Hel as (j & Hj). apply list_lookup_insert_Some in Hj as [(_ & Hs & _)|[_ Hj]]; [by apply Hq'|].
    apply Hq. by eapply list_elem_of_lookup_2.
Qed.
Lemma suspend_step c e :
  target c → w_os_threads c !! handle = Some e → ot_suspended e < MAXIMUM_SUSPEND_COUNT →
  ∀ A (k : Z → prog wproc A) b c' q, prog_step b c (SuspendThread thread ≫= k) = Some (c', q) →
  target c' ∧ suspended c' = Some (ot_suspended e + 1) ∧ q = k (ot_suspended e).
Proof using Type.
  intros [Ht Hf] He Hmax A k b c' q. cbn. rewrite Hf. unfold on_thread. destruct (w_threads c !! thread) as [t|] eqn:Et; [|done].
  cbn in Ht |- *. injection Ht as Ht. rewrite Ht, He. cbn. rewrite (proj2 (Z.ltb_lt _ _)) by done. intros [= <- <-].
  split; [split; [cbn; by rewrite Et, <- Ht|done]|]. unfold suspended. cbn. by rewrite lookup_insert_eq.
Qed.

Lemma resume_step c e r :
  target c → w_os_threads c !! handle = Some e → 0 < ot_suspended e →
  ∀ b c' q, prog_step b c (interrupt_resume thread r) = Some (c', q) →
  target c' ∧ suspended c' = Some (ot_suspended e - 1) ∧ q = Done r.
Proof using Type.
  intros [Ht Hf] He Hpos b c' q. cbn. rewrite Hf. unfold on_thread. destruct (w_threads c !! thread) as [t|] eqn:Et; [|done].
  cbn in Ht |- *. injection Ht as Ht. rewrite Ht, He. cbn. rewrite (proj2 (Z.ltb_lt _ _)) by done. intros [= <- <-].
  split; [split; [cbn; by rewrite Et, <- Ht|done]|]. unfold suspended. cbn. by rewrite lookup_insert_eq.
Qed.

Lemma quiet_step b c q c' (q' : prog wproc prs_result) :
  quiet q → target c → prog_step b c q = Some (c', q') → target c' ∧ suspended c' = suspended c ∧ quiet q'.
Proof using Type.
  intros Hq Ht Hs. destruct q as [a| |X f k|k|X f k]; cbn in *; try done.
  - destruct (f c) as [[x c1]| |] eqn:Hf; simplify_eq. destruct (Hq _ _ _ Ht Hf) as [[??]?]. done.
  - simplify_eq. done.
  - destruct (f c) as [[[x c1]|]| |] eqn:Hf; simplify_eq. destruct (Hq _ _ _ Ht Hf) as [[??]?]. done.
Qed.

Lemma interrupts_step spots ps c c' ps' :
  (∀ u x, quiet (win_interruptible u x)) → (∀ u x, quiet (win_interrupt u x)) → Z.of_nat (length spots) ≤ MAXIMUM_SUSPEND_COUNT →
  interrupts spots ps c → pool_step (c, ps) (c', ps') →
  ∃ spots', interrupts spots' ps' c' ∧ length spots' = length spots.
Proof using Type.
  intros Hb Hi Hmax [-> Ht Hc Halone Hq] Hstep. inversion Hstep as [i b ? ? p ? p' Hp Hs]; subst.
  apply list_lookup_fmap_Some in Hp as (s & -> & Hspot).
  pose proof Hc as (e & He & Hcount)%fmap_Some. pose proof (count_bounds busy spots) as Hbounds.
  destruct s as [| |q|r]; cbn [program] in Hs; [| | |done].
  - assert (count busy spots < Z.of_nat (length spots)) as Hlt.
    { pose proof (count_insert busy spots i Skipping Before Hspot) as Hins. pose proof (count_bounds busy (<[i:=Skipping]> spots)) as Hb2.
      rewrite length_insert in Hb2. cbn in Hins. lia. }
    destruct (suspend_step c e Ht He ltac:(lia) _ _ _ _ _ Hs) as (Ht' & Hc' & ->).
    rewrite <- Hcount in Hc'. rewrite <- Hcount. rewrite (proj2 (Z.ltb_ge _ 0)) by lia.
    destruct (Z.ltb_spec 0 (count busy spots)) as [Hpos|Hzero].
    + exists (<[i := Skipping]> spots). split; [|apply length_insert].
      apply (insert_spots spots i Before Skipping c c'); try done; cbn; [|lia]. by rewrite Hc', Z.sub_0_r.
    + exists (<[i := Inside (interrupt_suspended thread)]> spots). split; [|apply length_insert].
      apply (insert_spots spots i Before (Inside _) c c'); try done; cbn.
      * by rewrite Hc', Z.sub_0_r.
      * rewrite (count_none inside); [lia|]. intros s Hel. apply list_elem_of_lookup in Hel as (j & Hj).
        assert (count busy spots = 0) as H0 by lia. pose proof (count_zero busy spots j s H0 Hj). by destruct s.
      * intros q [= <-]. by apply quiet_suspended.
  - assert (0 < count busy spots) as Hpos.
    { pose proof (count_zero busy spots i Skipping) as Hz. destruct (Z.eq_dec (count busy spots) 0) as [H0|]; [|lia]. by specialize (Hz H0 Hspot). }
    destruct (resume_step c e PRS_OK Ht He ltac:(lia) _ _ _ Hs) as (Ht' & Hc' & ->).
    exists (<[i := After PRS_OK]> spots). split; [|apply length_insert].
    apply (insert_spots spots i Skipping (After PRS_OK) c c'); try done; cbn; [|lia]. rewrite Hc'. f_equal. lia.
  - assert (0 < count busy spots) as Hpos.
    { pose proof (count_zero busy spots i (Inside q)) as Hz. destruct (Z.eq_dec (count busy spots) 0) as [H0|]; [|lia]. by specialize (Hz H0 Hspot). }
    destruct q as [r| |X f k|k|X f k]; [|done| | |].
    1: { destruct (resume_step c e r Ht He ltac:(lia) _ _ _ Hs) as (Ht' & Hc' & ->).
      exists (<[i := After r]> spots). split; [|apply length_insert].
      apply (insert_spots spots i (Inside (Done r)) (After r) c c'); try done; cbn; [|lia]. rewrite Hc'. f_equal. lia. }
    all: apply bind_step in Hs as (q1 & Hs & ->); [|done].
    all: destruct (quiet_step b c _ c' q1 (Hq _ ltac:(by eapply list_elem_of_lookup_2)) Ht Hs) as (Ht' & Hc' & Hq1).
    all: exists (<[i := Inside q1]> spots); split; [|apply length_insert].
    all: apply (insert_spots spots i (Inside _) (Inside q1) c c' Hspot); try done; cbn; first [lia|by intros ? [= <-]|rewrite Hc', Hc; f_equal; lia].
Qed.
End interrupts.

(** C23: One thread at a time changes another's registers.  In every interleaving of up to 127
    threads that interrupt the same one, while no call of the system fails and whatever the
    callbacks do that do not suspend or resume it, the count of suspensions is the number of
    those that have suspended it and not resumed it yet; at most one of them is between
    reading its registers and setting them; and when all have returned it is suspended no
    more.  When [SuspendThread] fails, though, the failure is taken for another's
    suspension, [PRS_OK] is returned, and the suspension of the one that is changing the
    registers is taken away. *)
Theorem win_interrupts_exclusive `{HW : !WinCallbacks} thread handle n c0 c ps :
  (∀ u x, quiet thread handle (win_interruptible u x)) → (∀ u x, quiet thread handle (win_interrupt u x)) →
  target thread handle c0 → suspended handle c0 = Some 0 → (n ≤ 127)%nat →
  rtc pool_step (c0, replicate n (prs_pal_thread_interrupt thread)) (c, ps) →
  (∃ spots, ps = program thread <$> spots ∧ length spots = n ∧
     suspended handle c = Some (count busy spots) ∧
     (∀ i j q q', spots !! i = Some (Inside q) → spots !! j = Some (Inside q') → i = j) ∧
     ((∀ p, p ∈ ps → ∃ r, p = Done r) → suspended handle c = Some 0)) ∧
  (∀ s e, wt_handle <$> w_threads s !! thread = Some handle → w_os_threads s !! handle = Some e → w_fails s = [true] →
     ot_suspended e = 1 →
     ∃ s', run (prs_pal_thread_interrupt thread) s = Ret (Some PRS_OK, s') ∧ suspended handle s' = Some 0).
Proof.
  intros Hb Hi Ht H0 Hn Hr. split.
  - assert (interrupts thread handle (replicate n Before) (replicate n (prs_pal_thread_interrupt thread)) c0) as Hstart.
    { split; [by rewrite fmap_replicate|done| | |].
      - rewrite count_none; [done|]. intros x Hx. apply elem_of_replicate in Hx as [-> _]. done.
      - rewrite count_none; [lia|]. intros x Hx. apply elem_of_replicate in Hx as [-> _]. done.
      - intros q [? _]%elem_of_replicate. done. }
    assert (∀ a b, rtc pool_step a b → ∀ spots, interrupts thread handle spots a.2 a.1 → length spots = n →
      ∃ spots', interrupts thread handle spots' b.2 b.1 ∧ length spots' = n) as Hreach.
    { induction 1 as [a|[ca pa] [cb pb] d Hs _ IH]; intros spots Hin Hlen; [by exists spots|].
      destruct (interrupts_step thread handle spots pa ca cb pb Hb Hi) as (spots' & Hin' & Hlen'); [unfold MAXIMUM_SUSPEND_COUNT; lia|done..|].
      apply (IH spots'); [done|congruence]. }
    destruct (Hreach _ _ Hr (replicate n Before) Hstart ltac:(apply length_replicate)) as (spots & [Hps _ Hc Halone _] & Hlen).
    cbn in Hps, Hc. exists spots. split; [exact Hps|]. split; [exact Hlen|]. split; [exact Hc|]. split.
    + intros i j q q' Hq Hq'. by apply (count_one inside spots i j (Inside q) (Inside q')).
    + intros Hdone. rewrite Hc. f_equal. apply count_none. intros s Hs.
      destruct (Hdone (program thread s)) as [r Hr']; [rewrite Hps; by apply list_elem_of_fmap_2|].
      destruct s as [| |q|r']; [done|done| |done]. by destruct q.
  - intros s e Hth He Hf H1. destruct (w_threads s !! thread) as [t|] eqn:Et; [|done]. cbn in Hth. injection Hth as Hth.
    eexists. split.
    { eapply run_seq; [cbn; rewrite Hf; reflexivity|]. eapply run_seq; [cbn; unfold on_thread; cbn; rewrite Et; cbn; rewrite Hth, He; cbn; reflexivity|]. reflexivity. }
    unfold suspended. cbn. by rewrite lookup_insert_eq, H1.
Qed.

(** Callbacks that add one to the registers in the context. *)
Definition demo_win_callbacks : WinCallbacks := {|
  win_entry := λ _, mret tt;
  win_interrupt := λ _ context, act (λ s, v ← deref (w_contexts s !! context); Ret (tt, with_w_contexts (<[context := v + 1]> (w_contexts s)) s));
  win_interruptible := λ _ _, mret true
|}.

(** Thread 1, with handle 5 and a context at 2. *)
Definition demo_wproc (fails : list bool) (suspended : Z) : wproc :=
  Wproc fails (Heap ∅ []) 6 {[ 1%positive := WinThread 5 false None true false (Some 2%positive) 4 ]} {[ 2%positive := 0 ]}
    {[ 5 := OsThread suspended 100 1 0 false ]} ∅ ∅ ∅ 0 false [] [] 0.

(** The second thread finds the target suspended, and resumes it while the first one is
    between suspending and resuming it. *)
Definition demo_win_schedule : list (nat * bool) :=
  (λ i, (i, false)) <$> [0; 0; 0; 1; 0; 0; 1; 0; 0; 0]%nat.

Lemma win_interrupts_exclusive_witness :
  let callbacks := demo_win_callbacks in
  match pool_run demo_win_schedule (demo_wproc [] 0, replicate 2 (prs_pal_thread_interrupt 1%positive)) with
  | Some (c, ps) => ps = [Done PRS_OK; Done PRS_OK] ∧ suspended 5 c = Some 0 ∧ ot_regs <$> w_os_threads c !! 5 = Some 101
  | None => False
  end ∧
  ∃ s', run (prs_pal_thread_interrupt 1%positive) (demo_wproc [true] 1) = Ret (Some PRS_OK, s') ∧ suspended 5 s' = Some 0.
Proof.
  intros callbacks.
  assert (∀ u x, quiet 1 5 (win_interruptible u x)) as Hb by done.
  assert (∀ u x, quiet 1 5 (win_interrupt u x)) as Hi.
  { intros u x s y s' [Ht Hf] Hs. destruct (w_contexts s !! x) as [v|]; cbn in Hs; [|done]. injection Hs as <- <-. done. }
  split.
  - assert ((λ s, (s.2, ot_regs <$> w_os_threads s.1 !! 5)) <$>
      pool_run demo_win_schedule (demo_wproc [] 0, replicate 2 (prs_pal_thread_interrupt 1%positive)) =
      Some ([Done PRS_OK; Done PRS_OK], Some 101)) as Hd by (vm_compute; reflexivity).
    destruct (pool_run demo_win_schedule _) as [[c ps]|] eqn:Hrun; [|discriminate Hd].
    cbn in Hd. injection Hd as Hps Hregs. split; [exact Hps|]. split; [|exact Hregs].
    destruct (win_interrupts_exclusive 1%positive 5 2 (demo_wproc [] 0) c ps Hb Hi) as [(spots & _ & _ & _ & _ & Hall) _];
      [done|done|lia|exact (pool_run_rtc _ _ _ Hrun)|].
    apply Hall. rewrite Hps. intros p Hp. exists PRS_OK. set_solver.
  - destruct (win_interrupts_exclusive 1%positive 5 0 (demo_wproc [] 0) (demo_wproc [] 0) [] Hb Hi) as [_ Hfail];
      [done|done|lia|done|].
    by apply (Hfail _ (OsThread 1 100 1 0 false)).
Defined.

(** ** The timers that watch over each other *)

(** The backup timer ticks, and the main one does not. *)
Fixpoint backup_ticks (n : nat) (pit : loc) : prog wproc unit :=
  match n with
  | O => mret tt
  | S n => _ ← backup_ticks n pit; prs_pal_pit_windows_backup_entry pit
  end.

Lemma run_backup s pit p :
  w_pits s !! pit = Some p → 0 ≤ wp_check0 p < 2 ^ 64 → 0 ≤ wp_check1 p < 2 ^ 64 - 1 → Z.abs (wp_check0 p - wp_check1 p) < 100 →
  run (prs_pal_pit_windows_backup_entry pit) s =
    Ret (Some tt, with_w_pits (<[pit := set_wp_check1 (wp_check1 p + 1) p]> (w_pits s)) s).
Proof.
  intros Hp H0 H1 Hd. eapply run_seq; [apply run_load; cbn; rewrite Hp; reflexivity|]. eapply run_seq; [cbn; rewrite Hp; cbn; reflexivity|]. cbv beta zeta.
  assert ((100 <=? (if wp_check1 p <? wp_check0 p then u64 (wp_check0 p - wp_check1 p) else u64 (wp_check1 p - wp_check0 p))) = false) as ->.
  { destruct (Z.ltb_spec (wp_check1 p) (wp_check0 p)); rewrite u64_small by lia; apply Z.leb_gt; lia. }
  by rewrite Z.mod_small by lia.
Qed.

Lemma run_backup_late s pit p :
  w_pits s !! pit = Some p → w_fails s = [] → 0 < w_handle s → 0 ≤ wp_check0 p < 2 ^ 64 → 0 ≤ wp_check1 p < 2 ^ 64 - 1 →
  100 ≤ Z.abs (wp_check0 p - wp_check1 p) →
  ∃ s', run (prs_pal_pit_windows_backup_entry pit) s = Ret (Some tt, s') ∧
    w_timers s' = <[w_handle s := (MainEntry, pit, PRS_TICKS_TO_MS (wp_period p))]> (delete (wp_wintimer p) (w_timers s)) ∧
    w_pits s' !! pit = Some (set_wp_wintimer (w_handle s) (set_wp_check1 0 (set_wp_check0 0 p))).
Proof.
  intros Hp Hf Hh H0 H1 Hd. eexists. split.
  { eapply run_seq; [apply run_load; cbn; rewrite Hp; reflexivity|]. eapply run_seq; [cbn; rewrite Hp; cbn; reflexivity|]. cbv beta zeta.
    assert ((100 <=? (if wp_check1 p <? wp_check0 p then u64 (wp_check0 p - wp_check1 p) else u64 (wp_check1 p - wp_check0 p))) = true) as ->.
    { destruct (Z.ltb_spec (wp_check1 p) (wp_check0 p)); rewrite u64_small by lia; apply Z.leb_le; lia. }
    eapply run_seq; [apply run_store; cbn; rewrite lookup_insert_eq; reflexivity|].
    eapply run_seq; [apply run_store; cbn; rewrite lookup_insert_eq; reflexivity|].
    eapply run_seq; [apply run_load; cbn; rewrite lookup_insert_eq; reflexivity|].
    eapply run_seq; [reflexivity|].
    eapply run_seq; [apply run_load; cbn; rewrite lookup_insert_eq; reflexivity|].
    eapply run_seq; [cbn; rewrite Hf; reflexivity|].
    eapply run_seq; [apply run_store; cbn; rewrite lookup_insert_eq; reflexivity|].
    cbn. rewrite (proj2 (truthy_true _)) by lia. reflexivity. }
  split; [reflexivity|]. cbn. by rewrite lookup_insert_eq.
Qed.

Lemma run_backup_ticks s pit p n :
  w_pits s !! pit = Some p → 0 ≤ wp_check0 p → 0 ≤ wp_check1 p → wp_check0 p + 200 < 2 ^ 64 → wp_check1 p + 200 < 2 ^ 64 →
  Z.abs (wp_check0 p - wp_check1 p) < 100 → Z.of_nat n ≤ wp_check0 p - wp_check1 p + 100 →
  run (backup_ticks n pit) s = Ret (Some tt, with_w_pits (<[pit := set_wp_check1 (wp_check1 p + Z.of_nat n) p]> (w_pits s)) s).
Proof.
  intros Hp H0 H1 Hw0 Hw1 Hd. induction n as [|n IH]; intros Hn.
  - rewrite Z.add_0_r. replace (set_wp_check1 (wp_check1 p) p) with p by by destruct p. rewrite insert_id by done. by destruct s.
  - cbn [backup_ticks]. eapply run_seq; [apply IH; lia|].
    rewrite (run_backup _ pit (set_wp_check1 (wp_check1 p + Z.of_nat n) p)); cbn; [|try apply lookup_insert_eq; lia..].
    rewrite insert_insert_eq. replace (wp_check1 p + Z.of_nat n + 1) with (wp_check1 p + Z.of_nat (S n)) by lia. done.
Qed.

(** The main timer is started again when it stalls.  However far apart the two counters
    are that do not make the backup timer act, as soon as the main timer stops calling, the
    backup timer leaves it alone for that many calls that its counter is 100 ahead, fewer
    than 200, and its next call stops the main timer, starts it with the same period, and
    sets both counters to 0. *)
Lemma pit_watchdog_exact s pit p :
  w_pits s !! pit = Some p → w_fails s = [] → 0 < w_handle s →
  0 ≤ wp_check0 p → 0 ≤ wp_check1 p → wp_check0 p + 200 < 2 ^ 64 → wp_check1 p + 200 < 2 ^ 64 →
  Z.abs (wp_check0 p - wp_check1 p) < 100 →
  ∃ n s1 s2, (0 < n < 200)%nat ∧
    (∀ k, (k ≤ n)%nat → ∃ s', run (backup_ticks k pit) s = Ret (Some tt, s') ∧ w_timers s' = w_timers s) ∧
    run (backup_ticks n pit) s = Ret (Some tt, s1) ∧ run (prs_pal_pit_windows_backup_entry pit) s1 = Ret (Some tt, s2) ∧
    w_timers s2 = <[w_handle s := (MainEntry, pit, PRS_TICKS_TO_MS (wp_period p))]> (delete (wp_wintimer p) (w_timers s)) ∧
    w_pits s2 !! pit = Some (set_wp_wintimer (w_handle s) (set_wp_check1 0 (set_wp_check0 0 p))).
Proof.
  intros Hp Hf Hh H0 H1 Hw0 Hw1 Hd. set (n := Z.to_nat (wp_check0 p - wp_check1 p + 100)).
  assert (∀ k, (k ≤ n)%nat → run (backup_ticks k pit) s =
    Ret (Some tt, with_w_pits (<[pit := set_wp_check1 (wp_check1 p + Z.of_nat k) p]> (w_pits s)) s)) as Hrun.
  { intros k Hk. apply run_backup_ticks; try done. lia. }
  destruct (run_backup_late (with_w_pits (<[pit := set_wp_check1 (wp_check1 p + Z.of_nat n) p]> (w_pits s)) s) pit
    (set_wp_check1 (wp_check1 p + Z.of_nat n) p)) as (s2 & Hrun2 & Ht & Hp2); cbn; try done; try lia; [apply lookup_insert_eq|].
  eexists n, _, s2. split; [lia|]. split; [intros k Hk; eexists; split; [by apply Hrun|done]|].
  split; [by apply Hrun|]. split; [exact Hrun2|]. split; [exact Ht|]. exact Hp2.
Qed.
