(* ===== verification/Pe.v ===== *)
(** * The loader of programs on Windows (prs/pal/windows/proc.c)

    A program is a PE file for AMD64: the loader maps it, copies its headers and sections
    to memory of its own, adds the distance from the address the program was linked for to
    every place its relocations name, fills in the addresses of the functions it imports,
    and sets the protection of its sections.

    As in Elf.v no offset is checked: what a damaged file does is undefined behaviour. *)

From S2P Require Import Prelude Heap Bitops Str Stack Elf WinStack.

(** What the system answers to the loader.  [INVALID_HANDLE_VALUE] is -1; other failures are
    0.  [pe_get_module]: the modules that are loaded already. *)
Class PeSystem : Type := {
  pe_page_size : Z;
  pe_create_file : Z;
  pe_create_mapping : Z;
  pe_map_view : Z;
  pe_file : list Z;
  pe_get_module : list Z → Z;
  pe_load_library : list Z → Z;
  pe_get_proc_name : Z → list Z → Z;
  pe_get_proc_ordinal : Z → Z → Z
}.

Definition INVALID_HANDLE_VALUE : Z := 2 ^ 64 - 1.

(** [struct prs_pal_proc] *)
Record pe_proc : Type := PeProc { pe_size : Z; pe_data : Z; pe_entry : Z }.

(** The process: the heap and the records on it, the pages and the bytes in them, the open
    handles, the views of files, the libraries that were loaded, and the number of warnings
    in the log. *)
Record pspace : Type := Pspace {
  ps_heap : heap;
  ps_procs : gmap loc pe_proc;
  ps_vm : wvm;
  ps_bytes : Z → Z;
  ps_handles : list Z;
  ps_views : list Z;
  ps_libs : list (list Z);
  ps_traces : nat
}.

Definition with_ps_heap (h : heap) (s : pspace) : pspace :=
  Pspace h (ps_procs s) (ps_vm s) (ps_bytes s) (ps_handles s) (ps_views s) (ps_libs s) (ps_traces s).
Definition with_ps_procs (p : gmap loc pe_proc) (s : pspace) : pspace :=
  Pspace (ps_heap s) p (ps_vm s) (ps_bytes s) (ps_handles s) (ps_views s) (ps_libs s) (ps_traces s).
Definition with_ps_vm (m : wvm) (s : pspace) : pspace :=
  Pspace (ps_heap s) (ps_procs s) m (ps_bytes s) (ps_handles s) (ps_views s) (ps_libs s) (ps_traces s).
Definition with_ps_bytes (b : Z → Z) (s : pspace) : pspace :=
  Pspace (ps_heap s) (ps_procs s) (ps_vm s) b (ps_handles s) (ps_views s) (ps_libs s) (ps_traces s).
Definition with_ps_handles (l : list Z) (s : pspace) : pspace :=
  Pspace (ps_heap s) (ps_procs s) (ps_vm s) (ps_bytes s) l (ps_views s) (ps_libs s) (ps_traces s).
Definition with_ps_views (l : list Z) (s : pspace) : pspace :=
  Pspace (ps_heap s) (ps_procs s) (ps_vm s) (ps_bytes s) (ps_handles s) l (ps_libs s) (ps_traces s).
Definition with_ps_libs (l : list (list Z)) (s : pspace) : pspace :=
  Pspace (ps_heap s) (ps_procs s) (ps_vm s) (ps_bytes s) (ps_handles s) (ps_views s) l (ps_traces s).
Definition pe_ftrace (s : pspace) : pspace :=
  Pspace (ps_heap s) (ps_procs s) (ps_vm s) (ps_bytes s) (ps_handles s) (ps_views s) (ps_libs s) (S (ps_traces s)).

(** ** Bytes *)

(** Numbers of [n] bytes in little-endian order. *)
Fixpoint rd_le (b : Z → Z) (n : nat) (a : Z) : Z :=
  match n with
  | O => 0
  | S n => b a + 256 * rd_le b n (a + 1)
  end.
Fixpoint upd_le (b : Z → Z) (n : nat) (a v : Z) : Z → Z :=
  match n with
  | O => b
  | S n => let b := upd_le b n (a + 1) (v / 256) in λ x, if x =? a then v mod 256 else b x
  end.

(** Whether the [n] bytes at [a] can be read, or read and written. *)
Definition can_access (rights : Z → bool) (m : wvm) (n : nat) (a : Z) : bool :=
  (0 <=? a) && (a + Z.of_nat n <=? 2 ^ 64) && forallb (λ i, rights (protection m (a + Z.of_nat i))) (seq 0 n).
Definition can_read (prot : Z) : bool := (win_rights prot).1.1.
Definition can_write (prot : Z) : bool := (win_rights prot).1.2.

Definition mem_read (n : nat) (a : Z) (s : pspace) : outcome Z :=
  if can_access can_read (ps_vm s) n a then Ret (rd_le (ps_bytes s) n a) else Undef.
Definition mem_write (n : nat) (a v : Z) (s : pspace) : outcome pspace :=
  if can_access can_write (ps_vm s) n a then Ret (with_ps_bytes (upd_le (ps_bytes s) n a v) s) else Undef.

(** A string in memory, of at most [fuel] bytes. *)
Fixpoint mem_string (fuel : nat) (a : Z) (s : pspace) : outcome (list Z) :=
  match fuel with
  | O => Undef
  | S fuel => b ← mem_read 1 a s; if b =? 0 then Ret [] else r ← mem_string fuel (a + 1) s; Ret (b :: r)
  end.

Section loader.
Context `{!PeSystem}.

(** The file behind its view: zero up to the end of the last page. *)
Definition file_byte (offset : Z) : outcome Z :=
  if (0 <=? offset) && (offset <? Z.of_nat (length pe_file)) then deref (pe_file !! Z.to_nat offset)
  else if (0 <=? offset) && (offset <? (Z.of_nat (length pe_file) + pe_page_size - 1) / pe_page_size * pe_page_size) then Ret 0
  else Undef.
Fixpoint file_read (n : nat) (offset : Z) : outcome Z :=
  match n with
  | O => Ret 0
  | S n => b ← file_byte offset; r ← file_read n (offset + 1); Ret (b + 256 * r)
  end.
Fixpoint copy_file (n : nat) (dst offset : Z) (s : pspace) : outcome pspace :=
  match n with
  | O => Ret s
  | S n => b ← file_byte offset; s ← mem_write 1 dst b s; copy_file n (dst + 1) (offset + 1) s
  end.

(** *** The structures of winnt.h, by their offsets

    [rd] reads a number of bytes at an offset, from the file or from the copy in memory;
    [nt] is where the NT headers are. *)
Definition IMAGE_DOS_SIGNATURE : Z := 0x5A4D.
Definition IMAGE_NT_SIGNATURE : Z := 0x4550.
Section headers.
Context (rd : nat → Z → outcome Z).
Definition e_magic : outcome Z := rd 2 0.
Definition e_lfanew : outcome Z := v ← rd 4 60; Ret (i32 v).
Definition nt_signature (nt : Z) : outcome Z := rd 4 nt.
Definition number_of_sections (nt : Z) : outcome Z := rd 2 (nt + 6).
Definition size_of_optional_header (nt : Z) : outcome Z := rd 2 (nt + 20).
Definition address_of_entry_point (nt : Z) : outcome Z := rd 4 (nt + 40).
Definition image_base (nt : Z) : outcome Z := rd 8 (nt + 48).
Definition size_of_image (nt : Z) : outcome Z := rd 4 (nt + 80).
Definition size_of_headers (nt : Z) : outcome Z := rd 4 (nt + 84).
Definition import_directory (nt : Z) : outcome Z := rd 4 (nt + 144).
Definition reloc_directory (nt : Z) : outcome (Z * Z) := a ← rd 4 (nt + 176); n ← rd 4 (nt + 180); Ret (a, n).
Definition first_section (nt : Z) : outcome Z := n ← size_of_optional_header nt; Ret (nt + 24 + n).
Definition section_address (sh : Z) : outcome Z := rd 4 (sh + 12).
Definition section_raw_size (sh : Z) : outcome Z := rd 4 (sh + 16).
Definition section_raw_data (sh : Z) : outcome Z := rd 4 (sh + 20).
Definition section_characteristics (sh : Z) : outcome Z := rd 4 (sh + 36).
End headers.
Definition sizeof_section : Z := 40.

(** The copy of the headers at [data]. *)
Definition mem_headers (data : Z) (s : pspace) (n : nat) (offset : Z) : outcome Z := mem_read n (u64 (data + offset)) s.

(** *** Sections *)

Fixpoint copy_sections (n : nat) (data sh : Z) (s : pspace) : outcome pspace :=
  match n with
  | O => Ret s
  | S n =>
      size ← section_raw_size file_read sh;
      s ← (if truthy size then
             address ← section_address file_read sh;
             raw ← section_raw_data file_read sh;
             copy_file (Z.to_nat size) (u64 (data + address)) raw s
           else Ret s);
      copy_sections n data (sh + sizeof_section) s
  end.

Definition IMAGE_SCN_MEM_EXECUTE : Z := 0x20000000.
Definition IMAGE_SCN_MEM_READ : Z := 0x40000000.
Definition IMAGE_SCN_MEM_WRITE : Z := 0x80000000.
Definition section_flags (c : Z) : Z :=
  let flags := 0 in
  let flags := if truthy (Z.land c IMAGE_SCN_MEM_READ) then Z.lor flags PRS_PAL_MEM_FLAG_READ else flags in
  let flags := if truthy (Z.land c IMAGE_SCN_MEM_WRITE) then Z.lor flags PRS_PAL_MEM_FLAG_WRITE else flags in
  if truthy (Z.land c IMAGE_SCN_MEM_EXECUTE) then Z.lor flags PRS_PAL_MEM_FLAG_EXECUTE else flags.

Fixpoint protect_sections (n : nat) (data sh : Z) (s : pspace) : outcome pspace :=
  match n with
  | O => Ret s
  | S n =>
      size ← section_raw_size (mem_headers data s) sh;
      s ← (if truthy size then
             address ← section_address (mem_headers data s) sh;
             c ← section_characteristics (mem_headers data s) sh;
             Ret (with_ps_vm (prs_pal_mem_protect pe_page_size (u64 (data + address)) size (section_flags c) (ps_vm s)) s)
           else Ret s);
      protect_sections n data (sh + sizeof_section) s
  end.

(** *** Relocation *)

Definition IMAGE_REL_BASED_ABSOLUTE : Z := 0.
Definition IMAGE_REL_BASED_HIGH : Z := 1.
Definition IMAGE_REL_BASED_LOW : Z := 2.
Definition IMAGE_REL_BASED_HIGHLOW : Z := 3.
Definition IMAGE_REL_BASED_DIR64 : Z := 10.

Definition LOWORD (x : Z) : Z := Z.land x 0xFFFF.
Definition HIWORD (x : Z) : Z := Z.land (Z.shiftr x 16) 0xFFFF.
Definition u16 (x : Z) : Z := x mod 2 ^ 16.

(** [+=] on [n] bytes. *)
Definition mem_add (n : nat) (a v : Z) (s : pspace) : outcome pspace :=
  x ← mem_read n a s; mem_write n a (x + v) s.

Definition reloc_entry (base_dest delta entry : Z) (s : pspace) : outcome pspace :=
  let type := Z.land (Z.shiftr entry 12) 0xF in
  let offset := Z.land entry 0xFFF in
  let dest := u64 (base_dest + offset) in
  if type =? IMAGE_REL_BASED_ABSOLUTE then Ret s
  else if type =? IMAGE_REL_BASED_HIGH then mem_add 2 dest (u32 delta) s
  else if type =? IMAGE_REL_BASED_LOW then mem_add 2 dest (LOWORD (u16 delta)) s
  else if type =? IMAGE_REL_BASED_HIGHLOW then mem_add 4 dest (HIWORD (u16 delta)) s
  else if type =? IMAGE_REL_BASED_DIR64 then mem_add 8 dest delta s
  else Ret (pe_ftrace s).

Fixpoint reloc_entries (n : nat) (entries base_dest delta : Z) (s : pspace) : outcome pspace :=
  match n with
  | O => Ret s
  | S n =>
      entry ← mem_read 2 entries s;
      s ← reloc_entry base_dest delta entry s;
      reloc_entries n (entries + 2) base_dest delta s
  end.

(** The blocks up to [reloc_end]; nothing when the fuel is over. *)
Fixpoint reloc_blocks (fuel : nat) (data reloc reloc_end delta : Z) (s : pspace) : outcome (option pspace) :=
  if reloc <? reloc_end then
    match fuel with
    | O => Ret None
    | S fuel =>
        size ← mem_read 4 (reloc + 4) s;
        let count := i32 (u64 (size - 8) / 2) in
        page ← mem_read 4 reloc s;
        s ← reloc_entries (Z.to_nat count) (reloc + 8) (u64 (data + page)) delta s;
        size ← mem_read 4 (reloc + 4) s;
        reloc_blocks fuel data (u64 (reloc + size)) reloc_end delta s
    end
  else Ret (Some s).

(** *** Imports *)

Definition IMAGE_ORDINAL_FLAG64 : Z := 2 ^ 63.
(** ["prs.dll"] and ["prs.exe"] *)
Definition PRS_DLL : list Z := [112; 114; 115; 46; 100; 108; 108].
Definition PRS_EXE : list Z := [112; 114; 115; 46; 101; 120; 101].
Definition sizeof_import_descriptor : Z := 20.

(** The functions of a library: into [thunk] what [ref] says. *)
Fixpoint import_thunks (fuel : nat) (data module thunk ref : Z) (s : pspace) : outcome (option pspace) :=
  entry ← mem_read 8 ref s;
  if truthy entry then
    match fuel with
    | O => Ret None
    | S fuel =>
        s ← (if truthy (Z.land entry IMAGE_ORDINAL_FLAG64)
             then mem_write 8 thunk (pe_get_proc_ordinal module (Z.land entry 0xFFFF)) s
             else
               name ← mem_string (S fuel) (u64 (data + entry + 2)) s;
               mem_write 8 thunk (pe_get_proc_name module name) s);
        import_thunks fuel data module (u64 (thunk + 8)) (u64 (ref + 8)) s
    end
  else Ret (Some s).

Definition import_module (name : list Z) (s : pspace) : Z * pspace :=
  let module := pe_get_module name in
  let module := if (module =? 0) && bool_decide (name = PRS_DLL) then pe_get_module PRS_EXE else module in
  if module =? 0 then (pe_load_library name, with_ps_libs (ps_libs s ++ [name]) s) else (module, s).

(** The libraries, up to a descriptor without a name: whether all of them could be loaded. *)
Fixpoint import_libraries (fuel : nat) (data desc : Z) (s : pspace) : outcome (option (bool * pspace)) :=
  name ← mem_read 4 (desc + 12) s;
  if truthy name then
    match fuel with
    | O => Ret None
    | S fuel =>
        name ← mem_string (S fuel) (u64 (data + name)) s;
        let (module, s) := import_module name s in
        if module =? 0 then Ret (Some (false, pe_ftrace s))
        else
          first ← mem_read 4 (desc + 16) s;
          original ← mem_read 4 desc s;
          r ← import_thunks fuel data module (u64 (data + first)) (u64 (data + (if truthy original then original else first))) s;
          match r with
          | Some s => import_libraries fuel data (u64 (desc + sizeof_import_descriptor)) s
          | None => Ret None
          end
    end
  else Ret (Some (true, s)).

(** ** The functions of the interface *)

(** [out]: the handles that are not null are closed; the record, the memory and the view of
    the file are left. *)
Definition pe_out (hMap hFile : Z) (s : pspace) : ptr * pspace :=
  (None, with_ps_handles (filter (λ h, ¬ ((h = hMap ∧ hMap ≠ 0) ∨ (h = hFile ∧ hFile ≠ 0))) (ps_handles s)) s).

(** From where the headers and sections are in memory. *)
Definition pe_link (fuel : nat) (proc : loc) (size data : Z) (s : pspace) : outcome (option (ptr * pspace)) :=
  nt ← e_lfanew (mem_headers data s);
  '(reloc_address, reloc_size) ← reloc_directory (mem_headers data s) nt;
  base ← image_base (mem_headers data s) nt;
  if negb (data =? base) && negb (truthy reloc_size) then Ret (Some (pe_out 0 0 (pe_ftrace s)))
  else
    r ← (if data =? base then Ret (Some s)
         else
           let reloc_data := u64 (data + reloc_address) in
           reloc_blocks fuel data reloc_data (u64 (reloc_data + reloc_size)) (u64 (data - base)) s);
    match r with
    | None => Ret None
    | Some s =>
        import ← import_directory (mem_headers data s) nt;
        let desc := u64 (data + import) in
        if desc =? 0 then Ret (Some (pe_out 0 0 (pe_ftrace s)))
        else
          r ← import_libraries fuel data desc s;
          match r with
          | None => Ret None
          | Some (false, s) => Ret (Some (pe_out 0 0 s))
          | Some (true, s) =>
              sections ← number_of_sections (mem_headers data s) nt;
              sh ← first_section (mem_headers data s) nt;
              s ← protect_sections (Z.to_nat sections) data sh s;
              entry ← address_of_entry_point (mem_headers data s) nt;
              Ret (Some (Some proc, with_ps_procs (<[proc := PeProc size data (u64 (data + entry))]> (ps_procs s)) s))
          end
    end.

(** Fresh memory is zero. *)
Definition pe_mem_map (size flags : Z) (s : pspace) : Z * pspace :=
  let (data, m) := prs_pal_mem_map pe_page_size size flags (ps_vm s) in
  (data, with_ps_vm m (with_ps_bytes (λ a, if (data <=? a) && (a <? data + size) then 0 else ps_bytes s a) s)).

(** [file_data] is not null here; the record is used without looking whether there was
    memory for it. *)
Definition pe_load_mapped (fuel : nat) (proc : ptr) (s : pspace) : outcome (option (ptr * pspace)) :=
  let out := λ s, Ret (Some (pe_out pe_create_mapping pe_create_file (pe_ftrace s))) in
  magic ← e_magic file_read;
  if negb (magic =? IMAGE_DOS_SIGNATURE) then out s
  else
    nt ← e_lfanew file_read;
    signature ← nt_signature file_read nt;
    if negb (signature =? IMAGE_NT_SIGNATURE) then out s
    else
      image ← size_of_image file_read nt;
      let size := prs_bitops_align_size (u32 (image + 1)) pe_page_size in
      proc ← deref proc;
      let (data, s) := pe_mem_map size (Z.lor PRS_PAL_MEM_FLAG_COMMIT
        (Z.lor (Z.lor PRS_PAL_MEM_FLAG_READ PRS_PAL_MEM_FLAG_WRITE) PRS_PAL_MEM_FLAG_EXECUTE)) s in
      let s := with_ps_procs (<[proc := PeProc size data 0]> (ps_procs s)) s in
      if data =? 0 then out s
      else
        headers ← size_of_headers file_read nt;
        s ← copy_file (Z.to_nat headers) data 0 s;
        sections ← number_of_sections file_read nt;
        sh ← first_section file_read nt;
        s ← copy_sections (Z.to_nat sections) data sh s;
        pe_link fuel proc size data (pe_out pe_create_mapping pe_create_file s).2.

Definition prs_pal_proc_load (fuel : nat) (s : pspace) : outcome (option (ptr * pspace)) :=
  let (proc, h) := prs_pal_malloc_zero (ps_heap s) in
  let s := with_ps_heap h s in
  let s := match proc with Some p => with_ps_procs (<[p := PeProc 0 0 0]> (ps_procs s)) s | None => s end in
  (* the invalid handle is closed, too *)
  if pe_create_file =? INVALID_HANDLE_VALUE then Ret (Some (pe_out 0 pe_create_file (pe_ftrace s)))
  else
    let s := with_ps_handles (pe_create_file :: ps_handles s) s in
    if pe_create_mapping =? 0 then Ret (Some (pe_out 0 pe_create_file (pe_ftrace s)))
    else
      let s := with_ps_handles (pe_create_mapping :: ps_handles s) s in
      if pe_map_view =? 0 then Ret (Some (pe_out pe_create_mapping pe_create_file (pe_ftrace s)))
      else pe_load_mapped fuel proc (with_ps_views (pe_map_view :: ps_views s) s).

Definition prs_pal_proc_destroy (pal_proc : loc) (s : pspace) : outcome pspace :=
  proc ← deref (ps_procs s !! pal_proc);
  let s := with_ps_vm (prs_pal_mem_unmap (pe_data proc) (pe_size proc) (ps_vm s)) s in
  h ← prs_pal_free (Some pal_proc) (ps_heap s);
  Ret (with_ps_procs (delete pal_proc (ps_procs s)) (with_ps_heap h s)).

Definition prs_pal_proc_get_entry_point (pal_proc : loc) (s : pspace) : outcome Z :=
  proc ← deref (ps_procs s !! pal_proc); Ret (pe_entry proc).
Definition prs_pal_proc_get_base (pal_proc : loc) (s : pspace) : outcome Z :=
  proc ← deref (ps_procs s !! pal_proc); Ret (pe_data proc).
Definition prs_pal_proc_get_size (pal_proc : loc) (s : pspace) : outcome Z :=
  proc ← deref (ps_procs s !! pal_proc); Ret (pe_size proc).
End loader.

(** [module_filename]: the buffer with the name of the module, if the system gives it;
    [info]: where the module is, and its size. *)
Definition prs_pal_proc_create_main (module_filename : option (list Z)) (command_line : list Z) (info : option (Z * Z))
    (cmdline : list Z) (s : pspace) : outcome (ptr * list Z * list Z * pspace) :=
  let (proc, h) := prs_pal_malloc_zero (ps_heap s) in
  let s := with_ps_heap h s in
  match module_filename with
  | None => Fatal
  | Some filename =>
      '(cmdline, _) ← prs_str_copy cmdline command_line Elf.PRS_MAX_CMDLINE;
      match info with
      | None => Fatal
      | Some (data, size) =>
          p ← deref proc;
          Ret (proc, filename, cmdline, with_ps_procs (<[p := PeProc size data 0]> (ps_procs s)) s)
      end
  end.

(** ** What a file says of its relocations *)

Record pe_block : Type := PeBlock { bk_page : Z; bk_entries : list Z }.

Definition block_size (blk : pe_block) : Z := 8 + 2 * Z.of_nat (length (bk_entries blk)).
Definition entry_type (entry : Z) : Z := Z.land (Z.shiftr entry 12) 0xF.
Definition entry_dest (data page entry : Z) : Z := u64 (u64 (data + page) + Z.land entry 0xFFF).

(** The blocks that are in memory from [a] on. *)
Fixpoint blocks_at (b : Z → Z) (a : Z) (blocks : list pe_block) : Prop :=
  match blocks with
  | [] => True
  | blk :: blocks =>
      rd_le b 4 a = bk_page blk ∧ rd_le b 4 (a + 4) = block_size blk ∧
      (∀ i e, bk_entries blk !! i = Some e → rd_le b 2 (a + 8 + 2 * Z.of_nat i) = e) ∧
      blocks_at b (a + block_size blk) blocks
  end.
Fixpoint blocks_size (blocks : list pe_block) : Z :=
  match blocks with [] => 0 | blk :: blocks => block_size blk + blocks_size blocks end.

(** How many bytes an entry relocates, and whether its type is one that the loader knows. *)
Definition entry_width (entry : Z) : option nat :=
  if entry_type entry =? IMAGE_REL_BASED_DIR64 then Some 8%nat
  else if (entry_type entry =? IMAGE_REL_BASED_HIGH) || (entry_type entry =? IMAGE_REL_BASED_LOW) then Some 2%nat
  else None.
Definition entry_known (entry : Z) : bool :=
  existsb (Z.eqb (entry_type entry)) [IMAGE_REL_BASED_ABSOLUTE; IMAGE_REL_BASED_HIGH; IMAGE_REL_BASED_LOW;
    IMAGE_REL_BASED_HIGHLOW; IMAGE_REL_BASED_DIR64].

(** The places that are relocated, with their width. *)
Definition entry_slots (data page : Z) (entries : list Z) : list (nat * Z) :=
  omap (λ e, (λ n, (n, entry_dest data page e)) <$> entry_width e) entries.
Definition block_slots (data : Z) (blocks : list pe_block) : list (nat * Z) :=
  blocks ≫= λ blk, entry_slots data (bk_page blk) (bk_entries blk).

(** The warnings: one for each entry of another type. *)
Definition entry_warnings (entries : list Z) : nat := length (filter (λ e, entry_known e = false) entries).
Fixpoint block_warnings (blocks : list pe_block) : nat :=
  match blocks with [] => 0 | blk :: blocks => entry_warnings (bk_entries blk) + block_warnings blocks end.

(** The bytes that an entry names can be read and written. *)
Definition entry_ok (data page : Z) (m : wvm) (entry : Z) : Prop :=
  let dest := entry_dest data page entry in
  ∀ n, entry_width entry = Some n ∨ (entry_type entry = IMAGE_REL_BASED_HIGHLOW ∧ n = 4%nat) →
    can_access can_read m n dest = true ∧ can_access can_write m n dest = true.

(** The bytes once the places have been relocated. *)
Definition relocated (delta : Z) (slots : list (nat * Z)) (b : Z → Z) : Z → Z :=
  foldl (λ b slot, upd_le b slot.1 slot.2 (rd_le b slot.1 slot.2 + delta)) b slots.

(** The process with other bytes, and more warnings. *)
Definition reloc_done (b : Z → Z) (warnings : nat) (s : pspace) : pspace :=
  Pspace (ps_heap s) (ps_procs s) (ps_vm s) b (ps_handles s) (ps_views s) (ps_libs s) (ps_traces s + warnings).

Definition bytes_ok (b : Z → Z) : Prop := ∀ a, 0 ≤ b a < 256.
Definition slot_apart (lo hi : Z) (slot : nat * Z) : Prop := slot.2 + Z.of_nat slot.1 ≤ lo ∨ hi ≤ slot.2.
Definition in_slot (slot : nat * Z) (x : Z) : Prop := slot.2 ≤ x < slot.2 + Z.of_nat slot.1.

(** *** Bytes *)

Lemma rd_le_ext b1 b2 n : ∀ a, (∀ x, a ≤ x < a + Z.of_nat n → b1 x = b2 x) → rd_le b1 n a = rd_le b2 n a.
Proof.
  induction n as [|n IH]; intros a Hext; cbn [rd_le]; [done|].
  rewrite (Hext a) by lia. rewrite (IH (a + 1)); [done|]. intros x Hx. apply Hext. lia.
Qed.

Lemma upd_le_outside b n : ∀ a v x, ¬ (a ≤ x < a + Z.of_nat n) → upd_le b n a v x = b x.
Proof.
  induction n as [|n IH]; intros a v x Hx; cbn [upd_le]; [done|].
  destruct (Z.eqb_spec x a); [lia|]. apply IH. lia.
Qed.

Lemma upd_le_ext b1 b2 n : ∀ a v, (∀ x, b1 x = b2 x) → ∀ x, upd_le b1 n a v x = upd_le b2 n a v x.
Proof.
  induction n as [|n IH]; intros a v Hext x; cbn [upd_le]; [done|]. destruct (x =? a); [done|]. by apply IH.
Qed.

Lemma upd_le_bytes b n : bytes_ok b → ∀ a v, bytes_ok (upd_le b n a v).
Proof.
  intros Hb. induction n as [|n IH]; intros a v x; cbn [upd_le]; [done|].
  destruct (x =? a); [apply Z.mod_pos_bound; lia|]. apply IH.
Qed.

Lemma rd_le_upd b n : ∀ a v, rd_le (upd_le b n a v) n a = v mod 256 ^ Z.of_nat n.
Proof.
  induction n as [|n IH]; intros a v; cbn [upd_le rd_le]; [by rewrite Z.mod_1_r|].
  rewrite Z.eqb_refl. rewrite (rd_le_ext _ (upd_le b n (a + 1) (v / 256))).
  - rewrite IH. rewrite Nat2Z.inj_succ, Z.pow_succ_r by lia.
    pose proof (Z.pow_pos_nonneg 256 (Z.of_nat n)). rewrite Z.rem_mul_r by lia. done.
  - intros x Hx. destruct (Z.eqb_spec x a); [lia|done].
Qed.

Lemma upd_le_same b n : bytes_ok b → ∀ a x, upd_le b n a (rd_le b n a) x = b x.
Proof.
  intros Hb. induction n as [|n IH]; intros a x; cbn [upd_le rd_le]; [done|].
  pose proof (Hb a). replace ((b a + 256 * rd_le b n (a + 1)) / 256) with (rd_le b n (a + 1)).
  2: { rewrite Z.mul_comm, Z.div_add by lia. rewrite Z.div_small by lia. lia. }
  destruct (Z.eqb_spec x a) as [->|]; [|apply IH].
  rewrite Z.mul_comm, Z.mod_add by lia. by rewrite Z.mod_small by lia.
Qed.

Lemma rd_le_range b n : bytes_ok b → ∀ a, 0 ≤ rd_le b n a < 256 ^ Z.of_nat n.
Proof.
  intros Hb. induction n as [|n IH]; intros a; cbn [rd_le]; [lia|].
  specialize (IH (a + 1)). pose proof (Hb a). rewrite Nat2Z.inj_succ, Z.pow_succ_r by lia. lia.
Qed.

Lemma upd_le_mod b n : ∀ a v w, v mod 256 ^ Z.of_nat n = w mod 256 ^ Z.of_nat n → ∀ x, upd_le b n a v x = upd_le b n a w x.
Proof.
  induction n as [|n IH]; intros a v w E x; cbn [upd_le]; [done|].
  rewrite Nat2Z.inj_succ, Z.pow_succ_r in E by lia. pose proof (Z.pow_pos_nonneg 256 (Z.of_nat n)).
  rewrite !Z.rem_mul_r in E by lia. pose proof (Z.mod_pos_bound v 256). pose proof (Z.mod_pos_bound w 256).
  destruct (Z.eqb_spec x a); [lia|]. apply IH. lia.
Qed.

Lemma relocated_cons delta slot slots b :
  relocated delta (slot :: slots) b = relocated delta slots (upd_le b slot.1 slot.2 (rd_le b slot.1 slot.2 + delta)).
Proof. done. Qed.

Lemma relocated_ext delta slots : ∀ b1 b2, (∀ x, b1 x = b2 x) → ∀ x, relocated delta slots b1 x = relocated delta slots b2 x.
Proof.
  induction slots as [|slot slots IH]; intros b1 b2 Hext; [done|]. intros y. rewrite !relocated_cons. apply IH. intros x.
  rewrite (rd_le_ext b1 b2) by done. by apply upd_le_ext.
Qed.

Lemma relocated_outside delta slots : ∀ b x, (∀ slot, slot ∈ slots → ¬ in_slot slot x) → relocated delta slots b x = b x.
Proof.
  induction slots as [|slot slots IH]; intros b x Hx; [done|]. rewrite relocated_cons, IH.
  - apply upd_le_outside. apply Hx. by left.
  - intros slot' Hs. apply Hx. by right.
Qed.

(** No byte is in two places. *)
Definition slots_apart (slots : list (nat * Z)) : Prop :=
  ∀ i j x y, slots !! i = Some x → slots !! j = Some y → i ≠ j →
    x.2 + Z.of_nat x.1 ≤ y.2 ∨ y.2 + Z.of_nat y.1 ≤ x.2.

Lemma relocated_slot delta slots : ∀ b i slot,
  slots_apart slots → slots !! i = Some slot →
  rd_le (relocated delta slots b) slot.1 slot.2 = (rd_le b slot.1 slot.2 + delta) mod 256 ^ Z.of_nat slot.1.
Proof.
  induction slots as [|z slots IH]; intros b i slot Hap Hi; [done|]. rewrite relocated_cons.
  assert (∀ k y, slots !! k = Some y → z.2 + Z.of_nat z.1 ≤ y.2 ∨ y.2 + Z.of_nat y.1 ≤ z.2) as Hz by (intros k y Hk; apply (Hap 0%nat (S k)); done).
  destruct i as [|i]; [injection Hi as ->|change (slots !! i = Some slot) in Hi].
  - rewrite (rd_le_ext _ (upd_le b slot.1 slot.2 (rd_le b slot.1 slot.2 + delta))); [apply rd_le_upd|].
    intros x Hx. apply relocated_outside. intros y (k & Hk)%list_elem_of_lookup. specialize (Hz k y Hk). unfold in_slot. lia.
  - rewrite (IH _ i); [|intros i' j' x y Hx Hy Hne; apply (Hap (S i') (S j')); [done..|lia]|done].
    f_equal. f_equal. apply rd_le_ext. intros x Hx. apply upd_le_outside. specialize (Hz i slot Hi). lia.
Qed.

(** *** The loops *)

Section relocation.
Context (data delta lo hi : Z).

Lemma reloc_done_nothing s : reloc_done (ps_bytes s) 0 s = s.
Proof. unfold reloc_done. rewrite Nat.add_0_r. by destruct s. Qed.
Lemma reloc_done_done b1 b2 w1 w2 s : reloc_done b2 w2 (reloc_done b1 w1 s) = reloc_done b2 (w1 + w2) s.
Proof. unfold reloc_done. cbn. by rewrite Nat.add_assoc. Qed.

(** [+=] on the bytes of an entry. *)
Lemma mem_add_run n a v s :
  can_access can_read (ps_vm s) n a = true → can_access can_write (ps_vm s) n a = true →
  mem_add n a v s = Ret (reloc_done (upd_le (ps_bytes s) n a (rd_le (ps_bytes s) n a + v)) 0 s).
Proof.
  intros Hr Hw. unfold mem_add, mem_read, mem_write, reloc_done. rewrite Hr. ocbn. rewrite Hw, Nat.add_0_r. done.
Qed.

(** The warning of an entry, and its place. *)
Lemma entry_warnings_one e : entry_warnings [e] = if entry_known e then 0%nat else 1%nat.
Proof. unfold entry_warnings. rewrite filter_cons. by destruct (entry_known e). Qed.
Lemma entry_slots_one page e b :
  relocated delta (entry_slots data page [e]) b =
    match entry_width e with
    | Some n => upd_le b n (entry_dest data page e) (rd_le b n (entry_dest data page e) + delta)
    | None => b
    end.
Proof. unfold entry_slots. cbn [omap list_omap]. by destruct (entry_width e). Qed.

(** The low half of the distance is that of what HIGH and LOW add. *)
Lemma low_half x : (x + u32 delta) mod 2 ^ 16 = (x + delta) mod 2 ^ 16 ∧ (x + LOWORD (u16 delta)) mod 2 ^ 16 = (x + delta) mod 2 ^ 16.
Proof.
  assert (LOWORD (u16 delta) = delta mod 2 ^ 16) as ->.
  { unfold LOWORD, u16. change 0xFFFF with (Z.ones 16). by rewrite Z.land_ones, Z.mod_mod by lia. }
  split; [|by rewrite Zplus_mod_idemp_r]. rewrite <- Zplus_mod_idemp_r, <- (Zplus_mod_idemp_r delta). do 2 f_equal.
  unfold u32. change (2 ^ 32) with (2 ^ 16 * 2 ^ 16). rewrite Z.rem_mul_r by lia.
  rewrite Z.mul_comm, Z.mod_add by lia. apply Z.mod_mod. lia.
Qed.

Lemma entry_ok_run page m entry b s :
  ps_vm s = m → ps_bytes s = b → bytes_ok b → entry_ok data page m entry →
  ∃ b', reloc_entry (u64 (data + page)) delta entry s = Ret (reloc_done b' (entry_warnings [entry]) s) ∧ bytes_ok b' ∧
    ∀ x, b' x = relocated delta (entry_slots data page [entry]) b x.
Proof.
  intros <- <- Hok He. unfold reloc_entry. fold (entry_type entry). fold (entry_dest data page entry).
  unfold entry_ok in He. rewrite entry_slots_one, entry_warnings_one. unfold entry_width, entry_known in *.
  destruct (Z.eqb_spec (entry_type entry) IMAGE_REL_BASED_ABSOLUTE) as [->|H0].
  { exists (ps_bytes s). split; [f_equal; symmetry; apply reloc_done_nothing|done]. }
  destruct (Z.eqb_spec (entry_type entry) IMAGE_REL_BASED_HIGH) as [E|H1].
  { rewrite E in *. destruct (He 2%nat (or_introl eq_refl)) as [Hr Hw]. rewrite mem_add_run by done.
    eexists. split; [reflexivity|]. split; [by apply upd_le_bytes|]. exact (upd_le_mod _ 2 _ _ _ (proj1 (low_half _))). }
  destruct (Z.eqb_spec (entry_type entry) IMAGE_REL_BASED_LOW) as [E|H2].
  { rewrite E in *. destruct (He 2%nat (or_introl eq_refl)) as [Hr Hw]. rewrite mem_add_run by done.
    eexists. split; [reflexivity|]. split; [by apply upd_le_bytes|]. exact (upd_le_mod _ 2 _ _ _ (proj2 (low_half _))). }
  destruct (Z.eqb_spec (entry_type entry) IMAGE_REL_BASED_HIGHLOW) as [E|H3].
  { rewrite E in *. destruct (He 4%nat (or_intror (conj eq_refl eq_refl))) as [Hr Hw]. rewrite mem_add_run by done.
    assert (HIWORD (u16 delta) = 0) as ->.
    { unfold HIWORD, u16. rewrite Z.shiftr_div_pow2 by lia. rewrite Z.div_small by (apply Z.mod_pos_bound; lia). done. }
    rewrite Z.add_0_r. eexists. split; [reflexivity|]. split; [by apply upd_le_bytes|]. by apply upd_le_same. }
  destruct (Z.eqb_spec (entry_type entry) IMAGE_REL_BASED_DIR64) as [E|H4].
  { destruct (He 8%nat (or_introl eq_refl)) as [Hr Hw]. rewrite mem_add_run, E by done.
    eexists. split; [reflexivity|]. split; [by apply upd_le_bytes|]. done. }
  exists (ps_bytes s). cbn [existsb]. rewrite !(proj2 (Z.eqb_neq _ _)) by done. split; [|done].
  unfold pe_ftrace, reloc_done. by rewrite Nat.add_1_r.
Qed.

Lemma entry_slots_cons page e es : entry_slots data page (e :: es) = entry_slots data page [e] ++ entry_slots data page es.
Proof. unfold entry_slots. cbn [omap list_omap]. by destruct (entry_width e). Qed.

Lemma entry_warnings_cons e es : entry_warnings (e :: es) = (entry_warnings [e] + entry_warnings es)%nat.
Proof. unfold entry_warnings. rewrite !(filter_cons _ e). by destruct (decide _). Qed.

Lemma relocated_app s1 s2 b : relocated delta (s1 ++ s2) b = relocated delta s2 (relocated delta s1 b).
Proof. unfold relocated. by rewrite foldl_app. Qed.

(** The directory is not relocated itself. *)
Lemma directory_kept slots b a n :
  Forall (slot_apart lo hi) slots → lo ≤ a → a + Z.of_nat n ≤ hi → rd_le (relocated delta slots b) n a = rd_le b n a.
Proof.
  intros Hap Hlo Hhi. apply rd_le_ext. intros x Hx. apply relocated_outside. intros slot Hs.
  rewrite Forall_forall in Hap. unfold in_slot. destruct (Hap slot Hs); lia.
Qed.

Lemma directory_read s n a :
  (∀ x, lo ≤ x < hi → can_read (protection (ps_vm s) x) = true) → 0 ≤ lo → hi < 2 ^ 64 → lo ≤ a → a + Z.of_nat n ≤ hi →
  mem_read n a s = Ret (rd_le (ps_bytes s) n a).
Proof.
  intros Hread H0 H64 Hlo Hhi. unfold mem_read, can_access.
  rewrite (proj2 (Z.leb_le 0 a)), (proj2 (Z.leb_le (a + Z.of_nat n) _)) by lia. cbn [andb].
  assert (forallb (λ i, can_read (protection (ps_vm s) (a + Z.of_nat i))) (seq 0 n) = true) as ->; [|done].
  apply forallb_forall. intros i Hi%in_seq. apply Hread. lia.
Qed.

Lemma reloc_entries_ok page es : ∀ a s,
  bytes_ok (ps_bytes s) → (∀ x, lo ≤ x < hi → can_read (protection (ps_vm s) x) = true) → 0 ≤ lo → hi < 2 ^ 64 →
  lo ≤ a → a + 2 * Z.of_nat (length es) ≤ hi →
  (∀ i e, es !! i = Some e → rd_le (ps_bytes s) 2 (a + 2 * Z.of_nat i) = e) →
  Forall (entry_ok data page (ps_vm s)) es → Forall (slot_apart lo hi) (entry_slots data page es) →
  ∃ b', reloc_entries (length es) a (u64 (data + page)) delta s = Ret (reloc_done b' (entry_warnings es) s) ∧ bytes_ok b' ∧
    ∀ x, b' x = relocated delta (entry_slots data page es) (ps_bytes s) x.
Proof.
  induction es as [|e es IH]; intros a s Hb Hread H0 H64 Hlo Hhi Hes Hok Hap; cbn [reloc_entries length].
  - exists (ps_bytes s). split; [|done]. f_equal. symmetry. apply reloc_done_nothing.
  - cbn [length] in Hhi. apply Forall_cons in Hok as [He Hok]. rewrite entry_slots_cons in Hap. apply Forall_app in Hap as [Hap1 Hap2].
    rewrite directory_read by (done || lia). ocbn.
    pose proof (Hes 0%nat e eq_refl) as H1. rewrite Z.add_0_r in H1. rewrite H1.
    destruct (entry_ok_run page _ e _ s eq_refl eq_refl Hb He) as (b1 & Hrun1 & Hb1 & Heq1). rewrite Hrun1. ocbn.
    destruct (IH (a + 2) (reloc_done b1 (entry_warnings [e]) s)) as (b2 & Hrun2 & Hb2 & Heq2); try done; try lia.
    + intros i e' Hi. cbn [ps_bytes reloc_done]. rewrite (rd_le_ext b1 _ 2 _ (λ x _, Heq1 x)).
      apply lookup_lt_Some in Hi as Hlt. rewrite directory_kept by (done || lia).
      rewrite <- (Hes (S i) e' Hi). f_equal. lia.
    + exists b2. split; [by rewrite Hrun2, reloc_done_done, <- entry_warnings_cons|]. split; [done|]. intros x. rewrite Heq2, entry_slots_cons, relocated_app.
      apply relocated_ext. exact Heq1.
Qed.
Lemma reloc_blocks_ok blocks : ∀ a s fuel,
  bytes_ok (ps_bytes s) → (∀ x, lo ≤ x < hi → can_read (protection (ps_vm s) x) = true) → 0 ≤ lo → hi < 2 ^ 64 →
  lo ≤ a → a + blocks_size blocks = hi → blocks_at (ps_bytes s) a blocks → (length blocks ≤ fuel)%nat →
  Forall (λ blk, Forall (entry_ok data (bk_page blk) (ps_vm s)) (bk_entries blk)) blocks →
  Forall (slot_apart lo hi) (block_slots data blocks) →
  ∃ b', reloc_blocks fuel data a hi delta s = Ret (Some (reloc_done b' (block_warnings blocks) s)) ∧
    ∀ x, b' x = relocated delta (block_slots data blocks) (ps_bytes s) x.
Proof.
  induction blocks as [|[page es] blocks IH]; intros a s fuel Hb Hread H0 H64 Hlo Hhi Hat Hfuel Hok Hap; cbn [blocks_size] in Hhi.
  - exists (ps_bytes s). split; [|done]. rewrite Z.add_0_r in Hhi. subst a.
    destruct fuel; cbn [reloc_blocks]; rewrite Z.ltb_irrefl; f_equal; f_equal; symmetry; apply reloc_done_nothing.
  - destruct fuel as [|fuel]; [cbn in Hfuel; lia|]. cbn [length] in Hfuel. cbn [reloc_blocks].
    destruct Hat as (Hpage & Hsize & Hes & Hat). cbn [bk_page bk_entries] in *.
    apply Forall_cons in Hok as [Hok1 Hok]. cbn [bk_page bk_entries] in Hok1. apply Forall_app in Hap as [Hap1 Hap2].
    cbn [bk_page bk_entries] in Hap1.
    pose proof (rd_le_range _ 4 Hb (a + 4)) as Hrange. rewrite Hsize in Hrange. unfold block_size in *. cbn [bk_entries] in *.
    assert (0 ≤ blocks_size blocks) as Hnn.
    { clear. induction blocks as [|blk blocks IH]; cbn [blocks_size]; [lia|]. unfold block_size. lia. }
    rewrite (proj2 (Z.ltb_lt a hi)) by lia. rewrite (directory_read s 4 (a + 4)) by (done || lia). ocbn. rewrite Hsize.
    rewrite (directory_read s 4 a) by (done || lia). ocbn. rewrite Hpage.
    assert (Z.to_nat (i32 (u64 (8 + 2 * Z.of_nat (length es) - 8) / 2)) = length es) as ->.
    { rewrite u64_small by lia. replace (8 + 2 * Z.of_nat (length es) - 8) with (Z.of_nat (length es) * 2) by lia.
      rewrite Z.div_mul by lia. unfold i32. rewrite Z.mod_small by lia. lia. }
    destruct (reloc_entries_ok page es (a + 8) s Hb Hread H0 H64) as (b1 & Hrun1 & Hb1 & Heq1); try done; try lia.
    rewrite Hrun1. ocbn. rewrite (directory_read (reloc_done b1 _ s) 4 (a + 4)) by (done || lia). ocbn. cbn [ps_bytes reloc_done].
    rewrite (rd_le_ext b1 _ 4 _ (λ x _, Heq1 x)), directory_kept, Hsize by (done || lia).
    rewrite u64_small by lia.
    assert (∀ k b, (∀ x, b x = relocated delta (entry_slots data page es) (ps_bytes s) x) → lo ≤ k → k + blocks_size blocks = hi →
      blocks_at (ps_bytes s) k blocks → blocks_at b k blocks) as Hkeep.
    { clear -Hap1. induction blocks as [|[p es'] blocks IH]; intros k b Heq Hk Hkh; [done|]. cbn [blocks_at blocks_size bk_page bk_entries] in *.
      unfold block_size in *. cbn [bk_entries] in *.
      assert (0 ≤ blocks_size blocks) as Hnn.
      { clear. induction blocks as [|blk blocks IH]; cbn [blocks_size]; [lia|]. unfold block_size. lia. }
      intros (H1 & H2 & H3 & H4). assert (∀ n y, lo ≤ y → y + Z.of_nat n ≤ hi → rd_le b n y = rd_le (ps_bytes s) n y) as Hrd.
      { intros n y Hy1 Hy2. rewrite (rd_le_ext b _ n y (λ x _, Heq x)). by apply directory_kept. }
      split_and!; [rewrite Hrd by lia; done|rewrite Hrd by lia; done| |apply IH; [done|lia|lia|done]].
      intros i e Hi. apply lookup_lt_Some in Hi as Hlt. rewrite Hrd by lia. by apply H3. }
    destruct (IH (a + (8 + 2 * Z.of_nat (length es))) (reloc_done b1 (entry_warnings es) s) fuel) as (b2 & Hrun2 & Heq2); try done; try lia.
    { by apply Hkeep; try done; lia. }
    exists b2. split; [by rewrite Hrun2, reloc_done_done|]. intros x. rewrite Heq2. unfold block_slots. cbn [mbind list_bind bk_page bk_entries].
    rewrite relocated_app. apply relocated_ext. exact Heq1.
Qed.
End relocation.

(** C39: Relocation.  When the relocation directory is a sequence of blocks that is not
    relocated itself, and the places it names can be read and written, the loop over it
    ends.  Every place of eight bytes (DIR64), apart from the others, holds the number that
    it held plus the distance; every place of two bytes (HIGH and LOW alike) the number that
    it held plus the low 16 bits of the distance; every other byte is what it was.  The
    places of four bytes (HIGHLOW) are among those: they are not relocated, whatever the
    distance.  An entry of no type that the loader knows changes nothing but for a warning
    in the log.  A block whose size is 0 is never left. *)
Theorem pe_relocate_exact data base dir blocks s :
  let dir_end := dir + blocks_size blocks in
  let delta := u64 (data - base) in
  let slots := block_slots data blocks in
  bytes_ok (ps_bytes s) → 0 ≤ dir → dir_end < 2 ^ 64 →
  (∀ x, dir ≤ x < dir_end → can_read (protection (ps_vm s) x) = true) → blocks_at (ps_bytes s) dir blocks →
  Forall (λ blk, Forall (entry_ok data (bk_page blk) (ps_vm s)) (bk_entries blk)) blocks →
  Forall (slot_apart dir dir_end) slots → slots_apart slots →
  (∀ fuel, (length blocks ≤ fuel)%nat →
   ∃ b', reloc_blocks fuel data dir dir_end delta s = Ret (Some (reloc_done b' (block_warnings blocks) s)) ∧
     (∀ n slot, (n, slot) ∈ slots → rd_le b' n slot = (rd_le (ps_bytes s) n slot + delta) mod 256 ^ Z.of_nat n) ∧
     ∀ x, (∀ n slot, (n, slot) ∈ slots → ¬ (slot ≤ x < slot + Z.of_nat n)) → b' x = ps_bytes s x) ∧
  (∀ a hi, dir ≤ a → a + 8 ≤ dir_end → a < hi → rd_le (ps_bytes s) 4 (a + 4) = 0 →
   ∀ fuel, reloc_blocks fuel data a hi delta s = Ret None).
Proof.
  intros dir_end delta slots Hb H0 H64 Hread Hat Hok Hap Hdis. split.
  - intros fuel Hfuel.
    destruct (reloc_blocks_ok data delta dir dir_end blocks dir s fuel) as (b' & Hrun & Heq); try done; try lia.
    exists b'. split; [exact Hrun|]. split.
    + intros n slot (i & Hi)%list_elem_of_lookup. rewrite (rd_le_ext b' _ n _ (λ x _, Heq x)).
      exact (relocated_slot delta slots _ i (n, slot) Hdis Hi).
    + intros x Hx. rewrite Heq. apply relocated_outside. intros [n slot]. apply Hx.
  - intros a hi Ha Hah Hlt Hz fuel. induction fuel as [|fuel IH]; cbn [reloc_blocks]; rewrite (proj2 (Z.ltb_lt a hi)) by lia; [done|].
    rewrite (directory_read dir dir_end s 4 (a + 4)) by (done || lia). ocbn. rewrite Hz.
    rewrite (directory_read dir dir_end s 4 a) by (done || lia). ocbn.
    assert (Z.to_nat (i32 (u64 (0 - 8) / 2)) = 0%nat) as -> by by vm_compute. cbn [reloc_entries]. ocbn.
    rewrite (directory_read dir dir_end s 4 (a + 4)) by (done || lia). ocbn. rewrite Hz, Z.add_0_r, u64_small by lia. exact IH.
Qed.

(** A program that was linked for 0x20000 and is at 0x18000, with one page that can be
    written; a block at 0x18100 for the page at 0x200 of it: eight bytes at 0x10, four
    bytes at 0x40, two at 0x20 and at 0x30, a type that is not known, and nothing. *)
Definition demo_pe_bytes (x : Z) : Z :=
  if (0x18100 <=? x) && (x <? 0x18114) then
    default 0 ([0; 2; 0; 0; 20; 0; 0; 0; 0x10; 0xA0; 0x40; 0x30; 0x20; 0x10; 0x30; 0x20; 0; 0x40; 0; 0] !! Z.to_nat (x - 0x18100))
  else if x =? 0x18211 then 0x85 else if x =? 0x18212 then 2 else 0.
Definition demo_pspace : pspace :=
  Pspace (Heap ∅ []) ∅ (Wvm [] [(0x18000, 0x1000)] [(0x18000, 0x1000, PAGE_READWRITE)] [] 0 []) demo_pe_bytes [] [] [] 0.
Definition demo_pe_blocks : list pe_block := [PeBlock 0x200 [0xA010; 0x3040; 0x1020; 0x2030; 0x4000; 0]].

Lemma pe_relocate_exact_witness :
  ∃ b', reloc_blocks 1 0x18000 0x18100 0x18114 (u64 (0x18000 - 0x20000)) demo_pspace = Ret (Some (reloc_done b' 1 demo_pspace)) ∧
    rd_le b' 8 0x18210 = 0x20500 ∧ rd_le b' 2 0x18220 = 0x8000 ∧ rd_le b' 2 0x18230 = 0x8000 ∧ b' 0x18240 = 0.
Proof.
  destruct (pe_relocate_exact 0x18000 0x20000 0x18100 demo_pe_blocks demo_pspace) as [Hrun _].
  - intros a. cbn. unfold demo_pe_bytes. destruct ((0x18100 <=? a) && (a <? 0x18114)).
    + destruct (_ !! _) as [v|] eqn:E; cbn; [|lia]. apply list_elem_of_lookup_2 in E.
      repeat (apply elem_of_cons in E as [->|E]; [lia|]). by apply elem_of_nil in E.
    + destruct (a =? 0x18211); [lia|]. destruct (a =? 0x18212); lia.
  - lia.
  - by vm_compute.
  - change (0x18100 + blocks_size demo_pe_blocks) with 0x18114. intros x Hx. unfold protection. cbn.
    by rewrite (proj2 (Z.leb_le 0x18000 x)), (proj2 (Z.ltb_lt x (0x18000 + 0x1000))) by lia.
  - split_and!; [by vm_compute..| |done]. intros i e Hi.
    destruct i as [|[|[|[|[|[|i]]]]]]; cbn in Hi; [injection Hi as <-; by vm_compute..|done].
  - apply Forall_singleton. repeat (apply Forall_cons; split); [..|constructor]; intros n [Hn|[Ht ->]];
      first [discriminate Hn|discriminate Ht|injection Hn as <-; split; by vm_compute|split; by vm_compute].
  - change (block_slots 0x18000 demo_pe_blocks) with [(8%nat, 0x18210); (2%nat, 0x18220); (2%nat, 0x18230)].
    repeat (apply Forall_cons; split); [..|constructor]; right; by vm_compute.
  - change (block_slots 0x18000 demo_pe_blocks) with [(8%nat, 0x18210); (2%nat, 0x18220); (2%nat, 0x18230)].
    intros [|[|[|i]]] [|[|[|j]]] x y Hi Hj Hne; cbn in Hi, Hj; try done; injection Hi as <-; injection Hj as <-; cbn; lia.
  - change (block_slots 0x18000 demo_pe_blocks) with [(8%nat, 0x18210); (2%nat, 0x18220); (2%nat, 0x18230)] in Hrun.
    destruct (Hrun 1%nat (le_n 1)) as (b' & Hb' & Hslots & Hrest). exists b'. split; [exact Hb'|]. split_and!.
    + rewrite Hslots; [by vm_compute|]. by left.
    + rewrite Hslots; [by vm_compute|]. by right; left.
    + rewrite Hslots; [by vm_compute|]. by right; right; left.
    + rewrite Hrest; [by vm_compute|]. intros n slot Hs.
      clear -Hs.
      repeat (apply elem_of_cons in Hs as [[= -> ->]|Hs]; [lia|]). destruct (not_elem_of_nil _ Hs).
Defined.
