(* ===== verification/WinContext.v ===== *)
(** * Register contexts on Windows (prs/pal/windows/context.c)

    Context.v has those of POSIX; the processor is that of Cpu.v.  A context is the
    [CONTEXT] structure of the system, with its SSE state inside.  There is no red zone, the
    registers of the arguments are others, and the caller of a function leaves room on the
    stack for the first four of them. *)

From S2P Require Import Prelude Cpu.

(** ** Layout of [CONTEXT] (winnt.h) *)

Definition off_reg (r : reg) : Z :=
  match r with
  | RAX => 0x78 | RCX => 0x80 | RDX => 0x88 | RBX => 0x90 | RSP => 0x98 | RBP => 0xA0 | RSI => 0xA8 | RDI => 0xB0
  | R8 => 0xB8 | R9 => 0xC0 | R10 => 0xC8 | R11 => 0xD0 | R12 => 0xD8 | R13 => 0xE0 | R14 => 0xE8 | R15 => 0xF0
  end.
Definition off_rip : Z := 0xF8.
Definition off_mxcsr : Z := 0x34.
Definition off_eflags : Z := 0x44.
Definition off_xmm (i : nat) : Z := 0x1A0 + 16 * Z.of_nat i.
(** [sizeof(struct prs_pal_context)] *)
Definition sizeof_context : Z := 1232.
(** [offsetof(CONTEXT, VectorRegister)] *)
Definition PRS_CONTEXT_PARTIAL_SIZE : Z := 0x300.

(** ** The text *)

Definition asm_return : list instr :=
  [ Push RBP; MovRR RSP RBP;
    (* _prs_pal_context_return_trampoline *)
    MovI 0 RCX; MovRR RBP RDX; AddI 16 RDX; Call prs_pal_context_swap; Pop RBP; Retq ].

(** The registers that are saved after the instruction pointer. *)
Definition saved_regs : list reg := [RBP; RSI; RDI; RBX; R12; R13; R14; R15].

Definition asm_save : list instr :=
  [ Test RCX RCX; Jz prs_pal_context_swap_restore;
    MovRM RSP (off_reg RSP) RCX;
    MovLabel prs_pal_context_swap_return RAX; MovRM RAX off_rip RCX ] ++
  ((λ r, MovRM r (off_reg r) RCX) <$> saved_regs) ++
  ((λ i, MovapsRM i (off_xmm i) RCX) <$> seq 6 10) ++
  [ Pushfq; Pop RAX; MovRM32 RAX off_eflags RCX ].

(** The registers that are loaded from the context while [rdx] points to it. *)
Definition restored_regs : list reg := [RBP; RSI; RDI; RCX; R8; R9; R10; R11; R12; R13; R14; R15].

Definition asm_restore : list instr :=
  [ Test RDX RDX; Jz prs_pal_context_swap_return ] ++
  ((λ r, MovMR (off_reg r) RDX r) <$> restored_regs) ++
  [ Ldmxcsr off_mxcsr RDX ] ++
  ((λ i, MovapsMR (off_xmm i) RDX i) <$> seq 0 16) ++
  [ MovMR (off_reg RSP) RDX RAX;
    MovMR off_rip RDX RBX; MovRM RBX (-8) RAX;
    Xor RBX RBX; MovMR32 off_eflags RDX RBX; MovRM RBX (-16) RAX;
    MovMR (off_reg RDX) RDX RBX; MovRM RBX (-24) RAX;
    MovMR (off_reg RAX) RDX RAX; MovMR (off_reg RBX) RDX RBX;
    MovMR (off_reg RSP) RDX RDX; SubI 24 RDX; MovRR RDX RSP;
    Pop RDX; Popfq; Retq ].

Definition code : list instr := asm_return ++ asm_save ++ asm_restore.

(** The index in the text of the instruction after a label; there is no [rip_ref]. *)
Definition label_pos (l : label) : nat :=
  match l with
  | _prs_pal_context_return => 0
  | _prs_pal_context_return_trampoline => 2
  | prs_pal_context_swap | rip_ref => length asm_return
  | prs_pal_context_swap_restore => length asm_return + length asm_save
  | prs_pal_context_swap_return => length code
  end.

#[export] Instance windows_text : Text := {| text := code; label_index := label_pos |}.

(** ** The C functions *)

Definition prs_pal_context_copy (dst src : Z) (mem : memory) : outcome memory := memcpy dst src sizeof_context mem.

(** The registers of the first arguments. *)
Definition arg_regs : list reg := [RCX; RDX; R8; R9].

(** The [n] places for arguments from number [i] on: all arguments are on the stack, the
    first ones in registers, too. *)
Fixpoint fill_args (n i : nat) (args : list Z) (new : reg → Z) (psp : Z) (mem : memory) :
    outcome ((reg → Z) * Z * memory) :=
  match n with
  | O => Ret (new, psp, mem)
  | S n =>
      match args with
      | arg :: args =>
          let new := match arg_regs !! i with Some r => upd_reg r arg new | None => new end in
          mem ← wr mem psp arg;
          fill_args n (S i) args new (psp + 8) mem
      | [] => fill_args n (S i) [] new (psp + 8) mem
      end
  end.

(** The stack pointer of the interrupted code, moved below a copy of its context; whether
    the copy had to be aligned. *)
Definition context_room (rip sp : Z) : Z * bool :=
  if truthy rip then
    let sp := u64 (sp - PRS_CONTEXT_PARTIAL_SIZE) in
    let context_align := truthy (Z.land sp 15) in
    (if context_align then u64 (sp - 8) else sp, context_align)
  else (sp, false).

Section context.
Context `{!TextLayout}.

(** The data on the stack from [psp] on: the registers of the arguments, and the frame
    pointer of the call. *)
Definition push_call (context psp : Z) (stack_argc : nat) (frame_align : bool) (args : list Z) (mem : memory) :
    outcome ((reg → Z) * Z * memory) :=
  rip ← rd mem (context + off_rip);
  mem ← wr mem psp (if truthy rip then address (label_pos _prs_pal_context_return_trampoline) else 0);
  let psp := psp + 8 in
  new ← read_regs off_reg context arg_regs mem;
  '(new, psp, mem) ← fill_args stack_argc 0 args new psp mem;
  let psp := if frame_align then psp + 8 else psp in
  let new_rbp := psp in
  rbp ← reg_of off_reg context mem RBP;
  mem ← wr mem psp rbp;
  let psp := psp + 8 in
  rip ← rd mem (context + off_rip);
  mem ← wr mem psp rip;
  let psp := psp + 8 in
  mem ← (if truthy rip then memcpy psp context PRS_CONTEXT_PARTIAL_SIZE mem else Ret mem);
  Ret (new, new_rbp, mem).

Definition prs_pal_context_add_internal (context function : Z) (args : list Z) (mem : memory) : outcome memory :=
  let argc := length args in
  let stack_argc := if (4 <? argc)%nat then argc else 4%nat in
  sp ← reg_of off_reg context mem RSP;
  rip ← rd mem (context + off_rip);
  let (sp, context_align) := context_room rip sp in
  let (sp, frame_align) := call_frame sp (Z.of_nat stack_argc) in
  '(new, new_rbp, mem) ← push_call context sp stack_argc frame_align args mem;
  mem ← wr mem (context + off_rip) function;
  mem ← wr mem (context + off_reg RBP) new_rbp;
  mem ← wr mem (context + off_reg RSP) sp;
  write_regs off_reg context arg_regs new mem.

Definition prs_pal_context_make (context stack function : Z) (args : list Z) (mem : memory) : outcome memory :=
  mem ← wr32 mem (context + off_mxcsr) 0x1f80;
  mem ← wr mem (context + off_rip) 0;
  mem ← wr mem (context + off_reg RSP) stack;
  mem ← wr mem (context + off_reg RBP) 0;
  prs_pal_context_add_internal context function args mem.

Definition prs_pal_context_add (context function : Z) (args : list Z) (mem : memory) : outcome memory :=
  prs_pal_context_add_internal context function args mem.

Definition prs_pal_context_is_using_stack (context stack stack_size : Z) (mem : memory) : outcome bool :=
  sp ← reg_of off_reg context mem RSP;
  Ret ((stack <=? sp) && (sp <? u64 (stack + stack_size))).

Definition prs_pal_context_get_ip (context : Z) (mem : memory) : outcome Z := rd mem (context + off_rip).
End context.

(** ** Offsets *)

Lemma win_off_reg_range r : 0x78 ≤ off_reg r ≤ 0xF0 ∧ off_reg r mod 8 = 0.
Proof. by destruct r. Qed.

Lemma win_off_reg_pos r : 0 ≤ off_reg r ∧ off_reg r mod 8 = 0.
Proof. pose proof (win_off_reg_range r). lia. Qed.

Lemma win_off_reg_inj r r' : off_reg r = off_reg r' → r = r'.
Proof. by destruct r, r'. Qed.

Lemma off_xmm_at i : off_xmm i = 0x1A0 + 16 * Z.of_nat i.
Proof. done. Qed.

(** The part of a context that the assembly uses ends behind [xmm15]. *)
Definition context_end : Z := 0x2A0.

Section exec.
Context `{!ArithFlags, !Prologue 32, !TextLayout}.

(** *** Restoring *)

(** Memory holds a context, and what it says. *)
Record ctx_holds (mem : memory) (c : Z) (regs : reg → Z) (rip efl mxcsr : Z) (xmm : nat → Z * Z) : Prop := CtxHolds {
  ch_range : 0 < c ∧ c + PRS_CONTEXT_PARTIAL_SIZE ≤ 2 ^ 64 ∧ c mod 16 = 0;
  ch_regs : ∀ r, mem !! (c + off_reg r) = Some (regs r);
  ch_rip : mem !! (c + off_rip) = Some rip;
  ch_efl : ∃ w, mem !! (c + off_eflags - 4) = Some w ∧ w / 2 ^ 32 = efl;
  ch_mxcsr : ∃ w, mem !! (c + off_mxcsr - 4) = Some w ∧ w / 2 ^ 32 = mxcsr;
  ch_xmm : ∀ i, (i < 16)%nat → rd128 mem (c + off_xmm i) = Ret (xmm i)
}.

Lemma win_ctx_holds_same mem mem' c regs rip efl mxcsr xmm :
  ctx_holds mem c regs rip efl mxcsr xmm → (∀ a, c ≤ a < c + context_end → mem' !! a = mem !! a) →
  ctx_holds mem' c regs rip efl mxcsr xmm.
Proof.
  intros [Hc Hr Hrip (w & Hw & Hefl) (x & Hx & Hm) Hxmm] Hsame. unfold context_end in *.
  split; [done|..].
  - intros r. pose proof (win_off_reg_range r). rewrite Hsame by lia. apply Hr.
  - rewrite Hsame by (unfold off_rip; lia). done.
  - exists w. rewrite Hsame by (unfold off_eflags; lia). done.
  - exists x. rewrite Hsame by (unfold off_mxcsr; lia). done.
  - intros i Hi. rewrite <- (Hxmm i Hi). unfold rd128, rd. rewrite !Hsame by (unfold off_xmm; lia). done.
Qed.

Lemma rd32_high mem a w : a mod 8 = 4 → mem !! (a - 4) = Some w → rd32 mem a = Ret (w / 2 ^ 32).
Proof. intros Ha Hw. unfold rd32. rewrite Ha. cbn [Z.eqb Pos.eqb]. by rewrite (rd_ok _ _ w) by (done || aligned). Qed.

Definition restore_tail : list instr :=
  [ MovMR (off_reg RSP) RDX RAX;
    MovMR off_rip RDX RBX; MovRM RBX (-8) RAX;
    Xor RBX RBX; MovMR32 off_eflags RDX RBX; MovRM RBX (-16) RAX;
    MovMR (off_reg RDX) RDX RBX; MovRM RBX (-24) RAX;
    MovMR (off_reg RAX) RDX RAX; MovMR (off_reg RBX) RDX RBX;
    MovMR (off_reg RSP) RDX RDX; SubI 24 RDX; MovRR RDX RSP;
    Pop RDX; Popfq ].

Lemma win_run_restore_tail pc mem0 c regs rip efl mxcsr xmm m :
  ctx_holds mem0 c regs rip efl mxcsr xmm → m_mem m = mem0 → m_regs m RDX = c →
  regs RSP mod 8 = 0 → 24 ≤ regs RSP < 2 ^ 64 → mapped mem0 (regs RSP - 24) 3 →
  (c + context_end ≤ regs RSP - 24 ∨ regs RSP ≤ c) →
  ∃ m', run_block pc restore_tail m = Ret m' ∧
    m_mem m' = below_stack (regs RSP) rip efl (regs RDX) mem0 ∧
    m_xmm m' = m_xmm m ∧ m_mxcsr m' = m_mxcsr m ∧ Z.land (m_flags m') USER_FLAGS = Z.land efl USER_FLAGS ∧
    m_regs m' RSP = regs RSP - 8 ∧
    ∀ r, r ≠ RSP → m_regs m' r = if bool_decide (r ∈ [RAX; RBX; RDX]) then regs r else m_regs m r.
Proof.
  intros [Hrange Hregs Hrip (w & Hefl & Hw) _ _] Hmem Hrdx Hs8 Hs Hmap Hdis. set (s := regs RSP) in *.
  unfold context_end, PRS_CONTEXT_PARTIAL_SIZE in *.
  assert (∀ mem r, (∀ x, ¬ (s - 24 ≤ x < s) → mem !! x = mem0 !! x) → rd mem (u64 (c + off_reg r)) = Ret (regs r)) as Hload.
  { intros mem r Hx. pose proof (win_off_reg_range r) as Hr. rewrite u64_small by lia. apply rd_ok; [aligned|]. rewrite Hx by lia. apply Hregs. }
  pose proof (Hmap 0 ltac:(lia)) as Hm24. pose proof (Hmap 1 ltac:(lia)) as Hm16. pose proof (Hmap 2 ltac:(lia)) as Hm8.
  replace (s - 24 + 8 * 0) with (s - 24) in Hm24 by lia. replace (s - 24 + 8 * 1) with (s - 16) in Hm16 by lia.
  replace (s - 24 + 8 * 2) with (s - 8) in Hm8 by lia.
  assert (u64 (s + -8) = s - 8) as E8 by (rewrite u64_small; lia).
  assert (u64 (s + -16) = s - 16) as E16 by (rewrite u64_small; lia).
  assert (u64 (s + -24) = s - 24) as E24 by (rewrite u64_small; lia).
  unfold restore_tail. subst mem0. eexists. split.
  { rewrite (blk_load _ _ _ _ _ _ s) by (unfold ea; rewrite Hrdx; by apply Hload).
    rewrite (blk_load _ _ _ _ _ _ rip)
      by (unfold ea; mstate; rewrite Hrdx, u64_small by (unfold off_rip; lia); apply rd_ok; [unfold off_rip; aligned|done]).
    rewrite (blk_store _ _ _ _ _ _ (s - 8)); [|unfold ea; mstate; done|aligned|done]. mstate.
    rewrite (blk_seq _ (Xor RBX RBX) _ _ _ eq_refl). mstate. rewrite Z.lxor_nilpotent.
    rewrite (blk_load32 _ _ _ _ _ _ efl).
    2:{ unfold ea. mstate. rewrite Hrdx, u64_small by (unfold off_eflags; lia).
        rewrite (rd32_high _ _ w); [by rewrite Hw|unfold off_eflags; aligned|].
        rewrite lookup_insert_ne; [done|unfold off_eflags; lia]. }
    rewrite (blk_store _ _ _ _ _ _ (s - 16)); [|unfold ea; mstate; done|aligned|mstate; by rewrite lookup_insert_ne by lia]. mstate.
    rewrite (blk_load _ _ _ _ _ _ (regs RDX)).
    2:{ unfold ea. mstate. rewrite Hrdx. apply Hload. intros x Hx. by rewrite !lookup_insert_ne by lia. }
    rewrite (blk_store _ _ _ _ _ _ (s - 24)); [|unfold ea; mstate; done|aligned|mstate; by rewrite !lookup_insert_ne by lia]. mstate.
    assert (∀ x, ¬ (s - 24 ≤ x < s) → below_stack s rip efl (regs RDX) (m_mem m) !! x = m_mem m !! x) as Hb.
    { intros x Hx. unfold below_stack. by rewrite !lookup_insert_ne by lia. }
    fold (below_stack s rip efl (regs RDX) (m_mem m)).
    rewrite (blk_load _ _ _ _ _ _ (regs RAX)) by (unfold ea; mstate; rewrite Hrdx; by apply Hload). mstate.
    rewrite (blk_load _ _ _ _ _ _ (regs RBX)) by (unfold ea; mstate; rewrite Hrdx; by apply Hload). mstate.
    rewrite (blk_load _ _ _ _ _ _ s) by (unfold ea; mstate; rewrite Hrdx; by apply Hload). mstate.
    rewrite (blk_seq _ (SubI 24 RDX) _ _ _ eq_refl). mstate. rewrite (u64_small (s - 24)) by lia.
    rewrite (blk_seq _ (MovRR RDX RSP) _ _ _ eq_refl). mstate.
    rewrite (blk_pop _ _ _ _ (regs RDX)) by (mstate; apply rd_ok; [aligned|apply lookup_insert_eq]). mstate.
    replace (u64 (s - 24 + 8)) with (s - 16) by (rewrite u64_small; lia).
    rewrite (blk_popfq _ _ _ efl).
    2:{ mstate. apply rd_ok; [aligned|]. unfold below_stack. rewrite lookup_insert_ne by lia. apply lookup_insert_eq. }
    mstate. replace (u64 (s - 16 + 8)) with (s - 8) by (rewrite u64_small; lia).
    reflexivity. }
  mstate. split_and!; [done..| | |].
  - apply flags_restored.
  - done.
  - intros r Hr. destruct r; mstate; try done. all: try by rewrite bool_decide_true by set_solver. all: try by rewrite bool_decide_false by set_solver.
Qed.

Lemma win_run_restore_head pc c m :
  m_regs m RDX = c → c ≠ 0 →
  run_block pc [Test RDX RDX; Jz prs_pal_context_swap_return] m = Ret (arith c m).
Proof.
  intros Hrdx Hc. rewrite (blk_seq _ (Test RDX RDX) _ _ _ eq_refl), Hrdx, Z.land_diag.
  rewrite (blk_seq _ (Jz _) _ _ (arith c m)); [done|]. cbn [exec_instr]. mstate.
  by rewrite arith_flags_zf, (proj2 (Z.eqb_neq c 0)).
Qed.

Lemma run_ldmxcsr pc mem c regs rip efl mxcsr xmm m :
  ctx_holds mem c regs rip efl mxcsr xmm → m_mem m = mem → m_regs m RDX = c →
  run_block pc [Ldmxcsr off_mxcsr RDX] m = Ret (set_mxcsr mxcsr m).
Proof.
  intros [Hrange _ _ _ (w & Hw & Hm) _] <- Hrdx. unfold PRS_CONTEXT_PARTIAL_SIZE in *.
  rewrite (blk_seq _ (Ldmxcsr _ _) _ _ (set_mxcsr mxcsr m)); [done|].
  cbn [exec_instr]. unfold ea. rewrite Hrdx, u64_small by (unfold off_mxcsr; lia).
  rewrite (rd32_high _ _ w) by (done || unfold off_mxcsr; aligned). by rewrite Hm.
Qed.

Lemma win_exec_restore c regs rip efl mxcsr xmm m fuel :
  ctx_holds (m_mem m) c regs rip efl mxcsr xmm → m_regs m RDX = c →
  regs RSP mod 8 = 0 → 24 ≤ regs RSP < 2 ^ 64 → mapped (m_mem m) (regs RSP - 24) 3 →
  (c + context_end ≤ regs RSP - 24 ∨ regs RSP ≤ c) →
  ∃ m', exec (length asm_restore + fuel) (label_pos prs_pal_context_swap_restore) m = resume fuel rip m' ∧
    restored regs efl mxcsr xmm m' ∧ m_mem m' = below_stack (regs RSP) rip efl (regs RDX) (m_mem m).
Proof.
  intros Hc Hrdx Hs8 Hs Hmap Hdis. set (pc := label_pos prs_pal_context_swap_restore).
  pose proof (ch_range _ _ _ _ _ _ _ Hc) as Hcr. unfold PRS_CONTEXT_PARTIAL_SIZE in *.
  pose proof (win_run_restore_head pc c m Hrdx ltac:(lia)) as Hrun1. set (m1 := arith c m) in Hrun1.
  destruct (run_reg_loads off_reg RDX regs restored_regs (pc + 2) m1) as (m2 & Hrun2 & Hm2 & _ & _ & Hxm2 & Hr2).
  { unfold restored_regs. set_solver. }
  { intros r _. unfold m1. mstate. rewrite Hrdx. pose proof (win_off_reg_range r) as Hr.
    rewrite u64_small by lia. apply rd_ok; [aligned|apply (ch_regs _ _ _ _ _ _ _ Hc)]. }
  assert (m_regs m2 RDX = c) as Hrdx2 by (rewrite Hr2, bool_decide_false by (unfold restored_regs; set_solver); exact Hrdx).
  pose proof (run_ldmxcsr (pc + 14) (m_mem m) c regs rip efl mxcsr xmm m2 Hc Hm2 Hrdx2) as Hrun3.
  destruct (run_xmm_loads off_xmm RDX xmm (seq 0 16) (pc + 15) (set_mxcsr mxcsr m2)) as (m4 & Hrun4 & Hr4 & Hm4 & Hx4 & _ & Hxmm).
  { intros i Hi%elem_of_seq. cbn [m_regs m_mem set_mxcsr]. rewrite Hrdx2, Hm2, u64_small by (unfold off_xmm; lia). apply (ch_xmm _ _ _ _ _ _ _ Hc). lia. }
  cbn [m_regs m_mem m_mxcsr set_mxcsr] in Hr4, Hm4, Hx4.
  assert (m_mem m4 = m_mem m) as Em4 by (rewrite Hm4, Hm2; done).
  destruct (win_run_restore_tail (pc + 15 + 16) (m_mem m) c regs rip efl mxcsr xmm m4 Hc Em4) as
    (m5 & Hrun5 & Hm5 & Hx5 & Hxc5 & Hfl5 & Hsp5 & Hr5); [by rewrite Hr4|done..|].
  assert (run_block pc (take 46 asm_restore) m = Ret m5) as Hrun.
  { change (take 46 asm_restore) with ([Test RDX RDX; Jz prs_pal_context_swap_return] ++
      ((λ r, MovMR (off_reg r) RDX r) <$> restored_regs) ++ [Ldmxcsr off_mxcsr RDX] ++
      ((λ i, MovapsMR (off_xmm i) RDX i) <$> seq 0 16) ++ restore_tail).
    rewrite run_block_app, Hrun1. ocbn. cbn [length]. rewrite run_block_app, Hrun2. ocbn.
    rewrite run_block_app. at_index (pc + 14)%nat m2. rewrite Hrun3. ocbn. rewrite run_block_app.
    at_index (pc + 15)%nat (set_mxcsr mxcsr m2). rewrite Hrun4. ocbn. at_index (pc + 15 + 16)%nat m4. exact Hrun5. }
  pose proof (Hmap 2 ltac:(lia)) as Hm8. replace (regs RSP - 24 + 8 * 2) with (regs RSP - 8) in Hm8 by lia.
  exists (set_reg RSP (regs RSP) m5). split.
  - change (length asm_restore + fuel)%nat with (length (take 46 asm_restore) + S fuel)%nat.
    rewrite (exec_block _ pc m m5 (S fuel) eq_refl Hrun). cbn [exec].
    change (text !! (pc + length (take 46 asm_restore))%nat) with (Some Retq). cbn [exec_instr]. unfold pop.
    rewrite Hsp5, Hm5, (rd_ok _ _ rip); [|aligned|]; ocbn.
    + replace (u64 (regs RSP - 8 + 8)) with (regs RSP) by (rewrite u64_small; lia). done.
    + unfold below_stack. rewrite !lookup_insert_ne by lia. apply lookup_insert_eq.
  - split; [split|exact Hm5]; mstate; [|done|congruence|].
    + intros r. destruct (decide (r = RSP)) as [->|Hne]; [apply upd_reg_eq|]. rewrite upd_reg_ne, Hr5, Hr4, Hr2 by done.
      destruct r; try done; (rewrite bool_decide_true by (unfold restored_regs; set_solver)) || rewrite bool_decide_false by set_solver; try done.
      all: by rewrite bool_decide_true by (unfold restored_regs; set_solver).
    + intros i Hi. rewrite Hx5, Hxmm. by rewrite bool_decide_true by (apply elem_of_seq; lia).
Qed.

(** *** Calls on top of a context *)

Lemma win_fill_args_ok n : ∀ i args new psp mem,
  psp mod 8 = 0 → mapped mem psp (Z.of_nat n) → (length args ≤ n)%nat →
  ∃ new' mem', fill_args n i args new psp mem = Ret (new', psp + 8 * Z.of_nat n, mem') ∧
    changed_in psp (Z.of_nat n) mem mem' ∧
    (∀ j v, args !! j = Some v →
       mem' !! (psp + 8 * Z.of_nat j) = Some v ∧ ∀ r, arg_regs !! (i + j)%nat = Some r → new' r = v) ∧
    ∀ r, (∀ j, (j < length args)%nat → arg_regs !! (i + j)%nat ≠ Some r) → new' r = new r.
Proof.
  induction n as [|n IH]; intros i args new psp mem Hp Hm Hlen; cbn [fill_args].
  - destruct args; [|cbn in Hlen; lia]. exists new, mem. rewrite Z.add_0_r. by split_and!.
  - assert (is_Some (mem !! psp)) as Hs. { specialize (Hm 0). rewrite Z.add_0_r in Hm. apply Hm. lia. }
    assert (∀ mem', (∀ a, is_Some (mem !! a) → is_Some (mem' !! a)) → mapped mem' (psp + 8) (Z.of_nat n)) as Hm'.
    { intros mem' Hd k Hk. replace (psp + 8 + 8 * k) with (psp + 8 * (k + 1)) by lia. apply Hd, Hm. lia. }
    replace (psp + 8 * Z.of_nat (S n)) with (psp + 8 + 8 * Z.of_nat n) by lia.
    destruct args as [|arg args].
    + destruct (IH (S i) [] new (psp + 8) mem) as (new' & mem' & Hf & Hch & _ & Hnew); [aligned|by apply Hm'|cbn; lia|].
      exists new', mem'. split_and!; [done|eapply changed_weaken; [exact Hch|lia..]|done|].
      intros r _. apply Hnew. intros j Hj. cbn in Hj. lia.
    + cbn [length] in *. rewrite wr_ok by done. ocbn. pose proof (changed_insert psp arg mem Hs) as Hch0.
      set (new1 := match arg_regs !! i with Some r => upd_reg r arg new | None => new end).
      destruct (IH (S i) args new1 (psp + 8) (<[psp := arg]> mem)) as (new' & mem' & Hf & Hch & Hargs & Hnew);
        [aligned|apply Hm', Hch0|lia|].
      exists new', mem'. split_and!; [done|eapply changed_trans; (eapply changed_weaken; [eassumption|lia..])| |].
      * intros [|j] v Hv; cbn in Hv.
        -- injection Hv as ->. rewrite Z.add_0_r, Nat.add_0_r. split; [rewrite (proj1 Hch) by lia; apply lookup_insert_eq|].
           intros r Hr. rewrite Hnew; [unfold new1; rewrite Hr; apply upd_reg_eq|]. intros j Hj Hx.
           enough (i = S i + j)%nat by lia. apply (NoDup_lookup arg_regs _ _ r); [|done|done]. by apply (bool_decide_unpack _).
        -- destruct (Hargs j v Hv) as [H1 H2]. rewrite <- plus_n_Sm. split; [rewrite <- H1; f_equal; lia|exact H2].
      * intros r Hr. rewrite Hnew.
        -- unfold new1. destruct (arg_regs !! i) as [r'|] eqn:Hi; [|done]. apply upd_reg_ne. intros ->.
           apply (Hr 0%nat); [lia|]. by rewrite Nat.add_0_r.
        -- intros j Hj. specialize (Hr (S j)). rewrite <- plus_n_Sm in Hr. apply Hr. lia.
Qed.

Lemma win_context_room_ok rip s :
  rip ≠ 0 → s mod 8 = 0 → 776 ≤ s < 2 ^ 64 →
  ∃ t al, context_room rip s = (t, al) ∧ t mod 16 = 0 ∧ t = s - 768 - (if al : bool then 8 else 0).
Proof.
  intros Hrip Hs8 Hs. unfold context_room, PRS_CONTEXT_PARTIAL_SIZE.
  rewrite (proj2 (truthy_true rip)) by done. rewrite (u64_small (s - 0x300)), land15 by lia.
  exists (if truthy ((s - 0x300) mod 16) then s - 768 - 8 else s - 768), (truthy ((s - 0x300) mod 16)).
  unfold truthy. destruct (Z.eqb_spec ((s - 0x300) mod 16) 0); cbn [negb].
  - split_and!; [done|aligned|lia].
  - split_and!; [|aligned|lia]. rewrite u64_small by lia. done.
Qed.

(** A copy of a context is a context. *)
Lemma copy_context_ok mem c psp regs rip efl mxcsr xmm :
  ctx_holds mem c regs rip efl mxcsr xmm → 0 < psp → psp + PRS_CONTEXT_PARTIAL_SIZE ≤ 2 ^ 64 → psp mod 16 = 0 →
  mapped mem psp 96 → mapped mem c 96 → (c + PRS_CONTEXT_PARTIAL_SIZE ≤ psp ∨ psp + PRS_CONTEXT_PARTIAL_SIZE ≤ c) →
  ∃ mem', memcpy psp c PRS_CONTEXT_PARTIAL_SIZE mem = Ret mem' ∧ changed_in psp 96 mem mem' ∧
    ctx_holds mem' psp regs rip efl mxcsr xmm.
Proof.
  intros [Hcr Hr Hrip (w & Hw & Hefl) (x & Hx & Hm) Hxmm] Hp0 Hp Hp16 Hmp Hmc Hd.
  unfold PRS_CONTEXT_PARTIAL_SIZE in *.
  destruct (memcpy_ok psp c 96 mem) as (mem' & Hcp & Hch & Heq); [lia|aligned|aligned|done|done|lia|].
  change (8 * 96) with 0x300 in Hcp. exists mem'. split; [done|]. split; [done|].
  assert (∀ o, 0 ≤ o < 768 → o mod 8 = 0 → mem' !! (psp + o) = mem !! (c + o)) as Hword.
  { intros o Ho Ho8. replace o with (8 * (o / 8)) by aligned. apply Heq. aligned. }
  split; unfold PRS_CONTEXT_PARTIAL_SIZE.
  - lia.
  - intros r. pose proof (win_off_reg_range r) as Hor. rewrite <- (Hr r). apply Hword; lia.
  - rewrite <- Hrip. by apply Hword.
  - exists w. split; [|done]. rewrite <- Hw. unfold off_eflags. rewrite <- !Z.add_sub_assoc. by apply Hword.
  - exists x. split; [|done]. rewrite <- Hx. unfold off_mxcsr. rewrite <- !Z.add_sub_assoc. by apply Hword.
  - intros i Hi. rewrite <- (Hxmm i Hi). unfold rd128, rd, off_xmm. rewrite <- !Z.add_assoc.
    rewrite !Hword by (lia || aligned).
    set (o := 0x1A0 + 16 * Z.of_nat i). set (o8 := 0x1A0 + (16 * Z.of_nat i + 8)).
    assert (o mod 16 = 0 ∧ o8 mod 8 = 0) as [Ho Ho8] by (unfold o, o8; split; aligned).
    replace ((psp + o) mod 16) with ((c + o) mod 16) by aligned. replace ((psp + o) mod 8) with ((c + o) mod 8) by aligned.
    by replace ((psp + o8) mod 8) with ((c + o8) mod 8) by aligned.
Qed.

(** The places for arguments of a call. *)
Definition arg_places (args : list Z) : nat := Nat.max 4 (length args).

(** The state of the interrupted thread after a call of [function] was put on top of it:
    [s1] is its stack pointer, [b] its frame pointer. *)
Record call_pushed (c function s1 b : Z) (args : list Z) (regs : reg → Z) (rip efl mxcsr : Z)
    (xmm : nat → Z * Z) (mem mem' : memory) : Prop := CallPushed {
  cp_aligned : s1 mod 16 = 8;
  cp_below : s1 + 8 + 8 * Z.of_nat (arg_places args) ≤ b ∧ b + 16 + PRS_CONTEXT_PARTIAL_SIZE ≤ regs RSP;
  cp_above : regs RSP - 808 - 8 * Z.of_nat (arg_places args) ≤ s1;
  cp_frame : b mod 16 = 0;
  cp_call : ∃ regs', ctx_holds mem' c regs' function efl mxcsr xmm ∧ regs' RSP = s1 ∧ regs' RBP = b ∧
    (∀ j v r, args !! j = Some v → arg_regs !! j = Some r → regs' r = v) ∧
    ∀ r, r ≠ RSP → r ≠ RBP → (∀ j, (j < length args)%nat → arg_regs !! j ≠ Some r) → regs' r = regs r;
  cp_return : mem' !! s1 = Some (address (label_pos _prs_pal_context_return_trampoline));
  cp_args : ∀ j v, args !! j = Some v → mem' !! (s1 + 8 + 8 * Z.of_nat j) = Some v;
  cp_backtrace : mem' !! b = Some (regs RBP) ∧ mem' !! (b + 8) = Some rip;
  cp_saved : ctx_holds mem' (b + 16) regs rip efl mxcsr xmm;
  cp_rest : ∀ a, ¬ (s1 ≤ a < b + 16 + PRS_CONTEXT_PARTIAL_SIZE) → ¬ (c ≤ a < c + PRS_CONTEXT_PARTIAL_SIZE) → mem' !! a = mem !! a;
  cp_dom : ∀ a, is_Some (mem !! a) → is_Some (mem' !! a)
}.

(** The registers of the call are written to the context. *)
Lemma win_set_call_ok c function s1 b new regs rip efl mxcsr xmm mem :
  ctx_holds mem c regs rip efl mxcsr xmm →
  ∃ mem', (mem ← wr mem (c + off_rip) function; mem ← wr mem (c + off_reg RBP) b;
           mem ← wr mem (c + off_reg RSP) s1; write_regs off_reg c arg_regs new mem) = Ret mem' ∧
    (∀ a, is_Some (mem !! a) → is_Some (mem' !! a)) ∧
    (∀ a, ¬ (c ≤ a < c + PRS_CONTEXT_PARTIAL_SIZE) → mem' !! a = mem !! a) ∧
    ctx_holds mem' c (λ r, if bool_decide (r ∈ arg_regs) then new r else if bool_decide (r = RSP) then s1
                           else if bool_decide (r = RBP) then b else regs r) function efl mxcsr xmm.
Proof.
  intros [Hcr Hr Hrip (w & Hw & Hefl) (x & Hx & Hm) Hxmm]. unfold PRS_CONTEXT_PARTIAL_SIZE in *.
  set (mem1 := <[c + off_reg RSP := s1]> (<[c + off_reg RBP := b]> (<[c + off_rip := function]> mem))).
  assert (∀ y, is_Some (mem !! y) → is_Some (mem1 !! y)) as Hd1.
  { intros y Hy. unfold mem1. rewrite !lookup_insert_is_Some'. auto. }
  destruct (write_regs_ok off_reg win_off_reg_pos win_off_reg_inj c new arg_regs mem1) as (mem' & Hwr & Hd & Hnew & Hold).
  { aligned. } { intros r. apply Hd1. by rewrite Hr. } { by apply (bool_decide_unpack _). }
  assert (∀ a, ¬ (c + 0x78 ≤ a < c + 0x100) → mem' !! a = mem !! a) as Hout.
  { intros a Ha. rewrite Hold.
    - unfold mem1, off_rip. cbn [off_reg]. by rewrite !lookup_insert_ne by lia.
    - intros r _ ->. pose proof (win_off_reg_range r). lia. }
  exists mem'. split_and!.
  - rewrite wr_ok; [ocbn|unfold off_rip; aligned|by rewrite Hrip].
    rewrite wr_ok; [ocbn|pose proof (win_off_reg_range RBP); aligned|].
    2:{ rewrite lookup_insert_ne by (unfold off_rip; cbn [off_reg]; lia). by rewrite Hr. }
    rewrite wr_ok; [ocbn; exact Hwr|pose proof (win_off_reg_range RSP); aligned|].
    rewrite !lookup_insert_ne by (unfold off_rip; cbn [off_reg]; lia). by rewrite Hr.
  - auto.
  - intros a Ha. apply Hout. lia.
  - split; unfold PRS_CONTEXT_PARTIAL_SIZE; [done|..].
    + intros r. destruct (decide (r ∈ arg_regs)) as [Hin|Hni].
      * rewrite bool_decide_true by done. by apply Hnew.
      * rewrite (bool_decide_false (r ∈ arg_regs)) by done. rewrite Hold by (intros r' Hr' He; assert (r = r') by (apply win_off_reg_inj; lia); congruence).
        unfold mem1. case_bool_decide; [subst; apply lookup_insert_eq|].
        rewrite lookup_insert_ne by (intros He; apply (f_equal (λ z, z - c)) in He; assert (RSP = r) by (apply win_off_reg_inj; lia); congruence).
        case_bool_decide; [subst; apply lookup_insert_eq|].
        rewrite lookup_insert_ne by (intros He; apply (f_equal (λ z, z - c)) in He; assert (RBP = r) by (apply win_off_reg_inj; lia); congruence).
        rewrite lookup_insert_ne by (pose proof (win_off_reg_range r); unfold off_rip; lia). apply Hr.
    + rewrite Hold by (intros r _; pose proof (win_off_reg_range r); unfold off_rip; lia). unfold mem1, off_rip. cbn [off_reg].
      rewrite !lookup_insert_ne by lia. apply lookup_insert_eq.
    + exists w. rewrite Hout by (unfold off_eflags; lia). done.
    + exists x. by rewrite Hout by (unfold off_mxcsr; lia).
    + intros i Hi. rewrite <- (Hxmm i Hi). unfold rd128, rd. by rewrite !Hout by (unfold off_xmm; lia).
Qed.

Lemma win_push_call_ok mem c s1 (fr : bool) b args regs rip efl mxcsr xmm :
  let k := Z.of_nat (arg_places args) in
  ctx_holds mem c regs rip efl mxcsr xmm → rip ≠ 0 → 0 ≤ s1 → s1 mod 16 = 8 → b mod 16 = 0 →
  s1 + 8 + 8 * k + (if fr then 8 else 0) = b → b + 16 + PRS_CONTEXT_PARTIAL_SIZE < 2 ^ 64 →
  mapped_from mem s1 (b + 16 + PRS_CONTEXT_PARTIAL_SIZE) → mapped mem c 96 →
  (c + PRS_CONTEXT_PARTIAL_SIZE ≤ s1 ∨ b + 16 + PRS_CONTEXT_PARTIAL_SIZE ≤ c) →
  ∃ new mem', push_call c s1 (arg_places args) fr args mem = Ret (new, b, mem') ∧
    changed_in s1 ((b + 16 + PRS_CONTEXT_PARTIAL_SIZE - s1) / 8) mem mem' ∧
    (∀ j v r, args !! j = Some v → arg_regs !! j = Some r → new r = v) ∧
    (∀ r, r ∈ arg_regs → (∀ j, (j < length args)%nat → arg_regs !! j ≠ Some r) → new r = regs r) ∧
    mem' !! s1 = Some (address (label_pos _prs_pal_context_return_trampoline)) ∧
    (∀ j v, args !! j = Some v → mem' !! (s1 + 8 + 8 * Z.of_nat j) = Some v) ∧
    mem' !! b = Some (regs RBP) ∧ mem' !! (b + 8) = Some rip ∧
    ctx_holds mem' (b + 16) regs rip efl mxcsr xmm.
Proof.
  intros k Hc Hrip Hs10 Hs1 Hb16 Eb Hb Hms Hmc Hdc.
  pose proof (ch_range _ _ _ _ _ _ _ Hc) as Hcr. unfold PRS_CONTEXT_PARTIAL_SIZE in *. set (n := (b + 16 + 0x300 - s1) / 8).
  assert (s1 + 8 * n = b + 16 + 0x300) as Hn by (unfold n; aligned). assert (0 ≤ k) as Hk by (unfold k; lia).
  assert (s1 + 8 + 8 * k ≤ b) as Hb1 by (destruct fr; lia).
  (* as long as only this area changes, the context is the same *)
  assert (∀ m, changed_in s1 n mem m → ctx_holds m c regs rip efl mxcsr xmm) as Hkeep.
  { intros m [Hm _]. apply (win_ctx_holds_same mem); [done|]. intros a Ha. unfold context_end in Ha. apply Hm. lia. }
  assert (∀ m, changed_in s1 n mem m → rd m (c + off_rip) = Ret rip) as Hkrip.
  { intros m Hm. apply rd_ok; [unfold off_rip; aligned|]. apply (ch_rip _ _ _ _ _ _ _ (Hkeep m Hm)). }
  unfold push_call. rewrite (Hkrip mem) by done. ocbn. rewrite (proj2 (truthy_true rip)) by done.
  set (tramp := address _). assert (is_Some (mem !! s1)) as Hss1 by (apply Hms; [lia|aligned]).
  rewrite wr_ok by (done || aligned). ocbn. set (mem1 := <[s1 := tramp]> mem).
  pose proof (changed_insert s1 tramp mem Hss1) as Hch1. fold mem1 in Hch1.
  assert (changed_in s1 n mem mem1) as Hc1 by (eapply changed_weaken; [exact Hch1|lia..]).
  destruct (read_regs_ok off_reg win_off_reg_pos c mem1 regs arg_regs) as (new0 & Hrd & Hnew0); [aligned|apply (Hkeep mem1 Hc1)|].
  rewrite Hrd. ocbn.
  destruct (win_fill_args_ok (arg_places args) 0 args new0 (s1 + 8) mem1) as (new & mem2 & Hfill & Hch2 & Hargs & Hnew);
    [aligned| |unfold arg_places; lia|].
  { eapply mapped_changed; [exact Hc1|]. eapply mapped_range; [exact Hms|aligned|lia|]. fold k. lia. }
  fold k in Hfill, Hch2. rewrite Hfill. ocbn.
  assert (changed_in s1 n mem mem2) as Hc2.
  { eapply changed_trans; [exact Hc1|]. eapply changed_weaken; [exact Hch2|lia|lia]. }
  replace (if fr then s1 + 8 + 8 * k + 8 else s1 + 8 + 8 * k) with b by (destruct fr; lia).
  unfold reg_of at 1. rewrite (rd_ok _ _ (regs RBP)); [|pose proof (win_off_reg_range RBP); aligned|apply (Hkeep mem2 Hc2)]. ocbn.
  rewrite wr_ok; [ocbn|aligned|apply Hc2, Hms; [lia|aligned]].
  set (mem3 := <[b := regs RBP]> mem2).
  assert (changed_in s1 n mem mem3) as Hc3.
  { eapply changed_trans; [exact Hc2|]. eapply changed_weaken; [apply changed_insert|lia..]. apply Hc2, Hms; [lia|aligned]. }
  rewrite (Hkrip mem3 Hc3). ocbn. rewrite wr_ok; [ocbn|aligned|apply Hc3, Hms; [lia|aligned]].
  set (mem4 := <[b + 8 := rip]> mem3).
  assert (changed_in s1 n mem mem4) as Hc4.
  { eapply changed_trans; [exact Hc3|]. eapply changed_weaken; [apply changed_insert|lia..]. apply Hc3, Hms; [lia|aligned]. }
  rewrite (proj2 (truthy_true rip)) by done. replace (b + 8 + 8) with (b + 16) by lia.
  destruct (copy_context_ok mem4 c (b + 16) regs rip efl mxcsr xmm) as (mem5 & Hsave & Hch5 & Hheld);
    [by apply Hkeep|lia|unfold PRS_CONTEXT_PARTIAL_SIZE; lia|aligned| |by eapply mapped_changed|unfold PRS_CONTEXT_PARTIAL_SIZE; lia|].
  { eapply mapped_changed; [exact Hc4|]. eapply mapped_range; [exact Hms|aligned|lia|lia]. }
  rewrite Hsave. ocbn. exists new, mem5. split; [done|].
  assert (∀ a, a < b + 16 → mem5 !! a = mem4 !! a) as H54 by (intros a Ha; apply (proj1 Hch5); lia).
  split; [eapply changed_trans; [exact Hc4|]; eapply changed_weaken; [exact Hch5|lia|lia]|].
  split_and!; [| | | | | |exact Hheld].
  - intros j v r Hv Hj. by apply (proj2 (Hargs j v Hv)).
  - intros r Hr Hno. rewrite Hnew by done. by apply Hnew0.
  - rewrite H54 by lia. unfold mem4, mem3. rewrite !lookup_insert_ne by lia.
    rewrite (proj1 Hch2) by lia. apply lookup_insert_eq.
  - intros j v Hv. assert (Z.of_nat j < k) as Hjk by (apply lookup_lt_Some in Hv; unfold k, arg_places; lia).
    rewrite H54 by lia. unfold mem4, mem3. rewrite !lookup_insert_ne by lia. apply (proj1 (Hargs j v Hv)).
  - rewrite H54 by lia. unfold mem4. rewrite lookup_insert_ne by lia. apply lookup_insert_eq.
  - rewrite H54 by lia. apply lookup_insert_eq.
Qed.

Lemma win_add_internal_ok mem c function args regs rip efl mxcsr xmm :
  let k := Z.of_nat (arg_places args) in
  let s := regs RSP in
  ctx_holds mem c regs rip efl mxcsr xmm → rip ≠ 0 → s mod 8 = 0 → 808 + 8 * k ≤ s < 2 ^ 64 →
  mapped_from mem (s - 808 - 8 * k) s → mapped mem c 96 → (c + PRS_CONTEXT_PARTIAL_SIZE ≤ s - 808 - 8 * k ∨ s ≤ c) →
  ∃ mem' s1 b, prs_pal_context_add_internal c function args mem = Ret mem' ∧
    call_pushed c function s1 b args regs rip efl mxcsr xmm mem mem'.
Proof.
  intros k s Hc Hrip Hs8 Hs Hms Hmc Hdc. assert (0 ≤ k) as Hk by (unfold k; lia).
  destruct (win_context_room_ok rip s Hrip Hs8) as (t & al & Eroom & Ht16 & Ht); [lia|].
  assert (s - 776 ≤ t ≤ s - 768) as Htr by (destruct al; lia).
  destruct (call_frame_ok t k Ht16 Hk) as (s1 & fr & Eframe & Hs1 & Eb); [lia|].
  set (b := t - 16) in *. assert (b mod 16 = 0) as Hb16 by (unfold b; aligned).
  assert (s - 808 - 8 * k ≤ s1 ∧ s1 + 8 + 8 * k ≤ b ∧ b + 16 + 768 ≤ s) as (Hs1r & Hs1b & Hbs) by (unfold b in *; destruct fr; lia).
  unfold PRS_CONTEXT_PARTIAL_SIZE in *.
  destruct (win_push_call_ok mem c s1 fr b args regs rip efl mxcsr xmm) as
    (new & mem1 & Hpush & [Hch Hd] & Hargs & Hnew & Hret & Hsargs & Hrbp & Hbrip & Hsaved); try done;
    [lia|unfold PRS_CONTEXT_PARTIAL_SIZE; lia| |unfold PRS_CONTEXT_PARTIAL_SIZE; lia|].
  { intros a Ha Ha8. apply Hms; [unfold PRS_CONTEXT_PARTIAL_SIZE in Ha; lia|done]. }
  assert (s1 + 8 * ((b + 16 + PRS_CONTEXT_PARTIAL_SIZE - s1) / 8) = b + 16 + 768) as En by (unfold PRS_CONTEXT_PARTIAL_SIZE; aligned).
  rewrite En in Hch.
  destruct (win_set_call_ok c function s1 b new regs rip efl mxcsr xmm mem1) as (mem2 & Hset & Hd2 & Hout & Hheld).
  { apply (win_ctx_holds_same mem); [done|]. unfold context_end. intros a Ha. apply Hch. lia. }
  unfold PRS_CONTEXT_PARTIAL_SIZE in Hout.
  pose proof (ch_range _ _ _ _ _ _ _ Hc) as Hcr. unfold PRS_CONTEXT_PARTIAL_SIZE in Hcr.
  exists mem2, s1, b. split.
  - unfold prs_pal_context_add_internal, reg_of. pose proof (win_off_reg_range RSP).
    rewrite (rd_ok mem (c + off_reg RSP) s) by (aligned || apply (ch_regs _ _ _ _ _ _ _ Hc)). ocbn.
    rewrite (rd_ok mem (c + off_rip) rip) by ((unfold off_rip; aligned) || apply (ch_rip _ _ _ _ _ _ _ Hc)). ocbn.
    rewrite Eroom. replace (if (4 <? length args)%nat then length args else 4%nat) with (arg_places args)
      by (unfold arg_places; destruct (Nat.ltb_spec 4 (length args)); lia).
    fold k. rewrite Eframe, Hpush. exact Hset.
  - split; unfold PRS_CONTEXT_PARTIAL_SIZE.
    + done.
    + fold k s. lia.
    + fold k s. lia.
    + done.
    + eexists. split; [exact Hheld|]. split_and!.
      * done.
      * done.
      * intros j v r Hv Hj. rewrite bool_decide_true by (by eapply list_elem_of_lookup_2). by eapply Hargs.
      * intros r Hr1 Hr2 Hno. case_bool_decide; [by apply Hnew|]. by rewrite !bool_decide_false.
    + rewrite Hout by lia. done.
    + intros j v Hv. assert (Z.of_nat j < k) by (apply lookup_lt_Some in Hv; unfold k, arg_places; lia). rewrite Hout by lia. by apply Hsargs.
    + rewrite !Hout by lia. done.
    + apply (win_ctx_holds_same mem1); [exact Hsaved|]. unfold context_end. intros a Ha. apply Hout. lia.
    + intros a Ha1 Ha2. rewrite Hout by lia. apply Hch. lia.
    + auto.
Qed.

(** *** Coming back *)

(** The function that was called returns to the trampoline: the interrupted context, which
    is above the frame pointer, is restored.  [prs_pal_context_swap] may use the places of
    the first four arguments. *)
Lemma win_exec_trampoline b regs rip efl mxcsr xmm m fuel :
  ctx_holds (m_mem m) (b + 16) regs rip efl mxcsr xmm → m_regs m RBP = b → 0 ≤ b →
  8 ≤ m_regs m RSP → m_regs m RSP mod 8 = 0 → m_regs m RSP + 32 ≤ b →
  is_Some (m_mem m !! (m_regs m RSP - 8)) → regs RSP mod 8 = 0 → regs RSP < 2 ^ 64 →
  b + 16 + context_end ≤ regs RSP - 24 → mapped (m_mem m) (regs RSP - 24) 3 →
  ∃ m', exec (6 + (length asm_restore + fuel)) (label_pos _prs_pal_context_return_trampoline) m = resume fuel rip m' ∧
    restored regs efl mxcsr xmm m' ∧
    (∀ a, b ≤ a → ¬ (regs RSP - 24 ≤ a < regs RSP) → m_mem m' !! a = m_mem m !! a) ∧
    m_mem m' !! (regs RSP - 24) = Some (regs RDX) ∧ m_mem m' !! (regs RSP - 16) = Some efl ∧
    m_mem m' !! (regs RSP - 8) = Some rip.
Proof.
  intros Hc Hrbp Hb Hsp Hsp8 Hspb Hsm Hs8 Hs64 Hbs Hmap.
  pose proof (ch_range _ _ _ _ _ _ _ Hc) as Hcr. unfold context_end, PRS_CONTEXT_PARTIAL_SIZE in *.
  set (sp := m_regs m RSP) in *.
  set (m2 := set_reg RDX (b + 16) (arith (b + 16) (set_reg RDX b (set_reg RCX 0 m)))).
  assert (run_block 2 [MovI 0 RCX; MovRR RBP RDX; AddI 16 RDX] m = Ret m2) as Hrun.
  { cbn [run_block exec_instr]. ocbn. mstate. rewrite Hrbp, u64_small by lia. done. }
  set (m3 := set_mem (<[sp - 8 := address 6]> (m_mem m)) (set_reg RSP (sp - 8) m2)).
  assert (m_regs m3 RSP = sp - 8) as Hsp3 by (unfold m3; by mstate).
  assert (∀ a, b ≤ a → m_mem (enter m3) !! a = m_mem m !! a) as Hmem3.
  { intros a Ha. rewrite enter_mem by lia. unfold m3. mstate. apply lookup_insert_ne. lia. }
  destruct (win_exec_restore (b + 16) regs rip efl mxcsr xmm (arith 0 (enter m3)) fuel) as (m' & Hexec & Hrest & Hm').
  { mstate. apply (win_ctx_holds_same (m_mem m)); [done|]. unfold context_end. intros a Ha. apply Hmem3. lia. }
  { mstate. rewrite enter_regs by done. unfold m3, m2. by mstate. }
  { done. } { lia. }
  { intros i Hi. mstate. rewrite Hmem3 by lia. by apply Hmap. }
  { unfold context_end. lia. }
  exists m'. split.
  - change (6 + (length asm_restore + fuel))%nat with (length [MovI 0 RCX; MovRR RBP RDX; AddI 16 RDX] + (3 + (length asm_restore + fuel)))%nat.
    rewrite (exec_block _ _ _ m2 _ eq_refl Hrun). generalize (length asm_restore + fuel)%nat as n, Hexec. intros n Hn.
    cbn [exec Nat.add length label_pos].
    change (text !! 5%nat) with (Some (Call prs_pal_context_swap)). cbn [exec_instr]. unfold push.
    assert (m_regs m2 RSP = sp ∧ m_mem m2 = m_mem m) as [-> ->] by (unfold m2; by mstate).
    rewrite u64_small, wr_ok by (done || lia || aligned). ocbn. fold m3. change (label_index prs_pal_context_swap) with (label_pos prs_pal_context_swap).
    change (text !! label_pos prs_pal_context_swap) with (Some (Test RCX RCX)). cbn [exec_instr]. ocbn.
    change (text !! S (label_pos prs_pal_context_swap)) with (Some (Jz prs_pal_context_swap_restore)). cbn [exec_instr]. ocbn.
    assert (m_regs (enter m3) RCX = 0) as -> by (rewrite enter_regs by done; unfold m3, m2; by mstate).
    mstate. rewrite arith_flags_zf. exact Hn.
  - split; [done|]. rewrite Hm'. mstate. unfold below_stack. split_and!.
    + intros a Ha Hna. rewrite !lookup_insert_ne by lia. by apply Hmem3.
    + apply lookup_insert_eq.
    + rewrite lookup_insert_ne by lia. apply lookup_insert_eq.
    + rewrite !lookup_insert_ne by lia. apply lookup_insert_eq.
Qed.

(** C17: On Windows, too, an interrupted thread does not notice a call that is put on top of
    it.  Whatever the function and its arguments, [prs_pal_context_add] makes the context one
    that calls the function as the system wants it: aligned stack, the first four arguments
    in registers, places on the stack for all of them and at least four, below a copy of the
    context, with the trampoline as return address.  When the function returns, its frame
    pointer and what is above it unchanged, the assembly gives the thread back all its
    registers, flags and SSE registers, and lets it go on where it was interrupted; its
    stack is as it was, and below it are three words of the assembly. *)
Theorem win_context_call_roundtrip mem c function args regs rip efl mxcsr xmm :
  let k := Z.of_nat (arg_places args) in
  let s := regs RSP in
  ctx_holds mem c regs rip efl mxcsr xmm → rip ≠ 0 → position rip = None → s mod 8 = 0 →
  808 + 8 * k ≤ s < 2 ^ 64 → mapped_from mem (s - 808 - 8 * k) s → mapped mem c 96 →
  (c + PRS_CONTEXT_PARTIAL_SIZE ≤ s - 808 - 8 * k ∨ s ≤ c) →
  ∃ mem' s1 b, prs_pal_context_add c function args mem = Ret mem' ∧
    call_pushed c function s1 b args regs rip efl mxcsr xmm mem mem' ∧
    ∀ m fuel, m_regs m RBP = b → m_regs m RSP = s1 + 8 → (∀ a, b ≤ a → m_mem m !! a = mem' !! a) →
      is_Some (m_mem m !! s1) →
      ∃ m', exec (53 + fuel) (label_pos _prs_pal_context_return_trampoline) m = Ret (Some (rip, m')) ∧
        restored regs efl mxcsr xmm m' ∧
        (∀ a, s ≤ a → ¬ (c ≤ a < c + PRS_CONTEXT_PARTIAL_SIZE) → m_mem m' !! a = mem !! a) ∧
        m_mem m' !! (s - 24) = Some (regs RDX) ∧ m_mem m' !! (s - 16) = Some efl ∧ m_mem m' !! (s - 8) = Some rip.
Proof.
  intros k s Hc Hrip Hpos Hs8 Hs Hms Hmc Hdc.
  destruct (win_add_internal_ok mem c function args regs rip efl mxcsr xmm) as (mem' & s1 & b & Hadd & Hp); [done..|].
  exists mem', s1, b. split; [done|]. split; [done|]. intros m fuel Hrbp Hrsp Hmem Hm1.
  pose proof Hp as [Hal [Hb1 Hb2] Habove Hb16 _ _ _ _ Hsaved Hrest Hdom].
  fold k s in Hb1, Hb2, Habove. unfold PRS_CONTEXT_PARTIAL_SIZE in *.
  assert (4 ≤ k) by (unfold k, arg_places; lia).
  destruct (win_exec_trampoline b regs rip efl mxcsr xmm m fuel) as (m' & Hexec & Hrestored & Hsame & Hw);
    rewrite ?Hrsp; fold s; unfold context_end; try done; try lia.
  - apply (win_ctx_holds_same mem'); [done|]. unfold context_end. intros a Ha. apply Hmem. lia.
  - aligned.
  - by replace (s1 + 8 - 8) with s1 by lia.
  - intros i Hi. rewrite Hmem by lia. apply Hdom, Hms; [lia|aligned].
  - exists m'. fold s in Hsame, Hw. split_and!; try tauto.
    + change (53 + fuel)%nat with (6 + (length asm_restore + fuel))%nat. rewrite Hexec. unfold resume. by rewrite Hpos.
    + intros a Ha Hnc. rewrite Hsame by lia. rewrite Hmem by lia. apply Hrest; lia.
Qed.

(** *** Saving *)

(** What is in memory after a thread has saved itself in the context at [c]: [m] is the
    thread when it entered. *)
Record ctx_saved (c : Z) (m : machine) (mem : memory) : Prop := CtxSaved {
  cs_regs : ∀ r, r = RSP ∨ r ∈ saved_regs → mem !! (c + off_reg r) = Some (m_regs m r);
  cs_rip : mem !! (c + off_rip) = Some (address (label_pos prs_pal_context_swap_return));
  cs_xmm : ∀ i, (6 ≤ i < 16)%nat → rd128 mem (c + off_xmm i) = Ret (m_xmm m i);
  cs_mxcsr : mem !! (c + off_mxcsr - 4) = m_mem m !! (c + off_mxcsr - 4);
  cs_rest : ∀ a, ¬ (c ≤ a < c + PRS_CONTEXT_PARTIAL_SIZE) → a ≠ m_regs m RSP - 8 → mem !! a = m_mem m !! a;
  cs_dom : ∀ a, is_Some (m_mem m !! a) → is_Some (mem !! a)
}.

(** The context at [c] can be written by a thread whose stack pointer is [sp]. *)
Definition ctx_ready (c sp : Z) (mem : memory) : Prop :=
  (0 < c ∧ c + PRS_CONTEXT_PARTIAL_SIZE ≤ 2 ^ 64 ∧ c mod 16 = 0 ∧ mapped mem c 96) ∧
  (8 ≤ sp < 2 ^ 64 ∧ sp mod 8 = 0 ∧ is_Some (mem !! (sp - 8))) ∧
  (c + PRS_CONTEXT_PARTIAL_SIZE ≤ sp - 8 ∨ sp ≤ c).

Lemma win_off_reg_fits r : off_reg r + 8 ≤ 8 * 96.
Proof. pose proof (win_off_reg_range r). lia. Qed.

Lemma win_swap_return_in_text : (label_pos prs_pal_context_swap_return ≤ length text)%nat.
Proof. exact (le_n _). Qed.

Lemma win_asm_save_at : text_at (label_pos prs_pal_context_swap) asm_save.
Proof. by vm_compute. Qed.

Lemma saved_regs_not r : r ∈ saved_regs → r ≠ RAX ∧ r ≠ RSP.
Proof. intros Hr. revert r Hr. apply Forall_forall. by apply (bool_decide_unpack _). Qed.

(** The first part of the saving: the registers and the instruction pointer. *)
Definition save_regs_ins : list instr :=
  [Test RCX RCX; Jz prs_pal_context_swap_restore] ++ ((λ r, MovRM r (off_reg r) RCX) <$> [RSP]) ++
  [MovLabel prs_pal_context_swap_return RAX; MovRM RAX off_rip RCX] ++ ((λ r, MovRM r (off_reg r) RCX) <$> saved_regs).

Lemma run_save_head pc c m :
  m_regs m RCX = c → c ≠ 0 → run_block pc [Test RCX RCX; Jz prs_pal_context_swap_restore] m = Ret (arith c m).
Proof.
  intros Hrcx Hc. rewrite (blk_seq _ (Test RCX RCX) _ _ _ eq_refl), Hrcx, Z.land_diag.
  rewrite (blk_seq _ (Jz _) _ _ (arith c m)); [done|]. cbn [exec_instr]. mstate.
  by rewrite arith_flags_zf, (proj2 (Z.eqb_neq c 0)).
Qed.

Lemma win_run_save_rip pc c m :
  let ret := address (label_pos prs_pal_context_swap_return) in
  m_regs m RCX = c → 0 ≤ c → c + PRS_CONTEXT_PARTIAL_SIZE ≤ 2 ^ 64 → c mod 16 = 0 → mapped (m_mem m) c 96 → ret < 2 ^ 31 →
  run_block pc [MovLabel prs_pal_context_swap_return RAX; MovRM RAX off_rip RCX] m =
    Ret (set_mem (<[c + off_rip := ret]> (m_mem m)) (set_reg RAX ret m)).
Proof.
  intros ret Hrcx Hc0 Hc Hc8 Hmap Hret. unfold PRS_CONTEXT_PARTIAL_SIZE in *.
  rewrite (blk_seq _ (MovLabel _ RAX) _ _ (set_reg RAX ret m)).
  2:{ cbn [exec_instr]. change (label_index prs_pal_context_swap_return) with (label_pos prs_pal_context_swap_return). fold ret.
      by rewrite (proj2 (Z.ltb_lt ret _)). }
  rewrite (blk_store _ _ _ _ _ _ (c + off_rip)); [mstate; done| | |].
  - unfold ea. mstate. rewrite Hrcx. apply u64_small. unfold off_rip. lia.
  - unfold off_rip. aligned.
  - mstate. change off_rip with (8 * 31). apply Hmap. lia.
Qed.

Lemma win_run_save_regs c m :
  m_regs m RCX = c → ctx_ready c (m_regs m RSP) (m_mem m) → address (label_pos prs_pal_context_swap_return) < 2 ^ 31 →
  ∃ m', run_block (label_pos prs_pal_context_swap) save_regs_ins m = Ret m' ∧
    (∀ r, r ≠ RAX → m_regs m' r = m_regs m r) ∧ m_xmm m' = m_xmm m ∧ m_mxcsr m' = m_mxcsr m ∧
    (∀ a, is_Some (m_mem m !! a) → is_Some (m_mem m' !! a)) ∧
    (∀ r, r = RSP ∨ r ∈ saved_regs → m_mem m' !! (c + off_reg r) = Some (m_regs m r)) ∧
    m_mem m' !! (c + off_rip) = Some (address (label_pos prs_pal_context_swap_return)) ∧
    ∀ a, ¬ (c + 0x78 ≤ a < c + 0x100) → m_mem m' !! a = m_mem m !! a.
Proof.
  intros Hrcx ((Hc0 & Hc & Hc16 & Hmc) & _) Hret. assert (c mod 8 = 0) as Hc8 by aligned.
  assert (c + 8 * 96 ≤ 2 ^ 64) as Hc' by (unfold PRS_CONTEXT_PARTIAL_SIZE in Hc; lia).
  set (pc := label_pos prs_pal_context_swap). pose proof (run_save_head pc c m Hrcx ltac:(lia)) as Hrun1. set (m1 := arith c m) in Hrun1.
  destruct (run_reg_stores off_reg win_off_reg_pos win_off_reg_inj 96 RCX c [RSP] (pc + 2) m1 win_off_reg_fits)
    as (m2 & Hrun2 & Hr2 & Hx2 & Hc2 & _ & Hch2 & Hnew2 & Hold2); [done|lia|done|done|done|apply NoDup_singleton|].
  pose proof (win_run_save_rip (pc + 3) c m2 ltac:(by rewrite Hr2) ltac:(lia) Hc Hc16 (mapped_changed _ _ _ _ _ _ Hch2 Hmc) Hret) as Hrun3.
  set (ret := address _) in *. set (m3 := set_mem _ _) in Hrun3.
  assert (∀ a, is_Some (m_mem m !! a) → is_Some (m_mem m3 !! a)) as Hd3.
  { intros a Ha. unfold m3. mstate. apply lookup_insert_is_Some'. right. by apply Hch2. }
  destruct (run_reg_stores off_reg win_off_reg_pos win_off_reg_inj 96 RCX c saved_regs (pc + 5) m3 win_off_reg_fits)
    as (m4 & Hrun4 & Hr4 & Hx4 & Hc4 & _ & Hch4 & Hnew4 & Hold4);
    [unfold m3; mstate; by rewrite Hr2|lia|done|done|intros i Hi; by apply Hd3, Hmc|by apply (bool_decide_unpack _)|].
  assert (∀ r, r ≠ RAX → m_regs m3 r = m_regs m r) as Hr3 by (intros r Hr; unfold m3; mstate; by rewrite upd_reg_ne, Hr2).
  exists m4. split_and!.
  - unfold save_regs_ins. rewrite run_block_app, Hrun1. ocbn. rewrite run_block_app. at_index (pc + 2)%nat m1. rewrite Hrun2. ocbn.
    rewrite run_block_app. at_index (pc + 3)%nat m2. rewrite Hrun3. ocbn. at_index (pc + 5)%nat m3. exact Hrun4.
  - intros r Hr. rewrite Hr4. by apply Hr3.
  - by rewrite Hx4.
  - by rewrite Hc4.
  - intros a Ha. by apply Hch4, Hd3.
  - intros r [->|Hr].
    + rewrite Hold4 by (intros r Hr He; destruct (saved_regs_not r Hr) as [_ Hne]; apply Hne, win_off_reg_inj; lia).
      unfold m3. mstate. rewrite lookup_insert_ne by (unfold off_rip; cbn [off_reg]; lia). apply (Hnew2 RSP). by left.
    + rewrite Hnew4 by done. by rewrite Hr3 by (by apply saved_regs_not).
  - rewrite Hold4 by (intros r _; pose proof (win_off_reg_range r); unfold off_rip; lia). unfold m3. mstate. apply lookup_insert_eq.
  - intros a Ha. rewrite Hold4 by (intros r _; pose proof (win_off_reg_range r); lia). unfold m3. mstate.
    rewrite lookup_insert_ne by (unfold off_rip; lia). apply Hold2. intros r _. pose proof (win_off_reg_range r). lia.
Qed.

(** The flags, through the stack. *)
Lemma win_run_save_flags pc c m :
  m_regs m RCX = c → ctx_ready c (m_regs m RSP) (m_mem m) →
  ∃ m', run_block pc [Pushfq; Pop RAX; MovRM32 RAX off_eflags RCX] m = Ret m' ∧
    (∀ r, r ≠ RAX → m_regs m' r = m_regs m r) ∧
    m_xmm m' = m_xmm m ∧ m_mxcsr m' = m_mxcsr m ∧ (∀ a, is_Some (m_mem m !! a) → is_Some (m_mem m' !! a)) ∧
    ∀ a, a ≠ m_regs m RSP - 8 → a ≠ c + off_eflags - 4 → m_mem m' !! a = m_mem m !! a.
Proof.
  intros Hrcx ((Hc0 & Hc & Hc16 & Hmc) & (Hsp & Hsp8 & Hsm) & Hdc).
  unfold PRS_CONTEXT_PARTIAL_SIZE in *. set (sp := m_regs m RSP) in *.
  set (v := Z.ldiff (m_flags m) RF_VM_FLAGS). set (mem1 := <[sp - 8 := v]> (m_mem m)).
  destruct (Hmc 8 ltac:(lia)) as [w Hw]. replace (c + 8 * 8) with (c + off_eflags - 4) in Hw by (unfold off_eflags; lia).
  assert (mem1 !! (c + off_eflags - 4) = Some w) as Hw1 by (unfold mem1; rewrite lookup_insert_ne by (unfold off_eflags; lia); done).
  set (mem2 := <[c + off_eflags - 4 := v mod 2 ^ 32 * 2 ^ 32 + w mod 2 ^ 32]> mem1).
  exists (set_mem mem2 (set_reg RAX v (set_reg RSP sp (set_mem mem1 (set_reg RSP (sp - 8) m))))).
  split_and!; [| | | | |].
  - rewrite (blk_seq _ Pushfq _ _ (set_mem mem1 (set_reg RSP (sp - 8) m))).
    2:{ cbn [exec_instr]. unfold push. fold sp. rewrite u64_small, wr_ok by (done || lia || aligned). done. }
    rewrite (blk_pop _ _ _ _ v) by (mstate; apply rd_ok; [aligned|apply lookup_insert_eq]). mstate.
    replace (u64 (sp - 8 + 8)) with sp by (rewrite u64_small; lia).
    rewrite (blk_seq _ (MovRM32 _ _ _) _ _ (set_mem mem2 (set_reg RAX v (set_reg RSP sp (set_mem mem1 (set_reg RSP (sp - 8) m)))))); [done|].
    cbn [exec_instr]. unfold ea. mstate. rewrite Hrcx, u64_small by (unfold off_eflags; lia).
    unfold wr32. replace ((c + off_eflags) mod 8) with 4 by (unfold off_eflags; aligned). cbn [Z.eqb Pos.eqb].
    rewrite (rd_ok _ _ w) by (done || unfold off_eflags; aligned). ocbn.
    rewrite wr_ok; [done|unfold off_eflags; aligned|by eexists].
  - intros r Hra. mstate. rewrite !upd_reg_ne by done. destruct (decide (r = RSP)) as [->|]; [by rewrite upd_reg_eq|].
    by rewrite !upd_reg_ne by done.
  - done.
  - done.
  - intros a Ha. mstate. unfold mem2, mem1. rewrite !lookup_insert_is_Some'. auto.
  - intros a Ha1 Ha2. mstate. unfold mem2, mem1. by rewrite !lookup_insert_ne by lia.
Qed.

(** The run up to the label of the restoration. *)
Lemma win_exec_save c m fuel :
  m_regs m RCX = c → ctx_ready c (m_regs m RSP) (m_mem m) → address (label_pos prs_pal_context_swap_return) < 2 ^ 31 →
  ∃ m', exec (length asm_save + fuel) (label_pos prs_pal_context_swap) m = exec fuel (label_pos prs_pal_context_swap_restore) m' ∧
    ctx_saved c m (m_mem m') ∧ m_xmm m' = m_xmm m ∧ m_mxcsr m' = m_mxcsr m ∧ ∀ r, r ≠ RAX → m_regs m' r = m_regs m r.
Proof.
  intros Hrcx Hready Hret. destruct (win_run_save_regs c m Hrcx Hready Hret) as (m4 & Hrun4 & Hr4 & Hx4 & Hc4 & Hd4 & Hnew4 & Hrip4 & Hold4).
  pose proof Hready as ((Hc0 & Hc & Hc16 & Hmc) & (Hsp & Hsp8 & Hsm) & Hdc). unfold PRS_CONTEXT_PARTIAL_SIZE in *.
  set (pc := label_pos prs_pal_context_swap) in *. assert (m_regs m4 RCX = c) as Hrcx4 by (by rewrite Hr4).
  destruct (run_xmm_stores off_xmm 0x1A0 96 RCX (seq 6 10) (pc + 13) m4 off_xmm_at)
    as (m5 & Hrun5 & Hr5 & Hc5 & _ & Hx5 & Hch5 & Hold5 & Hnew5); rewrite ?Hrcx4 in *;
    [lia|lia|done|lia|lia|done|intros i Hi; by apply Hd4, Hmc|apply NoDup_seq|intros i Hi%elem_of_seq; lia|].
  assert (m_regs m5 RCX = c ∧ m_regs m5 RSP = m_regs m RSP) as [Hrcx5 Hsp5] by (by rewrite Hr5, !Hr4).
  destruct (win_run_save_flags (pc + 23) c m5 Hrcx5) as (m6 & Hrun6 & Hr6 & Hx6 & Hc6 & Hd6 & Hold6).
  { rewrite Hsp5. split; [|split; [|done]].
    - split_and!; [done..|]. intros i Hi. by apply Hch5, Hd4, Hmc.
    - split_and!; [lia|lia|done|]. by apply Hch5, Hd4. }
  rewrite Hsp5 in Hold6.
  assert (run_block pc asm_save m = Ret m6) as Hrun.
  { change asm_save with (save_regs_ins ++ ((λ i, MovapsRM i (off_xmm i) RCX) <$> seq 6 10) ++ [Pushfq; Pop RAX; MovRM32 RAX off_eflags RCX]).
    rewrite run_block_app, Hrun4. ocbn. rewrite run_block_app. at_index (pc + 13)%nat m4. rewrite Hrun5. ocbn.
    at_index (pc + 23)%nat m5. exact Hrun6. }
  assert (∀ a, ¬ (c + off_xmm 6 ≤ a < c + 0x2A0) → a ≠ m_regs m RSP - 8 → a ≠ c + off_eflags - 4 → m_mem m6 !! a = m_mem m4 !! a) as H64.
  { intros a Ha1 Ha2 Ha3. rewrite Hold6 by done. apply Hold5. intros i Hi%elem_of_seq. unfold off_xmm in *. lia. }
  exists m6. split; [rewrite (exec_block asm_save pc m m6 fuel win_asm_save_at Hrun); done|].
  split_and!; [split| | |]; unfold PRS_CONTEXT_PARTIAL_SIZE.
  - intros r Hr. pose proof (win_off_reg_range r). rewrite H64 by (unfold off_xmm, off_eflags; lia). by apply Hnew4.
  - rewrite H64 by (unfold off_xmm, off_eflags, off_rip; lia). exact Hrip4.
  - intros i Hi. rewrite <- Hx4, <- Hnew5 by (apply elem_of_seq; lia). unfold rd128, rd.
    by rewrite !Hold6 by (unfold off_xmm, off_eflags; lia).
  - rewrite H64 by (unfold off_xmm, off_eflags, off_mxcsr; lia). apply Hold4. unfold off_mxcsr. lia.
  - intros a Ha1 Ha2. rewrite H64 by (done || unfold off_xmm, off_eflags; lia). apply Hold4. lia.
  - intros a Ha. by apply Hd6, Hch5, Hd4.
  - by rewrite Hx6, Hx5.
  - by rewrite Hc6, Hc5.
  - intros r Hr. rewrite Hr6, Hr5 by done. by apply Hr4.
Qed.

(** *** Coming back to a saved context *)

Definition apart (a n b k : Z) : Prop := a + n ≤ b ∨ b + k ≤ a.

(** What was saved is a context, as long as nobody writes to it. *)
Lemma win_saved_holds c sp m mem mem' :
  ctx_saved c m mem → ctx_ready c sp (m_mem m) → (∀ a, c ≤ a < c + PRS_CONTEXT_PARTIAL_SIZE → mem' !! a = mem !! a) →
  ∃ regs efl w xmm,
    ctx_holds mem' c regs (address (label_pos prs_pal_context_swap_return)) efl (w / 2 ^ 32) xmm ∧
    (∀ r, r = RSP ∨ r ∈ saved_regs → regs r = m_regs m r) ∧ (∀ i, (6 ≤ i < 16)%nat → xmm i = m_xmm m i) ∧
    m_mem m !! (c + off_mxcsr - 4) = Some w.
Proof.
  intros [Hregs Hrip Hx Hmx Hrest Hdom] ((Hc0 & Hc & Hc16 & Hmc) & _ & _) Heq. unfold PRS_CONTEXT_PARTIAL_SIZE in *.
  set (at_ a := default 0 (mem' !! a)).
  assert (∀ o, 0 ≤ o < 768 → o mod 8 = 0 → mem' !! (c + o) = Some (at_ (c + o))) as Hctx.
  { intros o Ho Ho8. unfold at_. rewrite Heq by lia. replace o with (8 * (o / 8)) by aligned.
    by destruct (Hdom _ (Hmc (o / 8) ltac:(aligned))) as [? ->]. }
  destruct (Hmc 6 ltac:(lia)) as [w Hw]. replace (c + 8 * 6) with (c + off_mxcsr - 4) in Hw by (unfold off_mxcsr; lia).
  exists (λ r, at_ (c + off_reg r)), (at_ (c + 0x40) / 2 ^ 32), w, (λ i, (at_ (c + off_xmm i), at_ (c + (off_xmm i + 8)))).
  split_and!; [| | |done].
  - split; unfold PRS_CONTEXT_PARTIAL_SIZE; try done.
    + intros r. pose proof (win_off_reg_range r). apply Hctx; lia.
    + by rewrite Heq by (unfold off_rip; lia).
    + eexists. split; [|done]. replace (c + off_eflags - 4) with (c + 0x40) by (unfold off_eflags; lia). by apply Hctx.
    + exists w. split; [|done]. rewrite Heq by (unfold off_mxcsr; lia). by rewrite Hmx.
    + intros i Hi. assert (off_xmm i mod 16 = 0 ∧ 0 ≤ off_xmm i ∧ off_xmm i + 8 < 768) as (Hx1 & Hx2 & Hx3) by (unfold off_xmm; split_and!; aligned).
      apply rd128_ok; [aligned|apply Hctx; aligned|]. rewrite <- Z.add_assoc. apply Hctx; aligned.
  - intros r Hr. pose proof (win_off_reg_range r). unfold at_. rewrite Heq by lia. by rewrite Hregs.
  - intros i Hi. assert (off_xmm i mod 16 = 0 ∧ 0 ≤ off_xmm i ∧ off_xmm i + 8 < 768) as (Hx1 & Hx2 & Hx3) by (unfold off_xmm; split_and!; aligned).
    specialize (Hx i Hi). unfold at_. rewrite !Heq by lia. revert Hx. unfold rd128, rd. rewrite <- Z.add_assoc.
    replace ((c + off_xmm i) mod 16) with 0 by aligned. replace ((c + off_xmm i) mod 8) with 0 by aligned.
    replace ((c + (off_xmm i + 8)) mod 8) with 0 by aligned. cbn [Z.eqb].
    destruct (mem !! (c + off_xmm i)) as [lo|]; [|done].
    destruct (mem !! (c + (off_xmm i + 8))) as [hi|]; [|done]. cbn. by injection 1 as <-.
Qed.

(** C34: A switch and the switch back.  A thread that calls [prs_pal_context_swap] with a context
    to save and one to restore becomes the second context.  When, later, any thread restores
    the first context, which nobody has written to, it goes on behind the call, with the
    stack pointer, the registers that a function has to preserve on Windows, [rsi] and [rdi]
    among them, and [xmm6] to [xmm15], as they were; memory is untouched but for three words
    below the stack pointer.  As on POSIX the SSE control word is the one that the context
    held from before.  The text has to be in the low two gigabytes of the address space. *)
Theorem win_context_switch_roundtrip c o regs rip efl mxcsr xmm m fuel :
  let sp := m_regs m RSP in
  let s := regs RSP in
  m_regs m RCX = c → m_regs m RDX = o → ctx_ready c sp (m_mem m) → 24 ≤ sp → apart c PRS_CONTEXT_PARTIAL_SIZE (sp - 24) 24 →
  address (label_pos prs_pal_context_swap_return) < 2 ^ 31 →
  ctx_holds (m_mem m) o regs rip efl mxcsr xmm → position rip = None →
  apart o PRS_CONTEXT_PARTIAL_SIZE c PRS_CONTEXT_PARTIAL_SIZE → apart o PRS_CONTEXT_PARTIAL_SIZE (sp - 8) 8 →
  s mod 8 = 0 → 24 ≤ s < 2 ^ 64 → mapped (m_mem m) (s - 24) 3 → apart o context_end (s - 24) 24 →
  apart c PRS_CONTEXT_PARTIAL_SIZE (s - 24) 24 →
  ∃ m1, exec (73 + fuel) (label_pos prs_pal_context_swap) m = Ret (Some (rip, m1)) ∧ restored regs efl mxcsr xmm m1 ∧
    (∀ a, is_Some (m_mem m !! a) → is_Some (m_mem m1 !! a)) ∧
    ∀ t fuel', m_regs t RDX = c → (∀ a, c ≤ a < c + PRS_CONTEXT_PARTIAL_SIZE → m_mem t !! a = m_mem m1 !! a) →
      mapped (m_mem t) (sp - 24) 3 →
      ∃ m2, exec (48 + fuel') (label_pos prs_pal_context_swap_restore) t =
              Ret (Some (address (label_pos prs_pal_context_swap_return), m2)) ∧
        (∀ r, r ∈ [RSP; RBP; RSI; RDI; RBX; R12; R13; R14; R15] → m_regs m2 r = m_regs m r) ∧
        (∀ i, (6 ≤ i < 16)%nat → m_xmm m2 i = m_xmm m i) ∧
        (∃ w, m_mem m !! (c + off_mxcsr - 4) = Some w ∧ m_mxcsr m2 = w / 2 ^ 32) ∧
        ∀ a, ¬ (sp - 24 ≤ a < sp) → m_mem m2 !! a = m_mem t !! a.
Proof.
  intros sp s Hrcx Hrdx Hready Hsp Hcsp Hret Ho Hpos Hoc Hosp Hs8 Hs Hms Hos Hcs.
  destruct (win_exec_save c m (length asm_restore + fuel) Hrcx Hready Hret) as (ms & Hsave & Hsaved & _ & _ & Hregs).
  pose proof (cs_dom _ _ _ Hsaved) as Hdom. pose proof (cs_rest _ _ _ Hsaved) as Hrest. fold sp in Hrest.
  pose proof Hready as (_ & (Hspr & Hsp8 & _) & _). unfold apart, PRS_CONTEXT_PARTIAL_SIZE, context_end in *.
  destruct (win_exec_restore o regs rip efl mxcsr xmm ms fuel) as (m1 & Hexec1 & Hrestored & Hmem1); fold s; unfold context_end; try done; try lia.
  { apply (win_ctx_holds_same (m_mem m)); [done|]. unfold context_end. intros a Ha. apply Hrest; lia. }
  { by rewrite Hregs. } { intros i Hi. by apply Hdom, Hms. }
  exists m1. split; [|split; [done|split]].
  { change (73 + fuel)%nat with (length asm_save + (length asm_restore + fuel))%nat. rewrite Hsave, Hexec1.
    unfold resume. by rewrite Hpos. }
  { intros a Ha. rewrite Hmem1. unfold below_stack. rewrite !lookup_insert_is_Some'. auto. }
  intros t fuel' Htc Htm Hts.
  destruct (win_saved_holds c sp m (m_mem ms) (m_mem t) Hsaved Hready) as (regs2 & efl2 & w & xmm2 & Hholds & Hr2 & Hx2 & Hw).
  { unfold PRS_CONTEXT_PARTIAL_SIZE. intros a Ha. rewrite Htm, Hmem1 by done. unfold below_stack. fold s.
    by rewrite !lookup_insert_ne by lia. }
  assert (regs2 RSP = sp) as Esp by (apply Hr2; by left).
  destruct (win_exec_restore c _ _ _ _ _ t (1 + fuel') Hholds Htc) as (m2 & Hexec2 & [Hr Hfl Hmx Hx] & Hmem2);
    rewrite ?Esp; unfold context_end; try done; try lia.
  exists m2. split_and!.
  - change (48 + fuel')%nat with (length asm_restore + (1 + fuel'))%nat. rewrite Hexec2. unfold resume.
    by rewrite (position_address _ win_swap_return_in_text).
  - intros r Hin. rewrite Hr. apply Hr2. by apply elem_of_cons in Hin.
  - intros i Hi. rewrite Hx by lia. by apply Hx2.
  - by exists w.
  - intros a Ha. rewrite Hmem2. unfold below_stack. rewrite Esp. by rewrite !lookup_insert_ne by lia.
Qed.
End exec.

(** ** A machine *)

#[export] Instance windows_prologue : Prologue 32 := demo_prologue 32.

Lemma windows_text_short : (length text < 1000)%nat.
Proof. vm_compute. lia. Qed.

#[export] Instance windows_layout : TextLayout := demo_layout_of windows_text_short.

(** The context of a thread at 0x10000, and its stack below 0x22000. *)
Definition demo_mem : memory :=
  <[0x10000 + off_reg RSP := 0x22000]> (words 0x10000 154 ∪ words 0x20000 1100).

Definition demo_regs (r : reg) : Z := if reg_index r =? 15 then 0x22000 else 1000 + off_reg r / 8.

Lemma win_demo_mapped a : (0x10000 ≤ a < 0x10000 + 8 * 154 ∨ 0x20000 ≤ a < 0x20000 + 8 * 1100) → a mod 8 = 0 → is_Some (demo_mem !! a).
Proof.
  intros Ha H8. unfold demo_mem. apply lookup_insert_is_Some'. right.
  apply lookup_union_is_Some. destruct Ha as [Ha|Ha]; [left|right].
  - replace a with (0x10000 + 8 * ((a - 0x10000) / 8)) by aligned. eexists. apply words_lookup. aligned.
  - replace a with (0x20000 + 8 * ((a - 0x20000) / 8)) by aligned. eexists. apply words_lookup. aligned.
Qed.

Lemma win_demo_holds :
  ctx_holds demo_mem 0x10000 demo_regs 1031 0 0 (λ i, (1052 + 2 * Z.of_nat i, 1053 + 2 * Z.of_nat i)).
Proof.
  split.
  - split_and!; by vm_compute.
  - intros r. destruct r; vm_compute; reflexivity.
  - vm_compute. reflexivity.
  - exists 1008. split; vm_compute; reflexivity.
  - exists 1006. split; vm_compute; reflexivity.
  - intros i Hi. do 16 (destruct i as [|i]; [vm_compute; reflexivity|]). lia.
Qed.

(** A call with six arguments, of a function that changes every register it may. *)
Lemma win_context_call_roundtrip_witness :
  ∃ mem' s1 b m', prs_pal_context_add 0x10000 0x500000 [1; 2; 3; 4; 5; 6] demo_mem = Ret mem' ∧ s1 mod 16 = 8 ∧
    exec (53 + 0) (label_pos _prs_pal_context_return_trampoline)
      (Machine (upd_reg RBP b (upd_reg RSP (s1 + 8) (λ _, 77))) 5 (λ _, (1, 2)) 3 mem') = Ret (Some (1031, m')) ∧
    m_regs m' RSP = 0x22000 ∧ m_regs m' RAX = 1015.
Proof.
  destruct (win_context_call_roundtrip demo_mem 0x10000 0x500000 [1; 2; 3; 4; 5; 6]
    demo_regs 1031 0 0 (λ i, (1052 + 2 * Z.of_nat i, 1053 + 2 * Z.of_nat i)))
    as (mem' & s1 & b & Hadd & Hp & Hret).
  - apply win_demo_holds.
  - done.
  - done.
  - done.
  - by vm_compute.
  - intros a Ha. apply win_demo_mapped. cbn in Ha. lia.
  - intros i Hi. apply win_demo_mapped; [lia|aligned].
  - left. by vm_compute.
  - destruct (Hret (Machine (upd_reg RBP b (upd_reg RSP (s1 + 8) (λ _, 77))) 5 (λ _, (1, 2)) 3 mem') 0%nat)
      as (m' & Hexec & [Hr _ _ _] & _); [done|done|done|cbn [m_mem]; rewrite (cp_return _ _ _ _ _ _ _ _ _ _ _ _ Hp); by eexists|].
    exists mem', s1, b, m'. split; [exact Hadd|]. split; [apply (cp_aligned _ _ _ _ _ _ _ _ _ _ _ _ Hp)|].
    split; [exact Hexec|]. rewrite !Hr. split; reflexivity.
Defined.

(** Two threads that switch: the first one, at 0x22000 on its stack, saves itself in the
    context at 0x10000 and restores the one at 0x40000; the second one comes back. *)
Definition switch_mem : memory :=
  <[0x40000 + off_reg RSP := 0x20800]> (demo_mem ∪ words 0x40000 154).

Definition switch_regs (r : reg) : Z := if reg_index r =? 15 then 0x20800 else 1000 + off_reg r / 8.

Definition switch_thread : machine :=
  Machine (upd_reg RCX 0x10000 (upd_reg RDX 0x40000 (upd_reg RSP 0x22000 reg_index))) 2 (λ i, (Z.of_nat i, 1)) 0x9F80 switch_mem.

Lemma win_switch_mapped a :
  (0x10000 ≤ a < 0x10000 + 8 * 154 ∨ 0x20000 ≤ a < 0x20000 + 8 * 1100) → a mod 8 = 0 → is_Some (switch_mem !! a).
Proof.
  intros Ha H8. unfold switch_mem. apply lookup_insert_is_Some'. right.
  apply lookup_union_is_Some. left. by apply win_demo_mapped.
Qed.

Lemma win_switch_holds :
  ctx_holds switch_mem 0x40000 switch_regs 1031 0 0 (λ i, (1052 + 2 * Z.of_nat i, 1053 + 2 * Z.of_nat i)).
Proof.
  split.
  - split_and!; by vm_compute.
  - intros r. destruct r; vm_compute; reflexivity.
  - vm_compute. reflexivity.
  - exists 1008. split; vm_compute; reflexivity.
  - exists 1006. split; vm_compute; reflexivity.
  - intros i Hi. do 16 (destruct i as [|i]; [vm_compute; reflexivity|]). lia.
Qed.

Lemma win_switch_ready : ctx_ready 0x10000 0x22000 switch_mem.
Proof.
  unfold ctx_ready. split; [|split].
  - split_and!; [by vm_compute..|]. intros i Hi. apply win_switch_mapped; [lia|aligned].
  - split_and!; [by vm_compute..|]. by apply win_switch_mapped; [lia|].
  - left. by vm_compute.
Qed.

Lemma win_context_switch_roundtrip_witness :
  ∃ m1 m2, exec (73 + 0) (label_pos prs_pal_context_swap) switch_thread = Ret (Some (1031, m1)) ∧ m_regs m1 RSP = 0x20800 ∧
    exec (48 + 0) (label_pos prs_pal_context_swap_restore) (set_reg RDX 0x10000 m1) =
      Ret (Some (address (label_pos prs_pal_context_swap_return), m2)) ∧
    m_regs m2 RSP = 0x22000 ∧ m_regs m2 R12 = m_regs switch_thread R12 ∧ m_mxcsr m2 = 0.
Proof.
  destruct (win_context_switch_roundtrip 0x10000 0x40000 switch_regs 1031 0 0
    (λ i, (1052 + 2 * Z.of_nat i, 1053 + 2 * Z.of_nat i)) switch_thread 0%nat) as (m1 & Hexec & [Hr _ _ _] & Hdom & Hback).
  1: reflexivity. 1: reflexivity. 1: exact win_switch_ready.
  all: change (m_regs switch_thread RSP) with 0x22000; change (switch_regs RSP) with 0x20800.
  all: try lazymatch goal with
    | |- apart _ _ _ _ => unfold apart, PRS_CONTEXT_PARTIAL_SIZE, context_end; lia
    | |- mapped _ _ _ => fail
    | |- ctx_holds _ _ _ _ _ _ _ => exact win_switch_holds
    | |- address _ < _ => by vm_compute
    | |- position _ = _ => by vm_compute
    | |- m_regs _ _ = _ => reflexivity
    | |- _ mod _ = _ => reflexivity
    | |- _ => lia
    end.
  1: { intros i Hi. apply win_switch_mapped; [lia|aligned]. }
  destruct (Hback (set_reg RDX 0x10000 m1) 0%nat) as (m2 & Hexec2 & Hregs & _ & (w & Hw & Hmx) & _); [done|done| |].
  - intros i Hi. apply Hdom, win_switch_mapped; change (m_regs switch_thread RSP) with 0x22000; [lia|aligned].
  - exists m1, m2. split; [exact Hexec|]. split; [by rewrite Hr|]. split; [exact Hexec2|].
    split; [rewrite Hregs by (by left); reflexivity|]. split; [apply Hregs; do 5 right; by left|].
    rewrite Hmx. vm_compute in Hw. injection Hw as <-. reflexivity.
Defined.
