(* ===== verification/Protocol.v ===== *)
(** * Protocols over the kernel's memory

    A protocol between threads is an abstract state, related to the memory, and the
    steps each thread may take on it; thread 0 may own a part of the memory that the
    others leave alone.  The rules below show that a program follows a protocol,
    statement by statement. *)

From S2P Require Import Prelude Atomic Kern.

(** ** Lists of lists *)

Lemma concat_insert {A : Type} (ls : list (list A)) i l l' :
  ls !! i = Some l → concat (<[i := l']> ls) ++ l ≡ₚ concat ls ++ l'.
Proof.
  revert i. induction ls as [|x ls IH]; intros [|i] Hi; simplify_eq/=.
  - rewrite <- (assoc_L (++)), (Permutation_app_comm (concat ls) l). rewrite (assoc_L (++)).
    rewrite (Permutation_app_comm l' l). rewrite <- !(assoc_L (++)). f_equiv. apply Permutation_app_comm.
  - rewrite <- !(assoc_L (++)). f_equiv. by apply IH.
Qed.

Lemma concat_snoc_perm {A : Type} (ls : list (list A)) i l x :
  ls !! i = Some l → concat (<[i := l ++ [x]]> ls) ≡ₚ concat ls ++ [x].
Proof.
  intros Hi. apply (Permutation_app_inv_r l). rewrite (concat_insert _ _ _ _ Hi).
  rewrite <- (assoc_L (++)). f_equiv. apply Permutation_app_comm.
Qed.

Lemma concat_tail_perm {A : Type} (ls : list (list A)) i l x :
  ls !! i = Some (x :: l) → concat (<[i := l]> ls) ++ [x] ≡ₚ concat ls.
Proof.
  intros Hi. apply (Permutation_app_inv_r l). rewrite <- (assoc_L (++)).
  change ([x] ++ l) with (x :: l). by rewrite (concat_insert _ _ _ _ Hi).
Qed.

(** ** Protocols *)

Section protocol.
Context {S V : Type} {fok : Prop} (rep : kern → S → Prop) (step : nat → S → S → Prop) (view : kern → V).
Hypothesis step_refl : ∀ t s, step t s s.

Definition pguar (t : nat) (s s' : kern * S) : Prop :=
  rep s.1 s.2 ∧ rep s'.1 s'.2 ∧ step t s.2 s'.2 ∧ (t ≠ 0%nat → view s'.1 = view s.1).
Definition pothers (t : nat) (s s' : kern * S) : Prop := ∃ t', t' ≠ t ∧ pguar t' s s'.
Definition prely (t : nat) : relation (kern * S) := rtc (pothers t).

#[export] Instance prely_preorder t : PreOrder (prely t).
Proof. unfold prely. apply _. Qed.

Lemma pguar_rely i j s s' : i ≠ j → pguar i s s' → prely j s s'.
Proof. intros Hne HG. apply rtc_once. by exists i. Qed.

Lemma pguar_step t s s' : pguar t s s' → step t s.2 s'.2.
Proof. by intros (_ & _ & ? & _). Qed.

(** What the other threads leave true. *)
Definition pstable (t : nat) (P : kern → S → Prop) : Prop :=
  ∀ c s c' s', prely t (c, s) (c', s') → P c s → P c' s'.

Lemma pstable_intro t (P : kern → S → Prop) :
  (∀ t' c s c' s', t' ≠ t → rep c' s' → step t' s s' → (t' ≠ 0%nat → view c' = view c) → P c s → P c' s') →
  pstable t P.
Proof.
  intros Hstep c s c' s' HR. remember (c, s) as x eqn:Ex. remember (c', s') as x' eqn:Ex'.
  revert c s Ex. induction HR as [x|x1 [c2 s2] x3 Hs _ IH]; intros c s -> HP.
  - by simplify_eq.
  - destruct Hs as (t' & Hne & _ & Hr & Hs & Hv). apply (IH Ex' c2 s2 eq_refl). by eapply Hstep.
Qed.

Abbreviation pwp t := (rg fok False True (prely t) (pguar t)).

Context (t : nat) (P : kern → S → Prop) (Hst : pstable t P) (Hrep : ∀ c s, P c s → rep c s).

Lemma pw_read {A W : Type} (f : kern → outcome (W * kern)) v (k : W → prog kern A) Q c s :
  P c s → (∀ c s, P c s → f c = Ret (v, c)) → (∀ c s, P c s → pwp t (k v) Q c s) →
  pwp t (act f ≫= k) Q c s.
Proof using Hst Hrep step_refl.
  intros HP Hf Hk. rg_bind_act. intros c1 s1 HR. apply (Hst _ _ _ _ HR) in HP.
  exists v, c1, s1. split; [by eapply Hf|]. split; [|by apply Hk]. split_and!; auto.
Qed.

(** A read whose value depends on the moment. *)
Lemma pw_look {A W : Type} (f : kern → outcome (W * kern)) (k : W → prog kern A) Q c s :
  P c s → (∀ c s, P c s → ∃ v, f c = Ret (v, c) ∧ pwp t (k v) Q c s) → pwp t (act f ≫= k) Q c s.
Proof using Hst Hrep step_refl.
  intros HP Hf. rg_bind_act. intros c1 s1 HR. apply (Hst _ _ _ _ HR) in HP.
  destruct (Hf c1 s1 HP) as (v & Hv & Hk). exists v, c1, s1. split; [done|]. split; [|done].
  split_and!; auto.
Qed.

Lemma pw_read_only {W : Type} (f : kern → outcome (W * kern)) v (Q : W → kern → S → Prop) c s :
  P c s → (∀ c s, P c s → f c = Ret (v, c)) → (∀ c s, P c s → Q v c s) → pwp t (act f) Q c s.
Proof using Hst Hrep step_refl.
  intros HP Hf Hk. rg_act. intros c1 s1 HR. apply (Hst _ _ _ _ HR) in HP.
  exists v, c1, s1. split; [by eapply Hf|]. split; [split_and!; auto|].
  intros c3 s3 HR3. apply Hk. by apply (Hst _ _ _ _ HR3).
Qed.

Lemma pw_done {A : Type} (a : A) (Q : A → kern → S → Prop) c s :
  P c s → (∀ c s, P c s → Q a c s) → pwp t (mret a) Q c s.
Proof using Hst.
  intros HP HQ. apply rg_done. intros c1 s1 HR. apply HQ. by apply (Hst _ _ _ _ HR).
Qed.

(** An action, with where it leads. *)
Lemma pw_act {A W : Type} (f : kern → outcome (W * kern)) (k : W → prog kern A) Q c s :
  P c s →
  (∀ c s, P c s → ∃ v c' s', f c = Ret (v, c') ∧ rep c' s' ∧ step t s s' ∧
    (t ≠ 0%nat → view c' = view c) ∧ pwp t (k v) Q c' s') →
  pwp t (act f ≫= k) Q c s.
Proof using Hst Hrep.
  intros HP Hf. rg_bind_act. intros c1 s1 HR. apply (Hst _ _ _ _ HR) in HP.
  destruct (Hf c1 s1 HP) as (v & c' & s' & Hfc & Hr & Hs & Hv & Hk).
  exists v, c', s'. split; [done|]. split; [|done]. split_and!; auto.
Qed.

Lemma pw_act_only {W : Type} (f : kern → outcome (W * kern)) (P' : W → kern → S → Prop) Q c s :
  P c s → (∀ v, pstable t (P' v)) →
  (∀ c s, P c s → ∃ v c' s', f c = Ret (v, c') ∧ rep c' s' ∧ step t s s' ∧
    (t ≠ 0%nat → view c' = view c) ∧ P' v c' s') →
  (∀ v c s, P' v c s → Q v c s) → pwp t (act f) Q c s.
Proof using Hst Hrep.
  intros HP Hst' Hf HQ. rg_act. intros c1 s1 HR. apply (Hst _ _ _ _ HR) in HP.
  destruct (Hf c1 s1 HP) as (v & c' & s' & Hfc & Hr & Hs & Hv & Hk).
  exists v, c', s'. split; [done|]. split; [split_and!; auto|].
  intros c3 s3 HR3. apply HQ. by apply (Hst' _ _ _ _ _ HR3).
Qed.

(** [PRS_FATAL_WHEN] of a condition that holds. *)
Lemma pw_fatal {A : Type} (k : unit → prog kern A) Q c s : fok → pwp t (fatal_if true ≫= k) Q c s.
Proof. intros H c1 s1 _. exact H. Qed.

(** Code of another module, of which only its frame is known. *)
Lemma pw_within {A : Type} (J : kern → Prop) (F : relation kern) (p : prog kern A) c s :
  (∀ c s, P c s → J c) → (∀ c c' s, P c s → F c c' → P c' s ∧ view c' = view c) →
  within J F p → P c s → pwp t p (λ _ c s, P c s) c s.
Proof using Hst Hrep step_refl.
  intros HJ HF Hp HP. eapply (rg_within _ _ _ _ _ _ J F P); [by apply Hst|done| |done|done].
  intros c1 c2 s1 HP1 HF1. destruct (HF _ _ _ HP1 HF1) as [HP2 Hv]. split; [done|].
  split_and!; simpl; auto.
Qed.
End protocol.

(** [fok]: whether the program may stop the system through [PRS_FATAL_WHEN]. *)
Abbreviation pwp_fatal fok rep step view t := (rg fok False True (prely rep step view t) (pguar rep step view t)).
Abbreviation pwp rep step view t := (pwp_fatal False rep step view t).
