(* ===== verification/Prio.v ===== *)
(** * Making tasks ready while the priority scheduler chooses (prs/sched/swprio.c)

    The worker looks for the next task while other threads put tasks on the ready
    queues and set the bits of their priorities.  The bits and the queues are
    updated one after the other: this file states the protocol that keeps them
    together, shows that the functions follow it in every interleaving, and that
    no ready task is lost or passed over by one of a lower priority. *)

From S2P Require Import Prelude Bitops Heap Atomic RefDir Kern Pal Worker Task Swprio Protocol.

(** ** The protocol *)

(** A thread that makes a task ready: before the push, before the bit is set, then
    without or with a reference on the current task. *)
Inductive ready_phase : Set := Start | Pushed (prio : nat) | Free | Locked.

#[export] Instance ready_phase_eq_dec : EqDecision ready_phase.
Proof. solve_decision. Defined.

(** The mask, the queues by priority, the phases of the other threads, the priority
    whose bit the worker still has to look after, the task's structure it has
    taken, and the one it has put back. *)
Record pst : Type := PSt {
  p_mask : Z;
  p_queues : list (list loc);
  p_phases : list ready_phase;
  p_owed : option nat;
  p_took : option loc;
  p_back : option loc
}.

Definition bit (prio : nat) : Z := u32 (Z.shiftl 1 (Z.of_nat prio)).

(** How many threads hold a reference. *)
Definition locked (ps : list ready_phase) : nat := length (filter (λ p, p = Locked) ps).

(** What has been pushed. *)
Definition pushed (us : list loc) (ps : list ready_phase) : list loc :=
  concat (zip_with (λ u p, if decide (p = Start) then [] else [u]) us ps).

Section protocol.
Context (U : gmap loc (loc * nat)) (us : list loc) (qs0 : list (list loc)).

(** The actions of thread [t]; thread 0 is the worker, thread [S i] pushes the [i]-th
    of [us]. *)
Inductive pstep (t : nat) : pst → pst → Prop :=
  | p_nop s : pstep t s s
  | p_push i u task p q m qs ps ow tk bk : t = S i → ps !! i = Some Start → us !! i = Some u →
      U !! u = Some (task, p) → qs !! p = Some q →
      pstep t (PSt m qs ps ow tk bk) (PSt m (<[p := q ++ [u]]> qs) (<[i := Pushed p]> ps) ow tk bk)
  | p_post i p m qs ps ow tk bk : t = S i → ps !! i = Some (Pushed p) →
      pstep t (PSt m qs ps ow tk bk) (PSt (Z.lor m (bit p)) qs (<[i := Free]> ps) ow tk bk)
  | p_lock i m qs ps ow tk bk : t = S i → ps !! i = Some Free →
      pstep t (PSt m qs ps ow tk bk) (PSt m qs (<[i := Locked]> ps) ow tk bk)
  | p_unlock i m qs ps ow tk bk : t = S i → ps !! i = Some Locked →
      pstep t (PSt m qs ps ow tk bk) (PSt m qs (<[i := Free]> ps) ow tk bk)
  | p_clear p m qs ps tk bk : t = 0%nat → (p < 32)%nat →
      pstep t (PSt m qs ps None tk bk) (PSt (Z.land m (not32 (bit p))) qs ps (Some p) tk bk)
  | p_empty p m qs ps tk bk : t = 0%nat → qs !! p = Some [] →
      pstep t (PSt m qs ps (Some p) tk bk) (PSt m qs ps None tk bk)
  | p_restore p m qs ps tk bk : t = 0%nat → (p < 32)%nat →
      pstep t (PSt m qs ps (Some p) tk bk) (PSt (Z.lor m (bit p)) qs ps None tk bk)
  | p_take u p q m qs ps bk : t = 0%nat → qs !! p = Some (u :: q) →
      pstep t (PSt m qs ps None None bk) (PSt m (<[p := q]> qs) ps None (Some u) bk)
  | p_preempt u task p q m qs ps : t = 0%nat → U !! u = Some (task, p) → qs !! p = Some q →
      pstep t (PSt m qs ps None None None) (PSt m (<[p := q ++ [u]]> qs) ps (Some p) None (Some u)).

Record pinv (s : pst) : Prop := PInv {
  pi_mask : 0 ≤ p_mask s < 2 ^ 32;
  pi_length : length (p_queues s) = 32%nat;
  pi_phases : length (p_phases s) = length us;
  pi_told p u q : p_queues s !! p = Some (u :: q) →
    Z.testbit (p_mask s) (Z.of_nat p) = true ∨ Pushed p ∈ p_phases s ∨ p_owed s = Some p;
  pi_pushed i p : p_phases s !! i = Some (Pushed p) → (p < 32)%nat;
  pi_kept : concat (p_queues s) ++ option_list (p_took s) ≡ₚ
    (concat qs0 ++ option_list (p_back s)) ++ pushed us (p_phases s)
}.

Lemma testbit_bit p i : (p < 32)%nat → Z.testbit (bit p) i = (i =? Z.of_nat p).
Proof.
  intros Hp. unfold bit. rewrite Z.shiftl_1_l, u32_small.
  - apply testbit_pow2. lia.
  - split; [lia|]. apply Z.pow_lt_mono_r; lia.
Qed.

Lemma bit_range p : (p < 32)%nat → 0 < bit p < 2 ^ 32.
Proof.
  intros Hp. unfold bit. rewrite Z.shiftl_1_l, u32_small.
  - split; [lia|]. apply Z.pow_lt_mono_r; lia.
  - split; [lia|]. apply Z.pow_lt_mono_r; lia.
Qed.

Lemma lor_range a b n : 0 ≤ n → 0 ≤ a < 2 ^ n → 0 ≤ b < 2 ^ n → 0 ≤ Z.lor a b < 2 ^ n.
Proof.
  intros Hn Ha Hb. assert (0 ≤ Z.lor a b) by (apply Z.lor_nonneg; lia).
  split; [done|]. apply bounded_of_testbit; [done..|]. intros i Hi.
  by rewrite Z.lor_spec, (testbit_above a n), (testbit_above b n) by lia.
Qed.

Lemma testbit_clear m p i : (p < 32)%nat → 0 ≤ i < 32 →
  Z.testbit (Z.land m (not32 (bit p))) i = Z.testbit m i && negb (i =? Z.of_nat p).
Proof.
  intros Hp Hi. rewrite Z.land_spec. f_equal. unfold not32, u32.
  rewrite Z.mod_pow2_bits_low, Z.lnot_spec, testbit_bit by lia. done.
Qed.

Lemma clear_range m p : 0 ≤ m < 2 ^ 32 → 0 ≤ Z.land m (not32 (bit p)) < 2 ^ 32.
Proof.
  intros Hm. assert (0 ≤ Z.land m (not32 (bit p))) by (apply Z.land_nonneg; lia).
  split; [done|]. apply bounded_of_testbit; [done|lia|]. intros i Hi.
  by rewrite Z.land_spec, (testbit_above m 32) by lia.
Qed.

Lemma pushed_start ps i u ph :
  length ps = length us → ps !! i = Some Start → us !! i = Some u → ph ≠ Start →
  pushed us (<[i := ph]> ps) ≡ₚ pushed us ps ++ [u].
Proof.
  intros Hl Hi Hu Hph. unfold pushed. rewrite <- (list_insert_id us i u Hu) at 1.
  rewrite <- insert_zip_with. rewrite decide_False by done.
  rewrite <- (concat_insert _ i []); [by rewrite app_nil_r|].
  rewrite lookup_zip_with, Hu, Hi. done.
Qed.

Lemma pushed_on ps i p ph :
  ps !! i = Some p → p ≠ Start → ph ≠ Start → pushed us (<[i := ph]> ps) = pushed us ps.
Proof.
  intros Hi Hp Hph. unfold pushed. destruct (us !! i) as [u|] eqn:Hu.
  - rewrite <- (list_insert_id us i u Hu) at 1. rewrite <- insert_zip_with, decide_False by done.
    f_equal. apply list_insert_id. by rewrite lookup_zip_with, Hu, Hi; simpl; rewrite decide_False.
  - apply lookup_ge_None in Hu. f_equal. apply list_eq. intros j. rewrite !lookup_zip_with.
    destruct (decide (j = i)) as [->|]; [|by rewrite list_lookup_insert_ne].
    by rewrite (proj2 (lookup_ge_None us i) Hu).
Qed.

Lemma elem_of_phases (ps : list ready_phase) i p p0 q :
  ps !! i = Some p0 → q ≠ p0 → q ∈ ps → q ∈ <[i := p]> ps.
Proof.
  intros Hi Hne Hq. apply list_elem_of_lookup in Hq as [j Hj].
  apply list_elem_of_lookup. exists j. rewrite list_lookup_insert_ne; [done|]. intros <-. congruence.
Qed.

Lemma phases_bound (ps : list ready_phase) i ph :
  (∀ j p, ps !! j = Some (Pushed p) → (p < 32)%nat) → (∀ p, ph = Pushed p → (p < 32)%nat) →
  ∀ j p, <[i := ph]> ps !! j = Some (Pushed p) → (p < 32)%nat.
Proof. intros H Hph j p [(_ & ? & _)|[_ ?]]%list_lookup_insert_Some; eauto. Qed.

(** Steps of the other threads that change a phase only. *)
Lemma p_phase_inv m qs ps ow tk bk i p0 p :
  ps !! i = Some p0 → p0 ≠ Start → (∀ q, p0 ≠ Pushed q) → p ≠ Start → (∀ q, p ≠ Pushed q) →
  pinv (PSt m qs ps ow tk bk) → pinv (PSt m qs (<[i := p]> ps) ow tk bk).
Proof.
  intros Hi H0 H0' Hp Hp' [Hm Hl Hlp Ht Hb Hk]. simpl in *. split; simpl; try done.
  - by rewrite length_insert.
  - intros p1 u q Hq. destruct (Ht p1 u q Hq) as [?|[?|?]]; auto. right; left.
    eapply elem_of_phases; eauto.
  - apply phases_bound; [done|]. intros q ->. by destruct (Hp' q).
  - by erewrite pushed_on.
Qed.

Hypothesis prio_bound : ∀ u t p, U !! u = Some (t, p) → (p < 32)%nat.

Lemma pstep_inv t s s' : pstep t s s' → pinv s → pinv s'.
Proof using prio_bound.
  intros [s0|i u task p q m qs ps ow tk bk _ Hi Hu HU Hq|i p m qs ps ow tk bk _ Hi|i m qs ps ow tk bk _ Hi
    |i m qs ps ow tk bk _ Hi|p m qs ps tk bk _ Hp|p m qs ps tk bk _ Hq|p m qs ps tk bk _ Hp
    |u p q m qs ps bk _ Hq|u task p q m qs ps _ HU Hq] HI; [done|..];
    try (by eapply (p_phase_inv _ _ _ _ _ _ _ _ _ Hi)); destruct HI as [Hm Hl Hlp Ht Hb Hk]; simpl in *.
  - split; simpl; rewrite ?length_insert; try done.
    + intros p1 u1 q1 Hq1. destruct (decide (p1 = p)) as [->|Hne].
      * right; left. apply list_elem_of_lookup. exists i. apply list_lookup_insert_eq.
        by eapply lookup_lt_Some.
      * rewrite list_lookup_insert_ne in Hq1 by done. destruct (Ht p1 u1 q1 Hq1) as [?|[?|?]]; auto.
        right; left. by eapply elem_of_phases.
    + apply phases_bound; [done|]. intros ? [= <-]. by eapply prio_bound.
    + rewrite (concat_snoc_perm _ _ _ _ Hq), (pushed_start _ _ _ _ Hlp Hi Hu) by done.
      rewrite (assoc_L (++)), <- Hk, <- !(assoc_L (++)). f_equiv. apply Permutation_app_comm.
  - pose proof (Hb i p Hi) as Hp. pose proof (bit_range p Hp). split; simpl; rewrite ?length_insert; try done.
    + apply lor_range; lia.
    + intros p1 u1 q1 Hq1. rewrite Z.lor_spec, testbit_bit by done.
      destruct (decide (p1 = p)) as [->|Hne]; [left; rewrite Z.eqb_refl; apply orb_true_r|].
      destruct (Ht p1 u1 q1 Hq1) as [->|[?|?]]; auto.
      right; left. eapply elem_of_phases; [done| |done]. congruence.
    + by apply phases_bound.
    + by erewrite pushed_on.
  - split; simpl; try done; [by apply clear_range|].
    intros p1 u1 q1 Hq1. pose proof (lookup_lt_Some _ _ _ Hq1).
    destruct (decide (p1 = p)) as [->|Hne]; [auto|].
    destruct (Ht p1 u1 q1 Hq1) as [Hb1|[?|?]]; [|auto|done].
    left. rewrite testbit_clear, Hb1 by lia. by rewrite (proj2 (Z.eqb_neq _ _)) by lia.
  - split; simpl; try done. intros p1 u1 q1 Hq1.
    destruct (Ht p1 u1 q1 Hq1) as [?|[?|[= ->]]]; auto. congruence.
  - pose proof (bit_range p Hp). split; simpl; try done; [apply lor_range; lia|].
    intros p1 u1 q1 Hq1. rewrite Z.lor_spec, testbit_bit by done.
    destruct (Ht p1 u1 q1 Hq1) as [->|[?|[= ->]]]; auto. rewrite Z.eqb_refl, orb_true_r. auto.
  - split; simpl; rewrite ?length_insert; try done.
    + intros p1 u1 q1 Hq1. destruct (decide (p1 = p)) as [->|Hne].
      * by apply (Ht p u q).
      * rewrite list_lookup_insert_ne in Hq1 by done. by apply (Ht p1 u1 q1).
    + rewrite app_nil_r in Hk. by rewrite (concat_tail_perm _ _ _ _ Hq).
  - split; simpl; rewrite ?length_insert; try done.
    + intros p1 u1 q1 Hq1. destruct (decide (p1 = p)) as [->|Hne]; [auto|].
      rewrite list_lookup_insert_ne in Hq1 by done. destruct (Ht p1 u1 q1 Hq1) as [?|[?|?]]; auto. done.
    + rewrite !app_nil_r in *. rewrite (concat_snoc_perm _ _ _ _ Hq), Hk, <- !(assoc_L (++)).
      f_equiv. apply Permutation_app_comm.
Qed.
End protocol.

(** ** The memory

    [w] is the worker, on thread [th], of the scheduler [sd], whose structures are
    [sw], [sp] and [dl], with the ready queues [rqs] and an empty remove queue [mq].
    [U] gives the task and the priority of each scheduler's structure of a task,
    and [id0] is the ID of the worker's current task [t0]. *)

Section implementation.
Context `{!ObjectFree}.
Context (w th sw sd sp dl nd mq : loc) (rqs : list loc) (id0 : Z) (t0 : loc) (U : gmap loc (loc * nat)).
Context (us : list loc) (qs0 : list (list loc)).

Record penv (c : kern) : Prop := PEnv {
  pe_sched_worker : sw_sched_data <$> k_sched_workers c !! sw = Some (Some sd);
  pe_worker : sw_worker <$> k_sched_workers c !! sw = Some (Some w);
  pe_sched : sd_userdata <$> k_scheds c !! sd = Some (Some sp);
  pe_workers : sd_workers <$> k_scheds c !! sd = Some (Some dl);
  pe_dllist : k_dllists c !! dl = Some [(nd, sw)];
  pe_removeq : k_queues c !! mq = Some [];
  pe_thread : wk_pal_thread <$> k_workers c !! w = Some th;
  pe_thread' : is_Some (k_threads c !! th);
  pe_current : wk_current_task_id <$> k_workers c !! w = Some id0;
  pe_tasks u t p : U !! u = Some (t, p) →
    k_uds c !! u = Some (SchedTaskUserdata (Some t)) ∧
    tk_sched_userdata <$> k_tasks c !! t = Some (Some u) ∧
    tk_prio <$> k_tasks c !! t = Some (Z.of_nat p)
}.

(** The object of the current task, if it is registered, is a task, with more
    references than the threads here hold. *)
Definition refs_ok (c : kern) (ps : list ready_phase) : Prop :=
  match k_objs c !! id0 with
  | Some (n, (t, _)) => (locked ps < n)%nat ∧ t = t0 ∧ is_Some (k_tasks c !! t0)
  | None => locked ps = 0%nat
  end.

Record prep (c : kern) (s : pst) : Prop := PRep {
  pr_env : penv c;
  pr_swprio : k_swprio c !! sp = Some (PrsSchedSwprio (p_mask s) (Some <$> rqs) (Some mq));
  pr_queues p rq : rqs !! p = Some rq → ∃ q, p_queues s !! p = Some q ∧ k_queues c !! rq = Some q;
  pr_known p q u : p_queues s !! p = Some q → u ∈ q → ∃ t, U !! u = Some (t, p);
  pr_refs : refs_ok c (p_phases s);
  pr_inv : pinv us qs0 s
}.

(** Only the worker changes the tasks. *)
Abbreviation step := (pstep U us).
Abbreviation wp t := (pwp prep step k_tasks t).
Abbreviation stable := (pstable prep step k_tasks).

Lemma step_refl t s : step t s s.
Proof. constructor. Qed.

(** Where the worker is: the tasks, bits that are set, what the queues start with,
    and its part of the protocol. *)
Record at_chooser (T : gmap loc prs_task) (m : Z) (qs : list (list loc)) (ow : option nat)
    (tk bk : option loc) (c : kern) (s : pst) : Prop := AtWorker {
  aw_rep : prep c s;
  aw_tasks : k_tasks c = T;
  aw_mask i : Z.testbit m i = true → Z.testbit (p_mask s) i = true;
  aw_queues p q : qs !! p = Some q → ∃ q', p_queues s !! p = Some (q ++ q');
  aw_owed : p_owed s = ow;
  aw_took : p_took s = tk;
  aw_back : p_back s = bk
}.

(** Where another thread is. *)
Definition at_ready (i : nat) (ph : ready_phase) (c : kern) (s : pst) : Prop :=
  prep c s ∧ p_phases s !! i = Some ph.

Lemma p_worker_stable T m qs ow tk bk : stable 0 (at_chooser T m qs ow tk bk).
Proof.
  apply pstable_intro. intros t c s c' s' Hne Hr Hs Hv [Hr0 Ht Hm Hq Ho Htk Hbk].
  assert (k_tasks c' = T) as Ht' by (rewrite Hv by done; done).
  destruct Hs; try done; simpl in *; split; simpl; try done.
  - intros p1 q1 Hq1. destruct (Hq p1 q1 Hq1) as [q' Hq'].
    destruct (decide (p1 = p)) as [->|Hp]; [|rewrite list_lookup_insert_ne by done; by exists q'].
    simplify_eq. exists (q' ++ [u]). rewrite list_lookup_insert_eq by (by eapply lookup_lt_Some).
    by rewrite (assoc_L (++)).
  - intros j Hj. by rewrite Z.lor_spec, Hm.
Qed.

Lemma ready_stable i ph : stable (S i) (at_ready i ph).
Proof.
  apply pstable_intro. intros t c s c' s' Hne Hr Hs Hv [_ Hp]. split; [done|].
  destruct Hs; subst; simpl in *; try done; rewrite list_lookup_insert_ne; congruence.
Qed.

Lemma p_worker_rep T m qs ow tk bk c s : at_chooser T m qs ow tk bk c s → prep c s.
Proof. by intros []. Qed.
Lemma ready_rep i ph c s : at_ready i ph c s → prep c s.
Proof. by intros []. Qed.

(** *** What the reads give *)

Hypothesis rqs_length : length rqs = 32%nat.
Hypothesis rqs_nodup : NoDup (mq :: rqs).
Hypothesis prio_bound : ∀ u t p, U !! u = Some (t, p) → (p < 32)%nat.

Lemma p_ud_of_task c s u t p :
  prep c s → U !! u = Some (t, p) → tk_sched_userdata <$> k_tasks c !! t = Some (Some u).
Proof using All. intros Hr Hu. by apply (pe_tasks _ (pr_env _ _ Hr) u t p). Qed.

Lemma prio_of_task c s u t p :
  prep c s → U !! u = Some (t, p) → tk_prio <$> k_tasks c !! t = Some (Z.of_nat p).
Proof using All. intros Hr Hu. by apply (pe_tasks _ (pr_env _ _ Hr) u t p). Qed.

Lemma p_task_of_ud c s u t p : prep c s → U !! u = Some (t, p) → ud_task <$> k_uds c !! u = Some (Some t).
Proof using All. intros Hr Hu. by destruct (pe_tasks _ (pr_env _ _ Hr) u t p Hu) as [-> _]. Qed.

Lemma readyq_value c s p rq :
  prep c s → rqs !! p = Some rq →
  (e ← deref (k_swprio c !! sp); q ← load (sp_readyq e) (Z.of_nat p); Ret (q, c)) = Ret (Some rq, c).
Proof using All.
  intros Hr Hp. rewrite (pr_swprio _ _ Hr). ocbn. cbn [sp_readyq]. unfold load.
  rewrite (proj2 (Z.leb_le _ _)), Nat2Z.id, list_lookup_fmap, Hp by lia. done.
Qed.

Lemma prio_bit_value (c : kern) p :
  (p < 32)%nat →
  (if (0 <=? Z.of_nat p) && (Z.of_nat p <? 32) then Ret (u32 (Z.shiftl 1 (Z.of_nat p)), c) else Undef) =
    Ret (bit p, c).
Proof. intros Hp. rewrite (proj2 (Z.leb_le _ _)), (proj2 (Z.ltb_lt _ _)) by lia. done. Qed.

#[local] Opaque rgb.

Ltac env_fact Hr :=
  first
    [ apply (pe_sched_worker _ (pr_env _ _ Hr)) | apply (pe_worker _ (pr_env _ _ Hr))
    | apply (pe_sched _ (pr_env _ _ Hr)) | apply (pe_workers _ (pr_env _ _ Hr))
    | rewrite (pr_swprio _ _ Hr); simpl; reflexivity
    | rewrite (pe_dllist _ (pr_env _ _ Hr)); reflexivity
    | rewrite (pe_removeq _ (pr_env _ _ Hr)); reflexivity
    | apply (pe_thread _ (pr_env _ _ Hr)) | apply (pe_current _ (pr_env _ _ Hr))
    | eapply p_ud_of_task; eassumption | eapply prio_of_task; eassumption | eapply p_task_of_ud; eassumption ].
Ltac env_value Hr :=
  first [reflexivity | eapply read_value; env_fact Hr | eapply get_field_value; env_fact Hr
    | eapply readyq_value; eassumption | by apply prio_bit_value ].

(** The next statement reads what nobody changes. *)
Ltac ready_step Hat :=
  lazymatch type of Hat with
  | at_ready ?i ?ph ?c ?s =>
      first [eapply (pw_read_only _ _ _ step_refl _ _ (ready_stable i ph) (ready_rep i ph))
            |eapply (pw_read _ _ _ step_refl _ _ (ready_stable i ph) (ready_rep i ph))];
        [exact Hat|let Hr := fresh in intros ? ? [Hr _]; cbv beta; env_value Hr|];
        clear Hat; try clear c s; intros c s Hat; cbv beta
  end.
Ltac ready_done Hat :=
  lazymatch type of Hat with
  | at_ready ?i ?ph ?c ?s =>
      apply (pw_done _ _ _ _ _ (ready_stable i ph) _ _ _ _ Hat); clear Hat; try clear c s; intros c s Hat; cbv beta
  end.
Ltac worker_step Hat :=
  lazymatch type of Hat with
  | at_chooser ?T ?m ?qs ?ow ?tk ?bk ?c ?s =>
      first [eapply (pw_read_only _ _ _ step_refl _ _ (p_worker_stable T m qs ow tk bk) (p_worker_rep T m qs ow tk bk))
            |eapply (pw_read _ _ _ step_refl _ _ (p_worker_stable T m qs ow tk bk) (p_worker_rep T m qs ow tk bk))];
        [exact Hat|let Hr := fresh in intros ? ? [Hr _ _ _ _ _ _]; cbv beta; env_value Hr|];
        clear Hat; try clear c s; intros c s Hat; cbv beta
  end.
Ltac worker_done Hat :=
  lazymatch type of Hat with
  | at_chooser ?T ?m ?qs ?ow ?tk ?bk ?c ?s =>
      apply (pw_done _ _ _ _ _ (p_worker_stable T m qs ow tk bk) _ _ _ _ Hat);
        clear Hat; try clear c s; intros c s Hat; cbv beta
  end.

(** *** What the writes do *)

Lemma rep_mask_set c s s' :
  prep c s → p_queues s' = p_queues s → refs_ok c (p_phases s') → pinv us qs0 s' →
  prep (with_swprio (<[sp := PrsSchedSwprio (p_mask s') (Some <$> rqs) (Some mq)]> (k_swprio c)) c) s'.
Proof.
  intros [[] Hsp Hq Hk Hr HI] Eq Hr' HI'. split; rewrite ?Eq; try done.
  simpl. by rewrite lookup_insert_eq.
Qed.

Lemma prep_queue_set c s s' p rq q :
  prep c s → rqs !! p = Some rq → p_mask s' = p_mask s → p_queues s' = <[p := q]> (p_queues s) →
  (∀ u, u ∈ q → ∃ t, U !! u = Some (t, p)) → refs_ok c (p_phases s') → pinv us qs0 s' →
  prep (with_queues (<[rq := q]> (k_queues c)) c) s'.
Proof using rqs_nodup.
  intros [[] Hsp Hq Hk Hr HI] Hp Em Eq Hu Hr' HI'. apply NoDup_cons in rqs_nodup as [Hmq Hnd].
  split; rewrite ?Em, ?Eq; try done.
  - split; try done. simpl. rewrite lookup_insert_ne; [done|]. intros <-.
    apply Hmq. by eapply list_elem_of_lookup_2.
  - intros p1 rq1 Hp1. simpl. destruct (Hq p1 rq1 Hp1) as (q1 & Hq1 & Hk1).
    destruct (decide (p1 = p)) as [->|Hne].
    + exists q. simplify_eq. rewrite lookup_insert_eq, list_lookup_insert_eq; [done|by eapply lookup_lt_Some].
    + exists q1. rewrite list_lookup_insert_ne, lookup_insert_ne; [done| |done].
      intros <-. by apply Hne, (NoDup_lookup rqs p1 p rq).
  - intros p1 q1 u [(-> & <- & _)|[_ Hq1]]%list_lookup_insert_Some Hin; [auto|by eapply Hk].
Qed.

Lemma rep_objs_set c s s' n o :
  prep c s → p_mask s' = p_mask s → p_queues s' = p_queues s → is_Some (k_tasks c !! t0) →
  (locked (p_phases s') < n)%nat → pinv us qs0 s' →
  prep (with_objs (<[id0 := (n, (t0, o))]> (k_objs c)) c) s'.
Proof.
  intros [[] Hsp Hq Hk Hr HI] Em Eq Ht Hn HI'. split; rewrite ?Em, ?Eq; try done.
  unfold refs_ok. simpl. by rewrite lookup_insert_eq.
Qed.

Lemma rep_tasks_set c s t e v :
  prep c s → k_tasks c !! t = Some e →
  prep (with_tasks (<[t := set_tk_state v e]> (k_tasks c)) c) s.
Proof.
  intros [[H1 H2 H3 H4 H5 H6 H7 H8 H9 Ht] Hsp Hq Hk Hr HI] He. split; try done.
  - split; try done. simpl. intros u t1 p Hu. destruct (Ht u t1 p Hu) as (? & Hs & Hp).
    destruct (decide (t1 = t)) as [->|]; [|by rewrite lookup_insert_ne].
    rewrite lookup_insert_eq. rewrite He in Hs, Hp. done.
  - unfold refs_ok in *. simpl. destruct (k_objs c !! id0) as [[n [t1 o]]|]; [|done].
    destruct Hr as (? & ? & Ht0). split_and!; try done. rewrite lookup_insert_is_Some.
    destruct (decide (t = t0)); auto.
Qed.

Lemma locked_insert ps i p ph :
  ps !! i = Some p →
  (locked (<[i := ph]> ps) + (if decide (p = Locked) then 1 else 0) =
   locked ps + (if decide (ph = Locked) then 1 else 0))%nat.
Proof.
  unfold locked. revert i. induction ps as [|p1 ps IH]; intros [|i] Hi; simplify_eq/=.
  - rewrite !filter_cons. repeat case_decide; simpl; lia.
  - specialize (IH i Hi). rewrite !filter_cons. repeat case_decide; simpl; lia.
Qed.

Lemma refs_same c ps i p ph :
  ps !! i = Some p → p ≠ Locked → ph ≠ Locked → refs_ok c ps → refs_ok c (<[i := ph]> ps).
Proof.
  intros Hi Hp Hph. pose proof (locked_insert ps i p ph Hi) as Hl. rewrite !decide_False in Hl by done.
  unfold refs_ok. destruct (k_objs c !! id0) as [[n [t o]]|]; [|lia]. intros (? & ? & ?). split_and!; try done. lia.
Qed.

(** *** A thread that makes a task ready *)

Lemma phase_set (ps : list ready_phase) i p p0 : ps !! i = Some p0 → <[i := p]> ps !! i = Some p.
Proof. intros Hi. apply list_lookup_insert_eq. by eapply lookup_lt_Some. Qed.

(** An action that moves the thread to its next phase. *)
Lemma ready_move {A V : Type} i ph (ph' : V → ready_phase) (f : kern → outcome (V * kern))
    (k : V → prog kern A) Q c s :
  at_ready i ph c s →
  (∀ c s, prep c s → p_phases s !! i = Some ph → ∃ v c' s', f c = Ret (v, c') ∧ k_tasks c' = k_tasks c ∧
     step (S i) s s' ∧ (pinv us qs0 s' → prep c' s') ∧ p_phases s' !! i = Some (ph' v)) →
  (∀ v c s, at_ready i (ph' v) c s → wp (S i) (k v) Q c s) →
  wp (S i) (act f ≫= k) Q c s.
Proof using prio_bound.
  intros Hat Hf Hk. eapply (pw_act _ _ _ _ _ (ready_stable i ph) (ready_rep i ph)); [exact Hat|].
  clear Hat. intros c1 s1 [Hr Hp]. destruct (Hf c1 s1 Hr Hp) as (v & c' & s' & Hfc & Hv & Hs & Hr' & Hp').
  assert (prep c' s') as Hrep by (apply Hr'; eapply pstep_inv; [done|done|apply Hr]).
  exists v, c', s'. split_and!; try done. apply Hk. by split.
Qed.

Lemma p_push_move i u t p rq c s :
  us !! i = Some u → U !! u = Some (t, p) → rqs !! p = Some rq →
  prep c s → p_phases s !! i = Some Start →
  ∃ v c' s', (v ← cell_get (queue rq) c; c ← cell_set (queue rq) (v ++ [u]) c; Ret (v, c)) = Ret (v, c') ∧
    k_tasks c' = k_tasks c ∧ step (S i) s s' ∧ (pinv us qs0 s' → prep c' s') ∧
    p_phases s' !! i = Some (Pushed p).
Proof using All.
  intros Hi Hu Hrq Hr Hp. destruct (pr_queues _ _ Hr p rq Hrq) as (q & Hq & Hk).
  pose proof (pr_known _ _ Hr p q) as Hkn. pose proof (pr_refs _ _ Hr) as Hrefs.
  destruct s as [m qs ps ow tk bk]. simpl in *.
  eexists q, _, (PSt m (<[p := q ++ [u]]> qs) (<[i := Pushed p]> ps) ow tk bk).
  split; [cbn; by rewrite Hk|]. split; [done|]. split; [by eapply p_push|]. split; [|by eapply phase_set].
  intros HI. eapply (prep_queue_set _ _ _ p); try done; [|by eapply refs_same].
  intros u' [?| ->%list_elem_of_singleton]%elem_of_app; eauto.
Qed.

Lemma bit_move i p c s :
  prep c s → p_phases s !! i = Some (Pushed p) →
  ∃ v c' s', (v ← cell_get (swprio_ready_mask sp) c; c ← cell_set (swprio_ready_mask sp) (Z.lor v (bit p)) c;
      Ret (v, c)) = Ret (v, c') ∧
    k_tasks c' = k_tasks c ∧ step (S i) s s' ∧ (pinv us qs0 s' → prep c' s') ∧ p_phases s' !! i = Some Free.
Proof using All.
  intros Hr Hp. pose proof (pr_refs _ _ Hr) as Hrefs. pose proof (pr_swprio _ _ Hr) as Hsp.
  destruct s as [m qs ps ow tk bk]. simpl in *.
  eexists m, _, (PSt (Z.lor m (bit p)) qs (<[i := Free]> ps) ow tk bk).
  split; [cbn; by rewrite Hsp|]. split; [done|]. split; [by apply p_post|]. split; [|by eapply phase_set].
  intros HI. eapply (rep_mask_set _ _ (PSt (Z.lor m (bit p)) qs (<[i := Free]> ps) ow tk bk)); try done.
  by eapply refs_same.
Qed.

(** The current task, if there is an object under its ID. *)
Definition locked_task (v : ptr) : ready_phase := match v with Some _ => Locked | None => Free end.

Lemma lock_move i c s :
  prep c s → p_phases s !! i = Some Free →
  ∃ v c' s', match k_objs c !! id0 with
      | None => Ret (None, c)
      | Some (n, (p, ops)) => Ret (Some p, with_objs (<[id0 := (S n, (p, ops))]> (k_objs c)) c)
      end = Ret (v, c') ∧
    k_tasks c' = k_tasks c ∧ step (S i) s s' ∧ (pinv us qs0 s' → prep c' s') ∧
    p_phases s' !! i = Some (locked_task v) ∧ (v = None ∨ v = Some t0).
Proof using All.
  intros Hr Hp. pose proof (pr_refs _ _ Hr) as Hrefs. unfold refs_ok in Hrefs.
  destruct (k_objs c !! id0) as [[n [t o]]|].
  - destruct Hrefs as (Hn & -> & Ht). destruct s as [m qs ps ow tk bk]. simpl in *.
    eexists (Some t0), _, (PSt m qs (<[i := Locked]> ps) ow tk bk).
    split; [done|]. split; [done|]. split; [by apply p_lock|]. split; [|split; [by eapply phase_set|by right]].
    intros HI. eapply rep_objs_set; try done. simpl. pose proof (locked_insert ps i Free Locked Hp) as Hl.
    simpl in Hl. lia.
  - exists None, c, s. split; [done|]. split; [done|]. split; [constructor|]. split; [done|]. split; [done|]. by left.
Qed.

Lemma unlock_move i c s :
  prep c s → p_phases s !! i = Some Locked →
  ∃ c' s', match k_objs c !! id0 with
      | Some (S (S n), o) => Ret (None, with_objs (<[id0 := (S n, o)]> (k_objs c)) c)
      | Some (_, o) => Ret (Some o, with_objs (delete id0 (k_objs c)) c)
      | None => Undef
      end = Ret (@None (loc * object_ops), c') ∧
    k_tasks c' = k_tasks c ∧ step (S i) s s' ∧ (pinv us qs0 s' → prep c' s') ∧ p_phases s' !! i = Some Free.
Proof using All.
  intros Hr Hp. pose proof (pr_refs _ _ Hr) as Hrefs. unfold refs_ok in Hrefs.
  pose proof (locked_insert _ i Locked Free Hp) as Hl. simpl in Hl.
  destruct (k_objs c !! id0) as [[n [t o]]|]; [|lia]. destruct Hrefs as (Hn & -> & Ht).
  destruct n as [|[|n]]; [lia..|]. destruct s as [m qs ps ow tk bk]. simpl in *.
  eexists _, (PSt m qs (<[i := Free]> ps) ow tk bk).
  split; [done|]. split; [done|]. split; [by apply p_unlock|]. split; [|by eapply phase_set].
  intros HI. eapply rep_objs_set; try done. simpl. lia.
Qed.

(** Posting to the worker touches its flags and its thread, and nothing else. *)
Definition wcore (c : kern) :=
  (k_sched_workers c, k_scheds c, k_dllists c, k_queues c, k_tasks c, k_uds c, k_swprio c, k_objs c,
   wk_pal_thread <$> k_workers c !! w, wk_current_task_id <$> k_workers c !! w).
Definition wthere (c : kern) : Prop :=
  wk_pal_thread <$> k_workers c !! w = Some th ∧ is_Some (k_threads c !! th).
Definition wframe (c c' : kern) : Prop :=
  wcore c' = wcore c ∧ (is_Some (k_threads c !! th) → is_Some (k_threads c' !! th)).

Lemma rep_frame c c' s : wframe c c' → prep c s → prep c' s ∧ k_tasks c' = k_tasks c.
Proof.
  intros [Hc Ht] [[H1 H2 H3 H4 H5 H6 H7 H8 H9 H10] Hsp Hq Hk Hr HI].
  unfold wcore in Hc. injection Hc as E1 E2 E3 E4 E5 E6 E7 E8 E9 E10. split; [|done].
  split; rewrite ?E7; try done.
  - split; rewrite ?E1, ?E2, ?E3, ?E4, ?E5, ?E6, ?E9, ?E10; auto.
  - intros p rq Hp. rewrite E4. by apply Hq.
  - unfold refs_ok in *. by rewrite E5, E8.
Qed.

Lemma within_flags {A : Type} g (k : Z → prog kern A) :
  (∀ v, within wthere wframe (k v)) → within wthere wframe (atomic_update (worker_flags w) g ≫= k).
Proof.
  intros Hk c [Hw Ht]. apply fmap_Some in Hw as (e & He & Hth). cbn. rewrite He. cbn.
  split; [|apply Hk]. split; [|done]. unfold wcore. cbn. by rewrite lookup_insert_eq, He.
Qed.

Lemma within_thread {A : Type} (k : loc → prog kern A) :
  within wthere wframe (k th) → within wthere wframe (get_field k_workers wk_pal_thread w ≫= k).
Proof.
  intros Hk c [Hw Ht]. apply fmap_Some in Hw as (e & He & ->). cbn. rewrite He. cbn. split; [|done]. by split.
Qed.

Lemma within_thread_update {A V : Type} (f : prs_pal_thread → V) (set_ : V → prs_pal_thread → prs_pal_thread) g
    (k : V → prog kern A) :
  (∀ v, within wthere wframe (k v)) →
  within wthere wframe (atomic_update (field k_threads with_threads f set_ th) g ≫= k).
Proof.
  intros Hk c [Hw [e He]]. cbn. rewrite He. cbn. split; [|apply Hk]. split; [done|].
  intros _. cbn. rewrite lookup_insert_eq. by eexists.
Qed.

Lemma within_interrupt : within wthere wframe (prs_worker_interrupt w).
Proof.
  unfold prs_worker_interrupt, prs_worker_post. apply within_flags. intros f.
  apply within_bind.
  - destruct (has f PRS_WORKER_FLAG_IDLE); [|done]. apply within_flags. intros f'.
    destruct (has f' PRS_WORKER_FLAG_IDLE); [|done]. apply within_thread.
    apply within_bind; [|done]. by apply within_thread_update.
  - intros [[r|] f']; [done|]. destruct (_ && _); [|done]. apply within_thread. by apply within_thread_update.
Qed.

Lemma interrupt_rg i c s :
  at_ready i Free c s → wp (S i) (_ ← prs_worker_interrupt w; mret tt) (λ _, at_ready i Free) c s.
Proof using All.
  intros Hat. rg_bind.
  eapply rg_mono; [|eapply (pw_within _ _ _ step_refl _ _ (ready_stable i Free) (ready_rep i Free) wthere wframe)];
    [| | |apply within_interrupt|exact Hat].
  - intros r c1 s1 Hat1. cbv beta in Hat1. by ready_done Hat1.
  - intros c1 s1 [Hr _]. split; apply (pr_env _ _ Hr).
  - intros c1 c2 s1 [Hr Hp] HF. destruct (rep_frame _ _ _ HF Hr). by split.
Qed.

Lemma lowest_rg i c s :
  at_ready i Free c s →
  wp (S i) (lowest_worker [sw] (None, 0))
    (λ r c s, at_ready i Free c s ∧ (r.1 = None ∨ r.1 = Some w)) c s.
Proof using All.
  intros Hat. cbn [lowest_worker]. ready_step Hat. ready_step Hat.
  unfold prs_worker_get_current_task_id. ready_step Hat. rg_bind.
  destruct (id0 =? 0).
  { ready_done Hat. rg_bind. ready_done Hat. ready_done Hat. auto. }
  unfold god_lock. rg_act. intros c1 s1 HR.
  apply (ready_stable _ _ _ _ _ _ HR) in Hat. destruct Hat as [Hr Hp].
  destruct (lock_move i c1 s1 Hr Hp) as (v & c2 & s2 & Hf & Hv & Hs & Hr2 & Hp2 & Hv2).
  exists v, c2, s2. split; [exact Hf|]. assert (prep c2 s2) as Hr2'.
  { apply Hr2. eapply pstep_inv; [done|done|apply Hr]. }
  split; [by split_and!|]. intros c3 s3 HR3.
  assert (at_ready i (locked_task v) c3 s3) as Hat by (by eapply ready_stable).
  clear c c1 s s1 c2 s2 HR Hr Hp Hf Hv Hs Hr2 Hp2 Hr2' HR3. rename c3 into c, s3 into s.
  destruct Hv2 as [-> | ->]; cbn [locked_task] in Hat; rg_bind.
  { ready_done Hat. ready_done Hat. auto. }
  eapply (pw_look _ _ _ step_refl _ _ (ready_stable i Locked) (ready_rep i Locked)); [exact Hat|].
  clear c s Hat. intros c s Hat. destruct Hat as [Hr Hp].
  assert (is_Some (k_tasks c !! t0)) as [e He].
  { pose proof (pr_refs _ _ Hr) as Hrefs. unfold refs_ok in Hrefs.
    pose proof (locked_insert _ i Locked Free Hp) as Hl. simpl in Hl.
    destruct (k_objs c !! id0) as [[n [t o]]|]; [|lia]. by destruct Hrefs as (_ & -> & ?). }
  exists (tk_prio e). split; [cbn; by rewrite He|].
  assert (at_ready i Locked c s) as Hat by (by split). clear Hr Hp He.
  ready_done Hat. rg_bind. unfold god_unlock.
  eapply (pw_act _ _ _ _ _ (ready_stable i Locked) (ready_rep i Locked)); [exact Hat|].
  clear c s Hat. intros c s [Hr Hp].
  destruct (unlock_move i c s Hr Hp) as (c2 & s2 & Hf & Hv & Hs & Hr2 & Hp2).
  exists None, c2, s2. split; [exact Hf|].
  assert (prep c2 s2) as Hr2' by (apply Hr2; eapply pstep_inv; [done|done|apply Hr]).
  split_and!; try done. assert (at_ready i Free c2 s2) as Hat by (by split).
  clear c s Hr Hp Hf Hv Hs Hr2 Hp2 Hr2'. rename c2 into c, s2 into s.
  ready_done Hat. ready_done Hat. split; [done|]. destruct ((None, 0).2 <? tk_prio e); auto.
Qed.

Lemma swprio_ready_rg i task u p c s :
  us !! i = Some u → U !! u = Some (task, p) → at_ready i Start c s →
  wp (S i) (prs_sched_swprio_ready sd task) (λ r c s, at_ready i Free c s ∧ r = PRS_OK) c s.
Proof using All.
  intros Hi Hu Hat. pose proof (prio_bound _ _ _ Hu) as Hp.
  destruct (lookup_lt_is_Some_2 rqs p) as [rq Hrq]; [lia|].
  unfold prs_sched_swprio_ready, swprio_of. rg_bind. do 5 ready_step Hat. ready_step Hat.
  unfold mpsciq_push. rg_bind. ready_step Hat.
  eapply (ready_move i Start (λ _, Pushed p)); [exact Hat| |].
  { intros c1 s1 Hr Hp1. by eapply p_push_move. }
  clear c s Hat. intros q c s Hat. ready_done Hat. ready_step Hat. unfold prio_bit. ready_step Hat.
  eapply (ready_move i (Pushed p) (λ _, Free)); [exact Hat| |].
  { intros c1 s1 Hr Hp1. by eapply bit_move. }
  clear c s Hat. intros m c s Hat. ready_step Hat.
  unfold dllist_data. rg_bind. ready_step Hat. ready_step Hat. ready_done Hat.
  cbn [fmap list_fmap snd]. rg_bind. eapply rg_mono; [|by apply lowest_rg].
  clear c s Hat. intros [low x] c s [Hat Hlow]. cbv beta iota. cbn [fst] in Hlow. ready_step Hat. rg_bind.
  destruct Hlow as [-> | ->]; [|destruct (_ <? x)].
  - do 2 ready_done Hat. done.
  - eapply rg_mono; [|by apply interrupt_rg]. clear c s Hat. intros r c s Hat. cbv beta in Hat.
    by ready_done Hat.
  - do 2 ready_done Hat. done.
Qed.

(** *** The worker *)

Lemma p_worker_move {A V : Type} T m qs ow tk bk (P : V → kern → pst → Prop)
    (f : kern → outcome (V * kern)) (k : V → prog kern A) Q c s :
  at_chooser T m qs ow tk bk c s →
  (∀ c s, at_chooser T m qs ow tk bk c s → ∃ v c' s', f c = Ret (v, c') ∧ step 0 s s' ∧
     (pinv us qs0 s' → prep c' s' ∧ P v c' s')) →
  (∀ v c s, P v c s → wp 0 (k v) Q c s) → wp 0 (act f ≫= k) Q c s.
Proof using prio_bound.
  intros Hat Hf Hk. eapply (pw_act _ _ _ _ _ (p_worker_stable _ _ _ _ _ _) (p_worker_rep _ _ _ _ _ _)); [exact Hat|].
  clear Hat. intros c1 s1 Hat. destruct (Hf c1 s1 Hat) as (v & c' & s' & Hfc & Hs & Hr').
  destruct Hr' as [Hrep HP]; [eapply pstep_inv; [done|done|apply (pr_inv _ _ (p_worker_rep _ _ _ _ _ _ _ _ Hat))]|].
  exists v, c', s'. split_and!; try done. by apply Hk.
Qed.

Lemma known_head T m qs ow tk bk c s p x q :
  at_chooser T m qs ow tk bk c s → qs !! p = Some (x :: q) → ∃ t, U !! x = Some (t, p).
Proof.
  intros [Hr _ _ Hq _ _ _] Hp. destruct (Hq p _ Hp) as [q' Hq']. apply (pr_known _ _ Hr p _ x Hq'). by left.
Qed.

Lemma forget T m qs ow tk bk c s : at_chooser T m qs ow tk bk c s → at_chooser T 0 [] ow tk bk c s.
Proof. intros [Hr Ht Hm Hq Ho Htk Hb]. split; try done. intros i. by rewrite Z.bits_0. Qed.

(** Looking at the head of a queue; a bit that was cleared on the way to it stays
    cleared when the queue is empty. *)
Definition looked (T : gmap loc prs_task) (qs : list (list loc)) (ow : option nat) (p : nat) (r : ptr)
    (c : kern) (s : pst) : Prop :=
  match r with
  | None => at_chooser T 0 qs None None None c s ∧ ∀ q, qs !! p = Some q → q = []
  | Some x => at_chooser T 0 (<[p := [x]]> qs) ow None None c s ∧ ∀ y q, qs !! p = Some (y :: q) → x = y
  end.

Lemma begin_move T qs ow p rq c s :
  ow = None ∨ ow = Some p → rqs !! p = Some rq → at_chooser T 0 qs ow None None c s →
  ∃ v c' s', (v ← cell_get (queue rq) c; Ret (v, c)) = Ret (v, c') ∧ step 0 s s' ∧
    (pinv us qs0 s' → prep c' s' ∧ looked T qs ow p (head v) c' s').
Proof using All.
  intros How Hrq [Hr Ht Hm Hq Ho Htk Hb]. destruct (pr_queues _ _ Hr p rq Hrq) as (q & Hqp & Hk).
  destruct s as [m qs1 ps ow1 tk1 bk1]. simpl in *. subst ow1 tk1 bk1.
  exists q, c. destruct q as [|x q].
  - exists (PSt m qs1 ps None None None). split; [cbn; by rewrite Hk|]. split.
    { destruct How as [-> | ->]; [apply step_refl|by apply p_empty]. }
    intros HI. assert (prep c (PSt m qs1 ps None None None)) as Hr' by (destruct Hr; by split).
    split; [done|]. split; [by split|]. intros q Hq'. destruct (Hq p q Hq') as [q' Hq1].
    rewrite Hqp in Hq1. by destruct q.
  - exists (PSt m qs1 ps ow None None). split; [cbn; by rewrite Hk|]. split; [apply step_refl|].
    intros HI. split; [done|]. split.
    + split; try done. intros p1 q1 [(-> & <- & _)|[_ Hq1]]%list_lookup_insert_Some; [by exists q|by apply Hq].
    + intros y q' Hq'. destruct (Hq p _ Hq') as [q2 Hq2]. simpl in Hq2. congruence.
Qed.

Lemma looked_stable T qs ow p r : stable 0 (looked T qs ow p r).
Proof.
  intros c s c' s' HR. destruct r; intros [Hat ?]; (split; [by eapply p_worker_stable|done]).
Qed.

Lemma begin_rg T qs ow p rq c s :
  ow = None ∨ ow = Some p → rqs !! p = Some rq → at_chooser T 0 qs ow None None c s →
  wp 0 (mpsciq_begin (Some rq)) (looked T qs ow p) c s.
Proof using All.
  intros How Hrq Hat. unfold mpsciq_begin. rg_bind. worker_step Hat.
  eapply (p_worker_move _ _ _ _ _ _ (λ v, looked T qs ow p (head v))); [exact Hat|intros; by apply begin_move|].
  clear c s Hat. intros v c s Hl. eapply pw_done; [apply looked_stable|exact Hl|done].
Qed.

Lemma mask_move (m' : Z) T m ow ow' (g : Z → Z) qs tk bk c s :
  (∀ ma qs1 ps, length qs1 = 32%nat → step 0 (PSt ma qs1 ps ow tk bk) (PSt (g ma) qs1 ps ow' tk bk)) →
  (∀ ma i, Z.testbit m' i = true → Z.testbit (g ma) i = true) →
  at_chooser T m qs ow tk bk c s →
  ∃ v c' s', (v ← cell_get (swprio_ready_mask sp) c; c ← cell_set (swprio_ready_mask sp) (g v) c;
      Ret (v, c)) = Ret (v, c') ∧ step 0 s s' ∧
    (pinv us qs0 s' → prep c' s' ∧ at_chooser T m' qs ow' tk bk c' s').
Proof using All.
  intros Hs Hm' [Hr Ht Hm Hq Ho Htk Hb]. pose proof (pr_swprio _ _ Hr) as Hsp.
  pose proof (pi_length _ _ _ (pr_inv _ _ Hr)) as Hl. pose proof (pr_refs _ _ Hr) as Hrefs.
  destruct s as [m1 qs1 ps ow1 tk1 bk1]. simpl in *. subst ow1 tk1 bk1.
  eexists m1, _, (PSt (g m1) qs1 ps ow' tk bk). split; [cbn; by rewrite Hsp|]. split; [by apply Hs|].
  intros HI. assert (prep (with_swprio (<[sp := PrsSchedSwprio (g m1) (Some <$> rqs) (Some mq)]> (k_swprio c)) c)
    (PSt (g m1) qs1 ps ow' tk bk)) as Hr' by by apply (rep_mask_set c _ (PSt (g m1) qs1 ps ow' tk bk) Hr).
  split; [exact Hr'|]. split; try done. simpl. auto.
Qed.

(** The least priority whose bit is set. *)
Lemma lsb_prio rm k :
  rm ≠ 0 → 0 ≤ rm < 2 ^ 32 → (∀ i, i < Z.of_nat k → Z.testbit rm i = false) →
  ∃ p, prs_bitops_lsb_uint32 rm = Z.of_nat p ∧ (k ≤ p < 32)%nat ∧ Z.testbit rm (Z.of_nat p) = true ∧
    ∀ i, i < Z.of_nat p → Z.testbit rm i = false.
Proof.
  intros Hne Hrm Hk. unfold prs_bitops_lsb_uint32. rewrite (proj2 (Z.eqb_neq rm 0) Hne).
  pose proof (ctz_nonneg rm) as Hnn. pose proof (ctz_testbit rm ltac:(lia)) as Hb.
  pose proof (ctz_lt rm 32 ltac:(lia)) as Hlt.
  exists (Z.to_nat (builtin_ctz rm)). rewrite Z2Nat.id by done. split_and!; try done; try lia.
  - destruct (decide (builtin_ctz rm < Z.of_nat k)) as [Hlt'|]; [by rewrite Hk in Hb|lia].
  - intros i Hi. apply ctz_below; lia.
Qed.

(** What the search finds: the oldest structure of the least priority. *)
Definition least_empty (qs : list (list loc)) (p : nat) : Prop :=
  ∀ p' q, (p' < p)%nat → qs !! p' = Some q → q = [].

Definition selected (T : gmap loc prs_task) (qs : list (list loc)) (r : option (Z * ptr * loc))
    (c : kern) (s : pst) : Prop :=
  match r with
  | None => at_chooser T 0 qs None None None c s ∧ least_empty qs 32
  | Some (prio, rq', x) => ∃ p rq, prio = Z.of_nat p ∧ rq' = Some rq ∧ rqs !! p = Some rq ∧
      least_empty qs p ∧ (∀ y q, qs !! p = Some (y :: q) → x = y) ∧
      at_chooser T 0 (<[p := [x]]> qs) None None None c s
  end.

Lemma selected_stable T qs r : stable 0 (selected T qs r).
Proof.
  intros c s c' s' HR. destruct r as [[[prio rq'] x]|].
  - intros (p & rq & ? & ? & ? & ? & ? & Hat). exists p, rq. split_and!; try done.
    by eapply p_worker_stable.
  - intros [Hat ?]. split; [by eapply p_worker_stable|done].
Qed.

Lemma select_done T qs r c s : selected T qs r c s → wp 0 (mret r) (selected T qs) c s.
Proof. intros Hs. by eapply pw_done; [apply selected_stable|exact Hs|]. Qed.

Lemma select_rg fuel k rm T qs c s :
  at_chooser T 0 qs None None None c s → length qs = 32%nat → 0 ≤ rm < 2 ^ 32 → (32 - k < fuel)%nat →
  (∀ i, i < Z.of_nat k → Z.testbit rm i = false) →
  (∀ p x q, qs !! p = Some (x :: q) → Z.testbit rm (Z.of_nat p) = true) →
  wp 0 (select_loop fuel sp rm) (selected T qs) c s.
Proof using All.
  revert k rm c s. induction fuel as [|fuel IH]; intros k rm c s Hat Hl Hrm Hfuel Hk Hbits; [lia|].
  cbn [select_loop]. destruct (Z.eqb_spec rm 0) as [->|Hne].
  { apply select_done. split; [done|]. intros p [|x q] _ Hq; [done|].
    apply Hbits in Hq. by rewrite Z.bits_0 in Hq. }
  destruct (lsb_prio rm k Hne Hrm Hk) as (p & -> & Hp & Hbit & Hbelow).
  destruct (lookup_lt_is_Some_2 rqs p) as [rq Hrq]; [lia|].
  assert (least_empty qs p) as Hleast.
  { intros p' [|x q] Hlt Hq; [done|]. apply Hbits in Hq. rewrite Hbelow in Hq by lia. done. }
  assert (∀ x c s, at_chooser T 0 (<[p := [x]]> qs) None None None c s →
    (∀ y q, qs !! p = Some (y :: q) → x = y) →
    wp 0 (mret (Some (Z.of_nat p, Some rq, x))) (selected T qs) c s) as Hfound.
  { intros x c1 s1 Hat1 Hx. apply select_done. exists p, rq. by split_and!. }
  unfold readyq_at. worker_step Hat. rg_bind.
  eapply rg_mono; [|apply begin_rg; [by left|exact Hrq|exact Hat]].
  clear c s Hat. intros [x|] c s [Hat Hx]; [by apply Hfound|].
  assert (p < 32)%nat as Hp32 by lia. unfold prio_bit. worker_step Hat.
  eapply (p_worker_move _ _ _ _ _ _ (λ _, at_chooser T 0 qs (Some p) None None)); [exact Hat| |].
  { intros c1 s1 Hat1. eapply (mask_move 0 T 0 None (Some p)); [|intros ? ?; by rewrite Z.bits_0|exact Hat1].
    intros ma qs1 ps _. apply p_clear; [done|lia]. }
  clear c s Hat. intros v c s Hat. rg_bind.
  eapply rg_mono; [|apply begin_rg; [by right|exact Hrq|exact Hat]].
  clear c s Hat. intros [x|] c s [Hat Hx'].
  - eapply (p_worker_move _ _ _ _ _ _ (λ _, at_chooser T 0 (<[p := [x]]> qs) None None None)); [exact Hat| |].
    { intros c1 s1 Hat1. eapply (mask_move 0 T 0 (Some p) None); [|intros ? ?; by rewrite Z.bits_0|exact Hat1].
      intros ma qs1 ps _. apply p_restore; [done|lia]. }
    clear c s Hat. intros _ c s Hat. by apply Hfound.
  - apply (IH (S p)); try done; [by apply clear_range|lia| |].
    + intros i Hi. destruct (decide (i < 0)) as [|Hi0]; [by apply Z.testbit_neg_r|].
      rewrite testbit_clear by lia. destruct (decide (i = Z.of_nat p)) as [->|];
        [by rewrite Z.eqb_refl, andb_false_r|rewrite Hbelow by lia; done].
    + intros p1 x q Hq. pose proof (lookup_lt_Some _ _ _ Hq). rewrite testbit_clear, (Hbits _ _ _ Hq) by lia.
      apply negb_true_iff, Z.eqb_neq. intros Heq. assert (p1 = p) as -> by lia. by apply Hx' in Hq.
Qed.

Lemma p_task_there T m qs ow tk bk c s u t p :
  U !! u = Some (t, p) → at_chooser T m qs ow tk bk c s → ∃ e, T !! t = Some e.
Proof using All.
  intros Hu Hat. pose proof (p_ud_of_task _ _ _ _ _ (p_worker_rep _ _ _ _ _ _ _ _ Hat) Hu) as Ht.
  rewrite (aw_tasks _ _ _ _ _ _ _ _ Hat) in Ht. destruct (T !! t) as [e|]; [by exists e|done].
Qed.

Lemma state_value T m qs ow tk bk c s t e :
  T !! t = Some e → at_chooser T m qs ow tk bk c s →
  (v ← cell_get (task_state t) c; Ret (v, c)) = Ret (tk_state e, c).
Proof. intros He Hat. cbn. by rewrite (aw_tasks _ _ _ _ _ _ _ _ Hat), He. Qed.

Definition set_state (T : gmap loc prs_task) (t : loc) (e : prs_task) (new : prs_task_state) : gmap loc prs_task :=
  <[t := set_tk_state (change_token (tk_state e) new) e]> T.

Lemma p_change_state_rg T m qs ow tk bk t e expected (new : prs_task_state) c s :
  T !! t = Some e → at_chooser T m qs ow tk bk c s →
  wp 0 (prs_task_change_state t expected new) (λ _, at_chooser (set_state T t e new) m qs ow tk bk) c s.
Proof.
  intros He Hat. unfold prs_task_change_state.
  eapply (pw_read _ _ _ step_refl _ _ (p_worker_stable _ _ _ _ _ _) (p_worker_rep _ _ _ _ _ _)); [exact Hat| |].
  { intros c1 s1 Hat1. by eapply state_value. }
  clear c s Hat. intros c s Hat.
  eapply (pw_act_only _ _ _ _ _ (p_worker_stable _ _ _ _ _ _) (p_worker_rep _ _ _ _ _ _) _
    (λ _, at_chooser (set_state T t e new) m qs ow tk bk)); [exact Hat|intros; apply p_worker_stable| |done].
  clear c s Hat. intros c s [Hr Ht Hm Hq Ho Htk Hb]. subst T.
  eexists tt, _, s. split; [cbn; by rewrite He|].
  assert (prep (with_tasks (<[t := set_tk_state (change_token (tk_state e) new) e]> (k_tasks c)) c) s) as Hr'
    by by apply rep_tasks_set.
  split; [exact Hr'|]. split; [apply step_refl|]. split; [done|]. by split.
Qed.

Lemma p_running_rg T m qs ow tk bk cur c s :
  (∀ t, cur = Some t → is_Some (T !! t)) → at_chooser T m qs ow tk bk c s →
  wp 0 (is_running cur) (λ r c s, at_chooser T m qs ow tk bk c s ∧
    r = match cur with
        | Some t => match T !! t with
                    | Some e => PRS_TASK_GET_STATE (tk_state e) =? PRS_TASK_STATE_RUNNING
                    | None => false
                    end
        | None => false
        end) c s.
Proof.
  intros Hcur Hat. unfold is_running. destruct cur as [t|]; [|by worker_done Hat].
  destruct (Hcur t eq_refl) as [e He]. rewrite He. unfold prs_task_get_state. rg_bind.
  eapply (pw_read _ _ _ step_refl _ _ (p_worker_stable _ _ _ _ _ _) (p_worker_rep _ _ _ _ _ _)); [exact Hat| |].
  { intros c1 s1 Hat1. by eapply state_value. }
  clear c s Hat. intros c s Hat. do 2 worker_done Hat. done.
Qed.

Lemma p_take_move T qs bk p rq x c s :
  rqs !! p = Some rq → qs !! p = Some [x] → at_chooser T 0 qs None None bk c s →
  ∃ v c' s', (v ← cell_get (queue rq) c; c ← cell_set (queue rq) (drop_ref x v) c; Ret (v, c)) = Ret (v, c') ∧
    step 0 s s' ∧ (pinv us qs0 s' → prep c' s' ∧ at_chooser T 0 [] None (Some x) bk c' s').
Proof using All.
  intros Hrq Hx [Hr Ht Hm Hq Ho Htk Hb]. destruct (pr_queues _ _ Hr p rq Hrq) as (q & Hqp & Hk).
  destruct (Hq p _ Hx) as [q' Hq']. pose proof (pr_known _ _ Hr p) as Hkn. pose proof (pr_refs _ _ Hr) as Hrefs.
  destruct s as [m1 qs1 ps ow1 tk1 bk1]. simpl in *. subst ow1 tk1 bk1. simplify_eq.
  eexists _, _, (PSt m1 (<[p := q']> qs1) ps None (Some x) bk).
  split; [cbn; rewrite Hk; reflexivity|]. split; [by apply p_take|].
  intros HI. cbn [drop_ref]. rewrite decide_True by done.
  assert (prep (with_queues (<[rq := q']> (k_queues c)) c) (PSt m1 (<[p := q']> qs1) ps None (Some x) bk)) as Hr'.
  { eapply (prep_queue_set c _ _ p rq q' Hr Hrq); try done. intros u Hu. eapply Hkn; [exact Hqp|]. by right. }
  split; [exact Hr'|]. by split.
Qed.

Lemma take_rg T qs bk p rq x t e c s :
  rqs !! p = Some rq → qs !! p = Some [x] → U !! x = Some (t, p) → T !! t = Some e →
  at_chooser T 0 qs None None bk c s →
  wp 0 (take_task (Some rq) x) (λ r c s, r = (true, Some t) ∧
    at_chooser (set_state T t e PRS_TASK_STATE_RUNNING) 0 [] None (Some x) bk c s) c s.
Proof using All.
  intros Hrq Hx Hu He Hat. unfold take_task. rg_bind. worker_done Hat. rg_bind. unfold mpsciq_remove.
  worker_step Hat.
  eapply (p_worker_move _ _ _ _ _ _ (λ _, at_chooser T 0 [] None (Some x) bk)); [exact Hat|intros; by eapply p_take_move|].
  clear c s Hat. intros v c s Hat. worker_done Hat. worker_step Hat. worker_step Hat. rg_bind.
  eapply rg_mono; [|by apply p_change_state_rg]. clear c s Hat. intros r c s Hat. cbv beta in Hat. by worker_done Hat.
Qed.

(** Putting the current task back on its queue. *)
Lemma preempt_move T qs p rq u t c s :
  rqs !! p = Some rq → U !! u = Some (t, p) → at_chooser T 0 qs None None None c s →
  ∃ v c' s', (v ← cell_get (queue rq) c; c ← cell_set (queue rq) (v ++ [u]) c; Ret (v, c)) = Ret (v, c') ∧
    step 0 s s' ∧ (pinv us qs0 s' → prep c' s' ∧ at_chooser T 0 qs (Some p) None (Some u) c' s').
Proof using All.
  intros Hrq Hu [Hr Ht Hm Hq Ho Htk Hb]. destruct (pr_queues _ _ Hr p rq Hrq) as (q & Hqp & Hk).
  pose proof (pr_known _ _ Hr p q) as Hkn. pose proof (pr_refs _ _ Hr) as Hrefs.
  destruct s as [m1 qs1 ps ow1 tk1 bk1]. simpl in *. subst ow1 tk1 bk1.
  eexists q, _, (PSt m1 (<[p := q ++ [u]]> qs1) ps (Some p) None (Some u)).
  split; [cbn; by rewrite Hk|]. split; [by eapply p_preempt|].
  intros HI. assert (prep (with_queues (<[rq := q ++ [u]]> (k_queues c)) c)
    (PSt m1 (<[p := q ++ [u]]> qs1) ps (Some p) None (Some u))) as Hr'.
  { eapply (prep_queue_set c _ _ p rq _ Hr Hrq); try done.
    intros u' [?| ->%list_elem_of_singleton]%elem_of_app; eauto. }
  split; [exact Hr'|]. split; try done. simpl. intros p1 q1 Hq1. destruct (Hq p1 q1 Hq1) as [q' Hq'].
  destruct (decide (p1 = p)) as [->|Hne]; [|rewrite list_lookup_insert_ne by done; by exists q'].
  simplify_eq. exists (q' ++ [u]). rewrite list_lookup_insert_eq by (by eapply lookup_lt_Some).
  by rewrite (assoc_L (++)).
Qed.

(** *** The choice *)

Definition running (T : gmap loc prs_task) (cur : ptr) : bool :=
  match cur with
  | Some t =>
      match T !! t with
      | Some e => PRS_TASK_GET_STATE (tk_state e) =? PRS_TASK_STATE_RUNNING
      | None => false
      end
  | None => false
  end.

(** The current task exists, and is one of the scheduler's when it is running. *)
Definition current_ok (T : gmap loc prs_task) (cur : ptr) : Prop :=
  (∀ t, cur = Some t → is_Some (T !! t)) ∧
  (running T cur = true → ∃ t u p, cur = Some t ∧ U !! u = Some (t, p)).

(** [u] is the oldest of the queue of [p], when that is not empty. *)
Definition oldest (qs : list (list loc)) (p : nat) (u : loc) : Prop :=
  ∀ y q, qs !! p = Some (y :: q) → u = y.

(** What is chosen when the queues start with [qs], with the tasks [T'] and the
    worker's part of the protocol afterwards. *)
Inductive chosen (T : gmap loc prs_task) (cur : ptr) (qs : list (list loc)) :
    bool * ptr → gmap loc prs_task → option loc → option loc → Prop :=
  | chose_none : running T cur = false → least_empty qs 32 → chosen T cur qs (true, None) T None None
  | chose_current t u p : cur = Some t → running T cur = true → U !! u = Some (t, p) → least_empty qs p →
      chosen T cur qs (true, Some t) T None None
  | chose_next u t p e : running T cur = false → U !! u = Some (t, p) → least_empty qs p → oldest qs p u →
      T !! t = Some e → chosen T cur qs (true, Some t) (set_state T t e PRS_TASK_STATE_RUNNING) (Some u) None
  | chose_preempt u t p e cu ct cp ce : running T cur = true → cur = Some ct → U !! cu = Some (ct, cp) →
      (p < cp)%nat → U !! u = Some (t, p) → least_empty qs p → oldest qs p u →
      T !! ct = Some ce → set_state T ct ce PRS_TASK_STATE_READY !! t = Some e →
      chosen T cur qs (true, Some t)
        (set_state (set_state T ct ce PRS_TASK_STATE_READY) t e PRS_TASK_STATE_RUNNING) (Some u) (Some cu).

Definition choice_post (T : gmap loc prs_task) (cur : ptr) (qs : list (list loc)) (r : bool * ptr)
    (c : kern) (s : pst) : Prop :=
  ∃ T' tk bk, chosen T cur qs r T' tk bk ∧ at_chooser T' 0 [] None tk bk c s.

Lemma choice_done T cur qs r T' tk bk m qs1 c s :
  chosen T cur qs r T' tk bk → at_chooser T' m qs1 None tk bk c s →
  wp 0 (mret r) (choice_post T cur qs) c s.
Proof.
  intros Hc Hat. worker_done Hat. exists T', tk, bk. split; [done|]. by eapply forget.
Qed.

Lemma preempt_rg T cur qs ct cu cp ce p rq x t c s :
  running T cur = true → cur = Some ct → U !! cu = Some (ct, cp) → T !! ct = Some ce → (p < cp)%nat →
  rqs !! p = Some rq → least_empty qs p → oldest qs p x → U !! x = Some (t, p) → length qs = 32%nat →
  at_chooser T 0 (<[p := [x]]> qs) None None None c s →
  wp 0 (task_userdata ← read (task_sched_userdata ct);
        prio ← read (task_prio ct);
        preempted ← readyq_at sp prio;
        task_userdata ← nonnull task_userdata;
        _ ← mpsciq_push preempted task_userdata;
        prio ← read (task_prio ct);
        bit ← prio_bit prio;
        _ ← prs_pal_atomic_fetch_or (swprio_ready_mask sp) bit;
        _ ← prs_task_change_state ct PRS_TASK_STATE_RUNNING PRS_TASK_STATE_READY;
        take_task (Some rq) x) (choice_post T cur qs) c s.
Proof using All.
  intros Hrun Hcur Hcu Hce Hlt Hrq Hleast Hold Hx Hl Hat. pose proof (prio_bound _ _ _ Hcu) as Hcp.
  destruct (lookup_lt_is_Some_2 rqs cp) as [rqc Hrqc]; [lia|].
  worker_step Hat. worker_step Hat. unfold readyq_at. worker_step Hat. worker_step Hat.
  unfold mpsciq_push. rg_bind. worker_step Hat.
  eapply (p_worker_move _ _ _ _ _ _ (λ _, at_chooser T 0 (<[p := [x]]> qs) (Some cp) None (Some cu)));
    [exact Hat|intros; by eapply preempt_move|].
  clear c s Hat. intros v c s Hat. worker_done Hat. worker_step Hat. unfold prio_bit. worker_step Hat.
  eapply (p_worker_move _ _ _ _ _ _ (λ _, at_chooser T 0 (<[p := [x]]> qs) None None (Some cu))); [exact Hat| |].
  { intros c1 s1 Hat1. eapply (mask_move 0 T 0 (Some cp) None); [|intros ? ?; by rewrite Z.bits_0|exact Hat1].
    intros. by apply p_restore. }
  clear c s Hat. intros _ c s Hat. rg_bind.
  eapply rg_mono; [|apply p_change_state_rg; [exact Hce|exact Hat]].
  clear c s Hat. intros r c s Hat. cbv beta in Hat.
  destruct (p_task_there _ _ _ _ _ _ _ _ _ _ _ Hx Hat) as [e He].
  eapply rg_mono; [|eapply (take_rg _ _ _ p rq x t e); try done].
  - intros r' c1 s1 [-> Hat1]. exists (set_state (set_state T ct ce PRS_TASK_STATE_READY) t e PRS_TASK_STATE_RUNNING),
      (Some x), (Some cu). split; [by eapply chose_preempt|done].
  - rewrite list_lookup_insert_eq; [done|]. pose proof (prio_bound _ _ _ Hx). lia.
Qed.

Lemma swprio_get_next_rg fuel T m qs cur c s :
  current_ok T cur → length qs = 32%nat → at_chooser T m qs None None None c s →
  (∀ p x q, qs !! p = Some (x :: q) → Z.testbit m (Z.of_nat p) = true) →
  wp 0 (prs_sched_swprio_get_next (S fuel) sw cur) (choice_post T cur qs) c s.
Proof using All.
  intros [Hcur Hrun] Hl Hat Hm. unfold prs_sched_swprio_get_next, swprio_of.
  worker_step Hat. worker_step Hat. rg_bind. worker_step Hat. worker_step Hat.
  cbn [remove_loop]. rg_bind. worker_step Hat. unfold mpsciq_begin at 1. rg_bind. worker_step Hat. worker_step Hat.
  worker_done Hat. cbn [head]. worker_done Hat. rg_bind_load. intros c1 s1 HR.
  apply (p_worker_stable _ _ _ _ _ _ _ _ _ _ HR) in Hat. clear c s HR. rename c1 into c, s1 into s.
  assert (pinv us qs0 s) as HI by apply (pr_inv _ _ (p_worker_rep _ _ _ _ _ _ _ _ Hat)).
  exists (p_mask s). split; [cbn; by rewrite (pr_swprio _ _ (p_worker_rep _ _ _ _ _ _ _ _ Hat))|].
  split; [split_and!; try done; [by eapply p_worker_rep..|apply step_refl]|]. rg_bind.
  eapply rg_mono; [|eapply (select_rg _ 0 _ T qs)]; [|destruct Hat; split; try done; intros i; by rewrite Z.bits_0
    |done|apply HI|unfold PRS_MAX_TASK_PRIO; lia|intros i Hi; apply Z.testbit_neg_r; lia
    |intros p x q Hq; apply (aw_mask _ _ _ _ _ _ _ _ Hat); by eapply Hm].
  clear c s Hat HI. intros [[[prio rq'] x]|] c s.
  - intros (p & rq & -> & -> & Hrq & Hleast & Hold & Hat). rg_bind.
    eapply rg_mono; [|by apply p_running_rg]. clear c s Hat. intros r c s [Hat Hr]. fold (running T cur) in Hr. subst r.
    pose proof (lookup_lt_Some _ _ _ Hrq) as Hp.
    destruct (known_head _ _ _ _ _ _ _ _ p x [] Hat) as [t Hx]; [apply list_lookup_insert_eq; lia|].
    destruct (running T cur) eqn:Hrunning.
    + destruct (Hrun eq_refl) as (ct & cu & cp & -> & Hcu). destruct (Hcur ct eq_refl) as [ce Hce].
      cbv iota beta. worker_step Hat.
      destruct (Z.ltb_spec (Z.of_nat p) (Z.of_nat cp)) as [Hlt|Hge].
      * eapply preempt_rg; try done. lia.
      * eapply choice_done; [|exact Hat]. eapply chose_current; try done. intros p' q Hp' Hq.
        by eapply Hleast; [|exact Hq]; lia.
    + destruct (p_task_there _ _ _ _ _ _ _ _ _ _ _ Hx Hat) as [e He].
      enough (wp 0 (take_task (Some rq) x) (choice_post T cur qs) c s) as Htake
        by (destruct cur; exact Htake).
      eapply rg_mono; [|eapply (take_rg _ _ _ p rq x t e); try done; apply list_lookup_insert_eq; lia].
      intros r c1 s1 [-> Hat1]. eexists _, _, _. split; [|exact Hat1]. by eapply chose_next.
  - intros [Hat Hleast]. rg_bind.
    eapply rg_mono; [|by apply p_running_rg]. clear c s Hat. intros r c s [Hat Hr]. fold (running T cur) in Hr. subst r.
    eapply choice_done; [|exact Hat]. destruct (running T cur) eqn:Hrunning; [|by apply chose_none].
    destruct (Hrun eq_refl) as (ct & cu & cp & -> & Hcu). eapply chose_current; try done.
    intros p' q Hp' Hq. eapply Hleast; [|exact Hq]. pose proof (prio_bound _ _ _ Hcu). lia.
Qed.
End implementation.

(** ** All threads together *)

Section together.
Context `{!ObjectFree} (w th sw sd sp dl nd mq : loc) (rqs : list loc) (id0 : Z) (t0 : loc).
Context (U : gmap loc (loc * nat)).
Hypothesis rqs_length : length rqs = 32%nat.
Hypothesis rqs_nodup : NoDup (mq :: rqs).
Hypothesis prio_bound : ∀ u t p, U !! u = Some (t, p) → (p < 32)%nat.

Abbreviation answer := (prs_result + bool * ptr)%type.
Definition choose_thread (cur : ptr) : prog kern answer :=
  r ← prs_sched_swprio_get_next 1 sw cur; mret (inr r).
Definition prio_ready_thread (t : loc) : prog kern answer := r ← prs_sched_swprio_ready sd t; mret (inl r).

(** Between two choices: the mask [m] has the bits of the queues [qs] that are not
    empty, and the queues hold structures of tasks of their priority. *)
Record settled (c : kern) (cur : ptr) (m : Z) (qs : list (list loc)) : Prop := Settled {
  se_env : penv w th sw sd sp dl nd mq id0 U c;
  se_swprio : k_swprio c !! sp = Some (PrsSchedSwprio m (Some <$> rqs) (Some mq));
  se_mask : 0 ≤ m < 2 ^ 32;
  se_length : length qs = 32%nat;
  se_queues p rq : rqs !! p = Some rq → ∃ q, qs !! p = Some q ∧ k_queues c !! rq = Some q;
  se_known p q u : qs !! p = Some q → u ∈ q → ∃ t, U !! u = Some (t, p);
  se_bits p u q : qs !! p = Some (u :: q) → Z.testbit m (Z.of_nat p) = true;
  se_refs : refs_ok id0 t0 c [];
  se_current : current_ok U (k_tasks c) cur
}.

Section threads.
Context (us : list loc) (qs0 : list (list loc)).
Abbreviation rep := (prep w th sw sd sp dl nd mq rqs id0 t0 U us qs0).
Abbreviation rely := (prely rep (pstep U us) k_tasks).
Abbreviation guar := (pguar rep (pstep U us) k_tasks).

(** What the threads return, and where they are then. *)
Definition prio_thread_post (T : gmap loc prs_task) (cur : ptr) (i : nat) (r : answer) (c : kern) (s : pst) : Prop :=
  match i with
  | O => ∃ r', r = inr r' ∧
      choice_post w th sw sd sp dl nd mq rqs id0 t0 U us qs0 T cur qs0 r' c s
  | S i => r = inl PRS_OK ∧ at_ready w th sw sd sp dl nd mq rqs id0 t0 U us qs0 i Free c s
  end.

Lemma locked_none ps : (∀ i p, ps !! i = Some p → p ≠ Locked) → locked ps = 0%nat.
Proof.
  intros Hps. unfold locked. induction ps as [|p ps IH]; [done|]. rewrite filter_cons.
  rewrite decide_False by (by apply (Hps 0%nat)). apply IH. intros i. apply (Hps (S i)).
Qed.

Lemma pushed_none ps : (∀ i p, ps !! i = Some p → p = Start) → pushed us ps = [].
Proof.
  intros Hps. unfold pushed. revert ps Hps. induction us as [|u us' IH]; intros [|p ps] Hps; try done.
  simpl. rewrite (Hps 0%nat p eq_refl). simpl. apply IH. intros i. apply (Hps (S i)).
Qed.

Lemma pushed_all ps : length ps = length us → (∀ i p, ps !! i = Some p → p ≠ Start) → pushed us ps = us.
Proof.
  unfold pushed. revert ps. induction us as [|u us' IH]; intros [|p ps] Hl Hps; try done.
  simpl. rewrite decide_False by (by apply (Hps 0%nat)). simpl. f_equal. apply IH; [simpl in Hl; lia|].
  intros i. apply (Hps (S i)).
Qed.

Lemma settled_rep c cur m :
  settled c cur m qs0 →
  let s := PSt m qs0 (replicate (length us) Start) None None None in
  rep c s ∧ at_chooser w th sw sd sp dl nd mq rqs id0 t0 U us qs0 (k_tasks c) m qs0 None None None c s.
Proof.
  intros [He Hsp Hm Hl Hq Hk Hb Hr Hc] s.
  assert (rep c s) as Hrep.
  { split; try done.
    - simpl. unfold refs_ok in *. rewrite locked_none; [done|]. by intros i p [-> _]%lookup_replicate_1.
    - split; simpl; try done; [apply length_replicate|intros p u q Hpq; left; by eapply Hb| |].
      + by intros i p [? _]%lookup_replicate_1.
      + rewrite pushed_none, !app_nil_r; [done|]. by intros i p [-> _]%lookup_replicate_1. }
  split; [exact Hrep|]. split; try done. intros p q Hpq. exists []. by rewrite app_nil_r.
Qed.

Lemma prio_threads_ok c cur m ts :
  settled c cur m qs0 → Forall2 (λ u t, ∃ p, U !! u = Some (t, p)) us ts →
  ∃ s, pool_ok False False True (λ _ _, False) rely guar (prio_thread_post (k_tasks c) cur) rep c s
    (choose_thread cur :: (prio_ready_thread <$> ts)).
Proof using rqs_length rqs_nodup prio_bound.
  intros Hs Hts. destruct (settled_rep c cur m Hs) as [Hr Hat].
  eexists. split; [exact Hr|]. intros [|i] p Hp; simpl in Hp.
  - simplify_eq. unfold choose_thread. rg_bind. eapply rg_mono;
      [|eapply (swprio_get_next_rg w th sw sd sp dl nd mq rqs id0 t0 U us qs0 rqs_length rqs_nodup prio_bound
          0 (k_tasks c) m qs0 cur); [apply Hs|apply Hs|exact Hat|apply Hs]].
    intros r c1 s1 (T' & tk & bk & Hch & Hat1). apply rg_done. intros c2 s2 HR.
    exists r. split; [done|]. exists T', tk, bk. split; [done|]. by eapply p_worker_stable.
  - apply list_lookup_fmap_Some in Hp as (t & -> & Ht).
    destruct (Forall2_lookup_r _ _ _ _ _ Hts Ht) as (u & Hu & pr & HU).
    unfold prio_ready_thread. rg_bind. eapply rg_mono;
      [|eapply (swprio_ready_rg w th sw sd sp dl nd mq rqs id0 t0 U us qs0 rqs_length rqs_nodup prio_bound i t u pr);
        [exact Hu|exact HU|]].
    + intros r c1 s1 [Hat1 ->]. apply rg_done. intros c2 s2 HR. split; [done|]. by eapply ready_stable.
    + split; [exact Hr|]. apply lookup_replicate. split; [done|]. by eapply lookup_lt_Some.
Qed.

(** When all the other threads have returned, nothing is under way. *)
Lemma settled_again T cur r T' tk bk c s (ts : list loc) :
  length us = length ts → current_ok U T cur → chosen U T cur qs0 r T' tk bk →
  at_chooser w th sw sd sp dl nd mq rqs id0 t0 U us qs0 T' 0 [] None tk bk c s →
  (∀ i, (i < length ts)%nat → p_phases s !! i = Some Free) →
  ∃ m' qs', settled c r.2 m' qs' ∧
    concat qs' ++ option_list tk ≡ₚ (concat qs0 ++ option_list bk) ++ us.
Proof.
  intros Hlen Hcur Hch [Hr Ht _ _ Ho Htk Hbk] Hfree. destruct Hr as [He Hsp Hq Hk Hrefs HI].
  pose proof (pi_phases _ _ _ HI) as Hl.
  assert (∀ i p, p_phases s !! i = Some p → p = Free) as Hall.
  { intros i p Hi. pose proof (lookup_lt_Some _ _ _ Hi). rewrite Hfree in Hi by lia. by simplify_eq. }
  exists (p_mask s), (p_queues s). split.
  - split; try done; try apply HI.
    + intros p u q Hpq. destruct (pi_told _ _ _ HI p u q Hpq) as [?|[Hp|?]]; [done| |congruence].
      apply list_elem_of_lookup in Hp as [i Hi]. by apply Hall in Hi.
    + unfold refs_ok in *. rewrite locked_none in Hrefs; [done|]. by intros i p ->%Hall.
    + rewrite Ht. destruct Hch as [Hrun _|t u p -> Hrun HU _|u t p e _ HU _ _ He1
        |u t p e cu ct cp ce _ -> HU' _ HU _ _ He1 He2]; simpl.
      * by split.
      * done.
      * split; [intros ? [= <-]; unfold set_state; rewrite lookup_insert_eq; by eexists|]. intros _. by exists t, u, p.
      * split; [intros ? [= <-]; unfold set_state at 1; rewrite lookup_insert_eq; by eexists|]. intros _. by exists t, u, p.
  - pose proof (pi_kept _ _ _ HI) as Hkept. rewrite Htk, Hbk, pushed_all in Hkept; [done|lia|].
    by intros i p ->%Hall.
Qed.
End threads.

(** C7: The worker runs a ready task of the highest priority, and no ready task is
    lost.  One worker asks the priority scheduler for the next task
    ([prs_sched_swprio_get_next]) while any number of threads make tasks ready
    ([prs_sched_swprio_ready]).  In every interleaving no thread faults, and those
    that make tasks ready report success.  The worker returns a task of which no
    task that was ready at the start has a higher priority, the oldest one of its
    queue: the current one when it is running and nothing of a higher priority is
    ready, else one that is taken off its queue and runs, and then a current task
    that was running is put back on its own queue.  Once all have returned, the
    tasks on the queues are those that were there at the start, those made ready
    and the one put back, without the one taken, each once; and the mask has again
    the bit of every queue that is not empty: the next choice sees them all. *)
Theorem swprio_runs_highest c cur m qs us ts c' ps' :
  settled c cur m qs → Forall2 (λ u t, ∃ p, U !! u = Some (t, p)) us ts →
  rtc pool_step (c, choose_thread cur :: (prio_ready_thread <$> ts)) (c', ps') →
  (∀ i p, ps' !! i = Some p → ¬ faults c' p) ∧
  (∀ i r, ps' !! S i = Some (Done r) → r = inl PRS_OK) ∧
  (∀ r, ps' !! 0%nat = Some (Done r) →
   ∃ r' tk bk, r = inr r' ∧ chosen U (k_tasks c) cur qs r' (k_tasks c') tk bk ∧
     ((∀ i, (i < length ts)%nat → ∃ r, ps' !! S i = Some (Done r)) →
      ∃ m' qs', settled c' r'.2 m' qs' ∧
        concat qs' ++ option_list tk ≡ₚ (concat qs ++ option_list bk) ++ us)).
Proof using rqs_length rqs_nodup prio_bound.
  intros Hs Hts Hsteps. destruct (prio_threads_ok us qs c cur m ts Hs Hts) as [s Hok].
  set (rep := prep w th sw sd sp dl nd mq rqs id0 t0 U us qs) in *.
  assert (∀ i c g c' g', pguar rep (pstep U us) k_tasks i (c, g) (c', g') → rep c g → rep c' g') as HGI
    by (by intros i c1 g1 c2 g2 (_ & ? & _)).
  assert (∀ i j s s', i ≠ j → pguar rep (pstep U us) k_tasks i s s' → prely rep (pstep U us) k_tasks j s s') as HGR
    by (intros; by eapply pguar_rely).
  destruct (pool_adequate False False True (λ _ _, False) I _ _ _ _ (prely_preorder _ _ _) HGR HGI
    _ _ _ _ _ Hok Hsteps) as (s1 & _ & Hfaults & _).
  split; [done|]. clear s1 Hfaults.
  destruct (pool_rtc_ok False False True (λ _ _, False) I _ _ _ _ (prely_preorder _ _ _) HGR HGI
    _ _ _ _ _ Hok Hsteps) as (s' & Hr & Hps).
  assert (∀ i r, ps' !! i = Some (Done r) → prio_thread_post us qs (k_tasks c) cur i r c' s') as Hpost.
  { intros i r Hi. apply (Hps i _ Hi). reflexivity. }
  split; [by intros i r [? _]%Hpost|]. intros r (r' & -> & T' & tk & bk & Hch & Hat)%Hpost.
  exists r', tk, bk. rewrite (aw_tasks _ _ _ _ _ _ _ _ _ _ _ _ _ _ _ _ _ _ _ _ _ _ Hat).
  split_and!; [done..|]. intros Hall. eapply (settled_again us qs (k_tasks c) cur r' T' tk bk c' s' ts); try done.
  - by eapply Forall2_length.
  - apply Hs.
  - intros i Hi. destruct (Hall i Hi) as [r Hri]. apply Hpost in Hri as [_ [_ ?]]. done.
Qed.
End together.

(** Task 10 of priority 3 runs and task 14 of priority 2 is ready, when task 12 of
    priority 1 is made ready. *)
Definition demo_readyqs : list loc := Pos.of_nat <$> seq 100 32.

Definition demo_prio_task (id prio : Z) (u : loc) (state : Z) : prs_task :=
  PrsTask id [] None None 0 prio 0 9 (Some u) state None None None.

Definition demo_prio_kern : kern :=
  with_tasks (list_to_map [(10%positive, demo_prio_task 7 3 11 2); (12%positive, demo_prio_task 8 1 13 1);
      (14%positive, demo_prio_task 9 2 15 1)])
    (with_workers {[ 1%positive := PrsWorker 5 2 3 0 7 (Some 10%positive) None ]}
    (with_threads {[ 2%positive := PrsPalThread false (Some 1%positive) true false 0 0 ]}
    (with_uds (list_to_map [(11%positive, SchedTaskUserdata (Some 10%positive));
      (13%positive, SchedTaskUserdata (Some 12%positive)); (15%positive, SchedTaskUserdata (Some 14%positive))])
    (with_swprio {[ 5%positive := PrsSchedSwprio 4 (Some <$> demo_readyqs) (Some 8%positive) ]}
    (with_sched_workers {[ 3%positive := PrsSchedWorker (Some 4%positive) (Some 4%positive) (Some 1%positive) ]}
    (with_scheds {[ 4%positive := PrsSched 9 [] prs_sched_swprio_ops (Some 5%positive) (Some 6%positive) ]}
    (with_queues (list_to_map ((8%positive, []) :: zip demo_readyqs (<[2%nat := [15%positive]]> (replicate 32 []))))
    (with_objs {[ 7 := (1%nat, (10%positive, s_prs_task_object_ops)) ]}
    (with_dllists {[ 6%positive := [(7%positive, 3%positive)] ]} kern_empty))))))))).

Definition demo_prio_map : gmap loc (loc * nat) :=
  list_to_map [(11%positive, (10%positive, 3%nat)); (13%positive, (12%positive, 1%nat));
    (15%positive, (14%positive, 2%nat))].

Definition demo_prio_threads : list (prog kern (prs_result + bool * ptr)) :=
  let _ : ObjectFree := λ _ _, mret tt in
  choose_thread 3 (Some 10%positive) :: (prio_ready_thread 4 <$> [12%positive]).

(** The worker starts before the bit of task 12 is set, and looks after it. *)
Definition demo_prio_schedule : list (nat * bool) :=
  replicate 5 (0%nat, false) ++ replicate 22 (1%nat, false) ++ replicate 25 (0%nat, false).

Lemma demo_prio_tasks u t p :
  demo_prio_map !! u = Some (t, p) →
  (u, t, p) = (11%positive, 10%positive, 3%nat) ∨ (u, t, p) = (13%positive, 12%positive, 1%nat) ∨
  (u, t, p) = (15%positive, 14%positive, 2%nat).
Proof.
  unfold demo_prio_map. cbn [list_to_map foldr fst snd uncurry].
  rewrite !lookup_insert_Some, lookup_empty. naive_solver.
Qed.

Lemma demo_settled :
  settled 1 2 3 4 5 6 7 8 demo_readyqs 7 10 demo_prio_map demo_prio_kern (Some 10%positive) 4
    (<[2%nat := [15%positive]]> (replicate 32 [])).
Proof.
  split; try reflexivity; try done.
  - split; try reflexivity; try done.
    by intros u t p [[= -> -> ->]|[[= -> -> ->]|[= -> -> ->]]]%demo_prio_tasks.
  - intros p rq Hp. pose proof (lookup_lt_Some _ _ _ Hp) as Hlt. change (length demo_readyqs) with 32%nat in Hlt.
    do 32 (destruct p as [|p]; [vm_compute in Hp; injection Hp as <-; eexists; split; reflexivity|]). lia.
  - intros p q u [(<- & <- & _)|[_ [-> _]%lookup_replicate_1]]%list_lookup_insert_Some Hu.
    + apply list_elem_of_singleton in Hu as ->. by exists 14%positive.
    + by apply elem_of_nil in Hu.
  - by intros p u q [(<- & _ & _)|[_ [? _]%lookup_replicate_1]]%list_lookup_insert_Some.
  - split; [exact Nat.lt_0_1|]. split; [done|]. by eexists.
  - split; [intros t [= <-]; by eexists|]. intros _. by exists 10%positive, 11%positive, 3%nat.
Qed.

Lemma swprio_runs_highest_witness :
  match pool_run demo_prio_schedule (demo_prio_kern, demo_prio_threads) with
  | Some (c, ps) =>
      ps !! 0%nat = Some (Done (inr (true, Some 12%positive))) ∧
      ∃ m qs tk bk, settled 1 2 3 4 5 6 7 8 demo_readyqs 7 10 demo_prio_map c (Some 12%positive) m qs ∧
        concat qs ++ option_list tk ≡ₚ ([15%positive] ++ option_list bk) ++ [13%positive]
  | None => False
  end.
Proof.
  assert ((λ s, (s.2 !! 0%nat, s.2 !! 1%nat)) <$> pool_run demo_prio_schedule (demo_prio_kern, demo_prio_threads) =
    Some (Some (Done (inr (true, Some 12%positive))), Some (Done (inl PRS_OK)))) as Hdone by (vm_compute; reflexivity).
  destruct (pool_run demo_prio_schedule _) as [[c ps]|] eqn:Hrun; [|discriminate Hdone].
  injection Hdone as H0 H1. simpl in H0, H1.
  assert (NoDup (8%positive :: demo_readyqs)) as Hnd.
  { apply (bool_decide_unpack (NoDup (8%positive :: demo_readyqs))). vm_compute. exact I. }
  assert (∀ u t p, demo_prio_map !! u = Some (t, p) → (p < 32)%nat) as Hbound.
  { intros u t p [[= -> -> ->]|[[= -> -> ->]|[= -> -> ->]]]%demo_prio_tasks; lia. }
  destruct (swprio_runs_highest (H := λ _ _, mret tt) 1 2 3 4 5 6 7 8 demo_readyqs 7 10 demo_prio_map eq_refl Hnd
    Hbound demo_prio_kern (Some 10%positive) 4 _ [13%positive] [12%positive] c ps demo_settled) as (_ & _ & Hchoice).
  - constructor; [|constructor]. by exists 1%nat.
  - exact (pool_run_rtc _ _ _ Hrun).
  - split; [exact H0|]. destruct (Hchoice _ H0) as (r' & tk & bk & [= <-] & _ & Hall).
    destruct Hall as (m & qs & Hs & Hp).
    + intros i Hi. exists (inl PRS_OK). assert (i = 0%nat) as -> by (simpl in Hi; lia). exact H1.
    + exists m, qs, tk, bk. exact (conj Hs Hp).
Defined.
