(* ===== verification/NameTable.v ===== *)
(** * The name resolver under concurrent use (prs/name.c)

    Threads add, remove and look up names in one table without locks.  This file
    states the protocol they follow, shows that the functions of the resolver follow
    it in every interleaving, and what the lookups find: a thread never misses an
    object that it has added itself, or that nobody removes. *)

From S2P Require Import Prelude Heap Atomic RefDir Kern Name Protocol.

(** ** Names

    The string in an array of bytes ends before the first zero. *)

Fixpoint cstr (a : list Z) : list Z :=
  match a with
  | [] => []
  | c :: a => if c =? 0 then [] else c :: cstr a
  end.

Definition terminated (a : list Z) : Prop := 0 ∈ a.

Lemma terminated_cons c a : terminated (c :: a) → c ≠ 0 → terminated a.
Proof. intros [?|?]%elem_of_cons ?; [congruence|done]. Qed.

Fixpoint hash_str (s : list Z) (hash : Z) : Z :=
  match s with
  | [] => hash
  | c :: s => hash_str s (u32 (Z.lxor (char32 c) hash * 0x01000193))
  end.

Lemma hash_loop_cstr a hash : terminated a → hash_loop a hash = Ret (hash_str (cstr a) hash).
Proof.
  revert hash. induction a as [|c a IH]; intros hash Ha; [by apply elem_of_nil in Ha|].
  simpl. destruct (Z.eqb_spec c 0) as [->|Hc]; [done|]. simpl. apply IH. by eapply terminated_cons.
Qed.

Lemma string_eq_cstr a b : terminated a → terminated b →
  string_eq a b = Ret (bool_decide (cstr a = cstr b)).
Proof.
  revert b. induction a as [|x a IH]; intros [|y b] Ha Hb;
    [by apply elem_of_nil in Ha|by apply elem_of_nil in Ha|by apply elem_of_nil in Hb|].
  simpl. destruct (Z.eqb_spec x y) as [->|Hxy].
  - destruct (Z.eqb_spec y 0) as [->|Hy]; [done|].
    rewrite IH by (by eapply terminated_cons). f_equal. apply bool_decide_ext. split; congruence.
  - f_equal. symmetry. apply bool_decide_eq_false.
    destruct (Z.eqb_spec x 0), (Z.eqb_spec y 0); congruence.
Qed.

Definition hash_of (a : list Z) : Z := hash_str (cstr a) 0x811C9DC5.

(** ** Clients

    A client runs a list of operations; it adds and removes its own objects only, and
    does not add one again before it has removed it. *)

Inductive name_op : Type :=
  | NAlloc (id : Z)
  | NFree (id : Z)
  | NFind (key : list Z)
  | NFindAndLock (key : list Z).

Definition op_adds (op : name_op) : nat := match op with NAlloc _ => 1 | _ => 0 end.
Definition adds (ops : list name_op) : nat := sum_list_with op_adds ops.

(** The objects of the client that are in the table. *)
Definition bound_after_op (bd : gset Z) (op : name_op) : gset Z :=
  match op with NAlloc id => {[ id ]} ∪ bd | NFree id => bd ∖ {[ id ]} | _ => bd end.
Definition bound_after (bd : gset Z) (ops : list name_op) : gset Z := foldl bound_after_op bd ops.

Section clients.
Context `{!ObjectFree} (fuel : nat) (name : loc).

(** An object that was locked is unlocked again. *)
Definition name_op_prog (op : name_op) : prog kern (prs_result + Z) :=
  match op with
  | NAlloc id => r ← prs_name_alloc fuel name id; mret (inl r)
  | NFree id => r ← prs_name_free fuel name id; mret (inl r)
  | NFind key => r ← prs_name_find fuel name key; mret (inr r)
  | NFindAndLock key =>
      r ← prs_name_find_and_lock fuel name key;
      _ ← (if r =? 0 then mret tt else god_unlock r);
      mret (inr r)
  end.

Fixpoint name_client (ops : list name_op) : prog kern (list (prs_result + Z)) :=
  match ops with
  | [] => mret []
  | op :: ops => r ← name_op_prog op; rs ← name_client ops; mret (r :: rs)
  end.
End clients.

Section answers.
Context (O : gmap Z (loc * list Z)) (owner : Z → option nat) (P : gset Z).

(** What client [i] may do. *)
Definition legal_op (i : nat) (bd : gset Z) (op : name_op) : Prop :=
  match op with
  | NAlloc id => owner id = Some i ∧ is_Some (O !! id) ∧ id ∉ bd
  | NFree id => owner id = Some i ∧ is_Some (O !! id)
  | NFind key | NFindAndLock key => terminated key
  end.

Fixpoint legal (i : nat) (bd : gset Z) (ops : list name_op) : Prop :=
  match ops with
  | [] => True
  | op :: ops => legal_op i bd op ∧ legal i (bound_after_op bd op) ops
  end.

(** The IDs that a lookup of [key] by a client with [bd] in the table cannot miss. *)
Definition sure (bd : gset Z) (key : list Z) (id : Z) : Prop :=
  id ∈ P ∪ bd ∧ ∃ o, O !! id = Some o ∧ cstr o.2 = cstr key.

(** What a lookup returns: an object of that name; or none, and then there is none that
    it could not miss. *)
Definition found (bd : gset Z) (key : list Z) (r : Z) : Prop :=
  if r =? 0 then ∀ id, ¬ sure bd key id else ∃ o, O !! r = Some o ∧ cstr o.2 = cstr key.

Definition free_result (bd : gset Z) (id : Z) : prs_result := if decide (id ∈ bd) then PRS_OK else PRS_NOT_FOUND.

Definition answer (bd : gset Z) (op : name_op) (r : prs_result + Z) : Prop :=
  match op with
  | NAlloc id => r = inl PRS_OK
  | NFree id => r = inl (free_result bd id)
  | NFind key | NFindAndLock key => ∃ r', r = inr r' ∧ found bd key r'
  end.

Fixpoint answers (bd : gset Z) (ops : list name_op) (rs : list (prs_result + Z)) : Prop :=
  match ops, rs with
  | [], [] => True
  | op :: ops, r :: rs => answer bd op r ∧ answers (bound_after_op bd op) ops rs
  | _, _ => False
  end.
End answers.

(** ** The protocol *)

(** A thread: the object it holds a reference on, its node that is not on a list
    yet and the ID this holds, the IDs it has added, and how many more it may add. *)
Record nthread : Type := NThread {
  t_held : option Z;
  t_new : option (loc * Z);
  t_bound : gset Z;
  t_todo : nat
}.

(** The nodes of each entry, their IDs, the threads, and how many IDs they have added. *)
Record nst : Type := NSt {
  n_chains : list (list loc);
  n_ids : gmap loc Z;
  n_threads : list nthread;
  n_added : nat
}.

Definition news (ths : list nthread) : list loc := concat ((λ tl, option_list (fst <$> t_new tl)) <$> ths).
Definition all_nodes (s : nst) : list loc := concat (n_chains s) ++ news (n_threads s).

Section protocol.
Context (O : gmap Z (loc * list Z)) (owner : Z → option nat) (max : Z) (A N0 : nat) (P : gset Z).

(** The index of the entry of a name. *)
Definition bucket (a : list Z) : nat := Z.to_nat (hash_of a mod max).

(** The actions of thread [i].  [O] gives the object and the name of each registered
    ID, and [owner] the thread that may add and remove it. *)
Inductive nstep (i : nat) : nst → nst → Prop :=
  | n_nop s : nstep i s s
  | n_hold id new bd td ch ids ths a o : ths !! i = Some (NThread None new bd td) → O !! id = Some o →
      nstep i (NSt ch ids ths a) (NSt ch ids (<[i := NThread (Some id) new bd td]> ths) a)
  | n_drop id new bd td ch ids ths a : ths !! i = Some (NThread (Some id) new bd td) →
      nstep i (NSt ch ids ths a) (NSt ch ids (<[i := NThread None new bd td]> ths) a)
  | n_new l h bd td ch ids ths a : ths !! i = Some (NThread h None bd td) →
      l ∉ all_nodes (NSt ch ids ths a) →
      nstep i (NSt ch ids ths a) (NSt ch ids (<[i := NThread h (Some (l, 0)) bd td]> ths) a)
  | n_set l id0 id h bd td ch ids ths a : ths !! i = Some (NThread h (Some (l, id0)) bd td) →
      nstep i (NSt ch ids ths a) (NSt ch ids (<[i := NThread h (Some (l, id)) bd td]> ths) a)
  | n_del l id h bd td ch ids ths a : ths !! i = Some (NThread h (Some (l, id)) bd td) →
      nstep i (NSt ch ids ths a) (NSt ch ids (<[i := NThread h None bd td]> ths) a)
  | n_fill l id o b chain k h new bd td ch ids ths a :
      ths !! i = Some (NThread h new bd (S td)) → O !! id = Some o → owner id = Some i → id ∉ bd →
      bucket o.2 = b → ch !! b = Some chain → chain !! k = Some l → ids !! l = Some 0 →
      nstep i (NSt ch ids ths a)
        (NSt ch (<[l := id]> ids) (<[i := NThread h new ({[ id ]} ∪ bd) td]> ths) (S a))
  | n_append l id o b chain h bd td ch ids ths a :
      ths !! i = Some (NThread h (Some (l, id)) bd (S td)) → O !! id = Some o → owner id = Some i → id ∉ bd →
      bucket o.2 = b → ch !! b = Some chain →
      nstep i (NSt ch ids ths a)
        (NSt (<[b := chain ++ [l]]> ch) (<[l := id]> ids) (<[i := NThread h None ({[ id ]} ∪ bd) td]> ths) (S a))
  | n_clear l id h new bd td ch ids ths a :
      ths !! i = Some (NThread h new bd td) → id ∈ bd → ids !! l = Some id →
      nstep i (NSt ch ids ths a)
        (NSt ch (<[l := 0]> ids) (<[i := NThread h new (bd ∖ {[ id ]}) td]> ths) a).

Definition todo (ths : list nthread) : nat := sum_list_with t_todo ths.

Record ninv (s : nst) : Prop := NInv {
  ni_length : length (n_chains s) = Z.to_nat max;
  ni_nodup : NoDup (all_nodes s);
  ni_dom l : is_Some (n_ids s !! l) ↔ l ∈ concat (n_chains s);
  ni_bucket b chain k l id : n_chains s !! b = Some chain → chain !! k = Some l → n_ids s !! l = Some id → id ≠ 0 →
    ∃ o, O !! id = Some o ∧ bucket o.2 = b;
  ni_once l l' id : id ≠ 0 → n_ids s !! l = Some id → n_ids s !! l' = Some id → l = l';
  ni_bound i tl id : n_threads s !! i = Some tl → id ∈ t_bound tl →
    id ≠ 0 ∧ owner id = Some i ∧ ∃ l, n_ids s !! l = Some id;
  ni_owned l id i : n_ids s !! l = Some id → id ≠ 0 → owner id = Some i →
    ∃ tl, n_threads s !! i = Some tl ∧ id ∈ t_bound tl;
  ni_kept id : id ∈ P → ∃ l, n_ids s !! l = Some id;
  ni_added : (n_added s + todo (n_threads s) = A)%nat;
  ni_nodes : (length (concat (n_chains s)) ≤ N0 + n_added s)%nat
}.

Lemma news_insert ths i tl tl' : ths !! i = Some tl →
  news (<[i := tl']> ths) ++ option_list (fst <$> t_new tl) ≡ₚ news ths ++ option_list (fst <$> t_new tl').
Proof.
  intros Hi. unfold news. rewrite list_fmap_insert. apply concat_insert. by rewrite list_lookup_fmap, Hi.
Qed.

Lemma news_same ths i tl tl' : ths !! i = Some tl → fst <$> t_new tl' = fst <$> t_new tl →
  news (<[i := tl']> ths) = news ths.
Proof.
  intros Hi Hn. unfold news. rewrite list_fmap_insert, Hn. f_equal. apply list_insert_id.
  by rewrite list_lookup_fmap, Hi.
Qed.

Lemma news_none ths i tl tl' l : ths !! i = Some tl → t_new tl' = None → fst <$> t_new tl = Some l →
  news (<[i := tl']> ths) ++ [l] ≡ₚ news ths.
Proof. intros Hi Hn Hl. pose proof (news_insert _ _ _ tl' Hi) as H. rewrite Hn, Hl in H. simpl in H. by rewrite app_nil_r in H. Qed.

Lemma news_some ths i tl tl' l : ths !! i = Some tl → fst <$> t_new tl' = Some l → t_new tl = None →
  news (<[i := tl']> ths) ≡ₚ news ths ++ [l].
Proof. intros Hi Hn Hl. pose proof (news_insert _ _ _ tl' Hi) as H. rewrite Hn, Hl in H. simpl in H. by rewrite app_nil_r in H. Qed.

Lemma todo_insert ths i tl tl' : ths !! i = Some tl →
  (todo (<[i := tl']> ths) + t_todo tl = todo ths + t_todo tl')%nat.
Proof.
  unfold todo. revert i. induction ths as [|t ths IH]; intros [|i] Hi; simplify_eq/=; [lia|].
  specialize (IH i Hi). lia.
Qed.

(** Steps that only change what a thread holds. *)
Lemma thread_inv ch ids ths a i tl tl' :
  ths !! i = Some tl → t_bound tl' = t_bound tl → t_todo tl' = t_todo tl →
  NoDup (all_nodes (NSt ch ids (<[i := tl']> ths) a)) →
  ninv (NSt ch ids ths a) → ninv (NSt ch ids (<[i := tl']> ths) a).
Proof.
  intros Hi Hb Ht Hnd [H1 H2 H3 H4 H5 H6 H7 HP H8 H9]. simpl in *. split; simpl; try done.
  - intros j tlj id [(-> & <- & _)|[_ Hj]]%list_lookup_insert_Some; [rewrite Hb|]; by apply H6.
  - intros l id j Hl Hne Ho. destruct (H7 l id j Hl Hne Ho) as (tlj & Hj & Hin).
    destruct (decide (i = j)) as [<-|Hij]; [|exists tlj; by rewrite list_lookup_insert_ne].
    exists tl'. rewrite list_lookup_insert_eq by (by eapply lookup_lt_Some). split; [done|].
    rewrite Hb. congruence.
  - pose proof (todo_insert _ _ _ tl' Hi). lia.
Qed.

Lemma node_dom s b chain k l : ninv s → n_chains s !! b = Some chain → chain !! k = Some l →
  l ∈ concat (n_chains s).
Proof.
  intros HI Hb Hk. apply list_elem_of_In, in_concat. exists chain.
  split; apply list_elem_of_In; by eapply list_elem_of_lookup_2.
Qed.

(** A node is in one place only. *)
Lemma node_place s b b' chain chain' k k' l : ninv s →
  n_chains s !! b = Some chain → chain !! k = Some l →
  n_chains s !! b' = Some chain' → chain' !! k' = Some l → b = b' ∧ k = k'.
Proof.
  intros HI. pose proof (ni_nodup _ HI) as Hnd. apply NoDup_app in Hnd as (Hnd & _ & _).
  clear HI. revert b b'. induction (n_chains s) as [|c0 cs IH]; intros b b' Hb Hk Hb' Hk'; [done|].
  simpl in Hnd. apply NoDup_app in Hnd as (Hc & Hd & Hnd).
  assert (∀ b chain k, cs !! b = Some chain → chain !! k = Some l → l ∈ c0 → False) as Habs.
  { intros b1 ch1 k1 Hb1 Hk1 Hin. apply (Hd l Hin). apply list_elem_of_In, in_concat. exists ch1.
    split; apply list_elem_of_In; by eapply list_elem_of_lookup_2. }
  destruct b as [|b], b' as [|b']; simplify_eq/=.
  - split; [done|]. exact (NoDup_lookup _ _ _ _ Hc Hk Hk').
  - exfalso. eapply Habs; [done..|]. by eapply list_elem_of_lookup_2.
  - exfalso. eapply Habs; [done..|]. by eapply list_elem_of_lookup_2.
  - destruct (IH Hnd b b') as [-> ->]; done.
Qed.

(** An ID is added to a node. *)
Lemma bound_insert (ids : gmap loc Z) (ths : list nthread) i l id h new new' bd td :
  id ≠ 0 → owner id = Some i → ths !! i = Some (NThread h new bd (S td)) → id ∉ bd →
  (∀ id', ids !! l = Some id' → id' = 0) →
  (∀ l l' id, id ≠ 0 → ids !! l = Some id → ids !! l' = Some id → l = l') →
  (∀ i tl id, ths !! i = Some tl → id ∈ t_bound tl → id ≠ 0 ∧ owner id = Some i ∧ ∃ l, ids !! l = Some id) →
  (∀ l id i, ids !! l = Some id → id ≠ 0 → owner id = Some i → ∃ tl, ths !! i = Some tl ∧ id ∈ t_bound tl) →
  let ids' := <[l := id]> ids in
  let ths' := <[i := NThread h new' ({[ id ]} ∪ bd) td]> ths in
  (∀ l l' id, id ≠ 0 → ids' !! l = Some id → ids' !! l' = Some id → l = l') ∧
  (∀ i tl id, ths' !! i = Some tl → id ∈ t_bound tl →
     id ≠ 0 ∧ owner id = Some i ∧ ∃ l, ids' !! l = Some id) ∧
  (∀ l id i, ids' !! l = Some id → id ≠ 0 → owner id = Some i → ∃ tl, ths' !! i = Some tl ∧ id ∈ t_bound tl).
Proof.
  intros Hid Ho Hi Hbd Hl H5 H6 H7 ids' ths'.
  assert (∀ l1, ids !! l1 = Some id → False) as Hfree.
  { intros l1 Hl1. destruct (H7 l1 id i Hl1 Hid Ho) as (tl & Htl & Hin). by simplify_eq/=. }
  split_and!.
  - intros l1 l2 id1 Hne [[-> <-]|[Hn1 H1]]%lookup_insert_Some [[-> E]|[Hn2 H2]]%lookup_insert_Some; subst; try done.
    + by destruct (Hfree l2).
    + by destruct (Hfree l1).
    + by eapply H5.
  - intros j tl id1 [(-> & <- & _)|[Hij Hj]]%list_lookup_insert_Some Hin.
    + simpl in Hin. apply elem_of_union in Hin as [->%elem_of_singleton|Hin].
      * split; [done|]. split; [done|]. exists l. apply lookup_insert_eq.
      * destruct (H6 j _ id1 Hi Hin) as (Hne & ? & l1 & Hl1). split; [done|]. split; [done|]. exists l1. unfold ids'.
        rewrite lookup_insert_ne; [done|]. intros ->. by apply Hne, Hl.
    + destruct (H6 j tl id1 Hj Hin) as (Hne & ? & l1 & Hl1). split; [done|]. split; [done|]. exists l1. unfold ids'.
      rewrite lookup_insert_ne; [done|]. intros ->. by apply Hne, Hl.
  - intros l1 id1 j [[-> <-]|[Hn1 H1]]%lookup_insert_Some Hne Hj.
    + simplify_eq. eexists. unfold ths'. rewrite list_lookup_insert_eq by (by eapply lookup_lt_Some).
      split; [done|]. simpl. set_solver.
    + destruct (H7 l1 id1 j H1 Hne Hj) as (tl & Htl & Hin). destruct (decide (i = j)) as [<-|Hij].
      * eexists. unfold ths'. rewrite list_lookup_insert_eq by (by eapply lookup_lt_Some).
        split; [done|]. simplify_eq/=. set_solver.
      * exists tl. unfold ths'. by rewrite list_lookup_insert_ne.
Qed.

Lemma bound_clear (ids : gmap loc Z) (ths : list nthread) i l id h new bd td :
  id ≠ 0 → ths !! i = Some (NThread h new bd td) → id ∈ bd → ids !! l = Some id →
  (∀ l l' id, id ≠ 0 → ids !! l = Some id → ids !! l' = Some id → l = l') →
  (∀ i tl id, ths !! i = Some tl → id ∈ t_bound tl → id ≠ 0 ∧ owner id = Some i ∧ ∃ l, ids !! l = Some id) →
  (∀ l id i, ids !! l = Some id → id ≠ 0 → owner id = Some i → ∃ tl, ths !! i = Some tl ∧ id ∈ t_bound tl) →
  let ids' := <[l := 0]> ids in
  let ths' := <[i := NThread h new (bd ∖ {[ id ]}) td]> ths in
  (∀ l l' id, id ≠ 0 → ids' !! l = Some id → ids' !! l' = Some id → l = l') ∧
  (∀ i tl id, ths' !! i = Some tl → id ∈ t_bound tl → id ≠ 0 ∧ owner id = Some i ∧ ∃ l, ids' !! l = Some id) ∧
  (∀ l id i, ids' !! l = Some id → id ≠ 0 → owner id = Some i → ∃ tl, ths' !! i = Some tl ∧ id ∈ t_bound tl).
Proof.
  intros Hid Hi Hbd Hl H5 H6 H7 ids' ths'. split_and!.
  - intros l1 l2 id1 Hne [[-> <-]|[Hn1 H1]]%lookup_insert_Some [[-> E]|[Hn2 H2]]%lookup_insert_Some; try done.
    by eapply H5.
  - assert (∀ j tl id1, ths !! j = Some tl → id1 ∈ t_bound tl → id1 ≠ id →
      id1 ≠ 0 ∧ owner id1 = Some j ∧ ∃ l, ids' !! l = Some id1) as Hkeep.
    { intros j tl id1 Hj Hin Hne1. destruct (H6 j tl id1 Hj Hin) as (Hne & ? & l1 & Hl1).
      split; [done|]. split; [done|]. exists l1. unfold ids'. rewrite lookup_insert_ne; [done|]. congruence. }
    intros j tl id1 [(-> & <- & _)|[Hij Hj]]%list_lookup_insert_Some Hin.
    + simpl in Hin. apply elem_of_difference in Hin as [Hin Hne1%not_elem_of_singleton].
      by apply (Hkeep j _ id1 Hi).
    + apply (Hkeep j tl id1 Hj Hin). intros ->.
      destruct (H6 i _ id Hi Hbd) as (_ & Ho & _). destruct (H6 j tl id Hj Hin) as (_ & Ho' & _). congruence.
  - intros l1 id1 j [[-> <-]|[Hn1 H1]]%lookup_insert_Some Hne Hj; [done|].
    destruct (H7 l1 id1 j H1 Hne Hj) as (tl & Htl & Hin). destruct (decide (i = j)) as [<-|Hij].
    + eexists. unfold ths'. rewrite list_lookup_insert_eq by (by eapply lookup_lt_Some).
      split; [done|]. simplify_eq/=. apply elem_of_difference. split; [done|].
      apply not_elem_of_singleton. intros ->. by apply Hn1, (H5 l l1 id).
    + exists tl. unfold ths'. by rewrite list_lookup_insert_ne.
Qed.

Hypothesis ids_nonzero : O !! 0 = None.
Hypothesis kept_unowned : ∀ id, id ∈ P → id ≠ 0 ∧ owner id = None.

Lemma kept_insert (ids : gmap loc Z) l id :
  (∀ id', ids !! l = Some id' → id' ∉ P) → (∀ id, id ∈ P → ∃ l, ids !! l = Some id) →
  ∀ id', id' ∈ P → ∃ l', <[l := id]> ids !! l' = Some id'.
Proof.
  intros Hl HP id' Hid'. destruct (HP id' Hid') as [l' Hl']. exists l'.
  rewrite lookup_insert_ne; [done|]. intros ->. by apply (Hl id').
Qed.

Lemma nstep_inv i s s' : nstep i s s' → ninv s → ninv s'.
Proof using ids_nonzero kept_unowned.
  intros [s0|id new bd td ch ids ths a o Hi _|id new bd td ch ids ths a Hi|l h bd td ch ids ths a Hi Hl
    |l id0 id h bd td ch ids ths a Hi|l id h bd td ch ids ths a Hi
    |l id o b chain k h new bd td ch ids ths a Hi HO Ho Hbd Hb Hch Hk Hl
    |l id o b chain h bd td ch ids ths a Hi HO Ho Hbd Hb Hch
    |l id h new bd td ch ids ths a Hi Hbd Hl] HI; [done|..]; pose proof (ni_nodup _ HI) as Hnd;
    unfold all_nodes in Hnd; simpl in Hnd.
  - eapply (thread_inv _ _ _ _ _ _ _ Hi); try done. unfold all_nodes. simpl. by rewrite (news_same _ _ _ _ Hi).
  - eapply (thread_inv _ _ _ _ _ _ _ Hi); try done. unfold all_nodes. simpl. by rewrite (news_same _ _ _ _ Hi).
  - eapply (thread_inv _ _ _ _ _ _ _ Hi); try done. unfold all_nodes in *. simpl in *.
    rewrite (news_some ths i _ (NThread h (Some (l, 0)) bd td) l Hi) by done.
    rewrite (assoc_L (++)). apply NoDup_app. split; [done|]. split; [|apply NoDup_singleton].
    intros x Hx ->%list_elem_of_singleton. done.
  - eapply (thread_inv _ _ _ _ _ _ _ Hi); try done. unfold all_nodes. simpl. by rewrite (news_same _ _ _ _ Hi).
  - eapply (thread_inv _ _ _ _ _ _ _ Hi); try done. unfold all_nodes. simpl.
    rewrite <- (news_none ths i _ (NThread h None bd td) l Hi) in Hnd by done.
    rewrite (assoc_L (++)) in Hnd. by apply NoDup_app in Hnd as (? & _).
  - assert (l ∈ concat ch) as Hin by (by eapply (node_dom _ b chain k l HI)).
    assert (id ≠ 0) as Hid by congruence.
    destruct HI as [H1 _ H3 H4 H5 H6 H7 HP H8 H9]. simpl in *.
    destruct (bound_insert ids ths i l id h new new bd td) as (H5' & H6' & H7'); try done; [congruence|].
    pose proof (todo_insert _ _ _ (NThread h new ({[id]} ∪ bd) td) Hi) as Htd.
    split; simpl; try done.
    + unfold all_nodes. simpl. by rewrite (news_same _ _ _ _ Hi).
    + intros l1. rewrite lookup_insert_is_Some, H3. destruct (decide (l = l1)) as [<-|]; [|naive_solver]. tauto.
    + intros b1 chain1 k1 l1 id1 Hb1 Hk1 [[-> <-]|[_ Hl1]]%lookup_insert_Some Hne; [|by eapply H4].
      exists o. split; [done|].
      destruct (node_place (NSt ch ids ths a) b b1 chain chain1 k k1 l1) as [<- _]; done.
    + apply kept_insert; [|done]. intros id' Hl' [Hid' _]%kept_unowned. congruence.
    + simpl in Htd. lia.
    + lia.
  - assert (id ≠ 0) as Hid by congruence.
    pose proof (news_none ths i _ (NThread h None ({[id]} ∪ bd) td) l Hi eq_refl eq_refl) as Hnews.
    pose proof (concat_snoc_perm _ _ _ l Hch) as Hcc.
    assert (l ∉ concat ch) as Hnin.
    { rewrite <- Hnews in Hnd. apply NoDup_app in Hnd as (_ & Hd & _). intros Hin. apply (Hd l Hin).
      apply elem_of_app. right. by apply list_elem_of_singleton. }
    destruct HI as [H1 _ H3 H4 H5 H6 H7 HP H8 H9]. simpl in *.
    assert (ids !! l = None) as Hnone.
    { destruct (ids !! l) eqn:E; [|done]. exfalso. apply Hnin, H3. by eexists. }
    destruct (bound_insert ids ths i l id h (Some (l, id)) None bd td) as (H5' & H6' & H7'); try done; [congruence|].
    pose proof (todo_insert _ _ _ (NThread h None ({[id]} ∪ bd) td) Hi) as Htd.
    split; simpl; try done.
    + by rewrite length_insert.
    + unfold all_nodes. simpl. rewrite Hcc, <- (assoc_L (++)), (Permutation_app_comm [l]), Hnews. done.
    + intros l1. rewrite lookup_insert_is_Some, H3, Hcc, elem_of_app, list_elem_of_singleton. naive_solver.
    + intros b1 chain1 k1 l1 id1 Hb1 Hk1 [[-> <-]|[Hne1 Hl1]]%lookup_insert_Some Hne.
      * exists o. split; [done|]. destruct (decide (b1 = b)) as [->|Hbb]; [done|].
        rewrite list_lookup_insert_ne in Hb1 by done. exfalso. apply Hnin.
        apply list_elem_of_In, in_concat. exists chain1.
        split; apply list_elem_of_In; by eapply list_elem_of_lookup_2.
      * apply list_lookup_insert_Some in Hb1 as [(-> & <- & _)|[_ Hb1]]; [|by eapply H4].
        apply lookup_app_Some in Hk1 as [Hk1|[_ Hk1]]; [by eapply H4|].
        apply list_lookup_singleton_Some in Hk1 as [_ <-]. done.
    + apply kept_insert; [|done]. intros id' Hl'. congruence.
    + simpl in Htd. lia.
    + rewrite Hcc, length_app. simpl. lia.
  - assert (id ≠ 0) as Hid by (by eapply (ni_bound _ HI i _ id Hi)).
    destruct HI as [H1 _ H3 H4 H5 H6 H7 HP H8 H9]. simpl in *.
    destruct (bound_clear ids ths i l id h new bd td) as (H5' & H6' & H7'); try done.
    pose proof (todo_insert _ _ _ (NThread h new (bd ∖ {[id]}) td) Hi) as Htd.
    split; simpl; try done.
    + unfold all_nodes. simpl. by rewrite (news_same _ _ _ _ Hi).
    + intros l1. rewrite lookup_insert_is_Some, <- H3. destruct (decide (l = l1)) as [<-|]; [|naive_solver].
      split; [by eexists|by left].
    + intros b1 chain1 k1 l1 id1 Hb1 Hk1 [[-> <-]|[_ Hl1]]%lookup_insert_Some Hne; [done|by eapply H4].
    + apply kept_insert; [|done]. intros id' Hl' [_ Hown]%kept_unowned. simplify_eq.
      destruct (H6 i _ id Hi Hbd) as (_ & ? & _). congruence.
    + simpl in Htd. lia.
Qed.
End protocol.

(** ** The memory

    [name] is the resolver; [O] gives the object and the name array of each ID;
    apart from the references held here each object has [base] of them; [live0] are
    the blocks of the heap that are not nodes of the table. *)

Lemma live_add (live : gset loc) (xs ys : list loc) l :
  ys ≡ₚ xs ++ [l] → {[ l ]} ∪ (live ∪ list_to_set xs) = live ∪ list_to_set ys.
Proof. intros Hp. rewrite (list_to_set_perm_L _ _ Hp), list_to_set_app_L. set_solver. Qed.

Lemma live_remove (live : gset loc) (xs ys : list loc) l :
  ys ≡ₚ xs ++ [l] → l ∉ live → l ∉ xs → (live ∪ list_to_set ys) ∖ {[ l ]} = live ∪ list_to_set xs.
Proof. intros Hp Hl Hx. rewrite (list_to_set_perm_L _ _ Hp), list_to_set_app_L. set_solver. Qed.

Section implementation.
Context `{!ObjectFree}.
Context (name : loc) (max : Z) (off : name_offset) (blk : ptr).
Context (O : gmap Z (loc * list Z)) (owner : Z → option nat) (base : Z → nat) (A N0 : nat) (P : gset Z) (live0 : gset loc).
Hypothesis max_pos : 0 < max.
Hypothesis ids_nonzero : O !! 0 = None.
Hypothesis kept_unowned : ∀ id, id ∈ P → id ≠ 0 ∧ owner id = None.
Hypothesis names_terminated : ∀ id obj a, O !! id = Some (obj, a) → terminated a.
Hypothesis base_pos : ∀ id obj a, O !! id = Some (obj, a) → (0 < base id)%nat.

Definition key_of (c : kern) (object : loc) : option (list Z) :=
  match off with
  | offsetof_task_name => tk_name <$> k_tasks c !! object
  | offsetof_sched_name => sd_name <$> k_scheds c !! object
  end.

Definition holders (id : Z) (ths : list nthread) : nat := length (filter (λ tl, t_held tl = Some id) ths).

Record nrep (c : kern) (s : nst) : Prop := NRep {
  nr_name : ∃ entries, k_names c !! name = Some (PrsName max off blk entries) ∧
    length entries = length (n_chains s) ∧
    ∀ b chain, n_chains s !! b = Some chain → entries !! b = Some (chain !! 0%nat);
  nr_nodes b chain k l : n_chains s !! b = Some chain → chain !! k = Some l →
    ∃ id, n_ids s !! l = Some id ∧ k_name_nodes c !! l = Some (PrsNameListNode (chain !! S k) id);
  nr_new i tl l id : n_threads s !! i = Some tl → t_new tl = Some (l, id) →
    k_name_nodes c !! l = Some (PrsNameListNode None id);
  nr_objs id obj a : O !! id = Some (obj, a) →
    ∃ o, k_objs c !! id = Some ((base id + holders id (n_threads s))%nat, (obj, o)) ∧ key_of c obj = Some a;
  nr_heap_ok : heap_ok (k_heap c);
  nr_heap : heap_live (k_heap c) = live0 ∪ list_to_set (all_nodes s);
  nr_live0 l : l ∈ live0 → l ∉ all_nodes s;
  nr_inv : ninv O owner max A N0 P s
}.

Abbreviation step := (nstep O owner max).
Definition nview (c : kern) : unit := tt.
Abbreviation wp i := (pwp_fatal True nrep step nview i).

Lemma nstep_refl i s : step i s s.
Proof. constructor. Qed.

(** What a thread knows: its own part, and facts on the table that the others do not
    change. *)
Definition at_name (i : nat) (tl : nthread) (K : nst → Prop) (c : kern) (s : nst) : Prop :=
  nrep c s ∧ n_threads s !! i = Some tl ∧ K s.

Definition nstable (i : nat) (K : nst → Prop) : Prop :=
  (∀ j s s', j ≠ i → step j s s' → K s → K s') ∧
  (∀ ch ids ths ths' a, ninv O owner max A N0 P (NSt ch ids ths' a) → K (NSt ch ids ths a) → K (NSt ch ids ths' a)).

Lemma step_threads i j s s' : step j s s' → j ≠ i → n_threads s' !! i = n_threads s !! i.
Proof. intros []; intros Hne; simpl; by rewrite ?list_lookup_insert_ne. Qed.

Lemma at_name_stable i tl K : nstable i K → pstable nrep step nview i (at_name i tl K).
Proof.
  intros HK. apply pstable_intro. intros j c s c' s' Hne Hr Hs _ (_ & Ht & Hk).
  split; [done|]. split; [by rewrite (step_threads i j s s')|by eapply (proj1 HK)].
Qed.

Lemma at_name_rep i tl K c s : at_name i tl K c s → nrep c s.
Proof. by intros []. Qed.

Lemma at_name_weaken i tl (K K' : nst → Prop) c s : (∀ s, K s → K' s) → at_name i tl K c s → at_name i tl K' c s.
Proof. intros HK (? & ? & ?). split_and!; auto. Qed.

(** *** What stays *)

(** The nodes never move. *)
Definition node_is (b k : nat) (l : loc) (s : nst) : Prop :=
  ∃ chain, n_chains s !! b = Some chain ∧ chain !! k = Some l.
(** The pointer that leads to the [k]-th node of entry [b]. *)
Definition at_pos (np : node_ptr) (b k : nat) (s : nst) : Prop :=
  match np with
  | EntryList e => e = Z.of_nat b ∧ k = 0%nat ∧ is_Some (n_chains s !! b)
  | NodeNext l => ∃ k', k = S k' ∧ node_is b k' l s
  end.
Definition added (a : nat) (s : nst) : Prop := (a ≤ n_added s)%nat.
(** The ID is on the [k]-th node of the entry. *)
Definition id_is (b k : nat) (id : Z) (s : nst) : Prop :=
  ∃ l, node_is b k l s ∧ n_ids s !! l = Some id.

Lemma step_node b k l i s s' : step i s s' → node_is b k l s → node_is b k l s'.
Proof.
  intros Hs (chain & Hb & Hk). destruct Hs as [| | | | | | |l1 id o b1 chain1 h bd td ch ids ths a _ _ _ _ _ Hch|];
    try (by exists chain).
  unfold node_is. simpl in *. destruct (decide (b = b1)) as [<-|Hne].
  - simplify_eq. exists (chain1 ++ [l1]). rewrite list_lookup_insert_eq by (by eapply lookup_lt_Some).
    split; [done|]. by apply lookup_app_l_Some.
  - exists chain. by rewrite list_lookup_insert_ne.
Qed.

Lemma node_stable i b k l : nstable i (node_is b k l).
Proof. split; [|done]. intros j s s' _ Hs. by eapply step_node. Qed.

Lemma pos_stable i np b k : nstable i (at_pos np b k).
Proof.
  split; [|by destruct np]. intros j s s' _ Hs. destruct np as [e|l]; simpl.
  - intros (-> & -> & Hb). split; [done|]. split; [done|]. destruct Hs; try done. simpl in *.
    rewrite list_lookup_insert_is_Some. destruct (decide (b0 = b)); naive_solver eauto using lookup_lt_Some.
  - intros (k' & -> & Hn). exists k'. split; [done|]. by eapply step_node.
Qed.

Lemma added_stable i a : nstable i (added a).
Proof. split; [|done]. intros j s s' _ Hs. unfold added. destruct Hs; simpl; lia. Qed.

Lemma and_stable i K K' : nstable i K → nstable i K' → nstable i (λ s, K s ∧ K' s).
Proof. intros [H1 H1'] [H2 H2']. split; [intros j s s' Hne Hs [??]; eauto|intros ch ids ths ths' a HI [??]; eauto]. Qed.

Lemma true_stable i : nstable i (λ _, True).
Proof. done. Qed.

(** An ID stays where it is unless its owner removes it. *)
Lemma id_stable i b k id j s s' : id ≠ 0 → (∀ j, owner id = Some j → j = i) → j ≠ i → step j s s' →
  id_is b k id s ∧ ninv O owner max A N0 P s → id_is b k id s' ∧ ninv O owner max A N0 P s'.
Proof using ids_nonzero kept_unowned.
  intros Hid Ho Hne Hs [(l & Hn & Hl) HI]. pose proof (nstep_inv O owner max A N0 P ids_nonzero kept_unowned _ _ _ Hs HI) as HI'.
  split; [|done]. exists l. split; [by eapply step_node|].
  destruct Hs; simpl in *; try done.
  - rewrite lookup_insert_ne; [done|]. intros ->. simplify_eq.
  - rewrite lookup_insert_ne; [done|]. intros ->. pose proof (ni_nodup _ _ _ _ _ _ _ HI) as Hnd.
    unfold all_nodes in Hnd. simpl in Hnd. apply NoDup_app in Hnd as (_ & Hd & _).
    apply (Hd l); [apply (ni_dom _ _ _ _ _ _ _ HI l); by eexists|].
    unfold news. apply list_elem_of_In, in_concat. exists [l]. split; [|by left]. apply list_elem_of_In.
    apply list_elem_of_fmap. eexists. split; [|by eapply list_elem_of_lookup_2]. done.
  - rewrite lookup_insert_ne; [done|]. intros ->. simplify_eq.
    apply Hne, Ho. by eapply (ni_bound _ _ _ _ _ _ _ HI j).
Qed.

(** The IDs of [sure] are on the entry, at or after the [k]-th node. *)
Definition ahead (sure : Z → Prop) (b k : nat) (s : nst) : Prop :=
  ninv O owner max A N0 P s ∧ ∀ id, sure id → ∃ k', (k ≤ k')%nat ∧ id_is b k' id s.

Lemma ahead_stable i sure b k :
  (∀ id, sure id → id ≠ 0 ∧ ∀ j, owner id = Some j → j = i) → nstable i (ahead sure b k).
Proof using ids_nonzero kept_unowned.
  intros Hsure. split; [|by intros ch ids ths ths' a HI [_ ?]].
  intros j s s' Hne Hs [HI Hall]. split; [by eapply nstep_inv|].
  intros id Hid. destruct (Hall id Hid) as (k' & Hk & Hat). exists k'. split; [done|].
  destruct (Hsure id Hid) as [Hid0 Ho]. by eapply (id_stable i b k' id j s s').
Qed.

(** *** Rules *)

#[local] Opaque rgb.

Section rules.
Context {R : Type} (i : nat) (tl : nthread) (K : nst → Prop) (HK : nstable i K).

Lemma name_read {V : Type} (f : kern → outcome (V * kern)) v (k : V → prog kern R) Q c s :
  at_name i tl K c s → (∀ c s, at_name i tl K c s → f c = Ret (v, c)) →
  (∀ c s, at_name i tl K c s → wp i (k v) Q c s) → wp i (act f ≫= k) Q c s.
Proof using HK.
  intros Hat Hf Hk.
  eapply (pw_read _ _ _ nstep_refl _ _ (at_name_stable i tl K HK) (at_name_rep i tl K)); done.
Qed.

Lemma name_done (r : R) (Q : R → kern → nst → Prop) c s :
  at_name i tl K c s → (∀ c s, at_name i tl K c s → Q r c s) → wp i (mret r) Q c s.
Proof using HK. intros Hat. apply (pw_done _ _ _ _ _ (at_name_stable i tl K HK) _ _ _ _ Hat). Qed.

(** A read, and what is learned from it. *)
Lemma name_look {V : Type} (K' : V → nst → Prop) (f : kern → outcome (V * kern)) (k : V → prog kern R) Q c s :
  at_name i tl K c s →
  (∀ c s, at_name i tl K c s → ∃ v, f c = Ret (v, c) ∧ K' v s) →
  (∀ v c s, at_name i tl (K' v) c s → wp i (k v) Q c s) → wp i (act f ≫= k) Q c s.
Proof using HK.
  intros Hat Hf Hk.
  eapply (pw_look _ _ _ nstep_refl _ _ (at_name_stable i tl K HK) (at_name_rep i tl K)); [exact Hat|].
  intros c1 s1 Hat1. destruct (Hf c1 s1 Hat1) as (v & Hv & HK'). exists v. split; [done|]. apply Hk.
  destruct Hat1 as (? & ? & _). by split_and!.
Qed.

(** An action, and where it leads. *)
Lemma name_move {V : Type} (tl' : V → nthread) (K' : V → nst → Prop) (f : kern → outcome (V * kern))
    (k : V → prog kern R) Q c s :
  at_name i tl K c s →
  (∀ c s, at_name i tl K c s → ∃ v c' s', f c = Ret (v, c') ∧ step i s s' ∧
     (ninv O owner max A N0 P s' → nrep c' s') ∧ n_threads s' !! i = Some (tl' v) ∧
     (ninv O owner max A N0 P s' → K' v s')) →
  (∀ v c s, at_name i (tl' v) (K' v) c s → wp i (k v) Q c s) → wp i (act f ≫= k) Q c s.
Proof using HK ids_nonzero kept_unowned.
  intros Hat Hf Hk.
  eapply (pw_act _ _ _ _ _ (at_name_stable i tl K HK) (at_name_rep i tl K)); [exact Hat|].
  intros c1 s1 Hat1. destruct (Hf c1 s1 Hat1) as (v & c' & s' & Hfc & Hs & Hr & Ht & HK').
  assert (ninv O owner max A N0 P s') as HI by (eapply nstep_inv; [exact ids_nonzero|exact kept_unowned|exact Hs|apply Hat1]).
  exists v, c', s'. split_and!; try done; [by apply Hr|]. apply Hk. split_and!; auto.
Qed.
End rules.

(** The same for a last action. *)
Lemma name_move_only {V : Type} i tl K (tl' : V → nthread) (K' : V → nst → Prop) (f : kern → outcome (V * kern)) c s :
  nstable i K → (∀ v, nstable i (K' v)) → at_name i tl K c s →
  (∀ c s, at_name i tl K c s → ∃ v c' s', f c = Ret (v, c') ∧ step i s s' ∧
     (ninv O owner max A N0 P s' → nrep c' s') ∧ n_threads s' !! i = Some (tl' v) ∧
     (ninv O owner max A N0 P s' → K' v s')) →
  wp i (act f) (λ v, at_name i (tl' v) (K' v)) c s.
Proof using ids_nonzero kept_unowned.
  intros HK HK' Hat Hf. change (wp i (act f ≫= mret) (λ v, at_name i (tl' v) (K' v)) c s).
  eapply name_move; [exact HK|exact Hat|exact Hf|].
  intros v c1 s1 Hat1. by eapply name_done; [apply HK'|exact Hat1|].
Qed.

(** *** Names *)

Lemma offset_value c s :
  nrep c s → (e ← deref (k_names c !! name); Ret (nm_string_offset e, c)) = Ret (off, c).
Proof. intros Hr. destruct (nr_name _ _ Hr) as (es & Hn & _). by rewrite Hn. Qed.

Lemma max_value c s :
  nrep c s → (e ← deref (k_names c !! name); Ret (nm_max_entries e, c)) = Ret (max, c).
Proof. intros Hr. destruct (nr_name _ _ Hr) as (es & Hn & _). by rewrite Hn. Qed.

Lemma hash_value a : terminated a → prs_name_hash a = Ret (hash_of a).
Proof. intros Ha. unfold prs_name_hash. by rewrite hash_loop_cstr. Qed.

Lemma hash_nonneg a : 0 ≤ hash_of a.
Proof.
  unfold hash_of. assert (∀ s h, 0 ≤ h → 0 ≤ hash_str s h) as Hh; [|apply Hh; lia].
  induction s as [|x s IH]; intros h Hh; [done|]. apply IH. apply u32_range.
Qed.

Lemma bucket_value a : Z.of_nat (bucket max a) = hash_of a mod max.
Proof using max_pos. unfold bucket. rewrite Z2Nat.id; [done|]. apply Z.mod_pos_bound. lia. Qed.

Lemma bucket_lt a : (bucket max a < Z.to_nat max)%nat.
Proof using max_pos.
  apply Nat2Z.inj_lt. rewrite bucket_value, Z2Nat.id by lia. apply Z.mod_pos_bound. lia.
Qed.

Lemma get_entry_rg i tl K a c s :
  nstable i K → terminated a → at_name i tl K c s →
  wp i (prs_name_get_entry name a) (λ r c s, r = Z.of_nat (bucket max a) ∧ at_name i tl K c s) c s.
Proof using max_pos.
  intros HK Ha Hat. unfold prs_name_get_entry, pure.
  eapply name_read; [exact HK|exact Hat|intros ? ? _; cbn; by rewrite hash_value|]. clear c s Hat. intros c s Hat.
  eapply name_read; [exact HK|exact Hat|intros ? ? [Hr _]; by eapply max_value|]. clear c s Hat. intros c s Hat.
  eapply (pw_read_only _ _ _ nstep_refl _ _ (at_name_stable i tl K HK) (at_name_rep i tl K)); [exact Hat| |].
  - intros ? ? _. cbv beta. rewrite (proj2 (Z.eqb_neq max 0)) by lia. done.
  - intros c1 s1 Hat1. split; [|done]. symmetry. apply bucket_value.
Qed.

Lemma get_key_rg i tl K id obj a c s :
  nstable i K → O !! id = Some (obj, a) → at_name i tl K c s →
  wp i (prs_name_get_key name obj) (λ r c s, r = a ∧ at_name i tl K c s) c s.
Proof.
  intros HK HO Hat. unfold prs_name_get_key.
  eapply name_read; [exact HK|exact Hat|intros ? ? [Hr _]; by eapply offset_value|]. clear c s Hat. intros c s Hat.
  assert (∀ c1 s1, at_name i tl K c1 s1 → key_of c1 obj = Some a) as Hkey.
  { intros c1 s1 [Hr _]. by destruct (nr_objs _ _ Hr id obj a HO) as (o & _ & ?). }
  unfold key_of in Hkey. destruct off;
    (eapply (pw_read_only _ _ _ nstep_refl _ _ (at_name_stable i tl K HK) (at_name_rep i tl K)); [exact Hat| |]);
    [|by intros c1 s1 Hat1| |by intros c1 s1 Hat1];
    intros c1 s1 Hat1; apply get_field_value; by eapply Hkey.
Qed.

(** *** References on the objects *)

Lemma holders_insert ths i tl tl' id : ths !! i = Some tl →
  (holders id (<[i := tl']> ths) + (if decide (t_held tl = Some id) then 1 else 0) =
   holders id ths + (if decide (t_held tl' = Some id) then 1 else 0))%nat.
Proof.
  unfold holders. revert i. induction ths as [|t ths IH]; intros [|i] Hi; simplify_eq/=.
  - rewrite !filter_cons. repeat case_decide; simpl; lia.
  - specialize (IH i Hi). rewrite !filter_cons. repeat case_decide; simpl; lia.
Qed.

(** The new node of a thread, when only its reference changes. *)
Lemma new_same (ths : list nthread) i tl tl' j tlj l id : ths !! i = Some tl → t_new tl' = t_new tl →
  <[i := tl']> ths !! j = Some tlj → t_new tlj = Some (l, id) → ∃ tl2, ths !! j = Some tl2 ∧ t_new tl2 = Some (l, id).
Proof.
  intros Hi Hn [(<- & <- & _)|[_ Hj]]%list_lookup_insert_Some Hl; [exists tl|exists tlj]; by rewrite <- ?Hn.
Qed.

Lemma rep_objs c ch ids ths a i tl tl' id obj arr n o :
  nrep c (NSt ch ids ths a) → ths !! i = Some tl → t_new tl' = t_new tl → O !! id = Some (obj, arr) →
  k_objs c !! id = Some (n, (obj, o)) →
  (∀ id', id' ≠ id → holders id' (<[i := tl']> ths) = holders id' ths) →
  ninv O owner max A N0 P (NSt ch ids (<[i := tl']> ths) a) →
  nrep (with_objs (<[id := ((base id + holders id (<[i := tl']> ths))%nat, (obj, o))]> (k_objs c)) c)
    (NSt ch ids (<[i := tl']> ths) a).
Proof.
  intros [H1 H2 H3 H4 H5 H6 H7 H8] Hi Hn HO Ho Hh HI. unfold all_nodes in *. simpl in *.
  split; simpl; try done.
  - intros j tlj l id1 Hj Hl. destruct (new_same _ _ _ _ _ _ _ _ Hi Hn Hj Hl) as (tl2 & Hj2 & Hl2). by eapply H3.
  - intros id1 obj1 a1 HO1. destruct (decide (id1 = id)) as [->|Hne].
    + rewrite HO in HO1. injection HO1 as <- <-. exists o. rewrite lookup_insert_eq. split; [done|].
      by destruct (H4 id obj arr HO) as (o' & _ & ?).
    + rewrite lookup_insert_ne, Hh by done. by apply H4.
  - unfold all_nodes. simpl. by rewrite (news_same _ _ _ tl' Hi) by (by rewrite Hn).
  - unfold all_nodes. simpl. by rewrite (news_same _ _ _ tl' Hi) by (by rewrite Hn).
Qed.

Lemma name_lock_rg i new bd td K id obj a c s :
  nstable i K → O !! id = Some (obj, a) → at_name i (NThread None new bd td) K c s →
  wp i (god_lock id) (λ r c s, r = Some obj ∧ at_name i (NThread (Some id) new bd td) K c s) c s.
Proof using ids_nonzero kept_unowned.
  intros HK HO Hat.
  eapply rg_mono; [|eapply (name_move_only i _ K (λ _, NThread (Some id) new bd td) (λ r s, r = Some obj ∧ K s));
    [exact HK| |exact Hat|]].
  - intros r c1 s1 (? & ? & -> & ?). by split_and!.
  - intros v. apply and_stable; [done|exact HK].
  - clear c s Hat. intros c s (Hr & Ht & Hk). pose proof (nr_objs _ _ Hr id obj a HO) as (o & Ho & _).
    destruct s as [ch ids ths ad]. simpl in *.
    pose proof (holders_insert ths i _ (NThread (Some id) new bd td) id Ht) as Hh. simpl in Hh.
    rewrite decide_True in Hh by done.
    eexists (Some obj), _, (NSt ch ids (<[i := NThread (Some id) new bd td]> ths) ad).
    rewrite Ho. split; [reflexivity|]. split; [by eapply n_hold|]. split; [|split].
    + intros HI. replace (S (base id + holders id ths)) with
        (base id + holders id (<[i := NThread (Some id) new bd td]> ths))%nat by lia.
      eapply rep_objs; try done. intros id1 Hne.
      pose proof (holders_insert ths i _ (NThread (Some id) new bd td) id1 Ht) as Hh1. simpl in Hh1.
      rewrite decide_False in Hh1 by congruence. lia.
    + apply list_lookup_insert_eq. by eapply lookup_lt_Some.
    + intros HI. split; [done|]. by eapply (proj2 HK).
Qed.

Lemma name_unlock_rg i id obj a new bd td K c s :
  nstable i K → O !! id = Some (obj, a) → at_name i (NThread (Some id) new bd td) K c s →
  wp i (god_unlock id) (λ _, at_name i (NThread None new bd td) K) c s.
Proof using base_pos ids_nonzero kept_unowned.
  intros HK HO Hat. unfold god_unlock.
  eapply (name_move i _ K HK (λ _, NThread None new bd td) (λ r s, r = None ∧ K s)); [exact Hat| |].
  - clear c s Hat. intros c s (Hr & Ht & Hk). pose proof (nr_objs _ _ Hr id obj a HO) as (o & Ho & _).
    pose proof (base_pos _ _ _ HO) as Hb. destruct s as [ch ids ths ad]. simpl in *.
    pose proof (holders_insert ths i _ (NThread None new bd td) id Ht) as Hh. simpl in Hh.
    rewrite decide_True in Hh by done. destruct (base id + holders id ths)%nat as [|[|n]] eqn:En; [lia..|].
    eexists None, _, (NSt ch ids (<[i := NThread None new bd td]> ths) ad).
    rewrite Ho. split; [reflexivity|]. split; [by eapply n_drop|]. split; [|split].
    + intros HI. replace (S n) with (base id + holders id (<[i := NThread None new bd td]> ths))%nat by lia.
      eapply rep_objs; try done. intros id1 Hne.
      pose proof (holders_insert ths i _ (NThread None new bd td) id1 Ht) as Hh1. simpl in Hh1.
      rewrite decide_False in Hh1 by congruence. lia.
    + apply list_lookup_insert_eq. by eapply lookup_lt_Some.
    + intros HI. split; [done|]. by eapply (proj2 HK).
  - clear c s Hat. intros r c s (Hr & Ht & -> & Hk). eapply name_done; [exact HK|by split_and!|done].
Qed.

(** *** Nodes of a thread *)

Lemma chain_in_all ch ids ths a b chain k l :
  ch !! b = Some chain → chain !! k = Some l → l ∈ all_nodes (NSt ch ids ths a).
Proof.
  intros Hb Hk. unfold all_nodes. simpl. apply elem_of_app. left. apply list_elem_of_In, in_concat. exists chain.
  split; apply list_elem_of_In; by eapply list_elem_of_lookup_2.
Qed.

Lemma new_in_news ths j tl l id : ths !! j = Some tl → t_new tl = Some (l, id) → l ∈ news ths.
Proof.
  intros Hj Hl. unfold news. apply list_elem_of_In, in_concat. exists [l]. split; [|by left].
  apply list_elem_of_In, list_elem_of_fmap. exists tl. split; [by rewrite Hl|by eapply list_elem_of_lookup_2].
Qed.

Lemma new_in_all ch ids ths a j tl l id :
  ths !! j = Some tl → t_new tl = Some (l, id) → l ∈ all_nodes (NSt ch ids ths a).
Proof. intros Hj Hl. unfold all_nodes. simpl. apply elem_of_app. right. by eapply new_in_news. Qed.

(** The nodes of two threads differ. *)
Lemma news_differ ths i j tl tlj l id idj : NoDup (news ths) →
  ths !! i = Some tl → t_new tl = Some (l, id) → ths !! j = Some tlj → t_new tlj = Some (l, idj) → i = j.
Proof.
  intros Hnd Hi Hl Hj Hlj. destruct (decide (i = j)) as [|Hne]; [done|exfalso].
  pose proof (news_none ths i tl (NThread None None ∅ 0) l Hi eq_refl ltac:(by rewrite Hl)) as Hp.
  rewrite <- Hp in Hnd. apply NoDup_app in Hnd as (_ & Hd & _). apply (Hd l); [|by apply list_elem_of_singleton].
  eapply new_in_news; [|exact Hlj]. by rewrite list_lookup_insert_ne.
Qed.

Lemma all_nodes_new ch ids ths a i h bd td l :
  ths !! i = Some (NThread h None bd td) →
  all_nodes (NSt ch ids (<[i := NThread h (Some (l, 0)) bd td]> ths) a) ≡ₚ all_nodes (NSt ch ids ths a) ++ [l].
Proof.
  intros Hi. unfold all_nodes. simpl. rewrite (news_some ths i _ (NThread h (Some (l, 0)) bd td) l Hi) by done.
  by rewrite (assoc_L (++)).
Qed.

Definition fresh_node (v : ptr) : option (loc * Z) := match v with Some l => Some (l, 0) | None => None end.

Lemma new_move i h bd td K c s :
  nstable i K → at_name i (NThread h None bd td) K c s →
  ∃ v c' s', (let (p, hp) := prs_pal_malloc_zero (k_heap c) in
     match p with
     | None => Ret (None, with_heap hp c)
     | Some l => Ret (Some l, with_name_nodes (<[l := PrsNameListNode None 0]> (k_name_nodes c)) (with_heap hp c))
     end) = Ret (v, c') ∧ step i s s' ∧ (ninv O owner max A N0 P s' → nrep c' s') ∧
    n_threads s' !! i = Some (NThread h (fresh_node v) bd td) ∧ (ninv O owner max A N0 P s' → K s').
Proof using All.
  intros HK (Hr & Ht & Hk). destruct s as [ch ids ths a]. simpl in *.
  destruct (prs_pal_malloc_zero (k_heap c)) as [v hp] eqn:Hm.
  pose proof (malloc_ok _ _ _ (nr_heap_ok _ _ Hr) Hm) as [Hok Hlive]. destruct v as [l|].
  - destruct Hlive as [Hfresh Hlive]. rewrite (nr_heap _ _ Hr) in Hfresh.
    apply not_elem_of_union in Hfresh as [Hl0 Hl%not_elem_of_list_to_set].
    eexists (Some l), _, (NSt ch ids (<[i := NThread h (Some (l, 0)) bd td]> ths) a).
    split; [reflexivity|]. split; [by apply n_new|]. split; [|split].
    + destruct Hr as [H1 H2 H3 H4 H5 H6 H7 H8]. intros HI. simpl in *. split; simpl; try done.
      * intros b chain k l1 Hb Hk1. rewrite lookup_insert_ne; [by eapply H2|].
        intros ->. apply Hl. by eapply chain_in_all.
      * intros j tlj l1 id1 [(<- & <- & _)|[_ Hj]]%list_lookup_insert_Some Hl1.
        -- simpl in Hl1. injection Hl1 as <- <-. apply lookup_insert_eq.
        -- rewrite lookup_insert_ne; [by eapply H3|]. intros ->. apply Hl. by eapply new_in_all.
      * intros id obj arr HO. destruct (H4 id obj arr HO) as (o & Ho & Hkey). exists o. split; [|done].
        rewrite Ho. do 3 f_equal. pose proof (holders_insert ths i _ (NThread h (Some (l, 0)) bd td) id Ht) as Hh.
        simpl in Hh. lia.
      * rewrite Hlive, H6. by apply live_add, all_nodes_new.
      * intros x Hx Hin. rewrite (elem_of_Permutation_proper x _ _ (all_nodes_new ch ids ths a i h bd td l Ht)) in Hin.
        apply elem_of_app in Hin as [Hin| ->%list_elem_of_singleton]; [by apply (H7 x)|done].
    + simpl. apply list_lookup_insert_eq. by eapply lookup_lt_Some.
    + intros HI. by eapply (proj2 HK).
  - exists None, (with_heap hp c), (NSt ch ids ths a). split; [done|]. split; [apply nstep_refl|]. split; [|by split].
    destruct Hr as [H1 H2 H3 H4 H5 H6 H7 H8]. intros HI. split; try done. simpl. by rewrite Hlive.
Qed.

Lemma rep_new_node c ch ids ths a i h l id0 id bd td :
  nrep c (NSt ch ids ths a) → ths !! i = Some (NThread h (Some (l, id0)) bd td) →
  ninv O owner max A N0 P (NSt ch ids (<[i := NThread h (Some (l, id)) bd td]> ths) a) →
  nrep (with_name_nodes (<[l := PrsNameListNode None id]> (k_name_nodes c)) c)
    (NSt ch ids (<[i := NThread h (Some (l, id)) bd td]> ths) a).
Proof.
  intros Hr Hi HI. pose proof (ni_nodup _ _ _ _ _ _ _ (nr_inv _ _ Hr)) as Hnd. unfold all_nodes in Hnd. simpl in Hnd.
  apply NoDup_app in Hnd as (_ & Hd & Hnd). destruct Hr as [H1 H2 H3 H4 H5 H6 H7 H8]. unfold all_nodes in *. simpl in *.
  assert (news (<[i := NThread h (Some (l, id)) bd td]> ths) = news ths) as Hnews by (by apply (news_same _ _ _ _ Hi)).
  split; simpl; try done; unfold all_nodes; simpl; rewrite ?Hnews; try done.
  - intros b chain k l1 Hb Hk. rewrite lookup_insert_ne; [by eapply H2|]. intros ->.
    apply (Hd l1); [|by eapply new_in_news]. apply list_elem_of_In, in_concat. exists chain.
    split; apply list_elem_of_In; by eapply list_elem_of_lookup_2.
  - intros j tlj l1 id1 [(<- & <- & _)|[Hne Hj]]%list_lookup_insert_Some Hl1.
    + simpl in Hl1. injection Hl1 as <- <-. apply lookup_insert_eq.
    + rewrite lookup_insert_ne; [by eapply H3|]. intros ->. by apply Hne, (news_differ ths i j (NThread h (Some (l1, id0)) bd td) tlj l1 id0 id1).
  - intros id1 obj arr HO. destruct (H4 id1 obj arr HO) as (o & Ho & Hkey). exists o. split; [|done].
    rewrite Ho. do 3 f_equal. pose proof (holders_insert ths i _ (NThread h (Some (l, id)) bd td) id1 Hi) as Hh.
    simpl in Hh. lia.
Qed.

(** The new node is set up. *)
Lemma set_new_move i h l id0 id bd td K g c s :
  nstable i K → at_name i (NThread h (Some (l, id0)) bd td) K c s →
  g (PrsNameListNode None id0) = PrsNameListNode None id →
  ∃ c' s', (e ← deref (k_name_nodes c !! l); Ret (with_name_nodes (<[l := g e]> (k_name_nodes c)) c)) = Ret c' ∧
    step i s s' ∧ (ninv O owner max A N0 P s' → nrep c' s') ∧
    n_threads s' !! i = Some (NThread h (Some (l, id)) bd td) ∧ (ninv O owner max A N0 P s' → K s').
Proof.
  intros HK (Hr & Ht & Hk) Hg. pose proof (nr_new _ _ Hr _ _ l id0 Ht eq_refl) as Hl.
  destruct s as [ch ids ths a]. simpl in *.
  eexists _, (NSt ch ids (<[i := NThread h (Some (l, id)) bd td]> ths) a).
  rewrite Hl. split; [cbn; rewrite Hg; reflexivity|]. split; [by eapply n_set|]. split; [|split].
  - intros HI. by eapply rep_new_node.
  - simpl. apply list_lookup_insert_eq. by eapply lookup_lt_Some.
  - intros HI. by eapply (proj2 HK).
Qed.

(** [new_node] is allocated and filled in. *)
Lemma make_node_rg i h id bd td K c s :
  nstable i K → at_name i (NThread h None bd td) K c s →
  wp i (new_node ← alloc_block k_name_nodes with_name_nodes (PrsNameListNode None 0);
        _ ← fatal_if (bool_decide (new_node = None));
        new_node ← nonnull new_node;
        _ ← prs_pal_atomic_store (node_next new_node) None;
        _ ← prs_pal_atomic_store (node_object_id new_node) id;
        mret new_node)
    (λ l, at_name i (NThread h (Some (l, id)) bd td) K) c s.
Proof using All.
  intros HK Hat. unfold alloc_block.
  eapply (name_move i _ K HK (λ v, NThread h (fresh_node v) bd td) (λ _, K)); [exact Hat| |].
  { intros c1 s1 Hat1. by apply new_move. }
  clear c s Hat. intros [l|] c s Hat; simpl in Hat.
  2: by apply pw_fatal.
  unfold fatal_if. eapply name_read; [exact HK|exact Hat|by intros|]. clear c s Hat. intros c s Hat.
  eapply name_read; [exact HK|exact Hat|by intros|]. clear c s Hat. intros c s Hat.
  eapply (name_move i _ K HK (λ _, NThread h (Some (l, 0)) bd td) (λ _, K)); [exact Hat| |].
  { intros c1 s1 Hat1. destruct (set_new_move i h l 0 0 bd td K (set_nn_next None) c1 s1 HK Hat1 eq_refl)
      as (c' & s' & Hf & Hs & H1 & H2 & H3).
    exists tt, c', s'. split_and!; try done. cbn. unfold node_next. cbn.
    destruct (k_name_nodes c1 !! l); [|done]. by injection Hf as <-. }
  clear c s Hat. intros _ c s Hat.
  eapply (name_move i _ K HK (λ _, NThread h (Some (l, id)) bd td) (λ _, K)); [exact Hat| |].
  { intros c1 s1 Hat1. destruct (set_new_move i h l 0 id bd td K (set_nn_object_id id) c1 s1 HK Hat1 eq_refl)
      as (c' & s' & Hf & Hs & H1 & H2 & H3).
    exists tt, c', s'. split_and!; try done. cbn. unfold node_object_id. cbn.
    destruct (k_name_nodes c1 !! l); [|done]. by injection Hf as <-. }
  clear c s Hat. intros _ c s Hat. by eapply name_done; [exact HK|exact Hat|].
Qed.

(** A node that was not needed is freed. *)
Lemma free_new_rg i h l id bd td K c s :
  nstable i K → at_name i (NThread h (Some (l, id)) bd td) K c s →
  wp i (free_block k_name_nodes with_name_nodes l) (λ _, at_name i (NThread h None bd td) K) c s.
Proof using ids_nonzero kept_unowned.
  intros HK Hat. unfold free_block.
  eapply (name_move_only i _ K (λ _, NThread h None bd td) (λ _, K)); [exact HK|done|exact Hat|].
  clear c s Hat. intros c s (Hr & Ht & Hk). pose proof (nr_new _ _ Hr _ _ l id Ht eq_refl) as Hl.
  destruct s as [ch ids ths a]. simpl in *. pose proof (new_in_all ch ids ths a i _ l id Ht eq_refl) as Hin.
  assert (l ∈ heap_live (k_heap c)) as Hlive.
  { rewrite (nr_heap _ _ Hr). apply elem_of_union_r, elem_of_list_to_set. exact Hin. }
  pose proof (ni_nodup _ _ _ _ _ _ _ (nr_inv _ _ Hr)) as Hnd. unfold all_nodes in Hnd. simpl in Hnd.
  apply NoDup_app in Hnd as (Hndc & Hd & Hndn).
  pose proof (news_none ths i _ (NThread h None bd td) l Ht eq_refl eq_refl) as Hnews.
  assert (all_nodes (NSt ch ids ths a) ≡ₚ all_nodes (NSt ch ids (<[i := NThread h None bd td]> ths) a) ++ [l]) as Hall.
  { unfold all_nodes. simpl. by rewrite <- Hnews, (assoc_L (++)). }
  assert (l ∉ all_nodes (NSt ch ids (<[i := NThread h None bd td]> ths) a)) as Hnin.
  { pose proof (ni_nodup _ _ _ _ _ _ _ (nr_inv _ _ Hr)) as Hnd'. rewrite Hall in Hnd'.
    apply NoDup_app in Hnd' as (_ & Hd' & _). intros Hx. by apply (Hd' l Hx), list_elem_of_singleton. }
  eexists tt, _, (NSt ch ids (<[i := NThread h None bd td]> ths) a).
  rewrite Hl. unfold prs_pal_free, free. rewrite decide_True by done. split; [reflexivity|]. split; [by eapply n_del|]. split; [|split].
  - intros HI. destruct Hr as [H1 H2 H3 H4 H5 H6 H7 H8]. simpl in *. split; simpl; try done.
    + intros b chain k l1 Hb Hk1. rewrite lookup_delete_ne; [by eapply H2|]. intros ->.
      apply Hnin. by eapply chain_in_all.
    + intros j tlj l1 id1 Hj Hl1. rewrite lookup_delete_ne.
      * apply list_lookup_insert_Some in Hj as [(<- & <- & _)|[_ Hj]]; [done|by eapply H3].
      * intros ->. apply Hnin. by eapply new_in_all.
    + intros id1 obj arr HO. destruct (H4 id1 obj arr HO) as (o & Ho & Hkey). exists o. split; [|done].
      rewrite Ho. do 3 f_equal. pose proof (holders_insert ths i _ (NThread h None bd td) id1 Ht) as Hh.
      simpl in Hh. lia.
    + by apply heap_ok_free.
    + rewrite H6. apply live_remove; [done|intros Hx; by apply (H7 l Hx)|done].
    + intros x Hx Hx'. apply (H7 x Hx). rewrite (elem_of_Permutation_proper x _ _ Hall). apply elem_of_app. by left.
  - simpl. apply list_lookup_insert_eq. by eapply lookup_lt_Some.
  - intros HI. by eapply (proj2 HK).
Qed.

(** *** Walking a list *)

Lemma chain_length s b chain :
  ninv O owner max A N0 P s → n_chains s !! b = Some chain → (length chain ≤ N0 + A)%nat.
Proof.
  intros HI Hb. pose proof (ni_added _ _ _ _ _ _ _ HI). pose proof (ni_nodes _ _ _ _ _ _ _ HI).
  enough (length chain ≤ length (concat (n_chains s)))%nat by lia.
  clear -Hb. revert b Hb. induction (n_chains s) as [|c0 cs IH]; intros [|b] Hb; simplify_eq/=; rewrite length_app; [lia|].
  specialize (IH b Hb). lia.
Qed.

Lemma node_bound s b k l : ninv O owner max A N0 P s → node_is b k l s → (S k ≤ N0 + A)%nat.
Proof.
  intros HI (chain & Hb & Hk). pose proof (chain_length s b chain HI Hb). apply lookup_lt_Some in Hk. lia.
Qed.

(** The pointer to the next node. *)
Lemma node_load c s np b k : nrep c s → at_pos np b k s →
  ∃ chain, n_chains s !! b = Some chain ∧ cell_get (node_cell name np) c = Ret (chain !! k).
Proof.
  intros Hr Hnp. destruct np as [e|l]; simpl in Hnp.
  - destruct Hnp as (-> & -> & [chain Hb]). exists chain. split; [done|].
    destruct (nr_name _ _ Hr) as (es & Hn & _ & Hes). specialize (Hes b chain Hb).
    cbn. rewrite Hn. cbn. unfold load. rewrite (proj2 (Z.leb_le 0 (Z.of_nat b))), Nat2Z.id, Hes by lia. done.
  - destruct Hnp as (k' & -> & chain & Hb & Hk). exists chain. split; [done|].
    destruct (nr_nodes _ _ Hr b chain k' l Hb Hk) as (id & _ & Hl).
    cbn. by rewrite Hl.
Qed.

(** The ID a node holds. *)
Lemma id_load c s b k l : nrep c s → node_is b k l s →
  ∃ id, n_ids s !! l = Some id ∧ cell_get (node_object_id l) c = Ret id ∧
    (id ≠ 0 → ∃ o, O !! id = Some o ∧ bucket max o.2 = b).
Proof.
  intros Hr (chain & Hb & Hk). destruct (nr_nodes _ _ Hr b chain k l Hb Hk) as (id & Hid & Hl). exists id.
  split; [done|]. split; [cbn; by rewrite Hl|].
  intros Hne. by eapply (ni_bucket _ _ _ _ _ _ _ (nr_inv _ _ Hr)).
Qed.

Section walk.
Context {R : Type} (i : nat) (tl : nthread) (K : nst → Prop) (HK : nstable i K) (np : node_ptr) (b k : nat).

Definition walking (s : nst) : Prop := K s ∧ at_pos np b k s.

Lemma walking_stable : nstable i walking.
Proof using HK ids_nonzero kept_unowned. apply and_stable; [done|apply pos_stable]. Qed.

(** [node = prs_pal_atomic_load(node_ptr)]: [K'] is what is learned when there is no
    node. *)
Lemma next_rg (K' : nst → Prop) (h : ptr → prog kern R) Q c s :
  at_name i tl walking c s →
  (∀ s chain, ninv O owner max A N0 P s → walking s → n_chains s !! b = Some chain → chain !! k = None → K' s) →
  (∀ c s, at_name i tl (λ s, walking s ∧ K' s) c s → wp i (h None) Q c s) →
  (∀ l c s, at_name i tl (λ s, K s ∧ node_is b k l s) c s → wp i (h (Some l)) Q c s) →
  wp i (prs_pal_atomic_load (node_cell name np) ≫= h) Q c s.
Proof using HK ids_nonzero kept_unowned.
  intros Hat HK' Hnone Hsome. unfold prs_pal_atomic_load.
  eapply (name_look i tl walking walking_stable (λ v s, walking s ∧ match v with Some l => node_is b k l s | None => K' s end));
    [exact Hat| |].
  - clear c s Hat. intros c s (Hr & Ht & Hw). destruct (node_load c s np b k Hr (proj2 Hw)) as (chain & Hb & Hv).
    exists (chain !! k). rewrite Hv. split; [done|]. split; [done|]. destruct (chain !! k) eqn:E; [by exists chain|].
    eapply HK'; [apply Hr|done..].
  - intros [l|] c1 s1 Hat1; [|by apply Hnone]. apply Hsome. eapply at_name_weaken; [|exact Hat1].
    by intros s2 [[? _] ?].
Qed.
End walk.

(** *** Looking up a name *)

Definition own (i : nat) (bd : gset Z) : Prop := ∀ id, id ∈ bd → id ≠ 0 ∧ owner id = Some i.

Lemma own_bound i tl K c s : at_name i tl K c s → own i (t_bound tl).
Proof. intros (Hr & Ht & _) id Hid. by destruct (ni_bound _ _ _ _ _ _ _ (nr_inv _ _ Hr) i tl id Ht Hid) as (? & ? & _). Qed.

Lemma sure_own i bd key id : own i bd → sure O P bd key id → id ≠ 0 ∧ ∀ j, owner id = Some j → j = i.
Proof using kept_unowned.
  intros Ho [[Hid|Hid]%elem_of_union _].
  - destruct (kept_unowned id Hid) as [? Hn]. split; [done|]. intros j Hj. congruence.
  - destruct (Ho id Hid) as [? Hn]. split; [done|]. intros j Hj. congruence.
Qed.

Lemma placed s l : ninv O owner max A N0 P s → is_Some (n_ids s !! l) → ∃ b k, node_is b k l s.
Proof.
  intros HI Hl%(ni_dom _ _ _ _ _ _ _ HI). apply list_elem_of_In, in_concat in Hl as (chain & Hch & Hl).
  apply list_elem_of_In, list_elem_of_lookup_1 in Hch as [b Hb].
  apply list_elem_of_In, list_elem_of_lookup_1 in Hl as [k Hk]. by exists b, k, chain.
Qed.

(** An ID in the table is on the entry of its name. *)
Lemma id_placed s l id a obj : ninv O owner max A N0 P s → n_ids s !! l = Some id → id ≠ 0 →
  O !! id = Some (obj, a) → ∃ k, id_is (bucket max a) k id s.
Proof.
  intros HI Hl Hid HO. destruct (placed s l HI) as (b & k & chain & Hb & Hk); [by eexists|].
  destruct (ni_bucket _ _ _ _ _ _ _ HI b chain k l id Hb Hk Hl Hid) as (o & HO' & <-). simplify_eq/=.
  exists k, l. split; [by exists chain|done].
Qed.

Lemma bucket_cstr a a' : cstr a = cstr a' → bucket max a = bucket max a'.
Proof. unfold bucket, hash_of. by intros ->. Qed.

Lemma ahead_start i tl key s : ninv O owner max A N0 P s → n_threads s !! i = Some tl →
  ahead (sure O P (t_bound tl) key) (bucket max key) 0 s.
Proof using kept_unowned.
  intros HI Ht. split; [done|]. intros id [Hid [[obj a] [HO Hkey]]].
  assert (id ≠ 0 ∧ ∃ l, n_ids s !! l = Some id) as [Hne [l Hl]].
  { apply elem_of_union in Hid as [Hid|Hid].
    - split; [by apply kept_unowned|]. by apply (ni_kept _ _ _ _ _ _ _ HI).
    - by destruct (ni_bound _ _ _ _ _ _ _ HI i tl id Ht Hid) as (? & _ & ?). }
  rewrite <- (bucket_cstr a key Hkey). destruct (id_placed s l id a obj HI Hl Hne HO) as [k Hk]. exists k. split; [lia|done].
Qed.

(** Going on to the next node. *)
Lemma ahead_next S b k l id s : ahead S b k s → node_is b k l s → n_ids s !! l = Some id → ¬ S id → ahead S b (Datatypes.S k) s.
Proof.
  intros [HI Hall] (chain & Hb & Hk) Hid Hn. split; [done|]. intros id' Hid'. destruct (Hall id' Hid') as (k' & Hle & Hat).
  exists k'. split; [|done]. destruct (decide (k' = k)) as [->|]; [|lia].
  destruct Hat as (l' & (chain' & Hb' & Hk') & Hl'). exfalso. simplify_eq. done.
Qed.

Lemma ahead_end S b k chain s id : ahead S b k s → n_chains s !! b = Some chain → chain !! k = None → ¬ S id.
Proof.
  intros [HI Hall] Hb Hk Hid. destruct (Hall id Hid) as (k' & Hle & l' & (chain' & Hb' & Hk') & _). simplify_eq.
  apply lookup_ge_None in Hk. apply lookup_lt_Some in Hk'. lia.
Qed.

Lemma imp_stable i (φ : Prop) K : nstable i K → nstable i (λ s, φ → K s).
Proof. intros [H1 H2]. split; [intros j s s' Hne Hs Hk Hφ|intros ch ids ths ths' a HI Hk Hφ]; eauto. Qed.

(** [object_id = prs_pal_atomic_load(&node->object_id)]: [K'] is what is learned. *)
Lemma id_look_rg {R : Type} i tl K b k l (K' : Z → nst → Prop) (h : Z → prog kern R) Q c s :
  nstable i K → at_name i tl (λ s, K s ∧ node_is b k l s) c s →
  (∀ id s, ninv O owner max A N0 P s → n_threads s !! i = Some tl → K s → node_is b k l s →
     n_ids s !! l = Some id → K' id s) →
  (∀ id c s, (id ≠ 0 → ∃ o, O !! id = Some o ∧ bucket max o.2 = b) →
     at_name i tl (λ s, K' id s ∧ node_is b k l s) c s → wp i (h id) Q c s) →
  wp i (prs_pal_atomic_load (node_object_id l) ≫= h) Q c s.
Proof using ids_nonzero kept_unowned.
  intros HK Hat HK' Hh. unfold prs_pal_atomic_load.
  eapply (name_look i tl _ (and_stable _ _ _ HK (node_stable i b k l))
    (λ id s, (id ≠ 0 → ∃ o, O !! id = Some o ∧ bucket max o.2 = b) ∧ K' id s ∧ node_is b k l s)); [exact Hat| |].
  - clear c s Hat. intros c s (Hr & Ht & Hk & Hn). destruct (id_load c s b k l Hr Hn) as (id & Hid & Hl & Hb).
    exists id. rewrite Hl. split; [done|]. split; [done|]. split; [|exact Hn]. exact (HK' id s (nr_inv _ _ Hr) Ht Hk Hn Hid).
  - intros id c1 s1 (Hr & Ht & Hb & Hk). apply Hh; [exact Hb|]. exact (conj Hr (conj Ht Hk)).
Qed.

(** The name of an object is compared with the key. *)
Lemma match_rg i bd td key (keep : bool) K id obj a c s :
  terminated key → nstable i K → O !! id = Some (obj, a) → at_name i (NThread None None bd td) K c s →
  wp i (object ← god_lock id;
        match object with
        | Some object =>
            str ← prs_name_get_key name object;
            found ← pure (string_eq str key);
            _ ← (if negb found || negb keep then god_unlock id else mret tt);
            mret found
        | None => mret false
        end)
    (λ r c s, r = bool_decide (cstr a = cstr key) ∧
       at_name i (NThread (if r && keep then Some id else None) None bd td) K c s) c s.
Proof using All.
  intros Hkey HK HO Hat. apply rg_bind; [apply _|].
  eapply rg_mono; [|by eapply name_lock_rg]. clear c s Hat. intros r c s [-> Hat].
  apply rg_bind; [apply _|]. eapply rg_mono; [|by eapply get_key_rg]. clear c s Hat. intros r c s [-> Hat].
  unfold pure. eapply name_read; [exact HK|exact Hat|intros ? ? _; cbv beta; by rewrite string_eq_cstr by eauto|].
  clear c s Hat. intros c s Hat. destruct (bool_decide (cstr a = cstr key)) eqn:E; [destruct keep|]; cbn [negb orb andb].
  - eapply name_done; [exact HK|exact Hat|done].
  - apply rg_bind; [apply _|]. eapply rg_mono; [|by eapply name_unlock_rg]. clear c s Hat. intros r c s Hat. cbv beta in Hat.
    eapply name_done; [exact HK|exact Hat|done].
  - apply rg_bind; [apply _|]. eapply rg_mono; [|by eapply name_unlock_rg]. clear c s Hat. intros r c s Hat. cbv beta in Hat.
    eapply name_done; [exact HK|exact Hat|done].
Qed.

Lemma name_find_loop_rg fuel i bd td key (keep : bool) np k c s :
  terminated key → own i bd → (N0 + A - k < fuel)%nat →
  at_name i (NThread None None bd td) (λ s, ahead (sure O P bd key) (bucket max key) k s ∧ at_pos np (bucket max key) k s) c s →
  wp i (name_find_loop fuel name key keep np)
    (λ r c s, found O P bd key r ∧
       at_name i (NThread (if keep && negb (r =? 0) then Some r else None) None bd td) (λ _, True) c s) c s.
Proof using All.
  intros Hkey Hown. set (b := bucket max key).
  assert (∀ k, nstable i (ahead (sure O P bd key) b k)) as Hst.
  { intros k'. apply ahead_stable. intros id. by apply sure_own. }
  revert np k c s. induction fuel as [|fuel IH]; intros np k c s Hfuel Hat; [lia|]. cbn [name_find_loop].
  eapply (next_rg i _ _ (Hst k) np b k (λ _, ∀ id, ¬ sure O P bd key id)); [exact Hat| | |].
  - intros s1 chain HI [Hah _] Hb Hk id. by eapply ahead_end.
  - clear c s Hat. intros c s Hat. assert (∀ id, ¬ sure O P bd key id) as Hnone by apply Hat.
    eapply (name_done i (NThread None None bd td) (λ _, True) (true_stable i)); [by eapply at_name_weaken, Hat|].
    intros c1 s1 Hat1. rewrite andb_false_r. by split.
  - clear c s Hat. intros l c s Hat. eapply (id_look_rg i _ _ b k l
      (λ id s, ahead (sure O P bd key) b k s ∧ (¬ sure O P bd key id → ahead (sure O P bd key) b (S k) s))); [apply Hst|exact Hat| |].
    { intros id s1 _ _ Hah Hn Hid. split; [done|]. intros Hns. by eapply ahead_next. }
    clear c s Hat. intros id c s HO Hat.
    assert (S k ≤ N0 + A)%nat as Hbound by (destruct Hat as (Hr & _ & _ & Hn); by eapply node_bound, Hn; apply Hr).
    assert (nstable i (λ s, ahead (sure O P bd key) b k s ∧ (¬ sure O P bd key id → ahead (sure O P bd key) b (S k) s))) as Hst2
      by (by apply and_stable, imp_stable).
    assert (∀ c s, ¬ sure O P bd key id → at_name i (NThread None None bd td) (λ s,
      (ahead (sure O P bd key) b k s ∧ (¬ sure O P bd key id → ahead (sure O P bd key) b (S k) s)) ∧ node_is b k l s) c s →
      wp i (name_find_loop fuel name key keep (NodeNext l)) (λ r c s, found O P bd key r ∧
        at_name i (NThread (if keep && negb (r =? 0) then Some r else None) None bd td) (λ _, True) c s) c s) as Hnext.
    { intros c1 s1 Hns Hat1. apply (IH (NodeNext l) (S k)); [lia|]. eapply at_name_weaken, Hat1.
      intros s2 [[_ Hah] Hn]. split; [by apply Hah|]. by exists k. }
    destruct (Z.eqb_spec id 0) as [->|Hne].
    { apply Hnext; [|exact Hat]. intros [_ (o & HO' & _)]. congruence. }
    destruct (HO Hne) as ([obj a] & HO' & _). apply rg_bind; [apply _|].
    eapply rg_mono; [|eapply (match_rg i bd td key keep); [done|exact (and_stable _ _ _ Hst2 (node_stable i b k l))|exact HO'|exact Hat]].
    clear c s Hat. intros r c s [-> Hat]. destruct (bool_decide_reflect (cstr a = cstr key)) as [Heq|Hneq]; cbn [andb] in Hat.
    + eapply (name_done i _ (λ _, True) (true_stable i)); [by eapply at_name_weaken, Hat|].
      intros c1 s1 Hat1. unfold found. rewrite (proj2 (Z.eqb_neq id 0) Hne). cbn [negb].
      rewrite andb_true_r. split; [|exact Hat1]. by exists (obj, a).
    + apply Hnext; [|exact Hat]. intros [_ (o & HO2 & Hk)]. by simplify_eq/=.
Qed.

(** [prs_name_find_internal] *)
Lemma name_find_internal_rg fuel i bd td key (keep : bool) c s :
  terminated key → (N0 + A < fuel)%nat → at_name i (NThread None None bd td) (λ _, True) c s →
  wp i (prs_name_find_internal fuel name key keep)
    (λ r c s, found O P bd key r ∧
       at_name i (NThread (if keep && negb (r =? 0) then Some r else None) None bd td) (λ _, True) c s) c s.
Proof using All.
  intros Hkey Hfuel Hat. pose proof (own_bound _ _ _ _ _ Hat) as Hown. unfold prs_name_find_internal.
  apply rg_bind; [apply _|]. eapply rg_mono; [|eapply get_entry_rg; [apply true_stable|done|exact Hat]].
  clear c s Hat. intros r c s [-> Hat]. apply (name_find_loop_rg fuel i bd td key keep _ 0); [done..|lia|].
  destruct Hat as (Hr & Ht & _). split_and!; try done.
  - apply (ahead_start i _ key s (nr_inv _ _ Hr) Ht).
  - split; [done|]. split; [done|]. apply lookup_lt_is_Some. rewrite (ni_length _ _ _ _ _ _ _ (nr_inv _ _ Hr)). apply bucket_lt.
Qed.

(** *** Removing a name *)

(** Nodes of the table that change only their ID. *)
Lemma rep_node_id c ch ids ths a a' l b k id id' i tl tl' :
  nrep c (NSt ch ids ths a) → node_is b k l (NSt ch ids ths a) → ids !! l = Some id →
  ths !! i = Some tl → t_new tl' = t_new tl → t_held tl' = t_held tl →
  ninv O owner max A N0 P (NSt ch (<[l := id']> ids) (<[i := tl']> ths) a') →
  ∃ next, k_name_nodes c !! l = Some (PrsNameListNode next id) ∧
    nrep (with_name_nodes (<[l := PrsNameListNode next id']> (k_name_nodes c)) c) (NSt ch (<[l := id']> ids) (<[i := tl']> ths) a').
Proof.
  intros Hr (chain & Hb & Hk) Hid Hi Hnew Hheld HI.
  pose proof (ni_nodup _ _ _ _ _ _ _ (nr_inv _ _ Hr)) as Hnd. unfold all_nodes in Hnd. simpl in Hnd, Hb.
  apply NoDup_app in Hnd as (_ & Hd & _).
  destruct (nr_nodes _ _ Hr b chain k l Hb Hk) as (id0 & Hid0 & Hl). simpl in Hid0. simplify_eq.
  exists (chain !! S k). split; [done|]. pose proof (nr_inv _ _ Hr) as HI0.
  destruct Hr as [H1 H2 H3 H4 H5 H6 H7 H8]. unfold all_nodes in *. simpl in *.
  assert (news (<[i := tl']> ths) = news ths) as Hnews by (by apply (news_same _ _ tl); rewrite ?Hnew).
  split; simpl; try done; unfold all_nodes; simpl; rewrite ?Hnews; try done.
  - intros b1 chain1 k1 l1 Hb1 Hk1. destruct (decide (l1 = l)) as [->|Hne].
    + destruct (node_place _ _ _ _ _ _ _ b b1 chain chain1 k k1 l HI0 Hb Hk Hb1 Hk1) as [<- <-]. simplify_eq.
      exists id'. by rewrite !lookup_insert_eq.
    + rewrite !lookup_insert_ne by done. by apply (H2 b1).
  - intros j tlj l1 id1 Hj Hl1. destruct (new_same ths i tl tl' j tlj l1 id1 Hi Hnew Hj Hl1) as (tl2 & Hj2 & Hl2).
    rewrite lookup_insert_ne; [by eapply H3|]. intros ->. apply (Hd l1); [|by eapply new_in_news].
    apply list_elem_of_In, in_concat. exists chain. split; apply list_elem_of_In; by eapply list_elem_of_lookup_2.
  - intros id1 obj arr HO. destruct (H4 id1 obj arr HO) as (o & Ho & Hkey). exists o. split; [|done].
    rewrite Ho. do 3 f_equal. pose proof (holders_insert ths i tl tl' id1 Hi) as Hh. rewrite Hheld in Hh. lia.
Qed.

(** An ID that only this thread removes. *)
Definition holds (b k : nat) (id : Z) (s : nst) : Prop := id_is b k id s ∧ ninv O owner max A N0 P s.

Lemma holds_stable i b k id : id ≠ 0 → owner id = Some i → nstable i (holds b k id).
Proof using ids_nonzero kept_unowned.
  intros Hid Ho. split; [|by intros ch ids ths ths' a HI [? _]].
  intros j s s' Hne Hs Hk. eapply (id_stable i b k id j); try done. intros j'. congruence.
Qed.

(** [prs_pal_atomic_store(&node->object_id, PRS_OBJECT_ID_INVALID)] *)
Lemma clear_id_rg i h new bd td id b k l c s :
  id ≠ 0 → owner id = Some i → id ∈ bd →
  at_name i (NThread h new bd td) (λ s, holds b k id s ∧ node_is b k l s) c s →
  wp i (prs_pal_atomic_store (node_object_id l) 0)
    (λ _, at_name i (NThread h new (bd ∖ {[ id ]}) td) (λ _, True)) c s.
Proof using ids_nonzero kept_unowned.
  intros Hid Ho Hin Hat.
  eapply (name_move_only i _ _ (λ _, NThread h new (bd ∖ {[ id ]}) td) (λ _ _, True));
    [exact (and_stable _ _ _ (holds_stable i b k id Hid Ho) (node_stable i b k l))|done|exact Hat|].
  clear c s Hat. intros c s (Hr & Ht & [[l1 [Hn1 Hl]] _] & Hn).
  assert (l1 = l) as -> by (destruct Hn1 as (ch1 & ? & ?), Hn as (ch2 & ? & ?); simplify_eq; done).
  destruct s as [ch ids ths a]. simpl in *.
  assert (step i (NSt ch ids ths a) (NSt ch (<[l := 0]> ids) (<[i := NThread h new (bd ∖ {[id]}) td]> ths) a)) as Hs
    by (by eapply n_clear).
  pose proof (nstep_inv O owner max A N0 P ids_nonzero kept_unowned _ _ _ Hs (nr_inv _ _ Hr)) as HI.
  destruct (rep_node_id c ch ids ths a a l b k id 0 i (NThread h new bd td)
    (NThread h new (bd ∖ {[id]}) td)) as (next & Hnode & Hr'); [done..|].
  exists tt. eexists (with_name_nodes _ c), _. split; [cbn; rewrite Hnode; reflexivity|]. split; [exact Hs|]. split; [done|].
  split; [|done]. apply list_lookup_insert_eq. by eapply lookup_lt_Some.
Qed.

Lemma name_free_loop_rg fuel i h bd td id obj a np k c s :
  O !! id = Some (obj, a) → owner id = Some i → (N0 + A - k < fuel)%nat →
  at_name i (NThread h None bd td)
    (λ s, ahead (λ x, x = id ∧ id ∈ bd) (bucket max a) k s ∧ at_pos np (bucket max a) k s) c s →
  wp i (name_free_loop fuel name id np)
    (λ r c s, r = free_result bd id ∧ at_name i (NThread h None (bd ∖ {[ id ]}) td) (λ _, True) c s) c s.
Proof using All.
  intros HO Ho. assert (id ≠ 0) as Hid by congruence. set (b := bucket max a). set (S0 := λ x, x = id ∧ id ∈ bd).
  assert (∀ k, nstable i (ahead S0 b k)) as Hst.
  { intros k'. apply ahead_stable. intros x [-> _]. split; [done|]. intros j. congruence. }
  revert np k c s. induction fuel as [|fuel IH]; intros np k c s Hfuel Hat; [lia|]. cbn [name_free_loop].
  eapply (next_rg i _ _ (Hst k) np b k (λ _, id ∉ bd)); [exact Hat| | |].
  - intros s1 chain HI [Hah _] Hb Hk Hin. by eapply (ahead_end S0).
  - clear c s Hat. intros c s Hat. assert (id ∉ bd) as Hnin by apply Hat.
    eapply (name_done i (NThread h None bd td) (λ _, True) (true_stable i)); [by eapply at_name_weaken, Hat|].
    intros c1 s1 Hat1. unfold free_result. rewrite decide_False by done. split; [done|].
    by replace (bd ∖ {[id]}) with bd by set_solver.
  - clear c s Hat. intros l c s Hat. eapply (id_look_rg i _ _ b k l
      (λ x s, (¬ S0 x → ahead S0 b (S k) s) ∧ (x = id → id ∈ bd ∧ holds b k id s))); [apply Hst|exact Hat| |].
    { intros x s1 HI Ht Hah Hn Hx. split; [intros Hns; by eapply ahead_next|]. intros ->.
      destruct (ni_owned _ _ _ _ _ _ _ HI l id i Hx Hid Ho) as (tl & Ht' & Hin). simplify_eq/=.
      split; [done|]. split; [by exists l|done]. }
    clear c s Hat. intros x c s _ Hat.
    assert (S k ≤ N0 + A)%nat as Hbound by (destruct Hat as (Hr & _ & _ & Hn); by eapply node_bound, Hn; apply Hr).
    destruct (Z.eqb_spec x id) as [->|Hne].
    + assert (id ∈ bd) as Hin by (by apply Hat). apply rg_bind; [apply _|].
      eapply rg_mono; [|eapply (clear_id_rg i h None bd td id b k l); [done..|]].
      * clear c s Hat. intros r c s Hat. cbv beta in Hat.
        eapply (name_done i _ (λ _, True) (true_stable i)); [exact Hat|].
        intros c1 s1 Hat1. unfold free_result. rewrite decide_True by done. by split.
      * eapply at_name_weaken, Hat. intros s1 [[_ Hh] Hn]. split; [by apply Hh|done].
    + apply (IH (NodeNext l) (S k)); [lia|]. eapply at_name_weaken, Hat. intros s1 [[Hah _] Hn].
      split; [by apply Hah; intros [? _]|by exists k].
Qed.

Lemma at_list i tl K a c s : at_name i tl K c s → at_pos (EntryList (Z.of_nat (bucket max a))) (bucket max a) 0 s.
Proof using max_pos.
  intros (Hr & _). split; [done|]. split; [done|]. apply lookup_lt_is_Some.
  rewrite (ni_length _ _ _ _ _ _ _ (nr_inv _ _ Hr)). apply bucket_lt.
Qed.

Lemma prs_name_free_rg fuel i bd td id obj a c s :
  O !! id = Some (obj, a) → owner id = Some i → (N0 + A < fuel)%nat →
  at_name i (NThread None None bd td) (λ _, True) c s →
  wp i (prs_name_free fuel name id)
    (λ r c s, r = free_result bd id ∧ at_name i (NThread None None (bd ∖ {[ id ]}) td) (λ _, True) c s) c s.
Proof using All.
  intros HO Ho Hfuel Hat. unfold prs_name_free. pose proof (true_stable i) as Htrue.
  apply rg_bind; [apply _|]. eapply rg_mono; [|by eapply name_lock_rg]. clear c s Hat. intros r c s [-> Hat].
  apply rg_bind; [apply _|]. eapply rg_mono; [|by eapply get_key_rg]. clear c s Hat. intros r c s [-> Hat].
  apply rg_bind; [apply _|]. eapply rg_mono; [|by eapply get_entry_rg; eauto]. clear c s Hat. intros r c s [-> Hat].
  apply rg_bind; [apply _|]. eapply rg_mono; [|eapply (name_free_loop_rg fuel i _ bd td id obj a _ 0); [done..|lia|]].
  - clear c s Hat. intros r c s [-> Hat]. apply rg_bind; [apply _|]. eapply rg_mono; [|by eapply name_unlock_rg].
    clear c s Hat. intros r c s Hat. cbv beta in Hat. eapply name_done; [exact Htrue|exact Hat|by split].
  - pose proof (at_list _ _ _ a _ _ Hat) as Hl. destruct Hat as (Hr & Ht & _). split_and!; try done.
    split; [apply Hr|]. intros x [-> Hin].
    destruct (ni_bound _ _ _ _ _ _ _ (nr_inv _ _ Hr) i _ id Ht Hin) as (Hne & _ & l & Hl').
    destruct (id_placed s l id a obj (nr_inv _ _ Hr) Hl' Hne HO) as [k Hk]. exists k. split; [lia|done].
Qed.

(** *** Adding a name *)

(** The list ended here, unless an ID has been added since. *)
Definition at_end (b k m : nat) (s : nst) : Prop :=
  (∃ chain, n_chains s !! b = Some chain ∧ chain !! k = None) ∨ added (S m) s.
(** The node was free, unless an ID has been added since. *)
Definition was_free (l : loc) (m : nat) (s : nst) : Prop := n_ids s !! l = Some 0 ∨ added (S m) s.

Lemma end_stable i b k m : nstable i (λ s, added m s ∧ at_end b k m s).
Proof.
  split; [|done]. intros j s s' Hne Hs [Ha [He|He]].
  2: { split; [|right]; by eapply (proj1 (added_stable i _)). }
  split; [by eapply (proj1 (added_stable i m))|]. destruct He as (chain & Hb & Hk).
  destruct Hs as [| | | | | | |l1 id o b1 chain1 h bd td ch ids ths a0 _ _ _ _ _ Hch|]; try (left; by exists chain).
  unfold at_end, added in *. simpl in *. right. lia.
Qed.

Lemma free_stable i l m : nstable i (λ s, added m s ∧ was_free l m s ∧ ninv O owner max A N0 P s).
Proof using ids_nonzero kept_unowned.
  split; [|by intros ch ids ths ths' a HI (? & ? & _)]. intros j s s' Hne Hs (Ha & Hf & HI).
  split; [by eapply (proj1 (added_stable i m))|]. split; [|by eapply (nstep_inv _ _ _ _ _ _ ids_nonzero kept_unowned)].
  destruct Hf as [Hf|Hf]; [|right; by eapply (proj1 (added_stable i _))].
  unfold was_free, added in *. destruct Hs; simpl in *; try (left; exact Hf).
  - right. lia.
  - right. lia.
  - left. destruct (decide (l = l0)) as [<-|Hl0]; [apply lookup_insert_eq|by rewrite lookup_insert_ne].
Qed.

Lemma added_bound s m : ninv O owner max A N0 P s → added m s → (m ≤ A)%nat.
Proof. intros HI Ha. pose proof (ni_added _ _ _ _ _ _ _ HI). unfold added in Ha. lia. Qed.

Lemma snoc_chain (ch : list (list loc)) b chain l b1 chain1 k l1 :
  ch !! b = Some chain → <[b := chain ++ [l]]> ch !! b1 = Some chain1 → chain1 !! k = Some l1 →
  (∃ chain0, ch !! b1 = Some chain0 ∧ chain0 !! k = Some l1 ∧
     chain1 !! S k = if decide (b1 = b ∧ S k = length chain) then Some l else chain0 !! S k) ∨
  (b1 = b ∧ k = length chain ∧ l1 = l ∧ chain1 !! S k = None).
Proof.
  intros Hb [(<- & <- & _)|[Hne Hb1]]%list_lookup_insert_Some Hk.
  - apply lookup_app_Some in Hk as [Hk|[Hle Hk]].
    + left. exists chain. split; [done|]. split; [done|]. destruct (decide _) as [[_ ->]|Hn].
      * by rewrite list_lookup_middle.
      * apply lookup_lt_Some in Hk. apply lookup_app_l. assert (S k ≠ length chain) by naive_solver. lia.
    + apply list_lookup_singleton_Some in Hk as [Hk <-]. right. assert (k = length chain) as -> by lia.
      split_and!; try done. apply lookup_ge_None. rewrite length_app. simpl. lia.
  - left. exists chain1. split; [done|]. split; [done|]. rewrite decide_False; [done|]. by intros [-> _].
Qed.

(** The place where the list is extended. *)
Lemma end_place np b k s chain : at_pos np b k s → ninv O owner max A N0 P s →
  n_chains s !! b = Some chain → chain !! k = None →
  k = length chain ∧ match np with
    | EntryList e => e = Z.of_nat b ∧ k = 0%nat
    | NodeNext l => ∃ k', k = S k' ∧ chain !! k' = Some l
    end.
Proof.
  intros Hnp HI Hb Hk. apply lookup_ge_None in Hk. destruct np as [e|l]; simpl in Hnp.
  - destruct Hnp as (-> & -> & _). split; [lia|done].
  - destruct Hnp as (k' & -> & chain' & Hb' & Hk'). simplify_eq. pose proof (lookup_lt_Some _ _ _ Hk').
    split; [lia|by exists k'].
Qed.

Section adding.
Context (i : nat) (h : option Z) (bd : gset Z) (td : nat) (id : Z) (obj : loc) (nm : list Z).
Hypothesis registered : O !! id = Some (obj, nm).
Hypothesis owned : owner id = Some i.
Hypothesis absent : id ∉ bd.
Definition to_add (new : ptr) : nthread := NThread h ((λ l, (l, id)) <$> new) bd (S td).
Definition has_added (new : ptr) : nthread := NThread h ((λ l, (l, id)) <$> new) ({[ id ]} ∪ bd) td.

(** A free node is taken. *)
Lemma fill_rg new l m k K c s :
  let b := bucket max nm in
  nstable i K →
  at_name i (to_add new) (λ s, (K s ∧ added m s ∧ was_free l m s ∧ ninv O owner max A N0 P s) ∧ node_is b k l s) c s →
  wp i (prs_pal_atomic_compare_exchange_strong (node_object_id l) 0 id)
    (λ r, if r.1 then at_name i (has_added new) (λ _, True) else at_name i (to_add new) (λ s, K s ∧ added (S m) s)) c s.
Proof using All.
  intros b HK Hat. unfold prs_pal_atomic_compare_exchange_strong. eapply rg_mono; [|eapply (name_move_only i _ _
    (λ r : bool * Z, if r.1 then has_added new else to_add new) (λ r s, if r.1 then True else K s ∧ added (S m) s));
    [exact (and_stable _ _ _ (and_stable _ _ _ HK (free_stable i l m)) (node_stable i b k l))| |exact Hat|]].
  - by intros [[] v] c1 s1.
  - intros [[] v]; simpl; [done|]. apply and_stable; [done|apply added_stable].
  - clear c s Hat. intros c s (Hr & Ht & (HK1 & Ha & Hf & _) & Hn). destruct (id_load c s b k l Hr Hn) as (x & Hx & Hl & _).
    rewrite Hl. ocbn. destruct (decide (x = 0)) as [->|Hne].
    + destruct s as [ch ids ths a]. simpl in *. destruct Hn as (chain & Hb & Hk). simpl in Hb.
      assert (step i (NSt ch ids ths a) (NSt ch (<[l := id]> ids) (<[i := has_added new]> ths) (S a))) as Hs
        by (by eapply (n_fill O owner max i l id (obj, nm) b chain k)).
      pose proof (nstep_inv O owner max A N0 P ids_nonzero kept_unowned _ _ _ Hs (nr_inv _ _ Hr)) as HI.
      destruct (rep_node_id c ch ids ths a (S a) l b k 0 id i (to_add new) (has_added new)) as (next & Hnode & Hr');
        [done|by exists chain|done..|].
      exists (true, 0). eexists (with_name_nodes _ c), _. split; [cbn; rewrite Hnode; reflexivity|].
      split; [exact Hs|]. split; [done|]. split; [|done]. apply list_lookup_insert_eq. by eapply lookup_lt_Some.
    + exists (false, x), c, s. split; [done|]. split; [apply nstep_refl|]. split; [done|]. split; [done|].
      intros _. split; [done|]. destruct Hf as [Hf|Hf]; [congruence|done].
Qed.

Lemma has_added_news ths ch ids a l :
  ths !! i = Some (to_add (Some l)) →
  all_nodes (NSt ch ids (<[i := has_added None]> ths) a) ++ [l] ≡ₚ all_nodes (NSt ch ids ths a).
Proof.
  intros Hi. unfold all_nodes. simpl. rewrite <- (assoc_L (++)). f_equiv.
  by apply (news_none ths i _ (has_added None) l Hi).
Qed.

(** What does not depend on where the node goes. *)
Lemma rep_append_rest c c' ch ids ths a b l chain :
  nrep c (NSt ch ids ths a) → ths !! i = Some (to_add (Some l)) → ch !! b = Some chain →
  k_objs c' = k_objs c → k_heap c' = k_heap c → (∀ o, key_of c' o = key_of c o) →
  (∃ entries, k_names c' !! name = Some (PrsName max off blk entries) ∧ length entries = length ch ∧
     ∀ b1 chain1, <[b := chain ++ [l]]> ch !! b1 = Some chain1 → entries !! b1 = Some (chain1 !! 0%nat)) →
  (∀ b1 chain1 k1 l1, <[b := chain ++ [l]]> ch !! b1 = Some chain1 → chain1 !! k1 = Some l1 →
     ∃ id1, <[l := id]> ids !! l1 = Some id1 ∧ k_name_nodes c' !! l1 = Some (PrsNameListNode (chain1 !! S k1) id1)) →
  (∀ l1, l1 ∉ concat ch → k_name_nodes c' !! l1 = k_name_nodes c !! l1) →
  ninv O owner max A N0 P (NSt (<[b := chain ++ [l]]> ch) (<[l := id]> ids) (<[i := has_added None]> ths) (S a)) →
  nrep c' (NSt (<[b := chain ++ [l]]> ch) (<[l := id]> ids) (<[i := has_added None]> ths) (S a)).
Proof.
  intros Hr Hi Hb Hobjs Hheap Hkeys Hnames Hnodes Hsame HI.
  assert (all_nodes (NSt (<[b := chain ++ [l]]> ch) (<[l := id]> ids) (<[i := has_added None]> ths) (S a))
    ≡ₚ all_nodes (NSt ch ids ths a)) as Hall.
  { rewrite <- (has_added_news ths ch ids a l Hi). unfold all_nodes. simpl.
    rewrite (concat_snoc_perm _ _ _ l Hb), <- !(assoc_L (++)). f_equiv. apply Permutation_app_comm. }
  pose proof (ni_nodup _ _ _ _ _ _ _ (nr_inv _ _ Hr)) as Hnd. unfold all_nodes in Hnd. simpl in Hnd.
  apply NoDup_app in Hnd as (_ & Hd & _). destruct Hr as [H1 H2 H3 H4 H5 H6 H7 H8]. split; simpl in *; try done.
  - destruct Hnames as (es & ? & Hl & ?). exists es. split_and!; [done| |done]. by rewrite length_insert.
  - intros j tlj l1 id1 [(<- & <- & _)|[Hne Hj]]%list_lookup_insert_Some Hl1; [done|].
    rewrite Hsame; [by eapply H3|]. intros Hin. apply (Hd l1 Hin). by eapply new_in_news.
  - intros id1 obj1 arr HO. destruct (H4 id1 obj1 arr HO) as (o & Ho & Hkey). exists o. rewrite Hobjs, Hkeys. split; [|done].
    rewrite Ho. do 3 f_equal. pose proof (holders_insert ths i _ (has_added None) id1 Hi) as Hh. simpl in Hh. lia.
  - by rewrite Hheap.
  - rewrite Hheap, H6. by rewrite (list_to_set_perm_L _ _ Hall).
  - intros l1 Hl1. rewrite (elem_of_Permutation_proper l1 _ _ Hall). by apply H7.
Qed.

(** The memory after the exchange. *)
Lemma rep_append c ch ids ths a np k l chain b :
  nrep c (NSt ch ids ths a) → at_pos np b k (NSt ch ids ths a) → ch !! b = Some chain → chain !! k = None →
  ths !! i = Some (to_add (Some l)) →
  ninv O owner max A N0 P (NSt (<[b := chain ++ [l]]> ch) (<[l := id]> ids) (<[i := has_added None]> ths) (S a)) →
  ∃ c', cell_set (node_cell name np) (Some l) c = Ret c' ∧
    nrep c' (NSt (<[b := chain ++ [l]]> ch) (<[l := id]> ids) (<[i := has_added None]> ths) (S a)).
Proof.
  intros Hr Hnp Hb Hk Hi HI. pose proof (nr_inv _ _ Hr) as HI0.
  destruct (end_place np b k _ chain Hnp HI0 Hb Hk) as [-> Hplace].
  pose proof (nr_new _ _ Hr i _ l id Hi eq_refl) as Hl.
  assert (∀ b1 chain1 k1 l1, ch !! b1 = Some chain1 → chain1 !! k1 = Some l1 → l1 ≠ l) as Hfresh.
  { pose proof (ni_nodup _ _ _ _ _ _ _ HI0) as Hnd. unfold all_nodes in Hnd. simpl in Hnd.
    apply NoDup_app in Hnd as (_ & Hd & _). intros b1 chain1 k1 l1 Hb1 Hk1 ->. apply (Hd l); [|by eapply new_in_news].
    apply (node_dom _ _ _ _ _ _ _ b1 chain1 k1 l HI0 Hb1 Hk1). }
  destruct (nr_name _ _ Hr) as (es & Hname & Hlen & Hes). simpl in Hlen, Hes. destruct np as [e|l'].
  - destruct Hplace as [-> Hnil]. apply nil_length_inv in Hnil as ->. eexists. split.
    { cbn. rewrite Hname. cbn. rewrite store_in by (apply lookup_lt_Some in Hb; lia). cbn. reflexivity. }
    eapply rep_append_rest; try done.
    + exists (<[b := Some l]> es). simpl. rewrite lookup_insert_eq, Nat2Z.id. split; [done|]. rewrite length_insert.
      split; [done|]. intros b1 chain1 [(<- & <- & _)|[Hne Hb1]]%list_lookup_insert_Some.
      * apply list_lookup_insert_eq. rewrite Hlen. by eapply lookup_lt_Some.
      * rewrite list_lookup_insert_ne by done. by apply Hes.
    + intros b1 chain1 k1 l1 Hb1 Hk1. simpl.
      destruct (snoc_chain ch b [] l b1 chain1 k1 l1 Hb Hb1 Hk1) as [(chain0 & Hb0 & Hk0 & ->)|(-> & -> & -> & ->)].
      * rewrite decide_False by (intros [_ ?]; done). rewrite lookup_insert_ne by (by eapply not_eq_sym, Hfresh).
        by apply (nr_nodes _ _ Hr b1 chain0 k1 l1).
      * exists id. by rewrite lookup_insert_eq.
  - destruct Hplace as (k' & Hk' & Hl'). destruct (nr_nodes _ _ Hr b chain k' l' Hb Hl') as (id' & Hid' & Hnode).
    simpl in Hid'. pose proof (Hfresh _ _ _ _ Hb Hl') as Hne. eexists. split; [cbn; rewrite Hnode; reflexivity|].
    eapply rep_append_rest; try done.
    + exists es. simpl. split; [done|]. split; [done|].
      intros b1 chain1 [(<- & <- & _)|[_ Hb1]]%list_lookup_insert_Some; [|by apply Hes].
      rewrite (Hes b chain Hb). destruct chain; [discriminate Hk'|done].
    + intros b1 chain1 k1 l1 Hb1 Hk1. simpl.
      destruct (snoc_chain ch b chain l b1 chain1 k1 l1 Hb Hb1 Hk1) as [(chain0 & Hb0 & Hk0 & ->)|(-> & -> & -> & ->)].
      * rewrite (lookup_insert_ne ids) by (by eapply not_eq_sym, Hfresh).
        destruct (nr_nodes _ _ Hr b1 chain0 k1 l1 Hb0 Hk0) as (id1 & Hid1 & Hn1). exists id1. split; [done|].
        destruct (decide (l1 = l')) as [->|Hl1].
        -- destruct (node_place _ _ _ _ _ _ _ b b1 chain chain0 k' k1 l' HI0 Hb Hl' Hb0 Hk0) as [<- <-].
           rewrite lookup_insert_eq, decide_True by (split; [done|lia]). simplify_eq/=. done.
        -- rewrite lookup_insert_ne by done. rewrite decide_False; [done|]. intros [-> Hlast]. simplify_eq.
           assert (k1 = k') as -> by lia. simplify_eq.
      * exists id. rewrite lookup_insert_eq. by rewrite lookup_insert_ne.
    + intros l1 Hl1. simpl. apply lookup_insert_ne. intros ->. apply Hl1.
      apply (node_dom _ _ _ _ _ _ _ b chain k' l1 HI0 Hb Hl').
Qed.

(** The new node is put at the end of the list. *)
Lemma append_rg l np k m K c s :
  let b := bucket max nm in
  nstable i K →
  at_name i (to_add (Some l)) (λ s, (K s ∧ at_pos np b k s) ∧ added m s ∧ at_end b k m s) c s →
  wp i (prs_pal_atomic_compare_exchange_strong (node_cell name np) None (Some l))
    (λ r, if r.1 then at_name i (has_added None) (λ _, True)
          else at_name i (to_add (Some l)) (λ s, (K s ∧ at_pos np b k s) ∧ added (S m) s)) c s.
Proof using All.
  intros b HK Hat. unfold prs_pal_atomic_compare_exchange_strong.
  pose proof (and_stable _ _ _ HK (pos_stable i np b k)) as HKp.
  eapply rg_mono; [|eapply (name_move_only i _ _
    (λ r : bool * ptr, if r.1 then has_added None else to_add (Some l))
    (λ r s, if r.1 then True else (K s ∧ at_pos np b k s) ∧ added (S m) s));
    [exact (and_stable _ _ _ HKp (end_stable i b k m))| |exact Hat|]].
  - by intros [[] v] c1 s1.
  - intros [[] v]; simpl; [done|]. apply and_stable; [done|apply added_stable].
  - clear c s Hat. intros c s (Hr & Ht & [HK1 Hnp] & Ha & He).
    destruct (node_load c s np b k Hr Hnp) as (chain & Hb & Hv). rewrite Hv. ocbn.
    destruct (decide (chain !! k = None)) as [Hk|Hk].
    + destruct s as [ch ids ths a]. simpl in *.
      assert (step i (NSt ch ids ths a)
        (NSt (<[b := chain ++ [l]]> ch) (<[l := id]> ids) (<[i := has_added None]> ths) (S a))) as Hs
        by (by eapply (n_append O owner max i l id (obj, nm) b chain)).
      pose proof (nstep_inv O owner max A N0 P ids_nonzero kept_unowned _ _ _ Hs (nr_inv _ _ Hr)) as HI.
      destruct (rep_append c ch ids ths a np k l chain b Hr Hnp Hb Hk Ht HI) as (c' & Hset & Hr').
      exists (true, None), c'. eexists. rewrite Hset. split; [reflexivity|]. split; [exact Hs|]. split; [done|].
      split; [|done]. apply list_lookup_insert_eq. by eapply lookup_lt_Some.
    + exists (false, chain !! k), c, s. split; [done|]. split; [apply nstep_refl|]. split; [done|]. split; [done|].
      intros _. split; [done|]. destruct He as [(chain' & Hb' & Hk')|He]; [congruence|done].
Qed.

(** The loop. *)
Lemma name_alloc_loop_rg fuel new np k m c s :
  let b := bucket max nm in
  ((A - m) + (N0 + A - k) < fuel)%nat →
  at_name i (to_add new) (λ s, added m s ∧ at_pos np b k s) c s →
  wp i (name_alloc_loop fuel name id np new)
    (λ r c s, r.1 = PRS_OK ∧ at_name i (has_added r.2) (λ _, True) c s) c s.
Proof using All.
  intros b. revert new np k m c s. induction fuel as [|fuel IH]; intros new np k m c s Hfuel Hat; [lia|].
  assert (m ≤ A)%nat as Hm by (eapply added_bound; [apply Hat|exact (proj1 (proj2 (proj2 Hat)))]).
  assert (id ≠ 0) as Hid by congruence.
  cbn [name_alloc_loop].
  eapply (next_rg i _ (λ s, added m s ∧ at_pos np b k s) (and_stable _ _ _ (added_stable i m) (pos_stable i np b k)) np b k
    (at_end b k m)); [by eapply at_name_weaken, Hat; intros s1 [? ?]| | |].
  - intros s1 chain HI _ Hb Hk. left. by exists chain.
  - clear c s Hat. intros c s Hat. apply rg_bind; [apply _|].
    eapply rg_mono with (Q := λ l, at_name i (to_add (Some l)) (λ s, (True ∧ at_pos np b k s) ∧ added m s ∧ at_end b k m s)).
    + intros l c1 s1 Hat1. apply rg_bind; [apply _|].
      eapply rg_mono; [|eapply (append_rg l np k m (λ _, True)); [done|exact Hat1]].
      intros [[] v] c2 s2 Hat2; simpl in Hat2.
      * eapply (name_done i (has_added None) (λ _, True)); [done|exact Hat2|by split].
      * destruct (decide (S m ≤ A)%nat) as [Hm2|Hm2].
        -- apply (IH (Some l) np k (S m)); [lia|]. eapply at_name_weaken, Hat2. by intros s3 [[_ ?] ?].
        -- exfalso. apply Hm2. eapply added_bound; [apply Hat2|]. exact (proj2 (proj2 (proj2 Hat2))).
    + assert (nstable i (λ s, (True ∧ at_pos np b k s) ∧ added m s ∧ at_end b k m s)) as Hst.
      { apply and_stable; [|apply end_stable]. apply and_stable; [apply true_stable|apply pos_stable]. }
      assert (at_name i (to_add new) (λ s, (True ∧ at_pos np b k s) ∧ added m s ∧ at_end b k m s) c s) as Hat'.
      { eapply at_name_weaken, Hat. by intros s1 [[[? _] ?] ?]. }
      destruct new as [l|]; [eapply name_done; [exact Hst|exact Hat'|done]|].
      exact (make_node_rg i h id bd (S td) _ c s Hst Hat').
  - clear c s Hat. intros l c s Hat.
    eapply (id_look_rg i _ (λ s, added m s ∧ at_pos np b k s) b k l
      (λ x s, (added m s ∧ at_pos np b k s) ∧ (x = 0 → was_free l m s) ∧ ninv O owner max A N0 P s ∧ x ≠ id));
      [apply and_stable; [apply added_stable|apply pos_stable]|exact Hat| |].
    { intros x s1 HI Ht Hk Hn Hx. split; [done|]. split; [by intros ->; left|]. split; [done|]. intros ->.
      destruct (ni_owned _ _ _ _ _ _ _ HI l id i Hx Hid owned) as (tl & Ht' & Hin). by simplify_eq/=. }
    clear c s Hat. intros x c s _ Hat. assert (x ≠ id) as Hne by (apply Hat). rewrite (proj2 (Z.eqb_neq x id) Hne).
    destruct (Z.eqb_spec x 0) as [->|Hx0].
    + apply rg_bind; [apply _|]. eapply rg_mono; [|eapply (fill_rg new l m k (λ s, at_pos np b k s)); [apply pos_stable|]].
      2: { eapply at_name_weaken, Hat. intros s1 [[[Ha Hp] [Hf [HI _]]] Hn]. split; [|done]. split_and!; auto. }
      clear c s Hat. intros [[] v] c s Hat; simpl in Hat.
      * eapply (name_done i (has_added new) (λ _, True)); [done|exact Hat|by split].
      * destruct (decide (S m ≤ A)%nat) as [Hm2|Hm2].
        -- apply (IH new np k (S m)); [lia|]. eapply at_name_weaken, Hat. by intros s3 [? ?].
        -- exfalso. apply Hm2. eapply added_bound; [apply Hat|]. exact (proj2 (proj2 (proj2 Hat))).
    + assert (S k ≤ N0 + A)%nat as Hbound by (destruct Hat as (Hr & _ & _ & Hn); by eapply node_bound, Hn; apply Hr).
      apply (IH new (NodeNext l) (S k) m); [lia|]. eapply at_name_weaken, Hat. intros s1 [[[Ha _] _] Hn].
      split; [done|]. by exists k.
Qed.
End adding.

Lemma prs_name_alloc_rg fuel i bd td id obj nm c s :
  O !! id = Some (obj, nm) → owner id = Some i → id ∉ bd → (A + (N0 + A) < fuel)%nat →
  at_name i (NThread None None bd (S td)) (λ _, True) c s →
  wp i (prs_name_alloc fuel name id)
    (λ r c s, r = PRS_OK ∧ at_name i (NThread None None ({[ id ]} ∪ bd) td) (λ _, True) c s) c s.
Proof using All.
  intros HO Ho Hbd Hfuel Hat. unfold prs_name_alloc. pose proof (true_stable i) as Htrue.
  apply rg_bind; [apply _|]. eapply rg_mono; [|by eapply name_lock_rg]. clear c s Hat. intros r c s [-> Hat].
  apply rg_bind; [apply _|]. eapply rg_mono; [|by eapply get_key_rg]. clear c s Hat. intros r c s [-> Hat].
  apply rg_bind; [apply _|]. eapply rg_mono; [|by eapply get_entry_rg; eauto]. clear c s Hat. intros r c s [-> Hat].
  apply rg_bind; [apply _|].
  eapply rg_mono; [|eapply (name_alloc_loop_rg i (Some id) bd td id obj nm HO Ho Hbd fuel None _ 0 0); [lia|]].
  - clear c s Hat. intros [r new] c s [Hres Hat]. simpl in Hres, Hat. subst r. unfold has_added in Hat.
    assert (∀ c s, at_name i (NThread (Some id) None ({[ id ]} ∪ bd) td) (λ _, True) c s →
      wp i (_ ← god_unlock id; mret PRS_OK)
        (λ r c s, r = PRS_OK ∧ at_name i (NThread None None ({[ id ]} ∪ bd) td) (λ _, True) c s) c s) as Hunlock.
    { clear c s Hat. intros c s Hat. apply rg_bind; [apply _|]. eapply rg_mono; [|by eapply name_unlock_rg].
      clear c s Hat. intros r c s Hat. cbv beta in Hat. eapply name_done; [exact Htrue|exact Hat|by split]. }
    apply rg_bind; [apply _|]. destruct new as [l|].
    + eapply rg_mono; [|eapply free_new_rg; [exact Htrue|exact Hat]].
      clear c s Hat. intros r c s Hat. by apply Hunlock.
    + eapply name_done; [exact Htrue|exact Hat|exact Hunlock].
  - pose proof (at_list _ _ _ nm _ _ Hat) as Hl. destruct Hat as (Hr & Ht & _). split_and!; try done. unfold added. lia.
Qed.

(** *** Clients *)

Lemma name_op_rg fuel i bd td op c s :
  legal_op O owner i bd op → (A + (N0 + A) < fuel)%nat →
  at_name i (NThread None None bd (op_adds op + td)) (λ _, True) c s →
  wp i (name_op_prog fuel name op)
    (λ r c s, answer O P bd op r ∧ at_name i (NThread None None (bound_after_op bd op) td) (λ _, True) c s) c s.
Proof using All.
  intros Hop Hfuel Hat. pose proof (true_stable i) as Htrue. destruct op as [id|id|key|key]; cbn [name_op_prog op_adds bound_after_op answer legal_op Nat.add] in *.
  - destruct Hop as (Ho & [[obj nm] HO] & Hbd). apply rg_bind; [apply _|].
    eapply rg_mono; [|by eapply prs_name_alloc_rg]. clear c s Hat. intros r c s [-> Hat].
    eapply name_done; [exact Htrue|exact Hat|done].
  - destruct Hop as (Ho & [[obj nm] HO]). apply rg_bind; [apply _|].
    eapply rg_mono; [|by eapply prs_name_free_rg; [..|lia|]]. clear c s Hat. intros r c s [-> Hat].
    eapply name_done; [exact Htrue|exact Hat|done].
  - apply rg_bind; [apply _|].
    eapply rg_mono; [|by eapply (name_find_internal_rg fuel i bd td key false); [|lia|]].
    clear c s Hat. intros r c s [Hf Hat]. eapply name_done; [exact Htrue|exact Hat|]. intros c1 s1 Hat1. split; [by exists r|done].
  - apply rg_bind; [apply _|].
    eapply rg_mono; [|by eapply (name_find_internal_rg fuel i bd td key true); [|lia|]].
    clear c s Hat. intros r c s [Hf Hat]. cbn [andb] in Hat. apply rg_bind; [apply _|].
    eapply rg_mono with (Q := λ _, at_name i (NThread None None bd td) (λ _, True)).
    + clear c s Hat. intros x c s Hat. cbv beta in Hat. eapply name_done; [exact Htrue|exact Hat|].
      intros c1 s1 Hat1. split; [by exists r|done].
    + unfold found in Hf. destruct (r =? 0); cbn [negb] in Hat.
      * eapply name_done; [exact Htrue|exact Hat|done].
      * destruct Hf as ([obj nm] & HO & _). by eapply name_unlock_rg.
Qed.

Lemma name_client_rg fuel i bd ops c s :
  legal O owner i bd ops → (A + (N0 + A) < fuel)%nat →
  at_name i (NThread None None bd (adds ops)) (λ _, True) c s →
  wp i (name_client fuel name ops)
    (λ rs c s, answers O P bd ops rs ∧
       at_name i (NThread None None (bound_after bd ops) 0) (λ _, True) c s) c s.
Proof using All.
  intros Hops Hfuel. revert bd c s Hops. induction ops as [|op ops IH]; intros bd c s Hops Hat; cbn [name_client answers legal adds sum_list_with] in *.
  - eapply name_done; [exact (true_stable i)|exact Hat|done].
  - destruct Hops as [Hop Hops]. apply rg_bind; [apply _|]. eapply rg_mono; [|by eapply name_op_rg].
    clear c s Hat. intros r c s [Hr Hat]. apply rg_bind; [apply _|]. eapply rg_mono; [|by eapply IH].
    clear c s Hat. intros rs c s [Hrs Hat]. eapply name_done; [exact (true_stable i)|exact Hat|done].
Qed.
End implementation.

Lemma nstep_length O owner max i s s' : nstep O owner max i s s' → length (n_threads s') = length (n_threads s).
Proof. intros []; simpl; by rewrite ?length_insert. Qed.

(** ** The table *)

Section table.
Context `{!ObjectFree}.
Context (name : loc) (max : Z) (off : name_offset) (blk : ptr).
Context (O : gmap Z (loc * list Z)) (owner : Z → option nat) (base : Z → nat) (P : gset Z) (live0 : gset loc).

(** Threads outside of the resolver's functions, with the IDs they have in the table
    and how many they will add. *)
Definition between (l : list (gset Z * nat)) : list nthread := (λ x, NThread None None x.1 x.2) <$> l.

(** The table is well-formed, has [N] nodes and holds the IDs [P] and those of each thread. *)
Definition settled (c : kern) (N : nat) (bds : list (gset Z)) : Prop :=
  ∃ ch ids, length (concat ch) = N ∧
    nrep name max off blk O owner base 0 N P live0 c (NSt ch ids (between ((λ bd, (bd, 0%nat)) <$> bds)) 0).

Lemma between_lookup l i tl : between l !! i = Some tl → ∃ x, l !! i = Some x ∧ tl = NThread None None x.1 x.2.
Proof. unfold between. rewrite list_lookup_fmap. destruct (l !! i) as [x|]; intros; simplify_eq/=. by exists x. Qed.

Lemma between_news l : news (between l) = [].
Proof. induction l as [|x l IH]; [done|exact IH]. Qed.

Lemma between_holders id l : holders id (between l) = 0%nat.
Proof. induction l as [|x l IH]; [done|]. unfold holders in *. simpl. rewrite filter_cons, decide_False by done. exact IH. Qed.

Lemma between_todo l : todo (between l) = sum_list_with snd l.
Proof. unfold todo. induction l as [|x l IH]; [done|]. simpl. by rewrite IH. Qed.

(** What the threads have still to do does not matter to the memory. *)
Lemma nrep_budget A N0 A' N0' c ch ids l l' a a' :
  nrep name max off blk O owner base A N0 P live0 c (NSt ch ids (between l) a) → l'.*1 = l.*1 →
  (a' + sum_list_with snd l')%nat = A' → (length (concat ch) ≤ N0' + a')%nat →
  nrep name max off blk O owner base A' N0' P live0 c (NSt ch ids (between l') a').
Proof.
  intros [H1 H2 H3 H4 H5 H6 H7 [I1 I2 I3 I4 I5 I6 I7 IP I8 I9]] Hl HA HN.
  assert (∀ i x, l' !! i = Some x → ∃ y, l !! i = Some y ∧ y.1 = x.1) as Hto.
  { intros i x Hi. pose proof (f_equal (.!! i) Hl) as E. rewrite !list_lookup_fmap, Hi in E.
    destruct (l !! i) as [y|]; simplify_eq/=. by exists y. }
  assert (∀ i x, l !! i = Some x → ∃ y, l' !! i = Some y ∧ y.1 = x.1) as Hfrom.
  { intros i x Hi. pose proof (f_equal (.!! i) Hl) as E. rewrite !list_lookup_fmap, Hi in E.
    destruct (l' !! i) as [y|]; simplify_eq/=. by exists y. }
  unfold all_nodes in *. simpl in *. rewrite between_news in *.
  split; unfold all_nodes; simpl; rewrite ?between_news; try done.
  - by intros i tl l1 id (x & _ & ->)%between_lookup.
  - intros id obj arr HO. rewrite between_holders. specialize (H4 id obj arr HO). by rewrite between_holders in H4.
  - split; unfold all_nodes; simpl; rewrite ?between_news; try done.
    + intros i tl id (x & Hi & ->)%between_lookup Hid. destruct (Hto i x Hi) as (y & Hy & Hxy).
      apply (I6 i (NThread None None y.1 y.2)); [by unfold between; rewrite list_lookup_fmap, Hy|]. simpl in *. by rewrite Hxy.
    + intros l1 id i Hl1 Hid Hown. destruct (I7 l1 id i Hl1 Hid Hown) as (tl & (x & Hi & ->)%between_lookup & Hin).
      destruct (Hfrom i x Hi) as (y & Hy & Hxy). exists (NThread None None y.1 y.2). simpl in *. rewrite Hxy.
      split; [|done]. by unfold between; rewrite list_lookup_fmap, Hy, <- Hxy.
    + by rewrite between_todo.
Qed.

Hypothesis max_pos : 0 < max.
Hypothesis ids_nonzero : O !! 0 = None.
Hypothesis kept_unowned : ∀ id, id ∈ P → id ≠ 0 ∧ owner id = None.
Hypothesis names_terminated : ∀ id obj a, O !! id = Some (obj, a) → terminated a.
Hypothesis base_pos : ∀ id obj a, O !! id = Some (obj, a) → (0 < base id)%nat.

(** The clients, each with the IDs it has in the table and its operations. *)
Definition all_adds (cl : list (gset Z * list name_op)) : nat := sum_list_with (λ x, adds x.2) cl.

Definition client_post (cl : list (gset Z * list name_op)) (rep : kern → nst → Prop) (i : nat)
    (rs : list (prs_result + Z)) (c : kern) (s : nst) : Prop :=
  ∀ x, cl !! i = Some x → answers O P x.1 x.2 rs ∧
    rep c s ∧ n_threads s !! i = Some (NThread None None (bound_after x.1 x.2) 0).

(** The clients follow the protocol. *)
Lemma clients_ok c N cl fuel :
  settled c N cl.*1 → (∀ i x, cl !! i = Some x → legal O owner i x.1 x.2) →
  (all_adds cl + (N + all_adds cl) < fuel)%nat →
  let rep := nrep name max off blk O owner base (all_adds cl) N P live0 in
  let step := nstep O owner max in
  ∃ s, pool_ok True False True (λ _ _, False) (prely rep step nview) (pguar rep step nview) (client_post cl rep)
    (λ c s, rep c s ∧ length (n_threads s) = length cl) c s ((λ x, name_client fuel name x.2) <$> cl).
Proof using All.
  intros (ch & ids & HN & Hr0) Hlegal Hfuel rep step. set (A := all_adds cl) in *.
  set (l0 := (λ x : gset Z * list name_op, (x.1, adds x.2)) <$> cl).
  assert (rep c (NSt ch ids (between l0) 0)) as Hr.
  { eapply nrep_budget; [exact Hr0| | |lia].
    - unfold l0. rewrite <- !list_fmap_compose. by apply list_fmap_ext.
    - unfold l0, A, all_adds. clear. rewrite Nat.add_0_l. induction cl as [|x cl IH]; [done|].
      cbn [fmap list_fmap sum_list_with snd]. by rewrite IH. }
  exists (NSt ch ids (between l0) 0).
  split; [split; [done|]; unfold between, l0; simpl; by rewrite !length_fmap|].
  intros i p (x & -> & Hi)%list_lookup_fmap_Some.
  eapply rg_mono; [|eapply (name_client_rg name max off blk O owner base A N P live0 max_pos ids_nonzero kept_unowned
    names_terminated base_pos fuel i x.1 x.2); [by apply Hlegal|lia|]].
  - intros rs c1 s1 (Ha & Hr1 & Ht & _) y Hy. simplify_eq. done.
  - split; [exact Hr|]. split; [|done]. simpl. unfold between, l0. by rewrite !list_lookup_fmap, Hi.
Qed.

(** C8: Concurrent adding, removing and looking up of names is correct.  Any number of
    clients add, remove and look up names in one table, each only adding and removing
    objects of its own (which stay registered), in any interleaving, with allocations
    that may fail ([PRS_FATAL_WHEN] then stops the system).  No client faults, and none
    runs out of a fuel that grows with the nodes of the table and the objects added:
    the lock-free loops terminate.  Adding succeeds; removing succeeds exactly when the
    object is in the table; a lookup returns an object of the name that was asked for,
    or none, and then the client has no object of that name in the table and there is
    none among the objects that nobody removes ([P]).  Once all have returned the table
    is well-formed again, each object is in it exactly when its client has added it and
    not removed it, every reference that a client took is given back, and the nodes on
    the heap are those of the table: unused ones have been freed. *)
Theorem name_table_correct c N cl fuel c' ps' :
  settled c N cl.*1 → (∀ i x, cl !! i = Some x → legal O owner i x.1 x.2) →
  (all_adds cl + (N + all_adds cl) < fuel)%nat →
  rtc pool_step (c, (λ x, name_client fuel name x.2) <$> cl) (c', ps') →
  (∀ i p, ps' !! i = Some p → ¬ faults c' p ∧ p ≠ Spin) ∧
  (∀ i x rs, cl !! i = Some x → ps' !! i = Some (Done rs) → answers O P x.1 x.2 rs) ∧
  ((∀ i, (i < length cl)%nat → ∃ rs, ps' !! i = Some (Done rs)) →
   ∃ N', (N' ≤ N + all_adds cl)%nat ∧ settled c' N' ((λ x, bound_after x.1 x.2) <$> cl)).
Proof using All.
  intros Hset Hlegal Hfuel Hsteps. destruct (clients_ok c N cl fuel Hset Hlegal Hfuel) as [s0 Hok].
  set (rep := nrep name max off blk O owner base (all_adds cl) N P live0) in *. set (step := nstep O owner max) in *.
  set (I := λ (c : kern) s, rep c s ∧ length (n_threads s) = length cl) in *.
  assert (∀ i c g c' g', pguar rep step nview i (c, g) (c', g') → I c g → I c' g') as HGI.
  { intros i c1 g1 c2 g2 (_ & ? & Hs & _) [_ Hl]. split; [done|]. rewrite <- Hl. exact (nstep_length _ _ _ _ _ _ Hs). }
  assert (∀ i j s s', i ≠ j → pguar rep step nview i s s' → prely rep step nview j s s') as HGR
    by (intros; by eapply pguar_rely).
  destruct (pool_adequate True False True (λ _ _, False) Logic.I _ _ (client_post cl rep) I (prely_preorder _ _ _) HGR HGI
    _ _ _ _ _ Hok Hsteps) as (s1 & _ & Hfaults & _).
  destruct (pool_rtc_ok True False True (λ _ _, False) Logic.I _ _ (client_post cl rep) I (prely_preorder _ _ _) HGR HGI
    _ _ _ _ _ Hok Hsteps) as (s' & [Hr' Hlen] & Hps).
  assert (∀ i rs, ps' !! i = Some (Done rs) → client_post cl rep i rs c' s') as Hpost.
  { intros i rs Hi. apply (Hps i _ Hi). reflexivity. }
  split; [|split].
  - intros i p Hi. split; [by eapply Hfaults|]. intros ->. exact (Hps i _ Hi).
  - intros i x rs Hx Hi. by apply (Hpost i rs Hi).
  - intros Hall. assert (n_threads s' = between ((λ bd, (bd, 0%nat)) <$> ((λ x, bound_after x.1 x.2) <$> cl))) as Hths.
    { apply list_eq_same_length with (n := length cl); [unfold between; by rewrite !length_fmap|done|].
      intros i t1 t2 Hi Ht1 Ht2. destruct (Hall i Hi) as [rs Hrs]. destruct (lookup_lt_is_Some_2 cl i Hi) as [x Hx].
      destruct (Hpost i rs Hrs x Hx) as (_ & _ & Ht). unfold between in Ht2. rewrite !list_lookup_fmap, Hx in Ht2.
      by simplify_eq/=. }
    destruct s' as [ch' ids' ths' a']. simpl in *. subst ths'. exists (length (concat ch')).
    pose proof (nr_inv _ _ _ _ _ _ _ _ _ _ _ _ _ Hr') as HI.
    pose proof (ni_nodes _ _ _ _ _ _ _ HI). pose proof (ni_added _ _ _ _ _ _ _ HI). simpl in *. split; [lia|].
    exists ch', ids'. split; [done|]. eapply nrep_budget; [exact Hr'|done| |lia].
    clear. induction cl as [|x cl IH]; [done|exact IH].
Qed.
End table.

(** The table holds object 5, named x, and a free node; two clients add objects of the
    same name at the same time, and the second one takes the free node. *)
Definition demo_named (id : Z) (nm : list Z) : prs_task :=
  PrsTask id nm None None 0 0 0 0 None 0 None None None.

Definition demo_names : gmap Z (loc * list Z) :=
  list_to_map [(5, (20%positive, [120; 0])); (7, (21%positive, [97; 0])); (9, (22%positive, [97; 0]))].

Definition demo_owner (id : Z) : option nat := if id =? 7 then Some 0%nat else if id =? 9 then Some 1%nat else None.

Definition demo_name_kern : kern :=
  with_heap (Heap {[1; 2; 10; 11; 20; 21; 22]}%positive [Some 30%positive; Some 31%positive])
    (with_names {[ 1%positive := PrsName 1 offsetof_task_name (Some 2%positive) [Some 10%positive] ]}
    (with_name_nodes (list_to_map [(10%positive, PrsNameListNode (Some 11%positive) 5);
      (11%positive, PrsNameListNode None 0)])
    (with_tasks (list_to_map [(20%positive, demo_named 5 [120; 0]); (21%positive, demo_named 7 [97; 0]);
      (22%positive, demo_named 9 [97; 0])])
    (with_objs (list_to_map [(5, (1%nat, (20%positive, s_prs_task_object_ops)));
      (7, (1%nat, (21%positive, s_prs_task_object_ops))); (9, (1%nat, (22%positive, s_prs_task_object_ops)))])
    kern_empty)))).

Definition demo_clients : list (gset Z * list name_op) :=
  [(∅, [NAlloc 7; NFind [97; 0]; NFree 7]); (∅, [NAlloc 9; NFindAndLock [120; 0]])].

Definition demo_name_threads : list (prog kern (list (prs_result + Z))) :=
  let _ : ObjectFree := λ _ _, mret tt in (λ x, name_client 7 1%positive x.2) <$> demo_clients.

Definition demo_name_schedule (a b d : nat) : list (nat * bool) :=
  concat (replicate a [(0%nat, false); (1%nat, false)]) ++ replicate b (1%nat, false) ++ replicate d (0%nat, false).

Abbreviation demo_settled_names :=
  (settled 1 1 offsetof_task_name (Some 2%positive) demo_names demo_owner (λ _, 1%nat) {[ 5 ]} {[1; 2; 20; 21; 22]}%positive).

Lemma demo_names_lookup id o : demo_names !! id = Some o →
  (id, o) = (5, (20%positive, [120; 0])) ∨ (id, o) = (7, (21%positive, [97; 0])) ∨ (id, o) = (9, (22%positive, [97; 0])).
Proof.
  unfold demo_names. cbn [list_to_map foldr fst snd uncurry].
  rewrite !lookup_insert_Some, lookup_empty. naive_solver.
Qed.

Lemma demo_names_settled : demo_settled_names demo_name_kern 2 (demo_clients.*1).
Proof.
  exists [[10; 11]%positive], (list_to_map [(10%positive, 5); (11%positive, 0)]). split; [reflexivity|].
  assert (∀ b chain (k : nat) (l : loc), [[10; 11]%positive] !! b = Some chain → chain !! k = Some l →
    b = 0%nat ∧ chain = [10; 11]%positive ∧ (k = 0%nat ∧ l = 10%positive ∨ k = 1%nat ∧ l = 11%positive)) as Hnodes.
  { intros [|[|b]] chain k l Hb Hk; [|discriminate Hb..]. injection Hb as <-.
    destruct k as [|[|k]]; [|..|discriminate Hk]; injection Hk as <-; auto. }
  assert (∀ (l : loc) id, (list_to_map [(10%positive, 5); (11%positive, 0)] : gmap loc Z) !! l = Some id →
    l = 10%positive ∧ id = 5 ∨ l = 11%positive ∧ id = 0) as Hids.
  { intros l id. cbn [list_to_map foldr fst snd uncurry]. rewrite !lookup_insert_Some, lookup_empty. naive_solver. }
  split; simpl.
  - exists [Some 10%positive]. split; [reflexivity|]. split; [reflexivity|].
    intros [|[|b]] chain Hb; [|discriminate Hb..]. by injection Hb as <-.
  - intros b chain k l Hb Hk. destruct (Hnodes b chain k l Hb Hk) as (-> & -> & [[-> ->]|[-> ->]]); eexists; split; reflexivity.
  - by intros [|[|i]] tl l id Hi Hl; [injection Hi as <-..|].
  - intros id obj a [[= -> -> ->]|[[= -> -> ->]|[= -> -> ->]]]%demo_names_lookup; eexists; split; reflexivity.
  - split.
    + apply (bool_decide_unpack _). vm_compute. exact I.
    + intros l Hl. apply (bool_decide_unpack (l ∉ _)). simpl in Hl.
      apply elem_of_cons in Hl as [[= ->]|[[= ->]|[]%elem_of_nil]%elem_of_cons]; vm_compute; exact I.
  - apply (bool_decide_unpack _). vm_compute. exact I.
  - intros l Hl [->|[->|[]%elem_of_nil]%elem_of_cons]%elem_of_cons; revert Hl; apply (bool_decide_unpack (_ ∉ _)); vm_compute; exact I.
  - split; simpl.
    + reflexivity.
    + apply (bool_decide_unpack _). vm_compute. exact I.
    + intros l. split.
      * intros [id Hl]. destruct (Hids l id Hl) as [[-> _]|[-> _]]; set_solver.
      * intros [->|[->|[]%elem_of_nil]%elem_of_cons]%elem_of_cons; eexists; reflexivity.
    + intros b chain k l id Hb Hk Hl Hid. destruct (Hnodes b chain k l Hb Hk) as (-> & _ & _).
      destruct (Hids l id Hl) as [[_ ->]|[_ ->]]; [|done]. eexists. split; [reflexivity|]. vm_compute. reflexivity.
    + intros l l' id Hne Hl Hl'. destruct (Hids l id Hl) as [[-> ->]|[_ ->]]; [|done].
      by destruct (Hids l' 5 Hl') as [[-> _]|[_ ?]].
    + intros [|[|i]] tl id Hi Hid; [injection Hi as <-..|done]; by apply elem_of_empty in Hid.
    + intros l id i Hl Hne Ho. by destruct (Hids l id Hl) as [[_ ->]|[_ ->]].
    + intros id ->%elem_of_singleton. by exists 10%positive.
    + reflexivity.
    + simpl. lia.
Qed.

Lemma demo_kept id : id ∈ ({[ 5 ]} : gset Z) → id ≠ 0 ∧ demo_owner id = None.
Proof. by intros ->%elem_of_singleton. Qed.

Lemma demo_terminated id obj a : demo_names !! id = Some (obj, a) → terminated a.
Proof. intros [[= -> -> ->]|[[= -> -> ->]|[= -> -> ->]]]%demo_names_lookup; right; left. Qed.

Lemma demo_base id (obj : loc) (a : list Z) : demo_names !! id = Some (obj, a) → (0 < 1)%nat.
Proof. lia. Qed.

Lemma demo_legal :
  legal demo_names demo_owner 0 ∅ [NAlloc 7; NFind [97; 0]; NFree 7] ∧
  legal demo_names demo_owner 1 ∅ [NAlloc 9; NFindAndLock [120; 0]].
Proof.
  split; simpl; split_and!; try done; try (right; left); try (by eexists); try (by apply not_elem_of_empty).
Qed.

Lemma name_table_correct_witness :
  match pool_run (demo_name_schedule 11 20 30) (demo_name_kern, demo_name_threads) with
  | Some (c, ps) =>
      ps !! 0%nat = Some (Done [inl PRS_OK; inr 7; inl PRS_OK]) ∧
      answers demo_names {[ 5 ]} ∅ [NAlloc 9; NFindAndLock [120; 0]] [inl PRS_OK; inr 5] ∧
      ∃ N, demo_settled_names c N [∅ ∪ ∅; {[ 9 ]} ∪ ∅]
  | None => False
  end.
Proof.
  assert ((λ s, (s.2 !! 0%nat, s.2 !! 1%nat)) <$> pool_run (demo_name_schedule 11 20 30) (demo_name_kern, demo_name_threads) =
    Some (Some (Done [inl PRS_OK; inr 7; inl PRS_OK]), Some (Done [inl PRS_OK; inr 5]))) as Hdone by (vm_compute; reflexivity).
  destruct (pool_run (demo_name_schedule 11 20 30) _) as [[c ps]|] eqn:Hrun; [|discriminate Hdone].
  injection Hdone as H0 H1. simpl in H0, H1.
  destruct (name_table_correct (H := λ _ _, mret tt) 1 1 offsetof_task_name (Some 2%positive) demo_names demo_owner
    (λ _, 1%nat) {[ 5 ]} {[1; 2; 20; 21; 22]}%positive eq_refl eq_refl demo_kept demo_terminated demo_base
    demo_name_kern 2 demo_clients 7 c ps demo_names_settled) as (_ & Hans & Hend).
  - intros [|[|i]] x Hx; [injection Hx as <-..|done]; apply demo_legal.
  - simpl. lia.
  - exact (pool_run_rtc _ _ _ Hrun).
  - split; [exact H0|]. split; [exact (Hans 1%nat _ _ eq_refl H1)|].
    destruct Hend as (N & _ & HN); [|by exists N].
    intros [|[|i]] Hi; [by eexists..|simpl in Hi; lia].
Defined.
