(* ===== verification/Mpmcq.v ===== *)
(** * Queues with many producers and consumers (prs/lib/ds/mpmcq.c)

    A linked list of nodes that are registered in a pointer directory, so that the
    threads that look at a node hold a reference on it.  The directory is used at the
    level of its contract (Pd.v): allocating, locking and unlocking an ID are one action
    each.  The last node that was taken stays on the list, marked as consumed.

    A thread alone sees a first-in first-out queue, whatever allocations fail; destroying
    a queue leaves the last node behind; and there is an interleaving in which an element
    is lost. *)

From S2P Require Import Prelude Heap Atomic Pd.

(** ** The memory *)

(** [struct prs_mpmcq_node] *)
Record prs_mpmcq_node : Type := PrsMpmcqNode {
  mn_next : Z;
  mn_consumed : bool;
  mn_id : Z;
  mn_data : ptr
}.

(** [struct prs_mpmcq], the directory and the heap: [m_dir] has the reference count and
    the pointer of each live ID, [m_ids] the next answers of the directory, which others
    may use too. *)
Record mpmcq : Type := Mpmcq {
  m_head : Z;
  m_tail : Z;
  m_nodes : gmap loc prs_mpmcq_node;
  m_dir : gmap Z (nat * loc);
  m_ids : list (option Z);
  m_heap : heap
}.

Definition with_mhead (v : Z) (c : mpmcq) : mpmcq := Mpmcq v (m_tail c) (m_nodes c) (m_dir c) (m_ids c) (m_heap c).
Definition with_mtail (v : Z) (c : mpmcq) : mpmcq := Mpmcq (m_head c) v (m_nodes c) (m_dir c) (m_ids c) (m_heap c).
Definition with_mnodes (v : gmap loc prs_mpmcq_node) (c : mpmcq) : mpmcq :=
  Mpmcq (m_head c) (m_tail c) v (m_dir c) (m_ids c) (m_heap c).
Definition with_mdir (v : gmap Z (nat * loc)) (c : mpmcq) : mpmcq :=
  Mpmcq (m_head c) (m_tail c) (m_nodes c) v (m_ids c) (m_heap c).
Definition with_mids (v : list (option Z)) (c : mpmcq) : mpmcq :=
  Mpmcq (m_head c) (m_tail c) (m_nodes c) (m_dir c) v (m_heap c).
Definition with_mheap (v : heap) (c : mpmcq) : mpmcq :=
  Mpmcq (m_head c) (m_tail c) (m_nodes c) (m_dir c) (m_ids c) v.

Definition mpmcq_head : cell mpmcq Z := Cell (λ c, Ret (m_head c)) (λ v c, Ret (with_mhead v c)).
Definition mpmcq_tail : cell mpmcq Z := Cell (λ c, Ret (m_tail c)) (λ v c, Ret (with_mtail v c)).

(** A field of the node at [x]. *)
Definition mnode_cell {V : Type} (get : prs_mpmcq_node → V) (set_ : V → prs_mpmcq_node → prs_mpmcq_node) (x : loc) :
    cell mpmcq V :=
  Cell (λ c, n ← deref (m_nodes c !! x); Ret (get n))
       (λ v c, n ← deref (m_nodes c !! x); Ret (with_mnodes (<[x := set_ v n]> (m_nodes c)) c)).

Definition set_mn_next (v : Z) (n : prs_mpmcq_node) : prs_mpmcq_node :=
  PrsMpmcqNode v (mn_consumed n) (mn_id n) (mn_data n).
Definition set_mn_consumed (v : bool) (n : prs_mpmcq_node) : prs_mpmcq_node :=
  PrsMpmcqNode (mn_next n) v (mn_id n) (mn_data n).
Definition set_mn_data (v : ptr) (n : prs_mpmcq_node) : prs_mpmcq_node :=
  PrsMpmcqNode (mn_next n) (mn_consumed n) (mn_id n) v.

Definition mnode_next : loc → cell mpmcq Z := mnode_cell mn_next set_mn_next.
Definition mnode_consumed : loc → cell mpmcq bool := mnode_cell mn_consumed set_mn_consumed.
Definition mnode_data : loc → cell mpmcq ptr := mnode_cell mn_data set_mn_data.

Definition alloc_mnode : prog mpmcq ptr :=
  act (λ c,
    let (p, h) := prs_pal_malloc_zero (m_heap c) in
    match p with
    | None => Ret (None, with_mheap h c)
    | Some l => Ret (Some l, with_mnodes (<[l := PrsMpmcqNode 0 false 0 None]> (m_nodes c)) (with_mheap h c))
    end).

Definition free_mnode (p : loc) : prog mpmcq unit :=
  act (λ c,
    _ ← deref (m_nodes c !! p);
    h ← prs_pal_free (Some p) (m_heap c);
    Ret (tt, with_mnodes (delete p (m_nodes c)) (with_mheap h c))).

(** *** The pointer directory *)

Definition mpd_alloc_and_lock (p : loc) : prog mpmcq (prs_result * Z) :=
  act (λ c,
    match m_ids c with
    | Some i :: ids => Ret ((PRS_OK, i), with_mids ids (with_mdir (<[i := (1%nat, p)]> (m_dir c)) c))
    | ids => Ret ((PRS_OUT_OF_MEMORY, PRS_PD_ID_INVALID), with_mids (tail ids) c)
    end).

Definition mpd_lock (id : Z) : prog mpmcq ptr :=
  act (λ c,
    match m_dir c !! id with
    | None => Ret (None, c)
    | Some (n, p) => Ret (Some p, with_mdir (<[id := (S n, p)]> (m_dir c)) c)
    end).

(** Whether this was the last reference; an ID that is not live is left alone. *)
Definition mpd_unlock (id : Z) : prog mpmcq bool :=
  act (λ c,
    match m_dir c !! id with
    | None => Ret (false, c)
    | Some (S (S n), p) => Ret (false, with_mdir (<[id := (S n, p)]> (m_dir c)) c)
    | Some (_, p) => Ret (true, with_mdir (delete id (m_dir c)) c)
    end).

(** ** Functions *)

(** [struct prs_mpmcq_locked_node] *)
Record prs_mpmcq_locked_node : Type := LockedNode { ln_node : ptr; ln_id : Z }.

(** The ID has no value when there is no node. *)
Definition prs_mpmcq_alloc_node (data : ptr) : prog mpmcq prs_mpmcq_locked_node :=
  node ← alloc_mnode;
  match node with
  | None => mret (LockedNode None 0)
  | Some node =>
      '(result, id) ← mpd_alloc_and_lock node;
      if decide (result ≠ PRS_OK) then
        _ ← free_mnode node;
        mret (LockedNode None id)
      else
        _ ← write (mnode_data node) data;
        _ ← prs_pal_atomic_store (mnode_consumed node) false;
        _ ← prs_pal_atomic_store (mnode_next node) PRS_PD_ID_INVALID;
        mret (LockedNode (Some node) id)
  end.

Definition prs_mpmcq_lock (p : cell mpmcq Z) : prog mpmcq prs_mpmcq_locked_node :=
  id ← prs_pal_atomic_load p;
  node ← (if id =? PRS_PD_ID_INVALID then mret None else mpd_lock id);
  mret (LockedNode node id).

(** [prs_pal_free] does nothing with a null pointer. *)
Definition prs_mpmcq_unlock (locked_node : prs_mpmcq_locked_node) : prog mpmcq unit :=
  must_free ← mpd_unlock (ln_id locked_node);
  if (must_free : bool) then
    match ln_node locked_node with Some node => free_mnode node | None => mret tt end
  else mret tt.

(** [struct prs_mpmcq_create_params] *)
Record prs_mpmcq_create_params : Type := PrsMpmcqCreateParams {
  mcp_area : ptr;
  mcp_pd : ptr;
  mcp_pd_params : option prs_pd_create_params
}.

(** The block of the queue, its directory, and [owns_pd].  The block is zeroed when it is
    allocated here; in an area of the caller [owns_pd] has the value [area_owns_pd] that
    was there. *)
Definition prs_mpmcq_create (params : prs_mpmcq_create_params) (area_owns_pd : bool)
    (pd_area_entries : list prs_pd_entry) (h : heap) : outcome (option (loc * ptr * bool) * heap) :=
  let (mpmcq, h) := match mcp_area params with Some area => (Some area, h) | None => prs_pal_malloc_zero h end in
  let owns_pd := match mcp_area params with Some _ => area_owns_pd | None => false end in
  match mpmcq with
  | None => Ret (None, h)
  | Some self =>
      match mcp_pd params with
      | Some pd => Ret (Some (self, Some pd, owns_pd), h)
      | None =>
          '(pd, h) ← prs_pd_create (default (PdParams 4096 None) (mcp_pd_params params)) pd_area_entries h;
          match pd with
          | None => h ← prs_pal_free (Some self) h; Ret (None, h)
          | Some (_, pd, _) => Ret (Some (self, pd, true), h)
          end
      end
  end.

(** What [prs_mpmcq_create] leaves in the queue. *)
Definition mpmcq_empty (ids : list (option Z)) (h : heap) : mpmcq :=
  Mpmcq PRS_PD_ID_INVALID PRS_PD_ID_INVALID ∅ ∅ ids h.

(** The loop of [prs_mpmcq_push]; [new_node] is the ID of the new node. *)
Fixpoint mpmcq_push_loop (fuel : nat) (new_node : Z) (tail : prs_mpmcq_locked_node) : prog mpmcq unit :=
  match fuel with
  | O => Spin
  | S fuel =>
      match ln_node tail with
      | Some tail_node =>
          next ← prs_mpmcq_lock (mnode_next tail_node);
          match ln_node next with
          | Some _ =>
              _ ← prs_pal_atomic_compare_exchange_strong mpmcq_tail (ln_id tail) (ln_id next);
              _ ← prs_mpmcq_unlock tail;
              mpmcq_push_loop fuel new_node next
          | None =>
              '(tail_next_set, _) ←
                prs_pal_atomic_compare_exchange_strong (mnode_next tail_node) (ln_id next) new_node;
              if negb tail_next_set then
                _ ← prs_mpmcq_unlock tail;
                tail ← prs_mpmcq_lock mpmcq_tail;
                mpmcq_push_loop fuel new_node tail
              else
                _ ← prs_mpmcq_unlock tail;
                _ ← prs_pal_atomic_compare_exchange_strong mpmcq_tail (ln_id tail) new_node;
                mret tt
          end
      | None =>
          '(tail_set, _) ← prs_pal_atomic_compare_exchange_strong mpmcq_tail (ln_id tail) new_node;
          if (tail_set : bool) then prs_pal_atomic_store mpmcq_head new_node
          else
            tail ← prs_mpmcq_lock mpmcq_tail;
            mpmcq_push_loop fuel new_node tail
      end
  end.

Definition prs_mpmcq_push (fuel : nat) (data : ptr) : prog mpmcq prs_result :=
  new_node ← prs_mpmcq_alloc_node data;
  match ln_node new_node with
  | None => mret PRS_OUT_OF_MEMORY
  | Some _ =>
      tail ← prs_mpmcq_lock mpmcq_tail;
      _ ← mpmcq_push_loop fuel (ln_id new_node) tail;
      mret PRS_OK
  end.

(** The loop of [prs_mpmcq_pop]: the result, and what was written to [*data_ptr]. *)
Fixpoint mpmcq_pop_loop (fuel : nat) (test_node : prs_mpmcq_locked_node) : prog mpmcq (prs_result * option ptr) :=
  match fuel with
  | O => Spin
  | S fuel =>
      match ln_node test_node with
      | Some node =>
          already_consumed ← prs_pal_atomic_exchange (mnode_consumed node) true;
          data ← (if (already_consumed : bool) then mret None
                  else data ← read (mnode_data node); mret (Some data));
          next ← prs_mpmcq_lock (mnode_next node);
          let last :=
            _ ← prs_mpmcq_unlock test_node;
            mret (if already_consumed : bool then (PRS_EMPTY, None) else (PRS_OK, data)) in
          match ln_node next with
          | Some _ =>
              '(success, _) ← prs_pal_atomic_compare_exchange_strong mpmcq_head (ln_id test_node) (ln_id next);
              _ ← (if success : bool then prs_mpmcq_unlock test_node else mret tt);
              if already_consumed : bool then
                _ ← prs_mpmcq_unlock test_node;
                mpmcq_pop_loop fuel next
              else
                _ ← prs_mpmcq_unlock next;
                last
          | None => last
          end
      | None =>
          let prev_head_id := ln_id test_node in
          test_node ← prs_mpmcq_lock mpmcq_head;
          if negb (ln_id test_node =? prev_head_id) then mpmcq_pop_loop fuel test_node
          else mret (PRS_UNKNOWN, None)
      end
  end.

Definition prs_mpmcq_pop (fuel : nat) : prog mpmcq (prs_result * option ptr) :=
  test_node ← prs_mpmcq_lock mpmcq_head;
  mpmcq_pop_loop fuel test_node.

(** The pops of [prs_mpmcq_destroy]. *)
Fixpoint mpmcq_drain (fuel : nat) : prog mpmcq unit :=
  match fuel with
  | O => Spin
  | S fuel =>
      '(result, _) ← prs_mpmcq_pop fuel;
      if decide (result = PRS_OK) then mpmcq_drain fuel else mret tt
  end.

(** [owns_pd], and the blocks of the directory and of the queue.  The directory is freed
    with [prs_pal_free]. *)
Definition prs_mpmcq_destroy (fuel : nat) (owns_pd : bool) (pd : ptr) (self : loc) : prog mpmcq unit :=
  _ ← mpmcq_drain fuel;
  _ ← (if owns_pd then act (λ c, h ← prs_pal_free pd (m_heap c); Ret (tt, with_mheap h c)) else mret tt);
  act (λ c, h ← prs_pal_free (Some self) (m_heap c); Ret (tt, with_mheap h c)).

(** ** An element that is lost *)

(** A client runs a list of operations. *)
Inductive mpmcq_op : Type := MPush (data : ptr) | MPop.

Definition mpmcq_op_prog (fuel : nat) (op : mpmcq_op) : prog mpmcq (prs_result * option ptr) :=
  match op with
  | MPush data => r ← prs_mpmcq_push fuel data; mret (r, None)
  | MPop => prs_mpmcq_pop fuel
  end.

Fixpoint mpmcq_client (fuel : nat) (ops : list mpmcq_op) : prog mpmcq (list (prs_result * option ptr)) :=
  match ops with
  | [] => mret []
  | op :: ops => r ← mpmcq_op_prog fuel op; rs ← mpmcq_client fuel ops; mret (r :: rs)
  end.

(** Elements 101, 102 and 103. *)
Definition lost_threads : list (prog mpmcq (list (prs_result * option ptr))) :=
  mpmcq_client 5 <$>
    [[MPush (Some 101%positive); MPush (Some 102%positive)]; [MPush (Some 103%positive)]; [MPop; MPop; MPop]].

Definition lost_memory : mpmcq :=
  mpmcq_empty [Some 1; Some 2; Some 3] (Heap ∅ [Some 11%positive; Some 12%positive; Some 13%positive]).
Definition lost_schedule (a b d : nat) : list (nat * bool) :=
  replicate 18 (0%nat, false) ++ replicate a (2%nat, false) ++ replicate b (1%nat, false) ++ [(0%nat, false)] ++ replicate d (2%nat, false).

(** ** A thread alone *)

Abbreviation INVALID := PRS_PD_ID_INVALID.

(** The queue when no function runs: the nodes from the head on, with their IDs and
    elements; [dummy] when the first one is consumed.  [other] are the blocks of the heap
    that are not nodes. *)
Record mpmcq_ok (other : gset loc) (c : mpmcq) (dummy : bool) (ns : list (Z * (loc * ptr))) : Prop := MpmcqOk {
  mo_head : m_head c = default INVALID (ns.*1 !! 0%nat);
  mo_tail : m_tail c = default INVALID (last ns.*1);
  mo_node k id l d : ns !! k = Some (id, (l, d)) → id ≠ INVALID ∧ m_dir c !! id = Some (1%nat, l) ∧
    ∃ nid, m_nodes c !! l = Some (PrsMpmcqNode (default INVALID (ns.*1 !! S k)) (dummy && (k =? 0)%nat) nid d);
  mo_ids : NoDup ns.*1;
  mo_locs : NoDup ns.*2.*1;
  mo_next_nodup : NoDup (omap (λ i : option Z, i) (m_ids c));
  mo_next id : Some id ∈ m_ids c → id ≠ INVALID ∧ m_dir c !! id = None;
  mo_heap : heap_ok (m_heap c);
  mo_live : heap_live (m_heap c) = other ∪ list_to_set ns.*2.*1;
  mo_other l : l ∈ ns.*2.*1 → l ∉ other;
  mo_dummy : ns = [] → dummy = false
}.

(** The elements. *)
Definition mpmcq_elements (dummy : bool) (ns : list (Z * (loc * ptr))) : list ptr :=
  (if dummy then tail ns else ns).*2.*2.

Lemma mpmcq_elements_snoc dummy ns id l d :
  (ns = [] → dummy = false) → mpmcq_elements dummy (ns ++ [(id, (l, d))]) = mpmcq_elements dummy ns ++ [d].
Proof.
  intros Hd. unfold mpmcq_elements. destruct dummy; [|by rewrite !fmap_app].
  destruct ns as [|x ns]; [by specialize (Hd eq_refl)|]. simpl. by rewrite !fmap_app.
Qed.

Lemma run_mlock p c id n l : cell_get p c = Ret id → id ≠ INVALID → m_dir c !! id = Some (n, l) →
  run (prs_mpmcq_lock p) c = Ret (Some (LockedNode (Some l) id), with_mdir (<[id := (S n, l)]> (m_dir c)) c).
Proof.
  intros Hp Hid Hd. unfold prs_mpmcq_lock. eapply run_seq; [by apply run_load|].
  rewrite (proj2 (Z.eqb_neq id INVALID) Hid). eapply run_seq; [cbn; by rewrite Hd|done].
Qed.

Lemma run_mlock_none p c : cell_get p c = Ret INVALID →
  run (prs_mpmcq_lock p) c = Ret (Some (LockedNode None INVALID), c).
Proof. intros Hp. unfold prs_mpmcq_lock. eapply run_seq; [by apply run_load|]. by rewrite Z.eqb_refl. Qed.

Lemma run_munlock p c id n l : m_dir c !! id = Some (S (S n), l) →
  run (prs_mpmcq_unlock (LockedNode p id)) c = Ret (Some tt, with_mdir (<[id := (S n, l)]> (m_dir c)) c).
Proof. intros Hd. unfold prs_mpmcq_unlock. eapply run_seq; [cbn; by rewrite Hd|done]. Qed.

Lemma run_exchange {V : Type} (p : cell mpmcq V) v c v0 c' :
  cell_get p c = Ret v0 → cell_set p v c = Ret c' → run (prs_pal_atomic_exchange p v) c = Ret (Some v0, c').
Proof. intros Hg Hs. cbn. rewrite Hg. ocbn. by rewrite Hs. Qed.

Definition without_node (l : loc) (c : mpmcq) : mpmcq :=
  with_mnodes (delete l (m_nodes c)) (with_mheap (Heap (heap_live (m_heap c) ∖ {[ l ]}) (heap_answers (m_heap c))) c).

Lemma run_munlock_last c id l n : m_dir c !! id = Some (1%nat, l) → m_nodes c !! l = Some n → l ∈ heap_live (m_heap c) →
  run (prs_mpmcq_unlock (LockedNode (Some l) id)) c =
    Ret (Some tt, without_node l (with_mdir (delete id (m_dir c)) c)).
Proof.
  intros Hd Hn Hl. unfold prs_mpmcq_unlock. eapply run_seq; [cbn; by rewrite Hd|].
  cbn. rewrite Hn. unfold prs_pal_free, free. by rewrite decide_True by done.
Qed.

Lemma mnode_get {V : Type} (get : prs_mpmcq_node → V) set_ l c n :
  m_nodes c !! l = Some n → cell_get (mnode_cell get set_ l) c = Ret (get n).
Proof. intros Hn. cbn. by rewrite Hn. Qed.

Lemma mnode_set {V : Type} (get : prs_mpmcq_node → V) set_ l c n v :
  m_nodes c !! l = Some n → cell_set (mnode_cell get set_ l) v c = Ret (with_mnodes (<[l := set_ v n]> (m_nodes c)) c).
Proof. intros Hn. cbn. by rewrite Hn. Qed.

Lemma mnode_next_get p c n x : m_nodes c !! p = Some n → mn_next n = x → cell_get (mnode_next p) c = Ret x.
Proof. intros Hn <-. cbn. by rewrite Hn. Qed.

Lemma remove_first (X : gset loc) (l : loc) (ls : list loc) :
  l ∉ X → l ∉ ls → (X ∪ list_to_set (l :: ls)) ∖ {[ l ]} = X ∪ list_to_set ls.
Proof. simpl. set_solver. Qed.

Section alone.
Context (other : gset loc).
Implicit Types (c : mpmcq) (ns : list (Z * (loc * ptr))).

Lemma in_nodes ns k id l d : ns !! k = Some (id, (l, d)) → id ∈ ns.*1 ∧ l ∈ ns.*2.*1.
Proof.
  intros Hk. split; apply (list_elem_of_lookup_2 _ k); by rewrite !list_lookup_fmap, Hk.
Qed.

(** The first node has been taken off. *)
Lemma mpmcq_ok_tail c c' dummy id l d y ns :
  mpmcq_ok other c dummy ((id, (l, d)) :: y :: ns) →
  m_head c' = y.1 → m_tail c' = m_tail c → m_ids c' = m_ids c →
  m_heap c' = Heap (heap_live (m_heap c) ∖ {[ l ]}) (heap_answers (m_heap c)) →
  (∀ i, i ≠ id → m_dir c' !! i = m_dir c !! i) → (∀ p, p ≠ l → m_nodes c' !! p = m_nodes c !! p) →
  mpmcq_ok other c' false (y :: ns).
Proof using Type.
  intros [H1 H2 H3 H4 H5 H6 H7 H8 H9 H10 H11] Hh Ht Hi Hp Hd Hn.
  apply NoDup_cons in H4 as [Hid H4]. apply NoDup_cons in H5 as [Hl H5]. split; try done.
  - by rewrite Ht, H2.
  - intros k i p x Hk. destruct (H3 (S k) i p x Hk) as (Hi0 & Hdir & nid & Hnode). split; [done|].
    rewrite Hd, Hn; [|intros ->|intros ->].
    + split; [done|]. exists nid. by rewrite andb_false_r in Hnode.
    + apply Hl. exact (proj2 (in_nodes _ _ _ _ _ Hk)).
    + apply Hid. exact (proj1 (in_nodes _ _ _ _ _ Hk)).
  - by rewrite Hi.
  - intros i Hin. rewrite Hi in Hin. destruct (H7 i Hin) as [? Hdir]. split; [done|].
    destruct (decide (i = id)) as [->|]; [|by rewrite Hd]. destruct (H3 0%nat id l d eq_refl) as (_ & Hd0 & _). congruence.
  - rewrite Hp. by apply heap_ok_free.
  - rewrite Hp. cbn [heap_live]. rewrite H9. apply remove_first; [apply H10; by left|done].
  - intros p Hin. apply H10. by right.
Qed.

(** The first node has been marked, or nothing has changed. *)
Lemma mpmcq_ok_mark c c' dummy id l d ns n :
  mpmcq_ok other c dummy [(id, (l, d))] →
  m_head c' = m_head c → m_tail c' = m_tail c → m_ids c' = m_ids c → m_heap c' = m_heap c →
  m_dir c' !! id = Some (1%nat, l) → (∀ i, i ≠ id → m_dir c' !! i = m_dir c !! i) →
  m_nodes c !! l = Some n → m_nodes c' = <[l := set_mn_consumed true n]> (m_nodes c) → ns = [(id, (l, d))] →
  mpmcq_ok other c' true ns.
Proof using Type.
  intros [H1 H2 H3 H4 H5 H6 H7 H8 H9 H10 H11] Hh Ht Hi Hp Hd Hd' Hn Hn' ->. split; try done.
  - by rewrite Hh, H1.
  - by rewrite Ht, H2.
  - intros [|k] i p x Hk; [|done]. simplify_eq/=. destruct (H3 0%nat _ _ _ eq_refl) as (Hi0 & _ & nid & Hnode).
    split; [done|]. split; [done|]. exists nid. rewrite Hn', lookup_insert_eq. by simplify_eq/=.
  - by rewrite Hi.
  - intros i Hin. rewrite Hi in Hin. destruct (H7 i Hin) as [? Hdir]. split; [done|].
    destruct (decide (i = id)) as [->|]; [|by rewrite Hd']. destruct (H3 0%nat id l d eq_refl) as (_ & Hd0 & _). congruence.
  - by rewrite Hp.
  - by rewrite Hp.
Qed.

(** The head, locked. *)
Definition head_locked (id : Z) (l : loc) (c : mpmcq) : mpmcq := with_mdir (<[id := (2%nat, l)]> (m_dir c)) c.

(** The node at the head is marked; its element was not taken before if it was not marked. *)
Definition marked (l : loc) (n : prs_mpmcq_node) (c : mpmcq) : mpmcq :=
  with_mnodes (<[l := set_mn_consumed true n]> (m_nodes c)) c.

Lemma run_mark {B : Type} l n c (k : bool → option ptr → prog mpmcq B) :
  m_nodes c !! l = Some n →
  run (already_consumed ← prs_pal_atomic_exchange (mnode_consumed l) true;
       data ← (if (already_consumed : bool) then mret None else data ← read (mnode_data l); mret (Some data));
       k already_consumed data) c =
    run (k (mn_consumed n) (if mn_consumed n then None else Some (mn_data n))) (marked l n c).
Proof using Type.
  intros Hn. eapply run_seq; [eapply run_exchange; [by apply mnode_get|by apply mnode_set]|].
  destruct (mn_consumed n) eqn:En; [done|]. eapply run_seq; [|done].
  eapply run_seq; [apply run_load; apply mnode_get; cbn; apply lookup_insert_eq|done].
Qed.

Lemma head_locked_undo id l c :
  m_dir c !! id = Some (2%nat, l) → head_locked id l (with_mdir (<[id := (1%nat, l)]> (m_dir c)) c) = c.
Proof using Type.
  intros Hd. destruct c. unfold head_locked, with_mdir. cbn in *. f_equal. by rewrite insert_insert_eq, insert_id.
Qed.

Lemma pop_step_last fuel c dummy id l d :
  mpmcq_ok other c dummy [(id, (l, d))] → ∃ c',
    run (mpmcq_pop_loop (S fuel) (LockedNode (Some l) id)) (head_locked id l c) =
      Ret (Some (if dummy then (PRS_EMPTY, None) else (PRS_OK, Some d)), c') ∧
    mpmcq_ok other c' true [(id, (l, d))] ∧ m_ids c' = m_ids c ∧ heap_answers (m_heap c') = heap_answers (m_heap c).
Proof using Type.
  intros Hok. destruct (mo_node _ _ _ _ Hok 0%nat id l d eq_refl) as (Hid & Hdir & nid & Hnode).
  rewrite andb_true_r in Hnode.
  eexists. split; [|split; [eapply (mpmcq_ok_mark c); [exact Hok|..]|]].
  1: { cbn [mpmcq_pop_loop ln_node]. etransitivity; [refine (run_mark l _ (head_locked id l c) _ Hnode)|]. cbv beta.
    eapply run_seq; [apply run_mlock_none; eapply mnode_next_get; [apply lookup_insert_eq|done]|].
    cbn [ln_node]. eapply run_seq; [apply (run_munlock _ _ id 0 l); cbn; apply lookup_insert_eq|].
    destruct dummy; cbn; reflexivity. }
  all: cbn; try done.
  - apply lookup_insert_eq.
  - intros i Hi. by rewrite !lookup_insert_ne by done.
Qed.

Lemma pop_step_next fuel c dummy id l d id2 l2 d2 ns :
  mpmcq_ok other c dummy ((id, (l, d)) :: (id2, (l2, d2)) :: ns) → ∃ c',
    run (mpmcq_pop_loop (S fuel) (LockedNode (Some l) id)) (head_locked id l c) =
      (if dummy then run (mpmcq_pop_loop fuel (LockedNode (Some l2) id2)) (head_locked id2 l2 c')
       else Ret (Some (PRS_OK, Some d), c')) ∧
    mpmcq_ok other c' false ((id2, (l2, d2)) :: ns) ∧ m_ids c' = m_ids c ∧
    heap_answers (m_heap c') = heap_answers (m_heap c).
Proof using Type.
  intros Hok. destruct (mo_node _ _ _ _ Hok 0%nat id l d eq_refl) as (Hid & Hdir & nid & Hnode).
  destruct (mo_node _ _ _ _ Hok 1%nat id2 l2 d2 eq_refl) as (Hid2 & Hdir2 & nid2 & Hnode2).
  rewrite andb_true_r in Hnode.
  assert (id ≠ id2) as Hne. { intros ->. pose proof (mo_ids _ _ _ _ Hok) as Hnd. apply NoDup_cons in Hnd as [Hnd _]. apply Hnd. by left. }
  assert (l ∈ heap_live (m_heap c)) as Hlive. { rewrite (mo_live _ _ _ _ Hok). apply elem_of_union_r. cbn. set_solver. }
  set (c1 := marked l (PrsMpmcqNode id2 dummy nid d) (head_locked id l c)).
  set (c2 := with_mhead id2 (with_mdir (<[id2 := (2%nat, l2)]> (m_dir c1)) c1)).
  set (c3 := with_mdir (<[id := (1%nat, l)]> (m_dir c2)) c2).
  assert (∀ B (k : unit → prog mpmcq B) R,
    run (k tt) (without_node l (with_mdir (delete id (m_dir c3)) c3)) = R → run (prs_mpmcq_unlock (LockedNode (Some l) id) ≫= k) c3 = R) as Hfree.
  { intros B k R. apply run_seq. eapply run_munlock_last; [apply lookup_insert_eq|cbn; apply lookup_insert_eq|exact Hlive]. }
  assert (∀ c' : mpmcq, m_head c' = id2 → m_tail c' = m_tail c → m_ids c' = m_ids c → m_heap c' = m_heap (without_node l c) →
    m_dir c' !! id2 = Some (1%nat, l2) → (∀ i, i ≠ id → i ≠ id2 → m_dir c' !! i = m_dir c !! i) →
    (∀ p, p ≠ l → m_nodes c' !! p = m_nodes c !! p) → mpmcq_ok other c' false ((id2, (l2, d2)) :: ns)) as Hfin.
  { intros c' ? ? ? ? ? Hd ?. eapply mpmcq_ok_tail; [exact Hok|done..| |done].
    intros i Hi. destruct (decide (i = id2)) as [->|]; [congruence|by apply Hd]. }
  cbn [mpmcq_pop_loop ln_node].
  assert (∀ B (k : bool → option ptr → prs_mpmcq_locked_node → prog mpmcq B) R,
    run (k dummy (if dummy then None else Some d) (LockedNode (Some l2) id2)) (with_mdir (<[id2 := (2%nat, l2)]> (m_dir c1)) c1) = R →
    run (already_consumed ← prs_pal_atomic_exchange (mnode_consumed l) true;
       data ← (if (already_consumed : bool) then mret None else data ← read (mnode_data l); mret (Some data));
       next ← prs_mpmcq_lock (mnode_next l);
       k already_consumed data next) (head_locked id l c) = R) as Hstart.
  { intros B k R Hk. etransitivity; [refine (run_mark l _ (head_locked id l c) _ Hnode)|]. cbv beta.
    eapply run_seq; [eapply (run_mlock _ _ id2); [eapply mnode_next_get; [apply lookup_insert_eq|done]|exact Hid2|cbn; by rewrite lookup_insert_ne]|].
    exact Hk. }
  destruct dummy.
  - exists (with_mdir (<[id2 := (1%nat, l2)]> (m_dir (without_node l (with_mdir (delete id (m_dir c3)) c3))))
      (without_node l (with_mdir (delete id (m_dir c3)) c3))).
    split; [|split; [apply Hfin; try done|done]].
    + refine (Hstart _ _ _ _). cbn [ln_node].
      eapply run_seq; [apply run_cas_strong; [cbn; f_equal; exact (mo_head _ _ _ _ Hok)|reflexivity]|].
      cbv beta iota.
      eapply run_seq; [apply (run_munlock _ _ id 0 l); cbn; by rewrite lookup_insert_ne, lookup_insert_eq|].
      apply (Hfree _ (λ _, _)). cbn [ln_node]. f_equal. symmetry. apply head_locked_undo.
      cbn. by rewrite lookup_delete_ne, lookup_insert_ne, lookup_insert_eq.
    + cbn. apply lookup_insert_eq.
    + intros i Hi Hi2. cbn. rewrite lookup_insert_ne, lookup_delete_ne, !lookup_insert_ne by done. done.
    + intros p Hp. cbn. by rewrite lookup_delete_ne, lookup_insert_ne by done.
  - set (c4 := with_mdir (<[id2 := (1%nat, l2)]> (m_dir c3)) c3).
    exists (without_node l (with_mdir (delete id (m_dir c4)) c4)).
    split; [|split; [apply Hfin; try done|done]].
    + refine (Hstart _ _ _ _). cbn [ln_node].
      eapply run_seq; [apply run_cas_strong; [cbn; f_equal; exact (mo_head _ _ _ _ Hok)|reflexivity]|].
      cbv beta iota.
      eapply run_seq; [apply (run_munlock _ _ id 0 l); cbn; by rewrite lookup_insert_ne, lookup_insert_eq|].
      eapply run_seq; [apply (run_munlock _ _ id2 0 l2); cbn; by rewrite lookup_insert_ne, lookup_insert_eq|].
      eapply run_seq; [eapply run_munlock_last; [cbn; by rewrite lookup_insert_ne, lookup_insert_eq|cbn; apply lookup_insert_eq|exact Hlive]|done].
    + cbn. by rewrite lookup_delete_ne, lookup_insert_eq.
    + intros i Hi Hi2. cbn. by rewrite lookup_delete_ne, !lookup_insert_ne by done.
    + intros p Hp. cbn. by rewrite lookup_delete_ne, lookup_insert_ne by done.
Qed.
(** The answer of a pop: [used] tells whether there has been an element. *)
Definition fifo_pop (used : bool) (q : list ptr) : prs_result * option ptr :=
  match q with x :: _ => (PRS_OK, Some x) | [] => (if used then PRS_EMPTY else PRS_UNKNOWN, None) end.

Lemma run_pop fuel c dummy ns : mpmcq_ok other c dummy ns → (2 ≤ fuel)%nat → ∃ c' dummy' ns',
  run (prs_mpmcq_pop fuel) c = Ret (Some (fifo_pop (negb (bool_decide (ns = []))) (mpmcq_elements dummy ns)), c') ∧
  mpmcq_ok other c' dummy' ns' ∧ mpmcq_elements dummy' ns' = tail (mpmcq_elements dummy ns) ∧
  (ns' = [] ↔ ns = []) ∧ m_ids c' = m_ids c ∧ heap_answers (m_heap c') = heap_answers (m_heap c).
Proof using Type.
  intros Hok Hfuel. destruct fuel as [|[|fuel]]; [lia..|]. unfold prs_mpmcq_pop. destruct ns as [|[id [l d]] ns].
  - exists c, dummy, []. pose proof (mo_dummy _ _ _ _ Hok eq_refl) as ->. split; [|done].
    assert (m_head c = INVALID) as Hh by apply (mo_head _ _ _ _ Hok).
    eapply run_seq; [apply run_mlock_none; cbn; by rewrite Hh|]. cbn [mpmcq_pop_loop ln_node].
    eapply run_seq; [apply run_mlock_none; cbn; by rewrite Hh|]. done.
  - destruct (mo_node _ _ _ _ Hok 0%nat id l d eq_refl) as (Hid & Hdir & _).
    assert (∀ A (k : _ → prog mpmcq A), run (prs_mpmcq_lock mpmcq_head ≫= k) c =
      run (k (LockedNode (Some l) id)) (head_locked id l c)) as Hlock.
    { intros A k. eapply run_seq; [apply (run_mlock _ _ id 1 l); [cbn; f_equal; exact (mo_head _ _ _ _ Hok)|done..]|done]. }
    rewrite Hlock. destruct ns as [|[id2 [l2 d2]] ns].
    + destruct (pop_step_last (S fuel) _ _ _ _ _ Hok) as (c' & Hrun & Hok' & Hi & Ha).
      exists c', true, [(id, (l, d))]. by destruct dummy.
    + destruct (pop_step_next (S fuel) _ _ _ _ _ _ _ _ _ Hok) as (c1 & Hrun & Hok1 & Hi & Ha). rewrite Hrun.
      destruct dummy; [|by exists c1, false, ((id2, (l2, d2)) :: ns)]. destruct ns as [|[id3 [l3 d3]] ns].
      * destruct (pop_step_last fuel _ _ _ _ _ Hok1) as (c' & Hrun' & Hok' & Hi' & Ha').
        exists c', true, [(id2, (l2, d2))]. by rewrite Hi', Ha', Hi, Ha.
      * destruct (pop_step_next fuel _ _ _ _ _ _ _ _ _ Hok1) as (c' & Hrun' & Hok' & Hi' & Ha').
        exists c', false, ((id3, (l3, d3)) :: ns). by rewrite Hi', Ha', Hi, Ha.
Qed.

(** The node that a push has made. *)
Definition with_new (id : Z) (l : loc) (d : ptr) (c : mpmcq) : mpmcq :=
  Mpmcq (m_head c) (m_tail c) (<[l := PrsMpmcqNode INVALID false 0 d]> (m_nodes c)) (<[id := (1%nat, l)]> (m_dir c))
    (tail (m_ids c)) (prs_pal_malloc_zero (m_heap c)).2.

Lemma run_alloc_node c d l id hs ids :
  heap_answers (m_heap c) = Some l :: hs → m_ids c = Some id :: ids →
  run (prs_mpmcq_alloc_node d) c = Ret (Some (LockedNode (Some l) id), with_new id l d c).
Proof using Type.
  intros Ha Hi. destruct c as [h t nodes dir ids0 [live answers]]. cbn in Ha, Hi. subst. cbn.
  rewrite decide_False by (intros H; by apply H). cbn. rewrite !lookup_insert_eq. cbn. rewrite !lookup_insert_eq. cbn. rewrite !lookup_insert_eq. cbn.
  unfold with_new. cbn. by rewrite !insert_insert_eq.
Qed.

(** The new node is not linked yet: a queue in which only the heap has changed. *)
Lemma new_fresh c dummy ns l id hs ids :
  mpmcq_ok other c dummy ns → heap_answers (m_heap c) = Some l :: hs → m_ids c = Some id :: ids →
  id ≠ INVALID ∧ id ∉ ns.*1 ∧ l ∉ ns.*2.*1 ∧ l ∉ other.
Proof using Type.
  intros Hok Ha Hi. destruct (mo_next _ _ _ _ Hok id) as [Hid Hdir]; [rewrite Hi; by left|].
  assert (l ∉ heap_live (m_heap c)) as Hl. { apply (mo_heap _ _ _ _ Hok). rewrite Ha. by left. }
  rewrite (mo_live _ _ _ _ Hok) in Hl. split; [done|]. split; [|set_solver].
  intros ([? [l' d']] & -> & (k & Hk)%list_elem_of_lookup)%list_elem_of_fmap.
  destruct (mo_node _ _ _ _ Hok k _ _ _ Hk) as (_ & Hd & _). simpl in Hdir. congruence.
Qed.
Lemma mpmcq_ok_snoc c c' dummy ns l id hs ids d :
  mpmcq_ok other c dummy ns → heap_answers (m_heap c) = Some l :: hs → m_ids c = Some id :: ids →
  m_head c' = default id (ns.*1 !! 0%nat) → m_tail c' = id → m_ids c' = ids →
  m_heap c' = (prs_pal_malloc_zero (m_heap c)).2 →
  (∀ i, m_dir c' !! i = m_dir (with_new id l d c) !! i) →
  m_nodes c' !! l = m_nodes (with_new id l d c) !! l →
  (∀ k i p x n, ns !! k = Some (i, (p, x)) → m_nodes c !! p = Some n →
     m_nodes c' !! p = Some (if (S k =? length ns)%nat then set_mn_next id n else n)) →
  mpmcq_ok other c' dummy (ns ++ [(id, (l, d))]).
Proof using Type.
  intros Hok Ha Hi Hh Ht Hi' Hp Hd Hl Hn. destruct (new_fresh _ _ _ _ _ _ _ Hok Ha Hi) as (Hid & Hni & Hnl & Hno).
  pose proof Hok as [H1 H2 H3 H4 H5 H6 H7 H8 H9 H10 H11].
  destruct (malloc_ok (m_heap c) (Some l) (m_heap c') H8) as (Hok' & _ & Hlive).
  { rewrite Hp. unfold prs_pal_malloc_zero, malloc. by rewrite Ha. }
  split; try done.
  - rewrite Hh, !fmap_app. by destruct ns.
  - rewrite Ht, fmap_app. change ([(id, (l, d))].*1) with [id]. by rewrite last_snoc.
  - intros k i p x Hk. apply lookup_app_Some in Hk as [Hk|[Hlen Hk]].
    + destruct (H3 k i p x Hk) as (Hi0 & Hdir & nid & Hnode). destruct (in_nodes _ _ _ _ _ Hk) as [Hin _].
      split; [done|]. split; [rewrite Hd; cbn; rewrite lookup_insert_ne; [done|congruence]|].
      exists nid. rewrite (Hn k i p x _ Hk Hnode). rewrite fmap_app. apply lookup_lt_Some in Hk as Hlt.
      destruct (Nat.eqb_spec (S k) (length ns)) as [He|He].
      * rewrite lookup_app_r by (rewrite length_fmap; lia). rewrite length_fmap, He, Nat.sub_diag. done.
      * rewrite lookup_app_l by (rewrite length_fmap; lia). done.
    + destruct (k - length ns)%nat as [|?] eqn:Ek; simplify_eq/=. split; [done|].
      split; [rewrite Hd; apply lookup_insert_eq|]. exists 0. rewrite Hl. cbn. rewrite lookup_insert_eq, fmap_app.
      rewrite lookup_app_r by (rewrite length_fmap; lia). rewrite length_fmap.
      replace (S k - length ns)%nat with 1%nat by lia. do 2 f_equal.
      destruct ns as [|y ns]; [by rewrite H11|]. simpl in Hlen. destruct k; [lia|]. by rewrite andb_false_r.
  - rewrite fmap_app. apply NoDup_app. split; [done|]. split; [|apply NoDup_singleton].
    intros i Hin ->%list_elem_of_singleton. done.
  - rewrite !fmap_app. apply NoDup_app. split; [done|]. split; [|apply NoDup_singleton].
    intros i Hin ->%list_elem_of_singleton. done.
  - rewrite Hi in H6. apply NoDup_cons in H6 as [_ H6]. by rewrite Hi'.
  - intros i Hin. rewrite Hi' in Hin. rewrite Hi in H7, H6. destruct (H7 i) as [? Hdir]; [by right|]. split; [done|].
    rewrite Hd. cbn. rewrite lookup_insert_ne; [done|]. intros <-. apply NoDup_cons in H6 as [H6 _]. apply H6.
    apply list_elem_of_omap. by exists (Some id).
  - rewrite Hlive, H9, !fmap_app, list_to_set_app_L. change (list_to_set [(id, (l, d))].*2.*1 : gset loc) with ({[ l ]} ∪ ∅ : gset loc).
    clear. set_solver.
  - intros p. rewrite !fmap_app, elem_of_app. intros [Hin| ->%list_elem_of_singleton]; [by apply H10|done].
  - by destruct ns.
Qed.

Lemma run_push_new fuel c dummy ns l id hs ids d :
  mpmcq_ok other c dummy ns → heap_answers (m_heap c) = Some l :: hs → m_ids c = Some id :: ids → ∃ c',
  run (prs_mpmcq_push (S fuel) d) c = Ret (Some PRS_OK, c') ∧ mpmcq_ok other c' dummy (ns ++ [(id, (l, d))]) ∧
  m_ids c' = ids ∧ heap_answers (m_heap c') = hs.
Proof using Type.
  intros Hok Ha Hi. destruct (new_fresh _ _ _ _ _ _ _ Hok Ha Hi) as (Hid & Hni & Hnl & Hno).
  assert (heap_answers (prs_pal_malloc_zero (m_heap c)).2 = hs) as Ha'.
  { unfold prs_pal_malloc_zero, malloc. by rewrite Ha. }
  assert (∀ A (k : _ → prog mpmcq A), run (prs_mpmcq_alloc_node d ≫= k) c =
    run (k (LockedNode (Some l) id)) (with_new id l d c)) as Halloc.
  { intros A k. eapply run_seq; [by eapply run_alloc_node|done]. }
  unfold prs_mpmcq_push. rewrite Halloc. cbn [ln_node ln_id]. clear Halloc.
  induction ns as [|[idt [lt dt]] ns _] using rev_ind.
  - eexists. split; [|split; [eapply mpmcq_ok_snoc; [exact Hok|exact Ha|exact Hi|..]|]].
    1: { eapply run_seq; [apply run_mlock_none; cbn; f_equal; exact (mo_tail _ _ _ _ Hok)|].
      cbn [mpmcq_push_loop ln_node ln_id].
      eapply run_seq; [|reflexivity]. eapply run_seq; [apply run_cas_strong; [cbn; f_equal; exact (mo_tail _ _ _ _ Hok)|reflexivity]|].
      cbv beta iota. apply run_store. reflexivity. }
    + done.
    + done.
    + cbn. by rewrite Hi.
    + done.
    + done.
    + done.
    + done.
    + split; [cbn; by rewrite Hi|done].
  - assert ((ns ++ [(idt, (lt, dt))]) !! length ns = Some (idt, (lt, dt))) as Hlast by by rewrite lookup_app_r, Nat.sub_diag.
    destruct (mo_node _ _ _ _ Hok _ _ _ _ Hlast) as (Hidt & Hdirt & nid & Hnodet).
    rewrite fmap_app, lookup_app_r, length_fmap in Hnodet by (rewrite length_fmap; lia).
    replace (S (length ns) - length ns)%nat with 1%nat in Hnodet by lia. cbn in Hnodet.
    destruct (in_nodes _ _ _ _ _ Hlast) as [Hin1 Hin2].
    assert (idt ≠ id ∧ lt ≠ l) as [Hne1 Hne2] by (split; intros ->; done).
    assert (m_tail c = idt) as Htail. { rewrite (mo_tail _ _ _ _ Hok), fmap_app. change ([(idt, (lt, dt))].*1) with [idt]. by rewrite last_snoc. }
    eexists. split; [|split; [eapply mpmcq_ok_snoc; [exact Hok|exact Ha|exact Hi|..]|]].
    1: { eapply run_seq; [apply (run_mlock _ _ idt 1 lt); [cbn; by rewrite Htail|done|cbn; by rewrite lookup_insert_ne]|].
      cbn [mpmcq_push_loop ln_node ln_id]. eapply run_seq; [|reflexivity].
      eapply run_seq; [apply run_mlock_none; eapply mnode_next_get; [cbn; rewrite lookup_insert_ne by done; exact Hnodet|done]|].
      cbn [ln_node ln_id].
      eapply run_seq; [apply run_cas_strong; [eapply mnode_next_get; [cbn; rewrite lookup_insert_ne by done; exact Hnodet|done]|apply mnode_set; cbn; by rewrite lookup_insert_ne]|].
      cbn [negb]. eapply run_seq; [apply (run_munlock _ _ idt 0 lt); cbn; apply lookup_insert_eq|].
      eapply run_seq; [apply run_cas_strong; [cbn; by rewrite Htail|reflexivity]|]. reflexivity. }
    + cbn. rewrite (mo_head _ _ _ _ Hok). by destruct ns.
    + done.
    + cbn. by rewrite Hi.
    + done.
    + intros i. cbn. rewrite insert_insert_eq. destruct (decide (i = idt)) as [->|].
      * by rewrite lookup_insert_eq, lookup_insert_ne.
      * by rewrite !(lookup_insert_ne _ idt) by done.
    + cbn. by rewrite lookup_insert_ne.
    + intros k i p x n Hk Hn. rewrite length_app. change (length [(idt, (lt, dt))]) with 1%nat.
      destruct (in_nodes _ _ _ _ _ Hk) as [_ Hinp].
      destruct (Nat.eqb_spec (S k) (length ns + 1)) as [He|He].
      * replace k with (length ns) in Hk by lia. rewrite Hlast in Hk. simplify_eq. cbn. apply lookup_insert_eq.
      * cbn. rewrite lookup_insert_ne, lookup_insert_ne; [done|congruence|]. intros <-. apply He.
        enough (k = length ns) by lia. pose proof (mo_locs _ _ _ _ Hok) as Hnd.
        eapply (proj1 (NoDup_alt _) Hnd); rewrite !list_lookup_fmap; [rewrite Hk|rewrite Hlast]; done.
    + split; [cbn; by rewrite Hi|done].
Qed.
(** Whether there are a block and an ID for a new node, and what is left of the answers. *)
Definition push_answers (hs : list ptr) (ids : list (option Z)) : bool * (list ptr * list (option Z)) :=
  match hs, ids with
  | Some _ :: hs, Some _ :: ids => (true, (hs, ids))
  | Some _ :: hs, _ => (false, (hs, tail ids))
  | _, _ => (false, (tail hs, ids))
  end.

Lemma mpmcq_ok_answers c c' dummy ns :
  mpmcq_ok other c dummy ns → m_head c' = m_head c → m_tail c' = m_tail c →
  (∀ p, p ∈ heap_live (m_heap c) → m_nodes c' !! p = m_nodes c !! p) → m_dir c' = m_dir c →
  (m_ids c' = m_ids c ∨ m_ids c' = tail (m_ids c)) → heap_ok (m_heap c') →
  heap_live (m_heap c') = heap_live (m_heap c) → mpmcq_ok other c' dummy ns.
Proof using Type.
  intros [H1 H2 H3 H4 H5 H6 H7 H8 H9 H10 H11] Hh Ht Hn Hd Hi Hok Hl.
  split; rewrite ?Hh, ?Ht, ?Hd, ?Hl; try done.
  - intros k id l d Hk. rewrite Hn; [by eapply H3|]. rewrite H9. apply elem_of_union_r, elem_of_list_to_set.
    exact (proj2 (in_nodes _ _ _ _ _ Hk)).
  - destruct Hi as [-> | ->]; [done|]. destruct (m_ids c) as [|[i|] ids]; [done| |done]. by apply NoDup_cons in H6 as [_ H6].
  - intros id Hin. apply H7. destruct Hi as [Hi|Hi]; rewrite Hi in Hin; [done|].
    destruct (m_ids c); [done|]. by right.
Qed.

Lemma run_push_fail fuel c dummy ns d :
  mpmcq_ok other c dummy ns → (push_answers (heap_answers (m_heap c)) (m_ids c)).1 = false → ∃ c',
  run (prs_mpmcq_push fuel d) c = Ret (Some PRS_OUT_OF_MEMORY, c') ∧ mpmcq_ok other c' dummy ns ∧
  (heap_answers (m_heap c'), m_ids c') = (push_answers (heap_answers (m_heap c)) (m_ids c)).2.
Proof using Type.
  intros Hok Hf. pose proof (λ p h', malloc_ok (m_heap c) p h' (mo_heap _ _ _ _ Hok)) as Hm.
  destruct c as [h t nodes dir ids [live [|[l|] hs]]]; cbn in Hf, Hm.
  - destruct (Hm _ _ eq_refl) as [Hok' Hl]. eexists. split; [reflexivity|].
    split; [by eapply mpmcq_ok_answers; [exact Hok|done..|by left|done|done]|done].
  - destruct (Hm _ _ eq_refl) as (Hok' & Hfr & _). apply (heap_ok_free l) in Hok'. cbn [heap_live heap_answers] in *.
    eexists. split; [|split].
    + unfold prs_mpmcq_push. eapply run_seq.
      { unfold prs_mpmcq_alloc_node. eapply run_seq; [reflexivity|]. eapply (run_seq _ _ _ (PRS_OUT_OF_MEMORY, PRS_PD_ID_INVALID)).
        { destruct ids as [|[id|] ids]; [reflexivity|done|reflexivity]. }
        rewrite decide_True by done. eapply run_seq; [|reflexivity]. cbn. rewrite lookup_insert_eq. cbn.
        unfold prs_pal_free, free. cbn. rewrite decide_True by set_solver. reflexivity. }
      reflexivity.
    + eapply mpmcq_ok_answers; [exact Hok|done..| |done| | |]; cbn [m_head m_tail m_nodes m_dir m_ids m_heap with_mids with_mheap with_mnodes heap_live heap_answers].
      * intros p Hp. rewrite lookup_delete_ne, lookup_insert_ne; [done|intros <-; done..].
      * by right.
      * done.
      * set_solver.
    + destruct ids as [|[id|] ids]; done.
  - destruct (Hm _ _ eq_refl) as [Hok' Hl]. eexists. split; [reflexivity|].
    split; [by eapply mpmcq_ok_answers; [exact Hok|done..|by left|done|done]|done].
Qed.
End alone.

Lemma run_client_cons fuel op ops r rs c c1 c' :
  run (mpmcq_op_prog fuel op) c = Ret (Some r, c1) → run (mpmcq_client fuel ops) c1 = Ret (Some rs, c') →
  run (mpmcq_client fuel (op :: ops)) c = Ret (Some (r :: rs), c').
Proof. intros H1 H2. eapply run_seq; [exact H1|]. eapply run_seq; [exact H2|done]. Qed.

Lemma run_push_op fuel d r c c1 :
  run (prs_mpmcq_push fuel d) c = Ret (Some r, c1) → run (mpmcq_op_prog fuel (MPush d)) c = Ret (Some (r, None), c1).
Proof. intros H. eapply run_seq; [exact H|done]. Qed.

(** What a first-in first-out queue answers: [hs] and [ids] are the answers of the heap
    and of the directory, [used] tells whether there has been an element. *)
Fixpoint fifo (hs : list ptr) (ids : list (option Z)) (used : bool) (q : list ptr) (ops : list mpmcq_op) :
    list (prs_result * option ptr) * list ptr :=
  match ops with
  | [] => ([], q)
  | MPush d :: ops =>
      let '(ok, (hs, ids)) := push_answers hs ids in
      let '(rs, q) := if (ok : bool) then fifo hs ids true (q ++ [d]) ops else fifo hs ids used q ops in
      ((if ok then PRS_OK else PRS_OUT_OF_MEMORY, None) :: rs, q)
  | MPop :: ops => let '(rs, q') := fifo hs ids used (tail q) ops in (fifo_pop used q :: rs, q')
  end.

(** C19: A thread that uses a queue alone, in any sequence of pushes and pops, gets what a
    first-in first-out queue answers: the elements in order, [PRS_OUT_OF_MEMORY] exactly when
    the heap or the directory has nothing left, [PRS_EMPTY] when there is no element, and
    [PRS_UNKNOWN] if there has never been one.  Two rounds of each loop are enough, and the
    only blocks that stay allocated are one per element and at most one consumed node. *)
Theorem mpmcq_fifo (other : gset loc) (fuel : nat) (ops : list mpmcq_op) (c : mpmcq) (dummy : bool)
    (ns : list (Z * (loc * ptr)))
  (Hok : mpmcq_ok other c dummy ns) (Hfuel : (2 ≤ fuel)%nat) :
  ∃ c' dummy' ns' rs, run (mpmcq_client fuel ops) c = Ret (Some rs, c') ∧ mpmcq_ok other c' dummy' ns' ∧
    fifo (heap_answers (m_heap c)) (m_ids c) (negb (bool_decide (ns = []))) (mpmcq_elements dummy ns) ops =
      (rs, mpmcq_elements dummy' ns').
Proof.
  revert c dummy ns Hok. induction ops as [|op ops IH]; intros c dummy ns Hok; [by exists c, dummy, ns, []|].
  destruct op as [d|]; cbn [fifo].
  - destruct (push_answers (heap_answers (m_heap c)) (m_ids c)) as [ok [hs ids]] eqn:Ep. destruct ok.
    + destruct fuel as [|fuel]; [lia|]. unfold push_answers in Ep.
      destruct (heap_answers (m_heap c)) as [|[l|] hs'] eqn:Ea; [done| |done].
      destruct (m_ids c) as [|[id|] ids'] eqn:Ei; [done| |done]. injection Ep as -> ->.
      destruct (run_push_new other fuel _ _ _ _ _ _ _ d Hok Ea Ei) as (c1 & Hrun & Hok1 & <- & <-).
      destruct (IH c1 dummy _ Hok1) as (c' & dummy' & ns' & rs & Hrun' & Hok' & Hf). exists c', dummy', ns', ((PRS_OK, None) :: rs).
      split; [by eapply run_client_cons; [apply run_push_op|]|]. split; [done|].
      rewrite bool_decide_false in Hf by (intros [_ ?]%app_nil; done). cbn [negb] in Hf.
      rewrite mpmcq_elements_snoc in Hf by exact (mo_dummy _ _ _ _ Hok). by rewrite Hf.
    + destruct (run_push_fail other fuel _ _ _ d Hok) as (c1 & Hrun & Hok1 & Hans); [by rewrite Ep|].
      rewrite Ep in Hans. cbn [snd] in Hans. injection Hans as <- <-.
      destruct (IH c1 dummy _ Hok1) as (c' & dummy' & ns' & rs & Hrun' & Hok' & Hf).
      exists c', dummy', ns', ((PRS_OUT_OF_MEMORY, None) :: rs).
      split; [by eapply run_client_cons; [apply run_push_op|]|]. split; [done|]. by rewrite Hf.
  - destruct (run_pop other fuel _ _ _ Hok Hfuel) as (c1 & dummy1 & ns1 & Hrun & Hok1 & He & Hnil & Hi & Ha).
    destruct (IH c1 _ _ Hok1) as (c' & dummy' & ns' & rs & Hrun' & Hok' & Hf).
    exists c', dummy', ns'. eexists (_ :: rs). split; [by eapply run_client_cons|]. split; [done|].
    rewrite Hi, Ha, He, (bool_decide_ext _ _ Hnil) in Hf. by rewrite Hf.
Qed.

(** *** Destroying the queue *)

Lemma run_drain other fuel c dummy ns :
  mpmcq_ok other c dummy ns → (length ns + 3 ≤ fuel)%nat → ∃ c' dummy' ns',
  run (mpmcq_drain fuel) c = Ret (Some tt, c') ∧ mpmcq_ok other c' dummy' ns' ∧ mpmcq_elements dummy' ns' = [] ∧
  (ns' = [] ↔ ns = []).
Proof.
  intros Hok Hfuel. remember (length (mpmcq_elements dummy ns)) as n eqn:En.
  assert (n + 3 ≤ fuel)%nat as Hf.
  { rewrite En. unfold mpmcq_elements. destruct dummy, ns; rewrite !length_fmap; simpl in *; lia. }
  clear Hfuel. revert fuel c dummy ns Hok En Hf. induction n as [|n IH]; intros [|fuel] c dummy ns Hok En Hf; try lia.
  all: destruct (run_pop other fuel _ _ _ Hok) as (c1 & dummy1 & ns1 & Hrun & Hok1 & He & Hnil & _); [lia|].
  - destruct (mpmcq_elements dummy ns) as [|x q] eqn:Eq; [|done].
    exists c1, dummy1, ns1. split; [|by rewrite He]. cbn [mpmcq_drain]. eapply run_seq; [exact Hrun|].
    cbn [fifo_pop]. by destruct (negb _).
  - destruct (mpmcq_elements dummy ns) as [|x q] eqn:Eq; [done|]. simpl in En, He. injection En as En.
    destruct (IH fuel c1 dummy1 ns1 Hok1) as (c' & dummy' & ns' & Hrun' & Hok' & He' & Hnil'); [by rewrite He|lia|].
    exists c', dummy', ns'. split; [|split_and!; [done|done|by rewrite Hnil', Hnil]].
    cbn [mpmcq_drain]. eapply run_seq; [exact Hrun|]. exact Hrun'.
Qed.

(** A queue that was used still has a node when it has been destroyed. *)
Definition destroyed_nodes (ns : list (Z * (loc * ptr))) (ls : list loc) : Prop :=
  (ns = [] ∧ ls = []) ∨ (ns ≠ [] ∧ ∃ l, ls = [l]).

Lemma no_elements other c dummy ns :
  mpmcq_ok other c dummy ns → mpmcq_elements dummy ns = [] → ns = [] ∨ ∃ id l d, ns = [(id, (l, d))].
Proof.
  intros Hok He. unfold mpmcq_elements in He. destruct dummy.
  - destruct ns as [|[id [l d]] [|y ns]]; [by left| |done]. right. by exists id, l, d.
  - left. by apply fmap_nil_inv, fmap_nil_inv in He.
Qed.

(** [prs_mpmcq_destroy] frees the block of the queue and that of a directory it owns,
    and every node but the last consumed one: a queue that was used leaks this node and
    its ID. *)
Lemma mpmcq_destroy_leaks (other : gset loc) (fuel : nat) (owns_pd : bool) (pd : loc) (self : loc) (c : mpmcq)
    (dummy : bool) (ns : list (Z * (loc * ptr)))
  (Hok : mpmcq_ok other c dummy ns) (Hfuel : (length ns + 3 ≤ fuel)%nat)
  (Hself : self ∈ other) (Hpd : pd ∈ other) (Hne : pd ≠ self) :
  ∃ c' ls, run (prs_mpmcq_destroy fuel owns_pd (Some pd) self) c = Ret (Some tt, c') ∧ destroyed_nodes ns ls ∧
    heap_live (m_heap c') = (if owns_pd then other ∖ {[ pd ]} else other) ∖ {[ self ]} ∪ list_to_set ls ∧
    ∀ l, l ∈ ls → ∃ id, m_dir c' !! id = Some (1%nat, l).
Proof.
  destruct (run_drain _ _ _ _ _ Hok Hfuel) as (c1 & dummy1 & ns1 & Hrun & Hok1 & He & Hnil).
  assert (∃ c', run (prs_mpmcq_destroy fuel owns_pd (Some pd) self) c = Ret (Some tt, c') ∧ m_dir c' = m_dir c1 ∧
    heap_live (m_heap c') = (if owns_pd then heap_live (m_heap c1) ∖ {[ pd ]} else heap_live (m_heap c1)) ∖ {[ self ]})
    as (c' & Hrun' & Hd & Hl).
  { pose proof (mo_live _ _ _ _ Hok1) as Hl1. destruct owns_pd; eexists; (split; [eapply run_seq; [exact Hrun|]|]).
    1: eapply run_seq; [cbn; unfold prs_pal_free, free; by rewrite decide_True by set_solver|].
    1, 3: cbn; unfold prs_pal_free, free; by rewrite decide_True by (simpl; set_solver). all: done. }
  exists c'. pose proof (mo_live _ _ _ _ Hok1) as Hl1.
  destruct (no_elements _ _ _ _ Hok1 He) as [-> | (id & l & d & ->)].
  - exists []. split; [done|]. split; [left; by rewrite <- Hnil|]. split; [|by intros ? ?%elem_of_nil].
    rewrite Hl, Hl1. simpl. destruct owns_pd; set_solver.
  - exists [l]. split; [done|]. split; [right; split; [by rewrite <- Hnil|by exists l]|]. split.
    + rewrite Hl, Hl1. pose proof (mo_other _ _ _ _ Hok1 l ltac:(simpl; by left)) as Ho. simpl. destruct owns_pd; set_solver.
    + intros l' ->%list_elem_of_singleton. exists id. rewrite Hd. by destruct (mo_node _ _ _ _ Hok1 0%nat id l d eq_refl) as (_ & ? & _).
Qed.

(** A queue as it is created. *)
Lemma mpmcq_empty_ok ids h :
  NoDup (omap (λ i : option Z, i) ids) → (∀ id, Some id ∈ ids → id ≠ INVALID) → heap_ok h →
  mpmcq_ok (heap_live h) (mpmcq_empty ids h) false [].
Proof.
  intros Hnd Hid Hh. split; try done.
  - apply NoDup_nil_2.
  - apply NoDup_nil_2.
  - intros id Hin. split; [by apply Hid|done].
  - cbn. set_solver.
  - intros l Hin. by apply elem_of_nil in Hin.
Qed.

(** A queue of three blocks and three IDs. *)
Lemma lost_ok : mpmcq_ok ∅ lost_memory false [].
Proof.
  apply (mpmcq_empty_ok [Some 1; Some 2; Some 3] (Heap ∅ [Some 11%positive; Some 12%positive; Some 13%positive])).
  - apply (bool_decide_unpack _); by vm_compute.
  - intros id (k & Hk)%list_elem_of_lookup ->. by destruct k as [|[|[|[|]]]]; vm_compute in Hk.
  - split; [apply (bool_decide_unpack _); by vm_compute|]. intros l _. apply not_elem_of_empty.
Qed.

Lemma mpmcq_fifo_witness :
  ∃ c' dummy' ns' rs, run (mpmcq_client 2 [MPop; MPush (Some 7%positive); MPop; MPop]) lost_memory = Ret (Some rs, c') ∧
    mpmcq_ok ∅ c' dummy' ns' ∧
    ([(PRS_UNKNOWN, None); (PRS_OK, None); (PRS_OK, Some (Some 7%positive)); (PRS_EMPTY, None)], []) =
      (rs, mpmcq_elements dummy' ns').
Proof.
  exact (mpmcq_fifo ∅ 2 [MPop; MPush (Some 7%positive); MPop; MPop] lost_memory false [] lost_ok (le_n 2)).
Defined.

(** A queue at address 1 with a directory at address 2. *)
Definition small_live : gset loc := {[ 1%positive; 2%positive ]}.
Definition small_memory : mpmcq := mpmcq_empty [Some 5] (Heap small_live [Some 11%positive]).

Lemma small_ok : mpmcq_ok small_live small_memory false [].
Proof.
  apply (mpmcq_empty_ok [Some 5] (Heap small_live [Some 11%positive])).
  - apply (bool_decide_unpack _); by vm_compute.
  - intros id [= ->]%list_elem_of_singleton. by vm_compute.
  - split; [apply NoDup_singleton|]. intros l [= ->]%list_elem_of_singleton. apply (bool_decide_unpack _); by vm_compute.
Qed.


(** Elements can be lost, although every push and pop succeeds.  Thread 0 links its
    second element after its first one and releases the first node, but has not moved the
    tail yet when thread 2 takes the first element and its node off.  The tail is then an ID
    that is gone, which thread 1 takes for an empty queue: it moves the tail and the head to
    its own node, and the second element of thread 0 is out of reach for good. *)
Lemma mpmcq_loses_element :
  ∃ c, rtc pool_step (lost_memory, lost_threads)
    (c, Done <$> [[(PRS_OK, None); (PRS_OK, None)]; [(PRS_OK, None)];
                  [(PRS_OK, Some (Some 101%positive)); (PRS_OK, Some (Some 103%positive)); (PRS_EMPTY, None)]]) ∧
    ∃ c', run (prs_mpmcq_pop 5) c = Ret (Some (PRS_EMPTY, None), c').
Proof.
  assert (∀ A (o : option A), (if o then true else false) = true → ∃ x, o = Some x) as Hsome by (intros A [x|]; eauto; done).
  destruct (Hsome _ (pool_run (lost_schedule 10 9 12) (lost_memory, lost_threads))) as [s E]; [by vm_compute|].
  exists s.1. split.
  - apply (pool_run_rtc (lost_schedule 10 9 12)). rewrite E. f_equal. vm_compute in E. by injection E as <-.
  - vm_compute in E. injection E as <-. eexists. vm_compute. reflexivity.
Qed.
