(* ===== verification/Mpmcring.v ===== *)
(** * Rings with many producers and consumers (prs/lib/ds/mpmcring.c)

    The same list as that of mpmcq.c, of entries that come from a pool and carry their data
    themselves.  The pool is used at the level of its contract (Pool.v): each of its calls is
    one action.  An entry and its data ([prs_mpmcring_data_to_entry]) are known by the same
    address, and the data of an entry that is allocated again is what was there before. *)

From S2P Require Import Prelude Atomic Pool.

(** ** The memory *)

(** [struct prs_mpmcring_entry]; [re_id] is the ID in the header of the pool's entry. *)
Record prs_mpmcring_entry {D : Type} : Type := PrsMpmcringEntry {
  re_id : Z;
  re_next : Z;
  re_consumed : bool;
  re_data : D
}.
Arguments prs_mpmcring_entry D : clear implicits.
Arguments PrsMpmcringEntry {D}.

(** [struct prs_mpmcring] and its pool: the entries, the reference count and the entry of
    each live ID, and the next answers of the pool. *)
Record mpmcring {D : Type} : Type := Mpmcring {
  r_head : Z;
  r_tail : Z;
  r_entries : gmap loc (prs_mpmcring_entry D);
  r_pool : gmap Z (nat * loc);
  r_answers : list (option (Z * loc))
}.
Arguments mpmcring D : clear implicits.
Arguments Mpmcring {D}.

Section ring.
Context {D : Type}.
Implicit Types (c : mpmcring D).

Definition with_rhead (v : Z) c : mpmcring D := Mpmcring v (r_tail c) (r_entries c) (r_pool c) (r_answers c).
Definition with_rtail (v : Z) c : mpmcring D := Mpmcring (r_head c) v (r_entries c) (r_pool c) (r_answers c).
Definition with_rentries (v : gmap loc (prs_mpmcring_entry D)) c : mpmcring D :=
  Mpmcring (r_head c) (r_tail c) v (r_pool c) (r_answers c).
Definition with_rpool (v : gmap Z (nat * loc)) c : mpmcring D :=
  Mpmcring (r_head c) (r_tail c) (r_entries c) v (r_answers c).
Definition with_ranswers (v : list (option (Z * loc))) c : mpmcring D :=
  Mpmcring (r_head c) (r_tail c) (r_entries c) (r_pool c) v.

Definition ring_head_id : cell (mpmcring D) Z := Cell (λ c, Ret (r_head c)) (λ v c, Ret (with_rhead v c)).
Definition ring_tail_id : cell (mpmcring D) Z := Cell (λ c, Ret (r_tail c)) (λ v c, Ret (with_rtail v c)).

Definition rentry_cell {V : Type} (get : prs_mpmcring_entry D → V)
    (set_ : V → prs_mpmcring_entry D → prs_mpmcring_entry D) (x : loc) : cell (mpmcring D) V :=
  Cell (λ c, n ← deref (r_entries c !! x); Ret (get n))
       (λ v c, n ← deref (r_entries c !! x); Ret (with_rentries (<[x := set_ v n]> (r_entries c)) c)).

Definition rentry_id : loc → cell (mpmcring D) Z :=
  rentry_cell re_id (λ v n, PrsMpmcringEntry v (re_next n) (re_consumed n) (re_data n)).
Definition rentry_next : loc → cell (mpmcring D) Z :=
  rentry_cell re_next (λ v n, PrsMpmcringEntry (re_id n) v (re_consumed n) (re_data n)).
Definition rentry_consumed : loc → cell (mpmcring D) bool :=
  rentry_cell re_consumed (λ v n, PrsMpmcringEntry (re_id n) (re_next n) v (re_data n)).
Definition rentry_data : loc → cell (mpmcring D) D :=
  rentry_cell re_data (λ v n, PrsMpmcringEntry (re_id n) (re_next n) (re_consumed n) v).

(** *** The pool *)

(** The entry and its ID; it has no reference yet. *)
Definition rpool_alloc : prog (mpmcring D) (option (Z * loc)) :=
  act (λ c,
    match r_answers c with
    | Some (i, x) :: answers =>
        n ← deref (r_entries c !! x);
        Ret (Some (i, x), with_ranswers answers (with_rpool (<[i := (0%nat, x)]> (r_pool c))
          (with_rentries (<[x := PrsMpmcringEntry i (re_next n) (re_consumed n) (re_data n)]> (r_entries c)) c)))
    | answers => Ret (None, with_ranswers (tail answers) c)
    end).

Definition rpool_lock_first (id : Z) : prog (mpmcring D) unit :=
  act (λ c, n ← deref (r_pool c !! id); Ret (tt, with_rpool (<[id := (1%nat, n.2)]> (r_pool c)) c)).

Definition rpool_lock (id : Z) : prog (mpmcring D) ptr :=
  act (λ c,
    match r_pool c !! id with
    | Some (S n, x) => Ret (Some x, with_rpool (<[id := (S (S n), x)]> (r_pool c)) c)
    | _ => Ret (None, c)
    end).

(** The last reference gives the entry back to the pool. *)
Definition rpool_unlock (id : Z) : prog (mpmcring D) unit :=
  act (λ c,
    match r_pool c !! id with
    | Some (S (S n), x) => Ret (tt, with_rpool (<[id := (S n, x)]> (r_pool c)) c)
    | Some (1%nat, x) => Ret (tt, with_rpool (delete id (r_pool c)) c)
    | _ => Ret (tt, c)
    end).

Definition prs_pool_get_id (entry : loc) : prog (mpmcring D) Z := read (rentry_id entry).

(** ** Functions *)

(** What [prs_mpmcring_create] leaves; [entries] are the slots of the pool. *)
Definition mpmcring_empty (entries : gmap loc (prs_mpmcring_entry D)) (answers : list (option (Z * loc))) : mpmcring D :=
  Mpmcring PRS_POOL_ID_INVALID PRS_POOL_ID_INVALID entries ∅ answers.

Definition prs_mpmcring_alloc : prog (mpmcring D) ptr :=
  entry ← rpool_alloc;
  match entry with
  | None => mret None
  | Some (id, entry) =>
      _ ← prs_pal_atomic_store (rentry_consumed entry) false;
      _ ← prs_pal_atomic_store (rentry_next entry) PRS_POOL_ID_INVALID;
      _ ← rpool_lock_first id;
      mret (Some entry)
  end.

Definition prs_mpmcring_free (data : loc) : prog (mpmcring D) unit :=
  id ← prs_pool_get_id data;
  rpool_unlock id.

(** [if (id != PRS_POOL_ID_INVALID) entry = prs_pool_lock(pool, id)]: without an ID the
    pointer keeps its value. *)
Definition lock_valid (id : Z) (entry : ptr) : prog (mpmcring D) ptr :=
  if id =? PRS_POOL_ID_INVALID then mret entry else rpool_lock id.

Fixpoint mpmcring_push_loop (fuel : nat) (id tail_id : Z) (tail_entry : ptr) : prog (mpmcring D) unit :=
  match fuel with
  | O => Spin
  | S fuel =>
      match tail_entry with
      | Some tail =>
          next_id ← prs_pal_atomic_load (rentry_next tail);
          next_entry ← lock_valid next_id None;
          match next_entry with
          | Some _ =>
              _ ← rpool_unlock tail_id;
              _ ← prs_pal_atomic_compare_exchange_strong ring_tail_id tail_id next_id;
              mpmcring_push_loop fuel id next_id next_entry
          | None =>
              '(tail_next_set, _) ← prs_pal_atomic_compare_exchange_weak (rentry_next tail) next_id id;
              if negb tail_next_set then
                _ ← rpool_unlock tail_id;
                tail_id ← prs_pal_atomic_load ring_tail_id;
                tail_entry ← lock_valid tail_id tail_entry;
                mpmcring_push_loop fuel id tail_id tail_entry
              else
                _ ← rpool_unlock tail_id;
                _ ← prs_pal_atomic_compare_exchange_strong ring_tail_id tail_id id;
                mret tt
          end
      | None =>
          '(tail_set, _) ← prs_pal_atomic_compare_exchange_strong ring_tail_id tail_id id;
          if (tail_set : bool) then prs_pal_atomic_store ring_head_id id
          else
            tail_id ← prs_pal_atomic_load ring_tail_id;
            tail_entry ← lock_valid tail_id None;
            mpmcring_push_loop fuel id tail_id tail_entry
      end
  end.

Definition prs_mpmcring_push (fuel : nat) (data : loc) : prog (mpmcring D) unit :=
  id ← prs_pool_get_id data;
  tail_id ← prs_pal_atomic_load ring_tail_id;
  tail_entry ← lock_valid tail_id None;
  mpmcring_push_loop fuel id tail_id tail_entry.

Fixpoint mpmcring_pop_loop (fuel : nat) (head_id : Z) (head_entry : ptr) : prog (mpmcring D) ptr :=
  match fuel with
  | O => Spin
  | S fuel =>
      match head_entry with
      | Some head =>
          already_consumed ← prs_pal_atomic_exchange (rentry_consumed head) true;
          next_id ← prs_pal_atomic_load (rentry_next head);
          moved ← (if next_id =? PRS_POOL_ID_INVALID then mret None
                   else
                     '(success, prev_head_id) ← prs_pal_atomic_compare_exchange_weak ring_head_id head_id next_id;
                     _ ← (if (success : bool) then rpool_unlock head_id else mret tt);
                     mret (Some prev_head_id));
          match moved with
          | Some prev_head_id =>
              if (already_consumed : bool) then
                _ ← rpool_unlock head_id;
                head_entry ← rpool_lock prev_head_id;
                mpmcring_pop_loop fuel prev_head_id head_entry
              else mret (Some head)
          | None =>
              if (already_consumed : bool) then _ ← rpool_unlock head_id; mret None
              else mret (Some head)
          end
      | None =>
          let prev_head_id := head_id in
          head_id ← prs_pal_atomic_load ring_head_id;
          if negb (head_id =? prev_head_id) then
            head_entry ← rpool_lock head_id;
            mpmcring_pop_loop fuel head_id head_entry
          else mret None
      end
  end.

Definition prs_mpmcring_pop (fuel : nat) : prog (mpmcring D) ptr :=
  head_id ← prs_pal_atomic_load ring_head_id;
  head_entry ← lock_valid head_id None;
  mpmcring_pop_loop fuel head_id head_entry.

End ring.

(** ** Sizes *)

(** [offsetof(struct prs_mpmcring_entry, data)]: an ID and a flag. *)
Definition mpmcring_data_offset : Z := 8 + 1.

(** [struct prs_mpmcring_create_params], and the parameters of the pool: the size of its
    entries is that of the data. *)
Record prs_mpmcring_create_params : Type := PrsMpmcringCreateParams { rcp_data_size : Z; rcp_max_entries : Z }.

Definition mpmcring_pool_params (params : prs_mpmcring_create_params) : prs_pool_create_params :=
  PoolParams (rcp_max_entries params) (rcp_data_size params) None.

(** ** An element that is lost *)

(** A client runs a list of operations: to allocate an element with its data and push it, or
    to pop an element, look at it and free it. *)
Inductive mpmcring_op : Type := RPush (data : nat) | RPop.

Definition mpmcring_op_prog (fuel : nat) (op : mpmcring_op) : prog (mpmcring nat) (option nat) :=
  match op with
  | RPush data =>
      entry ← prs_mpmcring_alloc;
      match entry with
      | None => mret None
      | Some entry =>
          _ ← write (rentry_data entry) data;
          _ ← prs_mpmcring_push fuel entry;
          mret (Some data)
      end
  | RPop =>
      entry ← prs_mpmcring_pop fuel;
      match entry with
      | None => mret None
      | Some entry =>
          data ← read (rentry_data entry);
          _ ← prs_mpmcring_free entry;
          mret (Some data)
      end
  end.

Fixpoint mpmcring_client (fuel : nat) (ops : list mpmcring_op) : prog (mpmcring nat) (list (option nat)) :=
  match ops with
  | [] => mret []
  | op :: ops => r ← mpmcring_op_prog fuel op; rs ← mpmcring_client fuel ops; mret (r :: rs)
  end.

Definition ring_threads : list (prog (mpmcring nat) (list (option nat))) :=
  mpmcring_client 5 <$> [[RPush 101; RPush 102]; [RPush 103]; [RPop; RPop; RPop]].

Definition ring_memory : mpmcring nat :=
  mpmcring_empty {[ 11%positive := PrsMpmcringEntry 0 0 false 0%nat; 12%positive := PrsMpmcringEntry 0 0 false 0%nat;
                    13%positive := PrsMpmcringEntry 0 0 false 0%nat ]}
    [Some (1, 11%positive); Some (2, 12%positive); Some (3, 13%positive)].

Definition ring_schedule (a b d : nat) : list (nat * bool) :=
  replicate 21 (0%nat, false) ++ replicate a (2%nat, false) ++ replicate b (1%nat, false) ++ [(0%nat, false)] ++
  replicate d (2%nat, false).

(** An element that was pushed can be out of reach for ever, and its entry with it: thread
    0 has linked its second element after its first one but not moved the tail when thread 2
    pops and frees the first one.  The tail is then an ID that is gone, which thread 1 takes
    for an empty ring.  Every call succeeds, the ring is empty at the end, and the entry of
    the second element keeps its reference. *)
Lemma mpmcring_loses_element :
  ∃ c, rtc pool_step (ring_memory, ring_threads)
    (c, Done <$> [[Some 101; Some 102]; [Some 103]; [Some 101; Some 103; None]]%nat) ∧
    (∃ c', run (prs_mpmcring_pop 5) c = Ret (Some None, c')) ∧
    (∃ e, r_entries c !! 12%positive = Some e ∧ re_data e = 102%nat) ∧ r_pool c !! 2 = Some (1%nat, 12%positive).
Proof.
  assert (∀ A (o : option A), (if o then true else false) = true → ∃ x, o = Some x) as Hsome by (intros A [x|]; eauto; done).
  destruct (Hsome _ (pool_run (ring_schedule 10 10 12) (ring_memory, ring_threads))) as [s E]; [by vm_compute|].
  exists s.1. split.
  - apply (pool_run_rtc (ring_schedule 10 10 12)). rewrite E. f_equal. vm_compute in E. by injection E as <-.
  - vm_compute in E. injection E as <-. split_and!; [eexists; vm_compute; reflexivity|eexists; split; reflexivity|reflexivity].
Qed.

(** The end of the data of an entry is past the end of the entry: the pool was asked for
    entries of the size of the data. *)
Lemma mpmcring_data_overruns {E : Type} params area (entries : list (prs_pool_entry E)) p :
  0 ≤ rcp_data_size params < 2 ^ 63 → pool_init (mpmcring_pool_params params) area entries = Ret p →
  pool_entry_size p < offsetof_prs_pool_entry_data + mpmcring_data_offset + rcp_data_size params.
Proof.
  intros Hsize Hp. unfold pool_init, pool_header_cell in Hp. cbn in Hp.
  destruct (deref _) as [e| |]; [|discriminate Hp..]. cbn in Hp.
  destruct (store _ _ _) as [es| |]; [|discriminate Hp..]. injection Hp as <-. cbn.
  unfold mpmcring_data_offset, offsetof_prs_pool_entry_data. rewrite u64_small; lia.
Qed.
