(* ===== verification/Log.v ===== *)
(** * The log (prs/log.c) and its service (prs/svc/log.c)

    Lines are formatted in the entries of a ring (Mpmcring.v), and written to the file by
    [prs_log_flush].  The log has a memory of its own: the ring, the spinlock that protects
    the file, and what was written to the file. *)

From S2P Require Import Prelude Str Atomic Mpmcring.

Definition PRS_MAX_LOG_ENTRY_SIZE : Z := 256.

(** ** Lines *)

(** [%6u] of the C standard library. *)
Definition print_uint6 (n : Z) : list Z :=
  let ds := print_uint n in replicate (6 - length ds) 32 ++ ds.

(** "OVF: %u\n" and "[%6u] " *)
Definition overflow_text (n : Z) : list Z := [79; 86; 70; 58; 32] ++ print_uint n ++ [10].
Definition ticks_text (n : Z) : list Z := [91] ++ print_uint6 n ++ [93; 32].

(** What [prs_log_vprint] leaves in the buffer of the entry, and the size of the line.
    [function] and [fmt] may be null; [fmt] stands for what it expands to.  The options
    PRS_LOG_CYCLES and PRS_LOG_WORKER are off. *)
Definition log_format (buf : list Z) (overflow_count ticks : Z) (function : option (list Z)) (fmt : option (list Z)) :
    outcome (list Z * Z) :=
  '(buf, offset) ←
    (if truthy overflow_count
     then prs_str_append_printf buf 0 PRS_MAX_LOG_ENTRY_SIZE (Some (overflow_text overflow_count))
     else Ret (buf, 0));
  '(buf, offset) ← prs_str_append_printf buf offset PRS_MAX_LOG_ENTRY_SIZE (Some (ticks_text ticks));
  '(buf, offset) ←
    match function with
    | Some function =>
        '(buf, offset) ← prs_str_append buf function offset PRS_MAX_LOG_ENTRY_SIZE;
        match fmt with
        | Some _ => prs_str_append buf [58; 32; 0] offset PRS_MAX_LOG_ENTRY_SIZE
        | None => Ret (buf, offset)
        end
    | None => Ret (buf, offset)
    end;
  '(buf, offset) ←
    match fmt with
    | Some text => prs_str_append_vprintf buf offset PRS_MAX_LOG_ENTRY_SIZE (Some text)
    | None => Ret (buf, offset)
    end;
  prs_str_append buf [10; 0] offset PRS_MAX_LOG_ENTRY_SIZE.

(** ** The memory *)

(** [struct prs_log_entry] *)
Record prs_log_entry : Type := PrsLogEntry { le_size : Z; le_buf : list Z }.

(** [struct prs_log]; [lg_file] are the lines that were written. *)
Record prs_log : Type := PrsLog {
  lg_ring : mpmcring prs_log_entry;
  lg_overflow_count : Z;
  lg_lock : bool;
  lg_file : list (list Z)
}.

Definition with_ring (v : mpmcring prs_log_entry) (c : prs_log) : prs_log :=
  PrsLog v (lg_overflow_count c) (lg_lock c) (lg_file c).
Definition log_overflow_count : cell prs_log Z :=
  Cell (λ c, Ret (lg_overflow_count c)) (λ v c, Ret (PrsLog (lg_ring c) v (lg_lock c) (lg_file c))).
Definition log_spinlock : cell prs_log bool :=
  Cell (λ c, Ret (lg_lock c)) (λ v c, Ret (PrsLog (lg_ring c) (lg_overflow_count c) v (lg_file c))).

(** A program over the ring, as one over the log. *)
Definition on_ring {A : Type} (p : prog (mpmcring prs_log_entry) A) : prog prs_log A := zoom lg_ring with_ring p.

(** ** Functions *)

(** [ticks]: [prs_clock_get()]. *)
Definition prs_log_vprint (fuel : nat) (ticks : Z) (function fmt : option (list Z)) : prog prs_log unit :=
  entry ← on_ring prs_mpmcring_alloc;
  match entry with
  | None => _ ← prs_pal_atomic_fetch_add 64 log_overflow_count 1; mret tt
  | Some entry =>
      overflow_count ← prs_pal_atomic_exchange log_overflow_count 0;
      e ← on_ring (read (rentry_data entry));
      '(buf, offset) ← act (λ c, r ← log_format (le_buf e) overflow_count ticks function fmt; Ret (r, c));
      _ ← on_ring (write (rentry_data entry) (PrsLogEntry offset buf));
      on_ring (prs_mpmcring_push fuel entry)
  end.

Definition prs_log_print (fuel : nat) (ticks : Z) (text : list Z) : prog prs_log unit :=
  prs_log_vprint fuel ticks None (Some text).

Definition prs_log_ftrace (fuel : nat) (ticks : Z) (function text : list Z) : prog prs_log unit :=
  prs_log_vprint fuel ticks (Some function) (Some text).

(** [write(fd, entry->buf, entry->size)] *)
Definition write_line (e : prs_log_entry) : prog prs_log unit :=
  act (λ c,
    if Z.of_nat (length (le_buf e)) <? le_size e then Undef
    else Ret (tt, PrsLog (lg_ring c) (lg_overflow_count c) (lg_lock c) (lg_file c ++ [take (Z.to_nat (le_size e)) (le_buf e)]))).

(** The loop of [prs_log_flush]. *)
Fixpoint log_flush_loop (fuel : nat) (count : Z) : prog prs_log Z :=
  match fuel with
  | O => Spin
  | S fuel' =>
      entry ← on_ring (prs_mpmcring_pop fuel);
      match entry with
      | None => mret count
      | Some entry =>
          e ← on_ring (read (rentry_data entry));
          _ ← write_line e;
          _ ← on_ring (prs_mpmcring_free entry);
          log_flush_loop fuel' (count + 1)
      end
  end.

Fixpoint log_lock_loop (fuel : nat) : prog prs_log unit :=
  match fuel with
  | O => Spin
  | S fuel => lock ← prs_pal_atomic_exchange log_spinlock true; if (lock : bool) then log_lock_loop fuel else mret tt
  end.

Definition prs_log_flush (fuel : nat) : prog prs_log Z :=
  _ ← log_lock_loop fuel;
  count ← log_flush_loop fuel 0;
  _ ← prs_pal_atomic_store log_spinlock false;
  mret count.

(** ** The service *)

(** [prs_svc_log_task] sleeps, flushes the log, and sleeps the longer the fewer lines
    there were: one round of its loop after [prs_log_flush] returned [entries_written].
    [PRS_HZ] is 1000; [prs_ticks_t] has 32 bits and [prs_int_t] 64. *)
Definition svc_log_next (ticks_to_wait entries_written : Z) : outcome Z :=
  let max_ticks_to_wait := 1000 in
  let min_ticks_to_wait := 100 in
  let ms := u32 (ticks_to_wait * 1000) / 1000 in
  if ms =? 0 then Undef (* a division by zero *)
  else
    let entries_per_second := Z.quot (1000 * entries_written) ms in
    let ms_to_wait := Z.quot 1000 (if truthy entries_per_second then entries_per_second else 1) in
    let ticks_to_wait := u32 (ms_to_wait * 1000 / 1000) in
    let ticks_to_wait := if max_ticks_to_wait <? ticks_to_wait then max_ticks_to_wait else ticks_to_wait in
    let ticks_to_wait := if ticks_to_wait <? min_ticks_to_wait then min_ticks_to_wait else ticks_to_wait in
    Ret ticks_to_wait.

(** The waits of the service, from the numbers of lines of its rounds. *)
Fixpoint svc_log_waits (ticks_to_wait : Z) (entries_written : list Z) : outcome (list Z) :=
  match entries_written with
  | [] => Ret [ticks_to_wait]
  | n :: ns => next ← svc_log_next ticks_to_wait n; waits ← svc_log_waits next ns; Ret (ticks_to_wait :: waits)
  end.

(** ** What a line looks like *)

Lemma length_digits fuel n : (length (digits fuel n) ≤ fuel)%nat.
Proof.
  revert n. induction fuel as [|fuel IH]; intros n; [done|]. cbn [digits]. destruct (n <? 10); [cbn; lia|].
  rewrite length_app. cbn [length]. specialize (IH (n / 10)). lia.
Qed.

Lemma length_ticks_text n : (3 ≤ length (ticks_text n) ≤ 13)%nat.
Proof.
  unfold ticks_text, print_uint6, print_uint. pose proof (length_digits 10 (u32 n)).
  rewrite !length_app, length_replicate. cbn [length]. lia.
Qed.

Lemma length_overflow_text n : (6 ≤ length (overflow_text n) ≤ 16)%nat.
Proof.
  unfold overflow_text, print_uint. pose proof (length_digits 10 (u32 n)). rewrite !length_app. cbn [length]. lia.
Qed.

Lemma take_overwrite b i xs (n : nat) :
  0 ≤ i ≤ Z.of_nat (length b) → (n ≤ length xs)%nat →
  take (Z.to_nat i + n) (overwrite b i xs) = take (Z.to_nat i) b ++ take n xs.
Proof.
  intros Hi Hn. unfold overwrite. rewrite take_app, length_take.
  rewrite (take_ge (take (Z.to_nat i) b)) by (rewrite length_take; lia). f_equal.
  replace (Z.to_nat i + n - _)%nat with n by lia. by rewrite take_app_le.
Qed.

(** The buffer holds [line], and the position is behind it. *)
Definition holds (line : list Z) (r : list Z * Z) : Prop :=
  Z.of_nat (length r.1) = PRS_MAX_LOG_ENTRY_SIZE ∧ r.2 = Z.of_nat (length line) ∧ take (length line) r.1 = line.

Lemma holds_overwrite line xs ys r :
  holds line r → Z.of_nat (length line + length (xs ++ ys)) ≤ PRS_MAX_LOG_ENTRY_SIZE →
  holds (line ++ xs) (overwrite r.1 r.2 (xs ++ ys), r.2 + Z.of_nat (length xs)).
Proof.
  intros (Hlen & Ho & Htake) Hfit. rewrite length_app in Hfit. unfold holds, PRS_MAX_LOG_ENTRY_SIZE in *. split_and!; cbn [fst snd].
  - rewrite length_overwrite; rewrite ?length_app; lia.
  - rewrite length_app. lia.
  - rewrite length_app. pose proof (take_overwrite r.1 r.2 (xs ++ ys) (length xs)) as Hov.
    rewrite Ho in *. rewrite Nat2Z.id, Htake, take_app_length in Hov. apply Hov; rewrite ?length_app; lia.
Qed.

(** A formatted text fits, or the position is reset. *)
Lemma append_text line text r :
  holds line r → Z.of_nat (length line) < PRS_MAX_LOG_ENTRY_SIZE → Z.of_nat (length text) < 2 ^ 31 →
  ∃ r', prs_str_append_vprintf r.1 r.2 PRS_MAX_LOG_ENTRY_SIZE (Some text) = Ret r' ∧
    holds (if Z.of_nat (length (line ++ text)) <? PRS_MAX_LOG_ENTRY_SIZE then line ++ text else []) r'.
Proof.
  intros Hr Hlt Htext. pose proof Hr as (Hlen & Ho & _). rewrite length_app, Nat2Z.inj_add, <- Ho.
  rewrite str_append_vprintf_exact by (unfold PRS_MAX_LOG_ENTRY_SIZE in *; lia).
  destruct (Z.ltb_spec (r.2 + Z.of_nat (length text)) PRS_MAX_LOG_ENTRY_SIZE); (eexists; split; [reflexivity|]).
  - apply holds_overwrite; [done|]. rewrite length_app. cbn [length]. unfold PRS_MAX_LOG_ENTRY_SIZE in *. lia.
  - split_and!; [|done|done]. cbn [fst]. unfold PRS_MAX_LOG_ENTRY_SIZE in *.
    rewrite length_overwrite; rewrite ?length_app, ?length_take; cbn [length]; lia.
Qed.

(** A string fits with its null, or the null is written past the end. *)
Lemma append_string line str rest r :
  holds line r → Z.of_nat (length line) ≤ PRS_MAX_LOG_ENTRY_SIZE → Forall (λ c, c ≠ 0) str →
  if Z.of_nat (length (line ++ str)) <? PRS_MAX_LOG_ENTRY_SIZE
  then ∃ r', prs_str_append r.1 (str ++ 0 :: rest) r.2 PRS_MAX_LOG_ENTRY_SIZE = Ret r' ∧ holds (line ++ str) r'
  else prs_str_append r.1 (str ++ 0 :: rest) r.2 PRS_MAX_LOG_ENTRY_SIZE = Undef.
Proof.
  intros Hr Hle Hnz. pose proof Hr as (Hlen & Ho & _). rewrite length_app, Nat2Z.inj_add, <- Ho.
  unfold prs_str_append. rewrite (append_loop_spec _ _ str) by (first [by split; [|by eexists]|lia]). ocbn.
  destruct (Z.ltb_spec (r.2 + Z.of_nat (length str)) PRS_MAX_LOG_ENTRY_SIZE).
  - rewrite Z.min_l, Nat2Z.id, take_ge by lia. rewrite store_in by (rewrite length_overwrite; lia). ocbn.
    rewrite overwrite_snoc by lia. eexists. split; [reflexivity|].
    apply holds_overwrite; [done|]. rewrite length_app. cbn [length]. lia.
  - rewrite Z.min_r by lia. rewrite store_out; [done|].
    rewrite length_overwrite by (rewrite ?length_take; lia). lia.
Qed.

(** What is before the text, and the whole line but for the newline. *)
Definition log_prefix (overflow_count ticks : Z) (name fmt : option (list Z)) : list Z :=
  (if truthy overflow_count then overflow_text overflow_count else []) ++ ticks_text ticks ++
  match name with
  | Some name => name ++ match fmt with Some _ => [58; 32] | None => [] end
  | None => []
  end.
Definition log_line (overflow_count ticks : Z) (name fmt : option (list Z)) : list Z :=
  log_prefix overflow_count ticks name fmt ++ default [] fmt.

(** The part of a line before the function. *)
Lemma log_head_ok buf overflow_count ticks :
  Z.of_nat (length buf) = PRS_MAX_LOG_ENTRY_SIZE →
  let head := (if truthy overflow_count then overflow_text overflow_count else []) ++ ticks_text ticks in
  ∃ r0 r, (if truthy overflow_count then prs_str_append_printf buf 0 PRS_MAX_LOG_ENTRY_SIZE (Some (overflow_text overflow_count))
           else Ret (buf, 0)) = Ret r0 ∧
    prs_str_append_printf r0.1 r0.2 PRS_MAX_LOG_ENTRY_SIZE (Some (ticks_text ticks)) = Ret r ∧ holds head r ∧ (length head ≤ 29)%nat.
Proof.
  intros Hlen head. pose proof (length_overflow_text overflow_count) as Hov. pose proof (length_ticks_text ticks) as Htk.
  assert (holds [] (buf, 0)) as H0 by by split_and!.
  unfold prs_str_append_printf, head. destruct (truthy overflow_count).
  - destruct (append_text [] (overflow_text overflow_count) (buf, 0)) as (r0 & Hr0 & Hh0); [done|done|lia|].
    rewrite (proj2 (Z.ltb_lt _ _)) in Hh0 by (unfold PRS_MAX_LOG_ENTRY_SIZE; rewrite length_app; cbn [length]; lia).
    destruct (append_text _ (ticks_text ticks) r0 Hh0) as (r & Hr & Hh); [unfold PRS_MAX_LOG_ENTRY_SIZE; rewrite length_app; cbn [length]; lia|lia|].
    rewrite (proj2 (Z.ltb_lt _ _)) in Hh by (unfold PRS_MAX_LOG_ENTRY_SIZE; rewrite !length_app; cbn [length]; lia).
    exists r0, r. split_and!; [exact Hr0|exact Hr|exact Hh|]. rewrite length_app. lia.
  - destruct (append_text [] (ticks_text ticks) (buf, 0)) as (r & Hr & Hh); [done|done|lia|].
    rewrite (proj2 (Z.ltb_lt _ _)) in Hh by (unfold PRS_MAX_LOG_ENTRY_SIZE; rewrite length_app; cbn [length]; lia).
    exists (buf, 0), r. split_and!; [done|exact Hr|exact Hh|]. cbn [app]. lia.
Qed.

(** The name of the function, with its colon. *)
Lemma log_name_ok head r name rest (fmt : option (list Z)) :
  holds head r → (length head ≤ 29)%nat → Forall (λ c, c ≠ 0) (default [] name) →
  let prefix := head ++ match name with Some name => name ++ match fmt with Some _ => [58; 32] | None => [] end | None => [] end in
  let run :=
    match (λ name, name ++ 0 :: rest) <$> name with
    | Some function =>
        '(buf, offset) ← prs_str_append r.1 function r.2 PRS_MAX_LOG_ENTRY_SIZE;
        match fmt with
        | Some _ => prs_str_append buf [58; 32; 0] offset PRS_MAX_LOG_ENTRY_SIZE
        | None => Ret (buf, offset)
        end
    | None => Ret r
    end in
  if Z.of_nat (length prefix) <? PRS_MAX_LOG_ENTRY_SIZE then ∃ r', run = Ret r' ∧ holds prefix r' else run = Undef.
Proof.
  intros Hr Hle Hnz. destruct name as [name|]; cbn [fmap option_fmap option_map default] in *; cbv zeta.
  - pose proof (append_string head name rest r Hr ltac:(unfold PRS_MAX_LOG_ENTRY_SIZE; lia) Hnz) as Hname.
    destruct (Z.ltb_spec (Z.of_nat (length (head ++ name))) PRS_MAX_LOG_ENTRY_SIZE) as [Hfit|Hfit].
    + destruct Hname as ([b o] & -> & Hh). ocbn. destruct fmt as [text|].
      * rewrite app_assoc. apply (append_string (head ++ name) [58; 32] [] (b, o)); [done|lia|by repeat constructor].
      * rewrite app_nil_r, (proj2 (Z.ltb_lt _ _)) by done. by eexists.
    + rewrite Hname. rewrite (proj2 (Z.ltb_ge _ _)); [done|]. rewrite !length_app in *. lia.
  - rewrite app_nil_r, (proj2 (Z.ltb_lt _ _)) by (unfold PRS_MAX_LOG_ENTRY_SIZE; lia). by exists r.
Qed.

(** The text and the newline. *)
Lemma log_tail_ok prefix r fmt :
  holds prefix r → Z.of_nat (length prefix) < PRS_MAX_LOG_ENTRY_SIZE → Z.of_nat (length (default [] fmt)) < 2 ^ 31 →
  let line := prefix ++ default [] fmt in
  let run :=
    '(buf, offset) ←
      match fmt with
      | Some text => prs_str_append_vprintf r.1 r.2 PRS_MAX_LOG_ENTRY_SIZE (Some text)
      | None => Ret r
      end;
    prs_str_append buf [10; 0] offset PRS_MAX_LOG_ENTRY_SIZE in
  let kept := if Z.of_nat (length line) <? PRS_MAX_LOG_ENTRY_SIZE then line else [] in
  if Z.of_nat (length (kept ++ [10])) <? PRS_MAX_LOG_ENTRY_SIZE then ∃ r', run = Ret r' ∧ holds (kept ++ [10]) r' else run = Undef.
Proof.
  intros Hr Hlt Htext line run kept.
  assert (∃ r', match fmt with
    | Some text => prs_str_append_vprintf r.1 r.2 PRS_MAX_LOG_ENTRY_SIZE (Some text)
    | None => Ret r
    end = Ret r' ∧ holds kept r') as ([b o] & Hrun & Hk).
  { unfold kept, line. destruct fmt as [text|]; cbn [default] in *; [by apply append_text|].
    rewrite app_nil_r, (proj2 (Z.ltb_lt _ _)) by done. by exists r. }
  unfold run. rewrite Hrun. ocbn. apply (append_string kept [10] [] (b, o)); [done| |by repeat constructor].
  unfold kept. destruct (Z.ltb_spec (Z.of_nat (length line)) PRS_MAX_LOG_ENTRY_SIZE); [lia|]. unfold PRS_MAX_LOG_ENTRY_SIZE. cbn. lia.
Qed.

(** C32: The line that the log writes, whatever was lost before, with or without the name of
    a function and a text.  It is the number of lost lines, if there are any, the time, the
    name, a colon between name and text, the text and a newline, when all of it and a null
    fit in the entry.  A name that does not fit, with its colon and a null, makes the null
    go past the end of the buffer, and so does the newline when exactly one cell is left
    for it.  A text that does not fit is not cut: the position comes back as 0, and the
    line is a newline alone. *)
Theorem log_format_exact buf overflow_count ticks name rest fmt :
  Z.of_nat (length buf) = PRS_MAX_LOG_ENTRY_SIZE → Forall (λ c, c ≠ 0) (default [] name) →
  Z.of_nat (length (default [] fmt)) < 2 ^ 31 →
  let function := (λ name, name ++ 0 :: rest) <$> name in
  let prefix := log_prefix overflow_count ticks name fmt in
  let line := log_line overflow_count ticks name fmt in
  (Z.of_nat (length line) ≤ 254 →
    ∃ buf', log_format buf overflow_count ticks function fmt = Ret (buf', Z.of_nat (length line) + 1) ∧
      take (length line + 1) buf' = line ++ [10]) ∧
  (256 ≤ Z.of_nat (length prefix) ∨ Z.of_nat (length line) = 255 →
    log_format buf overflow_count ticks function fmt = Undef) ∧
  (Z.of_nat (length prefix) ≤ 255 → 256 ≤ Z.of_nat (length line) →
    ∃ buf', log_format buf overflow_count ticks function fmt = Ret (buf', 1) ∧ take 1 buf' = [10]).
Proof.
  intros Hlen Hnz Htext function prefix line.
  destruct (log_head_ok buf overflow_count ticks Hlen) as ([b0 o0] & [b1 o1] & H0 & H1 & Hh & Hle).
  pose proof (log_name_ok _ (b1, o1) name rest fmt Hh Hle Hnz) as Hname. cbn [fst snd] in H1, Hname.
  rewrite <- app_assoc in Hname. fold (log_prefix overflow_count ticks name fmt) prefix function in Hname.
  assert (length prefix ≤ length line)%nat as Hpl by (unfold line, log_line; fold prefix; rewrite length_app; lia).
  unfold log_format. rewrite H0. ocbn. rewrite H1. ocbn.
  destruct (Z.ltb_spec (Z.of_nat (length prefix)) PRS_MAX_LOG_ENTRY_SIZE) as [Hfit|Hfit]; unfold PRS_MAX_LOG_ENTRY_SIZE in Hfit.
  2:{ rewrite Hname. split_and!; intros; first [done|lia]. }
  destruct Hname as ([b2 o2] & -> & Hh2). ocbn.
  pose proof (log_tail_ok prefix (b2, o2) fmt Hh2 Hfit Htext) as Htail. cbn [fst snd] in Htail. cbv zeta in Htail.
  change (prefix ++ default [] fmt) with line in Htail.
  assert (PRS_MAX_LOG_ENTRY_SIZE = 256) as E by done.
  destruct (Z.ltb_spec (Z.of_nat (length line)) PRS_MAX_LOG_ENTRY_SIZE) as [Hl|Hl]; rewrite ?length_app in Htail; cbn [length app] in Htail.
  - split_and!; [intros Hb|intros [Hb|Hb]; [lia|]|intros; lia].
    + rewrite (proj2 (Z.ltb_lt _ _)) in Htail by lia. destruct Htail as ([b3 o3] & Hrun & (_ & Ho & Ht)). cbn [fst snd] in *.
      rewrite length_app in Ho, Ht. cbn [length] in Ho, Ht. exists b3. split; [|done]. rewrite Hrun. do 2 f_equal. lia.
    + rewrite (proj2 (Z.ltb_ge _ _)) in Htail by lia. exact Htail.
  - split_and!; [intros; lia|intros [Hb|Hb]; lia|intros _ _]. destruct Htail as ([b3 o3] & Hrun & (_ & Ho & Ht)). cbn in Ho, Ht. subst o3. by exists b3.
Qed.

(** Three lost lines, the function "f" and the text "hi"; names and texts that do not fit. *)
Lemma log_format_exact_witness :
  let buf := replicate 256 7 in
  (∃ buf', log_format buf 3 42 (Some [102; 0]) (Some [104; 105]) = Ret (buf', 22) ∧
     take 22 buf' = [79; 86; 70; 58; 32; 51; 10; 91; 32; 32; 32; 32; 52; 50; 93; 32; 102; 58; 32; 104; 105; 10]) ∧
  log_format buf 0 42 None (Some (replicate 246 97)) = Undef ∧
  log_format buf 0 42 (Some (replicate 250 97 ++ [0])) None = Undef ∧
  (∃ buf', log_format buf 0 42 None (Some (replicate 247 97)) = Ret (buf', 1) ∧ take 1 buf' = [10]).
Proof.
  intros buf. split_and!.
  - destruct (log_format_exact buf 3 42 (Some [102]) [] (Some [104; 105])) as ((buf' & H1 & H2) & _); [reflexivity|by repeat constructor|simpl; lia|vm_compute; discriminate|].
    by exists buf'.
  - destruct (log_format_exact buf 0 42 None [] (Some (replicate 246 97))) as (_ & H & _); [reflexivity|constructor|simpl; lia|].
    apply H. right. reflexivity.
  - destruct (log_format_exact buf 0 42 (Some (replicate 250 97)) [] None) as (_ & H & _); [reflexivity|by apply Forall_replicate|simpl; lia|].
    apply H. left. vm_compute. discriminate.
  - destruct (log_format_exact buf 0 42 None [] (Some (replicate 247 97))) as (_ & _ & H); [reflexivity|constructor|simpl; lia|].
    apply H; vm_compute; discriminate.
Defined.

(** ** The rhythm of the service *)

Lemma svc_log_next_exact t n :
  100 ≤ t ≤ 1000 → 0 ≤ n →
  svc_log_next t n = Ret (Z.max 100 (Z.min 1000 (1000 / Z.max 1 (1000 * n / t)))).
Proof.
  intros Ht Hn. unfold svc_log_next.
  assert (u32 (t * 1000) / 1000 = t) as -> by (rewrite u32_small by lia; apply Z.div_mul; lia).
  rewrite (proj2 (Z.eqb_neq _ _)) by lia. cbv zeta. rewrite (Z.quot_div_nonneg (1000 * n)) by lia.
  pose proof (Z.div_pos (1000 * n) t ltac:(lia) ltac:(lia)) as Hpos.
  assert ((if truthy (1000 * n / t) then 1000 * n / t else 1) = Z.max 1 (1000 * n / t)) as ->.
  { unfold truthy. destruct (Z.eqb_spec (1000 * n / t) 0) as [->|]; cbn [negb]; lia. }
  set (e := Z.max 1 (1000 * n / t)). assert (1 ≤ e) as He by lia. rewrite Z.quot_div_nonneg by lia.
  pose proof (Z.div_pos 1000 e ltac:(lia) ltac:(lia)). pose proof (Z.div_le_upper_bound 1000 e 1000 ltac:(lia) ltac:(lia)).
  rewrite Z.div_mul, u32_small by lia. f_equal.
  destruct (Z.ltb_spec 1000 (1000 / e)); [lia|]. destruct (Z.ltb_spec (1000 / e) 100); lia.
Qed.

(** Whatever the numbers of lines that the log service writes, it never divides by zero,
    and it sleeps between a tenth of a second and a second before each flush. *)
Lemma svc_log_waits_bounded ns :
  Forall (λ n, 0 ≤ n) ns →
  ∃ waits, svc_log_waits 100 ns = Ret waits ∧ length waits = S (length ns) ∧ Forall (λ w, 100 ≤ w ≤ 1000) waits.
Proof.
  assert (∀ t, 100 ≤ t ≤ 1000 → Forall (λ n, 0 ≤ n) ns →
    ∃ waits, svc_log_waits t ns = Ret waits ∧ length waits = S (length ns) ∧ Forall (λ w, 100 ≤ w ≤ 1000) waits) as Hall.
  { induction ns as [|n ns IH]; intros t Ht Hns.
    - exists [t]. split_and!; [done|done|by constructor].
    - apply Forall_cons in Hns as [Hn Hns]. cbn [svc_log_waits]. rewrite svc_log_next_exact by done. ocbn.
      destruct (IH (Z.max 100 (Z.min 1000 (1000 / Z.max 1 (1000 * n / t))))) as (ws & Hws & Hlen & Hall); [lia|done|].
      exists (t :: ws). rewrite Hws. split_and!; [done|cbn; by rewrite Hlen|by constructor]. }
  intros Hns. apply Hall; [lia|done].
Qed.

