(* ===== verification/Init.v ===== *)
(** * Start-up and exit (prs/init.c, prs/gpd.c, prs/main.c)

    The memory of init.c is that of the kernel and its own static variables.  The creation of
    the object and pointer directories (God.v, Pd.v), the log (Log.v), the platform and the
    system information are not repeated here: the kernel's memory starts with them.  What is
    printed is left out.  [self] is the worker of the calling thread. *)

From S2P Require Import Prelude Str Heap Atomic RefDir Kern Pal Worker Task Event Timer Clock Swprio Name.
From S2P Require Import Sched TaskLife Sem Msgq Proc Excp Pr SvcProc.

Definition PRS_MAX_CPU : Z := 32.

(** [i_exited] is the status that the program has exited with. *)
Record init_mem : Type := InitMem {
  i_kern : kern;
  i_core_count : Z;
  i_scheduler_ids : list Z;
  i_uninit : bool;
  i_main_sched_id : Z;
  i_main_exit : bool;
  i_exit_status : Z;
  i_exited : option Z
}.

Definition with_kern (v : kern) (c : init_mem) : init_mem :=
  InitMem v (i_core_count c) (i_scheduler_ids c) (i_uninit c) (i_main_sched_id c) (i_main_exit c) (i_exit_status c) (i_exited c).

(** The static variables. *)
Definition s_prs_core_count : cell init_mem Z := Cell (λ c, Ret (i_core_count c)) (λ v c,
  Ret (InitMem (i_kern c) v (i_scheduler_ids c) (i_uninit c) (i_main_sched_id c) (i_main_exit c) (i_exit_status c) (i_exited c))).
Definition s_prs_scheduler_ids : cell init_mem (list Z) := Cell (λ c, Ret (i_scheduler_ids c)) (λ v c,
  Ret (InitMem (i_kern c) (i_core_count c) v (i_uninit c) (i_main_sched_id c) (i_main_exit c) (i_exit_status c) (i_exited c))).
Definition s_prs_uninit : cell init_mem bool := Cell (λ c, Ret (i_uninit c)) (λ v c,
  Ret (InitMem (i_kern c) (i_core_count c) (i_scheduler_ids c) v (i_main_sched_id c) (i_main_exit c) (i_exit_status c) (i_exited c))).
Definition s_prs_main_sched_id : cell init_mem Z := Cell (λ c, Ret (i_main_sched_id c)) (λ v c,
  Ret (InitMem (i_kern c) (i_core_count c) (i_scheduler_ids c) (i_uninit c) v (i_main_exit c) (i_exit_status c) (i_exited c))).
Definition s_prs_main_exit : cell init_mem bool := Cell (λ c, Ret (i_main_exit c)) (λ v c,
  Ret (InitMem (i_kern c) (i_core_count c) (i_scheduler_ids c) (i_uninit c) (i_main_sched_id c) v (i_exit_status c) (i_exited c))).
Definition s_prs_exit_status : cell init_mem Z := Cell (λ c, Ret (i_exit_status c)) (λ v c,
  Ret (InitMem (i_kern c) (i_core_count c) (i_scheduler_ids c) (i_uninit c) (i_main_sched_id c) (i_main_exit c) v (i_exited c))).
Definition exited : cell init_mem (option Z) := Cell (λ c, Ret (i_exited c)) (λ v c,
  Ret (InitMem (i_kern c) (i_core_count c) (i_scheduler_ids c) (i_uninit c) (i_main_sched_id c) (i_main_exit c) (i_exit_status c) v)).

(** A call of the kernel. *)
Definition kcall {A : Type} (p : prog kern A) : prog init_mem A := zoom i_kern with_kern p.

(** [s_prs_scheduler_ids[i]], and an assignment to it. *)
Definition read_id (i : Z) : prog init_mem Z := act (λ c, x ← load (i_scheduler_ids c) i; Ret (x, c)).
Definition write_id (i v : Z) : prog init_mem unit :=
  act (λ c, ids ← store (i_scheduler_ids c) i v; c ← cell_set s_prs_scheduler_ids ids c; Ret (tt, c)).

(** "swprio%d" *)
Definition sched_name_text (i : Z) : list Z := [115; 119; 112; 114; 105; 111] ++ print_uint i.

(** What the platform gives: the number of cores, and a thread for a core, on the current
    thread or not. *)
Class InitPlatform : Type := {
  prs_pal_os_get_core_count : Z;
  prs_pal_thread_create : Z → bool → prog kern ptr
}.

(** [struct prs_init_params] *)
Record prs_init_params : Type := PrsInitParams { use_current_thread : bool; core_mask : Z }.

(** [mask & (1 << i)] *)
Definition in_mask (mask i : Z) : bool := truthy (Z.land mask (Z.shiftl 1 i)).

Section exit.
Context `{!ObjectFree, !Pit} (fuel : nat).

(** *** Exit *)

(** [f] of the schedulers, but for [except_id], from the [n]th down. *)
Fixpoint each_sched (n : nat) (except_id : Z) (f : Z → prog kern prs_result) : prog init_mem unit :=
  match n with
  | O => mret tt
  | S n =>
      sched_id ← read_id (Z.of_nat n);
      _ ← (if (sched_id =? 0) || (sched_id =? except_id) then mret tt else _ ← kcall (f sched_id); mret tt);
      each_sched n except_id f
  end.

Definition prs_uninit_final (self : ptr) (except_id : Z) : prog init_mem unit :=
  n ← read s_prs_core_count;
  _ ← each_sched (Z.to_nat n) except_id (prs_sched_stop self);
  n ← read s_prs_core_count;
  each_sched (Z.to_nat n) except_id (prs_sched_destroy fuel).

(** It waits for ever. *)
Definition prs_uninit_wait (self : ptr) : prog init_mem unit :=
  worker ← kcall (nonnull self);
  _ ← kcall (let _ : GetNext := prs_sched_get_next fuel in prs_worker_int_enable fuel worker);
  Spin.

Definition prs_uninit (self : ptr) (from_excp : bool) : prog init_mem unit :=
  already_uninitializing ← prs_pal_atomic_exchange s_prs_uninit true;
  finish ← (if (already_uninitializing : bool) then
              if (from_excp : bool) then mret false
              else match prs_worker_current self with
                   | None => mret false
                   | Some _ => _ ← prs_uninit_wait self; mret true
                   end
            else mret true);
  if (finish : bool) then
    _ ← kcall prs_clock_uninit;
    current_task ← kcall (prs_task_current self);
    current_sched_id ← match current_task with Some task => kcall (read (task_sched_id task)) | None => mret 0 end;
    _ ← (if (from_excp : bool) then mret tt
         else
           main_sched_id ← prs_pal_atomic_load s_prs_main_sched_id;
           if (main_sched_id =? 0) || (main_sched_id =? current_sched_id) then mret tt
           else
             _ ← prs_pal_atomic_store s_prs_main_exit true;
             _ ← kcall (prs_sched_destroy fuel main_sched_id);
             prs_uninit_wait self);
    prs_uninit_final self current_sched_id
  else mret tt.

(** [prs_pal_exit] ends the program: its callers do nothing after it. *)
Definition prs_fast_exit (status : Z) : prog init_mem unit := write exited (Some status).

Definition prs_exit (self : ptr) (status : Z) : prog init_mem unit :=
  _ ← prs_uninit self false;
  prs_fast_exit status.

Definition prs_exit_from_excp (self : ptr) (status : Z) : prog init_mem unit :=
  _ ← prs_uninit self true;
  prs_fast_exit status.
End exit.

Section init.
Context `{!ObjectFree, !Pit, !TaskParts, !ProcService, !PalProc, !ExcpParts, !ExcpHandlers, !InitPlatform}.
Context (fuel : nat) (filter_function_address : loc) (address : Z) (local : loc).
(* the entry points of init1 and of the services *)
Context (init1_entry svc_log_entry svc_proc_entry : ptr).

(** The loop of [prs_find_last_sched], from [n - 1] down. *)
Fixpoint find_last_sched (n : nat) : prog kern Z :=
  match n with
  | O => mret 0
  | S n =>
      sched_id ← prs_sched_find fuel (sched_name_text (Z.of_nat n) ++ [0]);
      if truthy sched_id then mret sched_id else find_last_sched n
  end.

Definition prs_find_last_sched : prog kern Z := find_last_sched (Z.to_nat PRS_MAX_CPU).

(** [prs_svc_log_init] (prs/svc/log.c) *)
Definition prs_svc_log_init (self : ptr) (sched_id prio : Z) : prog kern unit :=
  svc_init fuel self [112; 114; 115; 95; 115; 118; 99; 95; 108; 111; 103; 0] 8192 svc_log_entry sched_id prio.

Definition current_sched (self : ptr) : prog kern Z :=
  task ← prs_task_current self; task ← nonnull task; read (task_sched_id task).

(** The string an argument points to, in the buffer of the current process. *)
Definition arg_string (self : ptr) (off : Z) : prog kern (list Z) :=
  task ← prs_task_current self;
  task ← nonnull task;
  id ← read (task_proc_id task);
  proc ← god_find id;
  proc ← nonnull proc;
  buffer ← read (proc_cmdline_buffer proc);
  buffer ← nonnull buffer;
  bytes ← read (block buffer);
  mret (drop (Z.to_nat off) bytes).

(** "init2.exe" and "init2" *)
Definition init2_exe : list Z := [105; 110; 105; 116; 50; 46; 101; 120; 101; 0].
Definition init2_name : list Z := [105; 110; 105; 116; 50; 0].

(** The file that init2 is loaded from: the first argument, if there is one. *)
Definition init2_filename (self : ptr) : prog kern (list Z) :=
  argc ← prs_proc_get_argc self;
  if 1 <? argc then
    arg ← prs_proc_get_argv self 1;
    match arg with Some off => arg_string self off | None => pure Undef end
  else mret init2_exe.

Definition prs_init1_task (self : ptr) : prog init_mem unit :=
  worker ← kcall (nonnull (prs_worker_current self));
  _ ← kcall (prs_worker_int_disable worker);
  _ ← kcall (let _ : GetNext := prs_sched_get_next fuel in prs_worker_int_enable fuel worker);
  last ← kcall prs_find_last_sched;
  _ ← kcall (prs_svc_log_init self last (PRS_MAX_TASK_PRIO - 1));
  _ ← kcall (prs_proc_init fuel self);
  sched_id ← kcall (current_sched self);
  _ ← kcall (prs_svc_proc_init fuel self svc_proc_entry sched_id (PRS_MAX_TASK_PRIO - 1));
  proc_task_id ← kcall (prs_task_find fuel PRS_PROC_SVC_NAME);
  _ ← kcall (fatal_if (proc_task_id =? 0));
  filename ← kcall (init2_filename self);
  sched_id ← kcall (current_sched self);
  proc_id ← kcall (prs_proc_send_exec fuel self filter_function_address address local proc_task_id filename filename
                     (PrsTaskCreateParams init2_name None 16384 (PRS_MAX_TASK_PRIO - 1) None) sched_id);
  _ ← (if proc_id =? 0 then prs_exit fuel self (-1) else mret tt);
  _ ← kcall (prs_worker_int_disable worker);
  kcall (let _ : GetNext := prs_sched_get_next fuel in prs_worker_int_enable fuel worker).

(** One core: its thread, its scheduler and, for the first one, the task init1. *)
Definition init_core (self : ptr) (params : prs_init_params) (i : Z) (first : bool) : prog init_mem bool :=
  if negb (in_mask (core_mask params) i) then _ ← write_id i 0; mret first
  else
    let from_current := if first then use_current_thread params else false in
    pal_thread ← kcall (prs_pal_thread_create (Z.shiftl 1 i) from_current);
    _ ← kcall (fatal_if (bool_decide (pal_thread = None)));
    pal_thread ← kcall (nonnull pal_thread);
    '(name, _) ← kcall (pure (prs_str_printf (replicate 32 0) 32 (Some (sched_name_text i))));
    '(result, sched_id) ← kcall (prs_sched_create fuel (PrsSchedCreateParams name prs_sched_swprio_ops));
    _ ← kcall (fatal_if (bool_decide (result ≠ PRS_OK)));
    sched_id ← kcall (pure (deref sched_id));
    _ ← write_id i sched_id;
    _ ← (if from_current then
           _ ← prs_pal_atomic_store s_prs_main_sched_id sched_id;
           prs_pal_atomic_store s_prs_main_exit false
         else mret tt);
    result ← kcall (prs_sched_add_thread sched_id pal_thread);
    _ ← kcall (fatal_if (bool_decide (result ≠ PRS_OK)));
    if first then
      task ← kcall (prs_task_create fuel self
               (PrsTaskCreateParams [105; 110; 105; 116; 49; 0] None 16384 (PRS_MAX_TASK_PRIO - 1) init1_entry));
      _ ← kcall (fatal_if (bool_decide (task = None)));
      task ← kcall (nonnull task);
      task_id ← kcall (prs_task_get_id task);
      result ← kcall (prs_sched_add_task sched_id task_id);
      _ ← kcall (fatal_if (bool_decide (result ≠ PRS_OK)));
      mret false
    else mret first.

(** The cores from [i] on, [n] of them. *)
Fixpoint init_cores (n : nat) (i : Z) (self : ptr) (params : prs_init_params) (first : bool) : prog init_mem unit :=
  match n with
  | O => mret tt
  | S n => first ← init_core self params i first; init_cores n (i + 1) self params first
  end.

(** The schedulers start from the last one down. *)
Fixpoint start_cores (n : nat) (params : prs_init_params) : prog init_mem unit :=
  match n with
  | O => mret tt
  | S n =>
      _ ← (if negb (in_mask (core_mask params) (Z.of_nat n)) then mret tt
           else
             sched_id ← read_id (Z.of_nat n);
             result ← kcall (prs_sched_start fuel sched_id);
             kcall (fatal_if (bool_decide (result ≠ PRS_OK))));
      start_cores n params
  end.

(** The number of cores that are used. *)
Definition core_count_used : Z :=
  if PRS_MAX_CPU <=? prs_pal_os_get_core_count then PRS_MAX_CPU else prs_pal_os_get_core_count.

(** The value returned; PRS_EXIT is defined. *)
Definition prs_init (self : ptr) (params : prs_init_params) : prog init_mem Z :=
  _ ← prs_pal_atomic_store s_prs_main_sched_id 0;
  _ ← kcall prs_excp_init;
  _ ← kcall prs_clock_init;
  _ ← write s_prs_core_count core_count_used;
  _ ← init_cores (Z.to_nat core_count_used) 0 self params true;
  _ ← prs_pal_atomic_store s_prs_uninit false;
  _ ← start_cores (Z.to_nat core_count_used) params;
  if use_current_thread params then
    must_exit ← prs_pal_atomic_load s_prs_main_exit;
    _ ← (if (must_exit : bool) then mret tt else Spin);
    main_sched_id ← prs_pal_atomic_load s_prs_main_sched_id;
    _ ← prs_uninit_final fuel self main_sched_id;
    status ← prs_pal_atomic_load s_prs_exit_status;
    _ ← prs_fast_exit status;
    mret status
  else mret 0.

Definition main (self : ptr) : prog init_mem Z :=
  _ ← prs_init self (PrsInitParams true 4294967295);
  mret 0.
End init.
